(* ===== verification/_CoqProject ===== *)
-Q . S2P
Prelude.v
Strings.v
Floats.v
Globs.v
Types.v
Chunks.v
Attrs.v
Selectors.v
Common.v
Protocol.v
Size.v
Conversions.v
RequestValues.v
MetaTrees.v
Mechanism.v
Quota.v
RateLimit.v
RedisLimiter.v
Filters.v
Sampling.v
Extractors.v
Envelopes.v
DynamicSampling.v
EnvelopeLimiter.v
Transactions.v
Sessions.v
Auth.v
ClockDrift.v
Native.v
Processor.v
StoreChecks.v
Breakdowns.v
NormalizeParts.v
Normalize.v
SecurityReports.v
Trimming.v
PiiRules.v
PiiConfig.v
PiiProcessor.v
PiiAttachments.v
FormData.v
MetricProtocol.v
MetricsExtraction.v
Aggregation.v
Aggregator.v
KafkaStore.v
Projects.v
Bodies.v
Http.v
Channels.v
Relays.v
ProjectSources.v
Upstream.v
Processing.v
EnvelopeManager.v
OutcomeProducers.v
Endpoints.v
StoreEndpoints.v
RelayConfig.v
Services.v
Cli.v
ConfigViews.v
