(* ===== verification/Prelude.v ===== *)
(** * Relay (getsentry/semaphore): verification development

    Relay receives events, attachments, sessions and metrics from SDKs, filters,
    samples, scrubs and rate limits them, and forwards them upstream or stores them.
    This library models the parts of its Rust workspace that decide what happens to
    the data, and proves what makes those decisions right.

    ** Files and the code they model

    Foundations:
    - [Prelude]: results, panics, machine integers, tactics, hints.
      [result E A] is [Result<A, E>]; [outcome A] is a computation that may panic.
    - [Strings], [Floats]: the operations of [str] and [f64] that the sources use,
      on bytes and on the Standard Library's executable IEEE 754 numbers.
    - [Common] (relay-common: constants.rs, project.rs, time.rs): event types,
      data categories, project keys, timestamps and clocks.
    - [Globs] (relay-common: utils.rs): path globs and their matching.

    Events (relay-general):
    - [Types] (types/): [Value], [Annotated], [Meta] and their operations;
      [Conversions] (types/impls.rs, types/value.rs, protocol/types.rs, tags.rs,
      thread.rs): conversions from and to values, [PairList], addresses, timestamps;
      [RequestValues] (protocol/request.rs, fingerprint.rs, logentry.rs,
      measurements.rs): types that clients send in several shapes;
      [MetaTrees] (types/annotated.rs): meta data as a tree beside the payload and
      its JSON; [Chunks] (processor/chunks.rs): strings with remarks.
    - [Protocol] (protocol/): the structures of an event; [Sessions]
      (protocol/session.rs, user_report.rs).
    - [Attrs], [Selectors], [Size], [Processor] (processor/): attributes and paths of
      fields, selectors with their parser, estimated sizes, and the [Processor] class
      with the walk over values.
    - [StoreChecks] (store/schema.rs, event_error.rs, legacy.rs, remove_other.rs),
      [Transactions] (store/transactions.rs, store/mod.rs), [ClockDrift]
      (store/clock_drift.rs), [Breakdowns], [Mechanism], [NormalizeParts], [Normalize]
      (store/normalize.rs and its directory) and [Trimming] (store/trimming.rs): the
      processors that check, complete, correct and cut down an event.
    - [SecurityReports] (protocol/security_report.rs): CSP, Expect-CT, HPKP and
      Expect-Staple reports as events.
    - [PiiRules], [PiiConfig], [PiiProcessor], [PiiAttachments] (pii/): the rules for
      personal data, their compilation from configurations, scrubbing of events and
      of binary attachments.

    Decisions:
    - [Quota], [RateLimit], [RedisLimiter] (relay-quotas): matching quotas to items,
      the collection of active limits, and counting in Redis by a Lua script.
    - [Filters] (relay-filter, relay-general: user_agent.rs): the inbound filters.
    - [Sampling] (relay-sampling) and [DynamicSampling] (relay-server:
      utils/dynamic_sampling.rs): rules, conditions and the two sampling steps.
    - [Auth] (relay-auth): keys, signatures and the registration handshake.

    The server (relay-server, relay-metrics):
    - [Extractors] (extractors/), [Envelopes] (envelope.rs), [EnvelopeLimiter]
      (utils/rate_limits.rs) and [FormData] (utils/multipart.rs, param_parser.rs):
      meta data of requests, envelopes on the wire and in memory, their rate
      limiting, and forms.
    - [Bodies] (body/, extractors/shared_payload.rs), [Endpoints] (endpoints/common.rs)
      and [StoreEndpoints] (endpoints/): how a request becomes a queued envelope, a
      response and outcomes.
    - [MetricProtocol], [Aggregation], [Aggregator] (relay-metrics) and
      [MetricsExtraction] (actors/envelopes.rs): parsing, aggregating, flushing and
      extracting metrics.
    - [Channels]: the oneshot channels behind batched queries; [Projects]
      (actors/project.rs, project_cache.rs), [ProjectSources] (actors/project_upstream.rs,
      project_local.rs, project_redis.rs) and [Relays] (actors/relays.rs): project
      states and public keys, their caches and the sources they are fetched from.
    - [Http] (http.rs, utils/api.rs, relay-common: retry.rs, relay-config: upstream.rs)
      and [Upstream] (actors/upstream.rs): requests, responses, and the actor that
      authenticates, queues, sends and retries them.
    - [Native] (utils/native.rs, unreal.rs): minidumps, Apple crash reports and Unreal
      reports as attachments and events.
    - [Processing] (actors/envelopes.rs): [EnvelopeProcessor], the pipeline that turns
      a received envelope into the one that is sent on; [EnvelopeManager]: queueing,
      the futures that drive an envelope through all other actors, and outcomes.
    - [Services] (actors/controller.rs, healthcheck.rs, endpoints/forward.rs,
      project_configs.rs, events.rs, healthcheck.rs, middlewares.rs): shutdown, health,
      the endpoints for other Relays and the one that forwards all other requests.
    - [KafkaStore] (actors/store.rs) and [OutcomeProducers] (actors/outcome.rs): where
      envelopes and outcomes end in processing mode, and how outcomes are batched.

    Configuration (relay-config, relay):
    - [RelayConfig] (config.rs, byte_size.rs): the values with their defaults, files,
      overrides, credentials and accessors; [ConfigViews]: the settings of the other
      components as views of it; [Cli] (relay: cli.rs, setup.rs, utils.rs): the
      commands that load, override and write the configuration.

    A request is read by [Bodies], becomes an envelope in [StoreEndpoints] and goes
    through the checks of [Endpoints], which asks the project cache of [Projects] and
    the rules of [DynamicSampling], to the manager of [EnvelopeManager].  The manager
    runs [Processing], which composes [FormData], [Native], [SecurityReports],
    [Sessions], [ClockDrift], [Transactions], [Filters], [DynamicSampling], [EnvelopeLimiter] and
    [RedisLimiter], and hands the result to [Upstream] or [KafkaStore].  [Projects]
    checks envelopes by project states, [RateLimit] and [EnvelopeLimiter], creates
    the aggregators and answers what they flush; its states come from
    [ProjectSources], whose answers [Relays] and [Auth] authenticate.  The event
    processors are instances of the class of [Processor], with the attributes of
    [Attrs] and the selectors of [Selectors].

    ** What the theorems show

    - Rate limiting: the Lua script refines an atomic check-and-count on flat
      arrays, accepts exactly when every tracked quota has room, never lets a counter
      pass its limit and changes nothing when it rejects; the collection of rate
      limits refines a map that takes maxima.
    - Requests and envelopes: bodies are read within their limit whatever their
      chunks, every request is answered, and the outcomes reported for it are exactly those of
      its dropped, sampled and rate limited items, parsing terminates without
      panics on every input, serializing and parsing round-trip, items are neither
      lost nor duplicated, the limiter removes exactly what its rules name and reports their quantities, and
      forwarded requests keep all but their hop-by-hop headers.
    - Filters and sampling: the verdict is the disjunction of the filters, the first
      matching rule decides, and sampling touches only items that require an event.
    - Events: conversions (of the types their theorems list) reject with an error or
      keep the value, and round-trip with the exceptions shown there, meta
      data survive their JSON, chunk functions are inverse to each other, normalized
      events can be stored and their tags are well formed, the time of an operation
      is that of the union of its spans, the schema holds after its processor, errors
      are collected with their paths, and trimmed values fit their budgets.
    - Personal data: what a rule selects is removed everywhere it is reached,
      compiled configurations mean what their rules say, attachments keep their size,
      and earlier redactions stay unless a match covers them, where a build with debug
      assertions panics.
    - Metrics: in every reachable state of the aggregator its queue and buckets
      agree, flushing conserves buckets, inserting groups metrics by key.
    - Actors: under any order of messages, answers and failures every request for a
      project state is resolved once and fetched until then; the upstream source and
      the cache of public keys serve every request, as long as their queries reach the
      upstream actor, and are stuck for good after one that did not; no
      upstream request is lost or answered twice, the number in flight is bounded and
      a queued one is never forgotten; the counter of active envelopes is exact, and
      outcomes are reported exactly for what nobody else accounts for, batched
      without loss; Relay shuts down only after every subscriber has answered.
    - Registration: a completed handshake authenticates the relay, and tokens that
      are old or not signed are refused; other Relays see only the project states that
      they may, and full configurations only if they are internal.
    - Configuration: overrides take effect and nothing else changes, the command line
      goes before the environment before the file, credentials survive a restart up to
      the public half inside their secret key, which is computed anew, and
      the default configuration satisfies what the components require.
    - Storage: chunks of attachments come before their event, in its partition, and
      concatenate to their payload; exploded sessions keep their numbers.
    - Some theorems show where the code departs from its comments or from what it
      means to do; they stand last in their files.

    ** Conventions

    Strings are byte sequences.  Unsigned integers are values of [Z] and wrap
    around where the code computes on them (the release profile does not check
    overflow, and debug assertions are left out but for the one of pii/processor.rs,
    modelled beside the release behaviour); division by zero, [unwrap] and slicing panic.  Clock readings are
    arguments.  Code outside of the repository is a class whose operations are
    parameters and whose laws, where a theorem needs them, are a class of their
    own with a concrete instance: among them [RedisStore], [FilterEnv],
    [SamplingEnv], [RequestEnv], [JsonCodec], [SerdeJson], [ProcessEnv], [ReportEnv],
    [UrlParser], [HttpClient], [Backoff], [Ed25519], [Base64], [HmacSha512],
    [FloatOrd], [PriorityQueue], [BodyEnv], [EventIdEnv], [EndpointEnv], [NativeEnv],
    [StoreEnv], [OutcomeEnv], [RequestFormats], [HumanSize], [ConfigCodec] and
    [OverrideEnv].  The file system of the configuration is a map from paths to
    contents with the paths that cannot be opened, the terminal a list of answers.
    [StoreServices] and [DynamicSampling.ProjectCache] are the interfaces through which clients reach actors.  Handlers of the project cache run
    in a state monad that reads the clocks, allocates channels and addresses and
    records the messages sent; the processor in one with the Redis store, the clock
    readings and the outcomes; the store forwarder in one that records what was sent
    and stops at the first failure; the methods of the upstream actor return their
    effects.  Systems of actors are step relations that deliver messages and answers
    in any order; the number of requests in flight is assumed to fit into memory.

    Loops that are not structural take fuel: parsing an envelope takes one unit per
    byte of the input and one more (each item consumes a byte), the metric lines
    likewise, a flush one per queued bucket and one more, the value iterator one
    per value, a pump of the queue one per request and one more, breadcrumbs,
    form fields and metric items one per byte or item and one more, peeking one per
    event of the stream and one more, and chunking an attachment one per byte.  Running
    out of fuel counts as a panic, as [None] or ends early, and the theorems show that
    it does not happen, for chunks when they have at least a byte.

    ** Not modelled

    The runtime (actix actors, futures, HTTP, Kafka), logging and statsd, the
    serde derives and JSON itself, bindings and tools, what the command line prints.  NaN has a
    single representation.  The code that the derive macros generate is not part of
    the sources: the walk of a processor over the structures of an event is written
    out where a theorem is about it and an argument elsewhere.
    The parsers of minidumps and Unreal reports are operations of [NativeEnv]. *)

From stdpp Require Export prelude gmap strings sorting.
From Stdlib Require Export ZArith Lia.

(** ** Notation scope and hint databases *)

Declare Scope relay_scope.
Delimit Scope relay_scope with relay.

Create HintDb relay.
Create HintDb relay_simpl.

(** ** [Result] and panicking computations

    [result E A] is Rust's [Result<A, E>] with the parameters swapped, so that
    [result E] is a monad.  [outcome A] is a computation that returns or
    panics: division by zero, [unwrap] on [None], slicing out of range. *)

Inductive result (E A : Type) : Type :=
| Ok (a : A)
| Err (e : E).
Arguments Ok {E A} a.
Arguments Err {E A} e.

Inductive outcome (A : Type) : Type :=
| Ret (a : A)
| Panic.
Arguments Ret {A} a.
Arguments Panic {A}.

#[global] Instance result_ret {E} : MRet (result E) := fun A a => Ok a.
#[global] Instance result_bind {E} : MBind (result E) := fun A B f m =>
  match m with Ok a => f a | Err e => Err e end.
#[global] Instance result_fmap {E} : FMap (result E) := fun A B f m =>
  match m with Ok a => Ok (f a) | Err e => Err e end.

#[global] Instance outcome_ret : MRet outcome := fun A a => Ret a.
#[global] Instance outcome_bind : MBind outcome := fun A B f m =>
  match m with Ret a => f a | Panic => Panic end.
#[global] Instance outcome_fmap : FMap outcome := fun A B f m =>
  match m with Ret a => Ret (f a) | Panic => Panic end.

(** [Result::ok] and [Option::ok_or]. *)
Definition res_ok {E A} (r : result E A) : option A :=
  match r with Ok a => Some a | Err _ => None end.
Definition ok_or {E A} (o : option A) (e : E) : result E A :=
  match o with Some a => Ok a | None => Err e end.
(** [Option::unwrap]. *)
Definition unwrap {A} (o : option A) : outcome A :=
  match o with Some a => Ret a | None => Panic end.

(** ** Machine integers

    Unsigned integers of width [w] are values of [Z] in [[0, 2^w)].  The
    workspace's release profile does not turn on overflow checks, so [+], [-]
    and [*] wrap around. *)

Definition u64_max : Z := 2^64 - 1.
Definition u32_max : Z := 2^32 - 1.
Definition i64_max : Z := 2^63 - 1.

Definition wrap (w x : Z) : Z := x mod 2^w.

(** The residue that a register of width [w] holds. *)
Notation "⟦ x ⟧ w" := (wrap w x) (at level 1, x at level 200, w at level 0) : relay_scope.
#[local] Open Scope relay_scope.

Definition in_width (w x : Z) : Prop := (0 <= x < 2^w)%Z.
Notation in_u64 := (in_width 64).
Notation in_u32 := (in_width 32).

Definition u64_add (a b : Z) : Z := ⟦ a + b ⟧ 64.
Definition u64_sub (a b : Z) : Z := ⟦ a - b ⟧ 64.
Definition u64_mul (a b : Z) : Z := ⟦ a * b ⟧ 64.
Definition u32_add (a b : Z) : Z := ⟦ a + b ⟧ 32.
Definition u32_sub (a b : Z) : Z := ⟦ a - b ⟧ 32.

(** [a / b] and [a % b] on unsigned integers panic for [b = 0]. *)
Definition checked_div (a b : Z) : outcome Z :=
  if bool_decide (b = 0%Z) then Panic else Ret (a / b)%Z.
Definition checked_rem (a b : Z) : outcome Z :=
  if bool_decide (b = 0%Z) then Panic else Ret (a mod b)%Z.

(** ** Tactics *)

(** Case analysis on everything the goal or a hypothesis branches on. *)
Ltac cases :=
  repeat (case_match || case_bool_decide || case_decide);
  simplify_eq/=; try done.

(** Case analysis on a decidable proposition that the goal tests. *)
Tactic Notation "bcase" constr(P) "as" ident(H) :=
  destruct (decide P) as [H|H];
  [rewrite ?(bool_decide_true P) by exact H|rewrite ?(bool_decide_false P) by exact H].

(** Splits conjunctions and finishes with the library's automation. *)
Ltac relay_auto :=
  repeat split; eauto with relay; try lia; try done.

(** ** Lemmas on machine integers *)

Lemma wrap_small w x : in_width w x -> wrap w x = x.
Proof. intros H. unfold wrap. apply Z.mod_small. exact H. Qed.

Lemma wrap_in_width w x : (0 <= w)%Z -> in_width w (wrap w x).
Proof. intros H. apply Z.mod_pos_bound. apply Z.pow_pos_nonneg; lia. Qed.

Lemma u64_add_small a b : in_u64 (a + b) -> u64_add a b = (a + b)%Z.
Proof. apply wrap_small. Qed.
Lemma u64_sub_small a b : in_u64 (a - b) -> u64_sub a b = (a - b)%Z.
Proof. apply wrap_small. Qed.
Lemma u64_mul_small a b : in_u64 (a * b) -> u64_mul a b = (a * b)%Z.
Proof. apply wrap_small. Qed.
Lemma u32_add_small a b : in_u32 (a + b) -> u32_add a b = (a + b)%Z.
Proof. apply wrap_small. Qed.
Lemma u32_sub_small a b : in_u32 (a - b) -> u32_sub a b = (a - b)%Z.
Proof. apply wrap_small. Qed.

#[export] Hint Resolve wrap_small wrap_in_width : relay.

(** ** Lemmas on [result] and [outcome] *)

Lemma outcome_bind_Ret {A B} (f : A -> outcome B) m b :
  m ≫= f = Ret b <-> exists a, m = Ret a /\ f a = Ret b.
Proof. destruct m as [a|]; simpl; naive_solver. Qed.

Lemma result_bind_Ok {E A B} (f : A -> result E B) m b :
  m ≫= f = Ok b <-> exists a, m = Ok a /\ f a = Ok b.
Proof. destruct m as [a|e]; simpl; naive_solver. Qed.

Lemma result_bind_Err {E A B} (f : A -> result E B) m e :
  m ≫= f = Err e <-> m = Err e \/ exists a, m = Ok a /\ f a = Err e.
Proof. destruct m as [a|e']; simpl; naive_solver. Qed.

(** ** Lemmas on lists *)

Lemma ex_elem_cons {A} (P : A -> Prop) x l :
  (exists y, y ∈ x :: l /\ P y) <-> P x \/ exists y, y ∈ l /\ P y.
Proof. setoid_rewrite elem_of_cons. naive_solver. Qed.

Lemma ex_elem_nil {A} (P : A -> Prop) : (exists y, y ∈ [] /\ P y) <-> False.
Proof. split; [|done]. intros (y & Hy & _). by apply not_elem_of_nil in Hy. Qed.

#[global] Instance list_filter_Permutation {A} (p : A -> bool) :
  Proper ((≡ₚ) ==> (≡ₚ)) (List.filter p).
Proof.
  intros l k Hlk. induction Hlk as [|x l k Hlk IH|x y l|l k m Hlk IH1 Hkm IH2]; simpl; [done|..].
  - destruct (p x); [by constructor|done].
  - destruct (p x), (p y); try done. by constructor.
  - by etransitivity.
Qed.

Lemma filter_none_nil {A} (p : A -> bool) l : Forall (fun x => p x = false) l -> List.filter p l = [].
Proof. induction 1 as [|x l Hx Hl IH]; simpl; [done|]. by rewrite Hx. Qed.

Lemma filter_all {A} (p : A -> bool) l : Forall (fun x => p x = true) l -> List.filter p l = l.
Proof. induction 1 as [|x l Hx Hl IH]; simpl; [done|]. by rewrite Hx, IH. Qed.
