(* ===== verification/Strings.v ===== *)
(** * Rust strings

    [&str] and [String] are byte sequences, here [string] (a sequence of
    8-bit [ascii]).  The operations the sources use are written out on bytes:
    [split], [splitn(2, _)], [trim], the ASCII case functions, decimal
    [Display] of unsigned integers and [FromStr] of unsigned integers. *)

From Stdlib Require Import Ascii String.
From S2P Require Import Prelude.

Open Scope string_scope.
Open Scope Z_scope.

#[global] Arguments String.append !_ _ : simpl nomatch.

(** [str::split(c)]: always at least one piece. *)
Fixpoint split_on (c : ascii) (s : string) : list string :=
  match s with
  | EmptyString => [""]
  | String a s' =>
      if bool_decide (a = c) then "" :: split_on c s'
      else match split_on c s' with
           | [] => [String a ""]
           | h :: t => String a h :: t
           end
  end.

(** [str::splitn(2, c)]: the part before the first [c] and, if [c] occurs,
    the part after it. *)
Fixpoint splitn2 (c : ascii) (s : string) : string * option string :=
  match s with
  | EmptyString => ("", None)
  | String a s' =>
      if bool_decide (a = c) then ("", Some s')
      else let '(h, t) := splitn2 c s' in (String a h, t)
  end.

(** Joining with a single-character separator (a loop that pushes the
    separator before every element but the first). *)
Fixpoint join_with (sep : string) (l : list string) : string :=
  match l with
  | [] => ""
  | [x] => x
  | x :: l' => x +:+ sep +:+ join_with sep l'
  end.

Fixpoint str_forallb (p : ascii -> bool) (s : string) : bool :=
  match s with
  | EmptyString => true
  | String a s' => p a && str_forallb p s'
  end.

Definition contains_char (c : ascii) (s : string) : bool :=
  negb (str_forallb (fun a => negb (bool_decide (a = c))) s).

(** ** ASCII classes and case *)

Definition byte_in (lo hi : nat) (a : ascii) : bool :=
  (Nat.leb lo (nat_of_ascii a) && Nat.leb (nat_of_ascii a) hi)%nat.
Definition is_ascii (a : ascii) : bool := byte_in 0 127 a.
Definition is_ascii_digit (a : ascii) : bool := byte_in 48 57 a.
Definition is_ascii_uppercase (a : ascii) : bool := byte_in 65 90 a.
Definition is_ascii_lowercase (a : ascii) : bool := byte_in 97 122 a.
Definition is_ascii_alphabetic (a : ascii) : bool :=
  is_ascii_uppercase a || is_ascii_lowercase a.
Definition is_ascii_alphanumeric (a : ascii) : bool :=
  is_ascii_alphabetic a || is_ascii_digit a.

Definition ascii_lower (a : ascii) : ascii :=
  if is_ascii_uppercase a then ascii_of_nat (nat_of_ascii a + 32) else a.

Definition ascii_upper (a : ascii) : ascii :=
  if is_ascii_lowercase a then ascii_of_nat (nat_of_ascii a - 32) else a.

Fixpoint to_ascii_lowercase (s : string) : string :=
  match s with
  | EmptyString => ""
  | String a s' => String (ascii_lower a) (to_ascii_lowercase s')
  end.

(** [str::eq_ignore_ascii_case]. *)
Definition eq_ignore_ascii_case (s t : string) : bool :=
  bool_decide (to_ascii_lowercase s = to_ascii_lowercase t).

(** ** [str::trim]

    White space is Unicode's [White_Space]; the encodings of its members are
    listed as UTF-8 byte sequences.  Stripping a suffix is stripping the
    reversed prefix of the reversed string. *)

Definition byte (n : nat) : ascii := ascii_of_nat n.

Definition whitespace : list (list ascii) :=
  ((fun n => [byte n]) <$> [9; 10; 11; 12; 13; 32]%nat) ++
  [[byte 194; byte 133]; [byte 194; byte 160]; [byte 225; byte 154; byte 128]] ++
  ((fun n => [byte 226; byte 128; byte n]) <$> seq 128 11) ++
  [[byte 226; byte 128; byte 168]; [byte 226; byte 128; byte 169];
   [byte 226; byte 128; byte 175]; [byte 226; byte 129; byte 159];
   [byte 227; byte 128; byte 128]].

Fixpoint strip_prefix (p l : list ascii) : option (list ascii) :=
  match p, l with
  | [], _ => Some l
  | a :: p', b :: l' => if bool_decide (a = b) then strip_prefix p' l' else None
  | _ :: _, [] => None
  end.

Fixpoint strip_any (ps : list (list ascii)) (l : list ascii) : option (list ascii) :=
  match ps with
  | [] => None
  | p :: ps' =>
      match strip_prefix p l with
      | Some l' => Some l'
      | None => strip_any ps' l
      end
  end.

(** Every stripped pattern is non-empty, so [length l] rounds suffice. *)
Fixpoint trim_front (fuel : nat) (ps : list (list ascii)) (l : list ascii) : list ascii :=
  match fuel with
  | O => l
  | S n => match strip_any ps l with
           | Some l' => trim_front n ps l'
           | None => l
           end
  end.

Definition trim (s : string) : string :=
  let l := String.list_ascii_of_string s in
  let l := trim_front (length l) whitespace l in
  let r := trim_front (length l) (reverse <$> whitespace) (reverse l) in
  String.string_of_list_ascii (reverse r).

(** ** Decimal integers *)

Definition digit_char (d : Z) : ascii := ascii_of_nat (Z.to_nat (48 + d)).
Definition digit_val (a : ascii) : Z := Z.of_nat (nat_of_ascii a) - 48.

(** [Display] for unsigned integers: at most 20 digits for [u64]. *)
Fixpoint dec_digits (fuel : nat) (n : Z) (acc : string) : string :=
  match fuel with
  | O => acc
  | S f =>
      let acc' := String (digit_char (n mod 10)) acc in
      if bool_decide (n / 10 = 0) then acc' else dec_digits f (n / 10) acc'
  end.

Definition u64_to_string (n : Z) : string := dec_digits 20 n "".

(** The value of a digit string read after the prefix value [v]. *)
Fixpoint dec_value (v : Z) (s : string) : option Z :=
  match s with
  | EmptyString => Some v
  | String a s' =>
      if is_ascii_digit a then dec_value (10 * v + digit_val a) s' else None
  end.

(** [FromStr] for an unsigned integer with maximum [max]: an optional [+],
    then at least one digit, and no overflow. *)
Definition parse_uint (max : Z) (s : string) : option Z :=
  let digits := match s with String "+" s' => s' | _ => s end in
  match digits with
  | EmptyString => None
  | _ => n ← dec_value 0 digits; if bool_decide (n <= max) then Some n else None
  end.

Definition parse_u64 (s : string) : option Z := parse_uint u64_max s.
Definition parse_u32 (s : string) : option Z := parse_uint u32_max s.

(** ** Slices and searches

    Strings are UTF-8; a slice is only valid on character boundaries. *)

Definition is_continuation (a : ascii) : bool := byte_in 128 191 a.

(** [str::is_char_boundary]. *)
Definition is_char_boundary (s : string) (i : nat) : bool :=
  match String.get i s with
  | Some a => bool_decide (i = 0%nat) || negb (is_continuation a)
  | None => bool_decide (i = String.length s)
  end.

(** [str::get(from..to)]: [None] for a range that is reversed, out of bounds or
    not on character boundaries. *)
Definition str_get (s : string) (from to : nat) : option string :=
  if bool_decide (from <= to)%nat && bool_decide (to <= String.length s)%nat
     && is_char_boundary s from && is_char_boundary s to
  then Some (substring from (to - from) s) else None.

(** [std::str::from_utf8]: well-formed UTF-8. *)
Fixpoint valid_utf8 (s : string) : bool :=
  match s with
  | EmptyString => true
  | String a r =>
      if is_ascii a then valid_utf8 r
      else if byte_in 194 223 a then
        match r with String b r => is_continuation b && valid_utf8 r | _ => false end
      else if byte_in 224 239 a then
        match r with
        | String b (String c r) =>
            (if byte_in 224 224 a then byte_in 160 191 b
             else if byte_in 237 237 a then byte_in 128 159 b
             else is_continuation b)
            && is_continuation c && valid_utf8 r
        | _ => false
        end
      else if byte_in 240 244 a then
        match r with
        | String b (String c (String d r)) =>
            (if byte_in 240 240 a then byte_in 144 191 b
             else if byte_in 244 244 a then byte_in 128 143 b
             else is_continuation b)
            && is_continuation c && is_continuation d && valid_utf8 r
        | _ => false
        end
      else false
  end.

(** The rest of a string from a byte index on. *)
Definition str_from (n : nat) (s : string) : string := substring n (String.length s - n) s.

(** [str::starts_with], [str::ends_with], [str::contains] and [str::find]. *)
Definition starts_with (p s : string) : bool := String.prefix p s.
Definition ends_with (suffix s : string) : bool :=
  bool_decide (String.length suffix <= String.length s)%nat
  && bool_decide (str_from (String.length s - String.length suffix) s = suffix).
Definition str_find (p s : string) : option nat := String.index 0 p s.
Definition str_contains (p s : string) : bool := bool_decide (is_Some (str_find p s)).

(** [str::parse::<i32>]. *)
Definition parse_i32 (s : string) : option Z :=
  match s with
  | String "-" r =>
      if bool_decide (r = "") then None else
      match dec_value 0 r with
      | Some v => if bool_decide (v <= 2^31) then Some (- v) else None
      | None => None
      end
  | _ => parse_uint (2^31 - 1) s
  end.

(** Printable ASCII without the space: what [trim] never removes. *)
Definition is_graphic (a : ascii) : bool := byte_in 33 126 a.
Definition graphic (s : string) : bool := str_forallb is_graphic s.

(** ** Lemmas: characters *)

Lemma str_forallb_app p s t :
  str_forallb p (s +:+ t) = str_forallb p s && str_forallb p t.
Proof. induction s as [|a s IH]; simpl; [done|]. by rewrite IH, andb_assoc. Qed.

Lemma str_forallb_impl (p q : ascii -> bool) s :
  (forall a, p a = true -> q a = true) -> str_forallb p s = true -> str_forallb q s = true.
Proof.
  intros Hpq. induction s as [|a s IH]; simpl; [done|].
  rewrite !andb_true_iff. naive_solver.
Qed.

Lemma contains_char_app c s t :
  contains_char c (s +:+ t) = contains_char c s || contains_char c t.
Proof. unfold contains_char. by rewrite str_forallb_app, negb_andb. Qed.

Lemma contains_char_cons c a s :
  contains_char c (String a s) = bool_decide (a = c) || contains_char c s.
Proof. unfold contains_char. simpl. by rewrite negb_andb, negb_involutive. Qed.

(** A string all of whose characters satisfy [p] does not contain a
    character that fails [p]. *)
Lemma str_forallb_not_contains (p : ascii -> bool) c s :
  p c = false -> str_forallb p s = true -> contains_char c s = false.
Proof.
  intros Hc. induction s as [|a s IH]; simpl; [done|].
  rewrite andb_true_iff, contains_char_cons. intros [Ha Hs].
  rewrite (IH Hs), orb_false_r. case_bool_decide; congruence.
Qed.

Lemma str_app_nil_r s : s +:+ "" = s.
Proof. induction s as [|a s IH]; simpl; congruence. Qed.

Lemma str_app_assoc (s t u : string) : (s +:+ t) +:+ u = s +:+ t +:+ u.
Proof. induction s as [|a s IH]; simpl; congruence. Qed.

(** ** Lemmas: splitting and joining *)

Lemma split_on_no_sep c s : contains_char c s = false -> split_on c s = [s].
Proof.
  induction s as [|a s IH]; simpl; [done|].
  rewrite contains_char_cons, orb_false_iff. intros [Ha Hs].
  rewrite Ha. by rewrite IH.
Qed.

Lemma split_on_app c s t :
  contains_char c s = false ->
  split_on c (s +:+ String c t) = s :: split_on c t.
Proof.
  induction s as [|a s IH]; simpl.
  - intros _. by rewrite bool_decide_true.
  - rewrite contains_char_cons, orb_false_iff. intros [Ha Hs].
    rewrite Ha. by rewrite IH.
Qed.

(** Splitting undoes joining on pieces free of the separator. *)
Lemma split_on_join c l :
  l <> [] -> Forall (fun s => contains_char c s = false) l ->
  split_on c (join_with (String c "") l) = l.
Proof.
  intros Hne Hl. induction Hl as [|s l Hs Hl IH]; [done|].
  destruct l as [|t l]; [by apply split_on_no_sep|].
  change (join_with _ (s :: t :: l)) with (s +:+ String c (join_with (String c "") (t :: l))).
  rewrite split_on_app by done. f_equal. by apply IH.
Qed.

Lemma splitn2_app c s t :
  contains_char c s = false -> splitn2 c (s +:+ String c t) = (s, Some t).
Proof.
  induction s as [|a s IH]; simpl.
  - intros _. by rewrite bool_decide_true.
  - rewrite contains_char_cons, orb_false_iff. intros [Ha Hs].
    rewrite Ha. by rewrite IH.
Qed.

Lemma splitn2_no_sep c s : contains_char c s = false -> splitn2 c s = (s, None).
Proof.
  induction s as [|a s IH]; simpl; [done|].
  rewrite contains_char_cons, orb_false_iff. intros [Ha Hs].
  rewrite Ha. by rewrite IH.
Qed.

(** ** Lemmas: trimming *)

Definition non_graphic_head (p : list ascii) : bool :=
  match p with [] => false | h :: _ => negb (is_graphic h) end.

Lemma strip_any_graphic ps a l :
  forallb non_graphic_head ps = true -> is_graphic a = true -> strip_any ps (a :: l) = None.
Proof.
  intros Hps Ha. induction ps as [|p ps IH]; simpl in *; [done|].
  apply andb_true_iff in Hps as [Hp Hps].
  destruct p as [|h p]; simpl in *; [done|].
  rewrite bool_decide_false; [by apply IH|]. intros ->. by rewrite Ha in Hp.
Qed.

Lemma trim_front_graphic n ps a l :
  forallb non_graphic_head ps = true -> is_graphic a = true ->
  trim_front n ps (a :: l) = a :: l.
Proof. intros Hps Ha. destruct n; simpl; [done|]. by rewrite strip_any_graphic. Qed.

Lemma graphic_list s :
  graphic s = true -> Forall (fun a => is_graphic a = true) (String.list_ascii_of_string s).
Proof.
  unfold graphic. induction s as [|a s IH]; simpl; [by constructor|].
  rewrite andb_true_iff. intros [? ?]. constructor; auto.
Qed.

Lemma trim_back_graphic l n :
  Forall (fun a => is_graphic a = true) l ->
  trim_front n (reverse <$> whitespace) (reverse l) = reverse l.
Proof.
  intros Hl. destruct (reverse l) as [|a r] eqn:E; [by destruct n|].
  apply trim_front_graphic; [by vm_compute|].
  rewrite Forall_forall in Hl. apply Hl, elem_of_reverse.
  rewrite E. constructor.
Qed.

Lemma trim_list_graphic l :
  Forall (fun a => is_graphic a = true) l ->
  trim_front (length l) whitespace l = l.
Proof.
  intros Hl. destruct Hl as [|a l Ha Hl]; [done|].
  apply trim_front_graphic; [by vm_compute|done].
Qed.

Lemma trim_graphic s : graphic s = true -> trim s = s.
Proof.
  intros Hs. unfold trim. apply graphic_list in Hs.
  rewrite trim_list_graphic, trim_back_graphic, reverse_involutive by done.
  apply String.string_of_list_ascii_of_string.
Qed.

Section Strip.
#[local] Open Scope list_scope.

Lemma strip_prefix_Some p : forall l l', strip_prefix p l = Some l' <-> l = p ++ l'.
Proof.
  induction p as [|a p IH]; intros l l'; cbn; [naive_solver|]. destruct l as [|b l]; [done|].
  case_bool_decide as H; [subst; rewrite IH|]; naive_solver.
Qed.

Lemma strip_any_None ps l : strip_any ps l = None <-> Forall (fun p => forall l', l <> p ++ l') ps.
Proof.
  induction ps as [|p ps IH]; cbn; [naive_solver|]. rewrite Forall_cons, <- IH.
  destruct (strip_prefix p l) as [l'|] eqn:E.
  - apply strip_prefix_Some in E. naive_solver.
  - split; [|naive_solver]. intros H. split; [|done]. intros l' H'%strip_prefix_Some. congruence.
Qed.

Lemma strip_any_Some ps l l' : strip_any ps l = Some l' -> exists p, p ∈ ps /\ l = p ++ l'.
Proof.
  induction ps as [|p ps IH]; cbn; [done|]. destruct (strip_prefix p l) as [x|] eqn:E.
  - intros [= <-]. apply strip_prefix_Some in E. exists p. split; [left|done].
  - intros (q & ? & ?)%IH. exists q. split; [by right|done].
Qed.

(** Trimming stops where no pattern is left, and takes a prefix off. *)
Lemma trim_front_done ps : Forall (fun p => p <> []) ps -> forall n l,
  (length l <= n)%nat -> strip_any ps (trim_front n ps l) = None.
Proof.
  intros Hps. induction n as [|n IH]; intros l Hl; cbn.
  - destruct l; [|by apply Nat.nle_succ_0 in Hl]. apply strip_any_None. eapply Forall_impl; [exact Hps|].
    intros [|a p] Hp l' ?; [done|discriminate].
  - destruct (strip_any ps l) as [l'|] eqn:E; [|done]. apply IH.
    apply strip_any_Some in E as (p & Hp & ->). rewrite Forall_forall in Hps. specialize (Hps p Hp).
    destruct p; [done|]. cbn in Hl. rewrite length_app in Hl. lia.
Qed.

Lemma trim_front_suffix ps n : forall l, exists pre, l = pre ++ trim_front n ps l.
Proof.
  induction n as [|n IH]; intros l; cbn; [by exists []|].
  destruct (strip_any ps l) as [l'|] eqn:E; [|by exists []].
  apply strip_any_Some in E as (p & _ & ->). destruct (IH l') as [pre Hpre]. exists (p ++ pre).
  by rewrite <- app_assoc, <- Hpre.
Qed.

Lemma trim_front_none ps n l : strip_any ps l = None -> trim_front n ps l = l.
Proof. intros H. destruct n; cbn; [done|]. by rewrite H. Qed.

Lemma trim_idempotent s : trim (trim s) = trim s.
Proof.
  unfold trim. set (l := trim_front _ whitespace (String.list_ascii_of_string s)).
  set (r := trim_front _ _ (reverse l)). rewrite String.list_ascii_of_string_of_list_ascii.
  assert (strip_any whitespace l = None) as Hl by (apply trim_front_done; [by repeat constructor|done]).
  assert (strip_any (reverse <$> whitespace) r = None) as Hr.
  { apply trim_front_done; [by repeat constructor|]. by rewrite length_reverse. }
  destruct (trim_front_suffix (reverse <$> whitespace) (length l) (reverse l)) as [pre Hpre]. fold r in Hpre.
  assert (strip_any whitespace (reverse r) = None) as Hf.
  { apply strip_any_None in Hl. apply strip_any_None. eapply Forall_impl; [exact Hl|]. intros p Hp l' Hl'.
    apply (Hp (l' ++ reverse pre)). rewrite app_assoc, <- Hl', <- reverse_app, <- Hpre. by rewrite reverse_involutive. }
  rewrite (trim_front_none whitespace) by done. by rewrite reverse_involutive, trim_front_none.
Qed.

End Strip.

(** A leading space is removed: the header joins limits with a comma and a
    space and the parser splits at the comma. *)
Lemma trim_space_graphic s : graphic s = true -> trim (String " " s) = s.
Proof.
  intros Hs. unfold trim. apply graphic_list in Hs.
  cbn [String.list_ascii_of_string length].
  assert (forall n l, trim_front (S n) whitespace (" "%char :: l) = trim_front n whitespace l)
    as -> by (intros n l; reflexivity).
  rewrite trim_list_graphic, trim_back_graphic, reverse_involutive by done.
  apply String.string_of_list_ascii_of_string.
Qed.

(** ** Lemmas: decimal integers *)

Lemma digit_char_spec d :
  0 <= d < 10 -> is_ascii_digit (digit_char d) = true /\ digit_val (digit_char d) = d.
Proof.
  intros H. unfold digit_char.
  assert (d = 0 \/ d = 1 \/ d = 2 \/ d = 3 \/ d = 4 \/ d = 5 \/ d = 6 \/ d = 7 \/ d = 8 \/ d = 9)
    as Hd by lia.
  by destruct_or! Hd; subst d; vm_compute.
Qed.

(** Reading the digits printed for [n] in front of [acc] is reading [acc]
    after the value [n]. *)
Lemma dec_value_digits f n acc :
  0 <= n < 10 ^ Z.of_nat f -> (0 < f)%nat ->
  dec_value 0 (dec_digits f n acc) = dec_value n acc.
Proof.
  revert n acc. induction f as [|f IH]; intros n acc Hn Hf; [lia|].
  cbn [dec_digits].
  pose proof (Z.mod_pos_bound n 10 ltac:(lia)) as Hm.
  pose proof (Z.div_mod n 10 ltac:(lia)) as Hdm.
  destruct (digit_char_spec (n mod 10) Hm) as [Hd Hv].
  case_bool_decide as Hz.
  - cbn [dec_value]. rewrite Hd, Hv. f_equal. lia.
  - assert (0 < n / 10) by (pose proof (Z.div_pos n 10); lia).
    rewrite Nat2Z.inj_succ, Z.pow_succ_r in Hn by lia.
    destruct f as [|f]; [change (10 ^ Z.of_nat 0) with 1 in Hn; lia|].
    rewrite IH; [|split; [lia|apply Z.div_lt_upper_bound; lia]|lia].
    cbn [dec_value]. rewrite Hd, Hv. f_equal. lia.
Qed.

Lemma dec_digits_digits f n acc :
  0 <= n -> str_forallb is_ascii_digit acc = true ->
  str_forallb is_ascii_digit (dec_digits f n acc) = true.
Proof.
  revert n acc. induction f as [|f IH]; intros n acc Hn Hacc; simpl; [done|].
  destruct (digit_char_spec (n mod 10)) as [Hd _]; [apply Z.mod_pos_bound; lia|].
  case_bool_decide; [simpl; by rewrite Hd|].
  apply IH; [apply Z.div_pos; lia|simpl; by rewrite Hd].
Qed.

Lemma dec_digits_nonempty f n acc : acc <> "" -> dec_digits f n acc <> "".
Proof.
  revert n acc. induction f as [|f IH]; intros n acc Hacc; simpl; [done|].
  case_bool_decide; [done|]. by apply IH.
Qed.

Lemma u64_to_string_digits n :
  0 <= n -> str_forallb is_ascii_digit (u64_to_string n) = true.
Proof. intros Hn. by apply dec_digits_digits. Qed.

Lemma dec_digits_S_nonempty f n acc : dec_digits (S f) n acc <> "".
Proof. simpl. case_bool_decide; [done|]. by apply dec_digits_nonempty. Qed.

Lemma u64_to_string_nonempty n : u64_to_string n <> "".
Proof. apply dec_digits_S_nonempty. Qed.

Lemma u64_to_string_value n : in_u64 n -> dec_value 0 (u64_to_string n) = Some n.
Proof.
  intros Hn. unfold u64_to_string. rewrite dec_value_digits; [done|split; [apply Hn|]|lia].
  eapply Z.lt_trans; [apply Hn|]. done.
Qed.

Lemma digit_not_plus (s : string) :
  str_forallb is_ascii_digit s = true -> match s with String "+" s' => s' | _ => s end = s.
Proof.
  destruct s as [|a s]; [done|]. simpl. intros [Ha _]%andb_true_iff.
  destruct (decide (a = "+"%char)) as [->|Hne]; [done|].
  repeat case_match; done.
Qed.

(** Printing and reading an unsigned integer is the identity. *)
Lemma parse_uint_to_string max n :
  in_u64 n -> n <= max -> parse_uint max (u64_to_string n) = Some n.
Proof.
  intros Hn Hmax. unfold parse_uint.
  rewrite digit_not_plus by (apply u64_to_string_digits; apply Hn).
  pose proof (u64_to_string_nonempty n) as Hne.
  destruct (u64_to_string n) as [|a s] eqn:E; [done|].
  rewrite <- E, u64_to_string_value by done. simpl. by rewrite bool_decide_true.
Qed.

Lemma digits_graphic s : str_forallb is_ascii_digit s = true -> graphic s = true.
Proof.
  apply str_forallb_impl. intros a. unfold is_ascii_digit, is_graphic, byte_in.
  rewrite !andb_true_iff, !Nat.leb_le. lia.
Qed.

#[export] Hint Resolve u64_to_string_digits u64_to_string_nonempty digits_graphic : relay.
#[export] Hint Rewrite str_forallb_app contains_char_app contains_char_cons : relay_simpl.

(** ** [match] on string literals

    The arm of the first literal equal to [s]. *)
Fixpoint match_str {A} (s : string) (arms : list (string * A)) : option A :=
  match arms with
  | [] => None
  | (k, v) :: arms' => if bool_decide (s = k) then Some v else match_str s arms'
  end.

(** ** Lemmas: unique decomposition around a separator *)

(** The part after the last separator is determined. *)
Lemma app_last_sep c s1 t1 s2 t2 :
  contains_char c t1 = false -> contains_char c t2 = false ->
  s1 +:+ String c t1 = s2 +:+ String c t2 -> s1 = s2 /\ t1 = t2.
Proof.
  intros H1 H2. revert s2.
  assert (forall s t, contains_char c (s +:+ String c t) = true) as Hc.
  { intros s t. rewrite contains_char_app, contains_char_cons, bool_decide_true by done.
    by rewrite orb_true_r. }
  induction s1 as [|a s1 IH]; intros [|b s2] Heq; simpl in Heq; simplify_eq.
  - done.
  - by rewrite Hc in H1.
  - by rewrite Hc in H2.
  - edestruct (IH s2) as [-> ->]; done.
Qed.

(** The part before the first separator is determined. *)
Lemma app_first_sep c s1 t1 s2 t2 :
  contains_char c s1 = false -> contains_char c s2 = false ->
  s1 +:+ String c t1 = s2 +:+ String c t2 -> s1 = s2 /\ t1 = t2.
Proof.
  intros H1 H2 Heq. pose proof (splitn2_app c s1 t1 H1) as E1.
  rewrite Heq, splitn2_app in E1 by done. by simplify_eq.
Qed.

Lemma u64_to_string_inj a b : in_u64 a -> in_u64 b -> u64_to_string a = u64_to_string b -> a = b.
Proof.
  intros Ha Hb Heq. apply u64_to_string_value in Ha, Hb. rewrite Heq in Ha. congruence.
Qed.

Lemma u64_to_string_no_char c n :
  is_ascii_digit c = false -> 0 <= n -> contains_char c (u64_to_string n) = false.
Proof.
  intros Hc Hn. apply (str_forallb_not_contains is_ascii_digit); auto with relay.
Qed.

(** ** Lemmas on slices *)

Lemma substring_all s : substring 0 (String.length s) s = s.
Proof. induction s as [|a s IH]; simpl; congruence. Qed.

Lemma substring_0 n s : substring n 0 s = "".
Proof. revert n. induction s as [|a s IH]; intros [|n]; simpl; auto. Qed.

Lemma substring_join n m k s :
  substring n m s +:+ substring (n + m)%nat k s = substring n (m + k)%nat s.
Proof.
  revert n m. induction s as [|a s IH]; intros [|n] [|m]; simpl; try done.
  f_equal. apply (IH 0%nat m).
Qed.

Lemma length_app_str s t : String.length (s +:+ t) = (String.length s + String.length t)%nat.
Proof. induction s; simpl; auto. Qed.

Lemma length_zero_iff_nil_str s : String.length s = 0%nat <-> s = "".
Proof. by destruct s. Qed.

Lemma length_substring n m s :
  (n + m <= String.length s)%nat -> String.length (substring n m s) = m.
Proof.
  revert n m. induction s as [|a s IH]; intros [|n] [|m]; simpl; intros; try lia; auto.
  - f_equal. apply (IH 0%nat). lia.
  - apply IH. lia.
  - apply IH. lia.
Qed.

Lemma substring_app_r a b n m :
  substring (String.length a + n)%nat m (a +:+ b) = substring n m b.
Proof. induction a; simpl; auto. Qed.

Lemma get_app_r a b n : String.get (String.length a + n)%nat (a +:+ b) = String.get n b.
Proof. induction a; simpl; auto. Qed.

Lemma substring_app_l b c : substring 0 (String.length b) (b +:+ c) = b.
Proof. induction b; simpl; [by destruct c|congruence]. Qed.

(** The string does not start inside a character. *)
Definition starts_char (s : string) : bool :=
  match s with EmptyString => true | String a _ => negb (is_continuation a) end.

Lemma boundary_0 s : is_char_boundary s 0 = true.
Proof. by destruct s. Qed.

Lemma boundary_end s : is_char_boundary s (String.length s) = true.
Proof.
  unfold is_char_boundary.
  assert (String.get (String.length s) s = None) as -> by (induction s; simpl; auto).
  by apply bool_decide_true.
Qed.

Lemma boundary_app a b : starts_char b = true -> is_char_boundary (a +:+ b) (String.length a) = true.
Proof.
  unfold is_char_boundary. intros H. rewrite <- (Nat.add_0_r (String.length a)), get_app_r.
  destruct b; simpl in *.
  - apply bool_decide_true. rewrite length_app_str. simpl. lia.
  - by rewrite H, orb_true_r.
Qed.

Lemma str_get_Some s from to p :
  str_get s from to = Some p <->
  (from <= to <= String.length s)%nat /\ is_char_boundary s from = true /\
  is_char_boundary s to = true /\ p = substring from (to - from) s.
Proof.
  unfold str_get. repeat case_bool_decide; simpl; try (split; [done|lia]).
  destruct (is_char_boundary s from), (is_char_boundary s to); simpl; naive_solver.
Qed.

Lemma str_get_middle a b c :
  starts_char (b +:+ c) = true -> starts_char c = true ->
  str_get (a +:+ b +:+ c) (String.length a) (String.length a + String.length b) = Some b.
Proof.
  intros Hb Hc. apply str_get_Some. rewrite !length_app_str. split; [lia|].
  split; [by apply boundary_app|]. split.
  - rewrite <- str_app_assoc, <- length_app_str. by apply boundary_app.
  - replace (_ + _ - _)%nat with (String.length b) by lia.
    rewrite <- (Nat.add_0_r (String.length a)) at 1. by rewrite substring_app_r, substring_app_l.
Qed.

Lemma str_from_app s t : str_from (String.length s) (s +:+ t) = t.
Proof.
  unfold str_from. induction s as [|a s IH]; simpl; [|done].
  induction t as [|a t IH]; simpl; [done|]. rewrite Nat.sub_0_r in IH. by f_equal.
Qed.

(** ** Characters *)

(** [str::chars] as their UTF-8 bytes: a new one at every byte that continues none. *)
Fixpoint chars (s : string) : list string :=
  match s with
  | "" => []
  | String a s =>
      match chars s with
      | String b c :: cs => if is_continuation b then String a (String b c) :: cs else String a "" :: String b c :: cs
      | cs => String a "" :: cs
      end
  end.

(** The code point of a character in UTF-8. *)
Definition code_point (c : string) : Z :=
  let bits (mask : Z) (a : ascii) := Z.land (Z.of_nat (nat_of_ascii a)) mask in
  match c with
  | String a (String b (String c (String d ""))) =>
      (Z.shiftl (bits 7 a) 18 + Z.shiftl (bits 63 b) 12 + Z.shiftl (bits 63 c) 6 + bits 63 d)
  | String a (String b (String c "")) => (Z.shiftl (bits 15 a) 12 + Z.shiftl (bits 63 b) 6 + bits 63 c)
  | String a (String b "") => (Z.shiftl (bits 31 a) 6 + bits 63 b)
  | String a _ => Z.of_nat (nat_of_ascii a)
  | "" => 0
  end.

(** The number of code points. *)
Fixpoint char_count (s : string) : Z :=
  match s with "" => 0 | String a s => (if is_continuation a then 0 else 1) + char_count s end.

Lemma char_count_app a b : char_count (a +:+ b) = char_count a + char_count b.
Proof. induction a as [|c a IH]; simpl; [done|]. rewrite IH. lia. Qed.

Lemma char_count_nonneg s : 0 <= char_count s.
Proof. induction s as [|a s IH]; simpl; [done|]. destruct (is_continuation a); lia. Qed.

(** A character is a byte and its continuation bytes. *)
Lemma chars_shape s :
  Forall (fun c => exists a r, c = String a r /\ str_forallb is_continuation r = true) (chars s).
Proof.
  induction s as [|a s IH]; simpl; [constructor|]. destruct (chars s) as [|c cs]; [constructor; eauto|].
  apply Forall_cons in IH as [(b & r & -> & Hr) IH]. destruct (is_continuation b) eqn:Hb.
  - constructor; [|done]. eexists _, _. split; [done|]. simpl. by rewrite Hb.
  - constructor; [eauto|]. constructor; eauto.
Qed.

Lemma continuation_count r : str_forallb is_continuation r = true -> char_count r = 0.
Proof. induction r as [|a r IH]; simpl; [done|]. intros [-> Hr]%andb_true_iff. by rewrite IH. Qed.

Lemma chars_count s : Forall (fun c => char_count c <= 1) (chars s).
Proof.
  eapply Forall_impl; [apply chars_shape|]. intros c (a & r & -> & Hr). simpl.
  rewrite continuation_count by done. destruct (is_continuation a); lia.
Qed.

(** *** Chunks *)

(** The text of chunks in order. *)
Definition str_concat (l : list string) : string := foldr String.append "" l.

Lemma str_concat_app l k : str_concat (l ++ k) = str_concat l +:+ str_concat k.
Proof. unfold str_concat. induction l as [|s l IH]; cbn; [done|]. by rewrite IH, str_app_assoc. Qed.

Lemma str_concat_cons s l : str_concat (s :: l) = s +:+ str_concat l.
Proof. done. Qed.

Lemma str_concat_length l : String.length (str_concat l) = list_sum (String.length <$> l).
Proof. unfold str_concat. induction l as [|s l IH]; [done|]. cbn. by rewrite length_app_str, IH. Qed.

(** The first position of a byte, as [Iterator::position] finds it. *)
Fixpoint char_position (c : ascii) (s : string) : option nat :=
  match s with
  | EmptyString => None
  | String a s => if bool_decide (a = c) then Some O else S <$> char_position c s
  end.

Lemma char_position_Some c s n : char_position c s = Some n ->
  exists a b, s = a +:+ String c b /\ contains_char c a = false /\ n = String.length a.
Proof.
  revert n. induction s as [|x s IH]; cbn; [done|]. intros n. case_bool_decide as Hx; [intros [= <-]; subst; by exists "", s|].
  destruct (char_position c s) as [m|]; [|done]. intros [= <-]. destruct (IH m eq_refl) as (a & b & -> & Ha & ->).
  exists (String x a), b. split_and!; [done| |done]. rewrite contains_char_cons, Ha. by rewrite bool_decide_eq_false_2.
Qed.

Lemma char_position_None c s : char_position c s = None -> contains_char c s = false.
Proof.
  induction s as [|x s IH]; cbn; [done|]. case_bool_decide as Hx; [done|]. destruct (char_position c s); [done|].
  intros _. rewrite contains_char_cons, IH by done. by rewrite bool_decide_eq_false_2.
Qed.
