(* ===== verification/Floats.v ===== *)
(** * [f64]

    IEEE 754 binary64 numbers as the Standard Library's executable
    [spec_float] (precision 53, maximal exponent 1024).  A NaN has neither
    sign nor payload here; the sources never look at either.  Decimal parsing
    rounds the exact decimal value to nearest even, as [f64::from_str] does. *)

From Stdlib Require Import Ascii String SpecFloat.
From S2P Require Import Prelude Strings.

Open Scope string_scope.
Open Scope Z_scope.
Open Scope list_scope.

Notation f64 := spec_float.

Definition f64_prec : Z := 53.
Definition f64_emax : Z := 1024.

Definition f64_zero : f64 := S754_zero false.
Definition f64_add : f64 -> f64 -> f64 := SFadd f64_prec f64_emax.
Definition f64_div : f64 -> f64 -> f64 := SFdiv f64_prec f64_emax.
Definition f64_ltb : f64 -> f64 -> bool := SFltb.
Definition f64_leb : f64 -> f64 -> bool := SFleb.
(** [n as f64] for an integer [n]. *)
Definition f64_of_Z (n : Z) : f64 := binary_normalize f64_prec f64_emax n 0 false.

Definition is_nan (x : f64) : bool :=
  match x with S754_nan => true | _ => false end.

(** [f64::max] and [f64::min]: a NaN argument is ignored. *)
Definition f64_max (x y : f64) : f64 :=
  if is_nan x then y else if is_nan y then x else if f64_ltb x y then y else x.
Definition f64_min (x y : f64) : f64 :=
  if is_nan x then y else if is_nan y then x else if f64_ltb y x then y else x.

#[global] Instance f64_eq_dec : EqDecision f64.
Proof. unfold EqDecision, Decision. repeat decide equality. Defined.

(** [x.ceil()] of a finite number [±m * 2^e], as an integer. *)
Definition signed (s : bool) (m : positive) : Z := if s then Zneg m else Zpos m.
Definition ceil_Z (s : bool) (m : positive) (e : Z) : Z :=
  if bool_decide (0 <= e) then signed s m * 2 ^ e
  else - ((- signed s m) / 2 ^ (- e)).
Definition trunc_Z (s : bool) (m : positive) (e : Z) : Z :=
  if bool_decide (0 <= e) then signed s m * 2 ^ e
  else Z.quot (signed s m) (2 ^ (- e)).

(** [x.ceil() as u64] and [x.trunc() as u64]: the cast saturates and sends
    NaN to 0. *)
Definition saturate_u64 (n : Z) : Z := Z.max 0 (Z.min u64_max n).
Definition ceil_as_u64 (x : f64) : Z :=
  match x with
  | S754_nan | S754_zero _ => 0
  | S754_infinity s => if s then 0 else u64_max
  | S754_finite s m e => saturate_u64 (ceil_Z s m e)
  end.
Definition trunc_as_u64 (x : f64) : Z :=
  match x with
  | S754_nan | S754_zero _ => 0
  | S754_infinity s => if s then 0 else u64_max
  | S754_finite s m e => saturate_u64 (trunc_Z s m e)
  end.

(** ** [f64::from_str] *)

(** Reads digits: value, number of digits, rest. *)
Fixpoint take_digits (v : Z) (n : nat) (s : string) : Z * nat * string :=
  match s with
  | String a s' =>
      if is_ascii_digit a then take_digits (10 * v + digit_val a) (S n) s' else (v, n, s)
  | EmptyString => (v, n, s)
  end.

Definition parse_exponent (s : string) : option Z :=
  let '(neg, d) := match s with
                   | String "-" r => (true, r)
                   | String "+" r => (false, r)
                   | _ => (false, s)
                   end in
  match d with
  | EmptyString => None
  | _ => n ← dec_value 0 d; Some (if neg then - n else n)
  end.

(** [Number]: mantissa and decimal exponent. *)
Definition parse_number (s : string) : option (Z * Z) :=
  let '(v1, n1, r1) := take_digits 0 0 s in
  let '(v2, n2, r2) := match r1 with
                       | String "." r => take_digits v1 0 r
                       | _ => (v1, O, r1)
                       end in
  if bool_decide ((n1 + n2)%nat = O) then None
  else match r2 with
       | EmptyString => Some (v2, - Z.of_nat n2)
       | String a r =>
           if bool_decide (a = "e"%char) || bool_decide (a = "E"%char)
           then x ← parse_exponent r; Some (v2, x - Z.of_nat n2)
           else None
       end.

(** The f64 nearest to [±m * 10^x]. *)
Definition decimal_to_f64 (neg : bool) (m x : Z) : f64 :=
  match m with
  | Zpos p =>
      if bool_decide (0 <= x)
      then binary_normalize f64_prec f64_emax (signed neg p * 10 ^ x) 0 neg
      else let '(q, e, l) := SFdiv_core_binary f64_prec f64_emax (Zpos p) 0 (10 ^ (- x)) 0 in
           binary_round_aux f64_prec f64_emax neg q e l
  | _ => S754_zero neg
  end.

Definition parse_f64 (s : string) : option f64 :=
  let '(neg, r) := match s with
                   | String "-" r => (true, r)
                   | String "+" r => (false, r)
                   | _ => (false, s)
                   end in
  if eq_ignore_ascii_case r "inf" || eq_ignore_ascii_case r "infinity"
  then Some (S754_infinity neg)
  else if eq_ignore_ascii_case r "nan" then Some S754_nan
  else mx ← parse_number r; Some (decimal_to_f64 neg mx.1 mx.2).

(** ** Lemmas: digits of binary numbers *)

Lemma digits2_bound p :
  2 ^ (Zpos (digits2_pos p) - 1) <= Zpos p < 2 ^ Zpos (digits2_pos p).
Proof.
  induction p as [p IH|p IH|]; cbn [digits2_pos]; [| |simpl; lia];
    rewrite Pos2Z.inj_succ, Z.pow_succ_r by lia;
    replace (Z.succ (Zpos (digits2_pos p)) - 1) with (Z.succ (Zpos (digits2_pos p) - 1)) by lia;
    rewrite Z.pow_succ_r by lia; lia.
Qed.

Lemma digits2_le p n : 0 < n -> Zpos p < 2 ^ n -> Zpos (digits2_pos p) <= n.
Proof.
  intros Hn Hp. destruct (digits2_bound p) as [Hlo _].
  assert (2 ^ (Zpos (digits2_pos p) - 1) < 2 ^ n) as Hlt by lia.
  apply Z.pow_lt_mono_r_iff in Hlt; lia.
Qed.

Lemma iter_xO p k :
  Zpos (digits2_pos (Pos.iter xO p k)) = Zpos (digits2_pos p) + Zpos k /\
  Zpos (Pos.iter xO p k) = Zpos p * 2 ^ Zpos k.
Proof.
  induction k as [|k [IHd IHv]] using Pos.peano_ind; [simpl; lia|].
  rewrite Pos.iter_succ. cbn [digits2_pos].
  rewrite !Pos2Z.inj_succ, Z.pow_succ_r by lia. lia.
Qed.

(** A mantissa that is already canonical is not rounded. *)
Lemma binary_round_aux_exact m e :
  fexp f64_prec f64_emax (Zpos (digits2_pos m) + e) = e -> e <= f64_emax - f64_prec ->
  binary_round_aux f64_prec f64_emax false (Zpos m) e loc_Exact = S754_finite false m e.
Proof.
  intros He Hmax. unfold binary_round_aux, shr_fexp. cbn [Zdigits2 shr_record_of_loc].
  rewrite He, Z.sub_diag. cbn [shr shr_m loc_of_shr_record round_nearest_even shr_record_of_loc Zdigits2].
  rewrite He, Z.sub_diag. cbn [shr shr_m].
  by rewrite (proj2 (Z.leb_le _ _)).
Qed.

(** Integers below [2^53] are represented exactly. *)
Lemma f64_of_small_Z p :
  Zpos p < 2 ^ 53 ->
  exists m e, f64_of_Z (Zpos p) = S754_finite false m e /\ e <= 0 /\ Zpos m = Zpos p * 2 ^ (- e).
Proof.
  intros Hp. pose proof (digits2_le p 53 ltac:(lia) Hp) as Hd.
  unfold f64_of_Z. cbn [binary_normalize]. unfold binary_round.
  assert (fexp f64_prec f64_emax (Zpos (digits2_pos p) + 0) = Zpos (digits2_pos p) - 53) as ->
    by (unfold fexp, emin, f64_prec, f64_emax; lia).
  unfold shl_align. rewrite Z.sub_0_r.
  destruct (Zpos (digits2_pos p) - 53) as [|q|q] eqn:E; [|lia|].
  - exists p, 0. rewrite binary_round_aux_exact; [split; [done|]; simpl; lia| |unfold f64_prec, f64_emax; lia].
    unfold fexp, emin, f64_prec, f64_emax. lia.
  - destruct (iter_xO p q) as [Hdig Hval].
    exists (Pos.iter xO p q), (Zneg q).
    rewrite binary_round_aux_exact; [split; [done|]; split; [lia|done]| |unfold f64_prec, f64_emax; lia].
    unfold fexp, emin, f64_prec, f64_emax. lia.
Qed.

Lemma ceil_as_u64_of_small_Z n : 0 <= n < 2 ^ 53 -> ceil_as_u64 (f64_of_Z n) = n.
Proof.
  intros Hn. destruct n as [|p|p]; [done| |lia].
  destruct (f64_of_small_Z p) as (m & e & -> & He & Hm); [lia|].
  unfold ceil_as_u64, ceil_Z, saturate_u64, signed, u64_max. rewrite Hm.
  case_bool_decide as H0.
  - replace e with 0 in * by lia. lia.
  - rewrite <- Z.mul_opp_l, Z.div_mul by (apply Z.pow_nonzero; lia). lia.
Qed.

Lemma trunc_as_u64_of_small_Z n : 0 <= n < 2 ^ 53 -> trunc_as_u64 (f64_of_Z n) = n.
Proof.
  intros Hn. destruct n as [|p|p]; [done| |lia].
  destruct (f64_of_small_Z p) as (m & e & -> & He & Hm); [lia|].
  unfold trunc_as_u64, trunc_Z, saturate_u64, signed, u64_max. rewrite Hm.
  case_bool_decide as H0.
  - replace e with 0 in * by lia. lia.
  - rewrite Z.quot_mul by (apply Z.pow_nonzero; lia). lia.
Qed.

(** ** Lemmas: parsing *)

Lemma take_digits_digits v n s :
  str_forallb is_ascii_digit s = true ->
  exists m, take_digits v n s = (default 0 (dec_value v s), m, "") /\ (n + String.length s = m)%nat.
Proof.
  revert v n. induction s as [|a s IH]; intros v n; simpl.
  - eexists; split; [done|lia].
  - intros [-> Hs]%andb_true_iff. destruct (IH (10 * v + digit_val a) (S n) Hs) as (m & -> & <-).
    eexists; split; [done|lia].
Qed.

Lemma digits_no_sign (s : string) :
  str_forallb is_ascii_digit s = true ->
  match s with String "-" r => (true, r) | String "+" r => (false, r) | _ => (false, s) end
  = (false, s).
Proof.
  destruct s as [|a s]; [done|]. simpl. intros [Ha _]%andb_true_iff.
  destruct (decide (a = "+"%char)) as [->|]; [done|].
  destruct (decide (a = "-"%char)) as [->|]; [done|].
  repeat case_match; simplify_eq; done.
Qed.

Lemma digit_lower a : is_ascii_digit a = true -> ascii_lower a = a.
Proof.
  unfold is_ascii_digit, ascii_lower, is_ascii_uppercase, byte_in.
  rewrite andb_true_iff, !Nat.leb_le. intros [? ?].
  destruct (Nat.leb_spec 65 (nat_of_ascii a)); [lia|done].
Qed.

Lemma digits_not_word a s w :
  is_ascii_digit a = true ->
  match to_ascii_lowercase w with String b _ => is_ascii_digit b = false | _ => False end ->
  eq_ignore_ascii_case (String a s) w = false.
Proof.
  intros Ha Hw. unfold eq_ignore_ascii_case. simpl. rewrite digit_lower by done.
  apply bool_decide_false. destruct (to_ascii_lowercase w) as [|b t]; [done|].
  intros [= -> _]. congruence.
Qed.

(** A printed [u64] parses to the float nearest to it. *)
Lemma parse_f64_u64 n : in_u64 n -> parse_f64 (u64_to_string n) = Some (f64_of_Z n).
Proof.
  intros Hn. pose proof (u64_to_string_digits n ltac:(apply Hn)) as Hd.
  unfold parse_f64. rewrite digits_no_sign by done.
  pose proof (u64_to_string_nonempty n) as Hne.
  destruct (take_digits_digits 0 0 _ Hd) as (m & Ht & Hm).
  destruct (u64_to_string n) as [|a s] eqn:E; [done|].
  assert (is_ascii_digit a = true) as Ha by (simpl in Hd; by apply andb_true_iff in Hd as [? _]).
  rewrite !digits_not_word by done. cbn [orb].
  unfold parse_number. rewrite Ht, <- E, u64_to_string_value by done. simpl.
  rewrite bool_decide_false by (rewrite <- Hm; simpl; lia). simpl. f_equal.
  unfold decimal_to_f64, f64_of_Z. destruct n as [|p|p]; [done| |unfold in_width in Hn; lia].
  rewrite bool_decide_true by done. simpl. by rewrite Pos.mul_1_r.
Qed.

Lemma parse_f64_u64_ceil n :
  0 <= n < 2 ^ 53 -> exists x, parse_f64 (u64_to_string n) = Some x /\ ceil_as_u64 (f64_max x f64_zero) = n.
Proof.
  intros Hn. exists (f64_of_Z n). split; [apply parse_f64_u64; unfold in_width; lia|].
  destruct n as [|p|p]; [done| |lia].
  destruct (f64_of_small_Z p) as (m & e & Heq & He & Hm); [lia|].
  replace (f64_max (f64_of_Z (Zpos p)) f64_zero) with (f64_of_Z (Zpos p)) by (by rewrite Heq).
  apply ceil_as_u64_of_small_Z. lia.
Qed.
