(* ===== verification/Globs.v ===== *)
(** * relay-common: path globs (utils.rs)

    A glob is compiled to a regular expression of four kinds of parts: characters, [(.)],
    [(.*?)] and [([^/]*?)].  Here it is the list of these parts, and the matcher of the
    regex package is what its documentation says of such an expression between [^] and
    [$]: the parts in order, lazy ones as short as possible first. *)

From Stdlib Require Import Ascii String.
From S2P Require Import Prelude Strings.

Open Scope string_scope.
Open Scope Z_scope.
Open Scope list_scope.

Module Glob.

(** The escaped character, and the three groups. *)
Inductive Part := Literal (c : string) | AnyChar | AnyChars | NoSlash.

(** [GLOB_RE] finds [?], [**] and [*], in this order of preference. *)
Fixpoint parts (cs : list string) : list Part :=
  match cs with
  | [] => []
  | c :: cs' =>
      if bool_decide (c = "?") then AnyChar :: parts cs'
      else if bool_decide (c = "*") then
        match cs' with
        | c' :: cs'' => if bool_decide (c' = "*") then AnyChars :: parts cs'' else NoSlash :: parts cs'
        | [] => [NoSlash]
        end
      else Literal c :: parts cs'
  end.

Record Glob := MkGlob { value : string; pattern : list Part }.

Definition new (glob : string) : Glob := MkGlob glob (parts (chars glob)).

(** [.] matches everything but a newline. *)
Definition is_dot (c : string) : bool := negb (bool_decide (c = String (byte 10) "")).
Definition is_no_slash (c : string) : bool := negb (bool_decide (c = "/")).

(** A lazy group in front of [rest]: the shortest text of characters in [p] behind which
    the rest matches. *)
Fixpoint lazy_group (p : string -> bool) (rest : list string -> option (list string)) (group : string) (cs : list string)
  : option (list string) :=
  match rest cs with
  | Some groups => Some (group :: groups)
  | None =>
      match cs with
      | c :: cs => if p c then lazy_group p rest (group +:+ c) cs else None
      | [] => None
      end
  end.

(** The groups of the whole expression. *)
Fixpoint captures (pattern : list Part) (cs : list string) : option (list string) :=
  match pattern with
  | [] => match cs with [] => Some [] | _ => None end
  | Literal c :: pattern =>
      match cs with
      | c' :: cs => if bool_decide (c' = c) then captures pattern cs else None
      | [] => None
      end
  | AnyChar :: pattern =>
      match cs with
      | c :: cs => if is_dot c then cons c <$> captures pattern cs else None
      | [] => None
      end
  | AnyChars :: pattern => lazy_group is_dot (captures pattern) "" cs
  | NoSlash :: pattern => lazy_group is_no_slash (captures pattern) "" cs
  end.

Definition matches (self : Glob) (value : string) : option (list string) := captures (pattern self) (chars value).
Definition is_match (self : Glob) (value : string) : bool := bool_decide (is_Some (matches self value)).

End Glob.
Notation Glob := Glob.Glob.

Module GlobMatcher.
Section GlobMatcher.
Context {T : Type}.

Record GlobMatcher := MkGlobMatcher { globs : list (Glob * T) }.

Definition new : GlobMatcher := MkGlobMatcher [].
Definition add (self : GlobMatcher) (glob : string) (ident : T) : GlobMatcher :=
  MkGlobMatcher (globs self ++ [(Glob.new glob, ident)]).

Fixpoint test_globs (globs : list (Glob * T)) (s : string) : option T :=
  match globs with
  | [] => None
  | (glob, ident) :: globs => if Glob.is_match glob s then Some ident else test_globs globs s
  end.
Definition test (self : GlobMatcher) (s : string) : option T := test_globs (globs self) s.

Fixpoint match_globs (globs : list (Glob * T)) (s : string) : option (list string * T) :=
  match globs with
  | [] => None
  | (pat, ident) :: globs =>
      match Glob.matches pat s with Some matches => Some (matches, ident) | None => match_globs globs s end
  end.
Definition matches (self : GlobMatcher) (s : string) : option (list string * T) := match_globs (globs self) s.

End GlobMatcher.
#[global] Arguments GlobMatcher : clear implicits.
End GlobMatcher.
Notation GlobMatcher := GlobMatcher.GlobMatcher.

(** ** What a glob matches *)

(** The characters that a part stands for. *)
Definition stands_for (part : Glob.Part) (piece : list string) : Prop :=
  match part with
  | Glob.Literal c => piece = [c]
  | Glob.AnyChar => exists c, piece = [c] /\ Glob.is_dot c = true
  | Glob.AnyChars => Forall (fun c => Glob.is_dot c = true) piece
  | Glob.NoSlash => Forall (fun c => Glob.is_no_slash c = true) piece
  end.

Definition is_group (part : Glob.Part) : bool := match part with Glob.Literal _ => false | _ => true end.

(** The groups of pieces: those of the parts that are no characters. *)
Fixpoint groups_of (pattern : list Glob.Part) (pieces : list (list string)) : list string :=
  match pattern, pieces with
  | part :: pattern, piece :: pieces =>
      if is_group part then str_concat piece :: groups_of pattern pieces else groups_of pattern pieces
  | _, _ => []
  end.

Lemma lazy_group_sound p rest group cs groups :
  Glob.lazy_group p rest group cs = Some groups ->
  exists piece cs' groups', cs = piece ++ cs' /\ Forall (fun c => p c = true) piece /\ rest cs' = Some groups'
    /\ groups = (group +:+ str_concat piece) :: groups'.
Proof.
  revert group. induction cs as [|c cs IH]; intros group; simpl.
  - destruct (rest []) as [groups'|] eqn:E; [|done]. intros [= <-]. exists [], [], groups'. simpl. by rewrite str_app_nil_r.
  - destruct (rest (c :: cs)) as [groups'|] eqn:E.
    + intros [= <-]. exists [], (c :: cs), groups'. simpl. by rewrite str_app_nil_r.
    + destruct (p c) eqn:Hc; [|done]. intros (piece & cs' & groups' & -> & Hp & Hr & ->)%IH.
      exists (c :: piece), cs', groups'. split_and!; [done|by constructor|done|]. simpl. by rewrite str_app_assoc.
Qed.

Lemma lazy_group_complete p rest piece : forall group cs,
  Forall (fun c => p c = true) piece -> is_Some (rest cs) -> is_Some (Glob.lazy_group p rest group (piece ++ cs)).
Proof.
  induction piece as [|c piece IH]; intros group cs; simpl.
  - intros _ [groups Hg]. destruct cs; simpl; rewrite Hg; eauto.
  - intros [Hc Hp]%Forall_cons Hr. destruct (rest (c :: piece ++ cs)); [eauto|]. rewrite Hc. by apply IH.
Qed.

Lemma captures_sound pattern : forall cs groups,
  Glob.captures pattern cs = Some groups ->
  exists pieces, Forall2 stands_for pattern pieces /\ concat pieces = cs /\ groups = groups_of pattern pieces.
Proof.
  induction pattern as [|part pattern IH]; intros cs groups; simpl.
  - destruct cs; [|done]. intros [= <-]. by exists [].
  - destruct part.
    + destruct cs as [|c' cs]; [done|]. case_bool_decide; [subst c'|done]. intros (pieces & Hp & <- & ->)%IH.
      exists ([c] :: pieces). split_and!; [by constructor|done|done].
    + destruct cs as [|c' cs]; [done|]. destruct (Glob.is_dot c') eqn:Hd; [|done].
      destruct (Glob.captures pattern cs) as [gs|] eqn:E; [|done]. intros [= <-]. apply IH in E as (pieces & Hp & <- & ->).
      exists ([c'] :: pieces). split_and!; [constructor; [by exists c'|done]|done|]. simpl. by rewrite str_app_nil_r.
    + intros (piece & cs' & gs & -> & Hp & (pieces & Hps & <- & ->)%IH & ->)%lazy_group_sound. by exists (piece :: pieces); auto.
    + intros (piece & cs' & gs & -> & Hp & (pieces & Hps & <- & ->)%IH & ->)%lazy_group_sound. by exists (piece :: pieces); auto.
Qed.

Lemma captures_complete pattern pieces :
  Forall2 stands_for pattern pieces -> is_Some (Glob.captures pattern (concat pieces)).
Proof.
  induction 1 as [|part piece pattern pieces Hp Hps IH]; simpl; [eauto|]. destruct part; simpl in Hp.
  - subst piece. simpl. by rewrite bool_decide_eq_true_2.
  - destruct Hp as (c & -> & Hd). simpl. rewrite Hd. destruct IH as [gs ->]. eauto.
  - by apply lazy_group_complete.
  - by apply lazy_group_complete.
Qed.

(** A glob matches exactly the values that split into pieces its parts stand for: the
    characters themselves, one character for [?] and any text for [**], both without
    newlines, and text without a slash for [*]; and the wildcard matches are
    the pieces of the wildcards, so that filling them in gives the value. *)
Theorem glob_matches_pieces glob value :
  (Glob.is_match (Glob.new glob) value = true
   <-> exists pieces, Forall2 stands_for (Glob.parts (chars glob)) pieces /\ concat pieces = chars value)
  /\ forall groups, Glob.matches (Glob.new glob) value = Some groups ->
     exists pieces, Forall2 stands_for (Glob.parts (chars glob)) pieces /\ concat pieces = chars value
       /\ groups = groups_of (Glob.parts (chars glob)) pieces.
Proof.
  unfold Glob.is_match, Glob.matches. cbn [Glob.pattern Glob.new]. split; [|intros groups; apply captures_sound].
  rewrite bool_decide_eq_true. split.
  - intros [gs (pieces & Hp & Hc & _)%captures_sound]. eauto.
  - intros (pieces & Hp & <-). by apply captures_complete.
Qed.

(** The first glob that matches decides, for both lookups. *)
Lemma matcher_first {T} (m : GlobMatcher T) s :
  GlobMatcher.test m s = snd <$> GlobMatcher.matches m s
  /\ forall ident, GlobMatcher.test m s = Some ident ->
     exists l1 glob l2, GlobMatcher.globs m = l1 ++ (glob, ident) :: l2 /\ Glob.is_match glob s = true
       /\ Forall (fun e => Glob.is_match e.1 s = false) l1.
Proof.
  unfold GlobMatcher.test, GlobMatcher.matches. generalize (GlobMatcher.globs m). intros l. split.
  - induction l as [|[glob ident] l IH]; [done|]. simpl. unfold Glob.is_match. destruct (Glob.matches glob s); [done|].
    by rewrite bool_decide_eq_false_2 by (by intros []).
  - intros ident. induction l as [|[glob i] l IH]; [done|]. simpl. destruct (Glob.is_match glob s) eqn:E.
    + intros [= ->]. by exists [], glob, l.
    + intros (l1 & g & l2 & -> & Hg & Hl)%IH. exists ((glob, i) :: l1), g, l2. split_and!; [done|done|]. by constructor.
Qed.
