(* ===== verification/Types.v ===== *)
(** * relay-general: annotated values and their meta data (types/)

    [Value], [Annotated] and [Meta] refer to each other: a value holds
    annotated values, an annotation holds errors and an original value.  They
    are one mutual inductive type here, with [Annotated] a type of its own.
    Maps ([BTreeMap]) inside values are lists of pairs sorted by key. *)

From Stdlib Require Import Ascii String SpecFloat.
From S2P Require Import Prelude Strings Floats.

Open Scope string_scope.
Open Scope Z_scope.
Open Scope list_scope.

(** [serde_json::Error] *)
Inductive JsonError := MkJsonError (message : string).

Module RemarkType.

Inductive RemarkType := Annotated | Removed | Substituted | Masked | Pseudonymized | Encrypted.

#[global] Instance RemarkType_eq_dec : EqDecision RemarkType.
Proof. solve_decision. Defined.

End RemarkType.
Notation RemarkType := RemarkType.RemarkType.

Module Remark.

(** [range] holds byte indices: inclusive start and exclusive end. *)
Record Remark := MkRemark {
  ty : RemarkType;
  rule_id : string;
  range : option (nat * nat);
}.

#[global] Instance Remark_eq_dec : EqDecision Remark.
Proof. solve_decision. Defined.

Definition new (ty : RemarkType) (rule_id : string) : Remark :=
  {| ty := ty; rule_id := rule_id; range := None |}.

Definition with_range (ty : RemarkType) (rule_id : string) (range : nat * nat) : Remark :=
  {| ty := ty; rule_id := rule_id; range := Some range |}.

(** [r.1 - r.0] on [usize], which wraps around for a reversed range. *)
Definition len (self : Remark) : option Z :=
  (fun r => u64_sub (Z.of_nat r.2) (Z.of_nat r.1)) <$> range self.

Definition is_empty (self : Remark) : bool :=
  match len self with Some l => bool_decide (l = 0) | None => false end.

End Remark.
Notation Remark := Remark.Remark.

Module ErrorKind.

Inductive ErrorKind :=
| InvalidData | MissingAttribute | InvalidAttribute | ValueTooLong | ClockDrift
| PastTimestamp | FutureTimestamp | Unknown (error : string).

#[global] Instance ErrorKind_eq_dec : EqDecision ErrorKind.
Proof. solve_decision. Defined.

Definition parse (string : string) : ErrorKind :=
  default (Unknown string)
    (match_str string
       [("invalid_data", InvalidData);
        ("missing_attribute", MissingAttribute);
        ("invalid_attribute", InvalidAttribute);
        ("value_too_long", ValueTooLong);
        ("past_timestamp", PastTimestamp);
        ("future_timestamp", FutureTimestamp)]).

Definition as_str (self : ErrorKind) : string :=
  match self with
  | InvalidData => "invalid_data"
  | MissingAttribute => "missing_attribute"
  | InvalidAttribute => "invalid_attribute"
  | ValueTooLong => "value_too_long"
  | PastTimestamp => "past_timestamp"
  | FutureTimestamp => "future_timestamp"
  | ClockDrift => "clock_drift"
  | Unknown error => error
  end.

End ErrorKind.
Notation ErrorKind := ErrorKind.ErrorKind.

(** [struct Annotated<T>(pub Option<T>, pub Meta)], with the type of the meta
    data as a parameter to tie the knot. *)
Inductive annotated (M T : Type) : Type := MkAnnotated (value : option T) (meta : M).
Arguments MkAnnotated {M T} value meta.

Inductive Value : Type :=
| Bool (b : bool)
| I64 (n : Z)
| U64 (n : Z)
| F64 (x : f64)
| String_ (s : string)
| Array (items : list (annotated Meta Value))
| Object (items : list (string * annotated Meta Value))
with Error : Type :=
| MkError (kind : ErrorKind) (data : list (string * Value))
with MetaInner : Type :=
| MkMetaInner (remarks : list Remark) (errors : list Error)
    (original_length : option Z) (original_value : option Value)
with Meta : Type :=
| MkMeta (inner : option MetaInner).

Notation Annotated := (annotated Meta).

(** ** [PartialEq]: floats compare by value, empty meta data are equal *)

Definition option_eqb {A} (eqb : A -> A -> bool) (a b : option A) : bool :=
  match a, b with Some x, Some y => eqb x y | None, None => true | _, _ => false end.

(** [MetaInner::is_empty] and [Meta::is_empty]. *)
Definition inner_is_empty (self : MetaInner) : bool :=
  match self with
  | MkMetaInner remarks errors original_length original_value =>
      bool_decide (original_length = None) && bool_decide (remarks = [])
      && match errors with [] => true | _ => false end
      && match original_value with None => true | Some _ => false end
  end.

Fixpoint value_eqb (a b : Value) {struct a} : bool :=
  let annotated_eqb (x y : annotated Meta Value) : bool :=
    match x, y with
    | MkAnnotated v m, MkAnnotated v' m' =>
        match v, v' with
        | Some v, Some v' => value_eqb v v'
        | None, None => true
        | _, _ => false
        end && meta_eqb m m'
    end in
  match a, b with
  | Bool x, Bool y => bool_decide (x = y)
  | I64 x, I64 y => bool_decide (x = y)
  | U64 x, U64 y => bool_decide (x = y)
  | F64 x, F64 y => SFeqb x y
  | String_ x, String_ y => bool_decide (x = y)
  | Array xs, Array ys =>
      (fix go xs ys := match xs, ys with
                       | [], [] => true
                       | x :: xs, y :: ys => annotated_eqb x y && go xs ys
                       | _, _ => false
                       end) xs ys
  | Object xs, Object ys =>
      (fix go xs ys := match xs, ys with
                       | [], [] => true
                       | (k, x) :: xs, (k', y) :: ys =>
                           bool_decide (k = k') && annotated_eqb x y && go xs ys
                       | _, _ => false
                       end) xs ys
  | _, _ => false
  end
with error_eqb (a b : Error) {struct a} : bool :=
  match a, b with
  | MkError kind data, MkError kind' data' =>
      bool_decide (kind = kind') &&
      (fix go xs ys := match xs, ys with
                       | [], [] => true
                       | (k, x) :: xs, (k', y) :: ys =>
                           bool_decide (k = k') && value_eqb x y && go xs ys
                       | _, _ => false
                       end) data data'
  end
with inner_eqb (a b : MetaInner) {struct a} : bool :=
  match a, b with
  | MkMetaInner r e l v, MkMetaInner r' e' l' v' =>
      bool_decide (r = r') &&
      (fix go xs ys := match xs, ys with
                       | [], [] => true
                       | x :: xs, y :: ys => error_eqb x y && go xs ys
                       | _, _ => false
                       end) e e' &&
      bool_decide (l = l') &&
      match v, v' with
      | Some v, Some v' => value_eqb v v'
      | None, None => true
      | _, _ => false
      end
  end
with meta_eqb (a b : Meta) {struct a} : bool :=
  match a, b with
  | MkMeta i, MkMeta i' =>
      match i, i' with
      | Some x, Some y => (inner_is_empty x && inner_is_empty y) || inner_eqb x y
      | None, None => true
      | Some x, None | None, Some x => inner_is_empty x
      end
  end.

(** ** Operations on [Meta] *)

Module Meta.

Definition empty : Meta := MkMeta None.
Definition inner_default : MetaInner := MkMetaInner [] [] None None.

Definition inner (self : Meta) : option MetaInner := match self with MkMeta i => i end.

(** [get_or_insert_with]: the inner data, created when missing. *)
Definition upsert (self : Meta) : MetaInner := default inner_default (inner self).

Definition is_empty (self : Meta) : bool :=
  match inner self with Some x => inner_is_empty x | None => true end.

Definition original_length (self : Meta) : option Z :=
  match inner self with Some (MkMetaInner _ _ l _) => l | None => None end.

(** The length is kept as a [u32] and only set once. *)
Definition set_original_length (self : Meta) (original_length : option Z) : Meta :=
  let '(MkMetaInner r e l v) := upsert self in
  MkMeta (Some (MkMetaInner r e
    (match l with None => wrap 32 <$> original_length | Some _ => l end) v)).

Definition remarks (self : Meta) : list Remark :=
  match inner self with Some (MkMetaInner r _ _ _) => r | None => [] end.

Definition has_remarks (self : Meta) : bool :=
  match inner self with Some (MkMetaInner r _ _ _) => bool_decide (r = []) | None => false end.

Definition clear_remarks (self : Meta) : Meta :=
  match inner self with
  | Some (MkMetaInner _ e l v) => MkMeta (Some (MkMetaInner [] e l v))
  | None => self
  end.

Definition add_remark (self : Meta) (remark : Remark) : Meta :=
  let '(MkMetaInner r e l v) := upsert self in MkMeta (Some (MkMetaInner (r ++ [remark]) e l v)).

Definition errors (self : Meta) : list Error :=
  match inner self with Some (MkMetaInner _ e _ _) => e | None => [] end.

Definition add_error (self : Meta) (err : Error) : Meta :=
  let '(MkMetaInner r e l v) := upsert self in
  if existsb (fun x => error_eqb x err) e then MkMeta (Some (MkMetaInner r e l v))
  else MkMeta (Some (MkMetaInner r (e ++ [err]) l v)).

Definition from_error (err : Error) : Meta := add_error empty err.

Definition has_errors (self : Meta) : bool :=
  match inner self with
  | Some (MkMetaInner _ e _ _) => negb (match e with [] => true | _ => false end)
  | None => false
  end.

Definition original_value (self : Meta) : option Value :=
  match inner self with Some (MkMetaInner _ _ _ v) => v | None => None end.

Definition take_original_value (self : Meta) : option Value * Meta :=
  match inner self with
  | Some (MkMetaInner r e l v) => (v, MkMeta (Some (MkMetaInner r e l None)))
  | None => (None, self)
  end.

Definition merge (self other : Meta) : Meta :=
  match inner other with
  | Some (MkMetaInner r' e' l' v') =>
      let '(MkMetaInner r e l v) := upsert self in
      MkMeta (Some (MkMetaInner (r ++ r') (e ++ e')
        (match l with None => l' | Some _ => l end)
        (match v with None => v' | Some _ => v end)))
  | None => self
  end.

End Meta.

(** ** Operations on [Annotated] *)

Module Annotated.

Definition new {T} (value : T) : Annotated T := MkAnnotated (Some value) Meta.empty.
Definition empty {T} : Annotated T := MkAnnotated None Meta.empty.
Definition value {T} (self : Annotated T) : option T := match self with MkAnnotated v _ => v end.
Definition meta {T} (self : Annotated T) : Meta := match self with MkAnnotated _ m => m end.
Definition set_value {T} (self : Annotated T) (v : option T) : Annotated T := MkAnnotated v (meta self).

Definition and_then {T U} (self : Annotated T) (f : T -> Annotated U) : Annotated U :=
  match self with
  | MkAnnotated (Some v) m =>
      match f v with MkAnnotated v' m' => MkAnnotated v' (Meta.merge m m') end
  | MkAnnotated None m => MkAnnotated None m
  end.

Definition map_value {T U} (self : Annotated T) (f : T -> U) : Annotated U :=
  match self with MkAnnotated v m => MkAnnotated (f <$> v) m end.

(** The annotated value after [get_or_insert_with(f)], and the value in it. *)
Definition get_or_insert_with {T} (self : Annotated T) (f : T) : T * Annotated T :=
  let v := default f (value self) in (v, set_value self (Some v)).

(** [f] on the value, if there is one, in a computation that may stop. *)
Definition mapM {M} `{MRet M, FMap M} {T} (f : T -> M T) (self : Annotated T) : M (Annotated T) :=
  match self with
  | MkAnnotated (Some v) m => (fun v => MkAnnotated (Some v) m) <$> f v
  | MkAnnotated None m => mret (MkAnnotated None m)
  end.

Definition map_meta {T} (self : Annotated T) (f : Meta -> Meta) : Annotated T :=
  MkAnnotated (value self) (f (meta self)).

End Annotated.

(** [value_mut().get_or_insert_with(default)], changed by [f]. *)
Definition upsert {T} (default_ : T) (f : T -> T) (self : Annotated T) : Annotated T :=
  Annotated.set_value self (Some (f (default default_ (Annotated.value self)))).

(** What a processor may answer for a value. *)
Module ProcessingAction.

Inductive ProcessingAction := DeleteValueHard | DeleteValueSoft | InvalidTransaction (message : string).

#[global] Instance ProcessingAction_eq_dec : EqDecision ProcessingAction.
Proof. solve_decision. Defined.

End ProcessingAction.
Notation ProcessingAction := ProcessingAction.ProcessingAction.

(** ** Lemmas *)

(** The contents of a [Meta], what its accessors return. *)
Definition contents (m : Meta) :=
  (Meta.remarks m, Meta.errors m, Meta.original_length m, Meta.original_value m).

(** Metas that no accessor distinguishes. *)
Definition meta_equiv (a b : Meta) : Prop := contents a = contents b.

#[global] Instance meta_equiv_equivalence : Equivalence meta_equiv.
Proof. split; repeat intro; unfold meta_equiv in *; congruence. Qed.

Lemma contents_merge a b :
  contents (Meta.merge a b) =
  (Meta.remarks a ++ Meta.remarks b, Meta.errors a ++ Meta.errors b,
   match Meta.original_length a with None => Meta.original_length b | Some l => Some l end,
   match Meta.original_value a with None => Meta.original_value b | Some v => Some v end).
Proof.
  unfold contents, Meta.merge, Meta.upsert.
  destruct a as [[[r e l v]|]], b as [[[r' e' l' v']|]]; simpl; rewrite ?app_nil_r; try done;
    destruct l, v; done.
Qed.

#[global] Instance merge_meta_proper : Proper (meta_equiv ==> meta_equiv ==> meta_equiv) Meta.merge.
Proof.
  intros a a' Ha b b' Hb. unfold meta_equiv in *. rewrite !contents_merge.
  unfold contents in Ha, Hb.
  injection Ha as -> -> -> ->. by injection Hb as -> -> -> ->.
Qed.

Lemma merge_empty_l m : meta_equiv (Meta.merge Meta.empty m) m.
Proof. unfold meta_equiv. rewrite contents_merge. by destruct m as [[[r e l v]|]]. Qed.

Lemma merge_empty_r m : Meta.merge m Meta.empty = m.
Proof. done. Qed.

Lemma merge_assoc a b c :
  meta_equiv (Meta.merge a (Meta.merge b c)) (Meta.merge (Meta.merge a b) c).
Proof.
  unfold meta_equiv. rewrite (contents_merge a), (contents_merge (Meta.merge a b)).
  pose proof (contents_merge a b) as Hab. pose proof (contents_merge b c) as Hbc.
  unfold contents in Hab, Hbc. injection Hab as -> -> -> ->. injection Hbc as -> -> -> ->.
  rewrite !app_assoc. by destruct (Meta.original_length a), (Meta.original_value a).
Qed.

(** ** Properties *)

(** [Annotated::and_then] is a lawful monadic bind up to what the accessors
    of the meta data show: [new] is a unit on both sides, binding is
    associative, and a missing value short-circuits with its meta data kept, so
    no remark or error recorded on the way is lost. *)
Theorem annotated_and_then_laws {T U V} (x : T) (a : Annotated T)
    (f : T -> Annotated U) (g : U -> Annotated V) :
  (Annotated.value (Annotated.and_then (Annotated.new x) f) = Annotated.value (f x) /\
   meta_equiv (Annotated.meta (Annotated.and_then (Annotated.new x) f)) (Annotated.meta (f x))) /\
  Annotated.and_then a Annotated.new = a /\
  (Annotated.value (Annotated.and_then (Annotated.and_then a f) g) =
     Annotated.value (Annotated.and_then a (fun y => Annotated.and_then (f y) g)) /\
   meta_equiv (Annotated.meta (Annotated.and_then (Annotated.and_then a f) g))
              (Annotated.meta (Annotated.and_then a (fun y => Annotated.and_then (f y) g)))) /\
  (forall y, Annotated.value a = Some y ->
     Meta.remarks (Annotated.meta (Annotated.and_then a f)) =
       Meta.remarks (Annotated.meta a) ++ Meta.remarks (Annotated.meta (f y)) /\
     Meta.errors (Annotated.meta (Annotated.and_then a f)) =
       Meta.errors (Annotated.meta a) ++ Meta.errors (Annotated.meta (f y))).
Proof.
  split; [|split; [by destruct a as [[v|] m]|split]].
  - simpl. destruct (f x) as [v m]. split; [done|]. apply merge_empty_l.
  - destruct a as [[v|] m]; simpl; [|done]. destruct (f v) as [[u|] m']; simpl; [|done].
    destruct (g u) as [w m'']; simpl. split; [done|]. symmetry. apply merge_assoc.
  - intros y Hy. destruct a as [v m]. simpl in Hy. subst v. simpl.
    destruct (f y) as [u m']. simpl.
    pose proof (contents_merge m m') as Hc. unfold contents in Hc. injection Hc as -> -> _ _. done.
Qed.

(** [ErrorKind] survives a round trip through its string form for every
    kind that [parse] knows; [ClockDrift] does not: it is written as
    ["clock_drift"] but reads back as an unknown kind. *)
Theorem error_kind_roundtrip_except_clock_drift k :
  match k with
  | ErrorKind.ClockDrift =>
      ErrorKind.parse (ErrorKind.as_str k) = ErrorKind.Unknown "clock_drift"
  | ErrorKind.Unknown s =>
      ErrorKind.as_str (ErrorKind.parse s) = s
  | _ => ErrorKind.parse (ErrorKind.as_str k) = k
  end.
Proof.
  destruct k; try done. unfold ErrorKind.parse. simpl.
  repeat (case_bool_decide; [by subst|]). done.
Qed.

(** [Meta::has_remarks] is inverted: it is true exactly for metas whose
    inner data exist and hold no remark, so it is false after every
    [add_remark] and true after a [clear_remarks] that had anything to clear. *)
Theorem has_remarks_inverted m r :
  Meta.has_remarks (Meta.add_remark m r) = false /\
  Meta.has_remarks (Meta.clear_remarks (Meta.add_remark m r)) = true /\
  (Meta.has_remarks m = true -> Meta.remarks m = []).
Proof.
  unfold Meta.has_remarks, Meta.add_remark, Meta.clear_remarks, Meta.upsert, Meta.remarks.
  destruct m as [[[rs e l v]|]]; simpl; split; try done.
  - rewrite bool_decide_false; [done|]. by destruct rs.
  - split; [done|]. apply bool_decide_eq_true.
Qed.
