(* ===== verification/Chunks.v ===== *)
(** * relay-general: annotated strings as chunks (processor/chunks.rs)

    [split_chunks] cuts a string at the byte ranges of its remarks,
    [join_chunks] puts the pieces together again and emits the remarks.
    Strings are their UTF-8 bytes; [str::get] refuses a range that is reversed,
    out of bounds or not on character boundaries. *)

From Stdlib Require Import Ascii String SpecFloat.
From S2P Require Import Prelude Strings Floats Types.

Open Scope string_scope.
Open Scope nat_scope.
Open Scope list_scope.

(** ** Chunks *)

Inductive Chunk :=
| Text (text : string)
| Redaction (text : string) (rule_id : string) (ty : RemarkType).

#[global] Instance Chunk_eq_dec : EqDecision Chunk.
Proof. solve_decision. Defined.

Definition as_str (self : Chunk) : string :=
  match self with Text text => text | Redaction text _ _ => text end.

Definition len (self : Chunk) : nat := String.length (as_str self).

Definition is_empty (self : Chunk) : bool := bool_decide (len self = 0).

(** The loop of [split_chunks]: the position reached and the chunks pushed. *)
Fixpoint split_loop (text : string) (remarks : list Remark) (pos : nat) (rv : list Chunk)
  : nat * list Chunk :=
  match remarks with
  | [] => (pos, rv)
  | remark :: remarks =>
      match Remark.range remark with
      | None => split_loop text remarks pos rv
      | Some (from, to) =>
          let pushed :=
            if bool_decide (pos < from) then
              (fun piece => rv ++ [Text piece]) <$> str_get text pos from
            else Some rv in
          match pushed with
          | None => (pos, rv)
          | Some rv =>
              match str_get text from to with
              | Some piece =>
                  split_loop text remarks to
                    (rv ++ [Redaction piece (Remark.rule_id remark) (Remark.ty remark)])
              | None => (pos, rv)
              end
          end
      end
  end.

Definition split_chunks (text : string) (remarks : list Remark) : list Chunk :=
  let '(pos, rv) := split_loop text remarks 0 [] in
  if bool_decide (pos < String.length text) then
    match str_get text pos (String.length text) with
    | Some piece => rv ++ [Text piece]
    | None => rv
    end
  else rv.

(** The loop of [join_chunks]. *)
Fixpoint join_loop (chunks : list Chunk) (pos : nat) (rv : string) (remarks : list Remark)
  : string * list Remark :=
  match chunks with
  | [] => (rv, remarks)
  | chunk :: chunks =>
      let new_pos := pos + len chunk in
      let rv := rv +:+ as_str chunk in
      let remarks :=
        match chunk with
        | Redaction _ rule_id ty => remarks ++ [Remark.with_range ty rule_id (pos, new_pos)]
        | Text _ => remarks
        end in
      join_loop chunks new_pos rv remarks
  end.

Definition join_chunks (chunks : list Chunk) : string * list Remark :=
  join_loop chunks 0 "" [].

Section Process.

(** [bytecount::num_chars]. *)
Context (num_chars : string -> Z).

(** [f] is the caller's closure. *)
Definition process_chunked_value (value : string) (meta : Meta)
    (f : list Chunk -> list Chunk) : string * Meta :=
  let chunks := split_chunks value (Meta.remarks meta) in
  let '(new_value, remarks) := join_chunks (f chunks) in
  if bool_decide (new_value <> value) then
    let meta := Meta.clear_remarks meta in
    let meta := fold_left Meta.add_remark remarks meta in
    let meta := Meta.set_original_length meta (Some (num_chars value)) in
    (new_value, meta)
  else (value, meta).

End Process.

(** ** Reference definitions *)

(** Splitting without an accumulator. *)
Definition tail_chunks (text : string) (pos : nat) : list Chunk :=
  if bool_decide (pos < String.length text) then
    match str_get text pos (String.length text) with Some p => [Text p] | None => [] end
  else [].

Definition gap (text : string) (pos from : nat) : option (list Chunk) :=
  if bool_decide (pos < from) then (fun p => [Text p]) <$> str_get text pos from else Some [].

Fixpoint split_from (text : string) (pos : nat) (remarks : list Remark) : list Chunk :=
  match remarks with
  | [] => tail_chunks text pos
  | remark :: rest =>
      match Remark.range remark with
      | None => split_from text pos rest
      | Some (from, to) =>
          match gap text pos from with
          | None => tail_chunks text pos
          | Some g =>
              match str_get text from to with
              | Some p => g ++ Redaction p (Remark.rule_id remark) (Remark.ty remark)
                            :: split_from text to rest
              | None => g ++ tail_chunks text pos
              end
          end
      end
  end.

Fixpoint texts (cs : list Chunk) : string :=
  match cs with [] => "" | c :: cs => as_str c +:+ texts cs end.

Fixpoint remarks_at (pos : nat) (cs : list Chunk) : list Remark :=
  match cs with
  | [] => []
  | c :: cs =>
      match c with
      | Redaction t r ty => [Remark.with_range ty r (pos, pos + String.length t)]
      | Text _ => []
      end ++ remarks_at (pos + len c) cs
  end.

(** The remarks that carry a range. *)
Definition ranged (remarks : list Remark) : list Remark :=
  filter (fun r => is_Some (Remark.range r)) remarks.

(** The ranges are in order, do not overlap and slice the text. *)
Fixpoint ranges_fit (text : string) (pos : nat) (remarks : list Remark) : bool :=
  match remarks with
  | [] => true
  | remark :: rest =>
      match Remark.range remark with
      | None => ranges_fit text pos rest
      | Some (from, to) =>
          bool_decide (pos <= from) && bool_decide (is_Some (str_get text from to))
          && ranges_fit text to rest
      end
  end.

Definition is_text (c : Chunk) : bool := match c with Text _ => true | _ => false end.

(** Chunks as [split_chunks] produces them: no empty text, no two texts in a
    row, and no chunk that starts inside a character. *)
Fixpoint canonical (cs : list Chunk) : bool :=
  match cs with
  | [] => true
  | c :: cs =>
      starts_char (as_str c)
      && (if is_text c then negb (is_empty c) && negb (match cs with d :: _ => is_text d | [] => false end)
          else true)
      && canonical cs
  end.

(** ** Lemmas on slices *)

(** ** The loops against the reference definitions *)

Lemma split_loop_from text remarks pos rv :
  let '(p, r) := split_loop text remarks pos rv in
  r ++ tail_chunks text p = rv ++ split_from text pos remarks.
Proof.
  revert pos rv. induction remarks as [|rm rest IH]; intros pos rv; simpl; [done|].
  destruct (Remark.range rm) as [[from to]|]; [|apply IH].
  unfold gap. destruct (bool_decide (pos < from)); simpl.
  - destruct (str_get text pos from) as [p|]; simpl; [|done].
    destruct (str_get text from to) as [q|]; [|by rewrite <- app_assoc].
    specialize (IH to ((rv ++ [Text p]) ++ [Redaction q (Remark.rule_id rm) (Remark.ty rm)])).
    destruct (split_loop _ _ _ _). rewrite IH, <- !app_assoc. done.
  - destruct (str_get text from to) as [q|]; [|done].
    specialize (IH to (rv ++ [Redaction q (Remark.rule_id rm) (Remark.ty rm)])).
    destruct (split_loop _ _ _ _). rewrite IH, <- !app_assoc. done.
Qed.

Lemma split_chunks_from text remarks : split_chunks text remarks = split_from text 0 remarks.
Proof.
  unfold split_chunks. pose proof (split_loop_from text remarks 0 []) as H.
  destruct (split_loop _ _ _ _) as [p r]. simpl in H. rewrite <- H. unfold tail_chunks.
  destruct (bool_decide _); [|by rewrite app_nil_r]. destruct (str_get _ _ _); [done|by rewrite app_nil_r].
Qed.

Lemma join_loop_spec cs pos rv remarks :
  join_loop cs pos rv remarks = (rv +:+ texts cs, remarks ++ remarks_at pos cs).
Proof.
  revert pos rv remarks. induction cs as [|c cs IH]; intros pos rv remarks; simpl.
  - by rewrite str_app_nil_r, app_nil_r.
  - rewrite IH, str_app_assoc. f_equal. destruct c; simpl; [done|]. by rewrite <- app_assoc.
Qed.

Lemma join_chunks_spec cs : join_chunks cs = (texts cs, remarks_at 0 cs).
Proof. unfold join_chunks. by rewrite join_loop_spec. Qed.

Lemma texts_app cs ds : texts (cs ++ ds) = texts cs +:+ texts ds.
Proof. induction cs as [|c cs IH]; simpl; [done|]. by rewrite IH, str_app_assoc. Qed.

Lemma remarks_at_app pos cs ds :
  remarks_at pos (cs ++ ds) = remarks_at pos cs ++ remarks_at (pos + String.length (texts cs)) ds.
Proof.
  revert pos. induction cs as [|c cs IH]; intros pos; simpl.
  - by rewrite Nat.add_0_r.
  - rewrite IH, <- app_assoc, length_app_str. unfold len. by rewrite Nat.add_assoc.
Qed.

(** ** Round trips *)

Lemma tail_chunks_spec text pos :
  is_char_boundary text pos = true -> pos <= String.length text ->
  texts (tail_chunks text pos) = substring pos (String.length text - pos) text /\
  forall q, remarks_at q (tail_chunks text pos) = [].
Proof.
  intros Hb Hp. unfold tail_chunks. case_bool_decide.
  - assert (str_get text pos (String.length text) =
            Some (substring pos (String.length text - pos) text)) as ->.
    { apply str_get_Some. split_and!; auto using boundary_end. }
    simpl. by rewrite str_app_nil_r.
  - replace (_ - pos) with 0 by lia. by rewrite substring_0.
Qed.

Lemma gap_spec text pos from :
  is_char_boundary text pos = true -> is_char_boundary text from = true ->
  pos <= from <= String.length text ->
  exists g, gap text pos from = Some g /\ texts g = substring pos (from - pos) text /\
            forall q, remarks_at q g = [].
Proof.
  intros Hp Hf Hle. unfold gap. case_bool_decide.
  - assert (str_get text pos from = Some (substring pos (from - pos) text)) as ->.
    { apply str_get_Some. split_and!; auto; lia. }
    simpl. eexists. split; [done|]. simpl. by rewrite str_app_nil_r.
  - exists []. replace (from - pos) with 0 by lia. by rewrite substring_0.
Qed.

Lemma split_from_texts text remarks pos :
  is_char_boundary text pos = true -> pos <= String.length text ->
  ranges_fit text pos remarks = true ->
  texts (split_from text pos remarks) = substring pos (String.length text - pos) text /\
  remarks_at pos (split_from text pos remarks) = ranged remarks.
Proof.
  revert pos. induction remarks as [|rm rest IH]; intros pos Hb Hp Hfit; simpl.
  { destruct (tail_chunks_spec text pos Hb Hp) as [-> Hr]. by rewrite Hr. }
  simpl in Hfit. destruct rm as [ty id [[from to]|]]; simpl in *.
  - apply andb_true_iff in Hfit as [[Hle [p Hget]%bool_decide_eq_true]%andb_true_iff Hfit].
    apply bool_decide_eq_true in Hle. rewrite Hget.
    apply str_get_Some in Hget as ([Hft Hto] & Hbf & Hbt & ->).
    destruct (gap_spec text pos from Hb Hbf) as (g & -> & Hg & Hgr); [lia|].
    destruct (IH to Hbt Hto Hfit) as [Ht Hr].
    rewrite texts_app, remarks_at_app, Hg, Hgr. simpl. unfold len. simpl.
    rewrite !length_substring, Ht by lia. replace (pos + (from - pos)) with from by lia.
    replace (from + (to - from)) with to by lia. rewrite Hr. split; [|done].
    replace (String.length text - pos) with
      ((from - pos) + ((to - from) + (String.length text - to))) by lia.
    rewrite <- (substring_join pos), <- (substring_join (pos + (from - pos))).
    do 2 f_equal; f_equal; lia.
  - unfold ranged. rewrite filter_cons_False by (intros [? [=]]). by apply IH.
Qed.

Lemma texts_starts_char cs : canonical cs = true -> starts_char (texts cs) = true.
Proof.
  induction cs as [|c cs IH]; simpl; [done|].
  intros [[H1 H2]%andb_true_iff H3]%andb_true_iff.
  destruct (as_str c); simpl in *; auto.
Qed.

Lemma starts_char_app s t : starts_char s = true -> starts_char t = true -> starts_char (s +:+ t) = true.
Proof. by destruct s. Qed.

Lemma tail_chunks_end text : tail_chunks text (String.length text) = [].
Proof. unfold tail_chunks. rewrite bool_decide_false by lia. done. Qed.

Lemma split_from_redaction pre t r ty rest :
  starts_char t = true -> starts_char (texts rest) = true ->
  split_from (pre +:+ t +:+ texts rest) (String.length pre)
    (remarks_at (String.length pre) (Redaction t r ty :: rest)) =
  Redaction t r ty ::
    split_from (pre +:+ t +:+ texts rest) (String.length pre + String.length t)
      (remarks_at (String.length pre + String.length t) rest).
Proof.
  intros Ht Hr. simpl. unfold gap. rewrite bool_decide_false by lia.
  rewrite str_get_middle; auto using starts_char_app.
Qed.

Lemma split_from_text_redaction pre s t r ty rest :
  starts_char s = true -> s <> "" -> starts_char t = true -> starts_char (texts rest) = true ->
  split_from (pre +:+ s +:+ t +:+ texts rest) (String.length pre)
    (remarks_at (String.length pre) (Text s :: Redaction t r ty :: rest)) =
  Text s :: split_from ((pre +:+ s) +:+ t +:+ texts rest) (String.length (pre +:+ s))
    (remarks_at (String.length (pre +:+ s)) (Redaction t r ty :: rest)).
Proof.
  intros Hs Hne Ht Hr. rewrite split_from_redaction by done. simpl. unfold len. simpl.
  assert (String.length s <> 0) by (by destruct s).
  unfold gap. rewrite bool_decide_true by lia.
  rewrite str_get_middle by auto using starts_char_app. simpl.
  rewrite <- length_app_str, <- str_app_assoc, str_get_middle by auto using starts_char_app. done.
Qed.

Lemma split_from_texts_canonical cs pre :
  canonical cs = true ->
  split_from (pre +:+ texts cs) (String.length pre) (remarks_at (String.length pre) cs) = cs.
Proof.
  remember (length cs) as n eqn:Hn. assert (length cs <= n) as Hle by lia. clear Hn.
  revert cs pre Hle. induction n as [|n IH]; intros [|c cs] pre Hle Hc; simpl in Hle; try lia;
    try (simpl; rewrite str_app_nil_r; apply tail_chunks_end).
  simpl in Hc. apply andb_true_iff in Hc as [[Hs Ht]%andb_true_iff Hc].
  assert (forall t r ty rest, S (length rest) <= S n -> starts_char t = true -> canonical rest = true ->
    split_from (pre +:+ t +:+ texts rest) (String.length pre)
      (remarks_at (String.length pre) (Redaction t r ty :: rest)) = Redaction t r ty :: rest) as Hred.
  { intros. rewrite split_from_redaction by auto using texts_starts_char.
    f_equal. rewrite <- length_app_str, <- str_app_assoc. apply IH; [lia|done]. }
  destruct c as [s|s r ty]; simpl in Hs, Ht; [|by apply Hred; [lia| |]].
  apply andb_true_iff in Ht as [Hne%negb_true_iff Hadj].
  assert (s <> "") as Hs0 by (intros ->; unfold is_empty in Hne; done).
  destruct cs as [|[t|t r ty] rest]; [| |]; [|done|].
  - simpl. rewrite str_app_nil_r. unfold tail_chunks. rewrite length_app_str.
    assert (String.length s <> 0) by (by destruct s). rewrite bool_decide_true by lia.
    pose proof (str_get_middle pre s "") as Hg. rewrite !str_app_nil_r in Hg. by rewrite Hg.
  - simpl in Hc. apply andb_true_iff in Hc as [[Ht _]%andb_true_iff Hc].
    change (texts (Text s :: Redaction t r ty :: rest)) with (s +:+ t +:+ texts rest).
    rewrite split_from_text_redaction by auto using texts_starts_char. f_equal.
    rewrite split_from_redaction by auto using texts_starts_char. f_equal.
    rewrite <- length_app_str, <- !str_app_assoc. apply IH; [simpl in Hle; lia|done].
Qed.

(** ** Properties *)

(** [join_chunks] inverts [split_chunks]: for remarks whose ranges are in
    order, disjoint and slice the text on character boundaries, joining the
    chunks gives back the text and exactly the remarks that have a range, so
    [process_chunked_value] with a closure that keeps the chunks changes
    neither the value nor its meta data. *)
Theorem split_join_roundtrip (num_chars : string -> Z) text meta
    (Hfit : ranges_fit text 0 (Meta.remarks meta) = true) :
  join_chunks (split_chunks text (Meta.remarks meta)) = (text, ranged (Meta.remarks meta)) /\
  process_chunked_value num_chars text meta (fun cs => cs) = (text, meta).
Proof.
  assert (join_chunks (split_chunks text (Meta.remarks meta)) = (text, ranged (Meta.remarks meta))) as Hj.
  { rewrite split_chunks_from, join_chunks_spec.
    destruct (split_from_texts text (Meta.remarks meta) 0) as [-> ->]; auto using boundary_0 with lia.
    by rewrite Nat.sub_0_r, substring_all. }
  split; [done|]. unfold process_chunked_value. rewrite Hj. by rewrite bool_decide_false by auto.
Qed.

Lemma split_join_roundtrip_witness :
  join_chunks (split_chunks "Hello, [redacted]!"
    [Remark.with_range RemarkType.Substituted "myrule" (7, 17)]) =
  ("Hello, [redacted]!", [Remark.with_range RemarkType.Substituted "myrule" (7, 17)]).
Proof.
  apply (split_join_roundtrip (fun s => Z.of_nat (String.length s)) "Hello, [redacted]!"
    (Meta.add_remark Meta.empty (Remark.with_range RemarkType.Substituted "myrule" (7, 17)))).
  reflexivity.
Defined.

(** [split_chunks] inverts [join_chunks] on chunks in the form it produces
    itself (no empty or adjacent text chunks, every chunk starting at a
    character), so the remarks a processor emits carry everything needed to find
    its redactions again. *)
Theorem join_split_roundtrip cs (Hc : canonical cs = true) :
  let '(text, remarks) := join_chunks cs in split_chunks text remarks = cs.
Proof. rewrite join_chunks_spec, split_chunks_from. apply (split_from_texts_canonical cs "" Hc). Qed.

Lemma join_split_roundtrip_witness :
  let cs := [Text "my mail is "; Redaction "****" "@email:strip" RemarkType.Masked; Text "."] in
  split_chunks "my mail is ****."
    [Remark.with_range RemarkType.Masked "@email:strip" (11, 15)] = cs.
Proof.
  exact (join_split_roundtrip
    [Text "my mail is "; Redaction "****" "@email:strip" RemarkType.Masked; Text "."] eq_refl).
Defined.

(** A remark that starts inside the text but ends behind it makes
    [split_chunks] emit the text before it twice: the loop breaks after pushing
    that text and before moving on.  A closure that keeps the chunks then
    changes the value. *)
Theorem out_of_range_remark_duplicates (num_chars : string -> Z) pre text ty rule_id to
    (Hpre : pre <> "") (Hstart : starts_char text = true)
    (Hto : String.length (pre +:+ text) < to) :
  let remark := Remark.with_range ty rule_id (String.length pre, to) in
  split_chunks (pre +:+ text) [remark] = [Text pre; Text (pre +:+ text)] /\
  (process_chunked_value num_chars (pre +:+ text) (Meta.add_remark Meta.empty remark)
    (fun cs => cs)).1 = pre +:+ pre +:+ text.
Proof.
  assert (String.length pre <> 0) by (by destruct pre).
  assert (split_chunks (pre +:+ text) [Remark.with_range ty rule_id (String.length pre, to)] =
          [Text pre; Text (pre +:+ text)]) as Hs.
  { rewrite split_chunks_from. simpl. unfold gap, tail_chunks. rewrite length_app_str in Hto.
    rewrite bool_decide_true by lia.
    assert (str_get (pre +:+ text) 0 (String.length pre) = Some pre) as ->.
    { apply str_get_Some. rewrite length_app_str. split_and!; auto using boundary_0, boundary_app with lia.
      by rewrite Nat.sub_0_r, substring_app_l. }
    assert (str_get (pre +:+ text) (String.length pre) to = None) as ->.
    { destruct (str_get _ _ _) eqn:Hg; [|done]. apply str_get_Some in Hg.
      rewrite length_app_str in Hg. lia. }
    simpl. rewrite bool_decide_true by (rewrite length_app_str; lia).
    assert (str_get (pre +:+ text) 0 (String.length (pre +:+ text)) = Some (pre +:+ text)) as ->; [|done].
    apply str_get_Some. split_and!; auto using boundary_0, boundary_end with lia.
    by rewrite Nat.sub_0_r, substring_all. }
  split; [done|]. unfold process_chunked_value.
  change (Meta.remarks _) with [Remark.with_range ty rule_id (String.length pre, to)].
  rewrite Hs, join_chunks_spec. simpl texts. rewrite str_app_nil_r.
  rewrite bool_decide_true; [done|].
  intros Heq%(f_equal String.length). rewrite !length_app_str in Heq. lia.
Qed.

Lemma out_of_range_remark_duplicates_witness :
  split_chunks "hello" [Remark.with_range RemarkType.Masked "r" (2, 100)] = [Text "he"; Text "hello"].
Proof.
  apply (out_of_range_remark_duplicates (fun s => Z.of_nat (String.length s)) "he" "llo" RemarkType.Masked "r" 100).
  - discriminate.
  - reflexivity.
  - simpl. lia.
Defined.
