(* ===== verification/Attrs.v ===== *)
(** * relay-general: field attributes, processing states and selectors (processor/attrs.rs)

    The processor framework walks a value with a [ProcessingState]: the stack of
    positions from the visited value up to the root, each with its path item, its
    field attributes and its value types.  [Path::matches_selector] decides whether a
    selector of a PII rule addresses the visited value.

    The last part is the specification of that decision ([path_spec]), which the
    two-phase walk of the code implements. *)

From Stdlib Require Import Ascii String.
From S2P Require Import Prelude Strings.

Open Scope string_scope.
Open Scope Z_scope.
Open Scope list_scope.

Module ValueType.

Inductive ValueType :=
| String_ | Binary | Number | Boolean | DateTime | Array | Object
| Event | Attachments
| Exception | Stacktrace | Frame | Request | User | LogEntry | Message | Thread | Breadcrumb
| Span | ClientSdkInfo
| Minidump | HeapMemory | StackMemory.

#[global] Instance ValueType_eq_dec : EqDecision ValueType.
Proof. solve_decision. Defined.

Definition as_str (self : ValueType) : string :=
  match self with
  | String_ => "string" | Binary => "binary" | Number => "number" | Boolean => "boolean"
  | DateTime => "datetime" | Array => "array" | Object => "object" | Event => "event"
  | Attachments => "attachments" | Exception => "error" | Stacktrace => "stack" | Frame => "frame"
  | Request => "http" | User => "user" | LogEntry => "logentry" | Message => "message"
  | Thread => "thread" | Breadcrumb => "breadcrumb" | Span => "span" | ClientSdkInfo => "sdk"
  | Minidump => "minidump" | HeapMemory => "heap_memory" | StackMemory => "stack_memory"
  end.

(** [None] is [UnknownValueTypeError]. *)
Definition from_str (s : string) : option ValueType :=
  match_str s
    [("string", String_); ("binary", Binary); ("number", Number); ("boolean", Boolean);
     ("bool", Boolean); ("datetime", DateTime); ("array", Array); ("list", Array);
     ("object", Object); ("event", Event); ("attachments", Attachments); ("error", Exception);
     ("exception", Exception); ("stack", Stacktrace); ("stacktrace", Stacktrace); ("frame", Frame);
     ("http", Request); ("request", Request); ("user", User); ("logentry", LogEntry);
     ("message", Message); ("thread", Thread); ("breadcrumb", Breadcrumb); ("span", Span);
     ("sdk", ClientSdkInfo); ("minidump", Minidump); ("heap_memory", HeapMemory);
     ("stack_memory", StackMemory)].

End ValueType.
Notation ValueType := ValueType.ValueType.

Module MaxChars.

Inductive MaxChars :=
| Hash | EnumLike | Summary | Message | Symbol | Path | ShortPath | Logger | Email | Culprit
| TagKey | TagValue | Environment | Hard (len : Z) | Soft (len : Z).

Definition limit (self : MaxChars) : Z :=
  match self with
  | Hash => 128
  | EnumLike => 128
  | Summary => 1024
  | Message => 8192
  | Symbol => 256
  | Path => 256
  | ShortPath => 128
  | Logger => 64
  | Email => 75
  | Culprit => 200
  | TagKey => 32
  | TagValue => 200
  | Environment => 64
  | Soft len | Hard len => len
  end.

Definition allowance (self : MaxChars) : Z :=
  match self with
  | Hash => 0
  | EnumLike => 0
  | Summary => 100
  | Message => 200
  | Symbol => 20
  | Path => 40
  | ShortPath => 20
  | Logger => 0
  | Email => 0
  | Culprit => 0
  | TagKey => 0
  | TagValue => 0
  | Environment => 0
  | Soft _ => 10
  | Hard _ => 0
  end.

End MaxChars.
Notation MaxChars := MaxChars.MaxChars.

Module BagSize.

Inductive BagSize := Small | Medium | Large | Larger | Massive.

Definition max_depth (self : BagSize) : Z :=
  match self with Small => 3 | Medium => 5 | Large => 7 | Larger => 7 | Massive => 7 end.

Definition max_size (self : BagSize) : Z :=
  match self with
  | Small => 1024 | Medium => 2048 | Large => 8192 | Larger => 16384 | Massive => 262144
  end.

End BagSize.
Notation BagSize := BagSize.BagSize.

Module Pii.
Inductive Pii := True | False | Maybe.
#[global] Instance Pii_eq_dec : EqDecision Pii.
Proof. solve_decision. Defined.
End Pii.
Notation Pii := Pii.Pii.

(** Characters are Unicode scalar values. *)
Record CharacterSet := MkCharacterSet {
  char_is_valid : Z -> bool;
  ranges : list (Z * Z);
  is_negative : bool;
}.

Module FieldAttrs.

Record FieldAttrs := MkFieldAttrs {
  name : option string;
  required : bool;
  nonempty : bool;
  trim_whitespace : bool;
  characters : option CharacterSet;
  max_chars : option MaxChars;
  bag_size : option BagSize;
  pii : Pii;
  retain : bool;
}.

Definition new : FieldAttrs := MkFieldAttrs None false false false None None None Pii.False false.

Definition with_pii (self : FieldAttrs) (p : Pii) : FieldAttrs :=
  MkFieldAttrs (name self) (required self) (nonempty self) (trim_whitespace self) (characters self)
    (max_chars self) (bag_size self) p (retain self).
Definition with_max_chars (self : FieldAttrs) (m : MaxChars) : FieldAttrs :=
  MkFieldAttrs (name self) (required self) (nonempty self) (trim_whitespace self) (characters self)
    (Some m) (bag_size self) (pii self) (retain self).
Definition with_bag_size (self : FieldAttrs) (b : BagSize) : FieldAttrs :=
  MkFieldAttrs (name self) (required self) (nonempty self) (trim_whitespace self) (characters self)
    (max_chars self) (Some b) (pii self) (retain self).

(** The attributes of the single field of a newtype: what the derive macro
    generates for a field without attributes of its own, which inherits everything but
    [name] and [retain]. *)
Definition inherit (parent_attrs : FieldAttrs) : FieldAttrs :=
  MkFieldAttrs (Some "0") (required parent_attrs) (nonempty parent_attrs)
    (trim_whitespace parent_attrs) (characters parent_attrs) (max_chars parent_attrs)
    (bag_size parent_attrs) (pii parent_attrs) false.

End FieldAttrs.
Notation FieldAttrs := FieldAttrs.FieldAttrs.

Definition PII_TRUE_FIELD_ATTRS : FieldAttrs := FieldAttrs.with_pii FieldAttrs.new Pii.True.
Definition PII_MAYBE_FIELD_ATTRS : FieldAttrs := FieldAttrs.with_pii FieldAttrs.new Pii.Maybe.

Module PathItem.

Inductive PathItem := StaticKey (s : string) | Index (idx : Z).

Definition key (self : PathItem) : option string :=
  match self with StaticKey s => Some s | Index _ => None end.
Definition index (self : PathItem) : option Z :=
  match self with StaticKey _ => None | Index idx => Some idx end.

Definition to_string (self : PathItem) : string :=
  match self with StaticKey s => s | Index val => u64_to_string val end.

End PathItem.
Notation PathItem := PathItem.PathItem.

(** ** Processing states *)

Module ProcessingState.

(** A state without its parent. *)
Record Frame := MkFrame {
  path_item : option PathItem;
  frame_attrs : option FieldAttrs;
  frame_value_type : list ValueType;
  frame_depth : nat;
}.

(** A state is its own frame and those of its ancestors, innermost first. *)
Record ProcessingState := MkState { frame : Frame; parents : list Frame }.

(** The states that [iter] yields: this one, its parent, and so on. *)
Fixpoint states_from (f : Frame) (fs : list Frame) : list ProcessingState :=
  MkState f fs :: match fs with [] => [] | g :: gs => states_from g gs end.
Definition iter (self : ProcessingState) : list ProcessingState :=
  states_from (frame self) (parents self).

Definition root : ProcessingState := MkState (MkFrame None None [] 0) [].

Definition new_root (attrs : option FieldAttrs) (value_type : list ValueType) : ProcessingState :=
  MkState (MkFrame None attrs value_type 0) [].

Definition depth (self : ProcessingState) : nat := frame_depth (frame self).
Definition value_type (self : ProcessingState) : list ValueType := frame_value_type (frame self).

Definition enter (self : ProcessingState) (item : PathItem) (attrs : option FieldAttrs)
    (value_type : list ValueType) : ProcessingState :=
  MkState (MkFrame (Some item) attrs value_type (depth self + 1)) (frame self :: parents self).

Definition enter_static (self : ProcessingState) (key : string) := enter self (PathItem.StaticKey key).
Definition enter_borrowed (self : ProcessingState) (key : string) := enter self (PathItem.StaticKey key).
Definition enter_index (self : ProcessingState) (idx : Z) := enter self (PathItem.Index idx).

Definition enter_nothing (self : ProcessingState) (attrs : option FieldAttrs) : ProcessingState :=
  MkState (MkFrame None attrs (value_type self) (depth self)) (frame self :: parents self).

Definition attrs (self : ProcessingState) : FieldAttrs :=
  default FieldAttrs.new (frame_attrs (frame self)).

Definition inner_attrs (self : ProcessingState) : option FieldAttrs :=
  match FieldAttrs.pii (attrs self) with
  | Pii.True => Some PII_TRUE_FIELD_ATTRS
  | Pii.False => None
  | Pii.Maybe => Some PII_MAYBE_FIELD_ATTRS
  end.

Definition entered_anything (self : ProcessingState) : bool :=
  match parents self with
  | parent :: _ => bool_decide (frame_depth parent <> depth self)
  | [] => true
  end.

(** The last path item, skipping the states of newtypes. *)
Definition last_path_item (self : ProcessingState) : option PathItem :=
  head (omap path_item (frame self :: parents self)).

End ProcessingState.
Notation ProcessingState := ProcessingState.ProcessingState.

(** ** Selectors *)

Module SelectorPathItem.

Inductive SelectorPathItem :=
| Type_ (ty : ValueType)
| Index (idx : Z)
| Key (key : string)
| Wildcard
| DeepWildcard.

#[global] Instance SelectorPathItem_eq_dec : EqDecision SelectorPathItem.
Proof. solve_decision. Defined.

End SelectorPathItem.
Notation SelectorPathItem := SelectorPathItem.SelectorPathItem.

Inductive SelectorSpec :=
| And (xs : list SelectorSpec)
| Or (xs : list SelectorSpec)
| Not (x : SelectorSpec)
| Path (path : list SelectorPathItem).

(** [From<ValueType>]. *)
Definition SelectorSpec_from (value_type : ValueType) : SelectorSpec :=
  Path [SelectorPathItem.Type_ value_type].

Section Matching.

(** [str::to_lowercase], which reads the Unicode tables. *)
Context (to_lowercase : string -> string).

(** [Path::key] and [Path::index]. *)
Definition path_key (state : ProcessingState) : option string :=
  ProcessingState.last_path_item state ≫= PathItem.key.
Definition path_index (state : ProcessingState) : option Z :=
  ProcessingState.last_path_item state ≫= PathItem.index.

(** Types that may start a specific path. *)
Definition specific_type (ty : ValueType) : bool :=
  match ty with
  | ValueType.String_ | ValueType.Binary | ValueType.Number | ValueType.Boolean
  | ValueType.DateTime | ValueType.Array | ValueType.Object => false
  | _ => true
  end.

Definition matches_state (self : SelectorPathItem) (pii : Pii) (i : nat) (state : ProcessingState) : bool :=
  match self, pii with
  | _, Pii.False => false
  | SelectorPathItem.Wildcard, _ => true
  | SelectorPathItem.DeepWildcard, Pii.True => true
  | SelectorPathItem.DeepWildcard, Pii.Maybe => false
  | SelectorPathItem.Type_ ty, Pii.True => bool_decide (ty ∈ ProcessingState.value_type state)
  | SelectorPathItem.Type_ ty, Pii.Maybe =>
      bool_decide (ty ∈ ProcessingState.value_type state)
      && (specific_type ty && bool_decide (i = 0%nat))
  | SelectorPathItem.Index idx, _ => bool_decide (path_index state = Some idx)
  | SelectorPathItem.Key key, _ =>
      match path_key state with
      | Some k => bool_decide (to_lowercase k = to_lowercase key)
      | None => false
      end
  end.

(** The first loop, from the end of the path and the innermost state: [None] for a
    mismatch, otherwise what is left when a deep wildcard stopped it. *)
Fixpoint match_tail (pii : Pii) (states : list ProcessingState)
    (selectors : list (nat * SelectorPathItem))
  : option (option (list ProcessingState * list (nat * SelectorPathItem))) :=
  match states, selectors with
  | state :: states, (i, path_item) :: selectors =>
      if matches_state path_item pii i state then
        if bool_decide (path_item = SelectorPathItem.DeepWildcard) then Some (Some (states, selectors))
        else match_tail pii states selectors
      else None
  | _, _ => Some None
  end.

Fixpoint skip_while {A} (p : A -> bool) (l : list A) : list A :=
  match l with [] => [] | x :: l' => if p x then skip_while p l' else l end.

(** [zip(..).all(..) && selector_iter.next().is_none()]. *)
Fixpoint zip_all (pii : Pii) (states : list ProcessingState)
    (selectors : list (nat * SelectorPathItem)) : bool :=
  match states, selectors with
  | _, [] => true
  | [], _ :: _ => false
  | state :: states, (i, path_item) :: selectors =>
      matches_state path_item pii i state && zip_all pii states selectors
  end.

(** The states and selectors left, from the root and the start of the path. *)
Definition match_head (pii : Pii) (states : list ProcessingState)
    (selectors : list (nat * SelectorPathItem)) : bool :=
  match selectors with
  | [] => negb (bool_decide (length states = 0%nat))
  | (i, first_selector_path) :: selectors =>
      match skip_while (fun state => negb (matches_state first_selector_path pii i state)) states with
      | [] => false
      | _ :: states => zip_all pii states selectors
      end
  end.

Definition matches_path (self : ProcessingState) (pii : Pii) (path : list SelectorPathItem) : bool :=
  if bool_decide (ProcessingState.depth self < length path)%nat then false else
  let states := List.filter ProcessingState.entered_anything (ProcessingState.iter self) in
  match match_tail pii states (reverse (imap pair path)) with
  | None => false
  | Some None => true
  | Some (Some (states, selectors)) => match_head pii (reverse states) (reverse selectors)
  end.

Fixpoint matches_selector (self : ProcessingState) (selector : SelectorSpec) : bool :=
  let pii := FieldAttrs.pii (ProcessingState.attrs self) in
  if bool_decide (pii = Pii.False) then false else
  match selector with
  | Path path => matches_path self pii path
  | And xs => forallb (matches_selector self) xs
  | Or xs => existsb (matches_selector self) xs
  | Not x => negb (matches_selector self x)
  end.

End Matching.

(** [Display] for [Path]. *)
Definition path_to_string (self : ProcessingState) : string :=
  join_with "." (PathItem.to_string <$>
    reverse (omap ProcessingState.path_item (ProcessingState.frame self :: ProcessingState.parents self))).

(** ** Specification of the matching *)

(** States as the framework builds them: a root, then one step at a time. *)
Inductive wf_state : ProcessingState -> Prop :=
| wf_root attrs tys : wf_state (ProcessingState.new_root attrs tys)
| wf_enter s item attrs tys : wf_state s -> wf_state (ProcessingState.enter s item attrs tys)
| wf_enter_nothing s attrs : wf_state s -> wf_state (ProcessingState.enter_nothing s attrs).

(** The positions of a state that a path addresses, from the root. *)
Definition positions (s : ProcessingState) : list ProcessingState :=
  reverse (List.filter ProcessingState.entered_anything (ProcessingState.iter s)).

Section Spec.
Context (to_lowercase : string -> string).

(** Items and positions match one to one. *)
Definition aligned (pii : Pii) (items : list (nat * SelectorPathItem)) (states : list ProcessingState) : Prop :=
  Forall2 (fun p st => matches_state to_lowercase p.2 pii p.1 st = true) items states.

Definition shallow (items : list (nat * SelectorPathItem)) : Prop :=
  Forall (fun p => p.2 <> SelectorPathItem.DeepWildcard) items.

(** A path without deep wildcard addresses the innermost positions.  A deep
    wildcard stands for one or more positions; what precedes it starts at the outermost
    position that its first item matches. *)
Definition path_spec (pii : Pii) (items : list (nat * SelectorPathItem)) (states : list ProcessingState) : Prop :=
  (length items < length states)%nat /\
  ((shallow items /\ exists pre suf, states = pre ++ suf /\ aligned pii items suf) \/
   (pii = Pii.True /\ exists a d b pre m w suf,
      items = a ++ (d, SelectorPathItem.DeepWildcard) :: b /\ states = pre ++ m ++ w ++ suf /\
      w <> [] /\ aligned pii a m /\ aligned pii b suf /\
      (forall p a', a = p :: a' ->
         Forall (fun st => matches_state to_lowercase p.2 pii p.1 st = false) pre))).

(** What a selector means at a state. *)
Fixpoint addresses (s : ProcessingState) (selector : SelectorSpec) : Prop :=
  match selector with
  | And xs => foldr (fun x P => addresses s x /\ P) True xs
  | Or xs => foldr (fun x P => addresses s x \/ P) False xs
  | Not x => ~ addresses s x
  | Path path => path_spec (FieldAttrs.pii (ProcessingState.attrs s)) (imap pair path) (positions s)
  end.

End Spec.

Definition is_deep (it : SelectorPathItem) : bool := bool_decide (it = SelectorPathItem.DeepWildcard).

(** At most one deep wildcard per path. *)
Fixpoint single_deep (selector : SelectorSpec) : bool :=
  match selector with
  | And xs | Or xs => forallb single_deep xs
  | Not x => single_deep x
  | Path path => bool_decide (length (List.filter is_deep path) <= 1)%nat
  end.

(** ** Lemmas *)

Lemma entered_enter s item attrs tys :
  ProcessingState.entered_anything (ProcessingState.enter s item attrs tys) = true.
Proof. apply bool_decide_eq_true. unfold ProcessingState.enter, ProcessingState.depth. simpl. lia. Qed.

Lemma entered_enter_nothing s attrs :
  ProcessingState.entered_anything (ProcessingState.enter_nothing s attrs) = false.
Proof. apply bool_decide_eq_false. unfold ProcessingState.enter_nothing, ProcessingState.depth. simpl. lia. Qed.

Lemma positions_enter s item attrs tys :
  positions (ProcessingState.enter s item attrs tys) =
  positions s ++ [ProcessingState.enter s item attrs tys].
Proof.
  unfold positions. change (ProcessingState.iter (ProcessingState.enter s item attrs tys)) with
    (ProcessingState.enter s item attrs tys :: ProcessingState.iter s).
  cbn [List.filter]. by rewrite entered_enter, reverse_cons.
Qed.

Lemma positions_enter_nothing s attrs : positions (ProcessingState.enter_nothing s attrs) = positions s.
Proof.
  unfold positions. change (ProcessingState.iter (ProcessingState.enter_nothing s attrs)) with
    (ProcessingState.enter_nothing s attrs :: ProcessingState.iter s).
  cbn [List.filter]. by rewrite entered_enter_nothing.
Qed.

Lemma positions_length s : wf_state s -> length (positions s) = S (ProcessingState.depth s).
Proof.
  induction 1 as [attrs tys|s item attrs tys _ IH|s attrs _ IH]; [done|..].
  - rewrite positions_enter, length_app, IH. unfold ProcessingState.enter, ProcessingState.depth. simpl. lia.
  - by rewrite positions_enter_nothing.
Qed.

Section Walk.
Context (to_lowercase : string -> string) (pii : Pii).
#[local] Notation aligned := (aligned to_lowercase pii).
#[local] Notation matches p st := (matches_state to_lowercase p.2 pii p.1 st).

Lemma deep_matches i st : matches_state to_lowercase SelectorPathItem.DeepWildcard pii i st = true <-> pii = Pii.True.
Proof. by destruct pii. Qed.

Lemma match_tail_shallow l r : (length r <= length l)%nat ->
  match_tail to_lowercase pii l r = Some None <->
  shallow r /\ exists l0 l', l = l0 ++ l' /\ aligned r l0.
Proof.
  revert r. induction l as [|st l IH]; intros [|[i it] r] Hlen; simpl in *; try lia.
  - split; [|done]. intros _. split; [constructor|]. exists [], []. by split; [|constructor].
  - split; [|done]. intros _. split; [constructor|]. exists [], (st :: l). by split; [|constructor].
  - destruct (matches_state to_lowercase it pii i st) eqn:Hm.
    + case_bool_decide as Hd.
      * split; [done|]. intros [Hs _]. by apply Forall_cons in Hs as [? _].
      * rewrite IH by lia. unfold shallow. rewrite Forall_cons. split.
        -- intros (Hs & l0 & l' & -> & Ha). split; [done|]. exists (st :: l0), l'. by split; [|constructor].
        -- intros ([_ Hs] & l0 & l' & Hl & Ha). inversion Ha as [|? st' ? l1 Hst Ha']; simplify_eq/=.
           split; [done|]. by exists l1, l'.
    + split; [done|]. intros (_ & l0 & l' & Hl & Ha). inversion Ha; simplify_eq/=. congruence.
Qed.

Lemma match_tail_deep l r l' a : match_tail to_lowercase pii l r = Some (Some (l', a)) <->
  pii = Pii.True /\ exists b d l0 st, r = b ++ (d, SelectorPathItem.DeepWildcard) :: a /\ shallow b /\
    l = l0 ++ st :: l' /\ aligned b l0.
Proof.
  revert r. induction l as [|st l IH]; intros [|[i it] r]; simpl.
  - split; [done|]. intros (_ & b & d & l0 & st & Hr & _). by destruct b.
  - split; [done|]. intros (_ & b & d & l0 & st & _ & _ & Hl & _). by destruct l0.
  - split; [done|]. intros (_ & b & d & l0 & st' & Hr & _). by destruct b.
  - destruct (matches_state to_lowercase it pii i st) eqn:Hm.
    + case_bool_decide as Hd.
      * subst it. apply deep_matches in Hm. split.
        -- intros [= -> ->]. split; [done|]. exists [], i, [], st. by repeat split; try constructor.
        -- intros (_ & b & d & l0 & st' & Hr & Hs & Hl & Ha). destruct b as [|[? ?] b]; simplify_eq/=.
           ++ inversion Ha; simplify_eq/=. done.
           ++ by apply Forall_cons in Hs as [? _].
      * rewrite IH. split.
        -- intros (Hp & b & d & l0 & st' & -> & Hs & -> & Ha). split; [done|].
           exists ((i, it) :: b), d, (st :: l0), st'. repeat split; by constructor.
        -- intros (Hp & b & d & l0 & st' & Hr & Hs & Hl & Ha). destruct b as [|[? ?] b]; simplify_eq/=.
           inversion Ha as [|? st'' ? l1 Hst Ha']; simplify_eq/=. apply Forall_cons in Hs as [_ Hs].
           split; [done|]. by exists b, d, l1, st'.
    + split; [done|]. intros (Hp & b & d & l0 & st' & Hr & _ & Hl & Ha).
      apply (deep_matches i st) in Hp as Hd. destruct b as [|[? ?] b]; simpl in Hr.
      * injection Hr as -> -> ->. congruence.
      * inversion Ha; simplify_eq/=. congruence.
Qed.

Lemma zip_all_spec states sels : zip_all to_lowercase pii states sels = true <->
  exists m w, states = m ++ w /\ aligned sels m.
Proof.
  revert sels. induction states as [|st states IH]; intros [|[i it] sels]; simpl.
  - split; [|done]. intros _. exists [], []. by split; [|constructor].
  - split; [done|]. intros (m & w & Hs & Ha). inversion Ha; simplify_eq/=.
  - split; [|done]. intros _. exists [], (st :: states). by split; [|constructor].
  - rewrite andb_true_iff, IH. split.
    + intros (Hm & m & w & -> & Ha). exists (st :: m), w. by split; [|constructor].
    + intros (m & w & Hs & Ha). inversion Ha; simplify_eq/=. split; [done|]. eauto.
Qed.

Lemma skip_while_spec {A} (p : A -> bool) l :
  exists pre, l = pre ++ skip_while p l /\ Forall (fun x => p x = true) pre /\
    forall x r, skip_while p l = x :: r -> p x = false.
Proof.
  induction l as [|x l (pre & Hl & Hp & Hr)]; simpl; [by exists []|].
  destruct (p x) eqn:Hx.
  - exists (x :: pre). simpl. rewrite <- Hl. repeat split; [by constructor|done].
  - exists []. repeat split; [constructor|]. by intros ? ? [= <- <-].
Qed.

(** The outermost element that fails [p] is unique. *)
Lemma skip_while_unique {A} (p : A -> bool) pre x r :
  Forall (fun x => p x = true) pre -> p x = false -> skip_while p (pre ++ x :: r) = x :: r.
Proof. induction 1 as [|y pre Hy Hp IH]; simpl; [by intros ->|]. by rewrite Hy. Qed.

Lemma match_head_spec states a : (length a < length states)%nat ->
  match_head to_lowercase pii states a = true <->
  exists pre m w, states = pre ++ m ++ w /\ aligned a m /\
    forall p a', a = p :: a' -> Forall (fun st => matches p st = false) pre.
Proof.
  intros Hlen. destruct a as [|[i it] a]; simpl.
  - destruct states; simpl in *; [lia|]. split; [intros _|done].
    eexists [], [], _. by split; [|split; [constructor|]].
  - destruct (skip_while_spec (fun st => negb (matches_state to_lowercase it pii i st)) states)
      as (pre & Hs & Hpre & Hx).
    assert (Forall (fun st => matches_state to_lowercase it pii i st = false) pre) as Hpre'
      by (eapply Forall_impl; [exact Hpre|]; intros st Hst; by apply negb_true_iff).
    split.
    + destruct (skip_while _ states) as [|x r]; [done|]. rewrite zip_all_spec. intros (m & w & -> & Ha).
      specialize (Hx x _ eq_refl). apply negb_false_iff in Hx.
      exists pre, (x :: m), w. split; [done|]. split; [by constructor|]. by intros ? ? [= <- <-].
    + intros (pre' & m & w & Hst & Ha & Hno). specialize (Hno _ _ eq_refl). simpl in Hno.
      inversion Ha as [|? x ? m' Hm Ha']; simplify_eq/=. rewrite skip_while_unique.
      * apply zip_all_spec. eauto.
      * eapply Forall_impl; [exact Hno|]. intros st ->. done.
      * by rewrite Hm.
Qed.

Lemma aligned_reverse items states : aligned (reverse items) (reverse states) <-> aligned items states.
Proof.
  split; [|apply Forall2_reverse]. intros H%Forall2_reverse. by rewrite !reverse_involutive in H.
Qed.

Lemma shallow_reverse items : shallow (reverse items) <-> shallow items.
Proof. unfold shallow. by rewrite Forall_reverse. Qed.

End Walk.

(** Induction with the hypothesis for every member of a conjunction or disjunction. *)
Section SelectorSpec_induction.
Context (P : SelectorSpec -> Prop).
Context (HAnd : forall xs, Forall P xs -> P (And xs)) (HOr : forall xs, Forall P xs -> P (Or xs)).
Context (HNot : forall x, P x -> P (Not x)) (HPath : forall path, P (Path path)).

Fixpoint SelectorSpec_ind' (x : SelectorSpec) : P x :=
  let all := fix all (xs : list SelectorSpec) : Forall P xs :=
    match xs with
    | [] => Forall_nil_2 P
    | x :: xs => Forall_cons_2 P x xs (SelectorSpec_ind' x) (all xs)
    end in
  match x with
  | And xs => HAnd xs (all xs)
  | Or xs => HOr xs (all xs)
  | Not x => HNot x (SelectorSpec_ind' x)
  | Path path => HPath path
  end.

End SelectorSpec_induction.

Section Correct.
Context (to_lowercase : string -> string).

Lemma matches_each (xs : list SelectorSpec) (Q : SelectorSpec -> Prop) (b : SelectorSpec -> bool) :
  Forall (fun x => single_deep x = true -> b x = true <-> Q x) xs -> forallb single_deep xs = true ->
  Forall (fun x => b x = true <-> Q x) xs.
Proof.
  induction 1 as [|x xs Hx Hxs IH]; simpl; [constructor|]. intros [Ho Hos]%andb_true_iff.
  constructor; auto.
Qed.

Lemma forallb_matches (b : SelectorSpec -> bool) (A : Prop) (Q : SelectorSpec -> Prop) xs :
  Forall (fun x => b x = true <-> A /\ Q x) xs -> A ->
  forallb b xs = true <-> A /\ foldr (fun x P => Q x /\ P) True xs.
Proof.
  intros Hxs HA. induction Hxs as [|x xs Hx Hxs IH]; simpl; [tauto|]. rewrite andb_true_iff, IH, Hx. tauto.
Qed.

Lemma existsb_matches (b : SelectorSpec -> bool) (A : Prop) (Q : SelectorSpec -> Prop) xs :
  Forall (fun x => b x = true <-> A /\ Q x) xs -> A ->
  existsb b xs = true <-> A /\ foldr (fun x P => Q x \/ P) False xs.
Proof.
  intros Hxs HA. induction Hxs as [|x xs Hx Hxs IH]; simpl; [naive_solver|].
  rewrite orb_true_iff, IH, Hx. tauto.
Qed.

Lemma shallow_after_deep path a d b :
  (length (List.filter is_deep path) <= 1)%nat ->
  imap pair path = a ++ (d, SelectorPathItem.DeepWildcard) :: b -> shallow b.
Proof.
  intros Hone Heq. apply Forall_forall. intros p Hp Hdeep.
  assert (path = (snd <$> a) ++ SelectorPathItem.DeepWildcard :: (snd <$> b)) as ->.
  { change (SelectorPathItem.DeepWildcard) with (snd (d, SelectorPathItem.DeepWildcard)).
    rewrite <- fmap_cons, <- fmap_app, <- Heq, fmap_imap. symmetry. transitivity (id <$> path); [apply imap_const|apply list_fmap_id]. }
  apply list_elem_of_split in Hp as (b1 & b2 & ->).
  rewrite fmap_app, fmap_cons, Hdeep, List.filter_app in Hone. simpl in Hone.
  rewrite List.filter_app in Hone. simpl in Hone. rewrite !length_app in Hone. simpl in Hone.
  rewrite length_app in Hone. simpl in Hone. lia.
Qed.

Lemma matches_path_spec s pii path :
  wf_state s -> (length (List.filter is_deep path) <= 1)%nat ->
  matches_path to_lowercase s pii path = true <->
  path_spec to_lowercase pii (imap pair path) (positions s).
Proof.
  intros Hwf Hone. pose proof (positions_length s Hwf) as Hlen. unfold matches_path, path_spec.
  rewrite length_imap, Hlen. unfold positions in *. rewrite length_reverse in Hlen.
  set (l := List.filter ProcessingState.entered_anything _) in *. case_bool_decide as Hd; [split; [done|lia]|]. split.
  - intros Hm. split; [lia|]. revert Hm.
    destruct (match_tail to_lowercase pii l (reverse (imap pair path))) as [[[l' a]|]|] eqn:Hm; [|intros _|done].
    + apply match_tail_deep in Hm as (Hpii & b & d & l0 & st & Hr & Hb & Hl & Hab).
      apply (f_equal reverse) in Hr. rewrite reverse_involutive, reverse_app, reverse_cons, <- app_assoc in Hr.
      pose proof (Forall2_length _ _ _ Hab) as Hlb. rewrite match_head_spec.
      2: { rewrite !length_reverse. apply (f_equal length) in Hr, Hl.
           rewrite length_imap, !length_app, !length_reverse in Hr. rewrite length_app in Hl. simpl in *. lia. }
      intros (pre & m & w & Hl' & Ha & Hno). right. split; [done|].
      exists (reverse a), d, (reverse b), pre, m, (w ++ [st]), (reverse l0).
      rewrite Hl, reverse_app, reverse_cons, Hl', <- !app_assoc.
      split_and!; try done; [by destruct w|by apply (proj2 (aligned_reverse _ _ _ _))].
    + apply match_tail_shallow in Hm as (Hs & l0 & l' & Hl & Ha);
        [|rewrite length_reverse, length_imap; lia].
      left. split; [by apply (proj1 (shallow_reverse _)) in Hs|].
      exists (reverse l'), (reverse l0). split; [by rewrite Hl, reverse_app|].
      apply aligned_reverse in Ha. by rewrite reverse_involutive in Ha.
  - intros (_ & [(Hs & pre & suf & Hl & Ha)|(Hpii & a & d & b & pre & m & w & suf & Hi & Hl & Hw & Ha & Hb & Hno)]);
      apply (f_equal reverse) in Hl; rewrite reverse_involutive in Hl.
    + rewrite (proj2 (match_tail_shallow to_lowercase pii l (reverse (imap pair path))
        ltac:(rewrite length_reverse, length_imap; lia))); [done|].
      split; [by apply shallow_reverse|]. exists (reverse suf), (reverse pre).
      split; [by rewrite Hl, reverse_app|by apply (proj2 (aligned_reverse _ _ _ _))].
    + induction w as [|st w' _] using rev_ind; [done|].
      rewrite (proj2 (match_tail_deep to_lowercase pii l _ (reverse w' ++ reverse m ++ reverse pre) (reverse a))).
      * rewrite !reverse_app, !reverse_involutive. apply match_head_spec.
        -- apply (f_equal length) in Hi, Hl. rewrite length_imap, length_app in Hi.
           rewrite length_reverse, !length_app in Hl.
           pose proof (Forall2_length _ _ _ Hb). rewrite !length_app. simpl in *. lia.
        -- exists pre, m, w'. split; [by rewrite <- app_assoc|done].
      * split; [done|]. exists (reverse b), d, (reverse suf), st.
        split; [by rewrite Hi, reverse_app, reverse_cons, <- app_assoc|].
        split; [apply shallow_reverse; by eapply shallow_after_deep|].
        split; [by rewrite Hl, !reverse_app, <- !app_assoc|by apply (proj2 (aligned_reverse _ _ _ _))].
Qed.

(** [Path::matches_selector] decides what a selector means: conjunctions,
    disjunctions and negations are those of logic, a path without deep wildcard
    addresses the innermost positions one by one, and a deep wildcard stands for one or
    more positions, with what precedes it anchored at the outermost position its first
    item matches.  A selector never addresses the root position itself, and nothing is
    addressed in a field that cannot hold PII. *)
Lemma matches_selector_correct s selector :
  wf_state s -> single_deep selector = true ->
  matches_selector to_lowercase s selector = true <->
  FieldAttrs.pii (ProcessingState.attrs s) <> Pii.False /\ addresses to_lowercase s selector.
Proof.
  intros Hwf. induction selector as [xs IH|xs IH|x IH|path] using SelectorSpec_ind'; intros Hone;
    simpl; (case_bool_decide as Hp; [split; [done|tauto]|]).
  - apply forallb_matches; [|done]. by apply matches_each.
  - apply existsb_matches; [|done]. by apply matches_each.
  - rewrite negb_true_iff, <- not_true_iff_false, (IH Hone). tauto.
  - apply bool_decide_eq_true in Hone. rewrite matches_path_spec by done. tauto.
Qed.

End Correct.

(** A path that names every position, the root's included, never matches, even when
    each of its items matches its position: the check that the selector is not deeper
    than the value compares it with the depth, which does not count the root. *)
Theorem full_path_never_matches to_lowercase s pii path :
  wf_state s -> aligned to_lowercase pii (imap pair path) (positions s) ->
  matches_path to_lowercase s pii path = false.
Proof.
  intros Hwf Ha%Forall2_length. rewrite length_imap, positions_length in Ha by done.
  unfold matches_path. by rewrite bool_decide_true by lia.
Qed.

(** ** Concrete states *)

Definition event_state : ProcessingState :=
  ProcessingState.new_root (Some PII_TRUE_FIELD_ATTRS) [ValueType.Event].
Definition user_state : ProcessingState :=
  ProcessingState.enter_static event_state "user" (Some PII_TRUE_FIELD_ATTRS) [ValueType.User].
Definition extra_state : ProcessingState :=
  ProcessingState.enter_static user_state "extra" (Some PII_TRUE_FIELD_ATTRS) [ValueType.Object].
Definition foo_state : ProcessingState :=
  ProcessingState.enter_static extra_state "foo" (Some PII_TRUE_FIELD_ATTRS) [ValueType.Array].
Definition zero_state : ProcessingState :=
  ProcessingState.enter_index foo_state 0 (Some PII_TRUE_FIELD_ATTRS) [].

Lemma zero_state_wf : wf_state zero_state.
Proof. repeat constructor. Qed.

(** [$user.**.0] *)
Definition user_zero : SelectorSpec :=
  Path [SelectorPathItem.Type_ ValueType.User; SelectorPathItem.DeepWildcard; SelectorPathItem.Index 0].

Lemma full_path_never_matches_witness :
  matches_path to_ascii_lowercase user_state Pii.True
    [SelectorPathItem.Type_ ValueType.Event; SelectorPathItem.Key "user"] = false.
Proof.
  apply full_path_never_matches; [repeat constructor|].
  unfold aligned. constructor; [reflexivity|]. constructor; [reflexivity|constructor].
Defined.

(** [a.b.**.c] does not address [a.a.b.x.c]: the path before the deep wildcard is only
    tried at the outermost [a]. *)
Definition nested_state : ProcessingState :=
  fold_left (fun s k => ProcessingState.enter_static s k (Some PII_TRUE_FIELD_ATTRS) [])
    ["a"; "a"; "b"; "x"; "c"] event_state.

Lemma deep_wildcard_outermost_only :
  matches_selector to_ascii_lowercase nested_state
    (Path [SelectorPathItem.Key "a"; SelectorPathItem.Key "b"; SelectorPathItem.DeepWildcard;
           SelectorPathItem.Key "c"]) = false /\
  matches_selector to_ascii_lowercase nested_state
    (Path [SelectorPathItem.Key "b"; SelectorPathItem.DeepWildcard; SelectorPathItem.Key "c"]) = true.
Proof. by vm_compute. Qed.
