(* ===== verification/Selectors.v ===== *)
(** * relay-general: the text form of selectors (processor/selector.rs, processor/selector.pest)

    [SelectorSpec::from_str] parses a selector with the PEG grammar of
    selector.pest and converts the parse tree; [Display] prints a selector.  The
    grammar's rules are functions from the input to a parse tree and the rest of the
    input; choices are ordered, repetitions are greedy, and a normal rule skips blanks
    between its parts.  A pest [Pair] of a rule is a constructor of [Pair]. *)

From Stdlib Require Import Ascii String.
From S2P Require Import Prelude Strings Attrs.

Open Scope string_scope.
Open Scope Z_scope.
Open Scope list_scope.

Module InvalidSelectorError.
Inductive InvalidSelectorError :=
| InvalidDeepWildcard | InvalidWildcard | ParseError | InvalidIndex | UnknownType.
#[global] Instance InvalidSelectorError_eq_dec : EqDecision InvalidSelectorError.
Proof. solve_decision. Defined.
End InvalidSelectorError.
Notation InvalidSelectorError := InvalidSelectorError.InvalidSelectorError.

Module Grammar.

(** ** Parse trees *)

Inductive KeyPair := UnquotedKey (s : string) | QuotedKey (tokens : list ascii).

Inductive PathItemPair :=
| ObjectTypeP (s : string) | DeepWildcardP | WildcardP | IndexP (s : string) | KeyP (key : KeyPair).

Inductive Pair :=
| OrSelector (inner : list Pair)
| AndSelector (inner : list Pair)
| MaybeNotSelector (inner : Pair)
| NotSelector (inner : Pair)
| ParenthesisOrPath (inner : Pair)
| SelectorPath (items : list PathItemPair).

(** ** The grammar *)

Fixpoint skip (s : string) : string :=
  match s with String a s' => if bool_decide (a = " "%char) then skip s' else s | "" => "" end.

(** A literal, and the longest prefix of characters in a class. *)
Definition eat (p s : string) : option string :=
  if starts_with p s then Some (str_from (String.length p) s) else None.

Fixpoint take_while (p : ascii -> bool) (s : string) : string * string :=
  match s with
  | String a s' => if p a then let '(t, r) := take_while p s' in (String a t, r) else ("", s)
  | "" => ("", "")
  end.

Definition first_of {A} (o1 o2 : option A) : option A := match o1 with Some a => Some a | None => o2 end.

Definition type_char (a : ascii) : bool := is_ascii_lowercase a || bool_decide (a = "_"%char).
Definition key_start (a : ascii) : bool := is_ascii_alphabetic a || bool_decide (a = "_"%char).
Definition key_char (a : ascii) : bool :=
  is_ascii_alphanumeric a || bool_decide (a = "-"%char) || bool_decide (a = "_"%char).

Definition object_type (s : string) : option (PathItemPair * string) :=
  s ← eat "$" s;
  match take_while type_char s with
  | ("", _) => None
  | (t, r) => Some (ObjectTypeP (String "$" t), r)
  end.

Definition index (s : string) : option (PathItemPair * string) :=
  match take_while is_ascii_digit s with ("", _) => None | (t, r) => Some (IndexP t, r) end.

Definition unquoted_key (s : string) : option (string * string) :=
  match s with
  | String a s' => if key_start a then let '(t, r) := take_while key_char s' in Some (String a t, r) else None
  | "" => None
  end.

(** [(QuotedCharacter | ("'" ~ EscapedQuote))]s. *)
Fixpoint quoted_tokens (s : string) : list ascii * string :=
  match s with
  | String a s' =>
      if bool_decide (a = "'"%char) then
        match s' with
        | String b s'' =>
            if bool_decide (b = "'"%char) then let '(ts, r) := quoted_tokens s'' in (b :: ts, r) else ([], s)
        | "" => ([], s)
        end
      else let '(ts, r) := quoted_tokens s' in (a :: ts, r)
  | "" => ([], "")
  end.

Definition quoted_key (s : string) : option (list ascii * string) :=
  match quoted_tokens s with ([], _) => None | r => Some r end.

Definition key (s : string) : option (KeyPair * string) :=
  first_of
    ('(t, r) ← unquoted_key s; Some (UnquotedKey t, r))
    (s ← eat "'" s; '(ts, s) ← quoted_key (skip s); s ← eat "'" (skip s); Some (QuotedKey ts, s)).

Definition selector_path_item (s : string) : option (PathItemPair * string) :=
  first_of (object_type s)
    (first_of (s ← eat "**" s; Some (DeepWildcardP, s))
       (first_of (s ← eat "*" s; Some (WildcardP, s))
          (first_of (index s) ('(k, r) ← key s; Some (KeyP k, r))))).

Section Repetition.
Context {A : Type} (sep : string -> option string) (item : string -> option (A * string)).

(** [(sep ~ item)*]; every round consumes input, so its length bounds the rounds. *)
Fixpoint many (fuel : nat) (s : string) : list A * string :=
  match fuel with
  | O => ([], s)
  | S f =>
      match (s ← sep (skip s); item (skip s)) with
      | Some (x, r) => let '(xs, r) := many f r in (x :: xs, r)
      | None => ([], s)
      end
  end.

(** [item ~ (sep ~ item)*] *)
Definition sep_list (s : string) : option (list A * string) :=
  '(x, r) ← item s; let '(xs, r) := many (String.length r) r in Some (x :: xs, r).

End Repetition.

Definition selector_path (s : string) : option (Pair * string) :=
  '(items, r) ← sep_list (eat ".") selector_path_item s; Some (SelectorPath items, r).

Definition and_op (s : string) : option string := first_of (eat "&&" s) (eat "&" s).
Definition or_op (s : string) : option string := first_of (eat "||" s) (eat "|" s).
Definition not_op (s : string) : option string := first_of (eat "~" s) (eat "!" s).

Section Rules.
(** [OrSelector], inside parentheses. *)
Context (rec : string -> option (Pair * string)).

Definition parenthesis_or_path (s : string) : option (Pair * string) :=
  first_of
    (s ← eat "(" s; '(p, s) ← rec (skip s); s ← eat ")" (skip s); Some (ParenthesisOrPath p, s))
    ('(p, s) ← selector_path s; Some (ParenthesisOrPath p, s)).

Definition not_selector (s : string) : option (Pair * string) :=
  s ← not_op s; '(p, s) ← parenthesis_or_path (skip s); Some (NotSelector p, s).

Definition maybe_not_selector (s : string) : option (Pair * string) :=
  '(p, s) ← first_of (not_selector s) (parenthesis_or_path s); Some (MaybeNotSelector p, s).

Definition and_selector (s : string) : option (Pair * string) :=
  '(ps, s) ← sep_list and_op maybe_not_selector s; Some (AndSelector ps, s).

End Rules.

(** [fuel] bounds the nesting of parentheses. *)
Fixpoint or_selector (fuel : nat) (s : string) : option (Pair * string) :=
  match fuel with
  | O => None
  | S f => '(ps, s) ← sep_list or_op (and_selector (or_selector f)) s; Some (OrSelector ps, s)
  end.

Definition root_selector (s : string) : option Pair :=
  '(p, r) ← or_selector (S (String.length s)) (skip s); if bool_decide (skip r = "") then Some p else None.

(** [SOI ~ UnquotedKey ~ EOI] is a normal rule: blanks around the key are skipped. *)
Definition key_needs_quoting (key : string) : bool :=
  match unquoted_key (skip key) with
  | Some (_, r) => negb (bool_decide (skip r = ""))
  | None => true
  end.

End Grammar.

Module Selector.
Import Grammar.

(** ** Conversion of parse trees *)

Definition handle_key (pair : KeyPair) : string :=
  match pair with
  | UnquotedKey s => s
  | QuotedKey tokens => String.string_of_list_ascii tokens
  end.

Definition handle_selector_path_item (pair : PathItemPair)
  : result InvalidSelectorError SelectorPathItem :=
  match pair with
  | ObjectTypeP s =>
      SelectorPathItem.Type_ <$> ok_or (ValueType.from_str (str_from 1 s)) InvalidSelectorError.UnknownType
  | WildcardP => Ok SelectorPathItem.Wildcard
  | DeepWildcardP => Ok SelectorPathItem.DeepWildcard
  | IndexP s => SelectorPathItem.Index <$> ok_or (parse_u64 s) InvalidSelectorError.InvalidIndex
  | KeyP key => Ok (SelectorPathItem.Key (handle_key key))
  end.

(** The closure of the path rule over [used_deep_wildcard], collecting. *)
Fixpoint handle_items (used_deep_wildcard : bool) (items : list PathItemPair)
  : result InvalidSelectorError (list SelectorPathItem) :=
  match items with
  | [] => Ok []
  | item :: items =>
      rv ← handle_selector_path_item item;
      if is_deep rv && used_deep_wildcard then Err InvalidSelectorError.InvalidDeepWildcard else
      rest ← handle_items (used_deep_wildcard || is_deep rv) items;
      Ok (rv :: rest)
  end.

Definition handle_path (items : list PathItemPair) : result InvalidSelectorError SelectorSpec :=
  items ← handle_items false items;
  if bool_decide (items = [SelectorPathItem.Wildcard]) then Err InvalidSelectorError.InvalidWildcard
  else Ok (Path items).

(** [map_multiple_or_inner] on the converted members: the first error in order, and a
    single member stands for itself.  The grammar gives every list a member. *)
Fixpoint collect {E A} (xs : list (result E A)) : result E (list A) :=
  match xs with [] => Ok [] | x :: xs => a ← x; rest ← collect xs; Ok (a :: rest) end.

Definition multiple_or_inner (f : list SelectorSpec -> SelectorSpec)
    (items : list (result InvalidSelectorError SelectorSpec)) : result InvalidSelectorError SelectorSpec :=
  items ← collect items; match items with [first] => Ok first | _ => Ok (f items) end.

Fixpoint handle_selector (pair : Pair) : result InvalidSelectorError SelectorSpec :=
  match pair with
  | ParenthesisOrPath inner | MaybeNotSelector inner => handle_selector inner
  | SelectorPath items => handle_path items
  | AndSelector inner => multiple_or_inner And (handle_selector <$> inner)
  | OrSelector inner => multiple_or_inner Or (handle_selector <$> inner)
  | NotSelector inner => Not <$> handle_selector inner
  end.

Definition legacy_selectors : list (string * SelectorSpec) :=
  let string_ := SelectorSpec_from ValueType.String_ in
  let object := SelectorSpec_from ValueType.Object in
  [("freeform", string_); ("email", string_); ("sensitive", string_); ("text", string_);
   ("databag", object); ("container", object)].

Definition from_str (s : string) : result InvalidSelectorError SelectorSpec :=
  match match_str s legacy_selectors with
  | Some spec => Ok spec
  | None => pair ← ok_or (root_selector s) InvalidSelectorError.ParseError; handle_selector pair
  end.

(** ** [Display] *)

(** [str::replace] of quotes by doubled quotes. *)
Fixpoint double_quotes (s : string) : string :=
  match s with
  | String a s' => if bool_decide (a = "'"%char) then String "'" (String "'" (double_quotes s'))
                   else String a (double_quotes s')
  | "" => ""
  end.

Definition item_to_string (self : SelectorPathItem) : string :=
  match self with
  | SelectorPathItem.Type_ ty => "$" +:+ ValueType.as_str ty
  | SelectorPathItem.Index index => u64_to_string index
  | SelectorPathItem.Key key =>
      if key_needs_quoting key then "'" +:+ double_quotes key +:+ "'" else key
  | SelectorPathItem.Wildcard => "*"
  | SelectorPathItem.DeepWildcard => "**"
  end.

Definition parens (s : string) : string := "(" +:+ s +:+ ")".

Fixpoint to_string (self : SelectorSpec) : string :=
  match self with
  | And xs =>
      join_with " && "
        ((fun x => match x with Or _ => parens (to_string x) | _ => to_string x end) <$> xs)
  | Or xs => join_with " || " (to_string <$> xs)
  | Not x =>
      match x with
      | And _ | Or _ | Not _ => "!" +:+ parens (to_string x)
      | Path _ => "!" +:+ to_string x
      end
  | Path path => join_with "." (item_to_string <$> path)
  end.

End Selector.

Import Grammar Selector.

(** ** The selectors that print and parse as themselves *)

(** A key is printed bare if it is an identifier, or quoted if it is not one even
    without the blanks around it; a quoted key is not empty and starts with no blank. *)
Definition key_ok (k : string) : bool :=
  match k with
  | "" => false
  | String a _ =>
      bool_decide (unquoted_key k = Some (k, "")) || (key_needs_quoting k && negb (bool_decide (a = " "%char)))
  end.

Definition item_ok (it : SelectorPathItem) : bool :=
  match it with
  | SelectorPathItem.Index i => bool_decide (0 <= i < 2^64)
  | SelectorPathItem.Key k => key_ok k
  | _ => true
  end.

Definition path_ok (path : list SelectorPathItem) : bool :=
  forallb item_ok path && bool_decide (path <> []) && bool_decide (path <> [SelectorPathItem.Wildcard])
  && bool_decide (length (List.filter is_deep path) <= 1)%nat.

Definition is_and (x : SelectorSpec) : bool := match x with And _ => true | _ => false end.
Definition is_or (x : SelectorSpec) : bool := match x with Or _ => true | _ => false end.

Fixpoint normal (x : SelectorSpec) : bool :=
  match x with
  | And xs => forallb (fun y => normal y && negb (is_and y)) xs && bool_decide (2 <= length xs)%nat
  | Or xs => forallb (fun y => normal y && negb (is_or y)) xs && bool_decide (2 <= length xs)%nat
  | Not y => normal y
  | Path path => path_ok path
  end.

(** Parentheses nested in the printed form. *)
Fixpoint nesting (x : SelectorSpec) : nat :=
  match x with
  | And xs => foldr (fun y n => Nat.max (if is_or y then S (nesting y) else nesting y) n) 0%nat xs
  | Or xs => foldr (fun y n => Nat.max (nesting y) n) 0%nat xs
  | Not y => match y with Path _ => 0%nat | _ => S (nesting y) end
  | Path _ => 0%nat
  end.

(** What may follow a printed path item, path, conjunction and disjunction. *)
Definition head_in (cs : list ascii) (s : string) : bool :=
  match s with "" => true | String a _ => bool_decide (a ∈ cs) end.
Definition after_item (t : string) : bool := head_in [" "; ")"; "."]%char t.
Definition after_path (t : string) : bool :=
  head_in [" "; ")"]%char t && head_in [")"; "&"; "|"]%char (skip t).
Definition after_and (t : string) : bool :=
  head_in [" "; ")"]%char t && head_in [")"; "|"]%char (skip t).
Definition after_or (t : string) : bool := head_in [" "; ")"]%char t && head_in [")"]%char (skip t).

(** ** Lemmas on the grammar *)

Lemma eat_app p s : eat p (p +:+ s) = Some s.
Proof.
  unfold eat. assert (starts_with p (p +:+ s) = true) as ->.
  { unfold starts_with. induction p as [|a p IH]; simpl; [by destruct s|]. by destruct (ascii_dec a a). }
  by rewrite str_from_app.
Qed.

Lemma prefix_cons a p s : String.prefix (String a p) (String a s) = String.prefix p s.
Proof. simpl. by destruct (ascii_dec a a). Qed.

Lemma prefix_ne a p b s : a <> b -> String.prefix (String a p) (String b s) = false.
Proof. intros Hab. simpl. by destruct (ascii_dec a b). Qed.

Lemma eat_char a s : eat (String a "") (String a s) = Some s.
Proof. apply (eat_app (String a "")). Qed.

Lemma eat_head a p b s : a <> b -> eat (String a p) (String b s) = None.
Proof. intros Hab. unfold eat, starts_with. by rewrite prefix_ne. Qed.

Lemma take_while_app p s t :
  str_forallb p s = true -> (forall a t', t = String a t' -> p a = false) ->
  take_while p (s +:+ t) = (s, t).
Proof.
  intros Hs Ht. induction s as [|a s IH]; simpl in *.
  - destruct t as [|a t]; simpl; [done|]. by rewrite (Ht a t).
  - apply andb_true_iff in Hs as [-> Hs]. by rewrite IH.
Qed.

Lemma skip_head a s : a <> " "%char -> skip (String a s) = String a s.
Proof. intros Ha. simpl. by rewrite bool_decide_false. Qed.

Lemma quoted_tokens_app k t :
  (forall t', t <> String "'" t') ->
  quoted_tokens (double_quotes k +:+ String "'" t) = (String.list_ascii_of_string k, String "'" t).
Proof.
  intros Ht. induction k as [|a k IH]; simpl.
  - destruct t as [|b t]; [done|]. rewrite bool_decide_false; [done|]. intros ->. by apply (Ht t).
  - case_bool_decide as Ha; simpl.
    + rewrite IH. by subst.
    + rewrite bool_decide_false by done. by rewrite IH.
Qed.

Lemma after_item_head (p : ascii -> bool) t :
  after_item t = true -> forallb (fun c => negb (p c)) [" "; ")"; "."]%char = true ->
  forall a t', t = String a t' -> p a = false.
Proof.
  intros Ht Hp a t' ->. apply bool_decide_eq_true in Ht. apply list_elem_of_In in Ht.
  rewrite forallb_forall in Hp. apply negb_true_iff, Hp, Ht.
Qed.

(** A string whose head no earlier alternative of the item rule accepts. *)
Lemma item_alternatives a s : a <> "$"%char -> a <> "*"%char ->
  selector_path_item (String a s) =
  first_of (index (String a s)) ('(k, r) ← key (String a s); Some (KeyP k, r)).
Proof. intros H1 H2. unfold selector_path_item, object_type. by rewrite !eat_head by done. Qed.

Lemma key_start_head a s : key_start a = true ->
  a <> "$"%char /\ a <> "*"%char /\ a <> " "%char /\ index (String a s) = None.
Proof.
  intros Ha. split; [by intros ->|]. split; [by intros ->|]. split; [by intros ->|]. unfold index. simpl.
  destruct (is_ascii_digit a) eqn:Hd; [|done]. exfalso. revert Ha Hd.
  unfold key_start, is_ascii_alphabetic, is_ascii_uppercase, is_ascii_lowercase, is_ascii_digit, byte_in.
  rewrite !orb_true_iff, !andb_true_iff, bool_decide_eq_true, !Nat.leb_le.
  intros [[?|?]| ->] Hd; [lia|lia|]. vm_compute in Hd. lia.
Qed.

Lemma unquoted_key_app k t :
  unquoted_key k = Some (k, "") -> after_item t = true -> unquoted_key (k +:+ t) = Some (k, t).
Proof.
  intros Hk Ht. destruct k as [|a k]; [done|]. simpl in *. destruct (key_start a); [|done].
  destruct (take_while key_char k) as [k' r] eqn:Hw. injection Hk as -> ->.
  assert (str_forallb key_char k = true) as Hall.
  { clear -Hw. revert Hw. induction k as [|b k IH]; simpl; [done|].
    destruct (key_char b); [|done]. destruct (take_while key_char k) as [k'' r]. intros [= -> ->]. auto. }
  rewrite take_while_app; [done|done|]. eapply after_item_head; [exact Ht|reflexivity].
Qed.

Lemma parse_key k t : key_ok k = true -> after_item t = true ->
  exists p, selector_path_item (item_to_string (SelectorPathItem.Key k) +:+ t) = Some (KeyP p, t) /\ handle_key p = k.
Proof.
  intros Hk Ht. destruct k as [|a k]; [done|]. unfold key_ok in Hk. apply orb_true_iff in Hk as [Hk|Hk].
  - apply bool_decide_eq_true in Hk. assert (key_start a = true) as Ha by (simpl in Hk; by destruct (key_start a)).
    destruct (key_start_head a (k +:+ t) Ha) as (H1 & H2 & H3 & H4).
    assert (key_needs_quoting (String a k) = false) as Hq.
    { unfold key_needs_quoting. by rewrite skip_head, Hk by done. }
    unfold item_to_string. rewrite Hq. exists (UnquotedKey (String a k)). split; [|done].
    change (String a k +:+ t) with (String a (k +:+ t)). rewrite item_alternatives, H4 by done. unfold key.
    change (String a (k +:+ t)) with (String a k +:+ t). by rewrite unquoted_key_app.
  - apply andb_true_iff in Hk as [Hq Ha]. rewrite negb_true_iff, bool_decide_eq_false in Ha.
    unfold item_to_string. rewrite Hq. exists (QuotedKey (String.list_ascii_of_string (String a k))).
    split; [|apply String.string_of_list_ascii_of_string].
    rewrite !str_app_assoc. change ("'" +:+ ?x) with (String "'" x). rewrite item_alternatives by done.
    change ("'" +:+ t) with (String "'" t). unfold key.
    assert (skip (double_quotes (String a k) +:+ String "'" t) = double_quotes (String a k) +:+ String "'" t) as Hs.
    { cbn [double_quotes]. case_bool_decide; [done|]. by apply skip_head. }
    rewrite eat_char. cbn -[eat quoted_key skip double_quotes append]. rewrite Hs.
    unfold quoted_key. rewrite quoted_tokens_app by (by intros t' ->).
    cbn -[eat skip]. rewrite skip_head by done. by rewrite eat_char.
Qed.

Lemma parse_item it t : item_ok it = true -> after_item t = true ->
  exists p, selector_path_item (item_to_string it +:+ t) = Some (p, t) /\ handle_selector_path_item p = Ok it.
Proof.
  intros Hok Ht. destruct it as [ty|i|k| |].
  - exists (ObjectTypeP ("$" +:+ ValueType.as_str ty)). split.
    + unfold selector_path_item, object_type, item_to_string. rewrite str_app_assoc, eat_app. simpl.
      rewrite take_while_app; [by destruct ty|by destruct ty|].
      eapply after_item_head; [exact Ht|reflexivity].
    + unfold handle_selector_path_item. rewrite (str_from_app "$"). by destruct ty.
  - exists (IndexP (u64_to_string i)). apply bool_decide_eq_true in Hok. split.
    + pose proof (u64_to_string_digits i ltac:(lia)) as Hd. pose proof (u64_to_string_nonempty i) as Hn.
      simpl. destruct (u64_to_string i) as [|a s] eqn:Hs; [done|].
      change (String a s +:+ t) with (String a (s +:+ t)). simpl in Hd.
      apply andb_true_iff in Hd as Hd'. destruct Hd' as [Ha _].
      rewrite item_alternatives by (by intros ->). unfold index.
      change (String a (s +:+ t)) with (String a s +:+ t). rewrite take_while_app; [done|exact Hd|].
      eapply after_item_head; [exact Ht|reflexivity].
    + simpl. unfold parse_u64. by rewrite parse_uint_to_string by (unfold in_width, u64_max in *; lia).
  - destruct (parse_key k t Hok Ht) as (p & Hp & Hk). exists (KeyP p). split; [done|]. simpl. by rewrite Hk.
  - exists WildcardP. split; [|done]. simpl. unfold selector_path_item, object_type. rewrite eat_head by done.
    assert (eat "**" (String "*" t) = None) as ->; [|by rewrite eat_char].
    unfold eat, starts_with. rewrite prefix_cons.
    destruct t as [|b t]; [done|]. rewrite prefix_ne; [done|]. intros <-. by vm_compute in Ht.
  - exists DeepWildcardP. split; [|done]. unfold selector_path_item, object_type.
    change (item_to_string SelectorPathItem.DeepWildcard) with "**". rewrite eat_app.
    change ("**" +:+ t) with (String "*" (String "*" t)). by rewrite (eat_head "$").
Qed.

(** ** Repetitions *)

Definition nonblank (s : string) : bool :=
  match s with "" => false | String a _ => negb (bool_decide (a = " "%char)) end.

Lemma nonblank_skip s t : nonblank s = true -> skip (s +:+ t) = s +:+ t.
Proof.
  destruct s as [|a s]; [done|]. simpl. rewrite negb_true_iff, bool_decide_eq_false.
  intros Ha. by rewrite bool_decide_false.
Qed.

Section SepList.
Context {A Y : Type} (sep : string -> option string) (item : string -> option (A * string)).
Context (printed : string) (follow : string -> bool) (str : Y -> string) (R : A -> Y -> Prop).
(** The separator as printed is read back, and it may follow an item. *)
Context (Hsep : forall s t, nonblank s = true ->
  (s ← sep (skip (printed +:+ s +:+ t)); Some (skip s)) = Some (s +:+ t)).
Context (Hfollow : forall s, follow (printed +:+ s) = true) (Hprinted : printed <> "").

(** An item's text parses before anything that may follow it. *)
Definition parses (y : Y) : Prop :=
  nonblank (str y) = true /\
  forall t, follow t = true -> exists p, item (str y +:+ t) = Some (p, t) /\ R p y.

Definition rest_of (ys : list Y) (t : string) : string :=
  foldr (fun y s => printed +:+ str y +:+ s) t ys.

Lemma follow_rest ys t : follow t = true -> follow (rest_of ys t) = true.
Proof. destruct ys; simpl; auto. Qed.

Lemma length_rest ys t : (length ys <= String.length (rest_of ys t))%nat.
Proof.
  induction ys as [|y ys IH]; simpl; [lia|]. rewrite !length_app_str.
  assert (String.length printed <> 0)%nat by (by destruct printed). lia.
Qed.

Lemma many_rest ys t n :
  Forall parses ys -> follow t = true -> sep (skip t) = None -> (length ys <= n)%nat ->
  exists ps, many sep item n (rest_of ys t) = (ps, t) /\ Forall2 R ps ys.
Proof.
  intros Hys Ht Hstop. revert n. induction Hys as [|y ys [Hnb Hy] Hys IH]; intros n Hn; simpl in *.
  - exists []. split; [|constructor]. destruct n; simpl; [done|]. by rewrite Hstop.
  - destruct n as [|n]; [lia|]. destruct (IH n ltac:(lia)) as (ps & Hps & HR).
    destruct (Hy (rest_of ys t) (follow_rest ys t Ht)) as (p & Hp & HRp).
    exists (p :: ps). split; [|by constructor]. simpl.
    pose proof (Hsep (str y) (rest_of ys t) Hnb) as Hs.
    destruct (sep (skip (printed +:+ str y +:+ rest_of ys t))) as [s|]; [|done]. simpl in *.
    injection Hs as ->. by rewrite Hp, Hps.
Qed.

Lemma join_rest y ys t : join_with printed (str <$> (y :: ys)) +:+ t = str y +:+ rest_of ys t.
Proof.
  revert y. induction ys as [|z ys IH]; intros y; [done|].
  change (join_with printed (str <$> (y :: z :: ys))) with (str y +:+ printed +:+ join_with printed (str <$> (z :: ys))).
  rewrite !str_app_assoc, IH. done.
Qed.

Lemma sep_list_join ys t :
  ys <> [] -> Forall parses ys -> follow t = true -> sep (skip t) = None ->
  exists ps, sep_list sep item (join_with printed (str <$> ys) +:+ t) = Some (ps, t) /\ Forall2 R ps ys.
Proof.
  destruct ys as [|y ys]; [done|]. intros _ [[_ Hy] Hys]%Forall_cons Ht Hstop. rewrite join_rest.
  destruct (Hy (rest_of ys t) (follow_rest ys t Ht)) as (p & Hp & HRp).
  destruct (many_rest ys t (String.length (rest_of ys t)) Hys Ht Hstop (length_rest ys t)) as (ps & Hps & HR).
  exists (p :: ps). unfold sep_list. rewrite Hp. simpl. rewrite Hps. by split; [|constructor].
Qed.

Lemma nonblank_join ys : ys <> [] -> Forall parses ys -> nonblank (join_with printed (str <$> ys)) = true.
Proof.
  destruct ys as [|y ys]; [done|]. intros _ [[Hnb _] _]%Forall_cons.
  rewrite <- (str_app_nil_r (join_with _ _)), join_rest. by destruct (str y).
Qed.

End SepList.

(** ** Printing and parsing, level by level *)

Lemma head_in_stop (cs : list ascii) a p t : head_in cs t = true -> bool_decide (a ∉ cs) = true -> eat (String a p) t = None.
Proof.
  destruct t as [|b t]; [done|]. intros Hb%bool_decide_eq_true Ha%bool_decide_eq_true.
  apply eat_head. by intros ->.
Qed.

Lemma head_in_weaken (cs ds : list ascii) t :
  head_in cs t = true -> forallb (fun c => bool_decide (c ∈ ds)) cs = true -> head_in ds t = true.
Proof.
  destruct t as [|b t]; [done|]. intros Hb%bool_decide_eq_true%list_elem_of_In Hs.
  rewrite forallb_forall in Hs. by apply Hs.
Qed.

Lemma item_head it : item_ok it = true ->
  exists a s, item_to_string it = String a s /\ (a ∉ [" "; "("; "!"; "~"]%char).
Proof.
  intros Hok. assert (forall a, bool_decide (a ∉ [" "; "("; "!"; "~"]%char) = true -> a ∉ [" "; "("; "!"; "~"]%char) as Hd
    by (intros a; apply bool_decide_eq_true).
  destruct it as [ty|i|k| |]; simpl in *.
  - eexists _, _. split; [reflexivity|]. by apply Hd.
  - apply bool_decide_eq_true in Hok. pose proof (u64_to_string_digits i ltac:(lia)) as Hdig.
    pose proof (u64_to_string_nonempty i). destruct (u64_to_string i) as [|a s]; [done|].
    exists a, s. split; [done|]. simpl in Hdig. apply andb_true_iff in Hdig as [Hdig _]. clear -Hdig.
    intros Hin. apply list_elem_of_In in Hin. simpl in Hin. naive_solver.
  - destruct k as [|a k]; [done|]. simpl. destruct (key_needs_quoting (String a k)) eqn:Hq.
    + eexists _, _. split; [reflexivity|]. by apply Hd.
    + exists a, k. split; [done|]. unfold key_ok in Hok. rewrite Hq, orb_false_r in Hok.
      apply bool_decide_eq_true in Hok. simpl in Hok. destruct (key_start a) eqn:Ha; [|done].
      intros Hin. apply list_elem_of_In in Hin. simpl in Hin. naive_solver.
  - eexists _, _. split; [reflexivity|]. by apply Hd.
  - eexists _, _. split; [reflexivity|]. by apply Hd.
Qed.

Lemma handle_items_ok ps path (used : bool) :
  Forall2 (fun p it => handle_selector_path_item p = Ok it) ps path ->
  (length (List.filter is_deep path) + (if used then 1 else 0) <= 1)%nat -> handle_items used ps = Ok path.
Proof.
  intros H. revert used. induction H as [|p it ps path Hp _ IH]; intros used Hd; simpl in *; [done|].
  rewrite Hp. simpl. destruct (is_deep it); simpl in *.
  - destruct used; simpl in *; [lia|]. rewrite IH by lia. done.
  - rewrite orb_false_r, IH by done. done.
Qed.

Lemma nonblank_head a s : a ∉ [" "; "("; "!"; "~"]%char -> nonblank (String a s) = true.
Proof. intros Ha. simpl. rewrite bool_decide_false; [done|]. intros ->. apply Ha. by constructor. Qed.

Lemma parse_path path t : path_ok path = true -> after_path t = true ->
  exists p, selector_path (to_string (Path path) +:+ t) = Some (p, t) /\ handle_selector p = Ok (Path path).
Proof.
  unfold path_ok. rewrite !andb_true_iff, forallb_forall, !bool_decide_eq_true.
  intros (((Hok & Hne) & Hnw) & Hd) [Ht Hskip]%andb_true_iff.
  destruct (sep_list_join (eat ".") selector_path_item "." after_item item_to_string
    (fun p it => handle_selector_path_item p = Ok it)) with (ys := path) (t := t) as (ps & Hps & HR).
  - intros s t' Hs. change ("." +:+ s +:+ t') with (String "." (s +:+ t')).
    rewrite skip_head, eat_char by done. simpl. by rewrite nonblank_skip.
  - done.
  - done.
  - done.
  - apply Forall_forall. intros it Hit%list_elem_of_In%Hok. split.
    + destruct (item_head it Hit) as (a & s & -> & Ha). by apply nonblank_head.
    + intros t' Ht'. by apply parse_item.
  - by eapply head_in_weaken.
  - by eapply head_in_stop.
  - exists (SelectorPath ps). simpl in *. unfold selector_path. rewrite Hps. split; [done|].
    unfold handle_path. rewrite (handle_items_ok ps path false HR) by lia. simpl. by rewrite bool_decide_false.
Qed.

Lemma path_head path : path_ok path = true ->
  exists a s, to_string (Path path) = String a s /\ (a ∉ [" "; "("; "!"; "~"]%char).
Proof.
  unfold path_ok. rewrite !andb_true_iff, forallb_forall, !bool_decide_eq_true. intros (((Hok & Hne) & _) & _).
  destruct path as [|it path]; [done|]. destruct (item_head it) as (a & s & Hi & Ha); [apply Hok; by left|].
  simpl. rewrite Hi. destruct path; simpl; eauto.
Qed.

(** What parsing the text of a selector yields, and before what. *)
Definition reads (parse : string -> option (Pair * string)) (follow : string -> bool) (text : string)
    (x : SelectorSpec) : Prop :=
  nonblank text = true /\
  forall t, follow t = true -> exists p, parse (text +:+ t) = Some (p, t) /\ handle_selector p = Ok x.

(** The text of an operand of a negation. *)
Definition operand (x : SelectorSpec) : string :=
  match x with Path _ => to_string x | _ => parens (to_string x) end.
(** The text of a member of a conjunction. *)
Definition conjunct (x : SelectorSpec) : string :=
  match x with Or _ => parens (to_string x) | _ => to_string x end.

Lemma no_parenthesis rec a s : a ∉ [" "; "("; "!"; "~"]%char ->
  parenthesis_or_path rec (String a s) = '(p, s) ← selector_path (String a s); Some (ParenthesisOrPath p, s).
Proof.
  intros Ha. unfold parenthesis_or_path. rewrite eat_head; [done|]. intros <-. apply Ha. by repeat constructor.
Qed.

Lemma no_negation rec a s : a ∉ [" "; "!"; "~"]%char ->
  maybe_not_selector rec (String a s) = '(p, s) ← parenthesis_or_path rec (String a s); Some (MaybeNotSelector p, s).
Proof.
  intros Ha. unfold maybe_not_selector, not_selector, not_op.
  rewrite !eat_head; [done|..]; intros <-; apply Ha; by repeat constructor.
Qed.

Lemma reads_parens f x :
  reads (or_selector f) after_or (to_string x) x ->
  reads (parenthesis_or_path (or_selector f)) after_path (parens (to_string x)) x.
Proof.
  intros [Hnb Hx]. split; [done|]. intros t Ht. unfold parens. rewrite !str_app_assoc.
  destruct (Hx (String ")" t) eq_refl) as (p & Hp & Hh). exists (ParenthesisOrPath p). split; [|done].
  unfold parenthesis_or_path. rewrite (eat_app "("). simpl. rewrite nonblank_skip, Hp by done.
  simpl. by rewrite eat_char.
Qed.

Lemma reads_path rec path : path_ok path = true ->
  reads (parenthesis_or_path rec) after_path (to_string (Path path)) (Path path).
Proof.
  intros Hok. destruct (path_head path Hok) as (a & s & Hs & Ha). split.
  - rewrite Hs. by apply nonblank_head.
  - intros t Ht. destruct (parse_path path t Hok Ht) as (p & Hp & Hh). exists (ParenthesisOrPath p).
    split; [|done]. rewrite Hs in *. simpl in *. by rewrite no_parenthesis, Hp.
Qed.

(** The operand of [!] and the parenthesized members of [&&]. *)
Lemma reads_operand f x :
  (forall path, x = Path path -> path_ok path = true) ->
  ((forall path, x <> Path path) -> reads (or_selector f) after_or (to_string x) x) ->
  reads (parenthesis_or_path (or_selector f)) after_path (operand x) x.
Proof.
  intros Hpath Hx. destruct x as [xs|xs|x|path]; unfold operand.
  1-3: by apply reads_parens, Hx.
  by apply reads_path, Hpath.
Qed.

Lemma reads_not rec x : reads (parenthesis_or_path rec) after_path (operand x) x ->
  reads (maybe_not_selector rec) after_path (to_string (Not x)) (Not x).
Proof.
  intros [Hnb Hx]. assert (to_string (Not x) = "!" +:+ operand x) as -> by (by destruct x). split; [done|].
  intros t Ht. destruct (Hx t Ht) as (p & Hp & Hh). exists (MaybeNotSelector (NotSelector p)).
  split; [|simpl; by rewrite Hh].
  unfold maybe_not_selector, not_selector, not_op. rewrite str_app_assoc. change ("!" +:+ (operand x +:+ t)) with (String "!" (operand x +:+ t)).
  rewrite (eat_head "~") by done. simpl. rewrite eat_char. simpl. by rewrite nonblank_skip, Hp.
Qed.

(** A member that is no negation is a parenthesis or a path. *)
Lemma reads_plain rec text x : reads (parenthesis_or_path rec) after_path text x ->
  (exists a s, text = String a s /\ a ∉ [" "; "!"; "~"]%char) ->
  reads (maybe_not_selector rec) after_path text x.
Proof.
  intros [Hnb Hx] (a & s & -> & Ha). split; [done|]. intros t Ht. destruct (Hx t Ht) as (p & Hp & Hh).
  exists (MaybeNotSelector p). split; [|done]. simpl in *. by rewrite no_negation, Hp.
Qed.

Lemma collect_ok ps xs :
  Forall2 (fun p x => handle_selector p = Ok x) ps xs -> collect (handle_selector <$> ps) = Ok xs.
Proof.
  induction 1 as [|p x ps xs Hp _ IH]; [done|]. rewrite fmap_cons. cbn [collect]. by rewrite Hp, IH.
Qed.

Lemma multiple_or_inner_ok f ps xs :
  collect ps = Ok xs -> multiple_or_inner f ps = Ok (match xs with [x] => x | _ => f xs end).
Proof. unfold multiple_or_inner. intros ->. simpl. by destruct xs as [|? [|? ?]]. Qed.

(** Members read one by one make a list. *)
Lemma reads_list sep item printed (follow follow' : string -> bool) str xs :
  (forall s t, nonblank s = true ->
     (s ← sep (skip (printed +:+ s +:+ t)); Some (skip s)) = Some (s +:+ t)) ->
  (forall s, follow (printed +:+ s) = true) -> printed <> "" ->
  (forall t, follow' t = true -> follow t = true /\ sep (skip t) = None) -> xs <> [] ->
  Forall (fun y => reads item follow (str y) y) xs ->
  nonblank (join_with printed (str <$> xs)) = true /\
  forall t, follow' t = true -> exists ps,
    sep_list sep item (join_with printed (str <$> xs) +:+ t) = Some (ps, t) /\
    collect (handle_selector <$> ps) = Ok xs.
Proof.
  intros Hsep Hfollow Hprinted Hstop Hne Hxs. split.
  - eapply nonblank_join; [done|exact Hxs].
  - intros t Ht. destruct (Hstop t Ht) as [Hf Hs].
    destruct (sep_list_join sep item printed follow str (fun p x => handle_selector p = Ok x) Hsep Hfollow
      Hprinted xs t Hne Hxs Hf Hs) as (ps & Hps & HR).
    exists ps. split; [done|]. by apply collect_ok.
Qed.

Lemma operator_read o (op : string -> option string) s t :
  (forall u, op (o +:+ u) = Some u) -> (forall u, skip (o +:+ u) = o +:+ u) -> nonblank s = true ->
  (s ← op (skip ((" " +:+ o +:+ " ") +:+ s +:+ t)); Some (skip s)) = Some (s +:+ t).
Proof.
  intros Hop Ho Hs. rewrite !str_app_assoc. simpl. rewrite Ho, Hop. simpl. by rewrite nonblank_skip.
Qed.

Lemma and_list rec (str : SelectorSpec -> string) xs : xs <> [] ->
  Forall (fun y => reads (maybe_not_selector rec) after_path (str y) y) xs ->
  reads (and_selector rec) after_and (join_with " && " (str <$> xs)) (match xs with [x] => x | _ => And xs end).
Proof.
  intros Hne Hxs. destruct (reads_list and_op (maybe_not_selector rec) " && " after_path after_and str xs)
    as [Hnb Hp]; try done.
  - intros s t. apply (operator_read "&&"); [|done]. intros u. unfold and_op. by rewrite eat_app.
  - intros t [H1 H2]%andb_true_iff. split.
    + unfold after_path. rewrite H1. by eapply head_in_weaken.
    + unfold and_op. by rewrite !(head_in_stop [")"; "|"]%char).
  - split; [done|]. intros t Ht. destruct (Hp t Ht) as (ps & Hps & Hc). exists (AndSelector ps).
    unfold and_selector. rewrite Hps. split; [done|]. simpl. by apply multiple_or_inner_ok.
Qed.

Lemma or_list f (str : SelectorSpec -> string) xs : xs <> [] ->
  Forall (fun y => reads (and_selector (or_selector f)) after_and (str y) y) xs ->
  reads (or_selector (S f)) after_or (join_with " || " (str <$> xs)) (match xs with [x] => x | _ => Or xs end).
Proof.
  intros Hne Hxs. destruct (reads_list or_op (and_selector (or_selector f)) " || " after_and after_or str xs)
    as [Hnb Hp]; try done.
  - intros s t. apply (operator_read "||"); [|done]. intros u. unfold or_op. by rewrite eat_app.
  - intros t [H1 H2]%andb_true_iff. split.
    + unfold after_and. rewrite H1. by eapply head_in_weaken.
    + unfold or_op. by rewrite !(head_in_stop [")"]%char).
  - split; [done|]. intros t Ht. destruct (Hp t Ht) as (ps & Hps & Hc). exists (OrSelector ps).
    simpl. rewrite Hps. split; [done|]. simpl. by apply multiple_or_inner_ok.
Qed.

Lemma and_single rec x :
  reads (maybe_not_selector rec) after_path (to_string x) x -> reads (and_selector rec) after_and (to_string x) x.
Proof. intros Hx. apply (and_list rec to_string [x]); [done|]. by constructor. Qed.

Lemma or_single f x :
  reads (and_selector (or_selector f)) after_and (to_string x) x -> reads (or_selector (S f)) after_or (to_string x) x.
Proof. intros Hx. apply (or_list f to_string [x]); [done|]. by constructor. Qed.

Lemma nesting_and xs y : y ∈ xs -> ((if is_or y then S (nesting y) else nesting y) <= nesting (And xs))%nat.
Proof.
  simpl. induction xs as [|x xs IH]; [by intros ?%not_elem_of_nil|].
  intros [->|Hy]%elem_of_cons; simpl; [lia|]. specialize (IH Hy). lia.
Qed.

Lemma nesting_or xs y : y ∈ xs -> (nesting y <= nesting (Or xs))%nat.
Proof.
  simpl. induction xs as [|x xs IH]; [by intros ?%not_elem_of_nil|].
  intros [->|Hy]%elem_of_cons; simpl; [lia|]. specialize (IH Hy). lia.
Qed.

Lemma several {A} (xs : list A) (x : A) (f : list A -> A) :
  (2 <= length xs)%nat -> match xs with [x] => x | _ => f xs end = f xs.
Proof. destruct xs as [|? [|? ?]]; simpl; [done|lia|done]. Qed.

(** The text of a selector reads back at every level of the grammar it belongs to. *)
Definition reads_back (x : SelectorSpec) : Prop :=
  (forall f, (nesting x <= f)%nat -> reads (or_selector (S f)) after_or (to_string x) x) /\
  (is_or x = false -> forall f, (nesting x <= f)%nat ->
     reads (and_selector (or_selector f)) after_and (to_string x) x) /\
  (is_or x = false -> is_and x = false -> forall f, (nesting x <= f)%nat ->
     reads (maybe_not_selector (or_selector f)) after_path (to_string x) x).

Lemma reads_back_conjunct f y : reads_back y -> is_and y = false ->
  ((if is_or y then S (nesting y) else nesting y) <= f)%nat ->
  reads (maybe_not_selector (or_selector f)) after_path (conjunct y) y.
Proof.
  intros (Ho & _ & Hm) Ha Hf. destruct y as [xs|xs|y|path]; simpl is_or in *; [done|..].
  - destruct f as [|f]; [lia|]. apply reads_plain; [apply reads_parens, Ho; lia|].
    eexists _, _. split; [reflexivity|]. by apply (bool_decide_eq_true_1 _).
  - by apply Hm.
  - by apply Hm.
Qed.

Lemma reads_back_from_maybe_not x : is_or x = false -> is_and x = false ->
  (forall f, (nesting x <= f)%nat -> reads (maybe_not_selector (or_selector f)) after_path (to_string x) x) ->
  reads_back x.
Proof.
  intros Ho Ha Hm. split; [|split].
  - intros f Hf. apply or_single, and_single. by apply Hm.
  - intros _ f Hf. apply and_single. by apply Hm.
  - intros _ _. apply Hm.
Qed.

Lemma normal_reads_back x : normal x = true -> reads_back x.
Proof.
  induction x as [xs IH|xs IH|x IH|path] using SelectorSpec_ind'; intros Hn.
  - simpl in Hn. rewrite andb_true_iff, forallb_forall, bool_decide_eq_true in Hn. destruct Hn as [Hn Hlen].
    assert (forall f, (nesting (And xs) <= f)%nat ->
      reads (and_selector (or_selector f)) after_and (to_string (And xs)) (And xs)) as Hand.
    { intros f Hf. rewrite <- (several xs (And xs) And Hlen) at 2. apply (and_list _ conjunct);
        [by intros ->; simpl in Hlen; lia|].
      apply Forall_forall. intros y Hy. rewrite Forall_forall in IH.
      pose proof (Hn y (proj1 (list_elem_of_In _ _) Hy)) as [Hny Hay%negb_true_iff]%andb_true_iff.
      apply reads_back_conjunct; [by apply IH|done|]. pose proof (nesting_and xs y Hy). lia. }
    split; [|split]; [|done|done]. intros f Hf. by apply or_single, Hand.
  - simpl in Hn. rewrite andb_true_iff, forallb_forall, bool_decide_eq_true in Hn. destruct Hn as [Hn Hlen].
    split; [|split]; [|done|done]. intros f Hf. rewrite <- (several xs (Or xs) Or Hlen) at 2.
    apply (or_list _ to_string); [by intros ->; simpl in Hlen; lia|].
    apply Forall_forall. intros y Hy. rewrite Forall_forall in IH.
    pose proof (Hn y (proj1 (list_elem_of_In _ _) Hy)) as [Hny Hoy%negb_true_iff]%andb_true_iff.
    apply (IH y Hy Hny); [done|]. pose proof (nesting_or xs y Hy). lia.
  - apply reads_back_from_maybe_not; [done|done|]. intros f Hf. apply reads_not, reads_operand.
    + intros path ->. exact Hn.
    + intros Hx. destruct (IH Hn) as [Ho _]. destruct f as [|f].
      * exfalso. destruct x; simpl in Hf; try lia. by eapply Hx.
      * apply Ho. destruct x; simpl in *; try lia.
  - apply reads_back_from_maybe_not; [done|done|]. intros f Hf. apply reads_plain; [by apply reads_path|].
    destruct (path_head path Hn) as (a & s & Hs & Ha). exists a, s. split; [done|].
    intros Hin. apply Ha. apply list_elem_of_In in Hin. apply list_elem_of_In. simpl in *. tauto.
Qed.

Lemma length_join_with sep (l : list string) x :
  x ∈ l -> (String.length x <= String.length (join_with sep l))%nat.
Proof.
  induction l as [|y l IH]; [by intros ?%not_elem_of_nil|]. intros [->|Hx]%elem_of_cons.
  - destruct l; simpl; [lia|]. rewrite !length_app_str. lia.
  - specialize (IH Hx). destruct l; [by apply not_elem_of_nil in Hx|]. simpl in *. rewrite !length_app_str. lia.
Qed.

Lemma length_parens s : String.length (parens s) = (2 + String.length s)%nat.
Proof. unfold parens. rewrite !length_app_str. simpl. lia. Qed.

Lemma length_conjunct y :
  String.length (conjunct y) = ((if is_or y then 2 else 0) + String.length (to_string y))%nat.
Proof. destruct y; [done| |done|done]. apply length_parens. Qed.

Lemma length_negation y :
  String.length (to_string (Not y)) =
  ((match y with Path _ => 1 | _ => 3 end) + String.length (to_string y))%nat.
Proof. destruct y; cbn [to_string]; rewrite length_app_str, ?length_parens; done. Qed.

Lemma nesting_length x : (nesting x <= String.length (to_string x))%nat.
Proof.
  induction x as [xs IH|xs IH|x IH|path] using SelectorSpec_ind'; [..|simpl; lia].
  - rewrite Forall_forall in IH. assert (forall y, y ∈ xs -> (if is_or y then S (nesting y) else nesting y) <=
      String.length (to_string (And xs)))%nat as Hy.
    { intros y Hy. pose proof (length_join_with " && " (conjunct <$> xs) (conjunct y)
        (list_elem_of_fmap_2 _ _ _ Hy)) as Hl. specialize (IH y Hy).
      change (to_string (And xs)) with (join_with " && " (conjunct <$> xs)).
      pose proof (length_conjunct y). destruct (is_or y); lia. }
    revert Hy. generalize (String.length (to_string (And xs))). simpl. clear. intros n.
    induction xs as [|x xs IH]; simpl; intros H; [lia|]. apply Nat.max_lub; [apply H; by left|].
    apply IH. intros y Hy. apply H. by right.
  - rewrite Forall_forall in IH. assert (forall y, y ∈ xs -> nesting y <= String.length (to_string (Or xs)))%nat as Hy.
    { intros y Hy. pose proof (length_join_with " || " (to_string <$> xs) (to_string y)
        (list_elem_of_fmap_2 _ _ _ Hy)) as Hl. specialize (IH y Hy).
      change (to_string (Or xs)) with (join_with " || " (to_string <$> xs)). lia. }
    revert Hy. generalize (String.length (to_string (Or xs))). simpl. clear. intros n.
    induction xs as [|x xs IH]; simpl; intros H; [lia|]. apply Nat.max_lub; [apply H; by left|].
    apply IH. intros y Hy. apply H. by right.
  - rewrite length_negation. change (nesting (Not x)) with (match x with Path _ => 0 | _ => S (nesting x) end)%nat.
    destruct x; lia.
Qed.

(** ** What parsing guarantees *)

Lemma handle_items_deep used ps path : handle_items used ps = Ok path ->
  (length (List.filter is_deep path) + (if used then 1 else 0) <= 1)%nat.
Proof.
  revert used path. induction ps as [|p ps IH]; intros used path; simpl.
  - intros [= <-]. simpl. destruct used; lia.
  - rewrite result_bind_Ok. intros (it & _ & H). destruct (is_deep it) eqn:Hd, used; simpl in H; try done;
      apply result_bind_Ok in H as (rest & Hr%IH & [= <-]); simpl; rewrite Hd; simpl in *; lia.
Qed.

Section Pair_induction.
Context (P : Pair -> Prop).
Context (HOr : forall l, Forall P l -> P (OrSelector l)) (HAnd : forall l, Forall P l -> P (AndSelector l)).
Context (HMaybe : forall p, P p -> P (MaybeNotSelector p)) (HNot : forall p, P p -> P (NotSelector p)).
Context (HParen : forall p, P p -> P (ParenthesisOrPath p)) (HPath : forall l, P (SelectorPath l)).

Fixpoint Pair_ind' (p : Pair) : P p :=
  let all := fix all (l : list Pair) : Forall P l :=
    match l with [] => Forall_nil_2 P | p :: l => Forall_cons_2 P p l (Pair_ind' p) (all l) end in
  match p with
  | OrSelector l => HOr l (all l)
  | AndSelector l => HAnd l (all l)
  | MaybeNotSelector p => HMaybe p (Pair_ind' p)
  | NotSelector p => HNot p (Pair_ind' p)
  | ParenthesisOrPath p => HParen p (Pair_ind' p)
  | SelectorPath l => HPath l
  end.

End Pair_induction.

Lemma collect_Forall (Q : SelectorSpec -> Prop) ps xs :
  Forall (fun p => forall x, handle_selector p = Ok x -> Q x) ps ->
  collect (handle_selector <$> ps) = Ok xs -> Forall Q xs.
Proof.
  intros H. revert xs. induction H as [|p ps Hp _ IH]; intros xs; rewrite ?fmap_cons; cbn [collect].
  - intros [= <-]. constructor.
  - rewrite result_bind_Ok. intros (x & Hx & (rest & Hr & [= <-])%result_bind_Ok). constructor; auto.
Qed.

Lemma multiple_single_deep (f : list SelectorSpec -> SelectorSpec) ps x :
  Forall (fun p => forall x, handle_selector p = Ok x -> single_deep x = true) ps ->
  (forall xs, single_deep (f xs) = forallb single_deep xs) ->
  multiple_or_inner f (handle_selector <$> ps) = Ok x -> single_deep x = true.
Proof.
  intros Hps Hf. unfold multiple_or_inner. rewrite result_bind_Ok. intros (xs & Hxs & Hx).
  pose proof (collect_Forall _ _ _ Hps Hxs) as Hall.
  assert (forallb single_deep xs = true) as Hb.
  { apply forallb_forall. intros y Hy. rewrite Forall_forall in Hall. by apply Hall, list_elem_of_In. }
  destruct xs as [|y [|z xs]]; injection Hx as <-; [by rewrite Hf| |by rewrite Hf].
  simpl in Hb. by rewrite andb_true_r in Hb.
Qed.

Lemma handle_selector_single_deep p x : handle_selector p = Ok x -> single_deep x = true.
Proof.
  revert x. induction p as [l IH|l IH|p IH|p IH|p IH|l] using Pair_ind'; intros x; cbn [handle_selector].
  - by apply multiple_single_deep.
  - by apply multiple_single_deep.
  - apply IH.
  - destruct (handle_selector p) as [y|] eqn:Hy; [|done]. intros [= <-]. simpl. by apply IH.
  - apply IH.
  - unfold handle_path. rewrite result_bind_Ok. intros (path & Hp%handle_items_deep & Hx).
    case_bool_decide; [done|]. injection Hx as <-. simpl. apply bool_decide_eq_true. lia.
Qed.

Lemma from_str_single_deep s x : from_str s = Ok x -> single_deep x = true.
Proof.
  unfold from_str. destruct (match_str s legacy_selectors) as [y|] eqn:Hm.
  - intros [= <-]. revert Hm. unfold legacy_selectors. simpl.
    repeat (case_bool_decide; [by intros [= <-]|]). done.
  - rewrite result_bind_Ok. intros (p & _ & Hp). by eapply handle_selector_single_deep.
Qed.

(** ** The fuel is enough

    A rule returns a rest of its input, and the rule for parentheses calls back on less
    than its input, so nesting deeper than the input is long never happens. *)

Definition shrinks {A} (p : string -> option (A * string)) : Prop :=
  forall s x r, p s = Some (x, r) -> (String.length r <= String.length s)%nat.
Definition eats (p : string -> option string) : Prop :=
  forall s r, p s = Some r -> (String.length r < String.length s)%nat.

Lemma length_skip s : (String.length (skip s) <= String.length s)%nat.
Proof. induction s as [|a s IH]; simpl; [lia|]. case_bool_decide; simpl; lia. Qed.

Lemma eat_Some p s r : eat p s = Some r -> s = p +:+ r.
Proof.
  unfold eat, starts_with. destruct (String.prefix p s) eqn:Hp; [|done]. intros [= <-].
  assert (exists t, s = p +:+ t) as [t ->]; [|by rewrite str_from_app].
  revert s Hp. induction p as [|a p IH]; intros s Hp; [by exists s|].
  destruct s as [|b s]; [done|]. simpl in Hp. destruct (ascii_dec a b) as [->|]; [|done].
  destruct (IH s Hp) as [t ->]. by exists t.
Qed.

Lemma eat_eats a p : eats (eat (String a p)).
Proof. intros s r ->%eat_Some. simpl. rewrite length_app_str. lia. Qed.

Lemma first_of_eats p q : eats p -> eats q -> eats (fun s => first_of (p s) (q s)).
Proof.
  intros Hp Hq s r. destruct (p s) eqn:E; simpl; [intros [= ->]; by apply (Hp s)|]. apply Hq.
Qed.

Lemma first_of_shrinks {A} (p q : string -> option (A * string)) :
  shrinks p -> shrinks q -> shrinks (fun s => first_of (p s) (q s)).
Proof.
  intros Hp Hq s x r. destruct (p s) as [[y t]|] eqn:E; simpl; [|apply Hq]. intros [= -> ->]. by apply (Hp s x).
Qed.

Lemma take_while_shrinks p s : (String.length (take_while p s).2 <= String.length s)%nat.
Proof.
  induction s as [|a s IH]; simpl; [lia|]. destruct (p a); [|simpl; lia].
  destruct (take_while p s); simpl in *; lia.
Qed.

Lemma quoted_tokens_shrinks s : (String.length (quoted_tokens s).2 <= String.length s)%nat.
Proof.
  enough (forall n s, (String.length s <= n)%nat ->
    (String.length (quoted_tokens s).2 <= String.length s)%nat) as H by (by apply (H (String.length s))).
  clear s. induction n as [|n IH]; intros [|a s] Hn; simpl in *; try lia.
  case_bool_decide.
  - destruct s as [|b s]; simpl in *; [lia|]. case_bool_decide; simpl; [|lia].
    pose proof (IH s ltac:(lia)). destruct (quoted_tokens s); simpl in *; lia.
  - pose proof (IH s ltac:(lia)). destruct (quoted_tokens s); simpl in *; lia.
Qed.

(** [p], then [q] on what it left. *)
Lemma eats_then {A} (p : string -> option string) (q : string -> option (A * string)) :
  eats p -> shrinks q -> shrinks (fun s => s ← p s; q s).
Proof.
  intros Hp Hq s x r. destruct (p s) as [t|] eqn:E; simpl; [|done]. intros Hr. apply Hp in E. apply Hq in Hr. lia.
Qed.

Lemma key_shrinks : shrinks key.
Proof.
  apply first_of_shrinks.
  - intros s x r. destruct s as [|a s]; simpl; [done|]. destruct (key_start a); [|done].
    pose proof (take_while_shrinks key_char s). destruct (take_while key_char s). simpl in *. intros [= _ <-]. lia.
  - apply eats_then; [apply eat_eats|]. intros s x r. unfold quoted_key.
    pose proof (quoted_tokens_shrinks (skip s)) as Hq. pose proof (length_skip s).
    destruct (quoted_tokens (skip s)) as [[|t ts] s']; simpl in *; [done|].
    pose proof (length_skip s'). destruct (eat "'" (skip s')) as [u|] eqn:E; simpl; [|done].
    apply eat_eats in E. intros [= _ <-]. lia.
Qed.

Lemma item_shrinks : shrinks selector_path_item.
Proof.
  apply first_of_shrinks; [|apply first_of_shrinks; [|apply first_of_shrinks; [|apply first_of_shrinks]]].
  - apply eats_then; [apply eat_eats|]. intros s x r. pose proof (take_while_shrinks type_char s).
    destruct (take_while type_char s) as [[|a t] s']; simpl in *; [done|]. intros [= _ <-]. lia.
  - apply eats_then; [apply eat_eats|]. by intros s x r [= _ <-].
  - apply eats_then; [apply eat_eats|]. by intros s x r [= _ <-].
  - intros s x r. unfold index. pose proof (take_while_shrinks is_ascii_digit s).
    destruct (take_while is_ascii_digit s) as [[|a t] s']; simpl in *; [done|]. intros [= _ <-]. lia.
  - intros s x r. destruct (key s) as [[k t]|] eqn:E; simpl; [|done]. intros [= _ <-]. by apply (key_shrinks s k).
Qed.

Section ListShrinks.
Context {A : Type} (sep : string -> option string).

Lemma many_shrinks (item : string -> option (A * string)) n s :
  eats sep -> shrinks item -> (String.length (many sep item n s).2 <= String.length s)%nat.
Proof.
  intros Hs Hi. revert s. induction n as [|n IH]; intros s; simpl; [lia|].
  destruct (sep (skip s)) as [t|] eqn:E; simpl; [|lia]. destruct (item (skip t)) as [[x r]|] eqn:Ei; [|simpl; lia].
  apply Hs in E. apply Hi in Ei. specialize (IH r). destruct (many sep item n r). simpl in *.
  pose proof (length_skip s). pose proof (length_skip t). lia.
Qed.

Lemma sep_list_shrinks (item : string -> option (A * string)) :
  eats sep -> shrinks item -> shrinks (sep_list sep item).
Proof.
  intros Hs Hi s x r. unfold sep_list. destruct (item s) as [[y t]|] eqn:E; simpl; [|done].
  pose proof (many_shrinks item (String.length t) t Hs Hi). destruct (many sep item (String.length t) t).
  intros [= _ <-]. apply Hi in E. simpl in *. lia.
Qed.

(** Items that agree on short inputs make lists that agree on them. *)
Lemma many_agree (item item' : string -> option (A * string)) n m s :
  eats sep -> shrinks item -> (String.length s <= m)%nat ->
  (forall t, (String.length t < m)%nat -> item t = item' t) ->
  many sep item n s = many sep item' n s.
Proof.
  intros Hs Hi Hm Heq. revert s Hm. induction n as [|n IH]; intros s Hm; simpl; [done|].
  destruct (sep (skip s)) as [t|] eqn:E; simpl; [|done]. apply Hs in E.
  pose proof (length_skip s). pose proof (length_skip t). rewrite <- Heq by lia.
  destruct (item (skip t)) as [[x r]|] eqn:Ei; [|done]. apply Hi in Ei. by rewrite IH by lia.
Qed.

Lemma sep_list_agree (item item' : string -> option (A * string)) s :
  eats sep -> shrinks item -> (forall t, (String.length t <= String.length s)%nat -> item t = item' t) ->
  sep_list sep item s = sep_list sep item' s.
Proof.
  intros Hs Hi Heq. unfold sep_list. rewrite <- Heq by lia. destruct (item s) as [[y t]|] eqn:E; simpl; [|done].
  apply Hi in E. rewrite (many_agree item item' _ (String.length t)); [done|done|done|lia|].
  intros u Hu. apply Heq. lia.
Qed.

End ListShrinks.

Lemma and_op_eats : eats and_op.
Proof. apply first_of_eats; apply eat_eats. Qed.
Lemma or_op_eats : eats or_op.
Proof. apply first_of_eats; apply eat_eats. Qed.
Lemma not_op_eats : eats not_op.
Proof. apply first_of_eats; apply eat_eats. Qed.

Section RulesShrink.
Context (rec : string -> option (Pair * string)) (Hrec : shrinks rec).

Lemma parenthesis_shrinks : shrinks (parenthesis_or_path rec).
Proof.
  apply first_of_shrinks.
  - apply eats_then; [apply eat_eats|]. intros s x r. destruct (rec (skip s)) as [[p t]|] eqn:E; simpl; [|done].
    destruct (eat ")" (skip t)) as [u|] eqn:Ee; simpl; [|done]. intros [= _ <-].
    apply eat_eats in Ee. apply Hrec in E. pose proof (length_skip s). pose proof (length_skip t). lia.
  - intros s x r. unfold selector_path. destruct (sep_list _ _ s) as [[p t]|] eqn:E; simpl; [|done].
    intros [= _ <-]. eapply sep_list_shrinks; [apply eat_eats|apply item_shrinks|exact E].
Qed.

Lemma maybe_not_shrinks : shrinks (maybe_not_selector rec).
Proof.
  intros s x r. unfold maybe_not_selector. destruct (first_of _ _) as [[p t]|] eqn:E; simpl; [|done].
  intros [= _ <-]. revert E. apply (first_of_shrinks (not_selector rec)); [|apply parenthesis_shrinks].
  apply eats_then; [apply not_op_eats|]. intros u y v.
  destruct (parenthesis_or_path rec (skip u)) as [[q w]|] eqn:E; simpl; [|done]. intros [= _ <-].
  apply parenthesis_shrinks in E. pose proof (length_skip u). lia.
Qed.

Lemma and_selector_shrinks : shrinks (and_selector rec).
Proof.
  intros s x r. unfold and_selector. destruct (sep_list _ _ s) as [[p t]|] eqn:E; simpl; [|done].
  intros [= _ <-]. eapply sep_list_shrinks; [apply and_op_eats|apply maybe_not_shrinks|exact E].
Qed.

End RulesShrink.

Lemma or_selector_shrinks f : shrinks (or_selector f).
Proof.
  induction f as [|f IH]; intros s x r; simpl; [done|].
  destruct (sep_list _ _ s) as [[p t]|] eqn:E; simpl; [|done]. intros [= _ <-].
  eapply sep_list_shrinks; [apply or_op_eats|by apply and_selector_shrinks|exact E].
Qed.

Lemma and_selector_agree rec rec' s : shrinks rec ->
  (forall t, (String.length t < String.length s)%nat -> rec t = rec' t) ->
  and_selector rec s = and_selector rec' s.
Proof.
  intros Hr Heq. unfold and_selector.
  rewrite (sep_list_agree and_op (maybe_not_selector rec) (maybe_not_selector rec'));
    [done|apply and_op_eats|by apply maybe_not_shrinks|].
  assert (forall t, (String.length t <= String.length s)%nat ->
    parenthesis_or_path rec t = parenthesis_or_path rec' t) as Hp.
  { intros t Ht. unfold parenthesis_or_path. destruct (eat "(" t) as [u|] eqn:E; simpl; [|done].
    apply eat_eats in E. pose proof (length_skip u). by rewrite Heq by lia. }
  intros t Ht. unfold maybe_not_selector, not_selector. destruct (not_op t) as [u|] eqn:E; simpl.
  - apply not_op_eats in E. pose proof (length_skip u). by rewrite !Hp by lia.
  - by rewrite Hp.
Qed.

(** More fuel than the input is long changes nothing. *)
Lemma or_selector_fuel f f' s :
  (String.length s < f)%nat -> (String.length s < f')%nat -> or_selector f s = or_selector f' s.
Proof.
  revert f' s. induction f as [|f IH]; intros f' s Hf Hf'; [lia|]. destruct f' as [|f']; [lia|]. simpl.
  rewrite (sep_list_agree or_op (and_selector (or_selector f)) (and_selector (or_selector f')));
    [done|apply or_op_eats|apply and_selector_shrinks, or_selector_shrinks|].
  intros t Ht. apply and_selector_agree; [apply or_selector_shrinks|]. intros u Hu. apply IH; lia.
Qed.

(** ** Properties *)

(** C28: A selector in normal form (operators with at least two members and not nested
    in themselves, paths with at most one deep wildcard and not a lone wildcard, keys
    that print unambiguously) survives printing and parsing, unless its text is one of
    the legacy names: [from_str] reads back exactly what [Display] wrote, with
    parentheses where precedence needs them and quotes around keys that are no
    identifiers. *)
Theorem selector_roundtrip x :
  normal x = true -> match_str (to_string x) legacy_selectors = None ->
  from_str (to_string x) = Ok x.
Proof.
  intros Hn Hl. unfold from_str, root_selector. rewrite Hl.
  destruct (normal_reads_back x Hn) as [Ho _].
  destruct (Ho (String.length (to_string x)) (nesting_length x)) as [Hnb Hr].
  destruct (Hr "" eq_refl) as (p & Hp & Hh). rewrite str_app_nil_r in Hp.
  pose proof (nonblank_skip (to_string x) "" Hnb) as Hs. rewrite str_app_nil_r in Hs.
  by rewrite Hs, Hp.
Qed.

(** A selector that was parsed from text matches a processing state exactly when
    it addresses the visited value: conjunctions, disjunctions and negations are those
    of logic, a path without deep wildcard addresses the innermost positions one by
    one, and a deep wildcard stands for one or more positions, with what precedes it
    anchored at the outermost position that its first item matches.  Nothing is
    addressed in a field that cannot hold PII. *)
Theorem parsed_selector_matches to_lowercase text x s :
  from_str text = Ok x -> wf_state s ->
  matches_selector to_lowercase s x = true <->
  FieldAttrs.pii (ProcessingState.attrs s) <> Pii.False /\ addresses to_lowercase s x.
Proof. intros Hx Hs. apply matches_selector_correct; [done|]. by eapply from_str_single_deep. Qed.

(** Keys that print without quotes because the grammar skips the blanks around them,
    quoted keys that start with a blank and the legacy names do not survive a round trip. *)
Lemma blank_keys_lost :
  from_str (to_string (Path [SelectorPathItem.Key "foo "])) = Ok (Path [SelectorPathItem.Key "foo"]) /\
  from_str (to_string (Path [SelectorPathItem.Key " a/b"])) = Ok (Path [SelectorPathItem.Key "a/b"]) /\
  from_str (to_string (Path [SelectorPathItem.Key ""])) = Err InvalidSelectorError.ParseError /\
  from_str (to_string (Path [SelectorPathItem.Key "email"])) = Ok (SelectorSpec_from ValueType.String_).
Proof. by vm_compute. Qed.

Definition sample_selector : SelectorSpec :=
  And [Or [Path [SelectorPathItem.DeepWildcard];
           Path [SelectorPathItem.Type_ ValueType.Exception; SelectorPathItem.Key "it's"; SelectorPathItem.Wildcard]];
       Not (Not (Path [SelectorPathItem.Key "user_id"; SelectorPathItem.Index 0]))].

Lemma selector_roundtrip_witness : from_str (to_string sample_selector) = Ok sample_selector.
Proof. apply (selector_roundtrip sample_selector); vm_compute; reflexivity. Defined.

Lemma parsed_selector_matches_witness :
  exists x, from_str "$user.**.0 && !bar" = Ok x /\
    FieldAttrs.pii (ProcessingState.attrs zero_state) <> Pii.False /\ addresses to_ascii_lowercase zero_state x.
Proof.
  eexists. split; [vm_compute; reflexivity|].
  apply (parsed_selector_matches to_ascii_lowercase "$user.**.0 && !bar");
    [vm_compute; reflexivity|apply zero_state_wf|vm_compute; reflexivity].
Defined.
