(* ===== verification/Common.v ===== *)
(** * relay-common: shared constants, project keys and time

    [EventType], [DataCategory] and [SpanStatus] (constants.rs), [ProjectKey]
    (project.rs), [UnixTimestamp] and its conversion to the monotonic clock
    (time.rs).  Clock readings are arguments: every function of the sources
    that calls [Instant::now()] or [SystemTime::now()] takes the reading. *)

From Stdlib Require Import Ascii String SpecFloat.
From S2P Require Import Prelude Strings Floats.

Open Scope string_scope.
Open Scope Z_scope.
Open Scope list_scope.

Module EventType.

Inductive EventType :=
| Error | Csp | Hpkp | ExpectCt | ExpectStaple | Transaction | Default.

#[global] Instance EventType_eq_dec : EqDecision EventType.
Proof. solve_decision. Defined.

Inductive ParseEventTypeError := MkParseEventTypeError.

Definition from_str (string : string) : result ParseEventTypeError EventType :=
  ok_or
    (match_str string
       [("default", Default); ("error", Error); ("csp", Csp); ("hpkp", Hpkp);
        ("expectct", ExpectCt); ("expectstaple", ExpectStaple);
        ("transaction", Transaction)])
    MkParseEventTypeError.

Definition to_string (self : EventType) : string :=
  match self with
  | Default => "default"
  | Error => "error"
  | Csp => "csp"
  | Hpkp => "hpkp"
  | ExpectCt => "expectct"
  | ExpectStaple => "expectstaple"
  | Transaction => "transaction"
  end.

End EventType.
Notation EventType := EventType.EventType.

Module DataCategory.

Inductive DataCategory :=
| Default | Error | Transaction | Security | Attachment | Session | Unknown.

#[global] Instance DataCategory_eq_dec : EqDecision DataCategory.
Proof. solve_decision. Defined.

(** The [repr(i8)] discriminants; the derived [Ord] compares them. *)
Definition discriminant (self : DataCategory) : Z :=
  match self with
  | Default => 0
  | Error => 1
  | Transaction => 2
  | Security => 3
  | Attachment => 4
  | Session => 5
  | Unknown => -1
  end.

Definition from_name (string : string) : DataCategory :=
  default Unknown
    (match_str string
       [("default", Default); ("error", Error); ("transaction", Transaction);
        ("security", Security); ("attachment", Attachment); ("session", Session)]).

Definition name (self : DataCategory) : string :=
  match self with
  | Default => "default"
  | Error => "error"
  | Transaction => "transaction"
  | Security => "security"
  | Attachment => "attachment"
  | Session => "session"
  | Unknown => "unknown"
  end.

Definition is_error (self : DataCategory) : bool :=
  match self with Error | Default | Security => true | _ => false end.

(** [(self as i8).try_into::<u8>().ok()]. *)
Definition value (self : DataCategory) : option Z :=
  let d := discriminant self in
  if bool_decide (0 <= d < 2 ^ 8) then Some d else None.

Definition from_event_type (ty : EventType) : DataCategory :=
  match ty with
  | EventType.Default | EventType.Error => Error
  | EventType.Transaction => Transaction
  | EventType.Csp | EventType.Hpkp | EventType.ExpectCt | EventType.ExpectStaple => Security
  end.

(** The derived [Ord]. *)
Definition le (a b : DataCategory) : Prop := discriminant a <= discriminant b.

End DataCategory.
Notation DataCategory := DataCategory.DataCategory.

Module SpanStatus.

Inductive SpanStatus :=
| Ok_ | Cancelled | Unknown | InvalidArgument | DeadlineExceeded | NotFound
| AlreadyExists | PermissionDenied | ResourceExhausted | FailedPrecondition
| Aborted | OutOfRange | Unimplemented | InternalError | Unavailable | DataLoss
| Unauthenticated.

Inductive ParseSpanStatusError := MkParseSpanStatusError.

Definition from_str (string : string) : result ParseSpanStatusError SpanStatus :=
  ok_or
    (match_str string
       [("ok", Ok_); ("success", Ok_);
        ("deadline_exceeded", DeadlineExceeded);
        ("unauthenticated", Unauthenticated);
        ("permission_denied", PermissionDenied);
        ("not_found", NotFound);
        ("resource_exhausted", ResourceExhausted);
        ("invalid_argument", InvalidArgument);
        ("unimplemented", Unimplemented);
        ("unavailable", Unavailable);
        ("internal_error", InternalError); ("failure", InternalError);
        ("unknown", Unknown); ("unknown_error", Unknown);
        ("cancelled", Cancelled);
        ("already_exists", AlreadyExists);
        ("failed_precondition", FailedPrecondition);
        ("aborted", Aborted);
        ("out_of_range", OutOfRange);
        ("data_loss", DataLoss)])
    MkParseSpanStatusError.

Definition to_string (self : SpanStatus) : string :=
  match self with
  | Ok_ => "ok"
  | DeadlineExceeded => "deadline_exceeded"
  | Unauthenticated => "unauthenticated"
  | PermissionDenied => "permission_denied"
  | NotFound => "not_found"
  | ResourceExhausted => "resource_exhausted"
  | InvalidArgument => "invalid_argument"
  | Unimplemented => "unimplemented"
  | Unavailable => "unavailable"
  | InternalError => "internal_error"
  | Unknown => "unknown"
  | Cancelled => "cancelled"
  | AlreadyExists => "already_exists"
  | FailedPrecondition => "failed_precondition"
  | Aborted => "aborted"
  | OutOfRange => "out_of_range"
  | DataLoss => "data_loss"
  end.

End SpanStatus.

(** ** Project keys

    [ProjectId] (crate sentry-types) is a wrapper around a [u64], here [Z]. *)

Notation ProjectId := Z (only parsing).

Module ProjectKey.

(** [[u8; 32]]: the constructor is only reached through [parse]. *)
Record ProjectKey := MkProjectKey { bytes : string }.

#[global] Instance ProjectKey_eq_dec : EqDecision ProjectKey.
Proof. solve_decision. Defined.

Inductive ParseProjectKeyError := MkParseProjectKeyError.

Definition parse (key : string) : result ParseProjectKeyError ProjectKey :=
  if negb (bool_decide (String.length key = 32%nat)) || negb (str_forallb is_ascii key)
  then Err MkParseProjectKeyError
  else Ok (MkProjectKey key).

Definition parse_with_flags (key : string)
  : result ParseProjectKeyError (ProjectKey * list string) :=
  match split_on "." key with
  | [] => Err MkParseProjectKeyError
  | k :: flags => pk ← parse k; Ok (pk, flags)
  end.

Definition as_str (self : ProjectKey) : string := bytes self.

End ProjectKey.
Notation ProjectKey := ProjectKey.ProjectKey.

(** ** Time

    [Instant] (monotonic clock), [SystemTime] (relative to the UNIX epoch) and
    [Duration] are nanosecond counts.  An [Instant] holds its seconds in an
    [i64]; [checked_add] and [checked_sub] return [None] outside of it and the
    operator [+] panics. *)

Notation Instant := Z (only parsing).
Notation SystemTime := Z (only parsing).
Notation Duration := Z (only parsing).

Definition nanos_per_sec : Z := 10 ^ 9.
Definition duration_from_secs (secs : Z) : Duration := secs * nanos_per_sec.
Definition duration_as_secs (d : Duration) : Z := d / nanos_per_sec.
Definition duration_subsec_nanos (d : Duration) : Z := d mod nanos_per_sec.

Definition instant_checked_add (i : Instant) (d : Duration) : option Instant :=
  if bool_decide ((i + d) / nanos_per_sec <= i64_max) then Some (i + d) else None.
Definition instant_checked_sub (i : Instant) (d : Duration) : option Instant :=
  if bool_decide (- 2 ^ 63 <= (i - d) / nanos_per_sec) then Some (i - d) else None.
Definition instant_add (i : Instant) (d : Duration) : outcome Instant :=
  unwrap (instant_checked_add i d).

(** [chrono]: a [DateTime<Utc>] is the nanosecond count since the epoch, and a
    signed duration a nanosecond count.  A date lies between the years -262144
    and 262143, and [+] panics outside; [num_seconds] rounds towards zero and
    [timestamp] down. *)
Notation DateTime := Z (only parsing).
Notation SignedDuration := Z (only parsing).

Definition chrono_min : DateTime := -8334632851200 * nanos_per_sec.
Definition chrono_max : DateTime := 8210298412800 * nanos_per_sec - 1.

Definition datetime_add (t : DateTime) (d : SignedDuration) : outcome DateTime :=
  if bool_decide (chrono_min <= t + d <= chrono_max) then Ret (t + d) else Panic.
Definition datetime_timestamp (t : DateTime) : Z := t / nanos_per_sec.
Definition num_seconds (d : SignedDuration) : Z := Z.quot d nanos_per_sec.

Inductive MonotonicResult := Past | Instant_ (instant : Instant) | Future.

Module UnixTimestamp.

(** [struct UnixTimestamp(u64)]. *)
Definition UnixTimestamp := Z.

Definition from_secs (secs : Z) : UnixTimestamp := secs.
Definition as_secs (self : UnixTimestamp) : Z := self.

(** A time before the epoch has no [duration_since]: it becomes 0. *)
Definition from_system (time : SystemTime) : UnixTimestamp :=
  if bool_decide (0 <= time) then duration_as_secs time else 0.

(** [timestamp] is the [DateTime]'s [timestamp()], an [i64]. *)
Definition from_datetime (timestamp : Z) : option UnixTimestamp :=
  if bool_decide (0 <= timestamp) then Some (from_secs timestamp) else None.

Definition sub (self rhs : UnixTimestamp) : Duration :=
  duration_from_secs (u64_sub self rhs).

(** [instant_to_system_time]: the elapsed time of an instant in the future is
    zero. *)
Definition instant_to_system_time (sys_now : SystemTime) (inst_now instant : Instant) : SystemTime :=
  sys_now - Z.max 0 (inst_now - instant).

Definition from_instant (sys_now : SystemTime) (inst_now instant : Instant) : UnixTimestamp :=
  from_system (instant_to_system_time sys_now inst_now instant).

Definition to_instant (sys_now : SystemTime) (inst_now : Instant) (self : UnixTimestamp)
  : MonotonicResult :=
  let now := from_system sys_now in
  if bool_decide (now < self) then
    match instant_checked_add inst_now (sub self now) with
    | Some instant => Instant_ instant
    | None => Future
    end
  else
    match instant_checked_sub inst_now (sub now self) with
    | Some instant => Instant_ instant
    | None => Past
    end.

Inductive ParseUnixTimestampError := MkParseUnixTimestampError.

Definition from_str (s : string) : result ParseUnixTimestampError UnixTimestamp :=
  ok_or (parse_u64 s) MkParseUnixTimestampError.

(** [Display]. *)
Definition to_string (self : UnixTimestamp) : string := u64_to_string (as_secs self).

(** The numeric arms of [UnixTimestampVisitor]. *)
Inductive TimestampError := OutOfRange.

Definition visit_u64 (v : Z) : result TimestampError UnixTimestamp := Ok (from_secs v).

Definition visit_f64 (v : f64) : result TimestampError UnixTimestamp :=
  if f64_ltb v f64_zero || f64_ltb (f64_of_Z u64_max) v
  then Err OutOfRange
  else Ok (from_secs (trunc_as_u64 v)).

End UnixTimestamp.
Notation UnixTimestamp := UnixTimestamp.UnixTimestamp.

(** ** Lemmas *)

Lemma category_from_name_name c : DataCategory.from_name (DataCategory.name c) = c.
Proof. by destruct c. Qed.

Lemma category_name_graphic c :
  str_forallb is_ascii_lowercase (DataCategory.name c) = true.
Proof. by destruct c. Qed.

#[global] Instance category_le_dec : RelDecision DataCategory.le.
Proof. intros a b. unfold DataCategory.le. apply _. Defined.
#[global] Instance category_le_total : Total DataCategory.le.
Proof. intros a b. unfold DataCategory.le. lia. Qed.
#[global] Instance category_le_trans : Transitive DataCategory.le.
Proof. intros a b c. unfold DataCategory.le. lia. Qed.
#[global] Instance category_le_antisym : AntiSymm eq DataCategory.le.
Proof. intros a b. unfold DataCategory.le. destruct a, b; simpl; lia || done. Qed.

Lemma event_type_roundtrip t : EventType.from_str (EventType.to_string t) = Ok t.
Proof. by destruct t. Qed.

Lemma span_status_roundtrip s : SpanStatus.from_str (SpanStatus.to_string s) = Ok s.
Proof. by destruct s. Qed.

Lemma from_system_nonneg t : 0 <= UnixTimestamp.from_system t.
Proof.
  unfold UnixTimestamp.from_system, duration_as_secs, nanos_per_sec.
  case_bool_decide; [apply Z.div_pos; lia|lia].
Qed.

#[export] Hint Resolve category_from_name_name from_system_nonneg : relay.
