(* ===== verification/Protocol.v ===== *)
(** * relay-general: the event protocol (protocol/)

    The structures of an event that the other components read or write.  Fields
    that no modelled operation looks into are kept together, in their serialized
    form, in the field [other] of their structure.  Sessions are in Sessions.v. *)

From Stdlib Require Import Ascii String.
From S2P Require Import Prelude Strings Floats Types Common.

Open Scope string_scope.
Open Scope Z_scope.
Open Scope list_scope.

Notation IpAddr := string (only parsing).
Notation Uuid := Z (only parsing).
Notation EventId := Uuid (only parsing).

(** [struct Timestamp(DateTime<Utc>)]. *)
Notation Timestamp := DateTime (only parsing).

(** [Object<T>]: a B-tree map from keys to annotated values. *)
Notation Object T := (gmap string (Annotated T)) (only parsing).

(** ** Structures *)

(** [PairList<T>] of pairs of annotated values: an array that is used as a map. *)
Notation PairList K V := (list (Annotated (Annotated K * Annotated V))) (only parsing).

Module Level.

Inductive Level := Debug | Info | Warning | Error | Fatal.

#[global] Instance Level_eq_dec : EqDecision Level.
Proof. solve_decision. Defined.

End Level.
Notation Level := Level.Level.

Module Geo.

Record Geo := MkGeo {
  country_code : Annotated string;
  city : Annotated string;
  region : Annotated string;
  other : gmap string (Annotated Value);
}.

End Geo.
Notation Geo := Geo.Geo.

Record User := MkUser {
  user_id : Annotated string;
  email : Annotated string;
  ip_address : Annotated IpAddr;
  username : Annotated string;
  user_name : Annotated string;
  geo : Annotated Geo;
  segment : Annotated string;
  user_data : Annotated (Object Value);
  user_other : gmap string (Annotated Value);
}.

Record LogEntry := MkLogEntry {
  message : Annotated string;
  formatted : Annotated string;
  params : Annotated Value;
  logentry_other : gmap string (Annotated Value);
}.

Record Request := MkRequest {
  url : Annotated string;
  method : Annotated string;
  data : Annotated Value;
  query_string : Annotated (PairList string string);
  fragment : Annotated string;
  cookies : Annotated (PairList string string);
  headers : Annotated (PairList string string);
  env : Annotated (Object Value);
  inferred_content_type : Annotated string;
  request_other : gmap string (Annotated Value);
}.

Record Frame := MkFrame {
  function : Annotated string;
  symbol : Annotated string;
  filename : Annotated string;
  abs_path : Annotated string;
  pre_context : Annotated (list (Annotated string));
  context_line : Annotated string;
  post_context : Annotated (list (Annotated string));
  frame_other : gmap string (Annotated Value);
}.

(** [RawStacktrace], and [Stacktrace] that wraps it. *)
Record Stacktrace := MkStacktrace {
  frames : Annotated (list (Annotated Frame));
  stacktrace_other : gmap string (Annotated Value);
}.

Module CError.

Record CError := MkCError { number : Annotated Z; name : Annotated string }.

End CError.
Notation CError := CError.CError.

Module MachException.

Record MachException := MkMachException {
  ty : Annotated Z;
  code : Annotated Z;
  subcode : Annotated Z;
  name : Annotated string;
}.

End MachException.
Notation MachException := MachException.MachException.

Module NsError.

Record NsError := MkNsError { code : Annotated Z; domain : Annotated string }.

End NsError.
Notation NsError := NsError.NsError.

Module PosixSignal.

Record PosixSignal := MkPosixSignal {
  number : Annotated Z;
  code : Annotated Z;
  name : Annotated string;
  code_name : Annotated string;
}.

End PosixSignal.
Notation PosixSignal := PosixSignal.PosixSignal.

Module MechanismMeta.

Record MechanismMeta := MkMechanismMeta {
  errno : Annotated CError;
  signal : Annotated PosixSignal;
  mach_exception : Annotated MachException;
  ns_error : Annotated NsError;
  other : gmap string (Annotated Value);
}.

End MechanismMeta.
Notation MechanismMeta := MechanismMeta.MechanismMeta.

Module Mechanism.

Record Mechanism := MkMechanism {
  ty : Annotated string;
  synthetic : Annotated bool;
  description : Annotated string;
  help_link : Annotated string;
  handled : Annotated bool;
  data : Annotated (Object Value);
  meta : Annotated MechanismMeta;
  other : gmap string (Annotated Value);
}.

End Mechanism.
Notation Mechanism := Mechanism.Mechanism.

Record Exception := MkException {
  exc_ty : Annotated string;
  exc_value : Annotated string;
  stacktrace : Annotated Stacktrace;
  raw_stacktrace : Annotated Stacktrace;
  mechanism : Annotated Mechanism;
  exc_other : gmap string (Annotated Value);
}.

Module Thread.

Record Thread := MkThread {
  stacktrace : Annotated Stacktrace;
  raw_stacktrace : Annotated Stacktrace;
  other : gmap string (Annotated Value);
}.

End Thread.
Notation Thread := Thread.Thread.

Record Values (T : Type) := MkValues {
  values : Annotated (list (Annotated T));
  values_other : gmap string (Annotated Value);
}.
Arguments MkValues {T} values values_other.
Arguments values {T} _.
Arguments values_other {T} _.

(** *** Security reports *)

Module Csp.

Record Csp := MkCsp {
  effective_directive : Annotated string;
  blocked_uri : Annotated string;
  document_uri : Annotated string;
  original_policy : Annotated string;
  referrer : Annotated string;
  status_code : Annotated Z;
  violated_directive : Annotated string;
  source_file : Annotated string;
  line_number : Annotated Z;
  column_number : Annotated Z;
  script_sample : Annotated string;
  disposition : Annotated string;
  other : gmap string (Annotated Value);
}.

End Csp.
Notation Csp := Csp.Csp.

Module SingleCertificateTimestamp.

Record SingleCertificateTimestamp := MkSingleCertificateTimestamp {
  version : Annotated Z;
  status : Annotated string;
  source : Annotated string;
  serialized_sct : Annotated string;
}.

End SingleCertificateTimestamp.
Notation SingleCertificateTimestamp := SingleCertificateTimestamp.SingleCertificateTimestamp.

Module ExpectCt.

Record ExpectCt := MkExpectCt {
  date_time : Annotated string;
  hostname : Annotated string;
  port : Annotated Z;
  scheme : Annotated string;
  effective_expiration_date : Annotated string;
  served_certificate_chain : Annotated (list (Annotated string));
  validated_certificate_chain : Annotated (list (Annotated string));
  scts : Annotated (list (Annotated SingleCertificateTimestamp));
  failure_mode : Annotated string;
  test_report : Annotated bool;
}.

End ExpectCt.
Notation ExpectCt := ExpectCt.ExpectCt.

Module Hpkp.

Record Hpkp := MkHpkp {
  date_time : Annotated string;
  hostname : Annotated string;
  port : Annotated Z;
  effective_expiration_date : Annotated string;
  include_subdomains : Annotated bool;
  noted_hostname : Annotated string;
  served_certificate_chain : Annotated (list (Annotated string));
  validated_certificate_chain : Annotated (list (Annotated string));
  known_pins : Annotated (list (Annotated string));
  other : gmap string (Annotated Value);
}.

End Hpkp.
Notation Hpkp := Hpkp.Hpkp.

Module ExpectStaple.

Record ExpectStaple := MkExpectStaple {
  date_time : Annotated string;
  hostname : Annotated string;
  port : Annotated Z;
  effective_expiration_date : Annotated string;
  response_status : Annotated string;
  cert_status : Annotated string;
  served_certificate_chain : Annotated (list (Annotated string));
  validated_certificate_chain : Annotated (list (Annotated string));
  ocsp_response : Annotated Value;
}.

End ExpectStaple.
Notation ExpectStaple := ExpectStaple.ExpectStaple.

Module TemplateInfo.

Record TemplateInfo := MkTemplateInfo {
  filename : Annotated string;
  abs_path : Annotated string;
  lineno : Annotated Z;
  colno : Annotated Z;
  pre_context : Annotated (list (Annotated string));
  context_line : Annotated string;
  post_context : Annotated (list (Annotated string));
  other : gmap string (Annotated Value);
}.

End TemplateInfo.
Notation TemplateInfo := TemplateInfo.TemplateInfo.

Module Breadcrumb.

Record Breadcrumb := MkBreadcrumb {
  timestamp : Annotated Timestamp;
  ty : Annotated string;
  category : Annotated string;
  level : Annotated Level;
  message : Annotated string;
  data : Annotated (gmap string (Annotated Value));
  event_id : Annotated EventId;
  other : gmap string (Annotated Value);
}.

End Breadcrumb.
Notation Breadcrumb := Breadcrumb.Breadcrumb.

Module AppleDebugImage.

Record AppleDebugImage := MkAppleDebugImage {
  name : Annotated string;
  arch : Annotated string;
  cpu_type : Annotated Z;
  cpu_subtype : Annotated Z;
  image_addr : Annotated Z;
  image_size : Annotated Z;
  image_vmaddr : Annotated Z;
  uuid : Annotated string;
  other : gmap string (Annotated Value);
}.

End AppleDebugImage.
Notation AppleDebugImage := AppleDebugImage.AppleDebugImage.

(** Identifiers are kept as their text. *)
Module NativeDebugImage.

Record NativeDebugImage := MkNativeDebugImage {
  code_id : Annotated string;
  code_file : Annotated string;
  debug_id : Annotated string;
  debug_file : Annotated string;
  arch : Annotated string;
  image_addr : Annotated Z;
  image_size : Annotated Z;
  image_vmaddr : Annotated Z;
  other : gmap string (Annotated Value);
}.

End NativeDebugImage.
Notation NativeDebugImage := NativeDebugImage.NativeDebugImage.

Module ProguardDebugImage.

Record ProguardDebugImage := MkProguardDebugImage {
  uuid : Annotated string;
  other : gmap string (Annotated Value);
}.

End ProguardDebugImage.
Notation ProguardDebugImage := ProguardDebugImage.ProguardDebugImage.

Module DebugImage.

Inductive DebugImage :=
| Apple (image : AppleDebugImage)
| Symbolic (image : NativeDebugImage)
| MachO (image : NativeDebugImage)
| Elf (image : NativeDebugImage)
| Pe (image : NativeDebugImage)
| Proguard (image : ProguardDebugImage)
| Wasm (image : NativeDebugImage)
| Other (fields : gmap string (Annotated Value)).

End DebugImage.
Notation DebugImage := DebugImage.DebugImage.

Module SystemSdkInfo.

Record SystemSdkInfo := MkSystemSdkInfo {
  sdk_name : Annotated string;
  other : gmap string (Annotated Value);
}.

End SystemSdkInfo.
Notation SystemSdkInfo := SystemSdkInfo.SystemSdkInfo.

Module DebugMeta.

Record DebugMeta := MkDebugMeta {
  system_sdk : Annotated SystemSdkInfo;
  images : Annotated (list (Annotated DebugImage));
  other : gmap string (Annotated Value);
}.

End DebugMeta.
Notation DebugMeta := DebugMeta.DebugMeta.

Module ClientSdkInfo.

Record ClientSdkInfo := MkClientSdkInfo {
  name : Annotated string;
  version : Annotated string;
  other : gmap string (Annotated Value);
}.

End ClientSdkInfo.
Notation ClientSdkInfo := ClientSdkInfo.ClientSdkInfo.

Module EventProcessingError.

Record EventProcessingError := MkEventProcessingError {
  ty : Annotated string;
  name : Annotated string;
  value : Annotated Value;
  other : gmap string (Annotated Value);
}.

End EventProcessingError.
Notation EventProcessingError := EventProcessingError.EventProcessingError.

Module Span.

Record Span := MkSpan {
  timestamp : Annotated Timestamp;
  start_timestamp : Annotated Timestamp;
  op : Annotated string;
  span_id : Annotated string;
  trace_id : Annotated string;
  other : gmap string (Annotated Value);
}.

End Span.
Notation Span := Span.Span.

Module TraceContext.

Record TraceContext := MkTraceContext {
  trace_id : Annotated string;
  span_id : Annotated string;
  op : Annotated string;
  status : Annotated SpanStatus.SpanStatus;
  other : gmap string (Annotated Value);
}.

End TraceContext.

Module OsContext.

Record OsContext := MkOsContext {
  name : Annotated string;
  version : Annotated string;
  build : Annotated string;
  kernel_version : Annotated string;
  raw_description : Annotated string;
  other : gmap string (Annotated Value);
}.

End OsContext.
Notation OsContext := OsContext.OsContext.

Module RuntimeContext.

Record RuntimeContext := MkRuntimeContext {
  name : Annotated string;
  version : Annotated string;
  build : Annotated string;
  raw_description : Annotated string;
  other : gmap string (Annotated Value);
}.

End RuntimeContext.
Notation RuntimeContext := RuntimeContext.RuntimeContext.

Module BrowserContext.

Record BrowserContext := MkBrowserContext {
  name : Annotated string;
  version : Annotated string;
  other : gmap string (Annotated Value);
}.

End BrowserContext.
Notation BrowserContext := BrowserContext.BrowserContext.

Module DeviceContext.

Record DeviceContext := MkDeviceContext {
  family : Annotated string;
  model : Annotated string;
  brand : Annotated string;
  memory_size : Annotated Z;
  other : gmap string (Annotated Value);
}.

End DeviceContext.
Notation DeviceContext := DeviceContext.DeviceContext.

Module GpuContext.

Record GpuContext := MkGpuContext { name : Annotated string; other : gmap string (Annotated Value) }.

End GpuContext.
Notation GpuContext := GpuContext.GpuContext.

(** [ContextInner(Context)]. *)
Module Context.

Inductive Context :=
| Device (device : DeviceContext)
| Os (os : OsContext)
| Runtime (runtime : RuntimeContext)
| App (fields : gmap string (Annotated Value))
| Browser (browser : BrowserContext)
| Gpu (gpu : GpuContext)
| Trace (trace : TraceContext.TraceContext)
| Monitor (fields : gmap string (Annotated Value))
| Reprocessing (fields : gmap string (Annotated Value))
| Other (fields : gmap string (Annotated Value)).

End Context.
Notation Context := Context.Context.

Record Measurement := MkMeasurement { measurement_value : Annotated f64 }.

Module SampleRate.

Record SampleRate := MkSampleRate { id : Annotated string; rate : Annotated f64 }.

End SampleRate.
Notation SampleRate := SampleRate.SampleRate.

Module Metrics.

(** The metrics that Relay collects; those of the stored event are Sentry's. *)
Record Metrics := MkMetrics {
  bytes_ingested_event : Annotated Z;
  bytes_ingested_event_minidump : Annotated Z;
  bytes_ingested_event_applecrashreport : Annotated Z;
  bytes_ingested_event_attachment : Annotated Z;
  sample_rates : Annotated (list (Annotated SampleRate));
}.

Definition default_ : Metrics :=
  MkMetrics Annotated.empty Annotated.empty Annotated.empty Annotated.empty Annotated.empty.

End Metrics.
Notation Metrics := Metrics.Metrics.

(** ** The event *)

Record Event := MkEvent {
  event_id : Annotated EventId;
  event_level : Annotated Level;
  event_version : Annotated string;
  event_ty : Annotated EventType;
  event_fingerprint : Annotated (list string);
  event_culprit : Annotated string;
  transaction : Annotated string;
  time_spent : Annotated Z;
  logentry : Annotated LogEntry;
  logger : Annotated string;
  event_modules : Annotated (Object string);
  platform : Annotated string;
  timestamp : Annotated Timestamp;
  start_timestamp : Annotated Timestamp;
  received : Annotated Timestamp;
  server_name : Annotated string;
  release : Annotated string;
  dist : Annotated string;
  environment : Annotated string;
  site : Annotated string;
  user : Annotated User;
  request : Annotated Request;
  contexts : Annotated (Object Context);
  breadcrumbs : Annotated (Values Breadcrumb);
  exceptions : Annotated (Values Exception);
  event_stacktrace : Annotated Stacktrace;
  event_template : Annotated TemplateInfo;
  threads : Annotated (Values Thread);
  tags : Annotated (PairList string string);
  extra : Annotated (Object Value);
  debug_meta : Annotated DebugMeta;
  client_sdk : Annotated ClientSdkInfo;
  event_errors : Annotated (list (Annotated EventProcessingError));
  event_key_id : Annotated string;
  event_project : Annotated Z;
  grouping_config : Annotated (Object Value);
  event_checksum : Annotated string;
  csp : Annotated Csp;
  hpkp : Annotated Hpkp;
  expectct : Annotated ExpectCt;
  expectstaple : Annotated ExpectStaple;
  spans : Annotated (list (Annotated Span));
  measurements : Annotated (Object Measurement);
  breakdowns : Annotated (Object (Object Measurement));
  metrics : Annotated Metrics;
  event_other : gmap string (Annotated Value);
}.

(** [Event::default]: an event with nothing set. *)
Definition empty_event : Event := {|
  event_id := Annotated.empty; event_level := Annotated.empty; event_version := Annotated.empty;
  event_ty := Annotated.empty; event_fingerprint := Annotated.empty; event_culprit := Annotated.empty;
  transaction := Annotated.empty; time_spent := Annotated.empty; logentry := Annotated.empty;
  logger := Annotated.empty; event_modules := Annotated.empty; platform := Annotated.empty;
  timestamp := Annotated.empty; start_timestamp := Annotated.empty; received := Annotated.empty;
  server_name := Annotated.empty; release := Annotated.empty; dist := Annotated.empty;
  environment := Annotated.empty; site := Annotated.empty; user := Annotated.empty;
  request := Annotated.empty; contexts := Annotated.empty; breadcrumbs := Annotated.empty;
  exceptions := Annotated.empty; event_stacktrace := Annotated.empty; event_template := Annotated.empty;
  threads := Annotated.empty; tags := Annotated.empty; extra := Annotated.empty;
  debug_meta := Annotated.empty; client_sdk := Annotated.empty; event_errors := Annotated.empty;
  event_key_id := Annotated.empty; event_project := Annotated.empty; grouping_config := Annotated.empty;
  event_checksum := Annotated.empty; csp := Annotated.empty; hpkp := Annotated.empty;
  expectct := Annotated.empty; expectstaple := Annotated.empty; spans := Annotated.empty;
  measurements := Annotated.empty; breakdowns := Annotated.empty; metrics := Annotated.empty;
  event_other := ∅ |}.

(** Assignments to the fields of an event. *)
Definition set_event_id (e : Event) (v : Annotated EventId) : Event :=
  MkEvent v (event_level e) (event_version e) (event_ty e) (event_fingerprint e) (event_culprit e)
    (transaction e) (time_spent e) (logentry e) (logger e) (event_modules e) (platform e) (timestamp e)
    (start_timestamp e) (received e) (server_name e) (release e) (dist e) (environment e) (site e) (user e)
    (request e) (contexts e) (breadcrumbs e) (exceptions e) (event_stacktrace e) (event_template e)
    (threads e) (tags e) (extra e) (debug_meta e) (client_sdk e) (event_errors e) (event_key_id e)
    (event_project e) (grouping_config e) (event_checksum e) (csp e) (hpkp e) (expectct e) (expectstaple e)
    (spans e) (measurements e) (breakdowns e) (metrics e) (event_other e).
Definition set_event_level (e : Event) (v : Annotated Level) : Event :=
  MkEvent (event_id e) v (event_version e) (event_ty e) (event_fingerprint e) (event_culprit e)
    (transaction e) (time_spent e) (logentry e) (logger e) (event_modules e) (platform e) (timestamp e)
    (start_timestamp e) (received e) (server_name e) (release e) (dist e) (environment e) (site e) (user e)
    (request e) (contexts e) (breadcrumbs e) (exceptions e) (event_stacktrace e) (event_template e)
    (threads e) (tags e) (extra e) (debug_meta e) (client_sdk e) (event_errors e) (event_key_id e)
    (event_project e) (grouping_config e) (event_checksum e) (csp e) (hpkp e) (expectct e) (expectstaple e)
    (spans e) (measurements e) (breakdowns e) (metrics e) (event_other e).
Definition set_event_version (e : Event) (v : Annotated string) : Event :=
  MkEvent (event_id e) (event_level e) v (event_ty e) (event_fingerprint e) (event_culprit e)
    (transaction e) (time_spent e) (logentry e) (logger e) (event_modules e) (platform e) (timestamp e)
    (start_timestamp e) (received e) (server_name e) (release e) (dist e) (environment e) (site e) (user e)
    (request e) (contexts e) (breadcrumbs e) (exceptions e) (event_stacktrace e) (event_template e)
    (threads e) (tags e) (extra e) (debug_meta e) (client_sdk e) (event_errors e) (event_key_id e)
    (event_project e) (grouping_config e) (event_checksum e) (csp e) (hpkp e) (expectct e) (expectstaple e)
    (spans e) (measurements e) (breakdowns e) (metrics e) (event_other e).
Definition set_event_ty (e : Event) (v : Annotated EventType) : Event :=
  MkEvent (event_id e) (event_level e) (event_version e) v (event_fingerprint e) (event_culprit e)
    (transaction e) (time_spent e) (logentry e) (logger e) (event_modules e) (platform e) (timestamp e)
    (start_timestamp e) (received e) (server_name e) (release e) (dist e) (environment e) (site e) (user e)
    (request e) (contexts e) (breadcrumbs e) (exceptions e) (event_stacktrace e) (event_template e)
    (threads e) (tags e) (extra e) (debug_meta e) (client_sdk e) (event_errors e) (event_key_id e)
    (event_project e) (grouping_config e) (event_checksum e) (csp e) (hpkp e) (expectct e) (expectstaple e)
    (spans e) (measurements e) (breakdowns e) (metrics e) (event_other e).
Definition set_event_fingerprint (e : Event) (v : Annotated (list string)) : Event :=
  MkEvent (event_id e) (event_level e) (event_version e) (event_ty e) v (event_culprit e) (transaction e)
    (time_spent e) (logentry e) (logger e) (event_modules e) (platform e) (timestamp e) (start_timestamp e)
    (received e) (server_name e) (release e) (dist e) (environment e) (site e) (user e) (request e)
    (contexts e) (breadcrumbs e) (exceptions e) (event_stacktrace e) (event_template e) (threads e) (tags e)
    (extra e) (debug_meta e) (client_sdk e) (event_errors e) (event_key_id e) (event_project e)
    (grouping_config e) (event_checksum e) (csp e) (hpkp e) (expectct e) (expectstaple e) (spans e)
    (measurements e) (breakdowns e) (metrics e) (event_other e).
Definition set_event_culprit (e : Event) (v : Annotated string) : Event :=
  MkEvent (event_id e) (event_level e) (event_version e) (event_ty e) (event_fingerprint e) v
    (transaction e) (time_spent e) (logentry e) (logger e) (event_modules e) (platform e) (timestamp e)
    (start_timestamp e) (received e) (server_name e) (release e) (dist e) (environment e) (site e) (user e)
    (request e) (contexts e) (breadcrumbs e) (exceptions e) (event_stacktrace e) (event_template e)
    (threads e) (tags e) (extra e) (debug_meta e) (client_sdk e) (event_errors e) (event_key_id e)
    (event_project e) (grouping_config e) (event_checksum e) (csp e) (hpkp e) (expectct e) (expectstaple e)
    (spans e) (measurements e) (breakdowns e) (metrics e) (event_other e).
Definition set_transaction (e : Event) (v : Annotated string) : Event :=
  MkEvent (event_id e) (event_level e) (event_version e) (event_ty e) (event_fingerprint e)
    (event_culprit e) v (time_spent e) (logentry e) (logger e) (event_modules e) (platform e) (timestamp e)
    (start_timestamp e) (received e) (server_name e) (release e) (dist e) (environment e) (site e) (user e)
    (request e) (contexts e) (breadcrumbs e) (exceptions e) (event_stacktrace e) (event_template e)
    (threads e) (tags e) (extra e) (debug_meta e) (client_sdk e) (event_errors e) (event_key_id e)
    (event_project e) (grouping_config e) (event_checksum e) (csp e) (hpkp e) (expectct e) (expectstaple e)
    (spans e) (measurements e) (breakdowns e) (metrics e) (event_other e).
Definition set_time_spent (e : Event) (v : Annotated Z) : Event :=
  MkEvent (event_id e) (event_level e) (event_version e) (event_ty e) (event_fingerprint e)
    (event_culprit e) (transaction e) v (logentry e) (logger e) (event_modules e) (platform e) (timestamp e)
    (start_timestamp e) (received e) (server_name e) (release e) (dist e) (environment e) (site e) (user e)
    (request e) (contexts e) (breadcrumbs e) (exceptions e) (event_stacktrace e) (event_template e)
    (threads e) (tags e) (extra e) (debug_meta e) (client_sdk e) (event_errors e) (event_key_id e)
    (event_project e) (grouping_config e) (event_checksum e) (csp e) (hpkp e) (expectct e) (expectstaple e)
    (spans e) (measurements e) (breakdowns e) (metrics e) (event_other e).
Definition set_logentry (e : Event) (v : Annotated LogEntry) : Event :=
  MkEvent (event_id e) (event_level e) (event_version e) (event_ty e) (event_fingerprint e)
    (event_culprit e) (transaction e) (time_spent e) v (logger e) (event_modules e) (platform e)
    (timestamp e) (start_timestamp e) (received e) (server_name e) (release e) (dist e) (environment e)
    (site e) (user e) (request e) (contexts e) (breadcrumbs e) (exceptions e) (event_stacktrace e)
    (event_template e) (threads e) (tags e) (extra e) (debug_meta e) (client_sdk e) (event_errors e)
    (event_key_id e) (event_project e) (grouping_config e) (event_checksum e) (csp e) (hpkp e) (expectct e)
    (expectstaple e) (spans e) (measurements e) (breakdowns e) (metrics e) (event_other e).
Definition set_logger (e : Event) (v : Annotated string) : Event :=
  MkEvent (event_id e) (event_level e) (event_version e) (event_ty e) (event_fingerprint e)
    (event_culprit e) (transaction e) (time_spent e) (logentry e) v (event_modules e) (platform e)
    (timestamp e) (start_timestamp e) (received e) (server_name e) (release e) (dist e) (environment e)
    (site e) (user e) (request e) (contexts e) (breadcrumbs e) (exceptions e) (event_stacktrace e)
    (event_template e) (threads e) (tags e) (extra e) (debug_meta e) (client_sdk e) (event_errors e)
    (event_key_id e) (event_project e) (grouping_config e) (event_checksum e) (csp e) (hpkp e) (expectct e)
    (expectstaple e) (spans e) (measurements e) (breakdowns e) (metrics e) (event_other e).
Definition set_event_modules (e : Event) (v : Annotated (Object string)) : Event :=
  MkEvent (event_id e) (event_level e) (event_version e) (event_ty e) (event_fingerprint e)
    (event_culprit e) (transaction e) (time_spent e) (logentry e) (logger e) v (platform e) (timestamp e)
    (start_timestamp e) (received e) (server_name e) (release e) (dist e) (environment e) (site e) (user e)
    (request e) (contexts e) (breadcrumbs e) (exceptions e) (event_stacktrace e) (event_template e)
    (threads e) (tags e) (extra e) (debug_meta e) (client_sdk e) (event_errors e) (event_key_id e)
    (event_project e) (grouping_config e) (event_checksum e) (csp e) (hpkp e) (expectct e) (expectstaple e)
    (spans e) (measurements e) (breakdowns e) (metrics e) (event_other e).
Definition set_platform (e : Event) (v : Annotated string) : Event :=
  MkEvent (event_id e) (event_level e) (event_version e) (event_ty e) (event_fingerprint e)
    (event_culprit e) (transaction e) (time_spent e) (logentry e) (logger e) (event_modules e) v
    (timestamp e) (start_timestamp e) (received e) (server_name e) (release e) (dist e) (environment e)
    (site e) (user e) (request e) (contexts e) (breadcrumbs e) (exceptions e) (event_stacktrace e)
    (event_template e) (threads e) (tags e) (extra e) (debug_meta e) (client_sdk e) (event_errors e)
    (event_key_id e) (event_project e) (grouping_config e) (event_checksum e) (csp e) (hpkp e) (expectct e)
    (expectstaple e) (spans e) (measurements e) (breakdowns e) (metrics e) (event_other e).
Definition set_timestamp (e : Event) (v : Annotated Timestamp) : Event :=
  MkEvent (event_id e) (event_level e) (event_version e) (event_ty e) (event_fingerprint e)
    (event_culprit e) (transaction e) (time_spent e) (logentry e) (logger e) (event_modules e) (platform e)
    v (start_timestamp e) (received e) (server_name e) (release e) (dist e) (environment e) (site e)
    (user e) (request e) (contexts e) (breadcrumbs e) (exceptions e) (event_stacktrace e) (event_template e)
    (threads e) (tags e) (extra e) (debug_meta e) (client_sdk e) (event_errors e) (event_key_id e)
    (event_project e) (grouping_config e) (event_checksum e) (csp e) (hpkp e) (expectct e) (expectstaple e)
    (spans e) (measurements e) (breakdowns e) (metrics e) (event_other e).
Definition set_start_timestamp (e : Event) (v : Annotated Timestamp) : Event :=
  MkEvent (event_id e) (event_level e) (event_version e) (event_ty e) (event_fingerprint e)
    (event_culprit e) (transaction e) (time_spent e) (logentry e) (logger e) (event_modules e) (platform e)
    (timestamp e) v (received e) (server_name e) (release e) (dist e) (environment e) (site e) (user e)
    (request e) (contexts e) (breadcrumbs e) (exceptions e) (event_stacktrace e) (event_template e)
    (threads e) (tags e) (extra e) (debug_meta e) (client_sdk e) (event_errors e) (event_key_id e)
    (event_project e) (grouping_config e) (event_checksum e) (csp e) (hpkp e) (expectct e) (expectstaple e)
    (spans e) (measurements e) (breakdowns e) (metrics e) (event_other e).
Definition set_received (e : Event) (v : Annotated Timestamp) : Event :=
  MkEvent (event_id e) (event_level e) (event_version e) (event_ty e) (event_fingerprint e)
    (event_culprit e) (transaction e) (time_spent e) (logentry e) (logger e) (event_modules e) (platform e)
    (timestamp e) (start_timestamp e) v (server_name e) (release e) (dist e) (environment e) (site e)
    (user e) (request e) (contexts e) (breadcrumbs e) (exceptions e) (event_stacktrace e) (event_template e)
    (threads e) (tags e) (extra e) (debug_meta e) (client_sdk e) (event_errors e) (event_key_id e)
    (event_project e) (grouping_config e) (event_checksum e) (csp e) (hpkp e) (expectct e) (expectstaple e)
    (spans e) (measurements e) (breakdowns e) (metrics e) (event_other e).
Definition set_server_name (e : Event) (v : Annotated string) : Event :=
  MkEvent (event_id e) (event_level e) (event_version e) (event_ty e) (event_fingerprint e)
    (event_culprit e) (transaction e) (time_spent e) (logentry e) (logger e) (event_modules e) (platform e)
    (timestamp e) (start_timestamp e) (received e) v (release e) (dist e) (environment e) (site e) (user e)
    (request e) (contexts e) (breadcrumbs e) (exceptions e) (event_stacktrace e) (event_template e)
    (threads e) (tags e) (extra e) (debug_meta e) (client_sdk e) (event_errors e) (event_key_id e)
    (event_project e) (grouping_config e) (event_checksum e) (csp e) (hpkp e) (expectct e) (expectstaple e)
    (spans e) (measurements e) (breakdowns e) (metrics e) (event_other e).
Definition set_release (e : Event) (v : Annotated string) : Event :=
  MkEvent (event_id e) (event_level e) (event_version e) (event_ty e) (event_fingerprint e)
    (event_culprit e) (transaction e) (time_spent e) (logentry e) (logger e) (event_modules e) (platform e)
    (timestamp e) (start_timestamp e) (received e) (server_name e) v (dist e) (environment e) (site e)
    (user e) (request e) (contexts e) (breadcrumbs e) (exceptions e) (event_stacktrace e) (event_template e)
    (threads e) (tags e) (extra e) (debug_meta e) (client_sdk e) (event_errors e) (event_key_id e)
    (event_project e) (grouping_config e) (event_checksum e) (csp e) (hpkp e) (expectct e) (expectstaple e)
    (spans e) (measurements e) (breakdowns e) (metrics e) (event_other e).
Definition set_dist (e : Event) (v : Annotated string) : Event :=
  MkEvent (event_id e) (event_level e) (event_version e) (event_ty e) (event_fingerprint e)
    (event_culprit e) (transaction e) (time_spent e) (logentry e) (logger e) (event_modules e) (platform e)
    (timestamp e) (start_timestamp e) (received e) (server_name e) (release e) v (environment e) (site e)
    (user e) (request e) (contexts e) (breadcrumbs e) (exceptions e) (event_stacktrace e) (event_template e)
    (threads e) (tags e) (extra e) (debug_meta e) (client_sdk e) (event_errors e) (event_key_id e)
    (event_project e) (grouping_config e) (event_checksum e) (csp e) (hpkp e) (expectct e) (expectstaple e)
    (spans e) (measurements e) (breakdowns e) (metrics e) (event_other e).
Definition set_environment (e : Event) (v : Annotated string) : Event :=
  MkEvent (event_id e) (event_level e) (event_version e) (event_ty e) (event_fingerprint e)
    (event_culprit e) (transaction e) (time_spent e) (logentry e) (logger e) (event_modules e) (platform e)
    (timestamp e) (start_timestamp e) (received e) (server_name e) (release e) (dist e) v (site e) (user e)
    (request e) (contexts e) (breadcrumbs e) (exceptions e) (event_stacktrace e) (event_template e)
    (threads e) (tags e) (extra e) (debug_meta e) (client_sdk e) (event_errors e) (event_key_id e)
    (event_project e) (grouping_config e) (event_checksum e) (csp e) (hpkp e) (expectct e) (expectstaple e)
    (spans e) (measurements e) (breakdowns e) (metrics e) (event_other e).
Definition set_site (e : Event) (v : Annotated string) : Event :=
  MkEvent (event_id e) (event_level e) (event_version e) (event_ty e) (event_fingerprint e)
    (event_culprit e) (transaction e) (time_spent e) (logentry e) (logger e) (event_modules e) (platform e)
    (timestamp e) (start_timestamp e) (received e) (server_name e) (release e) (dist e) (environment e) v
    (user e) (request e) (contexts e) (breadcrumbs e) (exceptions e) (event_stacktrace e) (event_template e)
    (threads e) (tags e) (extra e) (debug_meta e) (client_sdk e) (event_errors e) (event_key_id e)
    (event_project e) (grouping_config e) (event_checksum e) (csp e) (hpkp e) (expectct e) (expectstaple e)
    (spans e) (measurements e) (breakdowns e) (metrics e) (event_other e).
Definition set_user (e : Event) (v : Annotated User) : Event :=
  MkEvent (event_id e) (event_level e) (event_version e) (event_ty e) (event_fingerprint e)
    (event_culprit e) (transaction e) (time_spent e) (logentry e) (logger e) (event_modules e) (platform e)
    (timestamp e) (start_timestamp e) (received e) (server_name e) (release e) (dist e) (environment e)
    (site e) v (request e) (contexts e) (breadcrumbs e) (exceptions e) (event_stacktrace e)
    (event_template e) (threads e) (tags e) (extra e) (debug_meta e) (client_sdk e) (event_errors e)
    (event_key_id e) (event_project e) (grouping_config e) (event_checksum e) (csp e) (hpkp e) (expectct e)
    (expectstaple e) (spans e) (measurements e) (breakdowns e) (metrics e) (event_other e).
Definition set_request (e : Event) (v : Annotated Request) : Event :=
  MkEvent (event_id e) (event_level e) (event_version e) (event_ty e) (event_fingerprint e)
    (event_culprit e) (transaction e) (time_spent e) (logentry e) (logger e) (event_modules e) (platform e)
    (timestamp e) (start_timestamp e) (received e) (server_name e) (release e) (dist e) (environment e)
    (site e) (user e) v (contexts e) (breadcrumbs e) (exceptions e) (event_stacktrace e) (event_template e)
    (threads e) (tags e) (extra e) (debug_meta e) (client_sdk e) (event_errors e) (event_key_id e)
    (event_project e) (grouping_config e) (event_checksum e) (csp e) (hpkp e) (expectct e) (expectstaple e)
    (spans e) (measurements e) (breakdowns e) (metrics e) (event_other e).
Definition set_contexts (e : Event) (v : Annotated (Object Context)) : Event :=
  MkEvent (event_id e) (event_level e) (event_version e) (event_ty e) (event_fingerprint e)
    (event_culprit e) (transaction e) (time_spent e) (logentry e) (logger e) (event_modules e) (platform e)
    (timestamp e) (start_timestamp e) (received e) (server_name e) (release e) (dist e) (environment e)
    (site e) (user e) (request e) v (breadcrumbs e) (exceptions e) (event_stacktrace e) (event_template e)
    (threads e) (tags e) (extra e) (debug_meta e) (client_sdk e) (event_errors e) (event_key_id e)
    (event_project e) (grouping_config e) (event_checksum e) (csp e) (hpkp e) (expectct e) (expectstaple e)
    (spans e) (measurements e) (breakdowns e) (metrics e) (event_other e).
Definition set_breadcrumbs (e : Event) (v : Annotated (Values Breadcrumb)) : Event :=
  MkEvent (event_id e) (event_level e) (event_version e) (event_ty e) (event_fingerprint e)
    (event_culprit e) (transaction e) (time_spent e) (logentry e) (logger e) (event_modules e) (platform e)
    (timestamp e) (start_timestamp e) (received e) (server_name e) (release e) (dist e) (environment e)
    (site e) (user e) (request e) (contexts e) v (exceptions e) (event_stacktrace e) (event_template e)
    (threads e) (tags e) (extra e) (debug_meta e) (client_sdk e) (event_errors e) (event_key_id e)
    (event_project e) (grouping_config e) (event_checksum e) (csp e) (hpkp e) (expectct e) (expectstaple e)
    (spans e) (measurements e) (breakdowns e) (metrics e) (event_other e).
Definition set_exceptions (e : Event) (v : Annotated (Values Exception)) : Event :=
  MkEvent (event_id e) (event_level e) (event_version e) (event_ty e) (event_fingerprint e)
    (event_culprit e) (transaction e) (time_spent e) (logentry e) (logger e) (event_modules e) (platform e)
    (timestamp e) (start_timestamp e) (received e) (server_name e) (release e) (dist e) (environment e)
    (site e) (user e) (request e) (contexts e) (breadcrumbs e) v (event_stacktrace e) (event_template e)
    (threads e) (tags e) (extra e) (debug_meta e) (client_sdk e) (event_errors e) (event_key_id e)
    (event_project e) (grouping_config e) (event_checksum e) (csp e) (hpkp e) (expectct e) (expectstaple e)
    (spans e) (measurements e) (breakdowns e) (metrics e) (event_other e).
Definition set_event_stacktrace (e : Event) (v : Annotated Stacktrace) : Event :=
  MkEvent (event_id e) (event_level e) (event_version e) (event_ty e) (event_fingerprint e)
    (event_culprit e) (transaction e) (time_spent e) (logentry e) (logger e) (event_modules e) (platform e)
    (timestamp e) (start_timestamp e) (received e) (server_name e) (release e) (dist e) (environment e)
    (site e) (user e) (request e) (contexts e) (breadcrumbs e) (exceptions e) v (event_template e)
    (threads e) (tags e) (extra e) (debug_meta e) (client_sdk e) (event_errors e) (event_key_id e)
    (event_project e) (grouping_config e) (event_checksum e) (csp e) (hpkp e) (expectct e) (expectstaple e)
    (spans e) (measurements e) (breakdowns e) (metrics e) (event_other e).
Definition set_event_template (e : Event) (v : Annotated TemplateInfo) : Event :=
  MkEvent (event_id e) (event_level e) (event_version e) (event_ty e) (event_fingerprint e)
    (event_culprit e) (transaction e) (time_spent e) (logentry e) (logger e) (event_modules e) (platform e)
    (timestamp e) (start_timestamp e) (received e) (server_name e) (release e) (dist e) (environment e)
    (site e) (user e) (request e) (contexts e) (breadcrumbs e) (exceptions e) (event_stacktrace e) v
    (threads e) (tags e) (extra e) (debug_meta e) (client_sdk e) (event_errors e) (event_key_id e)
    (event_project e) (grouping_config e) (event_checksum e) (csp e) (hpkp e) (expectct e) (expectstaple e)
    (spans e) (measurements e) (breakdowns e) (metrics e) (event_other e).
Definition set_threads (e : Event) (v : Annotated (Values Thread)) : Event :=
  MkEvent (event_id e) (event_level e) (event_version e) (event_ty e) (event_fingerprint e)
    (event_culprit e) (transaction e) (time_spent e) (logentry e) (logger e) (event_modules e) (platform e)
    (timestamp e) (start_timestamp e) (received e) (server_name e) (release e) (dist e) (environment e)
    (site e) (user e) (request e) (contexts e) (breadcrumbs e) (exceptions e) (event_stacktrace e)
    (event_template e) v (tags e) (extra e) (debug_meta e) (client_sdk e) (event_errors e) (event_key_id e)
    (event_project e) (grouping_config e) (event_checksum e) (csp e) (hpkp e) (expectct e) (expectstaple e)
    (spans e) (measurements e) (breakdowns e) (metrics e) (event_other e).
Definition set_tags (e : Event) (v : Annotated (PairList string string)) : Event :=
  MkEvent (event_id e) (event_level e) (event_version e) (event_ty e) (event_fingerprint e)
    (event_culprit e) (transaction e) (time_spent e) (logentry e) (logger e) (event_modules e) (platform e)
    (timestamp e) (start_timestamp e) (received e) (server_name e) (release e) (dist e) (environment e)
    (site e) (user e) (request e) (contexts e) (breadcrumbs e) (exceptions e) (event_stacktrace e)
    (event_template e) (threads e) v (extra e) (debug_meta e) (client_sdk e) (event_errors e)
    (event_key_id e) (event_project e) (grouping_config e) (event_checksum e) (csp e) (hpkp e) (expectct e)
    (expectstaple e) (spans e) (measurements e) (breakdowns e) (metrics e) (event_other e).
Definition set_extra (e : Event) (v : Annotated (Object Value)) : Event :=
  MkEvent (event_id e) (event_level e) (event_version e) (event_ty e) (event_fingerprint e)
    (event_culprit e) (transaction e) (time_spent e) (logentry e) (logger e) (event_modules e) (platform e)
    (timestamp e) (start_timestamp e) (received e) (server_name e) (release e) (dist e) (environment e)
    (site e) (user e) (request e) (contexts e) (breadcrumbs e) (exceptions e) (event_stacktrace e)
    (event_template e) (threads e) (tags e) v (debug_meta e) (client_sdk e) (event_errors e)
    (event_key_id e) (event_project e) (grouping_config e) (event_checksum e) (csp e) (hpkp e) (expectct e)
    (expectstaple e) (spans e) (measurements e) (breakdowns e) (metrics e) (event_other e).
Definition set_debug_meta (e : Event) (v : Annotated DebugMeta) : Event :=
  MkEvent (event_id e) (event_level e) (event_version e) (event_ty e) (event_fingerprint e)
    (event_culprit e) (transaction e) (time_spent e) (logentry e) (logger e) (event_modules e) (platform e)
    (timestamp e) (start_timestamp e) (received e) (server_name e) (release e) (dist e) (environment e)
    (site e) (user e) (request e) (contexts e) (breadcrumbs e) (exceptions e) (event_stacktrace e)
    (event_template e) (threads e) (tags e) (extra e) v (client_sdk e) (event_errors e) (event_key_id e)
    (event_project e) (grouping_config e) (event_checksum e) (csp e) (hpkp e) (expectct e) (expectstaple e)
    (spans e) (measurements e) (breakdowns e) (metrics e) (event_other e).
Definition set_client_sdk (e : Event) (v : Annotated ClientSdkInfo) : Event :=
  MkEvent (event_id e) (event_level e) (event_version e) (event_ty e) (event_fingerprint e)
    (event_culprit e) (transaction e) (time_spent e) (logentry e) (logger e) (event_modules e) (platform e)
    (timestamp e) (start_timestamp e) (received e) (server_name e) (release e) (dist e) (environment e)
    (site e) (user e) (request e) (contexts e) (breadcrumbs e) (exceptions e) (event_stacktrace e)
    (event_template e) (threads e) (tags e) (extra e) (debug_meta e) v (event_errors e) (event_key_id e)
    (event_project e) (grouping_config e) (event_checksum e) (csp e) (hpkp e) (expectct e) (expectstaple e)
    (spans e) (measurements e) (breakdowns e) (metrics e) (event_other e).
Definition set_event_errors (e : Event) (v : Annotated (list (Annotated EventProcessingError))) : Event :=
  MkEvent (event_id e) (event_level e) (event_version e) (event_ty e) (event_fingerprint e)
    (event_culprit e) (transaction e) (time_spent e) (logentry e) (logger e) (event_modules e) (platform e)
    (timestamp e) (start_timestamp e) (received e) (server_name e) (release e) (dist e) (environment e)
    (site e) (user e) (request e) (contexts e) (breadcrumbs e) (exceptions e) (event_stacktrace e)
    (event_template e) (threads e) (tags e) (extra e) (debug_meta e) (client_sdk e) v (event_key_id e)
    (event_project e) (grouping_config e) (event_checksum e) (csp e) (hpkp e) (expectct e) (expectstaple e)
    (spans e) (measurements e) (breakdowns e) (metrics e) (event_other e).
Definition set_event_key_id (e : Event) (v : Annotated string) : Event :=
  MkEvent (event_id e) (event_level e) (event_version e) (event_ty e) (event_fingerprint e)
    (event_culprit e) (transaction e) (time_spent e) (logentry e) (logger e) (event_modules e) (platform e)
    (timestamp e) (start_timestamp e) (received e) (server_name e) (release e) (dist e) (environment e)
    (site e) (user e) (request e) (contexts e) (breadcrumbs e) (exceptions e) (event_stacktrace e)
    (event_template e) (threads e) (tags e) (extra e) (debug_meta e) (client_sdk e) (event_errors e) v
    (event_project e) (grouping_config e) (event_checksum e) (csp e) (hpkp e) (expectct e) (expectstaple e)
    (spans e) (measurements e) (breakdowns e) (metrics e) (event_other e).
Definition set_event_project (e : Event) (v : Annotated Z) : Event :=
  MkEvent (event_id e) (event_level e) (event_version e) (event_ty e) (event_fingerprint e)
    (event_culprit e) (transaction e) (time_spent e) (logentry e) (logger e) (event_modules e) (platform e)
    (timestamp e) (start_timestamp e) (received e) (server_name e) (release e) (dist e) (environment e)
    (site e) (user e) (request e) (contexts e) (breadcrumbs e) (exceptions e) (event_stacktrace e)
    (event_template e) (threads e) (tags e) (extra e) (debug_meta e) (client_sdk e) (event_errors e)
    (event_key_id e) v (grouping_config e) (event_checksum e) (csp e) (hpkp e) (expectct e) (expectstaple e)
    (spans e) (measurements e) (breakdowns e) (metrics e) (event_other e).
Definition set_grouping_config (e : Event) (v : Annotated (Object Value)) : Event :=
  MkEvent (event_id e) (event_level e) (event_version e) (event_ty e) (event_fingerprint e)
    (event_culprit e) (transaction e) (time_spent e) (logentry e) (logger e) (event_modules e) (platform e)
    (timestamp e) (start_timestamp e) (received e) (server_name e) (release e) (dist e) (environment e)
    (site e) (user e) (request e) (contexts e) (breadcrumbs e) (exceptions e) (event_stacktrace e)
    (event_template e) (threads e) (tags e) (extra e) (debug_meta e) (client_sdk e) (event_errors e)
    (event_key_id e) (event_project e) v (event_checksum e) (csp e) (hpkp e) (expectct e) (expectstaple e)
    (spans e) (measurements e) (breakdowns e) (metrics e) (event_other e).
Definition set_event_checksum (e : Event) (v : Annotated string) : Event :=
  MkEvent (event_id e) (event_level e) (event_version e) (event_ty e) (event_fingerprint e)
    (event_culprit e) (transaction e) (time_spent e) (logentry e) (logger e) (event_modules e) (platform e)
    (timestamp e) (start_timestamp e) (received e) (server_name e) (release e) (dist e) (environment e)
    (site e) (user e) (request e) (contexts e) (breadcrumbs e) (exceptions e) (event_stacktrace e)
    (event_template e) (threads e) (tags e) (extra e) (debug_meta e) (client_sdk e) (event_errors e)
    (event_key_id e) (event_project e) (grouping_config e) v (csp e) (hpkp e) (expectct e) (expectstaple e)
    (spans e) (measurements e) (breakdowns e) (metrics e) (event_other e).
Definition set_csp (e : Event) (v : Annotated Csp) : Event :=
  MkEvent (event_id e) (event_level e) (event_version e) (event_ty e) (event_fingerprint e)
    (event_culprit e) (transaction e) (time_spent e) (logentry e) (logger e) (event_modules e) (platform e)
    (timestamp e) (start_timestamp e) (received e) (server_name e) (release e) (dist e) (environment e)
    (site e) (user e) (request e) (contexts e) (breadcrumbs e) (exceptions e) (event_stacktrace e)
    (event_template e) (threads e) (tags e) (extra e) (debug_meta e) (client_sdk e) (event_errors e)
    (event_key_id e) (event_project e) (grouping_config e) (event_checksum e) v (hpkp e) (expectct e)
    (expectstaple e) (spans e) (measurements e) (breakdowns e) (metrics e) (event_other e).
Definition set_hpkp (e : Event) (v : Annotated Hpkp) : Event :=
  MkEvent (event_id e) (event_level e) (event_version e) (event_ty e) (event_fingerprint e)
    (event_culprit e) (transaction e) (time_spent e) (logentry e) (logger e) (event_modules e) (platform e)
    (timestamp e) (start_timestamp e) (received e) (server_name e) (release e) (dist e) (environment e)
    (site e) (user e) (request e) (contexts e) (breadcrumbs e) (exceptions e) (event_stacktrace e)
    (event_template e) (threads e) (tags e) (extra e) (debug_meta e) (client_sdk e) (event_errors e)
    (event_key_id e) (event_project e) (grouping_config e) (event_checksum e) (csp e) v (expectct e)
    (expectstaple e) (spans e) (measurements e) (breakdowns e) (metrics e) (event_other e).
Definition set_expectct (e : Event) (v : Annotated ExpectCt) : Event :=
  MkEvent (event_id e) (event_level e) (event_version e) (event_ty e) (event_fingerprint e)
    (event_culprit e) (transaction e) (time_spent e) (logentry e) (logger e) (event_modules e) (platform e)
    (timestamp e) (start_timestamp e) (received e) (server_name e) (release e) (dist e) (environment e)
    (site e) (user e) (request e) (contexts e) (breadcrumbs e) (exceptions e) (event_stacktrace e)
    (event_template e) (threads e) (tags e) (extra e) (debug_meta e) (client_sdk e) (event_errors e)
    (event_key_id e) (event_project e) (grouping_config e) (event_checksum e) (csp e) (hpkp e) v
    (expectstaple e) (spans e) (measurements e) (breakdowns e) (metrics e) (event_other e).
Definition set_expectstaple (e : Event) (v : Annotated ExpectStaple) : Event :=
  MkEvent (event_id e) (event_level e) (event_version e) (event_ty e) (event_fingerprint e)
    (event_culprit e) (transaction e) (time_spent e) (logentry e) (logger e) (event_modules e) (platform e)
    (timestamp e) (start_timestamp e) (received e) (server_name e) (release e) (dist e) (environment e)
    (site e) (user e) (request e) (contexts e) (breadcrumbs e) (exceptions e) (event_stacktrace e)
    (event_template e) (threads e) (tags e) (extra e) (debug_meta e) (client_sdk e) (event_errors e)
    (event_key_id e) (event_project e) (grouping_config e) (event_checksum e) (csp e) (hpkp e) (expectct e)
    v (spans e) (measurements e) (breakdowns e) (metrics e) (event_other e).
Definition set_spans (e : Event) (v : Annotated (list (Annotated Span))) : Event :=
  MkEvent (event_id e) (event_level e) (event_version e) (event_ty e) (event_fingerprint e)
    (event_culprit e) (transaction e) (time_spent e) (logentry e) (logger e) (event_modules e) (platform e)
    (timestamp e) (start_timestamp e) (received e) (server_name e) (release e) (dist e) (environment e)
    (site e) (user e) (request e) (contexts e) (breadcrumbs e) (exceptions e) (event_stacktrace e)
    (event_template e) (threads e) (tags e) (extra e) (debug_meta e) (client_sdk e) (event_errors e)
    (event_key_id e) (event_project e) (grouping_config e) (event_checksum e) (csp e) (hpkp e) (expectct e)
    (expectstaple e) v (measurements e) (breakdowns e) (metrics e) (event_other e).
Definition set_measurements (e : Event) (v : Annotated (Object Measurement)) : Event :=
  MkEvent (event_id e) (event_level e) (event_version e) (event_ty e) (event_fingerprint e)
    (event_culprit e) (transaction e) (time_spent e) (logentry e) (logger e) (event_modules e) (platform e)
    (timestamp e) (start_timestamp e) (received e) (server_name e) (release e) (dist e) (environment e)
    (site e) (user e) (request e) (contexts e) (breadcrumbs e) (exceptions e) (event_stacktrace e)
    (event_template e) (threads e) (tags e) (extra e) (debug_meta e) (client_sdk e) (event_errors e)
    (event_key_id e) (event_project e) (grouping_config e) (event_checksum e) (csp e) (hpkp e) (expectct e)
    (expectstaple e) (spans e) v (breakdowns e) (metrics e) (event_other e).
Definition set_breakdowns (e : Event) (v : Annotated (Object (Object Measurement))) : Event :=
  MkEvent (event_id e) (event_level e) (event_version e) (event_ty e) (event_fingerprint e)
    (event_culprit e) (transaction e) (time_spent e) (logentry e) (logger e) (event_modules e) (platform e)
    (timestamp e) (start_timestamp e) (received e) (server_name e) (release e) (dist e) (environment e)
    (site e) (user e) (request e) (contexts e) (breadcrumbs e) (exceptions e) (event_stacktrace e)
    (event_template e) (threads e) (tags e) (extra e) (debug_meta e) (client_sdk e) (event_errors e)
    (event_key_id e) (event_project e) (grouping_config e) (event_checksum e) (csp e) (hpkp e) (expectct e)
    (expectstaple e) (spans e) (measurements e) v (metrics e) (event_other e).
Definition set_metrics (e : Event) (v : Annotated Metrics) : Event :=
  MkEvent (event_id e) (event_level e) (event_version e) (event_ty e) (event_fingerprint e)
    (event_culprit e) (transaction e) (time_spent e) (logentry e) (logger e) (event_modules e) (platform e)
    (timestamp e) (start_timestamp e) (received e) (server_name e) (release e) (dist e) (environment e)
    (site e) (user e) (request e) (contexts e) (breadcrumbs e) (exceptions e) (event_stacktrace e)
    (event_template e) (threads e) (tags e) (extra e) (debug_meta e) (client_sdk e) (event_errors e)
    (event_key_id e) (event_project e) (grouping_config e) (event_checksum e) (csp e) (hpkp e) (expectct e)
    (expectstaple e) (spans e) (measurements e) (breakdowns e) v (event_other e).
Definition set_event_other (e : Event) (v : gmap string (Annotated Value)) : Event :=
  MkEvent (event_id e) (event_level e) (event_version e) (event_ty e) (event_fingerprint e)
    (event_culprit e) (transaction e) (time_spent e) (logentry e) (logger e) (event_modules e) (platform e)
    (timestamp e) (start_timestamp e) (received e) (server_name e) (release e) (dist e) (environment e)
    (site e) (user e) (request e) (contexts e) (breadcrumbs e) (exceptions e) (event_stacktrace e)
    (event_template e) (threads e) (tags e) (extra e) (debug_meta e) (client_sdk e) (event_errors e)
    (event_key_id e) (event_project e) (grouping_config e) (event_checksum e) (csp e) (hpkp e) (expectct e)
    (expectstaple e) (spans e) (measurements e) (breakdowns e) (metrics e) v.
