(* ===== verification/Size.v ===== *)
(** * relay-general: estimated JSON sizes (processor/size.rs, types/value.rs)

    [SizeEstimatingSerializer] is a serde serializer that only counts: a stack
    tells for each open sequence or map whether it has an element already, so that
    commas are counted.  In flat mode it is meant to count nothing inside a container.
    [serialize] is [impl Serialize for Value], the calls a value makes on it.

    Sizes are those of data in memory, so additions do not wrap around. *)

From Stdlib Require Import Ascii String.
From S2P Require Import Prelude Strings Floats Types.

Open Scope string_scope.
Open Scope Z_scope.
Open Scope list_scope.

(** [Display] for [i64]. *)
Definition i64_to_string (n : Z) : string :=
  if bool_decide (n < 0) then String "-" (u64_to_string (- n)) else u64_to_string n.

Definition str_len (s : string) : Z := Z.of_nat (String.length s).

Module SizeEstimatingSerializer.

Record SizeEstimatingSerializer := MkSer { size : Z; item_stack : list bool; flat : bool }.

Definition new (flat : bool) : SizeEstimatingSerializer := MkSer 0 [] flat.

(** The stack's last element is its head here. *)
Definition count_size (incr : Z) (self : SizeEstimatingSerializer) : SizeEstimatingSerializer :=
  if flat self && negb (bool_decide (item_stack self = [])) then self
  else MkSer (size self + incr) (item_stack self) (flat self).

Definition push (self : SizeEstimatingSerializer) : SizeEstimatingSerializer :=
  MkSer (size self) (false :: item_stack self) (flat self).
Definition pop (self : SizeEstimatingSerializer) : SizeEstimatingSerializer :=
  MkSer (size self) (tail (item_stack self)) (flat self).

Definition count_comma_sep (self : SizeEstimatingSerializer) : SizeEstimatingSerializer :=
  match item_stack self with
  | [] => self
  | false :: stack => MkSer (size self) (true :: stack) (flat self)
  | true :: _ => count_size 1 self
  end.

Definition serialize_bool (v : bool) := count_size (if v then 4 else 5).
(** This one adds to the size without asking [count_size]. *)
Definition serialize_i64 (v : Z) (self : SizeEstimatingSerializer) : SizeEstimatingSerializer :=
  MkSer (size self + str_len (i64_to_string v)) (item_stack self) (flat self).
Definition serialize_u64 (v : Z) := count_size (str_len (u64_to_string v)).
Definition serialize_str (v : string) := count_size (str_len v + 2).
Definition serialize_unit := count_size 4.

Definition serialize_seq (self : SizeEstimatingSerializer) : SizeEstimatingSerializer :=
  push (count_size 1 self).
Definition serialize_map (self : SizeEstimatingSerializer) : SizeEstimatingSerializer :=
  push (count_size 1 self).
(** [end] of sequences and maps. *)
Definition end_ (self : SizeEstimatingSerializer) : SizeEstimatingSerializer := count_size 1 (pop self).
Definition serialize_key (key : string) (self : SizeEstimatingSerializer) : SizeEstimatingSerializer :=
  serialize_str key (count_comma_sep self).

End SizeEstimatingSerializer.
Notation SizeEstimatingSerializer := SizeEstimatingSerializer.SizeEstimatingSerializer.
Import SizeEstimatingSerializer.

Section Estimate.

(** [Display] for [f64]. *)
Context (f64_to_string : f64 -> string).

Definition serialize_f64 (v : f64) := count_size (str_len (f64_to_string v)).

Fixpoint serialize (self : Value) (ser : SizeEstimatingSerializer) : SizeEstimatingSerializer :=
  let element (item : Annotated Value) (ser : SizeEstimatingSerializer) :=
    match item with MkAnnotated (Some val) _ => serialize val ser | MkAnnotated None _ => serialize_unit ser end in
  match self with
  | Bool val => serialize_bool val ser
  | I64 val => serialize_i64 val ser
  | U64 val => serialize_u64 val ser
  | F64 val => serialize_f64 val ser
  | String_ val => serialize_str val ser
  | Array items =>
      end_ ((fix elements (items : list (Annotated Value)) ser :=
               match items with [] => ser | item :: items => elements items (element item (count_comma_sep ser)) end)
              items (serialize_seq ser))
  | Object items =>
      end_ ((fix entries (items : list (string * Annotated Value)) ser :=
               match items with
               | [] => ser
               | (key, value) :: items => entries items (element value (count_size 1 (serialize_key key ser)))
               end) items (serialize_map ser))
  end.

Definition estimate (flat : bool) (value : option Value) : Z :=
  match value with Some value => size (serialize value (new flat)) | None => 0 end.
Definition estimate_size : option Value -> Z := estimate false.
Definition estimate_size_flat : option Value -> Z := estimate true.

(** [Meta::set_original_value]: only small values are kept. *)
Definition set_original_value (self : Meta) (original_value : option Value) : Meta :=
  if bool_decide (estimate_size original_value < 500) then
    let '(MkMetaInner r e l _) := Meta.upsert self in MkMeta (Some (MkMetaInner r e l original_value))
  else self.

(** ** The length of the JSON text, without escapes *)

Fixpoint json_size (v : Value) : Z :=
  let element (item : Annotated Value) :=
    match item with MkAnnotated (Some v) _ => json_size v | MkAnnotated None _ => 4 end in
  match v with
  | Bool b => if b then 4 else 5
  | I64 n => str_len (i64_to_string n)
  | U64 n => str_len (u64_to_string n)
  | F64 x => str_len (f64_to_string x)
  | String_ s => str_len s + 2
  | Array items =>
      2 + (fix sum (items : list (Annotated Value)) :=
             match items with [] => 0 | item :: items => element item + sum items end) items
        + Z.max 0 (Z.of_nat (length items) - 1)
  | Object items =>
      2 + (fix sum (items : list (string * Annotated Value)) :=
             match items with [] => 0 | (k, item) :: items => str_len k + 3 + element item + sum items end) items
        + Z.max 0 (Z.of_nat (length items) - 1)
  end.

(** The digits of the signed integers inside a value. *)
Fixpoint integer_digits (v : Value) : Z :=
  let element (item : Annotated Value) :=
    match item with MkAnnotated (Some v) _ => integer_digits v | MkAnnotated None _ => 0 end in
  match v with
  | I64 n => str_len (i64_to_string n)
  | Array items =>
      (fix sum (items : list (Annotated Value)) :=
         match items with [] => 0 | item :: items => element item + sum items end) items
  | Object items =>
      (fix sum (items : list (string * Annotated Value)) :=
         match items with [] => 0 | (k, item) :: items => element item + sum items end) items
  | _ => 0
  end.

End Estimate.

(** ** Induction on values, with the hypothesis for every member of a container *)

Section Value_induction.
Context (P : Value -> Prop).
Definition member_holds (a : Annotated Value) : Prop := forall v, Annotated.value a = Some v -> P v.
Context (HBool : forall b, P (Bool b)) (HI64 : forall n, P (I64 n)) (HU64 : forall n, P (U64 n)).
Context (HF64 : forall x, P (F64 x)) (HString : forall s, P (String_ s)).
Context (HArray : forall items, Forall member_holds items -> P (Array items)).
Context (HObject : forall items, Forall (fun kv => member_holds kv.2) items -> P (Object items)).

Fixpoint Value_ind' (v : Value) : P v :=
  let member (a : Annotated Value) : member_holds a :=
    match a with
    | MkAnnotated (Some v) m => fun w H => match H in _ = o return match o with Some w => P w | None => True end
                                           with eq_refl => Value_ind' v end
    | MkAnnotated None m => fun w H => False_ind _ (eq_ind None (fun o => match o with None => True | Some _ => False end) I _ H)
    end in
  match v with
  | Bool b => HBool b
  | I64 n => HI64 n
  | U64 n => HU64 n
  | F64 x => HF64 x
  | String_ s => HString s
  | Array items =>
      HArray items ((fix all (l : list (Annotated Value)) : Forall member_holds l :=
        match l with [] => Forall_nil_2 _ | a :: l => Forall_cons_2 _ a l (member a) (all l) end) items)
  | Object items =>
      HObject items ((fix all (l : list (string * Annotated Value)) : Forall (fun kv => member_holds kv.2) l :=
        match l with [] => Forall_nil_2 _ | a :: l => Forall_cons_2 _ a l (member a.2) (all l) end) items)
  end.

End Value_induction.

Section Correct.
Context (f64_to_string : f64 -> string).

Definition element_size (item : Annotated Value) : Z :=
  match item with MkAnnotated (Some v) _ => json_size f64_to_string v | MkAnnotated None _ => 4 end.
Definition element_digits (item : Annotated Value) : Z :=
  match item with MkAnnotated (Some v) _ => integer_digits v | MkAnnotated None _ => 0 end.
Definition serialize_element (item : Annotated Value) (ser : SizeEstimatingSerializer) : SizeEstimatingSerializer :=
  match item with
  | MkAnnotated (Some val) _ => serialize f64_to_string val ser
  | MkAnnotated None _ => serialize_unit ser
  end.

(** The loop over the members of a container, and the sum over them. *)
Definition members {A} (body : A -> SizeEstimatingSerializer -> SizeEstimatingSerializer) (items : list A)
    (ser : SizeEstimatingSerializer) : SizeEstimatingSerializer :=
  fold_left (fun ser a => body a (count_comma_sep ser)) items ser.
Definition serialize_entry (kv : string * Annotated Value) (ser : SizeEstimatingSerializer) :=
  serialize_element kv.2 (count_size 1 (serialize_str kv.1 ser)).
Definition total {A} (f : A -> Z) (l : list A) : Z := foldr (fun a n => f a + n) 0 l.

Lemma serialize_array items ser :
  serialize f64_to_string (Array items) ser = end_ (members serialize_element items (serialize_seq ser)).
Proof. done. Qed.

Lemma serialize_object items ser :
  serialize f64_to_string (Object items) ser = end_ (members serialize_entry items (serialize_map ser)).
Proof.
  simpl. f_equal. generalize (serialize_map ser). induction items as [|[k item] items IH]; intros s; [done|]. apply IH.
Qed.

Lemma json_size_array items :
  json_size f64_to_string (Array items) =
  2 + total element_size items + Z.max 0 (Z.of_nat (length items) - 1).
Proof. done. Qed.

Lemma json_size_object items :
  json_size f64_to_string (Object items) =
  2 + total (fun kv => str_len kv.1 + 3 + element_size kv.2) items + Z.max 0 (Z.of_nat (length items) - 1).
Proof. simpl. do 2 f_equal. induction items as [|[k item] items IH]; [done|]. simpl. by rewrite IH. Qed.

Lemma digits_object items : integer_digits (Object items) = total (fun kv => element_digits kv.2) items.
Proof. simpl. induction items as [|[k item] items IH]; [done|]. simpl. by rewrite IH. Qed.

(** ** Counting everything *)

Lemma count_size_full n ser : flat ser = false ->
  count_size n ser = MkSer (size ser + n) (item_stack ser) false.
Proof. intros H. unfold count_size. by rewrite H. Qed.

(** [f] adds [n] and leaves the stack as it is. *)
Definition adds (n : Z) (f : SizeEstimatingSerializer -> SizeEstimatingSerializer) : Prop :=
  forall ser, flat ser = false -> f ser = MkSer (size ser + n) (item_stack ser) false.

Lemma members_started {A} (c : A -> Z) body (items : list A) n st :
  Forall (fun a => adds (c a) (body a)) items ->
  members body items (MkSer n (true :: st) false) =
  MkSer (n + total c items + Z.of_nat (length items)) (true :: st) false.
Proof.
  intros H. revert n. induction H as [|a items Ha _ IH]; intros n; cbn [members fold_left].
  - f_equal. simpl. lia.
  - cbn [count_comma_sep item_stack]. rewrite count_size_full, Ha by done. unfold members in IH. simpl.
    rewrite IH. f_equal. simpl. lia.
Qed.

Lemma container_full {A} (c : A -> Z) body (items : list A) ser :
  Forall (fun a => adds (c a) (body a)) items -> flat ser = false ->
  end_ (members body items (push (count_size 1 ser))) =
  MkSer (size ser + (2 + total c items + Z.max 0 (Z.of_nat (length items) - 1))) (item_stack ser) false.
Proof.
  intros Hi Hf. rewrite count_size_full by done. unfold push. simpl.
  destruct Hi as [|a items Ha Hi]; cbn [members fold_left].
  - unfold end_, pop. simpl. rewrite count_size_full by done. f_equal. simpl. lia.
  - cbn [count_comma_sep item_stack size flat]. rewrite Ha by done. simpl.
    pose proof (members_started c body items) as Hm. unfold members in Hm. rewrite Hm by done.
    unfold end_, pop. simpl. rewrite count_size_full by done. f_equal. simpl. lia.
Qed.

Lemma element_adds item :
  member_holds (fun v => adds (json_size f64_to_string v) (serialize f64_to_string v)) item ->
  adds (element_size item) (serialize_element item).
Proof.
  destruct item as [[v|] m]; simpl; intros Hv ser Hf; [by apply (Hv v)|]. by apply count_size_full.
Qed.

Lemma serialize_adds v : adds (json_size f64_to_string v) (serialize f64_to_string v).
Proof.
  induction v as [b|n|n|x|s|items IH|items IH] using Value_ind'; intros ser Hf; try (by apply count_size_full).
  - unfold serialize, serialize_i64. by rewrite Hf.
  - rewrite serialize_array, json_size_array. apply container_full; [|done].
    eapply Forall_impl; [exact IH|]. intros item. apply element_adds.
  - rewrite serialize_object, json_size_object. apply container_full; [|done].
    eapply Forall_impl; [exact IH|]. intros [k item] Hi%element_adds ser' Hf'. unfold serialize_entry, serialize_str.
    simpl. rewrite (count_size_full _ ser'), count_size_full, Hi by done. f_equal. simpl. lia.
Qed.

(** ** Flat counting *)

Definition adds_inside (n : Z) (f : SizeEstimatingSerializer -> SizeEstimatingSerializer) : Prop :=
  forall ser, flat ser = true -> item_stack ser <> [] -> f ser = MkSer (size ser + n) (item_stack ser) true.

Lemma count_size_inside n : adds_inside 0 (count_size n).
Proof.
  intros [z st b] Hf Hs. unfold count_size. simpl in *. rewrite Hf, bool_decide_false by done. f_equal. lia.
Qed.

Lemma members_inside {A} (c : A -> Z) body (items : list A) n b st :
  Forall (fun a => adds_inside (c a) (body a)) items ->
  exists b', members body items (MkSer n (b :: st) true) = MkSer (n + total c items) (b' :: st) true.
Proof.
  intros H. revert n b. induction H as [|a items Ha _ IH]; intros n b; cbn [members fold_left].
  - exists b. f_equal. simpl. lia.
  - assert (count_comma_sep (MkSer n (b :: st) true) = MkSer n (true :: st) true) as ->
      by (by destruct b).
    rewrite Ha by done. simpl. destruct (IH (n + c a) true) as [b' Hb]. exists b'. unfold members in Hb.
    rewrite Hb. f_equal. simpl. lia.
Qed.

Lemma container_flat {A} (c : A -> Z) body (items : list A) ser :
  Forall (fun a => adds_inside (c a) (body a)) items -> flat ser = true ->
  end_ (members body items (push (count_size 1 ser))) =
  MkSer (size ser + (if bool_decide (item_stack ser = []) then 2 else 0) + total c items) (item_stack ser) true.
Proof.
  intros Hi Hf. destruct ser as [z st fl]. simpl in *. subst fl. unfold count_size at 1. simpl.
  destruct st as [|b st]; simpl; unfold push; simpl.
  - destruct (members_inside c body items (z + 1) false [] Hi) as [b' ->]. unfold end_, pop, count_size. simpl.
    f_equal. lia.
  - destruct (members_inside c body items z false (b :: st) Hi) as [b' ->]. unfold end_, pop, count_size. simpl.
    f_equal. lia.
Qed.

Lemma element_inside item :
  member_holds (fun v => adds_inside (integer_digits v) (serialize f64_to_string v)) item ->
  adds_inside (element_digits item) (serialize_element item).
Proof.
  destruct item as [[v|] m]; simpl; intros Hv ser Hf Hs; [by apply (Hv v)|]. by apply count_size_inside.
Qed.

Lemma entry_inside kv : adds_inside (element_digits kv.2) (serialize_element kv.2) ->
  adds_inside (element_digits kv.2) (serialize_entry kv).
Proof.
  intros Hi ser Hf Hs. unfold serialize_entry, serialize_str.
  rewrite (count_size_inside _ ser), (count_size_inside 1), Hi by done. f_equal. simpl. lia.
Qed.

Lemma serialize_inside v : adds_inside (integer_digits v) (serialize f64_to_string v).
Proof.
  induction v as [b|n|n|x|s|items IH|items IH] using Value_ind'; intros ser Hf Hs;
    try (by apply count_size_inside).
  - unfold serialize, serialize_i64. by rewrite Hf.
  - rewrite serialize_array. unfold serialize_seq. rewrite (container_flat element_digits); [|..|done].
    + rewrite bool_decide_false by done. change (integer_digits (Array items)) with (total element_digits items).
      f_equal. lia.
    + eapply Forall_impl; [exact IH|]. intros item. apply element_inside.
  - rewrite serialize_object, digits_object. unfold serialize_map.
    rewrite (container_flat (fun kv => element_digits kv.2)); [|..|done].
    + rewrite bool_decide_false by done. f_equal. lia.
    + eapply Forall_impl; [exact IH|]. intros kv Hkv. by apply entry_inside, element_inside.
Qed.

Lemma estimate_size_spec v :
  estimate_size f64_to_string (Some v) = json_size f64_to_string v /\
  estimate_size_flat f64_to_string (Some v) =
    match v with Array _ | Object _ => 2 + integer_digits v | _ => json_size f64_to_string v end.
Proof.
  unfold estimate_size, estimate_size_flat, estimate. split.
  - rewrite serialize_adds by done. simpl. lia.
  - destruct v as [b|n|n|x|s|items|items]; try done.
    + rewrite serialize_array. unfold serialize_seq. rewrite (container_flat element_digits); [|..|done]; [done|].
      apply Forall_true. intros item. apply element_inside. intros w _. apply serialize_inside.
    + rewrite serialize_object. unfold serialize_map.
      rewrite (container_flat (fun kv => element_digits kv.2)), digits_object; [|..|done]; [done|].
      apply Forall_true. intros kv. apply entry_inside, element_inside. intros w _. apply serialize_inside.
Qed.

(** [estimate_size] is the length of the JSON text of a value without escapes:
    the serializer's stack counts exactly the commas between the members.  The flat
    estimate is that length for a scalar and 2, the brackets, for a container; the
    digits of the signed integers inside the container are added as well, because
    [serialize_i64] does not ask whether it is nested. *)
Theorem estimate_size_correct v :
  estimate_size f64_to_string (Some v) = json_size f64_to_string v /\
  estimate_size_flat f64_to_string (Some v) =
    match v with Array _ | Object _ => 2 + integer_digits v | _ => json_size f64_to_string v end.
Proof.
  apply estimate_size_spec.
Qed.

Lemma total_nonneg {A} (f : A -> Z) l : Forall (fun a => 0 <= f a) l -> 0 <= total f l.
Proof. induction 1; simpl; lia. Qed.

Lemma integer_digits_nonneg v : 0 <= integer_digits v.
Proof.
  induction v as [b|n|n|x|s|items IH|items IH] using Value_ind'; try (simpl; unfold str_len; lia).
  - apply (total_nonneg element_digits). eapply Forall_impl; [exact IH|].
    intros [[v|] m] Hv; simpl; [by apply Hv|lia].
  - rewrite digits_object. apply total_nonneg. eapply Forall_impl; [exact IH|].
    intros [k [[v|] m]] Hv; simpl in *; [by apply Hv|lia].
Qed.

Lemma estimate_size_flat_nonneg v : 0 <= estimate_size_flat f64_to_string v.
Proof.
  destruct v as [v|]; [|done]. rewrite (proj2 (estimate_size_spec v)). pose proof (integer_digits_nonneg v).
  destruct v as [[|]|n|n|x|s|items|items]; simpl in *; unfold str_len; lia.
Qed.

End Correct.
