(* ===== verification/Conversions.v ===== *)
(** * relay-general: conversions of values (types/impls.rs, types/value.rs,
      protocol/types.rs, protocol/tags.rs, protocol/thread.rs)

    [FromValue] reads a type out of a generic value and keeps what it cannot read
    in the meta data; [IntoValue] is the way back.  Each implementation is an
    instance; [Convertible] states that reading what was written gives it back and
    [Complains] that no value is dropped without an error.  [PairList] is an array
    of pairs used as a map. *)

From Stdlib Require Import Ascii String SpecFloat.
From S2P Require Import Prelude Strings Floats Types Common Protocol Size.

Open Scope string_scope.
Open Scope Z_scope.
Open Scope list_scope.

(** What the conversions use of other packages: the decimal text of floats, IP
    addresses, JSON text and dates. *)
Class ConvEnv := {
  f64_text : f64 -> string;
  net_ip : string -> bool;
  json_text : Value -> string;
  naive_datetime : string -> option DateTime;
  rfc3339_datetime : string -> result string DateTime;
}.

(** [impl PartialEq for Value]'s [as_str]. *)
Definition value_as_str (self : Value) : option string :=
  match self with String_ s => Some s | _ => None end.

(** A [BTreeMap] as the list of its entries, in the order of their keys. *)
Definition key_le {A} (a b : string * A) : Prop := String.leb a.1 b.1 = true.
#[global] Instance key_le_dec {A} : RelDecision (@key_le A).
Proof. intros a b. unfold key_le. apply _. Defined.
Definition btree_entries {A} (m : gmap string A) : list (string * A) := merge_sort key_le (map_to_list m).

Lemma elem_of_btree_entries {A} (m : gmap string A) k v : (k, v) ∈ btree_entries m <-> m !! k = Some v.
Proof. unfold btree_entries. by rewrite merge_sort_Permutation, elem_of_map_to_list. Qed.

(** ** Errors *)

Definition error_new (kind : ErrorKind) : Error := MkError kind [].
Definition error_invalid (reason : string) : Error :=
  MkError ErrorKind.InvalidData [("reason", String_ reason)].
Definition error_expected (expectation : string) : Error :=
  MkError ErrorKind.InvalidData [("reason", String_ ("expected " +:+ expectation))].
Definition error_nonempty : Error := error_invalid "expected a non-empty value".

(** ** The traits *)

Class FromValue (T : Type) := from_value : Annotated Value -> Annotated T.
Class IntoValue (T : Type) := into_value : T -> Value.

(** ** Numbers as text *)

Module ParseIntError.

Inductive ParseIntError := Empty | InvalidDigit | PosOverflow.

(** [Display] *)
Definition to_string (self : ParseIntError) : string :=
  match self with
  | Empty => "cannot parse integer from empty string"
  | InvalidDigit => "invalid digit found in string"
  | PosOverflow => "number too large to fit in target type"
  end.

End ParseIntError.
Notation ParseIntError := ParseIntError.ParseIntError.

(** [char::to_digit] *)
Definition to_digit (radix : Z) (c : ascii) : option Z :=
  let n := Z.of_nat (nat_of_ascii c) in
  let d := if is_ascii_digit c then n - 48
           else if is_ascii_lowercase c then n - 87
           else if is_ascii_uppercase c then n - 55 else radix in
  if bool_decide (d < radix) then Some d else None.

Fixpoint parse_digits (radix v : Z) (s : string) : result ParseIntError Z :=
  match s with
  | EmptyString => Ok v
  | String c s =>
      match to_digit radix c with
      | None => Err ParseIntError.InvalidDigit
      | Some d =>
          if bool_decide (u64_max < v * radix + d) then Err ParseIntError.PosOverflow
          else parse_digits radix (v * radix + d) s
      end
  end.

(** [u64::from_str_radix] *)
Definition from_str_radix (s : string) (radix : Z) : result ParseIntError Z :=
  match s with
  | EmptyString => Err ParseIntError.Empty
  | String "+" EmptyString => Err ParseIntError.InvalidDigit
  | String "+" s => parse_digits radix 0 s
  | s => parse_digits radix 0 s
  end.

(** [{:x}] of a [u64] *)
Definition hex_char (d : Z) : ascii := ascii_of_nat (Z.to_nat (if bool_decide (d < 10) then 48 + d else 87 + d)).
Fixpoint hex_digits (fuel : nat) (n : Z) (acc : string) : string :=
  match fuel with
  | O => acc
  | S fuel =>
      let acc := String (hex_char (n mod 16)) acc in
      if bool_decide (n / 16 = 0) then acc else hex_digits fuel (n / 16) acc
  end.

(** [hex_metrastructure!]: addresses and register values. *)
Module Addr.

Definition from_str (s : string) : result ParseIntError Z :=
  if starts_with "0x" s || starts_with "0X" s then from_str_radix (str_from 2 s) 16 else from_str_radix s 10.

(** [{:#x}] *)
Definition to_string (self : Z) : string := "0x" +:+ hex_digits 16 self "".

End Addr.

Definition level_from_python_level (value : Z) : option Level :=
  match value with
  | 10 => Some Level.Debug
  | 20 => Some Level.Info
  | 30 => Some Level.Warning
  | 40 => Some Level.Error
  | 50 => Some Level.Fatal
  | _ => None
  end.

Definition level_from_str (string : string) : option Level :=
  match_str string
    [("debug", Level.Debug); ("info", Level.Info); ("log", Level.Info); ("warning", Level.Warning);
     ("error", Level.Error); ("fatal", Level.Fatal); ("critical", Level.Fatal)].

Definition level_to_string (self : Level) : string :=
  match self with
  | Level.Debug => "debug"
  | Level.Info => "info"
  | Level.Warning => "warning"
  | Level.Error => "error"
  | Level.Fatal => "fatal"
  end.

Module ThreadId.

Inductive ThreadId := Int (value : Z) | String_ (value : string).

#[global] Instance ThreadId_eq_dec : EqDecision ThreadId.
Proof. solve_decision. Defined.

End ThreadId.
Notation ThreadId := ThreadId.ThreadId.

Section Conversions.
Context {CE : ConvEnv}.

Definition set_original (m : Meta) (original : option Value) : Meta :=
  set_original_value f64_text m original.

(** [Annotated::from_error] *)
Definition from_error {T} (err : Error) (value : option Value) : Annotated T :=
  MkAnnotated None (set_original (Meta.from_error err) value).

(** The arm of nearly every implementation for values of another shape. *)
Definition reject {T} (err : Error) (value : Value) (m : Meta) : Annotated T :=
  MkAnnotated None (set_original (Meta.add_error m err) (Some value)).

(** [Annotated::apply]: [f] changes the value and its meta data and answers what to do
    with the value; [original] is the value as meta data keep it, unless it is too
    large for that. *)
Definition annotated_apply {T} (original : T -> option Value) (self : Annotated T)
  (f : T -> Meta -> T * Meta * result ProcessingAction ()) : result ProcessingAction (Annotated T) :=
  match self with
  | MkAnnotated None _ => Ok self
  | MkAnnotated (Some value) meta =>
      let '(value, meta, result) := f value meta in
      match result with
      | Ok _ => Ok (MkAnnotated (Some value) meta)
      | Err ProcessingAction.DeleteValueHard => Ok (MkAnnotated None meta)
      | Err ProcessingAction.DeleteValueSoft =>
          Ok (MkAnnotated None
                match original value with
                | Some o => let '(MkMetaInner r e l _) := Meta.upsert meta in MkMeta (Some (MkMetaInner r e l (Some o)))
                | None => meta
                end)
      | Err (ProcessingAction.InvalidTransaction s) => Err (ProcessingAction.InvalidTransaction s)
      end
  end.

(** The original of a string: [Meta::set_original_value] keeps less than 500 bytes. *)
Definition original_string (s : string) : option Value :=
  if bool_decide (estimate_size f64_text (Some (String_ s)) < 500) then Some (String_ s) else None.

(** ** Primitive types *)

#[export] Instance from_value_value : FromValue Value := fun value => value.
#[export] Instance into_value_value : IntoValue Value := fun value => value.

#[export] Instance from_value_string : FromValue string := fun value =>
  match value with
  | MkAnnotated (Some (String_ value)) meta => MkAnnotated (Some value) meta
  | MkAnnotated None meta => MkAnnotated None meta
  | MkAnnotated (Some value) meta => reject (error_expected "a string") value meta
  end.
#[export] Instance into_value_string : IntoValue string := String_.

#[export] Instance from_value_bool : FromValue bool := fun value =>
  match value with
  | MkAnnotated (Some (Bool value)) meta => MkAnnotated (Some value) meta
  | MkAnnotated None meta => MkAnnotated None meta
  | MkAnnotated (Some value) meta => reject (error_expected "a boolean") value meta
  end.
#[export] Instance into_value_bool : IntoValue bool := Bool.

(** [num_traits::cast]: numbers out of range do not convert, fractions are cut. *)
Definition f64_to_Z (x : f64) : option Z :=
  match x with
  | S754_zero _ => Some 0
  | S754_finite s m e => Some (trunc_Z s m e)
  | _ => None
  end.
Definition in_range (lo hi : Z) (n : Z) : option Z := if bool_decide (lo <= n <= hi) then Some n else None.

Definition cast_u64 (value : Value) : option Z :=
  match value with
  | U64 x => Some x
  | I64 x => in_range 0 u64_max x
  | F64 x => f64_to_Z x ≫= in_range 0 u64_max
  | _ => None
  end.
Definition i64_min : Z := - 2 ^ 63.
Definition i64_max : Z := 2 ^ 63 - 1.
Definition cast_i64 (value : Value) : option Z :=
  match value with
  | U64 x => in_range i64_min i64_max x
  | I64 x => Some x
  | F64 x => f64_to_Z x ≫= in_range i64_min i64_max
  | _ => None
  end.
Definition cast_f64 (value : Value) : option f64 :=
  match value with
  | U64 x => Some (f64_of_Z x)
  | I64 x => Some (f64_of_Z x)
  | F64 x => Some x
  | _ => None
  end.

(** [derive_numeric_meta_structure!] *)
Definition from_number {T} (cast : Value -> option T) (expectation : string) (value : Annotated Value) : Annotated T :=
  Annotated.and_then value (fun value =>
    match cast value with
    | Some x => Annotated.new x
    | None => reject (error_expected expectation) value Meta.empty
    end).

(** [u64] and [i64] are both integers here, so their implementations have names. *)
Definition u64_from_value : FromValue Z := from_number cast_u64 "an unsigned integer".
Definition u64_into_value : IntoValue Z := U64.
Definition i64_from_value : FromValue Z := from_number cast_i64 "a signed integer".
Definition i64_into_value : IntoValue Z := I64.
#[export] Instance from_value_f64 : FromValue f64 := from_number cast_f64 "a floating point number".
#[export] Instance into_value_f64 : IntoValue f64 := F64.

(** ** Containers *)

#[export] Instance from_value_array {T} `{FromValue T} : FromValue (list (Annotated T)) := fun value =>
  match value with
  | MkAnnotated (Some (Array items)) meta => MkAnnotated (Some (from_value <$> items)) meta
  | MkAnnotated None meta => MkAnnotated None meta
  | MkAnnotated (Some value) meta => reject (error_expected "an array") value meta
  end.
#[export] Instance into_value_array {T} `{IntoValue T} : IntoValue (list (Annotated T)) := fun self =>
  Array ((fun x => Annotated.map_value x into_value) <$> self).

#[export] Instance from_value_object {T} `{FromValue T} : FromValue (gmap string (Annotated T)) := fun value =>
  match value with
  | MkAnnotated (Some (Types.Object items)) meta =>
      MkAnnotated (Some (list_to_map ((fun kv => (kv.1, from_value kv.2)) <$> items))) meta
  | MkAnnotated None meta => MkAnnotated None meta
  | MkAnnotated (Some value) meta => reject (error_expected "an object") value meta
  end.
#[export] Instance into_value_object {T} `{IntoValue T} : IntoValue (gmap string (Annotated T)) := fun self =>
  Types.Object (btree_entries ((fun x => Annotated.map_value x into_value) <$> self)).

(** [tuple_meta_structure!(2, T1, T2)] *)
#[export] Instance from_value_pair {T U} `{FromValue T, FromValue U} : FromValue (Annotated T * Annotated U) :=
  fun annotated =>
  match annotated with
  | MkAnnotated (Some (Array [a; b])) meta => MkAnnotated (Some (from_value a, from_value b)) meta
  | MkAnnotated (Some value) meta => reject (error_expected "a tuple") value meta
  | MkAnnotated None meta => MkAnnotated None meta
  end.
#[export] Instance into_value_pair {T U} `{IntoValue T, IntoValue U} : IntoValue (Annotated T * Annotated U) :=
  fun '(a, b) => Array [Annotated.map_value a into_value; Annotated.map_value b into_value].

(** [Values<T>]: a list, an object with the list in [values], or one element. *)
Fixpoint assoc_remove (key : string) (l : list (string * Annotated Value))
  : option (Annotated Value) * list (string * Annotated Value) :=
  match l with
  | [] => (None, [])
  | (k, v) :: l =>
      if bool_decide (k = key) then (Some v, l)
      else let '(found, l) := assoc_remove key l in (found, (k, v) :: l)
  end.

#[export] Instance from_value_values {T} `{FromValue T} : FromValue (Values T) := fun value =>
  match value with
  | MkAnnotated (Some (Array items)) meta =>
      MkAnnotated (Some (MkValues (MkAnnotated (Some (from_value <$> items)) meta) ∅)) Meta.empty
  | MkAnnotated (Some (Types.Object obj)) meta =>
      if bool_decide (List.length obj = 0%nat) then MkAnnotated None meta
      else
        match assoc_remove "values" obj with
        | (Some values, obj) => MkAnnotated (Some (MkValues (from_value values) (list_to_map obj))) meta
        | (None, _) =>
            MkAnnotated
              (Some (MkValues (MkAnnotated (Some [from_value (MkAnnotated (Some (Types.Object obj)) meta)]) Meta.empty) ∅))
              Meta.empty
        end
  | MkAnnotated None meta => MkAnnotated None meta
  | MkAnnotated (Some value) meta => reject (error_expected "a list or values object") value meta
  end.
#[export] Instance into_value_values {T} `{IntoValue T} : IntoValue (Values T) := fun self =>
  Types.Object (btree_entries (values_other self ∪ {["values" := Annotated.map_value (values self) into_value]})).


(** ** The types of protocol/types.rs *)

(** [x as u64] of an [i64]. *)
Definition i64_as_u64 (x : Z) : Z := x mod 2 ^ 64.
(** [x as i64] of a [u64]. *)
Definition u64_as_i64 (x : Z) : Z := if bool_decide (x <= i64_max) then x else x - 2 ^ 64.

Definition addr_from_value (expectation : string) : FromValue Z := fun value =>
  match value with
  | MkAnnotated (Some (String_ value)) meta =>
      match Addr.from_str value with
      | Ok value => MkAnnotated (Some value) meta
      | Err err => reject (error_invalid (ParseIntError.to_string err)) (String_ value) meta
      end
  | MkAnnotated (Some (U64 value)) meta => MkAnnotated (Some value) meta
  | MkAnnotated (Some (I64 value)) meta => MkAnnotated (Some (i64_as_u64 value)) meta
  | MkAnnotated None meta => MkAnnotated None meta
  | MkAnnotated (Some value) meta => reject (error_expected expectation) value meta
  end.
Definition addr_into_value : IntoValue Z := fun self => String_ (Addr.to_string self).

(** [IpAddr]: an address or the placeholder that Relay fills in. *)
Definition ip_auto : IpAddr := "{{auto}}".
Definition ip_parse (value : string) : option IpAddr :=
  if bool_decide (value = ip_auto) || net_ip value then Some value else None.
Definition ip_is_auto (self : IpAddr) : bool := bool_decide (self = ip_auto).
Definition ip_is_valid (self : IpAddr) : bool := match ip_parse self with Some _ => true | None => false end.

Definition ip_from_value : FromValue IpAddr := fun value =>
  match value with
  | MkAnnotated (Some (String_ value)) meta =>
      match ip_parse value with
      | Some addr => MkAnnotated (Some addr) meta
      | None => reject (error_expected "an ip address") (String_ value) meta
      end
  | MkAnnotated None meta => MkAnnotated None meta
  | MkAnnotated (Some value) meta => reject (error_expected "an ip address") value meta
  end.

#[export] Instance from_value_level : FromValue Level := fun value =>
  match value with
  | MkAnnotated (Some (String_ value)) meta =>
      match level_from_str value with
      | Some level => MkAnnotated (Some level) meta
      | None => reject (error_invalid "invalid level") (String_ value) meta
      end
  | MkAnnotated (Some (U64 val)) meta =>
      match level_from_python_level val with
      | Some level => MkAnnotated (Some level) meta
      | None => reject (error_new ErrorKind.InvalidData) (U64 val) meta
      end
  | MkAnnotated (Some (I64 val)) meta =>
      match level_from_python_level (i64_as_u64 val) with
      | Some level => MkAnnotated (Some level) meta
      | None => reject (error_new ErrorKind.InvalidData) (I64 val) meta
      end
  | MkAnnotated None meta => MkAnnotated None meta
  | MkAnnotated (Some value) meta => reject (error_expected "a level") value meta
  end.
#[export] Instance into_value_level : IntoValue Level := fun self => String_ (level_to_string self).

(** [LenientString]: any primitive value as text. *)
Definition f64_trunc (x : f64) : f64 :=
  match x with
  | S754_finite s m e => let t := trunc_Z s m e in if bool_decide (t = 0) then S754_zero s else f64_of_Z t
  | x => x
  end.
Definition f64_abs (x : f64) : f64 := SFabs x.

Definition lenient_from_value : FromValue string := fun value =>
  match value with
  | MkAnnotated (Some (String_ string)) meta => MkAnnotated (Some string) meta
  | MkAnnotated (Some (Bool true)) meta => MkAnnotated (Some "True") meta
  | MkAnnotated (Some (Bool false)) meta => MkAnnotated (Some "False") meta
  | MkAnnotated (Some (U64 num)) meta => MkAnnotated (Some (u64_to_string num)) meta
  | MkAnnotated (Some (I64 num)) meta => MkAnnotated (Some (i64_to_string num)) meta
  | MkAnnotated (Some (F64 num)) meta =>
      if f64_ltb (f64_abs num) (f64_of_Z (2 ^ 53)) then MkAnnotated (Some (f64_text (f64_trunc num))) meta
      else reject (error_expected "a number with JSON precision") (F64 num) meta
  | MkAnnotated None meta => MkAnnotated None meta
  | MkAnnotated (Some value) meta => reject (error_expected "a primitive value") value meta
  end.

(** [JsonLenientString]: any value as text. *)
Definition json_lenient_from_value : FromValue string := fun value =>
  match value with
  | MkAnnotated (Some (String_ string)) meta => MkAnnotated (Some string) meta
  | MkAnnotated (Some other) meta => MkAnnotated (Some (json_text other)) meta
  | MkAnnotated None meta => MkAnnotated None meta
  end.

#[export] Instance from_value_thread_id : FromValue ThreadId := fun value =>
  match value with
  | MkAnnotated (Some (String_ value)) meta => MkAnnotated (Some (ThreadId.String_ value)) meta
  | MkAnnotated (Some (U64 value)) meta => MkAnnotated (Some (ThreadId.Int value)) meta
  | MkAnnotated (Some (I64 value)) meta => MkAnnotated (Some (ThreadId.Int (i64_as_u64 value))) meta
  | MkAnnotated None meta => MkAnnotated None meta
  | MkAnnotated (Some value) meta => reject (error_expected "a thread id") value meta
  end.
#[export] Instance into_value_thread_id : IntoValue ThreadId := fun self =>
  match self with ThreadId.String_ value => String_ value | ThreadId.Int value => U64 value end.

(** ** Dates *)

(** [Utc.timestamp_opt]: the range of dates, leap seconds included. *)
Definition timestamp_opt (secs nanos : Z) : option DateTime :=
  let t := secs * nanos_per_sec + nanos in
  if bool_decide (nanos < 2 * nanos_per_sec) && bool_decide (chrono_min <= secs * nanos_per_sec <= chrono_max)
  then Some t else None.

(** [x as i64] and [x as u32] of a float: saturating, 0 for NaN. *)
Definition saturate (lo hi : Z) (x : f64) : Z :=
  match x with
  | S754_nan => 0
  | S754_infinity s => if s then lo else hi
  | S754_zero _ => 0
  | S754_finite s m e => Z.max lo (Z.min hi (trunc_Z s m e))
  end.
Definition f64_as_i64 : f64 -> Z := saturate i64_min i64_max.
Definition f64_as_u32 : f64 -> Z := saturate 0 u32_max.
Definition f64_sub : f64 -> f64 -> f64 := SFsub f64_prec f64_emax.
Definition f64_mul : f64 -> f64 -> f64 := SFmul f64_prec f64_emax.
Definition f64_fract (x : f64) : f64 := f64_sub x (f64_trunc x).

(** [f64::round], half away from zero. *)
Definition f64_round (x : f64) : f64 :=
  match x with
  | S754_finite s m e =>
      if bool_decide (0 <= e) then x
      else
        let n := (2 * Zpos m + 2 ^ (- e)) / 2 ^ (1 - e) in
        match n with Zpos p => f64_of_Z (signed s p) | _ => S754_zero s end
  | x => x
  end.

Definition datetime_to_timestamp (dt : DateTime) : f64 :=
  let micros := f64_round (f64_div (f64_of_Z (dt mod nanos_per_sec)) (f64_of_Z 1000)) in
  f64_add (f64_of_Z (datetime_timestamp dt)) (f64_div micros (f64_of_Z 1000000)).

Definition utc_result_to_annotated (result : option DateTime) (original_value : Value) (meta : Meta)
  : Annotated DateTime :=
  match result with
  | Some value => MkAnnotated (Some value) meta
  | None => reject (error_invalid "timestamp out of range") original_value meta
  end.

(** The first instant of the year 10000. *)
Definition year_10000 : DateTime := 253402300800 * nanos_per_sec.

Definition parse_timestamp (value : Annotated Value) : Annotated DateTime :=
  match value with
  | MkAnnotated (Some (String_ value)) meta =>
      match match naive_datetime value with Some dt => Ok dt | None => rfc3339_datetime value end with
      | Ok value => MkAnnotated (Some value) meta
      | Err err => reject (error_invalid err) (String_ value) meta
      end
  | MkAnnotated (Some (U64 ts)) meta => utc_result_to_annotated (timestamp_opt (u64_as_i64 ts) 0) (U64 ts) meta
  | MkAnnotated (Some (I64 ts)) meta => utc_result_to_annotated (timestamp_opt ts 0) (I64 ts) meta
  | MkAnnotated (Some (F64 ts)) meta =>
      let secs := f64_as_i64 ts in
      let nanos := f64_as_u32 (f64_mul (f64_fract ts) (f64_of_Z 1000000000)) in
      utc_result_to_annotated (timestamp_opt secs nanos) (F64 ts) meta
  | MkAnnotated None meta => MkAnnotated None meta
  | MkAnnotated (Some value) meta => reject (error_expected "a timestamp") value meta
  end.

Definition timestamp_from_value : FromValue Timestamp := fun value =>
  match parse_timestamp value with
  | MkAnnotated (Some value) meta =>
      if bool_decide (year_10000 <= value)
      then reject (error_invalid "timestamp out of range") (F64 (datetime_to_timestamp value)) meta
      else MkAnnotated (Some value) meta
  | x => x
  end.
Definition timestamp_into_value : IntoValue Timestamp := fun self => F64 (datetime_to_timestamp self).

(** ** Pair lists *)

Definition as_str {K} (self : Annotated K) : option K := Annotated.value self.

Section PairList.
Context {V : Type}.

(** The index among the entries that have a value. *)
Definition position (self : PairList string V) (key : string) : option nat :=
  fst <$> list_find (fun entry => as_str entry.1 = Some key) (omap Annotated.value self).

Definition contains (self : PairList string V) (key : string) : bool := bool_decide (is_Some (position self key)).

(** [remove] takes that index of all entries. *)
Definition remove (self : PairList string V) (key : string) : option (Annotated V) * PairList string V :=
  match position self key with
  | None => (None, self)
  | Some index =>
      (entry ← self !! index; entry ← Annotated.value entry; Some entry.2, take index self ++ drop (S index) self)
  end.

Definition insert (self : PairList string V) (key : string) (value : Annotated V) : PairList string V :=
  match position self key with
  | Some index =>
      alter (fun entry => Annotated.map_value entry (fun pair => (pair.1, value))) index self
  | None => self ++ [Annotated.new (Annotated.new key, value)]
  end.

(** [Headers::get_header] *)
Fixpoint get_header (self : PairList string V) (key : string) : option V :=
  match self with
  | [] => None
  | item :: self =>
      match Annotated.value item with
      | Some (k, v) => if bool_decide (as_str k = Some key) then as_str v else get_header self key
      | None => get_header self key
      end
  end.

End PairList.

(** Pairs from an array of pairs, or from an object. *)
Definition pairlist_from_value {T} `{FT : FromValue T} (value : Annotated Value) : Annotated (list (Annotated T)) :=
  match value with
  | MkAnnotated (Some (Array items)) meta => MkAnnotated (Some (from_value <$> items)) meta
  | MkAnnotated (Some (Types.Object items)) meta =>
      MkAnnotated
        (Some ((fun kv => from_value (Annotated.new (Array [Annotated.new (String_ kv.1); kv.2]))) <$> items)) meta
  | other => from_value other
  end.

(** [str::replace] of one character. *)
Fixpoint replace_char (from : ascii) (to s : string) : string :=
  match s with
  | EmptyString => EmptyString
  | String c s => if bool_decide (c = from) then to +:+ replace_char from to s else String c (replace_char from to s)
  end.

(** [TagEntry::from_value] *)
Definition tag_from_value : FromValue (Annotated string * Annotated string) := fun value =>
  let FL := lenient_from_value in
  Annotated.map_value (from_value_pair (H := FL) (H0 := FL) value) (fun '(key, value) =>
    (Annotated.map_value key (fun x => trim (replace_char " " "-" x)),
     Annotated.map_value value trim)).

Definition tags_from_value : Annotated Value -> Annotated (PairList string string) :=
  pairlist_from_value (FT := tag_from_value).

End Conversions.

(** ** [Deserialize for Value]: numbers *)

(** [visit_u64]: the comparison holds for every number. *)
Definition visit_u64 (value : Z) : Value :=
  let signed_value := u64_as_i64 value in
  if bool_decide (i64_as_u64 signed_value = value) then I64 signed_value else U64 value.

(** ** No value is dropped silently *)

(** What every implementation promises: a missing value stays missing, errors that
    were there remain, and a value that is not converted leaves an error. *)
Class Faithful {T} (FV : FromValue T) : Prop := {
  null_kept m : FV (MkAnnotated None m) = MkAnnotated None m;
  errors_kept v m : Meta.errors m ⊆ Meta.errors (Annotated.meta (FV (MkAnnotated (Some v) m)));
  complains v m :
    Annotated.value (FV (MkAnnotated (Some v) m)) = None ->
    Meta.errors (Annotated.meta (FV (MkAnnotated (Some v) m))) <> [];
}.

(** What was written is read back. *)
Class Convertible {T} (FV : FromValue T) (IV : IntoValue T) (valid : T -> Prop) : Prop :=
  convert (a : Annotated T) :
    (forall t, Annotated.value a = Some t -> valid t) -> FV (Annotated.map_value a IV) = a.

Section Laws.
Context {CE : ConvEnv}.

Lemma errors_set_original m v : Meta.errors (set_original m v) = Meta.errors m.
Proof.
  unfold set_original, set_original_value. case_bool_decide; [|done].
  destruct m as [[[]|]]; reflexivity.
Qed.

Lemma errors_add_error m err :
  Meta.errors m ⊆ Meta.errors (Meta.add_error m err) /\ Meta.errors (Meta.add_error m err) <> [].
Proof.
  destruct m as [[[rs es l o]|]]; unfold Meta.add_error, Meta.errors; simpl; [|set_solver].
  destruct (existsb _ _) eqn:E; simpl; [|split; [set_solver|by destruct es]].
  split; [done|]. by destruct es.
Qed.

Lemma reject_faithful {T} err v m :
  Meta.errors m ⊆ Meta.errors (Annotated.meta (reject (T := T) err v m))
  /\ Meta.errors (Annotated.meta (reject (T := T) err v m)) <> [].
Proof. unfold reject. simpl. rewrite errors_set_original. apply errors_add_error. Qed.

Lemma errors_merge a b : Meta.errors (Meta.merge a b) = Meta.errors a ++ Meta.errors b.
Proof.
  pose proof (contents_merge a b) as H. unfold contents in H. by simplify_eq.
Qed.

(** A conversion whose arms keep the meta data with a value or reject. *)
Definition passes {T} (FV : FromValue T) : Prop :=
  forall v m, (exists t, FV (MkAnnotated (Some v) m) = MkAnnotated (Some t) m)
    \/ (exists err v', FV (MkAnnotated (Some v) m) = reject err v' m).

Lemma passes_faithful {T} (FV : FromValue T) :
  (forall m, FV (MkAnnotated None m) = MkAnnotated None m) -> passes FV -> Faithful FV.
Proof.
  intros Hn Hp. split; [done|..]; intros v m; destruct (Hp v m) as [ [t ->] | (err & v' & ->)]; try done.
  - apply reject_faithful.
  - intros _. apply reject_faithful.
Qed.

(** Each arm of a conversion either passes or rejects. *)
Ltac passes :=
  apply passes_faithful; [done|];
  intros v m; cbn;
  repeat (match goal with |- context [match ?x with _ => _ end] => destruct x end; cbn);
  solve [left; eexists; reflexivity | right; eexists _, _; reflexivity].

#[export] Instance faithful_string : Faithful from_value_string.
Proof. passes. Qed.
#[export] Instance faithful_bool : Faithful from_value_bool.
Proof. passes. Qed.
#[export] Instance faithful_array {T} (FV : FromValue T) : Faithful (from_value_array (H := FV)).
Proof. passes. Qed.
#[export] Instance faithful_object {T} (FV : FromValue T) : Faithful (from_value_object (H := FV)).
Proof. passes. Qed.
#[export] Instance faithful_pair {T U} (FT : FromValue T) (FU : FromValue U) :
  Faithful (from_value_pair (H := FT) (H0 := FU)).
Proof. passes. Qed.
#[export] Instance faithful_addr expectation : Faithful (addr_from_value expectation).
Proof. passes. Qed.
#[export] Instance faithful_ip : Faithful ip_from_value.
Proof. passes. Qed.
#[export] Instance faithful_level : Faithful from_value_level.
Proof. passes. Qed.
#[export] Instance faithful_lenient : Faithful lenient_from_value.
Proof. passes. Qed.
#[export] Instance faithful_json_lenient : Faithful json_lenient_from_value.
Proof. passes. Qed.
#[export] Instance faithful_thread_id : Faithful from_value_thread_id.
Proof. passes. Qed.

#[export] Instance faithful_number {T} (cast : Value -> option T) expectation :
  Faithful (from_number cast expectation).
Proof.
  unfold from_number. split; [done|..]; intros v m; cbn [Annotated.and_then]; destruct (cast v); try done.
  - simpl. rewrite errors_merge. set_solver.
  - simpl. rewrite errors_merge, errors_set_original. intros _ [_ He]%app_nil. by simpl in He.
Qed.

(** One more check of a converted value. *)
Lemma faithful_then {T U} (FV : FromValue T) (FU : FromValue U) (g : T -> Meta -> Annotated U) :
  Faithful FV ->
  (forall t m, Meta.errors m ⊆ Meta.errors (Annotated.meta (g t m))) ->
  (forall t m, Annotated.value (g t m) = None -> Meta.errors (Annotated.meta (g t m)) <> []) ->
  (forall v, FU v = match FV v with MkAnnotated (Some t) m => g t m | MkAnnotated None m => MkAnnotated None m end) ->
  Faithful FU.
Proof.
  intros [Hn Hk Hc] Hg Hgc Heq. split.
  - intros m. by rewrite Heq, Hn.
  - intros v m. rewrite Heq. specialize (Hk v m). destruct (FV _) as [[t|] m']; simpl in *; [|done].
    etrans; [done|apply Hg].
  - intros v m. rewrite Heq. specialize (Hc v m). destruct (FV _) as [[t|] m']; simpl in *; [apply Hgc|auto].
Qed.

Lemma faithful_parse_timestamp : Faithful parse_timestamp.
Proof. unfold parse_timestamp, utc_result_to_annotated. passes. Qed.

#[export] Instance faithful_timestamp : Faithful timestamp_from_value.
Proof.
  apply (faithful_then _ _ (fun t m =>
    if bool_decide (year_10000 <= t)
    then reject (error_invalid "timestamp out of range") (F64 (datetime_to_timestamp t)) m
    else MkAnnotated (Some t) m) faithful_parse_timestamp).
  - intros t m. case_bool_decide; [apply reject_faithful|done].
  - intros t m. case_bool_decide; [intros _; apply reject_faithful|done].
  - intros v. unfold timestamp_from_value. by destruct (parse_timestamp v) as [[]].
Qed.

#[export] Instance faithful_pairlist {T} (FV : FromValue T) : Faithful (pairlist_from_value (FT := FV)).
Proof. unfold pairlist_from_value. passes. Qed.

#[export] Instance faithful_tag : Faithful tag_from_value.
Proof.
  apply (faithful_then (from_value_pair (H := lenient_from_value) (H0 := lenient_from_value)) _
    (fun kv m => MkAnnotated (Some (Annotated.map_value kv.1 (fun x => trim (replace_char " " "-" x)),
                                     Annotated.map_value kv.2 trim)) m) _); [done..|].
  intros v. unfold tag_from_value. by destruct (from_value_pair v) as [[[]|] ].
Qed.

(** Value lists are the exception: an empty object is dropped without an error. *)
Lemma values_silent {T} (FV : FromValue T) v m :
  v <> Types.Object [] -> Annotated.value (from_value_values (H := FV) (MkAnnotated (Some v) m)) = None ->
  Meta.errors (Annotated.meta (from_value_values (H := FV) (MkAnnotated (Some v) m))) <> [].
Proof.
  destruct v as [ | | | | | |obj]; cbn -[reject]; try done; try (intros _ _; apply reject_faithful).
  destruct obj as [|[k v] obj]; [done|]. cbn.
  destruct (bool_decide (k = "values")); [done|]. by destruct (assoc_remove "values" obj) as [ [] ].
Qed.

(** C34: These conversions drop no value silently: strings, booleans, numbers, levels,
    addresses, IP addresses, lenient strings, thread ids, timestamps, lists of tags, pairs, arrays
    and objects of any type.  A missing value stays missing, the errors recorded before remain,
    and a value of the wrong shape, out of range or not parsable leaves an error in the meta
    data.  Value lists do so too for everything but the empty object, which disappears
    without an error. *)
Theorem conversions_complain :
  Faithful from_value_string /\ Faithful from_value_bool /\ Faithful u64_from_value
  /\ Faithful i64_from_value /\ Faithful from_value_f64 /\ Faithful from_value_level
  /\ Faithful (addr_from_value "address") /\ Faithful (addr_from_value "register value")
  /\ Faithful ip_from_value /\ Faithful lenient_from_value /\ Faithful json_lenient_from_value
  /\ Faithful from_value_thread_id /\ Faithful timestamp_from_value /\ Faithful tags_from_value
  /\ (forall T U (FT : FromValue T) (FU : FromValue U), Faithful (from_value_pair (H := FT) (H0 := FU)))
  /\ (forall T (FV : FromValue T), Faithful (from_value_array (H := FV)))
  /\ (forall T (FV : FromValue T), Faithful (from_value_object (H := FV)))
  /\ (forall T (FV : FromValue T) m,
        from_value_values (H := FV) (MkAnnotated (Some (Types.Object [])) m) = MkAnnotated None m
        /\ forall v, v <> Types.Object [] -> Annotated.value (from_value_values (H := FV) (MkAnnotated (Some v) m)) = None ->
           Meta.errors (Annotated.meta (from_value_values (H := FV) (MkAnnotated (Some v) m))) <> []).
Proof. repeat split_and; try apply _; intros; try apply _. split; [done|]. intros v. apply values_silent. Qed.

(** *** Round trips *)

Definition anything {T} (_ : T) : Prop := True.
Definition all_valid {T} (valid : T -> Prop) (a : Annotated T) : Prop :=
  forall t, Annotated.value a = Some t -> valid t.

Ltac converts := intros [[t|] m] Hv; [specialize (Hv t eq_refl); simpl in Hv|reflexivity].

#[export] Instance convertible_string : Convertible from_value_string into_value_string anything.
Proof. by converts. Qed.
#[export] Instance convertible_bool : Convertible from_value_bool into_value_bool anything.
Proof. by converts. Qed.
#[export] Instance convertible_u64 : Convertible u64_from_value u64_into_value anything.
Proof. by converts. Qed.
#[export] Instance convertible_i64 : Convertible i64_from_value i64_into_value anything.
Proof. by converts. Qed.
#[export] Instance convertible_f64 : Convertible from_value_f64 into_value_f64 anything.
Proof. by converts. Qed.
#[export] Instance convertible_level : Convertible from_value_level into_value_level anything.
Proof. converts. by destruct t. Qed.
#[export] Instance convertible_thread_id : Convertible from_value_thread_id into_value_thread_id anything.
Proof. converts. by destruct t. Qed.
#[export] Instance convertible_ip : Convertible ip_from_value String_ (fun ip => ip_is_valid ip = true).
Proof.
  converts. unfold ip_is_valid, ip_parse in Hv. simpl. unfold ip_parse. by destruct (_ || _).
Qed.

Section Containers.
Context {T U : Type} (FT : FromValue T) (IT : IntoValue T) (valid : T -> Prop).
Context (FU : FromValue U) (IU : IntoValue U) (valid' : U -> Prop).
Context {CT : Convertible FT IT valid} {CU : Convertible FU IU valid'}.

Lemma convert_list l :
  Forall (all_valid valid) l -> FT <$> ((fun a => Annotated.map_value a IT) <$> l) = l.
Proof.
  induction 1 as [|a l Ha _ IH]; [done|]. cbn. f_equal; [by apply CT|apply IH].
Qed.

#[export] Instance convertible_array :
  Convertible (from_value_array (H := FT)) (into_value_array (H := IT)) (Forall (all_valid valid)).
Proof. converts. simpl. unfold into_value_array, from_value, into_value. by rewrite convert_list. Qed.

#[export] Instance convertible_pair :
  Convertible (from_value_pair (H := FT) (H0 := FU)) (into_value_pair (H := IT) (H0 := IU))
    (fun p => all_valid valid p.1 /\ all_valid valid' p.2).
Proof.
  converts. destruct t as [a b], Hv as [Ha Hb]. simpl in *.
  pose proof (CT a Ha) as HT. pose proof (CU b Hb) as HU.
  unfold from_value, into_value in *. by rewrite HT, HU.
Qed.

Lemma btree_entries_to_map {A} (m : gmap string A) : list_to_map (btree_entries m) = m.
Proof.
  rewrite <- (list_to_map_to_list m) at 2. unfold btree_entries.
  apply list_to_map_proper; [|apply merge_sort_Permutation].
  rewrite merge_sort_Permutation. apply NoDup_fst_map_to_list.
Qed.

#[export] Instance convertible_object :
  Convertible (from_value_object (H := FT)) (into_value_object (H := IT))
    (fun m => map_Forall (fun _ => all_valid valid) m).
Proof.
  converts. simpl. do 2 f_equal. unfold into_value_object.
  change (fun kv : string * Annotated Value => (kv.1, from_value kv.2)) with (prod_map (@id string) FT).
  rewrite list_to_map_fmap, btree_entries_to_map, <- map_fmap_compose.
  rewrite <- (map_fmap_id t) at 2. apply map_fmap_ext. intros k a Hk. apply CT. by apply (Hv k).
Qed.

End Containers.

(** *** Hexadecimal numbers *)

Lemma to_digit_hex_char d : 0 <= d < 16 -> to_digit 16 (hex_char d) = Some d.
Proof.
  intros Hd. assert (d = 0 \/ d = 1 \/ d = 2 \/ d = 3 \/ d = 4 \/ d = 5 \/ d = 6 \/ d = 7 \/ d = 8 \/ d = 9
    \/ d = 10 \/ d = 11 \/ d = 12 \/ d = 13 \/ d = 14 \/ d = 15) as Hc by lia.
  repeat (destruct Hc as [-> |Hc]; [reflexivity|]). subst. reflexivity.
Qed.

Lemma parse_hex_digits f n acc :
  0 <= n < 16 ^ Z.of_nat f -> (0 < f)%nat -> n <= u64_max ->
  parse_digits 16 0 (hex_digits f n acc) = parse_digits 16 n acc.
Proof.
  revert n acc. induction f as [|f IH]; intros n acc Hn Hf Hmax; [lia|].
  rewrite Nat2Z.inj_succ, Z.pow_succ_r in Hn by lia.
  pose proof (Z.div_mod n 16 ltac:(lia)) as Hdm. pose proof (Z.mod_pos_bound n 16 ltac:(lia)).
  cbn [hex_digits]. case_bool_decide as Hz.
  - cbn [parse_digits]. rewrite to_digit_hex_char by lia.
    rewrite bool_decide_eq_false_2 by lia. f_equal. lia.
  - assert (0 <= n / 16 < 16 ^ Z.of_nat f) by (split; [apply Z.div_pos|apply Z.div_lt_upper_bound]; lia).
    assert (0 < f)%nat by (destruct f; [simpl in *; lia|lia]).
    rewrite IH by lia. cbn [parse_digits]. rewrite to_digit_hex_char by lia.
    rewrite bool_decide_eq_false_2 by lia. f_equal. lia.
Qed.

Lemma to_digit_plus radix : to_digit radix "+" = None.
Proof.
  unfold to_digit. change (is_ascii_digit "+") with false. change (is_ascii_lowercase "+") with false.
  change (is_ascii_uppercase "+") with false. by rewrite bool_decide_eq_false_2 by lia.
Qed.

Lemma from_str_radix_digits s radix n :
  s <> "" -> parse_digits radix 0 s = Ok n -> from_str_radix s radix = Ok n.
Proof.
  intros Hs Hp. destruct s as [|c s]; [done|].
  assert (c <> "+"%char) as Hc.
  { intros ->. cbn [parse_digits] in Hp. by rewrite to_digit_plus in Hp. }
  destruct c as [[] [] [] [] [] [] [] []]; try exact Hp. by destruct Hc.
Qed.

Lemma hex_digits_nonempty f n acc : (0 < f)%nat -> hex_digits f n acc <> "".
Proof.
  revert n acc. induction f as [|f IH]; [lia|]. intros n acc _. cbn [hex_digits].
  case_bool_decide; [done|]. destruct f; [done|]. apply IH. lia.
Qed.

Lemma starts_with_app p s : starts_with p (p +:+ s) = true.
Proof.
  unfold starts_with. induction p as [|a p IH]; [by destruct s|]. cbn. destruct (ascii_dec a a); [apply IH|done].
Qed.

Lemma addr_parse_print n : in_u64 n -> Addr.from_str (Addr.to_string n) = Ok n.
Proof.
  intros Hn. unfold Addr.from_str, Addr.to_string.
  rewrite (starts_with_app "0x"). cbn [orb].
  rewrite (str_from_app "0x"). unfold in_u64 in Hn.
  apply from_str_radix_digits; [apply hex_digits_nonempty; lia|].
  rewrite parse_hex_digits; [reflexivity|..]; unfold u64_max in *; simpl; lia.
Qed.

#[export] Instance convertible_addr expectation :
  Convertible (addr_from_value expectation) addr_into_value in_u64.
Proof. converts. cbn -[Addr.to_string Addr.from_str]. by rewrite addr_parse_print. Qed.

(** *** Lists of values *)

Lemma assoc_remove_map key (l : list (string * Annotated Value)) :
  NoDup l.*1 ->
  (assoc_remove key l).1 = (list_to_map l : gmap string (Annotated Value)) !! key
  /\ list_to_map (assoc_remove key l).2 = delete key (list_to_map l : gmap string (Annotated Value)).
Proof.
  induction l as [|[k v] l IH]; intros Hnd; cbn [assoc_remove]; [by rewrite list_to_map_nil, delete_empty|].
  apply NoDup_cons in Hnd as [Hk Hnd]. destruct (IH Hnd) as [H1 H2].
  rewrite list_to_map_cons. case_bool_decide as Hkey.
  - simpl in *. subst k. rewrite lookup_insert_eq. split; [done|].
    rewrite delete_insert_id; [done|]. by apply not_elem_of_list_to_map.
  - destruct (assoc_remove key l) as [found l']. simpl in *.
    rewrite lookup_insert_ne, H1 by done. split; [done|].
    by rewrite H2, delete_insert_ne.
Qed.

#[export] Instance convertible_values {T} (FT : FromValue T) (IT : IntoValue T) valid :
  Convertible FT IT valid ->
  Convertible (from_value_values (H := FT)) (into_value_values (H := IT))
    (fun vs => all_valid (Forall (all_valid valid)) (values vs) /\ values_other vs !! "values" = None).
Proof.
  intros CT. converts. destruct t as [vs other], Hv as [Hvs Hother]. simpl in *.
  unfold into_value_values. cbn [values values_other].
  set (x := Annotated.map_value vs into_value). set (l := btree_entries _).
  assert (list_to_map l = other ∪ {["values" := x]}) as Hl by apply btree_entries_to_map.
  assert (NoDup l.*1) as Hnd.
  { unfold l, btree_entries. rewrite merge_sort_Permutation. apply NoDup_fst_map_to_list. }
  destruct (assoc_remove_map "values" l Hnd) as [H1 H2]. rewrite Hl in H1, H2.
  rewrite lookup_union_r, lookup_singleton_eq in H1 by done.
  rewrite delete_union, delete_singleton_eq, (right_id_L ∅ (∪)), delete_id in H2 by done.
  cbn. destruct (assoc_remove "values" l) as [found l'] eqn:Er. simpl in H1, H2. subst found.
  rewrite bool_decide_eq_false_2 by (intros ->%nil_length_inv; by simpl in Er).
  rewrite H2. do 3 f_equal. by apply (convertible_array FT IT valid vs).
Qed.

(** C35: What [into_value] writes [from_value] reads back with its meta data: strings, booleans,
    numbers, levels, thread ids, addresses in hexadecimal, valid IP addresses, and
    arrays, objects, pairs and value lists of types that do.  Timestamps do not: they are
    written as floats with microseconds, and one nanosecond comes back as none. *)
Theorem conversions_roundtrip :
  Convertible from_value_string into_value_string anything
  /\ Convertible from_value_bool into_value_bool anything
  /\ Convertible u64_from_value u64_into_value anything
  /\ Convertible i64_from_value i64_into_value anything
  /\ Convertible from_value_f64 into_value_f64 anything
  /\ Convertible from_value_level into_value_level anything
  /\ Convertible from_value_thread_id into_value_thread_id anything
  /\ Convertible (addr_from_value "address") addr_into_value in_u64
  /\ Convertible ip_from_value String_ (fun ip => ip_is_valid ip = true)
  /\ (forall m, timestamp_from_value (MkAnnotated (Some (timestamp_into_value 1)) m) = MkAnnotated (Some 0) m)
  /\ (forall T (FT : FromValue T) (IT : IntoValue T) valid,
        Convertible FT IT valid ->
        Convertible (from_value_array (H := FT)) (into_value_array (H := IT)) (Forall (all_valid valid))
        /\ Convertible (from_value_object (H := FT)) (into_value_object (H := IT))
             (fun m => map_Forall (fun _ => all_valid valid) m)
        /\ Convertible (from_value_pair (H := FT) (H0 := FT)) (into_value_pair (H := IT) (H0 := IT))
             (fun p => all_valid valid p.1 /\ all_valid valid p.2)
        /\ Convertible (from_value_values (H := FT)) (into_value_values (H := IT))
             (fun vs => all_valid (Forall (all_valid valid)) (values vs) /\ values_other vs !! "values" = None)).
Proof. split_and!; try apply _; [by intros m|]. intros T FT IT valid HT. split_and!; apply _. Qed.

End Laws.

(** ** Pair lists as maps *)

Section PairLists.
Context {V : Type}.
Implicit Types (l : PairList string V) (k : string).

Definition no_nulls l : Prop := Forall (fun e => is_Some (Annotated.value e)) l.
Definition has_key k (e : Annotated (Annotated string * Annotated V)) : Prop :=
  (p ← Annotated.value e; as_str p.1) = Some k.
Definition lacks k l : Prop := Forall (fun e => ~ has_key k e) l.

(** Without null entries the index that [position] finds is the one of the first
    entry with the key. *)
Lemma position_split l k :
  no_nulls l ->
  match position l k with
  | Some i =>
      exists l1 kk v m l2, l = l1 ++ MkAnnotated (Some (kk, v)) m :: l2 /\ List.length l1 = i
        /\ as_str kk = Some k /\ lacks k l1
  | None => lacks k l
  end.
Proof.
  unfold position. induction 1 as [|[e m] l [ [kk v] He] _ IH]; simpl; [constructor|].
  simpl in He. subst e. simpl. case_decide as Hk; simpl.
  - exists [], kk, v, m, l. by repeat constructor.
  - destruct (list_find _ _) as [ [i p] |]; simpl in *; [|by constructor].
    destruct IH as (l1 & kk' & v' & m' & l2 & -> & <- & Hkk & Hl1).
    exists (MkAnnotated (Some (kk, v)) m :: l1), kk', v', m', l2. repeat split; [done|]. by constructor.
Qed.

Lemma get_header_app l1 l2 k : lacks k l1 -> get_header (l1 ++ l2) k = get_header l2 k.
Proof.
  induction 1 as [|[[[kk v]|] m] l1 He _ IH]; simpl; [done|..|done].
  by rewrite bool_decide_eq_false_2 by exact He.
Qed.

Lemma get_header_lacks l k : lacks k l -> get_header l k = None.
Proof. intros H. rewrite <- (app_nil_r l). by rewrite get_header_app. Qed.

(** The entries in front of the one that changes do not matter for another key. *)
Lemma get_header_change l1 kk kk' v v' m m' l2 k :
  as_str kk <> Some k -> as_str kk' <> Some k ->
  get_header (l1 ++ MkAnnotated (Some (kk, v)) m :: l2) k
  = get_header (l1 ++ MkAnnotated (Some (kk', v')) m' :: l2) k.
Proof.
  intros Hk Hk'. induction l1 as [|[[[k1 v1]|] m1] l1 IH]; simpl; [by rewrite !bool_decide_eq_false_2|..|done].
  by rewrite IH.
Qed.

Lemma get_header_drop l1 kk v m l2 k :
  as_str kk <> Some k -> get_header (l1 ++ MkAnnotated (Some (kk, v)) m :: l2) k = get_header (l1 ++ l2) k.
Proof.
  intros Hk. induction l1 as [|[[[k1 v1]|] m1] l1 IH]; simpl; [by rewrite bool_decide_eq_false_2|..|done].
  by rewrite IH.
Qed.

Lemma pairlist_remove_split l k :
  no_nulls l ->
  (exists l1 kk v m l2, l = l1 ++ MkAnnotated (Some (kk, v)) m :: l2 /\ as_str kk = Some k /\ lacks k l1
     /\ remove l k = (Some v, l1 ++ l2))
  \/ (lacks k l /\ remove l k = (None, l)).
Proof.
  intros Hl. pose proof (position_split l k Hl) as Hp. unfold remove.
  destruct (position l k) as [i|]; [left|by right].
  destruct Hp as (l1 & kk & v & m & l2 & -> & <- & Hk & Hl1).
  exists l1, kk, v, m, l2. repeat split; [done..|].
  rewrite lookup_app_r, Nat.sub_diag by lia. simpl.
  rewrite take_app_length. change (?x :: l2) with ([x] ++ l2). rewrite app_assoc.
  by rewrite drop_app_length' by (rewrite length_app; simpl; lia).
Qed.

Lemma pairlist_insert_split l k v :
  no_nulls l ->
  (exists l1 kk v0 m l2, l = l1 ++ MkAnnotated (Some (kk, v0)) m :: l2 /\ as_str kk = Some k /\ lacks k l1
     /\ insert l k v = l1 ++ MkAnnotated (Some (kk, v)) m :: l2)
  \/ (lacks k l /\ insert l k v = l ++ [Annotated.new (Annotated.new k, v)]).
Proof.
  intros Hl. pose proof (position_split l k Hl) as Hp. unfold insert.
  destruct (position l k) as [i|]; [left|by right].
  destruct Hp as (l1 & kk & v0 & m & l2 & -> & <- & Hk & Hl1).
  exists l1, kk, v0, m, l2. repeat split; [done..|].
  by rewrite alter_app_r_alt, Nat.sub_diag by lia.
Qed.

(** A pair list without null entries is a map: after inserting a value under a
    key that value is found there and every other key has the value it had, and
    after removing a key every other key has the value it had. *)
Theorem pairlist_is_map l k v k' :
  no_nulls l ->
  get_header (insert l k v) k = Annotated.value v
  /\ (k' <> k -> get_header (insert l k v) k' = get_header l k')
  /\ (k' <> k -> get_header (remove l k).2 k' = get_header l k')
  /\ get_header l k = (remove l k).1 ≫= Annotated.value.
Proof.
  intros Hl. split_and!.
  - destruct (pairlist_insert_split l k v Hl) as [(l1 & kk & v0 & m & l2 & _ & Hk & Hl1 & ->) | [H ->]];
      rewrite get_header_app by done; simpl; by rewrite bool_decide_eq_true_2.
  - intros Hne. destruct (pairlist_insert_split l k v Hl) as [(l1 & kk & v0 & m & l2 & -> & Hk & _ & ->) | [H ->]].
    + apply get_header_change; congruence.
    + unfold Annotated.new. rewrite get_header_drop by (simpl; congruence). by rewrite app_nil_r.
  - intros Hne. destruct (pairlist_remove_split l k Hl) as [(l1 & kk & v0 & m & l2 & -> & Hk & _ & ->) | [_ ->]]; [|done].
    rewrite get_header_drop by congruence. done.
  - destruct (pairlist_remove_split l k Hl) as [(l1 & kk & v0 & m & l2 & -> & Hk & Hl1 & ->) | [Hn ->]].
    + rewrite get_header_app by done. simpl. by rewrite bool_decide_eq_true_2.
    + simpl. by apply get_header_lacks.
Qed.

(** A null entry in front shifts the index: another entry is removed and its value
    returned, or overwritten. *)
Lemma pairlist_null_shifts m k k' v v' v'' l :
  k <> k' ->
  let self := MkAnnotated None m :: Annotated.new (Annotated.new k', v')
              :: Annotated.new (Annotated.new k, v) :: l in
  remove self k = (Some v', MkAnnotated None m :: Annotated.new (Annotated.new k, v) :: l)
  /\ get_header (insert self k v'') k = Annotated.value v
  /\ get_header (insert self k v'') k' = Annotated.value v''.
Proof.
  intros Hne. unfold remove, insert, position. simpl.
  rewrite decide_False by congruence. rewrite decide_True by done. simpl.
  split_and!; [done|..]; repeat case_bool_decide; unfold as_str in *; simpl in *; congruence.
Qed.

End PairLists.

Definition sample_pairs : PairList string string :=
  [Annotated.new (Annotated.new "site", Annotated.new "a"); Annotated.new (Annotated.new "env", Annotated.new "b")].

Lemma pairlist_is_map_witness :
  get_header (insert sample_pairs "env" (Annotated.new "c")) "env" = Some "c"
  /\ get_header (insert sample_pairs "env" (Annotated.new "c")) "site" = Some "a"
  /\ get_header (remove sample_pairs "env").2 "site" = Some "a".
Proof.
  destruct (pairlist_is_map sample_pairs "env" (Annotated.new "c") "site") as (H1 & H2 & H3 & _);
    [repeat constructor; by eexists|].
  split_and!; [exact H1|by rewrite H2|by rewrite H3].
Defined.

(** ** Dates and numbers *)

(** A timestamp that is accepted lies before the year 10000; one that is given as a
    whole number of seconds is that instant, and is rejected with an error exactly
    when it lies outside the calendar or behind the year 9999. *)
Theorem timestamps_bounded `{CE : ConvEnv} value ts :
  from_option (fun t => t < year_10000) True (Annotated.value (timestamp_from_value value))
  /\ Annotated.value (timestamp_from_value (Annotated.new (I64 ts)))
     = (if bool_decide (chrono_min <= ts * nanos_per_sec < year_10000) then Some (ts * nanos_per_sec) else None).
Proof.
  split.
  - unfold timestamp_from_value. destruct (parse_timestamp value) as [[t'|] m']; [|done].
    case_bool_decide; [done|]. simpl. lia.
  - unfold timestamp_from_value. cbn -[year_10000 chrono_min]. unfold utc_result_to_annotated, timestamp_opt.
    rewrite Z.add_0_r. rewrite bool_decide_eq_true_2 by (unfold nanos_per_sec; lia). cbn -[year_10000 chrono_min chrono_max].
    assert (year_10000 <= chrono_max) by (vm_compute; congruence).
    repeat case_bool_decide; try done; exfalso; lia.
Qed.

Lemma u64_as_i64_inverse x : in_u64 x -> i64_as_u64 (u64_as_i64 x) = x.
Proof.
  intros Hx. unfold i64_as_u64, u64_as_i64, i64_max. unfold in_width in Hx.
  case_bool_decide; [apply Z.mod_small; lia|].
  rewrite <- (Z.mod_small x (2 ^ 64)) at 2 by lia.
  replace (x - 2 ^ 64) with (x + (-1) * 2 ^ 64) by lia. apply Z_mod_plus_full.
Qed.

(** Reading a number above the signed range gives a negative one, although the
    comparison is there to keep it unsigned: the two casts are inverse. *)
Lemma large_numbers_negative x :
  in_u64 x -> i64_max < x -> visit_u64 x = I64 (x - 2 ^ 64) /\ x - 2 ^ 64 < 0.
Proof.
  intros Hx Hmax. unfold visit_u64. rewrite u64_as_i64_inverse by done.
  rewrite bool_decide_eq_true_2 by done. unfold u64_as_i64, in_width in *.
  rewrite bool_decide_eq_false_2 by lia. split; [done|lia].
Qed.

(** ... which is then no unsigned integer any more. *)
Lemma large_numbers_rejected `{CE : ConvEnv} x :
  in_u64 x -> i64_max < x -> Annotated.value (u64_from_value (Annotated.new (visit_u64 x))) = None.
Proof.
  intros Hx Hmax. destruct (large_numbers_negative x Hx Hmax) as [-> Hneg].
  unfold u64_from_value, from_number. cbn -[Z.pow]. unfold in_range.
  by rewrite bool_decide_eq_false_2 by lia.
Qed.
