(* ===== verification/RequestValues.v ===== *)
(** * relay-general: values of requests and messages (protocol/request.rs,
      fingerprint.rs, logentry.rs, measurements.rs)

    The types whose [FromValue] is written by hand because clients send them in
    several shapes: cookies and query strings as text, objects or arrays of pairs,
    headers with normalized names, fingerprints, log entries and measurements.  They
    are read with the instances of Conversions.v.  [RequestFormats] is what they use
    of other packages, [RequestFormatsLaws] what the theorems rely on. *)

From Stdlib Require Import Ascii String.
From S2P Require Import Prelude Strings Floats Types Common Protocol Size Conversions.

Open Scope string_scope.
Open Scope Z_scope.
Open Scope list_scope.

Class RequestFormats := {
  (** url *)
  form_urlencoded : string -> list (string * string);
  (** cookie, [Cookie::parse_encoded]: name and value, or the text of the error *)
  cookie_parse : string -> result string (string * string);
  (** [char::to_uppercase] of a character in UTF-8 *)
  char_uppercase : string -> string;
  (** [sort_unstable_by] on headers, by name *)
  sort_headers : PairList string string -> PairList string string;
}.

Definition pairs_to_query (pairs : list (string * string)) : PairList string string :=
  (fun kv => Annotated.new (Annotated.new kv.1, Annotated.new kv.2)) <$> pairs.

(** Pairs as an object or an array; the arm behind [PairList::from_value]. *)
Definition is_collection (v : Value) : bool := match v with Types.Object _ | Array _ => true | _ => false end.

(** ** request.rs *)

Section Request.
Context {CE : ConvEnv} {RF : RequestFormats}.

Definition query_parse (s : string) : PairList string string :=
  pairs_to_query (form_urlencoded (match s with String "?" rest => rest | s => s end)).

Definition query_from_value : FromValue (PairList string string) := fun value =>
  match value with
  | MkAnnotated (Some (String_ v)) meta => MkAnnotated (Some (query_parse v)) meta
  | MkAnnotated None meta => MkAnnotated None meta
  | MkAnnotated (Some v) meta =>
      if is_collection v then
        pairlist_from_value (FT := from_value_pair (H := from_value_string) (H0 := json_lenient_from_value)) value
      else reject (error_expected "a query string or map") v meta
  end.

End Request.

Module Cookies.

(** An item of the iterator that [iter_cookies] returns. *)
Definition parse_cookie {RF : RequestFormats} (s : string) : result Error (Annotated (Annotated string * Annotated string)) :=
  match cookie_parse s with
  | Ok (name, value) => Ok (Annotated.new (Annotated.new name, Annotated.new value))
  | Err error => Err (error_invalid error)
  end.

Definition cookie_parts (s : string) : list string :=
  List.filter (fun cookie => negb (bool_decide (trim cookie = ""))) (split_on ";" s).

Definition iter_cookies {RF : RequestFormats} (s : string) : list (result Error (Annotated (Annotated string * Annotated string))) :=
  parse_cookie <$> cookie_parts s.

(** Collecting stops at the first error. *)
Definition parse {RF : RequestFormats} (s : string) : result Error (PairList string string) := mapM id (iter_cookies s).

(** The loop of [from_value]. *)
Definition collect_cookie (state : PairList string string * Meta)
  (result : result Error (Annotated (Annotated string * Annotated string))) : PairList string string * Meta :=
  match result with
  | Ok cookie => (state.1 ++ [cookie], state.2)
  | Err error => (state.1, Meta.add_error state.2 error)
  end.

Definition from_value {CE : ConvEnv} {RF : RequestFormats} : FromValue (PairList string string) := fun value =>
  match value with
  | MkAnnotated (Some (String_ v)) meta =>
      let '(cookies, meta) := foldl collect_cookie ([], meta) (iter_cookies v) in
      let meta := if Meta.has_errors meta && bool_decide (Meta.original_value meta = None)
                  then set_original meta (Some (String_ v)) else meta in
      MkAnnotated (Some cookies) meta
  | MkAnnotated None meta => MkAnnotated None meta
  | MkAnnotated (Some v) meta =>
      if is_collection v then
        pairlist_from_value (FT := from_value_pair (H := from_value_string) (H0 := from_value_string)) value
      else reject (error_expected "cookies") v meta
  end.

End Cookies.

Module HeaderName.

(** [fold] over the characters: the first one and those behind a dash are upper-cased. *)
Fixpoint normalize_chars {RF : RequestFormats} (uppercase : bool) (cs : list string) : string :=
  match cs with
  | [] => ""
  | c :: cs => (if uppercase then char_uppercase c else c) +:+ normalize_chars (bool_decide (c = "-")) cs
  end.

Definition new {RF : RequestFormats} (name : string) : string := normalize_chars true (chars name).

Definition from_value {CE : ConvEnv} {RF : RequestFormats} : FromValue string := fun value =>
  Annotated.map_value (from_value_string value) new.

End HeaderName.

Module HeaderValue.

(** One element of an array of values. *)
Definition push_value {CE : ConvEnv} (state : string * Meta) (array_value : Annotated Value) : string * Meta :=
  let '(header_value, meta) := state in
  let array_value := lenient_from_value array_value in
  let meta := foldl Meta.add_error meta (Meta.errors (Annotated.meta array_value)) in
  match Annotated.value array_value with
  | Some string => ((if bool_decide (header_value = "") then header_value else header_value +:+ ",") +:+ string, meta)
  | None => (header_value, meta)
  end.

Definition from_value {CE : ConvEnv} : FromValue string := fun value =>
  match value with
  | MkAnnotated (Some (Array array)) meta =>
      let '(header_value, meta) := foldl push_value ("", meta) array in MkAnnotated (Some header_value) meta
  | annotated => lenient_from_value annotated
  end.

End HeaderValue.

Module Headers.

(** [a.value().map(|x| x.0.value())], compared as options are. *)
Definition header_key (item : Annotated (Annotated string * Annotated string)) : option (option string) :=
  (fun pair => Annotated.value pair.1) <$> Annotated.value item.
Definition option_leb {A} (leb : A -> A -> bool) (a b : option A) : bool :=
  match a, b with
  | None, _ => true
  | Some _, None => false
  | Some a, Some b => leb a b
  end.
Definition header_le (a b : Annotated (Annotated string * Annotated string)) : Prop :=
  option_leb (option_leb String.leb) (header_key a) (header_key b) = true.

#[global] Instance header_le_dec : RelDecision header_le.
Proof. intros a b. unfold header_le. apply _. Defined.

Definition is_object (v : Annotated Value) : bool :=
  match Annotated.value v with Some (Types.Object _) => true | _ => false end.

Definition pairs_from_value {CE : ConvEnv} {RF : RequestFormats} : Annotated Value -> Annotated (PairList string string) :=
  pairlist_from_value (FT := from_value_pair (H := HeaderName.from_value) (H0 := HeaderValue.from_value)).

Definition from_value {CE : ConvEnv} {RF : RequestFormats} : FromValue (PairList string string) := fun value =>
  Annotated.map_value (pairs_from_value value) (fun pair_list => if is_object value then sort_headers pair_list else pair_list).

End Headers.

(** ** fingerprint.rs *)

Module Fingerprint.

(** The loop over the elements: the strings, and the values that are none. *)
Definition push_elem {CE : ConvEnv} (state : list string * list Value) (elem : Annotated Value) : list string * list Value :=
  let '(fingerprint, bad_values) := state in
  let '(MkAnnotated value elem_meta) := lenient_from_value elem in
  let fingerprint := match value, Meta.has_errors elem_meta with
                     | Some value, false => fingerprint ++ [value]
                     | _, _ => fingerprint
                     end in
  (fingerprint, match (Meta.take_original_value elem_meta).1 with
                | Some bad_value => bad_values ++ [bad_value]
                | None => bad_values
                end).

Definition bad_values_error (bad_values : list Value) : Error :=
  MkError ErrorKind.InvalidData [("value", Array (Annotated.new <$> bad_values))].

Definition from_value {CE : ConvEnv} : FromValue (list string) := fun value =>
  match value with
  | MkAnnotated (Some (Array array)) meta =>
      let '(fingerprint, bad_values) := foldl push_elem ([], []) array in
      let meta :=
        match bad_values with
        | [] => meta
        | _ =>
            let meta := match Meta.original_length meta with
                        | None => Meta.set_original_length meta (Some (Z.of_nat (List.length fingerprint + List.length bad_values)))
                        | Some _ => meta
                        end in
            Meta.add_error meta (bad_values_error bad_values)
        end in
      MkAnnotated (if bool_decide (fingerprint = []) && Meta.has_errors meta then None else Some fingerprint) meta
  | MkAnnotated (Some value) meta => reject (error_expected "an array") value meta
  | MkAnnotated None meta => MkAnnotated None meta
  end.

Definition into_value : IntoValue (list string) := fun self => Array ((fun x => Annotated.new (String_ x)) <$> self).

End Fingerprint.

(** ** logentry.rs *)

(** The [Helper] of [from_value], whose own [FromValue] is derived. *)
Record LogEntryHelper := MkLogEntryHelper {
  helper_message : Annotated string;
  helper_formatted : Annotated string;
  helper_params : Annotated Value;
  helper_other : gmap string (Annotated Value);
}.

Definition logentry_params {CE : ConvEnv} (params : Annotated Value) : Annotated Value :=
  match params with
  | MkAnnotated (Some value) _ =>
      if is_collection value then params else from_error (error_expected "message parameters") (Some value)
  | MkAnnotated None _ => params
  end.

Definition logentry_from_value {CE : ConvEnv} (helper_from_value : FromValue LogEntryHelper) : FromValue LogEntry := fun value =>
  match value with
  | MkAnnotated (Some (Types.Object _)) _ =>
      Annotated.map_value (helper_from_value value) (fun helper =>
        MkLogEntry (helper_message helper) (helper_formatted helper) (logentry_params (helper_params helper))
          (helper_other helper))
  | MkAnnotated None meta => MkAnnotated None meta
  | MkAnnotated (Some (Bool false)) _ => MkAnnotated None Meta.empty
  | x => Annotated.new (MkLogEntry Annotated.empty (json_lenient_from_value x) Annotated.empty ∅)
  end.

(** ** measurements.rs *)

Module Measurements.

Definition is_name_char (c : ascii) : bool :=
  is_ascii_alphanumeric c || bool_decide (c = "-"%char) || bool_decide (c = "_"%char) || bool_decide (c = "."%char).

(** On bytes: a character beyond ASCII has none of these bytes. *)
Definition is_valid_measurement_name (name : string) : bool :=
  match name with
  | EmptyString => false
  | String c _ => is_ascii_alphabetic c && str_forallb is_name_char name
  end.

(** One step of [filter_map]: the name in the result, or the error. *)
Definition checked_name (name : string) : result Error string :=
  let name := trim name in
  if bool_decide (name = "") then Err (error_invalid ("measurement name '" +:+ name +:+ "' cannot be empty"))
  else if is_valid_measurement_name name then Ok (to_ascii_lowercase name)
  else Err (error_invalid ("measurement name '" +:+ name +:+ "' can contain only characters a-z0-9.-_")).

(** The closure and the collection into a map, in which later entries win. *)
Definition push_measurement {T} (state : gmap string T * list Error) (entry : string * T) : gmap string T * list Error :=
  match checked_name entry.1 with
  | Ok name => (<[name := entry.2]> state.1, state.2)
  | Err error => (state.1, state.2 ++ [error])
  end.

Definition from_value {CE : ConvEnv} (measurement_from_value : FromValue Measurement)
  : FromValue (gmap string (Annotated Measurement)) := fun value =>
  match from_value_object (H := measurement_from_value) value with
  | MkAnnotated (Some measurements) meta =>
      let '(measurements, processing_errors) := foldl push_measurement (∅, []) (btree_entries measurements) in
      MkAnnotated (Some measurements) (foldl Meta.add_error meta processing_errors)
  | MkAnnotated None meta => MkAnnotated None meta
  end.

End Measurements.

(** ** Nothing is dropped silently *)

(** [char::to_uppercase] on ASCII, and what the standard library promises of a sort. *)
Class RequestFormatsLaws {RF : RequestFormats} : Prop := {
  uppercase_ascii a : is_ascii a = true -> char_uppercase (String a "") = String (ascii_upper a) "";
  sort_headers_permutes l : sort_headers l ≡ₚ l;
  sort_headers_sorted l : Sorted Headers.header_le (sort_headers l);
}.

Lemma invalid_eqb err s : error_eqb err (error_invalid s) = true -> err = error_invalid s.
Proof.
  destruct err as [k [|[key v] [|[]]]]; simpl; rewrite ?andb_false_r; [done| |done].
  destruct v; simpl; rewrite ?andb_false_r; try done.
  rewrite !andb_true_iff, !bool_decide_eq_true. by intros (-> & (-> & ->) & _).
Qed.

(** An error of a text that was added is there. *)
Lemma add_invalid_in m s : error_invalid s ∈ Meta.errors (Meta.add_error m (error_invalid s)).
Proof.
  unfold Meta.add_error, Meta.errors. destruct (Meta.upsert m) as [r e l v]. destruct (existsb _ e) eqn:E; simpl.
  - apply existsb_exists in E as (x & Hx & He). apply invalid_eqb in He as ->. by apply list_elem_of_In.
  - set_solver.
Qed.

Lemma add_errors_keep errs : forall m, Meta.errors m ⊆ Meta.errors (foldl Meta.add_error m errs).
Proof.
  induction errs as [|e errs IH]; intros m; simpl; [done|]. etrans; [|apply IH]. apply errors_add_error.
Qed.

Lemma add_errors_in errs : forall m s,
  error_invalid s ∈ errs -> error_invalid s ∈ Meta.errors (foldl Meta.add_error m errs).
Proof.
  induction errs as [|e errs IH]; intros m s; simpl; [set_solver|].
  intros [<- | Hin]%elem_of_cons; [|by apply IH]. apply add_errors_keep, add_invalid_in.
Qed.

Lemma has_errors_iff m : Meta.has_errors m = true <-> Meta.errors m <> [].
Proof. destruct m as [[[r [|e es] l v]|]]; simpl; naive_solver. Qed.

(** A conversion that maps the value of a faithful one. *)
Lemma faithful_map {T U} (FV : FromValue T) (f : Annotated Value -> T -> U) :
  Faithful FV -> Faithful (fun v => Annotated.map_value (FV v) (f v) : Annotated U).
Proof.
  intros [Hn Hk Hc]. split.
  - intros m. by rewrite Hn.
  - intros v m. specialize (Hk v m). by destruct (FV _) as [[]].
  - intros v m. specialize (Hc v m). destruct (FV _) as [[]]; [done|]. intros _. by apply Hc.
Qed.

(** The arms that reject a value. *)
Ltac rejected := try solve [apply reject_faithful | intros _; apply reject_faithful].

Section Complain.
Context {CE : ConvEnv} {RF : RequestFormats}.

Lemma collect_cookies_errors l : forall cs m, Meta.errors m ⊆ Meta.errors (foldl Cookies.collect_cookie (cs, m) l).2.
Proof.
  induction l as [|[c|e] l IH]; intros cs m; simpl; [done|apply IH|]. etrans; [|apply IH]. apply errors_add_error.
Qed.

#[export] Instance faithful_cookies : Faithful Cookies.from_value.
Proof.
  split; [done|..]; intros v m; unfold Cookies.from_value.
  - destruct v as [| | | |text|items|items]; rejected; simpl; try done.
    pose proof (collect_cookies_errors (Cookies.iter_cookies text) [] m) as Hk. destruct (foldl _ _ _) as [cs m'].
    simpl in *. destruct (_ && _); [by rewrite errors_set_original|done].
  - destruct v; rejected; simpl; try done. by destruct (foldl _ _ _).
Qed.

#[export] Instance faithful_query : Faithful query_from_value.
Proof.
  split; [done|..]; intros v m; by destruct v; rejected.
Qed.

#[export] Instance faithful_header_name : Faithful HeaderName.from_value.
Proof. apply (faithful_map _ (fun _ => HeaderName.new)), _. Qed.

Lemma push_values_errors l : forall s m, Meta.errors m ⊆ Meta.errors (foldl HeaderValue.push_value (s, m) l).2.
Proof.
  induction l as [|a l IH]; intros s m; simpl; [done|].
  destruct (Annotated.value _); (etrans; [|apply IH]); apply add_errors_keep.
Qed.

#[export] Instance faithful_header_value : Faithful HeaderValue.from_value.
Proof.
  destruct faithful_lenient as [_ Hk Hc]. split; [done|..]; intros v m.
  - specialize (Hk v m). destruct v; try exact Hk. simpl.
    pose proof (push_values_errors items "" m) as Hp. by destruct (foldl _ _ _).
  - specialize (Hc v m). destruct v; try exact Hc. simpl. by destruct (foldl _ _ _).
Qed.

#[export] Instance faithful_headers : Faithful Headers.from_value.
Proof.
  apply (faithful_map _ (fun v l => if Headers.is_object v then sort_headers l else l)). apply faithful_pairlist.
Qed.

#[export] Instance faithful_fingerprint : Faithful Fingerprint.from_value.
Proof.
  split; [done|..]; intros v m; destruct v; rejected; simpl.
  - destruct (foldl _ _ _) as [fp [|b bs]]; simpl; [done|]. destruct (Meta.original_length m); [apply errors_add_error|].
    etrans; [|apply errors_add_error]. by destruct m as [[[]|]].
  - destruct (foldl _ _ _) as [fp bad]; simpl. destruct (bool_decide _ && _) eqn:E; [|done].
    intros _. by apply andb_true_iff in E as [_ E%has_errors_iff].
Qed.

#[export] Instance faithful_measurements (FM : FromValue Measurement) : Faithful (Measurements.from_value FM).
Proof.
  destruct (faithful_object FM) as [Hn Hk Hc]. unfold Measurements.from_value. split; [done|..]; intros v m.
  - specialize (Hk v m). destruct (from_value_object _) as [[ms|] m']; [|exact Hk]. destruct (foldl _ _ _) as [a b] eqn:E.
    simpl in *. etrans; [exact Hk|apply add_errors_keep].
  - specialize (Hc v m). destruct (from_value_object _) as [[ms|] m']; [by destruct (foldl _ _ _)|].
    intros _. by apply Hc.
Qed.

End Complain.

(** No value of a request, message or measurement is dropped silently: missing values
    stay missing, errors recorded before remain, and what cannot be read leaves an
    error. *)
Theorem request_values_complain `{CE : ConvEnv, RF : RequestFormats} :
  Faithful Cookies.from_value /\ Faithful query_from_value /\ Faithful HeaderName.from_value
  /\ Faithful HeaderValue.from_value /\ Faithful Headers.from_value /\ Faithful Fingerprint.from_value
  /\ forall FM, Faithful (Measurements.from_value FM).
Proof. split_and!; intros; apply _. Qed.

(** ** Cookies *)

Definition ok {E A} (r : result E A) : option A := match r with Ok a => Some a | Err _ => None end.
Definition err {E A} (r : result E A) : option E := match r with Ok _ => None | Err e => Some e end.

Lemma collect_cookies_spec l : forall cs m,
  foldl Cookies.collect_cookie (cs, m) l = (cs ++ omap ok l, foldl Meta.add_error m (omap err l)).
Proof.
  induction l as [|[c|e] l IH]; intros cs m; simpl; [by rewrite app_nil_r| |]; rewrite IH; [|done].
  by rewrite <- app_assoc.
Qed.

Lemma mapM_ok {E A} (l : list (result E A)) cs : mapM id l = Ok cs <-> l = Ok <$> cs.
Proof.
  assert (Inj (=) (=) (@Ok E A)) by (by intros ?? [=]).
  revert cs. induction l as [|[c|e] l IH]; intros cs; cbn [mapM].
  - destruct cs; simpl; naive_solver.
  - change (id (Ok c)) with (Ok (E := E) c). cbn [mbind result_bind].
    destruct (mapM id l) as [cs'|e]; cbn [mbind result_bind mret result_ret].
    + rewrite (proj1 (IH cs') eq_refl). split; [by intros [= <-]|].
      destruct cs as [|c' cs]; [done|]. intros [= -> Heq]. by apply (inj (fmap Ok)) in Heq as ->.
    + split; [done|]. destruct cs as [|c' cs]; [done|]. intros [= -> Heq]. by apply IH in Heq.
  - change (id (Err e)) with (Err (A := A) e). cbn [mbind result_bind]. by destruct cs.
Qed.

(** A string of cookies: the parts that parse are kept in order, each other part leaves
    its error, and the strict parser accepts exactly the strings without errors, with
    the same cookies. *)
Theorem cookies_collected `{CE : ConvEnv, RF : RequestFormats} s m :
  let results := Cookies.iter_cookies s in
  let cookies := Cookies.from_value (MkAnnotated (Some (String_ s)) m) in
  Annotated.value cookies = Some (omap ok results)
  /\ (forall part e, part ∈ Cookies.cookie_parts s -> cookie_parse part = Err e ->
       error_invalid e ∈ Meta.errors (Annotated.meta cookies))
  /\ (forall cs, Cookies.parse s = Ok cs -> Annotated.value cookies = Some cs
                 /\ Meta.errors (Annotated.meta cookies) = Meta.errors m)
  /\ (Forall (fun r => is_Some (ok r)) results -> exists cs, Cookies.parse s = Ok cs).
Proof.
  cbn zeta. unfold Cookies.from_value, Cookies.parse. rewrite collect_cookies_spec. cbn [Annotated.value Annotated.meta app].
  assert (forall m', Meta.errors (if Meta.has_errors m' && bool_decide (Meta.original_value m' = None)
    then set_original m' (Some (String_ s)) else m') = Meta.errors m') as He.
  { intros m'. destruct (_ && _); [apply errors_set_original|done]. }
  rewrite He. split_and!; [done|..].
  - intros part e Hp Hc. apply add_errors_in, list_elem_of_omap. exists (Cookies.parse_cookie part).
    split; [by apply list_elem_of_fmap_2|]. unfold Cookies.parse_cookie. by rewrite Hc.
  - intros cs ->%mapM_ok. split; [f_equal; induction cs; f_equal/=; auto|]. by induction cs.
  - intros Hall. exists (omap ok (Cookies.iter_cookies s)). apply mapM_ok.
    induction Hall as [|r l [c Hr] Hall IH]; [done|]. destruct r; [|done]. simpl. by f_equal.
Qed.

(** ** Headers *)

(** The first letter of a word in upper case. *)
Definition capitalize (s : string) : string := match s with "" => "" | String a s => String (ascii_upper a) s end.

Lemma ascii_upper_facts a :
  is_ascii (ascii_upper a) = is_ascii a /\ ascii_upper (ascii_upper a) = ascii_upper a
  /\ (ascii_upper a = "-"%char <-> a = "-"%char).
Proof. destruct a as [[] [] [] [] [] [] [] []]; vm_compute; by split_and!. Qed.

Lemma chars_ascii a s : str_forallb is_ascii s = true -> chars (String a s) = String a "" :: chars s.
Proof.
  destruct s as [|b s]; [done|]. intros [Hb _]%andb_true_iff. cbn [chars].
  assert (is_continuation b = false) as Hc.
  { revert Hb. by destruct b as [[] [] [] [] [] [] [] []]; vm_compute. }
  destruct (chars s) as [|[|c r] cs]; cbn; rewrite ?Hc; try done. destruct (is_continuation c); cbn; by rewrite Hc.
Qed.

Section Headers.
Context {CE : ConvEnv} {RF : RequestFormats} {RL : RequestFormatsLaws}.

Lemma normalize_words s : forall up, str_forallb is_ascii s = true ->
  split_on "-" (HeaderName.normalize_chars up (chars s))
  = match split_on "-" s with w :: ws => (if up then capitalize w else w) :: (capitalize <$> ws) | [] => [] end.
Proof.
  induction s as [|a s IH]; intros up; [by destruct up|]. cbn [str_forallb]. intros [Ha Hs]%andb_true_iff.
  rewrite chars_ascii by done. cbn [HeaderName.normalize_chars].
  destruct (ascii_upper_facts a) as (_ & _ & Hd).
  assert ((if up then char_uppercase (String a "") else String a "") = String (if up then ascii_upper a else a) "") as ->.
  { destruct up; [by apply uppercase_ascii|done]. }
  assert (bool_decide (String a "" = "-") = bool_decide (a = "-"%char)) as ->.
  { apply bool_decide_ext. split; [by intros [=]|by intros ->]. }
  cbn [String.append split_on].
  assert (bool_decide ((if up then ascii_upper a else a) = "-"%char) = bool_decide (a = "-"%char)) as ->.
  { destruct up; [by apply bool_decide_ext|done]. }
  rewrite IH by done. case_bool_decide as Hdash; destruct (split_on "-" s) as [|w ws]; try done; by destruct up.
Qed.

Lemma join_split c s : join_with (String c "") (split_on c s) = s.
Proof.
  induction s as [|a s IH]; [done|]. cbn [split_on]. case_bool_decide as Ha.
  - subst. destruct (split_on c s) as [|w ws] eqn:E; [by destruct s; cbn in E; [|destruct (bool_decide _), (split_on c s)]|].
    change (join_with (String c "") ("" :: w :: ws)) with (String c (join_with (String c "") (w :: ws))). by rewrite IH.
  - destruct (split_on c s) as [|w ws]; cbn in *; [by rewrite <- IH|]. destruct ws; cbn in *; by rewrite <- IH.
Qed.

Lemma new_words name :
  str_forallb is_ascii name = true -> split_on "-" (HeaderName.new name) = capitalize <$> split_on "-" name.
Proof. intros Hn. unfold HeaderName.new. rewrite normalize_words by done. by destruct (split_on "-" name). Qed.

Lemma new_ascii s : forall up,
  str_forallb is_ascii s = true -> str_forallb is_ascii (HeaderName.normalize_chars up (chars s)) = true.
Proof.
  induction s as [|a s IH]; intros up; [done|]. cbn [str_forallb]. intros [Ha Hs]%andb_true_iff.
  rewrite chars_ascii by done. cbn [HeaderName.normalize_chars]. rewrite str_forallb_app, IH by done.
  destruct up; [rewrite uppercase_ascii by done|]; simpl; rewrite !andb_true_r; [|done].
  by destruct (ascii_upper_facts a) as (-> & _).
Qed.

(** Header names are normalized word by word: on ASCII the first letter of every part
    between dashes is upper-cased and the rest kept, so normalizing again changes
    nothing. *)
Theorem header_names_normalized name :
  str_forallb is_ascii name = true ->
  HeaderName.new name = join_with "-" (capitalize <$> split_on "-" name)
  /\ HeaderName.new (HeaderName.new name) = HeaderName.new name.
Proof.
  intros Hn. pose proof (new_ascii name true Hn) as Hn'.
  assert (HeaderName.new name = join_with "-" (capitalize <$> split_on "-" name)) as Heq.
  { by rewrite <- (join_split "-" (HeaderName.new name)), new_words. }
  split; [done|]. rewrite <- (join_split "-" (HeaderName.new (HeaderName.new name))), !new_words by done.
  rewrite <- list_fmap_compose, Heq. f_equal. apply list_fmap_ext. intros _ [|a w] _; [done|].
  simpl. f_equal. apply ascii_upper_facts.
Qed.

(** Headers from an object are sorted by their normalized names, and none is lost;
    headers from an array keep their order. *)
Theorem headers_ordered items m :
  (exists l, Headers.from_value (MkAnnotated (Some (Types.Object items)) m) = MkAnnotated (Some l) m
     /\ Sorted Headers.header_le l
     /\ l ≡ₚ ((fun kv => Annotated.new (Annotated.new (HeaderName.new kv.1), HeaderValue.from_value kv.2)) <$> items))
  /\ forall array, Headers.from_value (MkAnnotated (Some (Array array)) m)
       = MkAnnotated (Some (from_value_pair (H := HeaderName.from_value) (H0 := HeaderValue.from_value) <$> array)) m.
Proof.
  split; [|done]. eexists. split; [reflexivity|]. split; [apply sort_headers_sorted|].
  etrans; [apply sort_headers_permutes|done].
Qed.

End Headers.

(** ** Fingerprints *)

Section Fingerprint.
Context {CE : ConvEnv}.

Definition part (elem : Annotated Value) : option string :=
  match lenient_from_value elem with
  | MkAnnotated (Some value) meta => if Meta.has_errors meta then None else Some value
  | MkAnnotated None _ => None
  end.
Definition bad_part (elem : Annotated Value) : option Value :=
  (Meta.take_original_value (Annotated.meta (lenient_from_value elem))).1.

Lemma push_elems array : forall fp bad,
  foldl Fingerprint.push_elem (fp, bad) array = (fp ++ omap part array, bad ++ omap bad_part array).
Proof.
  induction array as [|elem array IH]; intros fp bad; simpl; [by rewrite !app_nil_r|].
  unfold part, bad_part at 1. destruct (lenient_from_value elem) as [v meta]; simpl. rewrite IH.
  destruct v as [v|], (Meta.has_errors meta), (Meta.take_original_value meta).1; simpl; by rewrite <- ?app_assoc.
Qed.

(** A fingerprint has the parts that read as strings, in order; the values that do not are
    in the error, and what was written is read back. *)
Theorem fingerprint_read array m fp :
  fp <> [] ->
  (let r := Fingerprint.from_value (MkAnnotated (Some (Array array)) m) in
   (Annotated.value r = Some (omap part array) \/ omap part array = [] /\ Annotated.value r = None)
   /\ (omap bad_part array <> [] -> Meta.errors m = [] ->
       Meta.errors (Annotated.meta r) = [Fingerprint.bad_values_error (omap bad_part array)]))
  /\ Fingerprint.from_value (MkAnnotated (Some (Fingerprint.into_value fp)) m) = MkAnnotated (Some fp) m.
Proof.
  intros Hfp. cbn zeta. unfold Fingerprint.from_value. cbn [Fingerprint.into_value]. rewrite !push_elems. cbn [app]. split.
  - split.
    + cbn [Annotated.value]. destruct (bool_decide _ && _) eqn:E; [right|by left].
      apply andb_true_iff in E as [E%bool_decide_eq_true _]. done.
    + intros Hbad Hm. cbn [Annotated.meta]. destruct (omap bad_part array) as [|b bs]; [done|].
      destruct m as [[[r e l o]|]]; [|done]. unfold Meta.errors in Hm. simpl in Hm. subst e. by destruct l.
  - assert (omap part ((fun x => Annotated.new (String_ x)) <$> fp) = fp) as -> by (induction fp as [|x [] IH]; f_equal/=; auto).
    assert (omap bad_part ((fun x => Annotated.new (String_ x)) <$> fp) = []) as -> by (clear; induction fp; auto).
    by rewrite bool_decide_eq_false_2.
Qed.

(** A value of 500 bytes or more is no part and leaves no error. *)
Theorem large_part_dropped v :
  is_collection v = true -> 500 <= estimate_size f64_text (Some v) ->
  Fingerprint.from_value (Annotated.new (Array [Annotated.new v])) = Annotated.new [].
Proof.
  intros Hv Hs. unfold Fingerprint.from_value, Annotated.new. rewrite push_elems. cbn [omap list_omap app].
  assert (lenient_from_value (MkAnnotated (Some v) Meta.empty)
    = MkAnnotated None (Meta.add_error Meta.empty (error_expected "a primitive value"))) as Hl.
  { destruct v; try done; cbn [lenient_from_value]; unfold reject, set_original, set_original_value;
      by rewrite bool_decide_eq_false_2 by lia. }
  unfold part, bad_part. by rewrite Hl.
Qed.

End Fingerprint.

(** ** Log entries *)

(** The parameters of a log entry are an object or an array or missing, whatever was
    sent; a value that is no object becomes the formatted message. *)
Theorem logentry_read `{CE : ConvEnv} FH value e m :
  logentry_from_value FH value = MkAnnotated (Some e) m ->
  (forall v, Annotated.value (params e) = Some v -> is_collection v = true)
  /\ forall v meta, value = MkAnnotated (Some v) meta -> (forall items, v <> Types.Object items) ->
       formatted e = json_lenient_from_value value /\ params e = Annotated.empty.
Proof.
  unfold logentry_from_value, Annotated.new. intros He. split.
  - intros v Hv. destruct value as [[w|] meta]; [|done]. destruct w as [[]| | | | | |items]; simplify_eq/=; try done.
    destruct (FH _) as [[helper|] meta']; [|done]. simplify_eq/=. destruct (helper_params helper) as [[w|] pm]; [|done].
    simpl in Hv. destruct (is_collection w) eqn:E; [by simplify_eq/=|done].
  - intros v meta -> Hv. destruct v as [[]| | | | | |items]; simplify_eq/=; try done.
    by destruct (Hv items).
Qed.

(** ** Measurements *)

Section Measurements.
Context {CE : ConvEnv}.

Lemma push_measurements {T} (l : list (string * T)) : forall ms errs,
  let r := foldl Measurements.push_measurement (ms, errs) l in
  (forall name, is_Some (r.1 !! name) <-> is_Some (ms !! name) \/ exists e, e ∈ l /\ Measurements.checked_name e.1 = Ok name)
  /\ r.2 = errs ++ omap (fun e => err (Measurements.checked_name e.1)) l.
Proof.
  induction l as [|[k x] l IH]; intros ms errs; cbn [foldl].
  - split; [set_solver|]. by rewrite app_nil_r.
  - cbn zeta. unfold Measurements.push_measurement at 2 4. cbn [fst snd]. destruct (Measurements.checked_name k) as [n|e] eqn:E.
    + destruct (IH (<[n:=x]> ms) errs) as [IH1 IH2]. split; [|simpl; rewrite E; exact IH2]. intros name. rewrite IH1.
      rewrite lookup_insert_is_Some. setoid_rewrite elem_of_cons. split.
      * intros [[-> | [_ H]] | (e & He & Hn)]; [right; exists (k, x)|by left|right; exists e]; auto.
      * intros [H | (e & [-> | He] & Hn)]; [|simpl in Hn; rewrite E in Hn; simplify_eq; auto|eauto].
        destruct (decide (n = name)); auto.
    + destruct (IH ms (errs ++ [e])) as [IH1 IH2]. split; [|simpl; rewrite E; rewrite IH2; by rewrite <- app_assoc].
      intros name. rewrite IH1. setoid_rewrite elem_of_cons. split; [naive_solver|].
      intros [H | (e' & [-> | He] & Hn)]; [auto|simpl in Hn; congruence|eauto].
Qed.

(** What the check of a name lets through. *)
Lemma checked_name_valid k n :
  Measurements.checked_name k = Ok n ->
  Measurements.is_valid_measurement_name n = true /\ to_ascii_lowercase n = n.
Proof.
  unfold Measurements.checked_name. case_bool_decide; [done|]. destruct (Measurements.is_valid_measurement_name _) eqn:E; [|done].
  intros [= <-]. revert E. generalize (trim k). intros [|a s]; [done|]. simpl. rewrite !andb_true_iff.
  assert (forall b, ascii_lower (ascii_lower b) = ascii_lower b
    /\ (is_ascii_alphabetic b = true -> is_ascii_alphabetic (ascii_lower b) = true)
    /\ (Measurements.is_name_char b = true -> Measurements.is_name_char (ascii_lower b) = true)) as Hb.
  { intros b. destruct b as [[] [] [] [] [] [] [] []]; vm_compute; by split_and!. }
  intros (Ha & Hc & Hs). split.
  - split_and!; [by apply Hb..|]. induction s as [|b s IH]; [done|]. simpl in *. apply andb_true_iff in Hs as [H1 H2].
    rewrite IH by done. rewrite andb_true_r. by apply Hb.
  - f_equal; [apply Hb|]. clear. induction s as [|b s IH]; [done|]. simpl. rewrite IH. f_equal.
    by destruct b as [[] [] [] [] [] [] [] []].
Qed.

(** The names of measurements are trimmed, checked and lower-cased: the result has
    exactly the names that pass, all of them well formed, and every name that does not
    leaves an error. *)
Theorem measurements_named (FM : FromValue Measurement) items m :
  exists ms, Annotated.value (Measurements.from_value FM (MkAnnotated (Some (Types.Object items)) m)) = Some ms
  /\ (forall name, is_Some (ms !! name) <-> exists k, k ∈ items.*1 /\ Measurements.checked_name k = Ok name)
  /\ (forall name, is_Some (ms !! name) -> Measurements.is_valid_measurement_name name = true /\ to_ascii_lowercase name = name)
  /\ forall k e, k ∈ items.*1 -> Measurements.checked_name k = Err e ->
       e ∈ Meta.errors (Annotated.meta (Measurements.from_value FM (MkAnnotated (Some (Types.Object items)) m))).
Proof.
  unfold Measurements.from_value, from_value_object. set (l := btree_entries _).
  assert (forall k, k ∈ items.*1 <-> exists x, (k, x) ∈ l) as Hl.
  { intros k. unfold l. setoid_rewrite elem_of_btree_entries. unfold from_value.
    assert (items.*1 = ((fun kv => (kv.1, FM kv.2)) <$> items).*1) as -> by by rewrite <- list_fmap_compose.
    split; [|intros [x Hx]; by apply elem_of_list_to_map_2, (list_elem_of_fmap_2 fst) in Hx].
    intros Hk. destruct (list_to_map _ !! k) as [x|] eqn:E; [by exists x|]. by apply not_elem_of_list_to_map_2 in E. }
  destruct (push_measurements l ∅ []) as [Hm He]. destruct (foldl _ _ _) as [ms errs]. cbn [Annotated.value Annotated.meta fst snd] in *.
  exists ms. split; [done|].
  assert (forall name, is_Some (ms !! name) <-> exists k, k ∈ items.*1 /\ Measurements.checked_name k = Ok name) as Hn.
  { intros name. rewrite Hm, lookup_empty. split.
    - intros [[? ?] | ([k x] & Hx & Hk)]; [done|]. exists k. rewrite Hl. eauto.
    - intros (k & [x Hx]%Hl & Hk). right. by exists (k, x). }
  split_and!; [done|..].
  - intros name (k & _ & Hk)%Hn. by eapply checked_name_valid.
  - intros k e [x Hx]%Hl Hk. assert (exists s, e = error_invalid s) as [s ->].
    { revert Hk. unfold Measurements.checked_name. repeat case_match; intros; simplify_eq; eauto. }
    apply add_errors_in. rewrite He. apply list_elem_of_omap. exists (k, x). simpl. by rewrite Hk.
Qed.

End Measurements.

Definition toy_formats : RequestFormats := {|
  form_urlencoded := fun s => [(s, "")];
  cookie_parse := fun s => match splitn2 "=" s with (k, Some v) => Ok (trim k, v) | _ => Err "missing equal sign" end;
  char_uppercase := fun c => match c with String a "" => String (ascii_upper a) "" | c => c end;
  sort_headers := merge_sort Headers.header_le;
|}.
#[global] Instance toy_formats_laws : RequestFormatsLaws (RF := toy_formats).
Proof.
  split.
  - done.
  - intros l. apply merge_sort_Permutation.
  - intros l. apply Sorted_merge_sort. intros a b. unfold Headers.header_le.
    destruct (Headers.header_key a) as [[x|]|], (Headers.header_key b) as [[y|]|]; simpl; auto.
    apply String.leb_total.
Qed.

Lemma header_names_normalized_witness :
  HeaderName.new (RF := toy_formats) "content-type" = "Content-Type"
  /\ HeaderName.new (RF := toy_formats) (HeaderName.new (RF := toy_formats) "content-type") = "Content-Type".
Proof.
  destruct (header_names_normalized (RF := toy_formats) "content-type" eq_refl) as [H1 H2].
  split; [exact H1|]. rewrite H2. exact H1.
Defined.
