(* ===== verification/MetaTrees.v ===== *)
(** * relay-general: trees of meta data (types/annotated.rs, types/impls.rs,
      types/meta.rs)

    Meta data travel beside the payload, in a tree that has a node for every value
    with meta data below it and is serialized under the key [_meta].  Modelled are
    the extraction of the tree from an annotated value, attaching it to a payload
    that was read without it, and the serialized form of trees, meta data, remarks
    and errors. *)

From Stdlib Require Import Ascii String SpecFloat.
From S2P Require Import Prelude Strings Floats Types Common Protocol Size Conversions.

Open Scope string_scope.
Open Scope Z_scope.
Open Scope list_scope.

(** [MetaMap] is a B-tree map: the list of its entries. *)
Inductive MetaTree := MkMetaTree (meta : Meta) (children : list (string * MetaTree)).
Notation MetaMap := (list (string * MetaTree)) (only parsing).

Module MetaTree.

Definition meta (self : MetaTree) : Meta := match self with MkMetaTree m _ => m end.
Definition children (self : MetaTree) : MetaMap := match self with MkMetaTree _ c => c end.

Fixpoint has_errors (self : MetaTree) : bool :=
  match self with
  | MkMetaTree meta children =>
      Meta.has_errors meta
      || (fix any (l : MetaMap) := match l with [] => false | (_, t) :: l => has_errors t || any l end) children
  end.

Fixpoint is_empty (self : MetaTree) : bool :=
  match self with
  | MkMetaTree meta children =>
      Meta.is_empty meta
      && (fix all (l : MetaMap) := match l with [] => true | (_, t) :: l => is_empty t && all l end) children
  end.

Fixpoint remove (key : string) (l : MetaMap) : option MetaTree * MetaMap :=
  match l with
  | [] => (None, [])
  | (k, t) :: l =>
      if bool_decide (k = key) then (Some t, l)
      else let '(found, l) := remove key l in (found, (k, t) :: l)
  end.

(** The insertion of a child, which is skipped for empty trees. *)
Definition insert_child (key : string) (tree : MetaTree) (rest : MetaMap) : MetaMap :=
  if is_empty tree then rest else (key, tree) :: rest.

End MetaTree.
Import MetaTree.

(** ** Extraction *)

Fixpoint extract_child_meta (self : Value) : MetaMap :=
  let extract_meta_tree (value : Annotated Value) :=
    match value with
    | MkAnnotated (Some value) meta => MkMetaTree meta (extract_child_meta value)
    | MkAnnotated None meta => MkMetaTree meta []
    end in
  match self with
  | Types.Object items =>
      (fix entries (items : list (string * Annotated Value)) :=
         match items with
         | [] => []
         | (key, value) :: items => insert_child key (extract_meta_tree value) (entries items)
         end) items
  | Array items =>
      (fix elements (idx : Z) (items : list (Annotated Value)) :=
         match items with
         | [] => []
         | item :: items => insert_child (u64_to_string idx) (extract_meta_tree item) (elements (idx + 1) items)
         end) 0 items
  | _ => []
  end.

Definition extract_meta_tree (value : Annotated Value) : MetaTree :=
  match value with
  | MkAnnotated (Some value) meta => MkMetaTree meta (extract_child_meta value)
  | MkAnnotated None meta => MkMetaTree meta []
  end.

(** ** Attaching *)

Fixpoint attach_child_meta (self : Value) (children : MetaMap) : Value :=
  let attach_meta_tree (value : Annotated Value) (tree : MetaTree) :=
    MkAnnotated
      (match value with
       | MkAnnotated (Some value) _ => Some (attach_child_meta value (MetaTree.children tree))
       | MkAnnotated None _ => None
       end) (MetaTree.meta tree) in
  match self with
  | Array items =>
      Array ((fix elements (idx : Z) (items : list (Annotated Value)) (children : MetaMap) :=
                match items with
                | [] => []
                | item :: items =>
                    match remove (u64_to_string idx) children with
                    | (Some tree, children) => attach_meta_tree item tree :: elements (idx + 1) items children
                    | (None, children) => item :: elements (idx + 1) items children
                    end
                end) 0 items children)
  | Types.Object items =>
      Types.Object ((fix entries (items : list (string * Annotated Value)) (children : MetaMap) :=
                match items with
                | [] => []
                | (key, value) :: items =>
                    match remove key children with
                    | (Some tree, children) => (key, attach_meta_tree value tree) :: entries items children
                    | (None, children) => (key, value) :: entries items children
                    end
                end) items children)
  | value => value
  end.

Definition attach_meta_tree (self : Annotated Value) (meta_tree : MetaTree) : Annotated Value :=
  MkAnnotated ((fun value => attach_child_meta value (MetaTree.children meta_tree)) <$> Annotated.value self)
    (MetaTree.meta meta_tree).

(** ** The payload alone, and meta data up to representation *)

(** [on_metas f v]: [f] on all meta data in [v]. *)
Fixpoint on_metas (f : Meta -> Meta) (v : Value) : Value :=
  let member (a : Annotated Value) :=
    match a with
    | MkAnnotated (Some v) m => MkAnnotated (Some (on_metas f v)) (f m)
    | MkAnnotated None m => MkAnnotated None (f m)
    end in
  match v with
  | Array items => Array (member <$> items)
  | Types.Object items => Types.Object ((fun kv => (kv.1, member kv.2)) <$> items)
  | v => v
  end.
Definition on_annotated (f : Meta -> Meta) (a : Annotated Value) : Annotated Value :=
  MkAnnotated (on_metas f <$> Annotated.value a) (f (Annotated.meta a)).

(** What is left of a value in JSON. *)
Definition payload : Annotated Value -> Annotated Value := on_annotated (fun _ => Meta.empty).

(** Empty meta data in one form; [PartialEq] does not distinguish them. *)
Definition canonical_meta (m : Meta) : Meta := if Meta.is_empty m then Meta.empty else m.
Definition canonical : Annotated Value -> Annotated Value := on_annotated canonical_meta.

(** Objects have their keys once; arrays have at most 2^64 elements. *)
Fixpoint wf_value (v : Value) : Prop :=
  let member (a : Annotated Value) := match a with MkAnnotated (Some v) _ => wf_value v | MkAnnotated None _ => True end in
  match v with
  | Array items =>
      Z.of_nat (length items) <= u64_max
      /\ (fix all (l : list (Annotated Value)) := match l with [] => True | a :: l => member a /\ all l end) items
  | Types.Object items =>
      NoDup items.*1
      /\ (fix all (l : list (string * Annotated Value)) :=
            match l with [] => True | kv :: l => member kv.2 /\ all l end) items
  | _ => True
  end.
Definition wf_annotated (a : Annotated Value) : Prop := from_option wf_value True (Annotated.value a).

(** ** The traversals, one list at a time *)

Definition entries_meta : list (string * Annotated Value) -> MetaMap :=
  foldr (fun kv rest => insert_child kv.1 (extract_meta_tree kv.2) rest) [].
Fixpoint elements_meta (idx : Z) (items : list (Annotated Value)) : MetaMap :=
  match items with
  | [] => []
  | item :: items => insert_child (u64_to_string idx) (extract_meta_tree item) (elements_meta (idx + 1) items)
  end.

Definition attach_opt (a : Annotated Value) (tree : option MetaTree) : Annotated Value :=
  match tree with Some tree => attach_meta_tree a tree | None => a end.
Fixpoint attach_entries (items : list (string * Annotated Value)) (children : MetaMap) :=
  match items with
  | [] => []
  | (key, value) :: items =>
      let '(tree, children) := remove key children in (key, attach_opt value tree) :: attach_entries items children
  end.
Fixpoint attach_elements (idx : Z) (items : list (Annotated Value)) (children : MetaMap) :=
  match items with
  | [] => []
  | item :: items =>
      let '(tree, children) := remove (u64_to_string idx) children in
      attach_opt item tree :: attach_elements (idx + 1) items children
  end.

Lemma extract_object items : extract_child_meta (Types.Object items) = entries_meta items.
Proof. simpl. induction items as [|[k [[v|] m]] items IH]; simpl; [done|..]; by rewrite IH. Qed.

Lemma extract_array items : extract_child_meta (Array items) = elements_meta 0 items.
Proof.
  simpl. generalize 0 as idx. induction items as [|[[v|] m] items IH]; intros idx; simpl; [done|..]; by rewrite IH.
Qed.

Lemma attach_object items children :
  attach_child_meta (Types.Object items) children = Types.Object (attach_entries items children).
Proof.
  simpl. f_equal. revert children.
  induction items as [|[k [[v|] m]] items IH]; intros children; simpl; [done|..];
    destruct (remove k children) as [[tree|] rest]; by rewrite IH.
Qed.

Lemma attach_array items children :
  attach_child_meta (Array items) children = Array (attach_elements 0 items children).
Proof.
  simpl. f_equal. revert children. generalize 0 as idx.
  induction items as [|[[v|] m] items IH]; intros idx children; simpl; [done|..];
    destruct (remove _ children) as [[tree|] rest]; by rewrite IH.
Qed.

Lemma on_metas_array f items : on_metas f (Array items) = Array (on_annotated f <$> items).
Proof. simpl. f_equal. apply list_fmap_ext. by intros _ [[v|] m] _. Qed.

Lemma on_metas_object f items :
  on_metas f (Types.Object items) = Types.Object ((fun kv => (kv.1, on_annotated f kv.2)) <$> items).
Proof. simpl. f_equal. apply list_fmap_ext. by intros _ [k [[v|] m]] _. Qed.

Lemma wf_array items :
  wf_value (Array items) <-> Z.of_nat (length items) <= u64_max /\ Forall wf_annotated items.
Proof.
  simpl. apply and_iff_compat_l.
  induction items as [|[[v|] m] items IH]; [by split|..]; rewrite Forall_cons, <- IH; done.
Qed.

Lemma wf_object items : wf_value (Types.Object items) <-> NoDup items.*1 /\ Forall (fun kv => wf_annotated kv.2) items.
Proof.
  simpl. apply and_iff_compat_l.
  induction items as [|[k [[v|] m]] items IH]; [by split|..]; rewrite Forall_cons, <- IH; done.
Qed.

Lemma is_empty_node m children :
  is_empty (MkMetaTree m children) = Meta.is_empty m && forallb (fun kt => is_empty kt.2) children.
Proof. reflexivity || (simpl; f_equal; induction children as [|[k t] l IH]; simpl; [done|by rewrite IH]). Qed.

(** A kept child is not empty, so a node whose children are all empty has none. *)
Lemma insert_child_empty key tree rest :
  forallb (fun kt => is_empty kt.2) (insert_child key tree rest) = true ->
  is_empty tree = true /\ forallb (fun kt => is_empty kt.2) rest = true.
Proof.
  unfold insert_child. destruct (is_empty tree) eqn:He; [done|]. simpl. by rewrite He.
Qed.

Lemma entries_meta_keys items key : key ∈ (entries_meta items).*1 -> key ∈ items.*1.
Proof.
  induction items as [|[k a] items IH]; simpl; [done|]. unfold insert_child.
  destruct (is_empty _); simpl; rewrite ?elem_of_cons; intuition.
Qed.

Lemma elements_meta_keys idx items key :
  key ∈ (elements_meta idx items).*1 -> exists j, key = u64_to_string j /\ idx <= j < idx + Z.of_nat (length items).
Proof.
  revert idx. induction items as [|a items IH]; intros idx; simpl; [by intros ?%elem_of_nil|]. unfold insert_child.
  intros H. assert (key = u64_to_string idx \/ key ∈ (elements_meta (idx + 1) items).*1) as [-> | H'].
  { destruct (is_empty _); simpl in H; rewrite ?elem_of_cons in H; intuition. }
  - exists idx. split; [done|lia].
  - destruct (IH _ H') as (j & -> & Hj). exists j. split; [done|lia].
Qed.

Lemma remove_absent key (l : MetaMap) : key ∉ l.*1 -> remove key l = (None, l).
Proof.
  induction l as [|[k t] l IH]; simpl; [done|]. rewrite not_elem_of_cons. intros [Hk Hl].
  rewrite bool_decide_eq_false_2 by congruence. by rewrite IH.
Qed.

Lemma remove_inserted key tree rest :
  key ∉ rest.*1 ->
  remove key (insert_child key tree rest) = (if is_empty tree then None else Some tree, rest).
Proof.
  intros Hk. unfold insert_child. destruct (is_empty tree); [by apply remove_absent|].
  simpl. by rewrite bool_decide_eq_true_2.
Qed.

(** ** The tree and the payload together are the value *)

Lemma on_metas_compose f g v : on_metas f (on_metas g v) = on_metas (fun m => f (g m)) v.
Proof.
  induction v as [| | | | |items IH|items IH] using Value_ind'; try done.
  - rewrite !on_metas_array, <- list_fmap_compose. f_equal. apply list_fmap_ext.
    intros i [[v|] m] Hi; [|done]. eapply Forall_lookup_1 in IH; [|done].
    unfold on_annotated. simpl. do 2 f_equal. by apply IH.
  - rewrite !on_metas_object, <- list_fmap_compose. f_equal. apply list_fmap_ext.
    intros i [k [[v|] m]] Hi; [|done]. eapply Forall_lookup_1 in IH; [|done].
    unfold on_annotated. simpl. do 3 f_equal. by apply IH.
Qed.

Lemma canonical_payload a : canonical (payload a) = payload a.
Proof.
  destruct a as [[v|] m]; unfold canonical, payload, on_annotated; simpl; [|done].
  by rewrite on_metas_compose.
Qed.

Lemma canonical_meta_empty m : Meta.is_empty m = true -> canonical_meta m = Meta.empty.
Proof. unfold canonical_meta. by intros ->. Qed.

Lemma empty_child_canonical v :
  forallb (fun kt => is_empty kt.2) (extract_child_meta v) = true ->
  on_metas canonical_meta v = on_metas (fun _ => Meta.empty) v.
Proof.
  (* one member whose tree is empty *)
  assert (forall a, member_holds (fun v => forallb (fun kt => is_empty kt.2) (extract_child_meta v) = true ->
              on_metas canonical_meta v = on_metas (fun _ => Meta.empty) v) a ->
            is_empty (extract_meta_tree a) = true -> canonical a = payload a) as Hmember.
  { intros [[v'|] m] IH; unfold extract_meta_tree, canonical, payload, on_annotated;
      rewrite is_empty_node; intros [Hm Hc]%andb_true_iff; simpl; rewrite canonical_meta_empty by done; [|done].
    by rewrite (IH v' eq_refl Hc). }
  induction v as [| | | | |items IH|items IH] using Value_ind'; try done.
  - rewrite extract_array, !on_metas_array. intros He. f_equal. revert He. generalize 0 as idx.
    induction IH as [|a items Ha _ IHl]; intros idx He; [done|]. cbn [elements_meta] in He.
    apply insert_child_empty in He as [He Hl]. rewrite !fmap_cons. f_equal; [by apply Hmember|by apply (IHl (idx + 1))].
  - rewrite extract_object, !on_metas_object. intros He. f_equal.
    induction IH as [|[k a] items Ha _ IHl]; [done|]. cbn [entries_meta foldr] in He.
    apply insert_child_empty in He as [He Hl]. rewrite !fmap_cons. f_equal; [|by apply IHl].
    simpl. f_equal. by apply Hmember.
Qed.

Lemma empty_canonical a : is_empty (extract_meta_tree a) = true -> canonical a = payload a.
Proof.
  destruct a as [[v|] m]; unfold extract_meta_tree, canonical, payload, on_annotated;
    rewrite is_empty_node; intros [Hm Hc]%andb_true_iff; simpl; rewrite canonical_meta_empty by done; [|done].
  by rewrite (empty_child_canonical v Hc).
Qed.

(** What [extract_child_meta] and [attach_child_meta] are to each other. *)
Definition reattaches (v : Value) : Prop :=
  wf_value v ->
  on_metas canonical_meta (attach_child_meta (on_metas (fun _ => Meta.empty) v) (extract_child_meta v))
  = on_metas canonical_meta v.

Lemma reattach_member a :
  member_holds reattaches a -> wf_annotated a ->
  canonical (attach_opt (payload a) (if is_empty (extract_meta_tree a) then None else Some (extract_meta_tree a)))
  = canonical a.
Proof.
  intros Ha Hwf. destruct (is_empty (extract_meta_tree a)) eqn:He; simpl.
  - rewrite canonical_payload. by rewrite empty_canonical.
  - destruct a as [[v|] m]; simpl; [|done]. unfold canonical, on_annotated. simpl.
    do 2 f_equal. by apply Ha.
Qed.

Lemma reattach_entries items :
  Forall (fun kv => member_holds reattaches kv.2) items ->
  NoDup items.*1 -> Forall (fun kv => wf_annotated kv.2) items ->
  (fun kv => (kv.1, canonical kv.2)) <$>
    attach_entries ((fun kv => (kv.1, payload kv.2)) <$> items) (entries_meta items)
  = (fun kv => (kv.1, canonical kv.2)) <$> items.
Proof.
  induction 1 as [|[k a] items Ha _ IH]; intros Hnd Hwf; [done|].
  rewrite fmap_cons in Hnd. apply NoDup_cons in Hnd as [Hk Hnd]. apply Forall_cons in Hwf as [Hwa Hwf].
  rewrite fmap_cons. cbn [attach_entries entries_meta foldr fst snd].
  rewrite remove_inserted by (intros ?%entries_meta_keys; done).
  rewrite !fmap_cons. f_equal; [|by apply IH]. simpl. f_equal. by apply reattach_member.
Qed.

Lemma reattach_elements idx items :
  Forall (member_holds reattaches) items ->
  0 <= idx -> idx + Z.of_nat (length items) <= u64_max + 1 -> Forall wf_annotated items ->
  canonical <$> attach_elements idx (payload <$> items) (elements_meta idx items) = canonical <$> items.
Proof.
  intros Hall. revert idx. induction Hall as [|a items Ha _ IH]; intros idx Hidx Hlen Hwf; [done|].
  apply Forall_cons in Hwf as [Hwa Hwf]. rewrite fmap_cons. cbn [attach_elements elements_meta]. simpl in Hlen.
  rewrite remove_inserted.
  - rewrite !fmap_cons. f_equal; [by apply reattach_member|]. apply IH; [lia|lia|done].
  - intros (j & Hj & Hb)%elements_meta_keys.
    apply u64_to_string_inj in Hj; unfold in_width, u64_max in *; lia.
Qed.

Lemma reattach v : reattaches v.
Proof.
  induction v as [| | | | |items IH|items IH] using Value_ind'; try done; intros Hwf.
  - apply wf_array in Hwf as [Hlen Hwf]. rewrite on_metas_array, extract_array, attach_array, !on_metas_array.
    f_equal. apply reattach_elements; [done|lia|lia|done].
  - apply wf_object in Hwf as [Hnd Hwf]. rewrite on_metas_object, extract_object, attach_object, !on_metas_object.
    f_equal. by apply reattach_entries.
Qed.

Lemma reattach_annotated (a : Annotated Value) :
  wf_annotated a -> canonical (attach_meta_tree (payload a) (extract_meta_tree a)) = canonical a.
Proof.
  intros Hwf. destruct a as [[v|] m]; [|done]. unfold canonical, on_annotated. simpl. do 2 f_equal.
  by apply reattach.
Qed.

Definition sample_annotated : Annotated Value :=
  let m := Meta.from_error (error_new ErrorKind.InvalidData) in
  MkAnnotated
    (Some (Types.Object [("a", MkAnnotated None m); ("b", Annotated.new (Array [Annotated.new (I64 1); MkAnnotated (Some (I64 2)) m]))]))
    Meta.empty.

(** ** The serialized form *)

(** A value after its way through JSON: no meta data, no infinities, and the numbers
    that [visit_u64] makes of them. *)
Fixpoint json_image (v : Value) : option Value :=
  let member (a : Annotated Value) :=
    MkAnnotated (match a with MkAnnotated (Some v) _ => json_image v | MkAnnotated None _ => None end) Meta.empty in
  match v with
  | U64 n => Some (visit_u64 n)
  | F64 x => match x with S754_nan | S754_infinity _ => None | x => Some (F64 x) end
  | Array items => Some (Array (member <$> items))
  | Types.Object items => Some (Types.Object ((fun kv => (kv.1, member kv.2)) <$> items))
  | v => Some v
  end.

Definition remark_type_to_string (ty : RemarkType) : string :=
  match ty with
  | RemarkType.Annotated => "a"
  | RemarkType.Removed => "x"
  | RemarkType.Substituted => "s"
  | RemarkType.Masked => "m"
  | RemarkType.Pseudonymized => "p"
  | RemarkType.Encrypted => "e"
  end.
Definition remark_type_from_string (s : string) : option RemarkType :=
  match_str s
    [("a", RemarkType.Annotated); ("x", RemarkType.Removed); ("s", RemarkType.Substituted);
     ("m", RemarkType.Masked); ("p", RemarkType.Pseudonymized); ("e", RemarkType.Encrypted)].

(** [Serialize for Remark]: the rule, the type and the range if there is one. *)
Definition remark_to_value (self : Remark) : Value :=
  Array (Annotated.new <$>
    [String_ (Remark.rule_id self); String_ (remark_type_to_string (Remark.ty self))]
    ++ match Remark.range self with
       | Some (start, end_) => [I64 (Z.of_nat start); I64 (Z.of_nat end_)]
       | None => []
       end).

Definition to_str (a : Annotated Value) : option string :=
  match Annotated.value a with Some v => value_as_str v | None => None end.

Definition to_usize (a : Annotated Value) : option nat :=
  match Annotated.value a with
  | Some (I64 n) => if bool_decide (0 <= n) then Some (Z.to_nat n) else None
  | Some (U64 n) => Some (Z.to_nat n)
  | _ => None
  end.

(** [visit_seq]: a start without an end is no range, more elements are ignored. *)
Definition remark_range (rest : list (Annotated Value)) : option (option (nat * nat)) :=
  match rest with
  | [] => Some None
  | [start] => (fun _ => None) <$> to_usize start
  | start :: end_ :: _ => start ← to_usize start; end_ ← to_usize end_; Some (Some (start, end_))
  end.

Definition remark_of_value (value : Value) : option Remark :=
  match value with
  | Array (a :: b :: rest) =>
      rule_id ← to_str a;
      ty ← to_str b;
      ty ← remark_type_from_string ty;
      range ← remark_range rest;
      Some (Remark.MkRemark ty rule_id range)
  | _ => None
  end.

(** [Serialize for Error]: the kind alone, or with the data. *)
Definition error_to_value (self : Error) : Value :=
  match self with
  | MkError kind [] => String_ (ErrorKind.as_str kind)
  | MkError kind data =>
      Array [Annotated.new (String_ (ErrorKind.as_str kind));
             Annotated.new (Types.Object ((fun kv => (kv.1, MkAnnotated (json_image kv.2) Meta.empty)) <$> data))]
  end.

Definition error_data (rest : list (Annotated Value)) : option (list (string * Value)) :=
  match rest with
  | [] => Some []
  | MkAnnotated (Some (Types.Object items)) _ :: _ =>
      mapM (fun kv => v ← Annotated.value kv.2; v ← json_image v; Some (kv.1, v)) items
  | _ => None
  end.

Definition error_of_value (value : Value) : option Error :=
  match value with
  | String_ s => Some (MkError (ErrorKind.parse s) [])
  | Array (kind :: rest) =>
      kind ← to_str kind;
      data ← error_data rest;
      Some (MkError (ErrorKind.parse kind) data)
  | _ => None
  end.

(** [MetaInner]: the fields that are not empty, in the order of their keys. *)
Definition opt_field (name : string) (field : option (Annotated Value)) : list (string * Annotated Value) :=
  match field with Some a => [(name, a)] | None => [] end.
Definition array_field {A} (write : A -> Value) (l : list A) : option (Annotated Value) :=
  match l with [] => None | l => Some (Annotated.new (Array ((fun a => Annotated.new (write a)) <$> l))) end.

Definition meta_inner_to_value (self : MetaInner) : Value :=
  let '(MkMetaInner remarks errors original_length original_value) := self in
  Types.Object
    (opt_field "err" (array_field error_to_value errors)
     ++ opt_field "len" ((fun n => Annotated.new (I64 n)) <$> original_length)
     ++ opt_field "rem" (array_field remark_to_value remarks)
     ++ opt_field "val" ((fun v => MkAnnotated (json_image v) Meta.empty) <$> original_value)).

(** A field of the object; a struct may also be read from the list of its fields. *)
Definition meta_field (value : Value) (index : nat) (name : string) : option (Annotated Value) :=
  match value with
  | Types.Object items => (assoc_remove name items).1
  | Array items => items !! index
  | _ => None
  end.

Definition list_field {A} (read : Value -> option A) (field : option (Annotated Value)) : option (list A) :=
  match field with
  | None => Some []
  | Some (MkAnnotated (Some (Array items)) _) => mapM (fun a => Annotated.value a ≫= read) items
  | Some _ => None
  end.

Definition u32_field (field : option (Annotated Value)) : option (option Z) :=
  match field with
  | None | Some (MkAnnotated None _) => Some None
  | Some (MkAnnotated (Some (I64 n)) _) | Some (MkAnnotated (Some (U64 n)) _) =>
      if bool_decide (0 <= n <= u32_max) then Some (Some n) else None
  | Some _ => None
  end.

Definition meta_inner_of_value (value : Value) : option MetaInner :=
  let shape := match value with
               | Types.Object _ => true
               | Array items => bool_decide (length items <= 4)%nat
               | _ => false
               end in
  if shape : bool then
    remarks ← list_field remark_of_value (meta_field value 0 "rem");
    errors ← list_field error_of_value (meta_field value 1 "err");
    original_length ← u32_field (meta_field value 2 "len");
    Some (MkMetaInner remarks errors original_length
            (field ← meta_field value 3 "val"; v ← Annotated.value field; json_image v))
  else None.

(** [Deserialize for Meta] *)
Definition meta_of_value (value : Annotated Value) : option Meta :=
  match Annotated.value value with
  | None => Some (MkMeta None)
  | Some v => inner ← meta_inner_of_value v; Some (if inner_is_empty inner then MkMeta None else MkMeta (Some inner))
  end.

(** [Serialize for MetaTree]: the meta data under the empty key, beside the children. *)
Fixpoint tree_to_value (self : MetaTree) : Value :=
  match self with
  | MkMetaTree meta children =>
      Types.Object
        (match Meta.inner meta with
         | Some inner => if inner_is_empty inner then [] else [("", Annotated.new (meta_inner_to_value inner))]
         | None => []
         end
         ++ (fix entries (l : MetaMap) :=
               match l with [] => [] | (k, t) :: l => (k, Annotated.new (tree_to_value t)) :: entries l end) children)
  end.

(** [MetaTree::from_value]: meta data that do not deserialize are dropped. *)
Fixpoint tree_of_value (v : Value) : MetaTree :=
  match v with
  | Types.Object items =>
      MkMetaTree (default Meta.empty ((assoc_remove "" items).1 ≫= meta_of_value))
        ((fix entries (l : list (string * Annotated Value)) :=
            match l with
            | [] => []
            | (k, a) :: l =>
                if bool_decide (k = "") then entries l
                else
                  (k, match a with MkAnnotated (Some v) _ => tree_of_value v | MkAnnotated None _ => MkMetaTree Meta.empty [] end)
                  :: entries l
            end) items)
  | _ => MkMetaTree Meta.empty []
  end.

(** ** Reading what was written *)

(** Values that JSON keeps as they are. *)
Definition stable (v : Value) : Prop := json_image v = Some v.
Definition good_error (e : Error) : Prop :=
  match e with MkError kind data => ErrorKind.parse (ErrorKind.as_str kind) = kind /\ Forall (fun kv => stable kv.2) data end.
Definition good_inner (i : MetaInner) : Prop :=
  match i with
  | MkMetaInner _ es l o =>
      Forall good_error es /\ from_option (fun n => 0 <= n <= u32_max) True l /\ from_option stable True o
  end.
Definition good_meta (m : Meta) : Prop :=
  match Meta.inner m with None => True | Some i => inner_is_empty i = false /\ good_inner i end.

(** No child is called by the empty string, the key of the node's own meta data. *)
Fixpoint good_tree (t : MetaTree) : Prop :=
  match t with
  | MkMetaTree m children =>
      good_meta m
      /\ (fix all (l : MetaMap) := match l with [] => True | (k, t) :: l => (k <> "" /\ good_tree t) /\ all l end) children
  end.

Section MetaTree_induction.
Context (P : MetaTree -> Prop) (HP : forall m l, Forall (fun kt => P kt.2) l -> P (MkMetaTree m l)).

Fixpoint MetaTree_ind' (t : MetaTree) : P t :=
  match t with
  | MkMetaTree m l =>
      HP m l ((fix all (l : MetaMap) : Forall (fun kt => P kt.2) l :=
        match l with [] => Forall_nil_2 _ | kt :: l => Forall_cons_2 _ kt l (MetaTree_ind' kt.2) (all l) end) l)
  end.

End MetaTree_induction.

Lemma remark_roundtrip r : remark_of_value (remark_to_value r) = Some r.
Proof.
  destruct r as [ty id [ [s e] |]]; unfold remark_of_value, remark_to_value; cbn -[bool_decide].
  - unfold to_usize. cbn -[bool_decide]. rewrite !bool_decide_eq_true_2 by lia. cbn. rewrite !Nat2Z.id. by destruct ty.
  - by destruct ty.
Qed.

Lemma error_roundtrip e : good_error e -> error_of_value (error_to_value e) = Some e.
Proof.
  destruct e as [kind data]. intros [Hk Hd]. destruct data as [|kv data]; cbn -[ErrorKind.parse]; [by rewrite Hk|].
  rewrite Hk.
  assert (forall l, Forall (fun kv : string * Value => stable kv.2) l ->
    mapM (fun kv => v ← Annotated.value kv.2; v ← json_image v; Some (kv.1, v))
      ((fun kv => (kv.1, MkAnnotated (json_image kv.2) Meta.empty)) <$> l) = Some l) as Hl.
  { induction 1 as [|[k v] l Hv _ IH]; [done|]. unfold stable in Hv. cbn in *. rewrite Hv. cbn. rewrite Hv. cbn.
    cbn in IH. by rewrite IH. }
  specialize (Hl _ Hd). cbn in Hl. by rewrite Hl.
Qed.

Lemma list_field_written {A} (read : Value -> option A) write (l : list A) :
  Forall (fun a => read (write a) = Some a) l -> list_field read (array_field write l) = Some l.
Proof.
  intros Hl. destruct Hl as [|a l Ha Hl]; [done|]. cbn. rewrite Ha. cbn.
  assert (mapM (fun a => Annotated.value a ≫= read) ((fun a => Annotated.new (write a)) <$> l) = Some l) as IH;
    [|cbn in IH; by rewrite IH].
  clear Ha. induction Hl as [|b l Hb _ IH]; [done|]. cbn. rewrite Hb. cbn. cbn in IH. by rewrite IH.
Qed.

(** The four fields are found under their names, whichever of them are there. *)
Lemma meta_fields err len rem val :
  let fields := Types.Object (opt_field "err" err ++ opt_field "len" len ++ opt_field "rem" rem ++ opt_field "val" val) in
  meta_field fields 0 "rem" = rem /\ meta_field fields 1 "err" = err
  /\ meta_field fields 2 "len" = len /\ meta_field fields 3 "val" = val.
Proof. destruct err, len, rem, val; split_and!; reflexivity. Qed.

Lemma meta_inner_roundtrip i : good_inner i -> meta_inner_of_value (meta_inner_to_value i) = Some i.
Proof.
  destruct i as [rs es l o]. intros (Hes & Hl & Ho). unfold meta_inner_of_value, meta_inner_to_value.
  edestruct meta_fields as (Hr & He & Hn & Hv). rewrite Hr, He, Hn, Hv. clear Hr He Hn Hv.
  rewrite (list_field_written remark_of_value remark_to_value rs) by (by apply Forall_true, remark_roundtrip).
  rewrite (list_field_written error_of_value error_to_value es) by (by eapply Forall_impl; [|apply error_roundtrip]).
  destruct l as [n|], o as [v|]; cbn -[bool_decide] in *; unfold stable in Ho;
    rewrite ?bool_decide_eq_true_2 by done; cbn; rewrite ?Ho; cbn; rewrite ?Ho; reflexivity.
Qed.

Lemma tree_of_entries l :
  Forall (fun kt => good_tree kt.2 -> tree_of_value (tree_to_value kt.2) = kt.2) l ->
  Forall (fun kt : string * MetaTree => kt.1 <> "" /\ good_tree kt.2) l ->
  (fix entries (l : list (string * Annotated Value)) :=
     match l with
     | [] => []
     | (k, a) :: l =>
         if bool_decide (k = "") then entries l
         else
           (k, match a with MkAnnotated (Some v) _ => tree_of_value v | MkAnnotated None _ => MkMetaTree Meta.empty [] end)
           :: entries l
     end)
    ((fix entries (l : MetaMap) :=
        match l with [] => [] | (k, t) :: l => (k, Annotated.new (tree_to_value t)) :: entries l end) l) = l.
Proof.
  induction 1 as [|[k t] l Ht _ IH]; [done|]. intros [ [Hk Hg] Hl]%Forall_cons. simpl in *.
  rewrite bool_decide_eq_false_2 by done. by rewrite Ht, IH.
Qed.

Lemma good_tree_node m l :
  good_tree (MkMetaTree m l) <-> good_meta m /\ Forall (fun kt => kt.1 <> "" /\ good_tree kt.2) l.
Proof.
  simpl. apply and_iff_compat_l. induction l as [|[k t] l IH]; [by split|]. by rewrite Forall_cons, IH.
Qed.

Lemma no_empty_key l :
  Forall (fun kt : string * MetaTree => kt.1 <> "" /\ good_tree kt.2) l ->
  (assoc_remove "" ((fix entries (l : MetaMap) :=
     match l with [] => [] | (k, t) :: l => (k, Annotated.new (tree_to_value t)) :: entries l end) l)).1 = None.
Proof.
  induction 1 as [|[k t] l [Hk _] _ IH]; [done|]. simpl in *. rewrite bool_decide_eq_false_2 by done.
  by destruct (assoc_remove _ _).
Qed.

Lemma tree_json_roundtrip t : good_tree t -> tree_of_value (tree_to_value t) = t.
Proof.
  induction t as [m l IH] using MetaTree_ind'. intros [Hm Hl]%good_tree_node.
  destruct m as [[i|]]; cbn -[assoc_remove bool_decide].
  - destruct Hm as [He Hi]. rewrite He. cbn -[meta_of_value meta_inner_to_value bool_decide].
    rewrite !(bool_decide_eq_true_2 ("" = "")) by done.
    cbn [fst mbind option_bind]. unfold meta_of_value. cbn [Annotated.value Annotated.new].
    rewrite meta_inner_roundtrip by done. cbn [mbind option_bind from_option id]. rewrite He. f_equal.
    by apply tree_of_entries.
  - rewrite no_empty_key by done. f_equal. by apply tree_of_entries.
Qed.

(** C33: The meta data of a value survive the way through JSON: the tree of meta data is
    extracted, written and read, and attached to the payload from which all meta
    data were dropped; that gives the value back, up to the representation of
    empty meta data.  The keys of objects must be distinct and not empty, the kinds
    of errors ones that are parsed, and values inside of meta data plain JSON. *)
Theorem meta_json_roundtrip (a : Annotated Value) :
  wf_annotated a -> good_tree (extract_meta_tree a) ->
  canonical (attach_meta_tree (payload a) (tree_of_value (tree_to_value (extract_meta_tree a)))) = canonical a.
Proof. intros Hwf Hg. rewrite tree_json_roundtrip by done. by apply reattach_annotated. Qed.

Lemma meta_json_roundtrip_witness :
  canonical (attach_meta_tree (payload sample_annotated) (tree_of_value (tree_to_value (extract_meta_tree sample_annotated))))
  = sample_annotated.
Proof.
  refine (eq_trans (meta_json_roundtrip sample_annotated _ _) _); [| |reflexivity].
  - apply wf_object. split; [apply (bool_decide_unpack _); by vm_compute|]. repeat constructor; by vm_compute.
  - cbn. repeat constructor; done.
Defined.

(** The meta data of a child under the empty key do not: they are taken for those of
    the object itself, whose fields they do not have, and dropped. *)
Example empty_key_meta_lost :
  let m := Meta.from_error (error_new ErrorKind.InvalidData) in
  let a := Annotated.new (Types.Object [("", MkAnnotated (Some (I64 1)) m)]) in
  attach_meta_tree (payload a) (tree_of_value (tree_to_value (extract_meta_tree a))) = payload a
  /\ canonical a <> payload a.
Proof. split; [reflexivity|]. vm_compute. congruence. Qed.
