(* ===== verification/Mechanism.v ===== *)
(** * relay-general: exception mechanisms (store/normalize/mechanism.rs)

    The names of error numbers, signals, signal codes and mach exceptions on the
    operating systems that are known, the system of an event, and the normalization
    that fills in the names a client left out. *)

From Stdlib Require Import Ascii String.
From S2P Require Import Prelude Strings Floats Types Common Protocol Size Conversions.

Open Scope string_scope.
Open Scope Z_scope.
Open Scope list_scope.

Module OsHint.

Inductive OsHint := Windows | Linux | Darwin.

#[global] Instance OsHint_eq_dec : EqDecision OsHint.
Proof. solve_decision. Defined.

End OsHint.
Notation OsHint := OsHint.OsHint.

(** ** Names of numbers: the arms of the matches, in their order *)

Definition errno_linux : list (Z * string) :=
  [(1, "EPERM"); (2, "ENOENT"); (3, "ESRCH"); (4, "EINTR"); (5, "EIO"); (6, "ENXIO"); (7, "E2BIG");
   (8, "ENOEXEC"); (9, "EBADF"); (10, "ECHILD"); (11, "EAGAIN"); (12, "ENOMEM"); (13, "EACCES");
   (14, "EFAULT"); (15, "ENOTBLK"); (16, "EBUSY"); (17, "EEXIST"); (18, "EXDEV"); (19, "ENODEV");
   (20, "ENOTDIR"); (21, "EISDIR"); (22, "EINVAL"); (23, "ENFILE"); (24, "EMFILE"); (25, "ENOTTY");
   (26, "ETXTBSY"); (27, "EFBIG"); (28, "ENOSPC"); (29, "ESPIPE"); (30, "EROFS"); (31, "EMLINK");
   (32, "EPIPE"); (33, "EDOM"); (34, "ERANGE"); (35, "EDEADLK"); (36, "ENAMETOOLONG"); (37, "ENOLCK");
   (38, "ENOSYS"); (39, "ENOTEMPTY"); (40, "ELOOP"); (42, "ENOMSG"); (43, "EIDRM"); (44, "ECHRNG");
   (45, "EL2NSYNC"); (46, "EL3HLT"); (47, "EL3RST"); (48, "ELNRNG"); (49, "EUNATCH"); (50, "ENOCSI");
   (51, "EL2HLT"); (52, "EBADE"); (53, "EBADR"); (54, "EXFULL"); (55, "ENOANO"); (56, "EBADRQC");
   (57, "EBADSLT"); (59, "EBFONT"); (60, "ENOSTR"); (61, "ENODATA"); (62, "ETIME"); (63, "ENOSR");
   (64, "ENONET"); (65, "ENOPKG"); (66, "EREMOTE"); (67, "ENOLINK"); (68, "EADV"); (69, "ESRMNT");
   (70, "ECOMM"); (71, "EPROTO"); (72, "EMULTIHOP"); (73, "EDOTDOT"); (74, "EBADMSG"); (75, "EOVERFLOW");
   (76, "ENOTUNIQ"); (77, "EBADFD"); (78, "EREMCHG"); (79, "ELIBACC"); (80, "ELIBBAD"); (81, "ELIBSCN");
   (82, "ELIBMAX"); (83, "ELIBEXEC"); (84, "EILSEQ"); (85, "ERESTART"); (86, "ESTRPIPE"); (87, "EUSERS");
   (88, "ENOTSOCK"); (89, "EDESTADDRREQ"); (90, "EMSGSIZE"); (91, "EPROTOTYPE"); (92, "ENOPROTOOPT");
   (93, "EPROTONOSUPPORT"); (94, "ESOCKTNOSUPPORT"); (95, "EOPNOTSUPP"); (96, "EPFNOSUPPORT");
   (97, "EAFNOSUPPORT"); (98, "EADDRINUSE"); (99, "EADDRNOTAVAIL"); (100, "ENETDOWN"); (101, "ENETUNREACH");
   (102, "ENETRESET"); (103, "ECONNABORTED"); (104, "ECONNRESET"); (105, "ENOBUFS"); (106, "EISCONN");
   (107, "ENOTCONN"); (108, "ESHUTDOWN"); (109, "ETOOMANYREFS"); (110, "ETIMEDOUT"); (111, "ECONNREFUSED");
   (112, "EHOSTDOWN"); (113, "EHOSTUNREACH"); (114, "EALREADY"); (115, "EINPROGRESS"); (116, "ESTALE");
   (117, "EUCLEAN"); (118, "ENOTNAM"); (119, "ENAVAIL"); (120, "EISNAM"); (121, "EREMOTEIO");
   (122, "EDQUOT"); (123, "ENOMEDIUM"); (124, "EMEDIUMTYPE"); (125, "ECANCELED"); (126, "ENOKEY");
   (127, "EKEYEXPIRED"); (128, "EKEYREVOKED"); (129, "EKEYREJECTED"); (130, "EOWNERDEAD");
   (131, "ENOTRECOVERABLE"); (132, "ERFKILL"); (133, "EHWPOISON")].

Definition errno_darwin : list (Z * string) :=
  [(1, "EPERM"); (2, "ENOENT"); (3, "ESRCH"); (4, "EINTR"); (5, "EIO"); (6, "ENXIO"); (7, "E2BIG");
   (8, "ENOEXEC"); (9, "EBADF"); (10, "ECHILD"); (11, "EDEADLK"); (12, "ENOMEM"); (13, "EACCES");
   (14, "EFAULT"); (15, "ENOTBLK"); (16, "EBUSY"); (17, "EEXIST"); (18, "EXDEV"); (19, "ENODEV");
   (20, "ENOTDIR"); (21, "EISDIR"); (22, "EINVAL"); (23, "ENFILE"); (24, "EMFILE"); (25, "ENOTTY");
   (26, "ETXTBSY"); (27, "EFBIG"); (28, "ENOSPC"); (29, "ESPIPE"); (30, "EROFS"); (31, "EMLINK");
   (32, "EPIPE"); (33, "EDOM"); (34, "ERANGE"); (35, "EAGAIN"); (36, "EINPROGRESS"); (37, "EALREADY");
   (38, "ENOTSOCK"); (39, "EDESTADDRREQ"); (40, "EMSGSIZE"); (41, "EPROTOTYPE"); (42, "ENOPROTOOPT");
   (43, "EPROTONOSUPPORT"); (44, "ESOCKTNOSUPPORT"); (45, "ENOTSUP"); (46, "EPFNOSUPPORT");
   (47, "EAFNOSUPPORT"); (48, "EADDRINUSE"); (49, "EADDRNOTAVAIL"); (50, "ENETDOWN"); (51, "ENETUNREACH");
   (52, "ENETRESET"); (53, "ECONNABORTED"); (54, "ECONNRESET"); (55, "ENOBUFS"); (56, "EISCONN");
   (57, "ENOTCONN"); (58, "ESHUTDOWN"); (59, "ETOOMANYREFS"); (60, "ETIMEDOUT"); (61, "ECONNREFUSED");
   (62, "ELOOP"); (63, "ENAMETOOLONG"); (64, "EHOSTDOWN"); (65, "EHOSTUNREACH"); (66, "ENOTEMPTY");
   (67, "EPROCLIM"); (68, "EUSERS"); (69, "EDQUOT"); (70, "ESTALE"); (71, "EREMOTE"); (72, "EBADRPC");
   (73, "ERPCMISMATCH"); (74, "EPROGUNAVAIL"); (75, "EPROGMISMATCH"); (76, "EPROCUNAVAIL"); (77, "ENOLCK");
   (78, "ENOSYS"); (79, "EFTYPE"); (80, "EAUTH"); (81, "ENEEDAUTH"); (82, "EPWROFF"); (83, "EDEVERR");
   (84, "EOVERFLOW"); (85, "EBADEXEC"); (86, "EBADARCH"); (87, "ESHLIBVERS"); (88, "EBADMACHO");
   (89, "ECANCELED"); (90, "EIDRM"); (91, "ENOMSG"); (92, "EILSEQ"); (93, "ENOATTR"); (94, "EBADMSG");
   (95, "EMULTIHOP"); (96, "ENODATA"); (97, "ENOLINK"); (98, "ENOSR"); (99, "ENOSTR"); (100, "EPROTO");
   (101, "ETIME"); (102, "EOPNOTSUPP"); (103, "ENOPOLICY"); (104, "ENOTRECOVERABLE"); (105, "EOWNERDEAD");
   (106, "EQFULL")].

Definition errno_windows : list (Z * string) :=
  [(1, "EPERM"); (2, "ENOENT"); (3, "ESRCH"); (4, "EINTR"); (5, "EIO"); (6, "ENXIO"); (7, "E2BIG");
   (8, "ENOEXEC"); (9, "EBADF"); (10, "ECHILD"); (11, "EAGAIN"); (12, "ENOMEM"); (13, "EACCES");
   (14, "EFAULT"); (16, "EBUSY"); (17, "EEXIST"); (18, "EXDEV"); (19, "ENODEV"); (20, "ENOTDIR");
   (21, "EISDIR"); (23, "ENFILE"); (24, "EMFILE"); (25, "ENOTTY"); (27, "EFBIG"); (28, "ENOSPC");
   (29, "ESPIPE"); (30, "EROFS"); (31, "EMLINK"); (32, "EPIPE"); (33, "EDOM"); (36, "EDEADLK");
   (38, "ENAMETOOLONG"); (39, "ENOLCK"); (40, "ENOSYS"); (41, "ENOTEMPTY"); (22, "EINVAL"); (34, "ERANGE");
   (42, "EILSEQ"); (80, "STRUNCATE"); (100, "EADDRINUSE"); (101, "EADDRNOTAVAIL"); (102, "EAFNOSUPPORT");
   (103, "EALREADY"); (104, "EBADMSG"); (105, "ECANCELED"); (106, "ECONNABORTED"); (107, "ECONNREFUSED");
   (108, "ECONNRESET"); (109, "EDESTADDRREQ"); (110, "EHOSTUNREACH"); (111, "EIDRM"); (112, "EINPROGRESS");
   (113, "EISCONN"); (114, "ELOOP"); (115, "EMSGSIZE"); (116, "ENETDOWN"); (117, "ENETRESET");
   (118, "ENETUNREACH"); (119, "ENOBUFS"); (120, "ENODATA"); (121, "ENOLINK"); (122, "ENOMSG");
   (123, "ENOPROTOOPT"); (124, "ENOSR"); (125, "ENOSTR"); (126, "ENOTCONN"); (127, "ENOTRECOVERABLE");
   (128, "ENOTSOCK"); (129, "ENOTSUP"); (130, "EOPNOTSUPP"); (131, "EOTHER"); (132, "EOVERFLOW");
   (133, "EOWNERDEAD"); (134, "EPROTO"); (135, "EPROTONOSUPPORT"); (136, "EPROTOTYPE"); (137, "ETIME");
   (138, "ETIMEDOUT"); (139, "ETXTBSY"); (140, "EWOULDBLOCK")].

Definition signal_linux : list (Z * string) :=
  [(1, "SIGHUP"); (2, "SIGINT"); (3, "SIGQUIT"); (4, "SIGILL"); (5, "SIGTRAP"); (6, "SIGABRT");
   (7, "SIGBUS"); (8, "SIGFPE"); (9, "SIGKILL"); (10, "SIGUSR1"); (11, "SIGSEGV"); (12, "SIGUSR2");
   (13, "SIGPIPE"); (14, "SIGALRM"); (15, "SIGTERM"); (16, "SIGSTKFLT"); (17, "SIGCHLD"); (18, "SIGCONT");
   (19, "SIGSTOP"); (20, "SIGTSTP"); (21, "SIGTTIN"); (22, "SIGTTOU"); (23, "SIGURG"); (24, "SIGXCPU");
   (25, "SIGXFSZ"); (26, "SIGVTALRM"); (27, "SIGPROF"); (28, "SIGWINCH"); (29, "SIGIO"); (30, "SIGPWR");
   (31, "SIGSYS")].

Definition signal_darwin : list (Z * string) :=
  [(1, "SIGHUP"); (2, "SIGINT"); (3, "SIGQUIT"); (4, "SIGILL"); (5, "SIGTRAP"); (6, "SIGABRT");
   (7, "SIGPOLL"); (8, "SIGFPE"); (9, "SIGKILL"); (10, "SIGBUS"); (11, "SIGSEGV"); (12, "SIGSYS");
   (13, "SIGPIPE"); (14, "SIGALRM"); (15, "SIGTERM"); (16, "SIGURG"); (17, "SIGSTOP"); (18, "SIGTSTP");
   (19, "SIGCONT"); (20, "SIGCHLD"); (21, "SIGTTIN"); (22, "SIGTTOU"); (23, "SIGIO"); (24, "SIGXCPU");
   (25, "SIGXFSZ"); (26, "SIGVTALRM"); (27, "SIGPROF"); (28, "SIGWINCH"); (29, "SIGINFO"); (30, "SIGUSR1");
   (31, "SIGUSR2")].

Definition codes_ill : list (Z * string) :=
  [(0, "ILL_NOOP"); (1, "ILL_ILLOPC"); (2, "ILL_ILLTRP"); (3, "ILL_PRVOPC"); (4, "ILL_ILLOPN");
   (5, "ILL_ILLADR"); (6, "ILL_PRVREG"); (7, "ILL_COPROC"); (8, "ILL_BADSTK")].

Definition codes_fpe : list (Z * string) :=
  [(0, "FPE_NOOP"); (1, "FPE_FLTDIV"); (2, "FPE_FLTOVF"); (3, "FPE_FLTUND"); (4, "FPE_FLTRES");
   (5, "FPE_FLTINV"); (6, "FPE_FLTSUB"); (7, "FPE_INTDIV"); (8, "FPE_INTOVF")].

Definition codes_segv : list (Z * string) :=
  [(0, "SEGV_NOOP"); (1, "SEGV_MAPERR"); (2, "SEGV_ACCERR")].

Definition codes_bus : list (Z * string) :=
  [(0, "BUS_NOOP"); (1, "BUS_ADRALN"); (2, "BUS_ADRERR"); (3, "BUS_OBJERR")].

Definition codes_trap : list (Z * string) :=
  [(1, "TRAP_BRKPT"); (2, "TRAP_TRACE")].

Definition codes_chld : list (Z * string) :=
  [(0, "CLD_NOOP"); (1, "CLD_EXITED"); (2, "CLD_KILLED"); (3, "CLD_DUMPED"); (4, "CLD_TRAPPED");
   (5, "CLD_STOPPED"); (6, "CLD_CONTINUED")].

Definition codes_poll : list (Z * string) :=
  [(1, "POLL_IN"); (2, "POLL_OUT"); (3, "POLL_MSG"); (4, "POLL_ERR"); (5, "POLL_PRI"); (6, "POLL_HUP")].

Definition mach_exceptions : list (Z * string) :=
  [(1, "EXC_BAD_ACCESS"); (2, "EXC_BAD_INSTRUCTION"); (3, "EXC_ARITHMETIC"); (4, "EXC_EMULATION");
   (5, "EXC_SOFTWARE"); (6, "EXC_BREAKPOINT"); (7, "EXC_SYSCALL"); (8, "EXC_MACH_SYSCALL");
   (9, "EXC_RPC_ALERT"); (10, "EXC_CRASH"); (11, "EXC_RESOURCE"); (12, "EXC_GUARD");
   (13, "EXC_CORPSE_NOTIFY")].

Fixpoint match_num (n : Z) (arms : list (Z * string)) : option string :=
  match arms with
  | [] => None
  | (m, name) :: arms => if bool_decide (n = m) then Some name else match_num n arms
  end.

Definition get_errno_name (errno : Z) (os_hint : OsHint) : option string :=
  match os_hint with
  | OsHint.Linux => match_num errno errno_linux
  | OsHint.Darwin => match_num errno errno_darwin
  | OsHint.Windows => match_num errno errno_windows
  end.

Definition get_signal_name (signo : Z) (os_hint : OsHint) : option string :=
  match os_hint with
  | OsHint.Linux => match_num signo signal_linux
  | OsHint.Darwin => match_num signo signal_darwin
  | _ => None
  end.

Definition get_signal_code_name (signo codeno : Z) : option string :=
  match signo with
  | 4 => match_num codeno codes_ill
  | 8 => match_num codeno codes_fpe
  | 11 => match_num codeno codes_segv
  | 10 => match_num codeno codes_bus
  | 5 => match_num codeno codes_trap
  | 20 => match_num codeno codes_chld
  | 7 => match_num codeno codes_poll
  | _ => None
  end.

Definition get_mach_exception_name (number : Z) : option string := match_num number mach_exceptions.

(** ** The operating system of an event *)

Section Hint.
(** [str::to_lowercase] *)
Context (to_lowercase : string -> string).

Definition from_name (name : string) : option OsHint :=
  match_str (to_lowercase name)
    [("ios", OsHint.Darwin); ("watchos", OsHint.Darwin); ("tvos", OsHint.Darwin); ("macos", OsHint.Darwin);
     ("linux", OsHint.Linux); ("android", OsHint.Linux); ("windows", OsHint.Windows)].

Definition sdk_name_of (event : Event) : option string :=
  debug_meta ← Annotated.value (debug_meta event);
  sdk_info ← Annotated.value (DebugMeta.system_sdk debug_meta);
  Annotated.value (SystemSdkInfo.sdk_name sdk_info).

Definition os_name_of (event : Event) : option string :=
  contexts ← Annotated.value (contexts event);
  context ← contexts !! "os";
  context ← Annotated.value context;
  match context with Context.Os os_context => Annotated.value (OsContext.name os_context) | _ => None end.

(** The SDK's system decides when it is named, known or not. *)
Definition from_event (event : Event) : option OsHint :=
  match sdk_name_of event with
  | Some name => from_name name
  | None => name ← os_name_of event; from_name name
  end.

End Hint.

(** ** Normalization *)

Section Normalize.
Context {CE : ConvEnv}.

(** [help_link.apply]: only URLs are links. *)
Definition check_help_link (value : string) (meta : Meta) : string * Meta * result ProcessingAction () :=
  if starts_with "http://" value || starts_with "https://" value then (value, meta, Ok ())
  else (value, Meta.add_error meta (error_expected "http URL"), Err ProcessingAction.DeleteValueSoft).

(** [if name.value().is_none() { if let Some(found) = .. { name = .. } }] *)
Definition fill (name : Annotated string) (found : option string) : Annotated string :=
  match Annotated.value name, found with
  | None, Some found => Annotated.new found
  | _, _ => name
  end.

Definition normalize_errno (os_hint : OsHint) (cerror : CError) : CError :=
  CError.MkCError (CError.number cerror)
    (fill (CError.name cerror) (errno ← Annotated.value (CError.number cerror); get_errno_name errno os_hint)).

Definition normalize_signal (os_hint : OsHint) (signal : PosixSignal) : PosixSignal :=
  match Annotated.value (PosixSignal.number signal) with
  | None => signal
  | Some signo =>
      PosixSignal.MkPosixSignal (PosixSignal.number signal) (PosixSignal.code signal)
        (fill (PosixSignal.name signal) (get_signal_name signo os_hint))
        (if bool_decide (os_hint = OsHint.Darwin)
         then fill (PosixSignal.code_name signal)
                (code ← Annotated.value (PosixSignal.code signal); get_signal_code_name signo code)
         else PosixSignal.code_name signal)
  end.

Definition normalize_mach_exception (e : MachException) : MachException :=
  MachException.MkMachException (MachException.ty e) (MachException.code e) (MachException.subcode e)
    (fill (MachException.name e) (number ← Annotated.value (MachException.ty e); get_mach_exception_name number)).

Definition normalize_mechanism_meta (os_hint : option OsHint) (meta : MechanismMeta) : MechanismMeta :=
  MechanismMeta.MkMechanismMeta
    (match os_hint with
     | Some os_hint => Annotated.map_value (MechanismMeta.errno meta) (normalize_errno os_hint)
     | None => MechanismMeta.errno meta
     end)
    (match os_hint with
     | Some os_hint => Annotated.map_value (MechanismMeta.signal meta) (normalize_signal os_hint)
     | None => MechanismMeta.signal meta
     end)
    (Annotated.map_value (MechanismMeta.mach_exception meta) normalize_mach_exception)
    (MechanismMeta.ns_error meta) (MechanismMeta.other meta).

Definition normalize_mechanism (mechanism : Mechanism) (os_hint : option OsHint) : result ProcessingAction Mechanism :=
  help_link ← annotated_apply original_string (Mechanism.help_link mechanism) check_help_link;
  Ok (Mechanism.MkMechanism (Mechanism.ty mechanism) (Mechanism.synthetic mechanism)
        (Mechanism.description mechanism) help_link (Mechanism.handled mechanism) (Mechanism.data mechanism)
        (Annotated.map_value (Mechanism.meta mechanism) (normalize_mechanism_meta os_hint))
        (Mechanism.other mechanism)).

(** ** Correctness *)

Lemma fill_fill name found : fill (fill name found) found = fill name found.
Proof. unfold fill. destruct (Annotated.value name) eqn:E, found; simpl; rewrite ?E; done. Qed.

Lemma fill_value name found :
  Annotated.value (fill name found) = match Annotated.value name with Some n => Some n | None => found end.
Proof. unfold fill. destruct (Annotated.value name) eqn:E, found; simpl; rewrite ?E; done. Qed.

Lemma check_help_link_ok link :
  exists link', annotated_apply original_string link check_help_link = Ok link'
    /\ annotated_apply original_string link' check_help_link = Ok link'
    /\ Annotated.value link' = (v ← Annotated.value link;
         if starts_with "http://" v || starts_with "https://" v then Some v else None).
Proof.
  destruct link as [[v|] m]; [|by eexists]. cbn. unfold check_help_link.
  destruct (_ || _) eqn:E; eexists; (split; [reflexivity|]); cbn; unfold check_help_link; by rewrite ?E.
Qed.

Lemma normalize_errno_idemp h e : normalize_errno h (normalize_errno h e) = normalize_errno h e.
Proof. unfold normalize_errno. simpl. by rewrite fill_fill. Qed.

Lemma normalize_mach_exception_idemp e : normalize_mach_exception (normalize_mach_exception e) = normalize_mach_exception e.
Proof. unfold normalize_mach_exception. simpl. by rewrite fill_fill. Qed.

Lemma normalize_signal_idemp h s : normalize_signal h (normalize_signal h s) = normalize_signal h s.
Proof.
  unfold normalize_signal. destruct (Annotated.value (PosixSignal.number s)) eqn:E; simpl; rewrite E; [|done].
  rewrite fill_fill. by case_bool_decide; rewrite ?fill_fill.
Qed.

Lemma map_value_idemp {T} (f : T -> T) (a : Annotated T) :
  (forall x, f (f x) = f x) -> Annotated.map_value (Annotated.map_value a f) f = Annotated.map_value a f.
Proof. intros Hf. destruct a as [[x|] m]; simpl; by rewrite ?Hf. Qed.

Lemma normalize_mechanism_meta_idemp os_hint meta :
  normalize_mechanism_meta os_hint (normalize_mechanism_meta os_hint meta) = normalize_mechanism_meta os_hint meta.
Proof.
  unfold normalize_mechanism_meta. simpl. rewrite (map_value_idemp _ _ normalize_mach_exception_idemp).
  destruct os_hint as [h|]; [|done].
  by rewrite (map_value_idemp _ _ (normalize_errno_idemp h)), (map_value_idemp _ _ (normalize_signal_idemp h)).
Qed.

(** Normalizing a mechanism never fails, keeps names that the client sent, and is
    stable: a second pass changes nothing.  Afterwards the help link is a URL or
    missing, and missing names of the error number and the mach exception are the
    ones known for the operating system. *)
Theorem mechanism_normalized mechanism os_hint :
  exists m, normalize_mechanism mechanism os_hint = Ok m
    /\ normalize_mechanism m os_hint = Ok m
    /\ Annotated.value (Mechanism.help_link m)
       = (v ← Annotated.value (Mechanism.help_link mechanism);
          if starts_with "http://" v || starts_with "https://" v then Some v else None)
    /\ (Annotated.value (Mechanism.meta m) = normalize_mechanism_meta os_hint <$> Annotated.value (Mechanism.meta mechanism))
    /\ (forall hint e, Annotated.value (CError.name (normalize_errno hint e))
          = match Annotated.value (CError.name e) with
            | Some name => Some name
            | None => number ← Annotated.value (CError.number e); get_errno_name number hint
            end)
    /\ (forall e, Annotated.value (MachException.name (normalize_mach_exception e))
          = match Annotated.value (MachException.name e) with
            | Some name => Some name
            | None => number ← Annotated.value (MachException.ty e); get_mach_exception_name number
            end).
Proof.
  destruct (check_help_link_ok (Mechanism.help_link mechanism)) as (link & H1 & H2 & H3).
  unfold normalize_mechanism. rewrite H1. eexists. split; [reflexivity|]. simpl. rewrite H2. split_and!.
  - simpl. do 2 f_equal. destruct (Mechanism.meta mechanism) as [[meta|] m]; simpl; [|done].
    by rewrite normalize_mechanism_meta_idemp.
  - done.
  - by destruct (Mechanism.meta mechanism).
  - intros hint e. apply fill_value.
  - intros e. apply fill_value.
Qed.

End Normalize.
