(* ===== verification/Quota.v ===== *)
(** * relay-quotas: scopings and quotas (quota.rs)

    A [Quota] limits the data of some categories within a scope.  The file
    models the scoping data, the matching of quotas to items and the validity
    check, and relates them to declarative specifications. *)

From Stdlib Require Import Ascii String.
From S2P Require Import Prelude Strings Floats Common.

Open Scope string_scope.
Open Scope Z_scope.
Open Scope list_scope.

Module QuotaScope.

Inductive QuotaScope := Organization | Project | Key | Unknown.

#[global] Instance QuotaScope_eq_dec : EqDecision QuotaScope.
Proof. solve_decision. Defined.

Definition from_name (string : string) : QuotaScope :=
  default Unknown
    (match_str string [("organization", Organization); ("project", Project); ("key", Key)]).

Definition name (self : QuotaScope) : string :=
  match self with
  | Key => "key"
  | Project => "project"
  | Organization => "organization"
  | Unknown => "unknown"
  end.

End QuotaScope.
Notation QuotaScope := QuotaScope.QuotaScope.

Definition default_scope : QuotaScope := QuotaScope.Organization.

Record Scoping := {
  organization_id : Z;
  project_id : ProjectId;
  project_key : ProjectKey;
  key_id : option Z;
}.

(** [ItemScoping] holds a reference to its [Scoping] and dereferences to it. *)
Record ItemScoping := {
  category : DataCategory;
  scoping : Scoping;
}.

(** [Scoping::item]. *)
Definition item (self : Scoping) (category : DataCategory) : ItemScoping :=
  {| category := category; scoping := self |}.

(** [ItemScoping::scope_id]. *)
Definition scope_id_of (self : ItemScoping) (scope : QuotaScope) : option Z :=
  match scope with
  | QuotaScope.Organization => Some (organization_id (scoping self))
  | QuotaScope.Project => Some (project_id (scoping self))
  | QuotaScope.Key => key_id (scoping self)
  | QuotaScope.Unknown => None
  end.

(** [SmallVec<[DataCategory; 8]>]. *)
Notation DataCategories := (list DataCategory) (only parsing).

(** [ItemScoping::matches_categories]. *)
Definition matches_categories (self : ItemScoping) (categories : DataCategories) : bool :=
  bool_decide (categories = []) ||
  existsb (fun cat => bool_decide (cat = category self)) categories.

Module CategoryUnit.

Inductive CategoryUnit := Count | Bytes | Batched.

#[global] Instance CategoryUnit_eq_dec : EqDecision CategoryUnit.
Proof. solve_decision. Defined.

Definition from (category : DataCategory) : option CategoryUnit :=
  match category with
  | DataCategory.Default | DataCategory.Error
  | DataCategory.Transaction | DataCategory.Security => Some Count
  | DataCategory.Attachment => Some Bytes
  | DataCategory.Session => Some Batched
  | DataCategory.Unknown => None
  end.

End CategoryUnit.

(** [struct ReasonCode(String)]. *)
Record ReasonCode := MkReasonCode { reason_str : string }.

#[global] Instance ReasonCode_eq_dec : EqDecision ReasonCode.
Proof. solve_decision. Defined.

Module Quota.

Record Quota := {
  id : option string;
  categories : DataCategories;
  scope : QuotaScope;
  scope_id : option string;
  limit : option Z;
  window : option Z;
  reason_code : option ReasonCode;
}.

(** [units.next()], then [units.all(..)] on the remaining units. *)
Definition is_valid (self : Quota) : bool :=
  match omap CategoryUnit.from (categories self) with
  | [] =>
      if negb (bool_decide (categories self = [])) then false
      else if bool_decide (limit self = Some 0) then true
      else false
  | unit :: units =>
      if bool_decide (limit self = Some 0) then true
      else forallb (fun u => bool_decide (u = unit)) units
  end.

Definition matches_scope (self : Quota) (scoping : ItemScoping) : bool :=
  match scope_id self with
  | None => true
  | Some scope_id =>
      match parse_u64 scope_id with
      | Some parsed => bool_decide (scope_id_of scoping (scope self) = Some parsed)
      | None => false
      end
  end.

Definition matches (self : Quota) (scoping : ItemScoping) : bool :=
  matches_scope self scoping && matches_categories scoping (categories self).

End Quota.
Notation Quota := Quota.Quota.

(** ** Specifications *)

(** The items a quota applies to. *)
Definition applies (q : Quota) (i : ItemScoping) : Prop :=
  (Quota.categories q = [] \/ category i ∈ Quota.categories q) /\
  (forall s, Quota.scope_id q = Some s ->
     exists n, parse_u64 s = Some n /\ scope_id_of i (Quota.scope q) = Some n).

(** A quota that Relay can track: a known category, and either a static
    rejection or one common unit of all known categories. *)
Definition trackable_units (q : Quota) : Prop :=
  (Quota.categories q = [] \/
   exists c u, c ∈ Quota.categories q /\ CategoryUnit.from c = Some u) /\
  (Quota.limit q = Some 0 \/
   exists u, (exists c, c ∈ Quota.categories q /\ CategoryUnit.from c = Some u) /\
     forall c u', c ∈ Quota.categories q -> CategoryUnit.from c = Some u' -> u' = u).

(** ** Theorems *)

Lemma quota_scope_from_name_name s :
  QuotaScope.from_name (QuotaScope.name s) = s.
Proof. by destruct s. Qed.

Lemma matches_categories_spec i cs :
  matches_categories i cs = true <-> cs = [] \/ category i ∈ cs.
Proof.
  unfold matches_categories. rewrite orb_true_iff, bool_decide_eq_true, existsb_exists.
  setoid_rewrite bool_decide_eq_true. setoid_rewrite <- list_elem_of_In. naive_solver.
Qed.

Lemma matches_categories_perm i cs cs' :
  cs ≡ₚ cs' -> matches_categories i cs = matches_categories i cs'.
Proof.
  intros Hp. apply eq_true_iff_eq. rewrite !matches_categories_spec.
  split; intros [->|H].
  - left. by apply Permutation_nil_l in Hp.
  - right. by rewrite <- Hp.
  - left. by apply Permutation_nil_r in Hp.
  - right. by rewrite Hp.
Qed.

Lemma omap_units_spec (cs : DataCategories) (u : CategoryUnit.CategoryUnit) :
  u ∈ omap CategoryUnit.from cs <-> exists c, c ∈ cs /\ CategoryUnit.from c = Some u.
Proof. rewrite list_elem_of_omap. naive_solver. Qed.

Lemma quota_matches_applies q i : Quota.matches q i = true <-> applies q i.
Proof.
  unfold Quota.matches, Quota.matches_scope, applies.
  rewrite andb_true_iff, matches_categories_spec.
  destruct (Quota.scope_id q) as [s|]; [|naive_solver].
  destruct (parse_u64 s) as [n|] eqn:E; [rewrite bool_decide_eq_true|]; naive_solver.
Qed.

Lemma quota_is_valid_spec q : Quota.is_valid q = true <-> trackable_units q.
Proof.
  unfold Quota.is_valid, trackable_units.
  setoid_rewrite <- omap_units_spec.
  assert (forall c u', c ∈ Quota.categories q -> CategoryUnit.from c = Some u' ->
            u' ∈ omap CategoryUnit.from (Quota.categories q)) as Hin
    by (intros; apply omap_units_spec; eauto).
  pose proof (omap_units_spec (Quota.categories q)) as Hout.
  destruct (omap CategoryUnit.from (Quota.categories q)) as [|u us].
  - case_bool_decide as Hc; simpl.
    + case_bool_decide as Hl; [naive_solver|]. split; [done|].
      intros [_ [?|(u & Hu & _)]]; [done|]. by apply not_elem_of_nil in Hu.
    + split; [done|]. intros [[?|(c & u & Hcu & Hf)] _]; [done|].
      exfalso. by apply (not_elem_of_nil u), (Hin c).
  - case_bool_decide as Hl.
    + split; [intros _|done]. split; [right|by left].
      destruct (proj1 (Hout u)) as (c & ? & ?); [constructor|eauto].
    + rewrite forallb_forall. setoid_rewrite bool_decide_eq_true.
      setoid_rewrite <- list_elem_of_In. split.
      * intros Hall. split.
        -- right. destruct (proj1 (Hout u)) as (c & ? & ?); [constructor|eauto].
        -- right. exists u. split; [constructor|]. intros c u' Hc Hf.
           specialize (Hin c u' Hc Hf). apply elem_of_cons in Hin as [->|?]; [done|]. by apply Hall.
      * intros [_ [?|(u0 & Hu0 & Hall)]] u' Hu'; [done|].
        assert (forall v, v ∈ u :: us -> v = u0) as Hv
          by (intros v (c & ? & ?)%Hout; eauto).
        rewrite (Hv u') by (by constructor). rewrite (Hv u) by constructor. done.
Qed.
