(* ===== verification/RateLimit.v ===== *)
(** * relay-quotas: rate limits (rate_limit.rs)

    A [RateLimits] collection holds at most one limit per pair of scope and
    category set, the one that expires last.  The file models the collection
    and its operations, and shows that it implements a map from such pairs to
    expiry times in which adding and merging take the maximum. *)

From Stdlib Require Import Ascii String SpecFloat.
From S2P Require Import Prelude Strings Floats Common Quota.

Open Scope string_scope.
Open Scope Z_scope.
Open Scope list_scope.

(** [const REJECT_ALL_SECS: u64 = 60] (lib.rs). *)
Definition REJECT_ALL_SECS : Z := 60.

Module RetryAfter.

Record RetryAfter := MkRetryAfter { when : Instant }.

#[global] Instance RetryAfter_eq_dec : EqDecision RetryAfter.
Proof. solve_decision. Defined.

Definition from_secs (now : Instant) (seconds : Z) : RetryAfter :=
  MkRetryAfter (default now (instant_checked_add now (duration_from_secs seconds))).

Definition remaining (now : Instant) (self : RetryAfter) : option Duration :=
  if bool_decide (when self <= now) then None else Some (when self - now).

Definition remaining_seconds (now : Instant) (self : RetryAfter) : Z :=
  match remaining now self with
  | Some duration =>
      if bool_decide (duration_subsec_nanos duration = 0) then duration_as_secs duration
      else duration_as_secs duration + 1
  | None => 0
  end.

Definition expired (now : Instant) (self : RetryAfter) : bool :=
  match remaining now self with None => true | Some _ => false end.

Inductive InvalidRetryAfter := InvalidDelay.

Definition from_str (now : Instant) (s : string) : result InvalidRetryAfter RetryAfter :=
  float ← ok_or (parse_f64 s) InvalidDelay;
  let seconds := ceil_as_u64 (f64_max float f64_zero) in
  Ok (from_secs now seconds).

End RetryAfter.
Notation RetryAfter := RetryAfter.RetryAfter.

Module RateLimitScope.

Inductive RateLimitScope :=
| Organization (organization_id : Z)
| Project (project_id : ProjectId)
| Key (project_key : ProjectKey).

#[global] Instance RateLimitScope_eq_dec : EqDecision RateLimitScope.
Proof. solve_decision. Defined.

Definition for_quota (scoping : Scoping) (scope : QuotaScope) : RateLimitScope :=
  match scope with
  | QuotaScope.Organization => Organization (organization_id scoping)
  | QuotaScope.Project => Project (project_id scoping)
  | QuotaScope.Key => Key (project_key scoping)
  | QuotaScope.Unknown => Key (project_key scoping)
  end.

Definition name (self : RateLimitScope) : string :=
  match self with
  | Key _ => QuotaScope.name QuotaScope.Key
  | Project _ => QuotaScope.name QuotaScope.Project
  | Organization _ => QuotaScope.name QuotaScope.Organization
  end.

End RateLimitScope.
Notation RateLimitScope := RateLimitScope.RateLimitScope.

Module RateLimit.

Record RateLimit := {
  categories : DataCategories;
  scope : RateLimitScope;
  reason_code : option ReasonCode;
  retry_after : RetryAfter;
}.

#[global] Instance RateLimit_eq_dec : EqDecision RateLimit.
Proof. solve_decision. Defined.

Definition from_quota (quota : Quota) (scoping : Scoping) (retry_after : RetryAfter) : RateLimit :=
  {| categories := Quota.categories quota;
     scope := RateLimitScope.for_quota scoping (Quota.scope quota);
     reason_code := Quota.reason_code quota;
     retry_after := retry_after |}.

Definition matches_scope (self : RateLimit) (i : ItemScoping) : bool :=
  match scope self with
  | RateLimitScope.Organization org_id => bool_decide (organization_id (scoping i) = org_id)
  | RateLimitScope.Project pid => bool_decide (project_id (scoping i) = pid)
  | RateLimitScope.Key key => bool_decide (project_key (scoping i) = key)
  end.

Definition matches (self : RateLimit) (i : ItemScoping) : bool :=
  matches_scope self i && matches_categories i (categories self).

End RateLimit.
Notation RateLimit := RateLimit.RateLimit.

(** [limit.categories.sort()]. *)
Definition sort_categories (limit : RateLimit) : RateLimit :=
  {| RateLimit.categories := merge_sort DataCategory.le (RateLimit.categories limit);
     RateLimit.scope := RateLimit.scope limit;
     RateLimit.reason_code := RateLimit.reason_code limit;
     RateLimit.retry_after := RateLimit.retry_after limit |}.

(** The instant at which a limit expires. *)
Definition expiry_of (l : RateLimit) : Instant := RetryAfter.when (RateLimit.retry_after l).

Module RateLimits.

(** [struct RateLimits { limits: Vec<RateLimit> }]. *)
Notation RateLimits := (list RateLimit) (only parsing).

Definition new : RateLimits := [].

Definition same_key (l limit : RateLimit) : bool :=
  bool_decide (RateLimit.categories l = RateLimit.categories limit) &&
  bool_decide (RateLimit.scope l = RateLimit.scope limit).

(** [limits.iter_mut().find(..)] and the update of the found entry. *)
Fixpoint add_or_replace (limits : RateLimits) (limit : RateLimit) : RateLimits :=
  match limits with
  | [] => [limit]
  | existing :: rest =>
      if same_key existing limit then
        if bool_decide (expiry_of existing < expiry_of limit) then limit :: rest
        else existing :: rest
      else existing :: add_or_replace rest limit
  end.

Definition add (self : RateLimits) (limit : RateLimit) : RateLimits :=
  add_or_replace self (sort_categories limit).

Definition merge (self limits : RateLimits) : RateLimits := foldl add self limits.

Definition is_limited (now : Instant) (self : RateLimits) : bool :=
  existsb (fun limit => negb (RetryAfter.expired now (RateLimit.retry_after limit))) self.

Definition is_ok (now : Instant) (self : RateLimits) : bool := negb (is_limited now self).

Definition clean_expired (now : Instant) (self : RateLimits) : RateLimits :=
  List.filter (fun limit => negb (RetryAfter.expired now (RateLimit.retry_after limit))) self.

(** The quota loop of [check_with_quotas]; the clock is read once per call. *)
Definition check_quotas (now : Instant) (quotas : list Quota) (i : ItemScoping)
    (applied : RateLimits) : RateLimits :=
  foldl (fun applied quota =>
           if bool_decide (Quota.limit quota = Some 0) && Quota.matches quota i
           then add applied (RateLimit.from_quota quota (scoping i)
                               (RetryAfter.from_secs now REJECT_ALL_SECS))
           else applied) applied quotas.

(** The loop over the active limits. *)
Definition check_limits (self : RateLimits) (i : ItemScoping) (applied : RateLimits) : RateLimits :=
  foldl (fun applied limit => if RateLimit.matches limit i then add applied limit else applied)
    applied self.

Definition check_with_quotas (now : Instant) (self : RateLimits) (quotas : list Quota)
    (i : ItemScoping) : RateLimits :=
  check_limits self i (check_quotas now quotas i new).

Definition check (now : Instant) (self : RateLimits) (i : ItemScoping) : RateLimits :=
  check_with_quotas now self [] i.

(** [iter().max_by_key(..)]: the last of the maximal elements. *)
Definition max_step (best : option RateLimit) (limit : RateLimit) : option RateLimit :=
  match best with
  | None => Some limit
  | Some b => if bool_decide (expiry_of b <= expiry_of limit) then Some limit else Some b
  end.

Definition longest (self : RateLimits) : option RateLimit := foldl max_step None self.

End RateLimits.
Notation RateLimits := (list RateLimit) (only parsing).

(** ** Specification: the map of expiry times *)

(** The pair under which a limit is stored. *)
Definition limit_key (l : RateLimit) : DataCategories * RateLimitScope :=
  (RateLimit.categories l, RateLimit.scope l).

Definition find_limit (ls : RateLimits) (k : DataCategories * RateLimitScope) : option RateLimit :=
  List.find (fun l => bool_decide (limit_key l = k)) ls.

(** The abstract state: when the limit stored under a key expires. *)
Definition expiry (ls : RateLimits) (k : DataCategories * RateLimitScope) : option Instant :=
  expiry_of <$> find_limit ls k.

(** The later of two expiry times. *)
Definition later (a b : option Instant) : option Instant := union_with (fun x y => Some (Z.max x y)) a b.

(** Collections with the same expiry map. *)
Definition limits_equiv (a b : RateLimits) : Prop := forall k, expiry a k = expiry b k.

(** The invariant of a collection: one limit per key, sorted categories. *)
Definition limits_wf (ls : RateLimits) : Prop :=
  NoDup (limit_key <$> ls) /\
  Forall (fun l => StronglySorted DataCategory.le (RateLimit.categories l)) ls.

(** ** Lemmas: retry-after markers *)

Lemma expired_iff now r : RetryAfter.expired now r = true <-> RetryAfter.when r <= now.
Proof. unfold RetryAfter.expired, RetryAfter.remaining. case_bool_decide; naive_solver lia. Qed.

Lemma not_expired_iff now r : RetryAfter.expired now r = false <-> now < RetryAfter.when r.
Proof. rewrite <- not_true_iff_false, expired_iff. lia. Qed.

Lemma from_secs_when now s :
  (now + duration_from_secs s) / nanos_per_sec <= i64_max ->
  RetryAfter.when (RetryAfter.from_secs now s) = now + duration_from_secs s.
Proof.
  intros H. unfold RetryAfter.from_secs, instant_checked_add. by rewrite bool_decide_true.
Qed.

Lemma remaining_seconds_bounds now r :
  now < RetryAfter.when r ->
  RetryAfter.when r <= now + duration_from_secs (RetryAfter.remaining_seconds now r)
    < RetryAfter.when r + nanos_per_sec.
Proof.
  intros H. unfold RetryAfter.remaining_seconds, RetryAfter.remaining.
  rewrite bool_decide_false by lia.
  unfold duration_from_secs, duration_subsec_nanos, duration_as_secs, nanos_per_sec.
  change (10 ^ 9) with 1000000000.
  pose proof (Z.div_mod (RetryAfter.when r - now) 1000000000 ltac:(lia)).
  pose proof (Z.mod_pos_bound (RetryAfter.when r - now) 1000000000 ltac:(lia)).
  case_bool_decide; lia.
Qed.

Lemma remaining_seconds_expired now r :
  RetryAfter.when r <= now -> RetryAfter.remaining_seconds now r = 0.
Proof.
  intros H. unfold RetryAfter.remaining_seconds, RetryAfter.remaining.
  by rewrite bool_decide_true.
Qed.

Lemma remaining_seconds_nonneg now r : 0 <= RetryAfter.remaining_seconds now r.
Proof.
  destruct (Z.lt_ge_cases now (RetryAfter.when r)) as [H|H].
  - pose proof (remaining_seconds_bounds now r H).
    unfold duration_from_secs, nanos_per_sec in *. lia.
  - by rewrite remaining_seconds_expired.
Qed.

Lemma remaining_seconds_from_secs now s :
  0 <= s -> (now + duration_from_secs s) / nanos_per_sec <= i64_max ->
  RetryAfter.remaining_seconds now (RetryAfter.from_secs now s) = s.
Proof.
  intros Hs H. pose proof (from_secs_when _ _ H) as Hw.
  destruct (decide (s = 0)) as [->|Hne].
  - apply remaining_seconds_expired. rewrite Hw. unfold duration_from_secs. lia.
  - pose proof (remaining_seconds_bounds now (RetryAfter.from_secs now s)) as Hb.
    rewrite Hw in Hb. unfold duration_from_secs, nanos_per_sec in *. lia.
Qed.

Lemma retry_after_from_str_u64 now n :
  0 <= n < 2 ^ 53 ->
  RetryAfter.from_str now (u64_to_string n) = Ok (RetryAfter.from_secs now n).
Proof.
  intros Hn. unfold RetryAfter.from_str.
  destruct (parse_f64_u64_ceil n Hn) as (x & -> & Hx). simpl. by rewrite Hx.
Qed.

(** ** Lemmas: sorting categories *)

Lemma sort_categories_perm l :
  RateLimit.categories (sort_categories l) ≡ₚ RateLimit.categories l.
Proof. apply merge_sort_Permutation. Qed.

Lemma sort_categories_sorted l :
  StronglySorted DataCategory.le (RateLimit.categories (sort_categories l)).
Proof. apply (StronglySorted_merge_sort _). Qed.

Lemma sort_categories_id l :
  StronglySorted DataCategory.le (RateLimit.categories l) -> sort_categories l = l.
Proof.
  intros Hs. destruct l as [cs s r a]. unfold sort_categories. simpl. f_equal.
  eapply (StronglySorted_unique DataCategory.le); [apply (StronglySorted_merge_sort _)|done|].
  apply merge_sort_Permutation.
Qed.

Lemma matches_sort_categories l i :
  RateLimit.matches (sort_categories l) i = RateLimit.matches l i.
Proof.
  unfold RateLimit.matches, RateLimit.matches_scope. simpl.
  by rewrite (matches_categories_perm i _ _ (merge_sort_Permutation _ _)).
Qed.

Lemma same_key_spec l x : RateLimits.same_key l x = bool_decide (limit_key l = limit_key x).
Proof.
  unfold RateLimits.same_key, limit_key. apply eq_true_iff_eq.
  rewrite andb_true_iff, !bool_decide_eq_true. split; [intros [? ?]; congruence|].
  intros H. by inversion H.
Qed.

(** ** Lemmas: adding a limit *)

Lemma find_add_or_replace ls x k :
  find_limit (RateLimits.add_or_replace ls x) k =
  if bool_decide (limit_key x = k)
  then Some (match find_limit ls k with
             | Some e => if bool_decide (expiry_of e < expiry_of x) then x else e
             | None => x
             end)
  else find_limit ls k.
Proof.
  induction ls as [|e ls IH]; [simpl; by case_bool_decide|].
  cbn [RateLimits.add_or_replace]. rewrite same_key_spec.
  bcase (limit_key e = limit_key x) as Hk.
  - destruct (bool_decide (expiry_of e < expiry_of x)) eqn:He; simpl; rewrite Hk;
      destruct (bool_decide (limit_key x = k)); simpl; by rewrite ?He.
  - simpl. rewrite IH. bcase (limit_key x = k) as Hx; [|done].
    by rewrite bool_decide_false by congruence.
Qed.

Lemma expiry_add ls x k :
  expiry (RateLimits.add ls x) k =
  later (expiry ls k)
        (if bool_decide (limit_key (sort_categories x) = k) then Some (expiry_of x) else None).
Proof.
  unfold RateLimits.add, expiry, later. rewrite find_add_or_replace.
  case_bool_decide; [|by destruct (find_limit ls k)].
  destruct (find_limit ls k) as [e|]; [|done]. simpl.
  change (expiry_of (sort_categories x)) with (expiry_of x).
  case_bool_decide; simpl; f_equal; [change (expiry_of (sort_categories x)) with (expiry_of x)|]; lia.
Qed.

Lemma elem_of_add_or_replace ls x l :
  l ∈ RateLimits.add_or_replace ls x -> l = x \/ l ∈ ls.
Proof.
  induction ls as [|e ls IH]; simpl; [rewrite list_elem_of_singleton; naive_solver|].
  repeat case_match; rewrite ?elem_of_cons; naive_solver.
Qed.

Lemma keys_add_or_replace ls x :
  limit_key <$> RateLimits.add_or_replace ls x =
  (limit_key <$> ls) ++ (if bool_decide (limit_key x ∈ limit_key <$> ls) then [] else [limit_key x]).
Proof.
  induction ls as [|e ls IH]; [done|].
  cbn [RateLimits.add_or_replace]. rewrite same_key_spec.
  bcase (limit_key e = limit_key x) as Hk.
  - rewrite (bool_decide_true (limit_key x ∈ _)) by (rewrite <- Hk; left).
    rewrite app_nil_r. destruct (bool_decide (expiry_of e < expiry_of x)); by rewrite !fmap_cons, ?Hk.
  - rewrite !fmap_cons, IH. simpl. do 2 f_equal.
    erewrite (bool_decide_ext (limit_key x ∈ limit_key e :: _)); [done|].
    rewrite elem_of_cons. naive_solver.
Qed.

Lemma limits_wf_new : limits_wf RateLimits.new.
Proof. split; constructor. Qed.

Lemma limits_wf_add ls x : limits_wf ls -> limits_wf (RateLimits.add ls x).
Proof.
  intros [Hnd Hs]. unfold RateLimits.add. split.
  - rewrite keys_add_or_replace. apply NoDup_app. split; [done|].
    case_bool_decide as Hin; (split; [|try apply NoDup_singleton; constructor]).
    + intros k _. apply not_elem_of_nil.
    + intros k Hk ->%list_elem_of_singleton. done.
  - rewrite Forall_forall in *. intros l [->|Hl]%elem_of_add_or_replace; [|by apply Hs].
    apply sort_categories_sorted.
Qed.

Lemma limits_wf_merge a b : limits_wf a -> limits_wf (RateLimits.merge a b).
Proof.
  unfold RateLimits.merge. revert a. induction b as [|x b IH]; intros a Ha; simpl; [done|].
  by apply IH, limits_wf_add.
Qed.

#[export] Hint Resolve limits_wf_new limits_wf_add limits_wf_merge : relay.

(** ** Lemmas: merging *)

Lemma later_assoc a b c : later a (later b c) = later (later a b) c.
Proof. unfold later. destruct a, b, c; simpl; try done. f_equal. lia. Qed.
Lemma later_comm a b : later a b = later b a.
Proof. unfold later. destruct a, b; simpl; try done. f_equal. lia. Qed.
Lemma later_idemp a : later a a = a.
Proof. unfold later. destruct a; simpl; try done. f_equal. lia. Qed.

Lemma find_limit_None ls k : k ∉ limit_key <$> ls -> find_limit ls k = None.
Proof.
  intros Hk. induction ls as [|l ls IH]; [done|]. simpl.
  rewrite fmap_cons, not_elem_of_cons in Hk. destruct Hk as [Hne Hk].
  rewrite bool_decide_false by done. by apply IH.
Qed.

Lemma expiry_merge a b k :
  limits_wf b -> expiry (RateLimits.merge a b) k = later (expiry a k) (expiry b k).
Proof.
  unfold RateLimits.merge. intros [Hnd Hs]. revert a.
  induction b as [|x b IH]; intros a.
  { cbn [foldl]. change (expiry [] k) with (@None Z). unfold later. by destruct (expiry a k). }
  rewrite fmap_cons, NoDup_cons in Hnd. destruct Hnd as [Hnot Hnd].
  apply Forall_cons in Hs as [Hx Hs]. cbn [foldl].
  rewrite IH, expiry_add, sort_categories_id, <- later_assoc by done. f_equal.
  unfold expiry. simpl. case_bool_decide as Hk; [subst k|by destruct (find_limit b k)].
  by rewrite find_limit_None.
Qed.

#[global] Instance limits_equiv_equivalence : Equivalence limits_equiv.
Proof. split; repeat intro; [done|congruence|congruence]. Qed.

#[global] Instance add_proper : Proper (limits_equiv ==> eq ==> limits_equiv) RateLimits.add.
Proof. intros a b Hab x y -> k. by rewrite !expiry_add, Hab. Qed.

#[global] Instance merge_proper : Proper (limits_equiv ==> eq ==> limits_equiv) RateLimits.merge.
Proof.
  unfold RateLimits.merge. intros a b Hab x y ->. revert a b Hab.
  induction y as [|l y IH]; intros a b Hab; simpl; [done|]. apply IH. by rewrite Hab.
Qed.

(** ** Lemmas: activity and checks *)

Lemma is_limited_spec now ls :
  RateLimits.is_limited now ls = true <-> exists l, l ∈ ls /\ now < expiry_of l.
Proof.
  unfold RateLimits.is_limited. rewrite existsb_exists.
  setoid_rewrite negb_true_iff. setoid_rewrite not_expired_iff.
  by setoid_rewrite <- list_elem_of_In.
Qed.

Lemma is_limited_cons now l ls :
  RateLimits.is_limited now (l :: ls) = true <->
  now < expiry_of l \/ RateLimits.is_limited now ls = true.
Proof. rewrite !is_limited_spec. setoid_rewrite elem_of_cons. naive_solver. Qed.

Lemma is_limited_add now ls x :
  RateLimits.is_limited now (RateLimits.add ls x) = true <->
  RateLimits.is_limited now ls = true \/ now < expiry_of x.
Proof.
  unfold RateLimits.add.
  change (expiry_of x) with (expiry_of (sort_categories x)). generalize (sort_categories x) as y.
  intros y. induction ls as [|e ls IH]; cbn [RateLimits.add_or_replace].
  - rewrite is_limited_cons. naive_solver.
  - destruct (RateLimits.same_key e y); [case_bool_decide|];
      rewrite !is_limited_cons; try rewrite IH; naive_solver lia.
Qed.

Lemma is_limited_check_limits now ls i applied :
  RateLimits.is_limited now (RateLimits.check_limits ls i applied) = true <->
  RateLimits.is_limited now applied = true \/
  exists l, l ∈ ls /\ RateLimit.matches l i = true /\ now < expiry_of l.
Proof.
  unfold RateLimits.check_limits. revert applied.
  induction ls as [|x ls IH]; intros applied; cbn [foldl]; [rewrite ex_elem_nil; tauto|].
  rewrite IH, ex_elem_cons.
  destruct (RateLimit.matches x i); [rewrite is_limited_add; tauto|].
  intuition congruence.
Qed.

Lemma is_limited_check_quotas now qs i applied :
  now / nanos_per_sec + REJECT_ALL_SECS <= i64_max ->
  RateLimits.is_limited now (RateLimits.check_quotas now qs i applied) = true <->
  RateLimits.is_limited now applied = true \/
  exists q, q ∈ qs /\ Quota.limit q = Some 0 /\ Quota.matches q i = true.
Proof.
  intros Hnow. unfold RateLimits.check_quotas. revert applied.
  assert (now < RetryAfter.when (RetryAfter.from_secs now REJECT_ALL_SECS)) as Hlt.
  { rewrite from_secs_when.
    - unfold duration_from_secs, REJECT_ALL_SECS, nanos_per_sec. lia.
    - unfold duration_from_secs. rewrite Z.div_add by done. done. }
  induction qs as [|q qs IH]; intros applied; cbn [foldl]; [rewrite ex_elem_nil; tauto|].
  rewrite IH, ex_elem_cons.
  bcase (Quota.limit q = Some 0) as Hl; destruct (Quota.matches q i); simpl;
    [rewrite is_limited_add; tauto|..]; intuition congruence.
Qed.

(** A rate limit created from a quota applies to the item that caused it. *)
Lemma from_quota_matches q i ra :
  Quota.matches q i = true -> RateLimit.matches (RateLimit.from_quota q (scoping i) ra) i = true.
Proof.
  unfold Quota.matches, RateLimit.matches. intros [_ Hc]%andb_true_iff.
  apply andb_true_iff. split; [|done].
  unfold RateLimit.matches_scope. simpl. by destruct (Quota.scope q); simpl; rewrite bool_decide_true.
Qed.

Lemma Forall_add (P : RateLimit -> Prop) ls x :
  Forall P ls -> P (sort_categories x) -> Forall P (RateLimits.add ls x).
Proof.
  rewrite !Forall_forall. intros Hls Hx l [->|Hl]%elem_of_add_or_replace; auto.
Qed.

Lemma check_with_quotas_matches now ls qs i :
  Forall (fun l => RateLimit.matches l i = true) (RateLimits.check_with_quotas now ls qs i).
Proof.
  unfold RateLimits.check_with_quotas, RateLimits.check_limits, RateLimits.check_quotas.
  assert (forall applied, Forall (fun l => RateLimit.matches l i = true) applied ->
            Forall (fun l => RateLimit.matches l i = true)
              (foldl (fun a l => if RateLimit.matches l i then RateLimits.add a l else a) applied ls))
    as Hl.
  { induction ls as [|x ls IH]; intros a Ha; simpl; [done|]. apply IH.
    case_match; [|done]. apply Forall_add; [done|]. by rewrite matches_sort_categories. }
  apply Hl. clear Hl.
  generalize (Forall_nil_2 (fun l => RateLimit.matches l i = true)).
  change [] with RateLimits.new. generalize RateLimits.new.
  induction qs as [|q qs IH]; intros a Ha; simpl; [done|]. apply IH.
  destruct (bool_decide _ && _) eqn:E; [|done].
  apply andb_true_iff in E as [_ Hm].
  apply Forall_add; [done|]. rewrite matches_sort_categories. by apply from_quota_matches.
Qed.

Lemma foldl_longest_spec ls best :
  foldl RateLimits.max_step (Some best) ls = Some best /\ (forall l, l ∈ ls -> expiry_of l < expiry_of best) \/
  exists m, foldl RateLimits.max_step (Some best) ls = Some m /\ m ∈ ls /\ expiry_of best <= expiry_of m /\
    forall l, l ∈ ls -> expiry_of l <= expiry_of m.
Proof.
  revert best. induction ls as [|x ls IH]; intros best; cbn [foldl RateLimits.max_step].
  - left. split; [done|]. intros l Hl. by apply not_elem_of_nil in Hl.
  - setoid_rewrite elem_of_cons. case_bool_decide as Hx.
    + destruct (IH x) as [[-> Hall]|(m & -> & Hm & Hle & Hall)]; right; eexists;
        (split; [done|]); naive_solver lia.
    + destruct (IH best) as [[-> Hall]|(m & -> & Hm & Hle & Hall)];
        [left|right; eexists]; (split; [done|]); naive_solver lia.
Qed.

Lemma longest_spec ls l :
  RateLimits.longest ls = Some l -> l ∈ ls /\ forall l', l' ∈ ls -> expiry_of l' <= expiry_of l.
Proof.
  destruct ls as [|x ls]; [done|]. unfold RateLimits.longest. cbn [foldl RateLimits.max_step].
  destruct (foldl_longest_spec ls x) as [[-> Hall]|(m & -> & Hm & Hle & Hall)];
    intros [= <-]; setoid_rewrite elem_of_cons; naive_solver lia.
Qed.

Lemma longest_None ls : RateLimits.longest ls = None <-> ls = [].
Proof.
  destruct ls as [|x ls]; [done|]. unfold RateLimits.longest. cbn [foldl RateLimits.max_step].
  destruct (foldl_longest_spec ls x) as [[-> _]|(m & -> & _)]; split; discriminate.
Qed.

Lemma limits_wf_clean now ls : limits_wf ls -> limits_wf (RateLimits.clean_expired now ls).
Proof.
  intros [Hnd Hs]. unfold RateLimits.clean_expired. split.
  - induction ls as [|l ls IH]; [done|]. simpl.
    rewrite fmap_cons, NoDup_cons in Hnd. destruct Hnd as [Hnot Hnd].
    apply Forall_cons in Hs as [_ Hs].
    case_match; [|by apply IH]. rewrite fmap_cons. apply NoDup_cons. split; [|by apply IH].
    contradict Hnot. apply list_elem_of_fmap in Hnot as (y & -> & Hy).
    apply list_elem_of_fmap. exists y. split; [done|].
    rewrite list_elem_of_In in *. by apply filter_In in Hy as [? _].
  - rewrite Forall_forall in *. intros l. rewrite list_elem_of_In.
    intros [? _]%filter_In. apply Hs. by apply list_elem_of_In.
Qed.

Lemma limits_wf_check now ls qs i : limits_wf (RateLimits.check_with_quotas now ls qs i).
Proof.
  unfold RateLimits.check_with_quotas, RateLimits.check_limits, RateLimits.check_quotas.
  assert (forall applied, limits_wf applied ->
    limits_wf (foldl (fun a l => if RateLimit.matches l i then RateLimits.add a l else a) applied ls))
    as Hl.
  { induction ls as [|x ls IH]; intros a Ha; simpl; [done|]. apply IH.
    case_match; auto with relay. }
  apply Hl. clear Hl. generalize limits_wf_new. generalize RateLimits.new.
  induction qs as [|q qs IH]; intros a Ha; simpl; [done|]. apply IH.
  case_match; auto with relay.
Qed.

#[export] Hint Resolve limits_wf_clean limits_wf_check : relay.

Lemma is_limited_clean_check now ls i :
  RateLimits.is_limited now (RateLimits.check now (RateLimits.clean_expired now ls) i)
  = RateLimits.is_limited now (RateLimits.check now ls i).
Proof.
  unfold RateLimits.check, RateLimits.check_with_quotas. apply eq_true_iff_eq.
  rewrite !is_limited_check_limits. f_equiv.
  unfold RateLimits.clean_expired. setoid_rewrite list_elem_of_In. setoid_rewrite filter_In.
  setoid_rewrite negb_true_iff. setoid_rewrite not_expired_iff. unfold expiry_of. naive_solver.
Qed.

(** ** Properties *)

(** Every operation that builds a [RateLimits] collection keeps its
    invariant: at most one limit per pair of scope and category set, with the
    categories sorted. *)
Theorem rate_limits_invariant now ls other qs i x :
  limits_wf ls ->
  limits_wf RateLimits.new /\
  limits_wf (RateLimits.add ls x) /\
  limits_wf (RateLimits.merge ls other) /\
  limits_wf (RateLimits.clean_expired now ls) /\
  limits_wf (RateLimits.check_with_quotas now ls qs i).
Proof. auto 10 with relay. Qed.

(** C11: [RateLimits] refines a map from (categories, scope) to expiry times:
    adding a limit and merging a collection take the later expiry per key. So
    merging is commutative, associative and idempotent up to that map, whatever
    the order in which limits arrive. *)
Theorem rate_limits_merge_refines_max a b c x k :
  limits_wf a -> limits_wf b -> limits_wf c ->
  expiry (RateLimits.add a x) k =
    later (expiry a k)
      (if bool_decide (limit_key (sort_categories x) = k) then Some (expiry_of x) else None) /\
  expiry (RateLimits.merge a b) k = later (expiry a k) (expiry b k) /\
  limits_equiv (RateLimits.merge a b) (RateLimits.merge b a) /\
  limits_equiv (RateLimits.merge a (RateLimits.merge b c))
               (RateLimits.merge (RateLimits.merge a b) c) /\
  limits_equiv (RateLimits.merge a a) a.
Proof.
  intros Ha Hb Hc. split; [apply expiry_add|]. split; [by apply expiry_merge|].
  repeat split; intros k'; rewrite !expiry_merge by auto with relay.
  - apply later_comm.
  - apply later_assoc.
  - apply later_idemp.
Qed.

(** [check_with_quotas] is sound and complete: every limit it returns
    matches the item, and its result is active exactly when an unexpired limit
    of the collection matches the item or a quota with limit 0 does. Dropping
    expired limits first does not change the verdict of [check]. *)
Theorem check_with_quotas_correct now ls qs i :
  now / nanos_per_sec + REJECT_ALL_SECS <= i64_max ->
  Forall (fun l => RateLimit.matches l i = true) (RateLimits.check_with_quotas now ls qs i) /\
  (RateLimits.is_limited now (RateLimits.check_with_quotas now ls qs i) = true <->
     (exists q, q ∈ qs /\ Quota.limit q = Some 0 /\ applies q i) \/
     (exists l, l ∈ ls /\ RateLimit.matches l i = true /\ now < expiry_of l)) /\
  RateLimits.is_limited now (RateLimits.check now (RateLimits.clean_expired now ls) i)
    = RateLimits.is_limited now (RateLimits.check now ls i).
Proof.
  intros Hnow. split; [apply check_with_quotas_matches|].
  split; [|apply is_limited_clean_check].
  unfold RateLimits.check_with_quotas.
  rewrite is_limited_check_limits, is_limited_check_quotas by done.
  setoid_rewrite quota_matches_applies.
  change (RateLimits.is_limited now RateLimits.new) with false. naive_solver.
Qed.

(** [longest] returns a limit of the collection that no other limit
    outlives, and nothing only for the empty collection. *)
Theorem longest_is_maximal ls :
  match RateLimits.longest ls with
  | Some l => l ∈ ls /\ forall l', l' ∈ ls -> expiry_of l' <= expiry_of l
  | None => ls = []
  end.
Proof.
  destruct (RateLimits.longest ls) eqn:E; [by apply longest_spec|by apply longest_None].
Qed.

(** [remaining_seconds] rounds the remaining time up to full seconds: it
    is 0 exactly for expired markers, waiting that long reaches the expiry, and
    waiting one second less does not. A marker made with [from_secs] reports the
    seconds it was made with, or is already expired when the instant cannot be
    represented; a decimal delay below 2^53 parses to that marker. *)
Theorem retry_after_seconds now r s :
  0 <= s ->
  (RetryAfter.remaining_seconds now r = 0 <-> RetryAfter.expired now r = true) /\
  (RetryAfter.expired now r = false ->
     RetryAfter.when r <= now + duration_from_secs (RetryAfter.remaining_seconds now r) /\
     now + duration_from_secs (RetryAfter.remaining_seconds now r - 1) < RetryAfter.when r) /\
  RetryAfter.remaining_seconds now (RetryAfter.from_secs now s) =
    (if bool_decide ((now + duration_from_secs s) / nanos_per_sec <= i64_max) then s else 0) /\
  (s < 2 ^ 53 -> RetryAfter.from_str now (u64_to_string s) = Ok (RetryAfter.from_secs now s)).
Proof.
  intros Hs. split; [|split; [|split; [|intros; by apply retry_after_from_str_u64]]].
  - rewrite expired_iff. split; [|apply remaining_seconds_expired].
    intros H0. apply Z.le_ngt. intros Hlt. pose proof (remaining_seconds_bounds _ _ Hlt) as Hb.
    rewrite H0 in Hb. unfold duration_from_secs, nanos_per_sec in Hb. lia.
  - intros Hlt%not_expired_iff. pose proof (remaining_seconds_bounds _ _ Hlt).
    unfold duration_from_secs, nanos_per_sec in *. lia.
  - bcase ((now + duration_from_secs s) / nanos_per_sec <= i64_max) as H;
      [by apply remaining_seconds_from_secs|].
    apply remaining_seconds_expired. unfold RetryAfter.from_secs, instant_checked_add.
    rewrite bool_decide_false by done. simpl. lia.
Qed.

(** ** Witnesses *)

Definition sample_key : ProjectKey := ProjectKey.MkProjectKey "a94ae32be2584e0bbd7a4cbb95971fee".
Definition sample_scoping : Scoping :=
  {| organization_id := 42; project_id := 21; project_key := sample_key; key_id := Some 17 |}.
Definition sample_item : ItemScoping := item sample_scoping DataCategory.Error.

Definition sample_limit (secs : Z) (cs : DataCategories) : RateLimit :=
  {| RateLimit.categories := cs;
     RateLimit.scope := RateLimitScope.Organization 42;
     RateLimit.reason_code := None;
     RateLimit.retry_after := RetryAfter.from_secs 0 secs |}.

Definition sample_limits : RateLimits :=
  [sample_limit 10 [DataCategory.Error; DataCategory.Attachment]; sample_limit 0 []].
Definition other_limits : RateLimits :=
  [sample_limit 30 [DataCategory.Error; DataCategory.Attachment]; sample_limit 5 [DataCategory.Session]].

(** The invariant is decidable. *)
#[global] Instance limits_wf_dec ls : Decision (limits_wf ls).
Proof.
  unfold limits_wf. apply and_dec; [apply _|]. apply Forall_dec. intros l.
  generalize (RateLimit.categories l) as cs. intros cs.
  destruct (decide (Sorted DataCategory.le cs)) as [Hs|Hs].
  - left. by apply Sorted_StronglySorted; [apply category_le_trans|].
  - right. contradict Hs. by apply StronglySorted_Sorted.
Defined.

Lemma rate_limits_invariant_witness :
  limits_wf sample_limits /\
  limits_wf (RateLimits.add sample_limits
               (sample_limit 20 [DataCategory.Attachment; DataCategory.Error])).
Proof.
  assert (limits_wf sample_limits) as H by (by apply (bool_decide_unpack _); vm_compute).
  split; [exact H|].
  apply (rate_limits_invariant 0 sample_limits other_limits [] sample_item
           (sample_limit 20 [DataCategory.Attachment; DataCategory.Error]) H).
Defined.

Lemma rate_limits_merge_refines_max_witness :
  limits_wf sample_limits /\ limits_wf other_limits /\
  limits_equiv (RateLimits.merge sample_limits other_limits)
               (RateLimits.merge other_limits sample_limits).
Proof.
  assert (limits_wf sample_limits) as H1 by (by apply (bool_decide_unpack _); vm_compute).
  assert (limits_wf other_limits) as H2 by (by apply (bool_decide_unpack _); vm_compute).
  split; [exact H1|]. split; [exact H2|].
  apply (rate_limits_merge_refines_max sample_limits other_limits sample_limits
           (sample_limit 1 []) ([], RateLimitScope.Organization 42) H1 H2 H1).
Defined.

Lemma check_with_quotas_correct_witness :
  5 / nanos_per_sec + REJECT_ALL_SECS <= i64_max /\
  Forall (fun l => RateLimit.matches l sample_item = true)
    (RateLimits.check_with_quotas 5 sample_limits [] sample_item).
Proof.
  assert (5 / nanos_per_sec + REJECT_ALL_SECS <= i64_max) as H by (by vm_compute).
  split; [exact H|]. apply (check_with_quotas_correct 5 sample_limits [] sample_item H).
Defined.

Lemma retry_after_seconds_witness :
  0 <= 17 /\ RetryAfter.remaining_seconds 3 (RetryAfter.from_secs 3 17) = 17.
Proof.
  assert (0 <= 17) as H by lia. split; [exact H|].
  exact (proj1 (proj2 (proj2 (retry_after_seconds 3 (RetryAfter.from_secs 3 17) 17 H)))).
Defined.

(** The cases of the unit test [test_parse_retry_after]. *)
Example parse_retry_after_cases :
  (fun s => match RetryAfter.from_str 0 s with
            | Ok r => Some (RetryAfter.remaining_seconds 0 r)
            | Err _ => None
            end)
  <$> ["17.1"; "17.7"; "17"; "-2"; "-inf"; "inf"; "NaN"; "100000000000000000000";
       ""; "nope"; " 2 "; "6 0"]
  = [Some 18; Some 18; Some 17; Some 0; Some 0; Some 0; Some 0; Some 0; None; None; None; None].
Proof. vm_compute. reflexivity. Qed.
