(* ===== verification/RedisLimiter.v ===== *)
(** * relay-quotas: the Redis rate limiter (redis.rs, is_rate_limited.lua)

    Quotas are counted in Redis, in one counter per quota, scope and time
    slot.  Redis is a service: it enters as the class [RedisStore] with the
    documented laws of the commands the script calls.  The Lua script is
    modelled on its flat [KEYS] and [ARGV] arrays. *)

From Stdlib Require Import Ascii String.
From S2P Require Import Prelude Strings Floats Common Quota RateLimit.

Open Scope string_scope.
Open Scope Z_scope.
Open Scope list_scope.

(** ** Redis *)

(** The commands the script calls; [redis_time] is the server's clock in
    seconds. *)
Class RedisStore (St : Type) := {
  redis_time : St -> Z;
  redis_get : St -> string -> option Z;
  redis_incrby : St -> string -> Z -> St;
  redis_expireat : St -> string -> Z -> St;
}.

(** GET, INCRBY and EXPIREAT as documented: a missing key counts as 0, a
    counter is changed by INCRBY only, and an expiry in the server's future
    does not change what GET returns. *)
Class RedisLaws (St : Type) `{RedisStore St} := {
  time_incrby s k n : redis_time (redis_incrby s k n) = redis_time s;
  time_expireat s k t : redis_time (redis_expireat s k t) = redis_time s;
  get_incrby s k n k' :
    redis_get (redis_incrby s k n) k' =
    if bool_decide (k = k') then Some (default 0 (redis_get s k) + n) else redis_get s k';
  get_expireat s k t k' :
    redis_time s < t -> redis_get (redis_expireat s k t) k' = redis_get s k';
}.

(** ** Keys and slots *)

(** [const GRACE: u64 = 60]. *)
Definition GRACE : Z := 60.

Inductive RateLimitingError := Redis.

Definition get_refunded_quota_key (counter_key : string) : string := "r:" +:+ counter_key.

(** [OptionalDisplay]. *)
Definition optional_display (o : option Z) : string :=
  match o with Some value => u64_to_string value | None => "" end.

Module RedisQuota.

Record RedisQuota := {
  quota : Quota;
  item : ItemScoping;
  prefix : string;
  window : Z;
  timestamp : UnixTimestamp;
}.

Definition new (quota : Quota) (i : ItemScoping) (timestamp : UnixTimestamp) : option RedisQuota :=
  prefix ← Quota.id quota;
  window ← Quota.window quota;
  Some {| quota := quota; item := i; prefix := prefix; window := window; timestamp := timestamp |}.

Definition limit (self : RedisQuota) : Z := default (-1) (Quota.limit (quota self)).

Definition shift (self : RedisQuota) : outcome Z :=
  checked_rem (organization_id (scoping (item self))) (window self).

Definition slot (self : RedisQuota) : outcome Z :=
  shift ← shift self;
  checked_div (u64_sub (UnixTimestamp.as_secs (timestamp self)) shift) (window self).

Definition expiry (self : RedisQuota) : outcome UnixTimestamp :=
  slot ← slot self;
  shift ← shift self;
  let next_slot := u64_add slot 1 in
  let next_start := u64_add (u64_mul next_slot (window self)) shift in
  Ret (UnixTimestamp.from_secs next_start).

Definition subscope (self : RedisQuota) : option Z :=
  match Quota.scope (quota self) with
  | QuotaScope.Organization => None
  | scope => scope_id_of (item self) scope
  end.

Definition key (self : RedisQuota) : outcome string :=
  slot ← slot self;
  Ret ("quota:" +:+ prefix self +:+ "{" +:+ u64_to_string (organization_id (scoping (item self)))
         +:+ "}" +:+ optional_display (subscope self) +:+ ":" +:+ u64_to_string slot).

End RedisQuota.
Notation RedisQuota := RedisQuota.RedisQuota.

(** ** The Lua script *)

Section Script.
Context {St : Type} `{RedisStore St}.

(** [(redis.call('GET', k) or 0) - (redis.call('GET', r) or 0) + quantity > limit] *)
Definition lua_rejected (store : St) (k r : string) (limit quantity : Z) : bool :=
  if bool_decide (0 <= limit)
  then bool_decide (limit < default 0 (redis_get store k) - default 0 (redis_get store r) + quantity)
  else false.

(** The first loop: [rejected] for quota [i]; the arrays are 0-based here. *)
Definition lua_check_at (store : St) (KEYS : list string) (ARGV : list Z) (i : nat) : outcome bool :=
  limit ← unwrap (ARGV !! (i * 3)%nat);
  quantity ← unwrap (ARGV !! (i * 3 + 2)%nat);
  k ← unwrap (KEYS !! (i * 2)%nat);
  r ← unwrap (KEYS !! (i * 2 + 1)%nat);
  Ret (lua_rejected store k r limit quantity).

(** The second loop: INCRBY and EXPIREAT for quota [i]. *)
Definition lua_commit_at (store : St) (KEYS : list string) (ARGV : list Z) (i : nat) : outcome St :=
  quantity ← unwrap (ARGV !! (i * 3 + 2)%nat);
  expiry ← unwrap (ARGV !! (i * 3 + 1)%nat);
  k ← unwrap (KEYS !! (i * 2)%nat);
  Ret (redis_expireat (redis_incrby store k quantity) k expiry).

Fixpoint lua_check (store : St) (KEYS : list string) (ARGV : list Z) (idxs : list nat)
  : outcome (list bool) :=
  match idxs with
  | [] => Ret []
  | i :: idxs' =>
      rejected ← lua_check_at store KEYS ARGV i;
      results ← lua_check store KEYS ARGV idxs';
      Ret (rejected :: results)
  end.

Fixpoint lua_commit (store : St) (KEYS : list string) (ARGV : list Z) (idxs : list nat) : outcome St :=
  match idxs with
  | [] => Ret store
  | i :: idxs' => store' ← lua_commit_at store KEYS ARGV i; lua_commit store' KEYS ARGV idxs'
  end.

(** The whole script; a failed [assert] is a panic of the script. *)
Definition is_rate_limited_lua (store : St) (KEYS : list string) (ARGV : list Z)
  : outcome (list bool * St) :=
  let n := (length KEYS / 2)%nat in
  if bool_decide (length KEYS mod 2 = 0)%nat && bool_decide (length ARGV mod 3 = 0)%nat
     && bool_decide (n = length ARGV / 3)%nat
  then
    results ← lua_check store KEYS ARGV (seq 0 n);
    if existsb id results then Ret (results, store)
    else store' ← lua_commit store KEYS ARGV (seq 0 n); Ret (results, store')
  else Panic.

(** ** The limiter *)

(** [RedisRateLimiter::retry_after]. *)
Definition retry_after (max_limit : option Z) (now : Instant) (seconds : Z) : RetryAfter :=
  let seconds := match max_limit with Some m => Z.min seconds m | None => seconds end in
  RetryAfter.from_secs now seconds.

(** What the first loop of [is_rate_limited] accumulates. *)
Record Invocation := {
  keys : list string;
  args : list Z;
  tracked : list RedisQuota;
  limits : RateLimits;
}.

Definition track_quota (max_limit : option Z) (now : Instant) (timestamp : UnixTimestamp)
    (i : ItemScoping) (quantity : Z) (inv : Invocation) (quota : Quota) : outcome Invocation :=
  if negb (Quota.matches quota i) then Ret inv
  else if bool_decide (Quota.limit quota = Some 0) then
    Ret {| keys := keys inv; args := args inv; tracked := tracked inv;
           limits := RateLimits.add (limits inv)
             (RateLimit.from_quota quota (scoping i) (retry_after max_limit now REJECT_ALL_SECS)) |}
  else match RedisQuota.new quota i timestamp with
       | Some rq =>
           key ← RedisQuota.key rq;
           expiry ← RedisQuota.expiry rq;
           Ret {| keys := keys inv ++ [key; get_refunded_quota_key key];
                  args := args inv ++
                    [RedisQuota.limit rq; u64_add (UnixTimestamp.as_secs expiry) GRACE; quantity];
                  tracked := tracked inv ++ [rq];
                  limits := limits inv |}
       | None => Ret inv
       end.

Fixpoint track_quotas (max_limit : option Z) (now : Instant) (timestamp : UnixTimestamp)
    (i : ItemScoping) (quantity : Z) (inv : Invocation) (quotas : list Quota) : outcome Invocation :=
  match quotas with
  | [] => Ret inv
  | quota :: quotas' =>
      inv' ← track_quota max_limit now timestamp i quantity inv quota;
      track_quotas max_limit now timestamp i quantity inv' quotas'
  end.

(** The last loop: limits for the rejected quotas. *)
Fixpoint add_rejections (max_limit : option Z) (now : Instant) (timestamp : UnixTimestamp)
    (i : ItemScoping) (zipped : list (RedisQuota * bool)) (rate_limits : RateLimits)
  : outcome RateLimits :=
  match zipped with
  | [] => Ret rate_limits
  | (rq, is_rejected) :: zipped' =>
      if is_rejected : bool then
        expiry ← RedisQuota.expiry rq;
        let secs := duration_as_secs (UnixTimestamp.sub expiry timestamp) in
        add_rejections max_limit now timestamp i zipped'
          (RateLimits.add rate_limits
             (RateLimit.from_quota (RedisQuota.quota rq) (scoping i)
                (retry_after max_limit now secs)))
      else add_rejections max_limit now timestamp i zipped' rate_limits
  end.

(** [is_rate_limited]; [None] is a Redis that cannot be reached.  Both clocks
    are read once per call. *)
Definition is_rate_limited (max_limit : option Z) (now : Instant) (timestamp : UnixTimestamp)
    (store : option St) (quotas : list Quota) (i : ItemScoping) (quantity : Z)
  : outcome (result RateLimitingError RateLimits * option St) :=
  inv ← track_quotas max_limit now timestamp i quantity
          {| keys := []; args := []; tracked := []; limits := RateLimits.new |} quotas;
  if bool_decide (length (tracked inv) = 0%nat) || RateLimits.is_limited now (limits inv)
  then Ret (Ok (limits inv), store)
  else match store with
       | None => Ret (Err Redis, None)
       | Some st =>
           r ← is_rate_limited_lua st (keys inv) (args inv);
           rate_limits ← add_rejections max_limit now timestamp i
                           (zip (tracked inv) r.1) (limits inv);
           Ret (Ok rate_limits, Some r.2)
       end.

End Script.

(** ** An in-memory store *)

Record memory_store := {
  mem_time : Z;
  mem_counters : gmap string Z;
  mem_expires : gmap string Z;
}.

#[global] Instance memory_redis : RedisStore memory_store := {
  redis_time := mem_time;
  redis_get s k := mem_counters s !! k;
  redis_incrby s k n :=
    {| mem_time := mem_time s;
       mem_counters := <[k := default 0 (mem_counters s !! k) + n]> (mem_counters s);
       mem_expires := mem_expires s |};
  redis_expireat s k t :=
    if bool_decide (t <= mem_time s)
    then {| mem_time := mem_time s; mem_counters := delete k (mem_counters s);
            mem_expires := delete k (mem_expires s) |}
    else {| mem_time := mem_time s; mem_counters := mem_counters s;
            mem_expires := <[k := t]> (mem_expires s) |};
}.

#[global] Instance memory_redis_laws : RedisLaws memory_store.
Proof.
  split; intros; simpl.
  - done.
  - by case_bool_decide.
  - rewrite lookup_insert. repeat case_decide; repeat case_bool_decide; congruence.
  - simpl in *. rewrite bool_decide_false by lia. done.
Qed.

(** ** Specification of the script

    One entry per quota instead of the flat arrays. *)

Record Entry := {
  e_key : string; e_refund : string; e_limit : Z; e_expiry : Z; e_quantity : Z;
}.

Definition flat_keys (es : list Entry) : list string := flat_map (fun e => [e_key e; e_refund e]) es.
Definition flat_args (es : list Entry) : list Z :=
  flat_map (fun e => [e_limit e; e_expiry e; e_quantity e]) es.

Section ScriptSpec.
Context {St : Type} `{RedisStore St}.

Definition entry_rejected (st : St) (e : Entry) : bool :=
  lua_rejected st (e_key e) (e_refund e) (e_limit e) (e_quantity e).
Definition entry_commit (st : St) (e : Entry) : St :=
  redis_expireat (redis_incrby st (e_key e) (e_quantity e)) (e_key e) (e_expiry e).

(** All or nothing: no counter moves when an entry is rejected. *)
Definition script_spec (st : St) (es : list Entry) : list bool * St :=
  (entry_rejected st <$> es,
   if existsb (entry_rejected st) es then st else foldl entry_commit st es).

Lemma flat_keys_lookup es i :
  flat_keys es !! (i * 2)%nat = e_key <$> es !! i /\
  flat_keys es !! (i * 2 + 1)%nat = e_refund <$> es !! i.
Proof.
  revert i. induction es as [|e es IH]; intros [|i]; try done. apply (IH i).
Qed.

Lemma flat_args_lookup es i :
  flat_args es !! (i * 3)%nat = e_limit <$> es !! i /\
  flat_args es !! (i * 3 + 1)%nat = e_expiry <$> es !! i /\
  flat_args es !! (i * 3 + 2)%nat = e_quantity <$> es !! i.
Proof.
  revert i. induction es as [|e es IH]; intros [|i]; try done. apply (IH i).
Qed.

Lemma lua_check_at_flat st es i e :
  es !! i = Some e ->
  lua_check_at st (flat_keys es) (flat_args es) i = Ret (entry_rejected st e).
Proof.
  intros He. unfold lua_check_at.
  destruct (flat_args_lookup es i) as (-> & _ & ->). destruct (flat_keys_lookup es i) as [-> ->].
  by rewrite He.
Qed.

Lemma lua_commit_at_flat st es i e :
  es !! i = Some e -> lua_commit_at st (flat_keys es) (flat_args es) i = Ret (entry_commit st e).
Proof.
  intros He. unfold lua_commit_at.
  destruct (flat_args_lookup es i) as (_ & -> & ->). destruct (flat_keys_lookup es i) as [-> _].
  by rewrite He.
Qed.

Lemma lua_check_flat st es suf pre :
  es = pre ++ suf ->
  lua_check st (flat_keys es) (flat_args es) (seq (length pre) (length suf)) =
  Ret (entry_rejected st <$> suf).
Proof.
  revert pre. induction suf as [|e suf IH]; intros pre ->; [done|].
  cbn [length seq lua_check].
  rewrite (lua_check_at_flat st _ (length pre) e) by (by rewrite list_lookup_middle).
  cbn. specialize (IH (pre ++ [e])). rewrite length_app in IH. simpl in IH.
  rewrite Nat.add_1_r in IH. rewrite IH; [done|]. by rewrite <- app_assoc.
Qed.

Lemma lua_commit_flat st es suf pre :
  es = pre ++ suf ->
  lua_commit st (flat_keys es) (flat_args es) (seq (length pre) (length suf)) =
  Ret (foldl entry_commit st suf).
Proof.
  revert pre st. induction suf as [|e suf IH]; intros pre st ->; [done|].
  cbn [length seq lua_commit].
  rewrite (lua_commit_at_flat st _ (length pre) e) by (by rewrite list_lookup_middle).
  cbn. specialize (IH (pre ++ [e])). rewrite length_app in IH. simpl in IH.
  rewrite Nat.add_1_r in IH. rewrite IH; [done|]. by rewrite <- app_assoc.
Qed.

Lemma length_flat es :
  length (flat_keys es) = (length es * 2)%nat /\ length (flat_args es) = (length es * 3)%nat.
Proof. induction es as [|e es [IH1 IH2]]; simpl; [done|]. by rewrite IH1, IH2. Qed.

(** The script's index arithmetic on the flat arrays implements the
    specification. *)
Lemma lua_refines_spec st es :
  is_rate_limited_lua st (flat_keys es) (flat_args es) = Ret (script_spec st es).
Proof.
  unfold is_rate_limited_lua. destruct (length_flat es) as [-> ->].
  rewrite !Nat.Div0.mod_mul, !Nat.div_mul by done.
  rewrite !bool_decide_true by done. simpl.
  pose proof (lua_check_flat st es es [] eq_refl) as Hc. simpl in Hc. rewrite Hc. simpl.
  unfold script_spec.
  assert (existsb id (entry_rejected st <$> es) = existsb (entry_rejected st) es) as ->
    by (clear; induction es as [|e es IH]; [done|]; rewrite fmap_cons; simpl; by rewrite IH).
  destruct (existsb (entry_rejected st) es); [done|].
  pose proof (lua_commit_flat st es es [] eq_refl) as Hm. simpl in Hm. by rewrite Hm.
Qed.

End ScriptSpec.

(** ** Lemmas: slots and keys *)

Definition scoping_wf (s : Scoping) : Prop :=
  in_u64 (organization_id s) /\ in_u64 (project_id s) /\
  (forall n, key_id s = Some n -> in_u64 n).

Lemma scope_id_of_wf i scope n :
  scoping_wf (scoping i) -> scope_id_of i scope = Some n -> in_u64 n.
Proof. intros (Ho & Hp & Hk). destruct scope; simpl; naive_solver. Qed.

Lemma slot_in_u64 rq n : RedisQuota.slot rq = Ret n -> 0 < RedisQuota.window rq -> in_u64 n.
Proof.
  unfold RedisQuota.slot, RedisQuota.shift, checked_rem, checked_div. intros Hs Hw.
  rewrite !bool_decide_false in Hs by lia. simpl in Hs. injection Hs as <-.
  pose proof (wrap_in_width 64 (RedisQuota.timestamp rq -
    organization_id (scoping (RedisQuota.item rq)) mod RedisQuota.window rq) ltac:(lia)) as Hr.
  unfold u64_sub, UnixTimestamp.as_secs. split.
  - apply Z.div_pos; [apply Hr|lia].
  - eapply Z.le_lt_trans; [|apply Hr]. apply Z.div_le_upper_bound; [lia|].
    unfold in_width in Hr. nia.
Qed.

(** The slot arithmetic when nothing wraps around. *)
Lemma slot_expiry_exact rq :
  let w := RedisQuota.window rq in
  let org := organization_id (scoping (RedisQuota.item rq)) in
  let ts := RedisQuota.timestamp rq in
  0 < w -> 0 <= org -> org mod w <= ts -> ts + w < 2 ^ 64 ->
  RedisQuota.slot rq = Ret ((ts - org mod w) / w) /\
  RedisQuota.expiry rq = Ret (((ts - org mod w) / w + 1) * w + org mod w) /\
  ts < ((ts - org mod w) / w + 1) * w + org mod w <= ts + w.
Proof.
  intros w org ts Hw Horg Hts Hmax.
  pose proof (Z.mod_pos_bound org w Hw) as Hs.
  set (sh := org mod w) in *. set (q := (ts - sh) / w).
  pose proof (Z.div_mod (ts - sh) w ltac:(lia)) as Hdm.
  pose proof (Z.mod_pos_bound (ts - sh) w Hw) as Hm. fold q in Hdm.
  assert (0 <= q) as Hq by (apply Z.div_pos; lia).
  assert (RedisQuota.shift rq = Ret sh) as Hshift
    by (unfold RedisQuota.shift, checked_rem; by rewrite bool_decide_false by (fold w; lia)).
  assert (RedisQuota.slot rq = Ret q) as Hslot.
  { unfold RedisQuota.slot. rewrite Hshift. simpl. unfold UnixTimestamp.as_secs.
    fold ts w. rewrite u64_sub_small by (unfold in_width; lia).
    unfold checked_div. by rewrite bool_decide_false by lia. }
  split; [done|]. unfold RedisQuota.expiry. rewrite Hslot, Hshift. simpl. fold w.
  unfold UnixTimestamp.from_secs.
  assert ((q + 1) * w + sh <= ts + w) by nia.
  assert (q + 1 <= (q + 1) * w) by nia.
  rewrite (u64_add_small q 1) by (unfold in_width; lia).
  rewrite (u64_mul_small (q + 1) w) by (unfold in_width; nia).
  rewrite u64_add_small by (unfold in_width; nia). split; [done|]. nia.
Qed.

Lemma optional_display_inj a b :
  (forall n, a = Some n -> in_u64 n) -> (forall n, b = Some n -> in_u64 n) ->
  optional_display a = optional_display b -> a = b.
Proof.
  destruct a as [x|], b as [y|]; simpl; intros Ha Hb Heq; [|..|done].
  - f_equal. apply u64_to_string_inj; auto.
  - by apply u64_to_string_nonempty in Heq.
  - symmetry in Heq. by apply u64_to_string_nonempty in Heq.
Qed.

Lemma optional_display_no_char c o :
  is_ascii_digit c = false -> (forall n, o = Some n -> in_u64 n) ->
  contains_char c (optional_display o) = false.
Proof.
  intros Hc Ho. destruct o as [n|]; [|done]. apply u64_to_string_no_char; [done|]. by apply Ho.
Qed.

Lemma subscope_wf rq n :
  scoping_wf (scoping (RedisQuota.item rq)) -> RedisQuota.subscope rq = Some n -> in_u64 n.
Proof.
  intros Hwf. unfold RedisQuota.subscope.
  destruct (Quota.scope _); try done; by apply scope_id_of_wf.
Qed.

(** The counter key determines the quota id, the organization, the scope
    instance and the slot. *)
Lemma redis_key_inj rq1 rq2 k s1 s2 :
  0 < RedisQuota.window rq1 -> 0 < RedisQuota.window rq2 ->
  scoping_wf (scoping (RedisQuota.item rq1)) -> scoping_wf (scoping (RedisQuota.item rq2)) ->
  RedisQuota.key rq1 = Ret k -> RedisQuota.key rq2 = Ret k ->
  RedisQuota.slot rq1 = Ret s1 -> RedisQuota.slot rq2 = Ret s2 ->
  RedisQuota.prefix rq1 = RedisQuota.prefix rq2 /\
  organization_id (scoping (RedisQuota.item rq1)) = organization_id (scoping (RedisQuota.item rq2)) /\
  RedisQuota.subscope rq1 = RedisQuota.subscope rq2 /\ s1 = s2.
Proof.
  intros Hw1 Hw2 Hwf1 Hwf2 Hk1 Hk2 Hs1 Hs2.
  pose proof (slot_in_u64 _ _ Hs1 Hw1) as Hb1. pose proof (slot_in_u64 _ _ Hs2 Hw2) as Hb2.
  unfold RedisQuota.key in Hk1, Hk2. rewrite Hs1 in Hk1. rewrite Hs2 in Hk2.
  simpl in Hk1, Hk2. injection Hk1 as <-. injection Hk2 as Heq.
  pose proof (fun n => subscope_wf rq1 n Hwf1) as Hsub1.
  pose proof (fun n => subscope_wf rq2 n Hwf2) as Hsub2.
  destruct Hwf1 as (Ho1 & _ & _), Hwf2 as (Ho2 & _ & _).
  apply app_last_sep in Heq as [Hp Heq];
    [|autorewrite with relay_simpl; rewrite ?u64_to_string_no_char, ?optional_display_no_char
       by (done || apply Ho1 || apply Ho2 || apply Hb1 || apply Hb2 || auto); done..].
  apply app_first_sep in Heq as [Ho Heq]; [|apply u64_to_string_no_char; [done|apply Ho2 || apply Ho1]..].
  apply app_first_sep in Heq as [Hsub Hslot]; [|by apply optional_display_no_char..].
  apply u64_to_string_inj in Ho, Hslot; [|done..].
  apply optional_display_inj in Hsub; [|done..]. done.
Qed.

(** ** Specification of the limiter *)

(** The quotas that are counted for an item, in order. *)
Definition tracked_quotas (quotas : list Quota) (i : ItemScoping) (ts : UnixTimestamp)
  : list RedisQuota :=
  omap (fun q => if Quota.matches q i && negb (bool_decide (Quota.limit q = Some 0))
                 then RedisQuota.new q i ts else None) quotas.

(** The limits that static rejections produce. *)
Definition zero_limits (max_limit : option Z) (now : Instant) (quotas : list Quota)
    (i : ItemScoping) : list RateLimit :=
  omap (fun q => if Quota.matches q i && bool_decide (Quota.limit q = Some 0)
                 then Some (RateLimit.from_quota q (scoping i)
                              (retry_after max_limit now REJECT_ALL_SECS))
                 else None) quotas.

Definition counter_key (rq : RedisQuota) : string :=
  match RedisQuota.key rq with Ret k => k | Panic => "" end.
Definition expiry_secs (rq : RedisQuota) : Z :=
  match RedisQuota.expiry rq with Ret x => x | Panic => 0 end.

Definition entry_of (quantity : Z) (rq : RedisQuota) : Entry :=
  {| e_key := counter_key rq; e_refund := get_refunded_quota_key (counter_key rq);
     e_limit := RedisQuota.limit rq; e_expiry := u64_add (expiry_secs rq) GRACE;
     e_quantity := quantity |}.

(** The limit reported for a rejected quota. *)
Definition rejection_limit (max_limit : option Z) (now : Instant) (ts : UnixTimestamp)
    (i : ItemScoping) (rq : RedisQuota) : RateLimit :=
  RateLimit.from_quota (RedisQuota.quota rq) (scoping i)
    (retry_after max_limit now (duration_as_secs (UnixTimestamp.sub (expiry_secs rq) ts))).

Section LimiterSpec.
Context {St : Type} `{RedisStore St}.

(** What is counted against a quota: the counter minus the refunds. *)
Definition used (st : St) (rq : RedisQuota) : Z :=
  default 0 (redis_get st (counter_key rq))
  - default 0 (redis_get st (get_refunded_quota_key (counter_key rq))).

Definition exceeded (st : St) (quantity : Z) (rq : RedisQuota) : bool :=
  bool_decide (0 <= RedisQuota.limit rq) &&
  bool_decide (RedisQuota.limit rq < used st rq + quantity).

Lemma entry_of_rejected st quantity rq :
  entry_rejected st (entry_of quantity rq) = exceeded st quantity rq.
Proof.
  unfold entry_rejected, lua_rejected, exceeded, used. simpl. by case_bool_decide.
Qed.

Lemma redis_quota_new_window q i ts rq :
  RedisQuota.new q i ts = Some rq ->
  RedisQuota.quota rq = q /\ RedisQuota.item rq = i /\ RedisQuota.timestamp rq = ts /\
  Quota.id q = Some (RedisQuota.prefix rq) /\ Quota.window q = Some (RedisQuota.window rq).
Proof.
  unfold RedisQuota.new. destruct (Quota.id q); [|done]. destruct (Quota.window q); [|done].
  intros [= <-]. done.
Qed.

Lemma redis_quota_no_panic rq :
  RedisQuota.window rq <> 0 ->
  RedisQuota.key rq = Ret (counter_key rq) /\ RedisQuota.expiry rq = Ret (expiry_secs rq).
Proof.
  intros Hw. unfold counter_key, expiry_secs, RedisQuota.key, RedisQuota.expiry,
    RedisQuota.slot, RedisQuota.shift, checked_rem, checked_div.
  by rewrite !bool_decide_false by done.
Qed.

Lemma tracked_quotas_elem quotas i ts rq :
  rq ∈ tracked_quotas quotas i ts ->
  exists q, q ∈ quotas /\ RedisQuota.new q i ts = Some rq /\
            Quota.matches q i = true /\ Quota.limit q <> Some 0.
Proof.
  unfold tracked_quotas. rewrite list_elem_of_omap. intros (q & Hq & Hf).
  destruct (Quota.matches q i) eqn:Hm; [|done]. simpl in Hf.
  case_bool_decide; simpl in Hf; [done|]. eauto.
Qed.

Lemma track_quotas_spec max_limit now ts i quantity quotas inv :
  Forall (fun q => Quota.window q <> Some 0) quotas ->
  track_quotas max_limit now ts i quantity inv quotas =
  Ret {| keys := keys inv ++ flat_keys (entry_of quantity <$> tracked_quotas quotas i ts);
         args := args inv ++ flat_args (entry_of quantity <$> tracked_quotas quotas i ts);
         tracked := tracked inv ++ tracked_quotas quotas i ts;
         limits := RateLimits.merge (limits inv) (zero_limits max_limit now quotas i) |}.
Proof.
  intros Hw. revert inv. induction Hw as [|q quotas Hq Hw IH]; intros inv.
  { simpl. rewrite !app_nil_r. by destruct inv. }
  cbn [track_quotas]. unfold track_quota.
  unfold tracked_quotas, zero_limits in *. cbn [omap list_omap].
  destruct (Quota.matches q i); simpl; [|apply IH].
  bcase (Quota.limit q = Some 0) as Hl; simpl; [rewrite IH; done|].
  destruct (RedisQuota.new q i ts) as [rq|] eqn:Hnew; [|apply IH].
  apply redis_quota_new_window in Hnew as (_ & _ & _ & _ & Hwin).
  destruct (redis_quota_no_panic rq) as [-> ->]; [congruence|]. simpl.
  rewrite IH. simpl. by rewrite <- !app_assoc.
Qed.

Lemma add_rejections_spec max_limit now ts i (f : RedisQuota -> bool) rqs rl :
  Forall (fun rq => RedisQuota.window rq <> 0) rqs ->
  add_rejections max_limit now ts i (zip rqs (f <$> rqs)) rl =
  Ret (RateLimits.merge rl (rejection_limit max_limit now ts i <$> List.filter f rqs)).
Proof.
  intros Hw. revert rl. induction Hw as [|rq rqs Hrq Hw IH]; intros rl; [done|].
  cbn. destruct (f rq); simpl; [|apply IH].
  destruct (redis_quota_no_panic rq Hrq) as [_ ->]. simpl. apply IH.
Qed.

Lemma tracked_windows quotas i ts :
  Forall (fun q => Quota.window q <> Some 0) quotas ->
  Forall (fun rq => RedisQuota.window rq <> 0) (tracked_quotas quotas i ts).
Proof.
  rewrite !Forall_forall. intros Hw rq (q & Hq & Hnew & _)%tracked_quotas_elem.
  apply redis_quota_new_window in Hnew as (_ & _ & _ & _ & Hwin).
  specialize (Hw q Hq). congruence.
Qed.

Lemma script_spec_entries st quantity tr :
  script_spec st (entry_of quantity <$> tr) =
  (exceeded st quantity <$> tr,
   if existsb (exceeded st quantity) tr then st
   else foldl entry_commit st (entry_of quantity <$> tr)).
Proof.
  unfold script_spec. f_equal.
  - rewrite <- list_fmap_compose. apply list_fmap_ext. intros ? rq _. apply entry_of_rejected.
  - enough (forall l, existsb (entry_rejected st) (entry_of quantity <$> l) =
                      existsb (exceeded st quantity) l) as Hl by (by rewrite (Hl tr)).
    intros l. induction l as [|rq l IH]; [done|].
    rewrite fmap_cons. cbn [existsb]. by rewrite entry_of_rejected, IH.
Qed.

(** The whole call, when Redis answers and no static rejection is active. *)
Lemma is_rate_limited_spec max_limit now ts st quotas i quantity :
  Forall (fun q => Quota.window q <> Some 0) quotas ->
  let tr := tracked_quotas quotas i ts in
  let rl0 := RateLimits.merge RateLimits.new (zero_limits max_limit now quotas i) in
  RateLimits.is_limited now rl0 = false ->
  is_rate_limited max_limit now ts (Some st) quotas i quantity =
  Ret (Ok (RateLimits.merge rl0
             (rejection_limit max_limit now ts i <$> List.filter (exceeded st quantity) tr)),
       Some (if existsb (exceeded st quantity) tr then st
             else foldl entry_commit st (entry_of quantity <$> tr))).
Proof.
  intros Hw tr rl0 Hrl. unfold is_rate_limited.
  rewrite track_quotas_spec by done. cbn [tracked limits keys args mbind outcome_bind].
  rewrite !app_nil_l. fold tr rl0. rewrite Hrl, orb_false_r.
  case_bool_decide as Hlen; [by apply nil_length_inv in Hlen as ->|].
  rewrite lua_refines_spec, script_spec_entries. cbn [mbind outcome_bind fst snd].
  by rewrite add_rejections_spec by (by apply tracked_windows).
Qed.

Lemma zero_limits_elem max_limit now quotas i l :
  l ∈ zero_limits max_limit now quotas i <->
  exists q, q ∈ quotas /\ Quota.matches q i = true /\ Quota.limit q = Some 0 /\
    l = RateLimit.from_quota q (scoping i) (retry_after max_limit now REJECT_ALL_SECS).
Proof.
  unfold zero_limits. rewrite list_elem_of_omap. f_equiv. intros q.
  destruct (Quota.matches q i) eqn:Hm; simpl; [|naive_solver].
  case_bool_decide; naive_solver.
Qed.

Lemma is_limited_merge now a b :
  RateLimits.is_limited now (RateLimits.merge a b) = true <->
  RateLimits.is_limited now a = true \/ exists l, l ∈ b /\ now < expiry_of l.
Proof.
  unfold RateLimits.merge. revert a. induction b as [|x b IH]; intros a; simpl.
  - rewrite ex_elem_nil. tauto.
  - rewrite IH, ex_elem_cons, is_limited_add. tauto.
Qed.

Lemma retry_after_expiry max_limit now s :
  0 < s -> max_limit <> Some 0 -> (forall m, max_limit = Some m -> 0 <= m) ->
  now / nanos_per_sec + s <= i64_max ->
  now < RetryAfter.when (retry_after max_limit now s).
Proof.
  intros Hs Hmax Hnn Hnow. unfold retry_after.
  assert (exists s', match max_limit with Some m => Z.min s m | None => s end = s' /\ 0 < s' <= s)
    as (s' & -> & Hs').
  { destruct max_limit as [m|]; [|eauto with lia].
    assert (m <> 0) by congruence. specialize (Hnn m eq_refl). eexists; split; [done|lia]. }
  rewrite from_secs_when.
  - unfold duration_from_secs, nanos_per_sec. lia.
  - unfold duration_from_secs. rewrite Z.div_add by done. lia.
Qed.

End LimiterSpec.

(** ** Lemmas: counters after an accepted call *)

Section Counters.
Context {St : Type} `{RedisLaws St}.

Lemma time_commit (st : St) e : redis_time (entry_commit st e) = redis_time st.
Proof. unfold entry_commit. by rewrite time_expireat, time_incrby. Qed.

Lemma get_commit (st : St) e k :
  redis_time st < e_expiry e ->
  redis_get (entry_commit st e) k =
  if bool_decide (e_key e = k) then Some (default 0 (redis_get st k) + e_quantity e)
  else redis_get st k.
Proof.
  intros Ht. unfold entry_commit. rewrite get_expireat by (by rewrite time_incrby).
  rewrite get_incrby. by case_bool_decide; subst.
Qed.

Lemma get_commits (st : St) quantity (rqs : list RedisQuota) k :
  NoDup (counter_key <$> rqs) ->
  Forall (fun rq => redis_time st < u64_add (expiry_secs rq) GRACE) rqs ->
  redis_get (foldl entry_commit st (entry_of quantity <$> rqs)) k =
  if bool_decide (k ∈ counter_key <$> rqs) then Some (default 0 (redis_get st k) + quantity)
  else redis_get st k.
Proof.
  revert st. induction rqs as [|rq rqs IH]; intros st Hnd Ht; [done|].
  rewrite fmap_cons, NoDup_cons in Hnd. destruct Hnd as [Hnot Hnd].
  apply Forall_cons in Ht as [Ht Hts]. rewrite !fmap_cons. cbn [foldl].
  rewrite IH, get_commit by (try done; by rewrite time_commit). simpl.
  bcase (counter_key rq = k) as Hk.
  - subst k. rewrite (bool_decide_false (_ ∈ _)) by done.
    by rewrite (bool_decide_true (_ ∈ _ :: _)) by left.
  - erewrite (bool_decide_ext (k ∈ counter_key rq :: _)); [done|].
    rewrite elem_of_cons. naive_solver.
Qed.

End Counters.

(** Counter keys start with ["quota:"], refund keys with ["r:"]. *)
Lemma refund_not_counter rq k :
  RedisQuota.window rq <> 0 -> counter_key rq <> get_refunded_quota_key k.
Proof.
  intros Hw. destruct (redis_quota_no_panic rq Hw) as [Hk _].
  unfold RedisQuota.key in Hk. destruct (RedisQuota.slot rq); simpl in Hk; [|done].
  injection Hk as <-. done.
Qed.

(** ** Lemmas: distinct quota ids have distinct counters *)

Lemma tracked_prefixes quotas i ts :
  RedisQuota.prefix <$> tracked_quotas quotas i ts `sublist_of` omap Quota.id quotas.
Proof.
  unfold tracked_quotas. induction quotas as [|q quotas IH]; [done|]. cbn.
  destruct (Quota.matches q i && _); [|destruct (Quota.id q); [by apply sublist_cons|done]].
  destruct (RedisQuota.new q i ts) as [rq|] eqn:Hnew.
  - apply redis_quota_new_window in Hnew as (_ & _ & _ & -> & _). simpl.
    by apply sublist_skip.
  - destruct (Quota.id q); [by apply sublist_cons|done].
Qed.

Definition positive_windows (quotas : list Quota) : Prop :=
  Forall (fun q => forall w, Quota.window q = Some w -> 0 < w) quotas.

Lemma positive_windows_nonzero quotas :
  positive_windows quotas -> Forall (fun q => Quota.window q <> Some 0) quotas.
Proof. intros H. eapply Forall_impl; [exact H|]. intros q Hq Hw. specialize (Hq 0 Hw). lia. Qed.

Lemma tracked_window_pos quotas i ts rq :
  positive_windows quotas -> rq ∈ tracked_quotas quotas i ts ->
  0 < RedisQuota.window rq /\ RedisQuota.item rq = i.
Proof.
  unfold positive_windows. rewrite Forall_forall.
  intros Hw (q & Hq & Hnew & _)%tracked_quotas_elem.
  apply redis_quota_new_window in Hnew as (_ & Hi & _ & _ & Hwin). eauto.
Qed.

Lemma counter_key_prefix rq1 rq2 :
  0 < RedisQuota.window rq1 -> 0 < RedisQuota.window rq2 ->
  scoping_wf (scoping (RedisQuota.item rq1)) -> scoping_wf (scoping (RedisQuota.item rq2)) ->
  counter_key rq1 = counter_key rq2 -> RedisQuota.prefix rq1 = RedisQuota.prefix rq2.
Proof.
  intros Hw1 Hw2 Hwf1 Hwf2 Heq.
  destruct (redis_quota_no_panic rq1) as [Hk1 _]; [lia|].
  destruct (redis_quota_no_panic rq2) as [Hk2 _]; [lia|]. rewrite Heq in Hk1.
  destruct (RedisQuota.slot rq1) as [s1|] eqn:Hs1; [|by unfold RedisQuota.key in Hk1; rewrite Hs1 in Hk1].
  destruct (RedisQuota.slot rq2) as [s2|] eqn:Hs2; [|by unfold RedisQuota.key in Hk2; rewrite Hs2 in Hk2].
  by destruct (redis_key_inj rq1 rq2 (counter_key rq2) s1 s2) as [? _].
Qed.

Lemma tracked_keys_nodup quotas i ts :
  positive_windows quotas -> scoping_wf (scoping i) -> NoDup (omap Quota.id quotas) ->
  NoDup (counter_key <$> tracked_quotas quotas i ts).
Proof.
  intros Hw Hwf Hnd. pose proof (sublist_NoDup _ _ Hnd (tracked_prefixes quotas i ts)) as Hp.
  pose proof (fun rq => tracked_window_pos quotas i ts rq Hw) as Hpos.
  induction (tracked_quotas quotas i ts) as [|rq rqs IH]; [constructor|].
  rewrite fmap_cons, NoDup_cons in Hp |- *. destruct Hp as [Hnot Hp].
  split; [|apply IH; [done|]; intros rq' ?; apply Hpos; by right].
  contradict Hnot. apply list_elem_of_fmap in Hnot as (rq' & Heq & Hin).
  apply list_elem_of_fmap. exists rq'. split; [|done].
  destruct (Hpos rq) as [? Hi]; [left|]. destruct (Hpos rq') as [? Hi']; [by right|].
  apply counter_key_prefix; by rewrite ?Hi, ?Hi'.
Qed.

Lemma no_zero_limits max_limit now quotas i :
  (forall q, q ∈ quotas -> Quota.matches q i = true -> Quota.limit q <> Some 0) ->
  zero_limits max_limit now quotas i = [].
Proof.
  intros Hz. destruct (zero_limits max_limit now quotas i) as [|l ls] eqn:E; [done|].
  destruct (proj1 (zero_limits_elem max_limit now quotas i l)) as (q & Hq & Hm & Hl & _);
    [rewrite E; left|]. by destruct (Hz q Hq Hm).
Qed.

Lemma existsb_false_forall {A} (f : A -> bool) l x : existsb f l = false -> x ∈ l -> f x = false.
Proof.
  intros He Hx. apply not_true_iff_false. intros Hf. apply not_true_iff_false in He.
  apply He. apply existsb_exists. exists x. split; [by apply list_elem_of_In|done].
Qed.

Lemma used_commits {St} `{RedisLaws St} (st : St) quantity rqs rq :
  NoDup (counter_key <$> rqs) -> rq ∈ rqs ->
  Forall (fun rq => RedisQuota.window rq <> 0) rqs ->
  Forall (fun rq => redis_time st < u64_add (expiry_secs rq) GRACE) rqs ->
  used (foldl entry_commit st (entry_of quantity <$> rqs)) rq = used st rq + quantity.
Proof.
  intros Hnd Hin Hw Ht. unfold used. rewrite !get_commits by done.
  rewrite bool_decide_true by (apply list_elem_of_fmap; eauto).
  rewrite bool_decide_false; [simpl; lia|].
  intros (rq' & Heq & Hin')%list_elem_of_fmap. rewrite Forall_forall in Hw.
  by apply (refund_not_counter rq' (counter_key rq) (Hw rq' Hin')).
Qed.

(** No limits come from no rejections only. *)
Lemma merge_new_empty limits : RateLimits.merge RateLimits.new limits = [] <-> limits = [].
Proof.
  assert (forall l limit, RateLimits.add l limit <> []) as Hadd.
  { intros [|x l] limit; [done|]. unfold RateLimits.add. cbn [RateLimits.add_or_replace].
    destruct (RateLimits.same_key _ _); [|done]. by case_bool_decide. }
  split; [|by intros ->]. destruct limits as [|limit limits _] using rev_ind; [done|].
  unfold RateLimits.merge. rewrite foldl_app. simpl. by intros ?%Hadd.
Qed.

Lemma existsb_filter_nil {A} (f : A -> bool) l : List.filter f l = [] <-> existsb f l = false.
Proof. induction l as [|x l IH]; [done|]. simpl. by destruct (f x). Qed.

Lemma exceeded_none {St} `{RedisStore St} (st : St) quantity rqs :
  existsb (exceeded st quantity) rqs = false
  <-> Forall (fun rq => 0 <= RedisQuota.limit rq -> used st rq + quantity <= RedisQuota.limit rq) rqs.
Proof.
  induction rqs as [|rq rqs IH]; simpl; [done|]. rewrite orb_false_iff, IH, Forall_cons. f_equiv.
  unfold exceeded. rewrite andb_false_iff, !bool_decide_eq_false. lia.
Qed.

(** ** Properties *)

(** C24: The Lua script, run on the flat [KEYS] and [ARGV] arrays the limiter
    builds (two keys and three arguments per quota), never fails an assertion
    or reads out of bounds, and computes the all-or-nothing specification: the
    rejection of every quota, and either an unchanged store or every counter
    incremented. *)
Theorem lua_script_refines_spec {St} `{RedisStore St} (st : St) (es : list Entry) :
  is_rate_limited_lua st (flat_keys es) (flat_args es) =
  Ret (entry_rejected st <$> es,
       if existsb (entry_rejected st) es then st else foldl entry_commit st es).
Proof. apply lua_refines_spec. Qed.

(** C1: [is_rate_limited] counts all or nothing. With Redis reachable, quotas
    with distinct ids and positive windows, and no matching quota of limit 0:
    when some tracked quota is exceeded the store is unchanged and exactly the
    exceeded quotas become rate limits; otherwise no limit is returned, the
    counter of every tracked quota grows by the quantity and every other key
    keeps its value. *)
Theorem redis_limiter_atomic {St} `{RedisLaws St} max_limit now ts (st : St) quotas i quantity :
  positive_windows quotas -> scoping_wf (scoping i) -> NoDup (omap Quota.id quotas) ->
  (forall q, q ∈ quotas -> Quota.matches q i = true -> Quota.limit q <> Some 0) ->
  Forall (fun rq => redis_time st < u64_add (expiry_secs rq) GRACE) (tracked_quotas quotas i ts) ->
  exists rl st',
    is_rate_limited max_limit now ts (Some st) quotas i quantity = Ret (Ok rl, Some st') /\
    rl = RateLimits.merge RateLimits.new
           (rejection_limit max_limit now ts i <$>
              List.filter (exceeded st quantity) (tracked_quotas quotas i ts)) /\
    if existsb (exceeded st quantity) (tracked_quotas quotas i ts)
    then st' = st
    else rl = [] /\
         forall k, redis_get st' k =
           if bool_decide (k ∈ counter_key <$> tracked_quotas quotas i ts)
           then Some (default 0 (redis_get st k) + quantity) else redis_get st k.
Proof.
  intros Hw Hwf Hids Hz Ht. do 2 eexists. split.
  - rewrite is_rate_limited_spec; [done|by apply positive_windows_nonzero|].
    by rewrite no_zero_limits.
  - rewrite no_zero_limits by done. simpl. split; [done|].
    destruct (existsb _ _) eqn:He; [done|]. split.
    + enough (List.filter (exceeded st quantity) (tracked_quotas quotas i ts) = []) as -> by done.
      induction (tracked_quotas quotas i ts) as [|rq rqs IH]; [done|]. simpl in *.
      apply orb_false_iff in He as [-> He]. apply Forall_cons in Ht as [_ Ht]. by apply IH.
    + intros k. apply get_commits; [by apply tracked_keys_nodup|done].
Qed.

(** C2: No quota is ever overrun, and none rejects too early: a call returns no limit
    exactly when every tracked quota with a limit has room for the quantity; then what is
    counted against each tracked quota (counter minus refunds) has grown by exactly the
    quantity and is within its limit, and otherwise nothing is counted. *)
Theorem redis_limiter_within_limit {St} `{RedisLaws St} max_limit now ts (st st' : St)
    quotas i quantity rl rq :
  positive_windows quotas -> scoping_wf (scoping i) -> NoDup (omap Quota.id quotas) ->
  (forall q, q ∈ quotas -> Quota.matches q i = true -> Quota.limit q <> Some 0) ->
  Forall (fun rq => redis_time st < u64_add (expiry_secs rq) GRACE) (tracked_quotas quotas i ts) ->
  is_rate_limited max_limit now ts (Some st) quotas i quantity = Ret (Ok rl, Some st') ->
  rq ∈ tracked_quotas quotas i ts ->
  (rl = [] <-> Forall (fun rq => 0 <= RedisQuota.limit rq -> used st rq + quantity <= RedisQuota.limit rq)
                 (tracked_quotas quotas i ts)) /\
  used st' rq = used st rq + match rl with [] => quantity | _ => 0 end /\
  (rl = [] -> 0 <= RedisQuota.limit rq -> used st' rq <= RedisQuota.limit rq).
Proof.
  intros Hw Hwf Hids Hz Ht Hrun Hrq.
  rewrite is_rate_limited_spec in Hrun;
    [|by apply positive_windows_nonzero|by rewrite no_zero_limits].
  rewrite no_zero_limits in Hrun by done. simpl in Hrun. injection Hrun as <- <-.
  set (limits := RateLimits.merge _ _).
  assert (limits = [] <-> existsb (exceeded st quantity) (tracked_quotas quotas i ts) = false) as Hlim.
  { unfold limits. rewrite merge_new_empty, <- existsb_filter_nil. split; [apply fmap_nil_inv|by intros ->]. }
  split; [by rewrite Hlim, exceeded_none|].
  destruct (existsb (exceeded st quantity) (tracked_quotas quotas i ts)) eqn:He.
  - assert (limits <> []) as Hne by (by rewrite Hlim). destruct limits; [done|]. split; [lia|done].
  - rewrite (proj2 Hlim eq_refl).
    rewrite used_commits; [|by apply tracked_keys_nodup|done| |done];
      [|by apply tracked_windows, positive_windows_nonzero].
    split; [done|]. intros _ Hl. apply exceeded_none in He. rewrite Forall_forall in He. by apply He.
Qed.

(** A matching quota of limit 0 rejects the item without Redis: the result
    is an active rate limit, the store is untouched, and this holds even when
    Redis cannot be reached. *)
Theorem zero_quota_skips_redis {St} `{RedisStore St} max_limit now ts (store : option St)
    quotas i quantity q :
  Forall (fun q => Quota.window q <> Some 0) quotas ->
  q ∈ quotas -> Quota.matches q i = true -> Quota.limit q = Some 0 ->
  max_limit <> Some 0 -> (forall m, max_limit = Some m -> 0 <= m) ->
  now / nanos_per_sec + REJECT_ALL_SECS <= i64_max ->
  exists rl, is_rate_limited max_limit now ts store quotas i quantity = Ret (Ok rl, store) /\
    RateLimits.is_limited now rl = true.
Proof.
  intros Hw Hq Hm Hl Hmax Hnn Hnow. eexists.
  assert (RateLimits.is_limited now
            (RateLimits.merge RateLimits.new (zero_limits max_limit now quotas i)) = true) as Hlim.
  { rewrite is_limited_merge. right. eexists. split; [apply zero_limits_elem; eauto 10|].
    simpl. by apply retry_after_expiry. }
  unfold is_rate_limited. rewrite track_quotas_spec by done.
  cbn [mbind outcome_bind tracked limits]. rewrite Hlim, orb_true_r. done.
Qed.

(** Window arithmetic on [u64]: as long as nothing wraps around, the slot
    of a quota is the window that contains the timestamp, shifted by the
    organization id, its expiry lies after the timestamp by at most one window,
    and a rejected item is told to wait between one second and one window. *)
Theorem quota_window_bounds rq :
  0 < RedisQuota.window rq -> 0 <= organization_id (scoping (RedisQuota.item rq)) ->
  organization_id (scoping (RedisQuota.item rq)) mod RedisQuota.window rq <= RedisQuota.timestamp rq ->
  RedisQuota.timestamp rq + RedisQuota.window rq < 2 ^ 64 ->
  exists slot expiry,
    RedisQuota.slot rq = Ret slot /\ RedisQuota.expiry rq = Ret expiry /\
    expiry = (slot + 1) * RedisQuota.window rq
             + organization_id (scoping (RedisQuota.item rq)) mod RedisQuota.window rq /\
    expiry - RedisQuota.window rq <= RedisQuota.timestamp rq < expiry /\
    0 < duration_as_secs (UnixTimestamp.sub expiry (RedisQuota.timestamp rq)) <= RedisQuota.window rq.
Proof.
  intros Hw Ho Hs Hmax. destruct (slot_expiry_exact rq Hw Ho Hs Hmax) as (Hslot & Hexp & Hb).
  do 2 eexists. split; [done|]. split; [done|]. split; [done|]. split; [lia|].
  pose proof (Z.mod_pos_bound (organization_id (scoping (RedisQuota.item rq))) _ Hw).
  unfold UnixTimestamp.sub, duration_as_secs, duration_from_secs.
  rewrite Z.div_mul by done. rewrite u64_sub_small by (unfold in_width; lia). lia.
Qed.

(** Counters never mix: if two tracked items use the same Redis key, they
    have the same quota id, organization, scope instance and time slot. *)
Theorem redis_key_injective rq1 rq2 k s1 s2 :
  0 < RedisQuota.window rq1 -> 0 < RedisQuota.window rq2 ->
  scoping_wf (scoping (RedisQuota.item rq1)) -> scoping_wf (scoping (RedisQuota.item rq2)) ->
  RedisQuota.slot rq1 = Ret s1 -> RedisQuota.slot rq2 = Ret s2 ->
  RedisQuota.key rq1 = Ret k -> RedisQuota.key rq2 = Ret k ->
  RedisQuota.prefix rq1 = RedisQuota.prefix rq2 /\
  organization_id (scoping (RedisQuota.item rq1)) = organization_id (scoping (RedisQuota.item rq2)) /\
  RedisQuota.subscope rq1 = RedisQuota.subscope rq2 /\ s1 = s2.
Proof. intros. by eapply redis_key_inj. Qed.

(** A tracked quota with a window of 0 seconds panics the limiter: the
    shift divides by the window and nothing rejects such a quota before. *)
Theorem zero_window_panics {St} `{RedisStore St} max_limit now ts (store : option St)
    q i quantity id :
  Quota.matches q i = true -> Quota.limit q <> Some 0 ->
  Quota.id q = Some id -> Quota.window q = Some 0 ->
  is_rate_limited max_limit now ts store [q] i quantity = Panic.
Proof.
  intros Hm Hl Hid Hw. unfold is_rate_limited. cbn [track_quotas]. unfold track_quota.
  rewrite Hm, bool_decide_false by done. unfold RedisQuota.new. rewrite Hid, Hw. done.
Qed.

(** ** Witnesses *)

Definition sample_quota (id : string) (limit : option Z) (window : option Z) : Quota :=
  {| Quota.id := Some id; Quota.categories := []; Quota.scope := QuotaScope.Organization;
     Quota.scope_id := None; Quota.limit := limit; Quota.window := window;
     Quota.reason_code := None |}.

Definition sample_quotas : list Quota :=
  [sample_quota "o" (Some 5) (Some 60); sample_quota "u" None (Some 3600)].
Definition sample_ts : UnixTimestamp := 1500000000.
Definition empty_store : memory_store :=
  {| mem_time := sample_ts; mem_counters := ∅; mem_expires := ∅ |}.

Lemma sample_quotas_windows : positive_windows sample_quotas.
Proof. repeat constructor; intros w [= <-]; lia. Qed.
Lemma sample_scoping_wf : scoping_wf (scoping sample_item).
Proof. repeat split; simpl; try lia; naive_solver lia. Qed.
Lemma sample_quotas_ids : NoDup (omap Quota.id sample_quotas).
Proof. apply (bool_decide_unpack _). by vm_compute. Qed.
Lemma sample_quotas_nonzero q :
  q ∈ sample_quotas -> Quota.matches q sample_item = true -> Quota.limit q <> Some 0.
Proof. intros Hq _. unfold sample_quotas in Hq. set_solver. Qed.
Lemma sample_quotas_times :
  Forall (fun rq => redis_time empty_store < u64_add (expiry_secs rq) GRACE)
    (tracked_quotas sample_quotas sample_item sample_ts).
Proof. repeat constructor. Qed.

Lemma redis_limiter_atomic_witness :
  exists rl st',
    is_rate_limited None 0 sample_ts (Some empty_store) sample_quotas sample_item 1
      = Ret (Ok rl, Some st') /\ rl = [].
Proof.
  destruct (redis_limiter_atomic None 0 sample_ts empty_store sample_quotas sample_item 1
              sample_quotas_windows sample_scoping_wf sample_quotas_ids sample_quotas_nonzero
              sample_quotas_times) as (rl & st' & Hrun & _ & Hif).
  exists rl, st'. split; [exact Hrun|]. exact (proj1 Hif).
Defined.

Lemma redis_limiter_within_limit_witness :
  match is_rate_limited None 0 sample_ts (Some empty_store) sample_quotas sample_item 5 with
  | Ret (Ok rl, Some st') =>
      match tracked_quotas sample_quotas sample_item sample_ts with
      | rq :: _ => used st' rq = 0 + match rl with [] => 5 | _ => 0 end
      | [] => False
      end
  | _ => False
  end.
Proof.
  exact (proj1 (proj2 (redis_limiter_within_limit None 0 sample_ts empty_store _
                  sample_quotas sample_item 5 _ _
                  sample_quotas_windows sample_scoping_wf sample_quotas_ids sample_quotas_nonzero
                  sample_quotas_times eq_refl (list_elem_of_here _ _)))).
Defined.

Lemma zero_quota_skips_redis_witness :
  exists rl, is_rate_limited None 0 sample_ts (@None memory_store)
               [sample_quota "z" (Some 0) None; sample_quota "o" (Some 5) (Some 60)] sample_item 1
             = Ret (Ok rl, None) /\
    RateLimits.is_limited 0 rl = true.
Proof.
  apply (zero_quota_skips_redis None 0 sample_ts (@None memory_store)
           [sample_quota "z" (Some 0) None; sample_quota "o" (Some 5) (Some 60)] sample_item 1
           (sample_quota "z" (Some 0) None)).
  - repeat constructor; discriminate.
  - left.
  - reflexivity.
  - reflexivity.
  - discriminate.
  - intros m Hm. discriminate.
  - by vm_compute.
Defined.

Definition sample_redis_quota : RedisQuota :=
  {| RedisQuota.quota := sample_quota "o" (Some 5) (Some 60); RedisQuota.item := sample_item;
     RedisQuota.prefix := "o"; RedisQuota.window := 60; RedisQuota.timestamp := sample_ts |}.

Lemma quota_window_bounds_witness :
  exists slot expiry, RedisQuota.slot sample_redis_quota = Ret slot /\
    RedisQuota.expiry sample_redis_quota = Ret expiry /\ expiry - 60 <= sample_ts < expiry.
Proof.
  destruct (quota_window_bounds sample_redis_quota) as (slot & expiry & Hs & He & _ & Hb & _);
    [by vm_compute..|].
  exists slot, expiry. split; [exact Hs|]. split; [exact He|exact Hb].
Defined.

Lemma redis_key_injective_witness :
  RedisQuota.subscope sample_redis_quota = RedisQuota.subscope sample_redis_quota /\
  24999999 = 24999999.
Proof.
  exact (proj2 (proj2 (redis_key_injective sample_redis_quota sample_redis_quota
           (counter_key sample_redis_quota) 24999999 24999999
           ltac:(by vm_compute) ltac:(by vm_compute) sample_scoping_wf sample_scoping_wf
           ltac:(by vm_compute) ltac:(by vm_compute) ltac:(by vm_compute) ltac:(by vm_compute)))).
Defined.

Lemma zero_window_panics_witness :
  is_rate_limited None 0 sample_ts (@None memory_store)
    [sample_quota "w" (Some 5) (Some 0)] sample_item 1 = Panic.
Proof.
  apply (zero_window_panics None 0 sample_ts None (sample_quota "w" (Some 5) (Some 0))
           sample_item 1 "w"); [reflexivity|discriminate|reflexivity|reflexivity].
Defined.
