(* ===== verification/Filters.v ===== *)
(** * relay-filter: inbound event filters

    The eight filters of the crate and [should_filter], which runs them, on the
    events of Protocol.v.  The crates the filters call (regex, globset, ipnetwork, url,
    uaparser) and the Unicode tables are the operations of [FilterEnv]. *)

From Stdlib Require Import Ascii String.
From S2P Require Import Prelude Strings Floats Types Common Protocol.

Open Scope string_scope.
Open Scope Z_scope.
Open Scope list_scope.

(** ** The crates the filters call *)

Module UserAgent.
Record UserAgent := MkUserAgent { family : string; major : option string }.
End UserAgent.
Notation UserAgent := UserAgent.UserAgent.

Class FilterEnv := {
  (** [str::to_lowercase], which reads the Unicode tables *)
  to_lowercase : string -> string;
  (** globset and regex: the matcher of a glob pattern, [None] when invalid *)
  compile_glob : string -> option (string -> bool);
  (** ipnetwork: membership in a network, [None] when it does not parse *)
  parse_network : string -> option (IpAddr -> bool);
  (** url: the host of a URL, the outer [None] when it does not parse *)
  url_host : string -> option (option string);
  (** uaparser *)
  parse_user_agent : string -> UserAgent;
  (** regex: the four patterns of the crate *)
  EXTENSION_EXC_VALUES : string -> bool;
  EXTENSION_EXC_SOURCES : string -> bool;
  WEB_CRAWLERS : string -> bool;
  ALLOWED_WEB_CRAWLERS : string -> bool;
}.

(** What the documentation of these crates promises and the theorems use:
    lowercasing an ASCII string lowercases its letters. *)
Class FilterEnvLaws `{FilterEnv} : Prop := {
  to_lowercase_ascii s : str_forallb is_ascii s = true -> to_lowercase s = to_ascii_lowercase s;
}.

(** ** Configuration *)

Record GlobPatterns := MkGlobPatterns { patterns : list string }.

Module LegacyBrowser.

Inductive LegacyBrowser :=
| Default | IePre9 | Ie9 | Ie10 | Ie11 | OperaPre15 | OperaMiniPre8 | AndroidPre4 | SafariPre6
| Unknown (s : string).

#[global] Instance LegacyBrowser_eq_dec : EqDecision LegacyBrowser.
Proof. solve_decision. Defined.

Definition from_str (s : string) : LegacyBrowser :=
  default (Unknown s)
    (match_str s
       [("default", Default); ("ie_pre_9", IePre9); ("ie9", Ie9); ("ie10", Ie10);
        ("ie11", Ie11); ("opera_pre_15", OperaPre15); ("opera_mini_pre_8", OperaMiniPre8);
        ("android_pre_4", AndroidPre4); ("safari_pre_6", SafariPre6)]).

Definition serialize (self : LegacyBrowser) : string :=
  match self with
  | Default => "default"
  | IePre9 => "ie_pre_9"
  | Ie9 => "ie9"
  | Ie10 => "ie10"
  | Ie11 => "ie11"
  | OperaPre15 => "opera_pre_15"
  | OperaMiniPre8 => "opera_mini_pre_8"
  | AndroidPre4 => "android_pre_4"
  | SafariPre6 => "safari_pre_6"
  | Unknown string => string
  end.

End LegacyBrowser.
Notation LegacyBrowser := LegacyBrowser.LegacyBrowser.

Record FilterConfig := MkFilterConfig { is_enabled : bool }.
Record ClientIpsFilterConfig := MkClientIps { blacklisted_ips : list string }.
Record CspFilterConfig := MkCspConfig { disallowed_sources : list string }.
Record ErrorMessagesFilterConfig := MkErrorMessages { em_patterns : GlobPatterns }.
Record ReleasesFilterConfig := MkReleases { releases : GlobPatterns }.
(** [browsers] is a [BTreeSet], listed in its iteration order. *)
Record LegacyBrowsersFilterConfig := MkLegacyBrowsers {
  lb_is_enabled : bool;
  browsers : list LegacyBrowser;
}.

Record FiltersConfig := MkFiltersConfig {
  c_browser_extensions : FilterConfig;
  c_client_ips : ClientIpsFilterConfig;
  c_web_crawlers : FilterConfig;
  c_csp : CspFilterConfig;
  c_error_messages : ErrorMessagesFilterConfig;
  c_legacy_browsers : LegacyBrowsersFilterConfig;
  c_localhost : FilterConfig;
  c_releases : ReleasesFilterConfig;
}.

Definition filter_config_is_empty (self : FilterConfig) : bool := negb (is_enabled self).
Definition client_ips_is_empty (self : ClientIpsFilterConfig) : bool :=
  bool_decide (blacklisted_ips self = []).
Definition csp_is_empty (self : CspFilterConfig) : bool := bool_decide (disallowed_sources self = []).
Definition globs_is_empty (self : GlobPatterns) : bool := bool_decide (patterns self = []).
Definition error_messages_is_empty (self : ErrorMessagesFilterConfig) : bool :=
  globs_is_empty (em_patterns self).
Definition releases_is_empty (self : ReleasesFilterConfig) : bool := globs_is_empty (releases self).
Definition legacy_browsers_is_empty (self : LegacyBrowsersFilterConfig) : bool :=
  negb (lb_is_enabled self) && bool_decide (browsers self = []).

Definition filters_config_is_empty (self : FiltersConfig) : bool :=
  filter_config_is_empty (c_browser_extensions self)
  && client_ips_is_empty (c_client_ips self)
  && filter_config_is_empty (c_web_crawlers self)
  && csp_is_empty (c_csp self)
  && error_messages_is_empty (c_error_messages self)
  && legacy_browsers_is_empty (c_legacy_browsers self)
  && filter_config_is_empty (c_localhost self)
  && releases_is_empty (c_releases self).

Module FilterStatKey.

Inductive FilterStatKey :=
| IpAddress | ReleaseVersion | ErrorMessage | BrowserExtensions | LegacyBrowsers | Localhost
| WebCrawlers | InvalidCsp.

#[global] Instance FilterStatKey_eq_dec : EqDecision FilterStatKey.
Proof. solve_decision. Defined.

Definition name (self : FilterStatKey) : string :=
  match self with
  | IpAddress => "ip-address"
  | ReleaseVersion => "release-version"
  | ErrorMessage => "error-message"
  | BrowserExtensions => "browser-extensions"
  | LegacyBrowsers => "legacy-browsers"
  | Localhost => "localhost"
  | WebCrawlers => "web-crawlers"
  | InvalidCsp => "invalid-csp"
  end.

End FilterStatKey.
Notation FilterStatKey := FilterStatKey.FilterStatKey.

(** ** The filters *)

Section Filters.
Context `{FilterEnv}.

(** *** common.rs *)

Definition parse_globs (self : GlobPatterns) : list (string -> bool) :=
  omap compile_glob (patterns self).

(** The compiled globs are cached; the cache holds what [parse_globs] returns. *)
Definition globs_is_match (self : GlobPatterns) (message : string) : bool :=
  if bool_decide (message = "") then false
  else existsb (fun regex => regex message) (parse_globs self).

End Filters.

(** *** client_ips.rs *)

Module client_ips.
Section client_ips.
Context `{FilterEnv}.

Fixpoint contained (client_ip : IpAddr) (blacklisted_ips : list string) : bool :=
  match blacklisted_ips with
  | [] => false
  | blacklisted_ip :: rest =>
      match parse_network blacklisted_ip with
      | Some contains => if contains client_ip then true else contained client_ip rest
      | None => contained client_ip rest
      end
  end.

Definition matches (client_ip : option IpAddr) (blacklisted_ips : list string) : bool :=
  match client_ip with
  | Some client_ip => contained client_ip blacklisted_ips
  | None => false
  end.

Definition should_filter (client_ip : option IpAddr) (config : ClientIpsFilterConfig)
  : result FilterStatKey unit :=
  if matches client_ip (blacklisted_ips config) then Err FilterStatKey.IpAddress else Ok ().

End client_ips.
End client_ips.

(** *** csp.rs *)

Module csp_filter.

(** [None] matches anything in the respective position. *)
Record SchemeDomainPort := MkSchemeDomainPort {
  scheme : option string;
  domain : option string;
  port : option string;
}.

#[global] Instance SchemeDomainPort_eq_dec : EqDecision SchemeDomainPort.
Proof. solve_decision. Defined.

Section csp_filter.
Context `{FilterEnv}.

Definition normalize (pattern : string) : option string :=
  if bool_decide (pattern = "*") then None else Some (to_lowercase pattern).

Definition from (url : string) : SchemeDomainPort :=
  let '(scheme, rest) :=
    match str_find "://" url with
    | Some idx => (normalize (substring 0 idx url), str_from (idx + 3) url)
    | None => (None, url)
    end in
  let domain_port :=
    match str_find "/" rest with
    | Some end_domain_idx => substring 0 end_domain_idx rest
    | None => rest
    end in
  let '(domain, port) :=
    match str_find ":" domain_port with
    | Some idx => (normalize (substring 0 idx domain_port), normalize (str_from (idx + 1) domain_port))
    | None => (normalize domain_port, None)
    end in
  MkSchemeDomainPort scheme domain port.

(** The suffix of a string from a byte index on, as [str::get(n..)]. *)
Definition get_from (s : string) (n : nat) : option string := str_get s n (String.length s).

(** One round of the loop of [matches_any_origin]. *)
Definition matches_origin (url origin : SchemeDomainPort) : bool :=
  if bool_decide (scheme origin <> None) && bool_decide (scheme url <> scheme origin) then false
  else if bool_decide (port origin <> None) && bool_decide (port url <> port origin) then false
  else if bool_decide (domain origin <> None) && bool_decide (domain url <> domain origin) then
    match domain origin, domain url with
    | Some origin_domain, Some domain =>
        starts_with "*" origin_domain
        && (ends_with (default "" (get_from origin_domain 1)) domain
            || bool_decide (domain = default "" (get_from origin_domain 2)))
    | _, _ => false
    end
  else true.

Definition is_any (o : SchemeDomainPort) : bool :=
  bool_decide (scheme o = None) && bool_decide (port o = None) && bool_decide (domain o = None).

Definition matches_any_origin (url : option string) (origins : list SchemeDomainPort) : bool :=
  if existsb is_any origins then true
  else match url with
       | Some url => let url := from url in existsb (matches_origin url) origins
       | None => false
       end.

Definition matches (event : Event) (disallowed_sources : list string) : bool :=
  if bool_decide (Annotated.value (event_ty event) <> Some EventType.Csp) then false
  else
    let disallowed_sources := from <$> disallowed_sources in
    match Annotated.value (csp event) with
    | Some csp =>
        if matches_any_origin (Annotated.value (Csp.blocked_uri csp)) disallowed_sources then true
        else matches_any_origin (Annotated.value (Csp.source_file csp)) disallowed_sources
    | None => false
    end.

Definition should_filter (event : Event) (config : CspFilterConfig) : result FilterStatKey unit :=
  if matches event (disallowed_sources config) then Err FilterStatKey.InvalidCsp else Ok ().

End csp_filter.
End csp_filter.

(** *** releases.rs *)

Module releases_filter.
Section releases_filter.
Context `{FilterEnv}.

Definition should_filter (event : Event) (config : ReleasesFilterConfig)
  : result FilterStatKey unit :=
  match Annotated.value (release event) with
  | Some release =>
      if globs_is_match (releases config) release then Err FilterStatKey.ReleaseVersion else Ok ()
  | None => Ok ()
  end.

End releases_filter.
End releases_filter.

(** *** error_messages.rs *)

Module error_messages.
Section error_messages.
Context `{FilterEnv}.

(** The message of an exception: type, value, or both joined. *)
Definition exception_message (exception : Exception) : string :=
  let ty := default "" (Annotated.value (exc_ty exception)) in
  let value := default "" (Annotated.value (exc_value exception)) in
  if bool_decide (ty = "") then value
  else if bool_decide (value = "") then ty
  else ty +:+ ": " +:+ value.

Definition matches_logentry (logentry : LogEntry) (patterns : GlobPatterns) : bool :=
  match Annotated.value (formatted logentry) with
  | Some message => globs_is_match patterns message
  | None =>
      match Annotated.value (message logentry) with
      | Some message => globs_is_match patterns message
      | None => false
      end
  end.

Definition matches_exceptions (exceptions : list (Annotated Exception)) (patterns : GlobPatterns)
  : bool :=
  existsb (fun exception =>
    match Annotated.value exception with
    | Some exception => globs_is_match patterns (exception_message exception)
    | None => false
    end) exceptions.

Definition matches (event : Event) (patterns : GlobPatterns) : bool :=
  if match Annotated.value (logentry event) with
     | Some logentry => matches_logentry logentry patterns
     | None => false
     end then true
  else
    match Annotated.value (exceptions event) with
    | Some exception_values =>
        match Annotated.value (values exception_values) with
        | Some exceptions => matches_exceptions exceptions patterns
        | None => false
        end
    | None => false
    end.

Definition should_filter (event : Event) (config : ErrorMessagesFilterConfig)
  : result FilterStatKey unit :=
  if matches event (em_patterns config) then Err FilterStatKey.ErrorMessage else Ok ().

End error_messages.
End error_messages.

(** *** localhost.rs *)

Module localhost.
Section localhost.
Context `{FilterEnv}.

Definition LOCAL_IPS : list string := ["127.0.0.1"; "::1"].
Definition LOCAL_DOMAINS : list string := ["127.0.0.1"; "localhost"].

Definition get_ip_addr (event : Event) : option string :=
  user ← Annotated.value (user event); Annotated.value (ip_address user).

(** The parsed URL, as its host. *)
Definition get_url (event : Event) : option (option string) :=
  request ← Annotated.value (request event);
  url_str ← Annotated.value (url request);
  url_host url_str.

Definition matches (event : Event) : bool :=
  if match get_ip_addr event with
     | Some ip_addr => existsb (fun local_ip => bool_decide (local_ip = ip_addr)) LOCAL_IPS
     | None => false
     end then true
  else
    match get_url event with
    | Some (Some host) => existsb (fun local_domain => bool_decide (host = local_domain)) LOCAL_DOMAINS
    | _ => false
    end.

Definition should_filter (event : Event) (config : FilterConfig) : result FilterStatKey unit :=
  if negb (is_enabled config) then Ok ()
  else if matches event then Err FilterStatKey.Localhost else Ok ().

End localhost.
End localhost.

(** *** browser_extensions.rs *)

Module browser_extensions.
Section browser_extensions.
Context `{FilterEnv}.

Definition get_first_exception (event : Event) : option Exception :=
  vs ← Annotated.value (exceptions event);
  exceptions ← Annotated.value (values vs);
  first ← head exceptions;
  Annotated.value first.

Definition get_exception_value (event : Event) : option string :=
  exception ← get_first_exception event;
  Annotated.value (exc_value exception).

Definition get_exception_source (event : Event) : option string :=
  exception ← get_first_exception event;
  stacktrace ← Annotated.value (stacktrace exception);
  frames ← Annotated.value (frames stacktrace);
  last_frame ← last frames;
  frame ← Annotated.value last_frame;
  Annotated.value (abs_path frame).

Definition matches (event : Event) : bool :=
  if match get_exception_value event with
     | Some ex_val => EXTENSION_EXC_VALUES ex_val
     | None => false
     end then true
  else match get_exception_source event with
       | Some ex_source => EXTENSION_EXC_SOURCES ex_source
       | None => false
       end.

Definition should_filter (event : Event) (config : FilterConfig) : result FilterStatKey unit :=
  if negb (is_enabled config) then Ok ()
  else if matches event then Err FilterStatKey.BrowserExtensions else Ok ().

End browser_extensions.
End browser_extensions.

(** *** relay-general's user_agent.rs *)

Section user_agent.
Context `{FilterEnv}.

Fixpoint get_user_agent_from_headers
    (headers : list (Annotated (Annotated string * Annotated string))) : option string :=
  match headers with
  | [] => None
  | item :: rest =>
      match Annotated.value item with
      | Some (o_k, v) =>
          match Annotated.value o_k with
          | Some k =>
              if bool_decide (to_lowercase k = "user-agent") then Annotated.value v
              else get_user_agent_from_headers rest
          | None => get_user_agent_from_headers rest
          end
      | None => get_user_agent_from_headers rest
      end
  end.

Definition get_user_agent (event : Event) : option string :=
  request ← Annotated.value (request event);
  headers ← Annotated.value (headers request);
  get_user_agent_from_headers headers.

End user_agent.

(** *** legacy_browsers.rs *)

Module legacy_browsers.
Section legacy_browsers.
Context `{FilterEnv}.

Definition MIN_VERSIONS : list (string * Z) :=
  [("Chrome", 0); ("IE", 10); ("Firefox", 0); ("Safari", 6); ("Edge", 0); ("Opera", 15);
   ("Android", 4); ("Opera Mini", 8)].

Definition get_browser_major_version (user_agent : UserAgent) : option Z :=
  browser_major_version_str ← UserAgent.major user_agent;
  parse_i32 browser_major_version_str.

Definition default_filter (mapped_family : string) (user_agent : UserAgent) : bool :=
  match get_browser_major_version user_agent with
  | Some browser_major_version =>
      match match_str mapped_family MIN_VERSIONS with
      | Some min_version => bool_decide (browser_major_version < min_version)
      | None => false
      end
  | None => false
  end.

Definition filter_browser (mapped_family : string) (user_agent : UserAgent) (family : string)
    (should_filter : Z -> bool) : bool :=
  if bool_decide (mapped_family = family) then
    match get_browser_major_version user_agent with
    | Some browser_major_version => should_filter browser_major_version
    | None => false
    end
  else false.

(** The arms of the loop; the last one is [unreachable!()]. *)
Definition filter_browser_type (family : string) (user_agent : UserAgent)
    (browser_type : LegacyBrowser) : outcome bool :=
  match browser_type with
  | LegacyBrowser.IePre9 => Ret (filter_browser family user_agent "IE" (fun x => bool_decide (x <= 8)))
  | LegacyBrowser.Ie9 => Ret (filter_browser family user_agent "IE" (fun x => bool_decide (x = 9)))
  | LegacyBrowser.Ie10 => Ret (filter_browser family user_agent "IE" (fun x => bool_decide (x = 10)))
  | LegacyBrowser.Ie11 => Ret (filter_browser family user_agent "IE" (fun x => bool_decide (x = 11)))
  | LegacyBrowser.OperaMiniPre8 =>
      Ret (filter_browser family user_agent "Opera Mini" (fun x => bool_decide (x < 8)))
  | LegacyBrowser.OperaPre15 =>
      Ret (filter_browser family user_agent "Opera" (fun x => bool_decide (x < 15)))
  | LegacyBrowser.AndroidPre4 =>
      Ret (filter_browser family user_agent "Android" (fun x => bool_decide (x < 4)))
  | LegacyBrowser.SafariPre6 =>
      Ret (filter_browser family user_agent "Safari" (fun x => bool_decide (x < 6)))
  | LegacyBrowser.Unknown _ => Ret false
  | LegacyBrowser.Default => Panic
  end.

Fixpoint any_browser (family : string) (user_agent : UserAgent) (browsers : list LegacyBrowser)
  : outcome bool :=
  match browsers with
  | [] => Ret false
  | browser_type :: rest =>
      should_filter ← filter_browser_type family user_agent browser_type;
      if should_filter : bool then Ret true else any_browser family user_agent rest
  end.

(** Internet Explorer Mobile counts as Internet Explorer. *)
Definition map_family (family : string) : string :=
  if bool_decide (family = "IE Mobile") then "IE" else family.

Definition matches (event : Event) (browsers : list LegacyBrowser) : outcome bool :=
  match get_user_agent event with
  | Some user_agent_string =>
      let user_agent := parse_user_agent user_agent_string in
      let family := map_family (UserAgent.family user_agent) in
      if bool_decide (LegacyBrowser.Default ∈ browsers) then Ret (default_filter family user_agent)
      else any_browser family user_agent browsers
  | None => Ret false
  end.

Definition should_filter (event : Event) (config : LegacyBrowsersFilterConfig)
  : outcome (result FilterStatKey unit) :=
  if negb (lb_is_enabled config) || bool_decide (browsers config = []) then Ret (Ok ())
  else
    matched ← matches event (browsers config);
    Ret (if matched : bool then Err FilterStatKey.LegacyBrowsers else Ok ()).

End legacy_browsers.
End legacy_browsers.

(** *** web_crawlers.rs *)

Module web_crawlers.
Section web_crawlers.
Context `{FilterEnv}.

Definition matches (event : Event) : bool :=
  match get_user_agent event with
  | Some user_agent => WEB_CRAWLERS user_agent && negb (ALLOWED_WEB_CRAWLERS user_agent)
  | None => false
  end.

Definition should_filter (event : Event) (config : FilterConfig) : result FilterStatKey unit :=
  if negb (is_enabled config) then Ok ()
  else if matches event then Err FilterStatKey.WebCrawlers else Ok ().

End web_crawlers.
End web_crawlers.

(** *** lib.rs *)

Section should_filter.
Context `{FilterEnv}.

(** The filters in the order they are applied; the first error returns. *)
Definition filters (event : Event) (client_ip : option IpAddr) (config : FiltersConfig)
  : list (outcome (result FilterStatKey unit)) :=
  [Ret (csp_filter.should_filter event (c_csp config));
   Ret (client_ips.should_filter client_ip (c_client_ips config));
   Ret (releases_filter.should_filter event (c_releases config));
   Ret (error_messages.should_filter event (c_error_messages config));
   Ret (localhost.should_filter event (c_localhost config));
   Ret (browser_extensions.should_filter event (c_browser_extensions config));
   legacy_browsers.should_filter event (c_legacy_browsers config);
   Ret (web_crawlers.should_filter event (c_web_crawlers config))].

Fixpoint run_filters (fs : list (outcome (result FilterStatKey unit)))
  : outcome (result FilterStatKey unit) :=
  match fs with
  | [] => Ret (Ok ())
  | f :: fs => r ← f; match r with Ok _ => run_filters fs | Err k => Ret (Err k) end
  end.

Definition should_filter (event : Event) (client_ip : option IpAddr) (config : FiltersConfig)
  : outcome (result FilterStatKey unit) :=
  run_filters (filters event client_ip config).

End should_filter.

(** ** Lemmas on the composition of filters *)

Section compose.
Context `{FilterEnv}.

Lemma any_browser_total family ua bs :
  LegacyBrowser.Default ∉ bs -> exists b, legacy_browsers.any_browser family ua bs = Ret b.
Proof.
  induction bs as [|b bs IH]; simpl; [by eexists|].
  rewrite not_elem_of_cons. intros [Hb Hbs]. specialize (IH Hbs).
  destruct b; simpl; try done; try (destruct (legacy_browsers.filter_browser _ _ _ _); by eauto).
Qed.

Lemma legacy_should_filter_total event config :
  exists r, legacy_browsers.should_filter event config = Ret r.
Proof.
  unfold legacy_browsers.should_filter, legacy_browsers.matches.
  destruct (_ || _); [by eexists|]. destruct (get_user_agent event); [|by eexists].
  case_bool_decide as Hd; simpl; [by eexists|].
  destruct (any_browser_total (legacy_browsers.map_family (UserAgent.family (parse_user_agent s)))
    (parse_user_agent s) (browsers config) Hd) as [b ->]. by eexists.
Qed.

Lemma filters_total event ip config f :
  f ∈ filters event ip config -> exists r, f = Ret r.
Proof.
  unfold filters. intros Hf. repeat (apply elem_of_cons in Hf as [->|Hf]; [first [by eexists|apply legacy_should_filter_total]|]).
  by apply not_elem_of_nil in Hf.
Qed.

Lemma run_filters_spec fs :
  (forall f, f ∈ fs -> exists r, f = Ret r) ->
  (run_filters fs = Ret (Ok ()) /\ Forall (.= Ret (Ok ())) fs) \/
  exists pre k post, fs = pre ++ Ret (Err k) :: post /\ Forall (.= Ret (Ok ())) pre /\
                     run_filters fs = Ret (Err k).
Proof.
  induction fs as [|f fs IH]; intros Htot; [left; by split|].
  destruct (Htot f) as [r ->]; [left|]. simpl. destruct r as [[]|k].
  - destruct IH as [[-> Hall]|(pre & k & post & -> & Hpre & ->)].
    + intros g Hg. apply Htot. by right.
    + left. by constructor; [|constructor].
    + right. exists (Ret (Ok ()) :: pre), k, post. split_and!; [done| |done]. by constructor.
  - right. by exists [], k, fs.
Qed.

End compose.

(** ** Lemmas on searches *)

Lemma str_find_at p q s c t :
  p = String c q -> contains_char c s = false -> str_find p (s +:+ p +:+ t) = Some (String.length s).
Proof.
  intros ->. unfold str_find. induction s as [|a s IH].
  - intros _. simpl. destruct (ascii_dec c c); [|done].
    assert (String.prefix q (q +:+ t) = true) as ->; [|done].
    induction q as [|d q IHq]; simpl; [by destruct t|]. by destruct (ascii_dec d d).
  - rewrite contains_char_cons. intros [Ha Hs]%orb_false_iff. specialize (IH Hs).
    simpl in IH |- *. rewrite IH.
    destruct (ascii_dec c a) as [->|]; [|done]. by rewrite bool_decide_true in Ha.
Qed.

Lemma str_find_none p q c s : p = String c q -> contains_char c s = false -> str_find p s = None.
Proof.
  intros ->. unfold str_find. induction s as [|a s IH]; [done|]. rewrite contains_char_cons.
  intros [Ha Hs]%orb_false_iff. simpl. rewrite (IH Hs).
  destruct (ascii_dec c a) as [->|]; [|done]. by rewrite bool_decide_true in Ha.
Qed.

Lemma str_find_char_cons c a s :
  str_find (String c "") (String a s) =
  if bool_decide (a = c) then Some 0%nat else S <$> str_find (String c "") s.
Proof.
  unfold str_find. simpl. destruct (ascii_dec c a) as [->|].
  - rewrite bool_decide_true by done. by destruct s.
  - rewrite bool_decide_false by congruence. by destruct (String.index _ _ s).
Qed.

Lemma ends_with_iff s t : ends_with s t = true <-> exists u, t = u +:+ s.
Proof.
  unfold ends_with. rewrite andb_true_iff, !bool_decide_eq_true. split.
  - intros [Hl Hs]. exists (substring 0 (String.length t - String.length s) t).
    rewrite <- Hs at 2. unfold str_from.
    pose proof (substring_join 0 (String.length t - String.length s)
      (String.length t - (String.length t - String.length s)) t) as Hj.
    simpl in Hj. rewrite Hj, <- (substring_all t) at 1. f_equal. lia.
  - intros [u ->]. rewrite length_app_str. split; [lia|].
    replace (_ + _ - _)%nat with (String.length u) by lia. apply str_from_app.
Qed.

(** ** Origins of CSP reports *)

(** Characters of schemes, host names and ports as browsers send them. *)
Definition is_host_char (a : ascii) : bool :=
  is_ascii_lowercase a || is_ascii_digit a || bool_decide (a = "."%char) || bool_decide (a = "-"%char).
Definition host_like (s : string) : bool := negb (bool_decide (s = "")) && str_forallb is_host_char s.

Lemma host_char_spec a :
  is_host_char a = true ->
  is_ascii a = true /\ ascii_lower a = a /\ is_continuation a = false /\
  a <> ":"%char /\ a <> "/"%char /\ a <> "*"%char.
Proof.
  intros Ha. destruct a as [b0 b1 b2 b3 b4 b5 b6 b7].
  destruct b0, b1, b2, b3, b4, b5, b6, b7; try discriminate; split_and!; done || reflexivity.
Qed.

Lemma host_chars_no c s :
  c = ":"%char \/ c = "/"%char \/ c = "*"%char ->
  str_forallb is_host_char s = true -> contains_char c s = false.
Proof.
  intros Hc. apply str_forallb_not_contains. by destruct Hc as [->|[->| ->]].
Qed.

Lemma host_chars_lower s : str_forallb is_host_char s = true -> to_ascii_lowercase s = s.
Proof.
  induction s as [|a s IH]; simpl; [done|]. intros [Ha Hs]%andb_true_iff.
  destruct (host_char_spec a Ha) as (_ & -> & _). by rewrite IH.
Qed.

Lemma host_chars_ascii s : str_forallb is_host_char s = true -> str_forallb is_ascii s = true.
Proof. apply str_forallb_impl. intros a Ha. by apply host_char_spec. Qed.

Section csp.
Context `{FilterEnvLaws}.

Lemma normalize_lower s :
  str_forallb is_ascii s = true -> to_ascii_lowercase s = s -> s <> "*" ->
  csp_filter.normalize s = Some s.
Proof.
  intros Ha Hl Hs. unfold csp_filter.normalize. rewrite bool_decide_false by done.
  by rewrite to_lowercase_ascii, Hl.
Qed.

Lemma normalize_host s : host_like s = true -> csp_filter.normalize s = Some s.
Proof.
  unfold host_like. rewrite andb_true_iff, negb_true_iff, bool_decide_eq_false. intros [Hn Hs].
  apply normalize_lower; auto using host_chars_ascii, host_chars_lower. by intros ->.
Qed.

Lemma host_like_no c s :
  c = ":"%char \/ c = "/"%char \/ c = "*"%char -> host_like s = true -> contains_char c s = false.
Proof. intros Hc [_ Hs]%andb_true_iff. by apply host_chars_no. Qed.

Lemma substring_prefix s t : substring 0 (String.length s) (s +:+ t) = s.
Proof. apply substring_app_l. Qed.

Lemma str_from_past s p t : str_from (String.length s + String.length p) (s +:+ p +:+ t) = t.
Proof. rewrite <- length_app_str, <- str_app_assoc. apply str_from_app. Qed.

(** The parts of [scheme://domain:port/path] are found. *)
Lemma from_full sc d p path :
  host_like sc = true -> host_like d = true -> host_like p = true ->
  csp_filter.from (sc +:+ "://" +:+ d +:+ ":" +:+ p +:+ "/" +:+ path) =
  csp_filter.MkSchemeDomainPort (Some sc) (Some d) (Some p).
Proof.
  intros Hs Hd Hp. unfold csp_filter.from.
  rewrite (str_find_at "://" "//" sc ":"%char) by auto using host_like_no.
  rewrite substring_prefix, (normalize_host sc) by done.
  pose proof (str_from_past sc "://" (d +:+ ":" +:+ p +:+ "/" +:+ path)) as Hr.
  change (String.length "://") with 3%nat in Hr. rewrite Hr. clear Hr.
  replace (d +:+ ":" +:+ p +:+ "/" +:+ path) with ((d +:+ ":" +:+ p) +:+ "/" +:+ path)
    by (by rewrite !str_app_assoc).
  rewrite (str_find_at "/" "" (d +:+ ":" +:+ p) "/"%char); [|done|].
  2:{ rewrite !contains_char_app, (host_like_no _ d), (host_like_no _ p) by auto. done. }
  rewrite substring_prefix.
  rewrite (str_find_at ":" "" d ":"%char) by auto using host_like_no.
  pose proof (str_from_past d ":" p) as Hr. change (String.length ":") with 1%nat in Hr. rewrite Hr.
  by rewrite substring_prefix, (normalize_host d), (normalize_host p) by done.
Qed.

(** Without a scheme and a path. *)
Lemma from_domain d :
  contains_char ":" d = false -> contains_char "/" d = false ->
  csp_filter.from d = csp_filter.MkSchemeDomainPort None (csp_filter.normalize d) None.
Proof.
  intros Hc Hs. unfold csp_filter.from.
  rewrite (str_find_none "://" "//" ":"%char) by done.
  rewrite (str_find_none "/" "" "/"%char) by done.
  by rewrite (str_find_none ":" "" ":"%char) by done.
Qed.

Lemma from_any_port p :
  host_like p = true -> csp_filter.from ("*:" +:+ p) = csp_filter.MkSchemeDomainPort None None (Some p).
Proof.
  intros Hp. unfold csp_filter.from.
  assert (str_find "://" ("*:" +:+ p) = None) as ->.
  { apply andb_true_iff in Hp as [_ Hp]. unfold str_find. simpl.
    pose proof (str_find_none "://" "//" ":"%char p eq_refl (host_chars_no ":"%char p (or_introl eq_refl) Hp)) as Hn.
    unfold str_find in Hn. rewrite Hn. destruct p as [|a p]; [done|].
    simpl in Hp. apply andb_true_iff in Hp as [Ha _].
    destruct (host_char_spec a Ha) as (_ & _ & _ & _ & Hsl & _).
    clear Hn Ha. destruct a as [[] [] [] [] [] [] [] []]; first [reflexivity|by destruct Hsl]. }
  rewrite (str_find_none "/" "" "/"%char); [|done|].
  2:{ by rewrite contains_char_app, (host_like_no _ p) by auto. }
  pose proof (str_find_at ":" "" "*" ":"%char p eq_refl eq_refl) as Hf. simpl in Hf.
  change ("*:" +:+ p) with (String "*" (String ":" p)). rewrite Hf. simpl.
  pose proof (str_from_app "*:" p) as Hr. simpl in Hr. rewrite Hr.
  by rewrite (normalize_host p) by done.
Qed.

End csp.

Lemma get_from_skip pre s :
  starts_char s = true -> csp_filter.get_from (pre +:+ s) (String.length pre) = Some s.
Proof.
  intros Hs. unfold csp_filter.get_from. apply str_get_Some. rewrite length_app_str.
  split_and!; [lia|lia|by apply boundary_app| |].
  - rewrite <- length_app_str. apply boundary_end.
  - pose proof (str_from_app pre s) as Hr. unfold str_from in Hr. rewrite length_app_str in Hr. done.
Qed.

Lemma from_wildcard `{FilterEnvLaws} d :
  host_like d = true ->
  csp_filter.from ("*." +:+ d) = csp_filter.MkSchemeDomainPort None (Some ("*." +:+ d)) None.
Proof.
  intros Hd. rewrite from_domain.
  - assert (str_forallb is_host_char d = true) as Hc by (by apply andb_true_iff in Hd as [_ ?]).
    rewrite normalize_lower; [done| | |].
    + rewrite str_forallb_app, (host_chars_ascii d Hc). done.
    + simpl. by rewrite host_chars_lower.
    + intros Heq. by destruct d.
  - by rewrite contains_char_app, (host_like_no _ d) by auto.
  - by rewrite contains_char_app, (host_like_no _ d) by auto.
Qed.

Lemma host_like_no_star d rest : host_like d = true -> d <> "*" +:+ rest.
Proof. intros Hd ->. by pose proof (host_like_no "*"%char ("*" +:+ rest) ltac:(auto) Hd). Qed.

Lemma host_like_starts_char d : host_like d = true -> starts_char d = true.
Proof.
  intros [_ Hd]%andb_true_iff. destruct d as [|a d]; [done|]. simpl in *.
  apply andb_true_iff in Hd as [Ha _]. by destruct (host_char_spec a Ha) as (_ & _ & -> & _).
Qed.

(** The wildcard arm of the loop. *)
Lemma matches_origin_wildcard url d e :
  host_like d = true -> host_like e = true -> csp_filter.domain url = Some e ->
  csp_filter.matches_origin url (csp_filter.MkSchemeDomainPort None (Some ("*." +:+ d)) None) =
  bool_decide (e = d) || ends_with ("." +:+ d) e.
Proof.
  intros Hd He Hu. unfold csp_filter.matches_origin.
  cbn [csp_filter.scheme csp_filter.port csp_filter.domain].
  rewrite !bool_decide_false by auto. rewrite Hu. cbn [andb].
  rewrite (bool_decide_true (Some _ <> None)) by done.
  rewrite bool_decide_true by (simpl; intros [= Heq]; by apply (host_like_no_star e ("." +:+ d))).
  pose proof (get_from_skip "*" ("." +:+ d) eq_refl) as H1.
  pose proof (get_from_skip "*." d (host_like_starts_char d Hd)) as H2.
  simpl in H1, H2 |- *. rewrite H1, H2. simpl. apply orb_comm.
Qed.

(** ** Properties *)

(** [should_filter] never reaches its [unreachable!()] and is additive: an
    event passes exactly when every single filter lets it pass, a rejection
    names the first filter that rejects, and any other order of the filters
    gives the same verdict, as the comment on the order claims. *)
Theorem should_filter_additive `{FilterEnv} event ip config fs
    (Hperm : fs ≡ₚ filters event ip config) :
  exists r r', should_filter event ip config = Ret r /\ run_filters fs = Ret r' /\
    (r = Ok () <-> Forall (.= Ret (Ok ())) (filters event ip config)) /\
    (r = Ok () <-> r' = Ok ()) /\
    (forall k, r = Err k -> exists pre post,
       filters event ip config = pre ++ Ret (Err k) :: post /\ Forall (.= Ret (Ok ())) pre).
Proof.
  pose proof (filters_total event ip config) as Htot. unfold should_filter.
  assert (forall f, f ∈ fs -> exists r, f = Ret r) as Htot'.
  { intros f Hf. apply Htot. by rewrite <- Hperm. }
  assert (forall pre (k : FilterStatKey) post,
    Forall (.= Ret (Ok ())) (pre ++ Ret (Err k) :: post) -> False) as Hno.
  { intros pre k post Hf. apply Forall_app in Hf as [_ Hf]. by apply Forall_cons in Hf as [? _]. }
  destruct (run_filters_spec _ Htot) as [[-> Hall]|(pre & k & post & Heq & Hpre & ->)];
    destruct (run_filters_spec _ Htot') as [[-> Hall']|(pre' & k' & post' & Heq' & Hpre' & ->)];
    eexists _, _; (split; [done|]); (split; [done|]).
  - naive_solver.
  - exfalso. rewrite <- Hperm, Heq' in Hall. by eapply Hno.
  - exfalso. rewrite Hperm, Heq in Hall'. by eapply Hno.
  - split_and!; [split; [done|]|done|].
    + intros Hf. rewrite Heq in Hf. by eapply Hno in Hf.
    + intros k2 [= <-]. eauto.
Qed.

(** A configuration that [FiltersConfig::is_empty] calls empty, and that is
    therefore left out of the serialized project configuration, filters no
    event. *)
Theorem empty_config_filters_nothing `{FilterEnv} event ip config
    (Hempty : filters_config_is_empty config = true) :
  should_filter event ip config = Ret (Ok ()).
Proof.
  destruct config as [[be] [ci] [wc] [cs] [[em]] [lbe lb] [lo] [[re]]].
  unfold filters_config_is_empty, filter_config_is_empty, client_ips_is_empty, csp_is_empty,
    error_messages_is_empty, releases_is_empty, globs_is_empty, legacy_browsers_is_empty in Hempty.
  simpl in Hempty. rewrite !andb_true_iff, !negb_true_iff, !bool_decide_eq_true in Hempty.
  destruct Hempty as (((((((-> & ->) & ->) & ->) & ->) & [-> ->]) & ->) & ->).
  assert (forall m, globs_is_match (MkGlobPatterns []) m = false) as Hg.
  { intros m. unfold globs_is_match. simpl. by case_bool_decide. }
  assert (csp_filter.matches event [] = false) as Hcsp.
  { unfold csp_filter.matches. case_bool_decide; [done|]. destruct (Annotated.value (csp event)) as [c|]; [|done].
    unfold csp_filter.matches_any_origin. simpl.
    by destruct (Annotated.value (Csp.blocked_uri c)), (Annotated.value (Csp.source_file c)). }
  assert (error_messages.matches event (MkGlobPatterns []) = false) as Hem.
  { unfold error_messages.matches, error_messages.matches_logentry, error_messages.matches_exceptions.
    assert (forall l, existsb (fun exception => match Annotated.value exception with
      | Some e => globs_is_match (MkGlobPatterns []) (error_messages.exception_message e)
      | None => false end) l = false) as Hl.
    { induction l as [|e l IH]; simpl; [done|]. rewrite IH. destruct (Annotated.value e); [by rewrite Hg|done]. }
    destruct (Annotated.value (logentry event)) as [le|];
      [destruct (Annotated.value (formatted le)), (Annotated.value (message le))|]; rewrite ?Hg;
      destruct (Annotated.value (exceptions event)) as [ev|]; try done;
      destruct (Annotated.value (values ev)); try done; apply Hl. }
  unfold should_filter, filters. simpl.
  unfold csp_filter.should_filter. simpl. rewrite Hcsp.
  unfold client_ips.should_filter, client_ips.matches. simpl.
  assert ((match ip with Some _ => false | None => false end) = false) as -> by (by destruct ip).
  unfold releases_filter.should_filter, error_messages.should_filter. simpl. rewrite Hem.
  destruct (Annotated.value (release event)); rewrite ?Hg; done.
Qed.

(** The origin patterns of [matches_any_origin] mean what its comment says:
    ["*"] matches everything, ["*.domain"] the domain and its subdomains and
    nothing else, ["*:port"] every host on that port, and a full origin only
    itself, for URLs of the form [scheme://host:port/path]. *)
Theorem csp_origin_patterns `{FilterEnvLaws} sc d p path pattern_sc pattern_d pattern_p
    (Hsc : host_like sc = true) (Hd : host_like d = true) (Hp : host_like p = true)
    (Hpsc : host_like pattern_sc = true) (Hpd : host_like pattern_d = true)
    (Hpp : host_like pattern_p = true) :
  let url := sc +:+ "://" +:+ d +:+ ":" +:+ p +:+ "/" +:+ path in
  csp_filter.matches_any_origin (Some url) [csp_filter.from "*"] = true /\
  csp_filter.matches_any_origin (Some url) [csp_filter.from ("*." +:+ pattern_d)] =
    bool_decide (d = pattern_d) || ends_with ("." +:+ pattern_d) d /\
  csp_filter.matches_any_origin (Some url) [csp_filter.from ("*:" +:+ pattern_p)] =
    bool_decide (p = pattern_p) /\
  csp_filter.matches_any_origin (Some url)
    [csp_filter.from (pattern_sc +:+ "://" +:+ pattern_d +:+ ":" +:+ pattern_p +:+ "/")] =
    bool_decide (sc = pattern_sc /\ d = pattern_d /\ p = pattern_p).
Proof.
  intros url. subst url. unfold csp_filter.matches_any_origin. split_and!.
  - done.
  - rewrite from_wildcard, from_full by done. simpl existsb.
    rewrite (matches_origin_wildcard _ pattern_d d) by done. by rewrite orb_false_r.
  - rewrite from_any_port, from_full by done. simpl. unfold csp_filter.matches_origin. simpl.
    destruct (decide (p = pattern_p)) as [->|Hne].
    + rewrite bool_decide_false by auto. by rewrite bool_decide_true by done.
    + rewrite (bool_decide_false (p = pattern_p)) by done.
      rewrite (bool_decide_true (Some p <> Some pattern_p)) by congruence. done.
  - pose proof (from_full pattern_sc pattern_d pattern_p "" Hpsc Hpd Hpp) as Hf.
    change ("/" +:+ "") with "/" in Hf. rewrite Hf, from_full by done. simpl.
    unfold csp_filter.matches_origin. simpl.
    assert (starts_with "*" pattern_d = false) as Hw.
    { destruct (starts_with "*" pattern_d) eqn:Hst; [|done]. apply String.prefix_correct in Hst.
      destruct pattern_d as [|a s]; [done|]. simpl in Hst. injection Hst as -> _.
      by destruct (host_like_no_star (String "*" s) s). }
    rewrite Hw.
    destruct (decide (sc = pattern_sc)) as [->|]; [|by rewrite bool_decide_true, bool_decide_false by naive_solver].
    rewrite (bool_decide_false (Some pattern_sc <> Some pattern_sc)) by auto. simpl.
    destruct (decide (p = pattern_p)) as [->|]; [|by rewrite bool_decide_true, bool_decide_false by naive_solver].
    rewrite (bool_decide_false (Some pattern_p <> Some pattern_p)) by auto. simpl.
    destruct (decide (d = pattern_d)) as [->|].
    + rewrite bool_decide_false by auto. by rewrite bool_decide_true by auto.
    + rewrite bool_decide_true by congruence. by rewrite bool_decide_false by naive_solver.
Qed.

(** ** A concrete environment *)

(** Exact matching in place of the crates; enough to evaluate the filters. *)
Definition exact_env : FilterEnv := {|
  to_lowercase := to_ascii_lowercase;
  compile_glob p := Some (fun m => bool_decide (m = p));
  parse_network n := Some (fun ip => bool_decide (ip = n));
  url_host u := None;
  parse_user_agent ua := UserAgent.MkUserAgent ua None;
  EXTENSION_EXC_VALUES v := bool_decide (v = "conduitPage");
  EXTENSION_EXC_SOURCES v := false;
  WEB_CRAWLERS ua := bool_decide (ua = "Googlebot");
  ALLOWED_WEB_CRAWLERS ua := false;
|}.

Lemma exact_env_laws : @FilterEnvLaws exact_env.
Proof. constructor. done. Qed.

Definition sample_filters_config : FiltersConfig :=
  MkFiltersConfig (MkFilterConfig false) (MkClientIps ["10.0.0.1"]) (MkFilterConfig true)
    (MkCspConfig []) (MkErrorMessages (MkGlobPatterns ["boom"]))
    (MkLegacyBrowsers true [LegacyBrowser.Ie9]) (MkFilterConfig false)
    (MkReleases (MkGlobPatterns [])).

Lemma should_filter_additive_witness :
  exists r, run_filters (reverse (@filters exact_env empty_event (Some "10.0.0.1") sample_filters_config))
    = Ret r /\ r <> Ok ().
Proof.
  destruct (@should_filter_additive exact_env empty_event (Some "10.0.0.1") sample_filters_config
    (reverse (@filters exact_env empty_event (Some "10.0.0.1") sample_filters_config)))
    as (r & r' & Hr & Hr' & _ & Hiff & _).
  - apply reverse_Permutation.
  - exists r'. split; [exact Hr'|]. intros ->.
    destruct Hiff as [_ Hiff]. rewrite (Hiff eq_refl) in Hr. vm_compute in Hr. discriminate Hr.
Defined.

Lemma empty_config_filters_nothing_witness :
  @should_filter exact_env empty_event (Some "10.0.0.1")
    (MkFiltersConfig (MkFilterConfig false) (MkClientIps []) (MkFilterConfig false) (MkCspConfig [])
       (MkErrorMessages (MkGlobPatterns [])) (MkLegacyBrowsers false []) (MkFilterConfig false)
       (MkReleases (MkGlobPatterns []))) = Ret (Ok ()).
Proof. apply (@empty_config_filters_nothing exact_env). reflexivity. Defined.

Lemma csp_origin_patterns_witness :
  @csp_filter.matches_any_origin exact_env (Some "https://cdn.example.com:443/app.js")
    [@csp_filter.from exact_env "*.example.com"] = true.
Proof.
  exact (proj1 (proj2 (@csp_origin_patterns exact_env exact_env_laws "https" "cdn.example.com"
    "443" "app.js" "https" "example.com" "443" eq_refl eq_refl eq_refl eq_refl eq_refl eq_refl))).
Defined.
