(* ===== verification/Sampling.v ===== *)
(** * relay-sampling: dynamic sampling rules

    Conditions, rules and the decision of [TraceContext::should_keep].  Events
    and trace contexts provide field values through the class
    [FieldValueProvider], as they do through the trait of that name.  The
    unicase crate and the PCG generator are the operations of [SamplingEnv]. *)

From Stdlib Require Import Ascii String SpecFloat.
From S2P Require Import Prelude Strings Floats Types Common Protocol Filters.

Open Scope string_scope.
Open Scope Z_scope.
Open Scope list_scope.

Module RuleType.
Inductive RuleType := Trace | Transaction | Error.
#[global] Instance RuleType_eq_dec : EqDecision RuleType.
Proof. solve_decision. Defined.
End RuleType.
Notation RuleType := RuleType.RuleType.

Notation RuleId := Z (only parsing).

Inductive SamplingResult := Keep | Drop (rule : RuleId) | NoDecision.

#[global] Instance SamplingResult_eq_dec : EqDecision SamplingResult.
Proof. solve_decision. Defined.

(** [serde_json::Value]; a number is its text. *)
Module Json.
Inductive Value :=
| Null | Bool (b : bool) | Number (text : string) | String_ (s : string)
| Array (items : list Value) | Object (items : list (string * Value)).

Definition as_str (self : Value) : option string :=
  match self with String_ s => Some s | _ => None end.
Definition as_array (self : Value) : option (list Value) :=
  match self with Array items => Some items | _ => None end.
Definition is_null (self : Value) : bool := match self with Null => true | _ => false end.
End Json.

(** ** Conditions *)

Record EqCondition := MkEqCondition {
  eq_name : string;
  eq_value : Json.Value;
  ignore_case : bool;
}.

Record GlobCondition := MkGlobCondition { glob_name : string; glob_value : GlobPatterns }.

Record CustomCondition := MkCustomCondition {
  custom_name : string;
  custom_value : Json.Value;
  custom_options : list (string * Json.Value);
}.

(** The combinators [OrCondition], [AndCondition] and [NotCondition] are the
    fields of their constructors. *)
Inductive RuleCondition :=
| Eq (condition : EqCondition)
| Glob (condition : GlobCondition)
| Or (inner : list RuleCondition)
| And (inner : list RuleCondition)
| Not (inner : RuleCondition)
| Custom (condition : CustomCondition)
| Unsupported.

Record SamplingRule := MkSamplingRule {
  condition : RuleCondition;
  sample_rate : f64;
  rule_ty : RuleType;
  rule_id : RuleId;
}.

Record SamplingConfig := MkSamplingConfig {
  rules : list SamplingRule;
  next_id : option Z;
}.

Fixpoint supported (self : RuleCondition) : bool :=
  match self with
  | Unsupported => false
  | Eq _ | Glob _ => true
  | And inner | Or inner => forallb supported inner
  | Not inner => supported inner
  | Custom _ => true
  end.

Definition rule_supported (self : SamplingRule) : bool := supported (condition self).

Definition has_unsupported_rules (self : SamplingConfig) : bool :=
  negb (forallb rule_supported (rules self)).

(** ** The trait [FieldValueProvider] *)

Class FieldValueProvider (T : Type) := {
  get_value : T -> string -> Json.Value;
  get_rule_type : T -> RuleType;
  get_custom_operator : string -> CustomCondition -> T -> option IpAddr -> bool;
}.

Class SamplingEnv := {
  (** [unicase::eq] *)
  unicase_eq : string -> string -> bool;
  (** the first sample of [Uniform::new(0f64, 1f64)] from [Pcg32::new(state, stream)] *)
  pcg32_uniform : Z -> Z -> f64;
}.

(** The samples of the distribution are at least 0 and below 1. *)
Class SamplingEnvLaws `{SamplingEnv} : Prop := {
  uniform_nonneg state stream : f64_leb (f64_of_Z 0) (pcg32_uniform state stream) = true;
  uniform_below_one state stream : f64_ltb (pcg32_uniform state stream) (f64_of_Z 1) = true;
}.

Section Conditions.
Context `{FilterEnv, SamplingEnv}.
Context {T : Type} `{FieldValueProvider T}.

Definition eq_matches (self : EqCondition) (value_provider : T) : bool :=
  match get_value value_provider (eq_name self) with
  | Json.Null => Json.is_null (eq_value self)
  | Json.String_ field =>
      match eq_value self with
      | Json.String_ val =>
          if ignore_case self then unicase_eq field val else bool_decide (field = val)
      | Json.Array val =>
          if ignore_case self then
            existsb (fun v => match Json.as_str v with
                              | Some v => unicase_eq v field
                              | None => false
                              end) val
          else
            existsb (fun v => match Json.as_str v with
                              | Some v => bool_decide (v = field)
                              | None => false
                              end) val
      | _ => false
      end
  | Json.Bool field =>
      match eq_value self with Json.Bool val => eqb field val | _ => false end
  | _ => false
  end.

Definition glob_matches (self : GlobCondition) (value_provider : T) : bool :=
  match Json.as_str (get_value value_provider (glob_name self)) with
  | Some fv => globs_is_match (glob_value self) fv
  | None => false
  end.

Definition custom_matches (self : CustomCondition) (value_provider : T) (ip_addr : option IpAddr)
  : bool :=
  get_custom_operator (custom_name self) self value_provider ip_addr.

(** [matches_event] and [matches_trace]. *)
Fixpoint matches (self : RuleCondition) (value_provider : T) (ip_addr : option IpAddr) : bool :=
  match self with
  | Eq condition => eq_matches condition value_provider
  | Glob condition => glob_matches condition value_provider
  | And inner => forallb (fun cond => matches cond value_provider ip_addr) inner
  | Or inner => existsb (fun cond => matches cond value_provider ip_addr) inner
  | Not inner => negb (matches inner value_provider ip_addr)
  | Unsupported => false
  | Custom condition => custom_matches condition value_provider ip_addr
  end.

(** [get_matching_event_rule] and [get_matching_trace_rule]: [Iterator::find]. *)
Definition get_matching_rule (config : SamplingConfig) (value_provider : T)
    (ip_addr : option IpAddr) (ty : RuleType) : option SamplingRule :=
  find (fun rule => bool_decide (rule_ty rule = ty)
                    && matches (condition rule) value_provider ip_addr) (rules config).

End Conditions.

(** ** Trace contexts *)

Record TraceUserContext := MkTraceUser { trace_segment : string; trace_user_id : string }.

Record TraceContext := MkTraceContext {
  trace_id : Uuid;
  public_key : ProjectKey;
  trace_release : option string;
  trace_user : option TraceUserContext;
  trace_environment : option string;
}.

Definition opt_string (s : option string) : Json.Value :=
  match s with None => Json.Null | Some s => Json.String_ s end.

(** An empty string counts as missing. *)
Definition non_empty (s : string) : Json.Value :=
  if bool_decide (s = "") then Json.Null else Json.String_ s.

Definition no_match {T} (_condition : CustomCondition) (_slf : T) (_ip_addr : option IpAddr) : bool :=
  false.

Definition trace_get_value (self : TraceContext) (field_name : string) : Json.Value :=
  default Json.Null
    (match_str field_name
      [("trace.release", opt_string (trace_release self));
       ("trace.environment", opt_string (trace_environment self));
       ("trace.user.id",
         match trace_user self with Some user => non_empty (trace_user_id user) | None => Json.Null end);
       ("trace.user.segment",
         match trace_user self with Some user => non_empty (trace_segment user) | None => Json.Null end)]).

#[global] Instance trace_provider : FieldValueProvider TraceContext := {|
  get_value := trace_get_value;
  get_rule_type _ := RuleType.Trace;
  get_custom_operator _ := no_match;
|}.

(** ** Events *)

Section Events.
Context `{FilterEnv}.

Definition event_get_value (self : Event) (field_name : string) : Json.Value :=
  default Json.Null
    (match_str field_name
      [("event.release", opt_string (Annotated.value (release self)));
       ("event.environment", opt_string (Annotated.value (environment self)));
       ("event.user.id",
         match Annotated.value (user self) with
         | Some user => match Annotated.value (user_id user) with
                        | Some id => non_empty id
                        | None => Json.Null
                        end
         | None => Json.Null
         end);
       ("event.user.segment",
         match Annotated.value (user self) with
         | Some user => match Annotated.value (segment user) with
                        | Some segment => non_empty segment
                        | None => Json.Null
                        end
         | None => Json.Null
         end);
       ("event.is_local_ip", Json.Bool (localhost.matches self));
       ("event.has_bad_browser_extensions", Json.Bool (browser_extensions.matches self));
       ("event.web_crawlers", Json.Bool (web_crawlers.matches self))]).

Definition event_get_rule_type (self : Event) : RuleType :=
  if bool_decide (Annotated.value (event_ty self) = Some EventType.Transaction)
  then RuleType.Transaction else RuleType.Error.

Definition str_or_empty (s : Json.Value) : string := default "" (Json.as_str s).

Definition client_ips_matcher (condition : CustomCondition) (_event : Event)
    (ip_addr : option IpAddr) : bool :=
  match Json.as_array (custom_value condition) with
  | Some v => client_ips.matches ip_addr (str_or_empty <$> v)
  | None => false
  end.

(** The match never panics ([legacy_matches_total]). *)
Definition legacy_browsers_matcher (condition : CustomCondition) (event : Event)
    (_ip_addr : option IpAddr) : bool :=
  match Json.as_array (custom_value condition) with
  | Some v =>
      match legacy_browsers.matches event ((fun s => LegacyBrowser.from_str (str_or_empty s)) <$> v) with
      | Ret b => b
      | Panic => false
      end
  | None => false
  end.

Definition error_messages_matcher (condition : CustomCondition) (event : Event)
    (_ip_addr : option IpAddr) : bool :=
  match Json.as_array (custom_value condition) with
  | Some v => error_messages.matches event (MkGlobPatterns (str_or_empty <$> v))
  | None => false
  end.

Definition csp_matcher (condition : CustomCondition) (event : Event)
    (_ip_addr : option IpAddr) : bool :=
  match Json.as_array (custom_value condition) with
  | Some v => csp_filter.matches event (str_or_empty <$> v)
  | None => false
  end.

Definition event_get_custom_operator (name : string)
  : CustomCondition -> Event -> option IpAddr -> bool :=
  default no_match
    (match_str name
      [("event.client_ip", client_ips_matcher);
       ("event.legacy_browser", legacy_browsers_matcher);
       ("event.error_messages", error_messages_matcher);
       ("event.csp", csp_matcher)]).

#[global] Instance event_provider : FieldValueProvider Event := {|
  get_value := event_get_value;
  get_rule_type := event_get_rule_type;
  get_custom_operator := event_get_custom_operator;
|}.

Definition rule_type_for_event (event : Event) : RuleType :=
  match Annotated.value (event_ty event) with
  | Some EventType.Transaction => RuleType.Transaction
  | _ => RuleType.Error
  end.

End Events.

(** ** Decisions *)

Section Decisions.
Context `{FilterEnv, SamplingEnv}.

(** The upper half of the id is the state, the lower half the stream. *)
Definition pseudo_random_from_uuid (id : Uuid) : f64 :=
  let big_seed := id in
  pcg32_uniform (wrap 64 (Z.shiftr big_seed 64)) (wrap 64 big_seed).

Definition get_matching_event_rule (config : SamplingConfig) (event : Event)
    (ip_addr : option IpAddr) (ty : RuleType) : option SamplingRule :=
  get_matching_rule config event ip_addr ty.

Definition get_matching_trace_rule (config : SamplingConfig) (trace : TraceContext)
    (ip_addr : option IpAddr) (ty : RuleType) : option SamplingRule :=
  get_matching_rule config trace ip_addr ty.

Definition should_keep (self : TraceContext) (ip_addr : option IpAddr) (config : SamplingConfig)
  : SamplingResult :=
  match get_matching_trace_rule config self ip_addr RuleType.Trace with
  | Some rule =>
      let rate := pseudo_random_from_uuid (trace_id self) in
      if f64_ltb rate (sample_rate rule) then Keep else Drop (rule_id rule)
  | None => NoDecision
  end.

End Decisions.

(** ** Reference definitions *)

(** [Unsupported] occurs somewhere in the condition. *)
Fixpoint mentions_unsupported (c : RuleCondition) : Prop :=
  match c with
  | Unsupported => True
  | And inner | Or inner => fold_right (fun c P => mentions_unsupported c \/ P) False inner
  | Not inner => mentions_unsupported inner
  | Eq _ | Glob _ | Custom _ => False
  end.

(** [c'] is what [c] may have been before an older Relay read it: unknown
    conditions outside of negations stand for any condition. *)
Inductive refines : RuleCondition -> RuleCondition -> Prop :=
| refines_refl c : refines c c
| refines_unsupported c : refines Unsupported c
| refines_and l l' : Forall2 refines l l' -> refines (And l) (And l')
| refines_or l l' : Forall2 refines l l' -> refines (Or l) (Or l').

Section refines_induction.
Context (P : RuleCondition -> RuleCondition -> Prop).
Context (Hrefl : forall c, P c c) (Hun : forall c, P Unsupported c).
Context (Hand : forall l l', Forall2 P l l' -> P (And l) (And l')).
Context (Hor : forall l l', Forall2 P l l' -> P (Or l) (Or l')).

(** Induction with the hypothesis for the conditions of a combinator. *)
Fixpoint refines_nested_ind c c' (H : refines c c') : P c c' :=
  let all := fix all l l' (F : Forall2 refines l l') : Forall2 P l l' :=
    match F with
    | List.Forall2_nil _ => List.Forall2_nil P
    | @List.Forall2_cons _ _ _ x y _ _ h t =>
        @List.Forall2_cons _ _ P x y _ _ (refines_nested_ind x y h) (all _ _ t)
    end in
  match H with
  | refines_refl c => Hrefl c
  | refines_unsupported c => Hun c
  | refines_and l l' F => Hand l l' (all l l' F)
  | refines_or l l' F => Hor l l' (all l l' F)
  end.

End refines_induction.

Section condition_induction.
Context (P : RuleCondition -> Prop).
Context (HEq : forall c, P (Eq c)) (HGlob : forall c, P (Glob c)) (HCustom : forall c, P (Custom c)).
Context (HUn : P Unsupported) (HNot : forall c, P c -> P (Not c)).
Context (HAnd : forall l, Forall P l -> P (And l)) (HOr : forall l, Forall P l -> P (Or l)).

Fixpoint condition_nested_ind c : P c :=
  let all := fix all l : Forall P l :=
    match l with
    | [] => Forall_nil_2 P
    | c :: l => Forall_cons_2 P c l (condition_nested_ind c) (all l)
    end in
  match c with
  | Eq c => HEq c
  | Glob c => HGlob c
  | Or l => HOr l (all l)
  | And l => HAnd l (all l)
  | Not c => HNot c (condition_nested_ind c)
  | Custom c => HCustom c
  | Unsupported => HUn
  end.

End condition_induction.

(** ** Lemmas *)

Lemma supported_iff c : supported c = false <-> mentions_unsupported c.
Proof.
  assert (forall l, Forall (fun c => supported c = false <-> mentions_unsupported c) l ->
    (forallb supported l = false <-> fold_right (fun c P => mentions_unsupported c \/ P) False l)) as Hl.
  { induction 1 as [|c' l Hc Hl IH]; simpl; [done|]. by rewrite andb_false_iff, Hc, IH. }
  induction c using condition_nested_ind; simpl; auto; done.
Qed.

Lemma legacy_matches_total `{FilterEnv} event bs :
  exists b, legacy_browsers.matches event bs = Ret b.
Proof.
  unfold legacy_browsers.matches. destruct (get_user_agent event); [|by eexists].
  case_bool_decide; [by eexists|]. by apply any_browser_total.
Qed.

Lemma f64_not_below_zero r : f64_leb (f64_of_Z 0) r = true -> f64_ltb r (f64_of_Z 0) = false.
Proof. by destruct r as [[]|[]| |[] m e]. Qed.

(** ** Properties *)

(** A Relay that does not know some condition never applies a rule that a
    Relay knowing it would not apply, as long as the unknown part is not below a
    negation: replacing unsupported parts by any conditions keeps every match. *)
Theorem unsupported_matches_less `{FilterEnv, SamplingEnv} {T} `{FieldValueProvider T}
    c c' (value_provider : T) ip (Hrefines : refines c c')
    (Hmatch : matches c value_provider ip = true) :
  matches c' value_provider ip = true.
Proof.
  revert Hmatch. induction Hrefines using refines_nested_ind; simpl; try done.
  - intros Hall. induction H2; simpl in *; [done|].
    apply andb_true_iff in Hall as [Hx Hl]. apply andb_true_iff. auto.
  - intros Hany. induction H2; simpl in *; [done|].
    apply orb_true_iff in Hany as [Hx|Hl]; apply orb_true_iff; auto.
Qed.

(** [has_unsupported_rules] holds exactly when some rule of the
    configuration contains an unsupported condition at any depth; under a
    negation such a condition does match, which is why sampling is then disabled. *)
Theorem has_unsupported_rules_spec `{FilterEnv, SamplingEnv} {T} `{FieldValueProvider T}
    config (value_provider : T) ip :
  (has_unsupported_rules config = true <->
   exists rule, rule ∈ rules config /\ mentions_unsupported (condition rule)) /\
  matches (Not Unsupported) value_provider ip = true.
Proof.
  split; [|done]. unfold has_unsupported_rules, rule_supported. rewrite negb_true_iff.
  induction (rules config) as [|r rs IH]; simpl.
  - rewrite ex_elem_nil. done.
  - by rewrite andb_false_iff, ex_elem_cons, IH, supported_iff.
Qed.

(** The rules for traces whose condition matches, and the first of them. *)
Definition applies `{FilterEnv, SamplingEnv} (trace : TraceContext) (ip : option IpAddr) (rule : SamplingRule) : Prop :=
  rule_ty rule = RuleType.Trace /\ matches (condition rule) trace ip = true.
Definition first_applies `{FilterEnv, SamplingEnv} (trace : TraceContext) (ip : option IpAddr) (config : SamplingConfig) (rule : SamplingRule) : Prop :=
  exists pre post, rules config = pre ++ rule :: post /\ Forall (fun r => ~ applies trace ip r) pre /\ applies trace ip rule.

Lemma first_applies_unique `{FilterEnv, SamplingEnv} trace ip config r r' :
  first_applies trace ip config r -> first_applies trace ip config r' -> r = r'.
Proof.
  intros (pre & post & E & Hpre & Hr) (pre' & post' & E' & Hpre' & Hr'). rewrite E in E'. clear E. revert pre' E' Hpre'.
  induction Hpre as [|x pre Hx _ IH]; intros [|x' pre'] E' Hpre'; simplify_eq/=; try done;
    apply Forall_cons in Hpre' as [? Hpre']; [done|]. by eapply IH.
Qed.

Lemma get_matching_trace_rule_spec `{FilterEnv, SamplingEnv} trace ip config :
  match get_matching_trace_rule config trace ip RuleType.Trace with
  | Some rule => first_applies trace ip config rule
  | None => Forall (fun r => ~ applies trace ip r) (rules config)
  end.
Proof.
  unfold get_matching_trace_rule, get_matching_rule, first_applies, applies.
  induction (rules config) as [|r rs IH]; simpl; [constructor|].
  destruct (bool_decide (rule_ty r = RuleType.Trace) && matches (condition r) trace ip) eqn:E.
  - apply andb_true_iff in E as [Hty Hm]. apply bool_decide_eq_true in Hty. exists [], rs. by split_and!.
  - assert (~ (rule_ty r = RuleType.Trace /\ matches (condition r) trace ip = true)) as Hn.
    { intros [Hty Hm]. by rewrite Hm, bool_decide_true in E. }
    revert IH. destruct (List.find _ rs) as [rule|]; [|by constructor]. intros (pre & post & -> & Hpre & Hr).
    exists (r :: pre), post. split; [done|]. split; [by constructor|done].
Qed.


(** ** Concrete instances *)

(** A generator that always returns 0.5. *)
Definition half_env : SamplingEnv := {|
  unicase_eq s t := eq_ignore_ascii_case s t;
  pcg32_uniform _ _ := f64_div (f64_of_Z 1) (f64_of_Z 2);
|}.

Lemma half_env_laws : @SamplingEnvLaws half_env.
Proof. constructor; reflexivity. Qed.

Definition sample_trace_context : TraceContext :=
  MkTraceContext 12345 (ProjectKey.MkProjectKey "e12d836b15bb49d7bbf99e64295d995b") (Some "1.1.1")
    (Some (MkTraceUser "vip" "user-id")) (Some "debug").

Definition release_is (release : string) : RuleCondition :=
  Eq (MkEqCondition "trace.release" (Json.Array [Json.String_ release]) true).

Lemma unsupported_matches_less_witness :
  @matches exact_env half_env _ _ (Or [release_is "1.1.1"; release_is "9.9"]) sample_trace_context None = true.
Proof.
  apply (@unsupported_matches_less exact_env half_env _ _
    (Or [release_is "1.1.1"; Unsupported]) (Or [release_is "1.1.1"; release_is "9.9"])).
  - constructor. constructor; [constructor|]. constructor; [constructor|constructor].
  - reflexivity.
Defined.

(** The comment on [should_keep] promises no decision for an invalid configuration; it decides
    although some rule is not supported. *)
Lemma invalid_config_decides :
  let rule := MkSamplingRule (Not Unsupported) (f64_of_Z 0) RuleType.Trace 7 in
  has_unsupported_rules (MkSamplingConfig [rule] None) = true
  /\ @should_keep exact_env half_env sample_trace_context None (MkSamplingConfig [rule] None) = Drop 7.
Proof. split; reflexivity. Qed.

