(* ===== verification/Extractors.v ===== *)
(** * relay-server: request meta data (extractors/request_meta.rs, forwarded_for.rs)

    Extraction of authentication and client information from an HTTP request,
    and how it is combined with the headers of an envelope.  A request is the
    record of what the extractors read from it.  The crates sentry-types, url
    and the IP address parser are the operations of [RequestEnv]. *)

From Stdlib Require Import Ascii String.
From S2P Require Import Prelude Strings Floats Types Common Protocol Quota Filters.

Open Scope string_scope.
Open Scope Z_scope.
Open Scope list_scope.

(** ** DSNs *)

(** [Scheme] of sentry-types with its default ports. *)
Inductive Scheme := Http | Https.

#[global] Instance Scheme_eq_dec : EqDecision Scheme.
Proof. solve_decision. Defined.

Definition scheme_to_string (self : Scheme) : string :=
  match self with Http => "http" | Https => "https" end.
Definition default_port (self : Scheme) : Z := match self with Http => 80 | Https => 443 end.

(** [Dsn] of sentry-types: what its accessors return. *)
Module Dsn.
Record Dsn := MkDsn {
  scheme : Scheme;
  public_key : string;
  host : string;
  port : Z;
  path : string;
  project_id : ProjectId;
}.
End Dsn.
Notation Dsn := Dsn.Dsn.

Inductive ParseDsnError := NoUsername | InvalidProjectId | OtherDsnError.

Module PartialDsn.

Record PartialDsn := MkPartialDsn {
  scheme : Scheme;
  public_key : ProjectKey;
  host : string;
  port : Z;
  path : string;
  project_id : option ProjectId;
}.

#[global] Instance PartialDsn_eq_dec : EqDecision PartialDsn.
Proof. solve_decision. Defined.

Definition from_dsn (dsn : Dsn) : result ParseDsnError PartialDsn :=
  if bool_decide (Dsn.project_id dsn = 0) then Err InvalidProjectId
  else
    match ProjectKey.parse (Dsn.public_key dsn) with
    | Err _ => Err NoUsername
    | Ok public_key =>
        Ok {| scheme := Dsn.scheme dsn;
              public_key := public_key;
              host := Dsn.host dsn;
              port := Dsn.port dsn;
              path := Dsn.path dsn;
              project_id := Some (Dsn.project_id dsn) |}
    end.

(** [trim_start_matches('/')]. *)
Fixpoint trim_start_slash (s : string) : string :=
  match s with
  | String "/" s' => trim_start_slash s'
  | _ => s
  end.

Definition to_string (self : PartialDsn) : string :=
  scheme_to_string (scheme self) +:+ "://" +:+ ProjectKey.as_str (public_key self) +:+ ":@" +:+ host self
  +:+ (if bool_decide (port self <> default_port (scheme self))
       then ":" +:+ u64_to_string (port self) else "")
  +:+ "/" +:+ trim_start_slash (path self) +:+ u64_to_string (default 0 (project_id self)).

End PartialDsn.
Notation PartialDsn := PartialDsn.PartialDsn.

(** ** Request meta data *)

(** [sentry_types::protocol::LATEST] is a [u16] of that crate. *)
Record Auth := MkAuth {
  auth_public_key : string;
  auth_version : Z;
  auth_client_agent : option string;
}.

Inductive ParseAuthError := MkParseAuthError (kind : string).

Class RequestEnv := {
  PROTOCOL_VERSION : Z;
  (** [Auth::from_str], [Auth::from_querystring], [Auth::from_pairs] on one pair *)
  parse_auth : string -> result ParseAuthError Auth;
  auth_from_querystring : string -> result ParseAuthError Auth;
  auth_from_pair : string -> string -> result ParseAuthError Auth;
  (** [ProjectId::from_str] *)
  parse_project_id : string -> option ProjectId;
  (** [Url::from_str] and [Url::scheme], a URL being its serialization *)
  parse_url : string -> option string;
  url_scheme : string -> string;
  (** [IpAddr::from_str], an address being its text *)
  parse_ip : string -> option IpAddr;
}.

(** [CLIENT] and [SERVER] are generated by the build script. *)
Class BuildConstants := { CLIENT : string; SERVER : string }.

Module RequestMeta.

Record RequestMeta (D : Type) := MkRequestMeta {
  dsn : D;
  client : option string;
  version : Z;
  origin : option string;
  remote_addr : option IpAddr;
  forwarded_for : string;
  user_agent : option string;
  no_cache : bool;
  start_time : Instant;
}.
Arguments MkRequestMeta {D}.
Arguments dsn {D} _.
Arguments client {D} _.
Arguments version {D} _.
Arguments origin {D} _.
Arguments remote_addr {D} _.
Arguments forwarded_for {D} _.
Arguments user_agent {D} _.
Arguments no_cache {D} _.
Arguments start_time {D} _.

End RequestMeta.
Import RequestMeta (MkRequestMeta).
Notation RequestMeta := (RequestMeta.RequestMeta PartialDsn).
Notation PartialMeta := (RequestMeta.RequestMeta (option PartialDsn)).

Section RequestMeta.
Context `{RequestEnv, BuildConstants}.

Definition default_version : Z := PROTOCOL_VERSION.

Definition client_addr {D} (self : RequestMeta.RequestMeta D) : option IpAddr :=
  client ← head (split_on "," (RequestMeta.forwarded_for self));
  parse_ip (trim client).

(** [now] is the value of [Instant::now()]. *)
Definition outbound (now : Instant) (dsn : PartialDsn) : RequestMeta :=
  {| RequestMeta.dsn := dsn;
     RequestMeta.client := Some CLIENT;
     RequestMeta.version := default_version;
     RequestMeta.origin := None;
     RequestMeta.remote_addr := None;
     RequestMeta.forwarded_for := "";
     RequestMeta.user_agent := Some SERVER;
     RequestMeta.no_cache := false;
     RequestMeta.start_time := now |}.

Definition meta_project_id (self : RequestMeta) : option ProjectId :=
  PartialDsn.project_id (RequestMeta.dsn self).

Definition set_project_id (self : RequestMeta) (project_id : ProjectId) : RequestMeta :=
  let d := RequestMeta.dsn self in
  {| RequestMeta.dsn :=
       {| PartialDsn.scheme := PartialDsn.scheme d;
          PartialDsn.public_key := PartialDsn.public_key d;
          PartialDsn.host := PartialDsn.host d;
          PartialDsn.port := PartialDsn.port d;
          PartialDsn.path := PartialDsn.path d;
          PartialDsn.project_id := Some project_id |};
     RequestMeta.client := RequestMeta.client self;
     RequestMeta.version := RequestMeta.version self;
     RequestMeta.origin := RequestMeta.origin self;
     RequestMeta.remote_addr := RequestMeta.remote_addr self;
     RequestMeta.forwarded_for := RequestMeta.forwarded_for self;
     RequestMeta.user_agent := RequestMeta.user_agent self;
     RequestMeta.no_cache := RequestMeta.no_cache self;
     RequestMeta.start_time := RequestMeta.start_time self |}.

Definition meta_public_key (self : RequestMeta) : ProjectKey :=
  PartialDsn.public_key (RequestMeta.dsn self).

Definition auth_header (self : RequestMeta) : string :=
  let auth := "Sentry sentry_key=" +:+ ProjectKey.as_str (meta_public_key self)
              +:+ ", sentry_version=" +:+ u64_to_string (RequestMeta.version self) in
  match RequestMeta.client self with
  | Some client => auth +:+ ", sentry_client=" +:+ client
  | None => auth
  end.

Definition get_partial_scoping (self : RequestMeta) : Scoping :=
  {| organization_id := 0;
     project_id := default 0 (meta_project_id self);
     project_key := meta_public_key self;
     key_id := None |}.

(** The DSN of the complete meta data stays. *)
Definition copy_to (self : PartialMeta) (complete : RequestMeta) : RequestMeta :=
  {| RequestMeta.dsn := RequestMeta.dsn complete;
     RequestMeta.client :=
       if bool_decide (is_Some (RequestMeta.client self)) then RequestMeta.client self
       else RequestMeta.client complete;
     RequestMeta.version :=
       if bool_decide (RequestMeta.version self <> default_version) then RequestMeta.version self
       else RequestMeta.version complete;
     RequestMeta.origin :=
       if bool_decide (is_Some (RequestMeta.origin self)) then RequestMeta.origin self
       else RequestMeta.origin complete;
     RequestMeta.remote_addr :=
       if bool_decide (is_Some (RequestMeta.remote_addr self)) then RequestMeta.remote_addr self
       else RequestMeta.remote_addr complete;
     RequestMeta.forwarded_for :=
       if negb (bool_decide (RequestMeta.forwarded_for self = "")) then RequestMeta.forwarded_for self
       else RequestMeta.forwarded_for complete;
     RequestMeta.user_agent :=
       if bool_decide (is_Some (RequestMeta.user_agent self)) then RequestMeta.user_agent self
       else RequestMeta.user_agent complete;
     RequestMeta.no_cache := if RequestMeta.no_cache self then true else RequestMeta.no_cache complete;
     RequestMeta.start_time := RequestMeta.start_time complete |}.

End RequestMeta.

(** ** Extraction from a request *)

(** What the extractors read from [HttpRequest]: [header name] is the value of
    a header that is present and visible ASCII, [path_param] a segment of the
    matched route, [start] the time the middleware stored. *)
Record HttpRequest := MkHttpRequest {
  header : string -> option string;
  query_string : string;
  path_param : string -> option string;
  peer_addr : option IpAddr;
  request_start : Instant;
}.

(** The upstream address of the configuration. *)
Record UpstreamDescriptor := MkUpstream {
  up_scheme : Scheme;
  up_host : string;
  up_port : Z;
}.

Module BadEventMeta.
Inductive BadEventMeta :=
| MissingAuth | MultipleAuth | BadEnvelopeAuth (error : string)
| BadProject | BadAuth (error : ParseAuthError) | BadPublicKey.

(** The status of the response. *)
Definition status (self : BadEventMeta) : Z :=
  match self with
  | MissingAuth | MultipleAuth | BadAuth _ | BadEnvelopeAuth _ => 401
  | BadProject | BadPublicKey => 400
  end.
End BadEventMeta.
Notation BadEventMeta := BadEventMeta.BadEventMeta.

Definition ForwardedFor_from (request : HttpRequest) : string :=
  let peer_addr := default "" (peer_addr request) in
  let forwarded := default "" (header request "X-Forwarded-For") in
  if bool_decide (forwarded = "") then peer_addr
  else if bool_decide (peer_addr = "") then forwarded
  else forwarded +:+ ", " +:+ peer_addr.

Section FromRequest.
Context `{RequestEnv}.

Definition get_auth_header (req : HttpRequest) (header_name : string) : option string :=
  h ← header req header_name;
  if bool_decide (7 <= String.length h)%nat && eq_ignore_ascii_case (substring 0 7 h) "sentry "
  then Some h else None.

Definition map_auth_err {A} (r : result ParseAuthError A) : result BadEventMeta A :=
  match r with Ok a => Ok a | Err e => Err (BadEventMeta.BadAuth e) end.

(** The step shared by the sources after the first: a second source is an error. *)
Definition next_source (auth : option Auth) (parsed : result BadEventMeta Auth)
  : result BadEventMeta (option Auth) :=
  match auth with
  | Some _ => Err BadEventMeta.MultipleAuth
  | None => a ← parsed; Ok (Some a)
  end.

Definition auth_from_request (req : HttpRequest) : result BadEventMeta Auth :=
  auth ← match get_auth_header req "x-sentry-auth" with
         | Some header => a ← map_auth_err (parse_auth header); Ok (Some a)
         | None => Ok None
         end;
  auth ← match get_auth_header req "authorization" with
         | Some header => next_source auth (map_auth_err (parse_auth header))
         | None => Ok auth
         end;
  auth ← (if str_contains "sentry_" (query_string req)
          then next_source auth (map_auth_err (auth_from_querystring (query_string req)))
          else Ok auth);
  auth ← match path_param req "sentry_key" with
         | Some sentry_key =>
             next_source auth
               match auth_from_pair "sentry_key" sentry_key with
               | Ok a => Ok a
               | Err _ => Err BadEventMeta.MissingAuth
               end
         | None => Ok auth
         end;
  ok_or auth BadEventMeta.MissingAuth.

Definition parse_header_url (req : HttpRequest) (name : string) : option string :=
  s ← header req name;
  u ← parse_url s;
  if bool_decide (url_scheme u = "http") || bool_decide (url_scheme u = "https") then Some u else None.

Definition from_headers (request : HttpRequest) : PartialMeta :=
  {| RequestMeta.dsn := None;
     RequestMeta.client := None;
     RequestMeta.version := default_version;
     RequestMeta.origin :=
       match parse_header_url request "origin" with
       | Some u => Some u
       | None => parse_header_url request "referer"
       end;
     RequestMeta.remote_addr := peer_addr request;
     RequestMeta.forwarded_for := ForwardedFor_from request;
     RequestMeta.user_agent := header request "user-agent";
     RequestMeta.no_cache := false;
     RequestMeta.start_time := request_start request |}.

Definition from_request (upstream : UpstreamDescriptor) (request : HttpRequest)
  : result BadEventMeta RequestMeta :=
  auth ← auth_from_request request;
  let partial_meta := from_headers request in
  project_id ← match path_param request "project" with
               | Some s => match parse_project_id s with
                           | Some id => Ok (Some id)
                           | None => Err BadEventMeta.BadProject
                           end
               | None => Ok None
               end;
  '(public_key, key_flags) ← match ProjectKey.parse_with_flags (auth_public_key auth) with
                             | Ok p => Ok p
                             | Err _ => Err BadEventMeta.BadPublicKey
                             end;
  Ok {| RequestMeta.dsn :=
          {| PartialDsn.scheme := up_scheme upstream;
             PartialDsn.public_key := public_key;
             PartialDsn.host := up_host upstream;
             PartialDsn.port := up_port upstream;
             PartialDsn.path := "";
             PartialDsn.project_id := project_id |};
        RequestMeta.client := auth_client_agent auth;
        RequestMeta.version := auth_version auth;
        RequestMeta.origin := RequestMeta.origin partial_meta;
        RequestMeta.remote_addr := RequestMeta.remote_addr partial_meta;
        RequestMeta.forwarded_for := RequestMeta.forwarded_for partial_meta;
        RequestMeta.user_agent := RequestMeta.user_agent partial_meta;
        RequestMeta.no_cache := bool_decide ("no-cache" ∈ key_flags);
        RequestMeta.start_time := RequestMeta.start_time partial_meta |}.

(** [EnvelopeMeta::from_request].  [peeked] is the first line of the body if
    [PeekLine] found one within [MAX_HEADER_SIZE], [from_slice] is
    [serde_json::from_slice]. *)
Definition MAX_HEADER_SIZE : Z := 2048.

Definition envelope_from_request (from_slice : string -> result string RequestMeta)
    (upstream : UpstreamDescriptor) (peeked : option string) (request : HttpRequest)
  : result BadEventMeta RequestMeta :=
  match from_request upstream request with
  | Err BadEventMeta.MissingAuth =>
      let partial_meta := from_headers request in
      match peeked with
      | Some json =>
          match from_slice json with
          | Ok request_meta => Ok (copy_to partial_meta request_meta)
          | Err e => Err (BadEventMeta.BadEnvelopeAuth e)
          end
      | None => Err BadEventMeta.MissingAuth
      end
  | result => result
  end.

End FromRequest.

(** ** Properties *)

Section Sources.
Context `{RequestEnv}.

(** The authentication payloads a request carries, in the order they are read. *)
Definition auth_sources (req : HttpRequest) : list (result BadEventMeta Auth) :=
  omap id
    [(fun h => map_auth_err (parse_auth h)) <$> get_auth_header req "x-sentry-auth";
     (fun h => map_auth_err (parse_auth h)) <$> get_auth_header req "authorization";
     (if str_contains "sentry_" (query_string req)
      then Some (map_auth_err (auth_from_querystring (query_string req))) else None);
     (fun key => match auth_from_pair "sentry_key" key with
                 | Ok a => Ok a
                 | Err _ => Err BadEventMeta.MissingAuth
                 end) <$> path_param req "sentry_key"].

End Sources.

(** A request authenticates through exactly one of the two headers, the
    query string and the path: without any it is refused as missing, the error
    of a malformed first payload is reported, and a second payload after a valid
    one is refused whatever it holds. *)
Theorem auth_single_source `{RequestEnv} req :
  auth_from_request req =
  match auth_sources req with
  | [] => Err BadEventMeta.MissingAuth
  | [source] => source
  | Ok _ :: _ => Err BadEventMeta.MultipleAuth
  | Err e :: _ => Err e
  end.
Proof.
  unfold auth_from_request, auth_sources, next_source.
  destruct (get_auth_header req "x-sentry-auth") as [h1|]; simpl;
    [destruct (map_auth_err (parse_auth h1)); simpl|];
    (destruct (get_auth_header req "authorization") as [h2|]; simpl;
      [destruct (map_auth_err (parse_auth h2)); simpl|]);
    (destruct (str_contains "sentry_" (query_string req)); simpl;
      [destruct (map_auth_err (auth_from_querystring (query_string req))); simpl|]);
    (destruct (path_param req "sentry_key") as [k|]; simpl;
      [destruct (auth_from_pair "sentry_key" k); simpl|]); done.
Qed.
