(* ===== verification/Envelopes.v ===== *)
(** * relay-server: envelopes (envelope.rs)

    Envelopes are headers and a list of items; the wire format puts each header
    on a line of JSON and delimits payloads by length or by newline.  Buffers are
    byte strings.  serde_json is the class [JsonCodec]: one instance per header
    type, with the text it writes and the value it reads from the front of a
    buffer together with the offset where it stopped. *)

From Stdlib Require Import Ascii String.
From S2P Require Import Prelude Strings Floats Types Common Protocol Quota Filters Sampling Extractors.

Open Scope string_scope.
Open Scope Z_scope.
Open Scope list_scope.

Definition CONTENT_TYPE : string := "application/x-sentry-envelope".
Definition DEFAULT_EVENT_RETENTION : Z := 90.

Definition newline : ascii := "010"%char.
Definition nl : string := String newline "".

(** ** Errors *)

Module EnvelopeError.
Inductive EnvelopeError :=
| UnexpectedEof | MissingHeader | MissingNewline
| InvalidHeader (error : JsonError)
| HeaderMismatch (name : string)
| InvalidItemHeader (error : JsonError)
| HeaderIoFailed (error : option JsonError)
| PayloadIoFailed.
End EnvelopeError.
Notation EnvelopeError := EnvelopeError.EnvelopeError.

(** ** Item types *)

Module ItemType.

Inductive ItemType :=
| Event | Transaction | Security | Attachment | FormData | RawSecurity | UnrealReport
| UserReport | Session | Sessions | Metrics | MetricBuckets.

#[global] Instance ItemType_eq_dec : EqDecision ItemType.
Proof. solve_decision. Defined.

Definition from_event_type (event_type : EventType) : ItemType :=
  match event_type with
  | EventType.Default | EventType.Error => Event
  | EventType.Transaction => Transaction
  | EventType.Csp | EventType.Hpkp | EventType.ExpectCt | EventType.ExpectStaple => Security
  end.

Definition to_string (self : ItemType) : string :=
  match self with
  | Event => "event"
  | Transaction => "transaction"
  | Security => "security report"
  | Attachment => "attachment"
  | FormData => "form data"
  | RawSecurity => "raw security report"
  | UnrealReport => "unreal report"
  | UserReport => "user feedback"
  | Session => "session"
  | Sessions => "aggregated sessions"
  | Metrics => "metrics"
  | MetricBuckets => "metric buckets"
  end.

End ItemType.
Notation ItemType := ItemType.ItemType.

(** ** Content types *)

Module ContentType.

Inductive ContentType :=
| Text | Json | MsgPack | OctetStream | Minidump | Xml | Envelope | Other (s : string).

#[global] Instance ContentType_eq_dec : EqDecision ContentType.
Proof. solve_decision. Defined.

Definition as_str (self : ContentType) : string :=
  match self with
  | Text => "text/plain"
  | Json => "application/json"
  | MsgPack => "application/x-msgpack"
  | OctetStream => "application/octet-stream"
  | Minidump => "application/x-dmp"
  | Xml => "text/xml"
  | Envelope => CONTENT_TYPE
  | Other other => other
  end.

Definition from_str (ct : string) : option ContentType :=
  if eq_ignore_ascii_case ct (as_str Text) then Some Text
  else if eq_ignore_ascii_case ct (as_str Json) then Some Json
  else if eq_ignore_ascii_case ct (as_str MsgPack) then Some MsgPack
  else if eq_ignore_ascii_case ct (as_str OctetStream) then Some OctetStream
  else if eq_ignore_ascii_case ct (as_str Minidump) then Some Minidump
  else if eq_ignore_ascii_case ct (as_str Xml) || eq_ignore_ascii_case ct "application/xml" then Some Xml
  else if eq_ignore_ascii_case ct (as_str Envelope) then Some Envelope
  else None.

(** [From<String>] and [From<&str>]. *)
Definition from (content_type : string) : ContentType :=
  match from_str content_type with
  | Some ct => ct
  | None => Other (to_ascii_lowercase content_type)
  end.

(** [PartialEq<str>]. *)
Definition eq_str (self : ContentType) (other : string) : bool :=
  match from_str other with
  | Some ct => bool_decide (ct = self)
  | None => eq_ignore_ascii_case other (as_str self)
  end.

End ContentType.
Notation ContentType := ContentType.ContentType.

Module AttachmentType.
Inductive AttachmentType :=
| Attachment | Minidump | AppleCrashReport | EventPayload | Breadcrumbs | UnrealContext | UnrealLogs.

#[global] Instance AttachmentType_eq_dec : EqDecision AttachmentType.
Proof. solve_decision. Defined.

Definition default_ : AttachmentType := Attachment.
End AttachmentType.
Notation AttachmentType := AttachmentType.AttachmentType.

(** ** Items *)

Module Item.

Record ItemHeaders := MkItemHeaders {
  ty : ItemType;
  length : option Z;
  attachment_type : option AttachmentType;
  content_type : option ContentType;
  filename : option string;
  rate_limited : bool;
  sample_rates : option Value;
  timestamp : option UnixTimestamp;
  other : gmap string Value;
}.

Record Item := MkItem { headers : ItemHeaders; payload : string }.

Definition new (ty : ItemType) : Item :=
  {| headers := {| ty := ty;
                   length := Some 0;
                   attachment_type := None;
                   content_type := None;
                   filename := None;
                   rate_limited := false;
                   sample_rates := None;
                   timestamp := None;
                   other := ∅ |};
     payload := "" |}.

Definition len (self : Item) : Z := Z.of_nat (String.length (payload self)).
Definition is_empty (self : Item) : bool := bool_decide (payload self = "").

Definition set_attachment_type (self : Item) (attachment_type : AttachmentType) : Item :=
  let h := headers self in
  {| headers := {| ty := ty h; length := length h; attachment_type := Some attachment_type;
                   content_type := content_type h; filename := filename h;
                   rate_limited := rate_limited h; sample_rates := sample_rates h;
                   timestamp := timestamp h; other := other h |};
     payload := payload self |}.

(** The payload is truncated to what fits the [u32] length header. *)
Definition set_payload (self : Item) (content_type : ContentType) (payload : string) : Item :=
  let h := headers self in
  let length := Z.min u32_max (Z.of_nat (String.length payload)) in
  let payload := substring 0 (Z.to_nat length) payload in
  {| headers := {| ty := ty h; length := Some (wrap 32 length); attachment_type := attachment_type h;
                   content_type := Some content_type; filename := filename h;
                   rate_limited := rate_limited h; sample_rates := sample_rates h;
                   timestamp := timestamp h; other := other h |};
     payload := payload |}.

Definition set_filename (self : Item) (filename : string) : Item :=
  let h := headers self in
  {| headers := {| ty := ty h; length := length h; attachment_type := attachment_type h;
                   content_type := content_type h; filename := Some filename;
                   rate_limited := rate_limited h; sample_rates := sample_rates h;
                   timestamp := timestamp h; other := other h |};
     payload := payload self |}.

Definition set_rate_limited (self : Item) (rate_limited : bool) : Item :=
  let h := headers self in
  {| headers := {| ty := ty h; length := length h; attachment_type := attachment_type h;
                   content_type := content_type h; filename := filename h;
                   rate_limited := rate_limited; sample_rates := sample_rates h;
                   timestamp := timestamp h; other := other h |};
     payload := payload self |}.

Definition with_sample_rates (self : Item) (rates : option Value) : Item :=
  let h := headers self in
  {| headers := {| ty := ty h; length := length h; attachment_type := attachment_type h;
                   content_type := content_type h; filename := filename h;
                   rate_limited := rate_limited h; sample_rates := rates;
                   timestamp := timestamp h; other := other h |};
     payload := payload self |}.

Definition take_sample_rates (self : Item) : option Value * Item :=
  (sample_rates (headers self), with_sample_rates self None).

Definition set_sample_rates (self : Item) (sample_rates : Value) : Item :=
  match sample_rates with
  | Array (_ :: _) => with_sample_rates self (Some sample_rates)
  | _ => self
  end.

Definition get_header (self : Item) (name : string) : option Value := other (headers self) !! name.

Definition set_header (self : Item) (name : string) (value : Value) : option Value * Item :=
  let h := headers self in
  (other h !! name,
   {| headers := {| ty := ty h; length := length h; attachment_type := attachment_type h;
                    content_type := content_type h; filename := filename h;
                    rate_limited := rate_limited h; sample_rates := sample_rates h;
                    timestamp := timestamp h; other := <[name := value]> (other h) |};
      payload := payload self |}).

Definition creates_event (self : Item) : bool :=
  match ty (headers self) with
  | ItemType.Event | ItemType.Transaction | ItemType.Security | ItemType.RawSecurity
  | ItemType.UnrealReport => true
  | ItemType.Attachment =>
      match default AttachmentType.default_ (attachment_type (headers self)) with
      | AttachmentType.AppleCrashReport | AttachmentType.Minidump | AttachmentType.EventPayload
      | AttachmentType.Breadcrumbs => true
      | AttachmentType.Attachment | AttachmentType.UnrealContext | AttachmentType.UnrealLogs => false
      end
  | ItemType.FormData => false
  | ItemType.UserReport | ItemType.Session | ItemType.Sessions | ItemType.Metrics
  | ItemType.MetricBuckets => false
  end.

Definition requires_event (self : Item) : bool :=
  match ty (headers self) with
  | ItemType.Event => true
  | ItemType.Transaction => true
  | ItemType.Security => true
  | ItemType.Attachment => true
  | ItemType.FormData => true
  | ItemType.RawSecurity => true
  | ItemType.UnrealReport => true
  | ItemType.UserReport => true
  | ItemType.Session => false
  | ItemType.Sessions => false
  | ItemType.Metrics => false
  | ItemType.MetricBuckets => false
  end.

End Item.
Notation Item := Item.Item.
Notation ItemHeaders := Item.ItemHeaders.

(** ** Headers *)

(** utils/error_boundary.rs; the error is its message. *)
Inductive ErrorBoundary (T : Type) := BoundaryErr (message : string) | BoundaryOk (t : T).
Arguments BoundaryErr {T} message.
Arguments BoundaryOk {T} t.

Module EnvelopeHeaders.
Record EnvelopeHeaders (M : Type) := MkEnvelopeHeaders {
  event_id : option EventId;
  meta : M;
  retention : option Z;
  sent_at : option DateTime;
  trace : option (ErrorBoundary TraceContext);
  other : gmap string Value;
}.
Arguments MkEnvelopeHeaders {M}.
Arguments event_id {M} _.
Arguments meta {M} _.
Arguments retention {M} _.
Arguments sent_at {M} _.
Arguments trace {M} _.
Arguments other {M} _.

Section complete.
Context `{RequestEnv}.

Definition complete (self : EnvelopeHeaders PartialMeta) (request_meta : RequestMeta)
  : result EnvelopeError (EnvelopeHeaders RequestMeta) :=
  let meta := meta self in
  if bool_decide (is_Some (RequestMeta.origin meta))
     && bool_decide (RequestMeta.origin meta <> RequestMeta.origin request_meta)
  then Err (EnvelopeError.HeaderMismatch "origin")
  else
    _ ← match RequestMeta.dsn meta with
        | Some dsn =>
            if bool_decide (PartialDsn.project_id dsn <> PartialDsn.project_id (RequestMeta.dsn request_meta))
            then Err (EnvelopeError.HeaderMismatch "project id")
            else if bool_decide (PartialDsn.public_key dsn <> PartialDsn.public_key (RequestMeta.dsn request_meta))
            then Err (EnvelopeError.HeaderMismatch "public key")
            else Ok ()
        | None => Ok ()
        end;
    Ok {| event_id := event_id self;
          meta := copy_to meta request_meta;
          retention := retention self;
          sent_at := sent_at self;
          trace := trace self;
          other := other self |}.

End complete.
End EnvelopeHeaders.
Notation EnvelopeHeaders := EnvelopeHeaders.EnvelopeHeaders.

(** ** serde_json *)

Class JsonCodec (H : Type) := {
  (** [serde_json::to_writer]: the text, or why the value cannot be written *)
  to_json : H -> result JsonError string;
  (** the first value of [Deserializer::from_slice(..).into_iter()] with the
      [byte_offset] after it; [None] when only whitespace is left *)
  next_json : string -> option (result JsonError (H * nat));
}.

(** A value that was read took at least one byte of the buffer. *)
Class JsonLaws (H : Type) `{JsonCodec H} : Prop := {
  next_json_bounds s h n :
    next_json s = Some (Ok (h, n)) -> (1 <= n <= String.length s)%nat;
}.

(** ** Envelopes *)

(** [Bytes::slice] panics when the range is not within the buffer. *)
Definition bytes_slice (s : string) (from to : nat) : outcome string :=
  if bool_decide (from <= to <= String.length s)%nat then Ret (substring from (to - from) s) else Panic.

(** The first newline of [bytes[from..]], relative to [from]; panics when
    [from] lies behind the end. *)
Definition newline_from (s : string) (from : nat) : outcome (option nat) :=
  if bool_decide (from <= String.length s)%nat then Ret (str_find nl (str_from from s)) else Panic.

Module Envelope.

Record Envelope := MkEnvelope { headers : EnvelopeHeaders RequestMeta; items : list Item }.

Definition from_request (event_id : option EventId) (meta : RequestMeta) : Envelope :=
  {| headers := {| EnvelopeHeaders.event_id := event_id;
                   EnvelopeHeaders.meta := meta;
                   EnvelopeHeaders.retention := None;
                   EnvelopeHeaders.sent_at := None;
                   EnvelopeHeaders.trace := None;
                   EnvelopeHeaders.other := ∅ |};
     items := [] |}.

(** *** Reading *)

Definition require_termination (slice : string) (offset : nat) : result EnvelopeError () :=
  match String.get offset slice with
  | Some c => if bool_decide (c = newline) then Ok () else Err EnvelopeError.MissingNewline
  | None => Ok ()
  end.

Definition parse_headers {M} `{JsonCodec (EnvelopeHeaders M)} (slice : string)
  : result EnvelopeError (EnvelopeHeaders M * nat) :=
  match next_json slice with
  | None => Err EnvelopeError.MissingHeader
  | Some (Err error) => Err (EnvelopeError.InvalidHeader error)
  | Some (Ok (headers, byte_offset)) =>
      _ ← require_termination slice byte_offset;
      Ok (headers, (byte_offset + 1)%nat)
  end.

Section Parse.
Context `{JsonCodec ItemHeaders}.

(** The end of the payload: by length, or at the next newline. *)
Definition payload_end_of (bytes : string) (headers : ItemHeaders) (payload_start : nat)
  : outcome (result EnvelopeError nat) :=
  match Item.length headers with
  | Some len =>
      if bool_decide (Z.of_nat (String.length bytes) < Z.of_nat payload_start + len)
      then Ret (Err EnvelopeError.UnexpectedEof)
      else
        let payload_end := (payload_start + Z.to_nat len)%nat in
        Ret (_ ← require_termination bytes payload_end; Ok payload_end)
  | None =>
      relative_end ← newline_from bytes payload_start;
      Ret (Ok match relative_end with
              | Some relative_end => (payload_start + relative_end)%nat
              | None => String.length bytes
              end)
  end.

Definition parse_item (bytes : string) : outcome (result EnvelopeError (Item * nat)) :=
  match next_json bytes with
  | None => Ret (Err EnvelopeError.UnexpectedEof)
  | Some (Err error) => Ret (Err (EnvelopeError.InvalidItemHeader error))
  | Some (Ok (headers, headers_end)) =>
      match require_termination bytes headers_end with
      | Err e => Ret (Err e)
      | Ok _ =>
          let payload_start := Nat.min (headers_end + 1) (String.length bytes) in
          r ← payload_end_of bytes headers payload_start;
          match r with
          | Err e => Ret (Err e)
          | Ok payload_end =>
              payload ← bytes_slice bytes payload_start payload_end;
              Ret (Ok ({| Item.headers := headers; Item.payload := payload |}, (payload_end + 1)%nat))
          end
      end
  end.

(** The loop of [parse_items]; running out of [fuel] counts as a panic. *)
Fixpoint parse_items_loop (fuel : nat) (bytes : string) (offset : nat) (items : list Item)
  : outcome (result EnvelopeError (list Item)) :=
  match fuel with
  | O => Panic
  | S fuel =>
      if bool_decide (offset < String.length bytes)%nat then
        r ← parse_item (str_from offset bytes);
        match r with
        | Err e => Ret (Err e)
        | Ok (item, item_size) => parse_items_loop fuel bytes (offset + item_size) (items ++ [item])
        end
      else Ret (Ok items)
  end.

(** Every item takes at least one byte. *)
Definition parse_items (bytes : string) (offset : nat) : outcome (result EnvelopeError (list Item)) :=
  parse_items_loop (S (String.length bytes)) bytes offset [].

Definition parse_bytes `{JsonCodec (EnvelopeHeaders RequestMeta)} (bytes : string)
  : outcome (result EnvelopeError Envelope) :=
  match parse_headers bytes with
  | Err e => Ret (Err e)
  | Ok (headers, offset) =>
      r ← parse_items bytes offset;
      Ret (items ← r; Ok {| headers := headers; items := items |})
  end.

Definition set_event_id (h : EnvelopeHeaders RequestMeta) (id : option EventId)
  : EnvelopeHeaders RequestMeta :=
  {| EnvelopeHeaders.event_id := id;
     EnvelopeHeaders.meta := EnvelopeHeaders.meta h;
     EnvelopeHeaders.retention := EnvelopeHeaders.retention h;
     EnvelopeHeaders.sent_at := EnvelopeHeaders.sent_at h;
     EnvelopeHeaders.trace := EnvelopeHeaders.trace h;
     EnvelopeHeaders.other := EnvelopeHeaders.other h |}.

(** [fresh] is the id that [EventId::new] generates. *)
Definition parse_request `{RequestEnv} `{JsonCodec (EnvelopeHeaders PartialMeta)}
    (fresh : EventId) (bytes : string) (request_meta : RequestMeta)
  : outcome (result EnvelopeError Envelope) :=
  match parse_headers bytes with
  | Err e => Ret (Err e)
  | Ok (partial_headers, offset) =>
      match EnvelopeHeaders.complete partial_headers request_meta with
      | Err e => Ret (Err e)
      | Ok headers =>
          r ← parse_items bytes offset;
          Ret (items ← r;
               let headers :=
                 if existsb Item.requires_event items then
                   set_event_id headers (Some (default fresh (EnvelopeHeaders.event_id headers)))
                 else headers in
               Ok {| headers := headers; items := items |})
      end
  end.

End Parse.

(** *** Writing *)

(** [write_all] is the writer's. *)
Section Serialize.
Context {W : Type} (write_all : W -> string -> option W).
Context `{JsonCodec ItemHeaders, JsonCodec (EnvelopeHeaders RequestMeta)}.

Definition write (writer : W) (buf : string) : result EnvelopeError W :=
  ok_or (write_all writer buf) EnvelopeError.PayloadIoFailed.

Definition to_writer {H} `{JsonCodec H} (writer : W) (h : H) : result EnvelopeError W :=
  match to_json h with
  | Err e => Err (EnvelopeError.HeaderIoFailed (Some e))
  | Ok text => ok_or (write_all writer text) (EnvelopeError.HeaderIoFailed None)
  end.

Fixpoint serialize_items (items : list Item) (writer : W) : result EnvelopeError W :=
  match items with
  | [] => Ok writer
  | item :: items =>
      writer ← to_writer writer (Item.headers item);
      writer ← write writer nl;
      writer ← write writer (Item.payload item);
      writer ← write writer nl;
      serialize_items items writer
  end.

Definition serialize (self : Envelope) (writer : W) : result EnvelopeError W :=
  writer ← to_writer writer (headers self);
  writer ← write writer nl;
  serialize_items (items self) writer.

End Serialize.

(** Writing to a [Vec] appends and does not fail. *)
Definition to_vec `{JsonCodec ItemHeaders, JsonCodec (EnvelopeHeaders RequestMeta)} (self : Envelope)
  : result EnvelopeError string :=
  serialize (fun vec buf => Some (vec +:+ buf)) self "".

(** *** Accessors and updates *)

Definition len (self : Envelope) : nat := List.length (items self).
Definition is_empty (self : Envelope) : bool := match items self with [] => true | _ => false end.
Definition event_id (self : Envelope) : option EventId := EnvelopeHeaders.event_id (headers self).
Definition meta (self : Envelope) : RequestMeta := EnvelopeHeaders.meta (headers self).
Definition retention (self : Envelope) : Z :=
  default DEFAULT_EVENT_RETENTION (EnvelopeHeaders.retention (headers self)).

Definition trace_context (self : Envelope) : option TraceContext :=
  match EnvelopeHeaders.trace (headers self) with
  | None => None
  | Some (BoundaryErr _) => None
  | Some (BoundaryOk t) => Some t
  end.

Definition sent_at (self : Envelope) : option DateTime := EnvelopeHeaders.sent_at (headers self).

(** A write through [meta_mut]. *)
Definition set_meta (self : Envelope) (meta : RequestMeta) : Envelope :=
  let h := headers self in
  {| headers := {| EnvelopeHeaders.event_id := EnvelopeHeaders.event_id h;
                   EnvelopeHeaders.meta := meta;
                   EnvelopeHeaders.retention := EnvelopeHeaders.retention h;
                   EnvelopeHeaders.sent_at := EnvelopeHeaders.sent_at h;
                   EnvelopeHeaders.trace := EnvelopeHeaders.trace h;
                   EnvelopeHeaders.other := EnvelopeHeaders.other h |};
     items := items self |}.

Definition set_sent_at (self : Envelope) (sent_at : DateTime) : Envelope :=
  let h := headers self in
  {| headers := {| EnvelopeHeaders.event_id := EnvelopeHeaders.event_id h;
                   EnvelopeHeaders.meta := EnvelopeHeaders.meta h;
                   EnvelopeHeaders.retention := EnvelopeHeaders.retention h;
                   EnvelopeHeaders.sent_at := Some sent_at;
                   EnvelopeHeaders.trace := EnvelopeHeaders.trace h;
                   EnvelopeHeaders.other := EnvelopeHeaders.other h |};
     items := items self |}.

Definition set_retention (self : Envelope) (retention : Z) : Envelope :=
  let h := headers self in
  {| headers := {| EnvelopeHeaders.event_id := EnvelopeHeaders.event_id h;
                   EnvelopeHeaders.meta := EnvelopeHeaders.meta h;
                   EnvelopeHeaders.retention := Some retention;
                   EnvelopeHeaders.sent_at := EnvelopeHeaders.sent_at h;
                   EnvelopeHeaders.trace := EnvelopeHeaders.trace h;
                   EnvelopeHeaders.other := EnvelopeHeaders.other h |};
     items := items self |}.

Definition get_header (self : Envelope) (name : string) : option Value :=
  EnvelopeHeaders.other (headers self) !! name.

Definition set_header (self : Envelope) (name : string) (value : Value) : option Value * Envelope :=
  let h := headers self in
  (EnvelopeHeaders.other h !! name,
   {| headers := {| EnvelopeHeaders.event_id := EnvelopeHeaders.event_id h;
                    EnvelopeHeaders.meta := EnvelopeHeaders.meta h;
                    EnvelopeHeaders.retention := EnvelopeHeaders.retention h;
                    EnvelopeHeaders.sent_at := EnvelopeHeaders.sent_at h;
                    EnvelopeHeaders.trace := EnvelopeHeaders.trace h;
                    EnvelopeHeaders.other := <[name := value]> (EnvelopeHeaders.other h) |};
      items := items self |}).

Definition get_item_by (self : Envelope) (pred : Item -> bool) : option Item := find pred (items self).

(** [Iterator::position]. *)
Fixpoint position {A} (p : A -> bool) (l : list A) : option nat :=
  match l with
  | [] => None
  | x :: l => if p x then Some 0%nat else S <$> position p l
  end.

(** [swap_remove]: the last element takes the place of the removed one. *)
Definition swap_remove {A} (l : list A) (index : nat) : outcome (A * list A) :=
  match l !! index, last l with
  | Some x, Some y =>
      Ret (x, if bool_decide (index = List.length l - 1)%nat then removelast l
              else <[index := y]> (removelast l))
  | _, _ => Panic
  end.

Definition take_item_by (self : Envelope) (cond : Item -> bool) : outcome (option Item * Envelope) :=
  match position cond (items self) with
  | Some index =>
      '(item, items) ← swap_remove (items self) index;
      Ret (Some item, {| headers := headers self; items := items |})
  | None => Ret (None, self)
  end.

Definition add_item (self : Envelope) (item : Item) : Envelope :=
  {| headers := headers self; items := items self ++ [item] |}.

(** The predicate answers the same on its second call. *)
Definition split_by (self : Envelope) (f : Item -> bool) : option Envelope * Envelope :=
  let split_count := List.length (List.filter f (items self)) in
  if bool_decide (split_count = len self) || bool_decide (split_count = 0%nat) then (None, self)
  else
    let '(split_items, own_items) := List.partition f (items self) in
    (Some {| headers := headers self; items := split_items |},
     {| headers := headers self; items := own_items |}).

(** [SmallVec::retain] with a closure that has state and may change the item. *)
Fixpoint retain {S} (f : S -> Item -> S * Item * bool) (s : S) (items : list Item) : S * list Item :=
  match items with
  | [] => (s, [])
  | item :: items =>
      let '(s, item, keep) := f s item in
      let '(s, items) := retain f s items in
      (s, if keep : bool then item :: items else items)
  end.

Definition retain_items {S} (self : Envelope) (f : S -> Item -> S * Item * bool) (s : S)
  : S * Envelope :=
  let '(s, items) := retain f s (items self) in (s, {| headers := headers self; items := items |}).

End Envelope.
Notation Envelope := Envelope.Envelope.

(** ** Reference definitions *)

(** The length header of an item is a [u32]. *)
Class ItemJsonLaws `{JsonCodec ItemHeaders} : Prop := {
  item_json :: JsonLaws ItemHeaders;
  item_length_u32 s h n l :
    next_json s = Some (Ok (h, n)) -> Item.length h = Some l -> in_u32 l;
}.

(** The payload fits its header: it has the declared length, or no newline. *)
Definition item_ok (it : Item) : Prop :=
  match Item.length (Item.headers it) with
  | Some l => Z.of_nat (String.length (Item.payload it)) = l
  | None => contains_char newline (Item.payload it) = false
  end.

(** What is left of item headers on the wire: [rate_limited] is skipped. *)
Definition on_wire (it : Item) : Item := Item.set_rate_limited it false.

(** The JSON text of [h], followed by a newline, is read back as [h']. *)
Definition reads_back {H} `{JsonCodec H} (h h' : H) : Prop :=
  exists text, to_json h = Ok text /\
    forall rest, next_json (text +:+ nl +:+ rest) = Some (Ok (h', String.length text)).

Section Wire.
Context `{JsonCodec ItemHeaders}.

Definition header_text {H} `{JsonCodec H} (h : H) : string :=
  match to_json h with Ok text => text | Err _ => "" end.

Definition wire_item (it : Item) : string :=
  header_text (Item.headers it) +:+ nl +:+ Item.payload it +:+ nl.

Fixpoint wire_items (items : list Item) : string :=
  match items with [] => "" | it :: items => wire_item it +:+ wire_items items end.

End Wire.

(** ** Lemmas on buffers *)

Lemma length_nl : String.length nl = 1%nat.
Proof. done. Qed.

Lemma get_past a b : String.get (String.length a) (a +:+ b) = String.get 0 b.
Proof. rewrite <- (Nat.add_0_r (String.length a)). apply get_app_r. Qed.

Lemma require_termination_nl a b : Envelope.require_termination (a +:+ nl +:+ b) (String.length a) = Ok ().
Proof. unfold Envelope.require_termination. rewrite get_past. done. Qed.

Lemma bytes_slice_middle a b c :
  bytes_slice (a +:+ b +:+ c) (String.length a) (String.length a + String.length b) = Ret b.
Proof.
  unfold bytes_slice. rewrite !length_app_str, bool_decide_true by lia.
  replace (_ + _ - _)%nat with (String.length b) by lia.
  rewrite <- (Nat.add_0_r (String.length a)), substring_app_r, substring_app_l. done.
Qed.

Lemma newline_from_middle a b c :
  contains_char newline b = false ->
  newline_from (a +:+ b +:+ nl +:+ c) (String.length a) = Ret (Some (String.length b)).
Proof.
  intros Hb. unfold newline_from. rewrite length_app_str, bool_decide_true by lia.
  rewrite str_from_app. by rewrite (str_find_at nl "" b newline) by done.
Qed.

Lemma str_find_no_newline s n :
  str_find nl s = Some n -> contains_char newline (substring 0 n s) = false /\ (n < String.length s)%nat.
Proof.
  unfold nl. revert n. induction s as [|a s IH]; intros n; [done|]. rewrite str_find_char_cons.
  case_bool_decide as Ha.
  - intros [= <-]. simpl. split; [done|lia].
  - destruct (str_find (String newline "") s) as [k|] eqn:Hk; [|done]. intros [= <-].
    destruct (IH k eq_refl) as [Hc Hl]. simpl. split; [|lia].
    rewrite contains_char_cons, Hc, orb_false_r. apply bool_decide_eq_false. congruence.
Qed.

Lemma str_find_none_no_newline s : str_find nl s = None -> contains_char newline s = false.
Proof.
  unfold nl. induction s as [|a s IH]; [done|]. rewrite str_find_char_cons, contains_char_cons.
  case_bool_decide as Ha; [done|]. destruct (str_find (String newline "") s); [done|]. intros _.
  by rewrite IH.
Qed.

(** ** Reading never fails in an unforeseen way *)

Section Parsing.
Context `{ItemJsonLaws}.

Lemma payload_end_of_total bytes headers start :
  (start <= String.length bytes)%nat ->
  (forall l, Item.length headers = Some l -> in_u32 l) ->
  exists r, Envelope.payload_end_of bytes headers start = Ret r /\
    forall e, r = Ok e ->
      (start <= e <= String.length bytes)%nat /\
      match Item.length headers with
      | Some l => Z.of_nat (e - start) = l
      | None => contains_char newline (substring start (e - start) bytes) = false
      end.
Proof.
  intros Hs Hu. unfold Envelope.payload_end_of. destruct (Item.length headers) as [l|].
  - specialize (Hu l eq_refl). unfold in_width in Hu. case_bool_decide as Hl; eexists; (split; [done|]); [done|].
    intros e. destruct (Envelope.require_termination _ _); [|done]. intros [= <-]. lia.
  - unfold newline_from. rewrite bool_decide_true by done. simpl.
    pose proof (substring_app_r (substring 0 start bytes) (str_from start bytes)) as Hsub.
    assert (bytes = substring 0 start bytes +:+ str_from start bytes) as Hb.
    { unfold str_from. pose proof (substring_join 0 start (String.length bytes - start) bytes) as Hj.
      simpl in Hj. rewrite Hj. replace (_ + _)%nat with (String.length bytes) by lia.
      by rewrite substring_all. }
    rewrite <- Hb, length_substring in Hsub by lia. specialize (Hsub 0%nat). rewrite Nat.add_0_r in Hsub.
    eexists. split; [done|]. intros e [= <-]. rewrite Hsub.
    destruct (str_find nl (str_from start bytes)) as [k|] eqn:Hf.
    + destruct (str_find_no_newline _ _ Hf) as [Hc Hk]. unfold str_from in Hk.
      rewrite length_substring in Hk by lia. split; [lia|].
      by replace (start + k - start)%nat with k by lia.
    + split; [lia|]. apply str_find_none_no_newline in Hf. unfold str_from in Hf |- *.
      rewrite <- (length_substring start (String.length bytes - start) bytes) at 1 by lia.
      by rewrite substring_all.
Qed.

Lemma parse_item_total bytes :
  exists r, Envelope.parse_item bytes = Ret r /\
    forall it size, r = Ok (it, size) -> (1 <= size)%nat /\ item_ok it.
Proof.
  unfold Envelope.parse_item.
  destruct (next_json bytes) as [[[headers headers_end]|e]|] eqn:Hn; try by (eexists; split; [done|]).
  destruct (Envelope.require_termination bytes headers_end); [|by (eexists; split; [done|])].
  set (start := Nat.min (headers_end + 1) (String.length bytes)).
  destruct (payload_end_of_total bytes headers start) as (r & -> & Hr).
  { lia. } { intros l Hl. by eapply item_length_u32. }
  simpl. destruct r as [e|e]; [|by (eexists; split; [done|])].
  destruct (Hr e eq_refl) as [He Hok]. unfold bytes_slice. rewrite bool_decide_true by done. simpl.
  eexists. split; [done|]. intros it size [= <- <-]. split; [lia|].
  unfold item_ok. simpl. destruct (Item.length headers); [|done].
  by rewrite length_substring by lia.
Qed.

Lemma parse_items_loop_total fuel bytes offset items :
  (String.length bytes - offset < fuel)%nat -> Forall item_ok items ->
  exists r, Envelope.parse_items_loop fuel bytes offset items = Ret r /\
    forall its, r = Ok its -> Forall item_ok its.
Proof.
  revert offset items. induction fuel as [|fuel IH]; intros offset items Hf Hall; [lia|].
  simpl. case_bool_decide; [|by (eexists; split; [done|]; intros its [= <-])].
  destruct (parse_item_total (str_from offset bytes)) as (r & -> & Hr). simpl.
  destruct r as [[it size]|e]; [|by (eexists; split; [done|])].
  destruct (Hr it size eq_refl) as [Hsize Hit].
  apply IH; [lia|]. apply Forall_app. auto.
Qed.

Lemma parse_items_total bytes offset :
  exists r, Envelope.parse_items bytes offset = Ret r /\ forall its, r = Ok its -> Forall item_ok its.
Proof. apply parse_items_loop_total; [lia|constructor]. Qed.

(** ** Reading what was written *)

Lemma parse_item_wire it rest :
  item_ok it -> reads_back (Item.headers it) (Item.headers (on_wire it)) ->
  Envelope.parse_item (wire_item it +:+ rest) = Ret (Ok (on_wire it, String.length (wire_item it))).
Proof.
  intros Hok (text & Ht & Hread). unfold wire_item, header_text. rewrite Ht.
  rewrite !str_app_assoc. unfold Envelope.parse_item. rewrite Hread, require_termination_nl.
  assert (text +:+ nl +:+ Item.payload it +:+ nl +:+ rest =
          (text +:+ nl) +:+ Item.payload it +:+ nl +:+ rest) as -> by (by rewrite str_app_assoc).
  assert (Nat.min (String.length text + 1)
            (String.length ((text +:+ nl) +:+ Item.payload it +:+ nl +:+ rest)) =
          String.length (text +:+ nl)) as ->.
  { rewrite !length_app_str, length_nl. lia. }
  assert (Envelope.payload_end_of ((text +:+ nl) +:+ Item.payload it +:+ nl +:+ rest)
            (Item.headers (on_wire it)) (String.length (text +:+ nl)) =
          Ret (Ok (String.length (text +:+ nl) + String.length (Item.payload it))%nat)) as ->.
  { unfold Envelope.payload_end_of, item_ok in *. simpl Item.length.
    destruct (Item.length (Item.headers it)) as [l|].
    - rewrite bool_decide_false by (rewrite !length_app_str; lia). rewrite <- Hok, Nat2Z.id.
      rewrite <- length_app_str, <- (str_app_assoc (text +:+ nl)), require_termination_nl. done.
    - by rewrite newline_from_middle by done. }
  simpl. rewrite bytes_slice_middle. simpl. unfold on_wire. do 4 f_equal.
  rewrite !length_app_str, length_nl. simpl. rewrite length_app_str, length_nl. lia.
Qed.

Lemma parse_items_loop_wire its pre acc fuel :
  Forall (fun it => item_ok it /\ reads_back (Item.headers it) (Item.headers (on_wire it))) its ->
  (String.length (wire_items its) < fuel)%nat ->
  Envelope.parse_items_loop fuel (pre +:+ wire_items its) (String.length pre) acc =
  Ret (Ok (acc ++ (on_wire <$> its))).
Proof.
  revert pre acc fuel. induction its as [|it its IH]; intros pre acc fuel Hall Hf;
    (destruct fuel as [|fuel]; [lia|]); simpl wire_items in *.
  - simpl. rewrite str_app_nil_r, bool_decide_false by lia. by rewrite app_nil_r.
  - apply Forall_cons in Hall as [[Hok Hread] Hall].
    assert (1 <= String.length (wire_item it))%nat as Hpos.
    { unfold wire_item. rewrite !length_app_str, length_nl. lia. }
    rewrite length_app_str in Hf. simpl.
    rewrite bool_decide_true by (rewrite !length_app_str; lia).
    rewrite str_from_app, parse_item_wire by done. simpl.
    rewrite <- length_app_str, <- str_app_assoc, IH by (done || lia).
    by rewrite <- app_assoc.
Qed.

End Parsing.

(** ** Lemmas on item lists *)

Lemma position_find (f : Item -> bool) l :
  match Envelope.position f l with
  | Some i => exists x, l !! i = Some x /\ find f l = Some x
  | None => find f l = None
  end.
Proof.
  induction l as [|x l IH]; simpl; [done|]. destruct (f x); [by exists x|].
  destruct (Envelope.position f l); simpl; done.
Qed.

Lemma swap_remove_spec {A} (l : list A) i x :
  l !! i = Some x -> exists l', Envelope.swap_remove l i = Ret (x, l') /\ l ≡ₚ x :: l'.
Proof.
  intros Hi. unfold Envelope.swap_remove. rewrite Hi.
  destruct l as [|y l _] using rev_ind; [done|].
  rewrite last_snoc, removelast_last, length_app. eexists. split; [done|]. simpl.
  pose proof (lookup_lt_Some _ _ _ Hi) as Hlt. rewrite length_app in Hlt. simpl in Hlt.
  case_bool_decide as Hl.
  - replace i with (length l) in Hi by lia. rewrite list_lookup_middle in Hi by done.
    injection Hi as ->. symmetry. apply Permutation_cons_append.
  - rewrite lookup_app_l in Hi by lia. rewrite insert_take_drop by lia.
    rewrite <- (take_drop_middle l i x Hi) at 1.
    rewrite <- Permutation_cons_append. rewrite !Permutation_middle. by rewrite Permutation_swap || done.
Qed.

Lemma find_Some_spec (f : Item -> bool) l x : find f l = Some x -> f x = true.
Proof. apply find_some. Qed.

Lemma find_None_spec (f : Item -> bool) l : find f l = None -> Forall (fun x => f x = false) l.
Proof. intros Hn. apply Forall_forall. intros x Hx%list_elem_of_In. by eapply find_none. Qed.

Lemma partition_spec (f : Item -> bool) l :
  List.partition f l = (List.filter f l, List.filter (fun x => negb (f x)) l).
Proof. induction l as [|x l IH]; simpl; [done|]. rewrite IH. by destruct (f x). Qed.

Lemma filter_split (f : Item -> bool) l :
  l ≡ₚ List.filter f l ++ List.filter (fun x => negb (f x)) l /\
  (length (List.filter f l) + length (List.filter (fun x => negb (f x)) l) = length l)%nat.
Proof.
  induction l as [|x l [IHp IHl]]; simpl; [done|]. destruct (f x); simpl; split; try lia.
  - by rewrite <- IHp.
  - rewrite IHp at 1. apply Permutation_middle.
Qed.

(** ** Properties *)

(** C10: Parsing an envelope from arbitrary bytes terminates and never panics: no
    slice is taken out of range, every item advances the offset, and each
    parsed item has the length it declares or a payload without newline. *)
Theorem parse_envelope_total `{ItemJsonLaws} `{JsonLaws (EnvelopeHeaders RequestMeta)}
    `{JsonLaws (EnvelopeHeaders PartialMeta)} `{RequestEnv} bytes fresh request_meta :
  (exists r, Envelope.parse_bytes bytes = Ret r /\
     forall env, r = Ok env -> Forall item_ok (Envelope.items env)) /\
  (exists r, Envelope.parse_request fresh bytes request_meta = Ret r /\
     forall env, r = Ok env -> Forall item_ok (Envelope.items env)).
Proof.
  unfold Envelope.parse_bytes, Envelope.parse_request. split.
  - destruct (Envelope.parse_headers bytes) as [[h offset]|e]; [|by (eexists; split; [done|])].
    destruct (parse_items_total bytes offset) as (r & -> & Hr). simpl.
    destruct r as [its|e]; eexists; (split; [done|]); [|done]. intros env [= <-]. simpl. auto.
  - destruct (Envelope.parse_headers bytes) as [[h offset]|e]; [|by (eexists; split; [done|])].
    destruct (EnvelopeHeaders.complete h request_meta) as [h'|e]; [|by (eexists; split; [done|])].
    destruct (parse_items_total bytes offset) as (r & -> & Hr). simpl.
    destruct r as [its|e]; eexists; (split; [done|]); [|done]. intros env [= <-]. simpl. auto.
Qed.

(** C9: Serialization and parsing are inverse: an envelope whose items fit
    their headers and whose headers survive JSON is written by [to_vec] and read
    back by [parse_bytes] with the same items in the same order and the same
    payloads; only the internal [rate_limited] flag is lost. *)
Theorem envelope_roundtrip `{ItemJsonLaws} `{JsonLaws (EnvelopeHeaders RequestMeta)} env h'
    (Hheaders : reads_back (Envelope.headers env) h')
    (Hitems : Forall (fun it => item_ok it /\ reads_back (Item.headers it) (Item.headers (on_wire it)))
                (Envelope.items env)) :
  exists bytes, Envelope.to_vec env = Ok bytes /\
    Envelope.parse_bytes bytes =
    Ret (Ok (Envelope.MkEnvelope h' (on_wire <$> Envelope.items env))).
Proof.
  destruct env as [h its]. simpl in *. destruct Hheaders as (text & Ht & Hread).
  assert (forall vec, Envelope.serialize_items (fun vec buf => Some (vec +:+ buf)) its vec =
            Ok (vec +:+ wire_items its)) as Hser.
  { clear Hread Ht. induction Hitems as [|it its [_ (t & Hj & _)] Hall IH]; intros vec; simpl.
    - by rewrite str_app_nil_r.
    - unfold Envelope.to_writer. rewrite Hj. simpl. rewrite IH. unfold wire_item, header_text.
      rewrite Hj. by rewrite !str_app_assoc. }
  exists (text +:+ nl +:+ wire_items its). split.
  - unfold Envelope.to_vec, Envelope.serialize, Envelope.to_writer. simpl. rewrite Ht. simpl.
    by rewrite Hser, str_app_assoc.
  - unfold Envelope.parse_bytes, Envelope.parse_headers. rewrite Hread, require_termination_nl. cbn [mbind result_bind].
    unfold Envelope.parse_items. rewrite <- str_app_assoc.
    replace (String.length text + 1)%nat with (String.length (text +:+ nl))
      by (by rewrite length_app_str, length_nl).
    rewrite parse_items_loop_wire; [done|done|]. rewrite length_app_str. lia.
Qed.

(** An envelope sent with a request is always attributed to the project of
    the request: [parse_request] keeps the DSN of the request, refuses envelope
    headers that name another project, key or origin, and an envelope with an
    item that requires an event comes out with an event id. *)
Theorem parse_request_attribution `{JsonCodec ItemHeaders} `{JsonCodec (EnvelopeHeaders PartialMeta)}
    `{RequestEnv} fresh bytes request_meta partial offset env
    (Hheaders : Envelope.parse_headers bytes = Ok (partial, offset))
    (Hparse : Envelope.parse_request fresh bytes request_meta = Ret (Ok env)) :
  let meta := Envelope.meta env in
  RequestMeta.dsn meta = RequestMeta.dsn request_meta /\
  (forall dsn, RequestMeta.dsn (EnvelopeHeaders.meta partial) = Some dsn ->
     PartialDsn.project_id dsn = PartialDsn.project_id (RequestMeta.dsn request_meta) /\
     PartialDsn.public_key dsn = PartialDsn.public_key (RequestMeta.dsn request_meta)) /\
  RequestMeta.origin meta = RequestMeta.origin request_meta /\
  (existsb Item.requires_event (Envelope.items env) = true -> is_Some (Envelope.event_id env)) /\
  (forall id, EnvelopeHeaders.event_id partial = Some id -> Envelope.event_id env = Some id).
Proof.
  unfold Envelope.parse_request in Hparse. rewrite Hheaders in Hparse.
  destruct (EnvelopeHeaders.complete partial request_meta) as [h|e] eqn:Hc; [|done].
  apply outcome_bind_Ret in Hparse as (r & _ & Hr). injection Hr as Hr.
  apply result_bind_Ok in Hr as (its & -> & [= <-]).
  unfold EnvelopeHeaders.complete in Hc.
  destruct (bool_decide (is_Some _) && bool_decide _) eqn:Horigin; [done|].
  apply result_bind_Ok in Hc as (u & Hdsn & [= <-]). simpl.
  assert (RequestMeta.origin (copy_to (EnvelopeHeaders.meta partial) request_meta) =
          RequestMeta.origin request_meta) as Ho.
  { unfold copy_to. simpl. destruct (RequestMeta.origin (EnvelopeHeaders.meta partial)) as [o|] eqn:E.
    - rewrite bool_decide_true in Horigin by done. simpl in Horigin.
      rewrite bool_decide_true by done. apply bool_decide_eq_false in Horigin.
      by destruct (decide (Some o = RequestMeta.origin request_meta)).
    - by rewrite bool_decide_false by (by intros [? ?]). }
  unfold Envelope.meta, Envelope.event_id. simpl.
  destruct (existsb Item.requires_event its) eqn:He; simpl; (split; [done|]); (split; [|split; [done|]]).
  2, 4: split; [by eauto|by intros id ->].
  all: intros dsn Hd; rewrite Hd in Hdsn; repeat case_bool_decide; try done;
    split; apply dec_stable; done.
Qed.

(** [take_item_by] removes exactly the first match and keeps the others up to order. *)
Lemma take_item_by_spec env f :
  exists r env', Envelope.take_item_by env f = Ret (r, env') /\
    Envelope.headers env' = Envelope.headers env /\
    r = Envelope.get_item_by env f /\
    match r with
    | Some it => f it = true /\ Envelope.items env ≡ₚ it :: Envelope.items env'
    | None => env' = env /\ Forall (fun it => f it = false) (Envelope.items env)
    end.
Proof.
  destruct env as [h its].
  unfold Envelope.take_item_by, Envelope.get_item_by. simpl.
  pose proof (position_find f its) as Hp. destruct (Envelope.position f its) as [i|].
  + destruct Hp as (x & Hi & Hf). destruct (swap_remove_spec its i x Hi) as (l' & -> & Hperm). simpl.
    eexists _, _.
    split_and!; [done|done|done|]. simpl. split; [by eapply find_Some_spec|done].
  + rewrite Hp. eexists _, _. split_and!; try done.
    split; [done|]. by apply find_None_spec.
Qed.

(** [split_by] divides the items by the predicate, or changes nothing. *)
Lemma split_by_spec env f :
  match Envelope.split_by env f with
  | (None, own) => own = env /\
      (Forall (fun it => f it = true) (Envelope.items env) \/
       Forall (fun it => f it = false) (Envelope.items env))
  | (Some split, own) =>
      Envelope.items split = List.filter f (Envelope.items env) /\
      Envelope.items own = List.filter (fun it => negb (f it)) (Envelope.items env) /\
      Envelope.items env ≡ₚ Envelope.items split ++ Envelope.items own /\
      Envelope.items split <> [] /\ Envelope.items own <> [] /\
      Envelope.headers split = Envelope.headers env /\ Envelope.headers own = Envelope.headers env
  end.
Proof.
  destruct env as [h its].
  unfold Envelope.split_by, Envelope.len. simpl. rewrite partition_spec.
  destruct (filter_split f its) as [Hperm Hlen].
  destruct (bool_decide _ || bool_decide _) eqn:Hb.
  + split; [done|]. apply orb_true_iff in Hb. rewrite !bool_decide_eq_true in Hb.
    clear Hperm. destruct Hb as [Hb|Hb]; [left|right]; induction its as [|x its IH]; constructor;
      simpl in *; try destruct (f x) eqn:Hx; simpl in *; try done; try lia;
      try (apply IH; lia).
  + apply orb_false_iff in Hb. rewrite !bool_decide_eq_false in Hb. destruct Hb as [Hall Hnone].
    simpl. split_and!; try done.
    * by destruct (List.filter f its).
    * intros Hnil. rewrite Hnil in Hlen. simpl in Hlen. lia.
Qed.

(** Taking an item and splitting an envelope neither lose nor duplicate
    items: [take_item_by] removes exactly the first match and keeps the others up
    to order, and [split_by] divides the items by the predicate, in order, into
    two non-empty envelopes with the same headers, or changes nothing. *)
Theorem envelope_items_conserved env f :
  (exists r env', Envelope.take_item_by env f = Ret (r, env') /\
     Envelope.headers env' = Envelope.headers env /\
     r = Envelope.get_item_by env f /\
     match r with
     | Some it => f it = true /\ Envelope.items env ≡ₚ it :: Envelope.items env'
     | None => env' = env /\ Forall (fun it => f it = false) (Envelope.items env)
     end) /\
  match Envelope.split_by env f with
  | (None, own) => own = env /\
      (Forall (fun it => f it = true) (Envelope.items env) \/
       Forall (fun it => f it = false) (Envelope.items env))
  | (Some split, own) =>
      Envelope.items split = List.filter f (Envelope.items env) /\
      Envelope.items own = List.filter (fun it => negb (f it)) (Envelope.items env) /\
      Envelope.items env ≡ₚ Envelope.items split ++ Envelope.items own /\
      Envelope.items split <> [] /\ Envelope.items own <> [] /\
      Envelope.headers split = Envelope.headers env /\ Envelope.headers own = Envelope.headers env
  end.
Proof. split; [apply take_item_by_spec|apply split_by_spec]. Qed.

(** The setters that leave type, payload and length alone. *)
Definition harmless (g : Item -> Item) : Prop :=
  forall it, Item.payload (g it) = Item.payload it /\
             Item.length (Item.headers (g it)) = Item.length (Item.headers it).

(** Every way to build or change an item keeps its length header equal to
    the length of its payload: a new item is empty, [set_payload] stores at most
    [u32::MAX] bytes, a prefix of what it is given, with their exact length, and
    the other setters change neither. *)
Theorem item_length_invariant it ct bytes ty at_ name value fn rl rates :
  item_ok (Item.new ty) /\
  (let it' := Item.set_payload it ct bytes in
   item_ok it' /\ Item.len it' = Z.min u32_max (Z.of_nat (String.length bytes)) /\
   (Z.of_nat (String.length bytes) <= u32_max -> Item.payload it' = bytes) /\
   exists rest, bytes = Item.payload it' +:+ rest) /\
  Forall harmless
    [(fun i => Item.set_attachment_type i at_); (fun i => Item.set_filename i fn);
     (fun i => Item.set_rate_limited i rl); (fun i => Item.set_sample_rates i rates);
     (fun i => (Item.take_sample_rates i).2); (fun i => (Item.set_header i name value).2)].
Proof.
  split; [done|]. split.
  - simpl. set (n := Z.min u32_max (Z.of_nat (String.length bytes))).
    assert (0 <= n <= u32_max) as Hn by (unfold u32_max in *; lia).
    assert (Z.to_nat n <= String.length bytes)%nat as Hle by lia.
    assert (String.length (substring 0 (Z.to_nat n) bytes) = Z.to_nat n) as Hlen.
    { apply length_substring. lia. }
    split_and!.
    + unfold item_ok. simpl. fold n. rewrite Hlen, wrap_small; [lia|].
      unfold in_width, u32_max in *. lia.
    + unfold Item.len. simpl. fold n. rewrite Hlen. lia.
    + intros Hb. unfold n. rewrite Z.min_r by done. by rewrite Nat2Z.id, substring_all.
    + exists (substring (Z.to_nat n) (String.length bytes - Z.to_nat n) bytes).
      pose proof (substring_join 0 (Z.to_nat n) (String.length bytes - Z.to_nat n) bytes) as Hj.
      simpl in Hj. rewrite Hj. replace (_ + _)%nat with (String.length bytes) by lia.
      by rewrite substring_all.
  - repeat (constructor; [intros i; try done|]); [|constructor].
    unfold Item.set_sample_rates. destruct rates as [| | | | |[]|]; done.
Qed.

Lemma lower_lower s : to_ascii_lowercase (to_ascii_lowercase s) = to_ascii_lowercase s.
Proof.
  induction s as [|a s IH]; simpl; [done|]. rewrite IH. f_equal.
  by destruct a as [[] [] [] [] [] [] [] []].
Qed.

Lemma from_str_case s t :
  to_ascii_lowercase s = to_ascii_lowercase t -> ContentType.from_str s = ContentType.from_str t.
Proof. intros Hl. unfold ContentType.from_str, eq_ignore_ascii_case. by rewrite Hl. Qed.

Lemma from_str_as_str ct :
  match ct with ContentType.Other _ => True | _ => ContentType.from_str (ContentType.as_str ct) = Some ct end.
Proof. by destruct ct. Qed.

(** Content types compare to strings without regard to case and aliases:
    [ContentType == str] holds exactly when the string parses to the same content
    type, and a content type made from a string survives printing and parsing. *)
Theorem content_type_eq_str s t :
  ContentType.eq_str (ContentType.from s) t =
    bool_decide (ContentType.from t = ContentType.from s) /\
  ContentType.from (ContentType.as_str (ContentType.from s)) = ContentType.from s.
Proof.
  unfold ContentType.eq_str, ContentType.from.
  pose proof (from_str_case s (to_ascii_lowercase s) ltac:(by rewrite lower_lower)) as Hsl.
  split.
  - destruct (ContentType.from_str t) as [ct|] eqn:Ht; [done|]. apply bool_decide_ext.
    destruct (ContentType.from_str s) as [ct|] eqn:Hs.
    + split; [|intros <-; unfold ContentType.from_str in Hs; by repeat case_match].
      intros Hl. exfalso. pose proof (from_str_as_str ct) as Has.
      destruct ct; try (by rewrite (from_str_case _ _ Hl), Has in Ht).
      unfold ContentType.from_str in Hs. by repeat case_match.
    + simpl. rewrite lower_lower. split; congruence.
  - destruct (ContentType.from_str s) as [ct|] eqn:Hs.
    + pose proof (from_str_as_str ct) as Has. destruct ct; try by rewrite Has.
      unfold ContentType.from_str in Hs. by repeat case_match.
    + simpl. by rewrite <- Hsl, lower_lower.
Qed.

(** ** Concrete instances *)

(** A codec for a single value: one text that stands for it. *)
Definition fixed_codec {H} (text : string) (h : H) : JsonCodec H := {|
  to_json _ := Ok text;
  next_json s := if String.prefix text s then Some (Ok (h, String.length text)) else None;
|}.

Lemma prefix_length p s : String.prefix p s = true -> (String.length p <= String.length s)%nat.
Proof.
  revert s. induction p as [|a p IH]; intros [|b s]; simpl; try lia; try done.
  destruct (ascii_dec a b); [|done]. intros Hp. specialize (IH s Hp). lia.
Qed.

Lemma fixed_codec_laws {H} text (h : H) :
  (1 <= String.length text)%nat -> @JsonLaws H (fixed_codec text h).
Proof.
  intros Ht. constructor. intros s h' n. simpl. destruct (String.prefix text s) eqn:Hp; [|done].
  intros [= <- <-]. apply prefix_length in Hp. lia.
Qed.

Definition sample_request_env : RequestEnv := {|
  PROTOCOL_VERSION := 7;
  parse_auth s := Err (MkParseAuthError s);
  auth_from_querystring s := Err (MkParseAuthError s);
  auth_from_pair _ key := Ok (MkAuth key 7 None);
  parse_project_id := parse_u64;
  parse_url s := Some s;
  url_scheme _ := "https";
  parse_ip s := Some s;
|}.

Definition sample_dsn : PartialDsn :=
  PartialDsn.MkPartialDsn Https (ProjectKey.MkProjectKey "e12d836b15bb49d7bbf99e64295d995b")
    "sentry.io" 443 "" (Some 42).

Definition sample_meta {D} (dsn : D) : RequestMeta.RequestMeta D :=
  RequestMeta.MkRequestMeta dsn (Some "sentry/client") 7 None None "" None false 0.

Definition sample_headers {D} (dsn : D) : EnvelopeHeaders (RequestMeta.RequestMeta D) :=
  EnvelopeHeaders.MkEnvelopeHeaders None (sample_meta dsn) None None None ∅.

Definition sample_event : Item :=
  Item.set_payload (Item.new ItemType.Event) ContentType.Json ("{" +:+ nl +:+ "}").

Definition event_codec : JsonCodec ItemHeaders := fixed_codec "{3}" (Item.headers sample_event).
Definition headers_codec : JsonCodec (EnvelopeHeaders RequestMeta) :=
  fixed_codec "{}" (sample_headers sample_dsn).
Definition partial_codec : JsonCodec (EnvelopeHeaders PartialMeta) :=
  fixed_codec "{}" (sample_headers (Some sample_dsn)).

Lemma event_codec_laws : @ItemJsonLaws event_codec.
Proof.
  split; [apply fixed_codec_laws; simpl; lia|]. intros s h n l. simpl.
  destruct (String.prefix _ s); [|done]. intros [= <- <-] [= <-]. by vm_compute.
Qed.

Lemma parse_envelope_total_witness :
  exists r, @Envelope.parse_bytes event_codec headers_codec "garbage" = Ret r.
Proof.
  destruct (@parse_envelope_total event_codec event_codec_laws headers_codec
    (fixed_codec_laws "{}" _ ltac:(simpl; lia)) partial_codec (fixed_codec_laws "{}" _ ltac:(simpl; lia))
    sample_request_env "garbage" 1 (sample_meta sample_dsn)) as [(r & Hr & _) _].
  exists r. exact Hr.
Defined.

Lemma envelope_roundtrip_witness :
  exists bytes,
    @Envelope.to_vec event_codec headers_codec
      (Envelope.MkEnvelope (sample_headers sample_dsn) [sample_event; sample_event]) = Ok bytes /\
    @Envelope.parse_bytes event_codec headers_codec bytes =
    Ret (Ok (Envelope.MkEnvelope (sample_headers sample_dsn) [sample_event; sample_event])).
Proof.
  apply (@envelope_roundtrip event_codec event_codec_laws headers_codec
    (fixed_codec_laws "{}" _ ltac:(simpl; lia))
    (Envelope.MkEnvelope (sample_headers sample_dsn) [sample_event; sample_event])
    (sample_headers sample_dsn)).
  - exists "{}". split; reflexivity.
  - repeat constructor; (exists "{3}"; split; reflexivity) || reflexivity.
Defined.

Lemma parse_request_attribution_witness :
  exists env, @Envelope.parse_request event_codec sample_request_env partial_codec 99 ("{}" +:+ nl +:+ "{3}" +:+ nl +:+ "{" +:+ nl +:+ "}") (sample_meta sample_dsn) = Ret (Ok env) /\
    is_Some (Envelope.event_id env).
Proof.
  eexists. split; [vm_compute; reflexivity|].
  eapply (@parse_request_attribution event_codec partial_codec sample_request_env 99
    ("{}" +:+ nl +:+ "{3}" +:+ nl +:+ "{" +:+ nl +:+ "}") (sample_meta sample_dsn)
    (sample_headers (Some sample_dsn)) 3%nat).
  - reflexivity.
  - vm_compute. reflexivity.
  - reflexivity.
Defined.

Lemma item_length_invariant_witness :
  Item.payload (Item.set_payload (Item.new ItemType.Attachment) ContentType.Text "Hello") = "Hello".
Proof.
  apply (item_length_invariant (Item.new ItemType.Attachment) ContentType.Text "Hello" ItemType.Event
    AttachmentType.Minidump "name" (Bool true) "file" true (Bool false)).
  vm_compute. discriminate.
Defined.
