(* ===== verification/DynamicSampling.v ===== *)
(** * relay-server: dynamic sampling of envelopes (utils/dynamic_sampling.rs)

    Of the project state only [config.dynamic_sampling] is read, so a project
    state is that field here.  The project cache is the pair of functions that
    answer [GetCachedProjectState] and [GetProjectState]. *)

From Stdlib Require Import Ascii String SpecFloat.
From S2P Require Import Prelude Strings Floats Types Common Protocol Quota Filters Sampling Extractors Envelopes.

Open Scope string_scope.
Open Scope Z_scope.
Open Scope list_scope.

Record ProjectState := MkProjectState { dynamic_sampling : option SamplingConfig }.

Section DynamicSampling.
Context `{FilterEnv, SamplingEnv, RequestEnv}.

Definition should_keep_event (event : Event) (ip_addr : option IpAddr) (project_state : ProjectState)
    (processing_enabled : bool) : SamplingResult :=
  match dynamic_sampling project_state with
  | None => NoDecision
  | Some sampling_config =>
      if negb processing_enabled && has_unsupported_rules sampling_config then Keep
      else
        match Annotated.value (event_id event) with
        | None => NoDecision
        | Some event_id =>
            let ty := rule_type_for_event event in
            match get_matching_event_rule sampling_config event ip_addr ty with
            | Some rule =>
                let random_number := pseudo_random_from_uuid event_id in
                if f64_ltb random_number (sample_rate rule) then Keep else Drop (rule_id rule)
            | None => NoDecision
            end
        end
  end.

Definition is_transaction (item : Item) : bool :=
  bool_decide (Item.ty (Item.headers item) = ItemType.Transaction).

Definition sample_transaction_internal (envelope : Envelope) (project_state : option ProjectState)
    (processing_enabled : bool) : outcome (result RuleId Envelope) :=
  match project_state with
  | None => Ret (Ok envelope)
  | Some project_state =>
      match dynamic_sampling project_state with
      | None => Ret (Ok envelope)
      | Some sampling_config =>
          if negb processing_enabled && has_unsupported_rules sampling_config then Ret (Ok envelope)
          else
            match Envelope.trace_context envelope, Envelope.get_item_by envelope is_transaction with
            | None, _ | _, None => Ret (Ok envelope)
            | Some trace_context, Some _ =>
                let client_ip := client_addr (Envelope.meta envelope) in
                match should_keep trace_context client_ip sampling_config with
                | Drop rule_id =>
                    '(taken, envelope) ← Envelope.take_item_by envelope is_transaction;
                    let envelope :=
                      match taken with
                      | Some _ =>
                          (Envelope.retain_items envelope
                             (fun s item => (s, item, negb (Item.requires_event item))) ()).2
                      | None => envelope
                      end in
                    Ret (if Envelope.is_empty envelope then Err rule_id else Ok envelope)
                | _ => Ret (Ok envelope)
                end
            end
      end
  end.

(** The answers of the project cache: [None] when the actor cannot be reached,
    and for the full lookup a state or an error. *)
Class ProjectCache := {
  get_cached_project_state : ProjectKey -> option (option ProjectState);
  get_project_state : ProjectKey -> option (result string ProjectState);
}.

Context `{ProjectCache}.

Definition sample_trace (envelope : Envelope) (project_key : option ProjectKey)
    (fast_processing processing_enabled : bool) : outcome (result RuleId Envelope) :=
  match project_key with
  | None => Ret (Ok envelope)
  | Some project_key =>
      match Envelope.trace_context envelope, Envelope.get_item_by envelope is_transaction with
      | None, _ | _, None => Ret (Ok envelope)
      | Some _, Some _ =>
          if fast_processing then
            match get_cached_project_state project_key with
            | None => Ret (Ok envelope)
            | Some project_state => sample_transaction_internal envelope project_state processing_enabled
            end
          else
            match get_project_state project_key with
            | None => Ret (Ok envelope)
            | Some project_state =>
                sample_transaction_internal envelope (res_ok project_state) processing_enabled
            end
      end
  end.

(** ** Lemmas *)

Lemma retain_filter (f : Item -> bool) its :
  Envelope.retain (fun s item => (s, item, f item)) () its = ((), List.filter f its).
Proof. induction its as [|it its IH]; simpl; [done|]. rewrite IH. by destruct (f it). Qed.

Definition keeps_independent (it : Item) : bool := negb (Item.requires_event it).

Lemma filter_perm (f : Item -> bool) l l' : l ≡ₚ l' -> List.filter f l ≡ₚ List.filter f l'.
Proof.
  induction 1; simpl; [done| | |by etrans].
  - by destruct (f x); [f_equiv|].
  - destruct (f x), (f y); try done. apply Permutation_swap.
Qed.

(** What may happen to an envelope: nothing, or everything that needs the
    dropped transaction goes. *)
Definition sampled (envelope : Envelope) (rule_drops : RuleId -> Prop)
    (r : result RuleId Envelope) : Prop :=
  match r with
  | Ok envelope' =>
      envelope' = envelope \/
      Envelope.headers envelope' = Envelope.headers envelope /\
      Envelope.items envelope' ≡ₚ List.filter keeps_independent (Envelope.items envelope) /\
      Envelope.items envelope' <> [] /\ exists rule, rule_drops rule
  | Err rule =>
      rule_drops rule /\ Forall (fun it => Item.requires_event it = true) (Envelope.items envelope)
  end.

Lemma filter_nil_Forall (f : Item -> bool) l :
  List.filter f l = [] -> Forall (fun x => f x = false) l.
Proof.
  induction l as [|x l IH]; simpl; [constructor|]. destruct (f x) eqn:Hx; [done|]. constructor; auto.
Qed.

Lemma sample_transaction_sampled envelope state processing :
  exists r, sample_transaction_internal envelope state processing = Ret r /\
    sampled envelope (fun rule => exists st config trace,
      state = Some st /\ dynamic_sampling st = Some config /\
      Envelope.trace_context envelope = Some trace /\
      should_keep trace (client_addr (Envelope.meta envelope)) config = Drop rule) r.
Proof.
  unfold sample_transaction_internal.
  destruct state as [st|]; [|eexists; split; [done|by left]].
  destruct (dynamic_sampling st) as [config|] eqn:Hc; [|eexists; split; [done|by left]].
  destruct (_ && _); [eexists; split; [done|by left]|].
  destruct (Envelope.trace_context envelope) as [trace|] eqn:Ht; [|eexists; split; [done|by left]].
  destruct (Envelope.get_item_by envelope is_transaction) as [it|] eqn:Hi; [|eexists; split; [done|by left]].
  destruct (should_keep trace _ config) as [|rule|] eqn:Hk; try (eexists; split; [done|by left]).
  unfold Envelope.take_item_by, Envelope.get_item_by in *.
  pose proof (position_find is_transaction (Envelope.items envelope)) as Hp.
  destruct (Envelope.position _ _) as [i|]; [|congruence].
  destruct Hp as (x & Hx & Hf). destruct (swap_remove_spec _ _ _ Hx) as (l' & -> & Hperm). simpl.
  unfold Envelope.retain_items. simpl. rewrite retain_filter. simpl.
  assert (List.filter keeps_independent (Envelope.items envelope) ≡ₚ List.filter keeps_independent l') as Hl.
  { rewrite (filter_perm _ _ _ Hperm). simpl. apply find_Some_spec in Hf.
    unfold is_transaction in Hf. apply bool_decide_eq_true in Hf.
    unfold keeps_independent at 1, Item.requires_event. by rewrite Hf. }
  unfold keeps_independent in Hl. eexists. split; [done|].
  unfold Envelope.is_empty. simpl. destruct (List.filter _ l') as [|y ys] eqn:Hy; simpl.
  - split; [by exists st, config, trace|].
    apply Permutation_nil_r in Hl. apply filter_nil_Forall in Hl.
    eapply Forall_impl; [exact Hl|]. intros z Hz. by apply negb_false_iff in Hz.
  - right. split; [done|]. split; [by rewrite Hl|]. split; [done|]. by exists rule, st, config, trace.
Qed.

End DynamicSampling.

(** ** Properties *)

(** Trace sampling drops only what depends on the transaction: an envelope
    passes unchanged, or, when the rules drop its trace, keeps exactly the items
    that do not require an event; it is rejected with the rule that dropped it
    only when no such item is left. *)
Theorem sample_trace_keeps_independent_items
    `{FilterEnv, SamplingEnv, RequestEnv, ProjectCache} envelope key fast processing :
  exists r, sample_trace envelope key fast processing = Ret r /\
    sampled envelope (fun rule => exists k st config trace,
      key = Some k /\ dynamic_sampling st = Some config /\
      Envelope.trace_context envelope = Some trace /\
      should_keep trace (client_addr (Envelope.meta envelope)) config = Drop rule) r.
Proof.
  unfold sample_trace. destruct key as [k|]; [|eexists; split; [done|by left]].
  destruct (Envelope.trace_context envelope) as [trace|] eqn:Ht; [|eexists; split; [done|by left]].
  destruct (Envelope.get_item_by envelope is_transaction); [|eexists; split; [done|by left]].
  assert (forall state, exists r, sample_transaction_internal envelope state processing = Ret r /\
    sampled envelope (fun rule => exists k' st config trace',
      Some k = Some k' /\ dynamic_sampling st = Some config /\ Some trace = Some trace' /\
      should_keep trace' (client_addr (Envelope.meta envelope)) config = Drop rule) r) as Hs.
  { intros state. destruct (sample_transaction_sampled envelope state processing) as (r & Hr & Hsam).
    exists r. split; [done|]. rewrite Ht in Hsam.
    destruct r as [env'|rule]; simpl in *.
    - destruct Hsam as [?|(? & ? & ? & rule & st & config & tr & _ & ? & ? & ?)]; [by left|].
      right. split_and!; try done. by exists rule, k, st, config, tr.
    - destruct Hsam as [(st & config & tr & _ & ? & ? & ?) ?]. split; [|done].
      by exists k, st, config, tr. }
  destruct fast; [destruct (get_cached_project_state k)|destruct (get_project_state k)];
    try (eexists; split; [done|by left]); apply Hs.
Qed.

(** [should_keep_event] decides by the first rule of the event's own type
    that matches, comparing the pseudo random number of the event id with its
    rate; without configuration, id or matching rule there is no decision, and a
    Relay that does not process keeps every event when it meets a rule it does
    not support. *)
Theorem should_keep_event_decision `{FilterEnv, SamplingEnv} event ip config processing :
  let state := MkProjectState (Some config) in
  should_keep_event event ip (MkProjectState None) processing = NoDecision /\
  (has_unsupported_rules config = true -> should_keep_event event ip state false = Keep) /\
  (processing = true \/ has_unsupported_rules config = false ->
   should_keep_event event ip state processing =
   match Annotated.value (event_id event),
         find (fun rule => bool_decide (rule_ty rule = get_rule_type event)
                           && matches (condition rule) event ip) (rules config) with
   | Some id, Some rule =>
       if f64_ltb (pseudo_random_from_uuid id) (sample_rate rule) then Keep else Drop (rule_id rule)
   | _, _ => NoDecision
   end).
Proof.
  simpl. split; [done|]. split.
  - intros Hu. unfold should_keep_event. simpl. by rewrite Hu.
  - intros Hp. unfold should_keep_event. simpl.
    assert (negb processing && has_unsupported_rules config = false) as ->
      by (destruct Hp as [->| ->]; [done|apply andb_false_r]).
    assert (rule_type_for_event event = event_get_rule_type event) as ->.
    { unfold rule_type_for_event, event_get_rule_type. by destruct (Annotated.value (event_ty event)) as [[]|]. }
    destruct (Annotated.value (event_id event)); [|done].
    unfold get_matching_event_rule, get_matching_rule. done.
Qed.

(** ** Concrete instances *)

Definition sample_transaction_event : Event :=
  set_event_id (set_event_ty (set_release empty_event (Annotated.new "1.0"))
    (Annotated.new EventType.Transaction)) (Annotated.new 77).

Definition drop_all (ty : RuleType) : SamplingConfig :=
  MkSamplingConfig [MkSamplingRule (And []) (f64_of_Z 0) ty 1] None.

Lemma should_keep_event_decision_witness :
  @should_keep_event exact_env half_env sample_transaction_event None
    (MkProjectState (Some (drop_all RuleType.Transaction))) true = Drop 1.
Proof.
  destruct (@should_keep_event_decision exact_env half_env sample_transaction_event None
    (drop_all RuleType.Transaction) true) as (_ & _ & Hd).
  rewrite Hd by (left; reflexivity). reflexivity.
Defined.
