(* ===== verification/EnvelopeLimiter.v ===== *)
(** * relay-server: rate limiting of envelopes (utils/rate_limits.rs)

    The [X-Sentry-Rate-Limits] header, the summary of an envelope and the
    [EnvelopeLimiter].  The limiter's [check] closure is an [FnMut]: a function
    that passes its own state on.  Quantities of type [usize] count bytes and
    items in memory and do not overflow. *)

From Stdlib Require Import Ascii String.
From S2P Require Import Prelude Strings Floats Types Common Protocol Quota RateLimit Filters Sampling Extractors Envelopes.

Open Scope string_scope.
Open Scope Z_scope.
Open Scope list_scope.

(** ** The rate limits header *)

Section Header.
Context (now : Instant).

Definition format_categories (categories : list DataCategory) : string :=
  join_with ";" (DataCategory.name <$> categories).

Definition format_limit (rate_limit : RateLimit) : string :=
  u64_to_string (RetryAfter.remaining_seconds now (RateLimit.retry_after rate_limit)) +:+ ":"
  +:+ format_categories (RateLimit.categories rate_limit)
  +:+ ":" +:+ RateLimitScope.name (RateLimit.scope rate_limit)
  +:+ match RateLimit.reason_code rate_limit with
      | Some reason_code => ":" +:+ reason_str reason_code
      | None => ""
      end.

Fixpoint format_loop (rate_limits : RateLimits) (header : string) : string :=
  match rate_limits with
  | [] => header
  | rate_limit :: rate_limits =>
      let header := if bool_decide (header = "") then header else header +:+ ", " in
      format_loop rate_limits (header +:+ format_limit rate_limit)
  end.

Definition format_rate_limits (rate_limits : RateLimits) : string := format_loop rate_limits "".

Definition parse_categories (s : string) : list DataCategory :=
  DataCategory.from_name <$> List.filter (fun category => negb (bool_decide (category = ""))) (split_on ";" s).

(** One round of the loop; [None] is [continue]. *)
Definition parse_limit (scoping : Scoping) (limit : string) : option RateLimit :=
  let limit := trim limit in
  if bool_decide (limit = "") then None
  else
    let components := split_on ":" limit in
    retry_after ← (s ← components !! 0%nat; res_ok (RetryAfter.from_str now s));
    let categories := parse_categories (default "" (components !! 1%nat)) in
    let quota_scope := QuotaScope.from_name (default "" (components !! 2%nat)) in
    let scope := RateLimitScope.for_quota scoping quota_scope in
    let reason_code := MkReasonCode <$> components !! 3%nat in
    Some {| RateLimit.categories := categories;
            RateLimit.scope := scope;
            RateLimit.reason_code := reason_code;
            RateLimit.retry_after := retry_after |}.

Fixpoint parse_loop (scoping : Scoping) (limits : list string) (rate_limits : RateLimits) : RateLimits :=
  match limits with
  | [] => rate_limits
  | limit :: limits =>
      parse_loop scoping limits
        (match parse_limit scoping limit with
         | Some limit => RateLimits.add rate_limits limit
         | None => rate_limits
         end)
  end.

Definition parse_rate_limits (scoping : Scoping) (string : string) : RateLimits :=
  parse_loop scoping (split_on "," string) RateLimits.new.

End Header.

(** ** Summaries *)

Definition infer_event_category (item : Item) : option DataCategory :=
  match Item.ty (Item.headers item) with
  | ItemType.Event => Some DataCategory.Error
  | ItemType.Transaction => Some DataCategory.Transaction
  | ItemType.Security | ItemType.RawSecurity => Some DataCategory.Security
  | ItemType.UnrealReport => Some DataCategory.Error
  | ItemType.Attachment => if Item.creates_event item then Some DataCategory.Error else None
  | ItemType.Session => None
  | ItemType.Sessions => None
  | ItemType.Metrics => None
  | ItemType.MetricBuckets => None
  | ItemType.FormData => None
  | ItemType.UserReport => None
  end.

Module EnvelopeSummary.

Record EnvelopeSummary := MkEnvelopeSummary {
  event_category : option DataCategory;
  attachment_quantity : Z;
  session_quantity : Z;
  has_plain_attachments : bool;
}.

Definition empty : EnvelopeSummary := MkEnvelopeSummary None 0 0 false.

Definition infer_category (self : EnvelopeSummary) (item : Item) : EnvelopeSummary :=
  match event_category self with
  | None | Some DataCategory.Default =>
      match infer_event_category item with
      | Some category =>
          MkEnvelopeSummary (Some category) (attachment_quantity self) (session_quantity self)
            (has_plain_attachments self)
      | None => self
      end
  | Some _ => self
  end.

(** The body of the loop of [compute]. *)
Definition add_item (summary : EnvelopeSummary) (item : Item) : EnvelopeSummary :=
  let summary :=
    if Item.creates_event item then infer_category summary item
    else if bool_decide (Item.ty (Item.headers item) = ItemType.Attachment) then
      MkEnvelopeSummary (event_category summary) (attachment_quantity summary)
        (session_quantity summary) true
    else summary in
  if Item.rate_limited (Item.headers item) then summary
  else
    match Item.ty (Item.headers item) with
    | ItemType.Attachment =>
        MkEnvelopeSummary (event_category summary)
          (attachment_quantity summary + Z.max (Item.len item) 1)
          (session_quantity summary) (has_plain_attachments summary)
    | ItemType.Session =>
        MkEnvelopeSummary (event_category summary) (attachment_quantity summary)
          (session_quantity summary + 1) (has_plain_attachments summary)
    | _ => summary
    end.

Definition compute_items (items : list Item) (summary : EnvelopeSummary) : EnvelopeSummary :=
  fold_left add_item items summary.

Definition compute (envelope : Envelope) : EnvelopeSummary := compute_items (Envelope.items envelope) empty.

Definition set_event_category (self : EnvelopeSummary) (category : DataCategory) : EnvelopeSummary :=
  MkEnvelopeSummary (Some category) (attachment_quantity self) (session_quantity self)
    (has_plain_attachments self).

End EnvelopeSummary.
Notation EnvelopeSummary := EnvelopeSummary.EnvelopeSummary.

(** ** Enforcements *)

Module CategoryLimit.

Record CategoryLimit := MkCategoryLimit {
  category : DataCategory;
  quantity : Z;
  reason_code : option ReasonCode;
}.

Definition default_ : CategoryLimit := MkCategoryLimit DataCategory.Default 0 None.

Definition new (category : DataCategory) (quantity : Z) (rate_limit : option RateLimit) : CategoryLimit :=
  match rate_limit with
  | Some limit => MkCategoryLimit category quantity (RateLimit.reason_code limit)
  | None => default_
  end.

Definition is_active (self : CategoryLimit) : bool := bool_decide (0 < quantity self).

End CategoryLimit.
Notation CategoryLimit := CategoryLimit.CategoryLimit.

Module Enforcement.

Record Enforcement := MkEnforcement {
  event : CategoryLimit;
  attachments : CategoryLimit;
  sessions : CategoryLimit;
}.

Definition default_ : Enforcement :=
  MkEnforcement CategoryLimit.default_ CategoryLimit.default_ CategoryLimit.default_.

(** The message to the outcome producer, with [Outcome::RateLimited]. *)
Record TrackOutcome := MkTrackOutcome {
  timestamp : SystemTime;
  to_scoping : Scoping;
  rate_limited : option ReasonCode;
  to_event_id : option EventId;
  to_remote_addr : option IpAddr;
  to_category : DataCategory;
  to_quantity : Z;
}.

(** The messages sent; sessions are left out. *)
Definition track_outcomes (sys_now : SystemTime) (inst_now : Instant) (self : Enforcement)
    (envelope : Envelope) (scoping : Scoping) : list TrackOutcome :=
  (fun limit =>
     {| timestamp := UnixTimestamp.instant_to_system_time sys_now inst_now
                       (RequestMeta.start_time (Envelope.meta envelope));
        to_scoping := scoping;
        rate_limited := CategoryLimit.reason_code limit;
        to_event_id := Envelope.event_id envelope;
        to_remote_addr := RequestMeta.remote_addr (Envelope.meta envelope);
        to_category := CategoryLimit.category limit;
        to_quantity := CategoryLimit.quantity limit |})
  <$> List.filter CategoryLimit.is_active [event self; attachments self].

End Enforcement.
Notation Enforcement := Enforcement.Enforcement.

(** ** The limiter *)

Section Limiter.
Context {S E : Type} (check : S -> ItemScoping -> Z -> S * result E RateLimits).

(** [event_category] is the one set by [assume_event]. *)
Record EnvelopeLimiter := MkEnvelopeLimiter { state : S; assumed_category : option DataCategory }.

Definition new (check_state : S) : EnvelopeLimiter := MkEnvelopeLimiter check_state None.
Definition assume_event (self : EnvelopeLimiter) (category : DataCategory) : EnvelopeLimiter :=
  MkEnvelopeLimiter (state self) (Some category).

(** The event step of [execute]. *)
Definition execute_event (s : S) (summary : EnvelopeSummary) (scoping : Scoping)
  : S * result E (Enforcement * RateLimits) :=
  match EnvelopeSummary.event_category summary with
  | Some category =>
      let '(s, r) := check s (item scoping category) 1 in
      (s, event_limits ← r;
          let longest := RateLimits.longest event_limits in
          Ok (Enforcement.MkEnforcement
                (CategoryLimit.new category 1 longest)
                (CategoryLimit.new DataCategory.Attachment
                   (EnvelopeSummary.attachment_quantity summary) longest)
                CategoryLimit.default_,
              RateLimits.merge RateLimits.new event_limits))
  | None => (s, Ok (Enforcement.default_, RateLimits.new))
  end.

(** The attachment step. *)
Definition execute_attachments (s : S) (summary : EnvelopeSummary) (scoping : Scoping)
    (enforcement : Enforcement) (rate_limits : RateLimits) : S * result E (Enforcement * RateLimits) :=
  if negb (CategoryLimit.is_active (Enforcement.event enforcement))
     && bool_decide (0 < EnvelopeSummary.attachment_quantity summary)
  then
    let '(s, r) := check s (item scoping DataCategory.Attachment)
                     (EnvelopeSummary.attachment_quantity summary) in
    (s, attachment_limits ← r;
        Ok (Enforcement.MkEnforcement (Enforcement.event enforcement)
              (CategoryLimit.new DataCategory.Attachment
                 (EnvelopeSummary.attachment_quantity summary) (RateLimits.longest attachment_limits))
              (Enforcement.sessions enforcement),
            if EnvelopeSummary.has_plain_attachments summary
            then RateLimits.merge rate_limits attachment_limits else rate_limits))
  else (s, Ok (enforcement, rate_limits)).

(** The session step. *)
Definition execute_sessions (s : S) (summary : EnvelopeSummary) (scoping : Scoping)
    (enforcement : Enforcement) (rate_limits : RateLimits) : S * result E (Enforcement * RateLimits) :=
  if bool_decide (0 < EnvelopeSummary.session_quantity summary) then
    let '(s, r) := check s (item scoping DataCategory.Session)
                     (EnvelopeSummary.session_quantity summary) in
    (s, session_limits ← r;
        Ok (Enforcement.MkEnforcement (Enforcement.event enforcement) (Enforcement.attachments enforcement)
              (CategoryLimit.new DataCategory.Session
                 (EnvelopeSummary.session_quantity summary) (RateLimits.longest session_limits)),
            RateLimits.merge rate_limits session_limits))
  else (s, Ok (enforcement, rate_limits)).

Definition execute (s : S) (summary : EnvelopeSummary) (scoping : Scoping)
  : S * result E (Enforcement * RateLimits) :=
  let '(s, r) := execute_event s summary scoping in
  match r with
  | Err e => (s, Err e)
  | Ok (enforcement, rate_limits) =>
      let '(s, r) := execute_attachments s summary scoping enforcement rate_limits in
      match r with
      | Err e => (s, Err e)
      | Ok (enforcement, rate_limits) => execute_sessions s summary scoping enforcement rate_limits
      end
  end.

Definition retain_item (item : Item) (enforcement : Enforcement) : Item * bool :=
  if CategoryLimit.is_active (Enforcement.event enforcement) && Item.requires_event item then (item, false)
  else if CategoryLimit.is_active (Enforcement.attachments enforcement)
          && bool_decide (Item.ty (Item.headers item) = ItemType.Attachment) then
    if Item.creates_event item then (Item.set_rate_limited item true, true) else (item, false)
  else if CategoryLimit.is_active (Enforcement.sessions enforcement)
          && bool_decide (Item.ty (Item.headers item) = ItemType.Session) then (item, false)
  else (item, true).

(** The envelope is changed only when all checks succeed. *)
Definition enforce (self : EnvelopeLimiter) (envelope : Envelope) (scoping : Scoping)
  : S * Envelope * result E (Enforcement * RateLimits) :=
  let summary := EnvelopeSummary.compute envelope in
  let summary :=
    match assumed_category self with
    | Some event_category => EnvelopeSummary.set_event_category summary event_category
    | None => summary
    end in
  let '(s, r) := execute (state self) summary scoping in
  match r with
  | Err e => (s, envelope, Err e)
  | Ok (enforcement, rate_limits) =>
      let '(_, envelope) :=
        Envelope.retain_items envelope
          (fun u item => let '(item, keep) := retain_item item enforcement in (u, item, keep)) () in
      (s, envelope, Ok (enforcement, rate_limits))
  end.

End Limiter.

(** ** Lemmas on the header *)

(** A reason code that the header can carry. *)
Definition header_safe (s : string) : bool :=
  graphic s && negb (contains_char "," s) && negb (contains_char ":" s).

(** The limit belongs to the scoping, and its delay and reason can be written. *)
Definition limit_ok (now : Instant) (scoping : Scoping) (l : RateLimit) : Prop :=
  (exists scope, RateLimit.scope l = RateLimitScope.for_quota scoping scope) /\
  RetryAfter.remaining_seconds now (RateLimit.retry_after l) < 2 ^ 53 /\
  match RateLimit.reason_code l with Some r => header_safe (reason_str r) = true | None => True end.

(** The limit with its delay counted from [now] in whole seconds. *)
Definition rounded (now : Instant) (l : RateLimit) : RateLimit :=
  {| RateLimit.categories := RateLimit.categories l;
     RateLimit.scope := RateLimit.scope l;
     RateLimit.reason_code := RateLimit.reason_code l;
     RateLimit.retry_after :=
       RetryAfter.from_secs now (RetryAfter.remaining_seconds now (RateLimit.retry_after l)) |}.

Definition category_char (a : ascii) : bool := is_ascii_lowercase a.

Lemma join_with_cons sep s t l : join_with sep (s :: t :: l) = s +:+ sep +:+ join_with sep (t :: l).
Proof. done. Qed.

Lemma join_with_forallb p sep l :
  str_forallb p sep = true -> Forall (fun s => str_forallb p s = true) l ->
  str_forallb p (join_with sep l) = true.
Proof.
  intros Hsep. induction 1 as [|s l Hs Hl IH]; [done|]. destruct l as [|t l]; [done|].
  by rewrite join_with_cons, !str_forallb_app, Hs, Hsep, IH.
Qed.

Lemma category_name_chars c :
  str_forallb category_char (DataCategory.name c) = true /\ DataCategory.name c <> "".
Proof. by destruct c. Qed.

Lemma category_char_spec a :
  category_char a = true -> is_graphic a = true /\ a <> ","%char /\ a <> ":"%char /\ a <> ";"%char.
Proof. by destruct a as [[] [] [] [] [] [] [] []]. Qed.

Lemma format_categories_chars cs :
  graphic (format_categories cs) = true /\ contains_char "," (format_categories cs) = false /\
  contains_char ":" (format_categories cs) = false.
Proof.
  assert (str_forallb (fun a => category_char a || bool_decide (a = ";"%char)) (format_categories cs) = true) as Hall.
  { apply join_with_forallb; [done|]. apply Forall_fmap, Forall_forall. intros c _. simpl.
    eapply str_forallb_impl; [|apply category_name_chars]. by intros a ->. }
  split_and!.
  - unfold graphic. eapply str_forallb_impl; [|exact Hall]. intros a. rewrite orb_true_iff, bool_decide_eq_true.
    intros [Ha| ->]; [|done]. by apply category_char_spec.
  - by eapply str_forallb_not_contains; [|exact Hall].
  - by eapply str_forallb_not_contains; [|exact Hall].
Qed.

Lemma parse_format_categories cs : parse_categories (format_categories cs) = cs.
Proof.
  unfold parse_categories, format_categories. destruct cs as [|c cs]; [done|].
  rewrite split_on_join; [| |].
  - induction (c :: cs) as [|d ds IH]; [done|]. rewrite fmap_cons. cbn [List.filter].
    destruct (category_name_chars d) as [_ Hd]. rewrite bool_decide_false by done. cbn [negb].
    by rewrite fmap_cons, category_from_name_name, IH.
  - done.
  - apply Forall_fmap, Forall_forall. intros d _. simpl. by destruct d.
Qed.

Lemma scope_name_roundtrip scoping scope :
  RateLimitScope.for_quota scoping (QuotaScope.from_name
    (RateLimitScope.name (RateLimitScope.for_quota scoping scope))) =
  RateLimitScope.for_quota scoping scope.
Proof. by destruct scope. Qed.

Section HeaderLemmas.
Context (now : Instant) (scoping : Scoping).

(** The components of a formatted limit. *)
Definition components (l : RateLimit) : list string :=
  [u64_to_string (RetryAfter.remaining_seconds now (RateLimit.retry_after l));
   format_categories (RateLimit.categories l);
   RateLimitScope.name (RateLimit.scope l)]
  ++ match RateLimit.reason_code l with Some r => [reason_str r] | None => [] end.

Lemma format_limit_components l : format_limit now l = join_with ":" (components l).
Proof.
  unfold format_limit, components. destruct (RateLimit.reason_code l); simpl; [done|].
  by rewrite str_app_nil_r.
Qed.

Lemma header_safe_spec s :
  header_safe s = true ->
  graphic s = true /\ contains_char "," s = false /\ contains_char ":" s = false.
Proof. unfold header_safe. rewrite !andb_true_iff, !negb_true_iff. tauto. Qed.

Lemma components_spec l :
  limit_ok now scoping l ->
  Forall (fun s => graphic s = true /\ contains_char "," s = false /\ contains_char ":" s = false)
    (components l).
Proof.
  intros (_ & _ & Hr). unfold components. repeat constructor.
  - apply digits_graphic, u64_to_string_digits, remaining_seconds_nonneg.
  - apply u64_to_string_no_char; [done|apply remaining_seconds_nonneg].
  - apply u64_to_string_no_char; [done|apply remaining_seconds_nonneg].
  - apply format_categories_chars.
  - apply format_categories_chars.
  - apply format_categories_chars.
  - by destruct (RateLimit.scope l).
  - by destruct (RateLimit.scope l).
  - by destruct (RateLimit.scope l).
  - destruct (RateLimit.reason_code l); [|constructor].
    constructor; [by apply header_safe_spec|constructor].
Qed.

Lemma join_colon_chars l :
  Forall (fun s => graphic s = true /\ contains_char "," s = false /\ contains_char ":" s = false) l ->
  graphic (join_with ":" l) = true /\ contains_char "," (join_with ":" l) = false.
Proof.
  induction 1 as [|s l (Hg & Hc & _) Hl [IHg IHc]]; [done|].
  destruct l as [|t l]; [by simpl|]. rewrite join_with_cons. unfold graphic in *.
  by rewrite !str_forallb_app, !contains_char_app, Hg, Hc, IHg, IHc.
Qed.

Lemma format_limit_chars l :
  limit_ok now scoping l ->
  graphic (format_limit now l) = true /\ contains_char "," (format_limit now l) = false /\
  format_limit now l <> "".
Proof.
  intros Hok. rewrite format_limit_components.
  destruct (join_colon_chars _ (components_spec l Hok)) as [Hg Hc]. split_and!; [done|done|].
  unfold components. simpl. intros Heq. apply (u64_to_string_nonempty (RetryAfter.remaining_seconds now (RateLimit.retry_after l))).
  by destruct (u64_to_string _).
Qed.

Lemma parse_format_limit l s :
  limit_ok now scoping l -> s = format_limit now l \/ s = String " " (format_limit now l) ->
  parse_limit now scoping s = Some (rounded now l).
Proof.
  intros Hok Hs. destruct (format_limit_chars l Hok) as (Hg & Hc & Hne). unfold parse_limit.
  assert (trim s = format_limit now l) as ->.
  { destruct Hs as [->| ->]; [by apply trim_graphic|by apply trim_space_graphic]. }
  rewrite bool_decide_false by done. rewrite format_limit_components.
  rewrite split_on_join; [|done|].
  2:{ eapply Forall_impl; [apply components_spec, Hok|]. by intros x (_ & _ & ?). }
  destruct Hok as ((scope & Hscope) & Hsecs & Hr). unfold components. simpl.
  rewrite retry_after_from_str_u64 by (split; [apply remaining_seconds_nonneg|done]). simpl.
  rewrite parse_format_categories. unfold rounded. do 2 f_equal.
  - rewrite Hscope. apply scope_name_roundtrip.
  - destruct (RateLimit.reason_code l) as [[r]|]; done.
Qed.

End HeaderLemmas.

(** The pieces between the commas. *)
Definition pieces (now : Instant) (ls : RateLimits) : list string :=
  match ls with
  | [] => []
  | l :: ls => format_limit now l :: ((fun l => String " " (format_limit now l)) <$> ls)
  end.

Lemma format_loop_app now ls header :
  header <> "" ->
  format_loop now ls header =
  join_with "," (header :: ((fun l => String " " (format_limit now l)) <$> ls)).
Proof.
  revert header. induction ls as [|l ls IH]; intros header Hh; [done|].
  cbn [format_loop]. rewrite bool_decide_false by done. rewrite IH.
  - rewrite fmap_cons, join_with_cons.
    destruct ls as [|l' ls]; [by rewrite str_app_assoc|].
    rewrite !fmap_cons, !join_with_cons, !str_app_assoc. done.
  - by destruct header.
Qed.

Lemma format_rate_limits_pieces now scoping ls :
  Forall (limit_ok now scoping) ls -> format_rate_limits now ls = join_with "," (pieces now ls).
Proof.
  intros Hok. destruct ls as [|l ls]; [done|]. apply Forall_cons in Hok as [Hl _].
  unfold format_rate_limits. cbn [format_loop]. rewrite bool_decide_true by done.
  change ("" +:+ format_limit now l) with (format_limit now l).
  by rewrite format_loop_app by (by apply (format_limit_chars now scoping)).
Qed.

Lemma parse_loop_rounded now scoping ss ls acc :
  Forall2 (fun s l => parse_limit now scoping s = Some (rounded now l)) ss ls ->
  parse_loop now scoping ss acc = foldl RateLimits.add acc (rounded now <$> ls).
Proof.
  intros Hall. revert acc. induction Hall as [|s l ss ls Hs Hall IH]; intros acc; [done|].
  simpl. rewrite Hs. apply IH.
Qed.

Lemma add_fresh acc x :
  StronglySorted DataCategory.le (RateLimit.categories x) -> limit_key x ∉ limit_key <$> acc ->
  RateLimits.add acc x = acc ++ [x].
Proof.
  intros Hs Hx. unfold RateLimits.add. rewrite sort_categories_id by done.
  induction acc as [|y acc IH]; [done|]. rewrite fmap_cons, not_elem_of_cons in Hx.
  destruct Hx as [Hy Hx]. simpl. rewrite same_key_spec, bool_decide_false by congruence.
  by rewrite IH.
Qed.

Lemma foldl_add_fresh ls acc :
  NoDup (limit_key <$> acc ++ ls) ->
  Forall (fun l => StronglySorted DataCategory.le (RateLimit.categories l)) ls ->
  foldl RateLimits.add acc ls = acc ++ ls.
Proof.
  revert acc. induction ls as [|l ls IH]; intros acc Hnd Hs; [by rewrite app_nil_r|].
  apply Forall_cons in Hs as [Hl Hs]. simpl. rewrite add_fresh; [|done|].
  - rewrite IH; [by rewrite <- app_assoc| |done]. by rewrite <- app_assoc.
  - rewrite fmap_app, fmap_cons in Hnd. apply NoDup_app in Hnd as (_ & Hnd & _).
    intros Hin. apply (Hnd _ Hin). by left.
Qed.

Lemma limits_wf_rounded now ls : limits_wf ls -> limits_wf (rounded now <$> ls).
Proof.
  intros [Hn Hs]. split.
  - rewrite <- list_fmap_compose. done.
  - by apply Forall_fmap.
Qed.

(** ** Lemmas on the limiter *)

Lemma retain_omap (g : Item -> Item * bool) its :
  Envelope.retain (fun u it => let '(it, keep) := g it in (u, it, keep)) () its =
  ((), omap (fun it => let '(it, keep) := g it in if keep : bool then Some it else None) its).
Proof.
  induction its as [|it its IH]; simpl; [done|]. destruct (g it) as [it' []]; simpl; by rewrite IH.
Qed.

Lemma list_omap_pointwise {A B} (f g : A -> option B) (l : list A) :
  (forall x, f x = g x) -> omap f l = omap g l.
Proof. intros H. induction l as [|x l IH]; [done|]. unfold omap in *. simpl. by rewrite H, IH. Qed.

Definition limited (ls : RateLimits) : bool := match ls with [] => false | _ => true end.

Lemma limited_longest ls :
  limited ls = match RateLimits.longest ls with Some _ => true | None => false end.
Proof.
  destruct (RateLimits.longest ls) eqn:Hl; [by destruct ls|]. by apply longest_None in Hl as ->.
Qed.

Lemma category_limit_active c q ls :
  CategoryLimit.is_active (CategoryLimit.new c q (RateLimits.longest ls)) =
  limited ls && bool_decide (0 < q).
Proof.
  rewrite limited_longest. by destruct (RateLimits.longest ls).
Qed.

(** *** What a summary says *)

Definition is_attachment (it : Item) : bool := bool_decide (Item.ty (Item.headers it) = ItemType.Attachment).
Definition is_session (it : Item) : bool := bool_decide (Item.ty (Item.headers it) = ItemType.Session).
Definition counted (it : Item) : bool := negb (Item.rate_limited (Item.headers it)).

(** The category of an item that creates an event. *)
Definition created_category (it : Item) : option DataCategory :=
  if Item.creates_event it then infer_event_category it else None.

(** The first event decides the category.  Attachments count with their size, at least 1,
    and sessions by their number, unless they were rate limited before; attachments that
    create no event are plain. *)
Definition expected_summary (items : list Item) : EnvelopeSummary :=
  EnvelopeSummary.MkEnvelopeSummary
    (head (omap created_category items))
    (foldr Z.add 0 ((fun it => Z.max (Item.len it) 1) <$> List.filter (fun it => is_attachment it && counted it) items))
    (Z.of_nat (length (List.filter (fun it => is_session it && counted it) items)))
    (existsb (fun it => is_attachment it && negb (Item.creates_event it)) items).

Lemma created_category_default it : created_category it <> Some DataCategory.Default.
Proof. unfold created_category, infer_event_category. by destruct (Item.creates_event it), (Item.ty (Item.headers it)). Qed.

(** One item, in terms of the four components. *)
Lemma add_item_spec s it :
  EnvelopeSummary.event_category s <> Some DataCategory.Default ->
  EnvelopeSummary.add_item s it =
  EnvelopeSummary.MkEnvelopeSummary
    (match EnvelopeSummary.event_category s with Some c => Some c | None => created_category it end)
    (EnvelopeSummary.attachment_quantity s + (if is_attachment it && counted it then Z.max (Item.len it) 1 else 0))
    (EnvelopeSummary.session_quantity s + (if is_session it && counted it then 1 else 0))
    (EnvelopeSummary.has_plain_attachments s || is_attachment it && negb (Item.creates_event it)).
Proof.
  intros Hd. unfold EnvelopeSummary.add_item, EnvelopeSummary.infer_category, created_category, is_attachment, is_session, counted.
  destruct s as [c aq sq pl]. cbn [EnvelopeSummary.event_category EnvelopeSummary.attachment_quantity
    EnvelopeSummary.session_quantity EnvelopeSummary.has_plain_attachments] in *.
  destruct (Item.creates_event it), c as [ [] |], (infer_event_category it), (Item.ty (Item.headers it)), (Item.rate_limited (Item.headers it));
    try done; cbn; rewrite ?Z.add_0_r, ?orb_false_r, ?orb_true_r; done.
Qed.

Lemma compute_items_spec items : forall s,
  EnvelopeSummary.event_category s <> Some DataCategory.Default ->
  EnvelopeSummary.compute_items items s =
  EnvelopeSummary.MkEnvelopeSummary
    (match EnvelopeSummary.event_category s with Some c => Some c | None => EnvelopeSummary.event_category (expected_summary items) end)
    (EnvelopeSummary.attachment_quantity s + EnvelopeSummary.attachment_quantity (expected_summary items))
    (EnvelopeSummary.session_quantity s + EnvelopeSummary.session_quantity (expected_summary items))
    (EnvelopeSummary.has_plain_attachments s || EnvelopeSummary.has_plain_attachments (expected_summary items)).
Proof.
  induction items as [|it items IH]; intros s Hd; unfold EnvelopeSummary.compute_items; cbn [fold_left].
  - destruct s as [ [c|] aq sq pl]; cbn; by rewrite !Z.add_0_r, orb_false_r.
  - fold (EnvelopeSummary.compute_items items (EnvelopeSummary.add_item s it)).
    rewrite add_item_spec by done. rewrite IH; cbn [EnvelopeSummary.event_category].
    2: { destruct (EnvelopeSummary.event_category s); [done|apply created_category_default]. }
    unfold expected_summary. cbn [EnvelopeSummary.event_category EnvelopeSummary.attachment_quantity
      EnvelopeSummary.session_quantity EnvelopeSummary.has_plain_attachments existsb List.filter].
    f_equal.
    + destruct (EnvelopeSummary.event_category s); [done|]. unfold omap. cbn [list_omap]. by destruct (created_category it).
    + destruct (is_attachment it && counted it); cbn; lia.
    + destruct (is_session it && counted it); cbn; lia.
    + by rewrite orb_assoc.
Qed.

Lemma compute_spec envelope : EnvelopeSummary.compute envelope = expected_summary (Envelope.items envelope).
Proof. unfold EnvelopeSummary.compute. by rewrite compute_items_spec. Qed.

(** *** The rules of the limiter *)

Section Rules.
Context {E : Type} (check : ItemScoping -> Z -> RateLimits) (scoping : Scoping).

(** [check] with a log of its calls. *)
Definition logged (log : list (DataCategory * Z)) (i : ItemScoping) (q : Z)
  : list (DataCategory * Z) * result E RateLimits :=
  (log ++ [(category i, q)], Ok (check i q)).

Context (summary : EnvelopeSummary).
Let aq := EnvelopeSummary.attachment_quantity summary.
Let sq := EnvelopeSummary.session_quantity summary.

Definition event_limits : RateLimits :=
  match EnvelopeSummary.event_category summary with
  | Some c => check (item scoping c) 1
  | None => []
  end.

Definition event_limited : bool := limited event_limits.
Definition attachments_checked : bool := negb event_limited && bool_decide (0 < aq).
Definition attachment_limits : RateLimits :=
  if attachments_checked then check (item scoping DataCategory.Attachment) aq else [].
Definition session_limits : RateLimits :=
  if bool_decide (0 < sq) then check (item scoping DataCategory.Session) sq else [].

(** Once for the event, once for all attachments unless the event is limited,
    once for all sessions. *)
Definition expected_calls : list (DataCategory * Z) :=
  match EnvelopeSummary.event_category summary with Some c => [(c, 1)] | None => [] end
  ++ (if attachments_checked then [(DataCategory.Attachment, aq)] else [])
  ++ (if bool_decide (0 < sq) then [(DataCategory.Session, sq)] else []).

(** What remains of an item. *)
Definition keep_rule (it : Item) : option Item :=
  if event_limited && Item.requires_event it then None
  else
    match Item.ty (Item.headers it) with
    | ItemType.Attachment =>
        if limited attachment_limits then
          if Item.creates_event it then Some (Item.set_rate_limited it true) else None
        else Some it
    | ItemType.Session => if limited session_limits then None else Some it
    | _ => Some it
    end.

Definition expected_limits : RateLimits :=
  RateLimits.merge
    (RateLimits.merge (RateLimits.merge RateLimits.new event_limits)
       (if EnvelopeSummary.has_plain_attachments summary then attachment_limits else []))
    session_limits.

(** The enforcement of a category: nothing if it is not limited, else the category, its
    quantity and the reason of the longest limit; attachments share the limits of the event. *)
Definition limited_category (c : DataCategory) (q : Z) (ls : RateLimits) : CategoryLimit :=
  match RateLimits.longest ls with
  | Some limit => CategoryLimit.MkCategoryLimit c q (RateLimit.reason_code limit)
  | None => CategoryLimit.default_
  end.
Definition expected_enforcement : Enforcement :=
  Enforcement.MkEnforcement
    (match EnvelopeSummary.event_category summary with
     | Some c => limited_category c 1 event_limits
     | None => CategoryLimit.default_
     end)
    (limited_category DataCategory.Attachment aq (if event_limited then event_limits else attachment_limits))
    (limited_category DataCategory.Session sq session_limits).

Lemma execute_spec :
  exists enf,
    execute logged [] summary scoping = (expected_calls, Ok (enf, expected_limits)) /\
    CategoryLimit.is_active (Enforcement.event enf) = event_limited /\
    CategoryLimit.is_active (Enforcement.attachments enf) =
      (event_limited && bool_decide (0 < aq)) || limited attachment_limits /\
    CategoryLimit.is_active (Enforcement.sessions enf) = limited session_limits /\
    (event_limited = true ->
     CategoryLimit.reason_code (Enforcement.event enf) =
       RateLimits.longest event_limits ≫= RateLimit.reason_code /\
     CategoryLimit.reason_code (Enforcement.attachments enf) =
       RateLimits.longest event_limits ≫= RateLimit.reason_code).
Proof.
  unfold execute, execute_event, expected_calls, expected_limits, attachment_limits, session_limits,
    attachments_checked, event_limited, event_limits.
  destruct (EnvelopeSummary.event_category summary) as [c|]; simpl.
  - set (el := check (item scoping c) 1).
    unfold execute_attachments. simpl. rewrite category_limit_active, (bool_decide_true (0 < 1)), andb_true_r by lia.
    rewrite (limited_longest el). destruct (RateLimits.longest el) as [r|] eqn:Hr; simpl.
    + unfold execute_sessions. simpl. fold aq. fold sq.
      destruct (EnvelopeSummary.has_plain_attachments summary), (bool_decide (0 < sq)) eqn:Hs; simpl;
        (eexists; split; [done|]); simpl; rewrite ?category_limit_active, ?Hs, ?andb_true_r, ?orb_false_r; done.
    + fold aq. destruct (bool_decide (0 < aq)) eqn:Ha; simpl;
        unfold execute_sessions; simpl; fold sq;
        destruct (bool_decide (0 < sq)) eqn:Hs; simpl;
        destruct (EnvelopeSummary.has_plain_attachments summary); simpl;
        (eexists; split; [done|]); simpl; fold aq; fold sq;
        rewrite ?category_limit_active, ?Hs, ?Ha, ?andb_true_r; done.
  - unfold execute_attachments. simpl. fold aq. destruct (bool_decide (0 < aq)) eqn:Ha; simpl;
      unfold execute_sessions; simpl; fold sq;
      destruct (bool_decide (0 < sq)) eqn:Hs; simpl;
      destruct (EnvelopeSummary.has_plain_attachments summary); simpl;
      (eexists; split; [done|]); simpl; fold aq; fold sq;
      rewrite ?category_limit_active, ?Hs, ?Ha, ?andb_true_r; done.
Qed.

Lemma execute_expected :
  execute logged [] summary scoping = (expected_calls, Ok (expected_enforcement, expected_limits)).
Proof.
  destruct execute_spec as (enf & Hx & _). rewrite Hx. do 3 f_equal. revert Hx.
  unfold execute, execute_event, expected_enforcement, limited_category, attachment_limits, session_limits,
    attachments_checked, event_limited, event_limits.
  destruct (EnvelopeSummary.event_category summary) as [c|]; simpl.
  - set (el := check (item scoping c) 1). unfold execute_attachments. simpl.
    rewrite category_limit_active, (bool_decide_true (0 < 1)), andb_true_r by lia. rewrite (limited_longest el).
    destruct (RateLimits.longest el) as [r|] eqn:Hr; simpl; unfold execute_sessions; fold aq; fold sq;
      destruct (bool_decide (0 < aq)), (bool_decide (0 < sq)), (EnvelopeSummary.has_plain_attachments summary); simpl;
      intros [= _ <- _]; rewrite ?Hr; done.
  - unfold execute_attachments. simpl. fold aq. destruct (bool_decide (0 < aq)); simpl; unfold execute_sessions; simpl; fold sq;
      destruct (bool_decide (0 < sq)), (EnvelopeSummary.has_plain_attachments summary); simpl; intros [= _ <- _]; done.
Qed.

End Rules.

(** ** Properties *)

(** The [X-Sentry-Rate-Limits] header carries rate limits without loss: what
    [format_rate_limits] writes, [parse_rate_limits] reads back in the same order
    with the same categories, scopes and reasons, and with the delays rounded up to
    whole seconds. *)
Theorem rate_limits_header_roundtrip now scoping ls
    (Hwf : limits_wf ls) (Hok : Forall (limit_ok now scoping) ls) :
  parse_rate_limits now scoping (format_rate_limits now ls) = rounded now <$> ls.
Proof.
  rewrite (format_rate_limits_pieces now scoping) by done. unfold parse_rate_limits.
  destruct ls as [|l ls]; [done|].
  rewrite split_on_join; [|done|].
  - rewrite (parse_loop_rounded now scoping _ (l :: ls)).
    + destruct (limits_wf_rounded now (l :: ls) Hwf) as [Hn Hs].
      by rewrite foldl_add_fresh.
    + apply Forall_cons in Hok as [Hl Hls]. simpl. constructor; [by apply parse_format_limit; auto|].
      clear Hwf. induction Hls as [|l' ls Hl' Hls IH]; constructor; auto.
      by apply parse_format_limit; auto.
  - apply Forall_cons in Hok as [Hl Hls]. simpl. constructor; [by apply (format_limit_chars now scoping)|].
    apply Forall_fmap. eapply Forall_impl; [exact Hls|]. intros l' Hl'. simpl.
    rewrite contains_char_cons. simpl. by apply (format_limit_chars now scoping).
Qed.


(** The example "Previously Rate Limited Attachments" of [enforce] does not
    hold for the attachments that can carry the mark: a minidump marked as
    [rate_limited] still counts as an event, so a limit on errors removes it. *)
Theorem rate_limited_minidump_removed {E} check scoping headers it
    (Hty : Item.ty (Item.headers it) = ItemType.Attachment)
    (Hat : Item.attachment_type (Item.headers it) = Some AttachmentType.Minidump)
    (Hmarked : Item.rate_limited (Item.headers it) = true)
    (Hlimit : check (item scoping DataCategory.Error) 1 <> []) :
  exists enf limits,
    enforce (logged (E := E) check) (new []) (Envelope.MkEnvelope headers [it]) scoping =
    ([(DataCategory.Error, 1)], Envelope.MkEnvelope headers [], Ok (enf, limits)) /\
    CategoryLimit.is_active (Enforcement.event enf) = true.
Proof.
  assert (Item.creates_event it = true) as Hcr by (unfold Item.creates_event; by rewrite Hty, Hat).
  assert (Item.requires_event it = true) as Hrq by (unfold Item.requires_event; by rewrite Hty).
  unfold enforce, new, EnvelopeSummary.compute, EnvelopeSummary.compute_items. simpl.
  unfold EnvelopeSummary.add_item, EnvelopeSummary.infer_category, infer_event_category. simpl.
  rewrite Hcr, Hmarked, Hty. simpl.
  destruct (@execute_spec E check scoping
    (EnvelopeSummary.MkEnvelopeSummary (Some DataCategory.Error) 0 0 false)) as (enf & Hx & He & _).
  rewrite Hx. unfold expected_calls, attachments_checked. simpl.
  assert (event_limited check scoping (EnvelopeSummary.MkEnvelopeSummary (Some DataCategory.Error) 0 0 false) = true) as Hev.
  { unfold event_limited, event_limits. simpl. by destruct (check _ 1). }
  unfold Envelope.retain_items. simpl. unfold retain_item. rewrite He, Hev, Hrq. simpl.
  eexists enf, _. split; [done|]. by rewrite He.
Qed.

(** ** Concrete instances *)

Lemma rate_limits_header_roundtrip_witness :
  parse_rate_limits 0 sample_scoping
    (format_rate_limits 0 [sample_limit 60 [DataCategory.Error; DataCategory.Transaction]]) =
  [sample_limit 60 [DataCategory.Error; DataCategory.Transaction]].
Proof.
  rewrite (rate_limits_header_roundtrip 0 sample_scoping
    [sample_limit 60 [DataCategory.Error; DataCategory.Transaction]]).
  - vm_compute. reflexivity.
  - split; [repeat constructor; set_solver|].
    repeat constructor; unfold DataCategory.le; simpl; lia.
  - repeat constructor; vm_compute; try done. by exists QuotaScope.Organization.
Defined.

Lemma rate_limited_minidump_removed_witness :
  let it := Item.set_rate_limited
              (Item.set_attachment_type (Item.new ItemType.Attachment) AttachmentType.Minidump) true in
  exists enf limits,
    enforce (logged (E := ()) (fun _ _ => [sample_limit 60 []])) (new [])
      (Envelope.MkEnvelope (sample_headers sample_dsn) [it]) sample_scoping =
    ([(DataCategory.Error, 1)], Envelope.MkEnvelope (sample_headers sample_dsn) [], Ok (enf, limits)) /\
    CategoryLimit.is_active (Enforcement.event enf) = true.
Proof. apply rate_limited_minidump_removed; (reflexivity || discriminate). Defined.
