(* ===== verification/Transactions.v ===== *)
(** * relay-general: transactions (store/transactions.rs, types/annotated.rs)

    The processor that rejects transaction events without required fields and fills in
    defaults. *)

From Stdlib Require Import Ascii String.
From S2P Require Import Prelude Strings Floats Types Common Protocol.

Open Scope string_scope.
Open Scope Z_scope.
Open Scope list_scope.

(** [Annotated::apply] on the result of a processor; [original] is the value as
    meta data keep it, unless it is too large for that. *)
Definition apply {T} (original : T -> option Value) (self : Annotated T)
  (f : T -> Meta -> result ProcessingAction (T * Meta)) : result ProcessingAction (Annotated T) :=
  match self with
  | MkAnnotated None m => Ok self
  | MkAnnotated (Some v) m =>
      match f v m with
      | Ok (v, m) => Ok (MkAnnotated (Some v) m)
      | Err ProcessingAction.DeleteValueHard => Ok (MkAnnotated None m)
      | Err ProcessingAction.DeleteValueSoft =>
          Ok (MkAnnotated None
                match original v with
                | Some o => let '(MkMetaInner r e l _) := Meta.upsert m in MkMeta (Some (MkMetaInner r e l (Some o)))
                | None => m
                end)
      | Err (ProcessingAction.InvalidTransaction s) => Err (ProcessingAction.InvalidTransaction s)
      end
  end.

Module TransactionsProcessor.

Definition invalid {A} (message : string) : result ProcessingAction A :=
  Err (ProcessingAction.InvalidTransaction message).

(** Both timestamps are required and ordered; each failure has its message. *)
Definition check_timestamps (start_timestamp timestamp : Annotated Timestamp) (smaller no_end no_start : string)
  : result ProcessingAction () :=
  match Annotated.value start_timestamp, Annotated.value timestamp with
  | Some start, Some end_ => if bool_decide (end_ < start) then invalid smaller else Ok ()
  | _, None => invalid no_end
  | None, _ => invalid no_start
  end.

Definition process_span (span : Span) : result ProcessingAction Span :=
  _ ← check_timestamps (Span.start_timestamp span) (Span.timestamp span)
        "end timestamp in span is smaller than start timestamp" "span is missing timestamp"
        "span is missing start_timestamp";
  if bool_decide (Annotated.value (Span.trace_id span) = None) then invalid "span is missing trace_id"
  else if bool_decide (Annotated.value (Span.span_id span) = None) then invalid "span is missing span_id"
  else
    let '(_, op) := Annotated.get_or_insert_with (Span.op span) "default" in
    Ok (Span.MkSpan (Span.timestamp span) (Span.start_timestamp span) op (Span.span_id span)
          (Span.trace_id span) (Span.other span)).

Definition process_trace_context (context : Context) : result ProcessingAction Context :=
  match context with
  | Context.Trace t =>
      if bool_decide (Annotated.value (TraceContext.trace_id t) = None)
      then invalid "trace context is missing trace_id"
      else if bool_decide (Annotated.value (TraceContext.span_id t) = None)
      then invalid "trace context is missing span_id"
      else
        let '(_, op) := Annotated.get_or_insert_with (TraceContext.op t) "default" in
        Ok (Context.Trace (TraceContext.MkTraceContext (TraceContext.trace_id t) (TraceContext.span_id t) op
                             (TraceContext.status t) (TraceContext.other t)))
  | _ => invalid "context at event.contexts.trace must be of type trace."
  end.

Definition process_contexts (contexts : Annotated (Object Context))
  : result ProcessingAction (Annotated (Object Context)) :=
  let required := invalid "trace context hard-required for transaction events" in
  match Annotated.value contexts with
  | None => required
  | Some map =>
      match map !! "trace" with
      | Some trace =>
          match Annotated.value trace with
          | Some context =>
              context ← process_trace_context context;
              Ok (Annotated.set_value contexts
                    (Some (<["trace" := Annotated.set_value trace (Some context)]> map)))
          | None => required
          end
      | None => required
      end
  end.

Fixpoint check_spans (spans : list (Annotated Span)) : result ProcessingAction () :=
  match spans with
  | [] => Ok ()
  | span :: spans =>
      if bool_decide (Annotated.value span = None) then invalid "spans must be valid in transaction event"
      else check_spans spans
  end.

Definition label (transaction : Annotated string) : Annotated string :=
  let empty := match Annotated.value transaction with None => true | Some s => bool_decide (s = "") end in
  if empty then Annotated.set_value transaction (Some "<unlabeled transaction>") else transaction.

(** On an error the event is dropped, so the error stands for the whole result.
    Of the children of an event only spans are processed. *)
Definition process_event (event : Event) : result ProcessingAction Event :=
  if negb (bool_decide (Annotated.value (event_ty event) = Some EventType.Transaction)) then Ok event
  else
    let transaction := label (transaction event) in
    _ ← check_timestamps (start_timestamp event) (timestamp event)
          "end timestamp is smaller than start timestamp"
          "timestamp hard-required for transaction events"
          "start_timestamp hard-required for transaction events";
    contexts ← process_contexts (contexts event);
    let '(spans, _) := Annotated.get_or_insert_with (spans event) [] in
    _ ← check_spans spans;
    spans' ← mapM (Annotated.mapM process_span) spans;
    Ok (set_spans (set_contexts (set_transaction event transaction) contexts)
          (Annotated.set_value (Protocol.spans event) (Some spans'))).

End TransactionsProcessor.

(** ** The store processor (store/mod.rs) *)

Module StoreConfig.

Record StoreConfig := MkStoreConfig {
  project_id : option Z;
  client_ip : option IpAddr;
  client : option string;
  key_id : option string;
  protocol_version : option string;
  user_agent : option string;
  received_at : option DateTime;
  sent_at : option DateTime;
  max_secs_in_future : option Z;
  max_secs_in_past : option Z;
  enable_trimming : option bool;
  is_renormalize : option bool;
  remove_other : option bool;
  normalize_user_agent : option bool;
}.

End StoreConfig.
Notation StoreConfig := StoreConfig.StoreConfig.

(** The passes of the store processor as the interface that it runs them through; the
    processors themselves are in [StoreChecks], [Normalize] and [Trimming].  Normalization
    also reads the grouping and breakdown settings and the GeoIP database. *)
Class StoreProcessors := {
  legacy_process : Event -> Meta -> result ProcessingAction (Event * Meta);
  schema_process : Event -> Meta -> result ProcessingAction (Event * Meta);
  normalize_process : StoreConfig -> Event -> Meta -> result ProcessingAction (Event * Meta);
  remove_other_process : Event -> Meta -> result ProcessingAction (Event * Meta);
  emit_errors_process : Event -> Meta -> result ProcessingAction (Event * Meta);
  trimming_process : Event -> Meta -> result ProcessingAction (Event * Meta);
  (** the event as [original_value] keeps it *)
  original_event : Event -> option Value;
}.

Module StoreProcessor.
Section StoreProcessor.
Context `{StoreProcessors}.

Definition process_event (config : StoreConfig) (event : Event) (meta : Meta)
  : result ProcessingAction (Event * Meta) :=
  let is_renormalize := default false (StoreConfig.is_renormalize config) in
  let remove_other := default (negb is_renormalize) (StoreConfig.remove_other config) in
  let enable_trimming := default true (StoreConfig.enable_trimming config) in
  '(event, meta) ← legacy_process event meta;
  event ← (if negb is_renormalize then TransactionsProcessor.process_event event else Ok event);
  '(event, meta) ← (if negb is_renormalize then
                      '(event, meta) ← schema_process event meta; normalize_process config event meta
                    else Ok (event, meta));
  '(event, meta) ← (if remove_other : bool then remove_other_process event meta else Ok (event, meta));
  '(event, meta) ← (if negb is_renormalize then emit_errors_process event meta else Ok (event, meta));
  if enable_trimming : bool then trimming_process event meta else Ok (event, meta).

(** [process_value] on an annotated event. *)
Definition process_value (config : StoreConfig) (event : Annotated Event) : result ProcessingAction (Annotated Event) :=
  apply original_event event (process_event config).

End StoreProcessor.
End StoreProcessor.

(** ** What an accepted transaction looks like *)

Definition is_some {A} (a : Annotated A) : bool := match Annotated.value a with Some _ => true | None => false end.

Definition ordered (start end_ : Annotated Timestamp) : bool :=
  match Annotated.value start, Annotated.value end_ with
  | Some s, Some e => bool_decide (s <= e)
  | _, _ => false
  end.

(** The required fields of a span; [complete] also asks for the defaults. *)
Definition span_valid (s : Span) : bool :=
  ordered (Span.start_timestamp s) (Span.timestamp s) && is_some (Span.trace_id s) && is_some (Span.span_id s).
Definition span_complete (s : Span) : bool := span_valid s && is_some (Span.op s).

Definition trace_valid (c : Context) : bool :=
  match c with
  | Context.Trace t => is_some (TraceContext.trace_id t) && is_some (TraceContext.span_id t)
  | _ => false
  end.
Definition trace_complete (c : Context) : bool :=
  match c with Context.Trace t => trace_valid c && is_some (TraceContext.op t) | _ => false end.

Definition annotated_is {A} (p : A -> bool) (a : Annotated A) : bool :=
  match Annotated.value a with Some v => p v | None => false end.

(** The fields a transaction must have for downstream services. *)
Definition transaction_valid (e : Event) : bool :=
  ordered (start_timestamp e) (timestamp e)
  && annotated_is (fun m => match m !! "trace" with Some c => annotated_is trace_valid c | None => false end)
       (contexts e)
  && match Annotated.value (spans e) with Some ss => forallb (annotated_is span_valid) ss | None => true end.
Definition transaction_complete (e : Event) : bool :=
  annotated_is (fun s => negb (bool_decide (s = ""))) (transaction e)
  && ordered (start_timestamp e) (timestamp e)
  && annotated_is (fun m => match m !! "trace" with Some c => annotated_is trace_complete c | None => false end)
       (contexts e)
  && annotated_is (forallb (annotated_is span_complete)) (spans e).

(** ** Correctness *)

Import TransactionsProcessor.

(** [f] accepts exactly the values [valid] describes, and makes them [complete]. *)
Definition completes {A} (f : A -> result ProcessingAction A) (valid complete : A -> bool) : Prop :=
  forall a, match f a with
            | Ok a' => valid a = true /\ complete a' = true
            | Err _ => valid a = false
            end.

(** [f] leaves complete values alone. *)
Definition settles {A} (f : A -> result ProcessingAction A) (complete : A -> bool) : Prop :=
  forall a, complete a = true -> f a = Ok a.

Lemma check_timestamps_spec s e m1 m2 m3 :
  match check_timestamps s e m1 m2 m3 with Ok _ => ordered s e = true | Err _ => ordered s e = false end.
Proof.
  unfold check_timestamps, ordered, invalid. destruct (Annotated.value s), (Annotated.value e); try done.
  case_bool_decide; [rewrite bool_decide_false|rewrite bool_decide_true]; (done || lia).
Qed.

Lemma check_timestamps_ordered s e m1 m2 m3 : ordered s e = true -> check_timestamps s e m1 m2 m3 = Ok ().
Proof.
  intros Ho. pose proof (check_timestamps_spec s e m1 m2 m3) as H.
  destruct (check_timestamps s e m1 m2 m3) as [[]|]; congruence.
Qed.

Lemma op_default_some {A} (a : Annotated A) d : is_some (Annotated.get_or_insert_with a d).2 = true.
Proof. by destruct a as [[]]. Qed.

Lemma get_or_insert_some {A} (a : Annotated A) d :
  is_some a = true -> (Annotated.get_or_insert_with a d).2 = a.
Proof. by destruct a as [[]]. Qed.

Lemma value_none {A} (a : Annotated A) : Annotated.value a = None <-> is_some a = false.
Proof. unfold is_some. by destruct (Annotated.value a). Qed.

Lemma span_completes : completes process_span span_valid span_complete.
Proof.
  intros s. unfold process_span, span_complete, span_valid.
  pose proof (check_timestamps_spec (Span.start_timestamp s) (Span.timestamp s)
    "end timestamp in span is smaller than start timestamp" "span is missing timestamp"
    "span is missing start_timestamp") as Ho.
  destruct (check_timestamps _ _ _ _ _); simpl; rewrite Ho; [|done].
  case_bool_decide as Ht; [by apply value_none in Ht as ->|rewrite value_none, not_false_iff_true in Ht].
  case_bool_decide as Hs; [apply value_none in Hs as ->; by rewrite Ht|].
  rewrite value_none, not_false_iff_true in Hs. simpl. by rewrite Ho, Ht, Hs.
Qed.

Lemma span_settles : settles process_span span_complete.
Proof.
  intros s. unfold span_complete, span_valid, process_span. rewrite !andb_true_iff. intros [[[Ho Ht] Hs] Hop].
  rewrite check_timestamps_ordered by done. simpl.
  rewrite !bool_decide_false by (rewrite value_none; congruence).
  destruct s. simpl in *. destruct op as [[]]; done.
Qed.

Lemma trace_completes : completes process_trace_context trace_valid trace_complete.
Proof.
  intros c. destruct c as [| | | | | |t| | |]; try done. simpl.
  case_bool_decide as Ht; [by apply value_none in Ht as ->|rewrite value_none, not_false_iff_true in Ht].
  case_bool_decide as Hs; [apply value_none in Hs as ->; by rewrite Ht|].
  rewrite value_none, not_false_iff_true in Hs. simpl. by rewrite Ht, Hs.
Qed.

Lemma trace_settles : settles process_trace_context trace_complete.
Proof.
  intros c. destruct c as [| | | | | |t| | |]; try done. simpl.
  rewrite !andb_true_iff. intros [[Ht Hs] Hop].
  rewrite !bool_decide_false by (rewrite value_none; congruence).
  destruct t. simpl in *. destruct op as [[]]; done.
Qed.

Lemma contexts_completes :
  completes process_contexts
    (annotated_is (fun m => match m !! "trace" with Some c => annotated_is trace_valid c | None => false end))
    (annotated_is (fun m => match m !! "trace" with Some c => annotated_is trace_complete c | None => false end)).
Proof.
  intros [[m|] ?]; unfold process_contexts, annotated_is; simpl; [|done].
  destruct (m !! "trace") as [[[c|] ?]|] eqn:Hm; simpl; [|done..].
  pose proof (trace_completes c) as Hc. destruct (process_trace_context c); simpl; [|done].
  by rewrite lookup_insert_eq.
Qed.

Lemma contexts_settles :
  settles process_contexts
    (annotated_is (fun m => match m !! "trace" with Some c => annotated_is trace_complete c | None => false end)).
Proof.
  intros [[m|] ?]; unfold process_contexts, annotated_is; simpl; [|done].
  destruct (m !! "trace") as [[[c|] ?]|] eqn:Hm; simpl; [|done..].
  intros Hc. rewrite (trace_settles c Hc). unfold Annotated.set_value. simpl.
  by rewrite (insert_id _ _ _ Hm).
Qed.

(** The spans of an event: those of a transaction all hold a value. *)
Definition process_spans (ss : list (Annotated Span)) : result ProcessingAction (list (Annotated Span)) :=
  _ ← check_spans ss; mapM (Annotated.mapM process_span) ss.

Lemma check_spans_spec ss :
  match check_spans ss with Ok _ => forallb is_some ss = true | Err _ => forallb is_some ss = false end.
Proof.
  induction ss as [|s ss IH]; simpl; [done|]. case_bool_decide as Hs.
  - apply value_none in Hs. by rewrite Hs.
  - rewrite value_none, not_false_iff_true in Hs. by rewrite Hs.
Qed.

Lemma mapM_spans_spec ss :
  forallb is_some ss = true ->
  match mapM (Annotated.mapM process_span) ss with
  | Ok ss' => forallb (annotated_is span_valid) ss = true /\ forallb (annotated_is span_complete) ss' = true
  | Err _ => forallb (annotated_is span_valid) ss = false
  end.
Proof.
  induction ss as [|[[s|] m] ss IH]; simpl; [done| |done].
  intros Hss. specialize (IH Hss). pose proof (span_completes s) as Hs.
  change (annotated_is span_valid (MkAnnotated (Some s) m)) with (span_valid s).
  destruct (process_span s) as [s'|]; simpl; [|by rewrite Hs].
  destruct (mapM _ ss); simpl; destruct Hs as [-> Hs']; [|by rewrite IH].
  change (annotated_is span_complete (MkAnnotated (Some s') m)) with (span_complete s'). by rewrite Hs'.
Qed.

Lemma valid_is_some ss : forallb (annotated_is span_valid) ss = true -> forallb is_some ss = true.
Proof.
  rewrite !forallb_forall. intros H s Hs%H. by destruct s as [[]].
Qed.

Lemma spans_completes :
  completes process_spans (forallb (annotated_is span_valid)) (forallb (annotated_is span_complete)).
Proof.
  intros ss. unfold process_spans. pose proof (check_spans_spec ss) as Hc. destruct (check_spans ss); simpl.
  - by apply mapM_spans_spec.
  - apply not_true_iff_false. intros Hv%valid_is_some. congruence.
Qed.

Lemma spans_settles : settles process_spans (forallb (annotated_is span_complete)).
Proof.
  intros ss Hss. unfold process_spans. induction ss as [|[[s|] m] ss IH]; simpl in *; [done| |done].
  apply andb_true_iff in Hss as [Hs Hss]. specialize (IH Hss).
  unfold annotated_is in Hs. simpl in Hs.
  destruct (check_spans ss); simpl in *; [|done]. rewrite (span_settles s Hs). simpl. by rewrite IH.
Qed.

Lemma label_nonempty t : annotated_is (fun s => negb (bool_decide (s = ""))) (label t) = true.
Proof.
  unfold label. destruct t as [[s|] m]; simpl; [|done]. case_bool_decide as H; [done|].
  unfold annotated_is. simpl. by rewrite bool_decide_false.
Qed.

Lemma label_settles t : annotated_is (fun s => negb (bool_decide (s = ""))) t = true -> label t = t.
Proof. unfold label, annotated_is. destruct t as [[s|] m]; simpl; [|done]. by case_bool_decide. Qed.

Lemma process_event_spans e :
  process_event e =
    if negb (bool_decide (Annotated.value (event_ty e) = Some EventType.Transaction)) then Ok e
    else
      _ ← check_timestamps (start_timestamp e) (timestamp e) "end timestamp is smaller than start timestamp"
            "timestamp hard-required for transaction events"
            "start_timestamp hard-required for transaction events";
      contexts ← process_contexts (contexts e);
      ss ← process_spans (default [] (Annotated.value (spans e)));
      Ok (set_spans (set_contexts (set_transaction e (label (transaction e))) contexts)
            (Annotated.set_value (spans e) (Some ss))).
Proof.
  unfold process_event, process_spans. destruct (negb _); [done|].
  destruct (check_timestamps _ _ _ _ _); [|done]. simpl.
  destruct (process_contexts _); [|done]. simpl. by destruct (check_spans _).
Qed.

(** A transaction event is accepted exactly when it has both timestamps in order,
    a trace context with its ids and only complete spans.  What is accepted has a
    non-empty name and an operation in its trace context and in every span, and
    processing it again changes nothing.  Other events are not touched. *)
Theorem transactions_completed e :
  if bool_decide (Annotated.value (event_ty e) = Some EventType.Transaction) then
    match process_event e with
    | Ok e' => transaction_valid e = true /\ transaction_complete e' = true /\ process_event e' = Ok e'
    | Err _ => transaction_valid e = false
    end
  else process_event e = Ok e.
Proof.
  rewrite process_event_spans. bcase (Annotated.value (event_ty e) = Some EventType.Transaction) as Hty; [|done].
  unfold transaction_valid, transaction_complete. simpl.
  pose proof (check_timestamps_spec (start_timestamp e) (timestamp e)
    "end timestamp is smaller than start timestamp" "timestamp hard-required for transaction events"
    "start_timestamp hard-required for transaction events") as Ho.
  destruct (check_timestamps _ _ _ _ _); simpl; rewrite Ho; [|done]. simpl.
  pose proof (contexts_completes (contexts e)) as Hc.
  destruct (process_contexts (contexts e)) as [ctx|]; simpl; [|by rewrite Hc]. destruct Hc as [-> Hc]. simpl.
  pose proof (spans_completes (default [] (Annotated.value (spans e)))) as Hs.
  destruct (process_spans _) as [ss|]; simpl; [destruct Hs as [Hv Hs]|].
  - split; [by destruct (Annotated.value (spans e))|].
    split; [rewrite label_nonempty, Ho, Hc; exact Hs|].
    rewrite process_event_spans. simpl. rewrite bool_decide_true by done. simpl.
    rewrite (check_timestamps_ordered _ _ _ _ _ Ho). simpl. rewrite (contexts_settles ctx Hc). simpl.
    rewrite (spans_settles ss Hs). simpl. by rewrite (label_settles (label _)) by apply label_nonempty.
  - by destruct (Annotated.value (spans e)).
Qed.
