(* ===== verification/Sessions.v ===== *)
(** * relay-general: sessions and user reports (protocol/session.rs, user_report.rs)

    Session updates as clients send them.  Their JSON is read and written by
    serde's derives, which are the operations of [SerdeJson]. *)

From Stdlib Require Import Ascii String.
From S2P Require Import Prelude Strings Floats Types Common Protocol Quota Filters Sampling Extractors Envelopes.

Open Scope string_scope.
Open Scope Z_scope.
Open Scope list_scope.

(** [serde_json::from_slice] and [serde_json::to_string]. *)
Class SerdeJson (T : Type) := {
  from_slice : string -> result JsonError T;
  to_json_string : T -> result JsonError string;
}.

(** What was written is read back. *)
Class SerdeJsonLaws (T : Type) `{SerdeJson T} : Prop := {
  from_slice_to_json t s : to_json_string t = Ok s -> from_slice s = Ok t;
}.

Module SessionStatus.

Inductive SessionStatus := Ok | Exited | Crashed | Abnormal | Errored.

#[global] Instance SessionStatus_eq_dec : EqDecision SessionStatus.
Proof. solve_decision. Defined.

Definition is_terminal (self : SessionStatus) : bool :=
  negb match self with Ok => true | _ => false end.

Definition is_error (self : SessionStatus) : bool :=
  negb match self with Ok | Exited => true | _ => false end.

Definition is_fatal (self : SessionStatus) : bool :=
  match self with Crashed | Abnormal => true | _ => false end.

Definition default_ : SessionStatus := Ok.

Inductive ParseSessionStatusError := MkParseSessionStatusError.

Definition as_str (self : SessionStatus) : string :=
  match self with
  | Ok => "ok"
  | Crashed => "crashed"
  | Abnormal => "abnormal"
  | Exited => "exited"
  | Errored => "errored"
  end.

Definition from_str (s : string) : result ParseSessionStatusError SessionStatus :=
  if bool_decide (s = "ok") then Prelude.Ok Ok
  else if bool_decide (s = "crashed") then Prelude.Ok Crashed
  else if bool_decide (s = "abnormal") then Prelude.Ok Abnormal
  else if bool_decide (s = "exited") then Prelude.Ok Exited
  else if bool_decide (s = "errored") then Prelude.Ok Errored
  else Err MkParseSessionStatusError.

End SessionStatus.
Notation SessionStatus := SessionStatus.SessionStatus.

Module SessionAttributes.

Record SessionAttributes := MkSessionAttributes {
  release : string;
  environment : option string;
  ip_address : option IpAddr;
  user_agent : option string;
}.

#[global] Instance SessionAttributes_eq_dec : EqDecision SessionAttributes.
Proof. solve_decision. Defined.

Definition set_environment (self : SessionAttributes) (e : option string) : SessionAttributes :=
  MkSessionAttributes (release self) e (ip_address self) (user_agent self).
Definition set_ip_address (self : SessionAttributes) (a : option IpAddr) : SessionAttributes :=
  MkSessionAttributes (release self) (environment self) a (user_agent self).

End SessionAttributes.
Notation SessionAttributes := SessionAttributes.SessionAttributes.

Module SessionUpdate.

Record SessionUpdate := MkSessionUpdate {
  session_id : Uuid;
  distinct_id : option string;
  sequence : Z;
  init : bool;
  timestamp : DateTime;
  started : DateTime;
  duration : option f64;
  status : SessionStatus;
  errors : Z;
  attributes : SessionAttributes;
}.

Definition parse `{SerdeJson SessionUpdate} (payload : string) : result JsonError SessionUpdate :=
  from_slice payload.
Definition serialize `{SerdeJson SessionUpdate} (self : SessionUpdate) : result JsonError string :=
  to_json_string self.

Definition set_timestamp (self : SessionUpdate) (t : DateTime) : SessionUpdate :=
  MkSessionUpdate (session_id self) (distinct_id self) (sequence self) (init self) t (started self)
    (duration self) (status self) (errors self) (attributes self).
Definition set_started (self : SessionUpdate) (t : DateTime) : SessionUpdate :=
  MkSessionUpdate (session_id self) (distinct_id self) (sequence self) (init self) (timestamp self) t
    (duration self) (status self) (errors self) (attributes self).
Definition set_attributes (self : SessionUpdate) (a : SessionAttributes) : SessionUpdate :=
  MkSessionUpdate (session_id self) (distinct_id self) (sequence self) (init self) (timestamp self)
    (started self) (duration self) (status self) (errors self) a.

End SessionUpdate.
Notation SessionUpdate := SessionUpdate.SessionUpdate.

Module SessionAggregateItem.

Record SessionAggregateItem := MkSessionAggregateItem {
  started : DateTime;
  distinct_id : option string;
  exited : Z;
  errored : Z;
  abnormal : Z;
  crashed : Z;
}.

End SessionAggregateItem.
Notation SessionAggregateItem := SessionAggregateItem.SessionAggregateItem.

Module SessionAggregates.

Record SessionAggregates := MkSessionAggregates {
  aggregates : list SessionAggregateItem;
  attributes : SessionAttributes;
}.

Definition parse `{SerdeJson SessionAggregates} (payload : string) : result JsonError SessionAggregates :=
  from_slice payload.
Definition serialize `{SerdeJson SessionAggregates} (self : SessionAggregates) : result JsonError string :=
  to_json_string self.

End SessionAggregates.
Notation SessionAggregates := SessionAggregates.SessionAggregates.

(** [IpAddr::is_auto]. *)
Definition is_auto (self : IpAddr) : bool := bool_decide (self = "{{auto}}").

Record UserReport := MkUserReport {
  ur_event_id : EventId;
  ur_name : string;
  ur_email : string;
  ur_comments : string;
}.

(** ** Lemmas *)

(** Fatal sessions are errored, errored sessions are over. *)
Lemma status_classes s :
  (SessionStatus.is_fatal s = true -> SessionStatus.is_error s = true) /\
  (SessionStatus.is_error s = true -> SessionStatus.is_terminal s = true).
Proof. by destruct s. Qed.

Lemma session_status_roundtrip s : SessionStatus.from_str (SessionStatus.as_str s) = Ok s.
Proof. by destruct s. Qed.
