(* ===== verification/Auth.v ===== *)
(** * relay-auth: versions, keys, signatures and the registration of relays (lib.rs)

    A relay registers upstream in two requests: it sends its identifier and its public key,
    signed; the upstream answers with a challenge, a token that carries the state of the
    registration under an HMAC; the relay sends the token back, signed.  The upstream keeps no
    state between the two.

    The crates base64, ed25519-dalek and hmac and the serialization to JSON are the classes
    [Base64], [Ed25519], [HmacSha512] and [SerdeJson], with their laws.  The clock, the random
    token and the version written by the build script are arguments. *)

From Stdlib Require Import Ascii String.
From S2P Require Import Prelude Strings Floats Types Common Protocol Quota Filters Sampling Extractors Envelopes Sessions.

Open Scope string_scope.
Open Scope Z_scope.
Open Scope list_scope.

(** ** The crates *)

(** [base64::encode_config] and [decode_config] with [URL_SAFE_NO_PAD]. *)
Class Base64 := {
  b64_encode : string -> string;
  b64_decode : string -> option string;
}.

(** The alphabet: letters, digits, '-' and '_'. *)
Definition is_base64url (a : ascii) : bool :=
  is_ascii_alphanumeric a || bool_decide (a = "-"%char) || bool_decide (a = "_"%char).

Class Base64Laws `{Base64} : Prop := {
  b64_decode_encode s : b64_decode (b64_encode s) = Some s;
  b64_alphabet s : str_forallb is_base64url (b64_encode s) = true;
}.

(** [ed25519_dalek]: keys and signatures with their bytes, signing and verifying. *)
Class Ed25519 := {
  EdSecret : Type;
  EdPublic : Type;
  EdSignature : Type;
  secret_from_bytes : string -> option EdSecret;
  secret_to_bytes : EdSecret -> string;
  public_from_bytes : string -> option EdPublic;
  public_to_bytes : EdPublic -> string;
  signature_from_bytes : string -> option EdSignature;
  signature_to_bytes : EdSignature -> string;
  keypair_from_bytes : string -> option (EdSecret * EdPublic);
  keypair_to_bytes : EdSecret * EdPublic -> string;
  from_secret : EdSecret -> EdPublic;
  ed_sign : EdSecret * EdPublic -> string -> EdSignature;
  ed_verify : EdPublic -> string -> EdSignature -> bool;
}.

Class Ed25519Laws `{Ed25519} : Prop := {
  secret_bytes k : secret_from_bytes (secret_to_bytes k) = Some k;
  secret_bytes_length k : String.length (secret_to_bytes k) = 32%nat;
  public_bytes k : public_from_bytes (public_to_bytes k) = Some k;
  signature_bytes s : signature_from_bytes (signature_to_bytes s) = Some s;
  keypair_bytes k : keypair_from_bytes (keypair_to_bytes k) = Some k;
  keypair_bytes_length k : String.length (keypair_to_bytes k) = 64%nat;
  verify_sign k m : ed_verify (from_secret k) m (ed_sign (k, from_secret k) m) = true;
}.

(** [Hmac<Sha512>]: the code of a message under a key; [verify] compares it. *)
Class HmacSha512 := hmac : string -> string -> string.

(** The constants the build script writes. *)
Class BuildVersion := {
  VERSION_MAJOR : Z;
  VERSION_MINOR : Z;
  VERSION_PATCH : Z;
}.

Notation RelayId := Uuid (only parsing).

(** ** Versions *)

Module RelayVersion.

(** Three [u8]. *)
Record RelayVersion := MkRelayVersion { major : Z; minor : Z; patch : Z }.

#[global] Instance RelayVersion_eq_dec : EqDecision RelayVersion.
Proof. solve_decision. Defined.

Definition new (major minor patch : Z) : RelayVersion := MkRelayVersion major minor patch.

Definition LATEST_VERSION `{BuildVersion} : RelayVersion := new VERSION_MAJOR VERSION_MINOR VERSION_PATCH.
Definition OLDEST_VERSION : RelayVersion := new 0 0 0.

Definition current `{BuildVersion} : RelayVersion := LATEST_VERSION.
Definition oldest : RelayVersion := OLDEST_VERSION.

(** [#[derive(Default)]]. *)
Definition default_ : RelayVersion := new 0 0 0.

(** [#[derive(Ord)]]: the components in the order of their declaration. *)
Definition ltb (a b : RelayVersion) : bool :=
  bool_decide (major a < major b)
  || (bool_decide (major a = major b)
      && (bool_decide (minor a < minor b)
          || (bool_decide (minor a = minor b) && bool_decide (patch a < patch b)))).

Definition supported (self : RelayVersion) : bool := negb (ltb self oldest).

Definition outdated `{BuildVersion} (self : RelayVersion) : bool := ltb self current.

(** [Display]. *)
Definition to_string (self : RelayVersion) : string :=
  u64_to_string (major self) +:+ "." +:+ u64_to_string (minor self) +:+ "." +:+ u64_to_string (patch self).

(** [s.split(&['.', '-'][..])]. *)
Fixpoint split_dots (s : string) : list string :=
  match s with
  | EmptyString => [""]
  | String a s' =>
      if bool_decide (a = "."%char) || bool_decide (a = "-"%char) then "" :: split_dots s'
      else match split_dots s' with
           | x :: l => String a x :: l
           | [] => [String a ""]
           end
  end.

Inductive ParseRelayVersionError := MkParseRelayVersionError.

(** [iter.next().ok_or(..)??], the iterator parsing each part as a [u8]. *)
Definition next_part (iter : list string) : result ParseRelayVersionError (Z * list string) :=
  match iter with
  | [] => Err MkParseRelayVersionError
  | part :: iter =>
      match parse_uint 255 part with
      | Some v => Ok (v, iter)
      | None => Err MkParseRelayVersionError
      end
  end.

Definition from_str (s : string) : result ParseRelayVersionError RelayVersion :=
  '(major, iter) ← next_part (split_dots s);
  '(minor, iter) ← next_part iter;
  '(patch, iter) ← next_part iter;
  Ok (new major minor patch).

End RelayVersion.
Notation RelayVersion := RelayVersion.RelayVersion.

(** ** Keys and signatures *)

Module KeyParseError.
Inductive KeyParseError := BadEncoding | BadKey.
End KeyParseError.
Notation KeyParseError := KeyParseError.KeyParseError.

Module UnpackError.
Inductive UnpackError := BadSignature | BadEncoding | BadPayload (error : JsonError) | SignatureExpired.
End UnpackError.
Notation UnpackError := UnpackError.UnpackError.

Module SignatureHeader.

Record SignatureHeader := MkSignatureHeader { timestamp : option DateTime }.

(** [Utc::now() - max_age], which panics outside of the range of dates. *)
Definition expired (self : SignatureHeader) (now : DateTime) (max_age : SignedDuration) : outcome bool :=
  match timestamp self with
  | Some ts => limit ← datetime_add now (- max_age); Ret (bool_decide (ts < limit))
  | None => Ret false
  end.

Definition default_ (now : DateTime) : SignatureHeader := MkSignatureHeader (Some now).

End SignatureHeader.
Notation SignatureHeader := SignatureHeader.SignatureHeader.

(** [Result::expect]. *)
Definition expect {E A} (r : result E A) : outcome A := unwrap (res_ok r).

(** [max_age.is_none() || !header.expired(max_age.unwrap())]. *)
Definition not_expired (header : SignatureHeader) (now : DateTime) (max_age : option SignedDuration) : outcome bool :=
  match max_age with
  | None => Ret true
  | Some max_age => expired ← SignatureHeader.expired header now max_age; Ret (negb expired)
  end.

(** The bytes that are signed: the header, a zero byte, the data. *)
Definition signed_bytes (header data : string) : string := header +:+ String (byte 0) data.

Module SecretKey.
Section SecretKey.
Context {ED : Ed25519} {B64 : Base64} {HJ : SerdeJson SignatureHeader}.

Record SecretKey := MkSecretKey { inner : EdSecret * EdPublic }.

Definition sign_with_header (self : SecretKey) (data : string) (header : SignatureHeader) : outcome string :=
  header ← expect (to_json_string header);
  let header_encoded := b64_encode header in
  let sig := ed_sign (inner self) (signed_bytes header data) in
  Ret (b64_encode (signature_to_bytes sig) +:+ "." +:+ header_encoded).

Definition sign (self : SecretKey) (now : DateTime) (data : string) : outcome string :=
  sign_with_header self data (SignatureHeader.default_ now).

Definition pack_with_header {D} `{SerdeJson D} (self : SecretKey) (data : D) (header : SignatureHeader) :
    outcome (string * string) :=
  json ← expect (to_json_string data);
  sig ← sign_with_header self json header;
  Ret (json, sig).

Definition pack {D} `{SerdeJson D} (self : SecretKey) (now : DateTime) (data : D) : outcome (string * string) :=
  pack_with_header self data (SignatureHeader.default_ now).

Definition eqb (self other : SecretKey) : bool :=
  bool_decide (keypair_to_bytes (inner self) = keypair_to_bytes (inner other)).

Definition from_str (s : string) : result KeyParseError SecretKey :=
  match b64_decode s with
  | None => Err KeyParseError.BadEncoding
  | Some bytes =>
      if bool_decide (String.length bytes = 64%nat) then
        match keypair_from_bytes bytes with
        | Some keypair => Ok (MkSecretKey keypair)
        | None => Err KeyParseError.BadKey
        end
      else
        match secret_from_bytes bytes with
        | Some secret => Ok (MkSecretKey (secret, from_secret secret))
        | None => Err KeyParseError.BadKey
        end
  end.

(** [Display], [alternate] being the flag of [{:#}]. *)
Definition fmt (self : SecretKey) (alternate : bool) : string :=
  if alternate then b64_encode (keypair_to_bytes (inner self))
  else b64_encode (secret_to_bytes (fst (inner self))).

End SecretKey.
#[global] Arguments SecretKey {_}.
#[global] Arguments MkSecretKey {_}.
End SecretKey.
Notation SecretKey := SecretKey.SecretKey.

Module PublicKey.
Section PublicKey.
Context {ED : Ed25519} {B64 : Base64} {HJ : SerdeJson SignatureHeader}.

Record PublicKey := MkPublicKey { inner : EdPublic }.

Definition verify_meta (self : PublicKey) (data sig : string) : option SignatureHeader :=
  let '(sig_encoded, header_encoded) := splitn2 "." sig in
  sig_bytes ← b64_decode sig_encoded;
  sig ← signature_from_bytes sig_bytes;
  header_encoded ← header_encoded;
  header ← b64_decode header_encoded;
  if ed_verify (inner self) (signed_bytes header data) sig then res_ok (from_slice header) else None.

Definition verify (self : PublicKey) (data sig : string) : bool :=
  match verify_meta self data sig with Some _ => true | None => false end.

Definition verify_timestamp (self : PublicKey) (now : DateTime) (data sig : string)
    (max_age : option SignedDuration) : outcome bool :=
  match verify_meta self data sig with
  | Some header => not_expired header now max_age
  | None => Ret false
  end.

Definition unpack_meta {D} `{SerdeJson D} (self : PublicKey) (data signature : string) :
    result UnpackError (SignatureHeader * D) :=
  match verify_meta self data signature with
  | Some header =>
      match from_slice data with
      | Ok data => Ok (header, data)
      | Err e => Err (UnpackError.BadPayload e)
      end
  | None => Err UnpackError.BadSignature
  end.

Definition unpack {D} `{SerdeJson D} (self : PublicKey) (now : DateTime) (data signature : string)
    (max_age : option SignedDuration) : outcome (result UnpackError D) :=
  match unpack_meta (D := D) self data signature with
  | Err e => Ret (Err e)
  | Ok (header, data) =>
      fresh ← not_expired header now max_age;
      Ret (if fresh : bool then Ok data else Err UnpackError.SignatureExpired)
  end.

Definition eqb (self other : PublicKey) : bool :=
  bool_decide (public_to_bytes (inner self) = public_to_bytes (inner other)).

Definition from_str (s : string) : result KeyParseError PublicKey :=
  match b64_decode s with
  | None => Err KeyParseError.BadEncoding
  | Some bytes =>
      match public_from_bytes bytes with
      | Some key => Ok (MkPublicKey key)
      | None => Err KeyParseError.BadKey
      end
  end.

(** [Display]. *)
Definition to_string (self : PublicKey) : string := b64_encode (public_to_bytes (inner self)).

End PublicKey.
#[global] Arguments PublicKey {_}.
#[global] Arguments MkPublicKey {_}.
End PublicKey.
Notation PublicKey := PublicKey.PublicKey.

(** [generate_key_pair], the random key being an argument. *)
Definition generate_key_pair `{Ed25519} (secret : EdSecret) : outcome (SecretKey * PublicKey) :=
  let kp := (secret, from_secret secret) in
  pk ← unwrap (public_from_bytes (public_to_bytes (snd kp)));
  Ret (SecretKey.MkSecretKey kp, PublicKey.MkPublicKey pk).

(** ** The registration *)

(** [as i64] of a [u64], and [Utc.timestamp(secs, 0)], which panics outside of the dates. *)
Definition u64_as_i64 (n : Z) : Z := if bool_decide (n < 2 ^ 63) then n else n - 2 ^ 64.
Definition utc_timestamp (secs : Z) : outcome DateTime :=
  datetime_add 0 (secs * nanos_per_sec).

Module RegisterState.

Record RegisterState `{Ed25519} := MkRegisterState {
  timestamp : UnixTimestamp;
  relay_id : RelayId;
  public_key : PublicKey;
  rand : string;
}.

End RegisterState.
Notation RegisterState := RegisterState.RegisterState.
#[global] Arguments RegisterState.MkRegisterState {_}.

Module SignedRegisterState.
Section SignedRegisterState.
Context {ED : Ed25519} {B64 : Base64} {MAC : HmacSha512} {SJ : SerdeJson RegisterState}.

(** The tuple struct [SignedRegisterState(String)]. *)
Record SignedRegisterState := MkSignedRegisterState { as_str : string }.

Definition sign (state : RegisterState) (secret : string) : outcome SignedRegisterState :=
  json ← expect (to_json_string state);
  let token := b64_encode json in
  let signature := b64_encode (hmac secret token) in
  Ret (MkSignedRegisterState (token +:+ ":" +:+ signature)).

Definition split (self : SignedRegisterState) : string * string :=
  let '(token, signature) := splitn2 ":" (as_str self) in (token, default "" signature).

(** The part of [unpack] that authenticates and reads the state. *)
Definition open (self : SignedRegisterState) (secret : string) : result UnpackError RegisterState :=
  let '(token, signature) := split self in
  code ← ok_or (b64_decode signature) UnpackError.BadEncoding;
  _ ← (if bool_decide (code = hmac secret token) then Ok tt else Err UnpackError.BadSignature);
  json ← ok_or (b64_decode token) UnpackError.BadEncoding;
  match from_slice json with
  | Ok state => Ok state
  | Err e => Err (UnpackError.BadPayload e)
  end.

Definition token_expired (state : RegisterState) (now : DateTime) (max_age : SignedDuration) : outcome bool :=
  created ← utc_timestamp (u64_as_i64 (UnixTimestamp.as_secs (RegisterState.timestamp state)));
  limit ← datetime_add created max_age;
  Ret (bool_decide (limit < now)).

Definition unpack (self : SignedRegisterState) (now : DateTime) (secret : string) (max_age : option SignedDuration) :
    outcome (result UnpackError RegisterState) :=
  match open self secret with
  | Err e => Ret (Err e)
  | Ok state =>
      match max_age with
      | Some max_age =>
          old ← token_expired state now max_age;
          Ret (if old : bool then Err UnpackError.SignatureExpired else Ok state)
      | None => Ret (Ok state)
      end
  end.

End SignedRegisterState.
End SignedRegisterState.
Notation SignedRegisterState := SignedRegisterState.SignedRegisterState.

(** [nonce], the 64 random bytes being an argument. *)
Definition nonce `{Base64} (bytes : string) : string := b64_encode bytes.

Module RegisterRequest.

Record RegisterRequest `{Ed25519} := MkRegisterRequest {
  relay_id : RelayId;
  public_key : PublicKey;
  version : RelayVersion;
}.

End RegisterRequest.
Notation RegisterRequest := RegisterRequest.RegisterRequest.
#[global] Arguments RegisterRequest.MkRegisterRequest {_}.

Module RegisterChallenge.
Record RegisterChallenge := MkRegisterChallenge { relay_id : RelayId; token_ : SignedRegisterState }.

Definition token (self : RegisterChallenge) : string := SignedRegisterState.as_str (token_ self).
End RegisterChallenge.
Notation RegisterChallenge := RegisterChallenge.RegisterChallenge.

Module RegisterResponse.
Record RegisterResponse := MkRegisterResponse {
  relay_id : RelayId;
  token_ : SignedRegisterState;
  version : RelayVersion;
}.

Definition token (self : RegisterResponse) : string := SignedRegisterState.as_str (token_ self).
End RegisterResponse.
Notation RegisterResponse := RegisterResponse.RegisterResponse.

(** What the registration calls: the crates, the build and the JSON of its messages. *)
Class Registering := {
  reg_ed :: Ed25519;
  reg_b64 :: Base64;
  reg_hmac :: HmacSha512;
  reg_version :: BuildVersion;
  reg_header :: SerdeJson SignatureHeader;
  reg_state :: SerdeJson RegisterState;
  reg_request :: SerdeJson RegisterRequest;
  reg_response :: SerdeJson RegisterResponse;
}.

(** The laws of the crates; a value of the messages can be written and is read back. *)
Class JsonTotal (T : Type) `{SerdeJson T} : Prop := {
  json_total t : exists s, to_json_string t = Ok s /\ from_slice s = Ok t;
}.

Class RegisteringLaws `{Registering} : Prop := {
  law_ed :: Ed25519Laws;
  law_b64 :: Base64Laws;
  law_header :: JsonTotal SignatureHeader;
  law_state :: JsonTotal RegisterState;
  law_request :: JsonTotal RegisterRequest;
  law_response :: JsonTotal RegisterResponse;
}.

Section Registration.
Context {REG : Registering}.

Definition register_new (relay_id : RelayId) (public_key : PublicKey) : RegisterRequest :=
  RegisterRequest.MkRegisterRequest relay_id public_key RelayVersion.current.

Definition bootstrap_unpack (now : DateTime) (data signature : string) (max_age : option SignedDuration) :
    outcome (result UnpackError RegisterRequest) :=
  match from_slice (T := RegisterRequest) data with
  | Err e => Ret (Err (UnpackError.BadPayload e))
  | Ok req => PublicKey.unpack (RegisterRequest.public_key req) now data signature max_age
  end.

(** [into_challenge] at the time [now], with the random bytes of the nonce. *)
Definition into_challenge (now : SystemTime) (bytes : string) (self : RegisterRequest) (secret : string) :
    outcome RegisterChallenge :=
  let state := RegisterState.MkRegisterState (UnixTimestamp.from_system now) (RegisterRequest.relay_id self)
                 (RegisterRequest.public_key self) (nonce bytes) in
  token ← SignedRegisterState.sign state secret;
  Ret (RegisterChallenge.MkRegisterChallenge (RegisterRequest.relay_id self) token).

Definition challenge_into_response (self : RegisterChallenge) : RegisterResponse :=
  RegisterResponse.MkRegisterResponse (RegisterChallenge.relay_id self) (RegisterChallenge.token_ self)
    RelayVersion.current.

Definition response_unpack (now : DateTime) (data signature secret : string) (max_age : option SignedDuration) :
    outcome (result UnpackError (RegisterResponse * RegisterState)) :=
  match from_slice (T := RegisterResponse) data with
  | Err e => Ret (Err (UnpackError.BadPayload e))
  | Ok response =>
      state ← SignedRegisterState.unpack (RegisterResponse.token_ response) now secret max_age;
      match state with
      | Err e => Ret (Err e)
      | Ok state =>
          match PublicKey.verify_meta (RegisterState.public_key state) data signature with
          | Some header =>
              old ← (match max_age with
                     | Some m => SignatureHeader.expired header now m
                     | None => Ret false
                     end);
              Ret (if old : bool then Err UnpackError.SignatureExpired else Ok (response, state))
          | None => Ret (Err UnpackError.BadSignature)
          end
      end
  end.

(** *** The C interface (relay-cabi/src/auth.rs), up to the text of the answer *)

Definition max_age_of (max_age : Z) : option SignedDuration :=
  if bool_decide (max_age = 0) then None else Some (max_age * nanos_per_sec).

Definition relay_create_register_challenge (now : SystemTime) (bytes data signature secret : string) (max_age : Z) :
    outcome (result UnpackError RegisterChallenge) :=
  req ← bootstrap_unpack now data signature (max_age_of max_age);
  match req with
  | Err e => Ret (Err e)
  | Ok req => challenge ← into_challenge now bytes req secret; Ret (Ok challenge)
  end.

Record RelayRegisterResponse := MkRelayRegisterResponse {
  out_relay_id : RelayId;
  out_token : string;
  out_public_key : PublicKey;
  out_version : RelayVersion;
}.

Definition relay_validate_register_response (now : DateTime) (data signature secret : string) (max_age : Z) :
    outcome (result UnpackError RelayRegisterResponse) :=
  unpacked ← response_unpack now data signature secret (max_age_of max_age);
  match unpacked with
  | Err e => Ret (Err e)
  | Ok (response, state) =>
      Ret (Ok (MkRelayRegisterResponse (RegisterResponse.relay_id response) (RegisterResponse.token response)
                 (RegisterState.public_key state) (RegisterResponse.version response)))
  end.

Definition relay_version_supported (version : string) : result RelayVersion.ParseRelayVersionError bool :=
  version ← (if bool_decide (version = "") then Ok RelayVersion.default_ else RelayVersion.from_str version);
  Ok (RelayVersion.supported version).

End Registration.

(** ** Lemmas *)

Section Crates.
Context {B64 : Base64} {BL : Base64Laws}.

Lemma b64_no_char c s : is_base64url c = false -> contains_char c (b64_encode s) = false.
Proof. intros Hc. by apply (str_forallb_not_contains is_base64url); [|apply b64_alphabet]. Qed.

(** A separator outside of the alphabet splits two encodings. *)
Lemma b64_split c s t :
  is_base64url c = false ->
  splitn2 c (b64_encode s +:+ String c (b64_encode t)) = (b64_encode s, Some (b64_encode t)).
Proof. intros Hc. apply splitn2_app. by apply b64_no_char. Qed.

End Crates.

Lemma expect_json {T} `{JsonTotal T} (t : T) :
  exists s, expect (to_json_string t) = Ret s /\ to_json_string t = Ok s /\ from_slice s = Ok t.
Proof. destruct (json_total t) as (s & Hs & Hf). exists s. by rewrite Hs. Qed.

Section Signatures.
Context {ED : Ed25519} {B64 : Base64} {HJ : SerdeJson SignatureHeader}.
Context {EL : Ed25519Laws} {BL : Base64Laws} {HT : JsonTotal SignatureHeader}.

(** A key pair whose public key belongs to its secret. *)
Definition secret_key (k : EdSecret) : SecretKey := SecretKey.MkSecretKey (k, from_secret k).
Definition public_key (k : EdSecret) : PublicKey := PublicKey.MkPublicKey (from_secret k).

(** A signature can be made, and verifies with its header under the public key. *)
Lemma sign_verifies k data header :
  exists sig, SecretKey.sign_with_header (secret_key k) data header = Ret sig
    /\ PublicKey.verify_meta (public_key k) data sig = Some header.
Proof.
  destruct (expect_json header) as (h & He & Hj & Hf).
  eexists. unfold SecretKey.sign_with_header. rewrite He. split; [reflexivity|].
  unfold PublicKey.verify_meta. simpl. rewrite b64_split by done.
  simpl. rewrite !b64_decode_encode. simpl. rewrite signature_bytes. simpl.
  rewrite verify_sign. by rewrite Hf.
Qed.

Lemma pack_verifies `{JsonTotal D} k now (data : D) :
  exists json sig, SecretKey.pack (secret_key k) now data = Ret (json, sig)
    /\ from_slice json = Ok data
    /\ PublicKey.verify_meta (public_key k) json sig = Some (SignatureHeader.default_ now).
Proof.
  destruct (expect_json data) as (json & He & _ & Hf).
  destruct (sign_verifies k json (SignatureHeader.default_ now)) as (sig & Hs & Hv).
  exists json, sig. unfold SecretKey.pack, SecretKey.pack_with_header. rewrite He. cbn [mbind outcome_bind].
  by rewrite Hs.
Qed.

End Signatures.

Lemma state_opens {ED : Ed25519} {B64 : Base64} {BL : Base64Laws} {MAC : HmacSha512} {SJ : SerdeJson RegisterState}
    {ST : JsonTotal RegisterState} (state : RegisterState) secret :
  exists token, SignedRegisterState.sign state secret = Ret token
    /\ SignedRegisterState.open token secret = Ok state.
Proof.
  destruct (expect_json state) as (json & He & _ & Hf).
  eexists. unfold SignedRegisterState.sign. rewrite He. split; [reflexivity|].
  unfold SignedRegisterState.open, SignedRegisterState.split. simpl. rewrite b64_split by done.
  simpl. rewrite !b64_decode_encode. simpl. rewrite bool_decide_true by done.
  simpl. by rewrite Hf.
Qed.

(** Within a century or two of the epoch no date overflows. *)
Definition clock_ok (t : DateTime) : Prop := 0 <= t < 2 ^ 63.
Definition age_ok (age : Z) : Prop := 0 <= age <= u32_max.

Lemma datetime_add_clock t d : clock_ok t -> Z.abs d <= u32_max * nanos_per_sec -> datetime_add t d = Ret (t + d).
Proof.
  intros Ht Hd. unfold datetime_add. rewrite bool_decide_true; [done|].
  unfold clock_ok, chrono_min, chrono_max, nanos_per_sec, u32_max in *. lia.
Qed.

Lemma utc_timestamp_clock secs : clock_ok (secs * nanos_per_sec) -> utc_timestamp secs = Ret (secs * nanos_per_sec).
Proof.
  intros Ht. unfold utc_timestamp, datetime_add. rewrite bool_decide_true; [done|].
  unfold clock_ok, chrono_min, chrono_max, nanos_per_sec in *. lia.
Qed.

(** A header written at [ts] is fresh at [now] when it is not older than the age. *)
Lemma default_fresh now ts age :
  clock_ok now -> age_ok age -> (age = 0 \/ now - ts <= age * nanos_per_sec) ->
  match max_age_of age with
  | Some m => SignatureHeader.expired (SignatureHeader.default_ ts) now m
  | None => Ret false
  end = Ret false.
Proof.
  intros Hn Ha Hage. unfold max_age_of. bcase (age = 0) as H0; [done|]. destruct Hage as [|Hage]; [done|].
  unfold SignatureHeader.expired. simpl. rewrite datetime_add_clock by (done || unfold age_ok, nanos_per_sec in *; lia).
  simpl. f_equal. apply bool_decide_eq_false. lia.
Qed.

Lemma not_expired_fresh header now max_age :
  match max_age with Some m => SignatureHeader.expired header now m | None => Ret false end = Ret false ->
  not_expired header now max_age = Ret true.
Proof. unfold not_expired. destruct max_age; [|done]. by intros ->. Qed.

Lemma token_fresh {ED : Ed25519} (state : RegisterState) now created age :
  clock_ok now -> clock_ok created -> age_ok age ->
  RegisterState.timestamp state = UnixTimestamp.from_system created ->
  now - duration_as_secs created * nanos_per_sec <= age * nanos_per_sec ->
  SignedRegisterState.token_expired state now (age * nanos_per_sec) = Ret false.
Proof.
  intros Hn Hc Ha Ht Hage. unfold SignedRegisterState.token_expired, UnixTimestamp.as_secs. rewrite Ht.
  assert (Hs : UnixTimestamp.from_system created = duration_as_secs created).
  { unfold UnixTimestamp.from_system. rewrite bool_decide_true; [done|]. unfold clock_ok in Hc. lia. }
  rewrite Hs. set (secs := duration_as_secs created) in *.
  assert (0 <= secs * nanos_per_sec <= created).
  { subst secs. unfold duration_as_secs, nanos_per_sec, clock_ok in *.
    pose proof (Z.mul_div_le created (10 ^ 9)). pose proof (Z.div_pos created (10 ^ 9)). lia. }
  unfold u64_as_i64. rewrite bool_decide_true by (unfold clock_ok, nanos_per_sec in *; lia).
  rewrite utc_timestamp_clock by (unfold clock_ok in *; lia).
  cbn [mbind outcome_bind].
  rewrite datetime_add_clock by (unfold clock_ok, age_ok, nanos_per_sec in *; lia).
  cbn [mbind outcome_bind]. f_equal. apply bool_decide_eq_false. lia.
Qed.

Section RegistrationProofs.
Context {REG : Registering} {LAWS : RegisteringLaws}.

(** Any response that carries a token the upstream signed for the key and that the key signed
    is accepted, whatever relay it names. *)
Lemma response_accepted k now signed created secret age data sig response state :
  clock_ok now -> clock_ok created -> age_ok age ->
  (age = 0 \/ now - signed <= age * nanos_per_sec /\
              now - duration_as_secs created * nanos_per_sec <= age * nanos_per_sec) ->
  RegisterState.timestamp state = UnixTimestamp.from_system created ->
  RegisterState.public_key state = public_key k ->
  SignedRegisterState.open (RegisterResponse.token_ response) secret = Ok state ->
  from_slice data = Ok response ->
  PublicKey.verify_meta (public_key k) data sig = Some (SignatureHeader.default_ signed) ->
  response_unpack now data sig secret (max_age_of age) = Ret (Ok (response, state)).
Proof.
  intros Hn Hc Ha Hage Ht Hk Ho Hf Hv. unfold response_unpack. rewrite Hf.
  assert (Hu : SignedRegisterState.unpack (RegisterResponse.token_ response) now secret (max_age_of age)
               = Ret (Ok state)).
  { unfold SignedRegisterState.unpack, max_age_of. rewrite Ho. bcase (age = 0) as H0; [done|].
    rewrite (token_fresh _ _ created) by naive_solver. done. }
  rewrite Hu. cbn [mbind outcome_bind]. rewrite Hk, Hv, default_fresh by naive_solver. done.
Qed.

Lemma request_accepted k now signed age data sig request :
  clock_ok now -> age_ok age -> (age = 0 \/ now - signed <= age * nanos_per_sec) ->
  RegisterRequest.public_key request = public_key k ->
  from_slice data = Ok request ->
  PublicKey.verify_meta (public_key k) data sig = Some (SignatureHeader.default_ signed) ->
  bootstrap_unpack now data sig (max_age_of age) = Ret (Ok request).
Proof.
  intros Hn Ha Hage Hk Hf Hv. unfold bootstrap_unpack. rewrite Hf, Hk.
  unfold PublicKey.unpack, PublicKey.unpack_meta. rewrite Hv, Hf. cbn.
  rewrite not_expired_fresh by (by apply default_fresh). done.
Qed.

(** The challenge for a request carries its relay and key, and opens with the secret. *)
Lemma challenge_opens created bytes request secret :
  exists challenge state,
    into_challenge created bytes request secret = Ret challenge
    /\ RegisterChallenge.relay_id challenge = RegisterRequest.relay_id request
    /\ SignedRegisterState.open (RegisterChallenge.token_ challenge) secret = Ok state
    /\ RegisterState.timestamp state = UnixTimestamp.from_system created
    /\ RegisterState.relay_id state = RegisterRequest.relay_id request
    /\ RegisterState.public_key state = RegisterRequest.public_key request.
Proof.
  unfold into_challenge.
  match goal with |- context [SignedRegisterState.sign ?st secret] => set (state := st) end.
  destruct (state_opens state secret) as (token & Hs & Ho).
  rewrite Hs. eexists _, state. split_and!; try reflexivity. simpl. by rewrite Ho.
Qed.

(** C16: the registration of a relay goes through.  Whatever the key, the identifier, the secret
    of the upstream and the random bytes: the request the relay signs at [t1] is accepted by the
    upstream at [t2] and answered with a challenge; the response the relay makes of it and signs
    at [t3] is accepted at [t4], and what the upstream learns is the identifier, the public key
    and the version of the relay.  With an age limit the messages have to arrive in time: the
    two signatures within the limit, and the token counted from the full second of its creation. *)
Theorem registration_roundtrip k relay_id secret bytes t1 t2 t3 t4 age :
  clock_ok t2 -> clock_ok t4 -> age_ok age ->
  (age = 0 \/ t2 - t1 <= age * nanos_per_sec /\ t4 - t3 <= age * nanos_per_sec /\
              t4 - duration_as_secs t2 * nanos_per_sec <= age * nanos_per_sec) ->
  exists data sig challenge data' sig',
    SecretKey.pack (secret_key k) t1 (register_new relay_id (public_key k)) = Ret (data, sig)
    /\ relay_create_register_challenge t2 bytes data sig secret age = Ret (Ok challenge)
    /\ SecretKey.pack (secret_key k) t3 (challenge_into_response challenge) = Ret (data', sig')
    /\ relay_validate_register_response t4 data' sig' secret age
       = Ret (Ok (MkRelayRegisterResponse relay_id (RegisterChallenge.token challenge) (public_key k)
                    RelayVersion.current)).
Proof.
  intros H2 H4 Ha Hage.
  destruct (pack_verifies k t1 (register_new relay_id (public_key k))) as (data & sig & Hp & Hf & Hv).
  destruct (challenge_opens t2 bytes (register_new relay_id (public_key k)) secret)
    as (challenge & state & Hc & Hid & Ho & Ht & _ & Hk).
  destruct (pack_verifies k t3 (challenge_into_response challenge)) as (data' & sig' & Hp' & Hf' & Hv').
  exists data, sig, challenge, data', sig'. split_and!; [done| |done|].
  - unfold relay_create_register_challenge. rewrite (request_accepted k t2 t1 age) with (request := register_new relay_id (public_key k))
      by naive_solver. cbn [mbind outcome_bind]. by rewrite Hc.
  - unfold relay_validate_register_response.
    rewrite (response_accepted k t4 t3 t2 secret age data' sig' (challenge_into_response challenge) state)
      by naive_solver.
    cbn [mbind outcome_bind]. rewrite Hk. unfold challenge_into_response. simpl. by rewrite Hid.
Qed.

(** The response names a relay of its own: the upstream accepts, for the key of the token, an
    identifier that is not the one the token was issued for. *)
Lemma response_relay_id_unchecked k relay_id other secret bytes t2 t3 t4 :
  clock_ok t2 -> clock_ok t4 ->
  exists challenge data sig,
    into_challenge t2 bytes (register_new relay_id (public_key k)) secret = Ret challenge
    /\ SecretKey.pack (secret_key k) t3
         (RegisterResponse.MkRegisterResponse other (RegisterChallenge.token_ challenge) RelayVersion.current)
       = Ret (data, sig)
    /\ relay_validate_register_response t4 data sig secret 0
       = Ret (Ok (MkRelayRegisterResponse other (RegisterChallenge.token challenge) (public_key k)
                    RelayVersion.current)).
Proof.
  intros H2 H4.
  destruct (challenge_opens t2 bytes (register_new relay_id (public_key k)) secret)
    as (challenge & state & Hc & Hid & Ho & Ht & _ & Hk).
  set (response := RegisterResponse.MkRegisterResponse other (RegisterChallenge.token_ challenge) RelayVersion.current).
  destruct (pack_verifies k t3 response) as (data & sig & Hp & Hf & Hv).
  exists challenge, data, sig. split_and!; [done|done|]. unfold relay_validate_register_response.
  rewrite (response_accepted k t4 t3 t2 secret 0 data sig response state) by (done || unfold age_ok, u32_max; auto with lia).
  cbn [mbind outcome_bind]. by rewrite Hk.
Qed.

End RegistrationProofs.

(** ** What is accepted and why a response is rejected *)

Section Authenticity.
Context {REG : Registering}.

(** The token of a response is the encoding of the state under the HMAC of the secret. *)
Definition token_authentic (secret : string) (response : RegisterResponse) (state : RegisterState) : Prop :=
  exists token signature json,
    RegisterResponse.token response = token +:+ ":" +:+ signature
    /\ b64_decode signature = Some (hmac secret token)
    /\ b64_decode token = Some json
    /\ from_slice json = Ok state.

(** The signature of [data] verifies under the key, with a header of the signer. *)
Definition signature_authentic (key : PublicKey) (data signature : string) (header : SignatureHeader) : Prop :=
  exists sig_encoded header_encoded sig_bytes sig header_json,
    signature = sig_encoded +:+ "." +:+ header_encoded
    /\ b64_decode sig_encoded = Some sig_bytes /\ signature_from_bytes sig_bytes = Some sig
    /\ b64_decode header_encoded = Some header_json /\ from_slice header_json = Ok header
    /\ ed_verify (PublicKey.inner key) (signed_bytes header_json data) sig = true.

Lemma splitn2_Some c s : forall t u, splitn2 c s = (t, Some u) -> s = t +:+ String c u.
Proof.
  induction s as [|a s IH]; intros t u; simpl; [done|].
  case_bool_decide as Ha; [by intros [= <- <-]; subst|].
  destruct (splitn2 c s) as [t' o] eqn:E. intros [= <- ->]. simpl. by rewrite (IH t' u).
Qed.

Lemma splitn2_None c s : forall t, splitn2 c s = (t, None) -> s = t.
Proof.
  induction s as [|a s IH]; intros t; simpl; [by intros [= <-]|].
  case_bool_decide as Ha; [done|].
  destruct (splitn2 c s) as [t' o] eqn:E. intros [= <- ->]. simpl. by rewrite (IH t').
Qed.

Lemma verify_meta_authentic key data signature header :
  PublicKey.verify_meta key data signature = Some header -> signature_authentic key data signature header.
Proof.
  unfold PublicKey.verify_meta. destruct (splitn2 "." signature) as [a [b|]] eqn:E.
  2: { destruct (b64_decode a); simpl; [|done]. by destruct (signature_from_bytes s). }
  apply splitn2_Some in E. destruct (b64_decode a) as [sb|] eqn:E1; [|done]. simpl.
  destruct (signature_from_bytes sb) as [sg|] eqn:E2; [|done]. simpl.
  destruct (b64_decode b) as [h|] eqn:E3; [|done]. simpl.
  destruct (ed_verify (PublicKey.inner key) (signed_bytes h data) sg) eqn:E4; [|done].
  destruct (from_slice h) as [hd|] eqn:E5; [|done]. simpl. intros [= <-].
  by exists a, b, sb, sg, h.
Qed.

(** A token opens exactly when it is authentic, unless a token without ':' is empty: the code of
    an absent signature is the decoding of the empty string. *)
Lemma open_authentic response secret state :
  b64_decode "" <> Some (hmac secret (RegisterResponse.token response)) ->
  SignedRegisterState.open (RegisterResponse.token_ response) secret = Ok state ->
  token_authentic secret response state.
Proof.
  intros Hempty. unfold SignedRegisterState.open, SignedRegisterState.split.
  destruct (splitn2 ":" (SignedRegisterState.as_str (RegisterResponse.token_ response))) as [token o] eqn:E.
  destruct (b64_decode (default "" o)) as [code|] eqn:E1; [|done]. simpl.
  case_bool_decide as Hc; [|done]. simpl. subst code.
  destruct o as [signature|].
  2: { apply splitn2_None in E. simpl in E1. unfold RegisterResponse.token in Hempty. by rewrite E in Hempty. }
  destruct (b64_decode token) as [json|] eqn:E2; [|done]. simpl.
  destruct (from_slice json) as [st|] eqn:E3; [|done]. intros [= <-].
  exists token, signature, json. split_and!; [|done..]. by apply splitn2_Some in E.
Qed.

(** The token is not older than the age, and neither is the header when it has a time. *)
Definition in_time (now : DateTime) (max_age : option SignedDuration) (state : RegisterState)
    (header : SignatureHeader) : Prop :=
  match max_age with
  | None => True
  | Some m =>
      now <= u64_as_i64 (RegisterState.timestamp state) * nanos_per_sec + m
      /\ match SignatureHeader.timestamp header with Some ts => now - m <= ts | None => True end
  end.

Lemma token_expired_Ret state now m b :
  SignedRegisterState.token_expired state now m = Ret b ->
  b = bool_decide (u64_as_i64 (RegisterState.timestamp state) * nanos_per_sec + m < now).
Proof.
  unfold SignedRegisterState.token_expired, utc_timestamp, datetime_add.
  case_bool_decide; [|done]. cbn [mbind outcome_bind]. case_bool_decide; [|done].
  cbn [mbind outcome_bind]. intros [= <-]. by rewrite Z.add_0_l.
Qed.

Lemma header_expired_Ret header now m b :
  SignatureHeader.expired header now m = Ret b ->
  b = match SignatureHeader.timestamp header with Some ts => bool_decide (ts < now - m) | None => false end.
Proof.
  unfold SignatureHeader.expired, datetime_add. destruct (SignatureHeader.timestamp header); [|by intros [= <-]].
  case_bool_decide; [|done]. cbn [mbind outcome_bind]. by intros [= <-].
Qed.

(** What is left of [response_unpack] once the token has been opened. *)
Definition check_response (now : DateTime) (max_age : option SignedDuration) (data signature : string)
    (response : RegisterResponse) (state : RegisterState) :
    outcome (result UnpackError (RegisterResponse * RegisterState)) :=
  old ← (match max_age with Some m => SignedRegisterState.token_expired state now m | None => Ret false end);
  if old : bool then Ret (Err UnpackError.SignatureExpired)
  else
    match PublicKey.verify_meta (RegisterState.public_key state) data signature with
    | None => Ret (Err UnpackError.BadSignature)
    | Some header =>
        old ← (match max_age with Some m => SignatureHeader.expired header now m | None => Ret false end);
        Ret (if old : bool then Err UnpackError.SignatureExpired else Ok (response, state))
    end.

Lemma response_unpack_eq now data signature secret max_age :
  response_unpack now data signature secret max_age =
  match from_slice (T := RegisterResponse) data with
  | Err e => Ret (Err (UnpackError.BadPayload e))
  | Ok response =>
      match SignedRegisterState.open (RegisterResponse.token_ response) secret with
      | Err e => Ret (Err e)
      | Ok state => check_response now max_age data signature response state
      end
  end.
Proof.
  unfold response_unpack, check_response. destruct (from_slice data) as [response|e]; [|done].
  unfold SignedRegisterState.unpack. destruct (SignedRegisterState.open _ _) as [state|e]; [|done].
  destruct max_age as [m|]; [|done]. destruct (SignedRegisterState.token_expired state now m) as [ [] |]; done.
Qed.

(** The outcomes of the checks. *)
Lemma check_response_inv now max_age data signature response state r :
  check_response now max_age data signature response state = Ret r ->
  let key := RegisterState.public_key state in
  match r with
  | Ok (response', state') => response' = response /\ state' = state /\
      exists header, PublicKey.verify_meta key data signature = Some header /\ in_time now max_age state header
  | Err UnpackError.SignatureExpired => exists m, max_age = Some m /\
      (u64_as_i64 (RegisterState.timestamp state) * nanos_per_sec + m < now \/
       exists header ts, PublicKey.verify_meta key data signature = Some header
         /\ SignatureHeader.timestamp header = Some ts /\ ts < now - m)
  | Err UnpackError.BadSignature => PublicKey.verify_meta key data signature = None
  | Err _ => False
  end.
Proof.
  unfold check_response, in_time. destruct max_age as [m|].
  - destruct (SignedRegisterState.token_expired state now m) as [old|] eqn:E; [|done].
    apply token_expired_Ret in E. cbn [mbind outcome_bind]. subst old. case_bool_decide as Hold.
    { intros [= <-]. eauto. }
    destruct (PublicKey.verify_meta _ _ _) as [header|] eqn:Ev; [|by intros [= <-]].
    destruct (SignatureHeader.expired header now m) as [old|] eqn:E; [|done].
    apply header_expired_Ret in E. cbn [mbind outcome_bind]. intros [= <-]. subst old.
    destruct (SignatureHeader.timestamp header) as [ts|] eqn:Et; [case_bool_decide|]; simpl.
    + eexists; split; [done|]. right. by exists header, ts.
    + split_and!; [done..|]. exists header. rewrite Et. split_and!; [done|lia..].
    + split_and!; [done..|]. exists header. rewrite Et. split_and!; [done|lia|done].
  - cbn [mbind outcome_bind]. destruct (PublicKey.verify_meta _ _ _) as [header|] eqn:Ev; [|by intros [= <-]].
    cbn [mbind outcome_bind]. intros [= <-]. split_and!; [done..|]. by exists header.
Qed.

(** The two parts of a token, an absent signature being empty. *)
Definition token_parts (response : RegisterResponse) : string * string :=
  SignedRegisterState.split (RegisterResponse.token_ response).

Lemma open_rejects response secret e :
  SignedRegisterState.open (RegisterResponse.token_ response) secret = Err e ->
  let '(token, signature) := token_parts response in
  match e with
  | UnpackError.BadEncoding => b64_decode signature = None \/ b64_decode token = None
  | UnpackError.BadSignature => exists code, b64_decode signature = Some code /\ code <> hmac secret token
  | UnpackError.BadPayload error =>
      b64_decode signature = Some (hmac secret token) /\
      exists json, b64_decode token = Some json /\ from_slice (T := RegisterState) json = Err error
  | UnpackError.SignatureExpired => False
  end.
Proof.
  unfold SignedRegisterState.open, token_parts.
  destruct (SignedRegisterState.split (RegisterResponse.token_ response)) as [token signature].
  destruct (b64_decode signature) as [code|] eqn:E1; simpl; [|intros [= <-]; auto].
  case_bool_decide as Hc; simpl; [|intros [= <-]; eauto].
  destruct (b64_decode token) as [json|] eqn:E2; simpl; [|intros [= <-]; auto].
  destruct (from_slice json) as [st|] eqn:E3; [done|]. intros [= <-]. subst. eauto.
Qed.

(** C15: the upstream registers nobody it should not.  When a response is accepted, its token is
    one that carries the state under the HMAC of the upstream's secret, the data was signed with
    the key of that state, and with an age limit neither the token nor the signature is older
    (a signature whose header has no time does not expire). *)
Theorem registered_relay_authentic now data signature secret max_age response state :
  b64_decode "" <> Some (hmac secret (RegisterResponse.token response)) ->
  response_unpack now data signature secret max_age = Ret (Ok (response, state)) ->
  from_slice data = Ok response
  /\ token_authentic secret response state
  /\ exists header, signature_authentic (RegisterState.public_key state) data signature header
       /\ in_time now max_age state header.
Proof.
  intros Hempty. rewrite response_unpack_eq. destruct (from_slice data) as [response'|e] eqn:Ef; [|done].
  destruct (SignedRegisterState.open _ _) as [state'|e] eqn:Eo; [|done].
  intros (-> & -> & header & Hv & Ht)%check_response_inv. split_and!; [done|by apply open_authentic|].
  exists header. split; [by apply verify_meta_authentic|done].
Qed.

(** the reasons for which a response is rejected.  [BadPayload]: the response is no JSON of a
    response, or the token is authentic and holds no state; [BadEncoding]: a part of the token is
    not base64; [BadSignature]: the code of the token is not the HMAC of the upstream, or the data
    is not signed with the key of the state; [SignatureExpired]: there is an age limit and the
    token, or the signature under the right key, is older. *)
Theorem register_response_rejected now data signature secret max_age e :
  response_unpack now data signature secret max_age = Ret (Err e) ->
  (exists error, e = UnpackError.BadPayload error /\ from_slice (T := RegisterResponse) data = Err error)
  \/ exists response, from_slice data = Ok response /\
     let '(token, code) := token_parts response in
     match e with
     | UnpackError.BadPayload error =>
         b64_decode code = Some (hmac secret token) /\
         exists json, b64_decode token = Some json /\ from_slice (T := RegisterState) json = Err error
     | UnpackError.BadEncoding => b64_decode code = None \/ b64_decode token = None
     | UnpackError.BadSignature =>
         (exists bytes, b64_decode code = Some bytes /\ bytes <> hmac secret token) \/
         exists state, SignedRegisterState.open (RegisterResponse.token_ response) secret = Ok state
           /\ PublicKey.verify (RegisterState.public_key state) data signature = false
     | UnpackError.SignatureExpired =>
         exists state m, SignedRegisterState.open (RegisterResponse.token_ response) secret = Ok state
           /\ max_age = Some m
           /\ (u64_as_i64 (RegisterState.timestamp state) * nanos_per_sec + m < now \/
               exists header ts,
                 PublicKey.verify_meta (RegisterState.public_key state) data signature = Some header
                 /\ SignatureHeader.timestamp header = Some ts /\ ts < now - m)
     end.
Proof.
  rewrite response_unpack_eq. destruct (from_slice data) as [response|error] eqn:Ef.
  2: { intros [= <-]. left. eauto. }
  intros Hr. right. exists response. split; [done|].
  destruct (SignedRegisterState.open _ _) as [state|e'] eqn:Eo.
  - apply check_response_inv in Hr. destruct (token_parts response) as [token code]. destruct e; [|done|done|].
    + right. exists state. unfold PublicKey.verify. by rewrite Hr.
    + destruct Hr as (m & Hm & Ht). eauto.
  - injection Hr as <-. apply open_rejects in Eo. destruct (token_parts response) as [token code].
    destruct e'; naive_solver.
Qed.

End Authenticity.

(** ** Keys and versions as text *)

Section Texts.
Context {ED : Ed25519} {B64 : Base64} {EL : Ed25519Laws} {BL : Base64Laws}.

(** keys survive their text.  A public key is read back from what is displayed, a secret key
    from its long form, and from its short form, which leaves out the public key, whenever the
    two belong together; the forms are told apart by their length. *)
Theorem keys_roundtrip (key : PublicKey) (secret : SecretKey) :
  PublicKey.from_str (PublicKey.to_string key) = Ok key
  /\ SecretKey.from_str (SecretKey.fmt secret true) = Ok secret
  /\ (SecretKey.from_str (SecretKey.fmt secret false) = Ok secret
      <-> snd (SecretKey.inner secret) = from_secret (fst (SecretKey.inner secret))).
Proof.
  destruct key as [pk], secret as [ [sk pub] ].
  unfold PublicKey.from_str, PublicKey.to_string, SecretKey.from_str, SecretKey.fmt. simpl.
  rewrite !b64_decode_encode, public_bytes, keypair_bytes, secret_bytes, keypair_bytes_length, secret_bytes_length.
  rewrite bool_decide_true by done. rewrite bool_decide_false by done. split_and!; [done..|].
  split; [by intros [= <-]|by intros ->].
Qed.

End Texts.

Definition is_u8 (n : Z) : Prop := 0 <= n <= 255.
Definition version_ok (v : RelayVersion) : Prop :=
  is_u8 (RelayVersion.major v) /\ is_u8 (RelayVersion.minor v) /\ is_u8 (RelayVersion.patch v).

Lemma split_dots_digits s t :
  str_forallb is_ascii_digit s = true ->
  RelayVersion.split_dots (s +:+ t) =
  match RelayVersion.split_dots t with x :: l => (s +:+ x) :: l | [] => [s] end.
Proof.
  intros Hs. induction s as [|a s IH]; simpl in *.
  - destruct (RelayVersion.split_dots t) eqn:E; [|done]. destruct t as [|a t]; simpl in E; [done|].
    case_match; [done|]. by destruct (RelayVersion.split_dots t).
  - apply andb_true_iff in Hs as [Ha Hs]. rewrite (IH Hs).
    rewrite bool_decide_false by (by intros ->). rewrite bool_decide_false by (by intros ->). simpl.
    by destruct (RelayVersion.split_dots t).
Qed.

Lemma parse_u8_to_string n : is_u8 n -> parse_uint 255 (u64_to_string n) = Some n.
Proof. intros Hn. apply parse_uint_to_string; unfold in_width, is_u8 in *; lia. Qed.

(** A version is read back from its text, also with a suffix behind a dash or a dot. *)
Lemma version_roundtrip v suffix :
  version_ok v -> (suffix = "" \/ exists s, suffix = String "-" s \/ suffix = String "." s) ->
  RelayVersion.from_str (RelayVersion.to_string v +:+ suffix) = Ok v.
Proof.
  destruct v as [a b c]. intros (Ha & Hb & Hc) Hs. unfold RelayVersion.from_str, RelayVersion.to_string. simpl in *.
  assert (Hsplit : exists l, RelayVersion.split_dots suffix = "" :: l).
  { destruct Hs as [->|(s & [-> | ->])]; simpl; eauto. }
  destruct Hsplit as [l Hl].
  rewrite !str_app_assoc, split_dots_digits by (apply u64_to_string_digits, Ha). simpl.
  rewrite !str_app_assoc, split_dots_digits by (apply u64_to_string_digits, Hb). simpl.
  rewrite split_dots_digits, Hl by (apply u64_to_string_digits, Hc). rewrite !str_app_nil_r.
  simpl. rewrite parse_u8_to_string by done. simpl. rewrite parse_u8_to_string by done. simpl.
  by rewrite parse_u8_to_string.
Qed.

(** Every version is supported. *)
Lemma every_version_supported v : version_ok v -> RelayVersion.supported v = true.
Proof.
  destruct v as [a b c]. unfold version_ok, is_u8, RelayVersion.supported, RelayVersion.ltb. simpl. intros Hv.
  repeat case_bool_decide; simpl; lia || done.
Qed.


(** ** A model of the crates *)

(** Texts over two letters for the values of a countable type, hexadecimal for base64, one-byte
    keys written 32 times, and signatures that hold the key and the message. *)
Module Toy.

Fixpoint print_pos (p : positive) : string :=
  match p with
  | xH => ""
  | xO p => String "0" (print_pos p)
  | xI p => String "1" (print_pos p)
  end.

Fixpoint read_pos (s : string) : positive :=
  match s with
  | EmptyString => xH
  | String a s => if bool_decide (a = "1"%char) then xI (read_pos s) else xO (read_pos s)
  end.

Lemma read_print p : read_pos (print_pos p) = p.
Proof. induction p as [p IH|p IH|]; simpl; by rewrite ?IH. Qed.

Definition json T `{Countable T} : SerdeJson T := {|
  to_json_string t := Ok (print_pos (encode t));
  from_slice s := match decode (read_pos s) with Some t => Ok t | None => Err (MkJsonError "no value") end;
|}.

Lemma json_laws T `{Countable T} : @JsonTotal T (json T).
Proof. constructor. intros t. eexists. split; [reflexivity|]. simpl. by rewrite read_print, decode_encode. Qed.

Definition b64 : Base64 := {|
  b64_encode s := print_pos (encode s);
  b64_decode s := decode (read_pos s);
|}.

Lemma print_pos_alphabet p : str_forallb is_base64url (print_pos p) = true.
Proof. induction p; simpl; done. Qed.

Lemma b64_laws : @Base64Laws b64.
Proof. constructor; simpl; intros s; [by rewrite read_print, decode_encode|apply print_pos_alphabet]. Qed.

Fixpoint repeat_char (a : ascii) (n : nat) : string := match n with O => "" | S n => String a (repeat_char a n) end.
Definition head (s : string) : option ascii := String.get 0 s.

Definition ed : Ed25519 := {|
  EdSecret := ascii; EdPublic := ascii; EdSignature := string;
  secret_to_bytes a := repeat_char a 32; secret_from_bytes := head;
  public_to_bytes a := repeat_char a 32; public_from_bytes := head;
  signature_to_bytes s := s; signature_from_bytes := Some;
  keypair_to_bytes k := repeat_char (fst k) 32 +:+ repeat_char (snd k) 32;
  keypair_from_bytes s := a ← head s; b ← String.get 32 s; Some (a, b);
  from_secret a := a;
  ed_sign k m := String (fst k) m;
  ed_verify k m s := bool_decide (s = String k m);
|}.

Lemma ed_laws : @Ed25519Laws ed.
Proof. constructor; simpl; intros; try done; [by destruct k|]. by apply bool_decide_true. Qed.

#[local] Existing Instances ed b64.

#[global] Instance header_eq_dec : EqDecision SignatureHeader.
Proof. solve_decision. Defined.
#[global] Instance header_countable : Countable SignatureHeader.
Proof. refine (inj_countable' SignatureHeader.timestamp SignatureHeader.MkSignatureHeader _). by intros []. Defined.

#[global] Instance version_countable : Countable RelayVersion.
Proof.
  refine (inj_countable' (fun v => (RelayVersion.major v, RelayVersion.minor v, RelayVersion.patch v))
    (fun '(a, b, c) => RelayVersion.MkRelayVersion a b c) _). by intros [].
Defined.

#[global] Instance key_eq_dec : EqDecision (@PublicKey ed).
Proof. intros [a] [b]. destruct (decide (a = b)) as [->|Hne]; [by left|right; congruence]. Defined.
#[global] Instance key_countable : Countable (@PublicKey ed).
Proof. refine (inj_countable' (PublicKey.inner : @PublicKey ed -> ascii) PublicKey.MkPublicKey _). by intros []. Defined.

#[global] Instance state_eq_dec : EqDecision (@RegisterState ed).
Proof. solve_decision. Defined.
#[global] Instance state_countable : Countable (@RegisterState ed).
Proof.
  refine (inj_countable'
    (fun s : @RegisterState ed => (RegisterState.timestamp s : Z, RegisterState.relay_id s : Z, RegisterState.public_key s, RegisterState.rand s))
    (fun '(a, b, c, d) => RegisterState.MkRegisterState a b c d) _). by intros [].
Defined.

#[global] Instance request_eq_dec : EqDecision (@RegisterRequest ed).
Proof. solve_decision. Defined.
#[global] Instance request_countable : Countable (@RegisterRequest ed).
Proof.
  refine (inj_countable'
    (fun s : @RegisterRequest ed => (RegisterRequest.relay_id s : Z, RegisterRequest.public_key s, RegisterRequest.version s))
    (fun '(a, b, c) => RegisterRequest.MkRegisterRequest a b c) _). by intros [].
Defined.

#[global] Instance response_eq_dec : EqDecision RegisterResponse.
Proof. intros [a [b] c] [a' [b'] c']. destruct (decide ((a, b, c) = (a', b', c'))); [left|right]; congruence. Defined.
#[global] Instance response_countable : Countable RegisterResponse.
Proof.
  refine (inj_countable'
    (fun s => (RegisterResponse.relay_id s : Z, RegisterResponse.token s, RegisterResponse.version s))
    (fun '(a, b, c) => RegisterResponse.MkRegisterResponse a (SignedRegisterState.MkSignedRegisterState b) c) _).
  by intros [? [] ?].
Defined.

(** The code of a message: the key, a bar and the message. *)
Definition registering : Registering := {|
  reg_ed := ed; reg_b64 := b64; reg_hmac := fun key m => key +:+ "|" +:+ m;
  reg_version := {| VERSION_MAJOR := 21; VERSION_MINOR := 9; VERSION_PATCH := 0 |};
  reg_header := json _; reg_state := json _; reg_request := json _; reg_response := json _;
|}.

Lemma registering_laws : @RegisteringLaws registering.
Proof. constructor; simpl; auto using ed_laws, b64_laws, json_laws. Qed.

End Toy.



(** A relay registers within a minute. *)
Lemma registration_roundtrip_witness :
  exists data sig challenge data' sig',
    SecretKey.pack (ED := Toy.ed) (B64 := Toy.b64) (HJ := @reg_header Toy.registering)
      (H := @reg_request Toy.registering) (@secret_key Toy.ed "k"%char) 100
      (@register_new Toy.registering 7 (@public_key Toy.ed "k"%char)) = Ret (data, sig)
    /\ @relay_create_register_challenge Toy.registering 200 "random" data sig "secret" 60 = Ret (Ok challenge)
    /\ SecretKey.pack (ED := Toy.ed) (B64 := Toy.b64) (HJ := @reg_header Toy.registering)
         (H := @reg_response Toy.registering) (@secret_key Toy.ed "k"%char) 300
         (@challenge_into_response Toy.registering challenge) = Ret (data', sig')
    /\ @relay_validate_register_response Toy.registering 400 data' sig' "secret" 60
       = Ret (Ok (@MkRelayRegisterResponse Toy.registering 7 (RegisterChallenge.token challenge)
                    (@public_key Toy.ed "k"%char) (@RelayVersion.current (@reg_version Toy.registering)))).
Proof.
  refine (@registration_roundtrip Toy.registering Toy.registering_laws "k"%char 7 "secret" "random" 100 200 300 400 60 _ _ _ _).
  - unfold clock_ok. lia.
  - unfold clock_ok. lia.
  - unfold age_ok, u32_max. lia.
  - right. unfold nanos_per_sec, duration_as_secs. vm_compute. split_and!; discriminate.
Defined.

(** In the model of the crates, a response is accepted. *)
Lemma toy_accepts :
  exists data sig response state,
    @response_unpack Toy.registering 400 data sig "secret" None = Ret (Ok (response, state)).
Proof.
  pose (req := @register_new Toy.registering 7 (@public_key Toy.ed "k"%char)).
  destruct (@challenge_opens Toy.registering Toy.registering_laws 200 "random" req "secret")
    as (challenge & state & _ & _ & Ho & Ht & _ & Hk).
  pose (response := @challenge_into_response Toy.registering challenge).
  destruct (@pack_verifies _ _ _ Toy.ed_laws Toy.b64_laws (Toy.json_laws _) _ _ (Toy.json_laws RegisterResponse)
              "k"%char 300 response) as (data & sig & _ & Hf & Hv).
  exists data, sig, response, state.
  refine (@response_accepted Toy.registering "k"%char 400 300 200 "secret" 0 data sig response state
            _ _ _ (or_introl eq_refl) Ht Hk Ho Hf Hv); unfold clock_ok, age_ok, u32_max; lia.
Qed.

Lemma registered_relay_authentic_witness :
  exists data sig response state,
    @response_unpack Toy.registering 400 data sig "secret" None = Ret (Ok (response, state))
    /\ @token_authentic Toy.registering "secret" response state.
Proof.
  destruct toy_accepts as (data & sig & response & state & Hr). exists data, sig, response, state.
  split; [exact Hr|].
  refine (proj1 (proj2 (@registered_relay_authentic Toy.registering 400 data sig "secret" None response state _ Hr))).
  vm_compute. discriminate.
Defined.

Lemma register_response_rejected_witness :
  exists e, @response_unpack Toy.registering 0 "1" "" "secret" None = Ret (Err e)
    /\ exists error, e = UnpackError.BadPayload error.
Proof.
  eexists. split; [vm_compute; reflexivity|].
  destruct (@register_response_rejected Toy.registering 0 "1" "" "secret" None
              (UnpackError.BadPayload (MkJsonError "no value")) ltac:(vm_compute; reflexivity))
    as [(error & He & _)|(r & Hf & _)]; [by exists error|vm_compute in Hf; discriminate Hf].
Defined.
