(* ===== verification/ClockDrift.v ===== *)
(** * relay-general: clock drift correction (store/clock_drift.rs)

    Timestamps of a sender whose clock is off by at least a threshold are moved
    by the difference between the receiver's and the sender's clock: the Unix
    timestamps of metrics (machine integers that wrap around), the dates of
    sessions and all dates of an event (calendar dates that panic out of range). *)

From Stdlib Require Import Ascii String.
From S2P Require Import Prelude Strings Floats Types Common Protocol Quota Filters Sampling Extractors Envelopes Sessions.

Open Scope string_scope.
Open Scope Z_scope.
Open Scope list_scope.

Module ClockCorrection.

Record ClockCorrection := MkClockCorrection { sent_at : DateTime; drift : SignedDuration }.

Definition new (sent_at received_at : DateTime) : ClockCorrection :=
  MkClockCorrection sent_at (received_at - sent_at).

Definition at_least (self : ClockCorrection) (lower_bound : Duration) : option ClockCorrection :=
  if bool_decide (duration_as_secs lower_bound <= Z.abs (num_seconds (drift self))) then Some self else None.

End ClockCorrection.
Notation ClockCorrection := ClockCorrection.ClockCorrection.

Module ClockDriftProcessor.

Record ClockDriftProcessor := MkClockDriftProcessor {
  received_at : DateTime;
  correction : option ClockCorrection;
  kind : ErrorKind;
}.

Definition new (sent_at : option DateTime) (received_at : DateTime) : ClockDriftProcessor :=
  MkClockDriftProcessor received_at
    ((fun sent_at => ClockCorrection.new sent_at received_at) <$> sent_at) ErrorKind.ClockDrift.

Definition at_least (self : ClockDriftProcessor) (lower_bound : Duration) : ClockDriftProcessor :=
  MkClockDriftProcessor (received_at self)
    (c ← correction self; ClockCorrection.at_least c lower_bound) (kind self).

Definition error_kind (self : ClockDriftProcessor) (kind : ErrorKind) : ClockDriftProcessor :=
  MkClockDriftProcessor (received_at self) (correction self) kind.

Definition is_drifted (self : ClockDriftProcessor) : bool :=
  match correction self with Some _ => true | None => false end.

Definition process_timestamp (self : ClockDriftProcessor) (timestamp : UnixTimestamp) : UnixTimestamp :=
  match correction self with
  | None => timestamp
  | Some correction =>
      let secs := num_seconds (ClockCorrection.drift correction) in
      if bool_decide (0 < secs)
      then UnixTimestamp.from_secs (u64_add (UnixTimestamp.as_secs timestamp) secs)
      else UnixTimestamp.from_secs (u64_sub (UnixTimestamp.as_secs timestamp) (Z.abs secs))
  end.

Definition process_session (self : ClockDriftProcessor) (session : SessionUpdate) : outcome SessionUpdate :=
  match correction self with
  | None => Ret session
  | Some correction =>
      timestamp ← datetime_add (SessionUpdate.timestamp session) (ClockCorrection.drift correction);
      started ← datetime_add (SessionUpdate.started session) (ClockCorrection.drift correction);
      Ret (SessionUpdate.set_started (SessionUpdate.set_timestamp session timestamp) started)
  end.

(** [Processor::process_timestamp] on one annotated date. *)
Definition process_date (correction : ClockCorrection) (t : Annotated Timestamp)
  : outcome (Annotated Timestamp) :=
  Annotated.mapM (fun t => datetime_add t (ClockCorrection.drift correction)) t.

Definition process_breadcrumb (correction : ClockCorrection) (b : Breadcrumb) : outcome Breadcrumb :=
  t ← process_date correction (Breadcrumb.timestamp b);
  Ret (Breadcrumb.MkBreadcrumb t (Breadcrumb.ty b) (Breadcrumb.category b) (Breadcrumb.level b)
    (Breadcrumb.message b) (Breadcrumb.data b) (Breadcrumb.event_id b) (Breadcrumb.other b)).

Definition process_span (correction : ClockCorrection) (s : Span) : outcome Span :=
  t ← process_date correction (Span.timestamp s);
  st ← process_date correction (Span.start_timestamp s);
  Ret (Span.MkSpan t st (Span.op s) (Span.span_id s) (Span.trace_id s) (Span.other s)).

(** The fields of an event that hold dates. *)
Definition set_dates (e : Event) (t st rc : Annotated Timestamp) (bs : Annotated (Values Breadcrumb))
  (ss : Annotated (list (Annotated Span))) : Event :=
  MkEvent (event_id e) (event_level e) (event_version e) (event_ty e) (event_fingerprint e)
    (event_culprit e) (transaction e) (time_spent e) (logentry e) (logger e) (event_modules e) (platform e)
    t st rc (server_name e) (release e) (dist e) (environment e) (site e) (user e) (request e) (contexts e)
    bs (exceptions e) (event_stacktrace e) (event_template e) (threads e) (tags e) (extra e) (debug_meta e)
    (client_sdk e) (event_errors e) (event_key_id e) (event_project e) (grouping_config e)
    (event_checksum e) (csp e) (hpkp e) (expectct e) (expectstaple e) ss (measurements e) (breakdowns e)
    (metrics e) (event_other e).

(** [Event::process_child_values]: the dates of an event are its own and those
    of its breadcrumbs and spans. *)
Definition process_children (correction : ClockCorrection) (event : Event) : outcome Event :=
  t ← process_date correction (timestamp event);
  st ← process_date correction (start_timestamp event);
  rc ← process_date correction (received event);
  bs ← Annotated.mapM (fun vs =>
         bs ← Annotated.mapM (mapM (Annotated.mapM (process_breadcrumb correction))) (values vs);
         Ret (MkValues bs (values_other vs))) (breadcrumbs event);
  ss ← Annotated.mapM (mapM (Annotated.mapM (process_span correction))) (spans event);
  Ret (set_dates event t st rc bs ss).

Section Event.

(** [DateTime::to_rfc3339] *)
Context (to_rfc3339 : DateTime -> string).

Definition drift_error (self : ClockDriftProcessor) (correction : ClockCorrection) : Error :=
  MkError (kind self) [("sdk_time", String_ (to_rfc3339 (ClockCorrection.sent_at correction)));
                       ("server_time", String_ (to_rfc3339 (received_at self)))].

Definition process_event (self : ClockDriftProcessor) (event : Event) : outcome Event :=
  match correction self with
  | None => Ret event
  | Some correction =>
      event ← process_children correction event;
      Ret (set_timestamp event
             (Annotated.map_meta (timestamp event)
                (fun m => Meta.add_error m (drift_error self correction))))
  end.

(** [process_value] on an annotated event. *)
Definition process_value (self : ClockDriftProcessor) (event : Annotated Event) : outcome (Annotated Event) :=
  Annotated.mapM (process_event self) event.

End Event.

End ClockDriftProcessor.
Notation ClockDriftProcessor := ClockDriftProcessor.ClockDriftProcessor.

(** ** Traversals that move dates *)

(** Whether a date can be moved by [d]. *)
Definition movable (d : SignedDuration) (t : DateTime) : Prop := chrono_min <= t + d <= chrono_max.

(** [f] moves exactly the dates [dates a] by [d]: it changes nothing else (what
    [erase] leaves), and panics exactly when one of them cannot be moved. *)
Class Shifts {A} (d : SignedDuration) (dates : A -> list DateTime) (erase : A -> A) (f : A -> outcome A)
  : Prop :=
  shifts a : match f a with
             | Ret a' => Forall (movable d) (dates a) /\ dates a' = (fun t => t + d) <$> dates a /\ erase a' = erase a
             | Panic => ~ Forall (movable d) (dates a)
             end.

Definition annotated_dates {A} (dates : A -> list DateTime) (a : Annotated A) : list DateTime :=
  match Annotated.value a with Some v => dates v | None => [] end.
Definition date_of (t : Annotated Timestamp) : list DateTime := annotated_dates (fun t => [t]) t.
Definition erase_date (t : Annotated Timestamp) : Annotated Timestamp := Annotated.map_value t (fun _ => 0).

Definition breadcrumb_dates (b : Breadcrumb) : list DateTime := date_of (Breadcrumb.timestamp b).
Definition erase_breadcrumb (b : Breadcrumb) : Breadcrumb :=
  Breadcrumb.MkBreadcrumb (erase_date (Breadcrumb.timestamp b)) (Breadcrumb.ty b) (Breadcrumb.category b) (Breadcrumb.level b)
    (Breadcrumb.message b) (Breadcrumb.data b) (Breadcrumb.event_id b) (Breadcrumb.other b).

Definition span_dates (s : Span) : list DateTime :=
  date_of (Span.timestamp s) ++ date_of (Span.start_timestamp s).
Definition erase_span (s : Span) : Span :=
  Span.MkSpan (erase_date (Span.timestamp s)) (erase_date (Span.start_timestamp s)) (Span.op s)
    (Span.span_id s) (Span.trace_id s) (Span.other s).

Definition values_dates {A} (dates : A -> list DateTime) (vs : Values A) : list DateTime :=
  annotated_dates (fun l => l ≫= annotated_dates dates) (values vs).
Definition erase_values {A} (erase : A -> A) (vs : Values A) : Values A :=
  MkValues (Annotated.map_value (values vs) (fmap (fun a => Annotated.map_value a erase))) (values_other vs).

Definition event_dates (e : Event) : list DateTime :=
  date_of (timestamp e) ++ date_of (start_timestamp e) ++ date_of (received e)
  ++ annotated_dates (values_dates breadcrumb_dates) (breadcrumbs e)
  ++ annotated_dates (fun l => l ≫= annotated_dates span_dates) (spans e).
Definition erase_event (e : Event) : Event :=
  ClockDriftProcessor.set_dates e (erase_date (timestamp e)) (erase_date (start_timestamp e))
    (erase_date (received e)) (Annotated.map_value (breadcrumbs e) (erase_values erase_breadcrumb))
    (Annotated.map_value (spans e) (fmap (fun a => Annotated.map_value a erase_span))).

Section Shift.
Context (d : SignedDuration).

#[global] Instance shifts_add : Shifts d (fun t => [t]) (fun _ => 0) (fun t => datetime_add t d).
Proof.
  intros t. unfold datetime_add. case_bool_decide; by rewrite Forall_singleton.
Qed.

#[global] Instance shifts_annotated {A} dates erase (f : A -> outcome A) :
  Shifts d dates erase f ->
  Shifts d (annotated_dates dates) (fun a => Annotated.map_value a erase) (Annotated.mapM f).
Proof.
  intros Hf [[v|] m]; simpl; [|by repeat constructor].
  pose proof (Hf v) as Hv. unfold annotated_dates. destruct (f v) as [v'|]; simpl; [|done].
  destruct Hv as (? & ? & ->). done.
Qed.

#[global] Instance shifts_list {A} dates erase (f : A -> outcome A) :
  Shifts d dates erase f -> Shifts d (fun l => l ≫= dates) (fmap erase) (mapM f).
Proof.
  intros Hf l. induction l as [|x l IH]; simpl; [by repeat constructor|].
  pose proof (Hf x) as Hx. destruct (f x) as [x'|]; simpl; [|rewrite Forall_app; tauto].
  destruct (mapM f l) as [l'|]; simpl; rewrite Forall_app; [|tauto].
  destruct Hx as (? & Hdx & Hex), IH as (? & Hdl & Hel). split; [done|].
  change (dates x' ++ (l' ≫= dates) = (fun t => t + d) <$> (dates x ++ (l ≫= dates)) /\
          erase x' :: (erase <$> l') = erase x :: (erase <$> l)).
  by rewrite fmap_app, Hdx, Hdl, Hex, Hel.
Qed.

#[global] Instance shifts_date sent_at :
  Shifts d date_of erase_date
    (ClockDriftProcessor.process_date (ClockCorrection.MkClockCorrection sent_at d)).
Proof. exact (shifts_annotated _ _ _ shifts_add). Qed.

#[global] Instance shifts_breadcrumb sent_at :
  Shifts d breadcrumb_dates erase_breadcrumb
    (ClockDriftProcessor.process_breadcrumb (ClockCorrection.MkClockCorrection sent_at d)).
Proof.
  intros b. unfold ClockDriftProcessor.process_breadcrumb, breadcrumb_dates, erase_breadcrumb.
  pose proof (shifts_date sent_at (Breadcrumb.timestamp b)) as H.
  destruct (ClockDriftProcessor.process_date _ _); simpl; [|done].
  destruct H as (? & ? & ->). done.
Qed.

#[global] Instance shifts_span sent_at :
  Shifts d span_dates erase_span
    (ClockDriftProcessor.process_span (ClockCorrection.MkClockCorrection sent_at d)).
Proof.
  intros s. unfold ClockDriftProcessor.process_span, span_dates, erase_span.
  pose proof (shifts_date sent_at (Span.timestamp s)) as H1.
  pose proof (shifts_date sent_at (Span.start_timestamp s)) as H2.
  do 2 (destruct (ClockDriftProcessor.process_date _ _); simpl; [|rewrite Forall_app; tauto]).
  rewrite Forall_app, fmap_app.
  destruct H1 as (? & -> & ->), H2 as (? & -> & ->). done.
Qed.

#[global] Instance shifts_values {A} dates erase (f : A -> outcome A) :
  Shifts d dates erase f ->
  Shifts d (values_dates dates) (erase_values erase)
    (fun vs => l ← Annotated.mapM (mapM (Annotated.mapM f)) (values vs); Ret (MkValues l (values_other vs))).
Proof.
  intros Hf vs. unfold values_dates, erase_values.
  pose proof (shifts_annotated _ _ _ (shifts_list _ _ _ (shifts_annotated _ _ _ Hf)) (values vs)) as H.
  destruct (Annotated.mapM _ _); simpl in *; [|done].
  destruct H as (? & ? & Heq). split; [done|]. split; [done|]. by f_equal.
Qed.

(** The next field of a structure: it moves, or the traversal panics. *)
Ltac shift_field H :=
  match type of H with
  | match ?m with Ret _ => _ | Panic => _ end =>
      destruct m as [?|];
      [destruct H as (? & ? & ?)
      |cbn [mbind outcome_bind]; rewrite !Forall_app; intros Hall; apply H; clear H; naive_solver]
  end.

Lemma shifts_children sent_at :
  Shifts d event_dates erase_event
    (ClockDriftProcessor.process_children (ClockCorrection.MkClockCorrection sent_at d)).
Proof.
  intros e. unfold ClockDriftProcessor.process_children, event_dates, erase_event.
  pose proof (shifts_date sent_at (timestamp e)) as H1.
  pose proof (shifts_date sent_at (start_timestamp e)) as H2.
  pose proof (shifts_date sent_at (received e)) as H3.
  pose proof (shifts_annotated _ _ _ (shifts_values _ _ _ (shifts_breadcrumb sent_at)) (breadcrumbs e)) as H4.
  pose proof (shifts_annotated _ _ _ (shifts_list _ _ _ (shifts_annotated _ _ _ (shifts_span sent_at)))
                (spans e)) as H5.
  shift_field H1. shift_field H2. shift_field H3. shift_field H4. shift_field H5.
  cbn [mbind outcome_bind]. rewrite !Forall_app. split; [done|].
  rewrite !fmap_app. unfold ClockDriftProcessor.set_dates. simpl. split; [congruence|by f_equal].
Qed.

End Shift.

(** ** Correctness *)

Lemma is_drifted_spec sent_at received_at lower_bound :
  ClockDriftProcessor.is_drifted
    (ClockDriftProcessor.at_least (ClockDriftProcessor.new sent_at received_at) lower_bound) = true <->
  exists t, sent_at = Some t /\ duration_as_secs lower_bound <= Z.abs (num_seconds (received_at - t)).
Proof.
  unfold ClockDriftProcessor.is_drifted, ClockDriftProcessor.at_least, ClockCorrection.at_least. simpl.
  destruct sent_at as [t|]; simpl; [case_bool_decide|]; naive_solver.
Qed.

(** The event after its timestamp was marked with the drift error. *)
Definition marked (to_rfc3339 : DateTime -> string) (p : ClockDriftProcessor) (c : ClockCorrection) (e : Event)
  : Event :=
  set_timestamp e (Annotated.map_meta (timestamp e)
    (fun m => Meta.add_error m (ClockDriftProcessor.drift_error to_rfc3339 p c))).

Lemma erase_marked e f :
  erase_event (set_timestamp e (Annotated.map_meta (timestamp e) f))
  = set_timestamp (erase_event e) (Annotated.map_meta (timestamp (erase_event e)) f).
Proof.
  unfold erase_event, ClockDriftProcessor.set_dates, set_timestamp. cbn -[erase_values].
  by destruct (timestamp e) as [[] ?].
Qed.

(** An event of a sender whose clock is off by at least the threshold: all its
    dates move by the difference of the clocks, so the distances between them
    stay; the event's timestamp is marked with one error and nothing else
    changes.  The correction panics exactly when a moved date leaves chrono's
    range.  Below the threshold the event stays as it is. *)
Theorem clock_drift_event to_rfc3339 sent_at received_at lower_bound e :
  let p := ClockDriftProcessor.at_least (ClockDriftProcessor.new (Some sent_at) received_at) lower_bound in
  let c := ClockCorrection.new sent_at received_at in
  let d := received_at - sent_at in
  if bool_decide (duration_as_secs lower_bound <= Z.abs (num_seconds d)) then
    match ClockDriftProcessor.process_event to_rfc3339 p e with
    | Ret e' => Forall (movable d) (event_dates e) /\
                event_dates e' = (fun t => t + d) <$> event_dates e /\
                erase_event e' = erase_event (marked to_rfc3339 p c e)
    | Panic => ~ Forall (movable d) (event_dates e)
    end
  else ClockDriftProcessor.process_event to_rfc3339 p e = Ret e.
Proof.
  intros p c d. unfold ClockDriftProcessor.process_event.
  change (ClockDriftProcessor.correction p) with (ClockCorrection.at_least c lower_bound).
  unfold ClockCorrection.at_least. change (ClockCorrection.drift c) with d.
  case_bool_decide as Hd; [|done].
  pose proof (shifts_children d sent_at e) as H. change (ClockCorrection.MkClockCorrection sent_at d) with c in H.
  destruct (ClockDriftProcessor.process_children c e) as [e'|]; [|done].
  destruct H as (Hf & Hdates & Herase). cbn [mbind outcome_bind]. split; [done|].
  split; [exact Hdates|].
  unfold marked. by rewrite !erase_marked, Herase.
Qed.

(** What a timestamp of the sender's clock means on the receiver's clock: the
    time of sending becomes the time of receipt. *)
Lemma sent_becomes_received sent_at received_at lower_bound :
  let p := ClockDriftProcessor.at_least (ClockDriftProcessor.new (Some sent_at) received_at) lower_bound in
  ClockDriftProcessor.is_drifted p = true ->
  chrono_min <= received_at <= chrono_max ->
  ClockDriftProcessor.process_date (ClockCorrection.new sent_at received_at) (Annotated.new sent_at)
  = Ret (Annotated.new received_at).
Proof.
  intros p _ Hr. unfold ClockDriftProcessor.process_date, datetime_add. simpl.
  replace (sent_at + (received_at - sent_at)) with received_at by lia. by rewrite bool_decide_true.
Qed.

(** Unix timestamps move by the whole seconds of the drift, modulo [2^64]. *)
Lemma process_timestamp_wraps c r k t :
  ClockDriftProcessor.process_timestamp (ClockDriftProcessor.MkClockDriftProcessor r (Some c) k) t
  = wrap 64 (t + num_seconds (ClockCorrection.drift c)).
Proof.
  unfold ClockDriftProcessor.process_timestamp. simpl. case_bool_decide; unfold u64_add, u64_sub; [done|].
  unfold UnixTimestamp.from_secs, UnixTimestamp.as_secs. f_equal. lia.
Qed.

Lemma process_timestamp_in_range p t :
  in_u64 t -> in_u64 (ClockDriftProcessor.process_timestamp p t).
Proof.
  destruct p as [r [c|] k]; [|done]. rewrite process_timestamp_wraps. intros _. by apply wrap_in_width.
Qed.
