(* ===== verification/Native.v ===== *)
(** * relay-server: crash reports (utils/native.rs, utils/unreal.rs)

    Minidumps and Apple crash reports leave a placeholder in the event that tells the
    ingestion pipeline to process the attachment.  An Unreal crash report is unpacked
    into attachments of its envelope, and its context, logs and user are merged into
    the event. *)

From Stdlib Require Import Ascii String.
From S2P Require Import Prelude Strings Types Common Protocol Quota Filters Sampling Extractors Envelopes Sessions.

Open Scope string_scope.
Open Scope Z_scope.
Open Scope list_scope.

Definition ITEM_NAME_EVENT : string := "__sentry-event".
Definition ITEM_NAME_BREADCRUMBS1 : string := "__sentry-breadcrumb1".
Definition ITEM_NAME_BREADCRUMBS2 : string := "__sentry-breadcrumb2".
Definition UNREAL_USER_HEADER : string := "unreal_user_id".
Definition MAX_NUM_UNREAL_LOGS : nat := 40.
Definition SENTRY_PAYLOAD_KEY : string := "__sentry".
Definition CLIENT_SDK_NAME : string := "unreal.crashreporter".

(** ** What the parsers of other packages find *)

(** [MinidumpModuleCrashpadInfo]; an annotation object that is not a string is [None]. *)
Record CrashpadModule := MkCrashpadModule {
  module_index : nat;
  list_annotations : list string;
  module_annotations : gmap string string;
  annotation_objects : gmap string (option string);
}.
Record CrashpadInfo := MkCrashpadInfo { simple_annotations : gmap string string; crashpad_modules : list CrashpadModule }.

(** Streams of a minidump may be missing or broken; [module_list] has the code files. *)
Inductive Stream (A : Type) := Found (a : A) | StreamNotFound | BrokenStream.
Arguments Found {A} _.
Arguments StreamNotFound {A}.
Arguments BrokenStream {A}.
Record Minidump := MkMinidump { time_date_stamp : Z; module_list : Stream (list string); crashpad_info : Stream CrashpadInfo }.

Module Unreal4FileType.
Inductive Unreal4FileType := Minidump | AppleCrashReport | Log | Config | Context | Unknown.
End Unreal4FileType.
Record Unreal4File := MkUnreal4File { file_ty : Unreal4FileType.Unreal4FileType; file_name : string; file_data : string }.

(** The fields that are read, and the others. *)
Record RuntimeProperties := MkRuntimeProperties {
  error_message : option string;
  rt_username : option string;
  user_description : option string;
  memory_stats_total_physical : option Z;
  misc_os_version_major : option string;
  misc_primary_gpu_brand : option string;
  modules : option string;
  crash_reporter_client_version : option string;
  rt_other : gmap string string;
}.
Record Unreal4Context := MkUnreal4Context { runtime_properties : option RuntimeProperties; game_data : gmap string string }.
Record Unreal4LogEntry := MkUnreal4LogEntry { log_timestamp : option DateTime; log_component : option string; log_message : string }.

(** The minidump and symbolic crates; [runtime_to_value] serializes runtime properties. *)
Class NativeEnv := {
  minidump_read : string -> option Minidump;
  path_basename : string -> string;
  unreal_crash_parse : string -> result string (list Unreal4File);
  unreal_context_parse : string -> result string Unreal4Context;
  unreal_log_parse : string -> nat -> result string (list Unreal4LogEntry);
  runtime_to_value : RuntimeProperties -> option (gmap string (Annotated Value));
}.

(** ** Placeholders *)

Record NativePlaceholder := MkNativePlaceholder { exception_type : string; exception_value : string; mechanism_type : string }.

Definition placeholder_exception (p : NativePlaceholder) : Exception :=
  MkException (Annotated.new (exception_type p)) (Annotated.new (exception_value p)) Annotated.empty Annotated.empty
    (Annotated.new
       (Mechanism.MkMechanism (Annotated.new (mechanism_type p)) (Annotated.new true) Annotated.empty Annotated.empty
          (Annotated.new false) Annotated.empty Annotated.empty ∅)) ∅.

Definition empty_values {T} : Values T := MkValues Annotated.empty ∅.

(** [exceptions.clear()] and [push] through the two wrappers. *)
Definition set_only_exception (e : Exception) : Annotated (Values Exception) -> Annotated (Values Exception) :=
  upsert empty_values (fun vs => MkValues (upsert [] (fun _ => [Annotated.new e]) (values vs)) (values_other vs)).

Definition write_native_placeholder (event : Event) (placeholder : NativePlaceholder) : Event :=
  let event := set_platform event (Annotated.set_value (platform event) (Some "native")) in
  let event := set_event_level event (Annotated.get_or_insert_with (event_level event) Level.Fatal).2 in
  set_exceptions event (set_only_exception (placeholder_exception placeholder) (exceptions event)).

Section Native.
Context `{NativeEnv}.

Definition string_values (m : gmap string string) : gmap string (Annotated Value) := (fun v => Annotated.new (String_ v)) <$> m.

(** The context of a module: its annotations over the type, then the list. *)
Definition module_context (info : CrashpadModule) : gmap string (Annotated Value) :=
  let context := {["type" := Annotated.new (String_ "crashpad")]} in
  let context := string_values (module_annotations info) ∪ context in
  let context := string_values (omap id (annotation_objects info)) ∪ context in
  match list_annotations info with
  | [] => context
  | l => <["annotations" := Annotated.new (Array ((fun s => Annotated.new (String_ s)) <$> l))]> context
  end.

Definition write_module (code_files : list string) (contexts : gmap string (Annotated Context)) (info : CrashpadModule)
  : gmap string (Annotated Context) :=
  match code_files !! module_index info with
  | None => contexts
  | Some code_file => <[path_basename code_file := Annotated.new (Context.Other (module_context info))]> contexts
  end.

(** The errors of missing or broken streams are only logged by the caller. *)
Definition write_crashpad_annotations (event : Event) (minidump : Minidump) : Event :=
  match module_list minidump, crashpad_info minidump with
  | Found code_files, Found info =>
      set_contexts event
        (upsert ∅
           (fun contexts =>
              let contexts :=
                if bool_decide (simple_annotations info = ∅) then contexts
                else <["crashpad" := Annotated.new (Context.Other (string_values (simple_annotations info)))]> contexts in
              fold_left (write_module code_files) (crashpad_modules info) contexts)
           (contexts event))
  | _, _ => event
  end.

Definition minidump_placeholder : NativePlaceholder := MkNativePlaceholder "Minidump" "Invalid Minidump" "minidump".
Definition apple_placeholder : NativePlaceholder :=
  MkNativePlaceholder "AppleCrashReport" "Invalid Apple Crash Report" "applecrashreport".

Definition process_minidump (event : Event) (data : string) : Event :=
  let event := write_native_placeholder event minidump_placeholder in
  match minidump_read data with
  | None => event
  | Some minidump =>
      let event :=
        set_timestamp event (Annotated.set_value (timestamp event) (Some (time_date_stamp minidump * nanos_per_sec))) in
      write_crashpad_annotations event minidump
  end.

Definition process_apple_crash_report (event : Event) (data : string) : Event :=
  write_native_placeholder event apple_placeholder.

(** ** Unreal crash reports *)

Definition get_event_item (data : string) : result string (option Item) :=
  context ← unreal_context_parse data;
  match game_data context !! SENTRY_PAYLOAD_KEY with
  | Some json => if bool_decide (json = "") then Ok None
                 else Ok (Some (Item.set_payload (Item.new ItemType.Event) ContentType.Json json))
  | None => Ok None
  end.

Definition file_types (file : Unreal4File) : ContentType * AttachmentType :=
  match file_ty file with
  | Unreal4FileType.Minidump => (ContentType.Minidump, AttachmentType.Minidump)
  | Unreal4FileType.AppleCrashReport => (ContentType.Text, AttachmentType.AppleCrashReport)
  | Unreal4FileType.Log => (ContentType.Text, AttachmentType.UnrealLogs)
  | Unreal4FileType.Config => (ContentType.OctetStream, AttachmentType.Attachment)
  | Unreal4FileType.Context => (ContentType.Xml, AttachmentType.UnrealContext)
  | Unreal4FileType.Unknown =>
      if bool_decide (file_name file = ITEM_NAME_EVENT) then (ContentType.MsgPack, AttachmentType.EventPayload)
      else if bool_decide (file_name file = ITEM_NAME_BREADCRUMBS1) then (ContentType.MsgPack, AttachmentType.Breadcrumbs)
      else if bool_decide (file_name file = ITEM_NAME_BREADCRUMBS2) then (ContentType.MsgPack, AttachmentType.Breadcrumbs)
      else (ContentType.OctetStream, AttachmentType.Attachment)
  end.

Definition file_item (file : Unreal4File) : Item :=
  let '(content_type, attachment_type) := file_types file in
  let item := Item.set_filename (Item.new ItemType.Attachment) (file_name file) in
  Item.set_attachment_type (Item.set_payload item content_type (file_data file)) attachment_type.

Definition is_context (file : Unreal4File) : bool := bool_decide ((file_types file).2 = AttachmentType.UnrealContext).

Fixpoint expand_files (files : list Unreal4File) (has_event : bool) (envelope : Envelope) : result string Envelope :=
  match files with
  | [] => Ok envelope
  | file :: files =>
      '(has_event, envelope) ←
        (if negb has_event && is_context file then
           event_item ← get_event_item (file_data file);
           Ok match event_item with
              | Some item => (true, Envelope.add_item envelope item)
              | None => (has_event, envelope)
              end
         else Ok (has_event, envelope));
      expand_files files has_event (Envelope.add_item envelope (file_item file))
  end.

Definition is_event (item : Item) : bool := bool_decide (Item.ty (Item.headers item) = ItemType.Event).

Definition expand_unreal_envelope (unreal_item : Item) (envelope : Envelope) : result string Envelope :=
  files ← unreal_crash_parse (Item.payload unreal_item);
  expand_files files (bool_decide (is_Some (Envelope.get_item_by envelope is_event))) envelope.

(** *** Merging *)

Definition empty_user : User :=
  MkUser Annotated.empty Annotated.empty Annotated.empty Annotated.empty Annotated.empty Annotated.empty Annotated.empty
    Annotated.empty ∅.
Definition set_user_id (u : User) (v : Annotated string) : User :=
  MkUser v (email u) (ip_address u) (username u) (user_name u) (geo u) (segment u) (user_data u) (user_other u).
Definition set_username (u : User) (v : Annotated string) : User :=
  MkUser (user_id u) (email u) (ip_address u) v (user_name u) (geo u) (segment u) (user_data u) (user_other u).

Definition push_tag (event : Event) (key value : string) : Event :=
  set_tags event (upsert [] (fun l => l ++ [Annotated.new (Annotated.new key, Annotated.new value)]) (tags event)).

Definition merge_unreal_user_info (event : Event) (user_info : string) : Event :=
  let parts := split_on "|" user_info in
  let event := match parts !! 0%nat with
               | Some id => set_user event (upsert empty_user (fun u => set_user_id u (Annotated.new id)) (user event))
               | None => event
               end in
  let event := match parts !! 1%nat with Some account => push_tag event "epic_account_id" account | None => event end in
  match parts !! 2%nat with Some machine => push_tag event "machine_id" machine | None => event end.

(** [Annotated::from] on an option. *)
Definition from_option {T} (v : option T) : Annotated T := MkAnnotated v Meta.empty.

Definition log_breadcrumb (log : Unreal4LogEntry) : Annotated Breadcrumb :=
  Annotated.new
    (Breadcrumb.MkBreadcrumb (from_option (log_timestamp log)) Annotated.empty (from_option (log_component log)) Annotated.empty
       (Annotated.new (log_message log)) Annotated.empty Annotated.empty ∅).

Definition merge_unreal_logs (event : Event) (data : string) : result string Event :=
  logs ← unreal_log_parse data MAX_NUM_UNREAL_LOGS;
  Ok (set_breadcrumbs event
        (upsert empty_values
           (fun vs => MkValues (upsert [] (fun l => l ++ (log_breadcrumb <$> logs)) (values vs)) (values_other vs))
           (breadcrumbs event))).

(** The report, and the context without the description. *)
Definition get_unreal_user_report `{SerdeJson UserReport} (event_id : EventId) (context : Unreal4Context)
  : option Item * Unreal4Context :=
  match runtime_properties context with
  | None => (None, context)
  | Some rt =>
      match user_description rt with
      | None => (None, context)
      | Some description =>
          let report := MkUserReport event_id (default "unknown" (rt_username rt)) "" description in
          let rt := MkRuntimeProperties (error_message rt) (rt_username rt) None (memory_stats_total_physical rt)
                      (misc_os_version_major rt) (misc_primary_gpu_brand rt) (modules rt) (crash_reporter_client_version rt)
                      (rt_other rt) in
          (match to_json_string report with
           | Ok json => Some (Item.set_payload (Item.new ItemType.UserReport) ContentType.Json json)
           | Err _ => None
           end, MkUnreal4Context (Some rt) (game_data context))
      end
  end.

(** [contexts.get_or_insert_with(key, ..)], changed by [f]. *)
Definition upsert_context (key : string) (d : Context) (f : Context -> Context) (contexts : gmap string (Annotated Context))
  : gmap string (Annotated Context) :=
  <[key := upsert d f (default Annotated.empty (contexts !! key))]> contexts.

(** [f] with the value of an option that is taken. *)
Definition with_some {A B} (o : option A) (f : A -> B -> B) (b : B) : B := match o with Some a => f a b | None => b end.

Definition empty_device : DeviceContext :=
  DeviceContext.MkDeviceContext Annotated.empty Annotated.empty Annotated.empty Annotated.empty ∅.
Definition empty_os : OsContext :=
  OsContext.MkOsContext Annotated.empty Annotated.empty Annotated.empty Annotated.empty Annotated.empty ∅.

Definition merge_device (memory : Z) : gmap string (Annotated Context) -> gmap string (Annotated Context) :=
  upsert_context "device" (Context.Device empty_device)
    (fun c => match c with
              | Context.Device d =>
                  Context.Device (DeviceContext.MkDeviceContext (DeviceContext.family d) (DeviceContext.model d)
                    (DeviceContext.brand d) (Annotated.new memory) (DeviceContext.other d))
              | c => c
              end).
Definition merge_os (major : string) : gmap string (Annotated Context) -> gmap string (Annotated Context) :=
  upsert_context "os" (Context.Os empty_os)
    (fun c => match c with
              | Context.Os os =>
                  Context.Os (OsContext.MkOsContext (Annotated.new major) (OsContext.version os) (OsContext.build os)
                    (OsContext.kernel_version os) (OsContext.raw_description os) (OsContext.other os))
              | c => c
              end).
Definition merge_gpu (brand : string) : gmap string (Annotated Context) -> gmap string (Annotated Context) :=
  upsert_context "gpu" (Context.Gpu (GpuContext.MkGpuContext Annotated.empty ∅))
    (fun c => match c with
              | Context.Gpu gpu => Context.Gpu (GpuContext.MkGpuContext (Annotated.new brand) (GpuContext.other gpu))
              | c => c
              end).
(** [extend] of a context of no known type. *)
Definition extend_context (key : string) (fields : gmap string (Annotated Value))
  : gmap string (Annotated Context) -> gmap string (Annotated Context) :=
  upsert_context key (Context.Other ∅) (fun c => match c with Context.Other m => Context.Other (fields ∪ m) | c => c end).

Definition empty_logentry : LogEntry := MkLogEntry Annotated.empty Annotated.empty Annotated.empty ∅.

(** What is left of the properties when everything was taken. *)
Definition remaining_properties (rt : RuntimeProperties) (sdk_inserted : bool) : RuntimeProperties :=
  MkRuntimeProperties None None (user_description rt) None None None None
    (if sdk_inserted then None else crash_reporter_client_version rt) (rt_other rt).

Definition merge_unreal_context (event : Event) (context : Unreal4Context) : Event :=
  match runtime_properties context with
  | None => event
  | Some rt =>
      let event := with_some (error_message rt)
        (fun msg event => set_logentry event
           (upsert empty_logentry (fun l => MkLogEntry (message l) (Annotated.new msg) (params l) (logentry_other l)) (logentry event)))
        event in
      let event := with_some (rt_username rt)
        (fun name event => set_user event
           (upsert empty_user (fun u => set_username u (Annotated.set_value (username u) (Some name))) (user event)))
        event in
      let sdk_inserted := bool_decide (Annotated.value (client_sdk event) = None) in
      let game := fun contexts =>
        if bool_decide (game_data context = ∅) then contexts
        else extend_context "game" (string_values (delete SENTRY_PAYLOAD_KEY (game_data context))) contexts in
      let unreal := fun contexts =>
        with_some (runtime_to_value (remaining_properties rt sdk_inserted)) (extend_context "unreal") contexts in
      let event := set_contexts event
        (upsert ∅
           (fun contexts =>
              unreal (game (with_some (misc_primary_gpu_brand rt) merge_gpu
                (with_some (misc_os_version_major rt) merge_os
                   (with_some (memory_stats_total_physical rt) merge_device contexts)))))
           (contexts event)) in
      set_client_sdk event
        (Annotated.get_or_insert_with (client_sdk event)
           (ClientSdkInfo.MkClientSdkInfo (Annotated.new CLIENT_SDK_NAME)
              (Annotated.new (default "0.0.0" (crash_reporter_client_version rt))) ∅)).2
  end.

Definition has_attachment_type (ty : AttachmentType) (item : Item) : bool :=
  bool_decide (Item.attachment_type (Item.headers item) = Some ty).
Definition header_text (v : Value) : option string := match v with String_ s => Some s | _ => None end.

Definition process_unreal_envelope `{SerdeJson UserReport} (event : Annotated Event) (envelope : Envelope)
  : result string (Annotated Event * Envelope) :=
  let user_header := Envelope.get_header envelope UNREAL_USER_HEADER ≫= header_text in
  let context_item := Envelope.get_item_by envelope (has_attachment_type AttachmentType.UnrealContext) in
  let logs_item := Envelope.get_item_by envelope (has_attachment_type AttachmentType.UnrealLogs) in
  match user_header, context_item, logs_item with
  | None, None, None => Ok (event, envelope)
  | _, _, _ =>
      let '(e, event) := Annotated.get_or_insert_with event empty_event in
      let e := with_some user_header (fun info e => merge_unreal_user_info e info) e in
      e ← match logs_item with Some item => merge_unreal_logs e (Item.payload item) | None => Ok e end;
      match context_item with
      | None => Ok (Annotated.set_value event (Some e), envelope)
      | Some item =>
          context ← unreal_context_parse (Item.payload item);
          let '(report, context) := get_unreal_user_report (default 0 (Envelope.event_id envelope)) context in
          let envelope := with_some report (fun report envelope => Envelope.add_item envelope report) envelope in
          Ok (Annotated.set_value event (Some (merge_unreal_context e context)), envelope)
      end
  end.

End Native.

(** ** Lemmas *)

Definition is_user_report (item : Item) : Prop := Item.ty (Item.headers item) = ItemType.UserReport.

Section Lemmas.
Context `{NativeEnv, SerdeJson UserReport}.

Lemma user_report_type event_id context item context' :
  get_unreal_user_report event_id context = (Some item, context') -> is_user_report item.
Proof.
  unfold get_unreal_user_report. destruct (runtime_properties context) as [rt|]; [|done].
  destruct (user_description rt); [|done]. destruct (to_json_string _); [|done]. by intros [= <- _].
Qed.

(** Merging what an Unreal report holds adds user reports to the envelope and nothing else. *)
Lemma process_unreal_adds_reports event envelope event' envelope' :
  process_unreal_envelope event envelope = Ok (event', envelope') ->
  Envelope.headers envelope' = Envelope.headers envelope
  /\ exists reports, Envelope.items envelope' = Envelope.items envelope ++ reports /\ Forall is_user_report reports
     /\ (length reports <= 1)%nat.
Proof.
  assert (forall env : Envelope, Envelope.headers env = Envelope.headers env
    /\ exists reports, Envelope.items env = Envelope.items env ++ reports /\ Forall is_user_report reports
       /\ (length reports <= 1)%nat) as Hsame.
  { intros env. split; [done|]. exists []. rewrite app_nil_r. split_and!; [done|done|cbn; lia]. }
  unfold process_unreal_envelope. set (hdr := Envelope.get_header _ _ ≫= _). set (ctx := Envelope.get_item_by _ _).
  set (logs := Envelope.get_item_by envelope (has_attachment_type AttachmentType.UnrealLogs)).
  assert (forall e0 ev, (e ← match logs with Some item => merge_unreal_logs e0 (Item.payload item) | None => Ok e0 end;
      match ctx with
      | None => Ok (Annotated.set_value ev (Some e), envelope)
      | Some item =>
          context ← unreal_context_parse (Item.payload item);
          let '(report, context) := get_unreal_user_report (default 0 (Envelope.event_id envelope)) context in
          let envelope := with_some report (fun report envelope => Envelope.add_item envelope report) envelope in
          Ok (Annotated.set_value ev (Some (merge_unreal_context e context)), envelope)
      end) = Ok (event', envelope') -> Envelope.headers envelope' = Envelope.headers envelope
    /\ exists reports, Envelope.items envelope' = Envelope.items envelope ++ reports /\ Forall is_user_report reports
       /\ (length reports <= 1)%nat) as Hmerge.
  { intros e0 ev (e & _ & Hr)%result_bind_Ok. destruct ctx as [item|]; [|injection Hr as _ <-; apply Hsame].
    apply result_bind_Ok in Hr as (context & _ & Hr). destruct (get_unreal_user_report _ context) as [ [report|] context'] eqn:Hu.
    - injection Hr as _ <-. split; [done|]. exists [report]. split_and!; [done|constructor; [by eapply user_report_type|done] |cbn; lia].
    - injection Hr as _ <-. apply Hsame. }
  destruct hdr as [info|], ctx as [item|], logs as [log|]; cbn [with_some]; try (intros Hr; by eapply Hmerge in Hr).
  intros [= _ <-]. apply Hsame.
Qed.

Definition attachments_of (files : list Unreal4File) : list Item := file_item <$> files.

Lemma event_item_type data item : get_event_item data = Ok (Some item) -> is_event item = true.
Proof.
  unfold get_event_item. intros (context & _ & Hr)%result_bind_Ok. destruct (game_data context !! _); [|done].
  case_bool_decide; [done|]. by injection Hr as <-.
Qed.

Lemma file_item_no_event file : is_event (file_item file) = false.
Proof. unfold file_item. by destruct (file_types file). Qed.

Lemma expand_files_spec files : forall has_event envelope envelope',
  expand_files files has_event envelope = Ok envelope' ->
  Envelope.headers envelope' = Envelope.headers envelope
  /\ exists new, Envelope.items envelope' = Envelope.items envelope ++ new
     /\ List.filter (fun item => negb (is_event item)) new = attachments_of files
     /\ (length (List.filter is_event new) <= 1)%nat /\ (has_event = true -> List.filter is_event new = []).
Proof.
  induction files as [|file files IH]; intros has_event envelope envelope'; cbn [expand_files].
  - intros [= <-]. split; [done|]. exists []. rewrite app_nil_r. split_and!; [done|done|cbn; lia|done].
  - intros ([he env] & Hf & Hr)%result_bind_Ok. apply IH in Hr as (Hh & new & Hi & Ha & Hl & He).
    assert (exists pre, Envelope.items env = Envelope.items envelope ++ pre /\ Envelope.headers env = Envelope.headers envelope
      /\ (pre = [] /\ he = has_event \/ exists item, pre = [item] /\ is_event item = true /\ he = true /\ has_event = false))
      as (pre & Hp & Hhe & Hpre).
    { destruct (negb has_event && is_context file) eqn:Hc.
      - apply result_bind_Ok in Hf as ([item|] & Hg & Hf); injection Hf as <- <-.
        + exists [item]. split_and!; [done|done|]. right. exists item. apply andb_true_iff in Hc as [Hc _].
          split_and!; [done|by eapply event_item_type|done|by destruct has_event].
        + exists []. rewrite app_nil_r. split_and!; [done|done|by left].
      - injection Hf as <- <-. exists []. rewrite app_nil_r. split_and!; [done|done|by left]. }
    split; [by rewrite Hh|]. exists (pre ++ file_item file :: new). rewrite Hi. cbn [Envelope.add_item Envelope.items].
    rewrite Hp, !List.filter_app. cbn [List.filter]. rewrite !file_item_no_event. cbn [negb]. rewrite Ha.
    split; [by rewrite <- !app_assoc|].
    destruct Hpre as [ [-> ->]|(item & -> & Hie & -> & ->)]; cbn [app List.filter].
    + split_and!; [done|done|done].
    + rewrite Hie. cbn. rewrite He by done. split_and!; [done|cbn; lia|done].
Qed.

End Lemmas.

(** ** Theorems *)

(** Unpacking an Unreal crash report keeps the envelope and adds, in their order, one
    attachment for every file of the report with its name and data, and at most one event,
    only when the envelope had none; merging it afterwards adds at most a user report. *)
Theorem unreal_report_expanded `{NativeEnv, SerdeJson UserReport} unreal_item envelope envelope' :
  expand_unreal_envelope unreal_item envelope = Ok envelope' ->
  exists files new, unreal_crash_parse (Item.payload unreal_item) = Ok files
  /\ Envelope.headers envelope' = Envelope.headers envelope /\ Envelope.items envelope' = Envelope.items envelope ++ new
  /\ List.filter (fun item => negb (is_event item)) new = attachments_of files
  /\ (length (List.filter is_event new) <= 1)%nat
  /\ (Envelope.get_item_by envelope is_event <> None -> List.filter is_event new = [])
  /\ forall event event' merged, process_unreal_envelope event envelope' = Ok (event', merged) ->
       exists reports, Envelope.items merged = Envelope.items envelope ++ new ++ reports /\ Forall is_user_report reports
         /\ (length reports <= 1)%nat.
Proof.
  intros (files & Hp & (Hh & new & Hi & Ha & Hl & He)%expand_files_spec)%result_bind_Ok. exists files, new.
  split_and!; [done|done|done|done|done| |].
  - intros Hne. apply He. apply bool_decide_eq_true. by apply not_eq_None_Some.
  - intros event event' merged (_ & reports & Hm & Hr & Hlen)%process_unreal_adds_reports. exists reports.
    rewrite Hm, Hi, <- app_assoc. by split_and!.
Qed.

(** A crash report always leaves its mark: the event is of the native platform, its only
    exception is the placeholder with the mechanism that the pipeline looks for, not handled
    and synthetic, a level that was set is kept and is fatal otherwise, whether the report
    can be read or not. *)
Theorem native_placeholder_written `{NativeEnv} event data :
  Forall (fun '(e', mechanism) =>
    Annotated.value (platform e') = Some "native"
    /\ Annotated.value (event_level e') = Some (default Level.Fatal (Annotated.value (event_level event)))
    /\ exists vs exc m, Annotated.value (exceptions e') = Some vs /\ Annotated.value (values vs) = Some [Annotated.new exc]
         /\ Annotated.value (Protocol.mechanism exc) = Some m /\ Annotated.value (Mechanism.ty m) = Some mechanism
         /\ Annotated.value (Mechanism.handled m) = Some false)
    [(process_minidump event data, "minidump"); (process_apple_crash_report event data, "applecrashreport")].
Proof.
  assert (forall p, Annotated.value (platform (write_native_placeholder event p)) = Some "native"
    /\ Annotated.value (event_level (write_native_placeholder event p)) = Some (default Level.Fatal (Annotated.value (event_level event)))
    /\ exists vs exc m, Annotated.value (exceptions (write_native_placeholder event p)) = Some vs /\ Annotated.value (values vs) = Some [Annotated.new exc]
         /\ Annotated.value (Protocol.mechanism exc) = Some m /\ Annotated.value (Mechanism.ty m) = Some (mechanism_type p)
         /\ Annotated.value (Mechanism.handled m) = Some false) as Hw.
  { intros p. split; [done|]. split; [done|]. eexists _, (placeholder_exception p), _. by split_and!. }
  apply Forall_cons. split; [|apply Forall_singleton; exact (Hw apple_placeholder)].
  pose proof (Hw minidump_placeholder) as Hm. unfold process_minidump. destruct (minidump_read data) as [md|]; [|exact Hm].
  unfold write_crashpad_annotations. destruct (module_list md); [|exact Hm..]. destruct (crashpad_info md); exact Hm.
Qed.

(** The payload of an event in the game data is not shown in the context of the game. *)
Theorem payload_key_hidden `{NativeEnv} fields contexts c :
  extend_context "game" (string_values (delete SENTRY_PAYLOAD_KEY fields)) contexts !! "game" = Some c ->
  forall m, Annotated.value c = Some (Context.Other m) -> contexts !! "game" = None -> m !! SENTRY_PAYLOAD_KEY = None.
Proof.
  unfold extend_context, upsert_context. rewrite lookup_insert_eq. intros [= <-] m Hm Hn. rewrite Hn in Hm. cbn in Hm.
  injection Hm as <-. unfold string_values. rewrite lookup_union, lookup_fmap, lookup_delete_eq. done.
Qed.

(** ** Witnesses *)

Section Witnesses.

(** A report with a context that holds an event, and a log. *)
Definition crash_files : list Unreal4File :=
  [MkUnreal4File Unreal4FileType.Context "CrashContext.runtime-xml" "<xml>"; MkUnreal4File Unreal4FileType.Log "game.log" "log"].
Definition example_native_env : NativeEnv := {|
  minidump_read _ := None;
  path_basename s := s;
  unreal_crash_parse _ := Ok crash_files;
  unreal_context_parse _ := Ok (MkUnreal4Context None {[SENTRY_PAYLOAD_KEY := "{}"]});
  unreal_log_parse _ _ := Ok [];
  runtime_to_value _ := None;
|}.
#[local] Existing Instance example_native_env.
Definition silent_reports : SerdeJson UserReport :=
  {| from_slice _ := Err (MkJsonError "none"); to_json_string _ := Err (MkJsonError "none") |}.
#[local] Existing Instance silent_reports.

Lemma unreal_report_expanded_witness :
  exists envelope', expand_unreal_envelope (Item.new ItemType.UnrealReport)
      (Envelope.MkEnvelope (sample_headers sample_dsn) []) = Ok envelope'
    /\ length (Envelope.items envelope') = 3%nat
    /\ List.filter (fun item => negb (is_event item)) (Envelope.items envelope') = attachments_of crash_files.
Proof.
  destruct (expand_unreal_envelope (Item.new ItemType.UnrealReport) (Envelope.MkEnvelope (sample_headers sample_dsn) []))
    as [envelope'|e] eqn:E; [|by vm_compute in E].
  destruct (unreal_report_expanded _ _ _ E) as (files & new & Hf & _ & Hi & Ha & _).
  exists envelope'. split; [done|]. split; [vm_compute in E; by injection E as <-|]. rewrite Hi. cbn [Envelope.items app].
  rewrite Ha. by injection Hf as <-.
Defined.

End Witnesses.
