(* ===== verification/Processor.v ===== *)
(** * relay-general: the processor framework on values (processor/)

    [Processor] is the trait with the methods that a processor may override for
    databags: hooks before and after every value, and a method per kind of value.
    [process_annotated] is [funcs::process_value] and [process_value_variant] what the
    derive macro generates for [Value]: the same value is visited twice, as [Value] and
    as what it holds, the second time in a state entered without a path segment.

    A processor mutates itself, the value and its meta data even when it answers with
    an action, so every method returns all of them with its [ProcessingResult].  Methods for
    containers get the walk over a child as an argument.  [fuel] bounds the nesting of
    the value; running out of it counts as a panic. *)

From Stdlib Require Import Ascii String.
From S2P Require Import Prelude Strings Floats Common Protocol Transactions Attrs Size Types.

Open Scope string_scope.
Open Scope Z_scope.
Open Scope list_scope.

Definition ProcessingResult := result ProcessingAction ().

(** [ProcessValue::value_type] and [ValueType::for_field]. *)
Definition value_type_of (v : Value) : list ValueType :=
  match v with
  | Bool _ => [ValueType.Boolean]
  | I64 _ | U64 _ | F64 _ => [ValueType.Number]
  | String_ _ => [ValueType.String_]
  | Array _ => [ValueType.Array]
  | Object _ => [ValueType.Object]
  end.
Definition for_field (field : Annotated Value) : list ValueType :=
  match Annotated.value field with Some v => value_type_of v | None => [] end.

(** What a visit leaves behind: the processor, the value, its meta data, the answer. *)
Definition visit (Self A : Type) : Type := outcome (Self * A * Meta * ProcessingResult).
(** [funcs::process_value] on a child. *)
Definition walker (Self : Type) : Type :=
  Self -> Annotated Value -> ProcessingState -> outcome (Self * Annotated Value * ProcessingResult).

Section Children.
Context {Self : Type} (walk : walker Self).

(** The loop of [process_child_values] over members with their path segments: [enter]
    is the state of a member, and the first error stops it. *)
Fixpoint children {K} (enter : K -> list ValueType -> ProcessingState) (self : Self)
    (items : list (K * Annotated Value)) : outcome (Self * list (K * Annotated Value) * ProcessingResult) :=
  match items with
  | [] => Ret (self, [], Ok ())
  | (k, v) :: items =>
      '(self, v, r) ← walk self v (enter k (for_field v));
      match r with
      | Err e => Ret (self, (k, v) :: items, Err e)
      | Ok _ => '(self, items, r) ← children enter self items; Ret (self, (k, v) :: items, r)
      end
  end.

(** [iter_mut().enumerate()]. *)
Definition enumerate (items : list (Annotated Value)) : list (Z * Annotated Value) :=
  imap (fun i a => (Z.of_nat i, a)) items.

Definition members_of {K} (items : list (K * Annotated Value)) : list (Annotated Value) := snd <$> items.

Definition array_children (self : Self) (items : list (Annotated Value)) (state : ProcessingState)
  : outcome (Self * list (Annotated Value) * ProcessingResult) :=
  '(self, items, r) ← children (fun i => ProcessingState.enter_index state i (ProcessingState.inner_attrs state))
                        self (enumerate items);
  Ret (self, members_of items, r).

Definition object_children (self : Self) (items : list (string * Annotated Value)) (state : ProcessingState)
  : outcome (Self * list (string * Annotated Value) * ProcessingResult) :=
  children (fun k => ProcessingState.enter_borrowed state k (ProcessingState.inner_attrs state)) self items.

(** The default [process_array] and [process_object]. *)
Definition default_array (self : Self) (items : list (Annotated Value)) (meta : Meta) (state : ProcessingState)
  : visit Self (list (Annotated Value)) :=
  '(self, items, r) ← array_children self items state; Ret (self, items, meta, r).
Definition default_object (self : Self) (items : list (string * Annotated Value)) (meta : Meta)
    (state : ProcessingState) : visit Self (list (string * Annotated Value)) :=
  '(self, items, r) ← object_children self items state; Ret (self, items, meta, r).

End Children.

Class Processor (Self : Type) := {
  before_process : Self -> option Value -> Meta -> ProcessingState -> outcome (Self * Meta * ProcessingResult);
  after_process : Self -> option Value -> Meta -> ProcessingState -> outcome (Self * Meta * ProcessingResult);
  process_string : Self -> string -> Meta -> ProcessingState -> visit Self string;
  process_array : walker Self -> Self -> list (Annotated Value) -> Meta -> ProcessingState ->
    visit Self (list (Annotated Value));
  process_object : walker Self -> Self -> list (string * Annotated Value) -> Meta -> ProcessingState ->
    visit Self (list (string * Annotated Value));
  process_value : Self -> Value -> Meta -> ProcessingState -> visit Self Value;
}.

Section Walk.
Context (f64_to_string : f64 -> string) {Self : Type} `{!Processor Self}.

(** The end of [Annotated::apply]: the action on a value that was there. *)
Definition apply_action (value : Value) (meta : Meta) (r : ProcessingResult) : Annotated Value * ProcessingResult :=
  match r with
  | Ok _ => (MkAnnotated (Some value) meta, Ok ())
  | Err ProcessingAction.DeleteValueHard => (MkAnnotated None meta, Ok ())
  | Err ProcessingAction.DeleteValueSoft =>
      (MkAnnotated None (set_original_value f64_to_string meta (Some value)), Ok ())
  | Err (ProcessingAction.InvalidTransaction x) =>
      (MkAnnotated (Some value) meta, Err (ProcessingAction.InvalidTransaction x))
  end.

(** [annotated.apply(|_, _| action)]: without a value the action is dropped. *)
Definition apply_hook (value : option Value) (meta : Meta) (action : ProcessingResult)
  : Annotated Value * ProcessingResult :=
  match value with
  | Some value => apply_action value meta action
  | None => (MkAnnotated None meta, Ok ())
  end.

(** [ProcessValue::process_value] of what a [Value] holds.  No processor overrides the
    methods of numbers and booleans, whose default does nothing. *)
Definition process_inner (walk : walker Self) (self : Self) (value : Value) (meta : Meta)
    (state : ProcessingState) : visit Self Value :=
  match value with
  | String_ s => '(self, s, meta, r) ← process_string self s meta state; Ret (self, String_ s, meta, r)
  | Array items =>
      '(self, items, meta, r) ← process_array walk self items meta state; Ret (self, Array items, meta, r)
  | Object items =>
      '(self, items, meta, r) ← process_object walk self items meta state; Ret (self, Object items, meta, r)
  | _ => Ret (self, value, meta, Ok ())
  end.

Definition process_value_variant (walk : walker Self) (self : Self) (value : Value) (meta : Meta)
    (state : ProcessingState) : visit Self Value :=
  '(self, value, meta, r) ← process_value self value meta state;
  match r with Err e => Ret (self, value, meta, Err e) | Ok _ =>
  let state := ProcessingState.enter_nothing state (Some (FieldAttrs.inherit (ProcessingState.attrs state))) in
  '(self, meta, r) ← before_process self (Some value) meta state;
  match r with Err e => Ret (self, value, meta, Err e) | Ok _ =>
  '(self, value, meta, r) ← process_inner walk self value meta state;
  match r with Err e => Ret (self, value, meta, Err e) | Ok _ =>
  '(self, meta, r) ← after_process self (Some value) meta state;
  Ret (self, value, meta, r)
  end end end.

(** [funcs::process_value] around the walk of the value. *)
Definition process_annotated_with (walk : walker Self) : walker Self := fun self annotated state =>
  '(self, meta, action) ← before_process self (Annotated.value annotated) (Annotated.meta annotated) state;
  let '(annotated, r) := apply_hook (Annotated.value annotated) meta action in
  match r with Err e => Ret (self, annotated, Err e) | Ok _ =>
  '(self, annotated, r) ←
     match Annotated.value annotated with
     | None => Ret (self, annotated, Ok ())
     | Some value =>
         '(self, value, meta, r) ← process_value_variant walk self value (Annotated.meta annotated) state;
         let '(annotated, r) := apply_action value meta r in Ret (self, annotated, r)
     end;
  match r with Err e => Ret (self, annotated, Err e) | Ok _ =>
  '(self, meta, action) ← after_process self (Annotated.value annotated) (Annotated.meta annotated) state;
  let '(annotated, r) := apply_hook (Annotated.value annotated) meta action in
  Ret (self, annotated, r)
  end end.

Fixpoint process_annotated (fuel : nat) : walker Self :=
  match fuel with
  | O => fun _ _ _ => Panic
  | S fuel => process_annotated_with (process_annotated fuel)
  end.

End Walk.

(** ** Nesting *)

(** 1 for scalars, one more than the deepest member for containers. *)
Fixpoint height (v : Value) : nat :=
  let member (a : Annotated Value) :=
    match a with MkAnnotated (Some v) _ => height v | MkAnnotated None _ => 0%nat end in
  match v with
  | Array items => S ((fix deepest l := match l with [] => 0%nat | a :: l => Nat.max (member a) (deepest l) end) items)
  | Object items =>
      S ((fix deepest (l : list (string * Annotated Value)) :=
            match l with [] => 0%nat | (_, a) :: l => Nat.max (member a) (deepest l) end) items)
  | _ => 1%nat
  end.

Definition annotated_height (a : Annotated Value) : nat :=
  match Annotated.value a with Some v => height v | None => 0%nat end.
Definition deepest (l : list (Annotated Value)) : nat :=
  foldr (fun a n => Nat.max (annotated_height a) n) 0%nat l.

Lemma height_array items : height (Array items) = S (deepest items).
Proof. simpl. f_equal. induction items as [|[[v|] m] items IH]; simpl; [done|..]; by rewrite IH. Qed.

Lemma height_object items : height (Object items) = S (deepest (snd <$> items)).
Proof. simpl. f_equal. induction items as [|[k [[v|] m]] items IH]; simpl; [done|..]; by rewrite IH. Qed.

Lemma height_pos v : (1 <= height v)%nat.
Proof. destruct v; simpl; lia. Qed.

Lemma deepest_elem a l : a ∈ l -> (annotated_height a <= deepest l)%nat.
Proof. induction 1 as [|a b l _ IH]; simpl; lia. Qed.

Lemma members_enumerate items : members_of (enumerate items) = items.
Proof.
  unfold members_of, enumerate. rewrite fmap_imap. transitivity (id <$> items); [apply imap_const|apply list_fmap_id].
Qed.

Lemma length_enumerate items : length (enumerate items) = length items.
Proof. apply length_imap. Qed.
