(* ===== verification/StoreChecks.v ===== *)
(** * relay-general: schema checks and event errors (store/schema.rs, event_error.rs, legacy.rs, remove_other.rs)

    Processors of the store pipeline around normalization.  [SchemaProcessor] and
    [EmitEventErrors] are instances of the class [Processor] on databags: the first
    verifies what the attributes of a field demand, the second collects every error in
    the meta data as an error of the event.  [LegacyProcessor] converts images of the
    old format, [RemoveOtherProcessor] drops unknown attributes. *)

From Stdlib Require Import Ascii String.
From S2P Require Import Prelude Strings Floats Types Attrs Common Protocol Size Transactions Processor.

Open Scope string_scope.
Open Scope Z_scope.
Open Scope list_scope.

(** ** [SchemaProcessor] *)

Section Schema.
Context (f64_to_string : f64 -> string).
(** [format!("{:?}", c)] of a character. *)
Context (char_debug : Z -> string).

Definition value_trim_whitespace (value : string) (state : ProcessingState) : string :=
  if FieldAttrs.trim_whitespace (ProcessingState.attrs state) then trim value else value.

Definition error_empty : Error := MkError ErrorKind.InvalidData [("reason", String_ "expected a non-empty value")].

Definition verify_value_nonempty (is_empty : bool) (meta : Meta) (state : ProcessingState) : Meta * ProcessingResult :=
  if FieldAttrs.nonempty (ProcessingState.attrs state) && is_empty
  then (Meta.add_error meta error_empty, Err ProcessingAction.DeleteValueHard)
  else (meta, Ok ()).

(** The first character that is not allowed. *)
Fixpoint invalid_character (char_is_valid : Z -> bool) (cs : list string) : option Z :=
  match cs with
  | [] => None
  | c :: cs => if char_is_valid (code_point c) then invalid_character char_is_valid cs else Some (code_point c)
  end.

Definition error_character (c : Z) : Error :=
  MkError ErrorKind.InvalidData [("reason", String_ ("invalid character " +:+ char_debug c))].

Definition verify_value_characters (value : string) (meta : Meta) (state : ProcessingState) : Meta * ProcessingResult :=
  match FieldAttrs.characters (ProcessingState.attrs state) with
  | Some character_set =>
      match invalid_character (char_is_valid character_set) (chars value) with
      | Some c => (Meta.add_error meta (error_character c), Err ProcessingAction.DeleteValueSoft)
      | None => (meta, Ok ())
      end
  | None => (meta, Ok ())
  end.

Definition schema_string (self : ()) (value : string) (meta : Meta) (state : ProcessingState) : visit () string :=
  let value := value_trim_whitespace value state in
  let '(meta, r) := verify_value_nonempty (bool_decide (value = "")) meta state in
  match r with Err e => Ret (self, value, meta, Err e) | Ok _ =>
  let '(meta, r) := verify_value_characters value meta state in
  Ret (self, value, meta, r)
  end.

Definition schema_array (walk : walker ()) (self : ()) (items : list (Annotated Value)) (meta : Meta)
    (state : ProcessingState) : visit () (list (Annotated Value)) :=
  '(self, items, r) ← array_children walk self items state;
  match r with Err e => Ret (self, items, meta, Err e) | Ok _ =>
  let '(meta, r) := verify_value_nonempty (bool_decide (items = [])) meta state in
  Ret (self, items, meta, r)
  end.

Definition schema_object (walk : walker ()) (self : ()) (items : list (string * Annotated Value)) (meta : Meta)
    (state : ProcessingState) : visit () (list (string * Annotated Value)) :=
  '(self, items, r) ← object_children walk self items state;
  match r with Err e => Ret (self, items, meta, Err e) | Ok _ =>
  let '(meta, r) := verify_value_nonempty (bool_decide (items = [])) meta state in
  Ret (self, items, meta, r)
  end.

Definition schema_before (self : ()) (value : option Value) (meta : Meta) (state : ProcessingState)
  : outcome (() * Meta * ProcessingResult) :=
  let missing := match value with None => true | Some _ => false end in
  if missing && FieldAttrs.required (ProcessingState.attrs state) && negb (Meta.has_errors meta)
  then Ret (self, Meta.add_error meta (MkError ErrorKind.MissingAttribute []), Ok ())
  else Ret (self, meta, Ok ()).

#[global] Instance schema : Processor () := {|
  before_process := schema_before;
  after_process self _ meta _ := Ret (self, meta, Ok ());
  process_string := schema_string;
  process_array := schema_array;
  process_object := schema_object;
  process_value self value meta _ := Ret (self, value, meta, Ok ());
|}.

End Schema.

(** ** [EmitEventErrors] *)

(** The errors that were found. *)
Definition EmitEventErrors : Type := list EventProcessingError.

(** Only the first error carries the original value. *)
Fixpoint push_errors (path : string) (original_value : option Value) (errors : list Error) : list EventProcessingError :=
  match errors with
  | [] => []
  | MkError kind data :: errors =>
      EventProcessingError.MkEventProcessingError (Annotated.new (ErrorKind.as_str kind)) (Annotated.new path)
        (MkAnnotated original_value Meta.empty)
        (list_to_map ((fun kv => (kv.1, Annotated.new kv.2)) <$> data))
      :: push_errors path None errors
  end.

Definition emit_before (self : EmitEventErrors) (value : option Value) (meta : Meta) (state : ProcessingState)
  : outcome (EmitEventErrors * Meta * ProcessingResult) :=
  if negb (Meta.has_errors meta) then Ret (self, meta, Ok ())
  else Ret (self ++ push_errors (path_to_string state) (Meta.original_value meta) (Meta.errors meta), meta, Ok ()).

#[global] Instance emit_event_errors : Processor EmitEventErrors := {|
  before_process := emit_before;
  after_process self _ meta _ := Ret (self, meta, Ok ());
  process_string self value meta _ := Ret (self, value, meta, Ok ());
  process_array := default_array;
  process_object := default_object;
  process_value self value meta _ := Ret (self, value, meta, Ok ());
|}.

(** [process_event]: [children] is the walk over the fields of the event. *)
Definition emit_process_event (children : Event -> outcome (EmitEventErrors * Event * ProcessingResult)) (event : Event)
  : outcome (Event * ProcessingResult) :=
  '(self, event, r) ← children event;
  match r with Err e => Ret (event, Err e) | Ok _ =>
  let event :=
    if bool_decide (self = []) then event
    else
      let '(errors, annotated) := Annotated.get_or_insert_with (event_errors event) [] in
      set_event_errors event (Annotated.set_value annotated (Some (errors ++ (Annotated.new <$> self)))) in
  Ret (event, Ok ())
  end.

(** ** [LegacyProcessor] *)

Section Legacy.
(** [debugid::DebugId::from] of a UUID. *)
Context (debug_id_from : string -> string).

Definition native_of_apple (apple : AppleDebugImage) : NativeDebugImage :=
  NativeDebugImage.MkNativeDebugImage Annotated.empty (AppleDebugImage.name apple)
    (Annotated.map_value (AppleDebugImage.uuid apple) debug_id_from) Annotated.empty (AppleDebugImage.arch apple)
    (AppleDebugImage.image_addr apple) (AppleDebugImage.image_size apple) (AppleDebugImage.image_vmaddr apple)
    (AppleDebugImage.other apple).

Definition legacy_debug_image (image : DebugImage) : DebugImage :=
  match image with
  | DebugImage.Apple apple => DebugImage.MachO (native_of_apple apple)
  | image => image
  end.

(** The walk reaches the images of the event; the processor overrides nothing else. *)
Definition legacy_process_event (event : Event) : Event :=
  set_debug_meta event (Annotated.map_value (debug_meta event) (fun d =>
    DebugMeta.MkDebugMeta (DebugMeta.system_sdk d)
      (Annotated.map_value (DebugMeta.images d) (fmap (fun image => Annotated.map_value image legacy_debug_image)))
      (DebugMeta.other d))).

End Legacy.

(** ** [RemoveOtherProcessor] *)

(** The error in place of an unknown attribute. *)
Definition unknown_attribute : Annotated Value :=
  MkAnnotated None (Meta.from_error (MkError ErrorKind.InvalidAttribute [])).

Definition create_errors (other : gmap string (Annotated Value)) : gmap string (Annotated Value) :=
  (fun _ => unknown_attribute) <$> other.

(** [process_other] *)
Definition remove_process_other (other : gmap string (Annotated Value)) (state : ProcessingState)
  : gmap string (Annotated Value) :=
  if FieldAttrs.retain (ProcessingState.attrs state) then other else ∅.

(** Attributes that are dropped without an error. *)
Definition silent_attributes : list string :=
  ["metadata"; "hashes"; "applecrashreport"; "device"; "repos"; "query"].

(** [process_event] and [process_breadcrumb] with the walk over the fields as [children]: the unknown
    attributes of the value itself are out of its reach. *)
Definition remove_process_event (children : Event -> outcome (Event * ProcessingResult)) (event : Event)
  : outcome (Event * ProcessingResult) :=
  let other := create_errors (foldl (fun other k => delete k other) (event_other event) silent_attributes) in
  '(event, r) ← children (set_event_other event ∅);
  match r with Err e => Ret (event, Err e) | Ok _ => Ret (set_event_other event other, Ok ()) end.

Definition set_breadcrumb_other (b : Breadcrumb) (other : gmap string (Annotated Value)) : Breadcrumb :=
  Breadcrumb.MkBreadcrumb (Breadcrumb.timestamp b) (Breadcrumb.ty b) (Breadcrumb.category b) (Breadcrumb.level b)
    (Breadcrumb.message b) (Breadcrumb.data b) (Breadcrumb.event_id b) other.

Definition remove_process_breadcrumb (children : Breadcrumb -> outcome (Breadcrumb * ProcessingResult)) (b : Breadcrumb)
  : outcome (Breadcrumb * ProcessingResult) :=
  let other := create_errors (Breadcrumb.other b) in
  '(b, r) ← children (set_breadcrumb_other b ∅);
  match r with Err e => Ret (b, Err e) | Ok _ => Ret (set_breadcrumb_other b other, Ok ()) end.

(** ** Every error is reported *)

(** The segments of the path of a state. *)
Definition path_of (state : ProcessingState) : list string :=
  PathItem.to_string <$>
    reverse (omap ProcessingState.path_item (ProcessingState.frame state :: ProcessingState.parents state)).

Lemma path_of_enter state item attrs tys :
  path_of (ProcessingState.enter state item attrs tys) = path_of state ++ [PathItem.to_string item].
Proof.
  unfold path_of.
  change (omap ProcessingState.path_item _) with
    (item :: omap ProcessingState.path_item (ProcessingState.frame state :: ProcessingState.parents state)) at 1.
  by rewrite reverse_cons, fmap_app.
Qed.

Lemma path_of_enter_nothing state attrs : path_of (ProcessingState.enter_nothing state attrs) = path_of state.
Proof. done. Qed.

(** The entries for the errors of one value. *)
Definition entries (path : list string) (meta : Meta) : list EventProcessingError :=
  push_errors (join_with "." path) (Meta.original_value meta) (Meta.errors meta).

Lemma emit_before_entries self value meta state :
  emit_before self value meta state = Ret (self ++ entries (path_of state) meta, meta, Ok ()).
Proof.
  unfold emit_before, entries. destruct (negb (Meta.has_errors meta)) eqn:E; [|done].
  unfold Meta.has_errors, Meta.errors in *. destruct (Meta.inner meta) as [[r e l v]|].
  - destruct e; [|done]. simpl. by rewrite app_nil_r.
  - simpl. by rewrite app_nil_r.
Qed.

(** The entries for a value below [path]: those of a value that is there come twice, as the walk visits it
    as a [Value] and as what it holds. *)
Fixpoint inner_entries (path : list string) (v : Value) : list EventProcessingError :=
  let member (key : string) (a : Annotated Value) :=
    match a with
    | MkAnnotated (Some v) m => entries (path ++ [key]) m ++ entries (path ++ [key]) m ++ inner_entries (path ++ [key]) v
    | MkAnnotated None m => entries (path ++ [key]) m
    end in
  match v with
  | Array items =>
      (fix elements (i : nat) l :=
         match l with [] => [] | a :: l => member (u64_to_string (Z.of_nat i)) a ++ elements (S i) l end) 0%nat items
  | Types.Object items =>
      (fix members (l : list (string * Annotated Value)) :=
         match l with [] => [] | (k, a) :: l => member k a ++ members l end) items
  | _ => []
  end.
Definition all_entries (path : list string) (a : Annotated Value) : list EventProcessingError :=
  match a with
  | MkAnnotated (Some v) m => entries path m ++ entries path m ++ inner_entries path v
  | MkAnnotated None m => entries path m
  end.

(** The members of a container with their segments. *)
Definition segments (v : Value) : list (string * Annotated Value) :=
  match v with
  | Array items => imap (fun i a => (u64_to_string (Z.of_nat i), a)) items
  | Types.Object items => items
  | _ => []
  end.

Lemma elements_entries path items : forall i,
  (fix elements (i : nat) (l : list (Annotated Value)) :=
     match l with [] => [] | a :: l => all_entries (path ++ [u64_to_string (Z.of_nat i)]) a ++ elements (S i) l end)
    i items
  = imap (fun j a => (u64_to_string (Z.of_nat (i + j)), a)) items ≫= fun ka => all_entries (path ++ [ka.1]) ka.2.
Proof.
  induction items as [|a items IH]; intros i; [done|]. cbn. rewrite Nat.add_0_r. f_equal. rewrite IH.
  f_equal. apply imap_ext. intros j b _. cbn. by replace (i + S j)%nat with (S (i + j)) by lia.
Qed.

Lemma inner_entries_segments path v :
  inner_entries path v = segments v ≫= fun ka => all_entries (path ++ [ka.1]) ka.2.
Proof.
  destruct v as [| | | | |items|items]; try done.
  - apply (elements_entries path items 0).
  - cbn. induction items as [|[k a] items IH]; [done|]. cbn. by rewrite <- IH.
Qed.

#[local] Arguments u64_to_string : simpl never.
#[local] Arguments path_of : simpl never.
#[local] Arguments entries : simpl never.
#[local] Arguments all_entries : simpl never.
#[local] Arguments inner_entries : simpl never.
#[local] Arguments emit_before : simpl never.

Lemma segments_enumerate items :
  imap (fun i a => (u64_to_string (Z.of_nat i), a)) items = (fun ia => (u64_to_string ia.1, ia.2)) <$> enumerate items.
Proof. unfold enumerate. by rewrite fmap_imap. Qed.

(** An error in the meta data somewhere in a value, with the path to it. *)
Inductive error_at : list string -> Annotated Value -> list string -> Error -> Prop :=
| error_here path v m e : e ∈ Meta.errors m -> error_at path (MkAnnotated v m) path e
| error_below path v m k a p e :
    (k, a) ∈ segments v -> error_at (path ++ [k]) a p e -> error_at path (MkAnnotated (Some v) m) p e.

(** The entry says what the error is and where. *)
Definition entry_for (path : list string) (e : Error) (x : EventProcessingError) : Prop :=
  let '(MkError kind data) := e in
  EventProcessingError.ty x = Annotated.new (ErrorKind.as_str kind)
  /\ EventProcessingError.name x = Annotated.new (join_with "." path)
  /\ EventProcessingError.other x = list_to_map ((fun kv => (kv.1, Annotated.new kv.2)) <$> data).

Lemma push_errors_Forall2 path original errors :
  Forall2 (entry_for path) errors (push_errors (join_with "." path) original errors).
Proof.
  revert original. induction errors as [|[kind data] errors IH]; intros original; [constructor|].
  constructor; [done|apply IH].
Qed.

Lemma segments_height v k a : (k, a) ∈ segments v -> (annotated_height a < height v)%nat.
Proof.
  destruct v as [| | | | |items|items]; cbn [segments]; try by intros ?%elem_of_nil.
  - intros (i & b & [= -> <-] & Hb)%elem_of_lookup_imap_1. rewrite height_array.
    pose proof (deepest_elem a items ltac:(by eapply list_elem_of_lookup_2)). lia.
  - intros Ha. rewrite height_object.
    pose proof (deepest_elem a (snd <$> items) ltac:(by apply (list_elem_of_fmap_2 snd _ (k, a)))). lia.
Qed.

Lemma entries_elem path a x :
  x ∈ all_entries path a <->
  x ∈ entries path (Annotated.meta a)
  \/ exists v k b, Annotated.value a = Some v /\ (k, b) ∈ segments v /\ x ∈ all_entries (path ++ [k]) b.
Proof.
  destruct a as [[v|] m]; unfold all_entries at 1; cbn; [|naive_solver].
  rewrite !elem_of_app, inner_entries_segments, list_elem_of_bind. split.
  - intros [?|[?|([k b] & ? & ?)]]; [by left|by left|]. right. by exists v, k, b.
  - intros [?|(v' & k & b & [= <-] & ? & ?)]; [by left|]. right; right. by exists (k, b).
Qed.

Lemma reported_are_errors path a x :
  x ∈ all_entries path a -> exists p e, error_at path a p e /\ entry_for p e x.
Proof.
  remember (annotated_height a) as h eqn:Hh. revert path a Hh.
  induction h as [h IH] using lt_wf_ind. intros path [v m] -> [Hx|(w & k & b & Ev & Hk & Hx)]%entries_elem.
  - pose proof (push_errors_Forall2 path (Meta.original_value m) (Meta.errors m)) as HF.
    apply list_elem_of_lookup in Hx as [i Hi]. destruct (Forall2_lookup_r _ _ _ _ _ HF Hi) as (e & He & Hf).
    exists path, e. split; [constructor; by eapply list_elem_of_lookup_2|done].
  - cbn in Ev. subst v. destruct (IH (annotated_height b) (segments_height w k b Hk) (path ++ [k]) b eq_refl Hx)
      as (p & e & He & Hf). exists p, e. split; [|done]. by apply (error_below path w m k b).
Qed.

Lemma errors_are_reported path a p e : error_at path a p e -> exists x, x ∈ all_entries path a /\ entry_for p e x.
Proof.
  induction 1 as [path v m e He|path v m k a p e Hk _ (x & Hx & Hf)].
  - pose proof (push_errors_Forall2 path (Meta.original_value m) (Meta.errors m)) as HF.
    apply list_elem_of_lookup in He as [i Hi]. destruct (Forall2_lookup_l _ _ _ _ _ HF Hi) as (x & Hx & Hf).
    exists x. split; [|done]. apply entries_elem. left. by eapply list_elem_of_lookup_2.
  - exists x. split; [|done]. apply entries_elem. right. by exists v, k, a.
Qed.

Section Emit.
Context (f64_to_string : f64 -> string).

(** A walk that reports what it passes, for values of a height. *)
Definition emits (walk : walker EmitEventErrors) (h : nat) : Prop :=
  forall self a state, (annotated_height a <= h)%nat ->
    walk self a state = Ret (self ++ all_entries (path_of state) a, a, Ok ()).

Lemma emits_children {K} (key : K -> string) (path : list string) walk h enter (items : list (K * Annotated Value)) :
  emits walk h -> (forall k tys, path_of (enter k tys) = path ++ [key k]) ->
  Forall (fun ka => annotated_height ka.2 <= h)%nat items -> forall self,
  children walk enter self items
  = Ret (self ++ (items ≫= fun ka => all_entries (path ++ [key ka.1]) ka.2), items, Ok ()).
Proof.
  intros Hw Hp Hh. induction Hh as [|[k a] items Ha _ IH]; intros self; cbn; [by rewrite app_nil_r|].
  rewrite Hw by done. cbn. rewrite IH, Hp. cbn. by rewrite app_assoc.
Qed.

Lemma emits_inner walk v meta state self :
  emits walk (pred (height v)) ->
  process_inner (Self := EmitEventErrors) walk self v meta state
  = Ret (self ++ inner_entries (path_of state) v, v, meta, Ok ()).
Proof.
  intros Hw. rewrite inner_entries_segments. destruct v as [| | | | |items|items]; cbn; rewrite ?app_nil_r; try done.
  - unfold default_array, array_children. rewrite height_array in Hw. cbn in Hw.
    rewrite (emits_children (fun i => u64_to_string i) (path_of state) walk (deepest items)); [|done|..].
    + cbn. rewrite members_enumerate. unfold segments. by rewrite segments_enumerate, list_fmap_bind.
    + intros k tys. apply path_of_enter.
    + apply Forall_forall. intros [k a] Ha. apply deepest_elem.
      unfold enumerate in Ha. apply elem_of_lookup_imap_1 in Ha as (i & b & [= -> ->] & Hb). by eapply list_elem_of_lookup_2.
  - unfold default_object, object_children. rewrite height_object in Hw. cbn in Hw.
    rewrite (emits_children (fun k => k) (path_of state) walk (deepest (snd <$> items))); [done|done|..].
    + intros k tys. apply path_of_enter.
    + apply Forall_forall. intros [k a] Ha. apply deepest_elem. by apply (list_elem_of_fmap_2 snd _ (k, a)).
Qed.

Lemma emits_step walk h : emits walk h -> emits (process_annotated_with f64_to_string walk) (S h).
Proof.
  intros Hw self [v m] state Hh. unfold process_annotated_with. cbn.
  rewrite emit_before_entries. cbn. destruct v as [v|]; [|done]. cbn.
  unfold process_value_variant. cbn. rewrite emit_before_entries. cbn. rewrite emits_inner.
  - cbn. by rewrite path_of_enter_nothing, <- !app_assoc.
  - intros self' a state' Ha. apply Hw. unfold annotated_height in Hh at 1. cbn in Hh. lia.
Qed.

Lemma emits_enough h : emits (process_annotated f64_to_string (S h)) h.
Proof.
  induction h as [|h IH]; [|by apply emits_step]. intros self [v m] state Hh.
  destruct v as [v|]; [pose proof (height_pos v); unfold annotated_height in Hh; cbn in Hh; lia|].
  cbn. unfold process_annotated_with. cbn. by rewrite emit_before_entries.
Qed.
(** Collecting the errors of a databag ends without changing it, and finds exactly the errors in
    its meta data: every error anywhere below gets an entry with its kind, its data
    and the path to the value, and every entry stands for such an error.  Fuel beyond
    the nesting of the value is enough. *)
Theorem errors_collected fuel a state :
  (annotated_height a < fuel)%nat ->
  exists found, process_annotated (Self := EmitEventErrors) f64_to_string fuel [] a state = Ret (found, a, Ok ())
    /\ (forall x, x ∈ found -> exists p e, error_at (path_of state) a p e /\ entry_for p e x)
    /\ (forall p e, error_at (path_of state) a p e -> exists x, x ∈ found /\ entry_for p e x).
Proof.
  intros Hf. destruct fuel as [|h]; [lia|]. exists (all_entries (path_of state) a).
  split_and!; [apply emits_enough; lia|apply reported_are_errors|apply errors_are_reported].
Qed.

End Emit.

Definition broken_member : Annotated Value :=
  Annotated.new (Types.Object [("a", MkAnnotated None (Meta.from_error (MkError ErrorKind.InvalidData [])));
                               ("b", Annotated.new (Bool true))]).

Lemma errors_collected_witness :
  exists found, process_annotated (Self := EmitEventErrors) (fun _ => "") 3 [] broken_member ProcessingState.root
    = Ret (found, broken_member, Ok ())
  /\ exists x, x ∈ found /\ entry_for ["a"] (MkError ErrorKind.InvalidData []) x.
Proof.
  destruct (errors_collected (fun _ => "") 3 broken_member ProcessingState.root) as (found & Hrun & _ & Hall);
    [vm_compute; lia|].
  exists found. split; [exact Hrun|]. apply Hall. eapply error_below; [left|]. constructor. left.
Defined.

(** The value of a member is visited twice, so the errors of a value that is there are
    reported twice. *)
Example errors_reported_twice :
  let a : Annotated Value := MkAnnotated (Some (Bool true)) (Meta.from_error (MkError ErrorKind.InvalidData [])) in
  exists x, process_annotated (Self := EmitEventErrors) (fun _ => "") 2 [] a ProcessingState.root = Ret ([x; x], a, Ok ()).
Proof. eexists. vm_compute. reflexivity. Qed.

(** ** What the schema demands *)

(** Fields inside of databags demand nothing. *)
Definition plain (attrs : FieldAttrs) : Prop :=
  FieldAttrs.required attrs = false /\ FieldAttrs.nonempty attrs = false /\ FieldAttrs.trim_whitespace attrs = false
  /\ FieldAttrs.characters attrs = None.

Definition is_empty_value (v : Value) : bool :=
  match v with String_ s => bool_decide (s = "") | Array l => bool_decide (l = []) | Types.Object l => bool_decide (l = []) | _ => false end.

(** A value as its attributes want it. *)
Definition conforms (attrs : FieldAttrs) (a : Annotated Value) : Prop :=
  match Annotated.value a with
  | None => FieldAttrs.required attrs = true -> Meta.has_errors (Annotated.meta a) = true
  | Some v =>
      (FieldAttrs.nonempty attrs = true -> is_empty_value v = false)
      /\ forall s, v = String_ s ->
         (FieldAttrs.trim_whitespace attrs = true -> trim s = s)
         /\ forall cs, FieldAttrs.characters attrs = Some cs -> Forall (fun c => char_is_valid cs (code_point c) = true) (chars s)
  end.

Section SchemaProofs.
Context (f64_to_string : f64 -> string) (char_debug : Z -> string).
#[local] Instance schema_instance : Processor () := schema char_debug.

Lemma plain_inner state k tys : plain (ProcessingState.attrs (ProcessingState.enter state k (ProcessingState.inner_attrs state) tys)).
Proof. unfold ProcessingState.inner_attrs. by destruct (FieldAttrs.pii _). Qed.

Lemma plain_inherit state :
  plain (ProcessingState.attrs state) ->
  plain (ProcessingState.attrs (ProcessingState.enter_nothing state (Some (FieldAttrs.inherit (ProcessingState.attrs state))))).
Proof. done. Qed.

(** A walk that leaves undemanding values alone. *)
Definition leaves (walk : walker ()) (h : nat) : Prop :=
  forall a state, plain (ProcessingState.attrs state) -> (annotated_height a <= h)%nat -> walk () a state = Ret ((), a, Ok ()).

Lemma leaves_children {K} walk h enter (items : list (K * Annotated Value)) :
  leaves walk h -> (forall k tys, plain (ProcessingState.attrs (enter k tys))) ->
  Forall (fun ka => annotated_height ka.2 <= h)%nat items -> children walk enter () items = Ret ((), items, Ok ()).
Proof.
  intros Hw Hp Hh. induction Hh as [|[k a] items Ha _ IH]; [done|]. cbn. rewrite Hw by done. cbn. by rewrite IH.
Qed.

Lemma leaves_array walk items state :
  leaves walk (deepest items) -> array_children walk () items state = Ret ((), items, Ok ()).
Proof.
  intros Hw. unfold array_children. rewrite (leaves_children walk (deepest items)); [|done|..].
  - cbn. by rewrite members_enumerate.
  - intros. apply plain_inner.
  - apply Forall_forall. intros [k a] Ha. apply deepest_elem.
    unfold enumerate in Ha. apply elem_of_lookup_imap_1 in Ha as (i & b & [= -> ->] & Hb). by eapply list_elem_of_lookup_2.
Qed.

Lemma leaves_object walk (items : list (string * Annotated Value)) state :
  leaves walk (deepest (snd <$> items)) -> object_children walk () items state = Ret ((), items, Ok ()).
Proof.
  intros Hw. unfold object_children. apply (leaves_children walk (deepest (snd <$> items))); [done|..].
  - intros. apply plain_inner.
  - apply Forall_forall. intros [k a] Ha. apply deepest_elem. by apply (list_elem_of_fmap_2 snd _ (k, a)).
Qed.

(** The answer for a value that is there: the value, its meta data and what becomes of it. *)
Definition check_value (attrs : FieldAttrs) (v : Value) (m : Meta) : Value * Meta * ProcessingResult :=
  let v := match v with String_ s => String_ (if FieldAttrs.trim_whitespace attrs then trim s else s) | v => v end in
  if FieldAttrs.nonempty attrs && is_empty_value v
  then (v, Meta.add_error m error_empty, Err ProcessingAction.DeleteValueHard)
  else
    match v, FieldAttrs.characters attrs with
    | String_ s, Some cs =>
        match invalid_character (char_is_valid cs) (chars s) with
        | Some c => (v, Meta.add_error m (error_character char_debug c), Err ProcessingAction.DeleteValueSoft)
        | None => (v, m, Ok ())
        end
    | _, _ => (v, m, Ok ())
    end.

Lemma schema_inner walk v m state :
  leaves walk (pred (height v)) ->
  process_inner walk () v m state
  = (let '(v, m, r) := check_value (ProcessingState.attrs state) v m in Ret ((), v, m, r)).
Proof.
  intros Hw. unfold check_value, process_inner. destruct v as [| | | |s|items|items]; cbn; rewrite ?andb_false_r; try done.
  - unfold schema_string, verify_value_nonempty, value_trim_whitespace, verify_value_characters.
    destruct (_ && _); [done|]. destruct (FieldAttrs.characters _); [|done]. by destruct (invalid_character _ _).
  - rewrite height_array in Hw. unfold schema_array. rewrite leaves_array by done. cbn.
    unfold verify_value_nonempty. by destruct (_ && _).
  - rewrite height_object in Hw. unfold schema_object. rewrite leaves_object by done. cbn.
    unfold verify_value_nonempty. by destruct (_ && _).
Qed.

(** What becomes of a value with given attributes. *)
Definition checked (attrs : FieldAttrs) (a : Annotated Value) : Annotated Value :=
  match a with
  | MkAnnotated None m =>
      if FieldAttrs.required attrs && negb (Meta.has_errors m)
      then MkAnnotated None (Meta.add_error m (MkError ErrorKind.MissingAttribute [])) else a
  | MkAnnotated (Some v) m => let '(v, m, r) := check_value attrs v m in (apply_action f64_to_string v m r).1
  end.

Lemma check_value_ok attrs v m v' m' r :
  check_value attrs v m = (v', m', r) -> (apply_action f64_to_string v' m' r).2 = Ok ().
Proof.
  unfold check_value. intros H.
  repeat first [done | match type of H with
    | (if ?b then _ else _) = _ => destruct b
    | match ?x with _ => _ end = _ => destruct x
    end]; by injection H as <- <- <-.
Qed.

Lemma schema_step walk a state :
  (is_Some (Annotated.value a) -> leaves walk (pred (annotated_height a))) ->
  process_annotated_with f64_to_string walk () a state = Ret ((), checked (ProcessingState.attrs state) a, Ok ()).
Proof.
  intros Hw. unfold process_annotated_with. cbn [before_process after_process schema_instance schema].
  unfold schema_before. destruct a as [[v|] m]; cbn [Annotated.value Annotated.meta andb].
  - cbn [mbind outcome_bind apply_hook apply_action]. unfold process_value_variant. cbn. rewrite schema_inner by (by apply Hw).
    change (ProcessingState.attrs (ProcessingState.enter_nothing _ _)) with (FieldAttrs.inherit (ProcessingState.attrs state)).
    change (check_value (FieldAttrs.inherit ?attrs)) with (check_value attrs).
    destruct (check_value (ProcessingState.attrs state) v m) as [ [v' m'] r] eqn:E. cbn.
    apply check_value_ok in E. destruct r as [ []|[| |x]]; done.
  - cbn [checked]. by destruct (FieldAttrs.required (ProcessingState.attrs state) && negb (Meta.has_errors m)).
Qed.

Lemma invalid_character_None valid cs :
  invalid_character valid cs = None <-> Forall (fun c => valid (code_point c) = true) cs.
Proof.
  induction cs as [|c cs IH]; cbn; [naive_solver|]. rewrite Forall_cons, <- IH. destruct (valid (code_point c)); naive_solver.
Qed.

Lemma checked_plain attrs a : plain attrs -> checked attrs a = a.
Proof.
  intros (Hr & Hn & Ht & Hc). destruct a as [[v|] m]; cbn; [|by rewrite Hr].
  unfold check_value. rewrite Hn, Ht, Hc. cbn. by destruct v.
Qed.

Lemma leaves_enough h : leaves (process_annotated f64_to_string (S h)) h.
Proof.
  induction h as [|h IH]; intros a state Hp Hh; cbn [process_annotated]; rewrite schema_step, checked_plain; try done.
  - intros [v Hv]. unfold annotated_height in Hh. rewrite Hv in Hh. pose proof (height_pos v). lia.
  - intros _ b st Hst Hb. apply IH; [done|]. lia.
Qed.

Lemma has_errors_add m err : Meta.has_errors (Meta.add_error m err) = true.
Proof.
  destruct m as [[[rs es l o]|]]; unfold Meta.add_error, Meta.has_errors; cbn; [|done].
  destruct (existsb _ _) eqn:E; cbn; by destruct es.
Qed.

Lemma has_errors_original m o : Meta.has_errors (set_original_value f64_to_string m o) = Meta.has_errors m.
Proof.
  unfold set_original_value. case_bool_decide; [|done]. by destruct m as [[[]|]].
Qed.

(** What [check_value] answers: it deletes with an error, or the value conforms. *)
Lemma check_value_cases attrs v m v' m' r :
  check_value attrs v m = (v', m', r) ->
  (exists action, r = Err action /\ Meta.has_errors m' = true) \/ (r = Ok () /\ m' = m /\ conforms attrs (MkAnnotated (Some v') m')).
Proof.
  unfold check_value. set (w := match v with String_ s => _ | v => v end).
  assert (forall s, w = String_ s -> FieldAttrs.trim_whitespace attrs = true -> trim s = s) as Ht.
  { intros s Hs Hw. unfold w in Hs. destruct v; try done. rewrite Hw in Hs. injection Hs as <-. apply trim_idempotent. }
  clearbody w. destruct (FieldAttrs.nonempty attrs && is_empty_value w) eqn:Ee.
  { intros [= <- <- <-]. left. eexists. split; [done|apply has_errors_add]. }
  assert (FieldAttrs.nonempty attrs = true -> is_empty_value w = false) as Hne.
  { intros Hn. rewrite Hn in Ee. done. }
  destruct w as [| | | |s| |]; try (intros [= <- <- <-]; right; split_and!; [done..|]; split; [done|]; by intros ? [=]).
  destruct (FieldAttrs.characters attrs) as [cs|] eqn:Ec.
  - destruct (invalid_character _ _) as [c|] eqn:Ei; intros [= <- <- <-].
    { left. eexists. split; [done|apply has_errors_add]. }
    right. split_and!; [done..|]. split; [done|]. intros ? [= <-]. split; [by apply Ht|].
    intros cs' Hcs. rewrite Ec in Hcs. injection Hcs as <-. by apply invalid_character_None.
  - intros [= <- <- <-]. right. split_and!; [done..|]. split; [done|]. intros ? [= <-]. split; [by apply Ht|congruence].
Qed.

(** Checked values conform, and a value that is deleted leaves an error. *)
Lemma checked_conforms attrs a : conforms attrs (checked attrs a).
Proof.
  destruct a as [[v|] m]; cbn.
  - destruct (check_value attrs v m) as [ [v' m'] r] eqn:E. pose proof (check_value_ok _ _ _ _ _ _ E) as Hok.
    destruct (check_value_cases _ _ _ _ _ _ E) as [(action & -> & He)|(-> & _ & Hc)]; [|done].
    destruct action; cbn in Hok |- *; [..|done]; intros _; cbn; by rewrite ?has_errors_original.
  - destruct (FieldAttrs.required attrs) eqn:Er; cbn; [|by intros ?; congruence].
    destruct (Meta.has_errors m) eqn:Eh; cbn; intros _; [done|apply has_errors_add].
Qed.

Lemma checked_settles attrs a : conforms attrs a -> checked attrs a = a.
Proof.
  destruct a as [[v|] m]; cbn.
  - intros [Hne Hs]. unfold check_value.
    assert (match v with String_ s => String_ (if FieldAttrs.trim_whitespace attrs then trim s else s) | v => v end = v) as ->.
    { destruct v; try done. destruct (FieldAttrs.trim_whitespace attrs); [|done]. f_equal. by apply Hs. }
    destruct (FieldAttrs.nonempty attrs); cbn; [rewrite Hne by done|]; destruct v as [| | | |s| |]; try done;
      destruct (FieldAttrs.characters attrs) as [cs|] eqn:Ec; try done;
      rewrite (proj2 (invalid_character_None (char_is_valid cs) (chars s))); try done; by apply Hs.
  - intros Hr. destruct (FieldAttrs.required attrs); [|done]. by rewrite Hr.
Qed.

Lemma checked_deletes attrs a :
  is_Some (Annotated.value a) -> Annotated.value (checked attrs a) = None -> Meta.has_errors (Annotated.meta (checked attrs a)) = true.
Proof.
  destruct a as [[v|] m]; cbn; [intros _|by intros []].
  destruct (check_value attrs v m) as [ [v' m'] r] eqn:E.
  destruct (check_value_cases _ _ _ _ _ _ E) as [(action & -> & He)|(-> & _ & Hc)]; [|done].
  destruct action; cbn; intros ?; by rewrite ?has_errors_original.
Qed.

(** C38: The schema of a field is enforced on every databag: the walk ends, what it leaves is trimmed,
    not empty and free of forbidden characters where the attributes of the field say
    so, a required field that is missing has an error, as has every value that was
    deleted, and a value that conforms is not touched.  Fuel beyond the nesting of
    the value is enough. *)
Theorem schema_enforced fuel a state :
  (annotated_height a < fuel)%nat ->
  exists a', process_annotated f64_to_string fuel () a state = Ret ((), a', Ok ())
    /\ conforms (ProcessingState.attrs state) a'
    /\ (conforms (ProcessingState.attrs state) a -> a' = a)
    /\ (is_Some (Annotated.value a) -> Annotated.value a' = None -> Meta.has_errors (Annotated.meta a') = true).
Proof.
  intros Hf. destruct fuel as [|f]; [lia|]. exists (checked (ProcessingState.attrs state) a). split_and!.
  - cbn [process_annotated]. apply schema_step. intros [v Hv]. unfold annotated_height in *. rewrite Hv in *.
    pose proof (height_pos v). destruct f as [|f]; [lia|]. intros b st Hst Hb. apply leaves_enough; [done|].
    unfold annotated_height in *. lia.
  - apply checked_conforms.
  - apply checked_settles.
  - apply checked_deletes.
Qed.

End SchemaProofs.

(** A field like the platform of an event: trimmed and not empty. *)
Definition text_attrs : FieldAttrs := FieldAttrs.MkFieldAttrs None false true true None None None Pii.False false.
Definition text_state : ProcessingState := ProcessingState.new_root (Some text_attrs) [ValueType.String_].

Lemma schema_enforced_witness :
  exists a', process_annotated (Processor0 := schema (fun _ => "")) (fun _ => "") 2 () (Annotated.new (String_ "  ")) text_state
    = Ret ((), a', Ok ())
  /\ Meta.has_errors (Annotated.meta a') = true.
Proof.
  destruct (schema_enforced (fun _ => "") (fun _ => "") 2 (Annotated.new (String_ "  ")) text_state)
    as (a' & Hrun & _ & _ & Hdel); [vm_compute; lia|].
  exists a'. split; [exact Hrun|]. apply Hdel; [by eexists|]. vm_compute in Hrun. by injection Hrun as <-.
Defined.

(** ** Legacy images and unknown attributes *)

Definition images_of (event : Event) : list DebugImage :=
  match Annotated.value (debug_meta event) with
  | Some d => match Annotated.value (DebugMeta.images d) with Some l => omap Annotated.value l | None => [] end
  | None => []
  end.

(** The attributes that both formats of an image have. *)
Definition native_view (debug_id_from : string -> string) (image : DebugImage) : option NativeDebugImage :=
  match image with
  | DebugImage.Apple apple => Some (native_of_apple debug_id_from apple)
  | DebugImage.Symbolic n | DebugImage.MachO n | DebugImage.Elf n | DebugImage.Pe n | DebugImage.Wasm n => Some n
  | _ => None
  end.

Lemma legacy_images debug_id_from event :
  images_of (legacy_process_event debug_id_from event) = legacy_debug_image debug_id_from <$> images_of event.
Proof.
  unfold images_of, legacy_process_event. cbn. destruct (Annotated.value (debug_meta event)) as [d|] eqn:E.
  - destruct (debug_meta event) as [? m]. cbn in E. subst. cbn. destruct (DebugMeta.images d) as [[l|] m']; cbn; [|done].
    induction l as [|[[i|] mi] l IH]; cbn; [done|f_equal; exact IH|exact IH].
  - destruct (debug_meta event) as [? m]. cbn in E. by subst.
Qed.

(** No image of the legacy format is left, every image keeps its native attributes, and a
    second run changes nothing. *)
Theorem legacy_images_converted debug_id_from event :
  let event' := legacy_process_event debug_id_from event in
  Forall (fun image => match image with DebugImage.Apple _ => False | _ => True end) (images_of event')
  /\ native_view debug_id_from <$> images_of event' = native_view debug_id_from <$> images_of event
  /\ images_of (legacy_process_event debug_id_from event') = images_of event'.
Proof.
  cbn zeta. rewrite !legacy_images. split_and!.
  - apply Forall_fmap, Forall_true. by intros [].
  - rewrite <- list_fmap_compose. apply list_fmap_ext. intros _ [] _; done.
  - rewrite <- list_fmap_compose. apply list_fmap_ext. intros _ [] _; done.
Qed.

Lemma delete_all_lookup k ks : forall m : gmap string (Annotated Value),
  foldl (fun other k => delete k other) m ks !! k = if bool_decide (k ∈ ks) then None else m !! k.
Proof.
  induction ks as [|k' ks IH]; intros m; cbn; [by rewrite bool_decide_eq_false_2 by apply not_elem_of_nil|].
  rewrite IH. destruct (decide (k' = k)) as [->|Hne].
  - rewrite lookup_delete_eq, (bool_decide_eq_true_2 (k ∈ k :: ks)) by left. by case_bool_decide.
  - rewrite lookup_delete_ne by done. do 2 case_bool_decide; set_solver.
Qed.

(** Unknown attributes of an event that are not dropped silently become errors: none of
    their values is left, whatever the walk over the other fields does. *)
Theorem unknown_attributes_removed children event event' :
  remove_process_event children event = Ret (event', Ok ()) ->
  forall k, event_other event' !! k =
    if bool_decide (k ∈ silent_attributes) then None else (fun _ => unknown_attribute) <$> (event_other event !! k).
Proof.
  unfold remove_process_event. intros ([e r] & _ & H)%outcome_bind_Ret k. destruct r as [ []|]; [|done].
  assert (event_other event'
    = create_errors (foldl (fun other k => delete k other) (event_other event) silent_attributes)) as ->
    by (by injection H as <-).
  unfold create_errors. rewrite lookup_fmap, delete_all_lookup. by case_bool_decide.
Qed.
