(* ===== verification/Breakdowns.v ===== *)
(** * relay-general: breakdowns (store/normalize/breakdowns.rs, protocol/breakdowns.rs)

    A transaction reports how much time it spends in spans of an operation: the windows of the
    spans are merged where they overlap, and the lengths of what is left are added up.

    The sort of the windows is unstable and the windows are grouped in a [HashMap]: the order of
    windows that start at the same time and the order of the operations are arguments. *)

From Stdlib Require Import Ascii String SpecFloat Sorting.Sorted.
From S2P Require Import Prelude Strings Floats Types Common Protocol.

Open Scope string_scope.
Open Scope Z_scope.
Open Scope list_scope.

Module TimeWindowSpan.

Record TimeWindowSpan := MkSpan { start_timestamp : Timestamp; end_timestamp : Timestamp }.

Definition new (start_timestamp end_timestamp : Timestamp) : TimeWindowSpan :=
  if bool_decide (end_timestamp < start_timestamp) then MkSpan end_timestamp start_timestamp
  else MkSpan start_timestamp end_timestamp.

(** [timestamp_nanos] and the subtraction are on [i64]. *)
Definition i64_wrap (n : Z) : Z := (n + 2 ^ 63) mod 2 ^ 64 - 2 ^ 63.

Definition f64_abs (x : f64) : f64 := SFabs x.

Definition get_duration (self : TimeWindowSpan) : f64 :=
  let delta := f64_of_Z (i64_wrap (i64_wrap (end_timestamp self) - i64_wrap (start_timestamp self))) in
  f64_abs (f64_div delta (f64_of_Z 1000000)).

End TimeWindowSpan.
Notation TimeWindowSpan := TimeWindowSpan.TimeWindowSpan.

Import TimeWindowSpan (start_timestamp, end_timestamp).

Section OpTime.
(** [sort_unstable_by_key(|span| span.start_timestamp)]. *)
Context (sort_by_start : list TimeWindowSpan -> list TimeWindowSpan).

(** The loop over the sorted windows. *)
Fixpoint op_time_loop (op_time_spent : f64) (previous_interval : option TimeWindowSpan)
    (intervals : list TimeWindowSpan) : f64 * option TimeWindowSpan :=
  match intervals with
  | [] => (op_time_spent, previous_interval)
  | current :: intervals =>
      match previous_interval with
      | Some last =>
          if bool_decide (end_timestamp last < start_timestamp current) then
            op_time_loop (f64_add op_time_spent (TimeWindowSpan.get_duration last)) (Some current) intervals
          else
            op_time_loop op_time_spent
              (Some (TimeWindowSpan.MkSpan (start_timestamp last) (Z.max (end_timestamp last) (end_timestamp current))))
              intervals
      | None => op_time_loop op_time_spent (Some current) intervals
      end
  end.

Definition get_op_time_spent (intervals : list TimeWindowSpan) : option f64 :=
  match intervals with
  | [] => None
  | _ =>
      let '(op_time_spent, previous_interval) := op_time_loop f64_zero None (sort_by_start intervals) in
      Some match previous_interval with
           | Some remaining => f64_add op_time_spent (TimeWindowSpan.get_duration remaining)
           | None => op_time_spent
           end
  end.

End OpTime.

(** ** Emitting *)

Inductive OperationBreakdown := Emit (name : string) | DoNotEmit (name : string).

#[global] Instance OperationBreakdown_eq_dec : EqDecision OperationBreakdown.
Proof. solve_decision. Defined.
#[global] Instance OperationBreakdown_countable : Countable OperationBreakdown.
Proof.
  refine (inj_countable' (fun o => match o with Emit s => (true, s) | DoNotEmit s => (false, s) end)
            (fun '(b, s) => if b : bool then Emit s else DoNotEmit s) _). by intros [].
Defined.

Notation Intervals := (gmap OperationBreakdown (list TimeWindowSpan)) (only parsing).

Record SpanOperationsConfig := MkSpanOperationsConfig { matches : list string }.
Inductive BreakdownConfig := SpanOperations (config : SpanOperationsConfig) | Unsupported.

(** The operation and the window of a span that has all of them. *)
Definition span_window (span : Annotated Span) : option (string * TimeWindowSpan) :=
  span ← Annotated.value span;
  operation_name ← Annotated.value (Span.op span);
  start_timestamp ← Annotated.value (Span.start_timestamp span);
  end_timestamp ← Annotated.value (Span.timestamp span);
  Some (operation_name, TimeWindowSpan.new start_timestamp end_timestamp).

Definition operation_of (matches : list string) (operation_name : string) : OperationBreakdown :=
  match List.find (fun maybe => starts_with maybe operation_name) matches with
  | None => DoNotEmit operation_name
  | Some name => Emit name
  end.

(** [intervals.entry(operation_name).or_insert_with(Vec::new).push(cover)]. *)
Definition push_interval (intervals : Intervals) (name : OperationBreakdown) (cover : TimeWindowSpan) : Intervals :=
  <[name := default [] (intervals !! name) ++ [cover]]> intervals.

Fixpoint collect_intervals (matches : list string) (spans : list (Annotated Span)) (intervals : Intervals) : Intervals :=
  match spans with
  | [] => intervals
  | span :: spans =>
      collect_intervals matches spans
        match span_window span with
        | None => intervals
        | Some (operation_name, cover) => push_interval intervals (operation_of matches operation_name) cover
        end
  end.

Section Emit.
Context (sort_by_start : list TimeWindowSpan -> list TimeWindowSpan).
(** The order in which a [HashMap] yields its entries. *)
Context (hash_entries : Intervals -> list (OperationBreakdown * list TimeWindowSpan)).

(** One turn of the loop over the operations. *)
Definition emit_one (acc : Object Measurement * f64) (entry : OperationBreakdown * list TimeWindowSpan) :
    Object Measurement * f64 :=
  let '(breakdown, total_time_spent) := acc in
  match get_op_time_spent sort_by_start (snd entry) with
  | None => acc
  | Some op_time_spent =>
      let total_time_spent := f64_add total_time_spent op_time_spent in
      match fst entry with
      | DoNotEmit _ => (breakdown, total_time_spent)
      | Emit operation_name =>
          (<["ops." +:+ operation_name := Annotated.new (MkMeasurement (Annotated.new op_time_spent))]> breakdown,
           total_time_spent)
      end
  end.

Definition emit_span_operations (self : SpanOperationsConfig) (event : Event) : option (Object Measurement) :=
  match matches self with
  | [] => None
  | _ =>
      match Annotated.value (spans event) with
      | None => None
      | Some spans =>
          let intervals := collect_intervals (matches self) spans ∅ in
          if bool_decide (size intervals = 0%nat) then None
          else
            let '(breakdown, total_time_spent) := foldl emit_one (∅, f64_zero) (hash_entries intervals) in
            Some (<["total.time" := Annotated.new (MkMeasurement (Annotated.new total_time_spent))]> breakdown)
      end
  end.

Definition emit_breakdowns (self : BreakdownConfig) (event : Event) : option (Object Measurement) :=
  match self with
  | SpanOperations config => emit_span_operations config event
  | Unsupported => None
  end.

Definition is_valid_breakdown_name (name : string) : bool :=
  match name with
  | EmptyString => false
  | String c _ =>
      is_ascii_alphabetic c
      && str_forallb (fun c => is_ascii_alphanumeric c || bool_decide (c ∈ ["-"%char; "_"%char; "."%char])) name
  end.

(** [value_mut().get_or_insert_with(default)] on an annotated map. *)
Definition inner_or_default {T} (a : Annotated (gmap string T)) : gmap string T := default ∅ (Annotated.value a).

(** One turn of the loop over the configured breakdowns; [extend] replaces. *)
Definition normalize_breakdown (event : Event) (entry : string * BreakdownConfig) : Event :=
  let '(breakdown_name, breakdown_config) := entry in
  if negb (is_valid_breakdown_name breakdown_name) then event
  else
    match emit_breakdowns breakdown_config event with
    | None => event
    | Some breakdown =>
        if bool_decide (size breakdown = 0%nat) then event
        else
          let outer := inner_or_default (breakdowns event) in
          let slot := default (Annotated.new ∅) (outer !! breakdown_name) in
          set_breakdowns event
            (Annotated.set_value (breakdowns event)
               (Some (<[breakdown_name := Annotated.set_value slot (Some (breakdown ∪ inner_or_default slot))]> outer)))
    end.

Definition normalize_breakdowns (event : Event) (breakdowns_config : list (string * BreakdownConfig)) : Event :=
  foldl normalize_breakdown event breakdowns_config.

End Emit.

(** ** The union of the windows *)

(** A window that does not end before it starts, as [TimeWindowSpan::new] makes them. *)
Definition window_ok (w : TimeWindowSpan) : Prop := start_timestamp w <= end_timestamp w.

(** A point of time, in half nanoseconds so that the gap between two neighbours shows. *)
Definition covers (ws : list TimeWindowSpan) (t : Z) : Prop :=
  exists w, w ∈ ws /\ 2 * start_timestamp w <= t <= 2 * end_timestamp w.

(** Windows in order, with a gap between any two. *)
Definition separated (ws : list TimeWindowSpan) : Prop :=
  StronglySorted (fun a b => end_timestamp a < start_timestamp b) ws /\ Forall window_ok ws.

Definition total_duration (ws : list TimeWindowSpan) : f64 :=
  foldl f64_add f64_zero (TimeWindowSpan.get_duration <$> ws).

Lemma new_ok a b : window_ok (TimeWindowSpan.new a b).
Proof. unfold window_ok, TimeWindowSpan.new. case_bool_decide; simpl; lia. Qed.

Lemma covers_cons w ws t : covers (w :: ws) t <-> 2 * start_timestamp w <= t <= 2 * end_timestamp w \/ covers ws t.
Proof.
  unfold covers. split.
  - intros (v & [ -> |H]%elem_of_cons & Ht); [by left|right; eauto].
  - intros [Ht|(v & H & Ht)]; [exists w; split; [apply list_elem_of_here|done]|exists v; split; [by apply list_elem_of_further|done] ].
Qed.

(** The windows the loop adds up, after a window [prev] that is still open. *)
Fixpoint merged (prev : TimeWindowSpan) (l : list TimeWindowSpan) : list TimeWindowSpan :=
  match l with
  | [] => [prev]
  | current :: l =>
      if bool_decide (end_timestamp prev < start_timestamp current) then prev :: merged current l
      else merged (TimeWindowSpan.MkSpan (start_timestamp prev) (Z.max (end_timestamp prev) (end_timestamp current))) l
  end.

Lemma op_time_loop_merged l : forall acc prev,
  exists acc' last, op_time_loop acc (Some prev) l = (acc', Some last)
    /\ f64_add acc' (TimeWindowSpan.get_duration last) = foldl f64_add acc (TimeWindowSpan.get_duration <$> merged prev l).
Proof.
  induction l as [|c l IH]; intros acc prev; simpl; [by eexists _, _|].
  case_bool_decide; [|apply IH]. simpl. apply IH.
Qed.

(** Windows that start no earlier than [prev] and in order are merged into separated ones that
    cover the same time. *)
Lemma merged_ok l : forall prev,
  window_ok prev -> Forall window_ok l ->
  StronglySorted (fun a b => start_timestamp a <= start_timestamp b) (prev :: l) ->
  separated (merged prev l)
  /\ Forall (fun w => start_timestamp prev <= start_timestamp w) (merged prev l)
  /\ forall t, covers (merged prev l) t <-> covers (prev :: l) t.
Proof.
  induction l as [|c l IH]; intros prev Hp Hl Hs; simpl.
  { split_and!; [split; repeat constructor; done|by repeat constructor|done]. }
  apply Forall_cons in Hl as [Hc Hl]. apply StronglySorted_inv in Hs as [Hs Hpl].
  apply Forall_cons in Hpl as [Hpc Hpl].
  case_bool_decide as Hgap.
  - destruct (IH c Hc Hl Hs) as ([Hsep Hok] & Hstart & Hcov). split_and!.
    + split; constructor; try done. eapply Forall_impl; [exact Hstart|]. intros w Hw. simpl in *. lia.
    + constructor; [lia|]. eapply Forall_impl; [exact Hstart|]. simpl. intros w Hw. lia.
    + intros t. rewrite !(covers_cons prev), Hcov. done.
  - apply StronglySorted_inv in Hs as [Hs Hcl].
    destruct (IH (TimeWindowSpan.MkSpan (start_timestamp prev) (Z.max (end_timestamp prev) (end_timestamp c))))
      as (Hsep & Hstart & Hcov); [unfold window_ok in *; simpl; lia|done| |].
    { constructor; [done|]. simpl. done. }
    split_and!; [done|done|]. intros t. rewrite Hcov, !covers_cons. simpl.
    unfold window_ok in *. split; [intros [H|H]; [|by right; right]|intros [H|[H|H] ]; [left; lia|left; lia|by right] ].
    destruct (decide (t <= 2 * end_timestamp prev)); [left; lia|right; left; lia].
Qed.

Lemma separated_cons w ws : separated (w :: ws) ->
  window_ok w /\ separated ws /\ forall v, v ∈ ws -> end_timestamp w < start_timestamp v.
Proof.
  intros [Hs Hok]. apply StronglySorted_inv in Hs as [Hs Hw]. apply Forall_cons in Hok as [Hok Hoks].
  rewrite Forall_forall in Hw. split_and!; [done|by split|done].
Qed.

Lemma covers_first w ws t : separated (w :: ws) -> covers (w :: ws) t -> 2 * start_timestamp w <= t.
Proof.
  intros (Hw & _ & Hs)%separated_cons [H|(v & Hv & H)]%covers_cons; [lia|]. specialize (Hs v Hv). unfold window_ok in Hw. lia.
Qed.

Lemma covers_gap w ws : separated (w :: ws) -> ~ covers (w :: ws) (2 * end_timestamp w + 1).
Proof. intros (_ & _ & Hs)%separated_cons [H|(v & Hv & H)]%covers_cons; [lia|]. specialize (Hs v Hv). lia. Qed.

Lemma covers_rest w ws t : separated (w :: ws) -> covers ws t <-> covers (w :: ws) t /\ 2 * end_timestamp w < t.
Proof.
  intros (_ & _ & Hs)%separated_cons. rewrite covers_cons. split.
  - intros (v & Hv & H). split; [right; by exists v|]. specialize (Hs v Hv). lia.
  - intros [ [H|H] Hlt]; [lia|done].
Qed.

Lemma covers_start w ws : separated (w :: ws) -> covers (w :: ws) (2 * start_timestamp w).
Proof. intros (Hw & _ & _)%separated_cons. apply covers_cons. left. unfold window_ok in Hw. lia. Qed.

(** Separated windows are determined by what they cover. *)
Lemma separated_unique ws : forall ws', separated ws -> separated ws' -> (forall t, covers ws t <-> covers ws' t) -> ws = ws'.
Proof.
  assert (Hnil : forall t, ~ covers [] t) by (by intros t (v & Hv%elem_of_nil & _)).
  induction ws as [|a ws IH]; intros [|b ws'] Hs Hs' Hc; [done| | |].
  - by destruct (Hnil (2 * start_timestamp b)); apply Hc, covers_start.
  - by destruct (Hnil (2 * start_timestamp a)); apply Hc, covers_start.
  - pose proof (separated_cons _ _ Hs) as (Ha & Hsa & _). pose proof (separated_cons _ _ Hs') as (Hb & Hsb & _).
    unfold window_ok in Ha, Hb.
    assert (Hstart : start_timestamp a = start_timestamp b).
    { pose proof (covers_first a ws _ Hs (proj2 (Hc _) (covers_start b ws' Hs'))).
      pose proof (covers_first b ws' _ Hs' (proj1 (Hc _) (covers_start a ws Hs))). lia. }
    assert (Hend : end_timestamp a = end_timestamp b).
    { destruct (Z.lt_trichotomy (end_timestamp a) (end_timestamp b)) as [H|[H|H] ]; [exfalso|done|exfalso].
      - apply (covers_gap a ws Hs), Hc, covers_cons. left. lia.
      - apply (covers_gap b ws' Hs'), Hc, covers_cons. left. lia. }
    f_equal; [destruct a, b; simpl in *; congruence|]. apply IH; [done|done|].
    intros t. rewrite (covers_rest a ws t Hs), (covers_rest b ws' t Hs'), Hc, Hend. done.
Qed.

Section Proofs.
Context (sort_by_start : list TimeWindowSpan -> list TimeWindowSpan).
Hypothesis sort_perm : forall l, sort_by_start l ≡ₚ l.
Hypothesis sort_sorted : forall l, StronglySorted (fun a b => start_timestamp a <= start_timestamp b) (sort_by_start l).

(** The time spent in windows is the duration of separated windows that cover the same time. *)
Lemma op_time_spent_union l :
  Forall window_ok l -> l <> [] ->
  exists ws, get_op_time_spent sort_by_start l = Some (total_duration ws)
    /\ separated ws /\ forall t, covers ws t <-> covers l t.
Proof.
  intros Hok Hne. unfold get_op_time_spent. pose proof (sort_sorted l) as Hs. pose proof (sort_perm l) as Hp.
  destruct (sort_by_start l) as [|w ws]; [by apply Permutation_nil_l in Hp; subst|].
  destruct l as [|x l]; [done|]. simpl.
  destruct (op_time_loop_merged ws f64_zero w) as (acc & last & -> & Hacc).
  assert (Hoks : Forall window_ok (w :: ws)) by (by rewrite Hp). apply Forall_cons in Hoks as [Hw Hws].
  destruct (merged_ok ws w Hw Hws Hs) as (Hsep & _ & Hcov).
  exists (merged w ws). split_and!; [by rewrite Hacc|done|].
  intros t. rewrite Hcov. unfold covers. setoid_rewrite Hp. done.
Qed.

End Proofs.

(** C36: the time spent in an operation is the length of the union of its windows.  For windows
    that do not end before they start there is one way to write the time they cover as windows
    with gaps between them, and the durations of these, added up in order, are the result; so it
    depends neither on the order of the spans nor on how the unstable sort orders windows that
    start together, and overlapping or repeated windows count once. *)
Theorem op_time_spent_equals_union sort sort' l l' :
  (forall l, sort l ≡ₚ l) -> (forall l, StronglySorted (fun a b => start_timestamp a <= start_timestamp b) (sort l)) ->
  (forall l, sort' l ≡ₚ l) -> (forall l, StronglySorted (fun a b => start_timestamp a <= start_timestamp b) (sort' l)) ->
  Forall window_ok l -> Forall window_ok l' -> l <> [] -> l' <> [] ->
  (forall t, covers l t <-> covers l' t) ->
  exists ws, separated ws /\ (forall t, covers ws t <-> covers l t)
    /\ (forall ws', separated ws' -> (forall t, covers ws' t <-> covers l t) -> ws' = ws)
    /\ get_op_time_spent sort l = Some (total_duration ws)
    /\ get_op_time_spent sort' l' = Some (total_duration ws).
Proof.
  intros Hp Hs Hp' Hs' Hl Hl' Hne Hne' Hcov.
  destruct (op_time_spent_union sort Hp Hs l Hl Hne) as (ws & Hr & Hsep & Hc).
  destruct (op_time_spent_union sort' Hp' Hs' l' Hl' Hne') as (ws' & Hr' & Hsep' & Hc').
  assert (ws' = ws) as -> by (apply separated_unique; [done..|]; intros t; by rewrite Hc, Hc', Hcov).
  exists ws. split_and!; [done|done| |done|done].
  intros ws' Hsw Hcw. apply separated_unique; [done..|]. intros t. by rewrite Hcw, Hc.
Qed.

(** ** What is emitted *)

(** The windows of the spans of an operation, in the order of the spans. *)
Definition windows_of (matches : list string) (spans : list (Annotated Span)) (name : OperationBreakdown) :
    list TimeWindowSpan :=
  omap (fun span => '(op, w) ← span_window span; if bool_decide (operation_of matches op = name) then Some w else None) spans.

Lemma collect_lookup matches spans : forall m name,
  default [] (collect_intervals matches spans m !! name) = default [] (m !! name) ++ windows_of matches spans name
  /\ (m !! name = None -> windows_of matches spans name = [] -> collect_intervals matches spans m !! name = None).
Proof.
  unfold windows_of. induction spans as [|span spans IH]; intros m name; simpl; [by rewrite app_nil_r|].
  destruct (span_window span) as [ [op w] |] eqn:Ew; simpl; [|by apply IH].
  destruct (IH (push_interval m (operation_of matches op) w) name) as [H1 H2]. unfold push_interval in *.
  case_bool_decide as Ho; simpl.
  - subst name. rewrite H1, lookup_insert_eq. simpl. by rewrite <- app_assoc.
  - rewrite lookup_insert_ne in H1, H2 by done. done.
Qed.

Section EmitProofs.
Context (sort_by_start : list TimeWindowSpan -> list TimeWindowSpan).
Context (hash_entries : Intervals -> list (OperationBreakdown * list TimeWindowSpan)).
Hypothesis hash_perm : forall m, hash_entries m ≡ₚ map_to_list m.

Definition measured (x : f64) : Annotated Measurement := Annotated.new (MkMeasurement (Annotated.new x)).

(** The loop over the operations writes one measurement per emitted operation with windows. *)
Lemma emit_fold entries : forall acc, NoDup entries.*1 ->
  let breakdown := fst (foldl (emit_one sort_by_start) acc entries) in
  (forall name ws x, (Emit name, ws) ∈ entries -> get_op_time_spent sort_by_start ws = Some x ->
     breakdown !! ("ops." +:+ name) = Some (measured x))
  /\ (forall key, (forall name ws, (Emit name, ws) ∈ entries -> key <> "ops." +:+ name) -> breakdown !! key = fst acc !! key).
Proof.
  induction entries as [|[o ws] entries IH]; intros acc Hn; simpl; [split; [by intros n ws x H%elem_of_nil|done]|].
  apply NoDup_cons in Hn as [Ho Hn]. destruct (IH (emit_one sort_by_start acc (o, ws)) Hn) as [H1 H2]. split.
  - intros name ws' x [ [= <- <-] | H]%elem_of_cons Hx; [|by eapply H1].
    rewrite H2.
    + unfold emit_one. destruct acc as [b t]. simpl. rewrite Hx. simpl. by rewrite lookup_insert_eq.
    + intros name' ws'' H Heq. apply Ho, list_elem_of_fmap. exists (Emit name', ws''). split; [|done].
      simpl in *. by injection Heq as ->.
  - intros key Hk. rewrite H2 by (intros name ws' H; apply (Hk name ws'); by apply list_elem_of_further).
    unfold emit_one. destruct acc as [b t]. simpl. destruct (get_op_time_spent sort_by_start ws); [|done].
    destruct o as [name|name]; [|done]. simpl. rewrite lookup_insert_ne; [done|].
    apply not_eq_sym, (Hk name ws), list_elem_of_here.
Qed.

Lemma get_op_time_spent_Some l : l <> [] -> exists x, get_op_time_spent sort_by_start l = Some x.
Proof. intros Hl. unfold get_op_time_spent. destruct l; [done|]. destruct (op_time_loop _ _ _) as [a [p|]]; eauto. Qed.

Lemma collect_nonempty matches spans name ws : collect_intervals matches spans ∅ !! name = Some ws -> ws = windows_of matches spans name /\ ws <> [].
Proof.
  intros H. destruct (collect_lookup matches spans ∅ name) as [H1 H2]. rewrite H, lookup_empty in H1. simpl in H1. split; [done|].
  intros Hw. rewrite H2 in H; [done|apply lookup_empty|congruence].
Qed.

Lemma emitted_configured matches spans name : windows_of matches spans (Emit name) <> [] -> name ∈ matches.
Proof.
  unfold windows_of. destruct (omap _ spans) as [|w l] eqn:Eo; [done|]. intros _.
  assert (Hw : w ∈ w :: l) by apply list_elem_of_here. rewrite <- Eo in Hw.
  apply list_elem_of_omap in Hw as (span & _ & Hspan). destruct (span_window span) as [ [op w'] |]; [|done]. simpl in Hspan.
  case_bool_decide as Ho; [|done]. unfold operation_of in Ho. destruct (List.find _ _) as [n|] eqn:Ef; [|done].
  injection Ho as ->. apply List.find_some in Ef as [Ef _]. by apply list_elem_of_In.
Qed.

(** the breakdown of the spans by operation.  When a breakdown is emitted, an operation of the
    configuration is measured exactly when a span with an operation, a start and an end begins
    with it and with no earlier one of the configuration, and the measurement is the time spent in
    the windows of these spans; besides the total there is nothing else. *)
Theorem breakdown_measures config event breakdown spans_ :
  Annotated.value (spans event) = Some spans_ ->
  emit_breakdowns sort_by_start hash_entries (SpanOperations config) event = Some breakdown ->
  (forall name, let ws := windows_of (matches config) spans_ (Emit name) in
     if bool_decide (ws = []) then breakdown !! ("ops." +:+ name) = None
     else exists x, get_op_time_spent sort_by_start ws = Some x /\ breakdown !! ("ops." +:+ name) = Some (measured x))
  /\ is_Some (breakdown !! "total.time")
  /\ forall key, is_Some (breakdown !! key) -> key = "total.time" \/ exists name, name ∈ matches config /\ key = "ops." +:+ name.
Proof.
  intros Hs. simpl. unfold emit_span_operations. rewrite Hs. destruct (matches config) as [|m0 ms] eqn:Em; [done|].
  rewrite <- Em. clear Em m0 ms. set (iv := collect_intervals (matches config) spans_ ∅).
  case_bool_decide; [done|]. pose proof (emit_fold (hash_entries iv) (∅, f64_zero)) as Hf.
  destruct (foldl (emit_one sort_by_start) (∅, f64_zero) (hash_entries iv)) as [b t]. intros [= <-]. simpl in Hf.
  destruct Hf as [H1 H2]; [rewrite hash_perm; apply NoDup_fst_map_to_list|].
  assert (Hin : forall name ws, (name, ws) ∈ hash_entries iv <-> iv !! name = Some ws).
  { intros name ws. rewrite hash_perm. apply elem_of_map_to_list. }
  split_and!.
  - intros name. rewrite lookup_insert_ne by done. destruct (iv !! Emit name) as [ws|] eqn:E.
    + destruct (collect_nonempty _ _ _ _ E) as [<- Hne]. rewrite bool_decide_false by done.
      destruct (get_op_time_spent_Some ws Hne) as [x Hx]. exists x. split; [done|]. apply (H1 name ws); [by apply Hin|done].
    + destruct (collect_lookup (matches config) spans_ ∅ (Emit name)) as [Hc _]. fold iv in Hc. rewrite E, lookup_empty in Hc.
      simpl in Hc. rewrite bool_decide_true by done. rewrite H2; [apply lookup_empty|].
      intros name' ws H' Heq. injection Heq as <-. apply Hin in H'. congruence.
  - rewrite lookup_insert_eq. done.
  - intros key [v Hv]. apply lookup_insert_Some in Hv as [ [ <- _] | [_ Hv] ]; [by left|right].
    destruct (existsb (fun e => match fst e with Emit name => bool_decide (key = "ops." +:+ name) | _ => false end)
                (hash_entries iv)) eqn:He.
    + apply existsb_exists in He as ([ [name|name] ws] & H'%list_elem_of_In & Hk); [|done].
      apply bool_decide_eq_true in Hk. exists name. split; [|done]. apply Hin in H'.
      destruct (collect_nonempty _ _ _ _ H') as [-> Hne]. by eapply emitted_configured.
    + rewrite H2 in Hv; [by rewrite lookup_empty in Hv|]. intros name ws H' ->. apply not_true_iff_false in He. apply He.
      apply existsb_exists. exists (Emit name, ws). split; [by apply list_elem_of_In|]. simpl. by rewrite bool_decide_true.
Qed.

End EmitProofs.

(** ** A run *)

Module BreakdownRun.

Definition start_le (a b : TimeWindowSpan) : Prop := start_timestamp a <= start_timestamp b.
#[local] Instance start_le_dec : RelDecision start_le.
Proof. intros a b. unfold start_le. apply _. Defined.
#[local] Instance start_le_total : Total start_le.
Proof. intros a b. unfold start_le. lia. Qed.
#[local] Instance start_le_trans : Transitive start_le.
Proof. intros a b c. unfold start_le. lia. Qed.

Definition sort (l : list TimeWindowSpan) : list TimeWindowSpan := merge_sort start_le l.

Lemma sort_permutes l : sort l ≡ₚ l.
Proof. apply merge_sort_Permutation. Qed.
Lemma sort_sorts l : StronglySorted (fun a b => start_timestamp a <= start_timestamp b) (sort l).
Proof. apply (StronglySorted_merge_sort start_le). Qed.

Definition ms (n : Z) : Timestamp := n * 1000000.
Definition window (a b : Z) : TimeWindowSpan := TimeWindowSpan.new (ms a) (ms b).

(** Two spans of ten milliseconds that overlap by five, and one that is given backwards. *)
Example overlapping_windows :
  get_op_time_spent sort [window 20 30; window 0 10; window 15 5] = Some (f64_of_Z 25).
Proof. vm_compute. reflexivity. Qed.

Lemma op_time_spent_equals_union_witness :
  get_op_time_spent sort [window 20 30; window 0 10; window 15 5] = get_op_time_spent sort [window 0 15; window 20 30].
Proof.
  destruct (op_time_spent_equals_union sort sort [window 20 30; window 0 10; window 15 5] [window 0 15; window 20 30])
    as (ws & _ & _ & _ & H1 & H2); [exact sort_permutes|exact sort_sorts|exact sort_permutes|exact sort_sorts
    |repeat constructor; apply new_ok|repeat constructor; apply new_ok|discriminate|discriminate| |by rewrite H1, H2].
  intros t. assert (Hnil : ~ covers [] t) by (intros (v & Hv%elem_of_nil & _); exact Hv). rewrite !covers_cons.
  unfold window, TimeWindowSpan.new, ms. simpl. split; intros H; repeat (destruct H as [H|H]; [lia|]); done.
Defined.

Definition db_span : Annotated Span :=
  Annotated.new (Span.MkSpan (Annotated.new (ms 10)) (Annotated.new 0) (Annotated.new "db.sql") Annotated.empty Annotated.empty ∅).
Definition db_event : Event := set_spans empty_event (Annotated.new [db_span]).
Definition db_config : SpanOperationsConfig := MkSpanOperationsConfig ["http"; "db"].
Definition entries (m : gmap OperationBreakdown (list TimeWindowSpan)) := map_to_list m.

Definition db_breakdown : Object Measurement :=
  default ∅ (emit_breakdowns sort entries (SpanOperations db_config) db_event).

Lemma db_breakdown_emitted : emit_breakdowns sort entries (SpanOperations db_config) db_event = Some db_breakdown.
Proof.
  assert (H : match emit_breakdowns sort entries (SpanOperations db_config) db_event with Some _ => true | None => false end = true)
    by (vm_compute; reflexivity).
  unfold db_breakdown. by destruct (emit_breakdowns sort entries (SpanOperations db_config) db_event).
Qed.

Lemma breakdown_measures_witness : is_Some (db_breakdown !! "total.time").
Proof.
  refine (proj1 (proj2 (breakdown_measures sort entries (fun m => reflexivity _) db_config db_event db_breakdown [db_span]
                          eq_refl db_breakdown_emitted))).
Defined.

End BreakdownRun.
