(* ===== verification/NormalizeParts.v ===== *)
(** * relay-general: normalization of interfaces (store/normalize/logentry.rs,
      stacktrace.rs, contexts.rs, request.rs, user_agent.rs)

    One section per source file; [NormEnv] is what they use of other packages.  The
    processor that calls them is in Normalize.v. *)

From Stdlib Require Import Ascii String.
From S2P Require Import Prelude Strings Floats Types Common Protocol Size Conversions RequestValues Filters.

Open Scope string_scope.
Open Scope Z_scope.
Open Scope list_scope.

(** A URL that was parsed: its parts, and its text without query and fragment. *)
Module Url.

Record Url := MkUrl {
  query_pairs : list (string * string);
  fragment : option string;
  path : string;
  base : string;
}.

End Url.
Notation Url := Url.Url.

(** [uaparser]: what it recognizes in a user agent. *)
Module Agent.

Record Agent := MkAgent {
  family : string;
  major : option string;
  minor : option string;
  patch : option string;
}.
Record Device := MkDevice { device_family : string; model : option string; brand : option string }.

End Agent.
Notation Agent := Agent.Agent.

Class NormEnv := {
  norm_formats :: RequestFormats;
  (** url *)
  parse_url : string -> option Url;
  (** serde_json, which reads no null, and serde_urlencoded *)
  json_from_str : string -> option Value;
  urlencoded_from : string -> option (list (string * Annotated Value));
  (** dynfmt *)
  python_format : string -> Value -> option string;
  curly_format : string -> Value -> option string;
  (** regex: the named groups of the patterns in contexts.rs, and the two groups of
      [TYPE_VALUE_RE]: a word, and what follows the colon *)
  os_windows_regex : string -> option string;
  os_macos_regex : string -> option (string * option string);
  os_uname_regex : string -> option (string * string);
  runtime_dotnet_regex : string -> option (string * string);
  type_value_regex : string -> option (string * string);
  (** uaparser *)
  parse_agent : string -> Agent;
  parse_os : string -> Agent;
  parse_device : string -> Agent.Device;
}.

(** [Option<T>::is_empty] on strings. *)
Definition opt_empty (s : option string) : bool := match s with None => true | Some s => bool_decide (s = "") end.

(** [Annotated::is_empty]: no meta data and no value, or an empty one. *)
Definition skipped {T} (empty : T -> bool) (self : Annotated T) : bool :=
  Meta.is_empty (Annotated.meta self) && match Annotated.value self with Some v => empty v | None => true end.

Definition str_empty (s : string) : bool := bool_decide (s = "").
Definition list_empty {A} (l : list A) : bool := match l with [] => true | _ => false end.

Definition value_is_empty (self : Value) : bool :=
  match self with
  | String_ v => str_empty v
  | Array v => list_empty v
  | Types.Object v => list_empty v
  | _ => false
  end.

(** [Annotated::from] of an option. *)
Definition annotated_from {T} (o : option T) : Annotated T := MkAnnotated o Meta.empty.

Section Parts.
Context {CE : ConvEnv} {NE : NormEnv}.

(** ** logentry.rs *)

Definition logentry_is_empty (self : LogEntry) : bool :=
  skipped str_empty (message self) && skipped str_empty (formatted self)
  && skipped value_is_empty (params self) && bool_decide (size (logentry_other self) = 0%nat).

Definition format_message (format : string) (params : Value) : option string :=
  if contains_char "%" format then python_format format params
  else if contains_char "{" format then curly_format format params
  else None.

Definition set_formatted (self : LogEntry) (message formatted : Annotated string) : LogEntry :=
  MkLogEntry message formatted (params self) (logentry_other self).

Definition normalize_logentry (logentry : LogEntry) (meta : Meta) : LogEntry * Meta * result ProcessingAction () :=
  if logentry_is_empty logentry then (logentry, meta, Ok ())
  else
    match Annotated.value (formatted logentry), Annotated.value (message logentry) with
    | None, None =>
        (logentry, Meta.add_error meta (error_invalid "no message present"), Err ProcessingAction.DeleteValueSoft)
    | _, _ =>
        let logentry :=
          match Annotated.value (params logentry), Annotated.value (formatted logentry),
                Annotated.value (message logentry) with
          | Some params, None, Some message_ =>
              match format_message message_ params with
              | Some text => set_formatted logentry (message logentry) (Annotated.new text)
              | None => logentry
              end
          | _, _, _ => logentry
          end in
        let logentry :=
          if bool_decide (Annotated.value (formatted logentry) = None)
             || bool_decide (Annotated.value (message logentry) = Annotated.value (formatted logentry))
          then set_formatted logentry Annotated.empty (message logentry) else logentry in
        (logentry, meta, Ok ())
    end.

(** ** stacktrace.rs *)

Definition is_url (filename : string) : bool :=
  starts_with "file:" filename || starts_with "http:" filename || starts_with "https:" filename
  || starts_with "applewebdata:" filename.

Definition set_paths (frame : Frame) (filename abs_path : Annotated string) : Frame :=
  MkFrame (function frame) (symbol frame) filename abs_path (pre_context frame) (context_line frame)
    (post_context frame) (frame_other frame).

Definition process_non_raw_frame (frame : Frame) : Frame :=
  let frame :=
    if opt_empty (Annotated.value (abs_path frame)) then set_paths frame Annotated.empty (filename frame) else frame in
  if opt_empty (Annotated.value (filename frame)) then
    match Annotated.value (abs_path frame) with
    | Some path =>
        let filename :=
          if is_url path then
            match parse_url path with
            | Some url =>
                if negb (str_empty (Url.path url)) && negb (bool_decide (Url.path url = "/"))
                then Url.path url else path
            | None => path
            end
          else path in
        set_paths frame (Annotated.new filename) (abs_path frame)
    | None => frame
    end
  else frame.

(** [process_stacktrace] *)
Definition process_frames (stacktrace : Stacktrace) : Stacktrace :=
  MkStacktrace
    (Annotated.map_value (frames stacktrace) (fmap (fun frame => Annotated.map_value frame process_non_raw_frame)))
    (stacktrace_other stacktrace).

(** ** contexts.rs *)

Definition dotnet_builds : list (string * string) :=
  [("378389", "4.5"); ("378675", "4.5.1"); ("378758", "4.5.1"); ("379893", "4.5.2"); ("393295", "4.6");
   ("393297", "4.6"); ("394254", "4.6.1"); ("394271", "4.6.1"); ("394802", "4.6.2"); ("394806", "4.6.2");
   ("460798", "4.7"); ("460805", "4.7"); ("461308", "4.7.1"); ("461310", "4.7.1"); ("461808", "4.7.2");
   ("461814", "4.7.2"); ("528040", "4.8"); ("528049", "4.8"); ("528209", "4.8"); ("528372", "4.8")].

Definition describe_runtime (runtime : RuntimeContext) : RuntimeContext :=
  if opt_empty (Annotated.value (RuntimeContext.name runtime))
     && opt_empty (Annotated.value (RuntimeContext.version runtime)) then
    match Annotated.value (RuntimeContext.raw_description runtime) ≫= runtime_dotnet_regex with
    | Some (name, version) =>
        RuntimeContext.MkRuntimeContext (Annotated.new name) (Annotated.new version) (RuntimeContext.build runtime)
          (RuntimeContext.raw_description runtime) (RuntimeContext.other runtime)
    | None => runtime
    end
  else runtime.

Definition normalize_runtime_context (runtime : RuntimeContext) : RuntimeContext :=
  let runtime := describe_runtime runtime in
  match Annotated.value (RuntimeContext.name runtime), Annotated.value (RuntimeContext.build runtime) with
  | Some name, Some build =>
      match (if starts_with ".NET Framework" name then match_str build dotnet_builds else None) with
      | Some version =>
          RuntimeContext.MkRuntimeContext (RuntimeContext.name runtime) (Annotated.new version)
            (RuntimeContext.build runtime) (RuntimeContext.raw_description runtime) (RuntimeContext.other runtime)
      | None => runtime
      end
  | _, _ => runtime
  end.

Definition normalize_os_context (os : OsContext) : OsContext :=
  match Annotated.value (OsContext.name os), Annotated.value (OsContext.version os),
        Annotated.value (OsContext.raw_description os) with
  | None, None, Some raw_description =>
      let set name version build kernel_version :=
        OsContext.MkOsContext name version build kernel_version (OsContext.raw_description os) (OsContext.other os) in
      match os_windows_regex raw_description, os_macos_regex raw_description, os_uname_regex raw_description with
      | Some version, _, _ =>
          set (Annotated.new "Windows") (Annotated.new version) (OsContext.build os) (OsContext.kernel_version os)
      | None, Some (version, build), _ =>
          set (Annotated.new "macOS") (Annotated.new version) (annotated_from build) (OsContext.kernel_version os)
      | None, None, Some (name, version) =>
          set (Annotated.new name) (OsContext.version os) (OsContext.build os) (Annotated.new version)
      | None, None, None => os
      end
  | _, _, _ => os
  end.

Definition normalize_context (context : Context) : Context :=
  match context with
  | Context.Runtime runtime => Context.Runtime (normalize_runtime_context runtime)
  | Context.Os os => Context.Os (normalize_os_context os)
  | context => context
  end.

(** ** request.rs *)

(** The three bytes of U+2026. *)
Definition ELLIPSIS : string := String (ascii_of_nat 226) (String (ascii_of_nat 128) (String (ascii_of_nat 166) "")).

Definition replace_ellipsis (url : string) : string :=
  if ends_with ELLIPSIS url then substring 0 (String.length url - String.length ELLIPSIS) url +:+ "..." else url.

(** [query_string.set_value] unless there is one already or none is found. *)
Definition backfill_query (current : Annotated (PairList string string)) (query : PairList string string)
  : Annotated (PairList string string) :=
  match Annotated.value current with
  | Some _ => current
  | None => if list_empty query then current else Annotated.set_value current (Some query)
  end.

Definition set_url_parts (request : Request) (url : Annotated string) (query_string : Annotated (PairList string string))
  (fragment : Annotated string) : Request :=
  MkRequest url (method request) (data request) query_string fragment (cookies request) (headers request)
    (env request) (inferred_content_type request) (request_other request).

(** The heuristics for URLs that do not parse: what is behind the first [#], and what
    is behind the first [?] in front of it. *)
Definition split_fragment (url : string) : string * option string :=
  match str_find "#" url with
  | Some i => (substring 0 i url, Some (str_from (S i) url))
  | None => (url, None)
  end.
Definition split_query (url : string) : string * option string :=
  match str_find "?" url with
  | Some i => (substring 0 i url, Some (str_from (S i) url))
  | None => (url, None)
  end.

Definition normalize_url (request : Request) : Request :=
  match Annotated.value (url request) with
  | None => request
  | Some url_string =>
      let url_string := replace_ellipsis url_string in
      match parse_url url_string with
      | Some parsed =>
          set_url_parts request (Annotated.set_value (url request) (Some (Url.base parsed)))
            (backfill_query (query_string request) (pairs_to_query (Url.query_pairs parsed)))
            (match Annotated.value (fragment request) with
             | Some _ => fragment request
             | None => Annotated.set_value (fragment request) (Url.fragment parsed)
             end)
      | None =>
          let '(url_string, frag) := split_fragment url_string in
          let '(url_string, query) := split_query url_string in
          set_url_parts request (Annotated.set_value (url request) (Some url_string))
            (match query with
             | Some q => if str_empty q then query_string request else backfill_query (query_string request) (query_parse q)
             | None => query_string request
             end)
            (match frag, Annotated.value (fragment request) with
             | Some f, None => if str_empty f then fragment request else Annotated.set_value (fragment request) (Some f)
             | _, _ => fragment request
             end)
      end
  end.

(** [make_ascii_uppercase] *)
Fixpoint to_ascii_uppercase (s : string) : string :=
  match s with EmptyString => EmptyString | String a s => String (ascii_upper a) (to_ascii_uppercase s) end.

(** [METHOD_RE]: three to 32 capital letters, hyphens and underscores. *)
Definition method_re (s : string) : bool :=
  bool_decide (3 <= String.length s <= 32)%nat
  && str_forallb (fun a => is_ascii_uppercase a || bool_decide (a = "-"%char) || bool_decide (a = "_"%char)) s.

Definition normalize_method (method : string) (meta : Meta) : string * Meta * result ProcessingAction () :=
  let method := to_ascii_uppercase method in
  if negb (Meta.has_errors meta) && negb (method_re method)
  then (method, Meta.add_error meta (error_new ErrorKind.InvalidData), Err ProcessingAction.DeleteValueSoft)
  else (method, meta, Ok ()).

(** [urlencoded_from_str]: text that looks like something else is left alone. *)
Definition urlencoded_value (raw : string) : option Value :=
  if negb (str_forallb is_ascii raw) then None
  else if starts_with "<?xml" raw || starts_with "{" raw || starts_with "[" raw then None
  else
    object ← urlencoded_from raw;
    let is_valid :=
      bool_decide (1 < List.length object)%nat
      || match object with
         | (_, first) :: _ =>
             match Annotated.value first ≫= value_as_str with
             | Some s => negb (bool_decide (s = "") || bool_decide (s = "="))
             | None => false
             end
         | [] => false
         end in
    if is_valid then Some (Types.Object object) else None.

Definition parse_raw_data (request : Request) : option (string * Value) :=
  raw ← Annotated.value (data request) ≫= value_as_str;
  match json_from_str raw with
  | Some value => Some ("application/json", value)
  | None => (fun value => ("application/x-www-form-urlencoded", value)) <$> urlencoded_value raw
  end.

Definition set_data (request : Request) (data : Annotated Value) (inferred_content_type : Annotated string) : Request :=
  MkRequest (url request) (method request) data (query_string request) (fragment request) (cookies request)
    (headers request) (env request) inferred_content_type (request_other request).

Definition normalize_data (request : Request) : Request :=
  match parse_raw_data request with
  | Some (content_type, parsed_data) =>
      set_data request (Annotated.set_value (data request) (Some parsed_data)) (Annotated.new content_type)
  | None =>
      set_data request (data request)
        (annotated_from (
           headers ← Annotated.value (headers request);
           value ← get_header headers "Content-Type";
           Some (fst (splitn2 ";" value))))
  end.

(** [Cookies::parse(..).ok()] *)
Definition parse_cookies (s : string) : option (PairList string string) :=
  match Cookies.parse s with Ok cookies => Some cookies | Err _ => None end.

Definition set_cookies (request : Request) (cookies : Annotated (PairList string string))
  (headers : Annotated (PairList string string)) : Request :=
  MkRequest (url request) (method request) (data request) (query_string request) (fragment request) cookies headers
    (env request) (inferred_content_type request) (request_other request).

Definition normalize_cookies (request : Request) : Request :=
  match Annotated.value (headers request) with
  | None => request
  | Some hs =>
      let without := Annotated.set_value (headers request) (Some (remove hs "Cookie").2) in
      match Annotated.value (cookies request), get_header hs "Cookie" with
      | Some _, _ => set_cookies request (cookies request) without
      | None, None => request
      | None, Some cookie_header =>
          match parse_cookies cookie_header with
          | Some new_cookies => set_cookies request (Annotated.new new_cookies) without
          | None => request
          end
      end
  end.

Definition set_method (request : Request) (method : Annotated string) : Request :=
  MkRequest (url request) method (data request) (query_string request) (fragment request) (cookies request)
    (headers request) (env request) (inferred_content_type request) (request_other request).

Definition normalize_request (request : Request) : result ProcessingAction Request :=
  method ← annotated_apply original_string (method request) normalize_method;
  Ok (normalize_cookies (normalize_data (normalize_url (set_method request method)))).

(** ** user_agent.rs *)

Definition is_known (family : string) : bool := negb (bool_decide (family = "Other")).

Definition get_version (major minor patch : option string) : option string :=
  major ← major;
  Some match minor with
       | Some minor =>
           match patch with
           | Some patch => major +:+ "." +:+ minor +:+ "." +:+ patch
           | None => major +:+ "." +:+ minor
           end
       | None => major
       end.

(** An insertion into a map unless the key is taken. *)
Definition add_context (known : bool) (key : string) (context : Context) (contexts : gmap string (Annotated Context))
  : gmap string (Annotated Context) :=
  if known && bool_decide (contexts !! key = None) then <[key := Annotated.new context]> contexts else contexts.

Definition agent_version (agent : Agent) : Annotated string :=
  annotated_from (get_version (Agent.major agent) (Agent.minor agent) (Agent.patch agent)).

Definition normalize_user_agent `{FilterEnv} (event : Event) : Event :=
  match get_user_agent event with
  | None => event
  | Some user_agent =>
      let device := parse_device user_agent in
      let os := parse_os user_agent in
      let ua := parse_agent user_agent in
      if negb (is_known (Agent.family ua)) && negb (is_known (Agent.device_family device))
         && negb (is_known (Agent.family os)) then event
      else
        let '(map, annotated) := Annotated.get_or_insert_with (contexts event) ∅ in
        let map := add_context (is_known (Agent.family ua)) "browser"
          (Context.Browser (BrowserContext.MkBrowserContext (Annotated.new (Agent.family ua)) (agent_version ua) ∅)) map in
        let map := add_context (is_known (Agent.device_family device)) "device"
          (Context.Device (DeviceContext.MkDeviceContext (Annotated.new (Agent.device_family device))
             (annotated_from (Agent.model device)) (annotated_from (Agent.brand device)) Annotated.empty ∅)) map in
        let os_context_key :=
          if bool_decide (Annotated.value (platform event) = Some "javascript") then "os" else "client_os" in
        let map := add_context (is_known (Agent.family os)) os_context_key
          (Context.Os (OsContext.MkOsContext (Annotated.new (Agent.family os)) (agent_version os)
             Annotated.empty Annotated.empty Annotated.empty ∅)) map in
        set_contexts event (Annotated.set_value annotated (Some map))
  end.

End Parts.

(** ** Text *)

(** [str::find] of one character, as a split at its first occurrence. *)
Lemma str_find_split c s :
  match str_find (String c "") s with
  | Some i => splitn2 c s = (substring 0 i s, Some (str_from (S i) s))
  | None => splitn2 c s = (s, None)
  end.
Proof.
  unfold str_find. induction s as [|b s IH]; [done|]. cbn -[substring str_from].
  destruct (ascii_dec c b) as [->|Hne].
  - replace (String.prefix "" s) with true by (by destruct s). rewrite bool_decide_eq_true_2 by done.
    cbn. unfold str_from. simpl. rewrite Nat.sub_0_r. by rewrite substring_all.
  - rewrite bool_decide_eq_false_2 by congruence.
    destruct (String.index 0 (String c "") s) as [i|]; rewrite IH; done.
Qed.

Definition rejoin (c : ascii) (h : string) (t : option string) : string :=
  match t with Some t => h +:+ String c t | None => h end.

Lemma splitn2_rejoin c s :
  contains_char c (splitn2 c s).1 = false /\ rejoin c (splitn2 c s).1 (splitn2 c s).2 = s.
Proof.
  induction s as [|a s [IH1 IH2]]; [done|]. cbn. case_bool_decide as Ha; [by subst|].
  destruct (splitn2 c s) as [h t]. simpl in *. rewrite contains_char_cons, IH1.
  split; [by rewrite bool_decide_eq_false_2|].
  destruct t as [t|]; simpl in *; by rewrite IH2.
Qed.

Lemma splitn2_keeps c d s : contains_char d s = false -> contains_char d (splitn2 c s).1 = false.
Proof.
  intros Hd. destruct (splitn2_rejoin c s) as [_ Hs]. rewrite <- Hs in Hd. unfold rejoin in Hd.
  destruct (splitn2 c s) as [h [t|]]; simpl in *; [|done]. rewrite contains_char_app in Hd.
  by apply orb_false_iff in Hd as [Hh _].
Qed.

Lemma split_fragment_eq s : split_fragment s = splitn2 "#" s.
Proof. unfold split_fragment. pose proof (str_find_split "#" s) as H. by destruct (str_find _ _). Qed.
Lemma split_query_eq s : split_query s = splitn2 "?" s.
Proof. unfold split_query. pose proof (str_find_split "?" s) as H. by destruct (str_find _ _). Qed.

Section PartsCorrect.
Context {CE : ConvEnv} {NE : NormEnv}.

(** ** Requests *)

(** What a URL that does not parse is split into. *)
Lemma normalize_url_fallback request u :
  Annotated.value (url request) = Some u -> parse_url (replace_ellipsis u) = None ->
  exists base query frag,
    Annotated.value (url (normalize_url request)) = Some base
    /\ contains_char "#" base = false /\ contains_char "?" base = false
    /\ rejoin "#" (rejoin "?" base query) frag = replace_ellipsis u
    /\ fragment (normalize_url request)
       = match frag, Annotated.value (fragment request) with
         | Some f, None => if str_empty f then fragment request else Annotated.set_value (fragment request) (Some f)
         | _, _ => fragment request
         end.
Proof.
  intros Hu Hp. unfold normalize_url. rewrite Hu, Hp, split_fragment_eq.
  destruct (splitn2_rejoin "#" (replace_ellipsis u)) as [Hh Hj].
  pose proof (splitn2_keeps "?" "#" (splitn2 "#" (replace_ellipsis u)).1 Hh) as Hb.
  destruct (splitn2 "#" (replace_ellipsis u)) as [h frag]. simpl in *. rewrite split_query_eq.
  destruct (splitn2_rejoin "?" h) as [Hq Hjq]. destruct (splitn2 "?" h) as [base query]. simpl in *.
  exists base, query, frag. by rewrite Hjq.
Qed.

Lemma normalize_method_re m meta m' meta' :
  normalize_method m meta = (m', meta', Ok ()) -> Meta.has_errors meta = false -> method_re m' = true.
Proof.
  unfold normalize_method. intros H He. rewrite He in H. simpl in H.
  destruct (method_re _) eqn:E; simpl in H; by simplify_eq.
Qed.

Lemma set_method_other request m :
  url (set_method request m) = url request /\ headers (set_method request m) = headers request
  /\ cookies (set_method request m) = cookies request.
Proof. done. Qed.

Lemma normalize_url_headers request :
  headers (normalize_url request) = headers request /\ cookies (normalize_url request) = cookies request.
Proof.
  unfold normalize_url. destruct (Annotated.value (url request)); [|done].
  destruct (parse_url _); [done|]. destruct (split_fragment _). by destruct (split_query _).
Qed.

Lemma normalize_data_headers request :
  headers (normalize_data request) = headers request /\ cookies (normalize_data request) = cookies request
  /\ url (normalize_data request) = url request /\ method (normalize_data request) = method request.
Proof. unfold normalize_data. by destruct (parse_raw_data request) as [ [] |]. Qed.

Lemma normalize_method_total a :
  exists m, annotated_apply original_string a normalize_method = Ok m
    /\ forall v, Annotated.value m = Some v -> Meta.has_errors (Annotated.meta a) = false -> method_re v = true.
Proof.
  destruct a as [[v|] meta]; [|by eexists]. cbn. unfold normalize_method.
  destruct (negb _ && _) eqn:E; (eexists; split; [reflexivity|]); [done|]. intros v' [= <-] He.
  simpl in He. rewrite He in E. simpl in E. by apply negb_false_iff in E.
Qed.

(** ** Cookies *)

Lemma normalize_cookies_spec request hs :
  Annotated.value (headers request) = Some hs -> no_nulls hs ->
  Annotated.value (cookies request) = None ->
  match get_header hs "Cookie" ≫= parse_cookies with
  | Some parsed =>
      Annotated.value (cookies (normalize_cookies request)) = Some parsed
      /\ exists hs', Annotated.value (headers (normalize_cookies request)) = Some hs'
           /\ forall k, k <> "Cookie" -> get_header hs' k = get_header hs k
  | None => normalize_cookies request = request
  end.
Proof.
  intros Hh Hn Hc. unfold normalize_cookies. rewrite Hh, Hc.
  destruct (get_header hs "Cookie") as [c|]; simpl; [|done].
  destruct (parse_cookies c) as [parsed|]; [|done]. simpl. split; [done|]. eexists. split; [done|].
  intros k Hk. destruct (pairlist_remove_split hs "Cookie" Hn) as [(l1 & kk & v & m & l2 & -> & Hkk & _ & ->) | [_ ->]];
    [|done]. simpl. symmetry. apply get_header_drop. congruence.
Qed.

(** A request is always normalized.  Its method is upper case and matches the pattern, or is
    dropped; a URL that does not parse loses its fragment and its query, which
    together with it make up the text it had; and cookies sent as a header move to
    the cookies while all other headers keep their values. *)
Theorem request_normalized request u hs :
  Annotated.value (url request) = Some u -> parse_url (replace_ellipsis u) = None ->
  Annotated.value (headers request) = Some hs -> no_nulls hs -> Annotated.value (cookies request) = None ->
  Meta.has_errors (Annotated.meta (method request)) = false ->
  exists r base query frag, normalize_request request = Ok r
    /\ from_option (fun m => method_re m = true) True (Annotated.value (method r))
    /\ Annotated.value (url r) = Some base /\ contains_char "#" base = false /\ contains_char "?" base = false
    /\ rejoin "#" (rejoin "?" base query) frag = replace_ellipsis u
    /\ Annotated.value (cookies r) = get_header hs "Cookie" ≫= parse_cookies
    /\ exists hs', Annotated.value (headers r) = Some hs'
         /\ forall k, k <> "Cookie" -> get_header hs' k = get_header hs k.
Proof.
  intros Hu Hp Hh Hn Hc Hm. unfold normalize_request.
  destruct (normalize_method_total (method request)) as (m & -> & Hre). cbn [mbind result_bind].
  set (r1 := set_method request m). set (r2 := normalize_url r1). set (r3 := normalize_data r2).
  destruct (normalize_url_fallback r1 u Hu Hp) as (base & query & frag & Hbase & H1 & H2 & Hj & _). fold r2 in Hbase.
  destruct (normalize_data_headers r2) as (Hh3 & Hc3 & Hu3 & Hm3). fold r3 in Hh3, Hc3, Hu3, Hm3.
  destruct (normalize_url_headers r1) as [Hh2 Hc2]. fold r2 in Hh2, Hc2.
  assert (Annotated.value (headers r3) = Some hs) as Hhs by (by rewrite Hh3, Hh2).
  assert (Annotated.value (cookies r3) = None) as Hcs by (by rewrite Hc3, Hc2).
  pose proof (normalize_cookies_spec r3 hs Hhs Hn Hcs) as Hspec.
  assert (method (normalize_cookies r3) = m /\ Annotated.value (url (normalize_cookies r3)) = Some base) as [Hmeth Hurl].
  { assert (method r3 = m) by (rewrite Hm3; unfold r2, normalize_url; repeat case_match; done).
    unfold normalize_cookies. repeat case_match; simpl; by rewrite ?Hu3. }
  exists (normalize_cookies r3), base, query, frag. rewrite Hmeth, Hurl.
  split_and!; try done.
  - destruct (Annotated.value m) eqn:Ev; [|done]. simpl. by apply Hre.
  - destruct (get_header hs "Cookie" ≫= parse_cookies) as [parsed|]; [by destruct Hspec|by rewrite Hspec].
  - destruct (get_header hs "Cookie" ≫= parse_cookies) as [parsed|]; [by destruct Hspec|].
    rewrite Hspec. by exists hs.
Qed.

End PartsCorrect.

Section InterfacesCorrect.
Context {CE : ConvEnv} {NE : NormEnv}.

(** ** Log entries *)

(** An entry with a text that is not its message is left alone. *)
Lemma settled logentry meta :
  Annotated.value (message logentry) <> Annotated.value (formatted logentry) ->
  is_Some (Annotated.value (formatted logentry)) -> normalize_logentry logentry meta = (logentry, meta, Ok ()).
Proof.
  intros Hne [f Hf]. unfold normalize_logentry. destruct (logentry_is_empty logentry); [done|].
  rewrite Hf in *. destruct (Annotated.value (params logentry)); rewrite Hf; simpl;
    by rewrite bool_decide_eq_false_2.
Qed.

Ltac settle :=
  split_and!; simpl in *; try done; try congruence; apply settled; simpl; [congruence|by eexists].

(** A log entry that is not empty is rejected with an error when it has neither a message nor a
    formatted text; otherwise it is kept, always has a formatted text (the one it
    had, the message with its parameters filled in, or the message), never repeats
    that text as message, and a second pass changes nothing. *)
Theorem logentry_normalized logentry meta l m r :
  logentry_is_empty logentry = false -> normalize_logentry logentry meta = (l, m, r) ->
  (Annotated.value (formatted logentry) = None /\ Annotated.value (message logentry) = None
   /\ r = Err ProcessingAction.DeleteValueSoft /\ Meta.errors m <> [])
  \/ (r = Ok () /\ m = meta /\ Annotated.value (message l) <> Annotated.value (formatted l)
      /\ Annotated.value (formatted l)
         = match Annotated.value (formatted logentry), Annotated.value (message logentry) with
           | Some text, _ => Some text
           | None, Some text =>
               match Annotated.value (params logentry) ≫= format_message text with
               | Some done => Some done
               | None => Some text
               end
           | None, None => None
           end
      /\ normalize_logentry l m = (l, m, Ok ())).
Proof.
  intros He. unfold normalize_logentry at 1. rewrite He.
  destruct logentry as [ [msg mm] [f fm] [p pm] o]; simpl. destruct f as [f|]; [|destruct msg as [msg|]].
  - intros Heq. right. assert ((match p with Some _ => MkLogEntry (MkAnnotated msg mm) (MkAnnotated (Some f) fm) (MkAnnotated p pm) o
      | None => MkLogEntry (MkAnnotated msg mm) (MkAnnotated (Some f) fm) (MkAnnotated p pm) o end)
      = MkLogEntry (MkAnnotated msg mm) (MkAnnotated (Some f) fm) (MkAnnotated p pm) o) as Hp by (by destruct p).
    rewrite Hp in Heq. simpl in Heq. case_bool_decide as Hf; injection Heq as <- <- <-.
    + simpl in Hf. destruct msg as [msg|]; [|done]. settle.
    + simpl in Hf. settle.
  - destruct p as [p|]; simpl; [destruct (format_message msg p) as [text|] eqn:Ef|]; simpl.
    + case_bool_decide as Hf; intros [= <- <- <-]; right; settle.
    + intros [= <- <- <-]. right. settle.
    + intros [= <- <- <-]. right. settle.
  - intros [= <- <- <-]. left. split_and!; [done..|apply errors_add_error].
Qed.

(** ** Frames *)

(** A frame with a file name or a path has both afterwards, keeps a path that it had,
    and is not changed by a second pass. *)
Theorem frame_paths_filled frame :
  opt_empty (Annotated.value (abs_path frame)) && opt_empty (Annotated.value (filename frame)) = false ->
  let f := process_non_raw_frame frame in
  opt_empty (Annotated.value (abs_path f)) = false /\ opt_empty (Annotated.value (filename f)) = false
  /\ (opt_empty (Annotated.value (abs_path frame)) = false -> abs_path f = abs_path frame)
  /\ process_non_raw_frame f = f.
Proof.
  destruct frame as [fn sy file path pre cl post oth]. cbn [filename abs_path]. intros He.
  assert (forall file' path', opt_empty (Annotated.value path') = false -> opt_empty (Annotated.value file') = false ->
    process_non_raw_frame (MkFrame fn sy file' path' pre cl post oth) = MkFrame fn sy file' path' pre cl post oth) as Hfix.
  { intros file' path' H1 H2. unfold process_non_raw_frame. simpl. rewrite H1. simpl. by rewrite H2. }
  assert (forall p, str_empty p = false ->
    str_empty (if is_url p then match parse_url p with
               | Some url => if negb (str_empty (Url.path url)) && negb (bool_decide (Url.path url = "/")) then Url.path url else p
               | None => p end else p) = false) as Hname.
  { intros p Hp. destruct (is_url p); [|done]. destruct (parse_url p) as [u|]; [|done].
    destruct (str_empty (Url.path u)) eqn:E; simpl; [done|]. by destruct (bool_decide _). }
  set (name p := if is_url p then match parse_url p with
               | Some url => if negb (str_empty (Url.path url)) && negb (bool_decide (Url.path url = "/")) then Url.path url else p
               | None => p end else p) in Hname.
  destruct (opt_empty (Annotated.value path)) eqn:Hp.
  - destruct file as [[n|] nm]; [|done].
    assert (process_non_raw_frame (MkFrame fn sy (MkAnnotated (Some n) nm) path pre cl post oth)
      = MkFrame fn sy (Annotated.new (name n)) (MkAnnotated (Some n) nm) pre cl post oth) as ->.
    { unfold process_non_raw_frame. simpl. by rewrite Hp. }
    cbn zeta. split_and!; [exact He|exact (Hname n He)|done|]. apply Hfix; [exact He|exact (Hname n He)].
  - destruct (opt_empty (Annotated.value file)) eqn:Hf;
      [|rewrite (Hfix file path Hp Hf); cbn zeta; by rewrite (Hfix file path Hp Hf)].
    destruct path as [[n|] nm]; [|done].
    assert (process_non_raw_frame (MkFrame fn sy file (MkAnnotated (Some n) nm) pre cl post oth)
      = MkFrame fn sy (Annotated.new (name n)) (MkAnnotated (Some n) nm) pre cl post oth) as ->.
    { unfold process_non_raw_frame. simpl in *. rewrite Hp. simpl. by rewrite Hf. }
    cbn zeta. split_and!; [exact Hp|exact (Hname n Hp)|done|]. apply Hfix; [exact Hp|exact (Hname n Hp)].
Qed.

End InterfacesCorrect.

(** ** An instance for the witnesses *)

Definition toy_conv : ConvEnv := {|
  f64_text := fun _ => "0"; net_ip := fun s => bool_decide (s = "127.0.0.1"); json_text := fun _ => "{}";
  naive_datetime := fun _ => None; rfc3339_datetime := fun _ => Err "invalid";
|}.
Definition toy_norm : NormEnv := {|
  norm_formats := toy_formats; parse_url := fun _ => None;
  json_from_str := fun _ => None; urlencoded_from := fun _ => None;
  python_format := fun f _ => Some f; curly_format := fun f _ => Some f;
  os_windows_regex := fun _ => None; os_macos_regex := fun _ => None; os_uname_regex := fun _ => None;
  runtime_dotnet_regex := fun _ => None; type_value_regex := fun _ => None;
  parse_agent := fun _ => Agent.MkAgent "Other" None None None; parse_os := fun _ => Agent.MkAgent "Other" None None None;
  parse_device := fun _ => Agent.MkDevice "Other" None None;
|}.

Definition sample_headers : PairList string string :=
  [Annotated.new (Annotated.new "Accept", Annotated.new "text"); Annotated.new (Annotated.new "Cookie", Annotated.new "a=b; c=d")].
Definition sample_request (headers : PairList string string) : Request :=
  MkRequest (Annotated.new "/path?q=1#frag") (Annotated.new "get") Annotated.empty Annotated.empty Annotated.empty
    Annotated.empty (Annotated.new headers) Annotated.empty Annotated.empty ∅.

Lemma request_normalized_witness :
  exists r, normalize_request (CE := toy_conv) (NE := toy_norm) (sample_request sample_headers) = Ok r
    /\ Annotated.value (method r) = Some "GET" /\ Annotated.value (url r) = Some "/path"
    /\ Annotated.value (cookies r) = Some (pairs_to_query [("a", "b"); ("c", "d")]).
Proof.
  destruct (request_normalized (CE := toy_conv) (NE := toy_norm) (sample_request sample_headers) "/path?q=1#frag" sample_headers)
    as (r & base & query & frag & Hr & _ & Hu & _ & _ & _ & Hc & _); [reflexivity..| |reflexivity|reflexivity|].
  { repeat constructor; by eexists. }
  exists r. split; [exact Hr|]. split_and!.
  - vm_compute in Hr. injection Hr as <-. reflexivity.
  - vm_compute in Hr. injection Hr as <-. reflexivity.
  - exact Hc.
Defined.

(** With a null header in front another header is dropped and the cookies stay. *)
Example null_header_keeps_cookies :
  exists r, normalize_request (CE := toy_conv) (NE := toy_norm)
      (sample_request (Annotated.empty :: sample_headers)) = Ok r
    /\ Annotated.value (headers r)
       = Some [Annotated.empty; Annotated.new (Annotated.new "Cookie", Annotated.new "a=b; c=d")].
Proof. eexists. split; [reflexivity|]. reflexivity. Qed.

Lemma logentry_normalized_witness :
  let entry := MkLogEntry (Annotated.new "hello %s") Annotated.empty (Annotated.new (Array [])) ∅ in
  (Annotated.value (formatted entry) = None /\ Annotated.value (message entry) = None
   /\ Ok () = Err ProcessingAction.DeleteValueSoft /\ Meta.errors Meta.empty <> [])
  \/ (Ok () = (Ok () : result ProcessingAction ()) /\ Meta.empty = Meta.empty
      /\ Annotated.value (T := string) Annotated.empty <> Some "hello %s"
      /\ Some "hello %s" = Some "hello %s"
      /\ normalize_logentry (NE := toy_norm) (MkLogEntry Annotated.empty (Annotated.new "hello %s") (Annotated.new (Array [])) ∅) Meta.empty
         = (MkLogEntry Annotated.empty (Annotated.new "hello %s") (Annotated.new (Array [])) ∅, Meta.empty, Ok ())).
Proof.
  exact (logentry_normalized (NE := toy_norm) (MkLogEntry (Annotated.new "hello %s") Annotated.empty (Annotated.new (Array [])) ∅)
           Meta.empty (MkLogEntry Annotated.empty (Annotated.new "hello %s") (Annotated.new (Array [])) ∅) Meta.empty (Ok ())
           eq_refl eq_refl).
Defined.

Lemma frame_paths_filled_witness :
  let f := process_non_raw_frame (NE := toy_norm)
    (MkFrame Annotated.empty Annotated.empty (Annotated.new "foo.js") Annotated.empty Annotated.empty Annotated.empty
       Annotated.empty ∅) in
  opt_empty (Annotated.value (abs_path f)) = false /\ opt_empty (Annotated.value (filename f)) = false
  /\ process_non_raw_frame (NE := toy_norm) f = f.
Proof.
  destruct (frame_paths_filled (NE := toy_norm)
    (MkFrame Annotated.empty Annotated.empty (Annotated.new "foo.js") Annotated.empty Annotated.empty Annotated.empty
       Annotated.empty ∅) eq_refl) as (H1 & H2 & _ & H3).
  split_and!; assumption.
Defined.
