(* ===== verification/Normalize.v ===== *)
(** * relay-general: event normalization (store/normalize.rs, protocol/constants.rs)

    [NormalizeProcessor] makes an event complete: it backfills attributes that
    storing requires, validates tags and names, corrects implausible times, moves
    data to where they belong, and visits the interfaces with the functions of
    NormalizeParts.v and Mechanism.v. *)

From Stdlib Require Import Ascii String.
From S2P Require Import Prelude Strings Floats Types Attrs Common Protocol Size Conversions Mechanism Filters Transactions ClockDrift Breakdowns NormalizeParts.

Open Scope string_scope.
Open Scope Z_scope.
Open Scope list_scope.

(** What the processor reads besides the packages of NormalizeParts: the release
    parser, the GeoIP database, the hasher of the standard library, the clock and a
    fresh id, the date format of clock drift errors, and the large structures as
    meta data keep them. *)
Class NormalizeEnv := {
  validate_environment : string -> bool;
  validate_release : string -> bool;
  geoip_lookup : option (string -> option Geo);
  default_hash : option string -> Z;
  utc_now : DateTime;
  new_event_id : EventId;
  to_rfc3339 : DateTime -> string;
  original_exception : Exception -> option Value;
  original_logentry : LogEntry -> option Value;
  original_debug_image : DebugImage -> option Value;
}.

Definition VALID_PLATFORMS : list string :=
  ["as3"; "c"; "cfml"; "cocoa"; "csharp"; "elixir"; "go"; "groovy"; "haskell"; "java"; "javascript"; "native";
   "node"; "objc"; "other"; "perl"; "php"; "python"; "ruby"].
Definition is_valid_platform (platform : string) : bool := bool_decide (platform ∈ VALID_PLATFORMS).

(** [validate_bounded_integer_field] *)
Definition validate_bounded_integer_field (value : Z) : result ProcessingAction () :=
  if bool_decide (value < 2147483647) then Ok () else Err ProcessingAction.DeleteValueHard.

(** [Duration::seconds], which panics beyond its range. *)
Definition duration_seconds (secs : Z) : outcome SignedDuration :=
  if bool_decide (Z.abs secs <= i64_max / 1000) then Ret (secs * nanos_per_sec) else Panic.

Section Normalize.
Context {CE : ConvEnv} {NE : NormEnv} {FE : FilterEnv} {EE : NormalizeEnv}.

(** ** Interfaces *)

Definition get_lines (lines : Annotated (list (Annotated string))) : Annotated (list (Annotated string)) :=
  Annotated.map_value lines (fmap (fun line => (Annotated.get_or_insert_with line "").2)).

(** [if name.as_str() == Some("?") { name.set_value(None) }] *)
Definition drop_unknown (name : Annotated string) : Annotated string :=
  if bool_decide (Annotated.value name = Some "?") then Annotated.set_value name None else name.

Definition process_frame (frame : Frame) : Frame :=
  let pre := get_lines (pre_context frame) in
  let post := get_lines (post_context frame) in
  let line :=
    if bool_decide (Annotated.value (context_line frame) = None)
       && (negb (skipped list_empty pre) || negb (skipped list_empty post))
    then Annotated.set_value (context_line frame) (Some "") else context_line frame in
  MkFrame (drop_unknown (function frame)) (drop_unknown (symbol frame)) (filename frame) (abs_path frame) pre line post
    (frame_other frame).

(** [RawStacktrace]: its frames. *)
Definition process_raw_stacktrace (stacktrace : Stacktrace) : Stacktrace :=
  MkStacktrace (Annotated.map_value (frames stacktrace) (fmap (fun frame => Annotated.map_value frame process_frame)))
    (stacktrace_other stacktrace).

(** [Stacktrace]: its own function, then those of the stacktrace it wraps. *)
Definition process_stacktrace (stacktrace : Stacktrace) : Stacktrace :=
  process_raw_stacktrace (process_frames stacktrace).

Definition process_thread (thread : Thread) : Thread :=
  Thread.MkThread (Annotated.map_value (Thread.stacktrace thread) process_stacktrace)
    (Annotated.map_value (Thread.raw_stacktrace thread) process_raw_stacktrace) (Thread.other thread).

Definition set_exception (exception : Exception) (ty value : Annotated string) (stacktrace raw : Annotated Stacktrace)
  : Exception :=
  MkException ty value stacktrace raw (mechanism exception) (exc_other exception).

(** The type of an exception that only has a value may be its prefix. *)
Definition split_type (ty value : Annotated string) : Annotated string * Annotated string :=
  if opt_empty (Annotated.value ty) then
    match Annotated.value value ≫= type_value_regex with
    | Some (new_type, new_value) =>
        (Annotated.set_value ty (Some new_type), Annotated.set_value value (Some (trim new_value)))
    | None => (ty, value)
    end
  else (ty, value).

Definition process_exception (exception : Exception) (meta : Meta) : Exception * Meta * result ProcessingAction () :=
  let '(ty, value) := split_type (exc_ty exception) (exc_value exception) in
  let exception := set_exception exception ty value
    (Annotated.map_value (stacktrace exception) process_stacktrace)
    (Annotated.map_value (raw_stacktrace exception) process_raw_stacktrace) in
  if opt_empty (Annotated.value ty) && opt_empty (Annotated.value value)
  then (exception,
        Meta.add_error meta (MkError ErrorKind.MissingAttribute [("attribute", String_ "type or value")]),
        Err ProcessingAction.DeleteValueSoft)
  else (exception, meta, Ok ()).

Definition process_breadcrumb (breadcrumb : Breadcrumb) : Breadcrumb :=
  Breadcrumb.MkBreadcrumb (Breadcrumb.timestamp breadcrumb)
    (if opt_empty (Annotated.value (Breadcrumb.ty breadcrumb))
     then Annotated.set_value (Breadcrumb.ty breadcrumb) (Some "default") else Breadcrumb.ty breadcrumb)
    (Breadcrumb.category breadcrumb)
    (Annotated.get_or_insert_with (Breadcrumb.level breadcrumb) Level.Info).2
    (Breadcrumb.message breadcrumb) (Breadcrumb.data breadcrumb) (Breadcrumb.event_id breadcrumb)
    (Breadcrumb.other breadcrumb).

(** Unknown attributes of a user are data; [extend] replaces. *)
Definition process_user (user : User) : User :=
  let data :=
    if bool_decide (size (user_other user) = 0%nat) then user_data user
    else Annotated.set_value (user_data user)
           (Some (user_other user ∪ default ∅ (Annotated.value (user_data user)))) in
  let geo :=
    match Annotated.value (geo user) with
    | Some _ => geo user
    | None =>
        match lookup ← geoip_lookup; ip ← Annotated.value (ip_address user); lookup ip with
        | Some found => Annotated.set_value (geo user) (Some found)
        | None => geo user
        end
    end in
  MkUser (user_id user) (email user) (ip_address user) (username user) (user_name user) geo (segment user) data ∅.

Definition process_debug_image (image : DebugImage) (meta : Meta) : DebugImage * Meta * result ProcessingAction () :=
  match image with
  | DebugImage.Other _ =>
      (image, Meta.add_error meta (error_invalid "unsupported debug image type"), Err ProcessingAction.DeleteValueSoft)
  | image => (image, meta, Ok ())
  end.

(** [process_context], then the function of the variant. *)
Definition process_context (context : Context) : Context :=
  match normalize_context context with
  | Context.Trace t =>
      Context.Trace
        (TraceContext.MkTraceContext (TraceContext.trace_id t) (TraceContext.span_id t) (TraceContext.op t)
           (Annotated.get_or_insert_with (TraceContext.status t) SpanStatus.Unknown).2 (TraceContext.other t))
  | context => context
  end.

(** The context for reprocessing is not accepted from clients. *)
Definition process_contexts (contexts : gmap string (Annotated Context)) : gmap string (Annotated Context) :=
  (fun context => Annotated.map_value context process_context) <$> delete "reprocessing" contexts.

(** ** [Event::process_child_values] *)

Definition on_values {T} (f : Annotated T -> result ProcessingAction (Annotated T)) (vs : Values T)
  : result ProcessingAction (Values T) :=
  l ← Annotated.mapM (mapM f) (values vs); Ok (MkValues l (values_other vs)).

Definition process_images (debug_meta : DebugMeta) : result ProcessingAction DebugMeta :=
  images ← Annotated.mapM (mapM (fun image => annotated_apply original_debug_image image process_debug_image))
             (DebugMeta.images debug_meta);
  Ok (DebugMeta.MkDebugMeta (DebugMeta.system_sdk debug_meta) images (DebugMeta.other debug_meta)).

Definition process_child_values (event : Event) : result ProcessingAction Event :=
  logentry ← annotated_apply original_logentry (logentry event) normalize_logentry;
  let user := Annotated.map_value (user event) process_user in
  request ← Annotated.mapM normalize_request (request event);
  let contexts := Annotated.map_value (contexts event) process_contexts in
  breadcrumbs ← Annotated.mapM (on_values (fun b => Ok (Annotated.map_value b process_breadcrumb))) (breadcrumbs event);
  exceptions ← Annotated.mapM (on_values (fun e => annotated_apply original_exception e process_exception)) (exceptions event);
  let stacktrace := Annotated.map_value (event_stacktrace event) process_stacktrace in
  threads ← Annotated.mapM (on_values (fun t => Ok (Annotated.map_value t process_thread))) (threads event);
  debug_meta ← Annotated.mapM process_images (debug_meta event);
  Ok (set_debug_meta (set_threads (set_event_stacktrace (set_exceptions (set_breadcrumbs (set_contexts (set_request
       (set_user (set_logentry event logentry) user) request) contexts) breadcrumbs) exceptions) stacktrace) threads)
       debug_meta).

(** ** Attributes *)

Definition get_sdk_info (client : option string) : option ClientSdkInfo :=
  client ← client;
  let pair := match splitn2 "/" client with
              | (name, Some version) => Some (name, version)
              | _ => match splitn2 " " client with (name, Some version) => Some (name, version) | _ => None end
              end in
  (fun nv => ClientSdkInfo.MkClientSdkInfo (Annotated.new nv.1) (Annotated.new nv.2) ∅) <$> pair.

Definition normalize_measurements (event : Event) : Event :=
  if bool_decide (Annotated.value (event_ty event) = Some EventType.Transaction) then event
  else set_measurements event Annotated.empty.

Definition normalize_release_dist (event : Event) : Event :=
  let dist :=
    if bool_decide (is_Some (Annotated.value (dist event))) && opt_empty (Annotated.value (release event))
    then Annotated.set_value (dist event) None else dist event in
  set_dist event (Annotated.map_value dist trim).

(** The kind of error and the date to correct for a timestamp that is out of range. *)
Definition check_timestamp (config : StoreConfig) (received_at : DateTime) (timestamp : DateTime)
  : outcome (option (ErrorKind * DateTime)) :=
  future ← match StoreConfig.max_secs_in_future config with
           | Some secs =>
               d ← duration_seconds secs; limit ← datetime_add received_at d; Ret (bool_decide (limit < timestamp))
           | None => Ret false
           end;
  if future : bool then Ret (Some (ErrorKind.FutureTimestamp, timestamp))
  else
    past ← match StoreConfig.max_secs_in_past config with
           | Some secs =>
               d ← duration_seconds secs; limit ← datetime_add received_at (- d); Ret (bool_decide (timestamp < limit))
           | None => Ret false
           end;
    Ret (if past : bool then Some (ErrorKind.PastTimestamp, timestamp) else None).

Definition normalize_timestamps (config : StoreConfig) (event : Event) : outcome (result ProcessingAction Event) :=
  let received_at := default utc_now (StoreConfig.received_at config) in
  found ← match Annotated.value (timestamp event) with
          | Some t => check_timestamp config received_at t
          | None => Ret None
          end;
  let processor :=
    ClockDriftProcessor.error_kind (ClockDriftProcessor.new (snd <$> found) received_at)
      (default ErrorKind.ClockDrift (fst <$> found)) in
  event ← ClockDriftProcessor.process_event to_rfc3339 processor event;
  let event := set_received event (Annotated.new received_at) in
  let event := set_timestamp event (Annotated.get_or_insert_with (timestamp event) received_at).2 in
  Ret (time_spent ← annotated_apply (fun n => Some (U64 n)) (time_spent event)
                      (fun n meta => (n, meta, validate_bounded_integer_field n));
       Ok (set_time_spent event time_spent)).

(** *** Tags *)

(** [DedupCache]: whether an element is new, by its hash. *)
Definition probe (cache : list Z) (element : option string) : bool * list Z :=
  let hash := default_hash element in
  if bool_decide (hash ∈ cache) then (false, cache) else (true, cache ++ [hash]).

Definition tag_key (entry : Annotated (Annotated string * Annotated string)) : option string :=
  tag ← Annotated.value entry; Annotated.value tag.1.

Definition is_internal (key : option string) : bool :=
  bool_decide (key ∈ [Some "release"; Some "dist"; Some "user"; Some "filename"; Some "function"]).

(** [tags.retain]: internal tags and repeated keys go, entries without a value stay. *)
Fixpoint retain_tags (cache : list Z) (tags : PairList string string) : PairList string string :=
  match tags with
  | [] => []
  | entry :: tags =>
      match Annotated.value entry with
      | None => entry :: retain_tags cache tags
      | Some tag =>
          if is_internal (Annotated.value tag.1) then retain_tags cache tags
          else
            match probe cache (Annotated.value tag.1) with
            | (true, cache) => entry :: retain_tags cache tags
            | (false, cache) => retain_tags cache tags
            end
      end
  end.

(** A key or a value that is empty or too long is replaced by an error. *)
Definition validate_text (limit : Z) (text : Annotated string) : Annotated string :=
  match Annotated.value text with
  | Some s =>
      if str_empty s then from_error error_nonempty None
      else if bool_decide (limit < char_count s) then from_error (error_new ErrorKind.ValueTooLong) None
      else text
  | None => text
  end.

Definition validate_tag (tag : Annotated string * Annotated string) : Annotated string * Annotated string :=
  (validate_text (MaxChars.limit MaxChars.TagKey) tag.1, validate_text (MaxChars.limit MaxChars.TagValue) tag.2).

(** [std::mem::take] of an attribute that becomes a tag. *)
Definition insert_tag (key : string) (value : Annotated string) (tags : PairList string string) : PairList string string :=
  match Annotated.value value with Some _ => insert tags key value | None => tags end.

Definition normalize_tags (server_name site : Annotated string) (tags : PairList string string) : PairList string string :=
  let tags := retain_tags [] tags in
  let tags := (fun tag => Annotated.map_value tag validate_tag) <$> tags in
  insert_tag "site" site (insert_tag "server_name" server_name tags).

Definition normalize_event_tags (event : Event) : Event :=
  let tags := default [] (Annotated.value (tags event)) in
  let environment := if skipped str_empty (environment event) then Annotated.empty else environment event in
  let '(removed, tags) := remove tags "environment" in
  let environment :=
    match tag ← removed; Annotated.value tag with
    | Some tag => (Annotated.get_or_insert_with environment tag).2
    | None => environment
    end in
  let tags := normalize_tags (server_name event) (site event) tags in
  set_site (set_server_name (set_environment
    (set_tags event (Annotated.set_value (Protocol.tags event) (Some tags))) environment) Annotated.empty)
    Annotated.empty.

(** *** Event types and security reports *)

Definition has_exceptions (event : Event) : bool :=
  match exceptions ← Annotated.value (exceptions event); Annotated.value (values exceptions) with
  | Some values => negb (list_empty values)
  | None => false
  end.

Definition infer_event_type (event : Event) : EventType :=
  if bool_decide (Annotated.value (event_ty event) = Some EventType.Transaction) then EventType.Transaction
  else if has_exceptions event then EventType.Error
  else match Annotated.value (csp event), Annotated.value (hpkp event), Annotated.value (expectct event),
             Annotated.value (expectstaple event) with
       | Some _, _, _, _ => EventType.Csp
       | None, Some _, _, _ => EventType.Hpkp
       | None, None, Some _, _ => EventType.ExpectCt
       | None, None, None, Some _ => EventType.ExpectStaple
       | None, None, None, None => EventType.Default
       end.

Definition is_security_report (event : Event) : bool :=
  bool_decide (is_Some (Annotated.value (csp event))) || bool_decide (is_Some (Annotated.value (expectct event)))
  || bool_decide (is_Some (Annotated.value (expectstaple event))) || bool_decide (is_Some (Annotated.value (hpkp event))).

Definition default_user : User :=
  MkUser Annotated.empty Annotated.empty Annotated.empty Annotated.empty Annotated.empty Annotated.empty
    Annotated.empty Annotated.empty ∅.
Definition default_request : Request :=
  MkRequest Annotated.empty Annotated.empty Annotated.empty Annotated.empty Annotated.empty Annotated.empty
    Annotated.empty Annotated.empty Annotated.empty ∅.

Definition set_ip_address (user : User) (ip : Annotated IpAddr) : User :=
  MkUser (user_id user) (email user) ip (username user) (user_name user) (geo user) (segment user) (user_data user)
    (user_other user).
Definition set_headers (request : Request) (headers : Annotated (PairList string string)) : Request :=
  MkRequest (url request) (method request) (data request) (query_string request) (fragment request) (cookies request)
    headers (env request) (inferred_content_type request) (request_other request).
Definition set_env (request : Request) (env : Annotated (gmap string (Annotated Value))) : Request :=
  MkRequest (url request) (method request) (data request) (query_string request) (fragment request) (cookies request)
    (headers request) env (inferred_content_type request) (request_other request).

Definition normalize_security_report (config : StoreConfig) (event : Event) : Event :=
  if negb (is_security_report event) then event
  else
    let event := set_logger event (Annotated.get_or_insert_with (logger event) "csp").2 in
    let event :=
      match StoreConfig.client_ip config with
      | Some client_ip =>
          set_user event (upsert default_user (fun user => set_ip_address user (Annotated.new client_ip)) (user event))
      | None => event
      end in
    match StoreConfig.user_agent config with
    | Some client =>
        set_request event
          (upsert default_request
             (fun request =>
                set_headers request
                  (upsert [] (fun headers => if contains headers "User-Agent" then headers
                                             else insert headers "User-Agent" (Annotated.new client))
                     (headers request)))
             (request event))
    | None => event
    end.

(** *** IP addresses *)

Definition resolve_auto (client_ip : IpAddr) (ip : string) : string := if ip_is_auto ip then client_ip else ip.

(** [{{auto}}] in the environment of the request and in the user. *)
Definition resolve_env (client_ip : IpAddr) (env : gmap string (Annotated Value)) : gmap string (Annotated Value) :=
  alter (fun a => Annotated.map_value a (fun v =>
           match v with String_ http_ip => String_ (resolve_auto client_ip http_ip) | v => v end)) "REMOTE_ADDR" env.

Definition resolve_auto_ips (config : StoreConfig) (event : Event) : Event :=
  match StoreConfig.client_ip config with
  | None => event
  | Some client_ip =>
      let request :=
        Annotated.map_value (request event) (fun request =>
          set_env request (Annotated.map_value (env request) (resolve_env client_ip))) in
      let user :=
        Annotated.map_value (user event) (fun user =>
          set_ip_address user (Annotated.map_value (ip_address user) (resolve_auto client_ip))) in
      set_user (set_request event request) user
  end.

(** The address in the environment of the request. *)
Definition http_ip (event : Event) : option IpAddr :=
  request ← Annotated.value (request event);
  env ← Annotated.value (env request);
  addr ← env !! "REMOTE_ADDR";
  v ← Annotated.value addr;
  s ← value_as_str v;
  ip_parse s.

Definition normalize_ip_addresses (config : StoreConfig) (event : Event) : Event :=
  let event := resolve_auto_ips config event in
  match http_ip event, StoreConfig.client_ip config with
  | Some http_ip, _ =>
      set_user event
        (upsert default_user (fun user =>
           set_ip_address user (Annotated.get_or_insert_with (ip_address user) http_ip).2) (user event))
  | None, Some client_ip =>
      set_user event
        (upsert default_user (fun user =>
           if bool_decide (Annotated.value (ip_address user) = None)
              && bool_decide (Annotated.value (platform event) ∈ [Some "javascript"; Some "cocoa"; Some "objc"])
           then set_ip_address user (Annotated.new client_ip) else user) (user event))
  | None, None => event
  end.

(** *** Exceptions *)

Definition set_mechanism (exception : Exception) (mechanism : Annotated Mechanism) : Exception :=
  MkException (exc_ty exception) (exc_value exception) (stacktrace exception) (raw_stacktrace exception) mechanism
    (exc_other exception).

(** A single exception takes over the stacktrace of the event. *)
Definition move_stacktrace (event : Event) (l : list (Annotated Exception))
  : list (Annotated Exception) * Annotated Stacktrace :=
  match l, Annotated.value (event_stacktrace event) with
  | [MkAnnotated (Some e) m], Some _ =>
      ([MkAnnotated (Some (set_exception e (exc_ty e) (exc_value e) (event_stacktrace event) (raw_stacktrace e))) m],
       Annotated.empty)
  | l, _ => (l, event_stacktrace event)
  end.

Definition normalize_exceptions (event : Event) : result ProcessingAction Event :=
  let os_hint := from_event to_lowercase event in
  match Annotated.value (exceptions event) with
  | Some vs =>
      match Annotated.value (values vs) with
      | Some l =>
          let '(l, stacktrace) := move_stacktrace event l in
          l ← mapM (Annotated.mapM (fun e =>
                mechanism ← Annotated.mapM (fun m => normalize_mechanism m os_hint) (mechanism e);
                Ok (set_mechanism e mechanism))) l;
          Ok (set_event_stacktrace
                (set_exceptions event (Annotated.set_value (exceptions event)
                   (Some (MkValues (Annotated.set_value (values vs) (Some l)) (values_other vs)))))
                stacktrace)
      | None => Ok event
      end
  | None => Ok event
  end.

(** ** [process_event] *)

Section Processor.
Context (config : StoreConfig) (grouping_config : option Value) (breakdowns_config : option (list (string * BreakdownConfig))).
(** The sort of time windows and the order of the hash map in breakdowns.rs *)
Context (sort_spans : list TimeWindowSpan -> list TimeWindowSpan).
Context (hash_entries : Intervals -> list (OperationBreakdown * list TimeWindowSpan)).

(** [apply] with a check of the text. *)
Definition check_text (error : bool) (valid : string -> bool) (text : string) (meta : Meta)
  : string * Meta * result ProcessingAction () :=
  if valid text then (text, meta, Ok ())
  else (text, if error then Meta.add_error meta (error_new ErrorKind.InvalidData) else meta,
        Err ProcessingAction.DeleteValueSoft).

(** Attributes that Relay decides, whatever the payload says. *)
Definition override_attributes (event_type : EventType) (event : Event) : Event :=
  let event := set_event_ty event (Annotated.new event_type) in
  let event := set_event_project event (annotated_from (StoreConfig.project_id config)) in
  let event := set_event_key_id event (annotated_from (StoreConfig.key_id config)) in
  let event := set_event_version event (annotated_from (StoreConfig.protocol_version config)) in
  set_grouping_config event
    (match grouping_config with
     | Some x => from_value (FromValue := from_value_object) (Annotated.new x)
     | None => Annotated.empty
     end).

Definition validate_attributes (event : Event) : result ProcessingAction Event :=
  platform ← annotated_apply original_string (platform event) (check_text false is_valid_platform);
  environment ← annotated_apply original_string (environment event) (check_text true validate_environment);
  release ← annotated_apply original_string (release event) (check_text true validate_release);
  Ok (set_release (set_environment (set_platform event platform) environment) release).

Definition default_attributes (event_type : EventType) (event : Event) : Event :=
  let event := set_event_errors event (Annotated.get_or_insert_with (event_errors event) []).2 in
  let event := set_event_id event (Annotated.get_or_insert_with (event_id event) new_event_id).2 in
  let event := set_platform event (Annotated.get_or_insert_with (platform event) "other").2 in
  let event := set_logger event (Annotated.get_or_insert_with (logger event) "").2 in
  let event := set_extra event (Annotated.get_or_insert_with (extra event) ∅).2 in
  let event := set_event_level event
    (Annotated.get_or_insert_with (event_level event)
       (if bool_decide (event_type = EventType.Transaction) then Level.Info else Level.Error)).2 in
  if bool_decide (Annotated.value (client_sdk event) = None)
  then set_client_sdk event (Annotated.set_value (client_sdk event) (get_sdk_info (StoreConfig.client config)))
  else event.

(** What follows the correction of the times. *)
Definition normalize_rest (event : Event) : result ProcessingAction Event :=
  let event := normalize_event_tags event in
  event ← normalize_exceptions event;
  let event := if default false (StoreConfig.normalize_user_agent config) then normalize_user_agent event else event in
  let event := normalize_measurements event in
  Ok (match breakdowns_config with
      | Some breakdowns_config => normalize_breakdowns sort_spans hash_entries event breakdowns_config
      | None => event
      end).

(** What precedes it. *)
Definition normalize_first (event : Event) : result ProcessingAction Event :=
  let event := normalize_security_report config event in
  let event := normalize_ip_addresses config event in
  event ← process_child_values event;
  let event_type := infer_event_type event in
  event ← validate_attributes (override_attributes event_type event);
  Ok (normalize_release_dist (default_attributes event_type event)).

Definition process_event (event : Event) : outcome (result ProcessingAction Event) :=
  match normalize_first event with
  | Err action => Ret (Err action)
  | Ok event =>
      event ← normalize_timestamps config event;
      Ret (event ← event; normalize_rest event)
  end.

End Processor.

End Normalize.

(** ** Tags *)

Section Tags.
Context {CE : ConvEnv} {NE : NormEnv} {FE : FilterEnv} {EE : NormalizeEnv}.

Lemma retain_tags_keys cache tags k :
  k ∈ omap tag_key (retain_tags cache tags) ->
  k ∈ omap tag_key tags /\ is_internal (Some k) = false /\ default_hash (Some k) ∉ cache.
Proof.
  revert cache. induction tags as [|entry tags IH]; intros cache; simpl; [by intros ?%elem_of_nil|].
  unfold tag_key at 2. destruct (Annotated.value entry) as [tag|] eqn:Ev; simpl.
  - destruct (is_internal (Annotated.value tag.1)) eqn:Ei.
    { intros Hk. destruct (IH cache Hk) as (? & ? & ?). destruct (Annotated.value tag.1); set_solver. }
    unfold probe. case_bool_decide as Hc; simpl.
    { intros Hk. destruct (IH cache Hk) as (? & ? & ?). destruct (Annotated.value tag.1); set_solver. }
    unfold tag_key at 1. rewrite Ev. simpl. destruct (Annotated.value tag.1) as [key|] eqn:Ekey.
    + intros [-> |Hk]%elem_of_cons; [by split_and!; [left|..]|]. destruct (IH _ Hk) as (? & ? & ?). set_solver.
    + intros Hk. destruct (IH _ Hk) as (? & ? & ?). set_solver.
  - unfold tag_key at 1. rewrite Ev. simpl. apply IH.
Qed.

Lemma retain_tags_NoDup cache tags : NoDup (omap tag_key (retain_tags cache tags)).
Proof.
  revert cache. induction tags as [|entry tags IH]; intros cache; simpl; [constructor|].
  destruct (Annotated.value entry) as [tag|] eqn:Ev.
  - destruct (is_internal _); [apply IH|]. unfold probe. case_bool_decide as Hc; [apply IH|]. simpl.
    unfold tag_key at 1. rewrite Ev. simpl. destruct (Annotated.value tag.1) as [key|] eqn:Ekey; [|apply IH].
    apply NoDup_cons. split; [|apply IH]. intros (_ & _ & Hn)%retain_tags_keys. set_solver.
  - simpl. unfold tag_key at 1. rewrite Ev. simpl. apply IH.
Qed.

Lemma validate_text_some limit text s :
  Annotated.value (validate_text limit text) = Some s ->
  Annotated.value text = Some s /\ s <> "" /\ char_count s <= limit.
Proof.
  unfold validate_text. destruct (Annotated.value text) as [t|] eqn:Et; [|congruence].
  unfold str_empty. case_bool_decide as He; [done|]. case_bool_decide as Hl; [done|].
  rewrite Et. intros [= ->]. split_and!; [done|done|lia].
Qed.

Definition validated (l : PairList string string) : PairList string string :=
  (fun tag => Annotated.map_value tag validate_tag) <$> l.

Lemma keys_cons key value m (l : PairList string string) :
  omap tag_key (MkAnnotated (Some (key, value)) m :: l)
  = match Annotated.value key with Some k => k :: omap tag_key l | None => omap tag_key l end.
Proof. done. Qed.
Lemma keys_null m (l : PairList string string) : omap tag_key (MkAnnotated None m :: l) = omap tag_key l.
Proof. done. Qed.
Lemma validated_cons key value m l :
  validated (MkAnnotated (Some (key, value)) m :: l)
  = MkAnnotated (Some (validate_text 32 key, validate_text 200 value)) m :: validated l.
Proof. done. Qed.

(** Validation drops keys but adds none. *)
Lemma validated_keys l k :
  k ∈ omap tag_key (validated l) -> k ∈ omap tag_key l /\ k <> "" /\ char_count k <= 32.
Proof.
  induction l as [|[[ [key value] |] m] l IH]; [by intros ?%elem_of_nil|..].
  - rewrite validated_cons, !keys_cons. destruct (Annotated.value (validate_text 32 key)) as [k'|] eqn:Ek.
    + apply validate_text_some in Ek as (-> & Hne & Hlen). intros [-> |Hk]%elem_of_cons.
      * split_and!; [left|done|done].
      * destruct (IH Hk) as (? & ? & ?). split_and!; [by right|done|done].
    + intros Hk. destruct (IH Hk) as (? & ? & ?). destruct (Annotated.value key); set_solver.
  - apply IH.
Qed.

Lemma validated_NoDup l : NoDup (omap tag_key l) -> NoDup (omap tag_key (validated l)).
Proof.
  induction l as [|[[ [key value] |] m] l IH]; [done|..|apply IH].
  rewrite validated_cons, !keys_cons. intros Hnd.
  assert (NoDup (omap tag_key l)) as Hl by (destruct (Annotated.value key); [by apply NoDup_cons in Hnd as [_ ?]|done]).
  destruct (Annotated.value (validate_text 32 key)) as [k'|] eqn:Ek; [|by apply IH].
  apply validate_text_some in Ek as (Ekey & _). rewrite Ekey in Hnd. apply NoDup_cons in Hnd as [Hn _].
  apply NoDup_cons. split; [|by apply IH]. by intros [? _]%validated_keys.
Qed.

Lemma position_keys (l : PairList string string) k : position l k = None <-> k ∉ omap tag_key l.
Proof.
  unfold position. rewrite fmap_None. induction l as [|[[ [key value] |] m] l IH]; [set_solver|..|apply IH].
  rewrite keys_cons. cbn. unfold as_str in *. case_decide as Hk; simpl in Hk.
  - rewrite Hk. split; [done|]. intros Hn. exfalso. apply Hn. left.
  - rewrite fmap_None. destruct (Annotated.value key) as [k'|] eqn:Ek; [|done].
    rewrite not_elem_of_cons, IH. split; [intros; split; congruence|by intros [_ ?]].
Qed.

(** An insertion changes no keys but the one it adds. *)
Lemma insert_keys (l : PairList string string) k v :
  omap tag_key (insert l k v) = if bool_decide (k ∈ omap tag_key l) then omap tag_key l else omap tag_key l ++ [k].
Proof.
  unfold insert. destruct (position l k) as [i|] eqn:Ep.
  - rewrite bool_decide_eq_true_2.
    2:{ destruct (decide (k ∈ omap tag_key l)) as [?|Hn]; [done|]. apply position_keys in Hn. congruence. }
    revert i Ep. assert (forall i (l : PairList string string),
      omap tag_key (alter (fun e => Annotated.map_value e (fun pair => (pair.1, v))) i l) = omap tag_key l) as H; [|eauto].
    intros i l'. revert i. induction l' as [|[e m] l' IH]; intros [|i]; simpl; [done|done|..].
    + by destruct e.
    + specialize (IH i). destruct (tag_key (MkAnnotated e m)); [apply (f_equal (cons _))|]; exact IH.
  - apply position_keys in Ep. rewrite bool_decide_eq_false_2 by done. by rewrite omap_app.
Qed.

Lemma insert_tag_keys k v (l : PairList string string) P :
  NoDup (omap tag_key l) -> Forall P (omap tag_key l) -> P k ->
  NoDup (omap tag_key (insert_tag k v l)) /\ Forall P (omap tag_key (insert_tag k v l)).
Proof.
  intros Hnd Hall Hk. unfold insert_tag. destruct (Annotated.value v); [|done]. rewrite insert_keys.
  case_bool_decide as Hin; [done|]. rewrite Forall_app, NoDup_app. split_and!; try done.
  - intros x Hx ->%list_elem_of_singleton. done.
  - apply NoDup_singleton.
  - by constructor.
Qed.

(** A key that an event may have after normalization. *)
Definition good_key (k : string) : Prop := k <> "" /\ char_count k <= 32 /\ is_internal (Some k) = false.

(** After normalization the tags of an event have distinct keys; every key is not empty, has at
    most 32 characters and is none of the internal tags that Relay does not accept
    from clients.  The server name and the site are no attributes any more. *)
Theorem tags_normalized event :
  exists l, Annotated.value (tags (normalize_event_tags event)) = Some l
    /\ NoDup (omap tag_key l) /\ Forall good_key (omap tag_key l)
    /\ server_name (normalize_event_tags event) = Annotated.empty
    /\ site (normalize_event_tags event) = Annotated.empty.
Proof.
  unfold normalize_event_tags. destruct (remove _ "environment") as [removed l].
  exists (normalize_tags (server_name event) (site event) l). split; [done|].
  unfold normalize_tags.
  assert (NoDup (omap tag_key (validated (retain_tags [] l)))) as H1 by apply validated_NoDup, retain_tags_NoDup.
  assert (Forall good_key (omap tag_key (validated (retain_tags [] l)))) as H2.
  { apply Forall_forall. intros k (Hk & ? & ?)%validated_keys.
    apply retain_tags_keys in Hk as (_ & ? & _). by split_and!. }
  destruct (insert_tag_keys "server_name" (server_name event) _ good_key H1 H2) as [H3 H4]; [by repeat split|].
  destruct (insert_tag_keys "site" (site event) _ good_key H3 H4) as [H5 H6]; [by repeat split|].
  by split_and!.
Qed.

End Tags.

(** ** IP addresses *)

Section Addresses.
Context {CE : ConvEnv} {NE : NormEnv} {FE : FilterEnv} {EE : NormalizeEnv}.

Definition user_ip (event : Event) : option IpAddr :=
  user ← Annotated.value (user event); Annotated.value (ip_address user).
Definition remote_addr (event : Event) : option Value :=
  request ← Annotated.value (request event);
  env ← Annotated.value (env request);
  addr ← env !! "REMOTE_ADDR";
  Annotated.value addr.

Lemma resolve_auto_not_auto client_ip ip : ip_is_auto client_ip = false -> ip_is_auto (resolve_auto client_ip ip) = false.
Proof. intros Hc. unfold resolve_auto. by destruct (ip_is_auto ip) eqn:E. Qed.

Lemma resolved_user_ip config client_ip event :
  StoreConfig.client_ip config = Some client_ip ->
  user_ip (resolve_auto_ips config event) = resolve_auto client_ip <$> user_ip event.
Proof.
  intros Hc. unfold resolve_auto_ips, user_ip. rewrite Hc. cbn.
  destruct (user event) as [[u|] m]; simpl; [|done]. by destruct (ip_address u).
Qed.

Lemma resolved_remote_addr config client_ip event :
  StoreConfig.client_ip config = Some client_ip ->
  remote_addr (resolve_auto_ips config event)
  = (fun v => match v with String_ ip => String_ (resolve_auto client_ip ip) | v => v end) <$> remote_addr event.
Proof.
  intros Hc. unfold resolve_auto_ips, remote_addr. rewrite Hc. cbn.
  destruct (request event) as [[r|] m]; simpl; [|done]. destruct (env r) as [[e|] m']; simpl; [|done].
  unfold resolve_env. rewrite lookup_alter_eq. by destruct (e !! "REMOTE_ADDR") as [ [[v|] m''] |].
Qed.

Lemma http_ip_remote event : http_ip event = (remote_addr event ≫= value_as_str) ≫= ip_parse.
Proof.
  unfold http_ip, remote_addr. destruct (Annotated.value (request event)) as [r|]; simpl; [|done].
  destruct (Annotated.value (env r)) as [e|]; simpl; [|done].
  destruct (e !! "REMOTE_ADDR") as [a|]; simpl; [|done]. by destruct (Annotated.value a).
Qed.

Lemma http_ip_resolved config client_ip event ip :
  StoreConfig.client_ip config = Some client_ip ->
  http_ip (resolve_auto_ips config event) = Some ip -> exists s, ip = resolve_auto client_ip s.
Proof.
  intros Hc. rewrite http_ip_remote, (resolved_remote_addr config client_ip) by done.
  destruct (remote_addr event) as [v|]; simpl; [|done]. destruct v; try done. simpl. unfold ip_parse.
  destruct (_ || _); [|done]. intros [= <-]. by eexists.
Qed.

(** With a client address known, no placeholder is left: the address of the user and the one in
    the environment of the request are resolved.  The user keeps the address that
    the event had, or else gets the one of the request, or else, on the platforms
    that run at the client, the client's. *)
Theorem ip_addresses_backfilled config client_ip event :
  StoreConfig.client_ip config = Some client_ip -> ip_is_auto client_ip = false ->
  let e := normalize_ip_addresses config event in
  let resolved := resolve_auto_ips config event in
  (forall ip, user_ip e = Some ip -> ip_is_auto ip = false)
  /\ (forall ip, remote_addr e = Some (String_ ip) -> ip_is_auto ip = false)
  /\ user_ip e
     = match user_ip resolved, http_ip resolved with
       | Some ip, _ => Some ip
       | None, Some ip => Some ip
       | None, None =>
           if bool_decide (Annotated.value (platform event) ∈ [Some "javascript"; Some "cocoa"; Some "objc"])
           then Some client_ip else None
       end.
Proof.
  intros Hc Ha. cbn zeta.
  assert (user_ip (normalize_ip_addresses config event)
     = match user_ip (resolve_auto_ips config event), http_ip (resolve_auto_ips config event) with
       | Some ip, _ => Some ip
       | None, Some ip => Some ip
       | None, None =>
           if bool_decide (Annotated.value (platform event) ∈ [Some "javascript"; Some "cocoa"; Some "objc"])
           then Some client_ip else None
       end) as Hip.
  { unfold normalize_ip_addresses. set (r := resolve_auto_ips config event).
    assert (platform r = platform event) as Hp by (unfold r, resolve_auto_ips; by rewrite Hc).
    destruct (http_ip r) as [hip|]; rewrite ?Hc; unfold user_ip; cbn; rewrite ?Hp;
      destruct (user r) as [[u|] m]; cbn; try (by destruct (Annotated.value (ip_address u)));
      repeat case_bool_decide; cbn; simplify_eq; try done;
      destruct (Annotated.value (ip_address u)) eqn:E; cbn; rewrite ?E; done. }
  assert (remote_addr (normalize_ip_addresses config event) = remote_addr (resolve_auto_ips config event)) as Hr.
  { unfold normalize_ip_addresses. destruct (http_ip _); rewrite ?Hc; done. }
  split_and!; [..|exact Hip].
  - intros ip. rewrite Hip, (resolved_user_ip config client_ip) by done.
    destruct (user_ip event) as [uip|]; simpl; [intros [= <-]; by apply resolve_auto_not_auto|].
    destruct (http_ip _) as [hip|] eqn:Eh; [|case_bool_decide; congruence].
    intros [= <-]. destruct (http_ip_resolved config client_ip event hip Hc Eh) as [s ->].
    by apply resolve_auto_not_auto.
  - intros ip. rewrite Hr, (resolved_remote_addr config client_ip) by done.
    destruct (remote_addr event) as [v|]; simpl; [|done]. destruct v; try done. simpl. intros [= <-].
    by apply resolve_auto_not_auto.
Qed.

End Addresses.

(** ** Nothing is rejected *)

(** A step of a processor that always goes on. *)
Definition goes_on {A B} (f : A -> result ProcessingAction B) : Prop := forall a, exists b, f a = Ok b.

Section Total.
Context {CE : ConvEnv} {NE : NormEnv} {FE : FilterEnv} {EE : NormalizeEnv}.

Lemma goes_on_mapM {A B} (f : A -> result ProcessingAction B) : goes_on f -> goes_on (mapM f).
Proof.
  intros Hf l. induction l as [|a l [k IH]]; [by eexists|]. destruct (Hf a) as [b Hb].
  exists (b :: k). cbn. rewrite Hb. cbn. cbn in IH. by rewrite IH.
Qed.

Lemma goes_on_annotated {A} (f : A -> result ProcessingAction A) : goes_on f -> goes_on (Annotated.mapM f).
Proof. intros Hf [[a|] m]; [|by eexists]. destruct (Hf a) as [b Hb]. cbn. rewrite Hb. by eexists. Qed.

Lemma goes_on_apply {T} original (f : T -> Meta -> T * Meta * result ProcessingAction ()) :
  (forall v m s, (f v m).2 <> Err (ProcessingAction.InvalidTransaction s)) ->
  goes_on (fun a => annotated_apply original a f).
Proof.
  intros Hf [[v|] m]; [|by eexists]. cbn. specialize (Hf v m). destruct (f v m) as [ [v' m'] [[]|[| |s]]]; try by eexists.
  by destruct (Hf s).
Qed.

Lemma goes_on_values {T} (f : Annotated T -> result ProcessingAction (Annotated T)) : goes_on f -> goes_on (on_values f).
Proof.
  intros Hf vs. unfold on_values.
  destruct (goes_on_annotated _ (goes_on_mapM f Hf) (values vs)) as [l ->]. by eexists.
Qed.

Lemma goes_on_ok {A} (f : A -> A) : goes_on (fun a => Ok (f a) : result ProcessingAction A).
Proof. intros a. by eexists. Qed.

Lemma logentry_goes_on v m s : (normalize_logentry v m).2 <> Err (ProcessingAction.InvalidTransaction s).
Proof.
  unfold normalize_logentry. destruct (logentry_is_empty v); [done|].
  by destruct (Annotated.value (formatted v)), (Annotated.value (message v)).
Qed.

Lemma exception_goes_on v m s : (process_exception v m).2 <> Err (ProcessingAction.InvalidTransaction s).
Proof. unfold process_exception. destruct (split_type _ _). by destruct (_ && _). Qed.

Lemma image_goes_on v m s : (process_debug_image v m).2 <> Err (ProcessingAction.InvalidTransaction s).
Proof. by destruct v. Qed.

Lemma check_text_goes_on error valid v m s : (check_text error valid v m).2 <> Err (ProcessingAction.InvalidTransaction s).
Proof. unfold check_text. by destruct (valid v). Qed.

Lemma request_goes_on : goes_on normalize_request.
Proof.
  intros r. unfold normalize_request. destruct (normalize_method_total (method r)) as (m & -> & _). by eexists.
Qed.

Lemma mechanism_goes_on os_hint : goes_on (fun m => normalize_mechanism m os_hint).
Proof.
  intros m. unfold normalize_mechanism. destruct (check_help_link_ok (Mechanism.help_link m)) as (l & -> & _). by eexists.
Qed.

Lemma child_values_go_on : goes_on process_child_values.
Proof.
  intros e. unfold process_child_values, process_images.
  destruct (goes_on_apply original_logentry normalize_logentry logentry_goes_on (logentry e)) as [? ->]. cbn.
  destruct (goes_on_annotated _ request_goes_on (request e)) as [? ->]. cbn.
  destruct (goes_on_annotated _ (goes_on_values _ (goes_on_ok (fun b => Annotated.map_value b process_breadcrumb)))
    (breadcrumbs e)) as [? ->]. cbn.
  destruct (goes_on_annotated _ (goes_on_values _ (goes_on_apply original_exception process_exception exception_goes_on))
    (exceptions e)) as [? ->]. cbn.
  destruct (goes_on_annotated _ (goes_on_values _ (goes_on_ok (fun t => Annotated.map_value t process_thread)))
    (threads e)) as [? ->]. cbn.
  assert (goes_on (fun debug_meta => images ← Annotated.mapM (mapM (fun image => annotated_apply original_debug_image image process_debug_image))
             (DebugMeta.images debug_meta);
     Ok (DebugMeta.MkDebugMeta (DebugMeta.system_sdk debug_meta) images (DebugMeta.other debug_meta)))) as Hd.
  { intros d. destruct (goes_on_annotated _ (goes_on_mapM _ (goes_on_apply original_debug_image process_debug_image image_goes_on))
      (DebugMeta.images d)) as [? ->]. by eexists. }
  destruct (goes_on_annotated _ Hd (debug_meta e)) as [? ->]. by eexists.
Qed.

Lemma exceptions_go_on : goes_on normalize_exceptions.
Proof.
  intros e. unfold normalize_exceptions. destruct (Annotated.value (exceptions e)) as [vs|]; [|by eexists].
  destruct (Annotated.value (values vs)) as [l|]; [|by eexists]. destruct (move_stacktrace e l) as [l' st].
  assert (goes_on (fun e' : Exception =>
     mechanism ← Annotated.mapM (fun m => normalize_mechanism m (from_event to_lowercase e)) (mechanism e');
     Ok (set_mechanism e' mechanism))) as Hm.
  { intros e'. destruct (goes_on_annotated _ (mechanism_goes_on (from_event to_lowercase e)) (mechanism e')) as [? ->].
    by eexists. }
  destruct (goes_on_mapM _ (goes_on_annotated _ Hm) l') as [? ->]. by eexists.
Qed.

Lemma attributes_validate : goes_on validate_attributes.
Proof.
  intros e. unfold validate_attributes.
  destruct (goes_on_apply original_string _ (check_text_goes_on false is_valid_platform) (platform e)) as [? ->]. cbn.
  destruct (goes_on_apply original_string _ (check_text_goes_on true validate_environment) (environment e)) as [? ->]. cbn.
  destruct (goes_on_apply original_string _ (check_text_goes_on true validate_release) (release e)) as [? ->]. by eexists.
Qed.

End Total.

(** ** Complete events *)

Section Complete.
Context {CE : ConvEnv} {NE : NormEnv} {FE : FilterEnv} {EE : NormalizeEnv}.
Context (config : StoreConfig) (grouping : option Value) (breakdowns_config : option (list (string * BreakdownConfig))).
Context (sort_spans : list TimeWindowSpan -> list TimeWindowSpan).
Context (hash_entries : Intervals -> list (OperationBreakdown * list TimeWindowSpan)).

(** The attributes that are settled before the times are corrected, and the times. *)
Definition attributes (e : Event) :=
  (event_id e, platform e, event_level e, logger e, extra e, event_errors e, event_ty e, event_project e,
   event_key_id e, event_version e).
Definition settled_view (e : Event) := (attributes e, timestamp e, received e).

Lemma clock_drift_attributes p e e' :
  ClockDriftProcessor.process_event to_rfc3339 p e = Ret e' -> attributes e' = attributes e.
Proof.
  unfold ClockDriftProcessor.process_event. destruct (ClockDriftProcessor.correction p) as [c|]; [|congruence].
  intros (e1 & H1 & H2)%outcome_bind_Ret. injection H2 as <-.
  unfold ClockDriftProcessor.process_children in H1.
  repeat (apply outcome_bind_Ret in H1 as (? & _ & H1)). by injection H1 as <-.
Qed.

Lemma timestamps_settle e r :
  normalize_timestamps config e = Ret r ->
  exists e', r = Ok e' /\ attributes e' = attributes e /\ is_Some (Annotated.value (timestamp e'))
    /\ received e' = Annotated.new (default utc_now (StoreConfig.received_at config)).
Proof.
  unfold normalize_timestamps.
  destruct (match Annotated.value (timestamp e) with Some t => _ | None => _ end) as [found|]; cbn; [|done].
  destruct (ClockDriftProcessor.process_event _ _ _) as [e1|] eqn:Ec; cbn; [|done].
  intros [= <-]. apply clock_drift_attributes in Ec.
  destruct (goes_on_apply (fun n => Some (U64 n)) (fun n meta => (n, meta, validate_bounded_integer_field n))
    ltac:(intros; unfold validate_bounded_integer_field; by case_bool_decide) (time_spent e1)) as [ts Hts].
  cbn in Hts |- *. rewrite Hts. eexists. split; [reflexivity|]. split_and!; [exact Ec|by eexists|done].
Qed.

Lemma breakdowns_settled l e : settled_view (normalize_breakdowns sort_spans hash_entries e l) = settled_view e.
Proof.
  revert e. induction l as [|[name c] l IH]; intros e; [done|]. unfold normalize_breakdowns. cbn.
  etrans; [apply IH|]. unfold normalize_breakdown. repeat case_match; done.
Qed.

Lemma exceptions_settled e e' : normalize_exceptions e = Ok e' -> settled_view e' = settled_view e.
Proof.
  unfold normalize_exceptions. destruct (Annotated.value (exceptions e)) as [vs|]; [|congruence].
  destruct (Annotated.value (values vs)) as [l|]; [|congruence]. destruct (move_stacktrace e l) as [l' st].
  intros (l2 & _ & [= <-])%result_bind_Ok. done.
Qed.

Lemma user_agent_settled e : settled_view (normalize_user_agent e) = settled_view e.
Proof.
  unfold normalize_user_agent. destruct (get_user_agent e); [|done]. destruct (_ && _); [done|].
  by destruct (Annotated.get_or_insert_with _ _).
Qed.

Lemma measurements_settled e :
  settled_view (normalize_measurements e) = settled_view e
  /\ (Annotated.value (event_ty e) <> Some EventType.Transaction ->
      Annotated.value (measurements (normalize_measurements e)) = None).
Proof. unfold normalize_measurements. by case_bool_decide. Qed.

Lemma breakdowns_keep_measurements l e :
  measurements (normalize_breakdowns sort_spans hash_entries e l) = measurements e.
Proof.
  revert e. induction l as [|[name c] l IH]; intros e; [done|]. unfold normalize_breakdowns. cbn.
  etrans; [apply IH|]. unfold normalize_breakdown. repeat case_match; done.
Qed.

Lemma rest_settled e e' :
  normalize_rest config breakdowns_config sort_spans hash_entries e = Ok e' ->
  settled_view e' = settled_view e
  /\ (Annotated.value (event_ty e) <> Some EventType.Transaction -> Annotated.value (measurements e') = None).
Proof.
  unfold normalize_rest.
  assert (settled_view (normalize_event_tags e) = settled_view e) as Ht
    by (unfold normalize_event_tags; by destruct (remove _ _)).
  intros (e2 & He2%exceptions_settled & H)%result_bind_Ok. rewrite Ht in He2.
  set (e3 := if default false _ then _ else _) in H.
  assert (settled_view e3 = settled_view e) as He3.
  { unfold e3. destruct (default _ _); [by rewrite user_agent_settled|done]. }
  destruct (measurements_settled e3) as [Hs Hm]. clearbody e3.
  assert (event_ty e3 = event_ty e) as Hty by (unfold settled_view, attributes in He3; by simplify_eq).
  rewrite Hty in Hm. injection H as <-. destruct breakdowns_config as [l|]; [|by rewrite Hs].
  rewrite breakdowns_settled, breakdowns_keep_measurements, Hs. done.
Qed.

Lemma timestamps_return e :
  StoreConfig.max_secs_in_future config = None -> StoreConfig.max_secs_in_past config = None ->
  exists r, normalize_timestamps config e = Ret r.
Proof.
  intros Hf Hp. unfold normalize_timestamps, check_timestamp. rewrite Hf, Hp.
  destruct (Annotated.value (timestamp e)); by eexists.
Qed.

(** A text that fails its check is gone. *)
Lemma check_text_valid error valid a b s :
  annotated_apply original_string a (check_text error valid) = Ok b -> Annotated.value b = Some s -> valid s = true.
Proof.
  destruct a as [[t|] m]; cbn; [|by intros [= <-]]. unfold check_text.
  destruct (valid t) eqn:E; cbn; intros [= <-]; [by intros [= <-]|done].
Qed.

Lemma inserted_some {T} (a : Annotated T) d : is_Some (Annotated.value (Annotated.get_or_insert_with a d).2).
Proof. destruct a as [[t|] m]; by eexists. Qed.

(** Everything that normalization settles before it looks at the times. *)
Definition settled (e : Event) : Prop :=
  is_Some (Annotated.value (event_id e))
  /\ (exists p, Annotated.value (platform e) = Some p /\ is_valid_platform p = true)
  /\ is_Some (Annotated.value (event_level e)) /\ is_Some (Annotated.value (logger e))
  /\ is_Some (Annotated.value (extra e)) /\ is_Some (Annotated.value (event_errors e))
  /\ (exists ty, event_ty e = Annotated.new ty)
  /\ event_project e = annotated_from (StoreConfig.project_id config)
  /\ event_key_id e = annotated_from (StoreConfig.key_id config)
  /\ event_version e = annotated_from (StoreConfig.protocol_version config).

(** [settled] reads the attributes only. *)
Lemma settled_attributes e e' : attributes e' = attributes e -> settled e -> settled e'.
Proof. unfold attributes, settled. intros [= -> -> -> -> -> -> -> -> -> ->]. done. Qed.

(** What Relay decides, on the attributes alone. *)
Lemma override_attributes_view ty e :
  attributes (override_attributes config grouping ty e)
  = (event_id e, platform e, event_level e, logger e, extra e, event_errors e, Annotated.new ty,
     annotated_from (StoreConfig.project_id config), annotated_from (StoreConfig.key_id config),
     annotated_from (StoreConfig.protocol_version config)).
Proof. by destruct e. Qed.

Lemma default_attributes_view ty e :
  attributes (normalize_release_dist (default_attributes config ty e))
  = ((Annotated.get_or_insert_with (event_id e) new_event_id).2,
     (Annotated.get_or_insert_with (platform e) "other").2,
     (Annotated.get_or_insert_with (event_level e)
        (if bool_decide (ty = EventType.Transaction) then Level.Info else Level.Error)).2,
     (Annotated.get_or_insert_with (logger e) "").2, (Annotated.get_or_insert_with (extra e) ∅).2,
     (Annotated.get_or_insert_with (event_errors e) []).2, event_ty e, event_project e, event_key_id e, event_version e).
Proof.
  destruct e as [].
  cbv -[bool_decide decide Annotated.get_or_insert_with get_sdk_info opt_empty trim Annotated.map_value
        Annotated.set_value Annotated.value StoreConfig.client EventType.EventType_eq_dec].
  by destruct (bool_decide (Annotated.value client_sdk = None)).
Qed.

Lemma validate_attributes_view e e' :
  validate_attributes e = Ok e' ->
  exists p, annotated_apply original_string (platform e) (check_text false is_valid_platform) = Ok p
    /\ attributes e' = (event_id e, p, event_level e, logger e, extra e, event_errors e, event_ty e, event_project e,
                       event_key_id e, event_version e).
Proof.
  unfold validate_attributes. intros (p & Hp & H)%result_bind_Ok.
  apply result_bind_Ok in H as (? & _ & H). apply result_bind_Ok in H as (? & _ & H). injection H as <-.
  exists p. by split.
Qed.

Lemma defaults_settle ty e e' :
  validate_attributes (override_attributes config grouping ty e) = Ok e' ->
  settled (normalize_release_dist (default_attributes config ty e')).
Proof.
  pose proof (override_attributes_view ty e) as Ho. revert Ho.
  generalize (override_attributes config grouping ty e) as e1. intros e1 Ho.
  intros (p & Hp & Hv)%validate_attributes_view. pose proof (default_attributes_view ty e') as Hd.
  revert Hd. generalize (normalize_release_dist (default_attributes config ty e')) as e2. intros e2.
  unfold attributes in Ho, Hv. injection Ho as _ _ _ _ _ _ Ht Hpr Hk Hver.
  injection Hv as _ Hpl _ _ _ _ Ht' Hpr' Hk' Hver'. unfold attributes. intros [= H1 H2 H3 H4 H5 H6 H7 H8 H9 H10].
  unfold settled. rewrite H1, H2, H3, H4, H5, H6, H7, H8, H9, H10, Hpl, Ht', Hpr', Hk', Hver', Ht, Hpr, Hk, Hver.
  split_and!; try apply inserted_some; [|by eexists|done|done|done].
  destruct p as [[s|] m]; [|by eexists]. exists s. split; [done|]. by eapply check_text_valid.
Qed.

(** An event that can be stored. *)
Definition complete (e : Event) : Prop :=
  settled e /\ is_Some (Annotated.value (timestamp e))
  /\ received e = Annotated.new (default utc_now (StoreConfig.received_at config))
  /\ (Annotated.value (event_ty e) <> Some EventType.Transaction -> Annotated.value (measurements e) = None).

Lemma first_settles e : exists e', normalize_first config grouping e = Ok e' /\ settled e'.
Proof.
  unfold normalize_first. cbv zeta.
  destruct (child_values_go_on (normalize_ip_addresses config (normalize_security_report config e))) as [e1 ->].
  destruct (attributes_validate (override_attributes config grouping (infer_event_type e1) e1)) as [e2 H2].
  exists (normalize_release_dist (default_attributes config (infer_event_type e1) e2)).
  split; [|by eapply defaults_settle]. unfold mbind, result_bind. cbv beta iota. by rewrite H2.
Qed.

Lemma rest_goes_on : goes_on (normalize_rest config breakdowns_config sort_spans hash_entries).
Proof. intros e. unfold normalize_rest. destruct (exceptions_go_on (normalize_event_tags e)) as [? ->]. by eexists. Qed.

(** C30: Normalization rejects no event: when the dates it computes exist, its result is an event, and
    complete - with an id, a level, a logger, a timestamp, a platform that Sentry
    knows, the time of receipt, and the project, key, version and type that Relay
    decides - without measurements unless it is a transaction.  The dates exist
    whenever the configuration sets no bounds. *)
Theorem normalize_completes event :
  (forall r, process_event config grouping breakdowns_config sort_spans hash_entries event = Ret r ->
     exists e, r = Ok e /\ complete e)
  /\ (StoreConfig.max_secs_in_future config = None -> StoreConfig.max_secs_in_past config = None ->
      exists e, process_event config grouping breakdowns_config sort_spans hash_entries event = Ret (Ok e)).
Proof.
  unfold process_event. destruct (first_settles event) as (e1 & -> & He1).
  split.
  - intros r (r1 & (e2 & -> & Ha & Ht & Hr)%timestamps_settle & [= <-])%outcome_bind_Ret.
    destruct (rest_goes_on e2) as [e3 H3]. cbn. rewrite H3. exists e3. split; [done|].
    apply rest_settled in H3 as [Hv Hm]. pose proof (f_equal (fun v => v.1.1) Hv : attributes e3 = attributes e2) as Ha3.
    pose proof (f_equal (fun v => v.1.2) Hv : timestamp e3 = timestamp e2) as Ht3.
    pose proof (f_equal (fun v => v.2) Hv : received e3 = received e2) as Hr3.
    assert (event_ty e3 = event_ty e2) as Hty by (unfold attributes in Ha3; congruence).
    split_and!; [|by rewrite Ht3|by rewrite Hr3|by rewrite Hty].
    by apply (settled_attributes e1); [rewrite Ha3|].
  - intros Hf Hp. destruct (timestamps_return e1 Hf Hp) as [r Hr]. rewrite Hr. cbn.
    apply timestamps_settle in Hr as (e2 & -> & _). destruct (rest_goes_on e2) as [e3 H3]. exists e3. cbn. by rewrite H3.
Qed.

End Complete.

(** ** A run *)

Definition toy_normalize : NormalizeEnv := {|
  validate_environment := fun s => negb (str_empty s); validate_release := fun s => negb (str_empty s);
  geoip_lookup := None; default_hash := fun k => Z.of_nat (String.length (default "" k));
  utc_now := 1000; new_event_id := 7; to_rfc3339 := fun _ => "";
  original_exception := fun _ => None; original_logentry := fun _ => None; original_debug_image := fun _ => None;
|}.

#[local] Existing Instance toy_conv.
#[local] Existing Instance toy_norm.
#[local] Existing Instance exact_env.
#[local] Existing Instance toy_normalize.

Definition sample_config : StoreConfig :=
  StoreConfig.MkStoreConfig (Some 42) (Some "127.0.0.1") (Some "sentry.python/1.0") (Some "1") (Some "7") None (Some 5000)
    None None None None None None None.

Definition sample_tag (k v : string) : Annotated (Annotated string * Annotated string) :=
  Annotated.new (Annotated.new k, Annotated.new v).

(** A tag without value in front of the others shifts [PairList::remove]: the
    value of another tag becomes the environment. *)
Example null_tag_replaces_environment :
  let event := set_tags empty_event
    (Annotated.new [Annotated.empty; sample_tag "a" "x"; sample_tag "environment" "prod"]) in
  let event := normalize_event_tags event in
  Annotated.value (environment event) = Some "x"
  /\ Annotated.value (tags event) = Some [Annotated.empty; sample_tag "environment" "prod"].
Proof. by vm_compute. Qed.

Lemma ip_addresses_backfilled_witness :
  let event := set_platform empty_event (Annotated.new "javascript") in
  user_ip (normalize_ip_addresses sample_config event) = Some "127.0.0.1".
Proof.
  destruct (ip_addresses_backfilled sample_config "127.0.0.1" (set_platform empty_event (Annotated.new "javascript"))
    eq_refl eq_refl) as (_ & _ & H).
  exact H.
Defined.
Lemma normalize_completes_witness :
  exists e, process_event
    sample_config None None (fun l => l) (fun _ => []) empty_event = Ret (Ok e)
  /\ complete sample_config e.
Proof.
  destruct (normalize_completes
    sample_config None None (fun l => l) (fun _ => []) empty_event) as [Hc Hr].
  destruct (Hr eq_refl eq_refl) as [e He]. exists e. split; [exact He|].
  destruct (Hc _ He) as (e' & [= <-] & Hcomplete). exact Hcomplete.
Defined.
