(* ===== verification/SecurityReports.v ===== *)
(** * relay-general: security reports (protocol/security_report.rs)

    Browsers report violations of four policies.  A report becomes an event: its
    message, culprit, tags and request are derived from the report, which is also kept
    as an interface of the event. *)

From Stdlib Require Import Ascii String.
From S2P Require Import Prelude Strings Floats Types Attrs Common Protocol Size Conversions Mechanism Filters Transactions ClockDrift Breakdowns NormalizeParts Normalize.

Open Scope string_scope.
Open Scope Z_scope.
Open Scope list_scope.

(** ** Reports as browsers send them *)

Module CspDirective.

Inductive CspDirective :=
| BaseUri | ChildSrc | ConnectSrc | DefaultSrc | FontSrc | FormAction | FrameAncestors | FrameSrc | ImgSrc |
ManifestSrc | MediaSrc | ObjectSrc | PluginTypes | PrefetchSrc | Referrer | ScriptSrc | ScriptSrcAttr |
ScriptSrcElem | StyleSrc | StyleSrcElem | StyleSrcAttr | UpgradeInsecureRequests | WorkerSrc | Sandbox |
NavigateTo | ReportUri | ReportTo | BlockAllMixedContent | RequireSriFor | RequireTrustedTypesFor |
TrustedTypes.

#[global] Instance CspDirective_eq_dec : EqDecision CspDirective.
Proof. solve_decision. Defined.

Definition to_string (self : CspDirective) : string :=
  match self with
  | BaseUri => "base-uri"
  | ChildSrc => "child-src"
  | ConnectSrc => "connect-src"
  | DefaultSrc => "default-src"
  | FontSrc => "font-src"
  | FormAction => "form-action"
  | FrameAncestors => "frame-ancestors"
  | FrameSrc => "frame-src"
  | ImgSrc => "img-src"
  | ManifestSrc => "manifest-src"
  | MediaSrc => "media-src"
  | ObjectSrc => "object-src"
  | PluginTypes => "plugin-types"
  | PrefetchSrc => "prefetch-src"
  | Referrer => "referrer"
  | ScriptSrc => "script-src"
  | ScriptSrcAttr => "script-src-attr"
  | ScriptSrcElem => "script-src-elem"
  | StyleSrc => "style-src"
  | StyleSrcElem => "style-src-elem"
  | StyleSrcAttr => "style-src-attr"
  | UpgradeInsecureRequests => "upgrade-insecure-requests"
  | WorkerSrc => "worker-src"
  | Sandbox => "sandbox"
  | NavigateTo => "navigate-to"
  | ReportUri => "report-uri"
  | ReportTo => "report-to"
  | BlockAllMixedContent => "block-all-mixed-content"
  | RequireSriFor => "require-sri-for"
  | RequireTrustedTypesFor => "require-trusted-types-for"
  | TrustedTypes => "trusted-types"
  end.

Definition from_str (s : string) : option CspDirective :=
  match_str s
    [("base-uri", BaseUri); ("child-src", ChildSrc); ("connect-src", ConnectSrc); ("default-src", DefaultSrc);
     ("font-src", FontSrc); ("form-action", FormAction); ("frame-ancestors", FrameAncestors);
     ("frame-src", FrameSrc); ("img-src", ImgSrc); ("manifest-src", ManifestSrc); ("media-src", MediaSrc);
     ("object-src", ObjectSrc); ("plugin-types", PluginTypes); ("prefetch-src", PrefetchSrc);
     ("referrer", Referrer); ("script-src", ScriptSrc); ("script-src-attr", ScriptSrcAttr);
     ("script-src-elem", ScriptSrcElem); ("style-src", StyleSrc); ("style-src-elem", StyleSrcElem);
     ("style-src-attr", StyleSrcAttr); ("upgrade-insecure-requests", UpgradeInsecureRequests);
     ("worker-src", WorkerSrc); ("sandbox", Sandbox); ("navigate-to", NavigateTo); ("report-uri", ReportUri);
     ("report-to", ReportTo); ("block-all-mixed-content", BlockAllMixedContent);
     ("require-sri-for", RequireSriFor); ("require-trusted-types-for", RequireTrustedTypesFor);
     ("trusted-types", TrustedTypes)].

End CspDirective.
Notation CspDirective := CspDirective.CspDirective.

Module ExpectCtStatus.

Inductive ExpectCtStatus :=
| Unknown | Valid | Invalid.

#[global] Instance ExpectCtStatus_eq_dec : EqDecision ExpectCtStatus.
Proof. solve_decision. Defined.

Definition to_string (self : ExpectCtStatus) : string :=
  match self with
  | Unknown => "unknown"
  | Valid => "valid"
  | Invalid => "invalid"
  end.

Definition from_str (s : string) : option ExpectCtStatus :=
  match_str s
    [("unknown", Unknown); ("valid", Valid); ("invalid", Invalid)].

End ExpectCtStatus.
Notation ExpectCtStatus := ExpectCtStatus.ExpectCtStatus.

Module ExpectCtSource.

Inductive ExpectCtSource :=
| TlsExtension | Ocsp | Embedded.

#[global] Instance ExpectCtSource_eq_dec : EqDecision ExpectCtSource.
Proof. solve_decision. Defined.

Definition to_string (self : ExpectCtSource) : string :=
  match self with
  | TlsExtension => "tls-extension"
  | Ocsp => "ocsp"
  | Embedded => "embedded"
  end.

Definition from_str (s : string) : option ExpectCtSource :=
  match_str s
    [("tls-extension", TlsExtension); ("ocsp", Ocsp); ("embedded", Embedded)].

End ExpectCtSource.
Notation ExpectCtSource := ExpectCtSource.ExpectCtSource.

Module ExpectStapleResponseStatus.

Inductive ExpectStapleResponseStatus :=
| Missing | Provided | ErrorResponse | BadProducedAt | NoMatchingResponse | InvalidDate | ParseResponseError |
ParseResponseDataError.

#[global] Instance ExpectStapleResponseStatus_eq_dec : EqDecision ExpectStapleResponseStatus.
Proof. solve_decision. Defined.

Definition to_string (self : ExpectStapleResponseStatus) : string :=
  match self with
  | Missing => "MISSING"
  | Provided => "PROVIDED"
  | ErrorResponse => "ERROR_RESPONSE"
  | BadProducedAt => "BAD_PRODUCED_AT"
  | NoMatchingResponse => "NO_MATCHING_RESPONSE"
  | InvalidDate => "INVALID_DATE"
  | ParseResponseError => "PARSE_RESPONSE_ERROR"
  | ParseResponseDataError => "PARSE_RESPONSE_DATA_ERROR"
  end.

Definition from_str (s : string) : option ExpectStapleResponseStatus :=
  match_str s
    [("MISSING", Missing); ("PROVIDED", Provided); ("ERROR_RESPONSE", ErrorResponse);
     ("BAD_PRODUCED_AT", BadProducedAt); ("NO_MATCHING_RESPONSE", NoMatchingResponse);
     ("INVALID_DATE", InvalidDate); ("PARSE_RESPONSE_ERROR", ParseResponseError);
     ("PARSE_RESPONSE_DATA_ERROR", ParseResponseDataError)].

End ExpectStapleResponseStatus.
Notation ExpectStapleResponseStatus := ExpectStapleResponseStatus.ExpectStapleResponseStatus.

Module ExpectStapleCertStatus.

Inductive ExpectStapleCertStatus :=
| Good | Revoked | Unknown.

#[global] Instance ExpectStapleCertStatus_eq_dec : EqDecision ExpectStapleCertStatus.
Proof. solve_decision. Defined.

Definition to_string (self : ExpectStapleCertStatus) : string :=
  match self with
  | Good => "GOOD"
  | Revoked => "REVOKED"
  | Unknown => "UNKNOWN"
  end.

Definition from_str (s : string) : option ExpectStapleCertStatus :=
  match_str s
    [("GOOD", Good); ("REVOKED", Revoked); ("UNKNOWN", Unknown)].

End ExpectStapleCertStatus.
Notation ExpectStapleCertStatus := ExpectStapleCertStatus.ExpectStapleCertStatus.

(** Unknown members of a report may be null. *)
Module CspRaw.

Record CspRaw := MkCspRaw {
  effective_directive : option CspDirective;
  blocked_uri : string;
  document_uri : option string;
  original_policy : option string;
  referrer : option string;
  status_code : option Z;
  violated_directive : string;
  source_file : option string;
  line_number : option Z;
  column_number : option Z;
  script_sample : option string;
  disposition : option string;
  other : gmap string (option Value);
}.

End CspRaw.
Notation CspRaw := CspRaw.CspRaw.

Module SingleCertificateTimestampRaw.

Record SingleCertificateTimestampRaw := MkSingleCertificateTimestampRaw {
  version : option Z;
  status : option ExpectCtStatus;
  source : option ExpectCtSource;
  serialized_sct : option string;
}.

End SingleCertificateTimestampRaw.
Notation SingleCertificateTimestampRaw := SingleCertificateTimestampRaw.SingleCertificateTimestampRaw.

Module ExpectCtRaw.

Record ExpectCtRaw := MkExpectCtRaw {
  date_time : option DateTime;
  hostname : string;
  port : option Z;
  scheme : option string;
  effective_expiration_date : option DateTime;
  served_certificate_chain : option (list string);
  validated_certificate_chain : option (list string);
  scts : option (list SingleCertificateTimestampRaw);
  failure_mode : option string;
  test_report : option bool;
}.

End ExpectCtRaw.
Notation ExpectCtRaw := ExpectCtRaw.ExpectCtRaw.

Module HpkpRaw.

Record HpkpRaw := MkHpkpRaw {
  date_time : option DateTime;
  hostname : string;
  port : option Z;
  effective_expiration_date : option DateTime;
  include_subdomains : option bool;
  noted_hostname : option string;
  served_certificate_chain : option (list string);
  validated_certificate_chain : option (list string);
  known_pins : list string;
  other : gmap string (option Value);
}.

End HpkpRaw.
Notation HpkpRaw := HpkpRaw.HpkpRaw.

Module ExpectStapleRaw.

Record ExpectStapleRaw := MkExpectStapleRaw {
  date_time : option DateTime;
  hostname : string;
  port : option Z;
  effective_expiration_date : option DateTime;
  response_status : option ExpectStapleResponseStatus;
  ocsp_response : option Value;
  cert_status : option ExpectStapleCertStatus;
  served_certificate_chain : option (list string);
  validated_certificate_chain : option (list string);
}.

End ExpectStapleRaw.
Notation ExpectStapleRaw := ExpectStapleRaw.ExpectStapleRaw.

Module SecurityReportType.

Inductive SecurityReportType := Csp | ExpectCt | ExpectStaple | Hpkp.

End SecurityReportType.
Notation SecurityReportType := SecurityReportType.SecurityReportType.

(** The members that tell reports apart: whether they are there and not null. *)
Record ReportKeys := MkReportKeys {
  csp_report : bool;
  known_pins_key : bool;
  expect_staple_report : bool;
  expect_ct_report : bool;
}.

(** The url crate: what [normalize_uri] reads of a URL. *)
Record ReportUrl := MkReportUrl { url_scheme : string; host_str : option string; url_port : option Z }.

(** serde_json on the report structures, chrono's format of dates and the url crate. *)
Class ReportEnv := {
  report_url : string -> option ReportUrl;
  date_text : DateTime -> string;
  read_keys : string -> result JsonError ReportKeys;
  read_csp : string -> result JsonError CspRaw;
  read_expect_ct : string -> result JsonError ExpectCtRaw;
  read_hpkp : string -> result JsonError HpkpRaw;
  read_expect_staple : string -> result JsonError ExpectStapleRaw;
}.

(** [SecurityReportType::from_json] *)
Definition report_type_from_json `{ReportEnv} (data : string) : result JsonError (option SecurityReportType) :=
  helper ← read_keys data;
  Ok (if csp_report helper then Some SecurityReportType.Csp
      else if known_pins_key helper then Some SecurityReportType.Hpkp
      else if expect_staple_report helper then Some SecurityReportType.ExpectStaple
      else if expect_ct_report helper then Some SecurityReportType.ExpectCt
      else None).

(** ** URIs *)

Definition is_local (uri : string) : bool := bool_decide (uri ∈ [""; "self"; "'self'"]).

Definition schema_uses_host (schema : string) : bool :=
  bool_decide (schema ∈
    ["ftp"; "http"; "gopher"; "nntp"; "telnet"; "imap"; "wais"; "file"; "mms"; "https"; "shttp"; "snews"; "prospero";
     "rtsp"; "rtspu"; "rsync"; "svn"; "svn+ssh"; "sftp"; "nfs"; "git"; "git+ssh"; "ws"; "wss"]).

Definition unsplit_uri (schema host : string) : string :=
  if negb (bool_decide (host = "")) || schema_uses_host schema then schema +:+ "://" +:+ host
  else if negb (bool_decide (schema = "")) then schema +:+ ":" +:+ host
  else "".

Definition normalize_uri `{ReportEnv} (value : string) : string :=
  if is_local value then "'self'"
  else if negb (str_contains ":" value) then unsplit_uri value ""
  else
    match report_url value with
    | None => value
    | Some url =>
        let host := default "" (host_str url) in
        let normalized := if bool_decide (url_scheme url ∈ ["http"; "https"]) then host else unsplit_uri (url_scheme url) host in
        match url_port url with
        | Some port => normalized +:+ ":" +:+ u64_to_string port
        | None => normalized
        end
    end.

(** ** Content security policies *)

Section Csp.
Context {RE : ReportEnv}.

Definition invalid_security_error : JsonError := MkJsonError "invalid security report".

Definition effective_directive (self : CspRaw) : option CspDirective :=
  match CspRaw.effective_directive self with
  | Some directive => Some directive
  | None => CspDirective.from_str (fst (splitn2 " " (CspRaw.violated_directive self)))
  end.

(** The message for a resource of the document itself. *)
Definition inline_message (self : CspRaw) (effective_directive : CspDirective) : string :=
  match effective_directive with
  | CspDirective.ChildSrc => "Blocked inline 'child'"
  | CspDirective.ConnectSrc => "Blocked inline 'connect'"
  | CspDirective.FontSrc => "Blocked inline 'font'"
  | CspDirective.ImgSrc => "Blocked inline 'image'"
  | CspDirective.ManifestSrc => "Blocked inline 'manifest'"
  | CspDirective.MediaSrc => "Blocked inline 'media'"
  | CspDirective.ObjectSrc => "Blocked inline 'object'"
  | CspDirective.ScriptSrcAttr => "Blocked unsafe 'script' element"
  | CspDirective.ScriptSrcElem => "Blocked inline script attribute"
  | CspDirective.StyleSrc => "Blocked inline 'style'"
  | CspDirective.StyleSrcElem => "Blocked 'style' or 'link' element"
  | CspDirective.StyleSrcAttr => "Blocked style attribute"
  | CspDirective.ScriptSrc =>
      if str_contains "'unsafe-inline'" (CspRaw.violated_directive self) then "Blocked unsafe inline 'script'"
      else if str_contains "'unsafe-eval'" (CspRaw.violated_directive self) then "Blocked unsafe eval() 'script'"
      else "Blocked unsafe (eval() or inline) 'script'"
  | directive => "Blocked inline '" +:+ CspDirective.to_string directive +:+ "'"
  end.

(** ... and for one from [uri]. *)
Definition remote_message (effective_directive : CspDirective) (uri : string) : string :=
  match effective_directive with
  | CspDirective.ChildSrc => "Blocked 'child' from '" +:+ uri +:+ "'"
  | CspDirective.ConnectSrc => "Blocked 'connect' from '" +:+ uri +:+ "'"
  | CspDirective.FontSrc => "Blocked 'font' from '" +:+ uri +:+ "'"
  | CspDirective.FormAction => "Blocked 'form' action to '" +:+ uri +:+ "'"
  | CspDirective.ImgSrc => "Blocked 'image' from '" +:+ uri +:+ "'"
  | CspDirective.ManifestSrc => "Blocked 'manifest' from '" +:+ uri +:+ "'"
  | CspDirective.MediaSrc => "Blocked 'media' from '" +:+ uri +:+ "'"
  | CspDirective.ObjectSrc => "Blocked 'object' from '" +:+ uri +:+ "'"
  | CspDirective.ScriptSrc => "Blocked 'script' from '" +:+ uri +:+ "'"
  | CspDirective.ScriptSrcAttr => "Blocked inline script attribute from '" +:+ uri +:+ "'"
  | CspDirective.ScriptSrcElem => "Blocked 'script' from '" +:+ uri +:+ "'"
  | CspDirective.StyleSrc => "Blocked 'style' from '" +:+ uri +:+ "'"
  | CspDirective.StyleSrcElem => "Blocked 'style' from '" +:+ uri +:+ "'"
  | CspDirective.StyleSrcAttr => "Blocked style attribute from '" +:+ uri +:+ "'"
  | directive => "Blocked '" +:+ CspDirective.to_string directive +:+ "' from '" +:+ uri +:+ "'"
  end.

Definition csp_message (self : CspRaw) (effective_directive : CspDirective) : string :=
  if is_local (CspRaw.blocked_uri self) then inline_message self effective_directive
  else remote_message effective_directive (normalize_uri (CspRaw.blocked_uri self)).

(** Unknown members: [Annotated::from(serde_json::Value)]. *)
Definition report_other (other : gmap string (option Value)) : gmap string (Annotated Value) :=
  (fun v => MkAnnotated v Meta.empty) <$> other.

Definition csp_into_protocol (self : CspRaw) (effective_directive : CspDirective) : Csp :=
  Csp.MkCsp (Annotated.new (CspDirective.to_string effective_directive)) (Annotated.new (CspRaw.blocked_uri self))
    (annotated_from (CspRaw.document_uri self)) (annotated_from (CspRaw.original_policy self))
    (annotated_from (CspRaw.referrer self)) (annotated_from (CspRaw.status_code self))
    (Annotated.new (CspRaw.violated_directive self)) (annotated_from (CspRaw.source_file self))
    (annotated_from (CspRaw.line_number self)) (annotated_from (CspRaw.column_number self))
    (annotated_from (CspRaw.script_sample self)) (annotated_from (CspRaw.disposition self))
    (report_other (CspRaw.other self)).

(** [find(&['#', '?'])] and [truncate] *)
Fixpoint truncate_query (uri : string) : string :=
  match uri with
  | "" => ""
  | String a uri => if bool_decide (a ∈ ["#"; "?"]%char) then "" else String a (truncate_query uri)
  end.

Definition sanitized_blocked_uri (self : CspRaw) : string :=
  let uri := CspRaw.blocked_uri self in
  if starts_with "https://api.stripe.com/" uri then truncate_query uri else uri.

Definition has_scheme (value : string) : bool :=
  existsb (fun p => starts_with p value) ["data:"; "mediastream:"; "blob:"; "filesystem:"; "http:"; "https:"; "file:"].

Definition normalize_value (self : CspRaw) (value document_uri : string) : string :=
  if bool_decide (value ∈ ["'none'"; "'self'"; "'unsafe-inline'"; "'unsafe-eval'"]) then value
  else if has_scheme value then
    if bool_decide (document_uri = normalize_uri value) then "'self'" else value
  else if bool_decide (value = document_uri) then "'self'"
  else
    let original_uri := default "" (CspRaw.document_uri self) in
    let scheme := fst (splitn2 ":" original_uri) in
    if bool_decide (scheme ∈ ["http"; "https"]) then value else unsplit_uri scheme value.

(** [split_ascii_whitespace] *)
Definition is_ascii_whitespace (a : ascii) : bool := bool_decide (a ∈ [" "; "009"; "010"; "012"; "013"]%char).
Fixpoint split_whitespace (s : string) (word : string) : list string :=
  match s with
  | "" => if bool_decide (word = "") then [] else [word]
  | String a s =>
      if is_ascii_whitespace a
      then (if bool_decide (word = "") then [] else [word]) ++ split_whitespace s ""
      else split_whitespace s (word +:+ String a "")
  end.

Definition csp_culprit (self : CspRaw) : string :=
  if bool_decide (CspRaw.violated_directive self = "") then ""
  else
    let normalized_uri := normalize_uri (default "" (CspRaw.document_uri self)) in
    match split_whitespace (CspRaw.violated_directive self) "" with
    | [] => ""
    | first :: bits => foldl (fun culprit bit => culprit +:+ " " +:+ normalize_value self bit normalized_uri) first bits
    end.

(** A tag entry. *)
Definition tag_entry (key value : string) : Annotated (Annotated string * Annotated string) :=
  Annotated.new (Annotated.new key, Annotated.new value).

Definition csp_tags (self : CspRaw) (effective_directive : CspDirective) : PairList string string :=
  [tag_entry "effective-directive" (CspDirective.to_string effective_directive);
   tag_entry "blocked-uri" (sanitized_blocked_uri self)].

(** [Request { url, headers, ..Request::default() }] *)
Definition report_request (url : Annotated string) (headers : Annotated (PairList string string)) : Request :=
  MkRequest url Annotated.empty Annotated.empty Annotated.empty Annotated.empty Annotated.empty headers Annotated.empty
    Annotated.empty ∅.

Definition csp_request (self : CspRaw) : Request :=
  let headers :=
    match CspRaw.referrer self with
    | Some referrer => if bool_decide (referrer = "") then Annotated.empty else Annotated.new [tag_entry "Referer" referrer]
    | None => Annotated.empty
    end in
  report_request (annotated_from (CspRaw.document_uri self)) headers.

(** [LogEntry::from] *)
Definition report_logentry (formatted : string) : LogEntry :=
  MkLogEntry Annotated.empty (Annotated.new formatted) Annotated.empty ∅.

Definition csp_apply_to_event (data : string) (event : Event) : result JsonError Event :=
  raw_csp ← read_csp data;
  match effective_directive raw_csp with
  | None => Err invalid_security_error
  | Some effective_directive =>
      let event := set_logentry event (Annotated.new (report_logentry (csp_message raw_csp effective_directive))) in
      let event := set_event_culprit event (Annotated.new (csp_culprit raw_csp)) in
      let event := set_tags event (Annotated.new (csp_tags raw_csp effective_directive)) in
      let event := set_request event (Annotated.new (csp_request raw_csp)) in
      Ok (set_csp event (Annotated.new (csp_into_protocol raw_csp effective_directive)))
  end.

End Csp.

(** ** Certificates *)

Section Certificates.
Context {RE : ReportEnv}.

Definition annotated_chain (chain : list string) : list (Annotated string) := Annotated.new <$> chain.
Definition annotated_date (date : option DateTime) : Annotated string := annotated_from (date_text <$> date).

Definition port_tag {T} (to_string : T -> string) (port : option T) : PairList string string :=
  match port with Some port => [tag_entry "port" (to_string port)] | None => [] end.

Definition sct_into_protocol (self : SingleCertificateTimestampRaw) : SingleCertificateTimestamp :=
  SingleCertificateTimestamp.MkSingleCertificateTimestamp
    (annotated_from (SingleCertificateTimestampRaw.version self))
    (annotated_from (ExpectCtStatus.to_string <$> SingleCertificateTimestampRaw.status self))
    (annotated_from (ExpectCtSource.to_string <$> SingleCertificateTimestampRaw.source self))
    (annotated_from (SingleCertificateTimestampRaw.serialized_sct self)).

Definition expect_ct_message (self : ExpectCtRaw) : string := "Expect-CT failed for '" +:+ ExpectCtRaw.hostname self +:+ "'".

Definition expect_ct_into_protocol (self : ExpectCtRaw) : ExpectCt :=
  ExpectCt.MkExpectCt (annotated_date (ExpectCtRaw.date_time self)) (Annotated.new (ExpectCtRaw.hostname self))
    (annotated_from (ExpectCtRaw.port self)) (annotated_from (ExpectCtRaw.scheme self))
    (annotated_date (ExpectCtRaw.effective_expiration_date self))
    (Annotated.new (default [] (annotated_chain <$> ExpectCtRaw.served_certificate_chain self)))
    (Annotated.new (default [] (annotated_chain <$> ExpectCtRaw.validated_certificate_chain self)))
    (annotated_from ((fun scts : list SingleCertificateTimestampRaw => (fun elm => Annotated.new (sct_into_protocol elm)) <$> scts) <$> ExpectCtRaw.scts self))
    (annotated_from (ExpectCtRaw.failure_mode self)) (annotated_from (ExpectCtRaw.test_report self)).

Definition expect_ct_tags (self : ExpectCtRaw) : PairList string string :=
  tag_entry "hostname" (ExpectCtRaw.hostname self) :: port_tag i64_to_string (ExpectCtRaw.port self).

Definition expect_ct_apply_to_event (data : string) (event : Event) : result JsonError Event :=
  raw ← read_expect_ct data;
  let event := set_logentry event (Annotated.new (report_logentry (expect_ct_message raw))) in
  let event := set_event_culprit event (Annotated.new (ExpectCtRaw.hostname raw)) in
  let event := set_tags event (Annotated.new (expect_ct_tags raw)) in
  let event := set_request event (Annotated.new (report_request (Annotated.new (ExpectCtRaw.hostname raw)) Annotated.empty)) in
  Ok (set_expectct event (Annotated.new (expect_ct_into_protocol raw))).

Definition hpkp_message (self : HpkpRaw) : string :=
  "Public key pinning validation failed for '" +:+ HpkpRaw.hostname self +:+ "'".

Definition hpkp_into_protocol (self : HpkpRaw) : Hpkp :=
  Hpkp.MkHpkp (annotated_date (HpkpRaw.date_time self)) (Annotated.new (HpkpRaw.hostname self))
    (annotated_from (HpkpRaw.port self)) (annotated_date (HpkpRaw.effective_expiration_date self))
    (annotated_from (HpkpRaw.include_subdomains self)) (annotated_from (HpkpRaw.noted_hostname self))
    (annotated_from (annotated_chain <$> HpkpRaw.served_certificate_chain self))
    (annotated_from (annotated_chain <$> HpkpRaw.validated_certificate_chain self))
    (Annotated.new (annotated_chain (HpkpRaw.known_pins self))) (report_other (HpkpRaw.other self)).

Definition bool_text (b : bool) : string := if b then "true" else "false".

Definition hpkp_tags (self : HpkpRaw) : PairList string string :=
  tag_entry "hostname" (HpkpRaw.hostname self) :: port_tag u64_to_string (HpkpRaw.port self)
  ++ match HpkpRaw.include_subdomains self with Some b => [tag_entry "include-subdomains" (bool_text b)] | None => [] end.

(** The culprit is not set. *)
Definition hpkp_apply_to_event (data : string) (event : Event) : result JsonError Event :=
  raw ← read_hpkp data;
  let event := set_logentry event (Annotated.new (report_logentry (hpkp_message raw))) in
  let event := set_tags event (Annotated.new (hpkp_tags raw)) in
  let event := set_request event (Annotated.new (report_request (Annotated.new (HpkpRaw.hostname raw)) Annotated.empty)) in
  Ok (set_hpkp event (Annotated.new (hpkp_into_protocol raw))).

Definition expect_staple_message (self : ExpectStapleRaw) : string :=
  "Expect-Staple failed for '" +:+ ExpectStapleRaw.hostname self +:+ "'".

Definition expect_staple_into_protocol (self : ExpectStapleRaw) : ExpectStaple :=
  ExpectStaple.MkExpectStaple (annotated_date (ExpectStapleRaw.date_time self)) (Annotated.new (ExpectStapleRaw.hostname self))
    (annotated_from (ExpectStapleRaw.port self)) (annotated_date (ExpectStapleRaw.effective_expiration_date self))
    (annotated_from (ExpectStapleResponseStatus.to_string <$> ExpectStapleRaw.response_status self))
    (annotated_from (ExpectStapleCertStatus.to_string <$> ExpectStapleRaw.cert_status self))
    (annotated_from (annotated_chain <$> ExpectStapleRaw.served_certificate_chain self))
    (annotated_from (annotated_chain <$> ExpectStapleRaw.validated_certificate_chain self))
    (annotated_from (ExpectStapleRaw.ocsp_response self)).

Definition expect_staple_tags (self : ExpectStapleRaw) : PairList string string :=
  tag_entry "hostname" (ExpectStapleRaw.hostname self) :: port_tag i64_to_string (ExpectStapleRaw.port self)
  ++ match ExpectStapleRaw.response_status self with
     | Some s => [tag_entry "response_status" (ExpectStapleResponseStatus.to_string s)] | None => [] end
  ++ match ExpectStapleRaw.cert_status self with
     | Some s => [tag_entry "cert_status" (ExpectStapleCertStatus.to_string s)] | None => [] end.

Definition expect_staple_apply_to_event (data : string) (event : Event) : result JsonError Event :=
  raw ← read_expect_staple data;
  let event := set_logentry event (Annotated.new (report_logentry (expect_staple_message raw))) in
  let event := set_event_culprit event (Annotated.new (ExpectStapleRaw.hostname raw)) in
  let event := set_tags event (Annotated.new (expect_staple_tags raw)) in
  let event := set_request event (Annotated.new (report_request (Annotated.new (ExpectStapleRaw.hostname raw)) Annotated.empty)) in
  Ok (set_expectstaple event (Annotated.new (expect_staple_into_protocol raw))).

(** The match on the type of a report (actors/envelopes.rs). *)
Definition apply_report (report_type : SecurityReportType) : string -> Event -> result JsonError Event :=
  match report_type with
  | SecurityReportType.Csp => csp_apply_to_event
  | SecurityReportType.ExpectCt => expect_ct_apply_to_event
  | SecurityReportType.ExpectStaple => expect_staple_apply_to_event
  | SecurityReportType.Hpkp => hpkp_apply_to_event
  end.

Definition event_type_of (report_type : SecurityReportType) : EventType :=
  match report_type with
  | SecurityReportType.Csp => EventType.Csp
  | SecurityReportType.ExpectCt => EventType.ExpectCt
  | SecurityReportType.ExpectStaple => EventType.ExpectStaple
  | SecurityReportType.Hpkp => EventType.Hpkp
  end.

End Certificates.

(** ** Correctness *)

(** Names round trip, and nothing else is a name. *)
Lemma directive_roundtrip d : CspDirective.from_str (CspDirective.to_string d) = Some d.
Proof. by destruct d. Qed.

Lemma directive_from_str s d : CspDirective.from_str s = Some d -> CspDirective.to_string d = s.
Proof.
  unfold CspDirective.from_str. cbn [match_str]. intros H.
  repeat (case_bool_decide; [subst; by injection H as <-|]). done.
Qed.

(** The parts of an event that a report replaces. *)
Definition without_report (e : Event) : Event :=
  set_expectstaple (set_expectct (set_hpkp (set_csp (set_request (set_tags (set_event_culprit (set_logentry e
    Annotated.empty) Annotated.empty) Annotated.empty) Annotated.empty) Annotated.empty) Annotated.empty)
    Annotated.empty) Annotated.empty.

(** The interface of each type. *)
Definition has_interface (t : SecurityReportType) (e : Event) : Prop :=
  match t with
  | SecurityReportType.Csp => is_Some (Annotated.value (csp e))
  | SecurityReportType.ExpectCt => is_Some (Annotated.value (expectct e))
  | SecurityReportType.ExpectStaple => is_Some (Annotated.value (expectstaple e))
  | SecurityReportType.Hpkp => is_Some (Annotated.value (hpkp e))
  end.

Section Reports.
Context {RE : ReportEnv}.

Lemma truncate_query_clean uri :
  contains_char "?" (truncate_query uri) = false /\ contains_char "#" (truncate_query uri) = false.
Proof.
  induction uri as [|a uri [IH1 IH2]]; [done|]. cbn [truncate_query]. case_bool_decide as H; [done|].
  change (String a (truncate_query uri)) with (String a "" +:+ truncate_query uri).
  rewrite !contains_char_app, IH1, IH2, !orb_false_r. unfold contains_char. cbn.
  split; case_bool_decide; subst; set_solver.
Qed.

(** The tags of a report have distinct keys that normalization accepts. *)
Definition good_tags (l : PairList string string) : Prop :=
  NoDup (omap tag_key l) /\ Forall good_key (omap tag_key l).

Lemma good_tags_fixed (keys : list string) (l : PairList string string) :
  omap tag_key l `sublist_of` keys -> bool_decide (NoDup keys) = true ->
  forallb (fun k => negb (bool_decide (k = "")) && bool_decide (char_count k <= 32) && negb (is_internal (Some k))) keys = true ->
  good_tags l.
Proof.
  intros Hs Hnd%bool_decide_eq_true Hall. split; [by eapply sublist_NoDup|].
  rewrite forallb_forall in Hall. apply Forall_forall. intros k Hk. apply (sublist_subseteq _ _ Hs), list_elem_of_In in Hk.
  specialize (Hall k Hk). rewrite !andb_true_iff, !negb_true_iff, !bool_decide_eq_true, bool_decide_eq_false in Hall.
  destruct Hall as [ [? ?] ?]. by split_and!.
Qed.

Lemma csp_tags_good raw d : good_tags (csp_tags raw d).
Proof. by apply (good_tags_fixed ["effective-directive"; "blocked-uri"]). Qed.

Lemma expect_ct_tags_good raw : good_tags (expect_ct_tags raw).
Proof.
  apply (good_tags_fixed ["hostname"; "port"]); [|done..]. unfold expect_ct_tags, port_tag.
  destruct (ExpectCtRaw.port raw); cbn; repeat constructor.
Qed.

Lemma hpkp_tags_good raw : good_tags (hpkp_tags raw).
Proof.
  apply (good_tags_fixed ["hostname"; "port"; "include-subdomains"]); [|done..]. unfold hpkp_tags, port_tag.
  destruct (HpkpRaw.port raw), (HpkpRaw.include_subdomains raw); cbn; repeat constructor.
Qed.

Lemma expect_staple_tags_good raw : good_tags (expect_staple_tags raw).
Proof.
  apply (good_tags_fixed ["hostname"; "port"; "response_status"; "cert_status"]); [|done..].
  unfold expect_staple_tags, port_tag.
  destruct (ExpectStapleRaw.port raw), (ExpectStapleRaw.response_status raw), (ExpectStapleRaw.cert_status raw); cbn;
    repeat constructor.
Qed.

Lemma csp_message_some raw d : csp_message raw d <> "".
Proof.
  unfold csp_message, inline_message, remote_message. destruct (is_local _); destruct d; try done.
  cbn. repeat case_match; done.
Qed.

(** What an event has after a report was applied. *)
Definition reported (t : SecurityReportType) (event e' : Event) : Prop :=
  without_report e' = without_report event /\ has_interface t e'
  /\ (exists m, logentry e' = Annotated.new (report_logentry m) /\ m <> "")
  /\ (exists l, tags e' = Annotated.new l /\ good_tags l).

Lemma apply_report_ok t data event e' : apply_report t data event = Ok e' -> reported t event e'.
Proof.
  destruct t; cbn [apply_report].
  - unfold csp_apply_to_event. intros (raw & _ & H)%result_bind_Ok. destruct (effective_directive raw) as [d|]; [|done].
    injection H as <-. split_and!; [done|by eexists|eexists; split; [done|apply csp_message_some]|].
    eexists. split; [done|apply csp_tags_good].
  - intros (raw & _ & [= <-])%result_bind_Ok. split_and!; [done|by eexists|by eexists|].
    eexists. split; [done|apply expect_ct_tags_good].
  - intros (raw & _ & [= <-])%result_bind_Ok. split_and!; [done|by eexists|by eexists|].
    eexists. split; [done|apply expect_staple_tags_good].
  - intros (raw & _ & [= <-])%result_bind_Ok. split_and!; [done|by eexists|by eexists|].
    eexists. split; [done|apply hpkp_tags_good].
Qed.

(** Whether the payload has what a report of the type needs. *)
Definition readable (t : SecurityReportType) (data : string) : Prop :=
  match t with
  | SecurityReportType.Csp => exists raw, read_csp data = Ok raw /\ is_Some (effective_directive raw)
  | SecurityReportType.ExpectCt => exists raw, read_expect_ct data = Ok raw
  | SecurityReportType.ExpectStaple => exists raw, read_expect_staple data = Ok raw
  | SecurityReportType.Hpkp => exists raw, read_hpkp data = Ok raw
  end.

Lemma apply_report_readable t data event : readable t data <-> exists e', apply_report t data event = Ok e'.
Proof.
  destruct t; cbn [readable apply_report].
  - unfold csp_apply_to_event. split.
    + intros (raw & -> & [d Hd]). cbn. rewrite Hd. by eexists.
    + intros (e' & (raw & Hr & H)%result_bind_Ok). exists raw. split; [done|]. by destruct (effective_directive raw).
  - split; [intros [raw Hr]; unfold expect_ct_apply_to_event; rewrite Hr; by eexists|].
    intros (e' & (raw & Hr & _)%result_bind_Ok). by exists raw.
  - split; [intros [raw Hr]; unfold expect_staple_apply_to_event; rewrite Hr; by eexists|].
    intros (e' & (raw & Hr & _)%result_bind_Ok). by exists raw.
  - split; [intros [raw Hr]; unfold hpkp_apply_to_event; rewrite Hr; by eexists|].
    intros (e' & (raw & Hr & _)%result_bind_Ok). by exists raw.
Qed.

(** The tag with the blocked URI leaks no query of the payment provider. *)
Lemma stripe_query_removed raw :
  starts_with "https://api.stripe.com/" (CspRaw.blocked_uri raw) = true ->
  contains_char "?" (sanitized_blocked_uri raw) = false /\ contains_char "#" (sanitized_blocked_uri raw) = false.
Proof. intros H. unfold sanitized_blocked_uri. rewrite H. apply truncate_query_clean. Qed.

Lemma apply_report_type t data e' :
  apply_report t data empty_event = Ok e' -> infer_event_type e' = event_type_of t /\ is_security_report e' = true.
Proof.
  destruct t; cbn [apply_report].
  - unfold csp_apply_to_event. intros (raw & _ & H)%result_bind_Ok. destruct (effective_directive raw) as [d|]; [|done].
    by injection H as <-.
  - by intros (raw & _ & [= <-])%result_bind_Ok.
  - by intros (raw & _ & [= <-])%result_bind_Ok.
  - by intros (raw & _ & [= <-])%result_bind_Ok.
Qed.

(** A security report that has what its type needs becomes an event: it gets the interface of the
    type, a message that is not empty and tags with distinct keys that normalization
    keeps, and nothing else of the event changes.  Normalization then infers the very
    type that the report was sent as.  Reports without it, among them policy violations
    whose directive is unknown, are rejected. *)
Theorem security_report_applied t data :
  (readable t data <-> exists e', apply_report t data empty_event = Ok e')
  /\ forall e', apply_report t data empty_event = Ok e' ->
     reported t empty_event e' /\ infer_event_type e' = event_type_of t /\ is_security_report e' = true.
Proof.
  split; [apply apply_report_readable|]. intros e' H. split; [by eapply apply_report_ok|by eapply apply_report_type].
Qed.

End Reports.

(** ** An instance *)

Definition sample_csp (directive : option CspDirective) (blocked violated : string) : CspRaw :=
  CspRaw.MkCspRaw directive blocked (Some "https://example.com/page") None None None violated None None None None None ∅.

(** A reader that knows three policy violations. *)
Definition sample_reports : ReportEnv := {|
  report_url := fun s => if starts_with "https://example.com" s then Some (MkReportUrl "https" (Some "example.com") None) else None;
  date_text := fun _ => "";
  read_keys := fun _ => Ok (MkReportKeys true false false false);
  read_csp := fun s =>
    let found := match_str s [("inline", sample_csp (Some CspDirective.ScriptSrcElem) "self" "script-src-elem");
                 ("firefox", sample_csp None "https://evil.com/?q" "img-src https://example.com 'self'");
                 ("unknown", sample_csp None "" "made-up")] in
    match found with Some r => Ok r | None => Err (MkJsonError "expected value") end;
  read_expect_ct := fun _ => Err (MkJsonError "expected value");
  read_hpkp := fun _ => Err (MkJsonError "expected value");
  read_expect_staple := fun _ => Err (MkJsonError "expected value");
|}.
#[local] Existing Instance sample_reports.

Lemma security_report_applied_witness :
  exists e', apply_report SecurityReportType.Csp "firefox" empty_event = Ok e'
    /\ infer_event_type e' = EventType.Csp /\ event_culprit e' = Annotated.new "img-src 'self' 'self'".
Proof.
  destruct (security_report_applied SecurityReportType.Csp "firefox") as [ [Hr _] Hok].
  destruct Hr as [e' He']; [eexists; split; [reflexivity|by eexists]|].
  exists e'. split; [exact He'|]. destruct (Hok e' He') as (_ & Hty & _). split; [exact Hty|].
  vm_compute in He'. by injection He' as <-.
Defined.

(** A policy violation with an unknown directive is no report. *)
Example unknown_directive_rejected : apply_report SecurityReportType.Csp "unknown" empty_event = Err invalid_security_error.
Proof. reflexivity. Qed.

(** The messages for inline script elements and inline script attributes are exchanged, unlike those
    for scripts from elsewhere. *)
Example script_messages_swapped :
  csp_message (sample_csp (Some CspDirective.ScriptSrcElem) "self" "") CspDirective.ScriptSrcElem = "Blocked inline script attribute"
  /\ csp_message (sample_csp (Some CspDirective.ScriptSrcAttr) "self" "") CspDirective.ScriptSrcAttr = "Blocked unsafe 'script' element"
  /\ csp_message (sample_csp (Some CspDirective.ScriptSrcAttr) "data:x" "") CspDirective.ScriptSrcAttr
     = "Blocked inline script attribute from 'data:x'".
Proof. by vm_compute. Qed.
