(* ===== verification/Trimming.v ===== *)
(** * relay-general: trimming (store/trimming.rs)

    [TrimmingProcessor] cuts strings to their maximum number of characters, databags to
    a depth and an estimated size, and stack traces to a number of frames.  Its state is a
    stack with an entry for every databag around the visited value. *)

From Stdlib Require Import Ascii String.
From S2P Require Import Prelude Strings Floats Common Protocol Transactions Attrs Size Processor Types Chunks.

Open Scope string_scope.
Open Scope Z_scope.
Open Scope list_scope.

Definition saturating_sub (a b : Z) : Z := Z.max 0 (a - b).

Definition list_min (l : list Z) : option Z :=
  match l with [] => None | x :: l => Some (foldr Z.min x l) end.

Section Strings.

(** [bytecount::num_chars]. *)
Context (num_chars : string -> Z).

(** [Chunk::count]. *)
Definition count (chunk : Chunk) : Z := num_chars (as_str chunk).

Definition ellipsis : Chunk := Redaction "..." "!limit" RemarkType.Substituted.

(** The loop over the characters of a text chunk that does not fit. *)
Fixpoint take_chars (cs : list string) (length soft_limit : Z) : string :=
  match cs with
  | [] => ""
  | c :: cs => if bool_decide (length + 3 < soft_limit) then c +:+ take_chars cs (length + 1) soft_limit else ""
  end.

(** The loop over the chunks, up to the first that does not fit entirely. *)
Fixpoint trim_chunks (chunks : list Chunk) (length soft_limit hard_limit : Z) : list Chunk :=
  match chunks with
  | [] => []
  | chunk :: chunks =>
      let chunk_chars := count chunk in
      if bool_decide (length + chunk_chars < soft_limit) then
        chunk :: trim_chunks chunks (length + chunk_chars) soft_limit hard_limit
      else
        match chunk with
        | Redaction _ _ _ => if bool_decide (length + chunk_chars + 3 < hard_limit) then [chunk] else []
        | Text text => [Text (take_chars (chars text) length soft_limit)]
        end ++ [ellipsis]
  end.

Definition trim_string (value : string) (meta : Meta) (max_chars : MaxChars) : string * Meta :=
  let soft_limit := MaxChars.limit max_chars in
  let hard_limit := soft_limit + MaxChars.allowance max_chars in
  if bool_decide (num_chars value <= hard_limit) then (value, meta)
  else process_chunked_value num_chars value meta (fun chunks => trim_chunks chunks 0 soft_limit hard_limit).

End Strings.

(** ** Databags *)

Record BagSizeState := MkBagSizeState {
  bag_size : BagSize;
  encountered_at_depth : nat;
  size_remaining : Z;
}.

(** [bag_size_state], its last entry first. *)
Definition TrimmingProcessor : Type := list BagSizeState.

Definition remaining_bag_depth (self : TrimmingProcessor) (state : ProcessingState) : option Z :=
  list_min ((fun b =>
    let databag_depth := u64_sub (Z.of_nat (ProcessingState.depth state)) (Z.of_nat (encountered_at_depth b)) in
    saturating_sub (BagSize.max_depth (bag_size b)) databag_depth) <$> self).

Definition remaining_bag_size (self : TrimmingProcessor) : option Z := list_min (size_remaining <$> self).

Definition should_remove_container (self : TrimmingProcessor) (is_empty : bool) (state : ProcessingState) : bool :=
  bool_decide (remaining_bag_depth self state = Some 1) && negb is_empty.

Section Trim.
Context (f64_to_string : f64 -> string) (num_chars : string -> Z).
(** [serde_json::to_string], [None] for an error. *)
Context (to_json : Value -> option string).

Definition trim_before (self : TrimmingProcessor) (value : option Value) (meta : Meta) (state : ProcessingState)
  : outcome (TrimmingProcessor * Meta * ProcessingResult) :=
  let self :=
    match FieldAttrs.bag_size (ProcessingState.attrs state) with
    | Some b => MkBagSizeState b (ProcessingState.depth state) (BagSize.max_size b) :: self
    | None => self
    end in
  if bool_decide (remaining_bag_size self = Some 0) then Ret (self, meta, Err ProcessingAction.DeleteValueHard)
  else if bool_decide (remaining_bag_depth self state = Some 0) then
    Ret (self, meta, Err ProcessingAction.DeleteValueHard)
  else Ret (self, meta, Ok ()).

Definition spend (item_length : Z) (b : BagSizeState) : BagSizeState :=
  MkBagSizeState (bag_size b) (encountered_at_depth b) (saturating_sub (size_remaining b) item_length).

Definition trim_after (self : TrimmingProcessor) (value : option Value) (meta : Meta) (state : ProcessingState)
  : outcome (TrimmingProcessor * Meta * ProcessingResult) :=
  let self :=
    match self with
    | b :: rest => if bool_decide (ProcessingState.depth state = encountered_at_depth b) then rest else self
    | [] => []
    end in
  let self :=
    if ProcessingState.entered_anything state
    then spend (estimate_size_flat f64_to_string value + 1) <$> self else self in
  Ret (self, meta, Ok ()).

Definition trim_process_string (self : TrimmingProcessor) (value : string) (meta : Meta) (state : ProcessingState)
  : visit TrimmingProcessor string :=
  let '(value, meta) :=
    match FieldAttrs.max_chars (ProcessingState.attrs state) with
    | Some max_chars => trim_string num_chars value meta max_chars
    | None => (value, meta)
    end in
  let '(value, meta) :=
    match self with
    | b :: _ => trim_string num_chars value meta (MaxChars.Hard (size_remaining b))
    | [] => (value, meta)
    end in
  Ret (self, value, meta, Ok ()).

(** The loop over the members with their path segments: the members up to the one
    where the size is used up, the others are split off. *)
Fixpoint trim_members {K} (walk : walker TrimmingProcessor) (enter : K -> list ValueType -> ProcessingState)
    (self : TrimmingProcessor) (items : list (K * Annotated Value))
  : outcome (TrimmingProcessor * list (K * Annotated Value) * ProcessingResult) :=
  match items with
  | [] => Ret (self, [], Ok ())
  | (key, item) :: items =>
      remaining ← unwrap (remaining_bag_size self);
      if bool_decide (remaining = 0) then Ret (self, [], Ok ()) else
      '(self, item, r) ← walk self item (enter key (for_field item));
      match r with
      | Err e => Ret (self, (key, item) :: items, Err e)
      | Ok _ => '(self, items, r) ← trim_members walk enter self items; Ret (self, (key, item) :: items, r)
      end
  end.

(** The length before trimming is noted when members were dropped. *)
Definition note_length (before after : nat) (meta : Meta) : Meta :=
  if bool_decide (after <> before) then Meta.set_original_length meta (Some (Z.of_nat before)) else meta.

Definition trim_process_array (walk : walker TrimmingProcessor) (self : TrimmingProcessor)
    (value : list (Annotated Value)) (meta : Meta) (state : ProcessingState)
  : visit TrimmingProcessor (list (Annotated Value)) :=
  match self with
  | [] => default_array walk self value meta state
  | _ :: _ =>
      if should_remove_container self (bool_decide (length value = 0%nat)) state then
        Ret (self, value, meta, Err ProcessingAction.DeleteValueHard)
      else
        '(self, items, r) ←
           trim_members walk (fun index => ProcessingState.enter_index state index None) self (enumerate value);
        let items := members_of items in
        match r with
        | Err e => Ret (self, items, meta, Err e)
        | Ok _ => Ret (self, items, note_length (length value) (length items) meta, Ok ())
        end
  end.

Definition trim_process_object (walk : walker TrimmingProcessor) (self : TrimmingProcessor)
    (value : list (string * Annotated Value)) (meta : Meta) (state : ProcessingState)
  : visit TrimmingProcessor (list (string * Annotated Value)) :=
  match self with
  | [] => default_object walk self value meta state
  | _ :: _ =>
      if should_remove_container self (bool_decide (length value = 0%nat)) state then
        Ret (self, value, meta, Err ProcessingAction.DeleteValueHard)
      else
        '(self, items, r) ←
           trim_members walk (fun key => ProcessingState.enter_borrowed state key None) self value;
        match r with
        | Err e => Ret (self, items, meta, Err e)
        | Ok _ => Ret (self, items, note_length (length value) (length items) meta, Ok ())
        end
  end.

(** At the last level a container becomes its JSON text. *)
Definition trim_process_value (self : TrimmingProcessor) (value : Value) (meta : Meta) (state : ProcessingState)
  : visit TrimmingProcessor Value :=
  let value :=
    match value with
    | Array _ | Object _ =>
        if bool_decide (remaining_bag_depth self state = Some 1) then
          match to_json value with Some x => String_ x | None => value end
        else value
    | _ => value
    end in
  Ret (self, value, meta, Ok ()).

#[global] Instance trimming : Processor TrimmingProcessor := {|
  before_process := trim_before;
  after_process := trim_after;
  process_string := trim_process_string;
  process_array := trim_process_array;
  process_object := trim_process_object;
  process_value := trim_process_value;
|}.

End Trim.

(** ** Stack traces *)

(** The fields of a frame that trimming reads or clears; [other] holds the others. *)
Record TrimFrame := MkTrimFrame {
  in_app : Annotated bool;
  vars : Annotated Value;
  pre_context : Annotated Value;
  post_context : Annotated Value;
  other : string;
}.

Definition enforce_frame_hard_limit (frames : list (Annotated TrimFrame)) (meta : Meta) (limit : nat)
  : list (Annotated TrimFrame) * Meta :=
  let original_length := length frames in
  if bool_decide (limit <= original_length)%nat then
    let meta := Meta.set_original_length meta (Some (Z.of_nat original_length)) in
    let last_frame := last frames in
    (* [limit - 1] wraps around for a limit of 0 *)
    let kept := match limit with O => original_length | S n => n end in
    let frames := take kept (take (original_length - 1) frames) in
    (frames ++ match last_frame with Some f => [f] | None => [] end, meta)
  else (frames, meta).

(** [get(from..to)] on a slice: [None] unless [from <= to <= len]. *)
Definition slice_get {A} (l : list A) (from to : Z) : option (list A) :=
  if bool_decide (from <= to) && bool_decide (to <= Z.of_nat (length l))
  then Some (take (Z.to_nat (to - from)) (drop (Z.to_nat from) l)) else None.

(** The part of the indices that is not among the first or last [half]. *)
Definition middle (indices : list nat) (half : Z) : list nat :=
  default [] (slice_get indices half (u64_sub (Z.of_nat (length indices)) half)).

Definition clear_frame (frame : Annotated TrimFrame) : Annotated TrimFrame :=
  Annotated.map_value frame (fun f => MkTrimFrame (in_app f) Annotated.empty Annotated.empty Annotated.empty (other f)).

Definition is_app_frame (frame : Annotated TrimFrame) : option bool :=
  (fun f => bool_decide (Annotated.value (in_app f) = Some true)) <$> Annotated.value frame.

(** The indices, in order, of the frames that satisfy a test. *)
Definition positions_where (p : Annotated TrimFrame -> bool) (frames : list (Annotated TrimFrame)) : list nat :=
  fst <$> filter (fun q => p q.2 = true) (imap pair frames).

Definition frame_indices (app : bool) : list (Annotated TrimFrame) -> list nat :=
  positions_where (fun frame => bool_decide (is_app_frame frame = Some app)).

Definition clear_frames (frames : list (Annotated TrimFrame)) (indices : list nat) : list (Annotated TrimFrame) :=
  foldl (fun frames i => alter clear_frame i frames) frames indices.

Definition slim_frame_data (frames : list (Annotated TrimFrame)) (frame_allowance : Z) : list (Annotated TrimFrame) :=
  let frames_len := Z.of_nat (length frames) in
  if bool_decide (frames_len <= frame_allowance) then frames else
  let app_frame_indices := frame_indices true frames in
  let system_frame_indices := frame_indices false frames in
  let app_count := Z.of_nat (length app_frame_indices) in
  let system_allowance_half := saturating_sub frame_allowance app_count / 2 in
  let system_frames_to_remove := middle system_frame_indices system_allowance_half in
  let remaining :=
    saturating_sub (saturating_sub frames_len frame_allowance) (Z.of_nat (length system_frames_to_remove)) in
  let app_allowance_half := saturating_sub app_count remaining / 2 in
  let app_frames_to_remove := middle app_frame_indices app_allowance_half in
  clear_frames frames (system_frames_to_remove ++ app_frames_to_remove).

(** ** Trimmed strings *)

Lemma take_chars_count cs length soft_limit :
  Forall (fun c => char_count c <= 1) cs ->
  char_count (take_chars cs length soft_limit) <= Z.max 0 (soft_limit - 3 - length).
Proof.
  intros H. revert length. induction H as [|c cs Hc _ IH]; intros length; simpl; [lia|].
  case_bool_decide; simpl; [|lia]. rewrite char_count_app. specialize (IH (length + 1)). lia.
Qed.

Section StringBounds.
Context (num_chars : string -> Z) (num_chars_spec : forall s, num_chars s = char_count s).

Lemma text_chunk_count text length soft_limit :
  char_count (texts ([Text (take_chars (chars text) length soft_limit)] ++ [ellipsis])) <=
  Z.max 0 (soft_limit - 3 - length) + 3.
Proof.
  simpl. rewrite !char_count_app. pose proof (take_chars_count (chars text) length soft_limit (chars_count text)).
  simpl. lia.
Qed.

(** Whole chunks fit below the soft limit; what follows them adds an ellipsis. *)
Lemma trim_chunks_count chunks length soft_limit hard_limit :
  0 <= length -> length < soft_limit \/ length = 0 ->
  length + char_count (texts (trim_chunks num_chars chunks length soft_limit hard_limit)) <=
  Z.max hard_limit (Z.max 3 (soft_limit + 2)).
Proof.
  revert length. induction chunks as [|chunk chunks IH]; intros length H0 Hl; cbn [trim_chunks].
  - simpl. lia.
  - unfold count in *. rewrite num_chars_spec. pose proof (char_count_nonneg (as_str chunk)).
    case_bool_decide as Hfit.
    + simpl. rewrite char_count_app. specialize (IH (length + char_count (as_str chunk))). lia.
    + destruct chunk as [text|text rule_id ty].
      * pose proof (text_chunk_count text length soft_limit). lia.
      * case_bool_decide; simpl in *; rewrite ?char_count_app; simpl; lia.
Qed.

Lemma trim_string_value value meta max_chars :
  (trim_string num_chars value meta max_chars).1 =
  if bool_decide (char_count value <= MaxChars.limit max_chars + MaxChars.allowance max_chars) then value
  else texts (trim_chunks num_chars (split_chunks value (Meta.remarks meta)) 0 (MaxChars.limit max_chars)
         (MaxChars.limit max_chars + MaxChars.allowance max_chars)).
Proof.
  unfold trim_string. rewrite num_chars_spec. case_bool_decide; [done|]. unfold process_chunked_value.
  rewrite join_chunks_spec. case_bool_decide as Hv; simpl; [done|]. destruct (decide (texts
    (trim_chunks num_chars (split_chunks value (Meta.remarks meta)) 0 (MaxChars.limit max_chars)
      (MaxChars.limit max_chars + MaxChars.allowance max_chars)) = value)); [done|tauto].
Qed.

(** A trimmed string has at most as many characters as its field allows: the
    limit plus the allowance of its [MaxChars], for kinds with an allowance of two
    or more and for every string without remarks and a limit of three or more.  A string
    whose last whole chunk ends right below the limit may exceed it by two, the rest of
    the ellipsis.  A string within the limit is left alone. *)
Theorem trim_string_bounds value meta max_chars :
  let soft_limit := MaxChars.limit max_chars in
  let hard_limit := soft_limit + MaxChars.allowance max_chars in
  let value' := (trim_string num_chars value meta max_chars).1 in
  (char_count value <= hard_limit -> trim_string num_chars value meta max_chars = (value, meta)) /\
  char_count value' <= Z.max hard_limit (Z.max 3 (soft_limit + 2)) /\
  (Meta.remarks meta = [] -> 3 <= soft_limit -> char_count value' <= hard_limit).
Proof.
  intros soft_limit hard_limit value'. assert (0 <= MaxChars.allowance max_chars) by (destruct max_chars; simpl; lia).
  split; [|split].
  - intros Hv. unfold trim_string. by rewrite num_chars_spec, bool_decide_true.
  - unfold value'. rewrite trim_string_value. case_bool_decide; [unfold hard_limit, soft_limit; lia|].
    pose proof (trim_chunks_count (split_chunks value (Meta.remarks meta)) 0 soft_limit hard_limit
      ltac:(lia) ltac:(lia)). unfold hard_limit, soft_limit in *. lia.
  - intros Hr Hs. unfold value'. rewrite trim_string_value. case_bool_decide; [done|]. rewrite Hr.
    unfold split_chunks. simpl. case_bool_decide as Hp; [|simpl; unfold hard_limit, soft_limit in *; lia].
    unfold str_get. rewrite boundary_end, boundary_0, !bool_decide_true by lia.
    cbn [andb app trim_chunks]. rewrite Nat.sub_0_r, substring_all. unfold count. rewrite num_chars_spec.
    cbn [as_str]. case_bool_decide; [cbn [texts as_str]; rewrite str_app_nil_r; unfold hard_limit, soft_limit in *; lia|].
    etransitivity; [apply text_chunk_count|]. unfold hard_limit, soft_limit in *. lia.
Qed.

End StringBounds.

(** ** Trimmed databags *)

(** The values in a value, missing ones included. *)
Fixpoint nodes (v : Value) : Z :=
  let member (a : Annotated Value) := match a with MkAnnotated (Some v) _ => nodes v | MkAnnotated None _ => 1 end in
  match v with
  | Array items => 1 + (fix sum l := match l with [] => 0 | a :: l => member a + sum l end) items
  | Object items =>
      1 + (fix sum (l : list (string * Annotated Value)) := match l with [] => 0 | (_, a) :: l => member a + sum l end) items
  | _ => 1
  end.

Definition annotated_nodes (a : Annotated Value) : Z :=
  match Annotated.value a with Some v => nodes v | None => 1 end.

Lemma nodes_array items : nodes (Array items) = 1 + total annotated_nodes items.
Proof. simpl. f_equal. induction items as [|[[v|] m] items IH]; simpl; [done|..]; by rewrite IH. Qed.

Lemma nodes_object items : nodes (Object items) = 1 + total annotated_nodes (snd <$> items).
Proof. simpl. f_equal. induction items as [|[k [[v|] m]] items IH]; simpl; [done|..]; by rewrite IH. Qed.

Lemma nodes_pos v : 1 <= nodes v.
Proof.
  induction v as [b|n|n|x|s|items IH|items IH] using Value_ind'; try (simpl; lia).
  - rewrite nodes_array. assert (0 <= total annotated_nodes items); [|lia]. apply total_nonneg.
    eapply Forall_impl; [exact IH|]. intros [[v|] m] Hv; unfold annotated_nodes; simpl; [specialize (Hv v eq_refl); cbv beta in Hv|]; lia.
  - rewrite nodes_object. assert (0 <= total annotated_nodes (snd <$> items)); [|lia]. apply total_nonneg, Forall_fmap.
    eapply Forall_impl; [exact IH|].
    intros [k [[v|] m]] Hv; unfold annotated_nodes; simpl in *; [specialize (Hv v eq_refl); cbv beta in Hv|]; lia.
Qed.

Lemma annotated_nodes_pos a : 1 <= annotated_nodes a.
Proof. unfold annotated_nodes. destruct (Annotated.value a); [apply nodes_pos|lia]. Qed.

Lemma list_min_spec l m : list_min l = Some m <-> m ∈ l /\ Forall (fun x => m <= x) l.
Proof.
  assert (forall x l, foldr Z.min x l ∈ x :: l /\ Forall (fun y => foldr Z.min x l <= y) (x :: l)) as Hmin.
  { intros x k. induction k as [|y k [Hin Hle]]; simpl.
    - split; [by left|]. by constructor.
    - apply Forall_cons in Hle as [Hx Hle]. split.
      + destruct (Z.min_spec y (foldr Z.min x k)) as [[_ ->]|[_ ->]]; [right; by left|].
        apply elem_of_cons in Hin as [->|Hin]; [by left|]. right; by right.
      + constructor; [lia|]. constructor; [lia|]. eapply Forall_impl; [exact Hle|]. intros z Hz. simpl in *. lia. }
  destruct l as [|x l]; simpl.
  - split; [done|]. by intros [?%not_elem_of_nil _].
  - destruct (Hmin x l) as [Hin Hle]. split.
    + by intros [= <-].
    + intros [Hm Hall]. f_equal. rewrite Forall_forall in Hle, Hall.
      specialize (Hle m Hm). specialize (Hall _ Hin). lia.
Qed.

(** What a databag leaves at a depth, and the databags open around a position. *)
Definition room (depth : nat) (b : BagSizeState) : Z :=
  Z.max 0 (BagSize.max_depth (bag_size b) - (Z.of_nat depth - Z.of_nat (encountered_at_depth b))).

Definition bag_open (depth : nat) (b : BagSizeState) : Prop :=
  (encountered_at_depth b <= depth <= encountered_at_depth b + 8)%nat /\ 0 <= size_remaining b.

Lemma max_depth_bounds b : 3 <= BagSize.max_depth b <= 7.
Proof. destruct b; simpl; lia. Qed.

Lemma max_size_pos b : 0 < BagSize.max_size b.
Proof. destruct b; simpl; lia. Qed.

Lemma remaining_bag_depth_room self state :
  Forall (bag_open (ProcessingState.depth state)) self ->
  remaining_bag_depth self state = list_min (room (ProcessingState.depth state) <$> self).
Proof.
  intros H. unfold remaining_bag_depth. f_equal. apply list_fmap_ext. intros i b Hb.
  eapply Forall_lookup_1 in H as [Hd _]; [|exact Hb]. unfold room, saturating_sub. rewrite u64_sub_small; [lia|].
  unfold in_width. lia.
Qed.

Lemma remaining_size_zero self : Forall (fun b => 0 < size_remaining b) self -> remaining_bag_size self <> Some 0.
Proof.
  intros H Hm. apply list_min_spec in Hm as [(b & H0 & Hb)%list_elem_of_fmap _].
  rewrite Forall_forall in H. specialize (H b Hb). lia.
Qed.

(** The databags after [n] was spent: the same ones, each with at least that much less. *)
Definition spent (n : Z) : TrimmingProcessor -> TrimmingProcessor -> Prop :=
  Forall2 (fun b b' => bag_size b' = bag_size b /\ encountered_at_depth b' = encountered_at_depth b /\
    0 <= size_remaining b' <= Z.max 0 (size_remaining b - n)).

Lemma spent_refl self : Forall (fun b => 0 <= size_remaining b) self -> spent 0 self self.
Proof. induction 1; constructor; [|done]. split_and!; (done || lia). Qed.

Lemma spent_trans n m s1 s2 s3 : 0 <= m -> spent n s1 s2 -> spent m s2 s3 -> spent (n + m) s1 s3.
Proof.
  intros Hm H. revert s3. induction H as [|b1 b2 s1 s2 Hb _ IH]; intros s3 H3;
    inversion H3 as [|? b3 ? s3' Hb3 H3']; simplify_eq/=; constructor.
  - destruct Hb as (Ha1 & Ha2 & ?), Hb3 as (Hc1 & Hc2 & ?). split_and!; (congruence || lia).
  - by apply IH.
Qed.

Lemma spent_weaken n m s1 s2 : m <= n -> spent n s1 s2 -> spent m s1 s2.
Proof. intros Hle H. eapply Forall2_impl; [exact H|]. intros b b' (? & ? & ?). split_and!; (done || lia). Qed.

Lemma spent_spend n self : Forall (fun b => 0 <= size_remaining b) self -> spent n self (spend n <$> self).
Proof. induction 1; constructor; [|done]. unfold spend, saturating_sub. simpl. split_and!; (done || lia). Qed.

Lemma spent_open n d s1 s2 : spent n s1 s2 -> Forall (bag_open d) s1 -> Forall (bag_open d) s2.
Proof.
  induction 1 as [|b b' s1 s2 (Hb & He & Hr) _ IH]; [done|]. intros [[Hd _] Hs]%Forall_cons. constructor; [|by apply IH].
  unfold bag_open. rewrite He. split; [done|lia].
Qed.

Lemma spent_room n d s1 s2 : spent n s1 s2 -> room d <$> s2 = room d <$> s1.
Proof.
  induction 1 as [|b b' s1 s2 (Hb & He & _) _ IH]; [done|]. rewrite !fmap_cons, IH. unfold room. by rewrite Hb, He.
Qed.

Section Bags.
Context (f64_to_string : f64 -> string) (num_chars : string -> Z) (to_json : Value -> option string).
#[local] Instance trimming_instance : Processor TrimmingProcessor := trimming f64_to_string num_chars to_json.

(** What a visit inside databags guarantees: it ends without error, spends at least
    one unit per value it leaves, and these values fit into every databag around them. *)
Definition fits (self : TrimmingProcessor) (depth : nat) (h n : Z) : Prop :=
  Forall (fun b => h <= room depth b /\ n <= size_remaining b + room depth b) self.

Definition in_bags (self : TrimmingProcessor) (depth : nat) : Prop :=
  self <> [] /\ Forall (bag_open depth) self /\ Forall (fun b => 0 < size_remaining b) self.

(** A position below every databag: none of them starts there. *)
Definition child_state (self : TrimmingProcessor) (state : ProcessingState) : Prop :=
  Forall (fun b => encountered_at_depth b <> ProcessingState.depth state) self /\
  FieldAttrs.bag_size (ProcessingState.attrs state) = None /\ ProcessingState.entered_anything state = true.

Definition walks (walk : walker TrimmingProcessor) (h : nat) : Prop :=
  forall self a state, (annotated_height a <= h)%nat -> in_bags self (ProcessingState.depth state) ->
    child_state self state ->
    exists self' a', walk self a state = Ret (self', a', Ok ()) /\ spent (annotated_nodes a') self self' /\
      fits self (ProcessingState.depth state) (Z.of_nat (annotated_height a')) (annotated_nodes a').

Definition heights {K} (items : list (K * Annotated Value)) : nat := deepest (members_of items).

Lemma fits_nil self depth : Forall (bag_open depth) self -> fits self depth 0 0.
Proof. intros H. eapply Forall_impl; [exact H|]. intros b [_ Hb]. unfold room. split; lia. Qed.

(** After a member, either the size of some databag is used up or each has paid for it. *)
Lemma remaining_positive self r :
  remaining_bag_size self = Some r -> Forall (fun b => 0 <= size_remaining b) self -> r <> 0 ->
  Forall (fun b => 0 < size_remaining b) self.
Proof.
  intros [Hin Hmin]%list_min_spec Hnn Hr. apply list_elem_of_fmap in Hin as (b0 & -> & Hb0).
  rewrite Forall_forall in Hmin. rewrite Forall_forall in Hnn. apply Forall_forall. intros b Hb.
  specialize (Hnn b0 Hb0). pose proof (Hmin _ (list_elem_of_fmap_2 _ _ _ Hb)). lia.
Qed.

Lemma open_nonneg depth self : Forall (bag_open depth) self -> Forall (fun b => 0 <= size_remaining b) self.
Proof. intros H. eapply Forall_impl; [exact H|]. by intros b [_ ?]. Qed.

(** The first member fits, and so do the others into what it left. *)
Lemma fits_cons self self1 depth h1 n1 h2 n2 :
  fits self depth h1 n1 -> spent n1 self self1 -> fits self1 depth h2 n2 ->
  (n2 = 0 /\ h2 = 0) \/ Forall (fun b => 0 < size_remaining b) self1 ->
  fits self depth (Z.max h1 h2) (n1 + n2).
Proof.
  intros H1 Hs H2 Hor. unfold fits in *. rewrite Forall_forall in H1. apply Forall_forall. intros b Hb.
  specialize (H1 b Hb). apply list_elem_of_lookup in Hb as [i Hi].
  destruct (Forall2_lookup_l _ _ _ _ _ Hs Hi) as (b1 & Hi1 & Hbag & Henc & Hrem).
  pose proof (Forall_lookup_1 _ _ _ _ H2 Hi1) as Hb1. cbv beta in Hb1.
  assert (room depth b1 = room depth b) as Hroom by (unfold room; by rewrite Hbag, Henc). rewrite Hroom in Hb1.
  destruct Hor as [[-> ->]|Hpos]; [split; lia|].
  pose proof (Forall_lookup_1 _ _ _ _ Hpos Hi1). cbv beta in *. split; lia.
Qed.

(** The state of a member, one level below every databag. *)
Definition enters {K} (enter : K -> list ValueType -> ProcessingState) (depth : nat) : Prop :=
  forall k tys, ProcessingState.depth (enter k tys) = depth /\
    FieldAttrs.bag_size (ProcessingState.attrs (enter k tys)) = None /\
    ProcessingState.entered_anything (enter k tys) = true.

Lemma members_fit {K} walk h (enter : K -> list ValueType -> ProcessingState) self items depth :
  walks walk h -> (heights items <= h)%nat -> enters enter depth ->
  self <> [] -> Forall (bag_open depth) self -> Forall (fun b => encountered_at_depth b <> depth) self ->
  exists self' items', trim_members walk enter self items = Ret (self', items', Ok ()) /\
    spent (total annotated_nodes (members_of items')) self self' /\
    fits self depth (Z.of_nat (heights items')) (total annotated_nodes (members_of items')) /\
    (items' = [] \/ Forall (fun b => 0 < size_remaining b) self).
Proof.
  intros Hwalk Hh Henter. revert self Hh. induction items as [|[k item] items IH]; intros self Hh Hne Hopen Hno.
  - exists self, []. split; [done|]. split; [eapply spent_refl, open_nonneg, Hopen|]. split; [by apply fits_nil|by left].
  - unfold heights in Hh. simpl in Hh. cbn [trim_members].
    destruct (remaining_bag_size self) as [r|] eqn:Hr; [|by destruct self]. simpl. case_bool_decide as H0.
    + exists self, []. split; [done|]. split; [eapply spent_refl, open_nonneg, Hopen|]. split; [by apply fits_nil|by left].
    + pose proof (remaining_positive self r Hr (open_nonneg _ _ Hopen) H0) as Hpos.
      destruct (Henter k (for_field item)) as (Hd & Hbag & Hent).
      destruct (Hwalk self item (enter k (for_field item))) as (self1 & item' & Hw & Hs1 & Hf1).
      { lia. } { by rewrite Hd. } { unfold child_state. by rewrite Hd. }
      rewrite Hd in Hf1. rewrite Hw. simpl.
      destruct (IH self1) as (self2 & items' & Hw2 & Hs2 & Hf2 & Hor).
      { unfold heights. lia. } { intros ->. by inversion Hs1; subst. } { by eapply spent_open. }
      { eapply Forall_lookup. intros i b' Hi. destruct (Forall2_lookup_r _ _ _ _ _ Hs1 Hi) as (b & Hb & _ & -> & _).
        by apply (Forall_lookup_1 _ _ _ _ Hno Hb). }
      rewrite Hw2. simpl. exists self2, ((k, item') :: items'). split; [done|].
      change (members_of ((k, item') :: items')) with (item' :: members_of items').
      split; [|split]; [..|by right].
      * simpl. eapply spent_trans; [|exact Hs1|exact Hs2]. apply total_nonneg, Forall_true.
        intros a. pose proof (annotated_nodes_pos a). lia.
      * change (heights ((k, item') :: items')) with (Nat.max (annotated_height item') (heights items')).
        rewrite Nat2Z.inj_max. simpl total. eapply fits_cons; [exact Hf1|exact Hs1|exact Hf2|].
        destruct Hor as [->|Hor]; [by left|by right].
Qed.

Lemma enters_enter {K} (item : K -> PathItem) state :
  enters (fun k => ProcessingState.enter state (item k) None) (S (ProcessingState.depth state)).
Proof.
  intros k tys. split; [|split]; [|done|apply entered_enter].
  unfold ProcessingState.enter, ProcessingState.depth. simpl. lia.
Qed.

Lemma fits_up self depth h n :
  Forall (fun b => 1 <= room depth b) self -> fits self (S depth) h n -> fits self depth (1 + h) (1 + n).
Proof.
  intros Hroom H. apply Forall_forall. intros b Hb. unfold fits in H. rewrite Forall_forall in H, Hroom.
  specialize (H b Hb). specialize (Hroom b Hb). unfold room in *. split; lia.
Qed.

Lemma open_down self depth :
  Forall (bag_open depth) self -> Forall (fun b => 1 <= room depth b) self ->
  Forall (bag_open (S depth)) self /\ Forall (fun b => encountered_at_depth b <> S depth) self.
Proof.
  rewrite !Forall_forall. intros Hopen Hroom. split; intros b Hb.
  - destruct (Hopen b Hb) as [Hd Hr]. specialize (Hroom b Hb). unfold room in Hroom.
    pose proof (max_depth_bounds (bag_size b)). split; [lia|done].
  - destruct (Hopen b Hb). lia.
Qed.

Lemma scalar_fits self depth :
  in_bags self depth -> Forall (fun b => 1 <= room depth b) self -> fits self depth 1 1.
Proof.
  intros (_ & _ & Hpos) Hroom. apply Forall_forall. intros b Hb. rewrite Forall_forall in Hpos, Hroom.
  specialize (Hpos b Hb). specialize (Hroom b Hb). cbv beta in *. split; lia.
Qed.

Definition visited (self : TrimmingProcessor) (depth : nat) (o : visit TrimmingProcessor Value) : Prop :=
  exists self' v' meta' r, o = Ret (self', v', meta', r) /\
    ((r = Err ProcessingAction.DeleteValueHard /\ self' = self /\ ~ Forall (fun b => 2 <= room depth b) self) \/
     (r = Ok () /\ spent (nodes v' - 1) self self' /\ fits self depth (Z.of_nat (height v')) (nodes v'))).

Lemma scalar_visited self depth v meta :
  in_bags self depth -> Forall (fun b => 1 <= room depth b) self -> height v = 1%nat -> nodes v = 1 ->
  visited self depth (Ret (self, v, meta, Ok ())).
Proof.
  intros Hb Hroom Hh Hn. eexists _, _, _, _. split; [done|]. right. split; [done|]. rewrite Hh, Hn.
  split; [|by apply scalar_fits]. destruct Hb as (_ & Ho & _). eapply spent_refl, open_nonneg, Ho.
Qed.

Lemma container_visited {K} walk h (item : K -> PathItem) self items (mk : list (K * Annotated Value) -> Value)
    (note : list (K * Annotated Value) -> Meta) state (removed : bool) value meta :
  walks walk h -> (heights items <= h)%nat -> in_bags self (ProcessingState.depth state) ->
  Forall (fun b => 1 <= room (ProcessingState.depth state) b) self ->
  (forall l, height (mk l) = S (heights l) /\ nodes (mk l) = 1 + total annotated_nodes (members_of l)) ->
  (removed = true -> ~ Forall (fun b => 2 <= room (ProcessingState.depth state) b) self) ->
  visited self (ProcessingState.depth state)
    (if removed then Ret (self, value, meta, Err ProcessingAction.DeleteValueHard)
     else '(self, l, r) ← trim_members walk (fun k => ProcessingState.enter state (item k) None) self items;
          match r with
          | Err e => Ret (self, mk l, meta, Err e)
          | Ok _ => Ret (self, mk l, note l, Ok ())
          end).
Proof.
  intros Hwalk Hh (Hne & Hopen & Hpos) Hroom Hmk Hrem. destruct removed.
  - eexists _, _, _, _. split; [done|]. left. auto.
  - destruct (open_down _ _ Hopen Hroom) as [Hopen' Hno].
    destruct (members_fit walk h _ self items _ Hwalk Hh (enters_enter item state) Hne Hopen' Hno)
      as (self' & l & -> & Hs & Hf & _).
    simpl. eexists _, _, _, _. split; [done|]. right. split; [done|]. destruct (Hmk l) as [-> ->]. split.
    + by replace (1 + total annotated_nodes (members_of l) - 1) with (total annotated_nodes (members_of l)) by lia.
    + rewrite Nat2Z.inj_succ, <- Z.add_1_l. by apply fits_up.
Qed.

Lemma removed_room self (is_empty : bool) state :
  in_bags self (ProcessingState.depth state) -> should_remove_container self is_empty state = true ->
  ~ Forall (fun b => 2 <= room (ProcessingState.depth state) b) self.
Proof.
  intros (_ & Hopen & _) [H1%bool_decide_eq_true _]%andb_true_iff Hroom.
  rewrite remaining_bag_depth_room in H1 by done.
  apply list_min_spec in H1 as [(c & Hc1 & Hc)%list_elem_of_fmap _]. rewrite Forall_forall in Hroom.
  specialize (Hroom c Hc). lia.
Qed.

Lemma inner_visited walk h self v meta state :
  walks walk h -> (height v <= S h)%nat -> in_bags self (ProcessingState.depth state) ->
  Forall (fun b => 1 <= room (ProcessingState.depth state) b) self ->
  visited self (ProcessingState.depth state) (process_inner walk self v meta state).
Proof.
  intros Hwalk Hh Hb Hroom. destruct v as [b|n|n|x|s|items|items]; try (by apply scalar_visited).
  - cbn. unfold trim_process_string. destruct (match FieldAttrs.max_chars _ with Some _ => _ | None => _ end) as [s1 m1].
    destruct (match self with [] => _ | _ :: _ => _ end) as [s2 m2]. by apply scalar_visited.
  - rewrite height_array in Hh.
    assert (visited self (ProcessingState.depth state)
      (if should_remove_container self (bool_decide (length items = 0%nat)) state
       then Ret (self, Array items, meta, Err ProcessingAction.DeleteValueHard)
       else '(self, l, r) ← trim_members walk (fun k => ProcessingState.enter state (PathItem.Index k) None) self
                              (enumerate items);
            match r with
            | Err e => Ret (self, Array (members_of l), meta, Err e)
            | Ok _ => Ret (self, Array (members_of l),
                           note_length (length items) (length (members_of l)) meta, Ok ())
            end)) as Hv.
    { apply (container_visited walk h PathItem.Index self (enumerate items) (fun l => Array (members_of l))
        (fun l => note_length (length items) (length (members_of l)) meta)); try done.
      - unfold heights. rewrite members_enumerate. lia.
      - intros l. by rewrite height_array, nodes_array.
      - by apply removed_room. }
    revert Hv. cbn. unfold trim_process_array. destruct self as [|b self]; [by destruct Hb|].
    destruct (should_remove_container _ _ _); [done|].
    unfold ProcessingState.enter_index. by destruct (trim_members _ _ _ _) as [[[self' l] [u|e]]|].
  - rewrite height_object in Hh.
    assert (visited self (ProcessingState.depth state)
      (if should_remove_container self (bool_decide (length items = 0%nat)) state
       then Ret (self, Object items, meta, Err ProcessingAction.DeleteValueHard)
       else '(self, l, r) ← trim_members walk (fun k => ProcessingState.enter state (PathItem.StaticKey k) None) self items;
            match r with
            | Err e => Ret (self, Object l, meta, Err e)
            | Ok _ => Ret (self, Object l, note_length (length items) (length l) meta, Ok ())
            end)) as Hv.
    { apply (container_visited walk h PathItem.StaticKey self items Object
        (fun l => note_length (length items) (length l) meta)); try done.
      - unfold heights, members_of. lia.
      - intros l. by rewrite height_object, nodes_object.
      - by apply removed_room. }
    revert Hv. cbn. unfold trim_process_object. destruct self as [|b self]; [by destruct Hb|].
    destruct (should_remove_container _ _ _); [done|].
    unfold ProcessingState.enter_borrowed. by destruct (trim_members _ _ _ _) as [[[self' l] [u|e]]|].
Qed.

Lemma rooms_decide self state :
  self <> [] -> Forall (bag_open (ProcessingState.depth state)) self ->
  remaining_bag_depth self state <> Some 0 -> Forall (fun b => 1 <= room (ProcessingState.depth state) b) self.
Proof.
  intros Hne Hopen. rewrite remaining_bag_depth_room by done. intros H0.
  destruct (list_min (room (ProcessingState.depth state) <$> self)) as [m|] eqn:Hm; [|by destruct self].
  apply list_min_spec in Hm as [Hin Hmin]. apply list_elem_of_fmap in Hin as (b0 & -> & _).
  rewrite Forall_forall in Hmin. apply Forall_forall. intros b Hb.
  specialize (Hmin _ (list_elem_of_fmap_2 _ _ _ Hb)). unfold room in *.
  assert (Z.max 0 (BagSize.max_depth (bag_size b0) -
    (Z.of_nat (ProcessingState.depth state) - Z.of_nat (encountered_at_depth b0))) <> 0) by congruence. lia.
Qed.

Lemma before_child self v meta state :
  in_bags self (ProcessingState.depth state) -> FieldAttrs.bag_size (ProcessingState.attrs state) = None ->
  trim_before self v meta state = Ret (self, meta, Err ProcessingAction.DeleteValueHard) \/
  (trim_before self v meta state = Ret (self, meta, Ok ()) /\
   Forall (fun b => 1 <= room (ProcessingState.depth state) b) self).
Proof.
  intros (Hne & Hopen & Hpos) Hb. unfold trim_before. rewrite Hb.
  rewrite bool_decide_false by (by apply remaining_size_zero). case_bool_decide as H0; [by left|]. right.
  split; [done|]. by apply rooms_decide.
Qed.

(** The second visit, in the state of the newtype, finds the same room. *)
Lemma before_again self v meta state :
  in_bags self (ProcessingState.depth state) -> FieldAttrs.bag_size (ProcessingState.attrs state) = None ->
  Forall (fun b => 1 <= room (ProcessingState.depth state) b) self ->
  trim_before self v meta state = Ret (self, meta, Ok ()).
Proof.
  intros (Hne & Hopen & Hpos) Hb Hroom. unfold trim_before. rewrite Hb.
  rewrite bool_decide_false by (by apply remaining_size_zero).
  rewrite bool_decide_false; [done|]. rewrite remaining_bag_depth_room by done. intros Hm.
  apply list_min_spec in Hm as [(b & Hb0 & Hin)%list_elem_of_fmap _]. rewrite Forall_forall in Hroom.
  specialize (Hroom b Hin). lia.
Qed.

Lemma after_child self v meta state :
  Forall (fun b => encountered_at_depth b <> ProcessingState.depth state) self ->
  trim_after f64_to_string self v meta state =
  Ret (if ProcessingState.entered_anything state then spend (estimate_size_flat f64_to_string v + 1) <$> self else self,
       meta, Ok ()).
Proof.
  intros H. unfold trim_after. destruct H as [|b self Hb _]; [done|]. by rewrite bool_decide_false.
Qed.

Lemma trim_value_spec self v meta state : exists v1,
  trim_process_value to_json self v meta state = Ret (self, v1, meta, Ok ()) /\ (height v1 <= height v)%nat.
Proof.
  eexists. split; [reflexivity|]. destruct v; try done; case_bool_decide; try done;
    destruct (to_json _); try done; apply height_pos.
Qed.

Lemma spent_encountered n d s1 s2 :
  spent n s1 s2 -> Forall (fun b => encountered_at_depth b <> d) s1 -> Forall (fun b => encountered_at_depth b <> d) s2.
Proof.
  induction 1 as [|b b' s1 s2 (_ & He & _) _ IH]; [done|]. intros [Hb Hs]%Forall_cons. constructor; [|by apply IH].
  by rewrite He.
Qed.

Lemma variant_visited walk h self v meta state :
  walks walk h -> (height v <= S h)%nat -> in_bags self (ProcessingState.depth state) ->
  child_state self state -> Forall (fun b => 1 <= room (ProcessingState.depth state) b) self ->
  visited self (ProcessingState.depth state) (process_value_variant walk self v meta state).
Proof.
  intros Hwalk Hh Hb (Hno & Hbag & _) Hroom. unfold process_value_variant.
  destruct (trim_value_spec self v meta state) as (v1 & Hv1 & Hh1). cbn [process_value trimming_instance trimming].
  rewrite Hv1. cbn [mbind outcome_bind].
  set (state' := ProcessingState.enter_nothing state (Some (FieldAttrs.inherit (ProcessingState.attrs state)))).
  cbn [before_process trimming_instance trimming]. rewrite (before_again self (Some v1) meta state') by done.
  cbn [mbind outcome_bind].
  destruct (inner_visited walk h self v1 meta state' Hwalk) as (self' & v' & meta' & r & -> & Hr); [lia|done|done|].
  cbn [mbind outcome_bind]. destruct Hr as [(-> & -> & Hr)|(-> & Hs & Hf)].
  - eexists _, _, _, _. split; [done|]. by left.
  - cbn [after_process trimming_instance trimming].
    rewrite (after_child self' (Some v') meta' state') by (by eapply spent_encountered).
    unfold state' at 1. rewrite entered_enter_nothing. eexists _, _, _, _. split; [done|]. by right.
Qed.

Lemma removed_child self meta state :
  in_bags self (ProcessingState.depth state) -> child_state self state ->
  exists self' a', ('(self, meta, action) ← trim_after f64_to_string self None meta state;
     let '(annotated, r) := apply_hook f64_to_string None meta action in Ret (self, annotated, r)) =
    Ret (self', a', Ok ()) /\ spent (annotated_nodes a') self self' /\
    fits self (ProcessingState.depth state) (Z.of_nat (annotated_height a')) (annotated_nodes a').
Proof.
  intros (Hne & Hopen & Hpos) (Hno & _ & Hent). rewrite after_child, Hent by done. cbn.
  eexists _, (MkAnnotated None meta). split; [done|]. split.
  - apply spent_spend. by eapply open_nonneg.
  - eapply Forall_impl; [exact Hpos|]. intros b Hb. unfold room, annotated_nodes, annotated_height. simpl in *. split; lia.
Qed.

Lemma walks_step walk h : (forall h', h = S h' -> walks walk h') ->
  walks (process_annotated_with f64_to_string walk) h.
Proof.
  intros Hwalk self [v m] state Hh Hb Hc. unfold process_annotated_with.
  cbn [before_process after_process trimming_instance trimming Annotated.value Annotated.meta].
  destruct (before_child self v m state Hb (proj1 (proj2 Hc))) as [->|[-> Hroom]]; cbn [mbind outcome_bind].
  - destruct v as [v|]; cbn [apply_hook apply_action Annotated.value Annotated.meta mbind outcome_bind];
      by apply removed_child.
  - destruct v as [v|]; cbn [apply_hook apply_action Annotated.value Annotated.meta mbind outcome_bind];
      [|by apply removed_child].
    unfold annotated_height in Hh. cbn [Annotated.value] in Hh. pose proof (height_pos v).
    destruct h as [|h]; [lia|]. specialize (Hwalk h eq_refl).
    destruct (variant_visited walk h self v m state Hwalk Hh Hb Hc Hroom) as (self' & v' & m' & r & -> & Hr).
    cbn [mbind outcome_bind]. destruct Hr as [(-> & -> & _)|(-> & Hs & Hf)];
      cbn [apply_action Annotated.value Annotated.meta mbind outcome_bind]; [by apply removed_child|].
    destruct Hc as (Hno & _ & Hent). rewrite after_child by (by eapply spent_encountered). rewrite Hent.
    cbn. eexists _, (MkAnnotated (Some v') m'). split; [done|]. split; [|done].
    eapply spent_weaken; [|eapply spent_trans; [|exact Hs|eapply spent_spend, open_nonneg, spent_open, Hb; exact Hs]].
    + pose proof (estimate_size_flat_nonneg f64_to_string (Some v')). unfold annotated_nodes. simpl in *. lia.
    + pose proof (estimate_size_flat_nonneg f64_to_string (Some v')). simpl in *. lia.
Qed.

Lemma walks_enough h : walks (process_annotated f64_to_string (S h)) h.
Proof. induction h as [|h IH]; simpl; apply walks_step; [done|]. by intros h' [= <-]. Qed.

(** The bag that a visit opens, and that its end closes. *)
Definition fresh_bag (b : BagSize) (state : ProcessingState) : BagSizeState :=
  MkBagSizeState b (ProcessingState.depth state) (BagSize.max_size b).

Lemma fresh_bag_open b state :
  bag_open (ProcessingState.depth state) (fresh_bag b state) /\
  room (ProcessingState.depth state) (fresh_bag b state) = BagSize.max_depth b /\
  size_remaining (fresh_bag b state) = BagSize.max_size b.
Proof.
  pose proof (max_depth_bounds b). pose proof (max_size_pos b). unfold bag_open, room. simpl. split_and!; (done || lia).
Qed.

Lemma before_root self v meta state b :
  FieldAttrs.bag_size (ProcessingState.attrs state) = Some b -> Forall (fun c => c = fresh_bag b state) self ->
  trim_before self v meta state = Ret (fresh_bag b state :: self, meta, Ok ()) /\
  in_bags (fresh_bag b state :: self) (ProcessingState.depth state) /\
  Forall (fun c => 1 <= room (ProcessingState.depth state) c) (fresh_bag b state :: self).
Proof.
  intros Hb Hself. destruct (fresh_bag_open b state) as (Ho & Hr & Hs).
  pose proof (max_depth_bounds b). pose proof (max_size_pos b).
  assert (Forall (fun c => c = fresh_bag b state) (fresh_bag b state :: self)) as Hall by (by constructor).
  assert (in_bags (fresh_bag b state :: self) (ProcessingState.depth state)) as Hin.
  { split; [done|]. split; (eapply Forall_impl; [exact Hall|]; intros c ->); [done|]. lia. }
  assert (Forall (fun c => 1 <= room (ProcessingState.depth state) c) (fresh_bag b state :: self)) as Hroom.
  { eapply Forall_impl; [exact Hall|]. intros c ->. rewrite Hr. lia. }
  split; [|done]. unfold trim_before. rewrite Hb. fold (fresh_bag b state).
  destruct Hin as (_ & Hopen & Hpos). rewrite bool_decide_false by (by apply remaining_size_zero).
  rewrite bool_decide_false; [done|]. rewrite remaining_bag_depth_room by done. intros Hm.
  apply list_min_spec in Hm as [(c & Hc0 & Hc)%list_elem_of_fmap _]. rewrite Forall_forall in Hroom.
  specialize (Hroom c Hc). lia.
Qed.

Lemma trim_value_root self v meta state :
  Forall (fun b => 2 <= room (ProcessingState.depth state) b) self -> in_bags self (ProcessingState.depth state) ->
  trim_process_value to_json self v meta state = Ret (self, v, meta, Ok ()).
Proof.
  intros Hroom (_ & Hopen & _). unfold trim_process_value.
  assert (remaining_bag_depth self state <> Some 1) as H1.
  { rewrite remaining_bag_depth_room by done. intros Hm.
    apply list_min_spec in Hm as [(c & Hc1 & Hc)%list_elem_of_fmap _]. rewrite Forall_forall in Hroom.
    specialize (Hroom c Hc). lia. }
  destruct v; try done; by rewrite bool_decide_false.
Qed.

Lemma after_root b v meta state :
  trim_after f64_to_string [fresh_bag b state] v meta state = Ret ([], meta, Ok ()).
Proof.
  unfold trim_after. rewrite bool_decide_true by done. by destruct (ProcessingState.entered_anything state).
Qed.

Lemma after_newtype b self v meta state :
  spent (nodes v - 1) [fresh_bag b state; fresh_bag b state] self -> forall attrs,
  exists rest, trim_after f64_to_string self (Some v) meta (ProcessingState.enter_nothing state attrs) =
    Ret ([rest], meta, Ok ()) /\ encountered_at_depth rest = ProcessingState.depth state.
Proof.
  intros Hs attrs. inversion Hs as [|? b1 ? s1 (_ & He1 & _) Hs1]; subst.
  inversion Hs1 as [|? b2 ? s2 (_ & He2 & _) Hs2]; subst. inversion Hs2; subst. exists b2.
  unfold trim_after. rewrite bool_decide_true by (by rewrite He1). by rewrite entered_enter_nothing.
Qed.

Lemma variant_root f v m state b :
  FieldAttrs.bag_size (ProcessingState.attrs state) = Some b -> (height v <= f)%nat ->
  exists rest v' m', process_value_variant (Self := TrimmingProcessor) (process_annotated f64_to_string f) [fresh_bag b state] v m state =
      Ret ([rest], v', m', Ok ()) /\ encountered_at_depth rest = ProcessingState.depth state /\
    Z.of_nat (height v') <= BagSize.max_depth b /\ nodes v' <= BagSize.max_size b + BagSize.max_depth b.
Proof.
  intros Hb Hf. pose proof (max_depth_bounds b). pose proof (height_pos v). destruct f as [|f]; [lia|].
  unfold process_value_variant. cbn [process_value trimming_instance trimming].
  destruct (before_root [] (Some v) m state b Hb) as (_ & Hin & _); [constructor|].
  rewrite trim_value_root; [|constructor; [|done]; rewrite (proj1 (proj2 (fresh_bag_open b state))); lia|done].
  cbn [mbind outcome_bind].
  set (state' := ProcessingState.enter_nothing state (Some (FieldAttrs.inherit (ProcessingState.attrs state)))).
  cbn [before_process trimming_instance trimming].
  destruct (before_root [fresh_bag b state] (Some v) m state' b Hb) as (-> & Hin' & Hroom'); [by constructor|].
  cbn [mbind outcome_bind]. change (fresh_bag b state') with (fresh_bag b state) in *.
  destruct (inner_visited _ f _ v m state' (walks_enough f) Hf Hin' Hroom') as (self' & v' & m' & r & -> & Hr).
  cbn [mbind outcome_bind]. change (ProcessingState.depth state') with (ProcessingState.depth state) in *.
  destruct (fresh_bag_open b state) as (_ & Hr1 & Hr2).
  destruct Hr as [(_ & _ & Hno)|(-> & Hs & Hfit)].
  - exfalso. apply Hno. constructor; [|constructor; [|done]]; rewrite Hr1; lia.
  - destruct (after_newtype b self' v' m' state Hs (Some (FieldAttrs.inherit (ProcessingState.attrs state))))
      as (rest & Ha & Henc).
    fold state' in Ha. cbn [after_process trimming_instance trimming]. rewrite Ha. cbn [mbind outcome_bind].
    exists rest, v', m'. split; [done|]. split; [done|].
    apply Forall_cons in Hfit as [Hfit _]. rewrite Hr1, Hr2 in Hfit. done.
Qed.

(** C29: Trimming a databag always ends, whatever the value: every visit closes the
    databags it opened, and what is left is nested no deeper than the bag size allows
    and holds no more values, missing ones included, than its maximum size plus
    its maximum depth.  Fuel beyond the nesting of the value is enough. *)
Theorem trim_databag fuel a state b :
  FieldAttrs.bag_size (ProcessingState.attrs state) = Some b -> (annotated_height a < fuel)%nat ->
  exists a', process_annotated (Self := TrimmingProcessor) f64_to_string fuel [] a state = Ret ([], a', Ok ()) /\
    Z.of_nat (annotated_height a') <= BagSize.max_depth b /\
    annotated_nodes a' <= BagSize.max_size b + BagSize.max_depth b.
Proof.
  intros Hb Hfuel. destruct fuel as [|f]; [lia|]. pose proof (max_depth_bounds b). pose proof (max_size_pos b).
  destruct a as [v m]. cbn [process_annotated]. unfold process_annotated_with.
  cbn [before_process after_process trimming_instance trimming Annotated.value Annotated.meta].
  destruct (before_root [] v m state b Hb) as (-> & Hin & Hroom); [constructor|]. cbn [mbind outcome_bind].
  destruct v as [v|]; cbn [apply_hook apply_action Annotated.value Annotated.meta mbind outcome_bind].
  2: { rewrite after_root. cbn. eexists. split; [done|]. unfold annotated_height, annotated_nodes. simpl. lia. }
  unfold annotated_height in Hfuel. cbn [Annotated.value] in Hfuel.
  destruct (variant_root f v m state b Hb ltac:(lia)) as (rest & v' & m' & -> & Henc & Hh & Hn).
  cbn [mbind outcome_bind apply_action Annotated.value Annotated.meta]. unfold trim_after.
  rewrite bool_decide_true by done. eexists (MkAnnotated (Some v') m'). split; [|done].
  by destruct (ProcessingState.entered_anything state).
Qed.

End Bags.

(** ** Trimmed stack traces *)

(** A frame that still carries variables or source context. *)
Definition has_data (frame : Annotated TrimFrame) : bool :=
  match Annotated.value frame with
  | Some f =>
      negb (bool_decide (is_Some (Annotated.value (vars f)) -> False)
            && bool_decide (is_Some (Annotated.value (pre_context f)) -> False)
            && bool_decide (is_Some (Annotated.value (post_context f)) -> False))
  | None => false
  end.

Lemma positions_elem p frames i :
  i ∈ positions_where p frames <-> exists f, frames !! i = Some f /\ p f = true.
Proof.
  unfold positions_where. rewrite list_elem_of_fmap. split.
  - intros ([j f] & -> & [Hp Hin]%list_elem_of_filter). exists f. split; [|done].
    apply elem_of_lookup_imap_1 in Hin as (k & g & Heq & Hg). by injection Heq as -> ->.
  - intros (f & Hf & Hp). exists (i, f). split; [done|]. apply list_elem_of_filter. split; [done|].
    by apply (elem_of_lookup_imap_2 pair frames).
Qed.

Lemma positions_nodup p frames : NoDup (positions_where p frames).
Proof.
  unfold positions_where. apply NoDup_fmap_fst.
  - intros i f g [_ Hf]%list_elem_of_filter [_ Hg]%list_elem_of_filter.
    apply elem_of_lookup_imap_1 in Hf as (k & f' & [= -> ->] & Hf'), Hg as (k' & g' & [= <- ->] & Hg'). congruence.
  - apply NoDup_filter, (NoDup_fmap_1 fst). rewrite fmap_imap.
    rewrite (imap_ext _ (fun i _ => i)) by done.
    clear. enough (forall k, NoDup (imap (fun i _ => (k + i)%nat) frames)) as H.
    { specialize (H 0%nat). by rewrite (imap_ext _ (fun i _ => i)) in H by done. }
    induction frames as [|f frames IH]; intros k; simpl; [constructor|]. constructor.
    + intros (j & x & Hj & _)%elem_of_lookup_imap_1. unfold compose in Hj. lia.
    + rewrite (imap_ext _ (fun i _ => (S k + i)%nat)); [apply IH|]. intros i x _. unfold compose. lia.
Qed.

Lemma positions_length_filter p frames : length (positions_where p frames) = length (List.filter p frames).
Proof.
  unfold positions_where. rewrite length_fmap.
  enough (forall (q : nat -> nat), length (filter (fun r => p r.2 = true) (imap (fun i f => (q i, f)) frames)) =
    length (List.filter p frames)) as H by (apply (H id)).
  induction frames as [|f frames IH]; intros q; [done|]. rewrite imap_cons. cbn [List.filter].
  destruct (p f) eqn:Hp;
    [rewrite filter_cons_True by done|rewrite filter_cons_False by (simpl; congruence)]; simpl;
    rewrite <- (IH (fun i => q (S i))); done.
Qed.

Lemma middle_spec indices half :
  0 <= half -> half < 2^63 -> Z.of_nat (length indices) < 2^63 ->
  (2 * half <= Z.of_nat (length indices) /\ Z.of_nat (length (middle indices half)) = Z.of_nat (length indices) - 2 * half) \/
  (Z.of_nat (length indices) < 2 * half /\ middle indices half = []).
Proof.
  intros H0 H1 H2. unfold middle, slice_get. destruct (decide (half <= Z.of_nat (length indices))) as [Hle|Hgt].
  - rewrite u64_sub_small by (unfold in_width; lia).
    destruct (decide (2 * half <= Z.of_nat (length indices))).
    + left. split; [done|]. rewrite !bool_decide_true by lia. simpl. rewrite length_take, length_drop. lia.
    + right. split; [lia|]. by rewrite bool_decide_false by lia.
  - right. split; [lia|]. rewrite (bool_decide_false (_ <= Z.of_nat _)), andb_false_r; [done|].
    unfold u64_sub, wrap. replace (Z.of_nat (length indices) - half) with
      ((Z.of_nat (length indices) - half + 2^64) + (-1) * 2^64) by lia.
    rewrite Z.mod_add, Z.mod_small by lia. lia.
Qed.

Lemma middle_sublist indices half : sublist (middle indices half) indices.
Proof.
  unfold middle, slice_get. destruct (_ && _); simpl; [|apply sublist_nil_l].
  etransitivity; [apply sublist_take|apply sublist_drop].
Qed.

Lemma clear_has_no_data f : has_data (clear_frame f) = false.
Proof. destruct f as [[f|] m]; [|done]. by unfold has_data, clear_frame. Qed.

Lemma clear_twice f : clear_frame (clear_frame f) = clear_frame f.
Proof. by destruct f as [[f|] m]. Qed.

Lemma cleared_lookup frames idx i :
  clear_frames frames idx !! i =
  if bool_decide (i ∈ idx) then clear_frame <$> frames !! i else frames !! i.
Proof.
  revert frames. induction idx as [|j idx IH]; intros frames; [done|].
  change (clear_frames frames (j :: idx)) with (clear_frames (alter clear_frame j frames) idx). rewrite IH.
  destruct (decide (i = j)) as [->|Hij].
  - rewrite list_lookup_alter, (bool_decide_true (j ∈ j :: idx)), (decide_True (P := (j = j))) by (by left || done).
    case_bool_decide; destruct (frames !! j); simpl; by rewrite ?clear_twice.
  - rewrite list_lookup_alter_ne by done.
    rewrite (bool_decide_ext (i ∈ j :: idx) (i ∈ idx)); [done|]. rewrite elem_of_cons. naive_solver.
Qed.

Lemma frame_kinds_disjoint frames i : i ∈ frame_indices true frames -> i ∈ frame_indices false frames -> False.
Proof.
  unfold frame_indices. rewrite !positions_elem. intros (f & Hf & H1%bool_decide_eq_true) (g & Hg & H2%bool_decide_eq_true).
  congruence.
Qed.

(** Frames with data are among the indices that were not removed. *)
Lemma data_bound frames removed :
  NoDup removed -> removed ⊆ frame_indices true frames ++ frame_indices false frames ->
  (length (List.filter has_data (clear_frames frames removed)) + length removed <=
   length (frame_indices true frames) + length (frame_indices false frames))%nat.
Proof.
  intros Hnd Hsub. rewrite <- positions_length_filter, <- !length_app. apply submseteq_length, NoDup_submseteq.
  - apply NoDup_app. split; [apply positions_nodup|]. split; [|done].
    intros i (f & Hf & Hd)%positions_elem Hi. rewrite cleared_lookup, bool_decide_true in Hf by done.
    destruct (frames !! i) as [g|]; simplify_eq/=. by rewrite clear_has_no_data in Hd.
  - intros i [(f & Hf & Hd)%positions_elem|Hi]%elem_of_app; [|by apply Hsub].
    rewrite cleared_lookup in Hf. case_bool_decide as Hi; [by apply Hsub|].
    unfold has_data in Hd. apply elem_of_app. unfold frame_indices. rewrite !positions_elem.
    destruct (Annotated.value f) as [g|] eqn:Hg; [|done].
    destruct (decide (Annotated.value (in_app g) = Some true)); [left|right]; exists f; (split; [done|]);
      apply bool_decide_eq_true; unfold is_app_frame; rewrite Hg; simpl; f_equal;
      [by apply bool_decide_eq_true|by apply bool_decide_eq_false].
Qed.

Lemma kinds_length frames :
  (length (frame_indices true frames) + length (frame_indices false frames) <= length frames)%nat.
Proof.
  rewrite <- length_app, <- (length_seq (length frames) 0). apply submseteq_length, NoDup_submseteq.
  - apply NoDup_app. split; [apply positions_nodup|]. split; [|apply positions_nodup].
    intros i H1 H2. by eapply frame_kinds_disjoint.
  - intros i Hi. apply elem_of_seq. apply elem_of_app in Hi as [(f & Hf & _)%positions_elem|(f & Hf & _)%positions_elem];
      apply lookup_lt_Some in Hf; lia.
Qed.

Lemma removed_nodup frames h1 h2 :
  NoDup (middle (frame_indices false frames) h1 ++ middle (frame_indices true frames) h2) /\
  middle (frame_indices false frames) h1 ++ middle (frame_indices true frames) h2 ⊆
  frame_indices true frames ++ frame_indices false frames.
Proof.
  assert (forall app h i, i ∈ middle (frame_indices app frames) h -> i ∈ frame_indices app frames) as Hin.
  { intros app h i Hi. eapply elem_of_sublist; [exact Hi|apply middle_sublist]. }
  assert (forall app h, NoDup (middle (frame_indices app frames) h)) as Hnd.
  { intros app h. eapply sublist_NoDup; [|apply middle_sublist]. apply positions_nodup. }
  split.
  - apply NoDup_app. split; [done|]. split; [|done]. intros i H1%Hin H2%Hin. by eapply frame_kinds_disjoint.
  - intros i [H1%Hin|H1%Hin]%elem_of_app; apply elem_of_app; auto.
Qed.

Lemma hard_limit_spec frames meta limit : (0 < limit)%nat ->
  let trimmed := (enforce_frame_hard_limit frames meta limit).1 in
  length trimmed = Nat.min (length frames) limit /\ last trimmed = last frames /\
  exists suffix, take (limit - 1) frames ++ suffix = trimmed.
Proof.
  intros Hl. unfold enforce_frame_hard_limit. case_bool_decide as Hle; simpl.
  - destruct limit as [|l]; [lia|]. rewrite take_take, Nat.min_l by lia. simpl (S l - 1)%nat. rewrite Nat.sub_0_r.
    destruct (last frames) as [f|] eqn:Hf; [|apply last_None in Hf; subst; simpl in *; lia].
    rewrite length_app, length_take, last_snoc. simpl. split; [lia|]. split; [done|]. by exists [f].
  - split; [lia|]. split; [done|]. exists (drop (limit - 1) frames). apply take_drop.
Qed.

Lemma clear_frames_length frames idx : length (clear_frames frames idx) = length frames.
Proof.
  revert frames. induction idx as [|i idx IH]; intros frames; [done|].
  change (clear_frames frames (i :: idx)) with (clear_frames (alter clear_frame i frames) idx).
  by rewrite IH, length_alter.
Qed.

Lemma slim_bound frames frame_allowance :
  0 <= frame_allowance -> frame_allowance < 2^63 -> Z.of_nat (length frames) < 2^63 ->
  Z.of_nat (length (List.filter has_data (slim_frame_data frames frame_allowance))) <= frame_allowance.
Proof.
  intros Ha Ha' Hlen. unfold slim_frame_data. case_bool_decide as Hfew.
  - pose proof (List.filter_length_le has_data frames). lia.
  - pose proof (kinds_length frames) as Hk. unfold saturating_sub.
    set (app := length (frame_indices true frames)) in *. set (sys := length (frame_indices false frames)) in *.
    set (h1 := Z.max 0 (frame_allowance - Z.of_nat app) / 2).
    set (h2 := Z.max 0 (Z.of_nat app - _) / 2).
    destruct (removed_nodup frames h1 h2) as [Hnd Hsub]. pose proof (data_bound frames _ Hnd Hsub) as Hd.
    rewrite length_app in Hd. fold app sys in Hd.
    assert (0 <= h1 < 2^63) by (unfold h1; split; [apply Z.div_pos; lia|apply Z.div_lt_upper_bound; lia]).
    assert (0 <= h2 < 2^63) by (unfold h2; split; [apply Z.div_pos; lia|apply Z.div_lt_upper_bound; lia]).
    assert (2 * h1 <= Z.max 0 (frame_allowance - Z.of_nat app)) by (unfold h1; apply Z.mul_div_le; lia).
    assert (2 * h2 <= Z.max 0 (Z.of_nat app - Z.max 0 (Z.max 0 (Z.of_nat (length frames) - frame_allowance) -
      Z.of_nat (length (middle (frame_indices false frames) h1))))) by (unfold h2; apply Z.mul_div_le; lia).
    destruct (middle_spec (frame_indices false frames) h1) as [[? ?]|[? Hm]]; [lia|lia|fold sys; lia|..];
      destruct (middle_spec (frame_indices true frames) h2) as [[? ?]|[? Hm2]]; try (fold app; lia);
      try (rewrite Hm in *); try (rewrite Hm2 in *); fold app sys in *; simpl length in *; lia.
Qed.

(** Trimming a stack trace: the hard limit keeps the first frames and the last
    one, so a trace has at most [limit] frames afterwards and still ends in the frame it
    ended in; slimming keeps every frame in place and leaves variables and source context
    to at most [frame_allowance] of them. *)
Theorem frames_trimmed frames meta limit frame_allowance :
  (0 < limit)%nat -> 0 <= frame_allowance < 2^63 -> Z.of_nat (length frames) < 2^63 ->
  let trimmed := (enforce_frame_hard_limit frames meta limit).1 in
  let slim := slim_frame_data frames frame_allowance in
  length trimmed = Nat.min (length frames) limit /\ last trimmed = last frames /\
  (exists suffix, take (limit - 1) frames ++ suffix = trimmed) /\
  length slim = length frames /\
  Z.of_nat (length (List.filter has_data slim)) <= frame_allowance.
Proof.
  intros Hl [Ha Ha'] Hlen trimmed slim. destruct (hard_limit_spec frames meta limit Hl) as (H1 & H2 & H3).
  split; [done|]. split; [done|]. split; [done|]. split; [|by apply slim_bound].
  unfold slim, slim_frame_data. case_bool_decide; [done|]. apply clear_frames_length.
Qed.

(** A hard limit is exceeded by two characters when a redaction ends right below it:
    the ellipsis is appended although it does not fit. *)
Lemma hard_limit_exceeded :
  let meta := Meta.add_remark Meta.empty (Remark.with_range RemarkType.Removed "rule" (0, 9)%nat) in
  trim_string char_count "[removed] secret" meta (MaxChars.Hard 10) =
    ("[removed]...",
     MkMeta (Some (MkMetaInner
       [Remark.with_range RemarkType.Removed "rule" (0, 9)%nat;
        Remark.with_range RemarkType.Substituted "!limit" (9, 12)%nat] [] (Some 16) None))) /\
  char_count "[removed]..." = 12.
Proof. by vm_compute. Qed.

(** ** Concrete inputs *)

Lemma trim_string_bounds_witness :
  char_count (trim_string char_count "This is my long string I want to have trimmed!" Meta.empty (MaxChars.Hard 20)).1 <= 20.
Proof. apply (trim_string_bounds char_count (fun _ => eq_refl) _ Meta.empty (MaxChars.Hard 20)); [reflexivity|simpl; lia]. Defined.

Definition nested : nat -> Value :=
  nat_rect (fun _ => Value) (I64 1) (fun _ v => Object [("a", Annotated.new v); ("b", Annotated.new (String_ "x"))]).
Definition small_bag : ProcessingState :=
  ProcessingState.enter_static ProcessingState.root "extra"
    (Some (FieldAttrs.with_bag_size FieldAttrs.new BagSize.Small)) [ValueType.Object].

Lemma trim_databag_witness :
  exists a', process_annotated (Self := TrimmingProcessor)
      (Processor0 := trimming (fun _ => "1") char_count (fun _ => Some "{}")) (fun _ => "1") 6 []
      (Annotated.new (nested 4)) small_bag = Ret ([], a', Ok ()) /\
    Z.of_nat (annotated_height a') <= 3 /\ annotated_nodes a' <= 1024 + 3.
Proof.
  apply (trim_databag (fun _ => "1") char_count (fun _ => Some "{}") 6 (Annotated.new (nested 4)) small_bag BagSize.Small).
  - reflexivity.
  - vm_compute. lia.
Defined.

Definition plain_frame : Annotated TrimFrame :=
  Annotated.new (MkTrimFrame Annotated.empty (Annotated.new (Bool true)) Annotated.empty Annotated.empty "").

Lemma frames_trimmed_witness :
  length (enforce_frame_hard_limit (replicate 5 plain_frame) Meta.empty 3).1 = 3%nat /\
  Z.of_nat (length (List.filter has_data (slim_frame_data (replicate 5 plain_frame) 2))) <= 2.
Proof.
  destruct (frames_trimmed (replicate 5 plain_frame) Meta.empty 3 2) as (H1 & _ & _ & _ & H2);
    [lia|lia|simpl; lia|]. split; [exact H1|exact H2].
Defined.
