(* ===== verification/PiiRules.v ===== *)
(** * relay-general: PII rules (pii/config.rs, pii/redactions.rs, pii/regexes.rs, pii/builtin.rs)

    The data of the PII scrubber: how a match is redacted, what a rule matches, the rules
    every configuration may name and the regular expressions behind them.  A [Regex] is
    its source text with the one flag that the code sets outside of the text; the engine
    that runs it is a parameter of the components that search. *)

From Stdlib Require Import Ascii String.
From S2P Require Import Prelude Strings.

Open Scope string_scope.
Open Scope Z_scope.
Open Scope list_scope.

Record Regex := MkRegex { as_str : string; case_insensitive : bool }.
Definition Regex_new (pattern : string) : Regex := MkRegex pattern false.

(** A double quote, which the literals below cannot hold. *)
Definition dquote : string := String (ascii_of_nat 34) EmptyString.

(** ** Redactions *)

Definition default_replace_text : string := "[Filtered]".

Module Redaction.
Inductive Redaction :=
| Default
| Remove
| Replace (text : string)
| Mask
| Hash.
#[global] Instance Redaction_eq_dec : EqDecision Redaction.
Proof. solve_decision. Defined.
End Redaction.
Notation Redaction := Redaction.Redaction.

(** ** Rules *)

(** [replace_groups] is a [BTreeSet<u8>], in ascending order. *)
Record PatternRule := MkPatternRule { pattern : Regex; replace_groups : option (list Z) }.
Record MultipleRule := MkMultipleRule { rules : list string; multiple_hide_inner : bool }.
Record AliasRule := MkAliasRule { rule : string; alias_hide_inner : bool }.
Record RedactPairRule := MkRedactPairRule { key_pattern : Regex }.

Module RuleType.
Inductive RuleType :=
| Anything
| Pattern (r : PatternRule)
| Imei
| Mac
| Uuid
| Email
| Ip
| Creditcard
| Userpath
| Pemkey
| UrlAuth
| UsSsn
| Password
| RedactPair (r : RedactPairRule)
| Multiple (r : MultipleRule)
| Alias (r : AliasRule).
End RuleType.
Notation RuleType := RuleType.RuleType.

Record RuleSpec := MkRuleSpec { ty : RuleType; redaction : Redaction }.

Definition replace_groups_default : option (list Z) := Some [0].

(** ** The regular expressions of the rule types *)

Definition ip_v4s : string := "(25[0-5]|2[0-4][0-9]|[01]?[0-9][0-9]?)".
Definition ip_v4a : string := ip_v4s +:+ "\." +:+ ip_v4s +:+ "\." +:+ ip_v4s +:+ "\." +:+ ip_v4s.
Definition ip_v6s : string := "[0-9a-fA-F]{1,4}".

Definition ANYTHING_REGEX : Regex := Regex_new
  ".*".

Definition IMEI_REGEX : Regex := Regex_new
  "(?x)
            \b
                (\d{2}-?
                 \d{6}-?
                 \d{6}-?
                 \d{1,2})
            \b
        ".

Definition MAC_REGEX : Regex := Regex_new
  "(?x)
            \b([[:xdigit:]]{2}[:-]){5}[[:xdigit:]]{2}\b
        ".

Definition UUID_REGEX : Regex := Regex_new
  "(?ix)
            \b
            [a-z0-9]{8}-?
            [a-z0-9]{4}-?
            [a-z0-9]{4}-?
            [a-z0-9]{4}-?
            [a-z0-9]{12}
            \b
        ".

Definition EMAIL_REGEX : Regex := Regex_new
  "(?x)
            \b
                [a-zA-Z0-9.!\#$%&'*+/=?^_`{|}~-]+
                @
                [a-zA-Z0-9-]+(?:\.[a-zA-Z0-9-]+)*
            \b
        ".

Definition IPV4_REGEX : Regex := Regex_new
  ("\b" +:+
   ip_v4a +:+
   "\b").

Definition IPV6_REGEX : Regex := Regex_new
  ("(?i)(?:[\s]|[[:punct:]]|^)(" +:+
   "(" +:+
   ip_v6s +:+
   ":){7}" +:+
   ip_v6s +:+
   "|" +:+
   "(" +:+
   ip_v6s +:+
   ":){1,7}:|" +:+
   "(" +:+
   ip_v6s +:+
   ":){1,6}::" +:+
   ip_v6s +:+
   "|" +:+
   "(" +:+
   ip_v6s +:+
   ":){1,5}:(:" +:+
   ip_v6s +:+
   "){1,2}|" +:+
   "(" +:+
   ip_v6s +:+
   ":){1,4}:(:" +:+
   ip_v6s +:+
   "){1,3}|" +:+
   "(" +:+
   ip_v6s +:+
   ":){1,3}:(:" +:+
   ip_v6s +:+
   "){1,4}|" +:+
   "(" +:+
   ip_v6s +:+
   ":){1,2}:(:" +:+
   ip_v6s +:+
   "){1,5}|" +:+
   ip_v6s +:+
   ":((:" +:+
   ip_v6s +:+
   "){1,6})|" +:+
   ":((:" +:+
   ip_v6s +:+
   "){1,7}|:)|" +:+
   "fe80:(:" +:+
   ip_v6s +:+
   "){0,4}%[0-9a-zA-Z]{1,}" +:+
   "::(ffff(:0{1,4}){0,1}:){0,1}" +:+
   ip_v4a +:+
   "|" +:+
   "(" +:+
   ip_v6s +:+
   ":){1,4}:" +:+
   ip_v4a +:+
   ")([\s]|[[:punct:]]|$)").

Definition CREDITCARD_REGEX : Regex := Regex_new
  ("(?x)
        \b(
            (?:  # vendor specific prefixes
                  3[47]\d      # amex (no 13-digit version) (length: 15)
                | 4\d{3}       # visa (16-digit version only)
                | 5[1-5]\d\d   # mastercard
                | 65\d\d       # discover network (subset)
                | 6011         # discover network (subset)
            )

            # " +:+ dquote +:+ "wildcard" +:+ dquote +:+ " remainder (allowing dashes in every position because of variable length)
            ([-\s]?\d){12}
        )\b
        ").

Definition PATH_REGEX : Regex := Regex_new
  "(?ix)
            (?:
                (?:
                    \b(?:[a-zA-Z]:[\\/])?
                    (?:users|home|documents and settings|[^/\\]+[/\\]profiles)[\\/]
                ) | (?:
                    /(?:home|users)/
                )
            )
            (
                [^/\\]+
            )
        ".

Definition PEM_KEY_REGEX : Regex := Regex_new
  "(?sx)
            (?:
                -----
                BEGIN[A-Z\ ]+(?:PRIVATE|PUBLIC)\ KEY
                -----
                [\t\ ]*\r?\n?
            )
            (.+?)
            (?:
                \r?\n?
                -----
                END[A-Z\ ]+(?:PRIVATE|PUBLIC)\ KEY
                -----
            )
        ".

Definition URL_AUTH_REGEX : Regex := Regex_new
  "(?x)
            \b(?:
                (?:[a-z0-9+-]+:)?//
                ([a-zA-Z0-9%_.-]+(?::[a-zA-Z0-9%_.-]+)?)
            )@
        ".

Definition US_SSN_REGEX : Regex := Regex_new
  "(?x)
            \b(
                [0-9]{3}-
                [0-9]{2}-
                [0-9]{4}
            )\b
        ".

Definition PASSWORD_KEY_REGEX : Regex := Regex_new
  "(?i)(password|secret|passwd|api_key|apikey|access_token|auth|credentials|mysql_pwd|stripetoken)".


Module PatternType.
Inductive PatternType := KeyValue | Value.
End PatternType.
Notation PatternType := PatternType.PatternType.

Module ReplaceBehavior.
Inductive ReplaceBehavior := Value | Groups (groups : list Z).
Definition replace_value : ReplaceBehavior := Value.
Definition replace_group (g : Z) : ReplaceBehavior := Groups [g].
Definition replace_match : ReplaceBehavior := replace_group 0.
Definition replace_groups (gs : list Z) : ReplaceBehavior := Groups gs.
End ReplaceBehavior.
Notation ReplaceBehavior := ReplaceBehavior.ReplaceBehavior.

Definition get_regex_for_rule_type (t : RuleType) : list (PatternType * Regex * ReplaceBehavior) :=
  let v := PatternType.Value in
  let kv := PatternType.KeyValue in
  let replace_match := ReplaceBehavior.replace_match in
  match t with
  | RuleType.RedactPair redact_pair => [(kv, key_pattern redact_pair, ReplaceBehavior.replace_value)]
  | RuleType.Password => [(kv, PASSWORD_KEY_REGEX, ReplaceBehavior.replace_value)]
  | RuleType.Anything => [(v, ANYTHING_REGEX, replace_match)]
  | RuleType.Pattern r =>
      let replace_behavior :=
        match replace_groups r with
        | Some groups => ReplaceBehavior.replace_groups groups
        | None => replace_match
        end in
      [(v, pattern r, replace_behavior)]
  | RuleType.Imei => [(v, IMEI_REGEX, replace_match)]
  | RuleType.Mac => [(v, MAC_REGEX, replace_match)]
  | RuleType.Uuid => [(v, UUID_REGEX, replace_match)]
  | RuleType.Email => [(v, EMAIL_REGEX, replace_match)]
  | RuleType.Ip => [(v, IPV4_REGEX, replace_match); (v, IPV6_REGEX, ReplaceBehavior.replace_group 1)]
  | RuleType.Creditcard => [(v, CREDITCARD_REGEX, replace_match)]
  | RuleType.Pemkey => [(v, PEM_KEY_REGEX, ReplaceBehavior.replace_group 1)]
  | RuleType.UrlAuth => [(v, URL_AUTH_REGEX, ReplaceBehavior.replace_group 1)]
  | RuleType.UsSsn => [(v, US_SSN_REGEX, replace_match)]
  | RuleType.Userpath => [(v, PATH_REGEX, ReplaceBehavior.replace_group 1)]
  | RuleType.Alias _ | RuleType.Multiple _ => []
  end.

(** ** The built-in rules *)

Definition rule_alias (target : string) : RuleSpec :=
  MkRuleSpec (RuleType.Alias (MkAliasRule target true)) Redaction.Default.

Definition builtin_collections : list (string * RuleSpec) :=
  [("@common", MkRuleSpec (RuleType.Multiple (MkMultipleRule ["@ip"; "@email"; "@creditcard"; "@pemkey"; "@urlauth"; "@userpath"; "@password"; "@usssn"] false)) Redaction.Default);
   ("@common:filter", MkRuleSpec (RuleType.Multiple (MkMultipleRule ["@creditcard:filter"; "@pemkey:filter"; "@urlauth:legacy"; "@userpath:filter"; "@password:filter"; "@usssn:filter"] false)) Redaction.Default)].

Definition builtin_anything : list (string * RuleSpec) :=
  [("@anything", rule_alias "@anything:replace");
   ("@anything:remove", MkRuleSpec RuleType.Anything Redaction.Remove);
   ("@anything:replace", MkRuleSpec RuleType.Anything (Redaction.Replace default_replace_text));
   ("@anything:hash", MkRuleSpec RuleType.Anything Redaction.Hash);
   ("@anything:mask", MkRuleSpec RuleType.Anything Redaction.Mask)].

Definition builtin_ip : list (string * RuleSpec) :=
  [("@ip", rule_alias "@ip:replace");
   ("@ip:replace", MkRuleSpec RuleType.Ip (Redaction.Replace "[ip]"));
   ("@ip:hash", MkRuleSpec RuleType.Ip Redaction.Hash);
   ("@ip:mask", MkRuleSpec RuleType.Ip Redaction.Mask);
   ("@ip:remove", MkRuleSpec RuleType.Ip Redaction.Remove)].

Definition builtin_imei : list (string * RuleSpec) :=
  [("@imei", rule_alias "@imei:replace");
   ("@imei:replace", MkRuleSpec RuleType.Imei (Redaction.Replace "[imei]"));
   ("@imei:hash", MkRuleSpec RuleType.Imei Redaction.Hash);
   ("@imei:mask", MkRuleSpec RuleType.Imei Redaction.Hash);
   ("@imei:remove", MkRuleSpec RuleType.Imei Redaction.Remove)].

Definition builtin_mac : list (string * RuleSpec) :=
  [("@mac", rule_alias "@mac:mask");
   ("@mac:replace", MkRuleSpec RuleType.Mac (Redaction.Replace "[mac]"));
   ("@mac:hash", MkRuleSpec RuleType.Mac Redaction.Hash);
   ("@mac:mask", MkRuleSpec RuleType.Mac Redaction.Mask);
   ("@mac:remove", MkRuleSpec RuleType.Mac Redaction.Remove)].

Definition builtin_uuid : list (string * RuleSpec) :=
  [("@uuid", rule_alias "@uuid:mask");
   ("@uuid:replace", MkRuleSpec RuleType.Uuid (Redaction.Replace "[uuid]"));
   ("@uuid:hash", MkRuleSpec RuleType.Uuid Redaction.Hash);
   ("@uuid:mask", MkRuleSpec RuleType.Uuid Redaction.Mask);
   ("@uuid:remove", MkRuleSpec RuleType.Uuid Redaction.Remove)].

Definition builtin_email : list (string * RuleSpec) :=
  [("@email", rule_alias "@email:replace");
   ("@email:replace", MkRuleSpec RuleType.Email (Redaction.Replace "[email]"));
   ("@email:hash", MkRuleSpec RuleType.Email Redaction.Hash);
   ("@email:mask", MkRuleSpec RuleType.Email Redaction.Mask);
   ("@email:remove", MkRuleSpec RuleType.Email Redaction.Remove)].

Definition builtin_creditcard : list (string * RuleSpec) :=
  [("@creditcard", rule_alias "@creditcard:replace");
   ("@creditcard:hash", MkRuleSpec RuleType.Creditcard Redaction.Hash);
   ("@creditcard:replace", MkRuleSpec RuleType.Creditcard (Redaction.Replace "[creditcard]"));
   ("@creditcard:mask", MkRuleSpec RuleType.Creditcard Redaction.Mask);
   ("@creditcard:filter", MkRuleSpec RuleType.Creditcard (Redaction.Replace "[Filtered]"));
   ("@creditcard:remove", MkRuleSpec RuleType.Creditcard Redaction.Remove)].

Definition builtin_pemkey : list (string * RuleSpec) :=
  [("@pemkey", rule_alias "@pemkey:replace");
   ("@pemkey:replace", MkRuleSpec RuleType.Pemkey (Redaction.Replace "[pemkey]"));
   ("@pemkey:filter", MkRuleSpec RuleType.Pemkey (Redaction.Replace "[Filtered]"));
   ("@pemkey:hash", MkRuleSpec RuleType.Pemkey Redaction.Hash);
   ("@pemkey:mask", MkRuleSpec RuleType.Pemkey Redaction.Mask);
   ("@pemkey:remove", MkRuleSpec RuleType.Pemkey Redaction.Remove)].

Definition builtin_urlauth : list (string * RuleSpec) :=
  [("@urlauth", rule_alias "@urlauth:replace");
   ("@urlauth:replace", MkRuleSpec RuleType.UrlAuth (Redaction.Replace "[auth]"));
   ("@urlauth:hash", MkRuleSpec RuleType.UrlAuth Redaction.Hash);
   ("@urlauth:mask", MkRuleSpec RuleType.UrlAuth Redaction.Mask);
   ("@urlauth:remove", MkRuleSpec RuleType.UrlAuth Redaction.Remove);
   ("@urlauth:legacy", MkRuleSpec (RuleType.Pattern (MkPatternRule (Regex_new "\b((?:[a-z0-9]+:)?//[a-zA-Z0-9%_.-]+:)([a-zA-Z0-9%_.-]+)@") (Some [2]))) (Redaction.Replace "[Filtered]"))].

Definition builtin_usssn : list (string * RuleSpec) :=
  [("@usssn", rule_alias "@usssn:mask");
   ("@usssn:replace", MkRuleSpec RuleType.UsSsn (Redaction.Replace "[us-ssn]"));
   ("@usssn:filter", MkRuleSpec RuleType.UsSsn (Redaction.Replace "[Filtered]"));
   ("@usssn:mask", MkRuleSpec RuleType.UsSsn Redaction.Mask);
   ("@usssn:hash", MkRuleSpec RuleType.UsSsn Redaction.Hash);
   ("@usssn:remove", MkRuleSpec RuleType.UsSsn Redaction.Remove)].

Definition builtin_userpath : list (string * RuleSpec) :=
  [("@userpath", rule_alias "@userpath:replace");
   ("@userpath:replace", MkRuleSpec RuleType.Userpath (Redaction.Replace "[user]"));
   ("@userpath:mask", MkRuleSpec RuleType.Userpath Redaction.Mask);
   ("@userpath:hash", MkRuleSpec RuleType.Userpath Redaction.Hash);
   ("@userpath:remove", MkRuleSpec RuleType.Userpath Redaction.Remove)].

Definition builtin_password : list (string * RuleSpec) :=
  [("@password", rule_alias "@password:remove");
   ("@password:filter", MkRuleSpec RuleType.Password (Redaction.Replace "[Filtered]"));
   ("@password:hash", MkRuleSpec RuleType.Password Redaction.Hash);
   ("@password:replace", MkRuleSpec RuleType.Password (Redaction.Replace "[password]"));
   ("@password:mask", MkRuleSpec RuleType.Password Redaction.Mask);
   ("@password:remove", MkRuleSpec RuleType.Password Redaction.Remove)].

Definition BUILTIN_RULES_MAP : list (string * RuleSpec) :=
  builtin_collections ++ builtin_anything ++ builtin_ip ++ builtin_imei ++ builtin_mac ++ builtin_uuid ++
  builtin_email ++ builtin_creditcard ++ builtin_pemkey ++ builtin_urlauth ++ builtin_usssn ++ builtin_userpath ++
  builtin_password.

(** The names of the built-in rules are distinct, so the order of the map does not matter. *)
Lemma builtin_names_distinct : NoDup (BUILTIN_RULES_MAP.*1).
Proof. apply (bool_decide_eq_true_1 _). vm_compute. reflexivity. Qed.

(** The built-in rule for masking an IMEI hashes it. *)
Lemma imei_mask_hashes :
  (list_to_map BUILTIN_RULES_MAP : gmap string RuleSpec) !! "@imei:mask" =
  Some (MkRuleSpec RuleType.Imei Redaction.Hash).
Proof. vm_compute. reflexivity. Qed.
