(* ===== verification/PiiConfig.v ===== *)
(** * relay-general: compiling PII configurations (pii/config.rs, pii/compiledconfig.rs,
    pii/legacy.rs, pii/convert.rs)

    [CompiledPiiConfig.new] resolves the rules that every selector applies: aliases and
    multiple rules are followed to the rules that match something.  The recursion of
    [collect_rules] follows names of a user's configuration, so it takes fuel; it returns for
    some fuel exactly when the references from the applied rules are well founded.
    [to_pii_config] turns the older data scrubbing settings into such a configuration. *)

From Stdlib Require Import Ascii String Sorted.
From S2P Require Import Prelude Strings Attrs Selectors PiiRules.

Open Scope string_scope.
Open Scope Z_scope.
Open Scope list_scope.

(** [Ord] of strings compares bytes. *)
Definition str_lt (s t : string) : Prop := String.compare s t = Lt.

(** ** Configurations *)

Record Vars := MkVars { hash_key : option string }.

(** [applications] is a [BTreeMap], in the order of its selectors. *)
Record PiiConfig := MkPiiConfig {
  config_rules : gmap string RuleSpec;
  vars : Vars;
  applications : list (SelectorSpec * list string);
}.

(** ** References to rules *)

Module RuleRef.
Record RuleRef := MkRuleRef { id : string; origin : string; ty : RuleType; redaction : Redaction }.

Definition new (id : string) (spec : RuleSpec) : RuleRef :=
  MkRuleRef id id (PiiRules.ty spec) (PiiRules.redaction spec).

Definition for_parent (self parent : RuleRef) : RuleRef :=
  MkRuleRef (id self) (origin parent) (ty self)
    (match redaction parent with Redaction.Default => redaction self | r => r end).
End RuleRef.
Notation RuleRef := RuleRef.RuleRef.

Definition BUILTIN_RULES : gmap string RuleSpec := list_to_map BUILTIN_RULES_MAP.

Definition get_rule (config : PiiConfig) (id : string) : option RuleRef :=
  match config_rules config !! id with
  | Some spec => Some (RuleRef.new id spec)
  | None => RuleRef.new id <$> BUILTIN_RULES !! id
  end.

(** [BTreeSet<RuleRef>]: sorted by id, where references with the same id are equal. *)
Definition rules_contains (rules : list RuleRef) (rule : RuleRef) : bool :=
  existsb (fun r => bool_decide (RuleRef.id r = RuleRef.id rule)) rules.

Fixpoint rules_insert (rule : RuleRef) (rules : list RuleRef) : list RuleRef :=
  match rules with
  | [] => [rule]
  | r :: rest =>
      match String.compare (RuleRef.id rule) (RuleRef.id r) with
      | Lt => rule :: rules
      | Eq => rules
      | Gt => r :: rules_insert rule rest
      end
  end.

(** The loop over the members of a multiple rule. *)
Fixpoint collect_each (collect : list RuleRef -> string -> option (list RuleRef)) (rules : list RuleRef)
    (ids : list string) : option (list RuleRef) :=
  match ids with
  | [] => Some rules
  | rule_id :: ids => rules ← collect rules rule_id; collect_each collect rules ids
  end.

Fixpoint collect_rules (fuel : nat) (config : PiiConfig) (parent : option RuleRef) (rules : list RuleRef)
    (rule_id : string) : option (list RuleRef) :=
  match fuel with
  | O => None
  | S fuel =>
      match get_rule config rule_id with
      | None => Some rules
      | Some rule =>
          if rules_contains rules rule then Some rules else
          let rule := match parent with Some parent => RuleRef.for_parent rule parent | None => rule end in
          match RuleRef.ty rule with
          | RuleType.Multiple m =>
              let parent := if multiple_hide_inner m then Some rule else None in
              collect_each (collect_rules fuel config parent) rules (PiiRules.rules m)
          | RuleType.Alias a =>
              let parent := if alias_hide_inner a then Some rule else None in
              collect_rules fuel config parent rules (PiiRules.rule a)
          | _ => Some (rules_insert rule rules)
          end
      end
  end.

Definition CompiledPiiConfig : Type := list (SelectorSpec * list RuleRef).

Definition CompiledPiiConfig_new (fuel : nat) (config : PiiConfig) : option CompiledPiiConfig :=
  mapM (fun '(selector, rules) =>
          rule_set ← collect_each (collect_rules fuel config None) [] rules;
          Some (selector, rule_set))
    (applications config).

(** ** Data scrubbing settings *)

Record DataScrubbingConfig := MkDataScrubbingConfig {
  exclude_fields : list string;
  scrub_data : bool;
  scrub_ip_addresses : bool;
  sensitive_fields : list string;
  scrub_defaults : bool;
}.

Definition new_disabled : DataScrubbingConfig := MkDataScrubbingConfig [] false false [] false.

Definition is_disabled (self : DataScrubbingConfig) : bool := negb (scrub_data self) && negb (scrub_ip_addresses self).

Definition known_ip_fields_text : string := "($request.env.REMOTE_ADDR | $user.ip_address | $sdk.client_ip)".
Definition datascrubber_ignore_text : string :=
  "( debug_meta.** | $frame.filename | $frame.abs_path | $logentry.formatted | $error.value )".

(** The selectors that the source parses once; see [known_selectors]. *)
Definition KNOWN_IP_FIELDS : SelectorSpec :=
  match Selector.from_str known_ip_fields_text with Ok s => s | Err _ => And [] end.
Definition DATASCRUBBER_IGNORE : SelectorSpec :=
  match Selector.from_str datascrubber_ignore_text with Ok s => s | Err _ => And [] end.

Section Convert.

(** [regex::escape], and whether [RegexBuilder::build] accepts a regular expression. *)
Context (regex_escape : string -> string) (builds : Regex -> bool).

(** The fields that remain after trimming. *)
Definition trimmed_fields (fields : list string) : list string :=
  filter (fun x => x <> "") (trim <$> fields).

Definition sensitive_fields_re (fields : list string) : option string :=
  match trimmed_fields fields with
  | [] => None
  | fields => Some (join_with "|" (regex_escape <$> fields))
  end.

Definition strip_fields_rule (key_pattern : string) : outcome RuleSpec :=
  let regex := MkRegex key_pattern true in
  if builds regex then
    Ret (MkRuleSpec (RuleType.RedactPair (MkRedactPairRule regex)) (Redaction.Replace "[Filtered]"))
  else Panic.

Definition applied_selector (exclude_fields : list string) : SelectorSpec :=
  And ([Or [SelectorSpec_from ValueType.String_; SelectorSpec_from ValueType.Number; SelectorSpec_from ValueType.Array];
        Not DATASCRUBBER_IGNORE] ++
       ((fun field => Not (Path [SelectorPathItem.Key field])) <$> trimmed_fields exclude_fields)).

(** The selector of the fields is a conjunction and the one of the addresses a disjunction,
    which the order of selectors puts behind it. *)
Definition to_pii_config (c : DataScrubbingConfig) : outcome (option PiiConfig) :=
  let applied_rules := if scrub_data c && scrub_defaults c then ["@common:filter"] else [] in
  let ip_application := if scrub_ip_addresses c then [(KNOWN_IP_FIELDS, ["@anything:remove"])] else [] in
  '(custom_rules, applied_rules) ←
     (if scrub_data c then
        match sensitive_fields_re (sensitive_fields c) with
        | Some key_pattern =>
            spec ← strip_fields_rule key_pattern;
            Ret ({["strip-fields" := spec]}, applied_rules ++ ["strip-fields"])
        | None => Ret (∅, applied_rules)
        end
      else Ret (∅, applied_rules));
  match applied_rules, ip_application with
  | [], [] => Ret None
  | _, _ =>
      let field_application :=
        match applied_rules with [] => [] | _ => [(applied_selector (exclude_fields c), applied_rules)] end in
      Ret (Some (MkPiiConfig custom_rules (MkVars None) (field_application ++ ip_application)))
  end.

End Convert.

(** ** Resolving rules: the specification *)

(** The rules that a rule names, and whether it is reported in place of them. *)
Definition references (t : RuleType) : list string :=
  match t with
  | RuleType.Multiple m => PiiRules.rules m
  | RuleType.Alias a => [PiiRules.rule a]
  | _ => []
  end.
Definition hides (t : RuleType) : bool :=
  match t with
  | RuleType.Multiple m => multiple_hide_inner m
  | RuleType.Alias a => alias_hide_inner a
  | _ => false
  end.
Definition is_leaf (t : RuleType) : bool :=
  match t with RuleType.Multiple _ | RuleType.Alias _ => false | _ => true end.

Definition inherit (parent : option RuleRef) (rule : RuleRef) : RuleRef :=
  match parent with Some parent => RuleRef.for_parent rule parent | None => rule end.

Section Spec.
Context (config : PiiConfig).

(** [inner] is named by the rule [outer]. *)
Definition refers (inner outer : string) : Prop :=
  exists r, get_rule config outer = Some r /\ inner ∈ references (RuleRef.ty r).

(** The rules that applying [id] yields, with the origin and the redaction they inherit on
    the way. *)
Inductive yields : option RuleRef -> string -> RuleRef -> Prop :=
| yields_leaf parent id r :
    get_rule config id = Some r -> is_leaf (RuleRef.ty r) = true -> yields parent id (inherit parent r)
| yields_inner parent id r inner r' :
    get_rule config id = Some r -> inner ∈ references (RuleRef.ty r) ->
    yields (if hides (RuleRef.ty r) then Some (inherit parent r) else None) inner r' ->
    yields parent id r'.

Definition leaf_rule (r : RuleRef) : Prop :=
  exists r0, get_rule config (RuleRef.id r) = Some r0 /\ is_leaf (RuleRef.ty r0) = true.

(** ** The recursion *)

Lemma get_rule_id id r : get_rule config id = Some r -> RuleRef.id r = id.
Proof.
  unfold get_rule. destruct (config_rules config !! id) as [spec|]; [by intros [= <-]|].
  intros (spec & _ & ->)%fmap_Some_1. done.
Qed.

Lemma inherit_id parent r : RuleRef.id (inherit parent r) = RuleRef.id r.
Proof. by destruct parent. Qed.
Lemma inherit_ty parent r : RuleRef.ty (inherit parent r) = RuleRef.ty r.
Proof. by destruct parent. Qed.

Lemma collect_step fuel parent rules id :
  collect_rules (S fuel) config parent rules id =
  match get_rule config id with
  | None => Some rules
  | Some r =>
      if rules_contains rules r then Some rules
      else if is_leaf (RuleRef.ty r) then Some (rules_insert (inherit parent r) rules)
      else collect_each (collect_rules fuel config (if hides (RuleRef.ty r) then Some (inherit parent r) else None))
             rules (references (RuleRef.ty r))
  end.
Proof.
  cbn [collect_rules]. destruct (get_rule config id) as [r|]; [|done].
  destruct (rules_contains rules r); [done|]. fold (inherit parent r). cbv zeta. rewrite inherit_ty.
  destruct (RuleRef.ty r) as [| | | | | | | | | | | | | |m|a]; try done.
  cbn [references hides is_leaf collect_each]. by destruct (collect_rules _ _ _ _ _).
Qed.

Lemma contains_spec rules r : rules_contains rules r = true <-> exists r', r' ∈ rules /\ RuleRef.id r' = RuleRef.id r.
Proof.
  unfold rules_contains. rewrite existsb_exists.
  split; intros (x & Hx & Hid); exists x; rewrite list_elem_of_In in *; [by apply bool_decide_eq_true in Hid|].
  by rewrite bool_decide_eq_true.
Qed.

Lemma contains_leaf rules id r :
  Forall leaf_rule rules -> get_rule config id = Some r -> rules_contains rules r = true ->
  is_leaf (RuleRef.ty r) = true.
Proof.
  intros Hl Hr (r' & Hr' & Hid)%contains_spec. rewrite Forall_forall in Hl.
  destruct (Hl _ Hr') as (r0 & H0 & Hleaf). rewrite Hid, (get_rule_id id r Hr) in H0. congruence.
Qed.

Lemma elem_rules_insert r x rules : x ∈ rules_insert r rules -> x = r \/ x ∈ rules.
Proof.
  induction rules as [|y rest IH]; simpl; [set_solver|].
  destruct (String.compare _ _); set_solver.
Qed.

Lemma rules_insert_keeps r rules : rules ⊆ rules_insert r rules.
Proof. induction rules as [|y rest IH]; simpl; [set_solver|]. destruct (String.compare _ _); set_solver. Qed.

Lemma rules_insert_has r rules : RuleRef.id r ∈ RuleRef.id <$> rules_insert r rules.
Proof.
  induction rules as [|y rest IH]; simpl; [set_solver|].
  destruct (String.compare _ _) eqn:Hc; simpl; [|set_solver..].
  apply String.compare_eq_iff in Hc. rewrite Hc. set_solver.
Qed.

(** ** Fuel *)

Lemma collect_each_mono (f g : list RuleRef -> string -> option (list RuleRef)) ids rules rules' :
  (forall rs id rs', f rs id = Some rs' -> g rs id = Some rs') ->
  collect_each f rules ids = Some rules' -> collect_each g rules ids = Some rules'.
Proof.
  intros Hfg. revert rules. induction ids as [|id ids IH]; intros rules; simpl; [done|].
  intros (rs & H1 & H2)%bind_Some. rewrite (Hfg _ _ _ H1). by apply IH.
Qed.

Lemma collect_mono fuel fuel' parent rules id rules' : (fuel <= fuel')%nat ->
  collect_rules fuel config parent rules id = Some rules' -> collect_rules fuel' config parent rules id = Some rules'.
Proof.
  revert fuel' parent rules id rules'. induction fuel as [|fuel IH]; intros [|fuel'] parent rules id rules' Hle; try done; [lia|].
  rewrite !collect_step. destruct (get_rule config id) as [r|]; [|done].
  destruct (rules_contains rules r); [done|]. destruct (is_leaf _); [done|].
  apply collect_each_mono. intros rs id' rs'. apply IH. lia.
Qed.

(** ** What the recursion keeps *)

Lemma collect_each_ind (P : list RuleRef -> list RuleRef -> Prop) f ids rules rules' :
  (forall rs, P rs rs) -> (forall a b c, P a b -> P b c -> P a c) ->
  (forall rs id rs', id ∈ ids -> f rs id = Some rs' -> P rs rs') ->
  collect_each f rules ids = Some rules' -> P rules rules'.
Proof.
  intros Hr Ht. revert rules. induction ids as [|id ids IH]; intros rules Hf; simpl; [by intros [= <-]|].
  intros (rs & H1 & H2)%bind_Some. apply (Ht _ rs); [apply (Hf _ id); [set_solver|done]|].
  apply IH; [|done]. intros rs1 i rs2 Hi. apply Hf. set_solver.
Qed.

(** A property of pairs of rule sets that inserting has and that composes holds of every
    collection. *)
Lemma collect_ind (P : list RuleRef -> list RuleRef -> Prop) :
  (forall rs, P rs rs) -> (forall a b c, P a b -> P b c -> P a c) ->
  (forall parent rs id r, get_rule config id = Some r -> is_leaf (RuleRef.ty r) = true ->
     rules_contains rs r = false -> P rs (rules_insert (inherit parent r) rs)) ->
  forall fuel parent rules id rules', collect_rules fuel config parent rules id = Some rules' -> P rules rules'.
Proof.
  intros Hr Ht Hi. induction fuel as [|fuel IH]; intros parent rules id rules'; [done|].
  rewrite collect_step. destruct (get_rule config id) as [r|] eqn:Hg; [|by intros [= <-]].
  destruct (rules_contains rules r) eqn:Hc; [by intros [= <-]|].
  destruct (is_leaf _) eqn:Hl; [intros [= <-]; by apply (Hi parent rules id)|].
  apply collect_each_ind; [done..|]. intros rs id' rs' _. apply IH.
Qed.

Lemma collect_leaves fuel parent rules id rules' : Forall leaf_rule rules ->
  collect_rules fuel config parent rules id = Some rules' -> Forall leaf_rule rules'.
Proof.
  intros Hl H. revert Hl. refine (collect_ind (fun a b => Forall leaf_rule a -> Forall leaf_rule b) _ _ _ _ _ _ _ _ H);
    [done|auto|].
  intros p rs i r Hg Hleaf _ Hrs. rewrite Forall_forall. intros x [->|Hx]%elem_rules_insert.
  - exists r. by rewrite inherit_id, (get_rule_id _ _ Hg).
  - rewrite Forall_forall in Hrs. by apply Hrs.
Qed.

Lemma collect_keeps fuel parent rules id rules' :
  collect_rules fuel config parent rules id = Some rules' -> rules ⊆ rules'.
Proof.
  apply (collect_ind (fun a b => a ⊆ b)); [done|set_solver|]. intros. apply rules_insert_keeps.
Qed.

Lemma str_compare_trans a b c : str_lt a b -> str_lt b c -> str_lt a c.
Proof.
  unfold str_lt. revert b c. induction a as [|x a IH]; intros [|y b] [|z c]; simpl; try done.
  unfold Ascii.compare. destruct (N.compare_spec (N_of_ascii x) (N_of_ascii y)) as [E1|E1|E1],
    (N.compare_spec (N_of_ascii y) (N_of_ascii z)) as [E2|E2|E2]; try done; intros H1 H2;
  destruct (N.compare_spec (N_of_ascii x) (N_of_ascii z)) as [E3|E3|E3]; try done; try lia. by apply (IH b).
Qed.

Lemma rules_insert_sorted r rules :
  StronglySorted str_lt (RuleRef.id <$> rules) -> StronglySorted str_lt (RuleRef.id <$> rules_insert r rules).
Proof.
  induction rules as [|y rest IH]; simpl; intros H; [by repeat constructor|].
  apply StronglySorted_inv in H as [Hs Hf].
  destruct (String.compare _ _) eqn:Hc; simpl; constructor; auto.
  - by constructor.
  - constructor; [done|]. rewrite Forall_forall in Hf |- *. intros x Hx. by apply (str_compare_trans _ (RuleRef.id y)), Hf.
  - rewrite Forall_forall in Hf |- *. intros x (z & -> & [->|Hz]%elem_rules_insert)%list_elem_of_fmap.
    + unfold str_lt. rewrite String.compare_antisym, Hc. done.
    + apply Hf. apply list_elem_of_fmap. eauto.
Qed.

Lemma collect_sorted fuel parent rules id rules' :
  StronglySorted str_lt (RuleRef.id <$> rules) ->
  collect_rules fuel config parent rules id = Some rules' -> StronglySorted str_lt (RuleRef.id <$> rules').
Proof.
  intros Hs H. revert Hs.
  refine (collect_ind (fun a b => StronglySorted str_lt (RuleRef.id <$> a) -> StronglySorted str_lt (RuleRef.id <$> b))
            _ _ _ _ _ _ _ _ H); [done|auto|]. intros. by apply rules_insert_sorted.
Qed.

(** ** Termination *)

Lemma collect_each_leaves fuel parent rules ids rules' : Forall leaf_rule rules ->
  collect_each (collect_rules fuel config parent) rules ids = Some rules' -> Forall leaf_rule rules'.
Proof.
  intros Hl H. revert Hl. refine (collect_each_ind (fun a b => Forall leaf_rule a -> Forall leaf_rule b) _ _ _ _ _ _ _ H);
    [done|auto|]. intros rs id rs' _ Hc Hrs. by apply (collect_leaves _ _ _ _ _ Hrs Hc).
Qed.

Lemma collect_each_returned fuel parent rules ids rules' id : Forall leaf_rule rules ->
  collect_each (collect_rules fuel config parent) rules ids = Some rules' -> id ∈ ids ->
  exists rs rs', Forall leaf_rule rs /\ collect_rules fuel config parent rs id = Some rs' /\ rs' ⊆ rules'.
Proof.
  revert rules. induction ids as [|i ids IH]; intros rules Hl; simpl; [set_solver|].
  intros (rs & H1 & H2)%bind_Some [->|Hid]%elem_of_cons.
  - exists rules, rs. split; [done|]. split; [done|].
    refine (collect_each_ind (fun a b => a ⊆ b) _ _ _ _ _ _ _ H2); [done|set_solver|].
    intros a x b _. apply collect_keeps.
  - apply (IH rs); [|done..]. by apply (collect_leaves _ _ _ _ _ Hl H1).
Qed.

Lemma returned_acc fuel parent rules id rules' : Forall leaf_rule rules ->
  collect_rules fuel config parent rules id = Some rules' -> Acc refers id.
Proof.
  revert parent rules id rules'. induction fuel as [|fuel IH]; intros parent rules id rules' Hl; [done|].
  rewrite collect_step. intros H. constructor. intros inner (r & Hg & Hin). rewrite Hg in H.
  assert (is_leaf (RuleRef.ty r) = false) as Hleaf by (by destruct (RuleRef.ty r); try done; apply not_elem_of_nil in Hin).
  destruct (rules_contains rules r) eqn:Hc; [by rewrite (contains_leaf _ _ _ Hl Hg Hc) in Hleaf|].
  rewrite Hleaf in H. destruct (collect_each_returned _ _ _ _ _ inner Hl H Hin) as (rs & rs' & Hrs & Hrec & _).
  by apply (IH _ _ _ _ Hrs Hrec).
Qed.

(** Calls that return one by one return in a row, with the largest fuel. *)
Lemma collect_each_returns parent ids rules : Forall leaf_rule rules ->
  (forall id rs, id ∈ ids -> Forall leaf_rule rs -> exists fuel rs', collect_rules fuel config parent rs id = Some rs') ->
  exists fuel rules', collect_each (collect_rules fuel config parent) rules ids = Some rules'.
Proof.
  revert rules. induction ids as [|id ids IH]; intros rules Hl Hr; [by exists O, rules|].
  destruct (Hr id rules) as (f1 & rs & H1); [set_solver|done|].
  destruct (IH rs) as (f2 & rules' & H2); [by apply (collect_leaves _ _ _ _ _ Hl H1)|set_solver|].
  exists (Nat.max f1 f2), rules'. cbn [collect_each].
  rewrite (collect_mono f1 (Nat.max f1 f2) _ _ _ _ ltac:(lia) H1). cbn [mbind option_bind].
  eapply collect_each_mono; [|exact H2]. intros a i b. apply collect_mono. lia.
Qed.

Lemma acc_returns id : Acc refers id -> forall parent rules, Forall leaf_rule rules ->
  exists fuel rules', collect_rules fuel config parent rules id = Some rules'.
Proof.
  induction 1 as [id _ IH]. intros parent rules Hl. destruct (get_rule config id) as [r|] eqn:Hg.
  2: { exists 1%nat, rules. by rewrite collect_step, Hg. }
  destruct (rules_contains rules r) eqn:Hc; [exists 1%nat, rules; by rewrite collect_step, Hg, Hc|].
  destruct (is_leaf (RuleRef.ty r)) eqn:Hleaf; [eexists 1%nat, _; by rewrite collect_step, Hg, Hc, Hleaf|].
  destruct (collect_each_returns (if hides (RuleRef.ty r) then Some (inherit parent r) else None)
              (references (RuleRef.ty r)) rules Hl) as (fuel & rules' & H).
  { intros inner rs Hin Hrs. apply IH; [|done]. by exists r. }
  exists (S fuel), rules'. by rewrite collect_step, Hg, Hc, Hleaf.
Qed.

(** ** The rules collected *)

Lemma collect_sound fuel parent rules id rules' r :
  collect_rules fuel config parent rules id = Some rules' -> r ∈ rules' -> r ∈ rules \/ yields parent id r.
Proof.
  revert parent rules id rules'. induction fuel as [|fuel IH]; intros parent rules id rules'; [done|].
  rewrite collect_step. destruct (get_rule config id) as [q|] eqn:Hg; [|intros [= <-]; auto].
  destruct (rules_contains rules q); [intros [= <-]; auto|]. destruct (is_leaf _) eqn:Hl.
  { intros [= <-] [->|]%elem_rules_insert; [right; by apply yields_leaf|by left]. }
  intros H Hr. revert Hr.
  refine (collect_each_ind (fun a b => r ∈ b -> r ∈ a \/ yields parent id r) _ _ _ _ _ _ _ H); [auto|naive_solver|].
  intros rs inner rs' Hin Hrec Hr. destruct (IH _ _ _ _ Hrec Hr) as [|Hy]; [by left|right]. by eapply yields_inner.
Qed.

Lemma yields_id_leaf parent id q r : get_rule config id = Some q -> is_leaf (RuleRef.ty q) = true ->
  yields parent id r -> RuleRef.id r = id.
Proof.
  intros Hg Hl Hy. destruct Hy as [parent id r H _|parent id r inner r' H Hin _].
  - by rewrite inherit_id, (get_rule_id _ _ H).
  - simplify_eq. destruct (RuleRef.ty q); try done; by apply not_elem_of_nil in Hin.
Qed.

Lemma collect_complete fuel parent rules id rules' r : Forall leaf_rule rules ->
  collect_rules fuel config parent rules id = Some rules' -> yields parent id r ->
  RuleRef.id r ∈ RuleRef.id <$> rules'.
Proof.
  revert parent rules id rules'. induction fuel as [|fuel IH]; intros parent rules id rules' Hl; [done|].
  rewrite collect_step. destruct (get_rule config id) as [q|] eqn:Hg.
  2: { intros _ Hy. destruct Hy; congruence. }
  destruct (rules_contains rules q) eqn:Hc.
  { intros [= <-] Hy. rewrite (yields_id_leaf _ _ _ _ Hg (contains_leaf _ _ _ Hl Hg Hc) Hy).
    apply contains_spec in Hc as (r' & Hr' & Hid). rewrite (get_rule_id _ _ Hg) in Hid.
    apply list_elem_of_fmap. by exists r'. }
  destruct (is_leaf _) eqn:Hleaf.
  { intros [= <-] Hy. rewrite (yields_id_leaf _ _ _ _ Hg Hleaf Hy), <- (get_rule_id _ _ Hg), <- (inherit_id parent).
    apply rules_insert_has. }
  intros H Hy. destruct Hy as [parent id q' H1 H2|parent id q' inner r' H1 Hin Hy]; simplify_eq; [congruence|].
  destruct (collect_each_returned _ _ _ _ _ inner Hl H Hin) as (rs & rs' & Hrs & Hrec & Hsub).
  specialize (IH _ _ _ _ Hrs Hrec Hy). apply list_elem_of_fmap in IH as (x & Hx & Hxin).
  apply list_elem_of_fmap. exists x. split; [done|]. by apply Hsub.
Qed.

(** A rule set for the rules [ids] that a selector applies. *)
Definition resolves (ids : list string) (set : list RuleRef) : Prop :=
  StronglySorted str_lt (RuleRef.id <$> set) /\
  (forall r, r ∈ set -> exists id, id ∈ ids /\ yields None id r) /\
  (forall id r, id ∈ ids -> yields None id r -> exists r', r' ∈ set /\ RuleRef.id r' = RuleRef.id r).

Lemma collect_each_resolves fuel ids set :
  collect_each (collect_rules fuel config None) [] ids = Some set -> resolves ids set.
Proof.
  intros H. split; [|split].
  - refine (collect_each_ind (fun a b => StronglySorted str_lt (RuleRef.id <$> a) -> StronglySorted str_lt (RuleRef.id <$> b))
              _ _ _ _ _ _ _ H _); [done|auto| |constructor].
    intros rs id rs' _ Hc Hs. by apply (collect_sorted _ _ _ _ _ Hs Hc).
  - intros r Hr.
    assert (r ∈ [] \/ exists id, id ∈ ids /\ yields None id r) as [Hn|]; [|by apply not_elem_of_nil in Hn|done].
    revert Hr. refine (collect_each_ind (fun a b => r ∈ b -> r ∈ a \/ exists id, id ∈ ids /\ yields None id r)
              _ _ _ _ _ _ _ H); [auto|naive_solver|].
    intros rs id rs' Hid Hc Hr. destruct (collect_sound _ _ _ _ _ _ Hc Hr); eauto.
  - intros id r Hid Hy. destruct (collect_each_returned _ _ [] _ _ id ltac:(constructor) H Hid) as (rs & rs' & Hrs & Hc & Hsub).
    pose proof (collect_complete _ _ _ _ _ _ Hrs Hc Hy) as (x & -> & Hx)%list_elem_of_fmap. exists x. split; [|done]. by apply Hsub.
Qed.

End Spec.

Section Compile.
Context (config : PiiConfig).

Lemma compile_some fuel compiled : CompiledPiiConfig_new fuel config = Some compiled <->
  Forall2 (fun app c => c.1 = app.1 /\ collect_each (collect_rules fuel config None) [] app.2 = Some c.2)
    (applications config) compiled.
Proof.
  etransitivity; [apply mapM_Some|].
  split; intros H; (eapply Forall2_impl; [exact H|]); intros [sel ids] [sel' set]; simpl.
  - intros (rs & Hc & [= -> ->])%bind_Some. done.
  - intros [-> ->]. done.
Qed.

Lemma applications_return (apps : list (SelectorSpec * list string)) :
  (forall sel ids id, (sel, ids) ∈ apps -> id ∈ ids -> Acc (refers config) id) ->
  exists fuel, Forall (fun app => is_Some (collect_each (collect_rules fuel config None) [] app.2)) apps.
Proof.
  induction apps as [|[sel ids] apps IH]; intros Hacc; [by exists O|].
  destruct IH as (f1 & H1); [intros; eapply Hacc; [apply list_elem_of_further|]; done|].
  destruct (collect_each_returns config None ids []) as (f2 & set & H2); [constructor|..].
  { intros id rs Hid Hrs. apply acc_returns; [|done]. apply (Hacc sel ids id); [apply list_elem_of_here|done]. }
  exists (Nat.max f1 f2). constructor.
  - exists set. simpl. eapply collect_each_mono; [|exact H2]. intros a i b. apply collect_mono. lia.
  - eapply Forall_impl; [exact H1|]. intros [sel' ids'] [set' Hs]. exists set'.
    eapply collect_each_mono; [|exact Hs]. intros a i b. apply collect_mono. lia.
Qed.

(** Compiling a PII configuration returns exactly when the references between the
    rules it applies are well founded: a rule that reaches itself through aliases or
    multiple rules recurses forever.  What it returns has the selectors of the
    configuration in their order; each with the rules that match something and that the applied
    rules lead to, in the order of their ids, every one once and with an origin and a
    redaction that it inherits on a way to it. *)
Theorem rules_compiled :
  ((exists fuel, is_Some (CompiledPiiConfig_new fuel config)) <->
   (forall sel ids id, (sel, ids) ∈ applications config -> id ∈ ids -> Acc (refers config) id)) /\
  (forall fuel compiled, CompiledPiiConfig_new fuel config = Some compiled ->
     Forall2 (fun app c => c.1 = app.1 /\ resolves config app.2 c.2) (applications config) compiled).
Proof.
  split; [split|].
  - intros (fuel & compiled & H) sel ids id Happ Hid. apply compile_some in H.
    apply list_elem_of_lookup in Happ as (i & Hi). destruct (Forall2_lookup_l _ _ _ _ _ H Hi) as (c & _ & _ & Hc).
    destruct (collect_each_returned config _ _ [] _ _ id ltac:(constructor) Hc Hid) as (rs & rs' & Hrs & Hrec & _).
    by apply (returned_acc config _ _ _ _ _ Hrs Hrec).
  - intros Hacc. destruct (applications_return _ Hacc) as (fuel & H). exists fuel. apply mapM_is_Some.
    eapply Forall_impl; [exact H|]. intros [sel ids] [set Hs]. simpl in *. rewrite Hs. by eexists.
  - intros fuel compiled H%compile_some. eapply Forall2_impl; [exact H|]. intros [sel ids] [sel' set] [-> Hc].
    split; [done|]. by apply (collect_each_resolves config fuel).
Qed.

End Compile.

(** A rule that is an alias of itself keeps the compilation from ever returning. *)
Definition alias_cycle : PiiConfig :=
  MkPiiConfig {["a" := MkRuleSpec (RuleType.Alias (MkAliasRule "a" false)) Redaction.Default]} (MkVars None)
    [(SelectorSpec_from ValueType.String_, ["a"])].

Lemma acc_irreflexive {A} {R : A -> A -> Prop} x : Acc R x -> ~ R x x.
Proof. induction 1 as [x _ IH]. intros H. by apply (IH x). Qed.

Lemma alias_cycle_never_compiles fuel : CompiledPiiConfig_new fuel alias_cycle = None.
Proof.
  destruct (CompiledPiiConfig_new fuel alias_cycle) as [compiled|] eqn:H; [exfalso|done].
  apply compile_some in H. apply Forall2_cons_inv_l in H as (c & l & [_ Hc] & _ & _). simpl in Hc.
  apply bind_Some in Hc as (rs & Hc & _). apply returned_acc in Hc; [|constructor].
  apply (acc_irreflexive _ Hc). by eexists; split; [reflexivity|apply list_elem_of_here].
Qed.

(** ** Data scrubbing settings *)

(** The texts of both selectors parse. *)
Lemma known_selectors :
  Selector.from_str known_ip_fields_text = Ok KNOWN_IP_FIELDS /\
  Selector.from_str datascrubber_ignore_text = Ok DATASCRUBBER_IGNORE.
Proof. split; vm_compute; reflexivity. Qed.

Section KeyPaths.
Context (to_lowercase : string -> string).
#[local] Notation matches := (matches_selector to_lowercase).

(** The key of a state is [f], in any case. *)
Definition has_key (state : ProcessingState) (f : string) : bool :=
  match path_key state with
  | Some k => bool_decide (to_lowercase k = to_lowercase f)
  | None => false
  end.

Lemma path_key_root state : wf_state state -> ProcessingState.depth state = 0%nat -> path_key state = None.
Proof.
  induction 1 as [attrs tys|s item attrs tys _ _|s attrs _ IH]; intros Hd; [done| |].
  - unfold ProcessingState.enter, ProcessingState.depth in Hd. simpl in Hd. lia.
  - by apply IH.
Qed.

Lemma innermost_entered state : wf_state state -> (0 < ProcessingState.depth state)%nat ->
  exists e l, List.filter ProcessingState.entered_anything (ProcessingState.iter state) = e :: l /\
    path_key e = path_key state.
Proof.
  induction 1 as [attrs tys|s item attrs tys _ _|s attrs _ IH]; intros Hd; [by inversion Hd|..].
  - change (ProcessingState.iter (ProcessingState.enter s item attrs tys)) with
      (ProcessingState.enter s item attrs tys :: ProcessingState.iter s).
    cbn [List.filter]. rewrite entered_enter. by eexists _, _.
  - destruct IH as (e & l & He & Hk); [done|]. exists e, l.
    change (ProcessingState.iter (ProcessingState.enter_nothing s attrs)) with
      (ProcessingState.enter_nothing s attrs :: ProcessingState.iter s).
    cbn [List.filter]. by rewrite entered_enter_nothing.
Qed.

Lemma key_path_matches state f : wf_state state ->
  FieldAttrs.pii (ProcessingState.attrs state) <> Pii.False ->
  matches state (Path [SelectorPathItem.Key f]) = has_key state f.
Proof.
  intros Hwf Hpii. cbn [matches_selector]. rewrite bool_decide_false by done. unfold matches_path, has_key. simpl length.
  case_bool_decide as Hd; [by rewrite path_key_root by (done || lia)|].
  destruct (innermost_entered state Hwf ltac:(lia)) as (e & l & -> & <-).
  cbn. rewrite (bool_decide_false (SelectorPathItem.Key f = _)) by done.
  destruct (FieldAttrs.pii _); try done; (destruct (path_key e); [case_bool_decide; [by destruct l|done]|done]).
Qed.

(** The states that the settings scrub by their fields. *)
Definition scrubs_state (exclude_fields : list string) (state : ProcessingState) : bool :=
  negb (bool_decide (FieldAttrs.pii (ProcessingState.attrs state) = Pii.False)) &&
  (matches state (Or [SelectorSpec_from ValueType.String_; SelectorSpec_from ValueType.Number;
                      SelectorSpec_from ValueType.Array]) &&
   (negb (matches state DATASCRUBBER_IGNORE) &&
    negb (existsb (has_key state) (trimmed_fields exclude_fields)))).

Lemma matches_not state x : FieldAttrs.pii (ProcessingState.attrs state) <> Pii.False ->
  matches state (Not x) = negb (matches state x).
Proof. intros Hpii. cbn [matches_selector]. by rewrite bool_decide_false. Qed.

Lemma matches_and state xs : FieldAttrs.pii (ProcessingState.attrs state) <> Pii.False ->
  matches state (And xs) = forallb (matches state) xs.
Proof. intros Hpii. cbn [matches_selector]. by rewrite bool_decide_false. Qed.

Lemma excluded_conjuncts state fields : wf_state state ->
  FieldAttrs.pii (ProcessingState.attrs state) <> Pii.False ->
  forallb (matches state) ((fun f => Not (Path [SelectorPathItem.Key f])) <$> fields) =
  negb (existsb (has_key state) fields).
Proof.
  intros Hwf Hpii. induction fields as [|f fields IH]; [done|]. rewrite fmap_cons. cbn [forallb existsb].
  by rewrite IH, negb_orb, matches_not, key_path_matches.
Qed.

Lemma applied_selector_matches state fields : wf_state state ->
  matches state (applied_selector fields) = scrubs_state fields state.
Proof.
  intros Hwf. unfold applied_selector, scrubs_state. case_bool_decide as Hpii.
  - by cbn [matches_selector]; rewrite bool_decide_true.
  - rewrite matches_and by done. cbn [app forallb negb andb]. by rewrite excluded_conjuncts, matches_not.
Qed.

End KeyPaths.

(** The rules that a compiled configuration applies at a state, in order. *)
Definition rules_at (to_lowercase : string -> string) (compiled : CompiledPiiConfig) (state : ProcessingState)
  : list RuleRef :=
  concat (snd <$> List.filter (fun app => matches_selector to_lowercase state app.1) compiled).

Definition filtered (id : string) (ty : RuleType) : RuleRef :=
  RuleRef.MkRuleRef id id ty (Redaction.Replace "[Filtered]").

(** The collection of default rules names a rule for user paths that does not exist, and
    unknown names are skipped: the defaults leave user paths alone. *)
Lemma userpath_filter_missing :
  RuleRef.new "@common:filter" <$> BUILTIN_RULES !! "@common:filter" =
    Some (RuleRef.MkRuleRef "@common:filter" "@common:filter"
            (RuleType.Multiple (MkMultipleRule ["@creditcard:filter"; "@pemkey:filter"; "@urlauth:legacy";
               "@userpath:filter"; "@password:filter"; "@usssn:filter"] false)) Redaction.Default) /\
  BUILTIN_RULES !! "@userpath:filter" = None.
Proof. split; vm_compute; reflexivity. Qed.

(** What the settings mean: the default rules and the one for the named fields. *)
Definition default_rules : list RuleRef :=
  [filtered "@creditcard:filter" RuleType.Creditcard;
   filtered "@password:filter" RuleType.Password;
   filtered "@pemkey:filter" RuleType.Pemkey;
   filtered "@urlauth:legacy" (RuleType.Pattern (MkPatternRule
     (Regex_new "\b((?:[a-z0-9]+:)?//[a-zA-Z0-9%_.-]+:)([a-zA-Z0-9%_.-]+)@") (Some [2])));
   filtered "@usssn:filter" RuleType.UsSsn].

Definition remove_rule : RuleRef :=
  RuleRef.MkRuleRef "@anything:remove" "@anything:remove" RuleType.Anything Redaction.Remove.

Section Legacy.
Context (regex_escape : string -> string) (builds : Regex -> bool) (to_lowercase : string -> string).

Definition field_rules (c : DataScrubbingConfig) : list RuleRef :=
  if scrub_data c then
    (if scrub_defaults c then default_rules else []) ++
    match sensitive_fields_re regex_escape (sensitive_fields c) with
    | Some re => [filtered "strip-fields" (RuleType.RedactPair (MkRedactPairRule (MkRegex re true)))]
    | None => []
    end
  else [].


(** The rules that the settings name, resolved. *)
Lemma collect_named v apps re :
  let m : gmap string RuleSpec := {["strip-fields" := MkRuleSpec (RuleType.RedactPair (MkRedactPairRule (MkRegex re true)))
                                                        (Redaction.Replace "[Filtered]")]} in
  let strip := filtered "strip-fields" (RuleType.RedactPair (MkRedactPairRule (MkRegex re true))) in
  let collect m := collect_each (collect_rules 3 (MkPiiConfig m v apps) None) [] in
  collect ∅ ["@common:filter"] = Some default_rules /\
  collect m ["@common:filter"; "strip-fields"] = Some (default_rules ++ [strip]) /\
  collect m ["strip-fields"] = Some [strip] /\
  collect ∅ ["@anything:remove"] = Some [remove_rule] /\
  collect m ["@anything:remove"] = Some [remove_rule].
Proof. repeat split; vm_compute; reflexivity. Qed.

#[local] Ltac named re :=
  match goal with
  | |- collect_each (collect_rules 3 (MkPiiConfig _ ?v ?apps) None) [] _ = _ =>
      destruct (collect_named v apps re) as (? & ? & ? & ? & ?); assumption
  end.

(** The applications of a converted configuration. *)
Definition legacy_applications {A} (excl : list string) (ip : bool) (fields : list A) (address : A)
  : list (SelectorSpec * list A) :=
  match fields with [] => [] | _ => [(applied_selector excl, fields)] end ++
  (if ip then [(KNOWN_IP_FIELDS, [address])] else []).

Lemma compile_legacy m v excl ip ids fields :
  let config := MkPiiConfig m v (legacy_applications excl ip ids "@anything:remove") in
  (ids = [] <-> fields = []) ->
  collect_each (collect_rules 3 config None) [] ids = Some fields ->
  collect_each (collect_rules 3 config None) [] ["@anything:remove"] = Some [remove_rule] ->
  CompiledPiiConfig_new 3 config = Some (legacy_applications excl ip fields remove_rule).
Proof.
  intros config Hne Hc Hr. apply compile_some. change (applications config) with (legacy_applications excl ip ids "@anything:remove").
  apply Forall2_app.
  - destruct ids as [|id ids], fields as [|f fields]; [constructor|naive_solver..|]. by repeat constructor.
  - destruct ip; by repeat constructor.
Qed.

Lemma rules_at_legacy excl ip fields state : wf_state state ->
  rules_at to_lowercase (legacy_applications excl ip fields remove_rule) state =
  (if scrubs_state to_lowercase excl state then fields else []) ++
  (if ip && matches_selector to_lowercase state KNOWN_IP_FIELDS then [remove_rule] else []).
Proof.
  intros Hwf. unfold rules_at, legacy_applications. rewrite List.filter_app, fmap_app, concat_app. f_equal.
  - destruct fields as [|f fields]; [by destruct (scrubs_state _ _ _)|]. cbn [List.filter].
    cbn [fst]. rewrite applied_selector_matches by done. destruct (scrubs_state _ _ _); [|done]. simpl. by rewrite app_nil_r.
  - destruct ip; [|done]. cbn [List.filter fst andb]. by destruct (matches_selector _ _ _).
Qed.

Lemma to_pii_config_spec c :
  (forall re, sensitive_fields_re regex_escape (sensitive_fields c) = Some re -> builds (MkRegex re true) = true) ->
  exists m ids,
    let apps := legacy_applications (exclude_fields c) (scrub_ip_addresses c) ids "@anything:remove" in
    let collect := collect_each (collect_rules 3 (MkPiiConfig m (MkVars None) apps) None) [] in
    to_pii_config regex_escape builds c =
      Ret (match apps with [] => None | _ => Some (MkPiiConfig m (MkVars None) apps) end) /\
    (ids = [] <-> field_rules c = []) /\
    collect ids = Some (field_rules c) /\ collect ["@anything:remove"] = Some [remove_rule].
Proof.
  intros Hb. unfold to_pii_config, field_rules, strip_fields_rule.
  destruct c as [excl [] ip sens defaults];
    cbn [scrub_data scrub_ip_addresses scrub_defaults sensitive_fields exclude_fields andb] in *.
  2: { exists ∅, []. split; [by destruct ip|]. split; [done|]. split; [done|]. named "". }
  destruct (sensitive_fields_re regex_escape sens) as [re|].
  - rewrite (Hb re eq_refl). destruct defaults; cbn [app mbind outcome_bind].
    + eexists _, ["@common:filter"; "strip-fields"]. split; [by destruct ip|]. split; [done|]. split; named re.
    + eexists _, ["strip-fields"]. split; [by destruct ip|]. split; [done|]. split; named re.
  - destruct defaults; cbn [app mbind outcome_bind].
    + exists ∅, ["@common:filter"]. split; [by destruct ip|]. split; [done|]. split; named "".
    + exists ∅, []. split; [by destruct ip|]. split; [done|]. split; [done|]. named "".
Qed.

(** Data scrubbing settings always convert, provided that the escaped field names
    make a regular expression: to nothing exactly when they scrub nothing, otherwise to a
    configuration that compiles and that applies, at every state, the default rules and
    the rule of the named fields where the value is a string, number or array that may be
    personal, the legacy scrubber may change it and no excluded field has its key, and that
    removes the known address fields, even excluded ones. *)
Theorem legacy_config c :
  (forall re, sensitive_fields_re regex_escape (sensitive_fields c) = Some re -> builds (MkRegex re true) = true) ->
  exists o, to_pii_config regex_escape builds c = Ret o /\
    (o = None <-> field_rules c = [] /\ scrub_ip_addresses c = false) /\
    forall config, o = Some config ->
      exists compiled, CompiledPiiConfig_new 3 config = Some compiled /\
        forall state, wf_state state ->
          rules_at to_lowercase compiled state =
          (if scrubs_state to_lowercase (exclude_fields c) state then field_rules c else []) ++
          (if scrub_ip_addresses c && matches_selector to_lowercase state KNOWN_IP_FIELDS then [remove_rule] else []).
Proof.
  intros Hb. destruct (to_pii_config_spec c Hb) as (m & ids & Ho & Hn & Hc & Hr). eexists. split; [exact Ho|]. split.
  - destruct (field_rules c), ids, (scrub_ip_addresses c); naive_solver.
  - intros config. destruct ids, (scrub_ip_addresses c) eqn:Hip; intros [= <-]; eexists; (split; [by apply compile_legacy|]);
      intros state Hwf; by apply rules_at_legacy.
Qed.

End Legacy.

(** Settings that scrub everything but the field [foo]. *)
Definition sample_settings : DataScrubbingConfig :=
  MkDataScrubbingConfig [" Foo "] true true ["secret"; ""; "token"] true.
Definition bar_state : ProcessingState :=
  ProcessingState.enter_static extra_state "bar" (Some PII_TRUE_FIELD_ATTRS) [ValueType.Array].

Lemma legacy_config_witness :
  exists config compiled,
    to_pii_config id (fun _ => true) sample_settings = Ret (Some config) /\
    CompiledPiiConfig_new 3 config = Some compiled /\
    rules_at to_ascii_lowercase compiled foo_state = [] /\
    rules_at to_ascii_lowercase compiled bar_state =
      default_rules ++ [filtered "strip-fields" (RuleType.RedactPair (MkRedactPairRule (MkRegex "secret|token" true)))].
Proof.
  destruct (legacy_config id (fun _ => true) to_ascii_lowercase sample_settings) as (o & Ho & Hn & H); [done|].
  destruct o as [config|]; [|destruct Hn as [[Hn _] _]; [done|discriminate Hn]].
  destruct (H config eq_refl) as (compiled & Hc & Hs). exists config, compiled.
  split; [exact Ho|]. split; [exact Hc|]. rewrite !Hs by repeat constructor. split; vm_compute; reflexivity.
Defined.
