(* ===== verification/PiiProcessor.v ===== *)
(** * relay-general: scrubbing PII (pii/processor.rs, pii/utils.rs)

    [PiiProcessor] applies the compiled rules to every value whose path a selector
    addresses.  Strings are searched as a whole: earlier redactions stand for one NUL byte
    in the searched string, and the matched spans become redactions.  The regular
    expression engine and the hash are parameters. *)

From Stdlib Require Import Ascii String.
From S2P Require Import Prelude Strings Floats Common Protocol Transactions Attrs Size Processor Types Chunks PiiRules PiiConfig.

Open Scope string_scope.
Open Scope nat_scope.
Open Scope list_scope.

(** The groups of a match, group 0 first: byte ranges of the searched string. *)
Definition Captures : Type := list (option (nat * nat)).

(** The regex crate: the matches in a string, from left to right, and whether there is any. *)
Class RegexEngine := {
  captures_iter : Regex -> string -> list Captures;
  is_match : Regex -> string -> bool;
}.

Definition NUL : ascii := "000"%char.

(** [str::replace] of NUL bytes by nothing. *)
Fixpoint strip_nul (s : string) : string :=
  match s with
  | "" => ""
  | String a s => if bool_decide (a = NUL) then strip_nul s else String a (strip_nul s)
  end.

Definition search_text (chunk : Chunk) : string :=
  match chunk with
  | Text text => strip_nul text
  | Chunks.Redaction _ _ _ => String NUL ""
  end.

Fixpoint search_string (chunks : list Chunk) : string :=
  match chunks with [] => "" | chunk :: chunks => search_text chunk +:+ search_string chunks end.

Definition is_redaction (chunk : Chunk) : bool := negb (is_text chunk).

(** Indexing a string by a range. *)
Definition slice (s : string) (from to : nat) : outcome string := unwrap (str_get s from to).

(** The pieces between NUL bytes, each NUL taking the next chunk of the stack. *)
Fixpoint push_pieces (pieces : list string) (rv replacement_chunks : list Chunk)
  : outcome (list Chunk * list Chunk) :=
  match pieces with
  | [] => Ret (rv, replacement_chunks)
  | [piece] => Ret (rv ++ [Text piece], replacement_chunks)
  | piece :: pieces =>
      match replacement_chunks with
      | [] => Panic
      | chunk :: replacement_chunks => push_pieces pieces (rv ++ [Text piece; chunk]) replacement_chunks
      end
  end.

Definition process_text (text : string) (rv replacement_chunks : list Chunk) : outcome (list Chunk * list Chunk) :=
  if bool_decide (text = "") then Ret (rv, replacement_chunks)
  else push_pieces (split_on NUL text) rv replacement_chunks.

Section Scrub.
Context {RE : RegexEngine} (hash_value : string -> string).

(** The chunk that [insert_replacement_chunks] pushes. *)
Definition replacement_chunk (rule : RuleRef) (text : string) : Chunk :=
  let rule_id := RuleRef.origin rule in
  match RuleRef.redaction rule with
  | Redaction.Default | Redaction.Remove => Chunks.Redaction "" rule_id RemarkType.Removed
  | Redaction.Mask => Chunks.Redaction (string_of_list_ascii (replicate (Z.to_nat (char_count text)) "*"%char)) rule_id RemarkType.Masked
  | Redaction.Hash => Chunks.Redaction (hash_value text) rule_id RemarkType.Pseudonymized
  | Redaction.Replace text => Chunks.Redaction text rule_id RemarkType.Substituted
  end.

Definition insert_replacement_chunks (rule : RuleRef) (text : string) (output : list Chunk) : list Chunk :=
  output ++ [replacement_chunk rule text].

(** Where the replacement stands: the position in the searched string, the chunks made
    and the redactions that are left. *)
Definition Progress : Type := nat * list Chunk * list Chunk.

(** The loop over the groups of a match, from index [idx]; [idx as u8] wraps around. *)
Fixpoint replace_groups_from (rule : RuleRef) (search : string) (groups : list Z) (idx : nat)
    (m : Captures) (p : Progress) : outcome Progress :=
  match m with
  | [] => Ret p
  | g :: m =>
      p ← match g with
          | Some (start, end_) =>
              if bool_decide ((Z.of_nat idx mod 256)%Z ∈ groups) then
                let '(pos, rv, replacement_chunks) := p in
                text ← slice search pos start;
                '(rv, replacement_chunks) ← process_text text rv replacement_chunks;
                Ret (end_, insert_replacement_chunks rule (substring start (end_ - start) search) rv, replacement_chunks)
              else Ret p
          | None => Ret p
          end;
      replace_groups_from rule search groups (S idx) m p
  end.

(** The loop over the matches. *)
Fixpoint replace_matches (rule : RuleRef) (search : string) (replace_behavior : ReplaceBehavior)
    (captures : list Captures) (p : Progress) : outcome Progress :=
  match captures with
  | [] => Ret p
  | m :: captures =>
      match replace_behavior with
      | ReplaceBehavior.Groups groups =>
          p ← replace_groups_from rule search groups 0 m p;
          replace_matches rule search replace_behavior captures p
      | ReplaceBehavior.Value =>
          let '(_, rv, replacement_chunks) := p in
          '(rv, replacement_chunks) ← process_text "" rv replacement_chunks;
          Ret (String.length search, insert_replacement_chunks rule search rv, replacement_chunks)
      end
  end.

(** The chunks for the matches, with the earlier redactions that are left on the stack. *)
Definition redact_captures (rule : RuleRef) (search : string) (replace_behavior : ReplaceBehavior) (captures : list Captures)
    (replacement_chunks : list Chunk) : outcome (list Chunk * list Chunk) :=
  '(pos, rv, replacement_chunks) ← replace_matches rule search replace_behavior captures (0, [], replacement_chunks);
  text ← slice search pos (String.length search);
  process_text text rv replacement_chunks.

(** A build without debug assertions. *)
Definition apply_regex_to_chunks (chunks : list Chunk) (rule : RuleRef) (regex : Regex)
    (replace_behavior : ReplaceBehavior) : outcome (list Chunk) :=
  let search := search_string chunks in
  match captures_iter regex search with
  | [] => Ret chunks
  | captures =>
      '(rv, _) ← redact_captures rule search replace_behavior captures (List.filter is_redaction chunks);
      Ret rv
  end.

(** The same with [debug_assert!]: no earlier redaction is left. *)
Definition apply_regex_to_chunks_debug (chunks : list Chunk) (rule : RuleRef) (regex : Regex)
    (replace_behavior : ReplaceBehavior) : outcome (list Chunk) :=
  let search := search_string chunks in
  match captures_iter regex search with
  | [] => Ret chunks
  | captures =>
      '(rv, rest) ← redact_captures rule search replace_behavior captures (List.filter is_redaction chunks);
      match rest with [] => Ret rv | _ => Panic end
  end.

(** ** Rules on values *)

Context (num_chars : string -> Z).

(** The macro [apply_regex]: nothing to do without a string. *)
Definition apply_regex (rule : RuleRef) (regex : Regex) (replace_behavior : ReplaceBehavior)
    (meta : Meta) (value : option string) : outcome (Meta * option string) :=
  match value with
  | None => Ret (meta, None)
  | Some value =>
      chunks ← apply_regex_to_chunks (split_chunks value (Meta.remarks meta)) rule regex replace_behavior;
      let '(value, meta) := process_chunked_value num_chars value meta (fun _ => chunks) in
      Ret (meta, Some value)
  end.

Definition remove_value (meta : Meta) (rule : RuleRef) : Meta :=
  Meta.add_remark meta (Remark.new RemarkType.Removed (RuleRef.origin rule)).

(** What a rule leaves behind: the meta data, the string, the answer. *)
Definition Applied : Type := Meta * option string * ProcessingResult.

Fixpoint apply_patterns (rule : RuleRef) (key : option string) (should_redact_chunks : bool)
    (patterns : list (PatternType * Regex * ReplaceBehavior)) (meta : Meta) (value : option string)
  : outcome Applied :=
  match patterns with
  | [] => Ret (meta, value, Ok ())
  | (pattern_type, regex, replace_behavior) :: patterns =>
      let continue_with regex :=
        '(meta, value) ← apply_regex rule regex replace_behavior meta value;
        apply_patterns rule key should_redact_chunks patterns meta value in
      match pattern_type with
      | PatternType.KeyValue =>
          if is_match regex (default "" key) then
            if bool_decide (is_Some value) && should_redact_chunks then continue_with ANYTHING_REGEX
            else Ret (remove_value meta rule, value, Err ProcessingAction.DeleteValueHard)
          else continue_with regex
      | PatternType.Value => continue_with regex
      end
  end.

Definition should_redact (rule : RuleRef) : bool :=
  match RuleRef.redaction rule with Redaction.Default | Redaction.Remove => false | _ => true end.

Definition is_anything (t : RuleType) : bool := match t with RuleType.Anything => true | _ => false end.

Definition apply_rule_to_value (meta : Meta) (rule : RuleRef) (key : option string) (value : option string)
  : outcome Applied :=
  let should_redact_chunks := should_redact rule in
  if is_anything (RuleRef.ty rule) && (negb (bool_decide (is_Some value)) || negb should_redact_chunks) then
    Ret (remove_value meta rule, value, Err ProcessingAction.DeleteValueHard)
  else apply_patterns rule key should_redact_chunks (get_regex_for_rule_type (RuleRef.ty rule)) meta value.

(** ** The processor *)

Context (to_lowercase : string -> string).

Fixpoint apply_rules (rules : list RuleRef) (key : option string) (meta : Meta) (value : option string)
  : outcome Applied :=
  match rules with
  | [] => Ret (meta, value, Ok ())
  | rule :: rules =>
      '(meta, value, r) ← apply_rule_to_value meta rule key value;
      match r with Err e => Ret (meta, value, Err e) | Ok _ => apply_rules rules key meta value end
  end.

Fixpoint apply_applications (applications : CompiledPiiConfig) (meta : Meta) (state : ProcessingState)
    (value : option string) : outcome Applied :=
  match applications with
  | [] => Ret (meta, value, Ok ())
  | (selector, rules) :: applications =>
      if matches_selector to_lowercase state selector then
        '(meta, value, r) ← apply_rules rules (path_key state) meta value;
        match r with Err e => Ret (meta, value, Err e) | Ok _ => apply_applications applications meta state value end
      else apply_applications applications meta state value
  end.

Definition apply_all_rules (self : CompiledPiiConfig) (meta : Meta) (state : ProcessingState)
    (value : option string) : outcome Applied :=
  if bool_decide (FieldAttrs.pii (ProcessingState.attrs state) = Pii.False) then Ret (meta, value, Ok ())
  else apply_applications self meta state value.

Definition pii_before_process (self : CompiledPiiConfig) (value : option Value) (meta : Meta) (state : ProcessingState)
  : outcome (CompiledPiiConfig * Meta * ProcessingResult) :=
  if bool_decide (ValueType.Boolean ∈ ProcessingState.value_type state)
     || bool_decide (ValueType.String_ ∈ ProcessingState.value_type state) then Ret (self, meta, Ok ())
  else match value with
       | None => Ret (self, meta, Ok ())
       | Some _ => '(meta, _, r) ← apply_all_rules self meta state None; Ret (self, meta, r)
       end.

(** Strings that cannot be personal. *)
Definition exempt_strings : list string := [""; "true"; "false"; "null"; "undefined"].

Definition pii_process_string (self : CompiledPiiConfig) (value : string) (meta : Meta) (state : ProcessingState)
  : visit CompiledPiiConfig string :=
  if bool_decide (value ∈ exempt_strings) then Ret (self, value, meta, Ok ())
  else '(meta, s, r) ← apply_all_rules self meta state (Some value); Ret (self, default value s, meta, r).

#[global] Instance pii_processor : Processor CompiledPiiConfig := {|
  before_process := pii_before_process;
  after_process self _ meta _ := Ret (self, meta, Ok ());
  process_string := pii_process_string;
  process_array walk := default_array walk;
  process_object walk := default_object walk;
  process_value self value meta _ := Ret (self, value, meta, Ok ());
|}.

(** ** Image paths *)

Definition is_separator (a : ascii) : bool := bool_decide (a = "/"%char) || bool_decide (a = "\"%char).

(** [rfind] of a separator and [split_off] there. *)
Fixpoint split_off_basename (s : string) : option (string * string) :=
  match s with
  | "" => None
  | String a s' =>
      match split_off_basename s' with
      | Some (directory, basename) => Some (String a directory, basename)
      | None => if is_separator a then Some ("", s) else None
      end
  end.

Definition process_native_image_path (self : CompiledPiiConfig) (value : string) (meta : Meta) (state : ProcessingState)
  : visit CompiledPiiConfig string :=
  match split_off_basename value with
  | None => Ret (self, value, meta, Ok ())
  | Some (value, basename) =>
      '(self, value, meta, r) ← pii_process_string self value meta state;
      match r with
      | Ok _ => Ret (self, value +:+ basename, meta, Ok ())
      | Err ProcessingAction.DeleteValueHard | Err ProcessingAction.DeleteValueSoft =>
          Ret (self, str_from 1 basename, meta, Ok ())
      | Err (ProcessingAction.InvalidTransaction x) =>
          Ret (self, value, meta, Err (ProcessingAction.InvalidTransaction x))
      end
  end.

End Scrub.

(** ** Pair lists and users *)

Section Protocol.
Context {Self V : Type}.
(** [process_value] on the values of the pairs, and their types. *)
Context (walk : Self -> Annotated V -> ProcessingState -> outcome (Self * Annotated V * ProcessingResult)).
Context (field_types : Annotated V -> list ValueType).

(** A pair with a key is visited under its key, one without under its index. *)
Fixpoint process_pairs (slf : Self) (idx : nat) (pairs : list (Annotated (Annotated string * Annotated V)))
    (state : ProcessingState)
  : outcome (Self * list (Annotated (Annotated string * Annotated V)) * ProcessingResult) :=
  match pairs with
  | [] => Ret (slf, [], Ok ())
  | annotated :: pairs =>
      match Annotated.value annotated with
      | None =>
          '(slf, pairs, r) ← process_pairs slf (S idx) pairs state; Ret (slf, annotated :: pairs, r)
      | Some (key, value) =>
          let tys := field_types value in
          let attrs := ProcessingState.inner_attrs state in
          let value_state :=
            match Annotated.value key with
            | Some key_name => ProcessingState.enter_borrowed state key_name attrs tys
            | None => ProcessingState.enter_index state (Z.of_nat idx) attrs tys
            end in
          '(slf, value, r) ← walk slf value value_state;
          let annotated := MkAnnotated (Some (key, value)) (Annotated.meta annotated) in
          match r with
          | Err e => Ret (slf, annotated :: pairs, Err e)
          | Ok _ => '(slf, pairs, r) ← process_pairs slf (S idx) pairs state; Ret (slf, annotated :: pairs, r)
          end
      end
  end.

Definition process_pairlist (slf : Self) (value : list (Annotated (Annotated string * Annotated V)))
    (state : ProcessingState) := process_pairs slf 0 value state.

End Protocol.

Module User.
(** The fields that [process_user] reads; [rest] are the others. *)
Record User {R : Type} := MkUser {
  id : Annotated string;
  email : Annotated string;
  ip_address : Annotated string;
  username : Annotated string;
  rest : R;
}.
Arguments User : clear implicits.
Arguments MkUser {R}.
End User.

Section Users.
Context {Self R : Type}.
(** [std::net::IpAddr::from_str] and the walk of the fields. *)
Context (parses_as_ip : string -> bool).
Context (process_child_values : Self -> User.User R -> ProcessingState -> outcome (Self * User.User R * ProcessingResult)).

(** [IpAddr::is_valid]. *)
Definition ip_is_valid (ip : string) : bool := bool_decide (ip = "{{auto}}") || parses_as_ip ip.

Definition has_valid_ip (user : User.User R) : bool :=
  match Annotated.value (User.ip_address user) with Some ip => ip_is_valid ip | None => true end.

Definition has_other_fields (user : User.User R) : bool :=
  bool_decide (is_Some (Annotated.value (User.id user))) || bool_decide (is_Some (Annotated.value (User.username user)))
  || bool_decide (is_Some (Annotated.value (User.email user))).

Definition process_user (self : Self) (user : User.User R) (state : ProcessingState)
  : outcome (Self * User.User R * ProcessingResult) :=
  let ip_was_valid := has_valid_ip user in
  '(self, user, r) ← process_child_values self user state;
  match r with
  | Err e => Ret (self, user, Err e)
  | Ok _ =>
      let user :=
        if ip_was_valid && negb (has_other_fields user) && negb (has_valid_ip user) then
          User.MkUser (User.ip_address user) (User.email user) Annotated.empty (User.username user) (User.rest user)
        else user in
      Ret (self, user, Ok ())
  end.

(** An address that scrubbing made invalid identifies the user, when nothing else does,
    and no invalid address is left in its place. *)
Lemma scrubbed_ip_identifies self user state self' scrubbed :
  process_child_values self user state = Ret (self', scrubbed, Ok ()) ->
  has_valid_ip user = true ->
  exists user', process_user self user state = Ret (self', user', Ok ()) /\
    (has_valid_ip user' = false -> has_other_fields user' = true) /\
    (has_valid_ip scrubbed = true -> user' = scrubbed) /\
    (has_other_fields scrubbed = false -> has_valid_ip scrubbed = false ->
     User.id user' = User.ip_address scrubbed /\ Annotated.value (User.ip_address user') = None).
Proof.
  intros Hs Hv. unfold process_user. rewrite Hs, Hv. cbn [mbind outcome_bind andb].
  destruct (has_other_fields scrubbed) eqn:Ho, (has_valid_ip scrubbed) eqn:Hi; cbn [negb andb];
    eexists; (split; [done|]); split_and!; try done; naive_solver.
Qed.

End Users.

(** ** Text and redactions *)

Fixpoint nuls (s : string) : nat :=
  match s with "" => 0 | String a s => (if bool_decide (a = NUL) then 1 else 0) + nuls s end.

(** The text outside of redactions. *)
Fixpoint plain (chunks : list Chunk) : string :=
  match chunks with
  | [] => ""
  | Text text :: chunks => text +:+ plain chunks
  | Chunks.Redaction _ _ _ :: chunks => plain chunks
  end.

Definition redactions (chunks : list Chunk) : list Chunk := List.filter is_redaction chunks.

(** The text between the spans, from [pos] to the end. *)
Fixpoint outside (search : string) (pos : nat) (spans : list (nat * nat)) : string :=
  match spans with
  | [] => substring pos (String.length search - pos) search
  | (start, end_) :: spans => substring pos (start - pos) search +:+ outside search end_ spans
  end.

(** Spans from left to right that do not overlap and slice the string. *)
Fixpoint in_order (search : string) (pos : nat) (spans : list (nat * nat)) : Prop :=
  match spans with
  | [] => is_Some (str_get search pos (String.length search))
  | (start, end_) :: spans =>
      is_Some (str_get search pos start) /\ is_Some (str_get search start end_) /\ in_order search end_ spans
  end.

(** The spans of the groups to replace. *)
Definition selected (groups : list Z) (idx : nat) (m : Captures) : list (nat * nat) :=
  omap id (imap (fun i g => if bool_decide ((Z.of_nat (idx + i) mod 256)%Z ∈ groups) then g else None) m).
Definition spans (groups : list Z) (captures : list Captures) : list (nat * nat) :=
  concat (selected groups 0 <$> captures).

Lemma strip_nul_app a b : strip_nul (a +:+ b) = strip_nul a +:+ strip_nul b.
Proof. induction a as [|c a IH]; simpl; [done|]. case_bool_decide; rewrite IH; done. Qed.

Lemma nuls_app a b : nuls (a +:+ b) = nuls a + nuls b.
Proof. induction a as [|c a IH]; simpl; [done|]. rewrite IH. lia. Qed.

Lemma strip_nul_idemp s : strip_nul (strip_nul s) = strip_nul s.
Proof. induction s as [|c s IH]; simpl; [done|]. case_bool_decide; [done|]. simpl. rewrite bool_decide_false by done. by rewrite IH. Qed.

Lemma nuls_strip s : nuls (strip_nul s) = 0.
Proof. induction s as [|c s IH]; simpl; [done|]. case_bool_decide; [done|]. simpl. by rewrite bool_decide_false. Qed.

Lemma plain_app a b : plain (a ++ b) = plain a +:+ plain b.
Proof. induction a as [|[t|t r y] a IH]; simpl; [done| |done]. by rewrite IH, str_app_assoc. Qed.

Lemma redactions_app a b : redactions (a ++ b) = redactions a ++ redactions b.
Proof. apply List.filter_app. Qed.

Lemma search_nuls chunks : nuls (search_string chunks) = length (redactions chunks).
Proof. induction chunks as [|[t|t r y] chunks IH]; [done|..]; cbn [search_string]; rewrite nuls_app, IH; simpl; by rewrite ?nuls_strip. Qed.

Lemma search_plain chunks : strip_nul (search_string chunks) = strip_nul (plain chunks).
Proof.
  induction chunks as [|[t|t r y] chunks IH]; [done|..]; cbn [search_string plain]; rewrite !strip_nul_app, IH; [|done].
  simpl. by rewrite strip_nul_idemp.
Qed.

(** Splitting at NUL bytes, piece by piece. *)
Lemma split_on_nul s :
  length (split_on NUL s) = S (nuls s) /\ foldr String.append "" (split_on NUL s) = strip_nul s.
Proof.
  induction s as [|a s [IH1 IH2]]; simpl; [done|]. case_bool_decide; subst; simpl; [by rewrite IH1, IH2|].
  destruct (split_on NUL s) as [|p ps]; [done|]. simpl in *. by rewrite IH1, <- IH2.
Qed.

Lemma push_pieces_spec ps rv reps : ps <> [] -> length ps <= S (length reps) -> Forall (fun c => is_redaction c = true) reps ->
  exists out, push_pieces ps rv reps = Ret (rv ++ out, drop (length ps - 1) reps) /\
    plain out = foldr String.append "" ps /\ redactions out = take (length ps - 1) reps.
Proof.
  revert rv reps. induction ps as [|p [|q ps] IH]; intros rv reps Hne Hlen Hreps; [done|..].
  - exists [Text p]. by destruct reps.
  - destruct reps as [|c reps]; [simpl in Hlen; lia|]. apply Forall_cons in Hreps as [Hc Hreps].
    destruct (IH (rv ++ [Text p; c]) reps) as (out & Ho & Hp & Hr); [done|simpl in *; lia|done|].
    exists (Text p :: c :: out). split; [|split].
    + change (push_pieces (p :: q :: ps) rv (c :: reps)) with (push_pieces (q :: ps) (rv ++ [Text p; c]) reps).
      rewrite Ho, <- app_assoc. simpl. by rewrite Nat.sub_0_r.
    + change (foldr String.append "" (p :: q :: ps)) with (p +:+ foldr String.append "" (q :: ps)). rewrite <- Hp.
      by destruct c.
    + unfold redactions. simpl in *. rewrite Hc. f_equal. rewrite Nat.sub_0_r in Hr. exact Hr.
Qed.

Lemma process_text_spec text rv reps : nuls text <= length reps -> Forall (fun c => is_redaction c = true) reps ->
  exists out, process_text text rv reps = Ret (rv ++ out, drop (nuls text) reps) /\
    plain out = strip_nul text /\ redactions out = take (nuls text) reps.
Proof.
  intros Hlen Hreps. unfold process_text. destruct (split_on_nul text) as [Hl Hc].
  case_bool_decide as Ht; [subst; exists []; by rewrite app_nil_r|].
  destruct (push_pieces_spec (split_on NUL text) rv reps) as (out & Ho & Hp & Hr); [by intros H; rewrite H in Hl|lia|done|].
  exists out. rewrite Ho, Hp, Hr, Hc, Hl. simpl. by rewrite Nat.sub_0_r.
Qed.

Lemma process_text_empty rv reps : process_text "" rv reps = Ret (rv, reps).
Proof. done. Qed.

Lemma str_get_end s : str_get s (String.length s) (String.length s) = Some "".
Proof.
  apply str_get_Some. split; [lia|]. split; [apply boundary_end|]. split; [apply boundary_end|].
  by rewrite Nat.sub_diag, substring_0.
Qed.

Lemma slice_ok s from to t : str_get s from to = Some t -> slice s from to = Ret t.
Proof. unfold slice. by intros ->. Qed.

(** ** Replacing spans *)

Section Spans.
Context {RE : RegexEngine} (hash_value : string -> string) (rule : RuleRef) (search : string).
#[local] Notation span_text sp := (substring sp.1 (sp.2 - sp.1) search).
#[local] Notation replacement sp := (replacement_chunk hash_value rule (span_text sp)).

Fixpoint replace_spans (sps : list (nat * nat)) (p : Progress) : outcome Progress :=
  match sps with
  | [] => Ret p
  | sp :: sps =>
      let '(pos, rv, reps) := p in
      text ← slice search pos sp.1;
      '(rv, reps) ← process_text text rv reps;
      replace_spans sps (sp.2, rv ++ [replacement sp], reps)
  end.

Lemma replace_spans_app a b p :
  replace_spans (a ++ b) p = (p ← replace_spans a p; replace_spans b p).
Proof.
  revert p. induction a as [|sp a IH]; intros p; simpl; [done|]. destruct p as [[pos rv] reps].
  destruct (slice search pos sp.1) as [t|]; simpl; [|done].
  destruct (process_text t rv reps) as [[rv' reps']|]; simpl; [apply IH|done].
Qed.

Lemma selected_cons groups idx g m :
  selected groups idx (g :: m) =
  (if bool_decide ((Z.of_nat idx mod 256)%Z ∈ groups) then match g with Some sp => [sp] | None => [] end else []) ++
  selected groups (S idx) m.
Proof.
  unfold selected. simpl. rewrite Nat.add_0_r.
  assert (forall i, idx + S i = S idx + i) as Hs by lia.
  rewrite (imap_ext (A := option (nat * nat)) _ (fun i g => if bool_decide ((Z.of_nat (S idx + i) mod 256)%Z ∈ groups) then g else None));
    [|intros i x _; simpl; by rewrite Hs].
  case_bool_decide; [|done]. by destruct g.
Qed.

Lemma replace_groups_spans groups idx m p :
  replace_groups_from hash_value rule search groups idx m p = replace_spans (selected groups idx m) p.
Proof.
  revert idx p. induction m as [|g m IH]; intros idx p; [done|]. rewrite selected_cons, replace_spans_app. cbn [replace_groups_from].
  destruct g as [[start end_]|]; case_bool_decide; cbn [mbind outcome_bind replace_spans]; try apply IH.
  destruct p as [[pos rv] reps]. simpl. destruct (slice search pos start) as [t|]; simpl; [|done].
  destruct (process_text t rv reps) as [[rv' reps']|]; simpl; [apply IH|done].
Qed.

Lemma replace_matches_spans groups captures p :
  replace_matches hash_value rule search (ReplaceBehavior.Groups groups) captures p =
  replace_spans (spans groups captures) p.
Proof.
  revert p. induction captures as [|m captures IH]; intros p; [done|].
  unfold spans. rewrite fmap_cons, concat_cons, replace_spans_app. cbn [replace_matches].
  rewrite replace_groups_spans. destruct (replace_spans (selected groups 0 m) p); simpl; [apply IH|done].
Qed.

Lemma outside_nuls pos sps : in_order search pos sps ->
  nuls (outside search pos sps) <= nuls (substring pos (String.length search - pos) search).
Proof.
  revert pos. induction sps as [|[start end_] sps IH]; intros pos; simpl; [done|].
  intros ([a Ha] & [b Hb] & Hrest). apply str_get_Some in Ha as (Ha & _). apply str_get_Some in Hb as (Hb & _).
  rewrite nuls_app. specialize (IH end_ Hrest).
  replace (String.length search - pos) with ((start - pos) + ((end_ - start) + (String.length search - end_))) by lia.
  rewrite <- substring_join, nuls_app, <- substring_join, nuls_app.
  replace (pos + (start - pos)) with start by lia. replace (start + (end_ - start)) with end_ by lia. lia.
Qed.

(** The redactions of the result: for every span its replacement, and for every NUL
    byte outside of the spans the next of the earlier redactions. *)
Fixpoint merged (pos : nat) (sps : list (nat * nat)) (reps : list Chunk) : list Chunk :=
  match sps with
  | [] => take (nuls (outside search pos [])) reps
  | sp :: sps =>
      let n := nuls (substring pos (sp.1 - pos) search) in
      take n reps ++ replacement sp :: merged sp.2 sps (drop n reps)
  end.

Lemma redaction_replacement sp : is_redaction (replacement sp) = true.
Proof. unfold replacement_chunk. by destruct (RuleRef.redaction rule). Qed.

Lemma replace_spans_spec sps pos rv reps :
  in_order search pos sps -> nuls (outside search pos sps) <= length reps ->
  Forall (fun c => is_redaction c = true) reps ->
  exists out,
    (p ← replace_spans sps (pos, rv, reps);
     let '(pos, rv, reps) := p in
     text ← slice search pos (String.length search); process_text text rv reps) = Ret (rv ++ out, drop (nuls (outside search pos sps)) reps) /\
    plain out = strip_nul (outside search pos sps) /\ redactions out = merged pos sps reps.
Proof.
  revert pos rv reps. induction sps as [|[start end_] sps IH]; intros pos rv reps Hin Hn Hreps; simpl in Hin.
  - destruct Hin as [t Ht]. apply str_get_Some in Ht as Ht'. destruct Ht' as (_ & _ & _ & Et).
    cbn [replace_spans mbind outcome_bind]. rewrite (slice_ok _ _ _ _ Ht). cbn [mbind outcome_bind].
    cbn [outside] in Hn. rewrite <- Et in Hn.
    destruct (process_text_spec t rv reps Hn Hreps) as (out & -> & Hp & Hr). exists out. cbn [mbind outcome_bind outside merged].
    by rewrite <- Et.
  - destruct Hin as ([t Ht] & _ & Hrest). apply str_get_Some in Ht as Ht'. destruct Ht' as (_ & _ & _ & Et).
    cbn [outside] in Hn. rewrite <- Et, nuls_app in Hn.
    cbn [replace_spans fst snd]. rewrite (slice_ok _ _ _ _ Ht). cbn [mbind outcome_bind].
    destruct (process_text_spec t rv reps) as (out1 & -> & Hp1 & Hr1); [lia|done|]. cbn [mbind outcome_bind].
    destruct (IH end_ ((rv ++ out1) ++ [replacement (start, end_)]) (drop (nuls t) reps)) as (out2 & Ho & Hp2 & Hr2);
      [done|rewrite length_drop; lia|by apply Forall_drop|].
    exists (out1 ++ replacement (start, end_) :: out2). cbn [fst snd] in *. rewrite Ho. split; [|split].
    + cbn [outside]. by rewrite <- Et, nuls_app, drop_drop, <- !app_assoc.
    + rewrite plain_app, Hp1. cbn [outside]. rewrite <- Et, strip_nul_app, <- Hp2. f_equal.
      pose proof (redaction_replacement (start, end_)) as Hred. cbn [fst snd] in Hred. by destruct (replacement_chunk _ _ _).
    + rewrite redactions_app, Hr1. cbn [merged fst snd]. rewrite <- Et, <- Hr2. f_equal.
      pose proof (redaction_replacement (start, end_)) as Hred. cbn [fst snd] in Hred. unfold redactions. cbn [List.filter]. by rewrite Hred.
Qed.

End Spans.

Section Text.
Context {RE : RegexEngine} (hash_value : string -> string).

Lemma redactions_are chunks : Forall (fun c => is_redaction c = true) (redactions chunks).
Proof. apply Forall_forall. intros c Hc. apply list_elem_of_In, filter_In in Hc. apply Hc. Qed.

(** The redactions in the result: as many of the earlier ones as there are outside of the
    spans, the first ones, and one for each span. *)
Lemma merged_perm rule search sps : forall pos reps,
  nuls (outside search pos sps) <= length reps ->
  merged hash_value rule search pos sps reps
  ≡ₚ take (nuls (outside search pos sps)) reps
     ++ ((fun sp => replacement_chunk hash_value rule (substring sp.1 (sp.2 - sp.1) search)) <$> sps).
Proof.
  induction sps as [|[start end_] sps IH]; intros pos reps Hn; cbn [merged outside fst snd] in *; [by rewrite app_nil_r|].
  rewrite nuls_app in *. rewrite IH by (rewrite length_drop; lia). rewrite fmap_cons, <- (take_take_drop reps), <- !app_assoc. cbn [fst snd].
  apply Permutation_app_head. by rewrite Permutation_middle.
Qed.

Lemma redact_captures_spec chunks rule regex groups :
  let search := search_string chunks in
  let sps := spans groups (captures_iter regex search) in
  in_order search 0 sps ->
  nuls (outside search 0 sps) <= length (redactions chunks) /\
  exists rv, redact_captures hash_value rule search (ReplaceBehavior.Groups groups) (captures_iter regex search) (redactions chunks)
      = Ret (rv, drop (nuls (outside search 0 sps)) (redactions chunks)) /\
    plain rv = strip_nul (outside search 0 sps) /\
    redactions rv = merged hash_value rule search 0 sps (redactions chunks).
Proof.
  intros search sps Hin.
  assert (nuls (outside search 0 sps) <= length (redactions chunks)) as Hn.
  { rewrite <- search_nuls. etransitivity; [by apply (outside_nuls search)|]. by rewrite Nat.sub_0_r, substring_all. }
  split; [done|].
  destruct (replace_spans_spec hash_value rule search sps 0 [] (redactions chunks) Hin Hn (redactions_are chunks))
    as (rv & Ho & Hp & Hr).
  exists rv. unfold redact_captures. rewrite replace_matches_spans. by split_and!.
Qed.

Lemma matches_redacted_helper chunks rule regex groups :
  let search := search_string chunks in
  let sps := spans groups (captures_iter regex search) in
  in_order search 0 sps ->
  exists rv, apply_regex_to_chunks hash_value chunks rule regex (ReplaceBehavior.Groups groups) = Ret rv /\
    apply_regex_to_chunks_debug hash_value chunks rule regex (ReplaceBehavior.Groups groups)
      = (if bool_decide (nuls (outside search 0 sps) = length (redactions chunks)) then Ret rv else Panic) /\
    strip_nul (plain rv) = strip_nul (outside search 0 sps) /\
    redactions rv = merged hash_value rule search 0 sps (redactions chunks) /\
    nuls (outside search 0 sps) <= length (redactions chunks) /\
    (captures_iter regex search = [] -> rv = chunks).
Proof.
  intros search sps Hin. destruct (redact_captures_spec chunks rule regex groups Hin) as (Hn & rv & Ho & Hp & Hr).
  fold search in Ho, Hp, Hr, Hn. fold sps in Ho, Hp, Hr, Hn.
  unfold apply_regex_to_chunks, apply_regex_to_chunks_debug. fold search.
  destruct (captures_iter regex search) as [|m captures] eqn:E.
  - exists chunks. change sps with (@nil (nat * nat)) in *. cbn [outside merged] in *.
    rewrite Nat.sub_0_r, substring_all in *. pose proof (search_nuls chunks) as Hsn. fold search in Hsn.
    rewrite bool_decide_true by done. split_and!; [done|done|symmetry; apply search_plain| |done|done].
    rewrite take_ge; [done|]. by rewrite <- Hsn.
  - exists rv. unfold redactions in Ho at 1. rewrite Ho. cbn [mbind outcome_bind]. split; [done|].
    split; [|split_and!; [by rewrite Hp, strip_nul_idemp|done|done|done] ].
    case_bool_decide as Hd; [by rewrite Hd, drop_ge|].
    destruct (drop _ _) eqn:Hdr; [|done]. exfalso. apply (f_equal length) in Hdr. rewrite length_drop in Hdr. simpl in Hdr. lia.
Qed.

(** C26: Redacting the matches of a regular expression in a string, where the groups to
    replace do not overlap: a build without debug assertions never panics; what is left of the
    text is the text outside of the groups, nothing of the groups survives; each group becomes one
    redaction of the rule, and the places of earlier redactions outside of the groups are filled
    with the earlier redactions, from the first on.  So if no group covers an earlier redaction
    these all stay in their places and the debug assertion holds; if one does, those behind it
    move up, the last ones are lost, and a build with debug assertions panics.  A string
    without a match is left alone. *)
Theorem matches_redacted chunks rule regex groups :
  let search := search_string chunks in
  let sps := spans groups (captures_iter regex search) in
  let kept := nuls (outside search 0 sps) in
  in_order search 0 sps ->
  exists rv, apply_regex_to_chunks hash_value chunks rule regex (ReplaceBehavior.Groups groups) = Ret rv /\
    apply_regex_to_chunks_debug hash_value chunks rule regex (ReplaceBehavior.Groups groups)
      = (if bool_decide (kept = length (redactions chunks)) then Ret rv else Panic) /\
    strip_nul (plain rv) = strip_nul (outside search 0 sps) /\
    redactions rv = merged hash_value rule search 0 sps (redactions chunks) /\
    redactions rv ≡ₚ take kept (redactions chunks)
      ++ ((fun sp => replacement_chunk hash_value rule (substring sp.1 (sp.2 - sp.1) search)) <$> sps) /\
    (captures_iter regex search = [] -> rv = chunks).
Proof.
  intros search sps kept Hin. destruct (matches_redacted_helper chunks rule regex groups Hin) as (rv & Hrv & Hd & Hp & Hr & Hn & He).
  exists rv. split_and!; [done|done|done|done| |done]. rewrite Hr. by apply merged_perm.
Qed.

End Text.

(** ** What the engine promises *)

(** Matches from left to right, none overlapping, each with group 0 first and its other
    groups inside; all ranges are on character boundaries.  The number of groups fits the
    [u8] that the rules use. *)
Fixpoint lawful (s : string) (pos : nat) (captures : list Captures) : Prop :=
  match captures with
  | [] => is_Some (str_get s pos (String.length s))
  | m :: captures =>
      length m <= 256 /\
      exists start end_, m !! 0 = Some (Some (start, end_)) /\ is_Some (str_get s pos start) /\
        Forall (fun g => match g with
                         | Some (a, b) => start <= a /\ b <= end_ /\ is_Some (str_get s a b)
                         | None => True
                         end) m /\
        lawful s end_ captures
  end.

Class RegexLaws {RE : RegexEngine} : Prop := captures_lawful regex s : lawful s 0 (captures_iter regex s).

Section Laws.
Context {RE : RegexEngine} {RL : RegexLaws}.

Lemma str_get_join s a b c : is_Some (str_get s a b) -> is_Some (str_get s b c) -> is_Some (str_get s a c).
Proof.
  intros [t Ht] [u Hu]. apply str_get_Some in Ht as (? & Ha & _ & _). apply str_get_Some in Hu as (? & _ & Hc & _).
  eexists. apply str_get_Some. split; [lia|]. by split.
Qed.

(** Parts of a slice between positions that slice. *)
Lemma str_get_between s a b c d : is_Some (str_get s a b) -> is_Some (str_get s c d) -> a <= c -> is_Some (str_get s a c).
Proof.
  intros [t Ht] [u Hu] Hle. apply str_get_Some in Ht as (? & Ha & _ & _). apply str_get_Some in Hu as (? & Hc & _ & _).
  eexists. apply str_get_Some. split; [lia|]. by split.
Qed.

Lemma in_order_earlier s a b sps : is_Some (str_get s a b) -> in_order s b sps -> in_order s a sps.
Proof.
  intros Hab. destruct sps as [|[start end_] sps]; simpl; [by apply str_get_join|].
  intros (H1 & H2 & H3). split; [by apply (str_get_join s a b)|]. by split.
Qed.

(** A single group below the limit selects at most one span of a match. *)
Lemma selected_above g idx m : (g < Z.of_nat idx)%Z -> (0 <= g)%Z -> idx + length m <= 256 -> selected [g] idx m = [].
Proof.
  revert idx. induction m as [|x m IH]; intros idx H1 H2 H3; [done|]. simpl in H3.
  rewrite selected_cons, IH by lia. rewrite bool_decide_false; [done|].
  rewrite Z.mod_small by lia. rewrite list_elem_of_singleton. lia.
Qed.

Lemma selected_single g idx m : (0 <= g)%Z -> idx + length m <= 256 ->
  selected [g] idx m = [] \/ exists sp, Some sp ∈ m /\ selected [g] idx m = [sp].
Proof.
  revert idx. induction m as [|x m IH]; intros idx H1 H2; [by left|]. simpl in H2. rewrite selected_cons.
  rewrite Z.mod_small by lia. case_bool_decide as Hg.
  - apply list_elem_of_singleton in Hg. rewrite selected_above by lia. destruct x as [sp|]; [right|by left].
    exists sp. split; [apply list_elem_of_here|done].
  - destruct (IH (S idx)) as [->|(sp & Hsp & ->)]; [done|lia|by left|right]. exists sp. split; [by apply list_elem_of_further|done].
Qed.

Lemma single_in_order g s pos captures : (0 <= g)%Z -> lawful s pos captures -> in_order s pos (spans [g] captures).
Proof.
  intros Hg. revert pos. induction captures as [|m captures IH]; intros pos; simpl; [done|].
  intros (Hlen & start & end_ & H0 & Hpos & Hall & Hrest). unfold spans. rewrite fmap_cons, concat_cons. fold (spans [g] captures).
  pose proof (Forall_lookup_1 _ _ _ _ Hall H0) as (_ & _ & Hse).
  destruct (selected_single g 0 m Hg Hlen) as [->|([a b] & Hsp & ->)].
  - apply (in_order_earlier s pos end_); [by apply (str_get_join s pos start)|by apply IH].
  - rewrite Forall_forall in Hall. specialize (Hall _ Hsp) as (Ha & Hb & Hab). simpl. split; [|split; [done|]].
    + apply (str_get_join s pos start); [done|]. by apply (str_get_between s start end_ a b).
    + apply (in_order_earlier s b end_); [|by apply IH]. destruct Hse as [t Ht], Hab as [u Hu].
      apply str_get_Some in Ht as (? & _ & ? & _). apply str_get_Some in Hu as (? & _ & ? & _).
      eexists. apply str_get_Some. split; [lia|]. by split.
Qed.

Lemma no_groups_in_order s captures : in_order s 0 (spans [] captures).
Proof.
  assert (spans [] captures = []) as ->.
  { induction captures as [|m captures IH]; [done|]. unfold spans. rewrite fmap_cons, concat_cons. fold (spans [] captures).
    rewrite IH, app_nil_r. generalize 0. induction m as [|g m IHm]; intros idx; [done|].
    rewrite selected_cons, IHm. by rewrite bool_decide_false by apply not_elem_of_nil. }
  simpl. eexists. apply str_get_Some. split; [lia|]. split; [apply boundary_0|]. split; [apply boundary_end|done].
Qed.

End Laws.

(** Groups that overlap: the text before the second one ends before it starts. *)
Lemma overlapping_groups_panic {RE : RegexEngine} hash_value chunks rule regex start end_ start' end' :
  let search := search_string chunks in
  captures_iter regex search = [[Some (start, end_); Some (start', end')]] ->
  start' < end_ ->
  apply_regex_to_chunks hash_value chunks rule regex (ReplaceBehavior.Groups [0; 1]%Z) = Panic.
Proof.
  intros search Hc Hlt. unfold apply_regex_to_chunks, redact_captures. fold search. rewrite Hc, replace_matches_spans.
  change (spans [0; 1]%Z [[Some (start, end_); Some (start', end')]]) with [(start, end_); (start', end')].
  cbn [replace_spans fst snd]. destruct (slice search 0 start) as [t|]; [|done]. cbn [mbind outcome_bind].
  destruct (process_text t _ _) as [[rv reps]|]; [|done]. cbn [mbind outcome_bind replace_spans fst snd].
  unfold slice, str_get. by rewrite (bool_decide_false (end_ <= start')) by lia.
Qed.

(** ** Rules always answer *)

(** Rules that replace the value or one group of a match: all built-in ones, and patterns
    that name at most one group. *)
Definition simple_behavior (rb : ReplaceBehavior) : Prop :=
  match rb with
  | ReplaceBehavior.Value | ReplaceBehavior.Groups [] => True
  | ReplaceBehavior.Groups [g] => (0 <= g)%Z
  | ReplaceBehavior.Groups _ => False
  end.
Definition simple_rule (rule : RuleRef) : Prop :=
  Forall (fun p => simple_behavior p.2) (get_regex_for_rule_type (RuleRef.ty rule)).
Definition simple_config (compiled : CompiledPiiConfig) : Prop :=
  Forall (fun app => Forall simple_rule app.2) compiled.

Section Answers.
Context {RE : RegexEngine} {RL : RegexLaws} (hash_value : string -> string) (num_chars : string -> Z)
  (to_lowercase : string -> string).

(** A rule answers with success or with the removal of the value. *)
Definition answers (value : option string) (o : outcome Applied) : Prop :=
  exists meta value' r, o = Ret (meta, value', r) /\ (is_Some value' <-> is_Some value) /\
    (r = Ok () \/ r = Err ProcessingAction.DeleteValueHard).

Lemma regex_returns chunks rule regex rb : simple_behavior rb ->
  exists rv, apply_regex_to_chunks hash_value chunks rule regex rb = Ret rv.
Proof.
  intros Hs. destruct rb as [|groups].
  - unfold apply_regex_to_chunks, redact_captures. destruct (captures_iter regex (search_string chunks)) as [|m captures]; [by eexists|].
    cbn [replace_matches]. rewrite process_text_empty. cbn [mbind outcome_bind].
    rewrite (slice_ok _ _ _ "" (str_get_end _)). cbn [mbind outcome_bind]. rewrite process_text_empty. by eexists.
  - destruct (matches_redacted_helper hash_value chunks rule regex groups) as (rv & Hrv & _); [|by exists rv].
    destruct groups as [|g [|]]; [apply no_groups_in_order| |done].
    apply single_in_order; [done|apply captures_lawful].
Qed.

Lemma apply_regex_returns rule regex rb meta value : simple_behavior rb ->
  exists meta' value', apply_regex hash_value num_chars rule regex rb meta value = Ret (meta', value') /\
    (is_Some value' <-> is_Some value).
Proof.
  intros Hs. unfold apply_regex. destruct value as [value|]; [|by eexists _, _].
  destruct (regex_returns (split_chunks value (Meta.remarks meta)) rule regex rb Hs) as (rv & ->). cbn [mbind outcome_bind].
  destruct (process_chunked_value num_chars value meta (fun _ => rv)) as [v m]. by eexists _, _.
Qed.

Lemma apply_patterns_answers rule key redact patterns meta value :
  Forall (fun p => simple_behavior p.2) patterns ->
  answers value (apply_patterns hash_value num_chars rule key redact patterns meta value).
Proof.
  intros Hp. revert meta value. induction Hp as [|[[pt regex] rb] patterns Hrb _ IH]; intros meta value.
  { eexists _, _, _. by split; [|split; [|left]]. }
  assert (forall re, answers value ('(meta, value) ← apply_regex hash_value num_chars rule re rb meta value;
            apply_patterns hash_value num_chars rule key redact patterns meta value)) as Hcont.
  { intros re. destruct (apply_regex_returns rule re rb meta value Hrb) as (m & v & -> & Hv). cbn [mbind outcome_bind].
    destruct (IH m v) as (m' & v' & r & -> & Hv' & Hr). eexists _, _, _. split; [done|]. split; [by rewrite Hv'|done]. }
  cbn [apply_patterns]. destruct pt; [|apply Hcont]. destruct (is_match _ _); [|apply Hcont].
  destruct (bool_decide _ && redact); [apply Hcont|]. eexists _, _, _. by split; [|split; [|right]].
Qed.

Lemma apply_rule_answers rule key meta value : simple_rule rule ->
  answers value (apply_rule_to_value hash_value num_chars meta rule key value).
Proof.
  intros Hs. unfold apply_rule_to_value. destruct (_ && _); [|by apply apply_patterns_answers].
  eexists _, _, _. by split; [|split; [|right]].
Qed.

(** A rule that removes whatever it applies to. *)
Definition removes (rule : RuleRef) : Prop := RuleRef.ty rule = RuleType.Anything /\ should_redact rule = false.

Definition deleted (o : outcome Applied) : Prop :=
  exists meta value, o = Ret (meta, value, Err ProcessingAction.DeleteValueHard).

Lemma apply_rules_answers rules key meta value : Forall simple_rule rules ->
  answers value (apply_rules hash_value num_chars rules key meta value) /\
  (Exists removes rules -> deleted (apply_rules hash_value num_chars rules key meta value)).
Proof.
  intros Hs. revert meta value. induction Hs as [|rule rules Hr _ IH]; intros meta value; cbn [apply_rules].
  { split; [|by intros ?%Exists_nil]. eexists _, _, _. by split; [|split; [|left]]. }
  destruct (apply_rule_answers rule key meta value Hr) as (m & v & r & Heq & Hv & Hcase). rewrite Heq. cbn [mbind outcome_bind].
  destruct Hcase as [-> | ->].
  - destruct (IH m v) as [(m' & v' & r' & Heq' & Hv' & Hr') Hdel]. split.
    + eexists _, _, _. split; [exact Heq'|]. by rewrite Hv'.
    + intros [ [Hty Hred] | Hex]%Exists_cons; [exfalso|by apply Hdel].
      unfold apply_rule_to_value in Heq. rewrite Hty, Hred in Heq. cbn [is_anything andb negb] in Heq.
      rewrite orb_true_r in Heq. simplify_eq.
  - split; [by eexists _, _, _; split; [|split; [|right]]|]. intros _. by eexists _, _.
Qed.

Lemma apply_applications_answers compiled meta state value : simple_config compiled ->
  answers value (apply_applications hash_value num_chars to_lowercase compiled meta state value) /\
  (Exists (fun app => matches_selector to_lowercase state app.1 = true /\ Exists removes app.2) compiled ->
   deleted (apply_applications hash_value num_chars to_lowercase compiled meta state value)).
Proof.
  intros Hs. revert meta value. induction Hs as [|[sel rules] compiled Hr _ IH]; intros meta value; cbn [apply_applications].
  { split; [|by intros ?%Exists_nil]. eexists _, _, _. by split; [|split; [|left]]. }
  rewrite Exists_cons. cbn [fst snd]. destruct (matches_selector to_lowercase state sel).
  2: { split; [apply IH|]. intros [ [? _] | Hex]; [done|by apply IH]. }
  destruct (apply_rules_answers rules (path_key state) meta value Hr) as [(m & v & r & Heq & Hv & Hcase) Hdel].
  rewrite Heq in *. cbn [mbind outcome_bind]. destruct Hcase as [-> | ->].
  - destruct (IH m v) as [(m' & v' & r' & Heq' & Hv' & Hr') Hdel']. split.
    + eexists _, _, _. split; [exact Heq'|]. by rewrite Hv'.
    + intros [ [_ Hex] | Hex]; [|by apply Hdel']. destruct (Hdel Hex) as (? & ? & ?). simplify_eq.
  - split; [by eexists _, _, _; split; [|split; [|right]]|]. intros _. by eexists _, _.
Qed.

End Answers.

(** ** Scrubbing a tree of values *)

(** The state in which a value is visited for the second time, as what it holds. *)
Definition inner_state (st : ProcessingState) : ProcessingState :=
  ProcessingState.enter_nothing st (Some (FieldAttrs.inherit (ProcessingState.attrs st))).
Definition index_state (st : ProcessingState) (i : Z) (tys : list ValueType) : ProcessingState :=
  ProcessingState.enter_index (inner_state st) i (ProcessingState.inner_attrs (inner_state st)) tys.
Definition key_state (st : ProcessingState) (k : string) (tys : list ValueType) : ProcessingState :=
  ProcessingState.enter_borrowed (inner_state st) k (ProcessingState.inner_attrs (inner_state st)) tys.

(** Values that no rule touches. *)
Definition exempt (v : Value) : bool :=
  match v with Bool _ => true | String_ s => bool_decide (s ∈ exempt_strings) | _ => false end.

Definition is_container (v : Value) : bool := match v with Array _ | Object _ => true | _ => false end.

(** No value in a tree is at a state that [hit] holds of, except for exempt ones. *)
Inductive clean (hit : ProcessingState -> Prop) : Annotated Value -> ProcessingState -> Prop :=
| clean_none m st : clean hit (MkAnnotated None m) st
| clean_scalar v m st :
    is_container v = false -> (hit st -> exempt v = true) -> clean hit (MkAnnotated (Some v) m) st
| clean_array items m st :
    ~ hit st ->
    (forall i a, items !! i = Some a -> clean hit a (index_state st (Z.of_nat i) (for_field a))) ->
    clean hit (MkAnnotated (Some (Array items)) m) st
| clean_object items m st :
    ~ hit st ->
    (forall k a, (k, a) ∈ items -> clean hit a (key_state st k (for_field a))) ->
    clean hit (MkAnnotated (Some (Object items)) m) st.

Section Loop.
Context {Self : Type} (walk : walker Self) (self : Self).

(** A walk that succeeds on every member with a property of the result. *)
Lemma children_all {K} (enter : K -> list ValueType -> ProcessingState) (Q : K -> Annotated Value -> Prop) items :
  (forall k a, (k, a) ∈ items -> exists a', walk self a (enter k (for_field a)) = Ret (self, a', Ok ()) /\ Q k a') ->
  exists items', children walk enter self items = Ret (self, items', Ok ()) /\
    Forall2 (fun x y => x.1 = y.1 /\ Q y.1 y.2) items items'.
Proof.
  induction items as [|[k a] items IH]; intros H; [exists []; by split; [|constructor]|].
  destruct (H k a) as (a' & Ha & HQ); [apply list_elem_of_here|].
  destruct IH as (items' & Hi & HF); [intros; apply H; by apply list_elem_of_further|].
  exists ((k, a') :: items'). cbn [children]. rewrite Ha. cbn [mbind outcome_bind]. rewrite Hi. cbn [mbind outcome_bind].
  split; [done|]. by constructor.
Qed.

End Loop.

Section Tree.
Context (f64_to_string : f64 -> string).
Context {RE : RegexEngine} {RL : RegexLaws} (hash_value : string -> string) (num_chars : string -> Z)
  (to_lowercase : string -> string).
Context (compiled : CompiledPiiConfig) (simple : simple_config compiled).
#[local] Instance pii_instance : Processor CompiledPiiConfig := pii_processor hash_value num_chars to_lowercase.

(** A selector that matches the state applies a rule that removes anything. *)
Definition removed_at (st : ProcessingState) : Prop :=
  Exists (fun app => matches_selector to_lowercase st app.1 = true /\ Exists removes app.2) compiled.

Lemma matches_inner st sel : matches_selector to_lowercase (inner_state st) sel = matches_selector to_lowercase st sel.
Proof.
  induction sel as [xs IH|xs IH|x IH|path] using SelectorSpec_ind'; cbn [matches_selector];
    change (FieldAttrs.pii (ProcessingState.attrs (inner_state st))) with (FieldAttrs.pii (ProcessingState.attrs st)).
  - case_bool_decide; [done|]. induction IH as [|x xs Hx _ IHxs]; [done|]. cbn [forallb]. by rewrite Hx, IHxs.
  - case_bool_decide; [done|]. induction IH as [|x xs Hx _ IHxs]; [done|]. cbn [existsb]. by rewrite Hx, IHxs.
  - by rewrite IH.
  - case_bool_decide; [done|]. unfold matches_path. change (ProcessingState.depth (inner_state st)) with (ProcessingState.depth st).
    change (ProcessingState.iter (inner_state st)) with (inner_state st :: ProcessingState.iter st).
    cbn [List.filter]. unfold inner_state at 1. by rewrite entered_enter_nothing.
Qed.

Lemma removed_at_inner st : removed_at (inner_state st) <-> removed_at st.
Proof. unfold removed_at. by setoid_rewrite matches_inner. Qed.

Lemma matches_pii_false st sel :
  FieldAttrs.pii (ProcessingState.attrs st) = Pii.False -> matches_selector to_lowercase st sel = false.
Proof. intros H. destruct sel; cbn [matches_selector]; by rewrite bool_decide_true. Qed.

Lemma apply_all_answers meta st value :
  answers value (apply_all_rules hash_value num_chars to_lowercase compiled meta st value) /\
  (removed_at st -> deleted (apply_all_rules hash_value num_chars to_lowercase compiled meta st value)).
Proof.
  unfold apply_all_rules. case_bool_decide as Hp; [|by apply apply_applications_answers].
  split; [by eexists _, _, _; split; [|split; [|left]]|]. intros (app & _ & Hm & _)%Exists_exists.
  by rewrite matches_pii_false in Hm.
Qed.

(** Values whose rules run before they are visited. *)
Definition checked_first (tys : list ValueType) : Prop := ~ ValueType.Boolean ∈ tys /\ ~ ValueType.String_ ∈ tys.

Lemma before_answers v meta st :
  exists meta' r, before_process compiled (Some v) meta st = Ret (compiled, meta', r) /\
    (r = Ok () \/ r = Err ProcessingAction.DeleteValueHard) /\
    (r = Ok () -> checked_first (ProcessingState.value_type st) -> ~ removed_at st).
Proof.
  cbn [before_process pii_instance pii_processor]. unfold pii_before_process, checked_first.
  repeat case_bool_decide; cbn [orb]; try (eexists _, _; split; [done|]; split; [by left|]; tauto).
  destruct (apply_all_answers meta st None) as [(m & v' & r & -> & _ & Hr) Hdel]. cbn [mbind outcome_bind].
  eexists _, _. split; [done|]. split; [done|]. intros -> _ Hrem. destruct (Hdel Hrem) as (? & ? & ?). simplify_eq.
Qed.

Lemma string_answers s meta st :
  exists s' meta' r, process_string compiled s meta st = Ret (compiled, s', meta', r) /\
    (r = Ok () \/ r = Err ProcessingAction.DeleteValueHard) /\
    (r = Ok () -> removed_at st -> exempt (String_ s') = true).
Proof.
  cbn [process_string pii_instance pii_processor]. unfold pii_process_string. case_bool_decide as He.
  - eexists _, _, _. split; [done|]. split; [by left|]. intros _ _. simpl. by apply bool_decide_eq_true.
  - destruct (apply_all_answers meta st (Some s)) as [(m & v' & r & -> & _ & Hr) Hdel]. cbn [mbind outcome_bind].
    eexists _, _, _. split; [done|]. split; [done|]. intros -> Hrem. destruct (Hdel Hrem) as (? & ? & ?). simplify_eq.
Qed.

(** What a visit guarantees: it succeeds and leaves a clean value of the same type, or none. *)
Definition scrubs (walk : walker CompiledPiiConfig) (h : nat) : Prop :=
  forall a st, annotated_height a <= h -> ProcessingState.value_type st = for_field a ->
    exists a', walk compiled a st = Ret (compiled, a', Ok ()) /\ clean removed_at a' st /\
      (for_field a' = for_field a \/ Annotated.value a' = None).

Lemma retype a (st : list ValueType -> ProcessingState) tys :
  clean removed_at a (st tys) -> (for_field a = tys \/ Annotated.value a = None) -> clean removed_at a (st (for_field a)).
Proof. intros Hc [<-|Hn]; [done|]. destruct a as [v m]. simpl in Hn. subst v. constructor. Qed.

Lemma members_scrubbed {K} (enter : K -> list ValueType -> ProcessingState) walk h items :
  scrubs walk h -> deepest (members_of items) <= h ->
  (forall k tys, ProcessingState.value_type (enter k tys) = tys) ->
  exists items', children walk enter compiled items = Ret (compiled, items', Ok ()) /\
    Forall2 (fun x y => x.1 = y.1 /\ clean removed_at y.2 (enter y.1 (for_field y.2))) items items'.
Proof.
  intros Hw Hh Hty. apply (children_all walk compiled enter (fun k a => clean removed_at a (enter k (for_field a)))).
  intros k a Hin. destruct (Hw a (enter k (for_field a))) as (a' & Ha & Hc & Hf); [|apply Hty|].
  - etransitivity; [|exact Hh]. apply deepest_elem. apply list_elem_of_fmap. by exists (k, a).
  - exists a'. split; [done|]. by apply (retype a' (enter k) (for_field a)).
Qed.

Lemma array_scrubbed walk items meta st : scrubs walk (deepest items) -> ~ removed_at st ->
  exists items', process_array walk compiled items meta (inner_state st) = Ret (compiled, items', meta, Ok ()) /\
    forall m, clean removed_at (MkAnnotated (Some (Array items')) m) st.
Proof.
  intros Hw Hst. destruct (members_scrubbed (index_state st) walk (deepest items) (enumerate items)) as (items' & Hi & HF);
    [done|by rewrite members_enumerate|done|].
  exists (members_of items'). split.
  { cbn [process_array pii_instance pii_processor]. unfold default_array, array_children.
    change (fun i => ProcessingState.enter_index (inner_state st) i (ProcessingState.inner_attrs (inner_state st)))
      with (index_state st). by rewrite Hi. }
  intros m. apply clean_array; [done|]. intros i a Ha. apply list_lookup_fmap_Some in Ha as ([k b] & -> & Hk).
  destruct (Forall2_lookup_r _ _ _ _ _ HF Hk) as ([k0 b0] & Hk0 & Heq & Hc). simpl in Heq, Hc |- *. subst k0.
  unfold enumerate in Hk0. rewrite list_lookup_imap in Hk0. apply fmap_Some in Hk0 as (? & _ & [= -> _]). done.
Qed.

Lemma object_scrubbed walk items meta st : scrubs walk (deepest (members_of items)) -> ~ removed_at st ->
  exists items', process_object walk compiled items meta (inner_state st) = Ret (compiled, items', meta, Ok ()) /\
    forall m, clean removed_at (MkAnnotated (Some (Object items')) m) st.
Proof.
  intros Hw Hst. destruct (members_scrubbed (key_state st) walk _ items Hw) as (items' & Hi & HF); [done|done|].
  exists items'. split.
  { cbn [process_object pii_instance pii_processor]. unfold default_object, object_children.
    change (fun k => ProcessingState.enter_borrowed (inner_state st) k (ProcessingState.inner_attrs (inner_state st)))
      with (key_state st). by rewrite Hi. }
  intros m. apply clean_object; [done|]. intros k a Ha. apply list_elem_of_lookup in Ha as (i & Hi').
  destruct (Forall2_lookup_r _ _ _ _ _ HF Hi') as (x & _ & _ & Hc). exact Hc.
Qed.

Lemma inner_scrubbed walk v meta st : scrubs walk (height v - 1) ->
  (checked_first (value_type_of v) -> ~ removed_at st) ->
  exists v' meta' r, process_inner walk compiled v meta (inner_state st) = Ret (compiled, v', meta', r) /\
    (r = Ok () \/ r = Err ProcessingAction.DeleteValueHard) /\ value_type_of v' = value_type_of v /\
    (r = Ok () -> forall m, clean removed_at (MkAnnotated (Some v') m) st).
Proof.
  intros Hw Hst. destruct v as [b|n|n|x|s|items|items]; cbn [process_inner].
  - eexists _, _, _. split; [done|]. split; [by left|]. split; [done|]. intros _ m. by apply clean_scalar.
  - eexists _, _, _. split; [done|]. split; [by left|]. split; [done|]. intros _ m. apply clean_scalar; [done|].
    intros []%Hst. by split; intros ?%list_elem_of_singleton.
  - eexists _, _, _. split; [done|]. split; [by left|]. split; [done|]. intros _ m. apply clean_scalar; [done|].
    intros []%Hst. by split; intros ?%list_elem_of_singleton.
  - eexists _, _, _. split; [done|]. split; [by left|]. split; [done|]. intros _ m. apply clean_scalar; [done|].
    intros []%Hst. by split; intros ?%list_elem_of_singleton.
  - destruct (string_answers s meta (inner_state st)) as (s' & meta' & r & -> & Hr & He). cbn [mbind outcome_bind].
    eexists _, _, _. split; [done|]. split; [done|]. split; [done|]. intros -> m. apply clean_scalar; [done|].
    intros Hrem. apply He; [done|]. by apply removed_at_inner.
  - rewrite height_array in Hw. simpl in Hw. rewrite Nat.sub_0_r in Hw.
    destruct (array_scrubbed walk items meta st Hw) as (items' & -> & Hc); [apply Hst; by split; intros ?%list_elem_of_singleton|].
    cbn [mbind outcome_bind]. eexists _, _, _. split; [done|]. split; [by left|]. by split.
  - rewrite height_object in Hw. simpl in Hw. rewrite Nat.sub_0_r in Hw.
    destruct (object_scrubbed walk items meta st Hw) as (items' & -> & Hc); [apply Hst; by split; intros ?%list_elem_of_singleton|].
    cbn [mbind outcome_bind]. eexists _, _, _. split; [done|]. split; [by left|]. by split.
Qed.

(** A visit to a value, from the hooks to what it holds. *)
Lemma visit_scrubbed walk v meta st : scrubs walk (height v - 1) -> ProcessingState.value_type st = value_type_of v ->
  exists a', process_annotated_with f64_to_string walk compiled (MkAnnotated (Some v) meta) st = Ret (compiled, a', Ok ()) /\
    clean removed_at a' st /\ (for_field a' = value_type_of v \/ Annotated.value a' = None).
Proof.
  intros Hw Hty. unfold process_annotated_with. cbn [Annotated.value Annotated.meta].
  destruct (before_answers v meta st) as (m1 & r1 & -> & Hr1 & Hb1). cbn [mbind outcome_bind].
  destruct Hr1 as [-> | ->]; cbn [apply_hook apply_action Annotated.value Annotated.meta mbind outcome_bind].
  2: { eexists. split; [done|]. split; [constructor|by right]. }
  rewrite Hty in Hb1. specialize (Hb1 eq_refl). unfold process_value_variant.
  cbn [process_value pii_instance pii_processor mbind outcome_bind]. fold (inner_state st).
  change (before_process (Processor := pii_processor hash_value num_chars to_lowercase)) with (before_process (Processor := pii_instance)).
  destruct (before_answers v m1 (inner_state st)) as (m2 & r2 & -> & Hr2 & _). cbn [mbind outcome_bind].
  destruct Hr2 as [-> | ->]; cbn [apply_action Annotated.value Annotated.meta mbind outcome_bind].
  2: { eexists. split; [done|]. split; [constructor|by right]. }
  destruct (inner_scrubbed walk v m2 st Hw Hb1) as (v' & m3 & r3 & -> & Hr3 & Hty' & Hc). cbn [mbind outcome_bind].
  destruct Hr3 as [-> | ->]; cbn.
  - eexists. split; [done|]. split; [by apply Hc|]. by left.
  - eexists. split; [done|]. split; [constructor|by right].
Qed.

Lemma scrubs_fuel fuel : scrubs (process_annotated f64_to_string fuel) (fuel - 1) \/ fuel = 0.
Proof.
  induction fuel as [|fuel IH]; [by right|left]. intros [[v|] meta] st Hh Hty; cbn [process_annotated].
  2: { eexists. split; [|split; [constructor|by right]]. cbn. unfold pii_before_process.
       by destruct (_ || _). }
  unfold annotated_height in Hh. cbn [Annotated.value] in Hh. pose proof (height_pos v).
  apply visit_scrubbed; [|done]. destruct IH as [IH| ->]; [|lia].
  intros a st' Ha. apply IH. lia.
Qed.

(** C25: Whatever the value, scrubbing it returns, and afterwards no value in the tree
    is at a place that a selector with a removing rule addresses, except for booleans and the strings
    that stand for no value.  The rules may replace values and single groups; fuel beyond
    the nesting of the value is enough. *)
Theorem removed_everywhere fuel a st :
  annotated_height a < fuel -> ProcessingState.value_type st = for_field a ->
  exists a', process_annotated f64_to_string fuel compiled a st = Ret (compiled, a', Ok ()) /\ clean removed_at a' st.
Proof.
  intros Hf Hty. destruct (scrubs_fuel fuel) as [Hs| ->]; [|lia].
  destruct (Hs a st) as (a' & Ha & Hc & _); [lia|done|]. by exists a'.
Qed.

End Tree.

(** ** Image paths keep their file name *)

Definition file_name (path : string) : string :=
  match split_off_basename path with Some (_, basename) => str_from 1 basename | None => path end.

Lemma split_off_spec s directory basename : split_off_basename s = Some (directory, basename) ->
  exists a name, basename = String a name /\ is_separator a = true /\ split_off_basename name = None.
Proof.
  revert directory. induction s as [|c s IH]; intros directory; simpl; [done|].
  destruct (split_off_basename s) as [[d b]|] eqn:E; [intros [= _ <-]; by apply (IH d)|].
  destruct (is_separator c) eqn:Hc; [|done]. intros [= _ <-]. by eexists _, _.
Qed.

Lemma split_off_app p a name : is_separator a = true -> split_off_basename name = None ->
  split_off_basename (p +:+ String a name) = Some (p, String a name).
Proof. intros Ha Hn. induction p as [|c p IH]; simpl; [by rewrite Hn, Ha|by rewrite IH]. Qed.

Lemma str_from_1 a s : str_from 1 (String a s) = s.
Proof. apply (str_from_app (String a "") s). Qed.

Section Images.
Context {RE : RegexEngine} {RL : RegexLaws} (hash_value : string -> string) (num_chars : string -> Z)
  (to_lowercase : string -> string).

(** Scrubbing the path of an image never fails and never changes its file name, which
    the processing of native events needs, whatever the rules do to the directory. *)
Theorem image_file_name_kept compiled value meta state : simple_config compiled ->
  exists value' meta',
    process_native_image_path hash_value num_chars to_lowercase compiled value meta state = Ret (compiled, value', meta', Ok ()) /\
    file_name value' = file_name value.
Proof.
  intros Hs. unfold process_native_image_path, file_name at 2.
  destruct (split_off_basename value) as [[directory basename]|] eqn:E;
    [|eexists _, _; split; [done|]; unfold file_name; by rewrite E].
  destruct (split_off_spec _ _ _ E) as (a & name & -> & Ha & Hn). rewrite str_from_1.
  destruct (string_answers hash_value num_chars to_lowercase compiled Hs directory meta state) as (s' & m' & r & Hr & Hcase & _).
  cbn in Hr. rewrite Hr. cbn [mbind outcome_bind]. destruct Hcase as [-> | ->]; eexists _, _; (split; [done|]).
  - unfold file_name. by rewrite split_off_app, str_from_1.
  - unfold file_name. by rewrite Hn.
Qed.

End Images.

(** ** Examples *)

(** An engine that takes the longest run of digits from the left, for every expression. *)
Fixpoint digits (s : string) : nat :=
  match s with String a s => if is_ascii_digit a then S (digits s) else 0 | "" => 0 end.
Fixpoint first_digit (s : string) : nat :=
  match s with String a s => if is_ascii_digit a then 0 else S (first_digit s) | "" => 0 end.
#[local] Instance digit_engine : RegexEngine := {|
  captures_iter _ s := if digits (str_from (first_digit s) s) is 0 then [] else
    [[Some (first_digit s, first_digit s + digits (str_from (first_digit s) s))]];
  is_match _ _ := false;
|}.

Definition mask_digits : RuleRef := RuleRef.MkRuleRef "@digits" "@digits" RuleType.UsSsn Redaction.Mask.

Lemma matches_redacted_witness :
  exists rv, apply_regex_to_chunks id [Text "call "; Chunks.Redaction "[x]" "a" RemarkType.Removed; Text " 123 now"]
      mask_digits US_SSN_REGEX ReplaceBehavior.replace_match = Ret rv /\
    strip_nul (plain rv) = "call   now" /\
    redactions rv = [Chunks.Redaction "[x]" "a" RemarkType.Removed; Chunks.Redaction "***" "@digits" RemarkType.Masked].
Proof.
  destruct (matches_redacted id [Text "call "; Chunks.Redaction "[x]" "a" RemarkType.Removed; Text " 123 now"]
              mask_digits US_SSN_REGEX [0%Z]) as (rv & Hrv & _ & Hp & Hr & _).
  - vm_compute. split_and!; by eexists.
  - exists rv. split; [exact Hrv|]. rewrite Hp, Hr. split; vm_compute; reflexivity.
Defined.

(** A match that covers an earlier redaction does not take it from the stack: a redaction
    behind the match is replaced by the one that was covered. *)
Lemma covered_redaction_reappears :
  let engine := {| captures_iter _ _ := [[Some (0, 2)]]; is_match _ _ := false |} in
  apply_regex_to_chunks (RE := engine) id
    [Chunks.Redaction "[a]" "one" RemarkType.Masked; Text "x"; Chunks.Redaction "[b]" "two" RemarkType.Masked; Text "y"]
    mask_digits ANYTHING_REGEX ReplaceBehavior.replace_match =
  Ret [Chunks.Redaction "**" "@digits" RemarkType.Masked; Text ""; Chunks.Redaction "[a]" "one" RemarkType.Masked; Text "y"].
Proof. vm_compute. reflexivity. Qed.

(** An engine that matches every string as a whole. *)
Definition whole_engine : RegexEngine := {|
  captures_iter _ s := [[Some (0, String.length s)]];
  is_match _ _ := false;
|}.
Lemma whole_engine_lawful : RegexLaws (RE := whole_engine).
Proof.
  intros regex s. cbn -[str_get]. split; [lia|]. exists 0, (String.length s). split; [done|].
  assert (is_Some (str_get s 0 (String.length s))) as Hs.
  { eexists. apply str_get_Some. split; [lia|]. split; [apply boundary_0|]. split; [apply boundary_end|done]. }
  split; [eexists; apply str_get_Some; split; [lia|]; by split_and!; [apply boundary_0..|]|].
  split; [by repeat constructor|].
  eexists. apply str_get_end.
Qed.

(** [$object.secret] is removed, [$string] is masked. *)
Definition sample_compiled : CompiledPiiConfig :=
  [(Path [SelectorPathItem.Key "secret"], [remove_rule]); (SelectorSpec_from ValueType.String_, [mask_digits])].
Definition sample_state (tys : list ValueType) : ProcessingState :=
  ProcessingState.new_root (Some PII_TRUE_FIELD_ATTRS) tys.
Definition sample_value : Annotated Value :=
  Annotated.new (Object [("a", Annotated.new (Array [Annotated.new (String_ "x1")]));
                         ("Secret", Annotated.new (Object [("b", Annotated.new (I64 7))]))]).

Lemma sample_simple : simple_config sample_compiled.
Proof. by repeat constructor. Qed.

Lemma removed_everywhere_witness :
  exists a', process_annotated (Processor0 := pii_processor (RE := whole_engine) id char_count to_ascii_lowercase) (fun _ => "1") 4
               sample_compiled sample_value (sample_state [ValueType.Object]) = Ret (sample_compiled, a', Ok ()) /\
    clean (removed_at to_ascii_lowercase sample_compiled) a' (sample_state [ValueType.Object]) /\
    removed_at to_ascii_lowercase sample_compiled (key_state (sample_state [ValueType.Object]) "Secret" [ValueType.Object]).
Proof.
  destruct (removed_everywhere (fun _ => "1") (RE := whole_engine) (RL := whole_engine_lawful) id char_count to_ascii_lowercase
              sample_compiled sample_simple 4 sample_value (sample_state [ValueType.Object])) as (a' & Ha & Hc);
    [vm_compute; lia|reflexivity|].
  exists a'. split; [exact Ha|]. split; [exact Hc|]. apply Exists_cons_hd. split; [vm_compute; reflexivity|].
  by apply Exists_cons_hd.
Defined.

Lemma image_file_name_kept_witness :
  exists value' meta', process_native_image_path (RE := whole_engine) id char_count to_ascii_lowercase sample_compiled
      "C:\users\me\app.exe" Meta.empty (sample_state [ValueType.String_]) = Ret (sample_compiled, value', meta', Ok ()) /\
    file_name value' = "app.exe".
Proof.
  destruct (image_file_name_kept (RE := whole_engine) (RL := whole_engine_lawful) id char_count to_ascii_lowercase
    sample_compiled "C:\users\me\app.exe" Meta.empty (sample_state [ValueType.String_]) sample_simple) as (v & m & H & Hf).
  exists v, m. split; [exact H|]. rewrite Hf. vm_compute. reflexivity.
Defined.
