(* ===== verification/PiiAttachments.v ===== *)
(** * relay-general: scrubbing attachments and minidumps (pii/attachments.rs, pii/minidumps.rs)

    Attachments are scrubbed in place: a match is overwritten by as many bytes, in the text
    encodings UTF-8 and UTF-16 (little endian).  A minidump is scrubbed region by region.
    Data is a [string] of bytes; a mutable slice is its range in the data.  The crates regex,
    utf16string and minidump are the classes [RegexEngine], [BytesRegex], [Utf16String] and
    the record [Minidump]. *)

From Stdlib Require Import Ascii String Sorted.
From S2P Require Import Prelude Strings Attrs PiiRules PiiConfig PiiProcessor.

Open Scope string_scope.
Open Scope nat_scope.
Open Scope list_scope.

Module ScrubEncodings.
Inductive ScrubEncodings := Utf8 | Utf16Le | All.
End ScrubEncodings.

Definition MIN_STRING_LEN : nat := 5.

(** A regular expression rebuilt for bytes; [None] when that fails. *)
Class BytesRegex := bytes_captures : Regex -> string -> option (list Captures).

(** UTF-16, little endian: the length of the valid prefix and of the error behind it
    ([None] for valid input), the offsets of the characters, with the character, and the
    text in UTF-8. *)
Class Utf16String := {
  from_utf16le : string -> option (nat * option nat);
  wchar_indices : string -> list (nat * Z);
  to_utf8 : string -> string;
}.

(** [data[start..end]] replaced by what [f] makes of it. *)
Definition patch (data : string) (start end_ : nat) (f : string -> string) : outcome string :=
  if bool_decide (start <= end_) && bool_decide (end_ <= String.length data) then
    Ret (substring 0 start data +:+ f (substring start (end_ - start) data) +:+ str_from end_ data)
  else Panic.

Fixpoint repeat_str (unit : string) (n : nat) : string :=
  match n with O => "" | S n => unit +:+ repeat_str unit n end.

(** ** Redactions that keep the length *)

Section Mods.
Context (hash_value : string -> string).
Context (fill_content : string -> string) (swap_content : string -> string -> string).

(** [apply_redaction] of the trait [StringMods], with the padding and mask ['*']. *)
Definition apply_redaction (redaction : Redaction) (self : string) : string :=
  match redaction with
  | Redaction.Default | Redaction.Remove => fill_content self
  | Redaction.Mask => fill_content self
  | Redaction.Hash => swap_content self (hash_value self)
  | Redaction.Replace text => swap_content self text
  end.

End Mods.

Module Utf8.
Definition fill_content (self : string) : string := repeat_str "*" (String.length self).
Definition swap_content (self replacement : string) : string :=
  let cutoff := Nat.min (String.length replacement) (String.length self) in
  substring 0 cutoff replacement +:+ repeat_str "*" (String.length self - cutoff).
End Utf8.

(** ** UTF-16 code units *)

(** [char::encode_utf16]. *)
Definition encode_char (c : Z) : list Z :=
  if bool_decide (c < 65536)%Z then [c]
  else let c := (c - 65536)%Z in [55296 + Z.shiftr c 10; 56320 + Z.land c 1023]%Z.
(** [str::encode_utf16]. *)
Definition encode_utf16 (s : string) : list Z := concat (encode_char ∘ code_point <$> chars s).

Definition to_le_bytes (code : Z) : string :=
  String (ascii_of_nat (Z.to_nat (Z.land code 255))) (String (ascii_of_nat (Z.to_nat (Z.shiftr code 8))) "").

Module Utf16.
(** [chunks_exact_mut(2)]: an odd byte at the end is left alone. *)
Fixpoint fill_units (s : string) : string :=
  match s with
  | String _ (String _ s) => to_le_bytes 42 +:+ fill_units s
  | s => s
  end.
Definition fill_content (self : string) : string := fill_units self.

(** The loop over the code units: [room] is [len - offset]. *)
Fixpoint write_codes (codes : list Z) (room : nat) : string :=
  match codes with
  | [] => ""
  | code :: codes =>
      let char_len := if bool_decide (Z.land 55296 code = 55296)%Z then 4 else 2 in
      if bool_decide (room < char_len) then ""
      else to_le_bytes code +:+ write_codes codes (room - 2)
  end.
Definition swap_content (self replacement : string) : string :=
  let written := write_codes (encode_utf16 replacement) (String.length self) in
  written +:+ fill_units (str_from (String.length written) self).
End Utf16.

(** ** Regular expressions on bytes *)

Section Scrub.
Context {RE : RegexEngine} {BR : BytesRegex} {US : Utf16String} (hash_value : string -> string)
  (to_lowercase : string -> string).

(** The groups of a match to redact, from index [idx]; a value stops at its first group. *)
Fixpoint byte_groups (replace_behavior : ReplaceBehavior) (len idx : nat) (captures : Captures) : list (nat * nat) :=
  match captures with
  | [] => []
  | None :: captures => byte_groups replace_behavior len (S idx) captures
  | Some (start, end_) :: captures =>
      if bool_decide (start = end_) then byte_groups replace_behavior len (S idx) captures
      else match replace_behavior with
           | ReplaceBehavior.Groups replace_groups =>
               (if bool_decide ((Z.of_nat idx mod 256)%Z ∈ replace_groups) then [(start, end_)] else [])
               ++ byte_groups replace_behavior len (S idx) captures
           | ReplaceBehavior.Value => [(0, len)]
           end
  end.

Fixpoint patch_all (data : string) (matches : list (nat * nat)) (f : string -> string) : outcome string :=
  match matches with
  | [] => Ret data
  | (start, end_) :: matches => data ← patch data start end_ f; patch_all data matches f
  end.

Definition apply_regex_to_utf8_bytes (data : string) (rule : RuleRef) (regex : Regex)
    (replace_behavior : ReplaceBehavior) : outcome (string * list (nat * nat)) :=
  match bytes_captures regex data with
  | None => Ret (data, [])
  | Some captures =>
      let matches := concat (byte_groups replace_behavior (String.length data) 0 <$> captures) in
      data ← patch_all data matches (apply_redaction hash_value Utf8.fill_content Utf8.swap_content (RuleRef.redaction rule));
      Ret (data, matches)
  end.

(** ** Segments in UTF-16 *)

(** The byte offsets of the characters, [char_indices] of the text. *)
Fixpoint char_offsets (pos : nat) (cs : list string) : list nat :=
  match cs with [] => [] | c :: cs => pos :: char_offsets (pos + String.length c) cs end.

(** The loop over both sequences of characters. *)
Fixpoint find_offsets (start end_ : nat) (offsets : list (nat * nat)) (encoded_start encoded_end : nat) : nat * nat :=
  match offsets with
  | [] => (encoded_start, encoded_end)
  | (text_offset, encoded_offset) :: offsets =>
      let encoded_start := if bool_decide (text_offset = start) then encoded_offset else encoded_start in
      if bool_decide (text_offset = end_) then (encoded_start, encoded_offset)
      else find_offsets start end_ offsets encoded_start encoded_end
  end.

Definition get_wstr_match (all_text : string) (re_match : nat * nat) (all_encoded : string) : nat * nat :=
  find_offsets re_match.1 re_match.2
    (zip (char_offsets 0 (chars all_text)) (wchar_indices all_encoded).*1) 0 (String.length all_encoded).

Definition re_matches (regex : Regex) (replace_behavior : ReplaceBehavior) (text : string) : list (nat * nat) :=
  match replace_behavior with
  | ReplaceBehavior.Value => omap (fun captures => mjoin (captures !! 0)) (captures_iter regex text)
  | ReplaceBehavior.Groups replace_groups =>
      concat ((fun captures => omap (fun g => mjoin (captures !! Z.to_nat g)) replace_groups) <$> captures_iter regex text)
  end.

(** The matches of a segment are redacted one by one, in the bytes the last one left. *)
Fixpoint redact_segment (rule : RuleRef) (decoded : string) (matches : list (nat * nat)) (encoded : string)
  : outcome string :=
  match matches with
  | [] => Ret encoded
  | re_match :: matches =>
      let '(start, end_) := get_wstr_match decoded re_match encoded in
      encoded ← patch encoded start end_ (apply_redaction hash_value Utf16.fill_content Utf16.swap_content (RuleRef.redaction rule));
      redact_segment rule decoded matches encoded
  end.

(** The extent of the segment at an offset and the offset behind it. *)
Definition next_segment (data : string) (offset : nat) : nat * nat :=
  let rest := str_from offset data in
  match from_utf16le rest with
  | None => (String.length rest, offset + String.length rest)
  | Some (valid_up_to, Some len) => (valid_up_to, offset + (valid_up_to + len))
  | Some (valid_up_to, None) => (valid_up_to, String.length data)
  end.

Fixpoint scrub_segments (fuel : nat) (rule : RuleRef) (regex : Regex) (replace_behavior : ReplaceBehavior)
    (offset : nat) (data : string) (changed : bool) : outcome (string * bool) :=
  match fuel with
  | O => Panic
  | S fuel =>
      if bool_decide (String.length data <= offset) then Ret (data, changed) else
      let '(len, next) := next_segment data offset in
      let encoded := substring offset len data in
      if bool_decide (length (wchar_indices encoded) < MIN_STRING_LEN) then
        scrub_segments fuel rule regex replace_behavior next data changed
      else
        let decoded := to_utf8 encoded in
        let matches := re_matches regex replace_behavior decoded in
        encoded ← redact_segment rule decoded matches encoded;
        data ← patch data offset (offset + len) (fun _ => encoded);
        scrub_segments fuel rule regex replace_behavior next data
          (changed || negb (bool_decide (length matches = 0)))
  end.

Definition apply_regex_to_utf16le_bytes (data : string) (rule : RuleRef) (regex : Regex)
    (replace_behavior : ReplaceBehavior) : outcome (string * bool) :=
  scrub_segments (S (String.length data)) rule regex replace_behavior 0 data false.

(** ** Attachments *)

(** The ranges between the matches, starting at even offsets. *)
Fixpoint unscrubbed_ranges (previous : nat) (matches : list (nat * nat)) : list (nat * nat) :=
  match matches with
  | [] => []
  | current :: matches =>
      let start := if bool_decide (previous mod 2 = 0) then previous else previous + 1 in
      (start, current.1) :: unscrubbed_ranges current.2 matches
  end.

Fixpoint scrub_ranges (rule : RuleRef) (regex : Regex) (replace_behavior : ReplaceBehavior)
    (ranges : list (nat * nat)) (data : string) (changed : bool) : outcome (string * bool) :=
  match ranges with
  | [] => Ret (data, changed)
  | (start, end_) :: ranges =>
      if bool_decide (start < end_) then
        '(part, c) ← apply_regex_to_utf16le_bytes (substring start (end_ - start) data) rule regex replace_behavior;
        data ← patch data start end_ (fun _ => part);
        scrub_ranges rule regex replace_behavior ranges data (changed || c)
      else scrub_ranges rule regex replace_behavior ranges data changed
  end.

Definition scrub_regex (encodings : ScrubEncodings.ScrubEncodings) (rule : RuleRef) (regex : Regex)
    (replace_behavior : ReplaceBehavior) (data : string) : outcome (string * bool) :=
  match encodings with
  | ScrubEncodings.Utf8 =>
      '(data, matches) ← apply_regex_to_utf8_bytes data rule regex replace_behavior;
      Ret (data, negb (bool_decide (length matches = 0)))
  | ScrubEncodings.Utf16Le => apply_regex_to_utf16le_bytes data rule regex replace_behavior
  | ScrubEncodings.All =>
      '(data, matches) ← apply_regex_to_utf8_bytes data rule regex replace_behavior;
      scrub_ranges rule regex replace_behavior (unscrubbed_ranges 0 (matches ++ [(String.length data, 0)])) data
        (negb (bool_decide (length matches = 0)))
  end.

(** The loops over applications, rules and expressions, flattened. *)
Fixpoint scrub_all (encodings : ScrubEncodings.ScrubEncodings)
    (patterns : list (RuleRef * (PatternType * Regex * ReplaceBehavior))) (data : string) (changed : bool)
  : outcome (string * bool) :=
  match patterns with
  | [] => Ret (data, changed)
  | (rule, (_, regex, replace_behavior)) :: patterns =>
      '(data, c) ← scrub_regex encodings rule regex replace_behavior data;
      scrub_all encodings patterns data (changed || c)
  end.

Definition patterns_of (rules : list RuleRef) : list (RuleRef * (PatternType * Regex * ReplaceBehavior)) :=
  concat ((fun rule => pair rule <$> get_regex_for_rule_type (RuleRef.ty rule)) <$> rules).

Definition scrub_bytes (compiled_config : CompiledPiiConfig) (data : string) (state : ProcessingState)
    (encodings : ScrubEncodings.ScrubEncodings) : outcome (string * bool) :=
  if bool_decide (FieldAttrs.pii (ProcessingState.attrs state) = Pii.False) then Ret (data, false)
  else scrub_all encodings (patterns_of (rules_at to_lowercase compiled_config state)) data false.

Definition root_state : ProcessingState :=
  ProcessingState.enter_static ProcessingState.root "" None [ValueType.Attachments].

Definition attachment_state (filename : string) (value_type : ValueType) : ProcessingState :=
  ProcessingState.enter_borrowed root_state filename (Some (FieldAttrs.with_pii FieldAttrs.new Pii.True)) [value_type].

Definition scrub_attachment (compiled_config : CompiledPiiConfig) (filename data : string) : outcome (string * bool) :=
  scrub_bytes compiled_config data (attachment_state filename ValueType.Binary) ScrubEncodings.All.

(** ** File paths *)

(** Scrubbing of the bytes before an index. *)
Definition scrub_prefix (compiled_config : CompiledPiiConfig) (state : ProcessingState)
    (encodings : ScrubEncodings.ScrubEncodings) (path : string) (index : option nat) : outcome (string * bool) :=
  match index with
  | None => Ret (path, false)
  | Some index =>
      '(data, changed) ← scrub_bytes compiled_config (substring 0 index path) state encodings;
      path ← patch path 0 index (fun _ => data);
      Ret (path, changed)
  end.

Definition scrub_utf8_filepath (compiled_config : CompiledPiiConfig) (path : string) (state : ProcessingState)
  : outcome (string * bool) :=
  scrub_prefix compiled_config state ScrubEncodings.Utf8 path
    ((fun p => String.length p.1) <$> split_off_basename path).

Definition scrub_utf16_filepath (compiled_config : CompiledPiiConfig) (path : string) (state : ProcessingState)
  : outcome (string * bool) :=
  scrub_prefix compiled_config state ScrubEncodings.Utf16Le path
    (fst <$> last (filter (fun ic => ic.2 = 47%Z \/ ic.2 = 92%Z) (wchar_indices path))).

End Scrub.

(** ** What the crates promise *)

Definition range_ok (s : string) (g : option (nat * nat)) : Prop :=
  match g with Some (a, b) => a <= b <= String.length s | None => True end.

Class BytesRegexLaws {BR : BytesRegex} : Prop := bytes_ranges regex s captures :
  bytes_captures regex s = Some captures -> Forall (Forall (range_ok s)) captures.

Class Utf16Laws {US : Utf16String} : Prop := {
  utf16_error s v e : from_utf16le s = Some (v, e) ->
    match e with Some l => 0 < l /\ v + l <= String.length s | None => v <= String.length s end;
  wchar_sorted s : StronglySorted lt (wchar_indices s).*1;
  wchar_bound s : Forall (fun i => i < String.length s) (wchar_indices s).*1;
}.

(** ** Lengths *)

Lemma length_repeat u n : String.length (repeat_str u n) = n * String.length u.
Proof. induction n as [|n IH]; simpl; [done|]. by rewrite length_app_str, IH. Qed.

Lemma length_from n s : n <= String.length s -> String.length (str_from n s) = String.length s - n.
Proof. intros H. unfold str_from. rewrite length_substring; lia. Qed.

Lemma patch_spec data start end_ f : start <= end_ <= String.length data ->
  String.length (f (substring start (end_ - start) data)) = end_ - start ->
  exists data', patch data start end_ f = Ret data' /\ String.length data' = String.length data.
Proof.
  intros H Hf. unfold patch. rewrite !bool_decide_true by lia. eexists. split; [done|].
  rewrite !length_app_str, Hf, length_substring, length_from by lia. lia.
Qed.

Lemma patch_same data start end_ : start <= end_ <= String.length data ->
  patch data start end_ (fun _ => substring start (end_ - start) data) = Ret data.
Proof.
  intros H. unfold patch. rewrite !bool_decide_true by lia. cbn [andb]. f_equal. unfold str_from.
  pose proof (substring_join start (end_ - start) (String.length data - end_) data) as H1.
  replace (start + (end_ - start)) with end_ in H1 by lia. rewrite H1.
  pose proof (substring_join 0 start (end_ - start + (String.length data - end_)) data) as H2. simpl in H2. rewrite H2.
  replace (start + _) with (String.length data) by lia. apply substring_all.
Qed.

Lemma fill_units_length n s : String.length s <= n -> String.length (Utf16.fill_units s) = String.length s.
Proof.
  revert s. induction n as [|n IH]; intros [|a [|b s]] H; try done; simpl in H; [lia..|].
  change (Utf16.fill_units (String a (String b s))) with (to_le_bytes 42 +:+ Utf16.fill_units s).
  rewrite length_app_str, IH by lia. done.
Qed.

Lemma write_codes_length codes room : String.length (Utf16.write_codes codes room) <= room.
Proof.
  revert room. induction codes as [|code codes IH]; intros room; cbn [Utf16.write_codes]; [simpl; lia|].
  case_bool_decide as H; [simpl; lia|]. rewrite length_app_str. specialize (IH (room - 2)).
  change (String.length (to_le_bytes code)) with 2. destruct (bool_decide (Z.land _ _ = _)); lia.
Qed.

Lemma utf8_redaction_length hash redaction s :
  String.length (apply_redaction hash Utf8.fill_content Utf8.swap_content redaction s) = String.length s.
Proof.
  assert (forall r, String.length (Utf8.swap_content s r) = String.length s) as Hs.
  { intros r. unfold Utf8.swap_content. rewrite length_app_str, length_substring, length_repeat by lia. simpl. lia. }
  destruct redaction; simpl; try apply Hs; unfold Utf8.fill_content; rewrite length_repeat; simpl; lia.
Qed.

Lemma utf16_redaction_length hash redaction s :
  String.length (apply_redaction hash Utf16.fill_content Utf16.swap_content redaction s) = String.length s.
Proof.
  assert (forall r, String.length (Utf16.swap_content s r) = String.length s) as Hs.
  { intros r. unfold Utf16.swap_content. pose proof (write_codes_length (encode_utf16 r) (String.length s)).
    rewrite length_app_str, (fill_units_length _ _ (le_n _)), length_from by lia. lia. }
  destruct redaction; simpl; try apply Hs; by apply fill_units_length with (n := String.length s).
Qed.

Section Lengths.
Context {RE : RegexEngine} {BR : BytesRegex} {US : Utf16String} {BL : BytesRegexLaws} {UL : Utf16Laws}.
Context (hash_value : string -> string) (to_lowercase : string -> string).

(** Scrubbing returns, keeps the length, and reports no change only when there is none;
    [changed] are the changes before. *)
Definition keeps (data : string) (changed : bool) (o : outcome (string * bool)) : Prop :=
  exists data' c, o = Ret (data', c) /\ String.length data' = String.length data /\
    (c = false -> changed = false /\ data' = data).

Lemma keeps_refl data changed : keeps data changed (Ret (data, changed)).
Proof. by exists data, changed. Qed.

(** Another round on what a round left. *)
Lemma keeps_then data data1 changed c o : String.length data1 = String.length data ->
  (c = false -> changed = false /\ data1 = data) -> keeps data1 c o -> keeps data changed o.
Proof.
  intros Hl Hc (data' & c' & -> & Hl' & Hc'). exists data', c'. split; [done|]. split; [lia|].
  intros H. destruct (Hc' H) as [H1 ->]. by apply Hc.
Qed.

Lemma patch_all_spec data ranges f : (forall s, String.length (f s) = String.length s) ->
  Forall (fun r => r.1 <= r.2 <= String.length data) ranges ->
  exists data', patch_all data ranges f = Ret data' /\ String.length data' = String.length data.
Proof.
  intros Hf. revert data. induction ranges as [|[start end_] ranges IH]; intros data Hr; [by exists data|].
  apply Forall_cons in Hr as [Hr Hrs]. cbn [patch_all fst snd] in *.
  destruct (patch_spec data start end_ f Hr) as (data1 & -> & Hl); [rewrite Hf, length_substring; lia|].
  cbn [mbind outcome_bind]. destruct (IH data1) as (data' & -> & Hl'); [by rewrite Hl|]. exists data'. split; [done|lia].
Qed.

Lemma byte_groups_range rb data idx m : Forall (range_ok data) m ->
  Forall (fun r => r.1 <= r.2 <= String.length data) (byte_groups rb (String.length data) idx m).
Proof.
  intros H. revert idx. induction H as [|[ [a b]|] m Hg _ IH]; intros idx; cbn [byte_groups]; [constructor| |apply IH].
  case_bool_decide; [apply IH|]. destruct rb as [|groups].
  - repeat constructor; simpl; lia.
  - case_bool_decide; [constructor; [done|]|]; apply IH.
Qed.

Lemma utf8_keeps data rule regex rb :
  exists data' matches, apply_regex_to_utf8_bytes hash_value data rule regex rb = Ret (data', matches) /\
    String.length data' = String.length data /\ (matches = [] -> data' = data).
Proof.
  unfold apply_regex_to_utf8_bytes. destruct (bytes_captures regex data) as [captures|] eqn:E; [|by eexists _, _].
  destruct (patch_all_spec data (concat (byte_groups rb (String.length data) 0 <$> captures))
              (apply_redaction hash_value Utf8.fill_content Utf8.swap_content (RuleRef.redaction rule)))
    as (data' & Hp & Hl).
  - intros s. apply utf8_redaction_length.
  - apply Forall_concat, Forall_fmap. eapply Forall_impl; [exact (bytes_ranges _ _ _ E)|]. intros m Hm. by apply byte_groups_range.
  - rewrite Hp. cbn [mbind outcome_bind]. eexists _, _. split; [done|]. split; [done|].
    intros Hn. rewrite Hn in Hp. cbn in Hp. congruence.
Qed.

Lemma find_offsets_range len start end_ offsets es :
  StronglySorted lt offsets.*2 -> Forall (fun i => es <= i < len) offsets.*2 -> es <= len ->
  let '(a, b) := find_offsets start end_ offsets es len in a <= b <= len.
Proof.
  revert es. induction offsets as [|[t i] offsets IH]; intros es Hs Hf Hle; cbn [find_offsets]; [lia|].
  rewrite fmap_cons in Hs, Hf. apply StronglySorted_inv in Hs as [Hs Hlt]. apply Forall_cons in Hf as [Hi Hf]. cbn [snd] in *.
  case_bool_decide as Hst; case_bool_decide; try lia; apply IH; try done; try lia.
  rewrite Forall_forall in Hlt, Hf |- *. intros x Hx. specialize (Hlt x Hx). specialize (Hf x Hx). lia.
Qed.

Lemma zip_snd_prefix {A B} (l : list A) (k : list B) : exists n, (zip l k).*2 = take n k.
Proof.
  exists (length l). revert k. induction l as [|x l IH]; intros [|y k]; try done. simpl. by rewrite <- IH.
Qed.

Lemma sorted_take {A} (R : A -> A -> Prop) n l : StronglySorted R l -> StronglySorted R (take n l).
Proof.
  intros H. revert n. induction H as [|x l Hs IH Hx]; intros [|n]; simpl; try constructor; [done|]. by apply Forall_take.
Qed.

Lemma wstr_match_range text m encoded :
  let '(a, b) := get_wstr_match text m encoded in a <= b <= String.length encoded.
Proof.
  unfold get_wstr_match. destruct (zip_snd_prefix (char_offsets 0 (chars text)) (wchar_indices encoded).*1) as [n Hn].
  apply find_offsets_range; rewrite ?Hn; [by apply sorted_take, wchar_sorted| |lia].
  apply Forall_take. eapply Forall_impl; [apply wchar_bound|]. simpl. lia.
Qed.

Lemma segment_keeps rule decoded ms encoded :
  exists encoded', redact_segment hash_value rule decoded ms encoded = Ret encoded' /\
    String.length encoded' = String.length encoded /\ (ms = [] -> encoded' = encoded).
Proof.
  revert encoded. induction ms as [|m ms IH]; intros encoded; [by exists encoded|]. cbn [redact_segment].
  pose proof (wstr_match_range decoded m encoded) as Hr. destruct (get_wstr_match decoded m encoded) as [a b].
  destruct (patch_spec encoded a b (apply_redaction hash_value Utf16.fill_content Utf16.swap_content (RuleRef.redaction rule)) Hr)
    as (e1 & -> & Hl); [rewrite utf16_redaction_length, length_substring; lia|]. cbn [mbind outcome_bind].
  destruct (IH e1) as (e' & -> & Hl' & _). exists e'. split; [done|]. split; [lia|done].
Qed.

Lemma next_segment_range data offset : offset < String.length data ->
  let '(len, next) := next_segment data offset in
  offset + len <= String.length data /\ offset < next <= String.length data.
Proof.
  intros H. unfold next_segment. pose proof (length_from offset data ltac:(lia)) as Hl.
  destruct (from_utf16le (str_from offset data)) as [[v e]|] eqn:E; [|lia].
  pose proof (utf16_error _ _ _ E) as He. destruct e; lia.
Qed.

Lemma segments_keep fuel rule regex rb offset data changed :
  String.length data - offset < fuel ->
  keeps data changed (scrub_segments hash_value fuel rule regex rb offset data changed).
Proof.
  revert offset data changed. induction fuel as [|fuel IH]; intros offset data changed Hf; [lia|]. cbn [scrub_segments].
  case_bool_decide as Ho; [apply keeps_refl|]. pose proof (next_segment_range data offset ltac:(lia)) as Hn.
  destruct (next_segment data offset) as [len next]. destruct Hn as [Hlen Hnext].
  case_bool_decide; [apply IH; lia|]. set (encoded := substring offset len data). set (ms := re_matches _ _ _).
  destruct (segment_keeps rule (to_utf8 encoded) ms encoded) as (encoded' & -> & Hl & Hm). cbn [mbind outcome_bind].
  assert (String.length encoded = len) as Hle by (apply length_substring; lia).
  destruct (patch_spec data offset (offset + len) (fun _ => encoded')) as (data1 & Hp & Hl1); [lia|lia|].
  rewrite Hp. cbn [mbind outcome_bind]. apply (keeps_then data data1 changed (changed || negb (bool_decide (length ms = 0)))); [done|..].
  - intros [-> Hb]%orb_false_iff. split; [done|]. apply negb_false_iff, bool_decide_eq_true, nil_length_inv in Hb.
    pose proof (patch_same data offset (offset + len) ltac:(lia)) as Hs. replace (offset + len - offset) with len in Hs by lia.
    rewrite (Hm Hb) in Hp. unfold encoded in Hp. congruence.
  - apply IH. lia.
Qed.

Lemma utf16_keeps data rule regex rb : keeps data false (apply_regex_to_utf16le_bytes hash_value data rule regex rb).
Proof. apply segments_keep. lia. Qed.

Lemma ranges_keep rule regex rb ranges data changed :
  Forall (fun r => r.2 <= String.length data) ranges ->
  keeps data changed (scrub_ranges hash_value rule regex rb ranges data changed).
Proof.
  revert data changed. induction ranges as [|[start end_] ranges IH]; intros data changed Hr; cbn [scrub_ranges]; [apply keeps_refl|].
  apply Forall_cons in Hr as [Hr Hrs]. cbn [snd] in Hr. case_bool_decide as Hlt; [|by apply IH].
  destruct (utf16_keeps (substring start (end_ - start) data) rule regex rb) as (part & c & -> & Hl & Hc). cbn [mbind outcome_bind].
  rewrite length_substring in Hl by lia.
  destruct (patch_spec data start end_ (fun _ => part)) as (data1 & Hp & Hl1); [lia|done|]. rewrite Hp. cbn [mbind outcome_bind].
  apply (keeps_then data data1 changed (changed || c)); [done|..].
  - intros [-> ->]%orb_false_iff. split; [done|]. destruct (Hc eq_refl) as [_ ->]. rewrite patch_same in Hp by lia. congruence.
  - apply IH. by rewrite Hl1.
Qed.

Lemma unscrubbed_range len previous matches : Forall (fun r => r.1 <= len) matches ->
  Forall (fun r => r.2 <= len) (unscrubbed_ranges previous matches).
Proof. intros H. revert previous. induction H as [|[a b] l Ha _ IH]; intros previous; simpl; constructor; auto. Qed.

Lemma regex_keeps encodings rule regex rb data : keeps data false (scrub_regex hash_value encodings rule regex rb data).
Proof.
  destruct encodings; [|apply utf16_keeps|]; cbn [scrub_regex];
    destruct (utf8_keeps data rule regex rb) as (data1 & ms & E & Hl & Hm); rewrite E; cbn [mbind outcome_bind].
  - eexists _, _. split; [done|]. split; [done|]. intros H%negb_false_iff%bool_decide_eq_true%nil_length_inv. auto.
  - apply (keeps_then data data1 false (negb (bool_decide (length ms = 0)))); [done|..].
    { intros H%negb_false_iff%bool_decide_eq_true%nil_length_inv. auto. }
    apply ranges_keep, unscrubbed_range, Forall_app. split; [|repeat constructor].
    unfold apply_regex_to_utf8_bytes in E. destruct (bytes_captures regex data) as [captures|] eqn:Ec; [|simplify_eq; constructor].
    destruct (patch_all _ _ _) in E; [|done]. cbn [mbind outcome_bind] in E. simplify_eq.
    apply Forall_concat, Forall_fmap. eapply Forall_impl; [exact (bytes_ranges _ _ _ Ec)|]. intros m Hg.
    eapply Forall_impl; [by apply byte_groups_range|]. intros [a b] Hab. simpl in *. lia.
Qed.

Lemma all_keeps encodings patterns data changed : keeps data changed (scrub_all hash_value encodings patterns data changed).
Proof.
  revert data changed. induction patterns as [|[rule [ [pt regex] rb] ] patterns IH]; intros data changed; cbn [scrub_all]; [apply keeps_refl|].
  destruct (regex_keeps encodings rule regex rb data) as (data1 & c & -> & Hl & Hc). cbn [mbind outcome_bind].
  apply (keeps_then data data1 changed (changed || c)); [done| |apply IH].
  intros [-> ->]%orb_false_iff. split; [done|]. by apply Hc.
Qed.

Lemma bytes_keep compiled data state encodings :
  keeps data false (scrub_bytes hash_value to_lowercase compiled data state encodings).
Proof. unfold scrub_bytes. case_bool_decide; [apply keeps_refl|apply all_keeps]. Qed.

Lemma prefix_keeps compiled state encodings path index :
  match index with Some i => i <= String.length path | None => True end ->
  keeps path false (scrub_prefix hash_value to_lowercase compiled state encodings path index).
Proof.
  intros Hi. unfold scrub_prefix. destruct index as [i|]; [|apply keeps_refl].
  destruct (bytes_keep compiled (substring 0 i path) state encodings) as (data & c & -> & Hl & Hc). cbn [mbind outcome_bind].
  rewrite length_substring in Hl by lia.
  destruct (patch_spec path 0 i (fun _ => data)) as (path1 & Hp & Hl1); [lia|lia|]. rewrite Hp. cbn [mbind outcome_bind].
  eexists _, _. split; [done|]. split; [done|]. intros ->. destruct (Hc eq_refl) as [_ ->]. split; [done|].
  pose proof (patch_same path 0 i ltac:(lia)) as Hs. rewrite Nat.sub_0_r in Hs. congruence.
Qed.

(** C27: Scrubbing an attachment always returns, whatever its bytes, the rules and the
    encodings: it keeps the length of the data, and it reports no change only when no byte
    changed.  The scan for UTF-16 text advances in every round, so fuel above the length of
    the data is enough. *)
Theorem attachment_length_kept compiled data state encodings :
  exists data' changed, scrub_bytes hash_value to_lowercase compiled data state encodings = Ret (data', changed) /\
    String.length data' = String.length data /\ (changed = false -> data' = data).
Proof.
  destruct (bytes_keep compiled data state encodings) as (data' & c & H & Hl & Hc).
  exists data', c. split; [done|]. split; [done|]. intros H0. by apply Hc.
Qed.

End Lengths.

(** ** Overwritten bytes *)

Section Overwritten.
Context {BR : BytesRegex} {BL : BytesRegexLaws} (hash_value : string -> string).

Lemma get_left s t i : i < String.length s -> String.get i (s +:+ t) = String.get i s.
Proof. revert i. induction s as [|a s IH]; intros [|i] H; simpl in *; [lia..|done|]. apply IH. lia. Qed.

Lemma get_right s t i : String.length s <= i -> String.get i (s +:+ t) = String.get (i - String.length s) t.
Proof. revert i. induction s as [|a s IH]; intros [|i] H; simpl in *; [done..|lia|]. apply IH. lia. Qed.

Lemma get_substring s n m i : String.get i (substring n m s) = if bool_decide (i < m) then String.get (i + n) s else None.
Proof. case_bool_decide; [by apply substring_correct1|apply substring_correct2; lia]. Qed.

Lemma get_repeat n i : String.get i (repeat_str "*" n) = if bool_decide (i < n) then Some "*"%char else None.
Proof.
  revert i. induction n as [|n IH]; intros [|i]; simpl; [done..|]. rewrite IH. repeat case_bool_decide; (done || lia).
Qed.

Lemma get_beyond s i : String.length s <= i -> String.get i s = None.
Proof. revert i. induction s as [|a s IH]; intros [|i] H; simpl in *; [done..|lia|]. apply IH. lia. Qed.

(** Patching a range with as many bytes changes nothing outside of it. *)
Lemma patch_get data start end_ f data' i : start <= end_ <= String.length data ->
  String.length (f (substring start (end_ - start) data)) = end_ - start ->
  patch data start end_ f = Ret data' ->
  String.get i data' =
  if bool_decide (start <= i < end_) then String.get (i - start) (f (substring start (end_ - start) data)) else String.get i data.
Proof.
  intros H H2. unfold patch. rewrite !bool_decide_true by lia. intros [= <-].
  assert (String.length (substring 0 start data) = start) as H1 by (apply length_substring; lia).
  destruct (decide (i < start)) as [Hi|Hi].
  { rewrite get_left, get_substring, Nat.add_0_r, bool_decide_true, bool_decide_false by lia. done. }
  rewrite get_right, H1 by lia. destruct (decide (i < end_)) as [Hj|Hj].
  { rewrite get_left by lia. by rewrite !bool_decide_true by lia. }
  rewrite get_right, H2 by lia. unfold str_from. rewrite get_substring, (bool_decide_false (_ <= _ < _)) by lia.
  case_bool_decide; [by replace (i - _ - _ + _) with i by lia|]. symmetry. apply get_beyond. lia.
Qed.

Lemma patch_fill_get data start end_ data' i : start <= end_ <= String.length data ->
  patch data start end_ Utf8.fill_content = Ret data' ->
  String.get i data' = if bool_decide (start <= i < end_) then Some "*"%char else String.get i data.
Proof.
  intros H Hp. assert (String.length (substring start (end_ - start) data) = end_ - start) as Hl by (apply length_substring; lia).
  rewrite (patch_get _ _ _ _ _ i H) with (2 := Hp); unfold Utf8.fill_content; [|rewrite length_repeat, Hl; simpl; lia].
  case_bool_decide; [|done]. rewrite Hl, get_repeat. by rewrite bool_decide_true by lia.
Qed.

(** Some range covers a position. *)
Definition covered (ranges : list (nat * nat)) (i : nat) : bool :=
  existsb (fun r => bool_decide (r.1 <= i < r.2)) ranges.

Lemma patch_all_fill data ranges data' i : Forall (fun r => r.1 <= r.2 <= String.length data) ranges ->
  patch_all data ranges Utf8.fill_content = Ret data' ->
  String.get i data' = if covered ranges i then Some "*"%char else String.get i data.
Proof.
  revert data. induction ranges as [|[start end_] ranges IH]; intros data Hr; cbn [patch_all]; [by intros [= <-]|].
  apply Forall_cons in Hr as [Hr Hrs]. cbn [fst snd] in Hr.
  destruct (patch_spec data start end_ Utf8.fill_content Hr) as (data1 & Hp & Hl).
  { unfold Utf8.fill_content. rewrite length_repeat, length_substring by lia. simpl. lia. }
  rewrite Hp. cbn [mbind outcome_bind]. intros H. rewrite (IH data1); [|by rewrite Hl|done].
  rewrite (patch_fill_get _ _ _ _ i Hr Hp). unfold covered. cbn [existsb fst snd].
  by destruct (existsb _ ranges), (bool_decide (start <= i < end_)).
Qed.

Lemma byte_groups_elem groups len idx m a b :
  (a, b) ∈ byte_groups (ReplaceBehavior.Groups groups) len idx m <->
  a <> b /\ exists k, m !! k = Some (Some (a, b)) /\ (Z.of_nat (idx + k) mod 256)%Z ∈ groups.
Proof.
  revert idx. induction m as [|g m IH]; intros idx.
  { split; [by intros ?%not_elem_of_nil|]. intros (_ & k & Hk & _). done. }
  assert ((exists k, (g :: m) !! k = Some (Some (a, b)) /\ (Z.of_nat (idx + k) mod 256)%Z ∈ groups) <->
          (g = Some (a, b) /\ (Z.of_nat idx mod 256)%Z ∈ groups) \/
          exists k, m !! k = Some (Some (a, b)) /\ (Z.of_nat (S idx + k) mod 256)%Z ∈ groups) as ->.
  { split.
    - intros ([|k] & Hk & Hg); [left|right]; simpl in Hk; [by rewrite Nat.add_0_r in Hg; simplify_eq|].
      exists k. by replace (S idx + k) with (idx + S k) by lia.
    - intros [ [-> Hg]|(k & Hk & Hg)]; [exists 0; by rewrite Nat.add_0_r|exists (S k); by replace (idx + S k) with (S idx + k) by lia]. }
  destruct g as [ [c d]|]; cbn [byte_groups].
  2: { rewrite IH. split; [intros [? ?]; split; [done|by right]|intros [? [ [? _]|?] ]; [done|by split]]. }
  case_bool_decide as Hcd.
  { rewrite IH. split; [intros [? ?]; split; [done|by right]|]. intros [? [ [? _]|?] ]; [by simplify_eq|by split]. }
  rewrite elem_of_app, IH. case_bool_decide as Hg.
  - rewrite list_elem_of_singleton. split.
    + intros [ [= -> ->] | [? ?] ]; [split; [done|by left]|split; [done|by right]].
    + intros [? [ [ [= -> ->] _]|?] ]; [by left|by right].
  - split; [intros [ []%not_elem_of_nil | [? ?] ]; split; [done|by right]|]. intros [? [ [_ ?]|?] ]; [done|by right].
Qed.

(** Scrubbing the UTF-8 text of an attachment with a rule that removes or masks: the
    bytes of the selected groups of all matches become asterisks and no other byte changes. *)
Theorem bytes_overwritten data rule regex groups captures :
  should_redact rule = false \/ RuleRef.redaction rule = Redaction.Mask ->
  bytes_captures regex data = Some captures ->
  exists data' matches,
    apply_regex_to_utf8_bytes hash_value data rule regex (ReplaceBehavior.Groups groups) = Ret (data', matches) /\
    (forall a b, (a, b) ∈ matches <-> a <> b /\ exists m idx, m ∈ captures /\ m !! idx = Some (Some (a, b)) /\ (Z.of_nat idx mod 256)%Z ∈ groups) /\
    forall i, String.get i data' = if covered matches i then Some "*"%char else String.get i data.
Proof.
  intros Hred E. unfold apply_regex_to_utf8_bytes. rewrite E.
  assert (apply_redaction hash_value Utf8.fill_content Utf8.swap_content (RuleRef.redaction rule) = Utf8.fill_content) as ->.
  { unfold should_redact in Hred. destruct (RuleRef.redaction rule); naive_solver. }
  set (matches := concat _).
  assert (Forall (fun r => r.1 <= r.2 <= String.length data) matches) as Hr.
  { apply Forall_concat, Forall_fmap. eapply Forall_impl; [exact (bytes_ranges _ _ _ E)|]. intros m Hm. by apply byte_groups_range. }
  destruct (patch_all_spec data matches Utf8.fill_content) as (data' & Hp & _); [|done|].
  { intros s. unfold Utf8.fill_content. rewrite length_repeat. simpl. lia. }
  rewrite Hp. cbn [mbind outcome_bind]. exists data', matches. split; [done|]. split; [|intros i; by apply patch_all_fill].
  intros a b. unfold matches. rewrite list_elem_of_In, in_concat. setoid_rewrite <- list_elem_of_In. split.
  - intros (l & (m & -> & Hm)%list_elem_of_fmap & Hl). apply byte_groups_elem in Hl as (Hab & k & Hk & Hg). split; [done|]. by exists m, k.
  - intros (Hab & m & k & Hm & Hk & Hg). exists (byte_groups (ReplaceBehavior.Groups groups) (String.length data) 0 m).
    split; [apply list_elem_of_fmap; by exists m|]. apply byte_groups_elem. split; [done|]. by exists k.
Qed.

End Overwritten.

(** ** Minidumps *)

Module ScrubMinidumpError.
Inductive ScrubMinidumpError := InvalidMinidump | InvalidAddress | OutOfRange | Decoding.
End ScrubMinidumpError.
Notation ScrubMinidumpError := ScrubMinidumpError.ScrubMinidumpError.

Definition Range : Type := nat * nat.

Module MinidumpItem.
Inductive MinidumpItem :=
| StackMemory (range : Range)
| NonStackMemory (range : Range)
| LinuxEnviron (range : Range)
| LinuxCmdLine (range : Range)
| CodeModuleName (range : Range)
| DebugModuleName (range : Range).
End MinidumpItem.
Notation MinidumpItem := MinidumpItem.MinidumpItem.

Module CvSignature.
Inductive CvSignature := Pdb70 | Pdb20 | Other.
End CvSignature.

(** [MINIDUMP_LOCATION_DESCRIPTOR]: 32-bit fields. *)
Record Location := MkLocation { rva : nat; data_size : nat }.

(** A raw stream: its offset and length in the data, or why there is none. *)
Module RawStream.
Inductive RawStream := Found (offset len : nat) | StreamNotFound | Failed.
End RawStream.

(** What the minidump crate reads from the data; [None] for a stream it cannot read. *)
Record Minidump := MkMinidump {
  little_endian : bool;
  thread_stacks : option (list Location);
  memory_list : option (list Location);
  linux_environ : RawStream.RawStream;
  linux_cmd_line : RawStream.RawStream;
  (** the address of the name and the record of the debug file *)
  module_list : option (list (nat * Location));
}.

Class MinidumpCrate := {
  read_minidump : string -> option Minidump;
  cv_signature : Z -> option CvSignature.CvSignature;
}.

(** Fallible steps that may also panic. *)
Definition Fallible (A : Type) : Type := outcome (result ScrubMinidumpError A).
Definition fbind {A B} (m : Fallible A) (f : A -> Fallible B) : Fallible B :=
  match m with Ret (Ok a) => f a | Ret (Err e) => Ret (Err e) | Panic => Panic end.
Notation "x <- m ;; k" := (fbind m (fun x => k)) (at level 60, m at next level, right associativity).
Definition fret {A} (a : A) : Fallible A := Ret (Ok a).
Definition ferr {A} (e : ScrubMinidumpError) : Fallible A := Ret (Err e).

Definition location_range (location : Location) : Range := (rva location, rva location + data_size location).

(** [offset] of a slice: none for one that starts with the data. *)
Definition slice_range (offset len : nat) : option Range :=
  if bool_decide (0 < offset) then Some (offset, offset + len) else None.

Definition raw_stream_range (stream : RawStream.RawStream) : Fallible (option Range) :=
  match stream with
  | RawStream.Found offset len =>
      match slice_range offset len with Some r => fret (Some r) | None => ferr ScrubMinidumpError.InvalidAddress end
  | RawStream.StreamNotFound => fret None
  | RawStream.Failed => ferr ScrubMinidumpError.InvalidMinidump
  end.

(** [&data[offset..]] panics beyond the end, [u32_from_bytes] needs four bytes. *)
Definition u32_at (data : string) (offset : nat) (little : bool) : Fallible Z :=
  if bool_decide (String.length data < offset) then Panic else
  match str_from offset data with
  | String a (String b (String c (String d _))) =>
      let byte (x : ascii) := Z.of_nat (nat_of_ascii x) in
      fret (if little then byte a + 256 * byte b + 65536 * byte c + 16777216 * byte d
            else byte d + 256 * byte c + 65536 * byte b + 16777216 * byte a)%Z
  | _ => ferr ScrubMinidumpError.InvalidAddress
  end.

Definition get_stream {A} (stream : option A) : Fallible A :=
  match stream with Some a => fret a | None => ferr ScrubMinidumpError.InvalidMinidump end.

Section Items.
Context {MC : MinidumpCrate}.

(** The debug file of a module: behind the header of its record. *)
Definition debug_items (data : string) (little : bool) (cv_record : Location) : Fallible (list MinidumpItem) :=
  let cv_start := rva cv_record in
  let cv_end := cv_start + data_size cv_record in
  signature <- u32_at data cv_start little;;
  fret match cv_signature signature with
       | Some CvSignature.Pdb70 => [MinidumpItem.DebugModuleName (cv_start + (4 + (4 + 2 + 2 + 8) + 4), cv_end)]
       | Some CvSignature.Pdb20 => [MinidumpItem.DebugModuleName (cv_start + (4 + 4 + 4 + 4), cv_end)]
       | _ => []
       end.

Fixpoint module_items (data : string) (little : bool) (rvas : list nat) (modules : list (nat * Location))
  : Fallible (list MinidumpItem) :=
  match modules with
  | [] => fret []
  | (name_rva, cv_record) :: modules =>
      if bool_decide (name_rva ∈ rvas) then module_items data little rvas modules else
      len <- u32_at data name_rva little;;
      debug <- debug_items data little cv_record;;
      items <- module_items data little (rvas ++ [name_rva]) modules;;
      let start := name_rva + 4 in
      fret (MinidumpItem.CodeModuleName (start, start + Z.to_nat len) :: debug ++ items)
  end.

Definition memory_item (stack_rvas : list nat) (mem : Location) : MinidumpItem :=
  if bool_decide (rva mem ∈ stack_rvas) then MinidumpItem.StackMemory (location_range mem)
  else MinidumpItem.NonStackMemory (location_range mem).

Definition minidump_items (data : string) (minidump : Minidump) : Fallible (list MinidumpItem) :=
  threads <- get_stream (thread_stacks minidump);;
  mem_list <- get_stream (memory_list minidump);;
  environ <- raw_stream_range (linux_environ minidump);;
  cmd_line <- raw_stream_range (linux_cmd_line minidump);;
  mod_list <- get_stream (module_list minidump);;
  modules <- module_items data (little_endian minidump) [] mod_list;;
  fret ((memory_item (rva <$> threads) <$> mem_list) ++
        match environ with Some r => [MinidumpItem.LinuxEnviron r] | None => [] end ++
        match cmd_line with Some r => [MinidumpItem.LinuxCmdLine r] | None => [] end ++ modules).

End Items.

(** ** Scrubbing a minidump *)

Section Dump.
Context {RE : RegexEngine} {BR : BytesRegex} {US : Utf16String} {MC : MinidumpCrate}.
Context (hash_value : string -> string) (to_lowercase : string -> string) (compiled_config : CompiledPiiConfig).

Definition file_state (filename : string) : ProcessingState := attachment_state filename ValueType.Minidump.

Definition item_state (filename key : string) (pii : Pii) (tys : list ValueType) : ProcessingState :=
  ProcessingState.enter_static (file_state filename) key (Some (FieldAttrs.with_pii FieldAttrs.new pii)) tys.

(** The state of an item, how it is scrubbed and the range of its bytes. *)
Definition item_range (item : MinidumpItem) : Range :=
  match item with
  | MinidumpItem.StackMemory r | MinidumpItem.NonStackMemory r | MinidumpItem.LinuxEnviron r
  | MinidumpItem.LinuxCmdLine r | MinidumpItem.CodeModuleName r | MinidumpItem.DebugModuleName r => r
  end.

Definition stack_state (filename : string) : ProcessingState :=
  item_state filename "stack_memory" Pii.Maybe [ValueType.Binary; ValueType.StackMemory].

Definition scrub_item (filename : string) (item : MinidumpItem) (slice : string) : Fallible (string * bool) :=
  let scrub state := r ← scrub_bytes hash_value to_lowercase compiled_config slice state ScrubEncodings.All; Ret (Ok r) in
  match item with
  | MinidumpItem.StackMemory _ => scrub (stack_state filename)
  | MinidumpItem.NonStackMemory _ =>
      scrub (item_state filename "heap_memory" Pii.True [ValueType.Binary; ValueType.HeapMemory])
  | MinidumpItem.LinuxEnviron _ | MinidumpItem.LinuxCmdLine _ =>
      scrub (item_state filename "" Pii.True [ValueType.Binary])
  | MinidumpItem.CodeModuleName _ =>
      let state := item_state filename "code_file" Pii.True [ValueType.String_] in
      match from_utf16le slice with
      | Some _ => ferr ScrubMinidumpError.Decoding
      | None => r ← scrub_utf16_filepath hash_value to_lowercase compiled_config slice state; Ret (Ok r)
      end
  | MinidumpItem.DebugModuleName _ =>
      let state := item_state filename "debug_file" Pii.True [ValueType.String_] in
      if valid_utf8 slice then r ← scrub_utf8_filepath hash_value to_lowercase compiled_config slice state; Ret (Ok r)
      else ferr ScrubMinidumpError.Decoding
  end.

(** The data as the loop leaves it, also when an item fails, and the answer. *)
Fixpoint scrub_items (filename : string) (items : list MinidumpItem) (data : string) (changed : bool)
  : outcome (string * result ScrubMinidumpError bool) :=
  match items with
  | [] => Ret (data, Ok changed)
  | item :: items =>
      let '(start, end_) := item_range item in
      if bool_decide (start <= end_) && bool_decide (end_ <= String.length data) then
        r ← scrub_item filename item (substring start (end_ - start) data);
        match r with
        | Err e => Ret (data, Err e)
        | Ok (slice, c) =>
            data ← patch data start end_ (fun _ => slice);
            scrub_items filename items data (changed || c)
        end
      else Ret (data, Err ScrubMinidumpError.InvalidAddress)
  end.

Definition scrub_minidump (filename data : string) : outcome (string * result ScrubMinidumpError bool) :=
  match read_minidump data with
  | None => Ret (data, Err ScrubMinidumpError.InvalidMinidump)
  | Some minidump =>
      items ← minidump_items data minidump;
      match items with
      | Err e => Ret (data, Err e)
      | Ok items => scrub_items filename items data false
      end
  end.

End Dump.

(** ** Minidumps keep their layout *)

(** Selectors that address no memory of a stack: a path with a wildcard for any depth, a
    generic type or a specific type behind its first item. *)
Definition generic_item (p : nat * SelectorPathItem) : bool :=
  match p.2 with
  | SelectorPathItem.DeepWildcard => true
  | SelectorPathItem.Type_ ty => negb (specific_type ty && bool_decide (p.1 = 0))
  | _ => false
  end.
Fixpoint generic (selector : SelectorSpec) : bool :=
  match selector with
  | Path path => existsb generic_item (imap pair path)
  | And xs => existsb generic xs
  | Or xs => forallb generic xs
  | Not _ => false
  end.

Section Generic.
Context (to_lowercase : string -> string).

Lemma generic_item_mismatch p st : generic_item p = true -> matches_state to_lowercase p.2 Pii.Maybe p.1 st = false.
Proof.
  destruct p as [i it]. unfold generic_item. destruct it; try done. cbn [fst snd matches_state].
  intros H%negb_true_iff. by rewrite H, andb_false_r.
Qed.

Lemma match_tail_generic states items : length items <= length states -> existsb generic_item items = true ->
  match_tail to_lowercase Pii.Maybe states items = None.
Proof.
  revert items. induction states as [|st states IH]; intros [|[i it] items] Hl He; simpl in Hl; try done; [lia|].
  cbn [match_tail]. destruct (generic_item (i, it)) eqn:Hg; [by rewrite (generic_item_mismatch (i, it))|].
  destruct (matches_state to_lowercase it Pii.Maybe i st) eqn:Hm; [|done].
  case_bool_decide as Hd; [subst it; done|]. apply IH; [lia|]. cbn [existsb] in He. by rewrite Hg in He.
Qed.

Lemma existsb_reverse {A} (p : A -> bool) l : existsb p (reverse l) = existsb p l.
Proof.
  apply eq_iff_eq_true. rewrite !existsb_exists. setoid_rewrite <- list_elem_of_In. by setoid_rewrite elem_of_reverse.
Qed.

Lemma generic_mismatch st sel : wf_state st -> FieldAttrs.pii (ProcessingState.attrs st) = Pii.Maybe ->
  generic sel = true -> matches_selector to_lowercase st sel = false.
Proof.
  intros Hwf Hpii. induction sel as [xs IH|xs IH|x IH|path] using SelectorSpec_ind'; cbn [matches_selector generic];
    rewrite Hpii; (rewrite bool_decide_false by done).
  - intros (x & Hx & Hg)%existsb_exists. apply not_true_iff_false. intros Hall. rewrite forallb_forall in Hall.
    rewrite Forall_forall in IH. specialize (IH x (proj2 (list_elem_of_In _ _) Hx) Hg). by rewrite (Hall x Hx) in IH.
  - intros Hg. apply not_true_iff_false. intros (x & Hx & Hm)%existsb_exists. rewrite forallb_forall in Hg.
    rewrite Forall_forall in IH. specialize (IH x (proj2 (list_elem_of_In _ _) Hx) (Hg x Hx)). congruence.
  - done.
  - intros Hg. unfold matches_path. case_bool_decide as Hd; [done|]. rewrite match_tail_generic; [done| |by rewrite existsb_reverse].
    pose proof (positions_length st Hwf) as Hl. unfold positions in Hl. rewrite length_reverse in Hl.
    rewrite length_reverse, length_imap. lia.
Qed.

End Generic.

Section Layout.
Context {RE : RegexEngine} {BR : BytesRegex} {US : Utf16String} {MC : MinidumpCrate} {BL : BytesRegexLaws} {UL : Utf16Laws}.
Context (hash_value : string -> string) (to_lowercase : string -> string) (compiled : CompiledPiiConfig).

Definition is_stack (item : MinidumpItem) : bool :=
  match item with MinidumpItem.StackMemory _ => true | _ => false end.

Lemma no_rules_at st : Forall (fun app => matches_selector to_lowercase st app.1 = false) compiled ->
  rules_at to_lowercase compiled st = [].
Proof.
  intros H. unfold rules_at. assert (List.filter (fun app => matches_selector to_lowercase st app.1) compiled = []) as ->; [|done].
  by apply filter_none_nil.
Qed.

Lemma split_off_concat s directory basename : split_off_basename s = Some (directory, basename) -> s = directory +:+ basename.
Proof.
  revert directory. induction s as [|c s IH]; intros directory; simpl; [done|].
  destruct (split_off_basename s) as [[d b]|]; [intros [= <- <-]; simpl; by rewrite <- (IH d)|].
  destruct (is_separator c); [|done]. by intros [= <- <-].
Qed.

(** An item keeps the length of its slice, or fails. *)
Lemma item_keeps filename item slice :
  exists r, scrub_item hash_value to_lowercase compiled filename item slice = Ret r /\
    match r with Ok (slice', c) => String.length slice' = String.length slice | Err _ => True end.
Proof.
  assert (forall o, keeps slice false o -> exists r : result ScrubMinidumpError (string * bool), (r ← o; Ret (Ok r)) = Ret r /\
    match r with Ok (slice', c) => String.length slice' = String.length slice | Err _ => True end) as Hk.
  { intros o (d & c & -> & Hl & _). by eexists. }
  destruct item; cbn [scrub_item].
  1-4: apply Hk, bytes_keep.
  - destruct (from_utf16le slice); [by eexists|]. apply Hk, prefix_keeps.
    destruct (last _) as [[i c]|] eqn:E; [|done]. apply last_Some_elem_of, list_elem_of_filter in E as [_ Hin].
    pose proof (wchar_bound slice) as Hb. rewrite Forall_forall in Hb. apply Nat.lt_le_incl, Hb. apply list_elem_of_fmap. by exists (i, c).
  - destruct (valid_utf8 slice); [|by eexists]. apply Hk, prefix_keeps.
    destruct (split_off_basename slice) as [[d b]|] eqn:E; [|done]. apply split_off_concat in E as ->. simpl. rewrite length_app_str. lia.
Qed.

(** A stack is not touched when all selectors are generic. *)
Lemma stack_kept filename range slice : Forall (fun app => generic app.1 = true) compiled ->
  scrub_item hash_value to_lowercase compiled filename (MinidumpItem.StackMemory range) slice = Ret (Ok (slice, false)).
Proof.
  intros Hg. cbn [scrub_item]. unfold scrub_bytes. rewrite bool_decide_false by done.
  rewrite no_rules_at; [done|]. eapply Forall_impl; [exact Hg|]. intros app Happ. apply generic_mismatch; [|done|done].
  repeat constructor.
Qed.

Lemma items_keep filename items data changed :
  exists data' r, scrub_items hash_value to_lowercase compiled filename items data changed = Ret (data', r) /\
    String.length data' = String.length data /\
    (Forall (fun app => generic app.1 = true) compiled ->
     forall i, (forall item, item ∈ items -> is_stack item = false -> ~ (item_range item).1 <= i < (item_range item).2) ->
       String.get i data' = String.get i data).
Proof.
  revert data changed. induction items as [|item items IH]; intros data changed; cbn [scrub_items]; [by eexists _, _|].
  destruct (item_range item) as [start end_] eqn:Er. destruct (_ && _) eqn:Eb; [|by eexists _, _].
  apply andb_true_iff in Eb as [H1%bool_decide_eq_true H2%bool_decide_eq_true].
  set (slice := substring start (end_ - start) data). assert (String.length slice = end_ - start) as Hsl by (apply length_substring; lia).
  destruct (item_keeps filename item slice) as (r & Hr & Hl). rewrite Hr. cbn [mbind outcome_bind].
  destruct r as [[slice' c]|e]; [|by eexists _, _].
  destruct (patch_spec data start end_ (fun _ => slice')) as (data1 & Hp & Hl1); [lia|lia|]. rewrite Hp. cbn [mbind outcome_bind].
  destruct (IH data1 (changed || c)) as (data' & r & Hs & Hl' & Hst). exists data', r. split; [done|]. split; [lia|].
  intros Hg i Hi. rewrite Hst by (done || set_solver). destruct (is_stack item) eqn:Es.
  - destruct item; try done. rewrite stack_kept in Hr by done. simplify_eq. unfold slice in Hp. rewrite patch_same in Hp by lia. congruence.
  - rewrite (patch_get data start end_ (fun _ => slice') data1 i) by (done || lia). rewrite bool_decide_false; [done|].
    specialize (Hi item ltac:(set_solver) Es). by rewrite Er in Hi.
Qed.

(** Scrubbing a minidump whose streams can be read returns and keeps its length,
    whether it succeeds or fails.  With generic selectors only, such as [**] or [$binary], the
    bytes of stack memory stay: only bytes in the range of another item may change. *)
Theorem minidump_stack_kept filename data minidump items :
  read_minidump data = Some minidump -> minidump_items data minidump = Ret (Ok items) ->
  exists data' r, scrub_minidump hash_value to_lowercase compiled filename data = Ret (data', r) /\
    String.length data' = String.length data /\
    (Forall (fun app => generic app.1 = true) compiled ->
     forall i, (forall item, item ∈ items -> is_stack item = false -> ~ (item_range item).1 <= i < (item_range item).2) ->
       String.get i data' = String.get i data).
Proof.
  intros Hm Hi. unfold scrub_minidump. rewrite Hm, Hi. cbn [mbind outcome_bind]. apply items_keep.
Qed.

End Layout.

(** A debug record beyond the end of the data makes the list of items panic. *)
Lemma debug_record_out_of_range_panics {MC : MinidumpCrate} data little cv_record :
  String.length data < rva cv_record -> debug_items data little cv_record = Panic.
Proof. intros H. unfold debug_items, u32_at. by rewrite bool_decide_true. Qed.

(** ** UTF-16 as it is *)

Definition unit_of (a b : ascii) : Z := (Z.of_nat (nat_of_ascii a) + 256 * Z.of_nat (nat_of_ascii b))%Z.
Definition is_lead (u : Z) : bool := bool_decide (55296 <= u < 56320)%Z.
Definition is_trail (u : Z) : bool := bool_decide (56320 <= u < 57344)%Z.

Fixpoint wchars_from (pos : nat) (s : string) : list (nat * Z) :=
  match s with
  | String a (String b rest) =>
      if is_lead (unit_of a b) then
        match rest with
        | String c (String d rest) =>
            (pos, 65536 + 1024 * (unit_of a b - 55296) + (unit_of c d - 56320))%Z :: wchars_from (pos + 4) rest
        | _ => [(pos, unit_of a b)]
        end
      else (pos, unit_of a b) :: wchars_from (pos + 2) rest
  | _ => []
  end.

Fixpoint check_units (pos : nat) (s : string) : option (nat * option nat) :=
  match s with
  | "" => None
  | String a (String b rest) =>
      if is_lead (unit_of a b) then
        match rest with
        | String c (String d rest) =>
            if is_trail (unit_of c d) then check_units (pos + 4) rest else Some (pos, Some 2)
        | _ => Some (pos, None)
        end
      else if is_trail (unit_of a b) then Some (pos, Some 2) else check_units (pos + 2) rest
  | _ => Some (pos, None)
  end.

(** A code point in UTF-8. *)
Definition encode_utf8 (c : Z) : string :=
  let byte (n : Z) := ascii_of_nat (Z.to_nat n) in
  let tail (shift : Z) := byte (128 + Z.land (Z.shiftr c shift) 63)%Z in
  if bool_decide (c < 128)%Z then String (byte c) ""
  else if bool_decide (c < 2048)%Z then String (byte (192 + Z.shiftr c 6)%Z) (String (tail 0%Z) "")
  else if bool_decide (c < 65536)%Z then String (byte (224 + Z.shiftr c 12)%Z) (String (tail 6%Z) (String (tail 0%Z) ""))
  else String (byte (240 + Z.shiftr c 18)%Z) (String (tail 12%Z) (String (tail 6%Z) (String (tail 0%Z) ""))).

Definition utf16_le : Utf16String := {|
  from_utf16le := check_units 0;
  wchar_indices := wchars_from 0;
  to_utf8 s := foldr String.append "" (encode_utf8 ∘ snd <$> wchars_from 0 s);
|}.

Lemma wchars_spec n s pos : String.length s <= n ->
  StronglySorted lt (wchars_from pos s).*1 /\ Forall (fun i => pos <= i < pos + String.length s) (wchars_from pos s).*1.
Proof.
  revert s pos. induction n as [|n IH]; intros [|a [|b rest]] pos Hn; simpl in Hn; try lia; try (by repeat constructor).
  cbn [wchars_from]. assert (forall k t, 0 < k -> String.length t + k <= S (S (String.length rest)) ->
    forall u, StronglySorted lt ((pos, u) :: wchars_from (pos + k) t).*1 /\
    Forall (fun i => pos <= i < pos + S (S (String.length rest))) ((pos, u) :: wchars_from (pos + k) t).*1) as Hcons.
  { intros k t Hk Ht u. destruct (IH t (pos + k)) as [Hs Hf]; [lia|]. rewrite fmap_cons. cbn [fst]. split; constructor; try done; try lia.
    - eapply Forall_impl; [exact Hf|]. simpl. lia.
    - eapply Forall_impl; [exact Hf|]. simpl. lia. }
  destruct (is_lead _); [|apply Hcons; simpl; lia].
  destruct rest as [|c [|d rest]]; [|..|apply Hcons; simpl in *; lia]; simpl; (split; [by repeat constructor|]; constructor; [lia|constructor]).
Qed.

Lemma check_units_spec n s pos v e : String.length s <= n -> check_units pos s = Some (v, e) ->
  pos <= v /\ match e with Some l => 0 < l /\ v + l <= pos + String.length s | None => v <= pos + String.length s end.
Proof.
  revert s pos. induction n as [|n IH]; intros [|a [|b rest]] pos Hn; simpl in Hn; try lia; try done;
    [intros [= <- <-]; simpl; lia|]. cbn [check_units].
  destruct (is_lead _).
  - destruct rest as [|c [|d rest]]; try (intros [= <- <-]; simpl; lia).
    destruct (is_trail _); [|intros [= <- <-]; simpl; lia].
    intros H. simpl in Hn. apply IH in H as [H1 H2]; [|lia]. simpl. destruct e; lia.
  - destruct (is_trail _); [intros [= <- <-]; simpl; lia|].
    intros H. apply IH in H as [H1 H2]; [|lia]. simpl. destruct e; lia.
Qed.

Lemma utf16_le_lawful : Utf16Laws (US := utf16_le).
Proof.
  split.
  - intros s v e H. apply (check_units_spec (String.length s) s 0) in H; [|reflexivity]. simpl in H. destruct e; lia.
  - intros s. apply (wchars_spec (String.length s) s 0). reflexivity.
  - intros s. eapply Forall_impl; [apply (wchars_spec (String.length s) s 0); reflexivity|]. simpl. lia.
Qed.

(** ** Examples *)

Definition utf16 (s : string) : string := foldr String.append "" (to_le_bytes <$> encode_utf16 s).

(** U+1F4A9, a character of two code units. *)
Definition astral : string := string_of_list_ascii (ascii_of_nat <$> [240; 159; 146; 169]).

(** A replacement that ends in such a character and fits exactly: the trailing surrogate is
    taken for a leading one and left out, and the text is no longer valid UTF-16. *)
Lemma swap_content_splits_surrogates :
  Utf16.swap_content (utf16 "ab") astral = to_le_bytes 55357 +:+ to_le_bytes 42 /\
  utf16 astral = to_le_bytes 55357 +:+ to_le_bytes 56489 /\
  check_units 0 (utf16 "ab") = None /\ check_units 0 (Utf16.swap_content (utf16 "ab") astral) = Some (0, Some 2).
Proof. vm_compute. by split_and!. Qed.

Definition scripted (text_matches : list Captures) : RegexEngine :=
  {| captures_iter _ _ := text_matches; is_match _ _ := false |}.
Definition removing : RuleRef := RuleRef.MkRuleRef "r" "r" RuleType.Anything Redaction.Remove.

(** Offsets are looked up in what the last redaction left: behind a redacted character of
    two code units they are one unit too low, and the last character of the next match stays. *)
Lemma later_match_shifted :
  apply_regex_to_utf16le_bytes (RE := scripted [[Some (0, 4)]; [Some (5, 7)]]) (US := utf16_le) id
    (utf16 (astral +:+ " ab!!")) removing ANYTHING_REGEX ReplaceBehavior.replace_match =
  Ret (utf16 "****b!!", true).
Proof. vm_compute. reflexivity. Qed.

(** The offset behind the last character is not looked up at all: an empty match there
    redacts the whole segment. *)
Lemma empty_match_redacts_all :
  apply_regex_to_utf16le_bytes (RE := scripted [[Some (6, 6)]]) (US := utf16_le) id
    (utf16 "secure") removing ANYTHING_REGEX ReplaceBehavior.replace_match = Ret (utf16 "******", true).
Proof. vm_compute. reflexivity. Qed.

(** An engine that matches all of the data. *)
Definition whole_bytes : BytesRegex := fun _ s => Some [[Some (0, String.length s)]].
Lemma whole_bytes_lawful : BytesRegexLaws (BR := whole_bytes).
Proof. intros regex s captures [= <-]. repeat constructor; simpl; lia. Qed.

Lemma attachment_length_kept_witness :
  exists data' changed,
    scrub_bytes (RE := whole_engine) (BR := whole_bytes) (US := utf16_le) id to_ascii_lowercase
      [(SelectorSpec_from ValueType.Binary, [removing])] "secret" (attachment_state "a.txt" ValueType.Binary) ScrubEncodings.All
      = Ret (data', changed) /\ String.length data' = 6.
Proof.
  destruct (attachment_length_kept (RE := whole_engine) (BR := whole_bytes) (US := utf16_le) (BL := whole_bytes_lawful)
    (UL := utf16_le_lawful) id to_ascii_lowercase [(SelectorSpec_from ValueType.Binary, [removing])] "secret"
    (attachment_state "a.txt" ValueType.Binary) ScrubEncodings.All) as (data' & changed & H & Hl & _).
  exists data', changed. split; [exact H|exact Hl].
Defined.

Definition two_matches : BytesRegex := fun _ s =>
  if bool_decide (String.length s = 6) then Some [[Some (2, 4); Some (3, 4)]; [Some (5, 6); None]] else None.
Lemma two_matches_lawful : BytesRegexLaws (BR := two_matches).
Proof.
  intros regex s captures H. unfold bytes_captures, two_matches in H. case_bool_decide as Hl; [|done]. injection H as <-.
  repeat constructor; simpl; lia.
Qed.

Lemma bytes_overwritten_witness :
  exists data' matches,
    apply_regex_to_utf8_bytes (BR := two_matches) id "ab12c3" removing ANYTHING_REGEX (ReplaceBehavior.Groups [0%Z]) = Ret (data', matches) /\
    forall i, String.get i data' = if covered matches i then Some "*"%char else String.get i "ab12c3".
Proof.
  destruct (bytes_overwritten (BR := two_matches) (BL := two_matches_lawful) id "ab12c3" removing ANYTHING_REGEX [0%Z]
    [[Some (2, 4); Some (3, 4)]; [Some (5, 6); None]]) as (data' & matches & H & _ & Hi); [by left|reflexivity|].
  exists data', matches. split; [exact H|exact Hi].
Defined.

(** A dump with one stack, behind it a heap. *)
Definition sample_crate : MinidumpCrate := {|
  read_minidump _ := Some (MkMinidump true (Some [MkLocation 4 4]) (Some [MkLocation 4 4; MkLocation 8 4])
    RawStream.StreamNotFound RawStream.StreamNotFound (Some []));
  cv_signature _ := None;
|}.
Definition everything : CompiledPiiConfig :=
  [(Path [SelectorPathItem.Type_ ValueType.Minidump; SelectorPathItem.DeepWildcard], [removing])].

Lemma minidump_stack_kept_witness :
  exists data' r,
    scrub_minidump (RE := whole_engine) (BR := whole_bytes) (US := utf16_le) (MC := sample_crate) id to_ascii_lowercase everything
      "dump.dmp" "MDMPstckheap" = Ret (data', r) /\ String.length data' = 12 /\ String.get 5 data' = Some "t"%char.
Proof.
  destruct (minidump_stack_kept (RE := whole_engine) (BR := whole_bytes) (US := utf16_le) (MC := sample_crate)
    (BL := whole_bytes_lawful) (UL := utf16_le_lawful) id to_ascii_lowercase everything "dump.dmp" "MDMPstckheap" _
    [MinidumpItem.StackMemory (4, 8); MinidumpItem.NonStackMemory (8, 12)] eq_refl eq_refl) as (data' & r & H & Hl & Hs).
  exists data', r. split; [exact H|]. split; [exact Hl|]. rewrite Hs; [reflexivity|by repeat constructor|].
  intros item [-> | [-> | []%not_elem_of_nil]%elem_of_cons]%elem_of_cons; [discriminate|]. intros _. simpl. lia.
Defined.
