(* ===== verification/FormData.v ===== *)
(** * relay-server: form data (utils/multipart.rs, utils/param_parser.rs)

    The wire format of form fields in an envelope item, the collection of a
    multipart request into items, and the merge of form fields into a JSON value:
    nested keys, chunks in any order and whole documents.  The HTTP stream is the
    list of fields it yields; JSON text is read by [SerdeJson]. *)

From Stdlib Require Import Ascii String.
From S2P Require Import Prelude Strings Floats Types Common Protocol Quota Filters Sampling Extractors Envelopes Sessions.

Open Scope string_scope.
Open Scope Z_scope.
Open Scope list_scope.

(** ** Pascal-style strings (multipart.rs) *)

(** [u32::to_le_bytes] and [u32::from_le_bytes]. *)
Definition byte_of (n : Z) : ascii := ascii_of_nat (Z.to_nat (n mod 256)).
Definition to_le_bytes (n : Z) : string :=
  String (byte_of n) (String (byte_of (n / 2 ^ 8)) (String (byte_of (n / 2 ^ 16))
    (String (byte_of (n / 2 ^ 24)) ""))).
Definition of_byte (a : ascii) : Z := Z.of_nat (nat_of_ascii a).
Definition from_le_bytes (s : string) : option Z :=
  match s with
  | String a (String b (String c (String d ""))) =>
      Some (of_byte a + 2 ^ 8 * of_byte b + 2 ^ 16 * of_byte c + 2 ^ 24 * of_byte d)
  | _ => None
  end.

(** Writing to a vector cannot fail. *)
Definition write_string (writer : string) (string : string) : String.string :=
  writer +:+ to_le_bytes (wrap 32 (Z.of_nat (String.length string))) +:+ string.

(** The slice, and what is left of the data. *)
Definition split_front (data : string) (len : Z) : option string * string :=
  if bool_decide (Z.of_nat (String.length data) < len) then (None, "")
  else (Some (substring 0 (Z.to_nat len) data), str_from (Z.to_nat len) data).

Definition consume_len (data : string) : option Z * string :=
  match split_front data 4 with
  | (Some slice, data) => (from_le_bytes slice, data)
  | (None, data) => (None, data)
  end.

Definition consume_string (data : string) : option string * string :=
  match consume_len data with
  | (Some len, data) =>
      match split_front data len with
      | (Some bytes, data) => (if valid_utf8 bytes then Some bytes else None, data)
      | (None, data) => (None, data)
      end
  | (None, data) => (None, data)
  end.

Module FormDataEntry.

Record FormDataEntry := MkFormDataEntry { key : string; value : string }.

Definition to_writer (self : FormDataEntry) (writer : string) : string :=
  write_string (write_string writer (key self)) (value self).

Definition read (data : string) : option FormDataEntry * string :=
  match consume_string data with
  | (Some key, data) =>
      match consume_string data with
      | (Some value, data) => (Some (MkFormDataEntry key value), data)
      | (None, data) => (None, data)
      end
  | (None, data) => (None, data)
  end.

End FormDataEntry.
Notation FormDataEntry := FormDataEntry.FormDataEntry.

Module FormDataWriter.

(** [struct FormDataWriter { data: Vec<u8> }]. *)
Definition new : string := "".

Definition append (self : string) (key value : string) : string :=
  FormDataEntry.to_writer (FormDataEntry.MkFormDataEntry key value) self.

Definition into_item (self : string) : Item := Item.set_payload (Item.new ItemType.FormData) ContentType.Text self.

End FormDataWriter.

Module FormDataIter.

(** [Iterator::next]: entries that cannot be read are skipped.  Reading consumes
    a byte at least, so the length of the data bounds the loop. *)
Fixpoint next_loop (fuel : nat) (data : string) : option FormDataEntry * string :=
  match fuel with
  | O => (None, data)
  | S fuel =>
      if bool_decide (data = "") then (None, data)
      else
        match FormDataEntry.read data with
        | (Some entry, data) => (Some entry, data)
        | (None, data) => next_loop fuel data
        end
  end.

Definition next (data : string) : option FormDataEntry * string := next_loop (S (String.length data)) data.

(** The entries a [for] loop sees. *)
Fixpoint collect_loop (fuel : nat) (data : string) : list FormDataEntry :=
  match fuel with
  | O => []
  | S fuel =>
      match next data with
      | (Some entry, data) => entry :: collect_loop fuel data
      | (None, _) => []
      end
  end.

Definition collect (data : string) : list FormDataEntry := collect_loop (S (String.length data)) data.

End FormDataIter.

(** ** Multipart requests (multipart.rs) *)

Inductive MultipartError := Overflow | InvalidMultipart.

(** A field of the stream with the chunks of its body, or a nested stream; a
    broken body or stream ends with an error. *)
Inductive MultipartItem : Type :=
| Field (content_type : string) (name file_name : option string) (body : list (result MultipartError string))
| Nested (items : list (result MultipartError MultipartItem)).

Module MultipartItems.

Record MultipartItems := MkMultipartItems {
  items : list Item;
  remaining_size : Z;
  form_data : string;
  infer_type : option string -> AttachmentType;
}.

Definition new (max_size : Z) : MultipartItems :=
  MkMultipartItems [] max_size FormDataWriter.new (fun _ => AttachmentType.default_).

Definition infer_attachment_type (self : MultipartItems) (f : option string -> AttachmentType) : MultipartItems :=
  MkMultipartItems (items self) (remaining_size self) (form_data self) f.

Fixpoint consume_chunks (body : list (result MultipartError string)) (max_size : Z) (data : string)
  : result MultipartError string :=
  match body with
  | [] => Ok data
  | Err e :: _ => Err e
  | Ok chunk :: body =>
      if bool_decide (max_size < Z.of_nat (String.length data) + Z.of_nat (String.length chunk)) then Err Overflow
      else consume_chunks body max_size (data +:+ chunk)
  end.

Definition consume_field (body : list (result MultipartError string)) (max_size : Z)
  : result MultipartError string := consume_chunks body max_size "".

Section Consume.

(** [String::from_utf8_lossy] *)
Context (from_utf8_lossy : string -> string).

Definition add_field (content : MultipartItems) (content_type : string) (field_name file_name : option string)
  (data : string) : MultipartItems :=
  let remaining_size := remaining_size content - Z.of_nat (String.length data) in
  match file_name, field_name with
  | Some file_name, _ =>
      let item := Item.set_attachment_type (Item.new ItemType.Attachment) (infer_type content field_name) in
      let item := Item.set_payload item (ContentType.from content_type) data in
      let item := Item.set_filename item file_name in
      MkMultipartItems (items content ++ [item]) remaining_size (form_data content) (infer_type content)
  | None, Some field_name =>
      MkMultipartItems (items content) remaining_size
        (FormDataWriter.append (form_data content) field_name (from_utf8_lossy data)) (infer_type content)
  | None, None => MkMultipartItems (items content) remaining_size (form_data content) (infer_type content)
  end.

Fixpoint consume_item (content : MultipartItems) (item : MultipartItem) {struct item}
  : result MultipartError MultipartItems :=
  match item with
  | Nested nested =>
      (fix consume_stream (content : MultipartItems) (stream : list (result MultipartError MultipartItem))
         : result MultipartError MultipartItems :=
         match stream with
         | [] => Ok content
         | Err e :: _ => Err e
         | Ok item :: stream => content ← consume_item content item; consume_stream content stream
         end) content nested
  | Field content_type name file_name body =>
      data ← consume_field body (remaining_size content);
      Ok (add_field content content_type name file_name data)
  end.

Definition consume_stream (content : MultipartItems) (stream : list (result MultipartError MultipartItem))
  : result MultipartError MultipartItems := consume_item content (Nested stream).

(** [handle_request], on the stream of the request or the error for its boundary. *)
Definition handle_request (self : MultipartItems)
  (stream : result MultipartError (list (result MultipartError MultipartItem)))
  : result MultipartError (list Item) :=
  stream ← stream;
  multipart ← consume_stream self stream;
  let form_data := FormDataWriter.into_item (form_data multipart) in
  Ok (if Item.is_empty form_data then items multipart else items multipart ++ [form_data]).

End Consume.

End MultipartItems.
Notation MultipartItems := MultipartItems.MultipartItems.

(** The slices between carriage returns and newlines. *)
Fixpoint split_lines (s : string) : list string :=
  match s with
  | "" => [""]
  | String a s =>
      if bool_decide (a = "013"%char) || bool_decide (a = "010"%char) then "" :: split_lines s
      else match split_lines s with [] => [String a ""] | l :: ls => String a l :: ls end
  end.

Definition get_multipart_boundary (data : string) : option string :=
  slice ← List.find (fun slice => negb (bool_decide (slice = ""))) (split_lines data);
  if bool_decide (2 < String.length slice)%nat && starts_with "--" slice then
    let rest := str_from 2 slice in if valid_utf8 rest then Some rest else None
  else None.

(** ** JSON values and form keys (param_parser.rs) *)

(** [serde_json::Value]; an object is a map, kept as a list with one entry per
    key whose order does not matter. *)
Module SerdeValue.

Inductive SerdeValue : Type :=
| Null
| Bool (b : bool)
| Number (n : f64)
| String_ (s : string)
| Array (items : list SerdeValue)
| Object (fields : list (string * SerdeValue)).

(** [Map::get]. *)
Fixpoint get (fields : list (string * SerdeValue)) (key : string) : option SerdeValue :=
  match fields with
  | [] => None
  | (k, v) :: fields => if bool_decide (k = key) then Some v else get fields key
  end.

(** [f] applied in place to [map.entry(key).or_insert(value)]. *)
Fixpoint or_insert_and (fields : list (string * SerdeValue)) (key : string) (value : SerdeValue)
  (f : SerdeValue -> SerdeValue) : list (string * SerdeValue) :=
  match fields with
  | [] => [(key, f value)]
  | (k, v) :: fields =>
      if bool_decide (k = key) then (k, f v) :: fields else (k, v) :: or_insert_and fields key value f
  end.

End SerdeValue.
Notation SerdeValue := SerdeValue.SerdeValue.

Fixpoint update_nested_value (target : SerdeValue) (path : list string) (value : string) : SerdeValue :=
  match target with
  | SerdeValue.Object map =>
      match path with
      | [] => target
      | key :: rest =>
          SerdeValue.Object
            (if bool_decide (rest = [])
             then SerdeValue.or_insert_and map key (SerdeValue.String_ value) id
             else SerdeValue.or_insert_and map key (SerdeValue.Object [])
                    (fun sub_object => update_nested_value sub_object rest value))
      end
  | _ => target
  end.

Fixpoint merge_values (a b : SerdeValue) {struct b} : SerdeValue :=
  match a, b with
  | SerdeValue.Object a, SerdeValue.Object b =>
      SerdeValue.Object
        ((fix merge_fields (a b : list (string * SerdeValue)) {struct b} : list (string * SerdeValue) :=
            match b with
            | [] => a
            | (k, v) :: b =>
                merge_fields (SerdeValue.or_insert_and a k SerdeValue.Null (fun a => merge_values a v)) b
            end) a b)
  | SerdeValue.Null, b => b
  | a, _ => a
  end.

Inductive IndexingState := LookingForLeftParenthesis | Accumulating (start_idx : nat) | Starting.

(** The loop over the bytes; slicing panics off character boundaries. *)
Fixpoint get_indexes_loop (full_string bytes : string) (idx : nat) (state : IndexingState)
  (ret_vals : list string) : outcome (result () (list string)) :=
  match bytes with
  | "" => Ret (Ok ret_vals)
  | String by_ bytes =>
      let next := get_indexes_loop full_string bytes (S idx) in
      match state with
      | Starting =>
          if bool_decide (by_ = "["%char) then next (Accumulating (idx + 1)) ret_vals
          else next Starting ret_vals
      | LookingForLeftParenthesis =>
          if bool_decide (by_ = "["%char) then next (Accumulating (idx + 1)) ret_vals
          else if bool_decide (by_ = "="%char) then Ret (Ok ret_vals)
          else Ret (Err ())
      | Accumulating start_idx =>
          if bool_decide (by_ = "]"%char) then
            slice ← unwrap (str_get full_string start_idx idx);
            next LookingForLeftParenthesis (ret_vals ++ [slice])
          else next (Accumulating start_idx) ret_vals
      end
  end.

Definition get_indexes (full_string : string) : outcome (result () (list string)) :=
  get_indexes_loop full_string full_string 0 Starting [].

Definition get_sentry_entry_indexes (param_name : string) : outcome (option (list string)) :=
  if starts_with "sentry[" param_name then res_ok <$> get_indexes param_name else Ret None.

(** [str::strip_prefix] and [str::parse::<usize>]. *)
Definition get_sentry_chunk_index (key prefix : string) : option Z :=
  if starts_with prefix key then parse_u64 (str_from (String.length prefix) key) else None.

Module ChunkedFormDataAggregator.

(** [struct ChunkedFormDataAggregator { parts: Vec<&str> }]. *)
Definition new : list string := [].

(** A vector of string slices holds at most [isize::MAX / 16] of them. *)
Definition max_parts : Z := (2 ^ 63 - 1) / 16.

(** [Vec::resize] with the empty string. *)
Definition resize (parts : list string) (new_len : Z) : outcome (list string) :=
  if bool_decide (new_len <= Z.of_nat (List.length parts)) then Ret (take (Z.to_nat new_len) parts)
  else if bool_decide (new_len <= max_parts)
  then Ret (parts ++ replicate (Z.to_nat new_len - List.length parts) "")
  else Panic.

(** Assigning out of bounds panics. *)
Definition insert (self : list string) (index : Z) (value : string) : outcome (list string) :=
  parts ← (if bool_decide (Z.of_nat (List.length self) <= index)
           then resize self (u64_add index 1) else Ret self);
  if bool_decide (index < Z.of_nat (List.length parts)) then Ret (<[Z.to_nat index := value]> parts) else Panic.

Definition is_empty (self : list string) : bool := bool_decide (self = []).

Definition join (self : list string) : string := join_with "" self.

End ChunkedFormDataAggregator.

(** ** Merging form data into an event (actors/envelopes.rs) *)

Section merge_formdata.
Context `{SerdeJson SerdeValue}.

(** One form entry: the target and the chunks after it. *)
Definition merge_entry (target : SerdeValue) (aggregator : list string) (entry : FormDataEntry)
  : outcome (SerdeValue * list string) :=
  let key := FormDataEntry.key entry in
  let value := FormDataEntry.value entry in
  if bool_decide (key = "sentry") || starts_with "sentry___" key then
    match from_slice value with
    | Ok event => Ret (merge_values target event, aggregator)
    | Err _ => Ret (target, aggregator)
    end
  else
    match get_sentry_chunk_index key "sentry__" with
    | Some index =>
        aggregator ← ChunkedFormDataAggregator.insert aggregator index value;
        Ret (target, aggregator)
    | None =>
        keys ← get_sentry_entry_indexes key;
        match keys with
        | Some keys => Ret (update_nested_value target keys value, aggregator)
        | None => Ret (update_nested_value target ["extra"; key] value, aggregator)
        end
    end.

Fixpoint merge_entries (target : SerdeValue) (aggregator : list string) (entries : list FormDataEntry)
  : outcome (SerdeValue * list string) :=
  match entries with
  | [] => Ret (target, aggregator)
  | entry :: entries =>
      '(target, aggregator) ← merge_entry target aggregator entry;
      merge_entries target aggregator entries
  end.

Definition merge_formdata (target : SerdeValue) (item : Item) : outcome SerdeValue :=
  '(target, aggregator) ← merge_entries target ChunkedFormDataAggregator.new
                             (FormDataIter.collect (Item.payload item));
  Ret (if ChunkedFormDataAggregator.is_empty aggregator then target
       else match from_slice (ChunkedFormDataAggregator.join aggregator) with
            | Ok event => merge_values target event
            | Err _ => target
            end).

End merge_formdata.

Example get_indexes_example :
  get_indexes "fafdasd[a][b][33]" = Ret (Ok ["a"; "b"; "33"]) /\ get_indexes "fafdasd[a]b[33]" = Ret (Err ())
  /\ get_indexes "sentry[abc][123][]=SomeVal" = Ret (Ok ["abc"; "123"; ""]).
Proof. done. Qed.

(** ** The wire format *)

Lemma of_byte_of n : of_byte (byte_of n) = n mod 256.
Proof.
  unfold of_byte, byte_of. pose proof (Z.mod_pos_bound n 256 ltac:(lia)).
  rewrite nat_ascii_embedding; lia.
Qed.

Lemma from_to_le_bytes n : in_u32 n -> from_le_bytes (to_le_bytes n) = Some n.
Proof.
  intros Hn. unfold to_le_bytes, from_le_bytes. rewrite !of_byte_of. f_equal.
  unfold in_width in Hn. change (2 ^ 32) with 4294967296 in Hn.
  change (2 ^ 8) with 256. change (2 ^ 16) with 65536. change (2 ^ 24) with 16777216.
  Z.to_euclidean_division_equations. lia.
Qed.

Lemma split_front_app a b n :
  n = Z.of_nat (String.length a) -> split_front (a +:+ b) n = (Some a, b).
Proof.
  intros ->. unfold split_front. rewrite bool_decide_false by (rewrite length_app_str; lia).
  rewrite Nat2Z.id. by rewrite substring_app_l, str_from_app.
Qed.

(** A string that can be written with its length and read back. *)
Definition writable (s : string) : Prop := in_u32 (Z.of_nat (String.length s)) /\ valid_utf8 s = true.

Lemma consume_string_written s rest :
  writable s ->
  consume_string (to_le_bytes (wrap 32 (Z.of_nat (String.length s))) +:+ s +:+ rest) = (Some s, rest).
Proof.
  intros [Hl Hu]. unfold consume_string, consume_len. rewrite (wrap_small _ _ Hl).
  rewrite (split_front_app (to_le_bytes _)) by done. rewrite (from_to_le_bytes _ Hl).
  rewrite (split_front_app s) by done. by rewrite Hu.
Qed.

Definition wire_entry (e : FormDataEntry) : string := FormDataEntry.to_writer e "".
Definition entry_writable (e : FormDataEntry) : Prop :=
  writable (FormDataEntry.key e) /\ writable (FormDataEntry.value e).

Lemma to_writer_app e w : FormDataEntry.to_writer e w = w +:+ wire_entry e.
Proof. unfold wire_entry, FormDataEntry.to_writer, write_string. by rewrite !str_app_assoc. Qed.

Lemma read_written e rest :
  entry_writable e -> FormDataEntry.read (wire_entry e +:+ rest) = (Some e, rest).
Proof.
  intros [Hk Hv]. unfold FormDataEntry.read, wire_entry, FormDataEntry.to_writer, write_string.
  change ("" +:+ ?x) with x. rewrite !str_app_assoc, consume_string_written, consume_string_written by done.
  by destruct e.
Qed.

Lemma wire_entry_nonempty e rest : wire_entry e +:+ rest <> "".
Proof. done. Qed.

Lemma next_read d e rest :
  d <> "" -> FormDataEntry.read d = (Some e, rest) -> FormDataIter.next d = (Some e, rest).
Proof. intros Hd Hr. unfold FormDataIter.next. simpl. by rewrite bool_decide_false, Hr by done. Qed.

Lemma next_written e rest :
  entry_writable e -> FormDataIter.next (wire_entry e +:+ rest) = (Some e, rest).
Proof. intros He. apply next_read; [apply wire_entry_nonempty|by apply read_written]. Qed.

Definition write_entries (entries : list FormDataEntry) : string :=
  fold_left (fun w e => FormDataWriter.append w (FormDataEntry.key e) (FormDataEntry.value e)) entries
    FormDataWriter.new.

Lemma write_entries_from entries w :
  fold_left (fun w e => FormDataWriter.append w (FormDataEntry.key e) (FormDataEntry.value e)) entries w
  = w +:+ foldr (fun e s => wire_entry e +:+ s) "" entries.
Proof.
  revert w. induction entries as [|e l IH]; intros w; simpl; [by rewrite str_app_nil_r|].
  rewrite IH. unfold FormDataWriter.append. rewrite to_writer_app, str_app_assoc. by destruct e.
Qed.

Lemma collect_written entries fuel :
  Forall entry_writable entries -> (List.length entries < fuel)%nat ->
  FormDataIter.collect_loop fuel (foldr (fun e s => wire_entry e +:+ s) "" entries) = entries.
Proof.
  intros He. revert fuel. induction He as [|e l He Hl IH]; intros fuel Hf; (destruct fuel; [lia|]); [done|].
  cbn [FormDataIter.collect_loop foldr]. rewrite next_written by done. f_equal. apply IH. simpl in Hf. lia.
Qed.

Lemma wire_length entries :
  (List.length entries <= String.length (foldr (fun e s => wire_entry e +:+ s) "" entries))%nat.
Proof.
  induction entries as [|e l IH]; [simpl; lia|]. cbn [foldr List.length]. rewrite length_app_str.
  pose proof (wire_entry_nonempty e "") as Hne. rewrite str_app_nil_r in Hne.
  destruct (wire_entry e); [done|]. cbn [String.length]. lia.
Qed.

(** Form fields written to an envelope item are read back in order, whatever
    their text, as long as it is UTF-8 and shorter than 4 GiB. *)
Theorem form_data_roundtrip entries :
  Forall entry_writable entries -> FormDataIter.collect (write_entries entries) = entries.
Proof.
  intros He. unfold FormDataIter.collect, write_entries. rewrite write_entries_from.
  change (FormDataWriter.new +:+ ?x) with x. apply collect_written; [done|].
  pose proof (wire_length entries). lia.
Qed.

Lemma form_data_roundtrip_witness :
  FormDataIter.collect (write_entries [FormDataEntry.MkFormDataEntry "foo" "bar"; FormDataEntry.MkFormDataEntry "" ""])
  = [FormDataEntry.MkFormDataEntry "foo" "bar"; FormDataEntry.MkFormDataEntry "" ""].
Proof. apply form_data_roundtrip. repeat constructor; try lia. Defined.

(** ** Reading arbitrary data *)

Lemma length_str_from n s : String.length (str_from n s) = (String.length s - n)%nat.
Proof.
  unfold str_from. destruct (decide (n <= String.length s)%nat).
  - rewrite length_substring; lia.
  - replace (String.length s - n)%nat with 0%nat by lia. by rewrite substring_0.
Qed.

Lemma split_front_shrinks data n o rest :
  split_front data n = (o, rest) -> (String.length rest <= String.length data)%nat.
Proof.
  unfold split_front. case_bool_decide; intros [= <- <-]; [simpl; lia|]. rewrite length_str_from. lia.
Qed.

Lemma consume_len_shrinks data o rest :
  consume_len data = (o, rest) -> data <> "" -> (String.length rest < String.length data)%nat.
Proof.
  unfold consume_len, split_front. intros H Hne. assert (0 < String.length data)%nat by (destruct data; simpl; [done|lia]).
  case_bool_decide; simplify_eq; [simpl; lia|]. rewrite length_str_from. lia.
Qed.

Lemma consume_string_shrinks data o rest :
  consume_string data = (o, rest) -> data <> "" -> (String.length rest < String.length data)%nat.
Proof.
  unfold consume_string. destruct (consume_len data) as [[n|] d] eqn:E; intros H Hne;
    apply consume_len_shrinks in E; try done; [|by simplify_eq].
  destruct (split_front d n) as [[s|] d'] eqn:E2; apply split_front_shrinks in E2; simplify_eq; lia.
Qed.

Lemma consume_string_le data o rest :
  consume_string data = (o, rest) -> (String.length rest <= String.length data)%nat.
Proof.
  destruct (decide (data = "")) as [->|Hne]; [by intros [= <- <-]|].
  intros H%consume_string_shrinks; [lia|done].
Qed.

Lemma read_shrinks data o rest :
  FormDataEntry.read data = (o, rest) -> data <> "" -> (String.length rest < String.length data)%nat.
Proof.
  unfold FormDataEntry.read. destruct (consume_string data) as [[k|] d] eqn:E; intros H Hne;
    apply consume_string_shrinks in E; try done; [|by simplify_eq].
  destruct (consume_string d) as [[v|] d'] eqn:E2; apply consume_string_le in E2; simplify_eq; lia.
Qed.

Lemma next_loop_shrinks fuel data e rest :
  FormDataIter.next_loop fuel data = (Some e, rest) -> (String.length rest < String.length data)%nat.
Proof.
  revert data. induction fuel as [|fuel IH]; intros data; simpl; [done|].
  case_bool_decide as Hd; [done|].
  destruct (FormDataEntry.read data) as [[e'|] d] eqn:E; apply read_shrinks in E; try done.
  - by intros [= <- <-].
  - intros H%IH. lia.
Qed.

(** The fuel does not decide what the iterator sees. *)
Lemma next_loop_fuel fuel fuel' data :
  (String.length data < fuel)%nat -> (String.length data < fuel')%nat ->
  FormDataIter.next_loop fuel data = FormDataIter.next_loop fuel' data.
Proof.
  revert fuel' data. induction fuel as [|fuel IH]; intros [|fuel'] data Hf Hf'; try lia. simpl.
  case_bool_decide as Hd; [done|].
  destruct (FormDataEntry.read data) as [[e|] d] eqn:E; [done|]. apply read_shrinks in E; [|done].
  apply IH; lia.
Qed.

Lemma collect_loop_fuel fuel fuel' data :
  (String.length data < fuel)%nat -> (String.length data < fuel')%nat ->
  FormDataIter.collect_loop fuel data = FormDataIter.collect_loop fuel' data.
Proof.
  revert fuel' data. induction fuel as [|fuel IH]; intros [|fuel'] data Hf Hf'; try lia.
  cbn [FormDataIter.collect_loop].
  destruct (FormDataIter.next data) as [[e|] d] eqn:E; [|done]. apply next_loop_shrinks in E.
  f_equal. apply IH; lia.
Qed.

(** What the iterator leaves behind: after the last entry nothing is left, so no
    readable byte is skipped at the end of the data. *)
Lemma next_loop_exhausts fuel data rest :
  (String.length data < fuel)%nat -> FormDataIter.next_loop fuel data = (None, rest) -> rest = "".
Proof.
  revert data. induction fuel as [|fuel IH]; intros data Hf; simpl; [lia|].
  case_bool_decide as Hd; [congruence|].
  destruct (FormDataEntry.read data) as [[e|] d] eqn:E; [done|]. apply read_shrinks in E; [|done].
  apply IH. lia.
Qed.

(** ** Chunks in any order *)

Definition insert_chunks (chunks : list (Z * string)) (parts : list string) : outcome (list string) :=
  fold_left (fun parts c => parts ← parts; ChunkedFormDataAggregator.insert parts c.1 c.2) chunks (Ret parts).

(** A part that was not sent counts as empty. *)
Definition part_at (parts : list string) (i : nat) : string := default "" (parts !! i).

Lemma insert_spec parts i v :
  0 <= i < ChunkedFormDataAggregator.max_parts ->
  exists parts', ChunkedFormDataAggregator.insert parts i v = Ret parts' /\
    List.length parts' = Nat.max (List.length parts) (S (Z.to_nat i)) /\
    forall j, part_at parts' j = if bool_decide (j = Z.to_nat i) then v else part_at parts j.
Proof.
  intros Hi. unfold ChunkedFormDataAggregator.insert, part_at.
  assert (u64_add i 1 = i + 1) as Hadd.
  { apply u64_add_small. unfold in_width. change ChunkedFormDataAggregator.max_parts with 576460752303423487 in Hi.
    lia. }
  case_bool_decide as Hlen.
  - unfold ChunkedFormDataAggregator.resize. rewrite Hadd.
    rewrite bool_decide_false, bool_decide_true by lia. simpl.
    rewrite bool_decide_true by (rewrite length_app, length_replicate; lia).
    eexists. split; [done|]. rewrite length_insert, length_app, length_replicate. split; [lia|].
    intros j. case_bool_decide as Hj.
    + subst. rewrite list_lookup_insert_eq; [done|]. rewrite length_app, length_replicate. lia.
    + rewrite list_lookup_insert_ne by done. destruct (decide (j < List.length parts)%nat).
      * by rewrite lookup_app_l.
      * rewrite lookup_app_r, (lookup_ge_None_2 parts) by lia.
        destruct (replicate _ _ !! _) eqn:E; [|done]. by apply lookup_replicate in E as [-> _].
  - simpl. rewrite bool_decide_true by lia. eexists. split; [done|]. rewrite length_insert. split; [lia|].
    intros j. case_bool_decide as Hj.
    + subst. rewrite list_lookup_insert_eq; [done|lia].
    + by rewrite list_lookup_insert_ne.
Qed.

Lemma insert_chunks_cons c chunks parts :
  insert_chunks (c :: chunks) parts =
  parts ← ChunkedFormDataAggregator.insert parts c.1 c.2; insert_chunks chunks parts.
Proof.
  unfold insert_chunks. simpl. destruct (ChunkedFormDataAggregator.insert parts c.1 c.2); simpl; [done|].
  by induction chunks.
Qed.

Lemma insert_chunks_spec chunks parts :
  Forall (fun c => 0 <= c.1 < ChunkedFormDataAggregator.max_parts) chunks -> NoDup chunks.*1 ->
  exists parts', insert_chunks chunks parts = Ret parts' /\
    (forall c, c ∈ chunks -> part_at parts' (Z.to_nat c.1) = c.2 /\ (Z.to_nat c.1 < List.length parts')%nat) /\
    (forall j, Z.of_nat j ∉ chunks.*1 -> part_at parts' j = part_at parts j) /\
    (forall m, (List.length parts <= m)%nat -> Forall (fun c => (Z.to_nat c.1 < m)%nat) chunks ->
       (List.length parts' <= m)%nat) /\ (List.length parts <= List.length parts')%nat.
Proof.
  revert parts. induction chunks as [|[i v] chunks IH]; intros parts Hc Hnd.
  { exists parts. split; [done|]. split; [intros ? []%not_elem_of_nil|]. auto. }
  apply Forall_cons in Hc as [Hi Hc]. rewrite fmap_cons in Hnd. apply NoDup_cons in Hnd as [Hni Hnd].
  simpl in *. destruct (insert_spec parts i v Hi) as (p1 & Hp1 & Hl1 & Hg1).
  destruct (IH p1 Hc Hnd) as (p' & Hp' & Hin & Hout & Hle & Hge). exists p'.
  rewrite insert_chunks_cons. simpl. rewrite Hp1. simpl. split; [done|]. split_and!.
  - intros c [->|Hcin]%elem_of_cons; [|by apply Hin]. simpl. split; [|lia].
    rewrite Hout by (rewrite Z2Nat.id by lia; done). rewrite Hg1. by rewrite bool_decide_true.
  - intros j [Hji Hj]%not_elem_of_cons. rewrite Hout by done. rewrite Hg1. rewrite bool_decide_false; [done|lia].
  - intros m Hm [Him Hcm]%Forall_cons. simpl in Him. apply Hle; [lia|done].
  - lia.
Qed.

Lemma join_empty_sep l : join_with "" l = foldr String.append "" l.
Proof.
  induction l as [|x l IH]; simpl; [done|]. destruct l as [|y l]; [by rewrite str_app_nil_r|]. by rewrite IH.
Qed.

(** A payload split into chunks [sentry__1], [sentry__2], ... is put together
    again, in whichever order the chunks arrive. *)
Theorem chunks_join_in_any_order (pieces : list string) chunks :
  Z.of_nat (List.length pieces) < ChunkedFormDataAggregator.max_parts -> 
  chunks ≡ₚ imap (fun i v => (Z.of_nat (S i), v)) pieces ->
  exists parts, insert_chunks chunks ChunkedFormDataAggregator.new = Ret parts /\
    ChunkedFormDataAggregator.join parts = foldr String.append "" pieces.
Proof.
  intros Hlen Hperm.
  assert (forall i v, (i, v) ∈ chunks <-> exists j, i = Z.of_nat (S j) /\ pieces !! j = Some v) as Hin.
  { intros i v. rewrite Hperm, elem_of_lookup_imap. naive_solver. }
  assert (NoDup chunks.*1) as Hnd.
  { rewrite Hperm. rewrite fmap_imap. apply NoDup_alt. intros i j k. rewrite !list_lookup_imap.
    destruct (pieces !! i), (pieces !! j); simpl; intros [= <-] [=]. lia. }
  destruct (insert_chunks_spec chunks ChunkedFormDataAggregator.new) as (parts & Hp & Hget & Hout & Hle & _); [|done|].
  { apply Forall_forall. intros [i v] (j & -> & Hj%lookup_lt_Some)%Hin. simpl. lia. }
  exists parts. split; [done|]. unfold ChunkedFormDataAggregator.join. rewrite join_empty_sep.
  destruct pieces as [|piece pieces'] eqn:Epieces.
  { apply symmetry, Permutation_nil in Hperm. subst chunks. by injection Hp as <-. }
  rewrite <- Epieces in *. assert (parts = "" :: pieces) as ->; [|done].
  assert (List.length parts = S (List.length pieces)) as Hpl.
  { apply Nat.le_antisymm.
    - apply Hle; [simpl; lia|]. apply Forall_forall. intros [i v] (j & -> & Hj%lookup_lt_Some)%Hin. simpl. lia.
    - destruct (lookup_lt_is_Some_2 pieces (List.length pieces - 1)) as [v Hv]; [subst; simpl; lia|].
      destruct (Hget (Z.of_nat (S (List.length pieces - 1)), v)) as [_ Hlt]; [apply Hin; eauto|].
      simpl in Hlt. subst. simpl in *. lia. }
  apply list_eq. intros [|j].
  - assert (part_at parts 0 = "") as H0.
    { rewrite Hout; [done|]. intros ([i v] & ? & (j & -> & _)%Hin)%list_elem_of_fmap. simpl in *. lia. }
    unfold part_at in H0. destruct (parts !! 0%nat) eqn:E; [by simpl in H0; subst|].
    apply lookup_ge_None in E. lia.
  - simpl. destruct (pieces !! j) as [v|] eqn:Ev.
    + destruct (Hget (Z.of_nat (S j), v)) as [Hv Hlt]; [apply Hin; eauto|]. simpl fst in *. rewrite Nat2Z.id in *.
      unfold part_at in Hv. destruct (lookup_lt_is_Some_2 parts (S j) Hlt) as [w Hw]. rewrite Hw in Hv |- *.
      simpl in Hv. by subst.
    + apply lookup_ge_None in Ev. apply lookup_ge_None. lia.
Qed.

Lemma chunks_join_in_any_order_witness :
  exists parts, insert_chunks [(2, "cd"); (1, "ab"); (3, "ef")] ChunkedFormDataAggregator.new = Ret parts /\
    ChunkedFormDataAggregator.join parts = "abcdef".
Proof.
  apply (chunks_join_in_any_order ["ab"; "cd"; "ef"]); [done|]. simpl. apply perm_swap.
Defined.

(** ** Nested keys *)

Definition print_index (key : string) : string := String "[" (key +:+ "]").
Definition print_indexes (path : list string) : string := foldr (fun k s => print_index k +:+ s) "" path.

Lemma valid_utf8_starts s : valid_utf8 s = true -> starts_char s = true.
Proof.
  destruct s as [|a s]; simpl; [done|]. destruct (is_continuation a) eqn:Ha; [|done].
  assert (is_ascii a = false /\ byte_in 194 223 a = false /\ byte_in 224 239 a = false /\
          byte_in 240 244 a = false) as (-> & -> & -> & ->); [|done].
  unfold is_continuation, is_ascii, byte_in in *.
  apply andb_true_iff in Ha as [?%Nat.leb_le ?%Nat.leb_le].
  rewrite !andb_false_iff, !Nat.leb_gt. lia.
Qed.

Lemma indexes_accumulate full key rest idx start ret_vals :
  contains_char "]" key = false ->
  get_indexes_loop full (key +:+ String "]" rest) idx (Accumulating start) ret_vals =
  slice ← unwrap (str_get full start (idx + String.length key));
  get_indexes_loop full rest (S (idx + String.length key)) LookingForLeftParenthesis (ret_vals ++ [slice]).
Proof.
  revert idx. induction key as [|a key IH]; intros idx Hk; simpl.
  - by rewrite Nat.add_0_r.
  - rewrite contains_char_cons, orb_false_iff in Hk. destruct Hk as [Ha Hk].
    rewrite bool_decide_false by (intros ->; by rewrite bool_decide_true in Ha).
    rewrite IH by done. by rewrite Nat.add_succ_r, Nat.add_succ_l.
Qed.

Definition key_ok (key : string) : Prop := valid_utf8 key = true /\ contains_char "]" key = false.

Lemma indexes_path pre path ret_vals :
  Forall key_ok path ->
  get_indexes_loop (pre +:+ print_indexes path) (print_indexes path) (String.length pre)
    LookingForLeftParenthesis ret_vals = Ret (Ok (ret_vals ++ path)).
Proof.
  intros Hp. revert pre ret_vals. induction Hp as [|key path [Hu Hk] Hp IH]; intros pre ret_vals.
  { by rewrite app_nil_r. }
  change (print_indexes (key :: path)) with (String "[" ((key +:+ "]") +:+ print_indexes path)).
  rewrite str_app_assoc. simpl.
  change ("]" +:+ print_indexes path) with (String "]" (print_indexes path)).
  rewrite indexes_accumulate by done.
  replace (pre +:+ String "[" (key +:+ String "]" (print_indexes path)))
    with ((pre +:+ "[") +:+ key +:+ String "]" (print_indexes path)) by (by rewrite str_app_assoc).
  replace (S (String.length pre)) with (String.length (pre +:+ "[")) by (rewrite length_app_str; simpl; lia).
  replace (String.length pre + 1)%nat with (String.length (pre +:+ "[")) by (rewrite length_app_str; simpl; lia).
  rewrite str_get_middle; [|apply valid_utf8_starts in Hu; by destruct key|done]. simpl.
  specialize (IH ((pre +:+ "[") +:+ key +:+ "]") (ret_vals ++ [key])). rewrite <- app_assoc in IH.
  replace (String.length ((pre +:+ "[") +:+ key +:+ "]"))
    with (S (String.length (pre +:+ "[") + String.length key)) in IH by (rewrite !length_app_str; simpl; lia).
  rewrite (str_app_assoc (pre +:+ "[")), (str_app_assoc key) in IH. exact IH.
Qed.

(** The Breakpad key [sentry[a][b]] names the path [a], [b], for any keys of valid
    UTF-8 without a closing bracket. *)
Theorem nested_keys_roundtrip (key : string) (path : list string) :
  Forall key_ok (key :: path) ->
  get_sentry_entry_indexes ("sentry" +:+ print_indexes (key :: path)) = Ret (Some (key :: path)).
Proof.
  intros Hp. unfold get_sentry_entry_indexes.
  assert (starts_with "sentry[" ("sentry" +:+ print_indexes (key :: path)) = true) as -> by (simpl; by destruct (_ +:+ _)).
  unfold get_indexes. pose proof (indexes_path "sentry" (key :: path) [] Hp) as H. simpl in H |- *.
  by rewrite H.
Qed.

Lemma nested_keys_roundtrip_witness :
  get_sentry_entry_indexes "sentry[user][name]" = Ret (Some ["user"; "name"]).
Proof. apply (nested_keys_roundtrip "user" ["name"]). by repeat constructor. Defined.

(** The largest index that a chunk can be given makes the aggregator panic: the
    vector is resized to the wrapped length zero and then indexed. *)
Theorem chunk_index_overflow_panics (v : string) :
  get_sentry_chunk_index "sentry__18446744073709551615" "sentry__" = Some u64_max /\
  ChunkedFormDataAggregator.insert ChunkedFormDataAggregator.new u64_max v = Panic.
Proof. split; reflexivity. Qed.

(** ** Merging never overwrites *)

Section SerdeValue_induction.
Context (P : SerdeValue -> Prop).
Context (HNull : P SerdeValue.Null) (HBool : forall b, P (SerdeValue.Bool b)).
Context (HNumber : forall n, P (SerdeValue.Number n)) (HString : forall s, P (SerdeValue.String_ s)).
Context (HArray : forall l, Forall P l -> P (SerdeValue.Array l)).
Context (HObject : forall m, Forall (fun kv => P kv.2) m -> P (SerdeValue.Object m)).

(** Induction that reaches the elements of arrays and objects. *)
Fixpoint serde_value_ind (v : SerdeValue) : P v :=
  match v with
  | SerdeValue.Null => HNull
  | SerdeValue.Bool b => HBool b
  | SerdeValue.Number n => HNumber n
  | SerdeValue.String_ s => HString s
  | SerdeValue.Array l =>
      HArray l ((fix go l : Forall P l :=
        match l with [] => Forall_nil_2 _ | x :: l => Forall_cons_2 _ _ _ (serde_value_ind x) (go l) end) l)
  | SerdeValue.Object m =>
      HObject m ((fix go m : Forall (fun kv => P kv.2) m :=
        match m with [] => Forall_nil_2 _ | kv :: m => Forall_cons_2 _ _ _ (serde_value_ind kv.2) (go m) end) m)
  end.
End SerdeValue_induction.

(** The value at a path of object keys. *)
Fixpoint get_path (v : SerdeValue) (path : list string) : option SerdeValue :=
  match path with
  | [] => Some v
  | key :: path =>
      match v with
      | SerdeValue.Object m => x ← SerdeValue.get m key; get_path x path
      | _ => None
      end
  end.

(** A value that is neither missing nor a container of further keys. *)
Definition is_leaf (v : SerdeValue) : bool :=
  match v with SerdeValue.Null | SerdeValue.Object _ => false | _ => true end.

Definition leaves_kept (a b : SerdeValue) : Prop :=
  forall path x, get_path a path = Some x -> is_leaf x = true -> get_path b path = Some x.

#[global] Instance leaves_kept_preorder : PreOrder leaves_kept.
Proof. split; [by intros a path x|]. intros a b c Hab Hbc path x Hx Hl. auto. Qed.

Lemma leaves_kept_null b : leaves_kept SerdeValue.Null b.
Proof. intros [|k path] x; simpl; [by intros [= <-]|done]. Qed.

Lemma leaves_kept_object m m' :
  (forall k v, SerdeValue.get m k = Some v -> exists v', SerdeValue.get m' k = Some v' /\ leaves_kept v v') ->
  leaves_kept (SerdeValue.Object m) (SerdeValue.Object m').
Proof.
  intros Hm [|k path] x; simpl; [by intros [= <-]|].
  intros (v & Hv & Hx)%bind_Some Hl. destruct (Hm k v Hv) as (v' & Hv' & Hk). rewrite Hv'. simpl. auto.
Qed.

Lemma get_or_insert_and m k d f k' :
  SerdeValue.get (SerdeValue.or_insert_and m k d f) k' =
  if bool_decide (k = k') then Some (f (default d (SerdeValue.get m k))) else SerdeValue.get m k'.
Proof.
  induction m as [|[k0 v0] m IH]; simpl; [done|].
  repeat case_bool_decide; simplify_eq; simpl; repeat case_bool_decide; simplify_eq; try done.
Qed.

Lemma or_insert_and_kept m k d f :
  (forall v, SerdeValue.get m k = Some v -> leaves_kept v (f v)) ->
  leaves_kept (SerdeValue.Object m) (SerdeValue.Object (SerdeValue.or_insert_and m k d f)).
Proof.
  intros Hf. apply leaves_kept_object. intros k' v Hv. rewrite get_or_insert_and.
  case_bool_decide as Hk; [subst k'|exists v; by split; [|reflexivity]]. rewrite Hv. simpl. eauto.
Qed.

Lemma update_nested_value_kept path target v : leaves_kept target (update_nested_value target path v).
Proof.
  revert target. induction path as [|key path IH]; intros target; destruct target; try done.
  simpl. case_bool_decide; apply or_insert_and_kept; intros v' _; [reflexivity|apply IH].
Qed.

Definition merge_fields (a b : list (string * SerdeValue)) : list (string * SerdeValue) :=
  fold_left (fun a kv => SerdeValue.or_insert_and a kv.1 SerdeValue.Null (fun x => merge_values x kv.2)) b a.

Lemma merge_values_objects a b :
  merge_values (SerdeValue.Object a) (SerdeValue.Object b) = SerdeValue.Object (merge_fields a b).
Proof.
  simpl. f_equal. unfold merge_fields. revert a.
  induction b as [|[k v] b IH]; intros a; simpl; [done|]. apply IH.
Qed.

Lemma merge_values_kept b : forall a, leaves_kept a (merge_values a b).
Proof.
  induction b as [| | | |l|m Hm] using serde_value_ind; intros a; try (destruct a; (done || apply leaves_kept_null)).
  destruct a as [| | | | |fields]; try done; [apply leaves_kept_null|]. rewrite merge_values_objects.
  unfold merge_fields. revert fields. induction Hm as [|[k v] m Hv Hm IH]; intros fields; simpl; [done|].
  etransitivity; [|apply IH]. apply or_insert_and_kept. intros x _. apply Hv.
Qed.

(** The fields of a merged object: those of either side, merged where both have
    them; what the left side does not have or has as [null] comes from the right. *)
Theorem merge_values_fields a b key :
  NoDup b.*1 ->
  get_path (merge_values (SerdeValue.Object a) (SerdeValue.Object b)) [key] =
  match SerdeValue.get a key, SerdeValue.get b key with
  | Some x, Some y => Some (merge_values x y)
  | Some x, None => Some x
  | None, y => y
  end.
Proof.
  rewrite merge_values_objects. simpl. unfold merge_fields. revert a.
  induction b as [|[k v] b IH]; intros a Hnd; simpl.
  { by destruct (SerdeValue.get a key). }
  rewrite fmap_cons in Hnd. apply NoDup_cons in Hnd as [Hk Hnd]. rewrite IH by done. rewrite get_or_insert_and.
  bcase (k = key) as Hkey; [|done]. subst k.
  assert (SerdeValue.get b key = None) as ->.
  { clear -Hk. induction b as [|[k w] b IH]; simpl in *; [done|]. apply not_elem_of_cons in Hk as [Hne Hk].
    rewrite bool_decide_false by congruence. auto. }
  destruct (SerdeValue.get a key); simpl; [done|]. by destruct v.
Qed.

Lemma merge_values_fields_witness :
  get_path (merge_values (SerdeValue.Object [("k", SerdeValue.Null)])
              (SerdeValue.Object [("k", SerdeValue.Bool true); ("l", SerdeValue.Null)])) ["k"]
  = Some (SerdeValue.Bool true).
Proof.
  rewrite merge_values_fields; [reflexivity|]. apply NoDup_ListNoDup. repeat constructor; simpl; intuition congruence.
Defined.

Lemma merge_entry_kept `{SerdeJson SerdeValue} target aggregator entry target' aggregator' :
  merge_entry target aggregator entry = Ret (target', aggregator') -> leaves_kept target target'.
Proof.
  unfold merge_entry. destruct (_ || _).
  { destruct (from_slice _); intros [= <- <-]; [apply merge_values_kept|done]. }
  destruct (get_sentry_chunk_index _ _).
  { destruct (ChunkedFormDataAggregator.insert _ _ _); by intros [= <- <-]. }
  destruct (get_sentry_entry_indexes _) as [[keys|]|]; intros [= <- <-];
    [apply update_nested_value_kept|apply (update_nested_value_kept ["extra"; FormDataEntry.key entry])].
Qed.

(** Form fields only add to an event: every value that the event has already,
    except [null]s, is still there after the fields were merged into it. *)
Theorem form_data_keeps_values `{SerdeJson SerdeValue} target item target' path x :
  merge_formdata target item = Ret target' -> get_path target path = Some x -> is_leaf x = true ->
  get_path target' path = Some x.
Proof.
  intros Hm. cut (leaves_kept target target'); [intros Hk; apply Hk|].
  unfold merge_formdata in Hm. apply outcome_bind_Ret in Hm as ((t & agg) & He & [= <-]).
  transitivity t.
  - clear x path. revert target He. generalize ChunkedFormDataAggregator.new.
    induction (FormDataIter.collect _) as [|e es IH]; intros agg0 target He; simpl in He; [by simplify_eq|].
    apply outcome_bind_Ret in He as ((t1 & agg1) & H1 & H2). etransitivity; [by eapply merge_entry_kept|].
    by eapply IH.
  - destruct (ChunkedFormDataAggregator.is_empty agg); [done|].
    destruct (from_slice _); [apply merge_values_kept|done].
Qed.

(** A codec that reads one document and writes nothing. *)
Definition sample_json : SerdeJson SerdeValue := {|
  from_slice s :=
    if bool_decide (s = "{x:1}") then Ok (SerdeValue.Object [("x", SerdeValue.Number (f64_of_Z 1))])
    else Err (MkJsonError "expected value");
  to_json_string _ := Err (MkJsonError "unsupported");
|}.

Definition sample_form : Item :=
  FormDataWriter.into_item (write_entries
    [FormDataEntry.MkFormDataEntry "sentry" "{x:1}"; FormDataEntry.MkFormDataEntry "sentry[user][name]" "new"]).

Lemma form_data_keeps_values_witness :
  let event := SerdeValue.Object [("user", SerdeValue.Object [("name", SerdeValue.String_ "old")])] in
  exists event', @merge_formdata sample_json event sample_form = Ret event' /\
    get_path event' ["user"; "name"] = Some (SerdeValue.String_ "old") /\
    get_path event' ["x"] = Some (SerdeValue.Number (f64_of_Z 1)).
Proof.
  eexists. split; [vm_compute; reflexivity|]. split; [|reflexivity].
  apply (@form_data_keeps_values sample_json
    (SerdeValue.Object [("user", SerdeValue.Object [("name", SerdeValue.String_ "old")])]) sample_form);
    vm_compute; reflexivity.
Defined.

(** ** Multipart requests stay within the limit *)

Definition field_sizes (items : list Item) : Z := foldr (fun it n => Item.len it + n) 0 items.

Section Limit.
Context (from_utf8_lossy : string -> string).

Lemma consume_chunks_bound body max data data' :
  MultipartItems.consume_chunks body max data = Ok data' -> Z.of_nat (String.length data) <= max ->
  Z.of_nat (String.length data') <= max.
Proof.
  revert data. induction body as [|[chunk|e] body IH]; intros data; simpl; [by intros [= ->]| |done].
  case_bool_decide; [done|]. intros H' _. apply (IH _ H'). rewrite length_app_str. lia.
Qed.

Lemma field_sizes_app a b : field_sizes (a ++ b) = field_sizes a + field_sizes b.
Proof. unfold field_sizes. induction a as [|x a IH]; simpl; [done|]. rewrite IH. lia. Qed.

Lemma set_payload_len it ct s : Item.len (Item.set_payload it ct s) <= Z.of_nat (String.length s).
Proof.
  unfold Item.len, Item.set_payload. simpl.
  rewrite length_substring by (simpl; lia). lia.
Qed.

(** The bytes of the items and what may still be added never exceed the limit. *)
Definition within (max : Z) (m : MultipartItems) : Prop :=
  0 <= MultipartItems.remaining_size m /\
  field_sizes (MultipartItems.items m) + MultipartItems.remaining_size m <= max.

Lemma add_field_within max m ct name file data :
  within max m -> Z.of_nat (String.length data) <= MultipartItems.remaining_size m ->
  within max (MultipartItems.add_field from_utf8_lossy m ct name file data).
Proof.
  intros [H0 Hm] Hd. unfold MultipartItems.add_field, within.
  destruct file as [f|]; [|by destruct name; simpl; lia]. simpl. split; [lia|].
  rewrite field_sizes_app. cbn [field_sizes foldr].
  match goal with |- context [Item.set_filename (Item.set_payload ?i ?c ?d) ?f] =>
    pose proof (set_payload_len i c d);
    change (Item.len (Item.set_filename (Item.set_payload i c d) f)) with (Item.len (Item.set_payload i c d))
  end. lia.
Qed.

Fixpoint consume_item_within max item m m' {struct item} :
  within max m -> MultipartItems.consume_item from_utf8_lossy m item = Ok m' -> within max m'.
Proof.
  destruct item as [ct name file body|stream]; simpl; intros Hm Hc.
  - apply result_bind_Ok in Hc as (data & Hd & [= <-]). apply add_field_within; [done|].
    eapply consume_chunks_bound; [exact Hd|]. destruct Hm. simpl. lia.
  - revert m Hm Hc. induction stream as [|[item|e] stream IH]; intros m Hm; simpl; [by intros [= <-]| |done].
    intros (m1 & H1 & H2)%result_bind_Ok. eapply IH; [|exact H2]. by eapply consume_item_within.
Qed.
End Limit.

(** The files of a multipart request, nested streams included, together hold at
    most as many bytes as the limit allows; plain fields become one further item. *)
Theorem multipart_within_limit from_utf8_lossy infer max stream items :
  0 <= max ->
  MultipartItems.handle_request from_utf8_lossy
    (MultipartItems.infer_attachment_type (MultipartItems.new max) infer) stream = Ok items ->
  exists files form, items = files ++ form /\ field_sizes files <= max /\
    Forall (fun it => Item.ty (Item.headers it) = ItemType.FormData) form /\ (List.length form <= 1)%nat.
Proof.
  intros Hmax. unfold MultipartItems.handle_request. intros (s & -> & Hs)%result_bind_Ok.
  apply result_bind_Ok in Hs as (m & Hm & [= <-]).
  apply consume_item_within with (max := max) in Hm; [|by split; simpl; lia]. destruct Hm as [H0 Hm].
  destruct (Item.is_empty _).
  - exists (MultipartItems.items m), []. rewrite app_nil_r. split; [done|]. split; [lia|]. split; [constructor|simpl; lia].
  - eexists _, [_]. split; [done|]. split; [lia|]. split; [by repeat constructor|]. done.
Qed.

Lemma multipart_within_limit_witness :
  exists files form,
    [Item.set_filename (Item.set_payload (Item.set_attachment_type (Item.new ItemType.Attachment)
       AttachmentType.Minidump) ContentType.OctetStream "MDMP") "a.dmp"] = files ++ form /\
    field_sizes files <= 8 /\
    Forall (fun it => Item.ty (Item.headers it) = ItemType.FormData) form /\ (List.length form <= 1)%nat.
Proof.
  apply (multipart_within_limit id (fun _ => AttachmentType.Minidump) 8
    (Ok [Ok (Nested [Ok (Field "application/octet-stream" (Some "upload") (Some "a.dmp") [Ok "MD"; Ok "MP"])])]));
    [done|vm_compute; reflexivity].
Defined.
