(* ===== verification/MetricProtocol.v ===== *)
(** * relay-metrics: the metric submission protocol (protocol.rs)

    Lines of the form [name[@unit]:value|type|#tag:value,tag].  The hash of set
    values (crate hash32) is a parameter. *)

From Stdlib Require Import Ascii String SpecFloat.
From S2P Require Import Prelude Strings Floats Common.

Open Scope string_scope.
Open Scope Z_scope.
Open Scope list_scope.

(** ** Units, types and values *)

Inductive DurationPrecision := NanoSecond | MilliSecond | Second.

Inductive ParseMetricError := MkParseMetricError.

Module MetricUnit.

Inductive MetricUnit := Duration (precision : DurationPrecision) | None_.

#[global] Instance DurationPrecision_eq_dec : EqDecision DurationPrecision.
Proof. solve_decision. Defined.
#[global] Instance MetricUnit_eq_dec : EqDecision MetricUnit.
Proof. solve_decision. Defined.

Definition default_ : MetricUnit := None_.

Definition to_string (self : MetricUnit) : string :=
  match self with
  | Duration NanoSecond => "ns"
  | Duration MilliSecond => "ms"
  | Duration Second => "s"
  | None_ => ""
  end.

Definition from_str (s : string) : result ParseMetricError MetricUnit :=
  ok_or (match_str s
           [("ns", Duration NanoSecond); ("ms", Duration MilliSecond); ("s", Duration Second);
            ("", None_); ("unit", None_); ("none", None_)]) MkParseMetricError.

End MetricUnit.
Notation MetricUnit := MetricUnit.MetricUnit.

Module MetricType.

Inductive MetricType := Counter | Distribution | Set_ | Gauge.

#[global] Instance MetricType_eq_dec : EqDecision MetricType.
Proof. solve_decision. Defined.

Definition to_string (self : MetricType) : string :=
  match self with Counter => "c" | Distribution => "d" | Set_ => "s" | Gauge => "g" end.

Definition from_str (s : string) : result ParseMetricError MetricType :=
  ok_or (match_str s
           [("c", Counter); ("m", Counter); ("h", Distribution); ("d", Distribution);
            ("ms", Distribution); ("s", Set_); ("g", Gauge)]) MkParseMetricError.

End MetricType.
Notation MetricType := MetricType.MetricType.

Module MetricValue.

Inductive MetricValue :=
| Counter (value : f64) | Distribution (value : f64) | Set_ (value : Z) | Gauge (value : f64).

Definition ty (self : MetricValue) : MetricType :=
  match self with
  | Counter _ => MetricType.Counter
  | Distribution _ => MetricType.Distribution
  | Set_ _ => MetricType.Set_
  | Gauge _ => MetricType.Gauge
  end.

End MetricValue.
Notation MetricValue := MetricValue.MetricValue.

Record Metric := MkMetric {
  name : string;
  unit_ : MetricUnit;
  value : MetricValue;
  timestamp : UnixTimestamp;
  tags : gmap string string;
}.

(** ** Parsing one metric *)

Definition is_name_byte (b : ascii) : bool :=
  is_ascii_alphanumeric b || bool_decide (b = "."%char) || bool_decide (b = "_"%char).

Definition is_valid_name (name : string) : bool :=
  match name with
  | String first_byte rest => if is_ascii_alphabetic first_byte then str_forallb is_name_byte rest else false
  | EmptyString => false
  end.

Definition parse_name_unit (string : string) : option (String.string * MetricUnit) :=
  let components := split_on "@" string in
  name ← head components;
  if negb (is_valid_name name) then None
  else
    unit ← match components !! 1%nat with
           | Some s => res_ok (MetricUnit.from_str s)
           | None => Some MetricUnit.default_
           end;
    Some (name, unit).

Section Parse.

(** [FnvHasher] over the bytes of a string, a [u32]. *)
Context (fnv_hash : string -> Z).

Definition hash_set_value (string : string) : Z := fnv_hash string.

Definition parse_value (string : string) (ty : MetricType) : option MetricValue :=
  match ty with
  | MetricType.Counter => MetricValue.Counter <$> parse_f64 string
  | MetricType.Distribution => MetricValue.Distribution <$> parse_f64 string
  | MetricType.Set_ => Some (MetricValue.Set_ (default (hash_set_value string) (parse_u32 string)))
  | MetricType.Gauge => MetricValue.Gauge <$> parse_f64 string
  end.

Definition parse_name_unit_value (string : string) (ty : MetricType)
  : option (String.string * MetricUnit * MetricValue) :=
  let '(first, second) := splitn2 ":" string in
  '(name, unit) ← parse_name_unit first;
  value ← (s ← second; parse_value s ty);
  Some (name, unit, value).

(** Later tags of the same name replace earlier ones. *)
Definition parse_tags (string : string) : gmap String.string String.string :=
  fold_left (fun map pair =>
    let '(name, value) := splitn2 ":" pair in <[name := default "" value]> map)
    (split_on "," string) ∅.

(** The loop over the remaining components: the last tag list counts. *)
Definition parse_components (components : list string) (tags : gmap string string)
  : gmap string string :=
  fold_left (fun tags component =>
    match component with String "#" rest => parse_tags rest | _ => tags end) components tags.

Definition parse_str (string : string) (timestamp : UnixTimestamp) : option Metric :=
  let components := split_on "|" string in
  name_value_str ← head components;
  ty ← (s ← components !! 1%nat; res_ok (MetricType.from_str s));
  '(name, unit, value) ← parse_name_unit_value name_value_str ty;
  Some {| name := name;
          unit_ := unit;
          value := value;
          timestamp := timestamp;
          tags := parse_components (drop 2 components) ∅ |}.

Definition parse (slice : string) (timestamp : UnixTimestamp) : result ParseMetricError Metric :=
  if valid_utf8 slice then ok_or (parse_str slice timestamp) MkParseMetricError
  else Err MkParseMetricError.

(** ** Iterating over lines *)

Definition newline : ascii := "010"%char.
Definition carriage_return : ascii := "013"%char.

(** [strip_suffix('\r').unwrap_or(string)]. *)
Definition strip_cr (s : string) : string :=
  if ends_with (String carriage_return "") s then substring 0 (String.length s - 1) s else s.

Record ParseMetrics := MkParseMetrics { slice : string; pm_timestamp : UnixTimestamp }.

Definition parse_all (slice : string) (timestamp : UnixTimestamp) : ParseMetrics :=
  MkParseMetrics slice timestamp.

(** [Iterator::next]; every round of its loop takes at least one byte, so the
    length of the slice is enough [fuel].  Running out of it counts as a panic. *)
Fixpoint next_loop (fuel : nat) (self : ParseMetrics)
  : outcome (option (result ParseMetricError Metric) * ParseMetrics) :=
  match fuel with
  | O => Panic
  | S fuel =>
      if bool_decide (slice self = "") then Ret (None, self)
      else
        let '(current, rest) := splitn2 newline (slice self) in
        let self := MkParseMetrics (default "" rest) (pm_timestamp self) in
        if valid_utf8 current then
          let string := strip_cr current in
          if bool_decide (string = "") then next_loop fuel self
          else Ret (Some (ok_or (parse_str string (pm_timestamp self)) MkParseMetricError), self)
        else Ret (Some (Err MkParseMetricError), self)
  end.

Definition next (self : ParseMetrics)
  : outcome (option (result ParseMetricError Metric) * ParseMetrics) :=
  next_loop (S (String.length (slice self))) self.

(** Consuming the iterator. *)
Fixpoint collect (fuel : nat) (self : ParseMetrics) : outcome (list (result ParseMetricError Metric)) :=
  match fuel with
  | O => Panic
  | S fuel =>
      '(item, self) ← next self;
      match item with
      | None => Ret []
      | Some item => items ← collect fuel self; Ret (item :: items)
      end
  end.

(** ** Reference: one result per line that is not empty *)

Definition parse_line (timestamp : UnixTimestamp) (line : string)
  : option (result ParseMetricError Metric) :=
  if valid_utf8 line then
    if bool_decide (strip_cr line = "") then None
    else Some (ok_or (parse_str (strip_cr line) timestamp) MkParseMetricError)
  else Some (Err MkParseMetricError).

Definition lines_results (timestamp : UnixTimestamp) (slice : string)
  : list (result ParseMetricError Metric) :=
  omap (parse_line timestamp) (split_on newline slice).

End Parse.

(** ** Lemmas *)

Lemma split_on_splitn2 c s :
  split_on c s = match splitn2 c s with
                 | (h, Some t) => h :: split_on c t
                 | (h, None) => [h]
                 end.
Proof.
  induction s as [|a s IH]; simpl; [done|]. destruct (bool_decide (a = c)); [done|].
  rewrite IH. destruct (splitn2 c s) as [h [t|]]; done.
Qed.

Lemma splitn2_length c s h t :
  splitn2 c s = (h, Some t) -> (String.length t < String.length s)%nat.
Proof.
  revert h. induction s as [|a s IH]; intros h; simpl; [done|].
  destruct (bool_decide (a = c)); [intros [= <- <-]; lia|].
  destruct (splitn2 c s) as [h' t']. intros [= <- ->]. specialize (IH h' eq_refl). lia.
Qed.

Lemma lines_results_cons fnv ts s :
  lines_results fnv ts s =
  match splitn2 newline s with
  | (h, t) =>
      match parse_line fnv ts h with Some r => [r] | None => [] end
      ++ match t with Some t => lines_results fnv ts t | None => [] end
  end.
Proof.
  unfold lines_results at 1. rewrite split_on_splitn2. destruct (splitn2 newline s) as [h [t|]];
    unfold omap; simpl; destruct (parse_line fnv ts h); done.
Qed.

Lemma lines_results_nil fnv ts : lines_results fnv ts "" = [].
Proof. done. Qed.

Lemma next_loop_spec fnv fuel self :
  (String.length (slice self) < fuel)%nat ->
  exists r self', next_loop fnv fuel self = Ret (r, self') /\
    pm_timestamp self' = pm_timestamp self /\
    match r with
    | None => lines_results fnv (pm_timestamp self) (slice self) = []
    | Some x =>
        (String.length (slice self') < String.length (slice self))%nat /\
        lines_results fnv (pm_timestamp self) (slice self) =
        x :: lines_results fnv (pm_timestamp self) (slice self')
    end.
Proof.
  revert self. induction fuel as [|fuel IH]; intros [s ts] Hf; [lia|]. simpl in *.
  case_bool_decide as Hs; [subst; eexists _, _; split; [done|]; simpl; by rewrite lines_results_nil|].
  assert (forall h t, splitn2 newline s = (h, t) ->
    (String.length (default "" t) < String.length s)%nat /\
    match t with Some t => lines_results fnv ts t | None => [] end = lines_results fnv ts (default "" t)) as Hrest.
  { intros h [t|] Hsp; simpl; [split; [by eapply splitn2_length|done]|].
    split; [|by rewrite lines_results_nil]. destruct s; [done|simpl; lia]. }
  pose proof (lines_results_cons fnv ts s) as Hl.
  destruct (splitn2 newline s) as [h t] eqn:Hsp. destruct (Hrest h t eq_refl) as [Hlt Ht].
  rewrite Ht in Hl. unfold parse_line in Hl.
  destruct (valid_utf8 h).
  - case_bool_decide as Hcr; simpl in Hl.
    + rewrite Hl. destruct (IH (MkParseMetrics (default "" t) ts)) as (r & self' & -> & Hts & Hr); [simpl; lia|].
      simpl in *. exists r, self'. split; [done|]. split; [done|]. destruct r; [|done].
      destruct Hr as [Hlen ->]. split; [lia|done].
    + eexists _, _. split; [done|]. split; [done|]. simpl. split; [lia|]. by rewrite Hl.
  - eexists _, _. split; [done|]. split; [done|]. simpl in *. split; [lia|]. by rewrite Hl.
Qed.

Lemma collect_spec fnv fuel self :
  (String.length (slice self) < fuel)%nat ->
  collect fnv fuel self = Ret (lines_results fnv (pm_timestamp self) (slice self)).
Proof.
  revert self. induction fuel as [|fuel IH]; intros self Hf; [lia|]. simpl.
  destruct (next_loop_spec fnv (S (String.length (slice self))) self) as (r & self' & Hn & Hts & Hr); [lia|].
  unfold next. rewrite Hn. simpl. destruct r as [x|]; [|by rewrite Hr].
  destruct Hr as [Hlt ->]. rewrite IH by lia. simpl. by rewrite Hts.
Qed.

(** The text of a metric. *)
Definition print_unit (u : MetricUnit) : string :=
  match u with MetricUnit.None_ => "" | _ => "@" +:+ MetricUnit.to_string u end.
Definition print_tag (t : string * string) : string := t.1 +:+ ":" +:+ t.2.
Definition print_tags (ts : list (string * string)) : list string :=
  match ts with [] => [] | _ => ["#" +:+ join_with "," (print_tag <$> ts)] end.
Definition print_metric (name : string) (u : MetricUnit) (v : string) (ty : MetricType)
    (ts : list (string * string)) : string :=
  join_with "|" ([name +:+ print_unit u +:+ ":" +:+ v; MetricType.to_string ty] ++ print_tags ts).

Definition tag_ok (t : string * string) : bool :=
  negb (contains_char "," t.1) && negb (contains_char ":" t.1) && negb (contains_char "|" t.1)
  && negb (contains_char "," t.2) && negb (contains_char "|" t.2).

Lemma tag_ok_spec t :
  tag_ok t = true ->
  contains_char "," t.1 = false /\ contains_char ":" t.1 = false /\ contains_char "|" t.1 = false /\
  contains_char "," t.2 = false /\ contains_char "|" t.2 = false.
Proof. unfold tag_ok. rewrite !andb_true_iff, !negb_true_iff. tauto. Qed.

Lemma fold_tags ts (m : gmap string string) :
  Forall (fun t => tag_ok t = true) ts -> NoDup ts.*1 ->
  fold_left (fun map pair => let '(name, value) := splitn2 ":" pair in <[name := default "" value]> map)
    (print_tag <$> ts) m = list_to_map ts ∪ m.
Proof.
  intros Hok. revert m. induction Hok as [|[k v] ts Ht Hok IH]; intros m Hnd.
  - simpl. by rewrite (left_id_L ∅ (∪)).
  - rewrite fmap_cons in *. apply NoDup_cons in Hnd as [Hk Hnd]. cbn [fold_left].
    change (print_tag (k, v)) with (k +:+ String ":" v).
    rewrite (splitn2_app ":" k v) by (by destruct (tag_ok_spec _ Ht) as (_ & ? & _)). simpl.
    rewrite IH by done. rewrite <- insert_union_l, insert_union_r; [done|].
    by apply not_elem_of_list_to_map_1.
Qed.

Lemma print_tag_no c t :
  c <> ":"%char -> contains_char c t.1 = false -> contains_char c t.2 = false ->
  contains_char c (print_tag t) = false.
Proof.
  intros Hc H1 H2. unfold print_tag. rewrite !contains_char_app, H1, H2, orb_false_r. simpl.
  rewrite contains_char_cons, bool_decide_false by congruence. done.
Qed.

Lemma join_no_char c sep l :
  contains_char c sep = false -> Forall (fun s => contains_char c s = false) l ->
  contains_char c (join_with sep l) = false.
Proof.
  intros Hsep. induction 1 as [|s l Hs Hl IH]; [done|]. destruct l as [|t l]; [done|].
  change (join_with sep (s :: t :: l)) with (s +:+ sep +:+ join_with sep (t :: l)).
  by rewrite !contains_char_app, Hs, Hsep, IH.
Qed.

Lemma parse_print_tags ts :
  Forall (fun t => tag_ok t = true) ts -> NoDup ts.*1 ->
  parse_components (print_tags ts) ∅ = list_to_map ts.
Proof.
  intros Hok Hnd. destruct ts as [|t ts]; [done|].
  unfold print_tags, parse_components. cbn [fold_left].
  change ("#" +:+ ?x) with (String "#" x). cbn iota. unfold parse_tags.
  rewrite split_on_join; [|done|].
  - rewrite fold_tags by done. by rewrite (right_id_L ∅ (∪)).
  - apply Forall_fmap. eapply Forall_impl; [exact Hok|]. intros x Hx. simpl.
    apply tag_ok_spec in Hx as (? & ? & ? & ? & ?). by apply print_tag_no.
Qed.

Lemma valid_name_no name c :
  is_valid_name name = true -> is_name_byte c = false -> contains_char c name = false.
Proof.
  unfold is_valid_name. destruct name as [|a r]; [done|]. destruct (is_ascii_alphabetic a) eqn:Ha; [|done].
  intros Hr Hc. apply str_forallb_not_contains with is_name_byte; [done|]. simpl. rewrite Hr, andb_true_r.
  unfold is_name_byte, is_ascii_alphanumeric. by rewrite Ha.
Qed.

(** ** Properties *)

(** [Metric::parse_all] terminates and yields exactly one result per line, in
    order: lines that are empty up to a carriage return are skipped, and a line
    that fails to parse does not stop the iteration. *)
Theorem parse_all_lines fnv_hash slice ts :
  collect fnv_hash (S (String.length slice)) (parse_all slice ts) = Ret (lines_results fnv_hash ts slice).
Proof. apply (collect_spec fnv_hash _ (parse_all slice ts)). simpl. lia. Qed.

(** A metric written in the submission protocol is parsed into the same
    name, unit, type, value and tags: for every valid name, every unit and type,
    every value text that parses for the type and every list of distinct tags
    whose texts avoid the separators. *)
Theorem metric_protocol_roundtrip fnv_hash name u v ty ts value now
    (Hname : is_valid_name name = true) (Hv : contains_char "|" v = false)
    (Hvalue : parse_value fnv_hash v ty = Some value)
    (Htags : Forall (fun t => tag_ok t = true) ts) (Hnodup : NoDup ts.*1) :
  parse_str fnv_hash (print_metric name u v ty ts) now =
    Some (MkMetric name u value now (list_to_map ts)) /\
  MetricValue.ty value = ty.
Proof.
  split.
  - unfold parse_str, print_metric. rewrite split_on_join.
    + cbn [app head drop]. unfold lookup. cbn.
      assert (MetricType.from_str (MetricType.to_string ty) = Ok ty) as -> by (by destruct ty).
      rewrite drop_0, parse_print_tags by done. cbn [res_ok mbind option_bind].
      assert (parse_name_unit_value fnv_hash (name +:+ print_unit u +:+ String ":" v) ty = Some (name, u, value)) as ->; [|done].
      unfold parse_name_unit_value. rewrite <- str_app_assoc.
      rewrite (splitn2_app ":" (name +:+ print_unit u) v).
      * assert (parse_name_unit (name +:+ print_unit u) = Some (name, u)) as ->; [|cbn; by rewrite Hvalue].
        assert (contains_char "@" name = false) as Hat by (by apply valid_name_no).
        unfold parse_name_unit. destruct u as [[]|]; cbn [print_unit];
          try (change ("@" +:+ ?x) with (String "@" x); rewrite split_on_app by done);
          try (rewrite str_app_nil_r, split_on_no_sep by done); cbn; by rewrite Hname.
      * rewrite contains_char_app, (valid_name_no name ":") by done. by destruct u as [[]|].
    + done.
    + repeat constructor.
      * rewrite !contains_char_app, (valid_name_no name "|"), Hv by done. by destruct u as [[]|].
      * by destruct ty.
      * destruct ts as [|t ts]; [constructor|]. constructor; [|constructor].
        change ("#" +:+ ?x) with (String "#" x). rewrite contains_char_cons, bool_decide_false by done.
        cbn [orb]. apply join_no_char; [done|]. apply Forall_fmap.
        eapply Forall_impl; [exact Htags|]. intros x Hx. simpl.
        apply tag_ok_spec in Hx as (? & ? & ? & ? & ?). by apply print_tag_no.
  - destruct ty; simpl in Hvalue; try (destruct (parse_f64 v)); by simplify_eq/=.
Qed.

Lemma metric_protocol_roundtrip_witness :
  parse_str (fun _ => 0) "endpoint.response_time@ms:57|d|#route:user_index" 4711 =
  Some (MkMetric "endpoint.response_time" (MetricUnit.Duration MilliSecond)
          (MetricValue.Distribution (f64_of_Z 57)) 4711 (list_to_map [("route", "user_index")])).
Proof.
  apply (metric_protocol_roundtrip (fun _ => 0) "endpoint.response_time" (MetricUnit.Duration MilliSecond)
    "57" MetricType.Distribution [("route", "user_index")]).
  - reflexivity.
  - reflexivity.
  - vm_compute. reflexivity.
  - repeat constructor.
  - repeat constructor. set_solver.
Defined.
