(* ===== verification/MetricsExtraction.v ===== *)
(** * relay-server: metrics extracted from sessions and transactions (actors/envelopes.rs)

    Counters and sets for the release health of sessions, and distributions for
    the measurements and breakdowns of transactions. *)

From Stdlib Require Import Ascii String.
From S2P Require Import Prelude Strings Floats Types Common Protocol Quota Filters Sampling Extractors Envelopes Sessions MetricProtocol.

Open Scope string_scope.
Open Scope Z_scope.
Open Scope list_scope.

Notation tag_map := (gmap string string).

(** The entries of a B-tree map, in the order of their keys. *)
Definition key_le {A} (a b : string * A) : Prop := String.leb a.1 b.1 = true.
#[global] Instance key_le_dec {A} : RelDecision (@key_le A).
Proof. intros a b. unfold key_le. apply _. Defined.
Definition entries {A} (m : gmap string A) : list (string * A) := merge_sort key_le (map_to_list m).

Definition with_tag (tags : tag_map) (name value : string) : tag_map := <[name := value]> tags.

(** [MetricValue::set_from_str] and [set_from_display] *)
Definition set_from_str (fnv_hash : string -> Z) (string : string) : MetricValue :=
  MetricValue.Set_ (hash_set_value fnv_hash string).

(** ** Transactions *)

Definition measurement_of (annotated : Annotated Measurement) : option f64 :=
  m ← Annotated.value annotated; Annotated.value (measurement_value m).

(** One distribution per measurement that has a value. *)
Definition extract_measurements (prefix : string) (timestamp : UnixTimestamp) (tags : tag_map)
  (measurements : Object Measurement) (target : list Metric) : list Metric :=
  fold_left (fun target '(name, annotated) =>
    match measurement_of annotated with
    | Some measurement =>
        target ++ [MkMetric (prefix +:+ name) MetricUnit.None_ (MetricValue.Distribution measurement) timestamp tags]
    | None => target
    end) (entries measurements) target.

Definition extract_transaction_metrics (event : Event) (target : list Metric) : list Metric :=
  match ts ← Annotated.value (Protocol.timestamp event); UnixTimestamp.from_datetime (datetime_timestamp ts) with
  | None => target
  | Some timestamp =>
      let tags : tag_map := ∅ in
      let tags := match Annotated.value (release event) with
                  | Some release => <["release" := release]> tags | None => tags end in
      let tags := match Annotated.value (environment event) with
                  | Some environment => <["environment" := environment]> tags | None => tags end in
      let target := match Annotated.value (measurements event) with
                    | Some measurements => extract_measurements "measurement." timestamp tags measurements target
                    | None => target
                    end in
      match Annotated.value (breakdowns event) with
      | Some breakdowns =>
          fold_left (fun target '(breakdown, annotated) =>
            match Annotated.value annotated with
            | Some measurements =>
                extract_measurements ("breakdown." +:+ breakdown +:+ ".") timestamp tags measurements target
            | None => target
            end) (entries breakdowns) target
      | None => target
      end
  end.

(** ** Sessions *)

Section Sessions.

(** The hash of set members, and [Uuid]'s [Display]. *)
Context (fnv_hash : string -> Z) (uuid_to_string : Uuid -> string).

Definition user_metric (session : SessionUpdate) (timestamp : UnixTimestamp) (tags : tag_map) : list Metric :=
  match SessionUpdate.distinct_id session with
  | Some distinct_id => [MkMetric "user" MetricUnit.None_ (set_from_str fnv_hash distinct_id) timestamp tags]
  | None => []
  end.

Definition extract_session_metrics (session : SessionUpdate) (target : list Metric) : list Metric :=
  match UnixTimestamp.from_datetime (datetime_timestamp (SessionUpdate.timestamp session)) with
  | None => target
  | Some timestamp =>
      let attributes := SessionUpdate.attributes session in
      let status := SessionUpdate.status session in
      let tags : tag_map := {["release" := SessionAttributes.release attributes]} in
      let tags := match SessionAttributes.environment attributes with
                  | Some environment => <["environment" := environment]> tags | None => tags end in
      let target :=
        if SessionUpdate.init session then
          let tags := with_tag tags "session.status" "init" in
          target ++ [MkMetric "session" MetricUnit.None_ (MetricValue.Counter (f64_of_Z 1)) timestamp tags]
                 ++ user_metric session timestamp tags
        else target in
      let target :=
        if bool_decide (0 < SessionUpdate.errors session) || SessionStatus.is_error status then
          target ++ [MkMetric "session.error" MetricUnit.None_
                       (set_from_str fnv_hash (uuid_to_string (SessionUpdate.session_id session))) timestamp tags]
                 ++ user_metric session timestamp (with_tag tags "session.status" "errored")
        else target in
      let target :=
        if SessionStatus.is_fatal status then
          let tags := with_tag tags "session.status" (SessionStatus.as_str status) in
          target ++ [MkMetric "session" MetricUnit.None_ (MetricValue.Counter (f64_of_Z 1)) timestamp tags]
                 ++ user_metric session timestamp tags
        else target in
      if SessionStatus.is_terminal status then
        match SessionUpdate.duration session with
        | Some duration =>
            target ++ [MkMetric "session.duration" (MetricUnit.Duration Second)
                         (MetricValue.Distribution duration) timestamp tags]
        | None => target
        end
      else target
  end.

End Sessions.

(** ** Release health *)

Section ReleaseHealth.
Context (fnv_hash : string -> Z) (uuid_to_string : Uuid -> string) (session : SessionUpdate).

Let attributes := SessionUpdate.attributes session.
Let status := SessionUpdate.status session.

(** The tags of all metrics of the session. *)
Definition session_tags : tag_map :=
  let tags : tag_map := {["release" := SessionAttributes.release attributes]} in
  match SessionAttributes.environment attributes with
  | Some environment => <["environment" := environment]> tags | None => tags end.

Definition errored : bool := bool_decide (0 < SessionUpdate.errors session) || SessionStatus.is_error status.

Definition counted (timestamp : UnixTimestamp) (s : string) : list Metric :=
  let tags := with_tag session_tags "session.status" s in
  MkMetric "session" MetricUnit.None_ (MetricValue.Counter (f64_of_Z 1)) timestamp tags
  :: user_metric fnv_hash session timestamp tags.

Definition error_metrics (timestamp : UnixTimestamp) : list Metric :=
  MkMetric "session.error" MetricUnit.None_
    (set_from_str fnv_hash (uuid_to_string (SessionUpdate.session_id session))) timestamp session_tags
  :: user_metric fnv_hash session timestamp (with_tag session_tags "session.status" "errored").

Definition duration_metrics (timestamp : UnixTimestamp) : list Metric :=
  match SessionUpdate.duration session with
  | Some duration =>
      [MkMetric "session.duration" (MetricUnit.Duration Second) (MetricValue.Distribution duration) timestamp
         session_tags]
  | None => []
  end.

Definition session_metrics (timestamp : UnixTimestamp) : list Metric :=
  (if SessionUpdate.init session then counted timestamp "init" else [])
  ++ (if errored then error_metrics timestamp else [])
  ++ (if SessionStatus.is_fatal status then counted timestamp (SessionStatus.as_str status) else [])
  ++ (if SessionStatus.is_terminal status then duration_metrics timestamp else []).

Lemma extract_session_metrics_parts timestamp target :
  UnixTimestamp.from_datetime (datetime_timestamp (SessionUpdate.timestamp session)) = Some timestamp ->
  extract_session_metrics fnv_hash uuid_to_string session target = target ++ session_metrics timestamp.
Proof.
  intros Ht. unfold extract_session_metrics, session_metrics, errored, error_metrics, counted, duration_metrics.
  rewrite Ht. fold attributes status. fold session_tags.
  destruct (SessionUpdate.init session), (_ || _), (SessionStatus.is_fatal status),
    (SessionStatus.is_terminal status), (SessionUpdate.duration session);
    simpl; rewrite <- ?app_assoc, ?app_nil_r; simpl; try done; by rewrite <- ?app_assoc, ?app_nil_r.
Qed.

Lemma session_tags_status : session_tags !! "session.status" = None.
Proof. unfold session_tags. by destruct (SessionAttributes.environment attributes). Qed.

Lemma session_tags_release : session_tags !! "release" = Some (SessionAttributes.release attributes).
Proof. unfold session_tags. by destruct (SessionAttributes.environment attributes). Qed.

Lemma session_tags_environment :
  session_tags !! "environment" = SessionAttributes.environment attributes.
Proof. unfold session_tags. by destruct (SessionAttributes.environment attributes). Qed.

(** A metric of this session at the given time. *)
Definition of_session (t : UnixTimestamp) (m : Metric) : Prop :=
  timestamp m = t /\ tags m !! "release" = Some (SessionAttributes.release attributes) /\
  tags m !! "environment" = SessionAttributes.environment attributes.

Lemma with_status_of_session s :
  with_tag session_tags "session.status" s !! "release" = Some (SessionAttributes.release attributes) /\
  with_tag session_tags "session.status" s !! "environment" = SessionAttributes.environment attributes /\
  with_tag session_tags "session.status" s !! "session.status" = Some s.
Proof.
  unfold with_tag. rewrite lookup_insert_eq, !lookup_insert_ne by done.
  by rewrite session_tags_release, session_tags_environment.
Qed.

(** Counts a session under a status. *)
Definition counts_as (s : string) (m : Metric) : Prop :=
  name m = "session" /\ tags m !! "session.status" = Some s.

Lemma user_metric_spec t tags m : m ∈ user_metric fnv_hash session t tags -> name m = "user" /\
  timestamp m = t /\ MetricProtocol.tags m = tags.
Proof.
  unfold user_metric. destruct (SessionUpdate.distinct_id session); [|by intros []%not_elem_of_nil].
  by intros ->%list_elem_of_singleton.
Qed.

Lemma counted_spec t s m :
  m ∈ counted t s -> of_session t m /\ (counts_as s m \/ name m = "user").
Proof.
  unfold counted, of_session, counts_as. destruct (with_status_of_session s) as (Hr & He & Hs).
  intros [->|(-> & -> & ->)%user_metric_spec]%elem_of_cons; simpl; auto 6.
Qed.

Lemma error_metrics_spec t m :
  m ∈ error_metrics t -> of_session t m /\ (name m = "session.error" \/ name m = "user").
Proof.
  unfold error_metrics, of_session. destruct (with_status_of_session "errored") as (Hr & He & _).
  intros [->|(-> & -> & ->)%user_metric_spec]%elem_of_cons; simpl;
    rewrite ?session_tags_release, ?session_tags_environment; auto 6.
Qed.

Lemma duration_metrics_spec t m : m ∈ duration_metrics t -> of_session t m /\ name m = "session.duration".
Proof.
  unfold duration_metrics, of_session. destruct (SessionUpdate.duration session); [|by intros []%not_elem_of_nil].
  intros ->%list_elem_of_singleton. simpl. by rewrite session_tags_release, session_tags_environment.
Qed.

Lemma elem_of_if {A} (b : bool) (l : list A) x : x ∈ (if b then l else []) <-> b = true /\ x ∈ l.
Proof. destruct b; [naive_solver|]. split; [by intros []%not_elem_of_nil|by intros [? _]]. Qed.

Lemma session_metrics_cases t m :
  m ∈ session_metrics t ->
  of_session t m /\
  (SessionUpdate.init session = true /\ counts_as "init" m \/
   errored = true /\ name m = "session.error" \/
   SessionStatus.is_fatal status = true /\ counts_as (SessionStatus.as_str status) m \/
   name m = "user" \/ name m = "session.duration").
Proof.
  unfold session_metrics. rewrite !elem_of_app, !elem_of_if.
  intros [[? H%counted_spec]|[[? H%error_metrics_spec]|[[? H%counted_spec]|[? H%duration_metrics_spec]]]];
    naive_solver.
Qed.

End ReleaseHealth.

(** Release health of a session update with a representable time: its metrics
    carry the session's time, release and environment; the session is counted as
    started exactly when it is initial, reported as errored exactly when it has
    errors or an error status, and counted as crashed or abnormal exactly when
    its status says so, in which case it is reported as errored, too. *)
Theorem session_metrics_release_health fnv_hash uuid_to_string session target t :
  UnixTimestamp.from_datetime (datetime_timestamp (SessionUpdate.timestamp session)) = Some t ->
  exists ms, extract_session_metrics fnv_hash uuid_to_string session target = target ++ ms /\
    Forall (of_session session t) ms /\
    ((exists m, m ∈ ms /\ counts_as "init" m) <-> SessionUpdate.init session = true) /\
    ((exists m, m ∈ ms /\ name m = "session.error") <->
       0 < SessionUpdate.errors session \/ SessionStatus.is_error (SessionUpdate.status session) = true) /\
    (forall s, (exists m, m ∈ ms /\ counts_as (SessionStatus.as_str s) m) <->
       SessionStatus.is_fatal s = true /\ s = SessionUpdate.status session) /\
    (SessionStatus.is_fatal (SessionUpdate.status session) = true -> exists m, m ∈ ms /\ name m = "session.error").
Proof.
  intros Ht. exists (session_metrics fnv_hash uuid_to_string session t).
  split; [by apply extract_session_metrics_parts|].
  pose proof (session_metrics_cases fnv_hash uuid_to_string session t) as Hc.
  assert (errored session = true -> exists m, m ∈ session_metrics fnv_hash uuid_to_string session t /\
            name m = "session.error") as Herr.
  { intros He. eexists. unfold session_metrics. rewrite !elem_of_app, !elem_of_if.
    split; [right; left; split; [done|constructor]|done]. }
  assert (errored session = true <-> 0 < SessionUpdate.errors session \/
            SessionStatus.is_error (SessionUpdate.status session) = true) as Hed.
  { unfold errored. by rewrite orb_true_iff, bool_decide_eq_true. }
  split; [by apply Forall_forall; intros m Hm%Hc; apply Hm|]. split; [|split; [|split]].
  - split.
    + intros (m & Hm & Hn & Hs). destruct (Hc m Hm) as [_ [[Hi _]|[[_ H]|[[Hf [_ H]]|[H|H]]]]];
        [done|congruence| |congruence..].
      destruct (SessionUpdate.status session); simpl in *; congruence.
    + intros Hi. eexists. unfold session_metrics. rewrite !elem_of_app, !elem_of_if.
      split; [left; split; [done|constructor]|]. split; [done|]. apply with_status_of_session.
  - rewrite <- Hed. split; [|done]. intros (m & Hm & Hn).
    destruct (Hc m Hm) as [_ [[_ [H _]]|[[H _]|[[_ [H _]]|[H|H]]]]]; congruence.
  - intros s. split.
    + intros (m & Hm & Hn & Hs). destruct (Hc m Hm) as [_ [[_ [_ H]]|[[_ H]|[[Hf [_ H]]|[H|H]]]]];
        [|congruence| |congruence..];
        destruct s, (SessionUpdate.status session); simpl in *; (done || congruence).
    + intros [Hf ->]. eexists. unfold session_metrics. rewrite !elem_of_app, !elem_of_if.
      split; [right; right; left; split; [done|constructor]|]. split; [done|]. apply with_status_of_session.
  - intros Hf. apply Herr, Hed. right. by apply status_classes.
Qed.

Definition sample_session : SessionUpdate :=
  SessionUpdate.MkSessionUpdate 1 (Some "user-1") 4711 true (1581084960 * nanos_per_sec)
    (1581084960 * nanos_per_sec) None SessionStatus.Crashed 0
    (SessionAttributes.MkSessionAttributes "sentry-test@1.0.0" (Some "production") None None).

Lemma session_metrics_release_health_witness :
  exists ms, extract_session_metrics (fun _ => 7) (fun _ => "") sample_session [] = [] ++ ms /\
    (exists m, m ∈ ms /\ counts_as "crashed" m) /\ (exists m, m ∈ ms /\ counts_as "init" m).
Proof.
  destruct (session_metrics_release_health (fun _ => 7) (fun _ => "") sample_session [] 1581084960)
    as (ms & Hms & _ & Hi & _ & Hs & _); [reflexivity|].
  exists ms. split; [exact Hms|].
  split; [exact (proj2 (Hs SessionStatus.Crashed) (conj eq_refl eq_refl))|exact (proj2 Hi eq_refl)].
Defined.

(** ** Metrics of transactions *)

Lemma elem_of_entries {A} (m : gmap string A) k v : (k, v) ∈ entries m <-> m !! k = Some v.
Proof. unfold entries. by rewrite merge_sort_Permutation, elem_of_map_to_list. Qed.

Lemma fold_left_extend {A B} (f : A -> list B) (l : list A) (target : list B) :
  fold_left (fun target a => target ++ f a) l target = target ++ (l ≫= f).
Proof.
  revert target. induction l as [|a l IH]; intros target; simpl; [by rewrite app_nil_r|].
  rewrite IH. by rewrite <- app_assoc.
Qed.

Lemma fold_left_ext {A B} (f g : A -> B -> A) (l : list B) a :
  (forall a b, f a b = g a b) -> fold_left f l a = fold_left g l a.
Proof. intros H. revert a. induction l as [|b l IH]; intros a; simpl; [done|]. by rewrite H. Qed.

Lemma elem_of_extract_measurements prefix t tags measurements target m :
  m ∈ extract_measurements prefix t tags measurements target <->
  m ∈ target \/ exists name a v, measurements !! name = Some a /\ measurement_of a = Some v /\
    m = MkMetric (prefix +:+ name) MetricUnit.None_ (MetricValue.Distribution v) t tags.
Proof.
  unfold extract_measurements.
  rewrite (fold_left_ext _ (fun target (na : string * Annotated Measurement) => target ++
    match measurement_of na.2 with
    | Some v => [MkMetric (prefix +:+ na.1) MetricUnit.None_ (MetricValue.Distribution v) t tags]
    | None => [] end)).
  2: { intros l [n a]. simpl. destruct (measurement_of a); [done|by rewrite app_nil_r]. }
  rewrite fold_left_extend, elem_of_app, list_elem_of_bind. f_equiv. split.
  - intros ([n a] & Hm & Ha%elem_of_entries). simpl in Hm. destruct (measurement_of a) eqn:E;
      [|by apply not_elem_of_nil in Hm]. apply list_elem_of_singleton in Hm. eauto 6.
  - intros (n & a & v & Ha & Hv & ->). exists (n, a). rewrite elem_of_entries. simpl. rewrite Hv.
    split; [by apply list_elem_of_singleton|done].
Qed.

(** The distributions of an event: one for each measurement with a value. *)
Definition is_measurement (event : Event) (m : Metric) (t : UnixTimestamp) (tags : tag_map) : Prop :=
  exists ms name a v, Annotated.value (measurements event) = Some ms /\ ms !! name = Some a /\
    measurement_of a = Some v /\
    m = MkMetric ("measurement." +:+ name) MetricUnit.None_ (MetricValue.Distribution v) t tags.
Definition is_breakdown (event : Event) (m : Metric) (t : UnixTimestamp) (tags : tag_map) : Prop :=
  exists bs b b_ms ms name a v, Annotated.value (breakdowns event) = Some bs /\ bs !! b = Some b_ms /\
    Annotated.value b_ms = Some ms /\ ms !! name = Some a /\ measurement_of a = Some v /\
    m = MkMetric ("breakdown." +:+ b +:+ "." +:+ name) MetricUnit.None_ (MetricValue.Distribution v) t tags.
Definition event_tags (event : Event) : tag_map :=
  let tags : tag_map := match Annotated.value (release event) with
                        | Some release => {["release" := release]} | None => ∅ end in
  match Annotated.value (environment event) with
  | Some environment => <["environment" := environment]> tags | None => tags end.

Lemma elem_of_fold_breakdowns t tags (l : list (string * Annotated (Object Measurement))) target m :
  m ∈ fold_left (fun target '(breakdown, annotated) =>
        match Annotated.value annotated with
        | Some measurements =>
            extract_measurements ("breakdown." +:+ breakdown +:+ ".") t tags measurements target
        | None => target
        end) l target <->
  m ∈ target \/ exists b b_ms ms name a v, (b, b_ms) ∈ l /\ Annotated.value b_ms = Some ms /\
    ms !! name = Some a /\ measurement_of a = Some v /\
    m = MkMetric ("breakdown." +:+ b +:+ "." +:+ name) MetricUnit.None_ (MetricValue.Distribution v) t tags.
Proof.
  revert target. induction l as [|[b b_ms] l IH]; intros target; cbn [fold_left].
  { split; [auto|]. intros [H|(? & ? & ? & ? & ? & ? & H & _)]; [done|by apply not_elem_of_nil in H]. }
  rewrite IH. setoid_rewrite elem_of_cons. destruct (Annotated.value b_ms) as [ms|] eqn:E.
  - assert (forall name, ("breakdown." +:+ b +:+ ".") +:+ name = "breakdown." +:+ b +:+ "." +:+ name) as Ha
      by (intros name; by rewrite !str_app_assoc).
    rewrite elem_of_extract_measurements. setoid_rewrite Ha. naive_solver.
  - naive_solver.
Qed.

(** Extraction from a transaction adds exactly one distribution for each
    measurement and for each measurement of a breakdown that has a value, with
    the time of the event and its release and environment as tags. *)
Theorem transaction_metrics_complete event target t ts m :
  Annotated.value (Protocol.timestamp event) = Some ts ->
  UnixTimestamp.from_datetime (datetime_timestamp ts) = Some t ->
  m ∈ extract_transaction_metrics event target <->
  m ∈ target \/ is_measurement event m t (event_tags event) \/ is_breakdown event m t (event_tags event).
Proof.
  intros Hts Ht. unfold extract_transaction_metrics. rewrite Hts. simpl. rewrite Ht.
  replace (match Annotated.value (environment event) with
           | Some environment => <["environment":=environment]> _ | None => _ end) with (event_tags event)
    by (unfold event_tags; by destruct (Annotated.value (release event))).
  unfold is_measurement, is_breakdown.
  destruct (Annotated.value (breakdowns event)) as [bs|] eqn:Eb.
  - rewrite elem_of_fold_breakdowns. setoid_rewrite elem_of_entries.
    destruct (Annotated.value (measurements event)) as [ms|] eqn:Em;
      [rewrite elem_of_extract_measurements|]; naive_solver.
  - destruct (Annotated.value (measurements event)) as [ms|] eqn:Em;
      [rewrite elem_of_extract_measurements|]; naive_solver.
Qed.

Definition sample_measurements : Event :=
  let m x := Annotated.new (MkMeasurement (Annotated.new (f64_of_Z x))) in
  set_measurements
    (set_release (set_timestamp (set_event_ty empty_event (Annotated.new EventType.Transaction))
                    (Annotated.new (60 * nanos_per_sec))) (Annotated.new "1.0"))
    (Annotated.new {["lcp" := m 420]}).

Lemma transaction_metrics_complete_witness :
  MkMetric "measurement.lcp" MetricUnit.None_ (MetricValue.Distribution (f64_of_Z 420)) 60 {["release" := "1.0"]}
    ∈ extract_transaction_metrics sample_measurements [].
Proof.
  apply (transaction_metrics_complete sample_measurements [] 60 (60 * nanos_per_sec)); [reflexivity..|].
  right. left. eexists _, "lcp", _, _. repeat split.
Defined.
