(* ===== verification/Aggregation.v ===== *)
(** * relay-metrics: aggregated values (aggregation.rs, first part)

    Gauges, distributions and bucket values.  A distribution is a [BTreeMap] from
    floats, ordered by the crate float_ord, to counts: a list of entries in
    ascending order here.  The order is the class [FloatOrd]. *)

From Stdlib Require Import Ascii String SpecFloat.
From S2P Require Import Prelude Strings Floats Common MetricProtocol.

Open Scope string_scope.
Open Scope Z_scope.
Open Scope list_scope.

#[global] Instance f64_eq_dec : EqDecision f64.
Proof. intros a b. unfold Decision. decide equality; apply (decide (_ = _)). Defined.

(** The total order that float_ord documents for floats. *)
Class FloatOrd := { float_lt : f64 -> f64 -> bool }.

Class FloatOrdLaws `{FloatOrd} : Prop := {
  float_lt_irrefl x : float_lt x x = false;
  float_lt_trans x y z : float_lt x y = true -> float_lt y z = true -> float_lt x z = true;
  float_lt_total x y : x = y \/ float_lt x y = true \/ float_lt y x = true;
}.

(** ** Gauges *)

Module GaugeValue.

Record GaugeValue := MkGaugeValue {
  max : f64;
  min : f64;
  sum : f64;
  last : f64;
  count : Z;
}.

Definition single (value : f64) : GaugeValue := MkGaugeValue value value value value 1.

Definition insert (self : GaugeValue) (value : f64) : GaugeValue :=
  {| max := f64_max (max self) value;
     min := f64_min (min self) value;
     sum := f64_add (sum self) value;
     last := value;
     count := u64_add (count self) 1 |}.

Definition merge (self other : GaugeValue) : GaugeValue :=
  {| max := f64_max (max self) (max other);
     min := f64_min (min self) (min other);
     sum := f64_add (sum self) (sum other);
     last := last other;
     count := u64_add (count self) (count other) |}.

Definition avg (self : GaugeValue) : f64 :=
  if bool_decide (0 < count self) then f64_div (sum self) (f64_of_Z (count self)) else f64_zero.

End GaugeValue.
Notation GaugeValue := GaugeValue.GaugeValue.

(** ** Distributions *)

Notation Count := Z (only parsing).

Module DistributionValue.

Record DistributionValue := MkDistributionValue {
  values : list (f64 * Count);
  length : Count;
}.

Definition new : DistributionValue := MkDistributionValue [] 0.

Definition len (self : DistributionValue) : Count := length self.
Definition is_empty (self : DistributionValue) : bool := bool_decide (length self = 0).

Section Distribution.
Context `{FloatOrd}.

(** [values.entry(value).and_modify(|c| *c += count).or_insert(count)] with the
    new count. *)
Fixpoint entry_add (values : list (f64 * Count)) (value : f64) (count : Count)
  : list (f64 * Count) * Count :=
  match values with
  | [] => ([(value, count)], count)
  | (v, c) :: rest =>
      if bool_decide (v = value) then ((v, u32_add c count) :: rest, u32_add c count)
      else if float_lt value v then ((value, count) :: values, count)
      else let '(rest, n) := entry_add rest value count in ((v, c) :: rest, n)
  end.

Definition insert_multi (self : DistributionValue) (value : f64) (count : Count)
  : DistributionValue * Count :=
  let length := u32_add (length self) count in
  if bool_decide (count = 0) then (MkDistributionValue (values self) length, 0)
  else
    let '(values, n) := entry_add (values self) value count in
    (MkDistributionValue values length, n).

Definition insert (self : DistributionValue) (value : f64) : DistributionValue * Count :=
  insert_multi self value 1.

Fixpoint lookup_count (values : list (f64 * Count)) (value : f64) : option Count :=
  match values with
  | [] => None
  | (v, c) :: rest => if bool_decide (v = value) then Some c else lookup_count rest value
  end.

Definition contains (self : DistributionValue) (value : f64) : bool :=
  bool_decide (is_Some (lookup_count (values self) value)).

Definition get (self : DistributionValue) (value : f64) : Count :=
  default 0 (lookup_count (values self) value).

Definition iter (self : DistributionValue) : list (f64 * Count) := values self.

(** [Extend<f64>] and [Extend<(f64, Count)>]. *)
Definition extend_values (self : DistributionValue) (iter : list f64) : DistributionValue :=
  fold_left (fun d value => (insert d value).1) iter self.
Definition extend (self : DistributionValue) (iter : list (f64 * Count)) : DistributionValue :=
  fold_left (fun d entry => (insert_multi d entry.1 entry.2).1) iter self.

End Distribution.

(** [DistributionValuesIter]. *)
Record ValuesIter := MkValuesIter {
  inner : list (f64 * Count);
  current : f64;
  remaining : Count;
  total : Count;
}.

Definition iter_values (self : DistributionValue) : ValuesIter :=
  MkValuesIter (values self) f64_zero 0 (length self).

Definition next (self : ValuesIter) : option f64 * ValuesIter :=
  if bool_decide (0 < remaining self) then
    (Some (current self),
     MkValuesIter (inner self) (current self) (u32_sub (remaining self) 1) (u32_sub (total self) 1))
  else
    match inner self with
    | [] => (None, self)
    | (value, count) :: inner =>
        (Some value, MkValuesIter inner value (u32_sub count 1) (u32_sub (total self) 1))
    end.

(** Consuming the iterator, at most [fuel] values. *)
Fixpoint collect (fuel : nat) (self : ValuesIter) : list f64 * ValuesIter :=
  match fuel with
  | O => ([], self)
  | S fuel =>
      match next self with
      | (None, self) => ([], self)
      | (Some v, self) => let '(vs, self) := collect fuel self in (v :: vs, self)
      end
  end.

End DistributionValue.
Notation DistributionValue := DistributionValue.DistributionValue.

(** ** Bucket values *)

Module BucketValue.

Inductive BucketValue :=
| Counter (value : f64)
| Distribution (values : DistributionValue)
| Set_ (values : gset Z)
| Gauge (value : GaugeValue).

Definition ty (self : BucketValue) : MetricType :=
  match self with
  | Counter _ => MetricType.Counter
  | Distribution _ => MetricType.Distribution
  | Set_ _ => MetricType.Set_
  | Gauge _ => MetricType.Gauge
  end.

End BucketValue.
Notation BucketValue := BucketValue.BucketValue.

Inductive AggregateMetricsError := MkAggregateMetricsError.

(** The trait [MergeValue]: [Into<BucketValue>] and [merge_into]. *)
Class MergeValue (T : Type) := {
  into : T -> BucketValue;
  merge_into : T -> BucketValue -> result AggregateMetricsError BucketValue;
}.

Section Merge.
Context `{FloatOrd}.

Definition bucket_from (value : MetricValue) : BucketValue :=
  match value with
  | MetricValue.Counter value => BucketValue.Counter value
  | MetricValue.Distribution value =>
      BucketValue.Distribution (DistributionValue.insert DistributionValue.new value).1
  | MetricValue.Set_ value => BucketValue.Set_ {[value]}
  | MetricValue.Gauge value => BucketValue.Gauge (GaugeValue.single value)
  end.

Definition bucket_merge_into (self bucket_value : BucketValue)
  : result AggregateMetricsError BucketValue :=
  match bucket_value, self with
  | BucketValue.Counter lhs, BucketValue.Counter rhs => Ok (BucketValue.Counter (f64_add lhs rhs))
  | BucketValue.Distribution lhs, BucketValue.Distribution rhs =>
      Ok (BucketValue.Distribution (DistributionValue.extend lhs (DistributionValue.iter rhs)))
  | BucketValue.Set_ lhs, BucketValue.Set_ rhs => Ok (BucketValue.Set_ (lhs ∪ rhs))
  | BucketValue.Gauge lhs, BucketValue.Gauge rhs => Ok (BucketValue.Gauge (GaugeValue.merge lhs rhs))
  | _, _ => Err MkAggregateMetricsError
  end.

Definition metric_merge_into (self : MetricValue) (bucket_value : BucketValue)
  : result AggregateMetricsError BucketValue :=
  match bucket_value, self with
  | BucketValue.Counter counter, MetricValue.Counter value =>
      Ok (BucketValue.Counter (f64_add counter value))
  | BucketValue.Distribution distribution, MetricValue.Distribution value =>
      Ok (BucketValue.Distribution (DistributionValue.insert distribution value).1)
  | BucketValue.Set_ set, MetricValue.Set_ value => Ok (BucketValue.Set_ ({[value]} ∪ set))
  | BucketValue.Gauge gauge, MetricValue.Gauge value =>
      Ok (BucketValue.Gauge (GaugeValue.insert gauge value))
  | _, _ => Err MkAggregateMetricsError
  end.

#[global] Instance merge_bucket_value : MergeValue BucketValue :=
  {| into b := b; merge_into := bucket_merge_into |}.
#[global] Instance merge_metric_value : MergeValue MetricValue :=
  {| into := bucket_from; merge_into := metric_merge_into |}.

End Merge.

(** ** Reference definitions *)

Section DistributionSpec.
Context `{FloatOrd}.
Import DistributionValue.

Definition total_count (values : list (f64 * Count)) : Z := foldr (fun e n => e.2 + n) 0 values.

(** Entries in ascending order, positive counts, and their sum as length. *)
Definition dist_wf (d : DistributionValue) : Prop :=
  StronglySorted (fun a b => float_lt a.1 b.1 = true) (values d) /\
  Forall (fun e => 0 < e.2) (values d) /\
  length d = total_count (values d) /\ length d < 2 ^ 32.

(** All values with their multiplicity, ascending. *)
Fixpoint expand (values : list (f64 * Count)) : list f64 :=
  match values with [] => [] | (v, c) :: rest => replicate (Z.to_nat c) v ++ expand rest end.

(** ** Lemmas on distributions *)

Lemma total_count_nonneg l : Forall (fun e => 0 < e.2) l -> 0 <= total_count l.
Proof. induction 1; simpl; lia. Qed.

Lemma lookup_count_bound l v c :
  Forall (fun e => 0 < e.2) l -> lookup_count l v = Some c -> 0 < c <= total_count l.
Proof.
  induction 1 as [|[w d] l Hd Hl IH]; simpl; [done|]. simpl in Hd.
  pose proof (total_count_nonneg l Hl). case_bool_decide; [intros [= <-]; lia|].
  intros Hlk. specialize (IH Hlk). lia.
Qed.

Context `{!FloatOrdLaws}.

Lemma lookup_count_below l v :
  Forall (fun e => float_lt v e.1 = true) l -> lookup_count l v = None.
Proof.
  induction 1 as [|[w d] l Hw Hl IH]; simpl; [done|]. simpl in Hw.
  rewrite bool_decide_false; [done|]. intros ->. by rewrite float_lt_irrefl in Hw.
Qed.

Lemma entry_add_spec l v count :
  StronglySorted (fun a b => float_lt a.1 b.1 = true) l ->
  Forall (fun e => 0 < e.2) l -> 0 < count -> total_count l + count < 2 ^ 32 ->
  let '(l', n) := entry_add l v count in
  StronglySorted (fun a b => float_lt a.1 b.1 = true) l' /\
  Forall (fun e => 0 < e.2) l' /\
  total_count l' = total_count l + count /\
  n = default 0 (lookup_count l v) + count /\
  lookup_count l' v = Some n /\
  (forall w, w <> v -> lookup_count l' w = lookup_count l w) /\
  (forall w, float_lt w v = true -> Forall (fun e => float_lt w e.1 = true) l ->
     Forall (fun e => float_lt w e.1 = true) l').
Proof.
  intros Hs Hp Hc Hb. induction Hs as [|[w d] l Hs IH Hall]; simpl in *.
  - split_and!; [by repeat constructor|by repeat constructor|lia|lia|by rewrite bool_decide_true| |].
    + intros w Hw. by rewrite bool_decide_false by congruence.
    + intros w Hw _. by repeat constructor.
  - apply Forall_cons in Hp as [Hd Hp]. simpl in Hd. pose proof (total_count_nonneg l Hp) as Hn.
    destruct (decide (w = v)) as [->|Hne].
    + rewrite !(bool_decide_true (v = v)) by done.
      rewrite u32_add_small by (unfold in_width; lia). simpl.
      split_and!; [by constructor|constructor; [simpl; lia|done]|lia|lia|by rewrite bool_decide_true| |].
      * intros x Hx. by rewrite !bool_decide_false by congruence.
      * intros x Hx Hf. apply Forall_cons in Hf as [? ?]. by constructor.
    + rewrite !(bool_decide_false (w = v)) by done.
      destruct (float_lt v w) eqn:Hlt.
      * assert (Forall (fun e => float_lt v e.1 = true) l) as Hv.
        { eapply Forall_impl; [exact Hall|]. intros e He. by eapply float_lt_trans. }
        rewrite lookup_count_below by done. simpl.
        split_and!; [by repeat constructor|by repeat constructor|lia|lia|by rewrite bool_decide_true| |].
        -- intros x Hx. by rewrite (bool_decide_false (v = x)) by congruence.
        -- intros x Hx Hf. by constructor.
      * assert (float_lt w v = true) as Hwv.
        { destruct (float_lt_total w v) as [?|[?|?]]; congruence. }
        specialize (IH Hp ltac:(lia)).
        destruct (entry_add l v count) as [l' n]. destruct IH as (H1 & H2 & H3 & H4 & H5 & H6 & H7). simpl.
        rewrite (bool_decide_false (w = v)) by done.
        split_and!; [constructor; auto|by constructor|lia|done|done| |].
        -- intros x Hx. case_bool_decide; [done|]. by apply H6.
        -- intros x Hx Hf. apply Forall_cons in Hf as [? ?]. constructor; auto.
Qed.

Lemma insert_multi_spec d v count :
  dist_wf d -> 0 <= count -> length d + count < 2 ^ 32 ->
  let '(d', n) := insert_multi d v count in
  dist_wf d' /\ length d' = length d + count /\ get d' v = get d v + count /\
  (forall w, w <> v -> get d' w = get d w) /\
  n = (if bool_decide (count = 0) then 0 else get d v + count).
Proof.
  intros (Hs & Hp & Hl & Hb) Hc Hlc. unfold insert_multi.
  pose proof (total_count_nonneg _ Hp) as Hn.
  rewrite u32_add_small by (unfold in_width; lia).
  destruct (decide (count = 0)) as [->|Hne].
  - rewrite !bool_decide_true by done. unfold dist_wf, get. simpl. rewrite !Z.add_0_r. done.
  - rewrite !bool_decide_false by done.
    pose proof (entry_add_spec (values d) v count Hs Hp ltac:(lia) ltac:(lia)) as He.
    destruct (entry_add (values d) v count) as [l' n]. destruct He as (H1 & H2 & H3 & H4 & H5 & H6 & _).
    unfold dist_wf, get. simpl. rewrite H5. simpl. split_and!; try done; try lia.
    intros w Hw. by rewrite H6.
Qed.

Lemma extend_spec entries d :
  dist_wf d -> Forall (fun e => 0 < e.2) entries -> length d + total_count entries < 2 ^ 32 ->
  dist_wf (extend d entries) /\
  length (extend d entries) = length d + total_count entries /\
  forall v, get (extend d entries) v =
            get d v + foldr (fun e n => (if bool_decide (e.1 = v) then e.2 else 0) + n) 0 entries.
Proof.
  intros Hd Hp. revert d Hd. induction Hp as [|[w c] es Hc Hp IH]; intros d Hd Hb; simpl in *.
  - split_and!; [done|lia|intros; lia].
  - pose proof (total_count_nonneg es Hp) as Hn.
    pose proof (insert_multi_spec d w c Hd ltac:(lia) ltac:(lia)) as Hi.
    unfold extend in *. simpl. destruct (insert_multi d w c) as [d' n]. simpl.
    destruct Hi as (Hd' & Hl & Hg & Ho & _).
    destruct (IH d' Hd' ltac:(lia)) as (H1 & H2 & H3). split_and!; [done|lia|].
    intros v. rewrite H3. case_bool_decide as Hv; [subst; lia|]. rewrite Ho by congruence. lia.
Qed.

Lemma sum_lookup l v :
  StronglySorted (fun a b => float_lt a.1 b.1 = true) l ->
  foldr (fun e n => (if bool_decide (e.1 = v) then e.2 else 0) + n) 0 l = default 0 (lookup_count l v).
Proof.
  induction 1 as [|[w c] l Hs IH Hall]; simpl; [done|]. rewrite IH. case_bool_decide as Hw; [|simpl; lia].
  subst. rewrite lookup_count_below by done. simpl. lia.
Qed.

End DistributionSpec.

(** ** Iterating over a distribution *)

Lemma collect_remaining fuel inner current remaining total :
  (0 <= remaining) -> remaining <= total < 2 ^ 32 -> total = remaining + total_count inner ->
  Forall (fun e => 0 < e.2) inner -> (Z.to_nat total < fuel)%nat ->
  let '(vs, it) := DistributionValue.collect fuel (DistributionValue.MkValuesIter inner current remaining total) in
  vs = replicate (Z.to_nat remaining) current ++ expand inner /\
  DistributionValue.total it = 0 /\ DistributionValue.next it = (None, it).
Proof.
  revert inner current remaining total. induction fuel as [|fuel IH]; intros inner current remaining total Hr Ht Hs Hp Hf; [lia|].
  simpl. unfold DistributionValue.next at 1. simpl. destruct (decide (0 < remaining)) as [Hpos|Hz].
  - rewrite bool_decide_true by done. rewrite !u32_sub_small by (unfold in_width; lia).
    specialize (IH inner current (remaining - 1) (total - 1)
      ltac:(lia) ltac:(lia) ltac:(lia) Hp ltac:(lia)).
    destruct (DistributionValue.collect fuel _) as [vs it]. destruct IH as (-> & ? & ?).
    split; [|done]. replace (Z.to_nat remaining) with (S (Z.to_nat (remaining - 1))) by lia. done.
  - rewrite bool_decide_false by done. assert (remaining = 0) as -> by lia. simpl.
    destruct inner as [|[v c] inner].
    + simpl in Hs. split; [done|]. split; [simpl; lia|]. unfold DistributionValue.next. simpl.
      done.
    + apply Forall_cons in Hp as [Hc Hp]. simpl in Hc, Hs. pose proof (total_count_nonneg inner Hp).
      rewrite !u32_sub_small by (unfold in_width; lia).
      specialize (IH inner v (c - 1) (total - 1) ltac:(lia) ltac:(lia) ltac:(lia) Hp ltac:(lia)).
      destruct (DistributionValue.collect fuel _) as [vs it]. destruct IH as (-> & ? & ?).
      split; [|done]. simpl. replace (Z.to_nat c) with (S (Z.to_nat (c - 1))) by lia. done.
Qed.

(** ** Properties *)

(** A distribution is a multiset of floats: inserting a value [count] times
    raises its count by [count] and no other, merging adds the counts of both
    sides, and the value iterator yields every value as often as it was inserted,
    in ascending order, and then ends with a size hint of 0; all of this as long as
    the 32-bit length does not overflow. *)
Theorem distribution_is_multiset `{FloatOrdLaws} d other v count
    (Hd : dist_wf d) (Ho : dist_wf other) (Hc : 0 < count)
    (Hb : DistributionValue.length d + count < 2 ^ 32)
    (Hm : DistributionValue.length d + DistributionValue.length other < 2 ^ 32) :
  (let '(d', n) := DistributionValue.insert_multi d v count in
   dist_wf d' /\ n = DistributionValue.get d v + count /\
   forall w, DistributionValue.get d' w =
             DistributionValue.get d w + (if bool_decide (w = v) then count else 0)) /\
  (let d' := DistributionValue.extend d (DistributionValue.iter other) in
   dist_wf d' /\
   forall w, DistributionValue.get d' w = DistributionValue.get d w + DistributionValue.get other w) /\
  (let '(vs, it) := DistributionValue.collect (S (Z.to_nat (DistributionValue.length d)))
                      (DistributionValue.iter_values d) in
   vs = expand (DistributionValue.values d) /\ DistributionValue.total it = 0 /\
   DistributionValue.next it = (None, it)).
Proof.
  split_and!.
  - pose proof (insert_multi_spec d v count Hd ltac:(lia) Hb) as Hi.
    destruct (DistributionValue.insert_multi d v count) as [d' n].
    destruct Hi as (H1 & _ & H2 & H3 & H4). rewrite bool_decide_false in H4 by lia.
    split_and!; [done|done|]. intros w. case_bool_decide; [by subst|]. rewrite H3 by done. lia.
  - destruct Ho as (Hos & Hop & Hol & _). unfold DistributionValue.iter.
    destruct (extend_spec (DistributionValue.values other) d Hd Hop ltac:(lia)) as (H1 & _ & H3).
    split; [done|]. intros w. by rewrite H3, sum_lookup.
  - destruct Hd as (_ & Hp & Hl & Hlt). pose proof (total_count_nonneg _ Hp).
    pose proof (collect_remaining (S (Z.to_nat (DistributionValue.length d))) (DistributionValue.values d)
      f64_zero 0 (DistributionValue.length d) ltac:(lia) ltac:(lia) ltac:(lia) Hp ltac:(lia)) as Hcol.
    unfold DistributionValue.iter_values. by destruct (DistributionValue.collect _ _).
Qed.

(** Inserting a metric into a bucket and merging the bucket made of that
    metric alone are the same: both succeed exactly when the types agree and give
    the same bucket value, so Relays can pre-aggregate without changing results. *)
Theorem insert_is_merge_of_singleton `{FloatOrd} (m : MetricValue) (b : BucketValue) :
  merge_into m b = merge_into (bucket_from m) b /\
  BucketValue.ty (bucket_from m) = MetricValue.ty m /\
  match merge_into m b with
  | Ok b' => MetricValue.ty m = BucketValue.ty b /\ BucketValue.ty b' = BucketValue.ty b
  | Err _ => MetricValue.ty m <> BucketValue.ty b
  end.
Proof.
  split_and!; [| by destruct m | by destruct m, b].
  destruct m, b; try done. simpl. do 2 f_equal. apply union_comm_L.
Qed.

(** ** Concrete instances *)

(** The order of the bit patterns: class, exponent and mantissa, reversed for
    negative floats. *)
Definition float_code (x : f64) : Z * Z * Z :=
  match x with
  | S754_infinity true => (-3, 0, 0)
  | S754_finite true m e => (-2, - e, - Zpos m)
  | S754_zero true => (-1, 0, 0)
  | S754_zero false => (0, 0, 0)
  | S754_finite false m e => (1, e, Zpos m)
  | S754_infinity false => (2, 0, 0)
  | S754_nan => (3, 0, 0)
  end.

Definition code_lt (a b : Z * Z * Z) : bool :=
  bool_decide (a.1.1 < b.1.1)
  || bool_decide (a.1.1 = b.1.1)
     && (bool_decide (a.1.2 < b.1.2) || bool_decide (a.1.2 = b.1.2) && bool_decide (a.2 < b.2)).

Definition bits_order : FloatOrd := {| float_lt x y := code_lt (float_code x) (float_code y) |}.

Lemma code_lt_spec a b :
  code_lt a b = true <->
  a.1.1 < b.1.1 \/ a.1.1 = b.1.1 /\ (a.1.2 < b.1.2 \/ a.1.2 = b.1.2 /\ a.2 < b.2).
Proof. unfold code_lt. by rewrite !orb_true_iff, !andb_true_iff, orb_true_iff, andb_true_iff, !bool_decide_eq_true. Qed.

Lemma float_code_inj x y : float_code x = float_code y -> x = y.
Proof. destruct x as [[]|[]| |[] ? ?], y as [[]|[]| |[] ? ?]; simpl; intros [=]; subst; try done; f_equal; lia. Qed.

Lemma bits_order_laws : @FloatOrdLaws bits_order.
Proof.
  split; simpl.
  - intros x. destruct (code_lt _ _) eqn:H; [|done]. apply code_lt_spec in H. lia.
  - intros x y z. rewrite !code_lt_spec. lia.
  - intros x y. rewrite !code_lt_spec.
    destruct (decide (float_code x = float_code y)) as [He|He]; [left; by apply float_code_inj|right].
    destruct (float_code x) as [[a b] c], (float_code y) as [[a' b'] c']. simpl in *.
    assert (a <> a' \/ b <> b' \/ c <> c') by (destruct (decide (a = a')), (decide (b = b')), (decide (c = c')); subst; auto; done).
    lia.
Qed.

Definition sample_dist : DistributionValue :=
  DistributionValue.MkDistributionValue [(f64_of_Z 1, 2); (f64_of_Z 3, 1)] 3.

Lemma sample_dist_wf : @dist_wf bits_order sample_dist.
Proof. repeat split; repeat constructor; simpl; lia. Qed.

Lemma distribution_is_multiset_witness :
  @DistributionValue.get
    (@DistributionValue.extend bits_order sample_dist (DistributionValue.iter sample_dist)) (f64_of_Z 1) = 4.
Proof.
  destruct (@distribution_is_multiset bits_order bits_order_laws sample_dist sample_dist (f64_of_Z 2) 1
    sample_dist_wf sample_dist_wf ltac:(lia) ltac:(simpl; lia) ltac:(simpl; lia)) as (_ & (_ & Hg) & _).
  rewrite Hg. reflexivity.
Defined.
