(* ===== verification/Aggregator.v ===== *)
(** * relay-metrics: the aggregator (aggregation.rs, second part)

    The actor that collects metrics into buckets and flushes them.  Its flush
    queue is a [BinaryHeap]: the class [PriorityQueue] states what the aggregator
    relies on, a sorted list implements it.  Readings of the clocks are inputs. *)

From Stdlib Require Import Ascii String SpecFloat.
From S2P Require Import Prelude Strings Floats Common MetricProtocol Aggregation.

Open Scope string_scope.
Open Scope Z_scope.
Open Scope list_scope.

(** ** Keys and buckets *)

Module BucketKey.

Record BucketKey := MkBucketKey {
  timestamp : UnixTimestamp;
  metric_name : string;
  metric_type : MetricType;
  metric_unit : MetricUnit;
  tags : gmap string string;
}.

Definition type_code (t : MetricType) : nat :=
  match t with
  | MetricType.Counter => 0 | MetricType.Distribution => 1 | MetricType.Set_ => 2 | MetricType.Gauge => 3
  end.
Definition type_of_code (n : nat) : MetricType :=
  match n with 0%nat => MetricType.Counter | 1%nat => MetricType.Distribution | 2%nat => MetricType.Set_ | _ => MetricType.Gauge end.
Definition unit_code (u : MetricUnit) : nat :=
  match u with
  | MetricUnit.Duration NanoSecond => 0 | MetricUnit.Duration MilliSecond => 1
  | MetricUnit.Duration Second => 2 | MetricUnit.None_ => 3
  end.
Definition unit_of_code (n : nat) : MetricUnit :=
  match n with
  | 0%nat => MetricUnit.Duration NanoSecond | 1%nat => MetricUnit.Duration MilliSecond
  | 2%nat => MetricUnit.Duration Second | _ => MetricUnit.None_
  end.

Definition encode_key (k : BucketKey) : Z * string * nat * nat * gmap string string :=
  (timestamp k, metric_name k, type_code (metric_type k), unit_code (metric_unit k), tags k).
Definition decode_key (p : Z * string * nat * nat * gmap string string) : BucketKey :=
  let '(ts, n, t, u, tg) := p in MkBucketKey ts n (type_of_code t) (unit_of_code u) tg.

Lemma decode_encode k : decode_key (encode_key k) = k.
Proof. by destruct k as [ts n [] [[]|] tg]. Qed.

#[global] Instance BucketKey_eq_dec : EqDecision BucketKey.
Proof.
  intros a b. destruct (decide (encode_key a = encode_key b)) as [H|H].
  - left. rewrite <- (decode_encode a), <- (decode_encode b). by rewrite H.
  - right. by intros ->.
Defined.

#[global] Instance BucketKey_countable : Countable BucketKey :=
  inj_countable' encode_key decode_key decode_encode.

End BucketKey.
Notation BucketKey := BucketKey.BucketKey.

Module Bucket.

Record Bucket := MkBucket {
  timestamp : UnixTimestamp;
  name : string;
  unit_ : MetricUnit;
  value : BucketValue;
  tags : gmap string string;
}.

Definition from_parts (key : BucketKey) (value : BucketValue) : Bucket :=
  {| timestamp := BucketKey.timestamp key;
     name := BucketKey.metric_name key;
     unit_ := BucketKey.metric_unit key;
     value := value;
     tags := BucketKey.tags key |}.

End Bucket.
Notation Bucket := Bucket.Bucket.

(** ** Configuration and flush times *)

Module AggregatorConfig.

Record AggregatorConfig := MkAggregatorConfig {
  bucket_interval : Z;
  initial_delay : Z;
  debounce_delay : Z;
}.

Definition default_ : AggregatorConfig := MkAggregatorConfig 10 30 10.

(** The readings of [Instant::now()] and [SystemTime::now()] in the order they
    are taken. *)
Record Clock := MkClock { now : Instant; sys_now : SystemTime; inst_now : Instant }.

Definition get_flush_time (clock : Clock) (self : AggregatorConfig) (bucket_timestamp : UnixTimestamp)
  : outcome Instant :=
  let debounced := instant_add (now clock) (duration_from_secs (debounce_delay self)) in
  match UnixTimestamp.to_instant (sys_now clock) (inst_now clock) bucket_timestamp with
  | Instant_ instant =>
      bucket_end ← instant_add instant (duration_from_secs (bucket_interval self));
      initial_flush ← instant_add bucket_end (duration_from_secs (initial_delay self));
      if bool_decide (now clock < initial_flush) then Ret initial_flush else debounced
  | _ => debounced
  end.

End AggregatorConfig.
Notation AggregatorConfig := AggregatorConfig.AggregatorConfig.
Import AggregatorConfig (Clock).

(** ** The flush queue *)

Record QueuedBucket := MkQueuedBucket { flush_at : Instant; key : BucketKey }.

Definition elapsed (now : Instant) (self : QueuedBucket) : bool := bool_decide (flush_at self < now).

(** [BinaryHeap] with the inverted order of [QueuedBucket]. *)
Class PriorityQueue (Q : Type) := {
  q_new : Q;
  q_push : Q -> QueuedBucket -> Q;
  q_pop : Q -> option (QueuedBucket * Q);
  (** the elements, in no particular order *)
  q_elems : Q -> list QueuedBucket;
}.

(** [BinaryHeap::peek]: the element that [pop] would return. *)
Definition q_peek {Q} `{PriorityQueue Q} (q : Q) : option QueuedBucket := fst <$> q_pop q.

Class PriorityQueueLaws (Q : Type) `{PriorityQueue Q} : Prop := {
  elems_new : q_elems q_new = [];
  elems_push q x : q_elems (q_push q x) ≡ₚ x :: q_elems q;
  pop_none q : q_pop q = None -> q_elems q = [];
  pop_some q x q' : q_pop q = Some (x, q') ->
    q_elems q ≡ₚ x :: q_elems q' /\ Forall (fun y => flush_at x <= flush_at y) (q_elems q');
}.

(** ** The aggregator *)

Section Aggregator.
Context `{FloatOrd} {Q : Type} `{PriorityQueue Q}.

(** The recipient of flushed buckets is an actor of its own. *)
Record Aggregator := MkAggregator {
  project_key : ProjectKey;
  config : AggregatorConfig;
  buckets : gmap BucketKey BucketValue;
  queue : Q;
}.

Definition new (project_key : ProjectKey) (config : AggregatorConfig) : Aggregator :=
  MkAggregator project_key config ∅ q_new.

(** Integer division: an interval of 0 panics. *)
Definition get_bucket_timestamp (self : Aggregator) (timestamp : UnixTimestamp)
  : outcome UnixTimestamp :=
  let interval := AggregatorConfig.bucket_interval (config self) in
  quotient ← checked_div (UnixTimestamp.as_secs timestamp) interval;
  Ret (UnixTimestamp.from_secs (u64_mul quotient interval)).

Definition merge_in {T} `{MergeValue T} (clock : Clock) (self : Aggregator) (key : BucketKey) (value : T)
  : outcome (Aggregator * result AggregateMetricsError ()) :=
  let timestamp := BucketKey.timestamp key in
  match buckets self !! key with
  | Some entry =>
      match merge_into value entry with
      | Ok entry =>
          Ret (MkAggregator (project_key self) (config self) (<[key := entry]> (buckets self)) (queue self), Ok ())
      | Err e => Ret (self, Err e)
      end
  | None =>
      flush_at ← AggregatorConfig.get_flush_time clock (config self) timestamp;
      Ret (MkAggregator (project_key self) (config self) (<[key := into value]> (buckets self))
             (q_push (queue self) (MkQueuedBucket flush_at key)), Ok ())
  end.

Definition insert (clock : Clock) (self : Aggregator) (metric : Metric)
  : outcome (Aggregator * result AggregateMetricsError ()) :=
  timestamp ← get_bucket_timestamp self (MetricProtocol.timestamp metric);
  let key := {| BucketKey.timestamp := timestamp;
                BucketKey.metric_name := name metric;
                BucketKey.metric_type := MetricValue.ty (value metric);
                BucketKey.metric_unit := unit_ metric;
                BucketKey.tags := tags metric |} in
  merge_in clock self key (value metric).

Definition bucket_key (bucket : Bucket) : BucketKey :=
  {| BucketKey.timestamp := Bucket.timestamp bucket;
     BucketKey.metric_name := Bucket.name bucket;
     BucketKey.metric_type := BucketValue.ty (Bucket.value bucket);
     BucketKey.metric_unit := Bucket.unit_ bucket;
     BucketKey.tags := Bucket.tags bucket |}.

Definition merge (clock : Clock) (self : Aggregator) (bucket : Bucket)
  : outcome (Aggregator * result AggregateMetricsError ()) :=
  merge_in clock self (bucket_key bucket) (Bucket.value bucket).

(** The loops of [merge_all] and of the handlers: the first error returns.
    Each step reads the clocks anew. *)
Fixpoint merge_all (clocks : nat -> Clock) (self : Aggregator) (buckets : list Bucket)
  : outcome (Aggregator * result AggregateMetricsError ()) :=
  match buckets with
  | [] => Ret (self, Ok ())
  | bucket :: rest =>
      '(self, r) ← merge (clocks 0%nat) self bucket;
      match r with
      | Err e => Ret (self, Err e)
      | Ok _ => merge_all (fun n => clocks (S n)) self rest
      end
  end.

Fixpoint handle_insert_metrics (clocks : nat -> Clock) (self : Aggregator) (metrics : list Metric)
  : outcome (Aggregator * result AggregateMetricsError ()) :=
  match metrics with
  | [] => Ret (self, Ok ())
  | metric :: rest =>
      '(self, r) ← insert (clocks 0%nat) self metric;
      match r with
      | Err e => Ret (self, Err e)
      | Ok _ => handle_insert_metrics (fun n => clocks (S n)) self rest
      end
  end.

Definition handle_merge_buckets (clocks : nat -> Clock) (self : Aggregator) (buckets : list Bucket)
  : outcome (Aggregator * result AggregateMetricsError ()) := merge_all clocks self buckets.

(** The loop of [try_flush].  [nows n] is the reading of the clock in the n-th
    round; running out of [fuel] counts as a panic. *)
Fixpoint flush_loop (fuel : nat) (nows : nat -> Instant) (self : Aggregator) (flushed : list Bucket)
  : outcome (Aggregator * list Bucket) :=
  match fuel with
  | O => Panic
  | S fuel =>
      match q_peek (queue self) with
      | Some flush =>
          if elapsed (nows 0%nat) flush then
            '(flush, queue) ← unwrap (q_pop (queue self));
            value ← unwrap (buckets self !! key flush);
            flush_loop fuel (fun n => nows (S n))
              (MkAggregator (project_key self) (config self) (delete (key flush) (buckets self)) queue)
              (flushed ++ [Bucket.from_parts (key flush) value])
          else Ret (self, flushed)
      | None => Ret (self, flushed)
      end
  end.

(** The buckets returned are those sent to the receiver, if any. *)
Definition try_flush (nows : nat -> Instant) (self : Aggregator) : outcome (Aggregator * list Bucket) :=
  flush_loop (S (length (q_elems (queue self)))) nows self [].

(** ** Reachable states

    The second component holds the messages that were sent to the receiver and not
    answered yet; the receiver may answer in any order and at any time, with other
    messages handled in between, and may return any buckets. *)
Inductive step : Aggregator * list (list Bucket) -> Aggregator * list (list Bucket) -> Prop :=
| step_insert clocks ms self self' r fl :
    handle_insert_metrics clocks self ms = Ret (self', r) -> step (self, fl) (self', fl)
| step_merge clocks bs self self' r fl :
    handle_merge_buckets clocks self bs = Ret (self', r) -> step (self, fl) (self', fl)
| step_flush nows self self' bs fl :
    try_flush nows self = Ret (self', bs) ->
    step (self, fl) (self', match bs with [] => fl | _ => bs :: fl end)
| step_consumed self fl1 bs fl2 : step (self, fl1 ++ bs :: fl2) (self, fl1 ++ fl2)
| step_returned clocks self self' r fl1 bs returned fl2 :
    merge_all clocks self returned = Ret (self', r) -> step (self, fl1 ++ bs :: fl2) (self', fl1 ++ fl2).

Inductive reachable (project_key : ProjectKey) (config : AggregatorConfig)
  : Aggregator * list (list Bucket) -> Prop :=
| reachable_init : reachable project_key config (new project_key config, [])
| reachable_step s s' : reachable project_key config s -> step s s' -> reachable project_key config s'.

(** The queue holds every bucket exactly once, and every bucket has the type of
    its key. *)
Definition agg_wf (self : Aggregator) : Prop :=
  key <$> q_elems (queue self) ≡ₚ (map_to_list (buckets self)).*1 /\
  map_Forall (fun k v => BucketValue.ty v = BucketKey.metric_type k) (buckets self).

End Aggregator.

(** ** The interface of mergeable values *)

(** What the aggregator needs from [MergeValue]: merging keeps the type of the
    bucket and succeeds when the types agree. *)
Class MergeLaws (T : Type) `{MergeValue T} := {
  value_ty : T -> MetricType;
  into_ty v : BucketValue.ty (into v) = value_ty v;
  merge_ok v b : value_ty v = BucketValue.ty b ->
    exists b', merge_into v b = Ok b' /\ BucketValue.ty b' = BucketValue.ty b;
}.

#[global] Instance metric_merge_laws `{FloatOrd} : MergeLaws MetricValue.
Proof.
  refine {| value_ty := MetricValue.ty |}; [by intros []|].
  intros v b Hty. destruct v, b; try done; by eexists.
Defined.

#[global] Instance bucket_merge_laws `{FloatOrd} : MergeLaws BucketValue.
Proof.
  refine {| value_ty := BucketValue.ty |}; [done|].
  intros v b Hty. destruct v, b; try done; by eexists.
Defined.

(** ** Lemmas *)

Lemma keys_insert_existing (m : gmap BucketKey BucketValue) k v v' :
  m !! k = Some v -> (map_to_list (<[k := v']> m)).*1 ≡ₚ (map_to_list m).*1.
Proof.
  intros Hk. rewrite <- insert_delete_eq, map_to_list_insert by apply lookup_delete_eq.
  rewrite <- (map_to_list_delete m k v Hk). done.
Qed.

Section AggregatorLemmas.
Context `{FloatOrd} {Q : Type} `{PriorityQueueLaws Q}.

Lemma agg_wf_new pk cfg : agg_wf (new (Q := Q) pk cfg).
Proof.
  split; simpl; [|apply map_Forall_empty]. rewrite elems_new, map_to_list_empty. done.
Qed.

Lemma merge_in_wf {T} `{MergeLaws T} clock (self : Aggregator (Q := Q)) k (v : T) self' r :
  agg_wf self -> value_ty v = BucketKey.metric_type k ->
  merge_in clock self k v = Ret (self', r) ->
  agg_wf self' /\ r = Ok ().
Proof.
  intros [Hq Hty] Hv. unfold merge_in. destruct (buckets self !! k) as [b|] eqn:Hk.
  - destruct (merge_ok v b) as (b' & -> & Hb'). { by rewrite Hv, (Hty k b Hk). }
    intros [= <- <-]. split; [|done]. split; simpl.
    + by rewrite Hq, (keys_insert_existing _ _ _ _ Hk).
    + apply map_Forall_insert_2; [|done]. by rewrite Hb', (Hty k b Hk).
  - intros (t & _ & [= <- <-])%outcome_bind_Ret. split; [|done]. split; simpl.
    + rewrite elems_push, fmap_cons, map_to_list_insert by done. simpl. by rewrite Hq.
    + apply map_Forall_insert_2; [|done]. by rewrite into_ty.
Qed.

Lemma insert_wf clock (self : Aggregator (Q := Q)) m self' r :
  agg_wf self -> insert clock self m = Ret (self', r) -> agg_wf self' /\ r = Ok ().
Proof.
  intros Hwf (t & _ & Hm)%outcome_bind_Ret. by apply (merge_in_wf clock) in Hm.
Qed.

Lemma merge_wf clock (self : Aggregator (Q := Q)) b self' r :
  agg_wf self -> merge clock self b = Ret (self', r) -> agg_wf self' /\ r = Ok ().
Proof. intros Hwf Hm. by apply (merge_in_wf clock) in Hm. Qed.

Lemma merge_all_wf clocks (self : Aggregator (Q := Q)) bs self' r :
  agg_wf self -> merge_all clocks self bs = Ret (self', r) -> agg_wf self' /\ r = Ok ().
Proof.
  revert clocks self. induction bs as [|b bs IH]; intros clocks self Hwf; simpl.
  - by intros [= <- <-].
  - intros ([self1 r1] & Hm & Hrest)%outcome_bind_Ret.
    destruct (merge_wf _ _ _ _ _ Hwf Hm) as (Hwf1 & ->). by eapply IH.
Qed.

Lemma handle_insert_wf clocks (self : Aggregator (Q := Q)) ms self' r :
  agg_wf self -> handle_insert_metrics clocks self ms = Ret (self', r) -> agg_wf self' /\ r = Ok ().
Proof.
  revert clocks self. induction ms as [|m ms IH]; intros clocks self Hwf; simpl.
  - by intros [= <- <-].
  - intros ([self1 r1] & Hm & Hrest)%outcome_bind_Ret.
    destruct (insert_wf _ _ _ _ _ Hwf Hm) as (Hwf1 & ->). by eapply IH.
Qed.

(** The popped buckets in order, the pairs they stand for, and what remains. *)
Definition flush_result (nows : nat -> Instant) (self self' : Aggregator (Q := Q))
    (popped : list QueuedBucket) (pairs : list (BucketKey * BucketValue)) : Prop :=
  agg_wf self' /\ project_key self' = project_key self /\ config self' = config self /\
  pairs.*1 = key <$> popped /\ StronglySorted (fun a b => flush_at a <= flush_at b) popped /\
  map_to_list (buckets self) ≡ₚ pairs ++ map_to_list (buckets self') /\
  q_elems (queue self) ≡ₚ popped ++ q_elems (queue self') /\
  Forall (fun x => exists i, (i < length popped)%nat /\ flush_at x < nows i) popped /\
  Forall (fun x => nows (length popped) <= flush_at x) (q_elems (queue self')).

Lemma flush_loop_spec fuel nows (self : Aggregator (Q := Q)) flushed :
  agg_wf self -> (length (q_elems (queue self)) < fuel)%nat ->
  exists self' popped pairs,
    flush_loop fuel nows self flushed = Ret (self', flushed ++ (uncurry Bucket.from_parts <$> pairs)) /\
    flush_result nows self self' popped pairs.
Proof.
  revert nows self flushed. induction fuel as [|fuel IH]; intros nows self flushed Hwf Hf; [lia|].
  simpl. unfold q_peek. destruct (q_pop (queue self)) as [[x q']|] eqn:Hpop; simpl.
  - destruct (pop_some _ _ _ Hpop) as [Hperm Hmin]. unfold elapsed. case_bool_decide as Hel.
    + destruct Hwf as [Hq Hty].
      assert (exists v, buckets self !! key x = Some v) as [v Hv].
      { assert (key x ∈ (map_to_list (buckets self)).*1) as Hin.
        { rewrite <- Hq, Hperm, fmap_cons. left. }
        apply list_elem_of_fmap in Hin as ([k v] & -> & Hin). exists v. by apply elem_of_map_to_list. }
      rewrite Hv. simpl.
      set (self1 := MkAggregator (project_key self) (config self) (delete (key x) (buckets self)) q').
      assert (agg_wf self1) as Hwf1.
      { split; simpl.
        - rewrite Hperm, fmap_cons, <- (map_to_list_delete _ _ _ Hv), fmap_cons in Hq.
          by apply Permutation_cons_inv in Hq.
        - by apply map_Forall_delete. }
      destruct (IH (fun n => nows (S n)) self1 (flushed ++ [Bucket.from_parts (key x) v]) Hwf1)
        as (self' & popped & pairs & -> & Hw & Hpk & Hcfg & Hkeys & Hs & Hb & Hqs & Ht & Hr).
      { rewrite Hperm in Hf. simpl in *. lia. }
      simpl in Hb, Hqs.
      exists self', (x :: popped), ((key x, v) :: pairs). split; [by rewrite <- app_assoc|].
      split_and!; try done.
      * rewrite fmap_cons. simpl. by rewrite Hkeys.
      * constructor; [done|]. rewrite Hqs in Hmin. by apply Forall_app in Hmin as [? _].
      * rewrite <- (map_to_list_delete _ _ _ Hv). simpl. by rewrite Hb.
      * rewrite Hperm. simpl. by rewrite Hqs.
      * constructor; [exists 0%nat; simpl; split; [lia|done]|]. eapply Forall_impl; [exact Ht|].
        intros y (i & Hi & Hy). exists (S i). simpl. split; [lia|done].
    + exists self, [], []. simpl. rewrite app_nil_r. split; [done|]. split_and!; try done; [constructor|].
      rewrite Hperm. simpl. constructor; [lia|]. eapply Forall_impl; [exact Hmin|]. simpl. intros y Hy. lia.
  - exists self, [], []. simpl. rewrite app_nil_r. split; [done|]. split_and!; try done; [constructor|].
    by rewrite (pop_none _ Hpop).
Qed.

Lemma bucket_key_from_parts k v : BucketValue.ty v = BucketKey.metric_type k -> bucket_key (Bucket.from_parts k v) = k.
Proof. intros Hty. unfold bucket_key. simpl. rewrite Hty. by destruct k. Qed.

Lemma merge_all_fresh clocks (self : Aggregator (Q := Q)) pairs self' r :
  Forall (fun p => BucketValue.ty p.2 = BucketKey.metric_type p.1) pairs ->
  NoDup pairs.*1 -> (forall k, k ∈ pairs.*1 -> buckets self !! k = None) ->
  merge_all clocks self (uncurry Bucket.from_parts <$> pairs) = Ret (self', r) ->
  buckets self' = list_to_map pairs ∪ buckets self.
Proof.
  intros Hty. revert clocks self. induction Hty as [|[k v] pairs Hk Hty IH]; intros clocks self Hnd Hfresh.
  - simpl. intros [= <- <-]. by rewrite (left_id_L ∅ (∪)).
  - rewrite !fmap_cons in *. apply NoDup_cons in Hnd as [Hnin Hnd].
    intros ([self1 r1] & Hm & Hrest)%outcome_bind_Ret. simpl in Hm, Hk, Hnin.
    unfold merge in Hm. rewrite bucket_key_from_parts in Hm by done. unfold merge_in in Hm.
    rewrite (Hfresh k) in Hm by left.
    apply outcome_bind_Ret in Hm as (t & _ & [= <- <-]).
    apply IH in Hrest as ->; simpl; [|done|].
    + rewrite <- insert_union_l, insert_union_r; [done|]. by apply not_elem_of_list_to_map_1.
    + intros k' Hk'. rewrite lookup_insert_ne by (intros ->; done). apply Hfresh. by right.
Qed.

Lemma try_flush_spec nows (self : Aggregator (Q := Q)) :
  agg_wf self ->
  exists self' popped pairs,
    try_flush nows self = Ret (self', uncurry Bucket.from_parts <$> pairs) /\
    flush_result nows self self' popped pairs.
Proof. intros Hwf. apply (flush_loop_spec _ nows self []); [done|lia]. Qed.

Lemma step_wf s s' : agg_wf s.1 -> step (Q := Q) s s' -> agg_wf s'.1.
Proof.
  intros Hwf Hs. destruct Hs as [| |nows self self' bs fl Hf| |]; simpl in *.
  - by eapply handle_insert_wf.
  - by eapply merge_all_wf.
  - destruct (try_flush_spec nows self Hwf) as (self1 & popped & pairs & Hf' & Hw & _).
    rewrite Hf in Hf'. injection Hf' as -> ->. done.
  - done.
  - by eapply merge_all_wf.
Qed.

Lemma reachable_wf pk cfg s : reachable (Q := Q) pk cfg s -> agg_wf s.1.
Proof. induction 1 as [|s s' Hr IH Hs]; [apply agg_wf_new|by eapply step_wf]. Qed.

(** The flushed pairs are the part of the buckets that is gone. *)
Lemma flush_result_split nows (self self' : Aggregator (Q := Q)) popped pairs :
  agg_wf self -> flush_result nows self self' popped pairs ->
  Forall (fun p => BucketValue.ty p.2 = BucketKey.metric_type p.1) pairs /\
  NoDup pairs.*1 /\ (forall k, k ∈ pairs.*1 -> buckets self' !! k = None) /\
  buckets self = list_to_map pairs ∪ buckets self'.
Proof.
  intros [_ Hty] (_ & _ & _ & _ & _ & Hb & _).
  pose proof (NoDup_fst_map_to_list (buckets self)) as Hnd. rewrite Hb, fmap_app in Hnd.
  apply NoDup_app in Hnd as (Hnd & Hdis & _). split_and!; [|done| |].
  - apply Forall_forall. intros [k v] Hin. apply (Hty k v). apply elem_of_map_to_list. rewrite Hb.
    apply elem_of_app. by left.
  - intros k Hk. destruct (buckets self' !! k) as [v|] eqn:Hl; [|done]. destruct (Hdis k Hk).
    apply list_elem_of_fmap. exists (k, v). split; [done|]. by apply elem_of_map_to_list.
  - rewrite <- (list_to_map_to_list (buckets self)), <- (list_to_map_to_list (buckets self')) at 1.
    rewrite <- list_to_map_app. apply list_to_map_proper; [|done]. apply NoDup_fst_map_to_list.
Qed.

End AggregatorLemmas.

(** ** Reference definitions *)

(** The bucket a metric belongs to. *)
Definition metric_key (interval : Z) (m : Metric) : BucketKey :=
  BucketKey.MkBucketKey (MetricProtocol.timestamp m / interval * interval) (name m)
    (MetricValue.ty (value m)) (unit_ m) (tags m).

(** The effect of one metric on the bucket it belongs to. *)
Definition absorb `{FloatOrd} (b : option BucketValue) (v : MetricValue) : option BucketValue :=
  match b with
  | None => Some (into v)
  | Some b => match merge_into v b with Ok b' => Some b' | Err _ => Some b end
  end.

Lemma round_down ts interval :
  in_u64 ts -> 0 < interval ->
  0 <= ts / interval * interval <= ts /\ ts < ts / interval * interval + interval.
Proof.
  intros [Hlo Hhi] Hi. pose proof (Z.div_mod ts interval ltac:(lia)).
  pose proof (Z.mod_pos_bound ts interval Hi). pose proof (Z.div_pos ts interval Hlo Hi). nia.
Qed.

Section InsertSpec.
Context `{FloatOrd} {Q : Type} `{PriorityQueueLaws Q}.

Lemma bucket_timestamp_rounds (self : Aggregator (Q := Q)) ts :
  in_u64 ts -> 0 < AggregatorConfig.bucket_interval (config self) ->
  get_bucket_timestamp self ts =
  Ret (ts / AggregatorConfig.bucket_interval (config self) * AggregatorConfig.bucket_interval (config self)).
Proof.
  intros Hts Hi. destruct (round_down ts _ Hts Hi). unfold get_bucket_timestamp, checked_div.
  rewrite bool_decide_false by lia. simpl. unfold UnixTimestamp.from_secs, UnixTimestamp.as_secs.
  rewrite u64_mul_small; [done|]. unfold in_width in *. lia.
Qed.

Lemma insert_absorbs clock (self : Aggregator (Q := Q)) m t :
  let k := metric_key (AggregatorConfig.bucket_interval (config self)) m in
  agg_wf self -> 0 < AggregatorConfig.bucket_interval (config self) ->
  in_u64 (MetricProtocol.timestamp m) ->
  AggregatorConfig.get_flush_time clock (config self) (BucketKey.timestamp k) = Ret t ->
  exists self', insert clock self m = Ret (self', Ok ()) /\ agg_wf self' /\ config self' = config self /\
    forall k', buckets self' !! k' =
      if bool_decide (k = k') then absorb (buckets self !! k') (value m) else buckets self !! k'.
Proof.
  intros k Hwf Hi Hts Hft.
  assert (insert clock self m = merge_in clock self k (value m)) as Hins.
  { unfold insert. by rewrite bucket_timestamp_rounds. }
  assert (exists self', merge_in clock self k (value m) = Ret (self', Ok ()) /\
    config self' = config self /\ forall k', buckets self' !! k' =
      if bool_decide (k = k') then absorb (buckets self !! k') (value m) else buckets self !! k')
    as (self' & Hm & Hc & Hb).
  { unfold merge_in. destruct (buckets self !! k) as [b|] eqn:Hk.
    - destruct (merge_ok (value m) b) as (b' & Hb' & _). { symmetry. by apply (proj2 Hwf k). }
      rewrite Hb'. eexists. split_and!; [done..|]. intros k'. cbn [buckets]. case_bool_decide as He.
      + subst k'. rewrite lookup_insert_eq, Hk. unfold absorb. by rewrite Hb'.
      + by rewrite lookup_insert_ne.
    - rewrite Hft. eexists. split_and!; [done..|]. intros k'. simpl. case_bool_decide as He.
      + subst k'. by rewrite lookup_insert_eq, Hk.
      + by rewrite lookup_insert_ne. }
  exists self'. rewrite Hins. split_and!; [done| |done|done].
  by eapply insert_wf; [|rewrite Hins].
Qed.

Lemma handle_insert_absorbs clocks (self : Aggregator (Q := Q)) ms interval :
  interval = AggregatorConfig.bucket_interval (config self) ->
  agg_wf self -> 0 < interval -> Forall (fun m => in_u64 (MetricProtocol.timestamp m)) ms ->
  (forall n m, m ∈ ms -> exists t,
     AggregatorConfig.get_flush_time (clocks n) (config self) (BucketKey.timestamp (metric_key interval m)) = Ret t) ->
  exists self', handle_insert_metrics clocks self ms = Ret (self', Ok ()) /\ agg_wf self' /\
    forall k, buckets self' !! k =
      fold_left absorb (value <$> filter (fun m => metric_key interval m = k) ms) (buckets self !! k).
Proof.
  intros Hi Hwf Hpos Hts. revert clocks self Hi Hwf. induction Hts as [|m ms Hm Hts IH]; intros clocks self Hi Hwf Hft.
  - by exists self.
  - destruct (Hft 0%nat m) as [t Ht]; [left|]. subst interval.
    destruct (insert_absorbs _ self m t Hwf Hpos Hm Ht) as (self1 & Hins & Hwf1 & Hc1 & Hb1).
    destruct (IH (fun n => clocks (S n)) self1) as (self' & Hh & Hwf' & Hb').
    { by rewrite Hc1. } { done. }
    { intros n m' Hm'. rewrite Hc1. apply Hft. by right. }
    exists self'. simpl. rewrite Hins. simpl. split_and!; [done..|].
    intros k. rewrite Hb', Hb1. rewrite filter_cons.
    by bcase (metric_key (AggregatorConfig.bucket_interval (config self)) m = k) as He.
Qed.

End InsertSpec.

(** ** Flush times *)

Lemma instant_add_ok i secs :
  i / nanos_per_sec + secs <= i64_max -> instant_add i (duration_from_secs secs) = Ret (i + secs * nanos_per_sec).
Proof.
  intros Hle. unfold instant_add, instant_checked_add, duration_from_secs.
  rewrite Z.div_add by done. by rewrite bool_decide_true.
Qed.

Lemma instant_add_overflow i secs :
  i64_max < i / nanos_per_sec + secs -> instant_add i (duration_from_secs secs) = Panic.
Proof.
  intros Hlt. unfold instant_add, instant_checked_add, duration_from_secs.
  rewrite Z.div_add by done. by rewrite bool_decide_false by lia.
Qed.

(** The instant of a timestamp: the reading of the monotonic clock, moved by the
    difference to the wall clock. *)
Lemma to_instant_shift sys_now inst_now ts :
  let now := UnixTimestamp.from_system sys_now in
  in_u64 ts -> in_u64 now -> - 2 ^ 63 <= inst_now / nanos_per_sec + (ts - now) <= i64_max ->
  UnixTimestamp.to_instant sys_now inst_now ts = Instant_ (inst_now + (ts - now) * nanos_per_sec).
Proof.
  intros now Hts Hnow Hb. unfold UnixTimestamp.to_instant, UnixTimestamp.sub. fold now.
  unfold in_width in *. bcase (now < ts) as Hlt.
  - rewrite u64_sub_small by (unfold in_width; lia). unfold instant_checked_add, duration_from_secs.
    rewrite Z.div_add by done. rewrite bool_decide_true by lia. done.
  - rewrite u64_sub_small by (unfold in_width; lia). unfold instant_checked_sub, duration_from_secs.
    replace (inst_now - (now - ts) * nanos_per_sec) with (inst_now + (ts - now) * nanos_per_sec) by lia.
    rewrite Z.div_add by done. rewrite bool_decide_true by lia. done.
Qed.

(** Readings and settings within the next 30,000 years. *)
Definition sane_secs (s : Z) : Prop := 0 <= s < 2 ^ 40.
Definition sane_clock (c : Clock) : Prop :=
  sane_secs (AggregatorConfig.now c / nanos_per_sec) /\
  sane_secs (AggregatorConfig.inst_now c / nanos_per_sec) /\
  sane_secs (UnixTimestamp.from_system (AggregatorConfig.sys_now c)).
Definition sane_config (c : AggregatorConfig) : Prop :=
  0 < AggregatorConfig.bucket_interval c < 2 ^ 40 /\ sane_secs (AggregatorConfig.initial_delay c) /\
  sane_secs (AggregatorConfig.debounce_delay c).

Lemma get_flush_time_sane clock cfg ts :
  sane_clock clock -> sane_config cfg -> sane_secs ts ->
  let initial_flush := AggregatorConfig.inst_now clock +
    (ts - UnixTimestamp.from_system (AggregatorConfig.sys_now clock) +
     AggregatorConfig.bucket_interval cfg + AggregatorConfig.initial_delay cfg) * nanos_per_sec in
  AggregatorConfig.get_flush_time clock cfg ts =
  Ret (if bool_decide (AggregatorConfig.now clock < initial_flush) then initial_flush
       else AggregatorConfig.now clock + AggregatorConfig.debounce_delay cfg * nanos_per_sec).
Proof.
  intros (Hn & Hi & Hs) (Hbi & Hid & Hdd) Hts initial_flush. unfold sane_secs in *.
  unfold AggregatorConfig.get_flush_time.
  rewrite to_instant_shift by (unfold in_width, i64_max; lia).
  rewrite (instant_add_ok (AggregatorConfig.inst_now clock + _)); [|rewrite Z.div_add by done; unfold i64_max; lia]. simpl.
  rewrite <- Z.add_assoc, <- Z.mul_add_distr_r.
  rewrite (instant_add_ok (AggregatorConfig.inst_now clock + _)); [|rewrite Z.div_add by done; unfold i64_max; lia]. simpl.
  rewrite <- Z.add_assoc, <- Z.mul_add_distr_r. fold initial_flush.
  case_bool_decide; [done|]. apply instant_add_ok. unfold i64_max. lia.
Qed.

Lemma get_flush_time_overflow clock cfg ts :
  let sys := UnixTimestamp.from_system (AggregatorConfig.sys_now clock) in
  let inst := AggregatorConfig.inst_now clock / nanos_per_sec in
  in_u64 ts -> in_u64 sys -> 0 <= inst + (ts - sys) <= i64_max ->
  i64_max < inst + (ts - sys) + AggregatorConfig.bucket_interval cfg ->
  AggregatorConfig.get_flush_time clock cfg ts = Panic.
Proof.
  intros sys inst Hts Hsys Hb Ho. unfold AggregatorConfig.get_flush_time.
  rewrite to_instant_shift by (fold sys inst; unfold in_width, i64_max in *; lia).
  rewrite (instant_add_overflow (AggregatorConfig.inst_now clock + _)); [done|]. rewrite Z.div_add by done. fold sys inst. lia.
Qed.

(** ** Properties *)

(** C8: In every reachable state of the aggregator, with any interleaving of
    inserts, merges, flushes and answers of the receiver, the queue refers to each
    bucket exactly once and each bucket has the type of its key; hence [try_flush]
    never panics on its two [unwrap]s, and no message is answered with
    [AggregateMetricsError]. *)
Theorem aggregator_invariant `{FloatOrd} {Q} `{PriorityQueueLaws Q} pk cfg self in_flight
    (Hr : reachable (Q := Q) pk cfg (self, in_flight)) :
  agg_wf self /\
  (forall nows, exists self' bs, try_flush nows self = Ret (self', bs)) /\
  (forall clocks ms self' r, handle_insert_metrics clocks self ms = Ret (self', r) -> r = Ok ()) /\
  (forall clocks bs self' r, handle_merge_buckets clocks self bs = Ret (self', r) -> r = Ok ()).
Proof.
  apply reachable_wf in Hr. simpl in Hr. split_and!; [done| | |].
  - intros nows. destruct (try_flush_spec nows self Hr) as (self' & _ & pairs & Hf & _). by eauto.
  - intros clocks ms self' r Hh. by apply handle_insert_wf in Hh as [_ ?].
  - intros clocks bs self' r Hh. by apply merge_all_wf in Hh as [_ ?].
Qed.

(** C21: A flush takes out exactly the buckets whose flush time has passed, in the
    order of their flush times, and keeps every other bucket unchanged; when the
    receiver returns the flushed buckets at once, merging them back restores the
    buckets as they were before the flush. *)
Theorem flush_conserves_buckets `{FloatOrd} {Q} `{PriorityQueueLaws Q} nows (self : Aggregator (Q := Q))
    (Hwf : agg_wf self) :
  exists self' popped pairs,
    try_flush nows self = Ret (self', uncurry Bucket.from_parts <$> pairs) /\
    flush_result nows self self' popped pairs /\
    forall clocks self'' r,
      merge_all clocks self' (uncurry Bucket.from_parts <$> pairs) = Ret (self'', r) ->
      r = Ok () /\ buckets self'' = buckets self.
Proof.
  destruct (try_flush_spec nows self Hwf) as (self' & popped & pairs & Hf & Hres).
  exists self', popped, pairs. split_and!; [done..|]. intros clocks self'' r Hm.
  destruct (flush_result_split _ _ _ _ _ Hwf Hres) as (Hty & Hnd & Hfresh & ->).
  split; [|by eapply merge_all_fresh]. by eapply merge_all_wf; [apply Hres|].
Qed.

(** C22: Within sane clocks and settings, a message with metrics is handled
    without panic or error, and every bucket afterwards holds the metrics of the
    message that share its name, type, unit and tags and fall into its interval,
    merged in their order into what the bucket held before; the bucket's timestamp
    is the multiple of the interval at or below the metric's. *)
Theorem inserts_group_by_key `{FloatOrd} {Q} `{PriorityQueueLaws Q} clocks (self : Aggregator (Q := Q)) ms
    (Hwf : agg_wf self) (Hclock : forall n, sane_clock (clocks n)) (Hcfg : sane_config (config self))
    (Hts : Forall (fun m => sane_secs (MetricProtocol.timestamp m)) ms) :
  let interval := AggregatorConfig.bucket_interval (config self) in
  (exists self', handle_insert_metrics clocks self ms = Ret (self', Ok ()) /\
    forall k, buckets self' !! k =
      fold_left absorb (value <$> filter (fun m => metric_key interval m = k) ms) (buckets self !! k)) /\
  Forall (fun m => let ts := BucketKey.timestamp (metric_key interval m) in
    get_bucket_timestamp self (MetricProtocol.timestamp m) = Ret ts /\
    (interval | ts) /\ ts <= MetricProtocol.timestamp m < ts + interval) ms.
Proof.
  intros interval. pose proof (proj1 Hcfg) as Hi. fold interval in Hi.
  assert (forall m, sane_secs (MetricProtocol.timestamp m) -> in_u64 (MetricProtocol.timestamp m)) as Hw.
  { unfold sane_secs, in_width. intros m. lia. }
  split.
  - destruct (handle_insert_absorbs clocks self ms interval) as (self' & Hh & _ & Hb); try done; [lia| | |by eauto].
    + eapply Forall_impl; [exact Hts|]. auto.
    + intros n m Hm. rewrite Forall_forall in Hts. specialize (Hts m Hm). eexists.
      apply get_flush_time_sane; [done..|]. destruct (round_down _ interval (Hw m Hts) ltac:(lia)).
      unfold sane_secs in *. simpl. lia.
  - eapply Forall_impl; [exact Hts|]. intros m Hm. simpl.
    destruct (round_down _ interval (Hw m Hm) ltac:(lia)).
    split_and!; [apply bucket_timestamp_rounds; [auto|fold interval; lia]|apply Z.divide_factor_r|lia|lia].
Qed.

(** At every sane reading of the clocks there is a metric timestamp for which
    [insert] panics under the default configuration: its instant can be represented
    but the end of its bucket cannot, and [+] on instants panics instead of falling
    back to the debounce delay. *)
Theorem future_metric_panics `{FloatOrd} {Q} `{PriorityQueue Q} clock pk (Hc : sane_clock clock) :
  exists ts, in_u64 ts /\ forall n u v t,
    insert clock (new (Q := Q) pk AggregatorConfig.default_) (MkMetric n u v ts t) = Panic.
Proof.
  destruct Hc as (_ & Hi & Hs). set (sys := UnixTimestamp.from_system (AggregatorConfig.sys_now clock)) in *.
  set (inst := AggregatorConfig.inst_now clock / nanos_per_sec) in *. unfold sane_secs in *.
  set (limit := i64_max + sys - inst). exists limit.
  assert (in_u64 limit) as Hl by (unfold in_width, limit, i64_max; lia). split; [done|]. intros n u v t.
  unfold insert. rewrite bucket_timestamp_rounds by done. simpl. unfold merge_in. simpl. rewrite lookup_empty.
  destruct (round_down limit 10 Hl ltac:(lia)).
  rewrite get_flush_time_overflow; fold sys inst; unfold in_width, limit, i64_max in *; simpl; try done; lia.
Qed.

(** ** A concrete queue *)

Fixpoint sorted_push (q : list QueuedBucket) (x : QueuedBucket) : list QueuedBucket :=
  match q with
  | [] => [x]
  | y :: q => if bool_decide (flush_at x <= flush_at y) then x :: y :: q else y :: sorted_push q x
  end.

Definition queue_le (x y : QueuedBucket) : Prop := flush_at x <= flush_at y.

Lemma sorted_push_perm q x : sorted_push q x ≡ₚ x :: q.
Proof.
  induction q as [|y q IH]; simpl; [done|]. case_bool_decide; [done|]. rewrite IH. apply Permutation_swap.
Qed.

Lemma sorted_push_sorted q x : StronglySorted queue_le q -> StronglySorted queue_le (sorted_push q x).
Proof.
  induction 1 as [|y q Hs IH Hall]; simpl; [by repeat constructor|]. case_bool_decide as Hle.
  - constructor; [by constructor|]. constructor; [done|]. eapply Forall_impl; [exact Hall|].
    unfold queue_le. intros. lia.
  - constructor; [done|]. rewrite sorted_push_perm. constructor; [unfold queue_le; lia|done].
Qed.

(** The flush queue as a list that is sorted by construction. *)
Definition sorted_queue := { q : list QueuedBucket | StronglySorted queue_le q }.

Lemma sorted_tail x q : StronglySorted queue_le (x :: q) -> StronglySorted queue_le q.
Proof. by intros [? _]%StronglySorted_inv. Defined.

#[global] Instance sorted_queue_ops : PriorityQueue sorted_queue := {|
  q_new := exist _ [] (SSorted_nil _);
  q_push q x := exist _ (sorted_push (proj1_sig q) x) (sorted_push_sorted _ x (proj2_sig q));
  q_pop q :=
    match q with
    | exist _ [] _ => None
    | exist _ (x :: q) Hq => Some (x, exist _ q (sorted_tail x q Hq))
    end;
  q_elems q := proj1_sig q;
|}.

#[global] Instance sorted_queue_laws : PriorityQueueLaws sorted_queue.
Proof.
  split; simpl.
  - done.
  - intros [q Hq] x. apply sorted_push_perm.
  - by intros [[|y q] Hq].
  - intros [[|y q] Hq] x q'; [done|]. intros [= <- <-]. simpl. split; [done|].
    by apply StronglySorted_inv in Hq as [_ ?].
Qed.

(** ** Witnesses *)

Definition sample_key_hash : ProjectKey :=
  match ProjectKey.parse "a94ae32be2584e0bbd7a4cbb95971fee" with Ok k => k | Err _ => ProjectKey.MkProjectKey "" end.
Definition sample_clock : Clock :=
  AggregatorConfig.MkClock (1000 * nanos_per_sec) (1615889440 * nanos_per_sec) (1000 * nanos_per_sec).
Definition sample_metric (ts : Z) : Metric := MkMetric "foo" MetricUnit.None_ (MetricValue.Counter (f64_of_Z 42)) ts ∅.
Definition fresh : Aggregator (Q := sorted_queue) := new sample_key_hash AggregatorConfig.default_.

Lemma aggregator_invariant_witness :
  agg_wf fresh /\ exists bs, try_flush (fun _ => 0) fresh = Ret (fresh, bs).
Proof.
  destruct (@aggregator_invariant bits_order sorted_queue _ _ sample_key_hash AggregatorConfig.default_ fresh []
    (reachable_init _ _)) as (Hwf & _). split; [exact Hwf|]. by eexists.
Defined.

Definition filled : Aggregator (Q := sorted_queue) :=
  match @handle_insert_metrics bits_order sorted_queue _ (fun _ => sample_clock) fresh
          [sample_metric 1615889443; sample_metric 1615889449] with
  | Ret (self, _) => self
  | Panic => fresh
  end.

Lemma filled_wf : agg_wf filled.
Proof.
  unfold filled. destruct (handle_insert_metrics _ _ _) as [[self r]|] eqn:Hh; [|apply agg_wf_new].
  by apply handle_insert_wf in Hh as [? _]; [|apply agg_wf_new].
Qed.

Definition late : nat -> Instant := fun _ => 2000 * nanos_per_sec.

Lemma flush_conserves_buckets_witness :
  exists self' popped pairs,
    try_flush late filled = Ret (self', uncurry Bucket.from_parts <$> pairs) /\
    flush_result late filled self' popped pairs /\ length pairs = 1%nat.
Proof.
  destruct (@flush_conserves_buckets bits_order sorted_queue _ _ late filled filled_wf)
    as (self' & popped & pairs & H1 & H2 & _). exists self', popped, pairs. split_and!; [exact H1|exact H2|].
  assert (match try_flush late filled with Ret (_, bs) => length bs | Panic => 0%nat end = 1%nat) as Hn
    by (vm_compute; reflexivity).
  rewrite H1, length_fmap in Hn. exact Hn.
Defined.

Lemma sample_clock_sane : sane_clock sample_clock.
Proof. by vm_compute. Qed.

Lemma inserts_group_by_key_witness :
  exists self', @handle_insert_metrics bits_order sorted_queue _ (fun _ => sample_clock) fresh
                  [sample_metric 1615889443; sample_metric 1615889449] = Ret (self', Ok ()) /\
    buckets self' !! metric_key 10 (sample_metric 1615889440) = Some (BucketValue.Counter (f64_of_Z 84)).
Proof.
  destruct (@inserts_group_by_key bits_order sorted_queue _ _ (fun _ => sample_clock) fresh
    [sample_metric 1615889443; sample_metric 1615889449] (agg_wf_new _ _)
    (fun _ => sample_clock_sane) ltac:(by vm_compute) ltac:(repeat constructor; by vm_compute))
    as ((self' & Hh & Hb) & _).
  exists self'. split; [exact Hh|]. rewrite Hb. by vm_compute.
Defined.

Lemma future_metric_panics_witness :
  exists ts, in_u64 ts /\ @insert bits_order sorted_queue _ sample_clock fresh (sample_metric ts) = Panic.
Proof.
  destruct (@future_metric_panics bits_order sorted_queue _ sample_clock sample_key_hash sample_clock_sane)
    as (ts & Hts & Hp). exists ts. split; [exact Hts|]. apply Hp.
Defined.
