(* ===== verification/KafkaStore.v ===== *)
(** * relay-server: the store forwarder (actors/store.rs)

    In processing mode an envelope ends in Kafka: attachments are cut into chunks,
    sessions and metrics become messages of their own, and the event follows with
    references to its attachments.  The forwarder is a sequence of sends that stops at
    the first failure; what was sent before stays sent.  [None] stands for a loop that
    does not end. *)

From Stdlib Require Import Ascii String.
From S2P Require Import Prelude Strings Floats Types Common Protocol Conversions Quota Filters Sampling Extractors Envelopes Sessions MetricProtocol Aggregation Aggregator.

Open Scope string_scope.
Open Scope Z_scope.
Open Scope list_scope.

(** ** Topics and messages *)

Module KafkaTopic.

Inductive KafkaTopic := Events | Attachments | Transactions | Outcomes | Sessions | Metrics.

#[global] Instance KafkaTopic_eq_dec : EqDecision KafkaTopic.
Proof. solve_decision. Defined.

End KafkaTopic.
Notation KafkaTopic := KafkaTopic.KafkaTopic.

Record TopicNames := MkTopicNames {
  topic_events : string;
  topic_attachments : string;
  topic_transactions : string;
  topic_outcomes : string;
  topic_sessions : string;
  topic_metrics : string;
}.

Record StoreSettings := MkStoreSettings { topics : TopicNames; attachment_chunk_size : Z }.

Definition kafka_topic_name (config : StoreSettings) (topic : KafkaTopic) : string :=
  match topic with
  | KafkaTopic.Attachments => topic_attachments (topics config)
  | KafkaTopic.Events => topic_events (topics config)
  | KafkaTopic.Transactions => topic_transactions (topics config)
  | KafkaTopic.Outcomes => topic_outcomes (topics config)
  | KafkaTopic.Sessions => topic_sessions (topics config)
  | KafkaTopic.Metrics => topic_metrics (topics config)
  end.

Definition MAX_EXPLODED_SESSIONS : nat := 100.
Definition UNNAMED_ATTACHMENT : string := "Unnamed Attachment".

Module StoreError.

(** The texts of the errors of the packages. *)
Inductive StoreError :=
| SendFailed (error : string) | InvalidMsgPack (error : string) | InvalidJson (error : JsonError) | NoEventId.

End StoreError.
Notation StoreError := StoreError.StoreError.

Module ChunkedAttachment.

Record ChunkedAttachment := MkChunkedAttachment {
  id : string;
  name : string;
  content_type : option string;
  attachment_type : AttachmentType;
  chunks : nat;
  size : option Z;
  rate_limited : option bool;
}.

End ChunkedAttachment.
Notation ChunkedAttachment := ChunkedAttachment.ChunkedAttachment.

Module EventMessage.

Record EventKafkaMessage := MkEventKafkaMessage {
  payload : string;
  start_time : Z;
  event_id : EventId;
  project_id : Z;
  remote_addr : option string;
  attachments : list ChunkedAttachment;
}.

End EventMessage.

Module ChunkMessage.

Record AttachmentChunkKafkaMessage := MkAttachmentChunkKafkaMessage {
  payload : string;
  event_id : EventId;
  project_id : Z;
  id : string;
  chunk_index : nat;
}.

End ChunkMessage.

Module AttachmentMessage.

Record AttachmentKafkaMessage := MkAttachmentKafkaMessage {
  event_id : EventId;
  project_id : Z;
  attachment : ChunkedAttachment;
}.

End AttachmentMessage.

Module ReportMessage.

Record UserReportKafkaMessage := MkUserReportKafkaMessage {
  project_id : Z;
  start_time : Z;
  payload : string;
  event_id : EventId;
}.

End ReportMessage.

Module SessionMessage.

Record SessionKafkaMessage := MkSessionKafkaMessage {
  org_id : Z;
  project_id : Z;
  session_id : Uuid;
  distinct_id : Uuid;
  quantity : Z;
  seq : Z;
  received : f64;
  started : f64;
  duration : option f64;
  status : SessionStatus;
  errors : Z;
  release : string;
  environment : option string;
  sdk : option string;
  retention_days : Z;
}.

(** The fields that the messages of an aggregate differ in. *)
Definition with_aggregate (self : SessionKafkaMessage) (started : f64) (distinct_id : Uuid) : SessionKafkaMessage :=
  MkSessionKafkaMessage (org_id self) (project_id self) (session_id self) distinct_id (quantity self) (seq self)
    (received self) started (duration self) (status self) (errors self) (release self) (environment self) (sdk self)
    (retention_days self).
Definition with_count (self : SessionKafkaMessage) (status : SessionStatus) (errors quantity : Z) : SessionKafkaMessage :=
  MkSessionKafkaMessage (org_id self) (project_id self) (session_id self) (distinct_id self) quantity (seq self)
    (received self) (started self) (duration self) status errors (release self) (environment self) (sdk self)
    (retention_days self).

End SessionMessage.

Module MetricMessage.

Record MetricKafkaMessage := MkMetricKafkaMessage {
  org_id : Z;
  project_id : Z;
  name : string;
  unit_ : MetricUnit;
  value : BucketValue;
  timestamp : UnixTimestamp;
  tags : gmap string string;
}.

End MetricMessage.

Module KafkaMessage.

Inductive KafkaMessage :=
| Event (message : EventMessage.EventKafkaMessage)
| Attachment (message : AttachmentMessage.AttachmentKafkaMessage)
| AttachmentChunk (message : ChunkMessage.AttachmentChunkKafkaMessage)
| UserReport (message : ReportMessage.UserReportKafkaMessage)
| Session (message : SessionMessage.SessionKafkaMessage)
| Metric (message : MetricMessage.MetricKafkaMessage).

(** The id that the partition is chosen by. *)
Definition key_id (self : KafkaMessage) : Uuid :=
  match self with
  | Event message => EventMessage.event_id message
  | Attachment message => AttachmentMessage.event_id message
  | AttachmentChunk message => ChunkMessage.event_id message
  | UserReport message => ReportMessage.event_id message
  | Session message => SessionMessage.session_id message
  | Metric _ => 0
  end.

End KafkaMessage.
Notation KafkaMessage := KafkaMessage.KafkaMessage.

(** ** The producer *)

(** serde_json, rmp_serde, rdkafka (the error of the n-th send, if any), the uuid crate and the clocks. *)
Class StoreEnv := {
  session_to_json : SessionMessage.SessionKafkaMessage -> result JsonError string;
  metric_to_json : MetricMessage.MetricKafkaMessage -> result JsonError string;
  message_to_msgpack : KafkaMessage -> result string string;
  send_error : nat -> string -> Uuid -> string -> option string;
  new_v4 : nat -> Uuid;
  uuid_text : Uuid -> string;
  parse_uuid : string -> option Uuid;
  new_v5 : string -> Uuid;
  parse_buckets : string -> result JsonError (list Bucket);
  store_now : nat -> DateTime;
  unix_secs : Instant -> Z;
}.

Definition serialize `{StoreEnv} (self : KafkaMessage) : result StoreError string :=
  match self with
  | KafkaMessage.Session message => match session_to_json message with Ok s => Ok s | Err e => Err (StoreError.InvalidJson e) end
  | KafkaMessage.Metric message => match metric_to_json message with Ok s => Ok s | Err e => Err (StoreError.InvalidJson e) end
  | _ => match message_to_msgpack self with Ok s => Ok s | Err e => Err (StoreError.InvalidMsgPack e) end
  end.

(** A message in a topic with its key. *)
Record SentRecord := MkSentRecord { sent_topic : KafkaTopic; sent_key : Uuid; sent_message : KafkaMessage }.

(** What was sent, the sends that were tried, and how often ids and the clock were asked for. *)
Record StoreWorld := MkStoreWorld { sent : list SentRecord; attempts : nat; ids : nat; readings : nat }.

Definition store (A : Type) : Type := StoreWorld -> option (StoreWorld * result StoreError A).
#[global] Instance store_ret : MRet store := fun A a w => Some (w, Ok a).
#[global] Instance store_bind : MBind store := fun A B f m w =>
  match m w with
  | Some (w, Ok a) => f a w
  | Some (w, Err e) => Some (w, Err e)
  | None => None
  end.
Definition throw {A} (e : StoreError) : store A := fun w => Some (w, Err e).
Definition from_result {A} (r : result StoreError A) : store A := fun w => Some (w, r).

Section Store.
Context `{StoreEnv, RequestEnv, SerdeJson SessionUpdate, SerdeJson SessionAggregates} (config : StoreSettings).

Definition fresh_uuid : store Uuid := fun w =>
  Some (MkStoreWorld (sent w) (attempts w) (S (ids w)) (readings w), Ok (new_v4 (ids w))).
Definition now : store DateTime := fun w =>
  Some (MkStoreWorld (sent w) (attempts w) (ids w) (S (readings w)), Ok (store_now (readings w))).

(** [KafkaMessage::key] *)
Definition message_key (self : KafkaMessage) : store Uuid :=
  let uuid := KafkaMessage.key_id self in
  if bool_decide (uuid = 0) then fresh_uuid else mret uuid.

Definition send (topic : KafkaTopic) (key : Uuid) (message : KafkaMessage) (serialized : string) : store () := fun w =>
  match send_error (attempts w) (kafka_topic_name config topic) key serialized with
  | None => Some (MkStoreWorld (sent w ++ [MkSentRecord topic key message]) (S (attempts w)) (ids w) (readings w), Ok ())
  | Some e => Some (MkStoreWorld (sent w) (S (attempts w)) (ids w) (readings w), Err (StoreError.SendFailed e))
  end.

Definition produce (topic : KafkaTopic) (message : KafkaMessage) : store () :=
  serialized ← from_result (serialize message);
  key ← message_key message;
  send topic key message serialized.

(** ** Attachments *)

Definition item_ty (item : Item) : ItemType := Item.ty (Item.headers item).

(** The loop over the chunks, with their number at the end. *)
Fixpoint chunk_loop (fuel : nat) (event_id : EventId) (project_id : Z) (id : string) (payload : string)
  (offset : nat) (chunk_index : nat) : store nat :=
  if bool_decide (offset < String.length payload)%nat then
    match fuel with
    | O => fun _ => None
    | S fuel =>
        let chunk_size := Nat.min (Z.to_nat (attachment_chunk_size config)) (String.length payload - offset) in
        _ ← produce KafkaTopic.Attachments
              (KafkaMessage.AttachmentChunk
                 (ChunkMessage.MkAttachmentChunkKafkaMessage (substring offset chunk_size payload) event_id project_id id
                    chunk_index));
        chunk_loop fuel event_id project_id id payload (offset + chunk_size) (S chunk_index)
    end
  else mret chunk_index.

Definition produce_attachment_chunks (event_id : EventId) (project_id : Z) (item : Item) : store ChunkedAttachment :=
  uuid ← fresh_uuid;
  let id := uuid_text uuid in
  chunk_index ← chunk_loop (String.length (Item.payload item)) event_id project_id id (Item.payload item) 0 0;
  mret (ChunkedAttachment.MkChunkedAttachment id (default UNNAMED_ATTACHMENT (Item.filename (Item.headers item)))
          (ContentType.as_str <$> Item.content_type (Item.headers item))
          (default AttachmentType.default_ (Item.attachment_type (Item.headers item)))
          chunk_index (Some (Item.len item)) (Some (Item.rate_limited (Item.headers item)))).

(** [event_id.ok_or(StoreError::NoEventId)?] *)
Definition require_id (event_id : option EventId) : store EventId :=
  match event_id with Some id => mret id | None => throw StoreError.NoEventId end.

Definition produce_user_report (event_id : EventId) (project_id : Z) (start_time : Instant) (item : Item) : store () :=
  produce KafkaTopic.Attachments
    (KafkaMessage.UserReport
       (ReportMessage.MkUserReportKafkaMessage project_id (unix_secs start_time) (Item.payload item) event_id)).

(** ** Sessions *)

Definition make_distinct_id (s : string) : Uuid := default (new_v5 s) (parse_uuid s).
Definition distinct_id_of (s : option string) : Uuid := default 0 (make_distinct_id <$> s).

Definition send_session_message (message : SessionMessage.SessionKafkaMessage) : store () :=
  produce KafkaTopic.Sessions (KafkaMessage.Session message).

(** [errors.min(u16::MAX).max(crashed)] *)
Definition clamp_errors (errors : Z) (status : SessionStatus) : Z :=
  Z.max (Z.min errors 65535) (if bool_decide (status = SessionStatus.Crashed) then 1 else 0).

Definition produce_session_update (org_id project_id event_retention : Z) (client : option string) (session : SessionUpdate)
  : store () :=
  send_session_message
    (SessionMessage.MkSessionKafkaMessage org_id project_id (SessionUpdate.session_id session)
       (distinct_id_of (SessionUpdate.distinct_id session)) 1
       (if SessionUpdate.init session then 0 else SessionUpdate.sequence session)
       (datetime_to_timestamp (SessionUpdate.timestamp session)) (datetime_to_timestamp (SessionUpdate.started session))
       (SessionUpdate.duration session) (SessionUpdate.status session)
       (clamp_errors (SessionUpdate.errors session) (SessionUpdate.status session))
       (SessionAttributes.release (SessionUpdate.attributes session))
       (SessionAttributes.environment (SessionUpdate.attributes session)) client event_retention).

(** The counts of an aggregate in the order they are sent, with their status and error count. *)
Definition aggregate_counts (item : SessionAggregateItem) : list (SessionStatus * Z * Z) :=
  [(SessionStatus.Exited, 0, SessionAggregateItem.exited item); (SessionStatus.Errored, 1, SessionAggregateItem.errored item);
   (SessionStatus.Abnormal, 1, SessionAggregateItem.abnormal item); (SessionStatus.Crashed, 1, SessionAggregateItem.crashed item)].

(** [if item.<count> > 0 { .. }] for each of them. *)
Fixpoint send_counts (message : SessionMessage.SessionKafkaMessage) (counts : list (SessionStatus * Z * Z)) : store () :=
  match counts with
  | [] => mret ()
  | (status, errors, quantity) :: counts =>
      _ ← (if bool_decide (0 < quantity) then send_session_message (SessionMessage.with_count message status errors quantity)
           else mret ());
      send_counts message counts
  end.

Fixpoint send_aggregates (message : SessionMessage.SessionKafkaMessage) (items : list SessionAggregateItem) : store () :=
  match items with
  | [] => mret ()
  | item :: items =>
      _ ← send_counts (SessionMessage.with_aggregate message (datetime_to_timestamp (SessionAggregateItem.started item))
                         (distinct_id_of (SessionAggregateItem.distinct_id item)))
            (aggregate_counts item);
      send_aggregates message items
  end.

Definition produce_sessions_from_aggregate (org_id project_id event_retention : Z) (client : option string)
  (aggregates : SessionAggregates) : store () :=
  received ← now;
  let message :=
    SessionMessage.MkSessionKafkaMessage org_id project_id 0 0 1 0 (datetime_to_timestamp received) f64_zero None
      SessionStatus.Exited 0 (SessionAttributes.release (SessionAggregates.attributes aggregates))
      (SessionAttributes.environment (SessionAggregates.attributes aggregates)) client event_retention in
  send_aggregates message (take MAX_EXPLODED_SESSIONS (SessionAggregates.aggregates aggregates)).

Definition set_status (session : SessionUpdate) (status : SessionStatus) : SessionUpdate :=
  SessionUpdate.MkSessionUpdate (SessionUpdate.session_id session) (SessionUpdate.distinct_id session)
    (SessionUpdate.sequence session) (SessionUpdate.init session) (SessionUpdate.timestamp session)
    (SessionUpdate.started session) (SessionUpdate.duration session) status (SessionUpdate.errors session)
    (SessionUpdate.attributes session).

Definition produce_sessions (org_id project_id event_retention : Z) (client : option string) (item : Item) : store () :=
  match item_ty item with
  | ItemType.Session =>
      match SessionUpdate.parse (Item.payload item) with
      | Err _ => mret ()
      | Ok session =>
          let session := if bool_decide (SessionUpdate.status session = SessionStatus.Errored)
                         then set_status session SessionStatus.Exited else session in
          produce_session_update org_id project_id event_retention client session
      end
  | ItemType.Sessions =>
      match SessionAggregates.parse (Item.payload item) with
      | Err _ => mret ()
      | Ok aggregates => produce_sessions_from_aggregate org_id project_id event_retention client aggregates
      end
  | _ => mret ()
  end.

(** ** Metrics *)

Fixpoint send_buckets (org_id project_id : Z) (buckets : list Bucket) : store () :=
  match buckets with
  | [] => mret ()
  | bucket :: buckets =>
      _ ← produce KafkaTopic.Metrics
            (KafkaMessage.Metric
               (MetricMessage.MkMetricKafkaMessage org_id project_id (Bucket.name bucket) (Bucket.unit_ bucket)
                  (Bucket.value bucket) (Bucket.timestamp bucket) (Bucket.tags bucket)));
      send_buckets org_id project_id buckets
  end.

Definition produce_metrics (org_id project_id : Z) (item : Item) : store () :=
  send_buckets org_id project_id match parse_buckets (Item.payload item) with Ok buckets => buckets | Err _ => [] end.

(** ** Envelopes *)

Record StoreEnvelope := MkStoreEnvelope { se_envelope : Envelope; se_start_time : Instant; se_scoping : Scoping }.

Definition is_slow_item (item : Item) : bool :=
  bool_decide (item_ty item = ItemType.Attachment) || bool_decide (item_ty item = ItemType.UserReport).
Definition is_event_item (item : Item) : bool :=
  bool_decide (item_ty item ∈ [ItemType.Event; ItemType.Transaction; ItemType.Security]).

Definition event_topic (envelope : Envelope) (event_item : option Item) : KafkaTopic :=
  match Envelope.get_item_by envelope is_slow_item with
  | Some _ => KafkaTopic.Attachments
  | None => if bool_decide (item_ty <$> event_item = Some ItemType.Transaction) then KafkaTopic.Transactions else KafkaTopic.Events
  end.

(** The loop over the items, with the attachments that the event refers to. *)
Fixpoint store_items (message : StoreEnvelope) (items : list Item) (attachments : list ChunkedAttachment)
  : store (list ChunkedAttachment) :=
  let envelope := se_envelope message in
  let scoping := se_scoping message in
  match items with
  | [] => mret attachments
  | item :: items =>
      attachments ←
        match item_ty item with
        | ItemType.Attachment =>
            event_id ← require_id (Envelope.event_id envelope);
            attachment ← produce_attachment_chunks event_id (project_id scoping) item;
            mret (attachments ++ [attachment])
        | ItemType.UserReport =>
            event_id ← require_id (Envelope.event_id envelope);
            _ ← produce_user_report event_id (project_id scoping) (se_start_time message) item;
            mret attachments
        | ItemType.Session | ItemType.Sessions =>
            _ ← produce_sessions (organization_id scoping) (project_id scoping) (Envelope.retention envelope)
                  (RequestMeta.client (Envelope.meta envelope)) item;
            mret attachments
        | ItemType.MetricBuckets =>
            _ ← produce_metrics (organization_id scoping) (project_id scoping) item;
            mret attachments
        | _ => mret attachments
        end;
      store_items message items attachments
  end.

Fixpoint store_attachments (topic : KafkaTopic) (event_id : option EventId) (project_id : Z)
  (attachments : list ChunkedAttachment) : store () :=
  match attachments with
  | [] => mret ()
  | attachment :: attachments =>
      id ← require_id event_id;
      _ ← produce topic (KafkaMessage.Attachment (AttachmentMessage.MkAttachmentKafkaMessage id project_id attachment));
      store_attachments topic event_id project_id attachments
  end.

(** [handle(StoreEnvelope)] *)
Definition handle_store_envelope (message : StoreEnvelope) : store () :=
  let envelope := se_envelope message in
  let event_id := Envelope.event_id envelope in
  let event_item := Envelope.get_item_by envelope is_event_item in
  let topic := event_topic envelope event_item in
  attachments ← store_items message (Envelope.items envelope) [];
  match event_item with
  | Some event_item =>
      id ← require_id event_id;
      produce topic
        (KafkaMessage.Event
           (EventMessage.MkEventKafkaMessage (Item.payload event_item) (unix_secs (se_start_time message)) id
              (project_id (se_scoping message)) (client_addr (Envelope.meta envelope)) attachments))
  | None => store_attachments topic event_id (project_id (se_scoping message)) attachments
  end.

End Store.

(** ** Lemmas: sends *)

Lemma store_bind_ok {A B} (m : store A) (f : A -> store B) w w' b :
  (m ≫= f) w = Some (w', Ok b) <-> exists w1 a, m w = Some (w1, Ok a) /\ f a w1 = Some (w', Ok b).
Proof.
  unfold mbind, store_bind. destruct (m w) as [ [w1 [a|e] ]|]; naive_solver.
Qed.

Lemma store_ret_ok {A} (a b : A) w w' : (mret a : store A) w = Some (w', Ok b) <-> w = w' /\ a = b.
Proof. unfold mret, store_ret. naive_solver. Qed.

(** The chunks of an attachment among records: their indices and contents. *)
Definition chunk_of (id : string) (r : SentRecord) : option (nat * string) :=
  match sent_message r with
  | KafkaMessage.AttachmentChunk c =>
      if bool_decide (ChunkMessage.id c = id) then Some (ChunkMessage.chunk_index c, ChunkMessage.payload c) else None
  | _ => None
  end.
Definition chunks_of (id : string) (l : list SentRecord) : list (nat * string) := omap (chunk_of id) l.

Lemma chunks_of_app id l k : chunks_of id (l ++ k) = chunks_of id l ++ chunks_of id k.
Proof. apply omap_app. Qed.

Section Runs.
Context `{StoreEnv, RequestEnv, SerdeJson SessionUpdate, SerdeJson SessionAggregates} (config : StoreSettings).

(** The message is in the topic, with the key that its id gives. *)
Definition record_of (topic : KafkaTopic) (message : KafkaMessage) (r : SentRecord) : Prop :=
  sent_topic r = topic /\ sent_message r = message
  /\ (KafkaMessage.key_id message <> 0 -> sent_key r = KafkaMessage.key_id message).

Lemma produce_ok topic message w w' :
  produce config topic message w = Some (w', Ok ()) ->
  exists r, sent w' = sent w ++ [r] /\ (ids w <= ids w')%nat /\ record_of topic message r.
Proof.
  unfold produce. intros (w1 & s & [= <- _] & H')%store_bind_ok.
  apply store_bind_ok in H' as (w2 & key & Hk & Hs).
  assert (sent w2 = sent w /\ (ids w <= ids w2)%nat /\ (KafkaMessage.key_id message <> 0 -> key = KafkaMessage.key_id message))
    as (Hsent & Hids & Hkey).
  { unfold message_key in Hk. case_bool_decide.
    - injection Hk as <- <-. cbn. split_and!; [done|lia|done].
    - apply store_ret_ok in Hk as [-> ->]. split_and!; [done|lia|done]. }
  unfold send in Hs. destruct (send_error _ _ _ _); [done|]. injection Hs as <-. cbn.
  exists (MkSentRecord topic key message). rewrite Hsent. split_and!; [done|done|]. by split_and!.
Qed.

(** Sending always ends. *)
Definition returns {A} (m : store A) : Prop := forall w, exists w' r, m w = Some (w', r).

Lemma returns_bind {A B} (m : store A) (f : A -> store B) : returns m -> (forall a, returns (f a)) -> returns (m ≫= f).
Proof.
  intros Hm Hf w. unfold mbind, store_bind. destruct (Hm w) as (w1 & [a|e] & ->); [apply Hf|by eexists _, _].
Qed.
Lemma returns_ret {A} (a : A) : returns (mret a).
Proof. intros w. by eexists _, _. Qed.
Lemma returns_produce topic message : returns (produce config topic message).
Proof.
  unfold produce. apply returns_bind; [by intros w; eexists _, _|]. intros s. apply returns_bind.
  - unfold message_key. case_bool_decide; intros w; by eexists _, _.
  - intros key w. unfold send. destruct (send_error _ _ _ _); by eexists _, _.
Qed.

(** ** Lemmas: attachments *)

(** With chunks of at least a byte there are no more of them than bytes. *)
Lemma chunk_loop_returns event_id project_id id payload : 0 < attachment_chunk_size config -> forall fuel offset index,
  (String.length payload - offset <= fuel)%nat ->
  returns (chunk_loop config fuel event_id project_id id payload offset index).
Proof.
  intros Hsize. induction fuel as [|fuel IH]; intros offset index Hf; cbn; case_bool_decide as Ho; try apply returns_ret; [lia|].
  apply returns_bind; [apply returns_produce|]. intros _. apply IH. lia.
Qed.

(** ... and with empty chunks the loop would not end. *)
Lemma chunk_loop_diverges event_id project_id id payload offset :
  attachment_chunk_size config = 0 -> (offset < String.length payload)%nat -> forall fuel index w w' n,
  chunk_loop config fuel event_id project_id id payload offset index w <> Some (w', Ok n).
Proof.
  intros Hsize Ho. induction fuel as [|fuel IH]; intros index w w' n; cbn; rewrite bool_decide_eq_true_2 by done; [done|].
  intros (w1 & u & _ & Hr)%store_bind_ok. rewrite Hsize in Hr. cbn in Hr. rewrite Nat.add_0_r in Hr. by apply IH in Hr.
Qed.

(** A record with a chunk of the attachment [id]. *)
Definition chunk_record (event_id : EventId) (project_id : Z) (id : string) (r : SentRecord) : Prop :=
  exists c, record_of KafkaTopic.Attachments (KafkaMessage.AttachmentChunk c) r
    /\ ChunkMessage.id c = id /\ ChunkMessage.event_id c = event_id /\ ChunkMessage.project_id c = project_id.

(** The chunks are numbered, not empty, within the limit and together the rest of the payload. *)
Definition cuts (index : nat) (rest : string) (chunks : list (nat * string)) : Prop :=
  exists ps, chunks = imap (fun i p => ((index + i)%nat, p)) ps /\ str_concat ps = rest
    /\ Forall (fun p => 0 < Z.of_nat (String.length p) <= attachment_chunk_size config) ps.

Lemma cuts_cons index p rest chunks :
  0 < Z.of_nat (String.length p) <= attachment_chunk_size config -> cuts (S index) rest chunks ->
  cuts index (p +:+ rest) ((index, p) :: chunks).
Proof.
  intros Hp (ps & -> & <- & Hps). exists (p :: ps). split_and!; [|done|by constructor].
  cbn. rewrite Nat.add_0_r. f_equal. apply imap_ext. intros i q _. cbn. by rewrite Nat.add_succ_r.
Qed.

Lemma chunk_loop_ok event_id project_id id payload : 0 < attachment_chunk_size config -> forall fuel offset index w w' n,
  (offset <= String.length payload)%nat ->
  chunk_loop config fuel event_id project_id id payload offset index w = Some (w', Ok n) ->
  exists recs, sent w' = sent w ++ recs /\ (ids w <= ids w')%nat
    /\ Forall (chunk_record event_id project_id id) recs /\ n = (index + length (chunks_of id recs))%nat
    /\ cuts index (substring offset (String.length payload - offset) payload) (chunks_of id recs).
Proof.
  intros Hsize. induction fuel as [|fuel IH]; intros offset index w w' n Hle; cbn; case_bool_decide as Ho.
  - done.
  - intros [-> ->]%store_ret_ok. exists []. rewrite app_nil_r. cbn. split_and!; [done|done|done|lia|].
    exists []. replace (String.length payload - offset)%nat with 0%nat by lia. by rewrite substring_0.
  - intros (w1 & [] & (r & Hs & Hi & Hr)%produce_ok & Hrun)%store_bind_ok.
    set (k := Nat.min _ _) in *. assert (0 < k <= String.length payload - offset)%nat as Hk by (unfold k; lia).
    apply IH in Hrun as (recs & Hs' & Hi' & Hall & -> & Hcut); [|lia].
    exists (r :: recs). rewrite Hs', Hs, <- app_assoc. cbn [app].
    assert (chunk_of id r = Some (index, substring offset k payload)) as Hc.
    { destruct Hr as (_ & Hm & _). unfold chunk_of. rewrite Hm. cbn. by rewrite bool_decide_eq_true_2. }
    unfold chunks_of in *. cbn. rewrite Hc. cbn. split_and!; [done|lia|..|lia|].
    + constructor; [|done]. eexists. split; [exact Hr|]. done.
    + replace (String.length payload - offset)%nat with (k + (String.length payload - (offset + k)))%nat by lia.
      rewrite <- substring_join. apply cuts_cons; [|done]. rewrite length_substring by lia. unfold k. lia.
  - intros [-> ->]%store_ret_ok. exists []. rewrite app_nil_r. cbn. split_and!; [done|done|done|lia|].
    exists []. replace (String.length payload - offset)%nat with 0%nat by lia. by rewrite substring_0.
Qed.

(** What the event says about an attachment item. *)
Definition describes (item : Item) (a : ChunkedAttachment) : Prop :=
  ChunkedAttachment.name a = default UNNAMED_ATTACHMENT (Item.filename (Item.headers item))
  /\ ChunkedAttachment.size a = Some (Item.len item)
  /\ ChunkedAttachment.rate_limited a = Some (Item.rate_limited (Item.headers item)).

(** The attachment can be put together from the chunks in [recs]. *)
Definition stored_in (recs : list SentRecord) (item : Item) (a : ChunkedAttachment) : Prop :=
  describes item a /\ length (chunks_of (ChunkedAttachment.id a) recs) = ChunkedAttachment.chunks a
  /\ cuts 0 (Item.payload item) (chunks_of (ChunkedAttachment.id a) recs).

(** The id was drawn between two moments. *)
Definition drawn (lo hi : nat) (id : string) : Prop := exists n, (lo <= n < hi)%nat /\ id = uuid_text (new_v4 n).

Lemma attachment_ok event_id project_id item w w' a :
  0 < attachment_chunk_size config ->
  produce_attachment_chunks config event_id project_id item w = Some (w', Ok a) ->
  exists recs, sent w' = sent w ++ recs /\ (ids w <= ids w')%nat /\ drawn (ids w) (ids w') (ChunkedAttachment.id a)
    /\ Forall (chunk_record event_id project_id (ChunkedAttachment.id a)) recs /\ stored_in recs item a.
Proof.
  intros Hsize. unfold produce_attachment_chunks. intros (w1 & u & [= <- <-] & Hrun)%store_bind_ok.
  apply store_bind_ok in Hrun as (w2 & n & (recs & Hs & Hi & Hall & -> & Hcut)%chunk_loop_ok & Hr); [|done|lia].
  apply store_ret_ok in Hr as [-> <-]. cbn in Hs, Hi. exists recs. split_and!; [done|lia|..|done|].
  - exists (ids w). split; [lia|done].
  - split; [done|]. split; [done|]. cbn in Hcut |- *. by rewrite Nat.sub_0_r, substring_all in Hcut.
Qed.

(** ** Lemmas: items *)

(** A computation that succeeds has only added records of a kind. *)
Definition writes {A} (P : SentRecord -> Prop) (m : store A) : Prop :=
  forall w w' a, m w = Some (w', Ok a) ->
    exists recs, sent w' = sent w ++ recs /\ (ids w <= ids w')%nat /\ Forall P recs.

Lemma writes_ret {A} P (a : A) : writes P (mret a).
Proof. intros w w' b [-> _]%store_ret_ok. exists []. by rewrite app_nil_r. Qed.

Lemma writes_bind {A B} P (m : store A) (f : A -> store B) : writes P m -> (forall a, writes P (f a)) -> writes P (m ≫= f).
Proof.
  intros Hm Hf w w' b (w1 & a & (r1 & E1 & Hi1 & HP1)%Hm & (r2 & E2 & Hi2 & HP2)%Hf)%store_bind_ok.
  exists (r1 ++ r2). rewrite E2, E1, <- app_assoc, Forall_app. split_and!; [done|lia|done|done].
Qed.

Lemma writes_produce P topic message :
  (forall r, record_of topic message r -> P r) -> writes P (produce config topic message).
Proof.
  intros HP w w' [] (r & Hs & Hi & Hr)%produce_ok. exists [r]. split_and!; [done|done|]. constructor; [by apply HP|done].
Qed.

(** Messages that are no chunk and refer to no attachment. *)
Definition independent (r : SentRecord) : Prop :=
  match sent_message r with
  | KafkaMessage.UserReport _ | KafkaMessage.Session _ | KafkaMessage.Metric _ => True
  | _ => False
  end.

Lemma writes_independent topic message :
  match message with KafkaMessage.UserReport _ | KafkaMessage.Session _ | KafkaMessage.Metric _ => True | _ => False end ->
  writes independent (produce config topic message).
Proof. intros Hm. apply writes_produce. intros r (_ & Hr & _). unfold independent. by rewrite Hr. Qed.

Lemma writes_counts message counts : writes independent (send_counts config message counts).
Proof.
  induction counts as [|[ [st e] q] counts IH]; cbn; [apply writes_ret|]. apply writes_bind; [|done].
  case_bool_decide; [by apply writes_independent|apply writes_ret].
Qed.

Lemma writes_aggregates message items : writes independent (send_aggregates config message items).
Proof.
  induction items as [|item items IH]; cbn [send_aggregates]; [apply writes_ret|].
  apply writes_bind; [apply writes_counts|done].
Qed.

Lemma writes_now : writes independent now.
Proof. intros w w' a [= <- _]. exists []. by rewrite app_nil_r. Qed.

Lemma writes_sessions org project retention client item :
  writes independent (produce_sessions config org project retention client item).
Proof.
  unfold produce_sessions. destruct (item_ty item); try apply writes_ret.
  - destruct (SessionUpdate.parse _); [|apply writes_ret]. by apply writes_independent.
  - destruct (SessionAggregates.parse _); [|apply writes_ret]. apply writes_bind; [apply writes_now|].
    intros received. apply writes_aggregates.
Qed.

Lemma writes_metrics org project item : writes independent (produce_metrics config org project item).
Proof.
  unfold produce_metrics. generalize (match parse_buckets (Item.payload item) with Ok b => b | Err _ => [] end) as buckets.
  induction buckets as [|b buckets IH]; cbn; [apply writes_ret|]. apply writes_bind; [by apply writes_independent|done].
Qed.

(** Ids are not drawn twice. *)
Hypothesis fresh_ids : forall n m, uuid_text (new_v4 n) = uuid_text (new_v4 m) -> n = m.

(** The records that the items of an envelope leave: independent ones and chunks. *)
Definition item_record (event_id : option EventId) (project_id : Z) (lo hi : nat) (r : SentRecord) : Prop :=
  independent r \/ exists eid id, event_id = Some eid /\ drawn lo hi id /\ chunk_record eid project_id id r.

Lemma item_record_weaken event_id project_id lo hi lo' hi' r :
  (lo' <= lo)%nat -> (hi <= hi')%nat -> item_record event_id project_id lo hi r -> item_record event_id project_id lo' hi' r.
Proof.
  intros Hl Hh [?|(eid & id & -> & (n & Hn & ->) & Hc)]; [by left|right]. eexists _, _. split_and!; [done| |done].
  exists n. split; [lia|done].
Qed.

(** Records of other moments hold no chunks of an attachment. *)
Lemma chunks_of_other event_id project_id lo hi lo' hi' id recs :
  drawn lo' hi' id -> (hi' <= lo)%nat \/ (hi <= lo')%nat -> Forall (item_record event_id project_id lo hi) recs ->
  chunks_of id recs = [].
Proof.
  intros (n & Hn & ->) Hd. induction 1 as [|r recs [Hr|(eid & id & _ & (m & Hm & ->) & c & (_ & Hr & _) & Hid & _)] _ IH];
    [done|..]; unfold chunks_of; cbn; unfold chunk_of at 1.
  - unfold independent in Hr. by destruct (sent_message r).
  - rewrite Hr. rewrite bool_decide_eq_false_2; [done|]. rewrite Hid. intros Heq%fresh_ids. lia.
Qed.

Definition is_attachment (item : Item) : bool := bool_decide (item_ty item = ItemType.Attachment).

(** What handling items leaves behind. *)
Definition items_stored (event_id : option EventId) (project_id : Z) (items : list Item) (w w' : StoreWorld)
  (new : list ChunkedAttachment) : Prop :=
  exists recs, sent w' = sent w ++ recs /\ (ids w <= ids w')%nat
    /\ Forall (item_record event_id project_id (ids w) (ids w')) recs
    /\ Forall (fun a => drawn (ids w) (ids w') (ChunkedAttachment.id a)) new
    /\ Forall2 (stored_in recs) (List.filter is_attachment items) new.

Lemma items_stored_app event_id project_id items1 items2 w w1 w' new1 new2 :
  items_stored event_id project_id items1 w w1 new1 -> items_stored event_id project_id items2 w1 w' new2 ->
  items_stored event_id project_id (items1 ++ items2) w w' (new1 ++ new2).
Proof.
  intros (r1 & E1 & Hi1 & HR1 & Hd1 & HF1) (r2 & E2 & Hi2 & HR2 & Hd2 & HF2). exists (r1 ++ r2).
  rewrite E2, E1, <- app_assoc, !Forall_app, List.filter_app. split_and!; [done|lia|..].
  - eapply Forall_impl; [exact HR1|]. intros r. by apply item_record_weaken.
  - eapply Forall_impl; [exact HR2|]. intros r. by apply item_record_weaken.
  - eapply Forall_impl; [exact Hd1|]. intros a (n & Hn & Ha). exists n. split; [lia|done].
  - eapply Forall_impl; [exact Hd2|]. intros a (n & Hn & Ha). exists n. split; [lia|done].
  - apply Forall2_app.
    + apply Forall2_same_length_lookup in HF1 as [Hlen HF1]. apply Forall2_same_length_lookup. split; [done|].
      intros i item a Hit Ha. specialize (HF1 i item a Hit Ha). rewrite Forall_lookup in Hd1. specialize (Hd1 i a Ha).
      unfold stored_in in *. rewrite chunks_of_app, (chunks_of_other event_id project_id (ids w1) (ids w') (ids w) (ids w1) _ r2);
        [by rewrite app_nil_r|done|by left|done].
    + apply Forall2_same_length_lookup in HF2 as [Hlen HF2]. apply Forall2_same_length_lookup. split; [done|].
      intros i item a Hit Ha. specialize (HF2 i item a Hit Ha). rewrite Forall_lookup in Hd2. specialize (Hd2 i a Ha).
      unfold stored_in in *. rewrite chunks_of_app, (chunks_of_other event_id project_id (ids w) (ids w1) (ids w1) (ids w') _ r1);
        [done|done|by right|done].
Qed.

(** An item that is no attachment. *)
Lemma items_stored_independent {A} event_id project_id item (m : store A) w w' a :
  writes independent m -> m w = Some (w', Ok a) -> is_attachment item = false ->
  items_stored event_id project_id [item] w w' [].
Proof.
  intros Hm (recs & Hs & Hi & HP)%Hm Ha. exists recs. cbn. rewrite Ha. split_and!; [done|done|..|done|done].
  eapply Forall_impl; [exact HP|]. by left.
Qed.

Lemma items_stored_none event_id project_id item w : is_attachment item = false ->
  items_stored event_id project_id [item] w w [].
Proof. intros Ha. exists []. cbn. by rewrite Ha, app_nil_r. Qed.

Lemma items_stored_attachment event_id project_id item w w' a :
  0 < attachment_chunk_size config -> is_attachment item = true ->
  produce_attachment_chunks config event_id project_id item w = Some (w', Ok a) ->
  items_stored (Some event_id) project_id [item] w w' [a].
Proof.
  intros Hsize Ha (recs & Hs & Hi & Hd & Hall & Hst)%attachment_ok; [|done]. exists recs. cbn. rewrite Ha.
  split_and!; [done|done|..|by constructor|by constructor].
  eapply Forall_impl; [exact Hall|]. intros r Hr. right. by exists event_id, (ChunkedAttachment.id a).
Qed.

(** One item of the loop. *)
Definition store_item (message : StoreEnvelope) (item : Item) (attachments : list ChunkedAttachment)
  : store (list ChunkedAttachment) := store_items config message [item] attachments.

Lemma store_items_cons message item items attachments w :
  store_items config message (item :: items) attachments w
  = (store_item message item attachments ≫= store_items config message items) w.
Proof.
  unfold store_item. cbn [store_items]. set (m := match item_ty item with ItemType.Attachment => _ | _ => _ end).
  unfold mbind at 1 2 3, store_bind. destruct (m w) as [ [w1 [a|e] ]|]; done.
Qed.

Lemma store_item_ok message item attachments w w' r :
  0 < attachment_chunk_size config -> store_item message item attachments w = Some (w', Ok r) ->
  exists new, r = attachments ++ new
    /\ items_stored (Envelope.event_id (se_envelope message)) (project_id (se_scoping message)) [item] w w' new.
Proof.
  intros Hsize. unfold store_item. cbn [store_items]. intros (w1 & b & Hm & [-> ->]%store_ret_ok)%store_bind_ok.
  destruct (decide (item_ty item = ItemType.Attachment)) as [Ht|Ht].
  - rewrite Ht in Hm. destruct (Envelope.event_id (se_envelope message)) as [eid|]; [|done].
    apply store_bind_ok in Hm as (w2 & eid' & [-> ->]%store_ret_ok & (w3 & a & Ha & [-> <-]%store_ret_ok)%store_bind_ok).
    exists [a]. split; [done|]. apply items_stored_attachment; [done|by apply bool_decide_eq_true_2|done].
  - exists []. rewrite app_nil_r. assert (is_attachment item = false) as Hia by by apply bool_decide_eq_false_2.
    destruct (item_ty item) eqn:Hty; try done;
      try (apply store_ret_ok in Hm as [-> ->]; split; [done|]; by apply items_stored_none).
    + destruct (Envelope.event_id (se_envelope message)) as [eid|]; [|done].
      apply store_bind_ok in Hm as (w2 & eid' & [-> ->]%store_ret_ok & (w3 & [] & Ha & [-> <-]%store_ret_ok)%store_bind_ok).
      split; [done|]. eapply items_stored_independent; [|exact Ha|done]. by apply writes_independent.
    + apply store_bind_ok in Hm as (w3 & [] & Ha & [-> <-]%store_ret_ok). split; [done|].
      eapply items_stored_independent; [|exact Ha|done]. apply writes_sessions.
    + apply store_bind_ok in Hm as (w3 & [] & Ha & [-> <-]%store_ret_ok). split; [done|].
      eapply items_stored_independent; [|exact Ha|done]. apply writes_sessions.
    + apply store_bind_ok in Hm as (w3 & [] & Ha & [-> <-]%store_ret_ok). split; [done|].
      eapply items_stored_independent; [|exact Ha|done]. apply writes_metrics.
Qed.

Lemma store_items_ok message items : 0 < attachment_chunk_size config -> forall attachments w w' r,
  store_items config message items attachments w = Some (w', Ok r) ->
  exists new, r = attachments ++ new
    /\ items_stored (Envelope.event_id (se_envelope message)) (project_id (se_scoping message)) items w w' new.
Proof.
  intros Hsize. induction items as [|item items IH]; intros attachments w w' r.
  - intros [-> ->]%store_ret_ok. exists []. rewrite app_nil_r. split; [done|]. exists []. by rewrite app_nil_r.
  - rewrite store_items_cons. intros (w1 & b & (new1 & -> & Hn1)%store_item_ok & (new2 & -> & Hn2)%IH)%store_bind_ok; [|done].
    exists (new1 ++ new2). rewrite app_assoc. split; [done|]. exact (items_stored_app _ _ [item] _ _ _ _ _ _ Hn1 Hn2).
Qed.

(** ** Lemmas: the loop ends *)

Lemma returns_counts message counts : returns (send_counts config message counts).
Proof.
  induction counts as [|[ [st e] q] counts IH]; cbn; [apply returns_ret|]. apply returns_bind; [|done].
  case_bool_decide; [apply returns_produce|apply returns_ret].
Qed.

Lemma returns_aggregates message items : returns (send_aggregates config message items).
Proof.
  induction items as [|item items IH]; cbn [send_aggregates]; [apply returns_ret|].
  apply returns_bind; [apply returns_counts|done].
Qed.

Lemma returns_sessions org project retention client item :
  returns (produce_sessions config org project retention client item).
Proof.
  unfold produce_sessions. destruct (item_ty item); try apply returns_ret.
  - destruct (SessionUpdate.parse _); [|apply returns_ret]. apply returns_produce.
  - destruct (SessionAggregates.parse _); [|apply returns_ret]. apply returns_bind; [intros w; by eexists _, _|].
    intros received. apply returns_aggregates.
Qed.

Lemma returns_metrics org project item : returns (produce_metrics config org project item).
Proof.
  unfold produce_metrics. generalize (match parse_buckets (Item.payload item) with Ok b => b | Err _ => [] end) as buckets.
  induction buckets as [|b buckets IH]; cbn; [apply returns_ret|]. apply returns_bind; [apply returns_produce|done].
Qed.

Lemma returns_require event_id : returns (require_id event_id).
Proof. intros w. destruct event_id; by eexists _, _. Qed.

Lemma returns_items message items : 0 < attachment_chunk_size config -> forall attachments,
  returns (store_items config message items attachments).
Proof.
  intros Hsize. induction items as [|item items IH]; intros attachments; cbn [store_items]; [apply returns_ret|].
  apply returns_bind; [|done]. destruct (item_ty item); try apply returns_ret;
    repeat first [apply returns_ret | apply returns_require | apply returns_sessions | apply returns_metrics
      | apply returns_produce | apply chunk_loop_returns; [done|lia] | apply returns_bind; [|intros ?] ].
  intros w. by eexists _, _.
Qed.

Lemma returns_attachments topic event_id project_id attachments :
  returns (store_attachments config topic event_id project_id attachments).
Proof.
  induction attachments as [|a l IH]; cbn [store_attachments]; [apply returns_ret|].
  apply returns_bind; [apply returns_require|]. intros id. apply returns_bind; [apply returns_produce|done].
Qed.

Lemma returns_handle message : 0 < attachment_chunk_size config -> returns (handle_store_envelope config message).
Proof.
  intros Hsize. unfold handle_store_envelope. apply returns_bind; [by apply returns_items|]. intros attachments.
  destruct (Envelope.get_item_by _ _); [|apply returns_attachments].
  apply returns_bind; [apply returns_require|]. intros id. apply returns_produce.
Qed.

(** With an attachment the event goes the way of the attachments. *)
Lemma event_topic_attachment envelope event_item :
  List.filter is_attachment (Envelope.items envelope) <> [] -> event_topic envelope event_item = KafkaTopic.Attachments.
Proof.
  intros Hne. unfold event_topic, Envelope.get_item_by.
  destruct (List.find is_slow_item (Envelope.items envelope)) as [i|] eqn:Hf; [done|]. destruct Hne.
  pose proof (List.find_none _ _ Hf) as Hnone. clear Hf. induction (Envelope.items envelope) as [|item items IH]; [done|].
  cbn. pose proof (Hnone item (or_introl eq_refl)) as [Ha _]%orb_false_elim. unfold is_attachment at 1. rewrite Ha.
  apply IH. intros x Hx. apply Hnone. by right.
Qed.

(** ** Lemmas: session counts *)

(** The sessions with a status that the records stand for. *)
Definition session_quantity (status : SessionStatus) (r : SentRecord) : Z :=
  match sent_message r with
  | KafkaMessage.Session m => if bool_decide (SessionMessage.status m = status) then SessionMessage.quantity m else 0
  | _ => 0
  end.
Definition z_total (l : list Z) : Z := foldr Z.add 0 l.
Definition session_total (status : SessionStatus) (recs : list SentRecord) : Z := z_total (session_quantity status <$> recs).

Lemma z_total_app l k : z_total (l ++ k) = z_total l + z_total k.
Proof. unfold z_total. induction l as [|x l IH]; cbn; lia. Qed.

Lemma session_total_app status l k : session_total status (l ++ k) = session_total status l + session_total status k.
Proof. unfold session_total. by rewrite fmap_app, z_total_app. Qed.

(** The count of an aggregate with a status. *)
Definition count_of (status : SessionStatus) (count : SessionStatus * Z * Z) : Z :=
  if bool_decide (count.1.1 = status) then count.2 else 0.
Definition counted (status : SessionStatus) (item : SessionAggregateItem) : Z :=
  z_total (count_of status <$> aggregate_counts item).
Definition counts_valid (item : SessionAggregateItem) : Prop :=
  Forall (fun count : SessionStatus * Z * Z => 0 <= count.2) (aggregate_counts item).

(** Records of sessions with at least one session each, in their topic. *)
Definition session_record (r : SentRecord) : Prop :=
  sent_topic r = KafkaTopic.Sessions /\ exists m, sent_message r = KafkaMessage.Session m /\ 0 < SessionMessage.quantity m.

Lemma send_counts_ok message counts : Forall (fun count : SessionStatus * Z * Z => 0 <= count.2) counts ->
  forall w w', send_counts config message counts w = Some (w', Ok ()) ->
  exists recs, sent w' = sent w ++ recs /\ Forall session_record recs
    /\ (length recs <= length counts)%nat
    /\ forall status, session_total status recs = z_total (count_of status <$> counts).
Proof.
  induction 1 as [|[ [st e] q] counts Hq _ IH]; intros w w'; cbn [send_counts].
  - intros [-> _]%store_ret_ok. exists []. by rewrite app_nil_r.
  - intros (w1 & [] & Hm & (recs & Hs & Hall & Hlen & Ht)%IH)%store_bind_ok. cbn in Hq. case_bool_decide as Hpos.
    + apply produce_ok in Hm as (r & Hs1 & _ & Htopic & Hmsg & _). exists (r :: recs).
      rewrite Hs, Hs1, <- app_assoc. split_and!; [done| |cbn; lia|].
      * constructor; [|done]. split; [done|]. eexists. split; [exact Hmsg|]. done.
      * intros status. specialize (Ht status). unfold session_total, session_quantity, count_of in *. cbn [fmap list_fmap z_total foldr].
        rewrite Hmsg. cbn [SessionMessage.status SessionMessage.quantity SessionMessage.with_count fst snd].
        unfold z_total in *. cbn [foldr]. by rewrite Ht.
    + apply store_ret_ok in Hm as [-> _]. exists recs. split_and!; [done|done|cbn; lia|]. intros status. rewrite Ht.
      assert (q = 0) as -> by lia. unfold z_total, count_of. cbn. by case_bool_decide.
Qed.

Lemma send_aggregates_ok message items : Forall counts_valid items ->
  forall w w', send_aggregates config message items w = Some (w', Ok ()) ->
  exists recs, sent w' = sent w ++ recs /\ Forall session_record recs
    /\ (length recs <= 4 * length items)%nat
    /\ forall status, session_total status recs = z_total (counted status <$> items).
Proof.
  induction 1 as [|item items Hv _ IH]; intros w w'; cbn [send_aggregates].
  - intros [-> _]%store_ret_ok. exists []. by rewrite app_nil_r.
  - intros (w1 & [] & (r1 & Hs1 & Hr1 & Hl1 & Ht1)%send_counts_ok & (r2 & Hs2 & Hr2 & Hl2 & Ht2)%IH)%store_bind_ok; [|done].
    exists (r1 ++ r2). rewrite Hs2, Hs1, <- app_assoc, Forall_app, length_app. cbn in Hl1 |- *.
    split_and!; [done|done|done|lia|]. intros status. by rewrite session_total_app, Ht1, Ht2.
Qed.

End Runs.

(** ** Theorems *)

(** C17: Storing an envelope always ends when chunks have at least a byte.  When it succeeds
    for an envelope with an event, the event is the last message, with the payload of the
    first event item; before it come the chunks of all attachments.  The event lists the
    attachments in the order of the items with their names and sizes, and the chunks of each,
    numbered from zero, not empty and within the configured size, concatenate to its payload.
    Chunks and event are in the same topic and have the same key, so that a consumer of the
    partition sees all chunks first. *)
Theorem envelope_stored `{StoreEnv, RequestEnv, SerdeJson SessionUpdate, SerdeJson SessionAggregates}
  (config : StoreSettings) (message : StoreEnvelope) (event_item : Item) (w : StoreWorld) :
  (forall n m, uuid_text (new_v4 n) = uuid_text (new_v4 m) -> n = m) ->
  0 < attachment_chunk_size config ->
  Envelope.get_item_by (se_envelope message) is_event_item = Some event_item ->
  exists w' r, handle_store_envelope config message w = Some (w', r)
  /\ forall u, r = Ok u -> exists eid recs last attachments,
    Envelope.event_id (se_envelope message) = Some eid /\ sent w' = sent w ++ recs ++ [last]
    /\ record_of (event_topic (se_envelope message) (Some event_item))
         (KafkaMessage.Event
            (EventMessage.MkEventKafkaMessage (Item.payload event_item) (unix_secs (se_start_time message)) eid
               (project_id (se_scoping message)) (client_addr (Envelope.meta (se_envelope message))) attachments)) last
    /\ Forall2 (stored_in config recs) (List.filter is_attachment (Envelope.items (se_envelope message))) attachments
    /\ (attachments <> [] -> sent_topic last = KafkaTopic.Attachments)
    /\ forall a r, a ∈ attachments -> r ∈ recs -> chunk_of (ChunkedAttachment.id a) r <> None ->
         sent_topic r = sent_topic last /\ (eid <> 0 -> sent_key r = sent_key last).
Proof.
  intros Hids Hsize Hevent. destruct (returns_handle config message Hsize w) as (w' & r & Hrun). exists w', r.
  split; [done|]. intros [] ->. unfold handle_store_envelope in Hrun. rewrite Hevent in Hrun.
  apply store_bind_ok in Hrun as (w1 & atts & (new & -> & recs & Hs & _ & Hrecs & _ & Hstored)%store_items_ok & Hrun); [|done..].
  destruct (Envelope.event_id (se_envelope message)) as [eid|]; [|done].
  apply store_bind_ok in Hrun as (w2 & id & [-> <-]%store_ret_ok & (last & Hs2 & _ & Hlast)%produce_ok).
  assert (new <> [] -> sent_topic last = KafkaTopic.Attachments) as Htopic.
  { intros Hne. destruct Hlast as [-> _]. apply event_topic_attachment. intros Hnil. rewrite Hnil in Hstored.
    by inversion Hstored; subst. }
  exists eid, recs, last, new. rewrite Hs2, Hs, <- app_assoc. split_and!; [done|done|done|done|done|].
  intros a r Ha Hr Hc. rewrite Forall_forall in Hrecs. specialize (Hrecs r Hr).
  rewrite Htopic by (intros ->; by apply elem_of_nil in Ha). destruct Hlast as (_ & _ & Hkey).
  destruct Hrecs as [Hi|(eid' & id & [= <-] & _ & c & (Hct & Hcm & Hck) & _ & Hce & _)].
  - destruct Hc. unfold chunk_of. unfold independent in Hi. by destruct (sent_message r).
  - split; [done|]. intros Hz. rewrite Hkey, Hck; [done| |done]. cbn. by rewrite Hce.
Qed.

(** Exploding pre-aggregated sessions keeps their numbers: the messages for the first
    hundred aggregates, at most four for each, carry for every status in total the count
    that the aggregates have, and no message stands for zero sessions. *)
Theorem aggregates_conserved `{StoreEnv, RequestEnv, SerdeJson SessionUpdate, SerdeJson SessionAggregates}
  (config : StoreSettings) (org_id project_id retention : Z) (client : option string) (aggregates : SessionAggregates)
  (w w' : StoreWorld) :
  Forall counts_valid (SessionAggregates.aggregates aggregates) ->
  produce_sessions_from_aggregate config org_id project_id retention client aggregates w = Some (w', Ok ()) ->
  exists recs, sent w' = sent w ++ recs /\ Forall session_record recs
    /\ (length recs <= 4 * MAX_EXPLODED_SESSIONS)%nat
    /\ forall status, session_total status recs
         = z_total (counted status <$> take MAX_EXPLODED_SESSIONS (SessionAggregates.aggregates aggregates)).
Proof.
  intros Hv. unfold produce_sessions_from_aggregate. intros (w1 & t & [= <- _] & Hrun)%store_bind_ok.
  apply send_aggregates_ok in Hrun as (recs & Hs & Hr & Hl & Ht); [|by apply Forall_take].
  exists recs. split_and!; [done|done| |done]. rewrite length_take in Hl. lia.
Qed.

(** A session that crashed has at least one error, and every error count fits 16 bits. *)
Theorem clamp_errors_bounds errors status : 0 <= errors ->
  0 <= clamp_errors errors status <= 65535
  /\ (status = SessionStatus.Crashed -> 1 <= clamp_errors errors status)
  /\ (errors <= 65535 -> status <> SessionStatus.Crashed -> clamp_errors errors status = errors).
Proof. intros He. unfold clamp_errors. case_bool_decide; split_and!; intros; subst; try done; lia. Qed.

(** ** Witnesses *)

Section Witnesses.

(** Ids that are numbers written in strokes, and a Kafka that takes everything. *)
Fixpoint strokes (n : nat) : string := match n with O => "" | S n => "x" +:+ strokes n end.
Definition quiet_store_env : StoreEnv := {|
  session_to_json _ := Ok "session";
  metric_to_json _ := Ok "metric";
  message_to_msgpack _ := Ok "message";
  send_error _ _ _ _ := None;
  new_v4 n := Z.of_nat (S n);
  uuid_text u := strokes (Z.to_nat u);
  parse_uuid _ := None;
  new_v5 _ := 5;
  parse_buckets _ := Err (MkJsonError "no metrics");
  store_now _ := 1600000000;
  unix_secs t := t;
|}.
#[local] Existing Instance quiet_store_env.
#[local] Existing Instance sample_request_env.
Definition no_update : SerdeJson SessionUpdate :=
  {| from_slice _ := Err (MkJsonError "none"); to_json_string _ := Err (MkJsonError "none") |}.
Definition no_aggregates : SerdeJson SessionAggregates :=
  {| from_slice _ := Err (MkJsonError "none"); to_json_string _ := Err (MkJsonError "none") |}.
#[local] Existing Instance no_update.
#[local] Existing Instance no_aggregates.

Definition store_settings : StoreSettings :=
  MkStoreSettings (MkTopicNames "events" "attachments" "transactions" "outcomes" "sessions" "metrics") 3.
Definition log_item : Item :=
  Item.set_payload (Item.new ItemType.Attachment) ContentType.Text "ten bytes.".
Definition store_message : StoreEnvelope :=
  MkStoreEnvelope
    (Envelope.MkEnvelope
       (EnvelopeHeaders.MkEnvelopeHeaders (Some 77) (sample_meta sample_dsn) None None None ∅) [sample_event; log_item])
    0 {| Quota.organization_id := 1; Quota.project_id := 42; Quota.project_key := ProjectKey.MkProjectKey "a"; Quota.key_id := None |}.
Definition empty_world : StoreWorld := MkStoreWorld [] 0 0 0.

Lemma strokes_length n : String.length (strokes n) = n.
Proof. induction n as [|n IH]; [done|]. cbn. by rewrite IH. Qed.

Lemma envelope_stored_witness :
  exists w', handle_store_envelope store_settings store_message empty_world = Some (w', Ok ())
    /\ length (sent w') = 5%nat
    /\ exists recs last attachments, sent w' = recs ++ [last]
         /\ Forall2 (stored_in store_settings recs) [log_item] attachments.
Proof.
  destruct (envelope_stored store_settings store_message sample_event empty_world) as (w' & r & Hrun & Hok).
  - intros n m Heq%(f_equal String.length). cbn in Heq. rewrite !strokes_length in Heq. lia.
  - done.
  - done.
  - assert (r = Ok ()) as -> by (vm_compute in Hrun; congruence).
    destruct (Hok () eq_refl) as (eid & recs & last & atts & _ & Hs & _ & Hst & _).
    exists w'. split; [done|]. split; [vm_compute in Hrun; injection Hrun as <-; done|]. by exists recs, last, atts.
Defined.

Definition two_aggregates : SessionAggregates :=
  SessionAggregates.MkSessionAggregates
    [SessionAggregateItem.MkSessionAggregateItem 1600000000 None 5 0 1 2;
     SessionAggregateItem.MkSessionAggregateItem 1600000060 (Some "user") 7 3 0 0]
    (SessionAttributes.MkSessionAttributes "app@1.0" None None None).

Lemma aggregates_conserved_witness :
  exists w' recs, produce_sessions_from_aggregate store_settings 1 42 90 None two_aggregates empty_world = Some (w', Ok ())
    /\ sent w' = recs /\ session_total SessionStatus.Exited recs = 12 /\ length recs = 5%nat.
Proof.
  destruct (produce_sessions_from_aggregate store_settings 1 42 90 None two_aggregates empty_world) as [ [w' [ []|e] ]|] eqn:E;
    [|by vm_compute in E..].
  destruct (aggregates_conserved store_settings 1 42 90 None two_aggregates empty_world w') as (recs & Hs & _ & _ & Ht);
    [by repeat constructor|done|].
  exists w', recs. rewrite (Ht SessionStatus.Exited). split_and!; [done|done|by vm_compute|].
  vm_compute in E. injection E as <-. cbn in Hs. by rewrite <- Hs.
Defined.

(** With a chunk size of zero an attachment is never finished. *)
Lemma chunk_loop_diverges_example fuel w' n :
  chunk_loop (MkStoreSettings (topics store_settings) 0) fuel 77 42 "id" "payload" 0 0 empty_world <> Some (w', Ok n).
Proof. apply chunk_loop_diverges; [done|]. cbn. lia. Qed.

End Witnesses.
