(* ===== verification/Projects.v ===== *)
(** * relay-server: projects and the project cache (actors/project.rs, project_cache.rs)

    A [Project] caches the state of one project key, the receivers that wait for
    it, its rate limits and its metrics aggregator; the [ProjectCache] actor owns
    all projects.  Handlers run in the monad [act]: they read the clocks, allocate
    channels and actor addresses, and send messages, which are recorded as effects. *)

From Stdlib Require Import Ascii String.
From S2P Require Import PiiConfig Breakdowns Prelude Strings Floats Types Common Protocol Quota RateLimit Filters Sampling Extractors Envelopes EnvelopeLimiter MetricProtocol Aggregation Aggregator.

Open Scope string_scope.
Open Scope Z_scope.
Open Scope list_scope.

(** ** Reasons and settings *)

Module DiscardReason.

Inductive DiscardReason :=
| Duplicate | ProjectId | AuthVersion | AuthClient | NoData | EmptyEnvelope | TooLarge | DisallowedMethod
| ContentType | MultiProjectId | MissingMinidumpUpload | InvalidMinidump | SecurityReportType
| SecurityReport | Cors | Payload | InvalidJson | InvalidMsgpack | InvalidMultipart | InvalidTransaction
| InvalidEnvelope | ProjectState | DuplicateItem | NoEventPayload | Internal | ProcessUnreal
| TransactionSampled.

End DiscardReason.
Notation DiscardReason := DiscardReason.DiscardReason.

Module RelayMode.

Inductive RelayMode := Proxy | Static | Managed | Capture.

End RelayMode.
Notation RelayMode := RelayMode.RelayMode.

(** The settings that projects and the processing of envelopes read; expiry
    times and limits in seconds are [u32]. *)
Module Config.

Record Config := MkConfig {
  project_expiry : Z;
  project_grace : Z;
  miss_expiry : Z;
  relay_mode : RelayMode;
  aggregator_config : AggregatorConfig;
  processing_enabled : bool;
  max_secs_in_future : Z;
  max_secs_in_past : Z;
  max_session_secs_in_past : Z;
  max_event_size : Z;
  envelope_buffer_size : Z;
  envelope_expiry : Z;
}.

Definition project_cache_expiry (self : Config) : Duration := duration_from_secs (project_expiry self).
Definition cache_miss_expiry (self : Config) : Duration := duration_from_secs (miss_expiry self).
Definition project_grace_period (self : Config) : Duration := duration_from_secs (project_grace self).
Definition envelope_buffer_expiry (self : Config) : Duration := duration_from_secs (envelope_expiry self).

End Config.
Notation Config := Config.Config.

(** ** Project states *)

Inductive Outdated := Updated | SoftOutdated | HardOutdated.

#[global] Instance Outdated_eq_dec : EqDecision Outdated.
Proof. solve_decision. Defined.

Inductive Feature := MetricsExtraction | UnknownFeature.

#[global] Instance Feature_eq_dec : EqDecision Feature.
Proof. solve_decision. Defined.

(** The settings of a project; trusted relays by the bytes of their keys, the breakdowns
    as [Breakdowns] has them. *)
Record ProjectConfig := MkProjectConfig {
  allowed_domains : list string;
  filter_settings : FiltersConfig;
  event_retention : option Z;
  quotas : list Quota;
  dynamic_sampling : option SamplingConfig;
  features : list Feature;
  trusted_relays : list string;
  project_pii_config : option PiiConfig.PiiConfig;
  project_grouping_config : option Value;
  datascrubbing_settings : PiiConfig.DataScrubbingConfig;
  breakdowns_v2 : option (list (string * Breakdowns.BreakdownConfig));
}.

Definition default_filters_config : FiltersConfig :=
  MkFiltersConfig (MkFilterConfig false) (MkClientIps []) (MkFilterConfig false) (MkCspConfig [])
    (MkErrorMessages (MkGlobPatterns [])) (MkLegacyBrowsers false []) (MkFilterConfig false)
    (MkReleases (MkGlobPatterns [])).

Definition default_project_config : ProjectConfig :=
  MkProjectConfig ["*"] default_filters_config None [] None [] [] None None PiiConfig.new_disabled None.

Record PublicKeyConfig := MkPublicKeyConfig { public_key : ProjectKey; numeric_id : option Z }.

Module ProjectState.

Record ProjectState := MkProjectState {
  project_id : option ProjectId;
  last_change : option DateTime;
  is_disabled : bool;
  public_keys : list PublicKeyConfig;
  slug : option string;
  config : ProjectConfig;
  organization_id : option Z;
  last_fetch : Instant;
  is_invalid : bool;
}.

Definition missing (now : Instant) : ProjectState :=
  {| project_id := None; last_change := None; is_disabled := true; public_keys := []; slug := None;
     config := default_project_config; organization_id := None; last_fetch := now; is_invalid := false |}.

Definition allowed (now : Instant) : ProjectState :=
  let s := missing now in
  {| project_id := project_id s; last_change := last_change s; is_disabled := false;
     public_keys := public_keys s; slug := slug s; config := config s;
     organization_id := organization_id s; last_fetch := last_fetch s; is_invalid := is_invalid s |}.

Definition err (now : Instant) : ProjectState :=
  let s := missing now in
  {| project_id := project_id s; last_change := last_change s; is_disabled := is_disabled s;
     public_keys := public_keys s; slug := slug s; config := config s;
     organization_id := organization_id s; last_fetch := last_fetch s; is_invalid := true |}.

Definition get_public_key_config (self : ProjectState) : option PublicKeyConfig := head (public_keys self).
Definition disabled (self : ProjectState) : bool := is_disabled self.
Definition invalid (self : ProjectState) : bool := is_invalid self.

(** [Instant::elapsed] of [last_fetch] at the reading [now]. *)
Definition outdated (now : Instant) (self : ProjectState) (cfg : Config) : Outdated :=
  let expiry := match project_id self with
                | None => Config.cache_miss_expiry cfg
                | Some _ => Config.project_cache_expiry cfg
                end in
  let elapsed := Z.max 0 (now - last_fetch self) in
  if bool_decide (expiry + Config.project_grace_period cfg <= elapsed) then HardOutdated
  else if bool_decide (expiry <= elapsed) then SoftOutdated
  else Updated.

Definition is_valid_project_id (self : ProjectState) (stated_id : option ProjectId) : bool :=
  match project_id self, stated_id with
  | Some actual_id, Some stated_id => bool_decide (actual_id = stated_id)
  | _, _ => true
  end.

Definition is_valid_origin `{FilterEnv} (self : ProjectState) (origin : option string) : bool :=
  match origin with
  | None => true
  | Some origin =>
      let allowed := allowed_domains (config self) in
      if bool_decide (allowed = []) then false
      else csp_filter.matches_any_origin (Some origin) (csp_filter.from <$> allowed)
  end.

Definition is_matching_key (self : ProjectState) (project_key : ProjectKey) : bool :=
  match get_public_key_config self with
  | Some key_config => bool_decide (public_key key_config = project_key)
  | None => bool_decide (project_id self = None)
  end.

Definition scope_request (self : ProjectState) (meta : RequestMeta) : Scoping :=
  let scoping := get_partial_scoping meta in
  {| Quota.organization_id := default 0 (organization_id self);
     Quota.project_id := default (Quota.project_id scoping) (project_id self);
     Quota.project_key := Quota.project_key scoping;
     Quota.key_id := get_public_key_config self ≫= numeric_id |}.

Definition get_quotas (self : ProjectState) : list Quota := quotas (config self).

Definition check_disabled (now : Instant) (self : ProjectState) (cfg : Config) : result DiscardReason () :=
  if bool_decide (outdated now self cfg = HardOutdated) then Ok ()
  else if invalid self then Err DiscardReason.ProjectState
  else if disabled self then Err DiscardReason.ProjectId
  else Ok ().

Definition check_request `{FilterEnv} (now : Instant) (self : ProjectState) (meta : RequestMeta) (cfg : Config)
  : result DiscardReason () :=
  if negb (is_valid_project_id self (meta_project_id meta)) then Err DiscardReason.ProjectId
  else if negb (is_valid_origin self (RequestMeta.origin meta)) then Err DiscardReason.Cors
  else if negb (is_matching_key self (meta_public_key meta)) then Err DiscardReason.ProjectId
  else _ ← check_disabled now self cfg; Ok ().

Definition sanitize (self : ProjectState) : ProjectState :=
  let c := config self in
  {| project_id := project_id self; last_change := last_change self; is_disabled := is_disabled self;
     public_keys := public_keys self; slug := slug self;
     config := MkProjectConfig (allowed_domains c) (filter_settings c) (event_retention c)
                 (List.filter Quota.is_valid (quotas c)) (dynamic_sampling c) (features c)
                 (trusted_relays c) (project_pii_config c) (project_grouping_config c) (datascrubbing_settings c)
                 (breakdowns_v2 c);
     organization_id := organization_id self; last_fetch := last_fetch self; is_invalid := is_invalid self |}.

Definition has_feature (self : ProjectState) (feature : Feature) : bool :=
  bool_decide (feature ∈ features (config self)).

End ProjectState.
Notation ProjectState := ProjectState.ProjectState.

(** ** Effects *)

(** An actor address and a oneshot channel are numbers, allocated in order. *)
Inductive AggregatorMessage := InsertMetrics (metrics : list Metric) | MergeBuckets (buckets : list Bucket).

Inductive Effect :=
(** [UpdateProjectState] sent to the project cache *)
| UpdateProjectState (project_key : ProjectKey) (no_cache : bool)
| StartAggregator (addr : nat) (project_key : ProjectKey) (config : AggregatorConfig)
| SendToAggregator (addr : nat) (message : AggregatorMessage)
(** all receivers of a channel get the state, or an error if the sender is dropped *)
| Resolve (channel : nat) (state : option ProjectState)
| TrackOutcomes (outcomes : list Enforcement.TrackOutcome).

Record World := MkWorld {
  instants : nat -> Instant;
  system_times : nat -> SystemTime;
  next_channel : nat;
  next_addr : nat;
  effects : list Effect;
}.

Definition act (A : Type) : Type := World -> A * World.

#[global] Instance act_ret : MRet act := fun A a w => (a, w).
#[global] Instance act_bind : MBind act := fun A B f m w => let '(a, w) := m w in f a w.

Definition instant_now : act Instant := fun w =>
  (instants w 0%nat,
   MkWorld (fun n => instants w (S n)) (system_times w) (next_channel w) (next_addr w) (effects w)).
Definition system_now : act SystemTime := fun w =>
  (system_times w 0%nat,
   MkWorld (instants w) (fun n => system_times w (S n)) (next_channel w) (next_addr w) (effects w)).
Definition fresh_channel : act nat := fun w =>
  (next_channel w, MkWorld (instants w) (system_times w) (S (next_channel w)) (next_addr w) (effects w)).
Definition fresh_addr : act nat := fun w =>
  (next_addr w, MkWorld (instants w) (system_times w) (next_channel w) (S (next_addr w)) (effects w)).
Definition emit (e : Effect) : act () := fun w =>
  ((), MkWorld (instants w) (system_times w) (next_channel w) (next_addr w) (effects w ++ [e])).

(** ** Projects *)

Inductive ProjectError := FetchFailed | ScheduleFailed.

(** [Response]: an immediate reply, or a future on the receiver of a channel. *)
Inductive Response := Reply (r : result ProjectError ProjectState) | Future (channel : nat).

Record CheckedEnvelope := MkCheckedEnvelope { envelope : option Envelope; ce_rate_limits : RateLimits }.
Record CheckEnvelopeResponse := MkCheckEnvelopeResponse {
  cer_result : result DiscardReason CheckedEnvelope;
  cer_scoping : Scoping;
}.

Module Project.

Record StateChannel := MkStateChannel { channel_id : nat; ch_no_cache : bool }.

Inductive AggregatorState := Unknown | Available (addr : nat) | Unavailable.

Record Project := MkProject {
  last_updated_at : Instant;
  project_key : ProjectKey;
  config : Config;
  aggregator : AggregatorState;
  state : option ProjectState;
  state_channel : option StateChannel;
  rate_limits : RateLimits;
  last_no_cache : Instant;
}.

Definition set_last_updated_at (p : Project) (t : Instant) : Project :=
  MkProject t (project_key p) (config p) (aggregator p) (state p) (state_channel p) (rate_limits p) (last_no_cache p).
Definition set_aggregator (p : Project) (a : AggregatorState) : Project :=
  MkProject (last_updated_at p) (project_key p) (config p) a (state p) (state_channel p) (rate_limits p) (last_no_cache p).
Definition set_state (p : Project) (s : option ProjectState) : Project :=
  MkProject (last_updated_at p) (project_key p) (config p) (aggregator p) s (state_channel p) (rate_limits p) (last_no_cache p).
Definition set_state_channel (p : Project) (c : option StateChannel) : Project :=
  MkProject (last_updated_at p) (project_key p) (config p) (aggregator p) (state p) c (rate_limits p) (last_no_cache p).
Definition set_rate_limits (p : Project) (r : RateLimits) : Project :=
  MkProject (last_updated_at p) (project_key p) (config p) (aggregator p) (state p) (state_channel p) r (last_no_cache p).
Definition set_last_no_cache (p : Project) (t : Instant) : Project :=
  MkProject (last_updated_at p) (project_key p) (config p) (aggregator p) (state p) (state_channel p) (rate_limits p) t.

Definition new (key : ProjectKey) (config : Config) : act Project :=
  last_updated_at ← instant_now;
  last_no_cache ← instant_now;
  mret (MkProject last_updated_at key config Unknown None None RateLimits.new last_no_cache).

Definition merge_rate_limits (self : Project) (rate_limits : RateLimits) : Project :=
  set_rate_limits self (RateLimits.merge (Project.rate_limits self) rate_limits).

Definition refresh_updated_timestamp (self : Project) : act Project :=
  now ← instant_now; mret (set_last_updated_at self now).

Definition get_or_create_aggregator (self : Project) : act (Project * option nat) :=
  self ← match aggregator self with
         | Unknown =>
             addr ← fresh_addr;
             emit (StartAggregator addr (project_key self) (Config.aggregator_config (config self)));;
             mret (set_aggregator self (Available addr))
         | _ => mret self
         end;
  mret (self, match aggregator self with Available addr => Some addr | _ => None end).

Definition merge_buckets (self : Project) (buckets : list Bucket) : act Project :=
  '(self, aggregator) ← get_or_create_aggregator self;
  match aggregator with
  | Some addr => emit (SendToAggregator addr (MergeBuckets buckets));; mret self
  | None => mret self
  end.

Definition insert_metrics (self : Project) (metrics : list Metric) : act Project :=
  '(self, aggregator) ← get_or_create_aggregator self;
  match aggregator with
  | Some addr => emit (SendToAggregator addr (InsertMetrics metrics));; mret self
  | None => mret self
  end.

Definition update_aggregator (self : Project) : act Project :=
  match state self with
  | None => mret self
  | Some s =>
      now ← instant_now;
      let metrics_allowed :=
        match ProjectState.check_disabled now s (config self) with Ok _ => true | Err _ => false end in
      match metrics_allowed, aggregator self with
      | true, Unavailable => '(self, _) ← get_or_create_aggregator self; mret self
      | true, _ => mret self
      | false, _ => mret (set_aggregator self Unavailable)
      end
  end.

(** [last_no_cache.elapsed() < 1s] degrades the request. *)
Definition limit_no_cache (self : Project) (no_cache : bool) : act (Project * bool) :=
  if no_cache then
    now ← instant_now;
    if bool_decide (Z.max 0 (now - last_no_cache self) < duration_from_secs 1) then mret (self, false)
    else now ← instant_now; mret (set_last_no_cache self now, true)
  else mret (self, false).

(** The receiver of the running request, or of a new one. *)
Definition request_state (self : Project) (no_cache : bool) : act (Project * nat) :=
  let start channel :=
    emit (UpdateProjectState (project_key self) no_cache);;
    mret (set_state_channel self (Some (MkStateChannel channel no_cache)), channel) in
  match state_channel self with
  | Some channel =>
      if ch_no_cache channel || negb no_cache then mret (self, channel_id channel)
      else start (channel_id channel)
  | None => channel ← fresh_channel; start channel
  end.

(** The answer from the cache, or from a request. *)
Definition answer_state (self : Project) (no_cache : bool) (outdated : Outdated) : act (Project * Response) :=
  match no_cache, state self, outdated with
  | false, Some s, Updated => mret (self, Reply (Ok s))
  | _, _, _ =>
      let cached_state :=
        match no_cache, state self, outdated with
        | false, Some s, SoftOutdated => Some s
        | _, _, _ => None
        end in
      '(self, receiver) ← request_state self no_cache;
      mret (self, match cached_state with Some rv => Reply (Ok rv) | None => Future receiver end)
  end.

Definition get_or_fetch_state (self : Project) (no_cache : bool) : act (Project * Response) :=
  '(self, no_cache) ← limit_no_cache self no_cache;
  outdated ← match state self with
             | Some s => now ← instant_now; mret (ProjectState.outdated now s (config self))
             | None => mret HardOutdated
             end;
  answer_state self no_cache outdated.

Definition update_state (self : Project) (state_result : option ProjectState) (no_cache : bool) : act Project :=
  match state_channel self with
  | None => mret self
  | Some channel =>
      if ch_no_cache channel && negb no_cache then mret self
      else
        self ← update_aggregator (set_state (set_state_channel self None) state_result);
        emit (Resolve (channel_id channel) (state self));;
        mret self
  end.

Definition scoping (self : Project) : option Scoping :=
  s ← state self;
  project_id ← ProjectState.project_id s;
  Some {| Quota.organization_id := default 0 (ProjectState.organization_id s);
          Quota.project_id := project_id;
          Quota.project_key := project_key self;
          Quota.key_id := ProjectState.get_public_key_config s ≫= numeric_id |}.

Definition scope_request (self : Project) (meta : RequestMeta) : Scoping :=
  match state self with
  | Some s => ProjectState.scope_request s meta
  | None => get_partial_scoping meta
  end.

(** The closure of the limiter: each check reads the clock. *)
Definition check_limits (rate_limits : RateLimits) (quotas : list Quota) (w : World) (i : ItemScoping) (_ : Z)
  : World * result DiscardReason RateLimits :=
  let '(now, w) := instant_now w in (w, Ok (RateLimits.check_with_quotas now rate_limits quotas i)).

Definition enforce_limits (self : Project) (env : Envelope) (scoping : Scoping)
  : act (Envelope * result DiscardReason (Enforcement * RateLimits)) :=
  fun w =>
    let quotas := match state self with Some s => ProjectState.get_quotas s | None => [] end in
    let check := check_limits (rate_limits self) quotas in
    let '(w, env, r) := EnvelopeLimiter.enforce check (EnvelopeLimiter.new w) env scoping in
    ((env, r), w).

Section Check.
Context `{FilterEnv}.

Definition check_envelope_scoped (self : Project) (env : Envelope) (scoping : Scoping)
  : act (Project * result DiscardReason CheckedEnvelope) :=
  checked ← match state self with
            | Some s => now ← instant_now; mret (ProjectState.check_request now s (Envelope.meta env) (config self))
            | None => mret (Ok ())
            end;
  match checked with
  | Err reason => mret (self, Err reason)
  | Ok _ =>
      now ← instant_now;
      let self := set_rate_limits self (RateLimits.clean_expired now (rate_limits self)) in
      '(env, r) ← enforce_limits self env scoping;
      match r with
      | Err reason => mret (self, Err reason)
      | Ok (enforcement, rate_limits) =>
          sys_now ← system_now;
          inst_now ← instant_now;
          emit (TrackOutcomes (Enforcement.track_outcomes sys_now inst_now enforcement env scoping));;
          let envelope := if Envelope.is_empty env then None else Some env in
          mret (self, Ok (MkCheckedEnvelope envelope rate_limits))
      end
  end.

Definition check_envelope (self : Project) (env : Envelope) : act (Project * CheckEnvelopeResponse) :=
  let scoping := scope_request self (Envelope.meta env) in
  '(self, result) ← check_envelope_scoped self env scoping;
  mret (self, MkCheckEnvelopeResponse result scoping).

End Check.
End Project.
Notation Project := Project.Project.

(** ** The project cache *)

#[global] Instance ProjectKey_countable : Countable ProjectKey :=
  inj_countable' ProjectKey.bytes ProjectKey.MkProjectKey (fun k => match k with ProjectKey.MkProjectKey _ => eq_refl end).

(** The answer to [FlushBuckets]: the buckets are dropped, returned, or sent to
    the envelope manager, which answers itself. *)
Inductive FlushResponse :=
| Dropped
| Returned (buckets : list Bucket)
| SendMetrics (buckets : list Bucket) (scoping : Scoping) (project_key : ProjectKey).

Module ProjectCache.

Record ProjectCache := MkProjectCache { config : Config; projects : gmap ProjectKey Project }.

Definition new (config : Config) : ProjectCache := MkProjectCache config ∅.

Definition set_project (self : ProjectCache) (key : ProjectKey) (p : Project) : ProjectCache :=
  MkProjectCache (config self) (<[key := p]> (projects self)).

(** Dropping a project drops the sender of its channel. *)
Definition drop_project (p : Project) : list Effect :=
  match Project.state_channel p with Some c => [Resolve (Project.channel_id c) None] | None => [] end.

Fixpoint emit_all (es : list Effect) : act () :=
  match es with [] => mret () | e :: es => emit e;; emit_all es end.

(** The settings are [u32] seconds: the sums stay within [Duration] and [Instant]. *)
Definition is_fresh (self : ProjectCache) (eviction_start : Instant) (p : Project) : bool :=
  let delta := 2 * Config.project_cache_expiry (config self) + Config.project_grace_period (config self) in
  bool_decide (eviction_start < Project.last_updated_at p + delta).

Definition evict_stale_project_caches (self : ProjectCache) : act ProjectCache :=
  eviction_start ← instant_now;
  emit_all (map_to_list (filter (fun kp => is_fresh self eviction_start kp.2 = false) (projects self))
              ≫= fun kp => drop_project kp.2);;
  mret (MkProjectCache (config self)
          (filter (fun kp => is_fresh self eviction_start kp.2 = true) (projects self))).

Definition get_or_create_project (self : ProjectCache) (key : ProjectKey) : act (ProjectCache * Project) :=
  match projects self !! key with
  | Some p => mret (self, p)
  | None => p ← Project.new key (config self); mret (set_project self key p, p)
  end.

(** Runs an operation on the project of a key, which is created if needed. *)
Definition with_project {A} (self : ProjectCache) (key : ProjectKey) (f : Project -> act (Project * A))
  : act (ProjectCache * A) :=
  '(self, p) ← get_or_create_project self key;
  '(p, a) ← f p;
  mret (set_project self key p, a).

Definition with_project_ (self : ProjectCache) (key : ProjectKey) (f : Project -> act Project) : act ProjectCache :=
  '(self, _) ← with_project self key (fun p => p ← f p; mret (p, ())); mret self.

(** The first part of the handler of [UpdateProjectState], up to the first message
    to a project source. *)
Definition handle_update_project_state (self : ProjectCache) (key : ProjectKey) : act ProjectCache :=
  with_project_ self key Project.refresh_updated_timestamp.

(** The chain of futures: [local], [redis] and [upstream] are the answers of the
    sources, [None] if a source is not there or a mailbox is closed; [now] is the
    clock when the state is made up. *)
Definition fetch_project_state (now : Instant) (mode : RelayMode) (local : option (option ProjectState))
    (redis : option (option (option ProjectState))) (upstream : option (option ProjectState))
  : option ProjectState :=
  match local with
  | None => None
  | Some (Some state) => Some state
  | Some None =>
      match mode with
      | RelayMode.Proxy => Some (ProjectState.allowed now)
      | RelayMode.Static => Some (ProjectState.missing now)
      | RelayMode.Capture => Some (ProjectState.allowed now)
      | RelayMode.Managed =>
          match redis with
          | Some None => None
          | Some (Some (Some state)) => Some state
          | Some (Some None) | None => upstream ≫= id
          end
      end
  end.

(** The last part of the handler of [UpdateProjectState]. *)
Definition finish_update_project_state (self : ProjectCache) (key : ProjectKey)
    (state_result : option ProjectState) (no_cache : bool) : act ProjectCache :=
  with_project_ self key (fun p => Project.update_state p state_result no_cache).

Definition handle_get_project_state (self : ProjectCache) (key : ProjectKey) (no_cache : bool)
  : act (ProjectCache * Response) :=
  with_project self key (fun p => Project.get_or_fetch_state p no_cache).

Definition handle_get_cached_project_state (self : ProjectCache) (key : ProjectKey)
  : act (ProjectCache * option ProjectState) :=
  with_project self key (fun p => mret (p, Project.state p)).

Definition handle_update_rate_limits (self : ProjectCache) (key : ProjectKey) (rate_limits : RateLimits)
  : act ProjectCache :=
  with_project_ self key (fun p => mret (Project.merge_rate_limits p rate_limits)).

Definition handle_insert_metrics (self : ProjectCache) (key : ProjectKey) (metrics : list Metric) : act ProjectCache :=
  with_project_ self key (fun p => Project.insert_metrics p metrics).

Definition handle_merge_buckets (self : ProjectCache) (key : ProjectKey) (buckets : list Bucket) : act ProjectCache :=
  with_project_ self key (fun p => Project.merge_buckets p buckets).

(** The part of the handler of [FlushBuckets] after the update is scheduled. *)
Definition answer_flush (config : Config) (key : ProjectKey) (buckets : list Bucket) (outdated : Outdated)
    (project : Project) : act (Project * FlushResponse) :=
  if bool_decide (outdated = HardOutdated) then mret (project, Returned buckets)
  else
    match Project.state project, Project.scoping project with
    | Some state, Some scoping =>
        now ← instant_now;
        match ProjectState.check_disabled now state config with
        | Err _ => mret (project, Dropped)
        | Ok _ => mret (project, SendMetrics buckets scoping key)
        end
    | _, _ => mret (project, Returned buckets)
    end.

Definition flush_project (config : Config) (key : ProjectKey) (buckets : list Bucket) (project : Project)
  : act (Project * FlushResponse) :=
  outdated ← match Project.state project with
             | Some s => now ← instant_now; mret (ProjectState.outdated now s config)
             | None => mret HardOutdated
             end;
  project ← (if bool_decide (outdated = Updated) then mret project
             else '(project, _) ← Project.get_or_fetch_state project false; mret project);
  answer_flush config key buckets outdated project.

Definition handle_flush_buckets (self : ProjectCache) (key : ProjectKey) (buckets : list Bucket)
  : act (ProjectCache * FlushResponse) :=
  with_project self key (flush_project (config self) key buckets).

Section CheckEnvelope.
Context `{FilterEnv}.

(** [CheckEnvelope::cached]. *)
Definition handle_check_cached (self : ProjectCache) (key : ProjectKey) (env : Envelope)
  : act (ProjectCache * CheckEnvelopeResponse) :=
  with_project self key (fun p =>
    '(p, _) ← Project.get_or_fetch_state p false;
    Project.check_envelope p env).

(** The continuation of [CheckEnvelope::fetched] when the state has arrived. *)
Definition finish_check_fetched (self : ProjectCache) (key : ProjectKey) (env : Envelope)
    (state : result ProjectError ProjectState)
  : act (ProjectCache * result ProjectError CheckEnvelopeResponse) :=
  match state with
  | Err e => mret (self, Err e)
  | Ok _ =>
      '(self, response) ← with_project self key (fun p => Project.check_envelope p env);
      mret (self, Ok response)
  end.

(** [CheckEnvelope::fetched]: the response, or the channel that the rest of the
    handler waits for. *)
Definition handle_check_fetched (self : ProjectCache) (key : ProjectKey) (env : Envelope)
  : act (ProjectCache * (result ProjectError CheckEnvelopeResponse + nat)) :=
  '(self, response) ← with_project self key (fun p =>
    Project.get_or_fetch_state p (RequestMeta.no_cache (Envelope.meta env)));
  match response with
  | Reply r => '(self, r) ← finish_check_fetched self key env r; mret (self, inl r)
  | Future channel => mret (self, inr channel)
  end.

End CheckEnvelope.
End ProjectCache.
Notation ProjectCache := ProjectCache.ProjectCache.

(** ** The system of messages

    [mailbox] holds the [UpdateProjectState] messages that were sent and not yet
    handled, [fetching] those whose sources have not answered; [resolved] are the
    channels whose receivers got an answer. *)

Definition fetches (es : list Effect) : list (ProjectKey * bool) :=
  omap (fun e => match e with UpdateProjectState key no_cache => Some (key, no_cache) | _ => None end) es.
Definition resolves (es : list Effect) : list nat :=
  omap (fun e => match e with Resolve channel _ => Some channel | _ => None end) es.

Record System := MkSystem {
  cache : ProjectCache;
  mailbox : list (ProjectKey * bool);
  fetching : list (ProjectKey * bool);
  resolved : list nat;
  channels : nat;
}.

Definition initial (config : Config) : System := MkSystem (ProjectCache.new config) [] [] [] 0.

(** The messages of other actors and the eviction timer. *)
Inductive handler `{FilterEnv} (self : ProjectCache) : act ProjectCache -> Prop :=
| on_evict : handler self (ProjectCache.evict_stale_project_caches self)
| on_get key no_cache :
    handler self ('(self, _) ← ProjectCache.handle_get_project_state self key no_cache; mret self)
| on_get_cached key : handler self ('(self, _) ← ProjectCache.handle_get_cached_project_state self key; mret self)
| on_check_cached key env : handler self ('(self, _) ← ProjectCache.handle_check_cached self key env; mret self)
| on_check_fetched key env : handler self ('(self, _) ← ProjectCache.handle_check_fetched self key env; mret self)
| on_fetched key env state :
    handler self ('(self, _) ← ProjectCache.finish_check_fetched self key env state; mret self)
| on_rate_limits key limits : handler self (ProjectCache.handle_update_rate_limits self key limits)
| on_insert key metrics : handler self (ProjectCache.handle_insert_metrics self key metrics)
| on_merge key buckets : handler self (ProjectCache.handle_merge_buckets self key buckets)
| on_flush key buckets : handler self ('(self, _) ← ProjectCache.handle_flush_buckets self key buckets; mret self).

(** Running a handler: its messages go to the mailbox, the channels it answers
    are resolved. *)
Definition after (s : System) (mailbox fetching : list (ProjectKey * bool)) (cw : ProjectCache * World) : System :=
  MkSystem cw.1 (mailbox ++ fetches (effects cw.2)) fetching (resolved s ++ resolves (effects cw.2))
    (next_channel cw.2).

Definition starts (s : System) (w : World) : Prop := effects w = [] /\ next_channel w = channels s.

Inductive step `{FilterEnv} : System -> System -> Prop :=
| step_handler s m w : handler (cache s) m -> starts s w -> step s (after s (mailbox s) (fetching s) (m w))
| step_update s w l1 key no_cache l2 :
    mailbox s = l1 ++ (key, no_cache) :: l2 -> starts s w ->
    step s (after s (l1 ++ l2) ((key, no_cache) :: fetching s)
              (ProjectCache.handle_update_project_state (cache s) key w))
| step_finish s w l1 key no_cache l2 state_result :
    fetching s = l1 ++ (key, no_cache) :: l2 -> starts s w ->
    step s (after s (mailbox s) (l1 ++ l2)
              (ProjectCache.finish_update_project_state (cache s) key state_result no_cache w)).

Inductive reachable `{FilterEnv} (config : Config) : System -> Prop :=
| reachable_initial : reachable config (initial config)
| reachable_next s s' : reachable config s -> step s s' -> reachable config s'.

(** The channels of the projects in the cache. *)
Definition channel_of (p : Project) : list nat :=
  match Project.state_channel p with Some c => [Project.channel_id c] | None => [] end.
Definition open_channels (m : gmap ProjectKey Project) : list nat :=
  map_to_list m ≫= fun kp => channel_of kp.2.

(** Every channel is either open in exactly one project or resolved exactly once,
    and an open channel has a fetch on its way that resolves it. *)
Definition system_inv (s : System) : Prop :=
  open_channels (ProjectCache.projects (cache s)) ++ resolved s ≡ₚ seq 0 (channels s) /\
  map_Forall (fun key p =>
    Project.project_key p = key /\
    forall c, Project.state_channel p = Some c ->
      (key, Project.ch_no_cache c) ∈ mailbox s ++ fetching s) (ProjectCache.projects (cache s)).

(** ** Lemmas on effects *)

Definition emits (w w' : World) (fs : list (ProjectKey * bool)) (rs : list nat) : Prop :=
  exists es, effects w' = effects w ++ es /\ fetches es = fs /\ resolves es = rs.
Definition quiet (w w' : World) : Prop := emits w w' [] [] /\ next_channel w' = next_channel w.

Lemma fetches_app es es' : fetches (es ++ es') = fetches es ++ fetches es'.
Proof. apply omap_app. Qed.
Lemma resolves_app es es' : resolves (es ++ es') = resolves es ++ resolves es'.
Proof. apply omap_app. Qed.

Lemma emits_trans w w' w'' fs fs' rs rs' :
  emits w w' fs rs -> emits w' w'' fs' rs' -> emits w w'' (fs ++ fs') (rs ++ rs').
Proof.
  intros (es & He & Hf & Hr) (es' & He' & Hf' & Hr'). exists (es ++ es').
  rewrite He', He, fetches_app, resolves_app, Hf, Hf', Hr, Hr'. by rewrite app_assoc.
Qed.

#[global] Instance quiet_preorder : PreOrder quiet.
Proof.
  split.
  - intros w. split; [|done]. exists []. by rewrite app_nil_r.
  - intros w w' w'' [He Hn] [He' Hn']. split; [by apply (emits_trans _ _ _ _ _ _ _ He He')|congruence].
Qed.

Lemma quiet_emits_l w w' w'' fs rs : quiet w w' -> emits w' w'' fs rs -> emits w w'' fs rs.
Proof. intros [He _] He'. by apply (emits_trans _ _ _ _ _ _ _ He He'). Qed.
Lemma quiet_emits_r w w' w'' fs rs : emits w w' fs rs -> quiet w' w'' -> emits w w'' fs rs.
Proof.
  intros He [He' _]. rewrite <- (app_nil_r fs), <- (app_nil_r rs). by apply (emits_trans _ _ _ _ _ _ _ He He').
Qed.

Lemma emits_initial s w w' fs rs : starts s w -> emits w w' fs rs -> fetches (effects w') = fs /\ resolves (effects w') = rs.
Proof. intros [Hs _] (es & He & Hf & Hr). rewrite Hs in He. simpl in He. by rewrite He. Qed.

Lemma quiet_instant_now w : quiet w (instant_now w).2.
Proof. split; [|done]. exists []. by rewrite app_nil_r. Qed.
Lemma quiet_system_now w : quiet w (system_now w).2.
Proof. split; [|done]. exists []. by rewrite app_nil_r. Qed.
Lemma quiet_fresh_addr w : quiet w (fresh_addr w).2.
Proof. split; [|done]. exists []. by rewrite app_nil_r. Qed.
Lemma emits_emit e w : emits w (emit e w).2 (fetches [e]) (resolves [e]).
Proof. by exists [e]. Qed.
Lemma quiet_emit e w : fetches [e] = [] -> resolves [e] = [] -> quiet w (emit e w).2.
Proof. intros Hf Hr. split; [|done]. exists [e]. by rewrite Hf, Hr. Qed.

(** Binding keeps silence. *)
Lemma quiet_bind {A B} (m : act A) (f : A -> act B) w :
  quiet w (m w).2 -> (forall a w', quiet w' (f a w').2) -> quiet w ((m ≫= f) w).2.
Proof.
  intros Hm Hf. unfold mbind, act_bind. destruct (m w) as [a w'] eqn:Hmw. simpl in Hm.
  etrans; [exact Hm|apply Hf].
Qed.

#[export] Hint Resolve quiet_instant_now quiet_system_now quiet_fresh_addr quiet_emit quiet_bind : relay.

(** ** Operations that leave the channel alone *)

Definition same_channel (p p' : Project) : Prop :=
  Project.project_key p' = Project.project_key p /\ Project.state_channel p' = Project.state_channel p.

#[global] Instance same_channel_preorder : PreOrder same_channel.
Proof. unfold same_channel. split; [done|]. intros p1 p2 p3 [H1 H2] [H3 H4]. split; congruence. Qed.

(** [m] neither fetches nor resolves, and the project [g] of its result has the
    channel of [p]. *)
Definition silent {A} (g : A -> Project) (p : Project) (m : act A) : Prop :=
  forall w, quiet w (m w).2 /\ same_channel p (g (m w).1).

Lemma silent_ret {A} g p (a : A) : same_channel p (g a) -> silent g p (mret a).
Proof. intros Hs w. split; [reflexivity|done]. Qed.

Lemma silent_bind {A B} (g : A -> Project) (h : B -> Project) p (m : act A) (f : A -> act B) :
  silent g p m -> (forall a, same_channel p (g a) -> silent h p (f a)) -> silent h p (m ≫= f).
Proof.
  intros Hm Hf w. unfold mbind, act_bind. destruct (Hm w) as [Hq Hs]. destruct (m w) as [a w']. simpl in *.
  destruct (Hf a Hs w') as [Hq' Hs']. split; [by etrans|done].
Qed.

(** Reading and sending before the rest. *)
Lemma silent_then {A B} (h : B -> Project) p (m : act A) (f : A -> act B) :
  (forall w, quiet w (m w).2) -> (forall a, silent h p (f a)) -> silent h p (m ≫= f).
Proof.
  intros Hm Hf w. unfold mbind, act_bind. specialize (Hm w). destruct (m w) as [a w']. simpl in *.
  destruct (Hf a w') as [Hq' Hs']. split; [by etrans|done].
Qed.

Ltac silent_step :=
  first
    [ apply silent_ret; done
    | apply silent_then; [solve [eauto with relay]|intros ?]
    | case_match; simplify_eq/= ].

Lemma new_channel key cfg w :
  let '(p, w') := Project.new key cfg w in
  quiet w w' /\ Project.project_key p = key /\ Project.state_channel p = None.
Proof. split; [|done]. split; [|done]. exists []. by rewrite app_nil_r. Qed.

Lemma silent_get_or_create_aggregator p : silent fst p (Project.get_or_create_aggregator p).
Proof.
  unfold Project.get_or_create_aggregator. apply (silent_bind id).
  - repeat silent_step.
  - intros p' Hp'. by apply silent_ret.
Qed.

Lemma silent_send p (g : nat -> Effect) :
  (forall a, fetches [g a] = [] /\ resolves [g a] = []) ->
  silent id p ('(p, a) ← Project.get_or_create_aggregator p;
               match a with Some addr => emit (g addr);; mret p | None => mret p end).
Proof.
  intros Hg. apply (silent_bind fst); [apply silent_get_or_create_aggregator|].
  intros [p' [a|]] Hp'; simpl in Hp'; [|by apply silent_ret].
  apply silent_then; [intros w; apply quiet_emit; apply Hg|intros ?; by apply silent_ret].
Qed.

Lemma silent_merge_buckets p bs : silent id p (Project.merge_buckets p bs).
Proof. by apply (silent_send p (fun addr => SendToAggregator addr (MergeBuckets bs))). Qed.
Lemma silent_insert_metrics p ms : silent id p (Project.insert_metrics p ms).
Proof. by apply (silent_send p (fun addr => SendToAggregator addr (InsertMetrics ms))). Qed.

Lemma silent_update_aggregator p : silent id p (Project.update_aggregator p).
Proof.
  unfold Project.update_aggregator. repeat silent_step.
  apply (silent_bind fst); [apply silent_get_or_create_aggregator|]. intros [p' addr] Hp'. simpl in Hp'.
  by apply silent_ret.
Qed.

Lemma silent_limit_no_cache p b : silent fst p (Project.limit_no_cache p b).
Proof. unfold Project.limit_no_cache. destruct b; repeat silent_step. Qed.

(** The limiter only runs its checks. *)
Lemma enforce_state_rel {S E} (R : S -> S -> Prop) `{!PreOrder R}
    (check : S -> ItemScoping -> Z -> S * result E RateLimits) l env sc :
  (forall s i q, R s (check s i q).1) -> R (state l) (EnvelopeLimiter.enforce check l env sc).1.1.
Proof.
  intros Hc. unfold EnvelopeLimiter.enforce, execute.
  set (summary := match assumed_category l with Some _ => _ | None => _ end). clearbody summary.
  assert (forall s, R s (execute_event check s summary sc).1) as He.
  { intros s. unfold execute_event. case_match; [|done].
    specialize (Hc s (item sc d) 1). by destruct (check s (item sc d) 1). }
  assert (forall s e r, R s (execute_attachments check s summary sc e r).1) as Ha.
  { intros s e r. unfold execute_attachments. case_match; [|done].
    specialize (Hc s (item sc DataCategory.Attachment) (EnvelopeSummary.attachment_quantity summary)).
    by destruct (check s _ _). }
  assert (forall s e r, R s (execute_sessions check s summary sc e r).1) as Hs.
  { intros s e r. unfold execute_sessions. case_match; [|done].
    specialize (Hc s (item sc DataCategory.Session) (EnvelopeSummary.session_quantity summary)).
    by destruct (check s _ _). }
  specialize (He (state l)). destruct (execute_event _ _ _ _) as [s1 [[e1 r1]|]]; simpl in He |- *; [|done].
  specialize (Ha s1 e1 r1). destruct (execute_attachments _ _ _ _ _ _) as [s2 [[e2 r2]|]]; simpl in Ha |- *; [|by etrans].
  specialize (Hs s2 e2 r2). destruct (execute_sessions _ _ _ _ _ _) as [s3 [[e3 r3]|]]; simpl in Hs |- *.
  - destruct (Envelope.retain_items _ _ _). simpl. etrans; [done|]. by etrans.
  - etrans; [done|]. by etrans.
Qed.

Lemma quiet_enforce_limits p env sc w : quiet w (Project.enforce_limits p env sc w).2.
Proof.
  unfold Project.enforce_limits.
  set (check := Project.check_limits _ _).
  pose proof (enforce_state_rel quiet check (EnvelopeLimiter.new w) env sc) as Hq.
  destruct (EnvelopeLimiter.enforce check _ env sc) as [[w' env'] r]. simpl in *. apply Hq.
  intros s i q. apply (quiet_instant_now s).
Qed.

#[export] Hint Resolve quiet_enforce_limits : relay.

Lemma silent_check_envelope `{FilterEnv} p env : silent fst p (Project.check_envelope p env).
Proof.
  unfold Project.check_envelope. apply (silent_bind fst).
  - unfold Project.check_envelope_scoped. apply silent_then.
    + intros w. case_match; [|reflexivity]. apply quiet_bind; [auto with relay|]. intros ? ?. reflexivity.
    + intros r. repeat silent_step.
  - intros [p' r] Hp'. simpl in Hp'. by apply silent_ret.
Qed.

(** ** Operations on the channel *)

(** What an operation of a project may do to its channel: nothing, open one and
    fetch, or turn the running request into one without cache. *)
Inductive channel_step (p : Project) (w : World) (p' : Project) (w' : World) : Prop :=
| channel_same : same_channel p p' -> quiet w w' -> channel_step p w p' w'
| channel_start no_cache :
    Project.project_key p' = Project.project_key p ->
    Project.state_channel p = None ->
    Project.state_channel p' = Some (Project.MkStateChannel (next_channel w) no_cache) ->
    next_channel w' = S (next_channel w) ->
    emits w w' [(Project.project_key p, no_cache)] [] -> channel_step p w p' w'
| channel_upgrade c :
    Project.project_key p' = Project.project_key p ->
    Project.state_channel p = Some (Project.MkStateChannel c false) ->
    Project.state_channel p' = Some (Project.MkStateChannel c true) ->
    next_channel w' = next_channel w ->
    emits w w' [(Project.project_key p, true)] [] -> channel_step p w p' w'.

Lemma channel_step_after_silence p w p1 w1 p' w' :
  same_channel p p1 -> quiet w w1 -> channel_step p1 w1 p' w' -> channel_step p w p' w'.
Proof.
  intros [Hk Hc] Hq Hs. pose proof (proj2 Hq) as Hn. destruct Hs as [[Hk' Hc'] Hq'|b Hk' Hc1 Hc' Hn' He|c Hk' Hc1 Hc' Hn' He].
  - apply channel_same; [split; congruence|by etrans].
  - apply (channel_start _ _ _ _ b); try congruence. apply (quiet_emits_l _ _ _ _ _ Hq). by rewrite <- Hk.
  - apply (channel_upgrade _ _ _ _ c); try congruence. apply (quiet_emits_l _ _ _ _ _ Hq). by rewrite <- Hk.
Qed.

Lemma channel_step_before_silence p w p1 w1 p' w' :
  channel_step p w p1 w1 -> same_channel p1 p' -> quiet w1 w' -> channel_step p w p' w'.
Proof.
  intros Hs [Hk Hc] Hq. pose proof (proj2 Hq) as Hn. destruct Hs as [[Hk' Hc'] Hq'|b Hk' Hc1 Hc' Hn' He|c Hk' Hc1 Hc' Hn' He].
  - apply channel_same; [split; congruence|by etrans].
  - apply (channel_start _ _ _ _ b); try congruence. by apply (quiet_emits_r _ w1).
  - apply (channel_upgrade _ _ _ _ c); try congruence. by apply (quiet_emits_r _ w1).
Qed.

(** The operation [m] on [p] is a channel step. *)
Definition channel_op {A} (p : Project) (m : act (Project * A)) : Prop :=
  forall w, channel_step p w (m w).1.1 (m w).2.

Lemma silent_channel_op {A} p (m : act (Project * A)) : silent fst p m -> channel_op p m.
Proof. intros Hm w. destruct (Hm w). by apply channel_same. Qed.

Lemma silent_channel_op_ p (m : act Project) : silent id p m -> channel_op p (p ← m; mret (p, ())).
Proof.
  intros Hm. apply silent_channel_op, (silent_bind id); [done|]. intros p' Hp'. by apply silent_ret.
Qed.

Lemma channel_op_then {A B} p (m : act (Project * A)) (f : Project * A -> act (Project * B)) :
  channel_op p m -> (forall pa, silent fst pa.1 (f pa)) -> channel_op p (m ≫= f).
Proof.
  intros Hm Hf w. unfold mbind, act_bind. specialize (Hm w). destruct (m w) as [[p1 a] w1]. simpl in Hm.
  destruct (Hf (p1, a) w1) as [Hq Hs]. by eapply channel_step_before_silence.
Qed.

Lemma silent_op_then {A B} (g : A -> Project) p (m : act A) (f : A -> act (Project * B)) :
  silent g p m -> (forall a, channel_op (g a) (f a)) -> channel_op p (m ≫= f).
Proof.
  intros Hm Hf w. unfold mbind, act_bind. destruct (Hm w) as [Hq Hs]. destruct (m w) as [a w1]. simpl in *.
  eapply channel_step_after_silence; [exact Hs|exact Hq|apply Hf].
Qed.

Lemma quiet_op_then {A B} p (m : act A) (f : A -> act (Project * B)) :
  (forall w, quiet w (m w).2) -> (forall a, channel_op p (f a)) -> channel_op p (m ≫= f).
Proof.
  intros Hm Hf w. unfold mbind, act_bind. specialize (Hm w). destruct (m w) as [a w1]. simpl in *.
  eapply channel_step_after_silence; [reflexivity|exact Hm|apply Hf].
Qed.

Lemma request_state_op p b : channel_op p (Project.request_state p b).
Proof.
  intros w. unfold Project.request_state.
  destruct (Project.state_channel p) as [[c []]|] eqn:Hc; simpl.
  - by apply channel_same.
  - destruct b; simpl; [|by apply channel_same].
    apply (channel_upgrade _ _ _ _ c); try done. apply emits_emit.
  - apply (channel_start _ _ _ _ b); try done. by eexists.
Qed.

Lemma get_or_fetch_state_op p b : channel_op p (Project.get_or_fetch_state p b).
Proof.
  unfold Project.get_or_fetch_state. eapply (silent_op_then fst); [apply silent_limit_no_cache|].
  intros [p1 b1]. simpl. apply quiet_op_then.
  - intros w. destruct (Project.state p1); [|reflexivity]. apply quiet_bind; [auto with relay|].
    intros ? ?. reflexivity.
  - intros o.
    assert (forall (g : nat -> Response), channel_op p1
      ('(p, r) ← Project.request_state p1 b1; mret (p, g r))) as Hr.
    { intros g. apply channel_op_then; [apply request_state_op|]. intros [p2 r]. by apply silent_ret. }
    assert (forall x : Response, channel_op p1 (mret (p1, x))) as Hx.
    { intros x. apply silent_channel_op. by apply silent_ret. }
    unfold Project.answer_state. destruct b1, (Project.state p1), o; first [apply Hx | apply Hr].
Qed.

Lemma silent_answer_flush cfg key bs o p : silent fst p (ProjectCache.answer_flush cfg key bs o p).
Proof. unfold ProjectCache.answer_flush. repeat silent_step. Qed.

Lemma flush_project_op cfg key bs p : channel_op p (ProjectCache.flush_project cfg key bs p).
Proof.
  unfold ProjectCache.flush_project. apply quiet_op_then.
  - intros w. case_match; [|reflexivity]. apply quiet_bind; [auto with relay|]. intros ? ?. reflexivity.
  - intros o w. case_bool_decide; [apply silent_channel_op, silent_answer_flush|].
    unfold mbind, act_bind. pose proof (get_or_fetch_state_op p false w) as Hg.
    destruct (Project.get_or_fetch_state p false w) as [[p' r] w']. simpl in Hg |- *.
    destruct (silent_answer_flush cfg key bs o p' w'). by eapply channel_step_before_silence.
Qed.

Lemma check_cached_op `{FilterEnv} p env :
  channel_op p ('(p, _) ← Project.get_or_fetch_state p false; Project.check_envelope p env).
Proof.
  apply channel_op_then; [apply get_or_fetch_state_op|]. intros [p' r]. apply silent_check_envelope.
Qed.

(** ** The map of projects *)

Lemma open_insert m k p : open_channels (<[k := p]> m) ≡ₚ channel_of p ++ open_channels (delete k m).
Proof.
  unfold open_channels. rewrite <- insert_delete_eq, map_to_list_insert by apply lookup_delete_eq. done.
Qed.

Lemma open_lookup m k p : m !! k = Some p -> open_channels m ≡ₚ channel_of p ++ open_channels (delete k m).
Proof. intros Hk. by rewrite <- open_insert, insert_id. Qed.

(** The project that [get_or_create_project] finds or makes. *)
Definition entry (m : gmap ProjectKey Project) (key : ProjectKey) (p : Project) : Prop :=
  m !! key = Some p \/ m !! key = None /\ Project.project_key p = key /\ Project.state_channel p = None.

Lemma open_entry m key p :
  entry m key p -> open_channels m ≡ₚ channel_of p ++ open_channels (delete key m).
Proof.
  intros [Hm|(Hm & _ & Hc)]; [by apply open_lookup|]. unfold channel_of. rewrite Hc. simpl.
  by rewrite delete_id.
Qed.

Lemma with_project_spec {A} self key (f : Project -> act (Project * A)) w :
  exists p w0, entry (ProjectCache.projects self) key p /\ quiet w w0 /\
    ProjectCache.with_project self key f w =
    ((ProjectCache.MkProjectCache (ProjectCache.config self)
        (<[key := (f p w0).1.1]> (ProjectCache.projects self)), (f p w0).1.2), (f p w0).2).
Proof.
  unfold ProjectCache.with_project, ProjectCache.get_or_create_project, mbind, act_bind.
  destruct (ProjectCache.projects self !! key) as [p|] eqn:Hp.
  - exists p, w. split_and!; [by left|reflexivity|]. simpl. by destruct (f p w) as [[p' a] w'].
  - pose proof (new_channel key (ProjectCache.config self) w) as Hn.
    destruct (Project.new key (ProjectCache.config self) w) as [p w0]. destruct Hn as (Hq & Hk & Hc).
    exists p, w0. split_and!; [by right|done|]. simpl. destruct (f p w0) as [[p' a] w']. simpl.
    unfold ProjectCache.set_project. simpl. by rewrite insert_insert_eq.
Qed.

(** ** The invariant *)

(** [system_inv] on the parts of a system, with the fetches on their way in one
    list. *)
Definition parts_inv (m : gmap ProjectKey Project) (fl : list (ProjectKey * bool)) (res : list nat) (n : nat) : Prop :=
  open_channels m ++ res ≡ₚ seq 0 n /\
  map_Forall (fun key p =>
    Project.project_key p = key /\
    forall c, Project.state_channel p = Some c -> (key, Project.ch_no_cache c) ∈ fl) m.

Lemma parts_inv_entry m fl res n key p :
  parts_inv m fl res n -> entry m key p ->
  Project.project_key p = key /\
  forall c, Project.state_channel p = Some c -> (key, Project.ch_no_cache c) ∈ fl.
Proof.
  intros [_ Hm] [Hp|(_ & Hk & Hc)]; [by apply Hm|]. split; [done|]. intros c. by rewrite Hc.
Qed.

Lemma parts_inv_mono m fl fl' res n :
  (forall x, x ∈ fl -> x ∈ fl') -> parts_inv m fl res n -> parts_inv m fl' res n.
Proof.
  intros Hfl [Ho Hm]. split; [done|]. intros key p Hp. destruct (Hm key p Hp) as [Hk Hc].
  split; [done|]. auto.
Qed.

(** Replacing one project. *)
Lemma parts_inv_replace m fl res n key p p' fl' res' n' :
  parts_inv m fl res n -> entry m key p ->
  (forall x, x ∈ fl -> x.1 <> key -> x ∈ fl') ->
  channel_of p' ++ res' ++ seq 0 n ≡ₚ channel_of p ++ res ++ seq 0 n' ->
  Project.project_key p' = key ->
  (forall c, Project.state_channel p' = Some c -> (key, Project.ch_no_cache c) ∈ fl') ->
  parts_inv (<[key := p']> m) fl' res' n'.
Proof.
  intros [Ho Hm] He Hfl Hperm Hk Hc. split.
  - rewrite open_insert. rewrite (open_entry _ _ _ He) in Ho.
    apply (Permutation_app_inv_r (channel_of p ++ res)).
    transitivity (channel_of p' ++ res' ++ seq 0 n); [rewrite <- Ho|rewrite Hperm]; solve_Permutation.
  - intros k q. rewrite lookup_insert. case_decide as Hkey; [intros [= <-]; by subst|].
    intros Hq. destruct (Hm k q Hq) as [Hqk Hqc]. split; [done|]. intros c Hcc. by apply Hfl; [apply Hqc|].
Qed.

Lemma parts_inv_channel_step m fl res key p w p' w' fl' res' :
  parts_inv m fl res (next_channel w) -> entry m key p -> channel_step p w p' w' ->
  (forall fs rs, emits w w' fs rs -> res' = res ++ rs /\ forall x, x ∈ fl \/ x ∈ fs -> x ∈ fl') ->
  parts_inv (<[key := p']> m) fl' res' (next_channel w').
Proof.
  intros Hinv He Hs Hout. destruct (parts_inv_entry _ _ _ _ _ _ Hinv He) as [Hk Hc].
  destruct Hs as [[Hk' Hc'] [Hq Hn]|b Hk' Hc1 Hc' Hn Hem|c Hk' Hc1 Hc' Hn Hem];
    destruct (Hout _ _ ltac:(eassumption)) as [-> Hfl]; rewrite app_nil_r; rewrite Hn;
    apply (parts_inv_replace m fl res (next_channel w) key p); try done; try congruence; auto.
  - unfold channel_of. by rewrite Hc'.
  - intros c Hcc. rewrite Hc' in Hcc. auto.
  - unfold channel_of. rewrite Hc1, Hc', seq_S. simpl. solve_Permutation.
  - intros c Hcc. rewrite Hc' in Hcc. injection Hcc as <-. apply Hfl. right. simpl. rewrite Hk. left.
  - unfold channel_of. by rewrite Hc1, Hc'.
  - intros c' Hcc. rewrite Hc' in Hcc. injection Hcc as <-. apply Hfl. right. simpl. rewrite Hk. left.
Qed.

(** The invariant in the middle of a handler. *)
Definition running_inv (fl : list (ProjectKey * bool)) (res : list nat) (cw : ProjectCache * World) : Prop :=
  parts_inv (ProjectCache.projects cw.1) (fl ++ fetches (effects cw.2)) (res ++ resolves (effects cw.2))
    (next_channel cw.2).

Lemma running_inv_emits w w' fs rs fl res :
  emits w w' fs rs ->
  res ++ resolves (effects w') = (res ++ resolves (effects w)) ++ rs /\
  forall x, x ∈ fl ++ fetches (effects w) \/ x ∈ fs -> x ∈ fl ++ fetches (effects w').
Proof.
  intros (es & -> & <- & <-). rewrite resolves_app, fetches_app. split; [by rewrite app_assoc|].
  intros x. rewrite !elem_of_app. tauto.
Qed.

Lemma running_inv_with_project {A} fl res self key (f : Project -> act (Project * A)) w :
  (forall p, channel_op p (f p)) -> running_inv fl res (self, w) ->
  let r := ProjectCache.with_project self key f w in running_inv fl res (r.1.1, r.2).
Proof.
  intros Hf Hinv. destruct (with_project_spec self key f w) as (p & w0 & He & Hq & ->). simpl.
  unfold running_inv in *. simpl in *.
  pose proof (channel_step_after_silence p w p w0 _ _ ltac:(done) Hq (Hf p w0)) as Hs.
  eapply (parts_inv_channel_step _ _ _ _ _ w); [exact Hinv|exact He|exact Hs|].
  intros fs rs. apply running_inv_emits.
Qed.

Lemma with_project__bind self key f w :
  ProjectCache.with_project_ self key f w =
  let r := ProjectCache.with_project self key (fun p => p ← f p; mret (p, ())) w in (r.1.1, r.2).
Proof.
  unfold ProjectCache.with_project_, mbind at 1, act_bind. by destruct (ProjectCache.with_project _ _ _ w) as [[c []] w'].
Qed.

Lemma running_inv_with_project_ fl res self key (f : Project -> act Project) w :
  (forall p, silent id p (f p)) -> running_inv fl res (self, w) ->
  running_inv fl res (ProjectCache.with_project_ self key f w).
Proof.
  intros Hf Hinv. rewrite with_project__bind. apply running_inv_with_project; [|done].
  intros p. by apply silent_channel_op_.
Qed.

(** Eviction: the open channels split into those kept and those dropped. *)
Lemma open_insert_new m k p : m !! k = None -> open_channels (<[k := p]> m) ≡ₚ channel_of p ++ open_channels m.
Proof. intros Hk. by rewrite open_insert, delete_id. Qed.

Lemma open_filter (m : gmap ProjectKey Project) (f : Project -> bool) :
  open_channels m ≡ₚ
  open_channels (filter (fun kp => f kp.2 = true) m) ++ open_channels (filter (fun kp => f kp.2 = false) m).
Proof.
  induction m as [|k p m Hk IH] using map_ind; [done|].
  rewrite open_insert_new, IH by done. rewrite !map_filter_insert. simpl.
  rewrite !delete_id by done.
  assert (forall b, filter (fun kp : ProjectKey * Project => f kp.2 = b) m !! k = None) as Hf.
  { intros b. by apply map_lookup_filter_None_2; left. }
  destruct (f p) eqn:Hfp; repeat case_decide; try done; rewrite open_insert_new by apply Hf; solve_Permutation.
Qed.

Lemma emit_all_effects es w :
  (ProjectCache.emit_all es w).2 =
  MkWorld (instants w) (system_times w) (next_channel w) (next_addr w) (effects w ++ es).
Proof.
  revert w. induction es as [|e es IH]; intros w; simpl.
  - rewrite app_nil_r. by destruct w.
  - unfold mbind, act_bind. simpl. rewrite IH. simpl. by rewrite <- app_assoc.
Qed.

Lemma dropped_channels (l : list (ProjectKey * Project)) :
  fetches (l ≫= fun kp => ProjectCache.drop_project kp.2) = [] /\
  resolves (l ≫= fun kp => ProjectCache.drop_project kp.2) = l ≫= fun kp => channel_of kp.2.
Proof.
  induction l as [|[k p] l [IHf IHr]]; [done|]. rewrite !bind_cons, fetches_app, resolves_app, IHf, IHr.
  unfold ProjectCache.drop_project, channel_of. simpl. by destruct (Project.state_channel p).
Qed.

Lemma running_inv_evict fl res self w :
  running_inv fl res (self, w) -> running_inv fl res (ProjectCache.evict_stale_project_caches self w).
Proof.
  intros [Ho Hm]. unfold ProjectCache.evict_stale_project_caches. unfold mbind, act_bind.
  destruct (instant_now w) as [now w0] eqn:Hw. injection Hw as <- <-.
  set (fresh := ProjectCache.is_fresh self (instants w 0%nat)).
  destruct (ProjectCache.emit_all _ _) as [[] w1] eqn:Hw1. apply (f_equal snd) in Hw1.
  rewrite emit_all_effects in Hw1. simpl in Hw1. subst w1. unfold running_inv. simpl.
  destruct (dropped_channels (map_to_list (filter (fun kp => fresh kp.2 = false) (ProjectCache.projects self))))
    as [Hf Hr].
  fold (open_channels (filter (fun kp => fresh kp.2 = false) (ProjectCache.projects self))) in Hr.
  unfold mbind in Hf, Hr. rewrite fetches_app, resolves_app, Hf, Hr, app_nil_r. simpl in Ho, Hm. split.
  - rewrite <- Ho, (open_filter (ProjectCache.projects self) fresh).
    solve_Permutation.
  - intros k p Hp. apply map_lookup_filter_Some in Hp as [Hp _]. by apply Hm.
Qed.

(** A handler that ends by dropping its answer. *)
Lemma act_fst_bind {A} (m : act (ProjectCache * A)) w :
  ('(self, _) ← m; mret self) w = ((m w).1.1, (m w).2).
Proof. unfold mbind, act_bind. by destruct (m w) as [[self a] w']. Qed.

Lemma running_inv_finish_check `{FilterEnv} fl res self key env st w :
  running_inv fl res (self, w) ->
  let r := ProjectCache.finish_check_fetched self key env st w in running_inv fl res (r.1.1, r.2).
Proof.
  intros Hinv. unfold ProjectCache.finish_check_fetched. destruct st as [st|e]; [|done].
  unfold mbind, act_bind.
  pose proof (running_inv_with_project fl res self key (fun p => Project.check_envelope p env) w
    ltac:(intros p; apply silent_channel_op, silent_check_envelope) Hinv) as Hr.
  by destruct (ProjectCache.with_project _ _ _ _) as [[self' r] w'].
Qed.

Lemma running_inv_check_fetched `{FilterEnv} fl res self key env w :
  running_inv fl res (self, w) ->
  let r := ProjectCache.handle_check_fetched self key env w in running_inv fl res (r.1.1, r.2).
Proof.
  intros Hinv. unfold ProjectCache.handle_check_fetched. unfold mbind, act_bind.
  pose proof (running_inv_with_project fl res self key
    (fun p => Project.get_or_fetch_state p (RequestMeta.no_cache (Envelope.meta env))) w
    ltac:(intros p; apply get_or_fetch_state_op) Hinv) as Hr.
  destruct (ProjectCache.with_project _ _ _ _) as [[self1 [st|c]] w1]; simpl in Hr; [|done].
  pose proof (running_inv_finish_check fl res self1 key env st w1 Hr) as Hf.
  by destruct (ProjectCache.finish_check_fetched _ _ _ _ _) as [[self2 r] w2].
Qed.

Lemma running_inv_handler `{FilterEnv} fl res self m w :
  handler self m -> running_inv fl res (self, w) -> running_inv fl res (m w).
Proof.
  intros Hh Hinv. destruct Hh; rewrite ?act_fst_bind.
  - by apply running_inv_evict.
  - apply running_inv_with_project; [|done]. intros p. apply get_or_fetch_state_op.
  - apply running_inv_with_project; [|done]. intros p. apply silent_channel_op. by apply silent_ret.
  - apply running_inv_with_project; [|done]. intros p. apply check_cached_op.
  - by apply running_inv_check_fetched.
  - by apply running_inv_finish_check.
  - apply running_inv_with_project_; [|done]. intros p. by apply silent_ret.
  - apply running_inv_with_project_; [|done]. intros p. apply silent_insert_metrics.
  - apply running_inv_with_project_; [|done]. intros p. apply silent_merge_buckets.
  - apply running_inv_with_project; [|done]. intros p. apply flush_project_op.
Qed.

(** [update_state] either leaves the project alone, because there is no channel or
    a request without cache supersedes this one, or closes the channel. *)
Lemma update_state_step p st no_cache w :
  let '(p', w') := Project.update_state p st no_cache w in
  Project.project_key p' = Project.project_key p /\ next_channel w' = next_channel w /\
  ((p' = p /\ quiet w w' /\
      forall c, Project.state_channel p = Some c -> Project.ch_no_cache c = true /\ no_cache = false) \/
   (exists c, Project.state_channel p = Some c /\ Project.state_channel p' = None /\
      emits w w' [] [Project.channel_id c])).
Proof.
  unfold Project.update_state. destruct (Project.state_channel p) as [c|] eqn:Hc; simpl.
  - destruct (Project.ch_no_cache c && negb no_cache) eqn:Hb; simpl.
    + apply andb_true_iff in Hb as [Hcn Hn%negb_true_iff]. split_and!; [done..|]. left.
      split_and!; [done|reflexivity|]. by intros ? [= <-].
    + unfold mbind, act_bind.
      pose proof (silent_update_aggregator (Project.set_state (Project.set_state_channel p None) st) w) as [Hq Hs].
      destruct (Project.update_aggregator _ w) as [p' w']. simpl in *. destruct Hs as [Hk' Hc'].
      split_and!; [done|apply Hq|]. right. exists c. split_and!; [done|done|].
      eapply quiet_emits_l; [exact Hq|]. apply (emits_emit (Resolve (Project.channel_id c) (Project.state p')) w').
  - split_and!; [done..|]. left. split_and!; [done|reflexivity|done].
Qed.

Lemma inv_finish fl res self key st no_cache w :
  parts_inv (ProjectCache.projects self) ((key, no_cache) :: fl) res (next_channel w) -> effects w = [] ->
  let cw := ProjectCache.finish_update_project_state self key st no_cache w in
  parts_inv (ProjectCache.projects cw.1) (fl ++ fetches (effects cw.2)) (res ++ resolves (effects cw.2))
    (next_channel cw.2).
Proof.
  intros Hinv Hw. unfold ProjectCache.finish_update_project_state. rewrite with_project__bind.
  destruct (with_project_spec self key (fun p => p ← Project.update_state p st no_cache; mret (p, ())) w)
    as (p & w0 & He & Hq & ->).
  unfold mbind, act_bind. pose proof (update_state_step p st no_cache w0) as Hs.
  destruct (Project.update_state p st no_cache w0) as [p' w']. simpl.
  destruct (parts_inv_entry _ _ _ _ _ _ Hinv He) as [Hk Hc]. destruct Hs as (Hk' & Hn & Hs).
  rewrite Hn, (proj2 Hq).
  destruct Hs as [(-> & Hq' & Hsup)|(c & Hcc & Hc' & Hem)].
  - destruct (emits_initial (MkSystem self [] [] [] (next_channel w)) w w' [] []) as [-> ->]; [done| |].
    { apply (transitivity (R := quiet) Hq Hq'). }
    rewrite !app_nil_r. apply (parts_inv_replace _ ((key, no_cache) :: fl) res (next_channel w) key p); try done.
    + intros x [->|Hx]%elem_of_cons; done.
    + intros c Hcc. specialize (Hc c Hcc). destruct (Hsup c Hcc) as [Hcn ->]. rewrite Hcn in *.
      by apply elem_of_cons in Hc as [?|?].
  - destruct (emits_initial (MkSystem self [] [] [] (next_channel w)) w w' [] [Project.channel_id c]) as [-> ->]; [done| |].
    { by eapply quiet_emits_l. }
    rewrite app_nil_r. apply (parts_inv_replace _ ((key, no_cache) :: fl) res (next_channel w) key p); try done.
    + intros x [->|Hx]%elem_of_cons; done.
    + unfold channel_of. rewrite Hc', Hcc. simpl. solve_Permutation.
    + congruence.
    + intros c'. by rewrite Hc'.
Qed.

Lemma system_inv_running s w mb ft :
  (forall x, x ∈ mailbox s ++ fetching s -> x ∈ mb ++ ft) -> system_inv s -> starts s w ->
  running_inv (mb ++ ft) (resolved s) (cache s, w).
Proof.
  intros Hsub Hinv [Hw Hn]. unfold running_inv. simpl. rewrite Hw, Hn, !app_nil_r.
  eapply parts_inv_mono; [exact Hsub|exact Hinv].
Qed.

Lemma system_inv_after s mb ft cw : running_inv (mb ++ ft) (resolved s) cw -> system_inv (after s mb ft cw).
Proof.
  intros Hr. destruct cw as [c w]. unfold running_inv in Hr. simpl in Hr.
  eapply (parts_inv_mono _ _ (((mb ++ fetches (effects w)) ++ ft)) _ _) in Hr; [exact Hr|].
  intros x. rewrite !elem_of_app. tauto.
Qed.

Lemma step_inv `{FilterEnv} s s' : system_inv s -> step s s' -> system_inv s'.
Proof.
  intros Hinv Hs. destruct Hs as [s m w Hh Hw|s w l1 key b l2 Hmb Hw|s w l1 key b l2 st Hft Hw];
    apply system_inv_after.
  - eapply running_inv_handler; [done|]. by apply system_inv_running.
  - apply running_inv_with_project_.
    + intros p. unfold Project.refresh_updated_timestamp. repeat silent_step.
    + apply system_inv_running; try done. rewrite Hmb. intros x. rewrite !elem_of_app, !elem_of_cons. tauto.
  - destruct Hw as [Hw Hn]. apply inv_finish; [|done]. rewrite Hn.
    eapply parts_inv_mono; [|exact Hinv]. rewrite Hft. intros x. rewrite !elem_of_app, !elem_of_cons, !elem_of_app. tauto.
Qed.

Lemma reachable_inv `{FilterEnv} cfg s : reachable cfg s -> system_inv s.
Proof.
  induction 1 as [|s s' _ IH Hs]; [|by eapply step_inv].
  split; simpl; [done|apply map_Forall_empty].
Qed.

(** Answering a fetch starts no other. *)
Lemma finish_no_fetch self key st b w :
  effects w = [] -> fetches (effects (ProjectCache.finish_update_project_state self key st b w).2) = [] /\
  next_channel (ProjectCache.finish_update_project_state self key st b w).2 = next_channel w.
Proof.
  intros Hw. unfold ProjectCache.finish_update_project_state. rewrite with_project__bind.
  destruct (with_project_spec self key (fun p => p ← Project.update_state p st b; mret (p, ())) w)
    as (p & w0 & He & Hq & ->).
  unfold mbind, act_bind. pose proof (update_state_step p st b w0) as Hs.
  destruct (Project.update_state p st b w0) as [p' w']. simpl. destruct Hs as (_ & Hn & Hs).
  split; [|by rewrite Hn, (proj2 Hq)].
  assert (exists rs, emits w w' [] rs) as (rs & es & Hes & Hf & _).
  { destruct Hs as [(_ & Hq' & _)|(c & _ & _ & Hem)]; eexists;
      [apply (transitivity (R := quiet) Hq Hq')|by eapply quiet_emits_l]. }
  by rewrite Hes, Hw.
Qed.

Lemma update_no_fetch self key w :
  effects w = [] -> fetches (effects (ProjectCache.handle_update_project_state self key w).2) = [] /\
  next_channel (ProjectCache.handle_update_project_state self key w).2 = next_channel w.
Proof.
  intros Hw. unfold ProjectCache.handle_update_project_state. rewrite with_project__bind.
  destruct (with_project_spec self key (fun p => p ← Project.refresh_updated_timestamp p; mret (p, ())) w)
    as (p & w0 & He & [(es & Hes & Hf & _) Hn] & ->). simpl. by rewrite Hes, Hw.
Qed.

Definition at_channels (n : nat) : World := MkWorld (fun _ => 0) (fun _ => 0) n 0 [].

(** Handling all messages and answering all fetches ends. *)
Lemma drain `{FilterEnv} s :
  exists s', rtc step s s' /\ mailbox s' = [] /\ fetching s' = [] /\ channels s' = channels s.
Proof.
  remember (2 * length (mailbox s) + length (fetching s))%nat as n eqn:Hn. revert s Hn.
  induction n as [n IH] using lt_wf_ind. intros s Hn.
  set (w := at_channels (channels s)). assert (starts s w) as Hw by done.
  destruct (mailbox s) as [|[key b] mb] eqn:Hmb; [destruct (fetching s) as [|[key b] ft] eqn:Hft|].
  - exists s. split_and!; [apply rtc_refl|done..].
  - pose proof (step_finish s w [] key b ft None Hft Hw) as Hs.
    destruct (finish_no_fetch (cache s) key None b w eq_refl) as [Hf Hc].
    match type of Hs with step _ ?s1 => destruct (IH (length ft) ltac:(simpl in *; lia) s1) as (s' & Hr & H1 & H2 & H3) end.
    { unfold after. cbn [mailbox fetching fst snd app]. rewrite Hf, Hmb. simpl. lia. }
    exists s'. split_and!; [by eapply rtc_l|done|done|]. rewrite H3. apply Hc.
  - pose proof (step_update s w [] key b mb Hmb Hw) as Hs.
    destruct (update_no_fetch (cache s) key w eq_refl) as [Hf Hc].
    match type of Hs with step _ ?s1 =>
      destruct (IH (2 * length mb + S (length (fetching s)))%nat ltac:(simpl in *; lia) s1) as (s' & Hr & H1 & H2 & H3)
    end.
    { unfold after. cbn [mailbox fetching fst snd app]. rewrite Hf, app_nil_r. simpl. lia. }
    exists s'. split_and!; [by eapply rtc_l|done|done|]. rewrite H3. apply Hc.
Qed.

(** ** Properties *)

(** C7: No request for a project state is forgotten: in every reachable state of
    the project cache, with any interleaving of messages, answers and evictions,
    each channel is either resolved exactly once or belongs to exactly one project,
    and then a fetch with the cache setting of the channel is on its way; when no
    fetch is, every channel has been resolved, and handling the messages and
    answering the fetches always gets there. *)
Theorem project_requests_resolved `{FilterEnv} cfg s (Hr : reachable cfg s) :
  system_inv s /\
  (mailbox s = [] -> fetching s = [] -> resolved s ≡ₚ seq 0 (channels s)) /\
  exists s', rtc step s s' /\ channels s' = channels s /\ resolved s' ≡ₚ seq 0 (channels s).
Proof.
  assert (forall s, system_inv s -> mailbox s = [] -> fetching s = [] -> resolved s ≡ₚ seq 0 (channels s)) as Hall.
  { intros s0 [Ho Hm] Hmb Hft. rewrite <- Ho, Hmb, Hft in *.
    assert (open_channels (ProjectCache.projects (cache s0)) = []) as ->; [|done].
    apply elem_of_nil_inv. intros c Hc. apply list_elem_of_bind in Hc as ([k p] & Hc & Hin).
    apply elem_of_map_to_list in Hin. destruct (Hm k p Hin) as [_ Hp]. unfold channel_of in Hc. simpl in Hc.
    destruct (Project.state_channel p) as [ch|]; [|by apply not_elem_of_nil in Hc].
    specialize (Hp ch eq_refl). by apply not_elem_of_nil in Hp. }
  pose proof (reachable_inv cfg s Hr) as Hinv. split_and!; [done|by apply Hall|].
  destruct (drain s) as (s' & Hs & Hmb & Hft & Hn). exists s'. split_and!; [done|done|].
  rewrite <- Hn. apply Hall; [|done|done]. clear Hmb Hft Hn Hr. induction Hs as [s|s s1 s' Hs _ IH]; [done|].
  apply IH. by eapply step_inv.
Qed.

(** Requests for a project that is not configured locally are decided by the
    mode of the Relay: in proxy and capture mode every request passes at any time;
    in static mode every request is refused, as unknown project, until the made-up
    state is hard outdated, from when on it passes; in managed mode Redis takes
    precedence over the upstream, and a failing source gives no state at all. *)
Theorem relay_mode_decides `{FilterEnv} cfg fetched redis upstream now meta :
  let decide_with mode :=
    option_map (fun s => ProjectState.check_request now s meta cfg)
      (ProjectCache.fetch_project_state fetched mode (Some None) redis upstream) in
  decide_with RelayMode.Proxy = Some (Ok ()) /\
  decide_with RelayMode.Capture = Some (Ok ()) /\
  decide_with RelayMode.Static =
    Some (if bool_decide (Config.cache_miss_expiry cfg + Config.project_grace_period cfg <= Z.max 0 (now - fetched))
          then Ok () else Err DiscardReason.ProjectId) /\
  ProjectCache.fetch_project_state fetched RelayMode.Managed (Some None) redis upstream =
    match redis with
    | Some (Some (Some state)) => Some state
    | Some None => None
    | _ => upstream ≫= id
    end.
Proof.
  assert (forall mk, allowed_domains (ProjectState.config mk) = ["*"] ->
    ProjectState.is_valid_origin mk (RequestMeta.origin meta) = true) as Ho.
  { intros mk Hmk. unfold ProjectState.is_valid_origin. by destruct (RequestMeta.origin meta); [rewrite Hmk|]. }
  assert (forall d, ProjectState.check_request now
    (ProjectState.MkProjectState None None d [] None default_project_config None fetched false) meta cfg =
    ProjectState.check_disabled now
    (ProjectState.MkProjectState None None d [] None default_project_config None fetched false) cfg) as Hc.
  { intros d. unfold ProjectState.check_request. rewrite Ho by done. simpl.
    by destruct (ProjectState.check_disabled _ _ _) as [[]|]. }
  unfold ProjectCache.fetch_project_state, ProjectState.allowed, ProjectState.missing. simpl.
  rewrite !Hc. unfold ProjectState.check_disabled. simpl. split_and!.
  - by case_bool_decide.
  - by case_bool_decide.
  - unfold ProjectState.outdated. simpl. repeat case_bool_decide; done.
  - by destruct redis as [[[state|]|]|].
Qed.

(** What [request_state] leaves as it is. *)
Lemma request_state_keeps p b w :
  let '((p', c), w') := Project.request_state p b w in
  Project.state p' = Project.state p /\ Project.project_key p' = Project.project_key p /\
  Project.config p' = Project.config p /\ Project.last_no_cache p' = Project.last_no_cache p /\
  Project.aggregator p' = Project.aggregator p /\ instants w' = instants w /\
  exists b', Project.state_channel p' = Some (Project.MkStateChannel c b') /\ (b = true -> b' = true).
Proof.
  unfold Project.request_state. destruct (Project.state_channel p) as [[c []]|] eqn:Hc; simpl.
  - split_and!; try done. by exists true.
  - destruct b; simpl; split_and!; try done; [by exists true|by exists false].
  - split_and!; try done. by exists b.
Qed.

(** The caller waits for the channel of the project, which fetches without cache
    if [b] says so. *)
Definition waits (response : Response) (p : Project) (b : bool) : Prop :=
  exists c b', response = Future c /\ Project.state_channel p = Some (Project.MkStateChannel c b') /\
    (b = true -> b' = true).

Lemma answer_state_spec p b o w :
  let '((p', response), w') := Project.answer_state p b o w in
  Project.state p' = Project.state p /\ Project.project_key p' = Project.project_key p /\
  Project.last_no_cache p' = Project.last_no_cache p /\ instants w' = instants w /\
  match b, Project.state p, o with
  | false, Some s, Updated => p' = p /\ w' = w /\ response = Reply (Ok s)
  | false, Some s, SoftOutdated => response = Reply (Ok s) /\ is_Some (Project.state_channel p')
  | _, _, _ => waits response p' b
  end.
Proof.
  unfold Project.answer_state. pose proof (request_state_keeps p b w) as Hr. unfold mbind, act_bind.
  destruct (Project.request_state p b w) as [[p' c] w'] eqn:Hreq.
  destruct Hr as (Hs & Hk & _ & Hl & _ & Hi & b' & Hc & Hb).
  assert (waits (Future c) p' b) as Hw by (by exists c, b').
  destruct b, (Project.state p) as [s|] eqn:Hps, o; simpl; rewrite ?Hreq; simpl; split_and!; try done; try congruence; by rewrite Hc.
Qed.

#[local] Arguments Project.answer_state : simpl never.

(** [get_or_fetch_state] answers from its cache as documented: a state that is
    up to date is returned and nothing is sent; a soft outdated state is
    returned while a fetch runs; otherwise the caller waits for the channel that a
    fetch will resolve.  A request without cache always waits, for a fetch without
    cache, but at most one per second is made, and the others are treated as
    requests that may use the cache. *)
Theorem get_or_fetch_state_table p no_cache w :
  let '((p', response), w') := Project.get_or_fetch_state p no_cache w in
  let uncached := no_cache && bool_decide (duration_from_secs 1 <= Z.max 0 (instants w 0%nat - Project.last_no_cache p)) in
  let now := instants w (if no_cache then 1 else 0)%nat in
  Project.state p' = Project.state p /\
  Project.last_no_cache p' = (if uncached then instants w 1%nat else Project.last_no_cache p) /\
  match uncached, Project.state p with
  | false, Some s =>
      match ProjectState.outdated now s (Project.config p) with
      | Updated => p' = p /\ effects w' = effects w /\ response = Reply (Ok s)
      | SoftOutdated => response = Reply (Ok s) /\ is_Some (Project.state_channel p')
      | HardOutdated => waits response p' false
      end
  | _, _ => waits response p' uncached
  end.
Proof.
  unfold Project.get_or_fetch_state, Project.limit_no_cache, mbind, act_bind, instant_now.
  destruct no_cache; simpl; [bcase (Z.max 0 (instants w 0%nat - Project.last_no_cache p) < duration_from_secs 1) as Hlt|];
    simpl; rewrite ?(bool_decide_false (duration_from_secs 1 <= _)), ?(bool_decide_true (duration_from_secs 1 <= _)) by lia;
    destruct (Project.state p) as [s|] eqn:Hs; simpl;
    lazymatch goal with |- let '(_, _) := Project.answer_state ?q ?b ?o ?v in _ =>
      pose proof (answer_state_spec q b o v) as Ha; destruct (Project.answer_state q b o v) as [[p' r] w'] end;
    simpl in Ha; rewrite Hs in Ha; destruct Ha as (H1 & _ & H2 & _ & H3); simpl; split_and!; try done; try congruence.
  all: destruct (ProjectState.outdated _ _ _); try done; destruct H3 as (-> & -> & ->); done.
Qed.

Lemma get_or_fetch_cached p w :
  let '((p', _), _) := Project.get_or_fetch_state p false w in
  Project.state p' = Project.state p /\ Project.project_key p' = Project.project_key p /\
  (is_Some (Project.state_channel p') \/
   exists s, Project.state p = Some s /\ ProjectState.outdated (instants w 0%nat) s (Project.config p) = Updated).
Proof.
  unfold Project.get_or_fetch_state, Project.limit_no_cache, mbind, act_bind, instant_now. simpl.
  assert (forall r q b, waits r q b -> is_Some (Project.state_channel q)) as Hw.
  { intros r q b (c & b' & _ & Hc & _). by eexists. }
  destruct (Project.state p) as [s|] eqn:Hs; simpl;
    lazymatch goal with |- let '(_, _) := Project.answer_state ?q ?b ?o ?v in _ =>
      pose proof (answer_state_spec q b o v) as Ha; destruct (Project.answer_state q b o v) as [[p' r] w'] end;
    rewrite Hs in Ha; destruct Ha as (H1 & H2 & _ & _ & H3); split_and!; try done; [|left; by eapply Hw].
  destruct (ProjectState.outdated _ _ _) eqn:Ho; [right; by exists s|by left; apply H3|by left; eapply Hw].
Qed.

Lemma outdated_mono now now' s cfg :
  now <= now' -> ProjectState.outdated now s cfg <> Updated -> ProjectState.outdated now' s cfg <> Updated.
Proof. unfold ProjectState.outdated. intros Hle. repeat case_bool_decide; try done; lia. Qed.

(** The scope only depends on the state and the key. *)
Lemma scoping_keeps p p' :
  Project.state p' = Project.state p -> Project.project_key p' = Project.project_key p ->
  Project.scoping p' = Project.scoping p.
Proof. unfold Project.scoping. by intros -> ->. Qed.

(** What the answer to [FlushBuckets] may be, given the state at its start. *)
Definition flush_answer_ok (cfg : Config) (key : ProjectKey) (bs : list Bucket) (p : Project) (o : Outdated)
    (r : FlushResponse) : Prop :=
  match r with
  | Returned bs' =>
      bs' = bs /\ (o = HardOutdated \/ (Project.state p ≫= ProjectState.project_id) = None)
  | SendMetrics bs' sc key' => bs' = bs /\ key' = key /\ o <> HardOutdated /\ Project.scoping p = Some sc
  | Dropped =>
      o <> HardOutdated /\ exists s now reason,
        Project.state p = Some s /\ ProjectState.check_disabled now s cfg = Err reason
  end.

Lemma answer_flush_ok cfg key bs o p p' w :
  Project.state p' = Project.state p -> Project.project_key p' = Project.project_key p ->
  let '((p'', r), _) := ProjectCache.answer_flush cfg key bs o p' w in
  p'' = p' /\ flush_answer_ok cfg key bs p o r.
Proof.
  intros Hs Hk. unfold ProjectCache.answer_flush. case_bool_decide as Ho.
  { simpl. split_and!; [done|done|by left]. }
  rewrite (scoping_keeps p p') by done. rewrite Hs. unfold Project.scoping.
  destruct (Project.state p) as [s|] eqn:Hps; simpl; [|split_and!; try done; by right; rewrite Hps].
  destruct (ProjectState.project_id s) as [pid|] eqn:Hpid; simpl;
    [|split_and!; try done; right; rewrite Hps; simpl; done].
  unfold mbind, act_bind, instant_now.
  destruct (ProjectState.check_disabled (instants w 0%nat) s cfg) eqn:Hd; simpl; split_and!; try done.
  - unfold Project.scoping. rewrite Hps. simpl. rewrite Hpid. done.
  - rewrite Hps. by exists s, (instants w 0%nat), e.
Qed.

(** The project cache answers [FlushBuckets] without losing metrics: all buckets
    are returned while the state of the project is missing, hard outdated or
    without project id; all are sent on, in the scope of the project, when the
    project is enabled; they are dropped only for a state that is not hard outdated
    and known to be invalid or disabled.  As long as the clock does not run
    backwards, a state that is not up to date is refreshed in every case. *)
Theorem flush_keeps_metrics cfg key bs p w (Hcfg : Project.config p = cfg)
    (Hmono : forall n, instants w n <= instants w (S n)) :
  let '((p', r), _) := ProjectCache.flush_project cfg key bs p w in
  let o := match Project.state p with
           | Some s => ProjectState.outdated (instants w 0%nat) s cfg
           | None => HardOutdated
           end in
  flush_answer_ok cfg key bs p o r /\ (o <> Updated -> is_Some (Project.state_channel p')).
Proof.
  unfold ProjectCache.flush_project, mbind, act_bind, instant_now.
  remember (match Project.state p with Some s => ProjectState.outdated (instants w 0%nat) s cfg | None => HardOutdated end)
    as o eqn:Hoeq.
  assert (forall p1 w1, Project.state p1 = Project.state p -> Project.project_key p1 = Project.project_key p ->
    (o <> Updated -> is_Some (Project.state_channel p1)) ->
    let '((p', r), _) := ProjectCache.answer_flush cfg key bs o p1 w1 in
    flush_answer_ok cfg key bs p o r /\ (o <> Updated -> is_Some (Project.state_channel p'))) as Hrest.
  { intros p1 w1 Hs Hk Hc. pose proof (answer_flush_ok cfg key bs o p p1 w1 Hs Hk) as Ha.
    destruct (ProjectCache.answer_flush _ _ _ _ _ _) as [[p' r] w']. by destruct Ha as [-> Ha]. }
  assert (forall w1, (forall s, Project.state p = Some s -> instants w 0%nat <= instants w1 0%nat) -> o <> Updated ->
    let '((p1, _), _) := Project.get_or_fetch_state p false w1 in
    Project.state p1 = Project.state p /\ Project.project_key p1 = Project.project_key p /\
    is_Some (Project.state_channel p1)) as Hfetch.
  { intros w1 Hw Ho. pose proof (get_or_fetch_cached p w1) as Hg.
    destruct (Project.get_or_fetch_state p false w1) as [[p1 r1] w2]. destruct Hg as (Hs & Hk & Hc).
    split_and!; [done..|]. destruct Hc as [?|(s & Hps & Hu)]; [done|]. rewrite Hoeq, Hps in Ho.
    rewrite Hcfg in Hu. by apply (outdated_mono _ (instants w1 0%nat)) in Ho; [|eauto]. }
  destruct (Project.state p) as [s|] eqn:Hs; simpl; rewrite <- ?Hoeq; [case_bool_decide as Ho; [by apply Hrest|]|].
  all: lazymatch goal with |- context [Project.get_or_fetch_state ?q false ?v] =>
         specialize (Hfetch v); destruct (Project.get_or_fetch_state q false v) as [[p1 r1] w2] end.
  all: destruct Hfetch as (? & ? & ?); [simpl; intros ? ?; try done; apply Hmono|by subst|]; by apply Hrest.
Qed.

(** Once its aggregator is marked as unavailable, a project never takes
    metrics again, whatever states arrive later: [update_aggregator] calls
    [get_or_create_aggregator] to create one for a valid state, but that function
    only creates an aggregator that was never initialized. *)
Theorem unavailable_aggregator_stays p st no_cache w (Ha : Project.aggregator p = Project.Unavailable) :
  let p' := (Project.update_state p st no_cache w).1 in
  Project.aggregator p' = Project.Unavailable /\
  forall metrics buckets w', Project.insert_metrics p' metrics w' = (p', w') /\
                             Project.merge_buckets p' buckets w' = (p', w').
Proof.
  assert (forall q v, Project.aggregator q = Project.Unavailable ->
    Project.get_or_create_aggregator q v = ((q, None), v)) as Hget.
  { intros q v Hq. unfold Project.get_or_create_aggregator, mbind, act_bind. rewrite Hq. simpl. by rewrite Hq. }
  assert (forall q v, Project.aggregator q = Project.Unavailable ->
    Project.aggregator (Project.update_aggregator q v).1 = Project.Unavailable) as Hup.
  { intros q v Hq. unfold Project.update_aggregator. destruct (Project.state q); [|done].
    unfold mbind, act_bind, instant_now. rewrite Hq.
    destruct (ProjectState.check_disabled _ _ _); simpl; [|done].
    rewrite Hget by done. done. }
  intros p'. assert (Project.aggregator p' = Project.Unavailable) as Hp'.
  { unfold p', Project.update_state. destruct (Project.state_channel p) as [c|]; [|done].
    destruct (Project.ch_no_cache c && negb no_cache); [done|]. unfold mbind, act_bind.
    specialize (Hup (Project.set_state (Project.set_state_channel p None) st) w Ha).
    by destruct (Project.update_aggregator _ w). }
  split; [done|]. intros metrics buckets w'. unfold Project.insert_metrics, Project.merge_buckets, mbind, act_bind.
  by rewrite Hget.
Qed.

(** ** Witnesses *)

Definition sample_config : Config :=
  Config.MkConfig 300 0 60 RelayMode.Managed AggregatorConfig.default_ false 60 2592000 432000 1048576 1000 600.
Definition sample_key : ProjectKey := ProjectKey.MkProjectKey "a94ae32be2584e0bbd7a4cbb95971fee".
Definition sample_state : ProjectState :=
  ProjectState.MkProjectState (Some 42) None false [MkPublicKeyConfig sample_key (Some 7)] None
    default_project_config (Some 1) 0 false.
Definition sample_project (a : Project.AggregatorState) (c : option Project.StateChannel) : Project :=
  Project.MkProject 0 sample_key sample_config a (Some sample_state) c [] 0.

(** One request for a state that is not there. *)
Definition one_request : System :=
  after (initial sample_config) [] []
    (('(self, _) ← ProjectCache.handle_get_project_state (ProjectCache.new sample_config) sample_key false; mret self)
       (at_channels 0)).

Lemma project_requests_resolved_witness :
  mailbox one_request = [(sample_key, false)] /\ channels one_request = 1%nat /\
  exists s', rtc (@step exact_env) one_request s' /\ resolved s' ≡ₚ [0%nat].
Proof.
  assert (@reachable exact_env sample_config one_request) as Hr.
  { eapply reachable_next; [apply reachable_initial|].
    apply (@step_handler exact_env (initial sample_config) _ (at_channels 0)); [apply on_get|done]. }
  destruct (@project_requests_resolved exact_env sample_config one_request Hr) as (_ & _ & s' & Hs & Hn & Hres).
  split; [vm_compute; reflexivity|]. split; [vm_compute; reflexivity|].
  exists s'. split; [exact Hs|exact Hres].
Defined.

Definition at_noon : World := MkWorld (fun n => (100 + Z.of_nat n) * nanos_per_sec) (fun _ => 0) 0 0 [].

Lemma flush_keeps_metrics_witness :
  (ProjectCache.flush_project sample_config sample_key [] (sample_project Project.Unknown None) at_noon).1.2 =
    SendMetrics [] (Build_Scoping 1 42 sample_key (Some 7)) sample_key /\
  flush_answer_ok sample_config sample_key [] (sample_project Project.Unknown None) Updated
    (ProjectCache.flush_project sample_config sample_key [] (sample_project Project.Unknown None) at_noon).1.2.
Proof.
  split; [vm_compute; reflexivity|].
  pose proof (flush_keeps_metrics sample_config sample_key [] (sample_project Project.Unknown None) at_noon
    eq_refl ltac:(intros n; unfold at_noon, nanos_per_sec; simpl; lia)) as Hf.
  destruct (ProjectCache.flush_project _ _ _ _ _) as [[p' r] w']. exact (proj1 Hf).
Defined.

Lemma unavailable_aggregator_stays_witness :
  ProjectState.check_disabled 0 sample_state sample_config = Ok () /\
  Project.aggregator (Project.update_state
    (sample_project Project.Unavailable (Some (Project.MkStateChannel 0 false))) (Some sample_state) false
    (at_channels 1)).1 = Project.Unavailable.
Proof.
  split; [vm_compute; reflexivity|].
  exact (proj1 (unavailable_aggregator_stays
    (sample_project Project.Unavailable (Some (Project.MkStateChannel 0 false))) (Some sample_state) false
    (at_channels 1) eq_refl)).
Defined.
