(* ===== verification/Bodies.v ===== *)
(** * relay-server: request bodies (body/, extractors/shared_payload.rs)

    The payload of a request is a stream of chunks that several readers share: the
    extractor of an envelope peeks the first line, then the endpoint reads the whole.
    A stream may not be ready, may fail, and ends; [None] stands for a poll that
    would not return. *)

From Stdlib Require Import Ascii String.
From S2P Require Import Prelude Strings Types Common Extractors Envelopes Projects.

Open Scope string_scope.
Open Scope Z_scope.
Open Scope list_scope.

#[local] Arguments str_concat : simpl never.

(** ** The shared payload *)

(** actix' errors; others than these two carry their text. *)
Module PayloadError.
Inductive PayloadError := Overflow | UnknownLength | Other (message : string).
End PayloadError.
Notation PayloadError := PayloadError.PayloadError.

(** What the connection yields, poll after poll, before it ends. *)
Inductive PayloadEvent := Chunk (bytes : string) | NotReady | Failed (error : PayloadError).

Record SharedPayload := MkSharedPayload { inner : list PayloadEvent; done : bool }.

Inductive Poll (A : Type) := Ready (a : A) | Pending | PollErr (error : PayloadError).
Arguments Ready {A} _.
Arguments Pending {A}.
Arguments PollErr {A} _.

Definition payload_poll (self : SharedPayload) : SharedPayload * Poll (option string) :=
  if done self then (self, Ready None)
  else match inner self with
       | [] => (MkSharedPayload [] true, Ready None)
       | Chunk bytes :: inner => (MkSharedPayload inner false, Ready (Some bytes))
       | NotReady :: inner => (MkSharedPayload inner false, Pending)
       | Failed error :: inner => (MkSharedPayload inner true, PollErr error)
       end.

Definition unread_data (self : SharedPayload) (chunk : string) : SharedPayload :=
  MkSharedPayload (Chunk chunk :: inner self) (done self).

(** ** Peeking at the first line *)

Module PeekLine.

Record PeekLine := MkPeekLine { payload : SharedPayload; chunks : list string; len : nat; limit_ : option nat }.

Definition new (payload : SharedPayload) : PeekLine := MkPeekLine payload [] 0 None.
Definition limit (self : PeekLine) (limit : nat) : PeekLine := MkPeekLine (payload self) (chunks self) (len self) (Some limit).

Definition len_exceeded (self : PeekLine) (len : nat) : bool :=
  match limit_ self with Some limit => bool_decide (limit < len)%nat | None => false end.

(** Chunks are popped from the end and put back in front. *)
Definition revert_chunks (self : PeekLine) : PeekLine :=
  MkPeekLine (fold_right (fun chunk payload => unread_data payload chunk) (payload self) (chunks self)) [] 0 (limit_ self).

Fixpoint concatenate (chunks : list string) (len : nat) : string :=
  match chunks with
  | [] => ""
  | chunk :: chunks =>
      let remaining := if bool_decide (String.length chunk < len)%nat then String.length chunk else len in
      substring 0 remaining chunk +:+ concatenate chunks (len - remaining)
  end.

Definition finish (self : PeekLine) (len : nat) : PeekLine * Poll (option string) :=
  if bool_decide (len = 0)%nat then (self, Ready None)
  else
    let line := if bool_decide (len = 0)%nat || len_exceeded self len then None else Some (concatenate (chunks self) len) in
    (revert_chunks self, Ready line).

(** The loop of [poll]; every round takes an event. *)
Fixpoint poll_loop (fuel : nat) (self : PeekLine) : option (PeekLine * Poll (option string)) :=
  match fuel with
  | O => None
  | S fuel =>
      let '(payload, chunk) := payload_poll (payload self) in
      let self := MkPeekLine payload (chunks self) (len self) (limit_ self) in
      match chunk with
      | Ready (Some chunk) =>
          let self := MkPeekLine payload (chunks self ++ [chunk]) (len self) (limit_ self) in
          match char_position newline chunk with
          | Some pos => Some (finish self (len self + pos))
          | None =>
              let self := MkPeekLine payload (chunks self) (len self + String.length chunk) (limit_ self) in
              if len_exceeded self (len self) then Some (revert_chunks self, Ready None) else poll_loop fuel self
          end
      | Ready None => Some (finish self (len self))
      | Pending => Some (self, Pending)
      | PollErr e => Some (self, PollErr e)
      end
  end.
Definition poll (self : PeekLine) : option (PeekLine * Poll (option string)) :=
  poll_loop (S (length (inner (payload self)))) self.

(** A future is polled until it is ready. *)
Fixpoint block_on (fuel : nat) (self : PeekLine) : option (PeekLine * result PayloadError (option string)) :=
  match fuel with
  | O => None
  | S fuel =>
      match poll self with
      | Some (self, Pending) => block_on fuel self
      | Some (self, Ready line) => Some (self, Ok line)
      | Some (self, PollErr e) => Some (self, Err e)
      | None => None
      end
  end.

End PeekLine.
Notation PeekLine := PeekLine.PeekLine.

(** The line that the payload starts with, within a limit, and the payload as it is left. *)
Definition peek_line (payload : SharedPayload) (limit : nat) : option (SharedPayload * result PayloadError (option string)) :=
  match PeekLine.block_on (S (length (inner payload))) (PeekLine.limit (PeekLine.new payload) limit) with
  | Some (self, r) => Some (PeekLine.payload self, r)
  | None => None
  end.

(** ** Complete bodies *)

Module StorePayloadError.

Inductive StorePayloadError :=
| Overflow | UnknownLength | Decode (error : string) | Zlib (error : string) | Payload (error : PayloadError).

Definition discard_reason (self : StorePayloadError) : DiscardReason :=
  match self with
  | Overflow => DiscardReason.TooLarge
  | UnknownLength | Decode _ | Zlib _ | Payload _ => DiscardReason.Payload
  end.

Definition status (self : StorePayloadError) : Z := match self with Overflow => 413 | _ => 400 end.

Definition from (err : PayloadError) : StorePayloadError :=
  match err with
  | PayloadError.Overflow => Overflow
  | PayloadError.UnknownLength => UnknownLength
  | other => Payload other
  end.

End StorePayloadError.
Notation StorePayloadError := StorePayloadError.StorePayloadError.

Module ForwardPayloadError.

Inductive ForwardPayloadError := Overflow | UnknownLength | Payload (error : PayloadError).

Definition status (self : ForwardPayloadError) : Z := match self with Overflow => 413 | _ => 400 end.

Definition from (err : PayloadError) : ForwardPayloadError :=
  match err with
  | PayloadError.Overflow => Overflow
  | PayloadError.UnknownLength => UnknownLength
  | other => Payload other
  end.

End ForwardPayloadError.
Notation ForwardPayloadError := ForwardPayloadError.ForwardPayloadError.

(** The parts of a request that bodies are read from. *)
Record BodyRequest := MkBodyRequest {
  method : string;
  body_query : string;
  content_type : string;
  content_length_header : option string;
  body_payload : SharedPayload;
}.

(** [utils::get_content_length] *)
Definition get_content_length (req : BodyRequest) : option Z := content_length_header req ≫= parse_u64.

Definition content_too_long (req : BodyRequest) (limit : Z) : bool :=
  match get_content_length req with Some length => bool_decide (limit < length) | None => false end.

(** The fold over a stream, polled until it is ready. *)
Fixpoint fold_chunks {E} (from : PayloadError -> E) (overflow : E) (limit : Z) (body : string) (events : list PayloadEvent)
  : result E string :=
  match events with
  | [] => Ok body
  | NotReady :: events => fold_chunks from overflow limit body events
  | Failed e :: _ => Err (from e)
  | Chunk chunk :: events =>
      if bool_decide (limit < Z.of_nat (String.length body) + Z.of_nat (String.length chunk)) then Err overflow
      else fold_chunks from overflow limit (body +:+ chunk) events
  end.
Definition fold_payload {E} (from : PayloadError -> E) (overflow : E) (limit : Z) (payload : SharedPayload) : result E string :=
  fold_chunks from overflow limit "" (if done payload then [] else inner payload).

(** [form_urlencoded::parse], [base64::decode] and flate2's decoder. *)
Class BodyEnv := {
  parse_query : string -> list (string * string);
  base64_decode : string -> result string string;
  zlib_decode : string -> result string string;
}.

Section Bodies.
Context `{BodyEnv}.

Definition data_from_querystring (req : BodyRequest) : option string :=
  if bool_decide (method req <> "GET") then None
  else snd <$> List.find (fun kv : string * string => bool_decide (kv.1 = "sentry_data")) (parse_query (body_query req)).

Definition decode_bytes (body : string) : result StorePayloadError string :=
  if starts_with "{" body then Ok body
  else match base64_decode body with
       | Err e => Err (StorePayloadError.Decode e)
       | Ok binary_body =>
           if starts_with "{" binary_body then Ok binary_body
           else match zlib_decode binary_body with
                | Ok bytes => Ok bytes
                | Err e => Err (StorePayloadError.Zlib e)
                end
       end.

(** What [StoreBody::new(req, limit)] resolves to. *)
Definition store_body (req : BodyRequest) (limit : Z) : result StorePayloadError string :=
  match data_from_querystring req with
  | Some body => decode_bytes body
  | None =>
      if content_too_long req limit then Err StorePayloadError.Overflow
      else body ← fold_payload StorePayloadError.from StorePayloadError.Overflow limit (body_payload req);
           decode_bytes body
  end.

(** What [ForwardBody::new(req, limit)] resolves to. *)
Definition forward_body (req : BodyRequest) (limit : Z) : result ForwardPayloadError string :=
  if content_too_long req limit then Err ForwardPayloadError.Overflow
  else fold_payload ForwardPayloadError.from ForwardPayloadError.Overflow limit (body_payload req).

End Bodies.

(** ** Lemmas: peeking *)

Definition event_bytes (e : PayloadEvent) : string := match e with Chunk bytes => bytes | _ => "" end.
(** The bytes of a stream, and those that can still be read from a payload. *)
Definition stream_bytes (events : list PayloadEvent) : string := str_concat (event_bytes <$> events).
Definition readable_bytes (payload : SharedPayload) : string := if done payload then "" else stream_bytes (inner payload).

Definition healthy (events : list PayloadEvent) : Prop := Forall (fun e => match e with Failed _ => False | _ => True end) events.

(** The text before the first newline. *)
Definition first_line (s : string) : string := fst (splitn2 newline s).

(** What peeking finds in a text. *)
Definition peeked (limit : nat) (s : string) : option string :=
  if bool_decide (first_line s = "") || bool_decide (limit < String.length (first_line s))%nat then None else Some (first_line s).

Lemma first_line_app a b : contains_char newline a = false -> first_line (a +:+ b) = a +:+ first_line b.
Proof.
  intros Ha. unfold first_line. destruct (contains_char newline b) eqn:Hb.
  - destruct (char_position newline b) as [n|] eqn:Hp; [|apply char_position_None in Hp; congruence].
    apply char_position_Some in Hp as (c & d & -> & Hc & _). rewrite <- str_app_assoc, !splitn2_app; [done|done|].
    by rewrite contains_char_app, Ha, Hc.
  - rewrite !splitn2_no_sep; [done|done|]. by rewrite contains_char_app, Ha, Hb.
Qed.

Lemma first_line_none a : contains_char newline a = false -> first_line a = a.
Proof. intros Ha. unfold first_line. by rewrite splitn2_no_sep. Qed.

Lemma concatenate_all l s n : str_concat l = s -> (n <= String.length s)%nat -> PeekLine.concatenate l n = substring 0 n s.
Proof.
  intros <-. revert n. induction l as [|c l IH]; intros n; [by destruct n|].
  cbn [PeekLine.concatenate]. rewrite str_concat_cons, length_app_str. intros Hn.
  case_bool_decide as Hc.
  - rewrite substring_all, IH by lia. replace n with (String.length c + (n - String.length c))%nat at 2 by lia.
    rewrite <- (substring_join 0 (String.length c)), substring_app_l. f_equal. cbn [Nat.add].
    rewrite <- (Nat.add_0_r (String.length c)) at 2. by rewrite substring_app_r.
  - rewrite IH by lia. rewrite Nat.sub_diag, substring_0, str_app_nil_r.
    replace c with (substring 0 n c +:+ substring n (String.length c - n) c) at 2.
    + rewrite str_app_assoc. replace n with (String.length (substring 0 n c)) at 2 by (rewrite length_substring; lia).
      by rewrite substring_app_l.
    + rewrite substring_join. replace (n + (String.length c - n))%nat with (String.length c) by lia. apply substring_all.
Qed.

Lemma revert_payload self :
  PeekLine.payload (PeekLine.revert_chunks self)
  = MkSharedPayload ((Chunk <$> PeekLine.chunks self) ++ inner (PeekLine.payload self)) (done (PeekLine.payload self)).
Proof.
  destruct self as [ [i d] chunks n l]. cbn. induction chunks as [|c chunks IH]; [done|]. cbn. by rewrite IH.
Qed.

Lemma stream_bytes_chunks l events : stream_bytes ((Chunk <$> l) ++ events) = str_concat l +:+ stream_bytes events.
Proof.
  unfold stream_bytes. rewrite fmap_app, str_concat_app. f_equal. f_equal. induction l as [|c l IH]; [done|]. cbn. by rewrite IH.
Qed.

Section Peek.
Context (limit : nat) (total : string).

(** While a line is looked for: the chunks so far have no newline and are within the limit. *)
Record peek_inv (self : PeekLine) : Prop := {
  peek_open : done (PeekLine.payload self) = false;
  peek_healthy : healthy (inner (PeekLine.payload self));
  peek_total : str_concat (PeekLine.chunks self) +:+ stream_bytes (inner (PeekLine.payload self)) = total;
  peek_no_newline : contains_char newline (str_concat (PeekLine.chunks self)) = false;
  peek_len : PeekLine.len self = String.length (str_concat (PeekLine.chunks self));
  peek_limit : PeekLine.limit_ self = Some limit /\ (PeekLine.len self <= limit)%nat;
}.

(** What is left of the payload. *)
Definition peek_left (payload : SharedPayload) : Prop :=
  (first_line total <> "" -> contains_char newline total = true \/ (limit < String.length total)%nat ->
   readable_bytes payload = total)
  /\ (contains_char newline total = false -> (String.length total <= limit)%nat -> readable_bytes payload = "").

Definition peek_found (self : PeekLine) (r : option string) : Prop :=
  r = peeked limit total /\ peek_left (PeekLine.payload self).

(** Chunks that hold a newline give the line. *)
Lemma finish_newline payload chunks len0 a b rest :
  done payload = false -> str_concat chunks = a +:+ String newline b -> contains_char newline a = false ->
  str_concat chunks +:+ stream_bytes (inner payload) = total -> rest = String.length a ->
  exists self' r, PeekLine.finish (PeekLine.MkPeekLine payload chunks len0 (Some limit)) rest = (self', Ready r) /\ peek_found self' r.
Proof.
  intros Hd Hc Ha Ht ->. assert (first_line total = a) as Hl.
  { rewrite <- Ht, Hc, str_app_assoc. cbn. unfold first_line. by rewrite splitn2_app. }
  assert (contains_char newline total = true) as Hn.
  { rewrite <- Ht, Hc, str_app_assoc, contains_char_app. cbn. rewrite contains_char_cons, bool_decide_eq_true_2 by done. apply orb_true_r. }
  unfold PeekLine.finish, peek_found, peeked. rewrite Hl. case_bool_decide as H0.
  - eexists _, _. split; [done|]. apply length_zero_iff_nil_str in H0 as ->. split; [done|]. split; [by rewrite Hl|]. intros Hx. congruence.
  - rewrite (bool_decide_eq_false_2 (a = "")) by (intros ->; done). cbn [orb].
    eexists _, _. split; [done|]. unfold PeekLine.len_exceeded. cbn [PeekLine.limit_]. split.
    + case_bool_decide; [done|]. f_equal. cbn. rewrite (concatenate_all _ _ _ Hc) by (rewrite length_app_str; lia).
      apply substring_app_l.
    + rewrite revert_payload. cbn [PeekLine.payload PeekLine.chunks]. unfold peek_left, readable_bytes. cbn [done inner]. rewrite Hd.
      split; [|intros Hx; congruence]. intros _ _. by rewrite stream_bytes_chunks.
Qed.

(** The end of the stream gives all of it. *)
Lemma finish_end chunks :
  str_concat chunks = total -> contains_char newline total = false -> (String.length total <= limit)%nat ->
  exists self' r, PeekLine.finish (PeekLine.MkPeekLine (MkSharedPayload [] true) chunks (String.length total) (Some limit))
    (String.length total) = (self', Ready r) /\ peek_found self' r.
Proof.
  intros Hc Hn Hl. unfold PeekLine.finish, peek_found, peeked. rewrite (first_line_none _ Hn).
  assert (forall p, done p = true -> peek_left p) as Hleft.
  { intros p Hp. unfold peek_left, readable_bytes. rewrite Hp. split; [|done]. intros _ [Hx|Hx]; [congruence|lia]. }
  case_bool_decide as H0.
  - eexists _, _. split; [done|]. split; [|by apply Hleft]. apply length_zero_iff_nil_str in H0 as ->. done.
  - rewrite (bool_decide_eq_false_2 (total = "")) by (intros ->; done). eexists _, _. split; [done|]. cbn [orb]. split.
    + unfold PeekLine.len_exceeded. cbn [PeekLine.limit_]. rewrite !bool_decide_eq_false_2 by lia. f_equal. cbn.
      rewrite (concatenate_all _ _ _ Hc) by done. apply substring_all.
    + rewrite revert_payload. by apply Hleft.
Qed.

Lemma poll_loop_spec fuel : forall self, peek_inv self -> (length (inner (PeekLine.payload self)) < fuel)%nat ->
  exists self' p, PeekLine.poll_loop fuel self = Some (self', p)
  /\ (p = Pending /\ peek_inv self' /\ (length (inner (PeekLine.payload self')) < length (inner (PeekLine.payload self)))%nat
      \/ exists r, p = Ready r /\ peek_found self' r).
Proof.
  induction fuel as [|fuel IH]; [lia|]. intros [ [events d] chunks n lim] [Hd Hh Ht Hn Hlen [Hlim Hle] ] Hf.
  cbn in Hd, Hh, Ht, Hn, Hlen, Hlim, Hle, Hf. subst d lim n. cbn [PeekLine.poll_loop PeekLine.payload payload_poll done inner].
  destruct events as [|[c| |e] events]; inversion Hh as [|? ? He Hh']; subst; cbn [PeekLine.chunks PeekLine.len PeekLine.limit_].
  - cbn in Ht. rewrite str_app_nil_r in Ht. rewrite Ht in Hn, Hle |- *.
    destruct (finish_end chunks Ht Hn Hle) as (self' & r & -> & Hr). eexists _, _. split; [done|]. right. by exists r.
  - assert (str_concat (chunks ++ [c]) = str_concat chunks +:+ c) as Hcc.
    { rewrite str_concat_app. change (str_concat [c]) with (c +:+ ""). by rewrite str_app_nil_r. }
    assert (str_concat (chunks ++ [c]) +:+ stream_bytes events = total) as Ht'.
    { rewrite Hcc, str_app_assoc. exact Ht. }
    destruct (char_position newline c) as [pos|] eqn:Hp.
    + apply char_position_Some in Hp as (a & b & -> & Ha & ->).
      destruct (finish_newline (MkSharedPayload events false) (chunks ++ [a +:+ String newline b]) (String.length (str_concat chunks))
                  (str_concat chunks +:+ a) b (String.length (str_concat chunks) + String.length a)) as (self' & r & Hfin & Hr);
        [done|by rewrite Hcc, str_app_assoc|by rewrite contains_char_app, Hn, Ha|done|by rewrite length_app_str|].
      rewrite Hfin. eexists _, _. split; [done|]. right. by exists r.
    + apply char_position_None in Hp. unfold PeekLine.len_exceeded. cbn [PeekLine.limit_ PeekLine.len].
      assert (String.length (str_concat chunks) + String.length c = String.length (str_concat (chunks ++ [c])))%nat as Hl
        by by rewrite Hcc, length_app_str.
      assert (contains_char newline (str_concat (chunks ++ [c])) = false) as Hn' by by rewrite Hcc, contains_char_app, Hn, Hp.
      case_bool_decide as Hex.
      * eexists _, _. split; [done|]. right. eexists. split; [done|]. split.
        -- unfold peeked. rewrite <- Ht', first_line_app by done. rewrite length_app_str.
           rewrite (bool_decide_eq_true_2 (limit < _)%nat) by lia. by rewrite orb_true_r.
        -- rewrite revert_payload. unfold peek_left, readable_bytes. cbn. rewrite stream_bytes_chunks.
           split; [done|]. intros _ Hx. rewrite <- Ht', length_app_str in Hx. lia.
      * destruct (IH (PeekLine.MkPeekLine (MkSharedPayload events false) (chunks ++ [c])
                        (String.length (str_concat chunks) + String.length c) (Some limit))) as (self' & p & Hp' & Hres);
          [split; cbn; [done|done|done|done|lia|split; [done|lia] ]|cbn in Hf |- *; lia|].
        exists self', p. split; [done|]. destruct Hres as [(? & ? & ?)|?]; [left|by right]. split_and!; [done|done|cbn in *; lia].
  - eexists _, _. split; [done|]. left. split; [done|]. split; [|cbn; lia]. by split.
  - done.
Qed.

Lemma block_on_spec fuel : forall self, peek_inv self -> (length (inner (PeekLine.payload self)) < fuel)%nat ->
  exists self' r, PeekLine.block_on fuel self = Some (self', Ok r) /\ peek_found self' r.
Proof.
  induction fuel as [|fuel IH]; [lia|]. intros self Hinv Hf. cbn [PeekLine.block_on]. unfold PeekLine.poll.
  destruct (poll_loop_spec (S (length (inner (PeekLine.payload self)))) self Hinv) as (self' & p & -> & Hres); [lia|].
  destruct Hres as [(-> & Hinv' & Hl)|(r & -> & Hr)]; [apply IH; [done|lia]|]. by exists self', r.
Qed.

End Peek.

(** ** Lemmas: complete bodies *)

Lemma fold_chunks_healthy {E} (from : PayloadError -> E) overflow limit events : healthy events -> forall body,
  Z.of_nat (String.length body) <= limit ->
  fold_chunks from overflow limit body events
  = if bool_decide (limit < Z.of_nat (String.length (body +:+ stream_bytes events))) then Err overflow else Ok (body +:+ stream_bytes events).
Proof.
  induction 1 as [|e events He _ IH]; intros body Hb; cbn [fold_chunks].
  - unfold stream_bytes. cbn. rewrite str_app_nil_r. by rewrite bool_decide_eq_false_2 by lia.
  - destruct e as [c| |?]; [|by apply IH|done]. change (stream_bytes (Chunk c :: events)) with (c +:+ stream_bytes events).
    rewrite <- str_app_assoc. case_bool_decide as Hc.
    + rewrite bool_decide_eq_true_2; [done|]. rewrite !length_app_str. lia.
    + apply IH. rewrite length_app_str. lia.
Qed.

(** ** Theorems *)

(** Peeking at the first line of a healthy payload always comes to an end, however the
    payload is cut into chunks and however often it is not ready.  It finds the text before
    the first newline, or all of the payload, unless that is empty or longer than the limit.
    When there is a line to find and the payload goes on behind it, nothing is taken away:
    the next reader gets all of the payload. *)
Theorem first_line_peeked (events : list PayloadEvent) (limit : nat) :
  healthy events ->
  exists payload, peek_line (MkSharedPayload events false) limit = Some (payload, Ok (peeked limit (stream_bytes events)))
  /\ (first_line (stream_bytes events) <> "" ->
      contains_char newline (stream_bytes events) = true \/ (limit < String.length (stream_bytes events))%nat ->
      readable_bytes payload = stream_bytes events).
Proof.
  intros Hh. unfold peek_line. cbn [inner].
  destruct (block_on_spec limit (stream_bytes events) (S (length events))
              (PeekLine.limit (PeekLine.new (MkSharedPayload events false)) limit)) as (self' & r & Hrun & -> & Hl & _);
    [split; cbn; try done; split; [done|lia]|cbn; lia|].
  rewrite Hrun. eexists. split; [done|exact Hl].
Qed.

(** When the payload is a single line without a newline its end has been seen and the
    payload stays closed: the chunks are put back, but no reader gets them. *)
Theorem single_line_lost (events : list PayloadEvent) (limit : nat) :
  healthy events -> contains_char newline (stream_bytes events) = false ->
  (0 < String.length (stream_bytes events) <= limit)%nat ->
  exists payload, peek_line (MkSharedPayload events false) limit = Some (payload, Ok (Some (stream_bytes events)))
  /\ readable_bytes payload = "".
Proof.
  intros Hh Hn Hlen. unfold peek_line. cbn [inner].
  destruct (block_on_spec limit (stream_bytes events) (S (length events))
              (PeekLine.limit (PeekLine.new (MkSharedPayload events false)) limit)) as (self' & r & Hrun & -> & _ & Hl);
    [split; cbn; try done; split; [done|lia]|cbn; lia|].
  rewrite Hrun. eexists. split; [|by apply Hl; [|lia] ]. do 2 f_equal. unfold peeked. rewrite first_line_none by done.
  rewrite !bool_decide_eq_false_2; [done|lia|]. intros Hx. rewrite Hx in Hlen. cbn in Hlen. lia.
Qed.

(** How a payload is cut into chunks does not matter: a healthy payload within the limit
    is read completely, a longer one overflows, for both kinds of bodies; a store body is then
    decoded.  A body whose declared length exceeds the limit is not read at all. *)
Theorem bodies_limited `{BodyEnv} (req : BodyRequest) (limit : Z) :
  healthy (inner (body_payload req)) -> 0 <= limit -> data_from_querystring req = None ->
  let total := readable_bytes (body_payload req) in
  let too_long := content_too_long req limit || bool_decide (limit < Z.of_nat (String.length total)) in
  store_body req limit = (if too_long then Err StorePayloadError.Overflow else decode_bytes total)
  /\ forward_body req limit = if too_long then Err ForwardPayloadError.Overflow else Ok total.
Proof.
  intros Hh Hl Hq total too_long.
  assert (forall E (from : PayloadError -> E) overflow, fold_payload from overflow limit (body_payload req)
    = if bool_decide (limit < Z.of_nat (String.length total)) then Err overflow else Ok total) as Hf.
  { intros E from overflow. unfold fold_payload, total, readable_bytes. destruct (done (body_payload req)).
    - by rewrite bool_decide_eq_false_2 by (cbn; lia).
    - by rewrite fold_chunks_healthy by (try done; cbn; lia). }
  unfold store_body, forward_body, too_long. rewrite Hq, !Hf. destruct (content_too_long req limit); [done|]. cbn [orb].
  by destruct (bool_decide _).
Qed.

(** A body is decoded at most twice, and a JSON object is taken as it is. *)
Theorem decoded_bodies `{BodyEnv} body : 
  match decode_bytes body with
  | Ok bytes => bytes = body /\ starts_with "{" body = true
      \/ (base64_decode body = Ok bytes /\ starts_with "{" bytes = true)
      \/ exists binary, base64_decode body = Ok binary /\ zlib_decode binary = Ok bytes
  | Err e => starts_with "{" body = false /\ StorePayloadError.discard_reason e = DiscardReason.Payload
  end.
Proof.
  unfold decode_bytes. destruct (starts_with "{" body) eqn:Hb; [by left|].
  destruct (base64_decode body) as [binary|e] eqn:H64; [|done].
  destruct (starts_with "{" binary) eqn:Hs; [by right; left|]. destruct (zlib_decode binary) as [bytes|e] eqn:Hz; [|done].
  right; right. by exists binary.
Qed.

(** ** Witnesses *)

Definition two_lines : list PayloadEvent := [Chunk "{}"; NotReady; Chunk (nl +:+ "item")].

Lemma first_line_peeked_witness :
  exists payload, peek_line (MkSharedPayload two_lines false) 2048 = Some (payload, Ok (Some "{}"))
  /\ readable_bytes payload = "{}" +:+ nl +:+ "item".
Proof.
  destruct (first_line_peeked two_lines 2048) as (p & Hp & Hr); [by repeat constructor|].
  exists p. split; [exact Hp|]. by apply Hr; [|left].
Defined.

Lemma single_line_lost_witness :
  exists payload, peek_line (MkSharedPayload [Chunk "{}"] false) 64 = Some (payload, Ok (Some "{}")) /\ readable_bytes payload = "".
Proof.
  assert (healthy [Chunk "{}"]) as Hh by by apply Forall_singleton.
  assert (0 < String.length (stream_bytes [Chunk "{}"]) <= 64)%nat as Hl by (change (0 < 2 <= 64)%nat; lia).
  exact (single_line_lost [Chunk "{}"] 64 Hh eq_refl Hl).
Defined.

(** A payload that starts with a newline loses the chunk that was looked at. *)
Lemma leading_newline_lost :
  peek_line (MkSharedPayload [Chunk (nl +:+ "a"); Chunk "b"] false) 2048
  = Some (MkSharedPayload [Chunk "b"] false, Ok None).
Proof. by vm_compute. Qed.

Definition plain_bodies : BodyEnv := {| parse_query _ := []; base64_decode := Ok; zlib_decode := Ok |}.

Lemma bodies_limited_witness :
  let req := MkBodyRequest "POST" "" "application/json" None (MkSharedPayload [Chunk "{"; NotReady; Chunk "}"] false) in
  @store_body plain_bodies req 2 = Ok "{}" /\ @store_body plain_bodies req 1 = Err StorePayloadError.Overflow.
Proof.
  split.
  - refine (proj1 (@bodies_limited plain_bodies (MkBodyRequest "POST" "" "application/json" None (MkSharedPayload [Chunk "{"; NotReady; Chunk "}"] false)) 2 _ _ _)); [by repeat constructor|lia|done].
  - refine (proj1 (@bodies_limited plain_bodies (MkBodyRequest "POST" "" "application/json" None (MkSharedPayload [Chunk "{"; NotReady; Chunk "}"] false)) 1 _ _ _)); [by repeat constructor|lia|done].
Defined.
