(* ===== verification/Http.v ===== *)
(** * relay-server: HTTP requests and responses (http.rs, utils/api.rs)

    The types that the connection to the upstream is made of, with the retry
    backoff of relay-common (retry.rs) and the upstream address of relay-config
    (upstream.rs).  The HTTP client, URLs, compression and the backoff policy are
    crates and thus operations of [HttpClient], [UrlParser] and [Backoff]. *)

From Stdlib Require Import Ascii String.
From S2P Require Import Prelude Strings Floats Types Common Protocol Quota Filters Sampling Extractors Envelopes Sessions.

Open Scope string_scope.
Open Scope Z_scope.
Open Scope list_scope.

(** ** The upstream address (relay-config: upstream.rs) *)

(** [url::Url], with [Url::parse] and the accessors that the sources use. *)
Class UrlParser := {
  Url : Type;
  url_parse : string -> option Url;
  url_scheme_str : Url -> string;
  url_host_str : Url -> option string;
  url_port : Url -> option Z;
  url_path : Url -> string;
  url_query : Url -> option string;
}.

Module UpstreamParseError.

Inductive UpstreamParseError := BadUrl | NonOriginUrl | UnknownScheme | NoHost.

End UpstreamParseError.
Notation UpstreamParseError := UpstreamParseError.UpstreamParseError.

Module Upstream.
Section WithUrls.
Context `{UrlParser}.

(** [Display]. *)
Definition to_string (self : UpstreamDescriptor) : string :=
  scheme_to_string (up_scheme self) +:+ "://" +:+ up_host self
  +:+ (if bool_decide (up_port self = default_port (up_scheme self)) then ""
       else ":" +:+ u64_to_string (up_port self))
  +:+ "/".

Definition get_url (self : UpstreamDescriptor) (path : string) : outcome Url :=
  unwrap (url_parse (to_string self +:+ PartialDsn.trim_start_slash path)).

Definition from_str (s : string) : result UpstreamParseError UpstreamDescriptor :=
  url ← ok_or (url_parse s) UpstreamParseError.BadUrl;
  if negb (bool_decide (url_path url = "/"))
     || negb (bool_decide (url_query url = None) || bool_decide (url_query url = Some ""))
  then Err UpstreamParseError.NonOriginUrl
  else
    scheme ← (if bool_decide (url_scheme_str url = "http") then Ok Http
              else if bool_decide (url_scheme_str url = "https") then Ok Https
              else Err UpstreamParseError.UnknownScheme);
    host ← ok_or (url_host_str url) UpstreamParseError.NoHost;
    Ok (MkUpstream scheme host (default (default_port scheme) (url_port url))).

End WithUrls.

Definition default_ : UpstreamDescriptor := MkUpstream Https "sentry.io" 443.

End Upstream.

(** ** Errors *)

Notation StatusCode := Z (only parsing).

(** [StatusCode::is_success]. *)
Definition is_success (status : StatusCode) : bool := bool_decide (200 <= status < 300).

(** What is known of a [reqwest::Error]. *)
Record ReqwestError := MkReqwestError { is_timeout : bool; error_status : option StatusCode }.

Module HttpError.

Inductive HttpError :=
| Overflow
| Reqwest (e : ReqwestError)
| Io (message : string)
| Json (e : JsonError)
| Custom (message : string).

Definition is_network_error (self : HttpError) : bool :=
  match self with
  | Io _ => true
  | Reqwest error => is_timeout error
  | Json _ => false
  | Overflow => false
  | Custom _ => false
  end.

End HttpError.
Notation HttpError := HttpError.HttpError.

(** ** Error responses (utils/api.rs) *)

Module RelayErrorAction.

Inductive RelayErrorAction := Stop | None_.

#[global] Instance RelayErrorAction_eq_dec : EqDecision RelayErrorAction.
Proof. solve_decision. Defined.

Definition is_none (self : RelayErrorAction) : bool := bool_decide (self = None_).
Definition default_ : RelayErrorAction := None_.

End RelayErrorAction.
Notation RelayErrorAction := RelayErrorAction.RelayErrorAction.

Module ApiErrorResponse.

Record ApiErrorResponse := MkApiErrorResponse {
  detail : option string;
  causes : list string;
  relay : RelayErrorAction;
}.

Definition default_ : ApiErrorResponse := MkApiErrorResponse None [] RelayErrorAction.default_.

Definition with_detail (s : string) : ApiErrorResponse := MkApiErrorResponse (Some s) [] RelayErrorAction.None_.

(** The messages of the chain of causes without repetitions; the chain starts
    with the error itself, so [remove(0)] does not panic. *)
Definition from_fail (message : string) (chain : list string) : ApiErrorResponse :=
  let messages := fold_left (fun ms m => if bool_decide (m ∈ ms) then ms else ms ++ [m]) chain [message] in
  MkApiErrorResponse (head messages) (tail messages) RelayErrorAction.None_.

Definition relay_action (self : ApiErrorResponse) : RelayErrorAction := relay self.

(** [Display]. *)
Definition to_string (self : ApiErrorResponse) : string := default "no error details" (detail self).

End ApiErrorResponse.
Notation ApiErrorResponse := ApiErrorResponse.ApiErrorResponse.

(** ** Requests *)

Module HttpEncoding.

Inductive HttpEncoding := Identity | Deflate | Gzip | Br.

End HttpEncoding.
Notation HttpEncoding := HttpEncoding.HttpEncoding.

Module RequestBuilder.

(** [reqwest::RequestBuilder] collects the parts of the request. *)
Record RequestBuilder {U : Type} := MkRequestBuilder {
  method : string;
  url : U;
  headers : list (string * string);
  payload : option string;
  http_encoding : HttpEncoding;
}.
Arguments RequestBuilder U : clear implicits.

Definition reqwest {U} (method : string) (url : U) : RequestBuilder U :=
  MkRequestBuilder U method url [] None HttpEncoding.Identity.

Definition header {U} (self : RequestBuilder U) (key value : string) : RequestBuilder U :=
  MkRequestBuilder U (method self) (url self) (headers self ++ [(key, value)]) (payload self) (http_encoding self).

Definition content_encoding {U} (self : RequestBuilder U) (encoding : HttpEncoding) : RequestBuilder U :=
  MkRequestBuilder U (method self) (url self) (headers self) (payload self) encoding.

Definition set_payload {U} (self : RequestBuilder U) (data : string) : RequestBuilder U :=
  MkRequestBuilder U (method self) (url self) (headers self) (Some data) (http_encoding self).

End RequestBuilder.
Notation RequestBuilder := RequestBuilder.RequestBuilder.

(** reqwest's [build], and the encoders of flate2 and brotli2. *)
Class HttpClient `{UrlParser} := {
  Request : Type;
  reqwest_build : RequestBuilder Url -> result ReqwestError Request;
  encode : HttpEncoding -> string -> result string string;
}.

Section Requests.
Context `{HttpClient}.

Definition finish (self : RequestBuilder Url) : result HttpError Request :=
  match reqwest_build self with Ok r => Ok r | Err e => Err (HttpError.Reqwest e) end.

Definition encoded (self : RequestBuilder Url) (name : string) (body : string) :
    result HttpError (RequestBuilder Url) :=
  match encode (RequestBuilder.http_encoding self) body with
  | Ok data => Ok (RequestBuilder.set_payload (RequestBuilder.header self "Content-Encoding" name) data)
  | Err e => Err (HttpError.Io e)
  end.

Definition body (self : RequestBuilder Url) (body : string) : result HttpError Request :=
  builder ← match RequestBuilder.http_encoding self with
            | HttpEncoding.Identity => Ok (RequestBuilder.set_payload self body)
            | HttpEncoding.Deflate => encoded self "deflate" body
            | HttpEncoding.Gzip => encoded self "gzip" body
            | HttpEncoding.Br => encoded self "br" body
            end;
  finish builder.

End Requests.

(** ** Responses *)

Module Response.

(** A response whose body arrives in chunks, or breaks off with an error. *)
Record Response := MkResponse {
  status : StatusCode;
  headers : list (string * string);
  chunks : list (result ReqwestError string);
}.

(** Names of headers are compared without regard to case. *)
Definition get_all_headers (self : Response) (key : string) : list string :=
  (List.filter (fun h => eq_ignore_ascii_case h.1 key) (headers self)).*2.

Definition get_header (self : Response) (key : string) : option string := head (get_all_headers self key).

(** [try_fold] over the chunks, from the chunks read so far. *)
Fixpoint bytes_loop (limit : Z) (body : string) (chunks : list (result ReqwestError string)) :
    result HttpError string :=
  match chunks with
  | [] => Ok body
  | Err e :: _ => Err (HttpError.Reqwest e)
  | Ok chunk :: chunks =>
      if bool_decide (limit < Z.of_nat (String.length body + String.length chunk)) then Err HttpError.Overflow
      else bytes_loop limit (body +:+ chunk) chunks
  end.

Definition bytes (self : Response) (limit : Z) : result HttpError string := bytes_loop limit "" (chunks self).

Definition json `{SerdeJson T} (self : Response) (limit : Z) : result HttpError T :=
  bytes ← bytes self limit;
  match from_slice bytes with Ok t => Ok t | Err e => Err (HttpError.Json e) end.

(** Reads all chunks and returns the response without its body. *)
Fixpoint consume_loop (chunks : list (result ReqwestError string)) : result HttpError () :=
  match chunks with
  | [] => Ok ()
  | Err e :: _ => Err (HttpError.Reqwest e)
  | Ok _ :: chunks => consume_loop chunks
  end.

Definition consume (self : Response) : result HttpError Response :=
  _ ← consume_loop (chunks self); Ok (MkResponse (status self) (headers self) []).

End Response.
Notation Response := Response.Response.

(** ** Retry backoff (relay-common: retry.rs) *)

Definition INITIAL_INTERVAL : Z := 1000.

(** [ExponentialBackoff] of the crate backoff, without a limit on the elapsed
    time and without randomization, by its initial and maximal interval. *)
Class Backoff := {
  ExponentialBackoff : Type;
  exponential : Duration -> Duration -> ExponentialBackoff;
  backoff_reset : ExponentialBackoff -> ExponentialBackoff;
  backoff_next : ExponentialBackoff -> option Duration * ExponentialBackoff;
}.

Module RetryBackoff.

Record RetryBackoff `{Backoff} := MkRetryBackoff { backoff : ExponentialBackoff; attempt : Z }.

Section WithBackoff.
Context `{Backoff}.

Definition new (max_interval : Duration) : RetryBackoff :=
  MkRetryBackoff _ (exponential (INITIAL_INTERVAL * 1000000) max_interval) 0.

Definition reset (self : RetryBackoff) : RetryBackoff := MkRetryBackoff _ (backoff_reset (backoff self)) 0.

Definition started (self : RetryBackoff) : bool := bool_decide (0 < attempt self).

Definition next_backoff (self : RetryBackoff) : outcome (Duration * RetryBackoff) :=
  '(duration, backoff) ←
     (if bool_decide (attempt self = 0) then Ret (0, backoff self)
      else let '(next, b) := backoff_next (backoff self) in d ← unwrap next; Ret (d, b));
  Ret (duration, MkRetryBackoff _ backoff (u64_add (attempt self) 1)).

End WithBackoff.
End RetryBackoff.
Notation RetryBackoff := RetryBackoff.RetryBackoff.

(** ** Bodies *)

Lemma bytes_loop_spec limit chunks : forall body b,
  Response.bytes_loop limit body chunks = Ok b <->
  exists parts, chunks = Ok <$> parts /\ b = body +:+ foldr String.append "" parts /\
    (parts = [] \/ Z.of_nat (String.length b) <= limit).
Proof.
  induction chunks as [|[chunk|e] chunks IH]; intros body b; simpl.
  - split.
    + intros [= <-]. exists []. split; [done|]. rewrite str_app_nil_r. auto.
    + intros (parts & Hp & -> & _). destruct parts; [|done]. simpl. by rewrite str_app_nil_r.
  - bcase (limit < Z.of_nat (String.length body + String.length chunk)) as Hl.
    + split; [done|]. intros (parts & Hp & -> & Hb). destruct parts as [|p parts]; [done|]. injection Hp as -> Hp.
      destruct Hb as [|Hb]; [done|]. simpl in Hb. rewrite !length_app_str in Hb. lia.
    + rewrite IH. split.
      * intros (parts & -> & -> & Hb). exists (chunk :: parts). simpl. rewrite str_app_assoc. split_and!; [done|done|].
        right. destruct Hb as [->|Hb]; [simpl; rewrite str_app_nil_r, length_app_str; lia|].
        by rewrite str_app_assoc in Hb.
      * intros (parts & Hp & -> & Hb). destruct parts as [|p parts]; [done|]. injection Hp as -> Hp.
        exists parts. simpl in *. rewrite str_app_assoc. split_and!; [done|done|]. naive_solver.
  - split; [done|]. intros (parts & Hp & _). by destruct parts.
Qed.
