(* ===== verification/Channels.v ===== *)
(** * Oneshot channels between an actor, its queries and those who wait

    The actors that ask the upstream in batches ([RelayCache], [UpstreamProjectSource]) keep the
    senders of oneshot channels in a map by what is asked for, and move them into the
    continuation of a query while it runs.  Channels are numbered; [chans] says that the senders
    of the map and of the running query are distinct and that nothing was sent to them. *)

From Stdlib Require Import Ascii String.
From S2P Require Import Prelude Strings Floats Types Common Protocol Quota Filters Sampling Extractors Envelopes Sessions Auth Http.

Open Scope string_scope.
Open Scope Z_scope.
Open Scope list_scope.

(** The crate's backoff without a limit on the elapsed time always has a next interval. *)
Class BackoffLaws `{Backoff} : Prop := { backoff_never_ends b : exists d b', backoff_next b = (Some d, b') }.

(** There is a next interval, and the attempts are counted. *)
Lemma next_backoff_Ret {BO : Backoff} {BL : BackoffLaws} (b : RetryBackoff) :
  0 <= RetryBackoff.attempt b < u64_max ->
  exists d b', RetryBackoff.next_backoff b = Ret (d, b') /\ RetryBackoff.attempt b' = RetryBackoff.attempt b + 1.
Proof.
  intros Ha. unfold RetryBackoff.next_backoff. destruct b as [b a]. simpl in *.
  assert (Hadd : u64_add a 1 = a + 1) by (apply u64_add_small; unfold in_width, u64_max in *; lia).
  rewrite Hadd. destruct (bool_decide (a = 0)).
  - simpl. eexists _, _. split; [reflexivity|done].
  - destruct (backoff_never_ends b) as (d & b' & ->). simpl. eexists _, _. split; [reflexivity|done].
Qed.

Section Channels.
Context {K : Type} {EQK : EqDecision K} {CK : Countable K} {V : Type}.

(** [HashMap::is_empty]. *)
Definition is_empty {T} (m : gmap K T) : bool := bool_decide (size m = 0%nat).

Lemma is_empty_true {T} (m : gmap K T) : is_empty m = true <-> m = ∅.
Proof. unfold is_empty. by rewrite bool_decide_eq_true, map_size_empty_iff. Qed.

(** The channels of the actor's map [rc] and of the running query [q] are distinct and open. *)
Record chans (rc q : gmap K nat) (next : nat) (sent : gmap nat V) : Prop := MkChans {
  c_fresh : forall id ch, rc !! id = Some ch \/ q !! id = Some ch -> (ch < next)%nat /\ sent !! ch = None;
  c_inj : forall id id' ch, rc !! id = Some ch \/ q !! id = Some ch -> rc !! id' = Some ch \/ q !! id' = Some ch -> id = id';
  c_disj : forall id ch, rc !! id = Some ch -> q !! id = Some ch -> False;
  c_sent : forall ch, is_Some (sent !! ch) -> (ch < next)%nat;
}.

Lemma chans_empty next : chans ∅ ∅ next ∅.
Proof. split; intros *; rewrite ?lookup_empty; naive_solver. Qed.

(** A new channel. *)
Lemma chans_insert rc q next sent id :
  chans rc q next sent -> rc !! id = None -> chans (<[id := next]> rc) q (S next) sent.
Proof.
  intros [Hf Hi Hd Hs] Hid.
  assert (Hold : forall id' ch, <[id := next]> rc !! id' = Some ch \/ q !! id' = Some ch ->
    (id' = id /\ ch = next) \/ ((rc !! id' = Some ch \/ q !! id' = Some ch) /\ (ch < next)%nat)).
  { intros id' ch H. assert (H' : (id' = id /\ ch = next) \/ (rc !! id' = Some ch \/ q !! id' = Some ch)).
    { destruct H as [H|H]; [|by right; right]. apply lookup_insert_Some in H as [ [ -> ->] | [_ H] ]; auto. }
    destruct H' as [H'|H']; [by left|right]. split; [done|]. by apply (Hf id'). }
  assert (Hnext : sent !! next = None) by (apply eq_None_not_Some; intros H%Hs; lia).
  split.
  - intros id' ch H. destruct (Hold id' ch H) as [ [ -> ->] | [H' Hl] ]; [split; [lia|done]|].
    split; [lia|]. by apply (Hf id').
  - intros id1 id2 ch H1 H2. destruct (Hold id1 ch H1) as [ [ -> ->] | [H1' Hl1] ], (Hold id2 _ H2) as [ [ -> ?] | [H2' Hl2] ];
      [done|lia|lia|]. by apply (Hi id1 id2 ch).
  - intros id' ch H1 H2. apply lookup_insert_Some in H1 as [ [ <- <-] | [_ H1] ]; [|by apply (Hd id' ch)].
    destruct (Hf id next (or_intror H2)). lia.
  - intros ch H%Hs. lia.
Qed.

(** The map becomes a query, and the channels of a failed query return to the map. *)
Lemma chans_fetch rc next sent : chans rc ∅ next sent -> chans ∅ rc next sent.
Proof. intros [Hf Hi Hd Hs]. split; try done; intros *; rewrite ?lookup_empty in *; naive_solver. Qed.

Lemma chans_extend rc q next sent : chans rc q next sent -> chans (q ∪ rc) ∅ next sent.
Proof.
  intros [Hf Hi Hd Hs].
  assert (Hold : forall id ch, (q ∪ rc) !! id = Some ch \/ (∅ : gmap K nat) !! id = Some ch ->
    rc !! id = Some ch \/ q !! id = Some ch).
  { intros id ch [H|H]; [|by rewrite lookup_empty in H]. apply lookup_union_Some_raw in H. naive_solver. }
  split; eauto. intros id ch _. by rewrite lookup_empty.
Qed.

(** The channels of the query are served. *)
Lemma chans_served rc q next sent sent' :
  chans rc q next sent ->
  (forall ch, sent' !! ch <> None -> sent !! ch <> None \/ exists id, q !! id = Some ch) ->
  chans rc ∅ next sent'.
Proof.
  intros [Hf Hi Hd Hs] Hsent. split.
  - intros id ch [H|H]; [|by rewrite lookup_empty in H]. destruct (Hf id ch (or_introl H)) as [Hl Hn].
    split; [done|]. destruct (sent' !! ch) eqn:E; [|done]. destruct (Hsent ch ltac:(congruence)) as [|[id' Hq]]; [done|].
    rewrite (Hi id id' ch) in H by auto. by destruct (Hd id' ch).
  - intros id id' ch [H|H] [H'|H']; rewrite ?lookup_empty in *; try done. apply (Hi id id' ch); auto.
  - intros id ch _. by rewrite lookup_empty.
  - intros ch [v Hv]. destruct (Hsent ch ltac:(congruence)) as [H|[id Hq]].
    + apply Hs. by destruct (sent !! ch).
    + by apply (Hf id ch); right.
Qed.

Lemma chans_NoDup rc q next sent : chans rc q next sent -> NoDup (map_to_list q).*2.
Proof.
  intros Hc. apply NoDup_fmap_2_strong; [|apply NoDup_map_to_list].
  intros [id ch] [id' ch'] H1%elem_of_map_to_list H2%elem_of_map_to_list Heq. simpl in Heq. subst ch'.
  by rewrite (c_inj _ _ _ _ Hc id id' ch) by auto.
Qed.

(** Channels that move between the two maps, or are dropped. *)
Lemma chans_sub (rc q rc' q' : gmap K nat) next (sent : gmap nat V) :
  chans rc q next sent ->
  (forall id ch, rc' !! id = Some ch \/ q' !! id = Some ch -> rc !! id = Some ch \/ q !! id = Some ch) ->
  (forall id ch, rc' !! id = Some ch -> q' !! id = Some ch -> False) ->
  chans rc' q' next sent.
Proof. intros [Hf Hi Hd Hs] Hsub Hdis. split; eauto. Qed.

End Channels.
