(* ===== verification/Relays.v ===== *)
(** * relay-server: the public keys of other relays (actors/relays.rs, extractors/signed_json.rs)

    [RelayCache] answers requests for the keys of downstream relays from the static
    configuration, from its cache, or from the upstream, which it asks in batches: a request that
    has to wait creates a oneshot channel, or shares the one of the same relay, and the first one
    schedules a fetch.

    The actor's [Context] is explicit: the futures it has spawned ([Task]), the channels, numbered
    in the order of their creation, and what has been sent to them.  A receiver is [Shared]: all
    who wait for a channel see what was sent, or that its sender was dropped. *)

From Stdlib Require Import Ascii String.
From S2P Require Import Prelude Strings Floats Types Common Protocol Quota Filters Sampling Extractors Envelopes Sessions Auth Http Channels.

Open Scope string_scope.
Open Scope Z_scope.
Open Scope list_scope.

Module RelayInfo.
Record RelayInfo `{Ed25519} := MkRelayInfo { public_key : PublicKey; internal : bool }.

Definition new `{Ed25519} (public_key : PublicKey) : RelayInfo := MkRelayInfo _ public_key false.
End RelayInfo.
Notation RelayInfo := RelayInfo.RelayInfo.

Module KeyError.
Inductive KeyError := FetchFailed | ScheduleFailed.
End KeyError.
Notation KeyError := KeyError.KeyError.

(** What the actor reads of the configuration; the intervals as they are written there. *)
Record RelayCacheConfig `{Ed25519} := MkRelayCacheConfig {
  relay_expiry : Z;
  miss_expiry : Z;
  batch_interval : Z;
  max_retry : Z;
  has_credentials : bool;
  cfg_static_relays : gmap RelayId RelayInfo;
}.

Module RelayState.
Section RelayState.
Context {ED : Ed25519}.

Inductive RelayState :=
| Exists (relay : RelayInfo) (checked_at : Instant)
| DoesNotExist (checked_at : Instant).

Definition relay_cache_expiry (config : RelayCacheConfig) : Duration := duration_from_secs (relay_expiry config).
Definition cache_miss_expiry (config : RelayCacheConfig) : Duration := duration_from_secs (miss_expiry config).

(** [checked_at.elapsed()]. *)
Definition elapsed (now checked_at : Instant) : Duration := Z.max 0 (now - checked_at).

Definition is_valid_cache (self : RelayState) (now : Instant) (config : RelayCacheConfig) : bool :=
  match self with
  | Exists _ checked_at => bool_decide (elapsed now checked_at < relay_cache_expiry config)
  | DoesNotExist checked_at => bool_decide (elapsed now checked_at < cache_miss_expiry config)
  end.

Definition as_option (self : RelayState) : option RelayInfo :=
  match self with
  | Exists relay _ => Some relay
  | DoesNotExist _ => None
  end.

Definition from_option (now : Instant) (option : option RelayInfo) : RelayState :=
  match option with
  | Some relay => Exists relay now
  | None => DoesNotExist now
  end.

End RelayState.
End RelayState.
Notation RelayState := RelayState.RelayState.

(** ** The upstream's answer *)

(** By its only field. *)
Notation GetRelaysResult := (gmap RelayId (option RelayInfo)) (only parsing).

Section Answers.
Context {ED : Ed25519}.

Record PublicKeysResultCompatibility := MkPublicKeysResult {
  public_keys : gmap RelayId (option PublicKey);
  compat_relays : gmap RelayId (option RelayInfo);
}.

(** [From<PublicKeysResultCompatibility>]. *)
Definition result_from (relays_info : PublicKeysResultCompatibility) : GetRelaysResult :=
  if is_empty (compat_relays relays_info) && negb (is_empty (public_keys relays_info)) then
    fmap (M := gmap RelayId) (fmap (M := option) RelayInfo.new) (public_keys relays_info)
  else compat_relays relays_info.

(** ** Channels and tasks *)

Notation Channel := nat (only parsing).

Inductive Task :=
(** [run_later(timeout, Self::fetch_relays)] *)
| RunLater (timeout : Duration)
(** [UpstreamRelay::send(SendQuery(request))] with the channels its continuation owns *)
| AwaitQuery (relay_ids : list RelayId) (channels : gmap RelayId Channel).

Record Context := MkContext {
  tasks : list Task;
  next_channel : Channel;
  sent : gmap Channel (option RelayInfo);
}.

Definition spawn (task : Task) (context : Context) : Context :=
  MkContext (tasks context ++ [task]) (next_channel context) (sent context).

Definition channel_new (context : Context) : Channel * Context :=
  (next_channel context, MkContext (tasks context) (S (next_channel context)) (sent context)).

Definition channel_send (context : Context) (channel : Channel) (value : option RelayInfo) : Context :=
  MkContext (tasks context) (next_channel context) (<[channel := value]> (sent context)).

End Answers.

(** ** The actor *)

Module RelayCache.
Section RelayCache.
Context {ED : Ed25519} {BO : Backoff}.

Record RelayCache := MkRelayCache {
  backoff : RetryBackoff;
  config : RelayCacheConfig;
  relays : gmap RelayId RelayState;
  static_relays : gmap RelayId RelayInfo;
  relay_channels : gmap RelayId nat;
}.

Definition set_backoff (self : RelayCache) (b : RetryBackoff) : RelayCache :=
  MkRelayCache b (config self) (relays self) (static_relays self) (relay_channels self).
Definition set_relays (self : RelayCache) (r : gmap RelayId RelayState) : RelayCache :=
  MkRelayCache (backoff self) (config self) r (static_relays self) (relay_channels self).
Definition set_channels (self : RelayCache) (c : gmap RelayId nat) : RelayCache :=
  MkRelayCache (backoff self) (config self) (relays self) (static_relays self) c.

Definition new (config : RelayCacheConfig) : RelayCache :=
  MkRelayCache (RetryBackoff.new (duration_from_secs (max_retry config))) config ∅ (cfg_static_relays config) ∅.

Definition query_batch_interval (self : RelayCache) : Duration := batch_interval (config self) * 1000000.

Definition next_backoff (self : RelayCache) : outcome (Duration * RelayCache) :=
  '(d, b) ← RetryBackoff.next_backoff (backoff self);
  Ret (query_batch_interval self + d, set_backoff self b).

Definition schedule_fetch (self : RelayCache) (context : Context) : outcome (RelayCache * Context) :=
  '(timeout, self) ← next_backoff self;
  Ret (self, spawn (RunLater timeout) context).

Definition fetch_relays (self : RelayCache) (context : Context) : RelayCache * Context :=
  let channels := relay_channels self in
  let self := set_channels self ∅ in
  let request := (map_to_list channels).*1 in
  (self, spawn (AwaitQuery request channels) context).

(** One turn of the loop over the channels of a successful query. *)
Definition receive_one (now : Instant) (acc : GetRelaysResult * RelayCache * Context) (entry : RelayId * nat) :
    GetRelaysResult * RelayCache * Context :=
  let '(response, self, context) := acc in
  let '(id, channel) := entry in
  let info := default None (response !! id) in
  (delete id response, set_relays self (<[id := RelayState.from_option now info]> (relays self)),
   channel_send context channel info).

(** The continuation of the query; the error of the upstream is only logged. *)
Definition on_response (self : RelayCache) (context : Context) (now : Instant) (channels : gmap RelayId nat)
    (response : option PublicKeysResultCompatibility) : outcome (RelayCache * Context) :=
  let '(self, context) :=
    match response with
    | Some response =>
        let self := set_backoff self (RetryBackoff.reset (backoff self)) in
        let '(_, self, context) := foldl (receive_one now) (result_from response, self, context) (map_to_list channels) in
        (self, context)
    | None => (set_channels self (channels ∪ relay_channels self), context)
    end in
  if is_empty (relay_channels self) then Ret (self, context) else schedule_fetch self context.

(** [Response::ok] with a value, or [Response::future] of the receiver of a channel. *)
Inductive Lookup := Reply (relay : option RelayInfo) | Receiver (channel : nat).

(** [entry(relay_id).or_insert_with(RelayInfoChannel::new).receiver()]. *)
Definition receiver (self : RelayCache) (relay_id : RelayId) (context : Context) : Lookup * RelayCache * Context :=
  match relay_channels self !! relay_id with
  | Some channel => (Receiver channel, self, context)
  | None =>
      let '(channel, context) := channel_new context in
      (Receiver channel, set_channels self (<[relay_id := channel]> (relay_channels self)), context)
  end.

(** The end of [get_or_fetch_info], for a relay that is not known. *)
Definition fetch_info (self : RelayCache) (relay_id : RelayId) (context : Context) :
    outcome (Lookup * RelayCache * Context) :=
  '(self, context) ←
    (if negb (RetryBackoff.started (backoff self)) then
       schedule_fetch (set_backoff self (RetryBackoff.reset (backoff self))) context
     else Ret (self, context));
  Ret (receiver self relay_id context).

Definition get_or_fetch_info (self : RelayCache) (now : Instant) (relay_id : RelayId) (context : Context) :
    outcome (Lookup * RelayCache * Context) :=
  match static_relays self !! relay_id with
  | Some key => Ret (Reply (Some key), self, context)
  | None =>
      let cached := key ← relays self !! relay_id;
                    if RelayState.is_valid_cache key now (config self) then Some (RelayState.as_option key) else None in
      match cached with
      | Some relay => Ret (Reply relay, self, context)
      | None =>
          if negb (has_credentials (config self)) then Ret (Reply None, self, context)
          else fetch_info self relay_id context
      end
  end.

(** [Handler<GetRelays>]: the relays known at once, and the receivers to wait for. *)
Fixpoint get_relays (self : RelayCache) (now : Instant) (relay_ids : list RelayId) (relays : GetRelaysResult)
    (futures : list (RelayId * nat)) (context : Context) :
    outcome (GetRelaysResult * list (RelayId * nat) * RelayCache * Context) :=
  match relay_ids with
  | [] => Ret (relays, futures, self, context)
  | id :: relay_ids =>
      '(lookup, self, context) ← get_or_fetch_info self now id context;
      match lookup with
      | Receiver fut => get_relays self now relay_ids relays (futures ++ [(id, fut)]) context
      | Reply key => get_relays self now relay_ids (<[id := key]> relays) futures context
      end
  end.

End RelayCache.
#[global] Arguments RelayCache {_ _}.
End RelayCache.
Notation RelayCache := RelayCache.RelayCache.

(** ** The actor among its requests *)

(** What a request is still waiting for: the relays known at once, and its receivers.  A
    [GetRelay] is answered with its one relay, a [GetRelays] with all of them. *)
Record Waiting `{Ed25519} := MkWaiting { immediate : GetRelaysResult; futures : list (RelayId * nat) }.

Section World.
Context {ED : Ed25519} {BO : Backoff}.

Record World := MkWorld { cache : RelayCache; context : Context; requests : list Waiting }.

Definition start (config : RelayCacheConfig) : World := MkWorld (RelayCache.new config) (MkContext [] 0 ∅) [].

Inductive Event :=
| GetRelay (now : Instant) (relay_id : RelayId)
| GetRelays (now : Instant) (relay_ids : list RelayId)
(** the [n]-th task is a delay that has passed *)
| Elapsed (n : nat)
(** the [n]-th task is a query that was answered, or failed *)
| Answered (n : nat) (now : Instant) (response : option PublicKeysResultCompatibility)
(** the [n]-th task is a query that could not be delivered *)
| Undelivered (n : nat).

Definition remove_task (n : nat) (context : Context) : Context :=
  MkContext (delete n (tasks context)) (next_channel context) (sent context).

(** An event for a task that does not exist changes nothing. *)
Definition exec (w : World) (e : Event) : outcome World :=
  match e with
  | GetRelay now relay_id =>
      '(lookup, self, ctx) ← RelayCache.get_or_fetch_info (cache w) now relay_id (context w);
      let waiting := match lookup with
                     | RelayCache.Reply relay => MkWaiting _ {[ relay_id := relay ]} []
                     | RelayCache.Receiver channel => MkWaiting _ ∅ [(relay_id, channel)]
                     end in
      Ret (MkWorld self ctx (requests w ++ [waiting]))
  | GetRelays now relay_ids =>
      '(relays, futures, self, ctx) ← RelayCache.get_relays (cache w) now relay_ids ∅ [] (context w);
      Ret (MkWorld self ctx (requests w ++ [MkWaiting _ relays futures]))
  | Elapsed n =>
      match tasks (context w) !! n with
      | Some (RunLater _) =>
          let '(self, ctx) := RelayCache.fetch_relays (cache w) (remove_task n (context w)) in
          Ret (MkWorld self ctx (requests w))
      | _ => Ret w
      end
  | Answered n now response =>
      match tasks (context w) !! n with
      | Some (AwaitQuery _ channels) =>
          '(self, ctx) ← RelayCache.on_response (cache w) (remove_task n (context w)) now channels response;
          Ret (MkWorld self ctx (requests w))
      | _ => Ret w
      end
  | Undelivered n =>
      match tasks (context w) !! n with
      | Some (AwaitQuery _ _) => Ret (MkWorld (cache w) (remove_task n (context w)) (requests w))
      | _ => Ret w
      end
  end.

Fixpoint run (w : World) (es : list Event) : outcome World :=
  match es with
  | [] => Ret w
  | e :: es => w ← exec w e; run w es
  end.

(** The sender of a channel lives in the actor's map, or in the continuation of a query. *)
Definition queried (w : World) : gmap RelayId nat :=
  match tasks (context w) with
  | AwaitQuery _ channels :: _ => channels
  | _ => ∅
  end.
Definition owns (w : World) (id : RelayId) (channel : nat) : Prop :=
  RelayCache.relay_channels (cache w) !! id = Some channel \/ queried w !! id = Some channel.

(** The state of the future a request was answered with: what the shared receivers of its
    channels see, in the order of [join_all]; [None] while one is open. *)
Definition is_owned (w : World) (channel : nat) : bool :=
  existsb (fun t => match t with AwaitQuery _ chs => bool_decide (channel ∈ (map_to_list chs).*2) | _ => false end)
    (tasks (context w))
  || bool_decide (channel ∈ (map_to_list (RelayCache.relay_channels (cache w))).*2).

Fixpoint resolve (w : World) (acc : GetRelaysResult) (futures : list (RelayId * nat)) :
    option (result KeyError GetRelaysResult) :=
  match futures with
  | [] => Some (Ok acc)
  | (id, channel) :: futures =>
      match sent (context w) !! channel with
      | Some info => resolve w (<[id := info]> acc) futures
      | None => if is_owned w channel then None else Some (Err KeyError.FetchFailed)
      end
  end.
Definition answer (w : World) (request : Waiting) : option (result KeyError GetRelaysResult) :=
  resolve w (immediate request) (futures request).

End World.
#[global] Arguments World {_ _}.
#[global] Arguments Event {_}.

Section Invariant.
Context {ED : Ed25519} {BO : Backoff} {BL : BackoffLaws}.

(** At most one fetch is scheduled or running, and the backoff counts exactly then; what is
    waited for is in the map while the fetch is scheduled, and was taken when it runs. *)
Definition shape (w : World) : Prop :=
  let attempt := RetryBackoff.attempt (RelayCache.backoff (cache w)) in
  match tasks (context w) with
  | [] => attempt = 0 /\ RelayCache.relay_channels (cache w) = ∅
  | [RunLater _] => 0 < attempt /\ RelayCache.relay_channels (cache w) <> ∅
  | [AwaitQuery ids channels] => 0 < attempt /\ channels <> ∅ /\ ids = (map_to_list channels).*1
  | _ => False
  end.

Record inv (bound : Z) (w : World) : Prop := MkInv {
  i_shape : shape w;
  i_attempt : RetryBackoff.attempt (RelayCache.backoff (cache w)) <= bound;
  i_chans : chans (RelayCache.relay_channels (cache w)) (queried w) (next_channel (context w)) (sent (context w));
}.

Lemma inv_start config : inv 0 (start config).
Proof. split; [done|done|]. apply chans_empty. Qed.

(** Scheduling a fetch always works, and starts the backoff. *)
Lemma schedule_fetch_Ret self ctx :
  0 <= RetryBackoff.attempt (RelayCache.backoff self) < u64_max ->
  exists d b, RelayCache.schedule_fetch self ctx = Ret (RelayCache.set_backoff self b, spawn (RunLater d) ctx)
    /\ RetryBackoff.attempt b = RetryBackoff.attempt (RelayCache.backoff self) + 1.
Proof.
  intros Ha. unfold RelayCache.schedule_fetch, RelayCache.next_backoff.
  destruct (next_backoff_Ret (RelayCache.backoff self) Ha) as (d & b & -> & Hb). simpl. by eexists _, _.
Qed.

(** What a lookup may change: a new channel, a scheduled fetch. *)
Definition grows (w w' : World) : Prop :=
  RelayCache.relays (cache w') = RelayCache.relays (cache w)
  /\ RelayCache.static_relays (cache w') = RelayCache.static_relays (cache w)
  /\ sent (context w') = sent (context w)
  /\ queried w' = queried w
  /\ (next_channel (context w) <= next_channel (context w'))%nat
  /\ RelayCache.relay_channels (cache w) ⊆ RelayCache.relay_channels (cache w')
  /\ (forall id ch, RelayCache.relay_channels (cache w') !! id = Some ch ->
        RelayCache.relay_channels (cache w) !! id = Some ch \/ (next_channel (context w) <= ch)%nat).

#[global] Instance grows_refl : Reflexive grows.
Proof. intros w. unfold grows. split_and!; auto. Qed.

#[global] Instance grows_trans : Transitive grows.
Proof.
  intros w1 w2 w3 (H1 & H2 & H3 & H4 & H5 & H6 & H7) (G1 & G2 & G3 & G4 & G5 & G6 & G7). unfold grows.
  split_and!; try congruence; [lia|by etrans|].
  intros id ch [H|H]%G7; [|right; lia]. by apply H7.
Qed.

(** The wait for a channel: the one of the relay, or a new one.  Before it, a fetch is scheduled
    or running, and only the map may still be empty. *)
Definition fetching (w : World) : Prop :=
  0 < RetryBackoff.attempt (RelayCache.backoff (cache w)) /\
  match tasks (context w) with
  | [RunLater _] => True
  | [AwaitQuery ids channels] => channels <> ∅ /\ ids = (map_to_list channels).*1
  | _ => False
  end.

Lemma receiver_ok b self ctx rs id :
  let w := MkWorld self ctx rs in
  fetching w -> RetryBackoff.attempt (RelayCache.backoff self) <= b ->
  chans (RelayCache.relay_channels self) (queried w) (next_channel ctx) (sent ctx) ->
  exists ch self' ctx',
    RelayCache.receiver self id ctx = (RelayCache.Receiver ch, self', ctx')
    /\ inv b (MkWorld self' ctx' rs) /\ grows w (MkWorld self' ctx' rs)
    /\ RelayCache.relay_channels self' !! id = Some ch.
Proof.
  intros w [Hpos Ht] Ha Hc. unfold RelayCache.receiver.
  destruct (RelayCache.relay_channels self !! id) as [ch|] eqn:E.
  - exists ch, self, ctx. split_and!; try done. split; [|done|done]. unfold shape. simpl in *.
    destruct (tasks ctx) as [|[d|ids q] [|t' ts]]; try done. split; [done|]. intros H. by rewrite H in E.
  - eexists _, _, _. split; [reflexivity|].
    split; [|split; [|by simpl; rewrite lookup_insert_eq] ].
    + split; [|done|by apply chans_insert]. unfold shape. simpl in *.
      destruct (tasks ctx) as [|[d|ids q] [|t' ts]]; try done. split; [done|]. apply insert_non_empty.
    + unfold grows. simpl. split_and!; try done; [lia|by apply insert_subseteq|].
      intros id' ch [ [_ <-] | [_ H] ]%lookup_insert_Some; [right; lia|by left].
Qed.

Lemma fetch_info_ok b self ctx rs id :
  inv b (MkWorld self ctx rs) ->
  exists ch self' ctx',
    RelayCache.fetch_info self id ctx = Ret (RelayCache.Receiver ch, self', ctx')
    /\ inv (Z.max b 1) (MkWorld self' ctx' rs) /\ grows (MkWorld self ctx rs) (MkWorld self' ctx' rs)
    /\ RelayCache.relay_channels self' !! id = Some ch.
Proof.
  intros [Hs Ha Hc]. unfold RelayCache.fetch_info, RetryBackoff.started. unfold shape in Hs. simpl in *.
  bcase (0 < RetryBackoff.attempt (RelayCache.backoff self)) as Hp; cbn [negb].
  - cbn [mbind outcome_bind].
    destruct (receiver_ok (Z.max b 1) self ctx rs id) as (ch & self' & ctx' & -> & Hr); [|lia|done|eauto].
    split; [done|]. simpl. destruct (tasks ctx) as [|[d|ids q] [|t' ts]]; naive_solver lia.
  - destruct (tasks ctx) as [|[d|ids q] [|t' ts]] eqn:Et; try naive_solver lia.
    destruct (schedule_fetch_Ret (RelayCache.set_backoff self (RetryBackoff.reset (RelayCache.backoff self))) ctx)
      as (d & b' & -> & Hb'); [simpl; unfold u64_max; lia|]. cbn [mbind outcome_bind]. simpl in Hb'.
    destruct (receiver_ok (Z.max b 1)
      (RelayCache.set_backoff (RelayCache.set_backoff self (RetryBackoff.reset (RelayCache.backoff self))) b') (spawn (RunLater d) ctx) rs id)
      as (ch & self' & ctx' & -> & Hi & Hg & Hl).
    { split; simpl; [lia|]. by rewrite Et. }
    { simpl. lia. }
    { revert Hc. unfold queried. simpl. by rewrite Et. }
    exists ch, self', ctx'. split_and!; try done. etrans; [|apply Hg].
    unfold grows, queried. simpl. rewrite Et. simpl. split_and!; auto.
Qed.

(** The value a lookup replies at once: of the configuration, of the cache, or none. *)
Definition replied (self : RelayCache) (id : RelayId) (relay : option RelayInfo) : Prop :=
  RelayCache.static_relays self !! id = relay \/
  relay = None \/ exists st, RelayCache.relays self !! id = Some st /\ RelayState.as_option st = relay.

Lemma get_or_fetch_info_ok b self ctx rs now id :
  inv b (MkWorld self ctx rs) ->
  exists lookup self' ctx',
    RelayCache.get_or_fetch_info self now id ctx = Ret (lookup, self', ctx')
    /\ inv (Z.max b 1) (MkWorld self' ctx' rs) /\ grows (MkWorld self ctx rs) (MkWorld self' ctx' rs)
    /\ match lookup with
       | RelayCache.Reply relay => replied self id relay
       | RelayCache.Receiver ch => RelayCache.relay_channels self' !! id = Some ch
       end.
Proof.
  intros Hinv. unfold RelayCache.get_or_fetch_info, replied.
  assert (Hmax : inv (Z.max b 1) (MkWorld self ctx rs)) by (destruct Hinv; split; try done; lia).
  destruct (RelayCache.static_relays self !! id) as [key|] eqn:Es;
    [eexists _, _, _; split_and!; [done|done|reflexivity|by left]|].
  match goal with |- context [match ?c with Some _ => _ | None => _ end] => destruct c as [relay|] eqn:Ec end.
  { eexists _, _, _. split_and!; [done|done|reflexivity|]. right. right.
    destruct (RelayCache.relays self !! id) as [st|]; [|done]. cbn [mbind option_bind] in Ec.
    destruct (RelayState.is_valid_cache st now (RelayCache.config self)); [|done]. injection Ec as <-. eauto. }
  destruct (has_credentials (RelayCache.config self)); cbn [negb];
    [|eexists _, _, _; split_and!; [done|done|reflexivity|by right; left] ].
  destruct (fetch_info_ok b self ctx rs id Hinv) as (ch & self' & ctx' & -> & Hr). eauto.
Qed.

Lemma inv_requests b self ctx rs rs' : inv b (MkWorld self ctx rs) -> inv b (MkWorld self ctx rs').
Proof. intros [H1 H2 H3]. by split. Qed.

(** The futures of a request are open channels of the relays that were asked for. *)
Lemma get_relays_ok rs now ids : forall b self ctx relays futures,
  inv b (MkWorld self ctx rs) ->
  exists relays' futures' self' ctx',
    RelayCache.get_relays self now ids relays futures ctx = Ret (relays', futures ++ futures', self', ctx')
    /\ inv (Z.max b 1) (MkWorld self' ctx' rs) /\ grows (MkWorld self ctx rs) (MkWorld self' ctx' rs)
    /\ (forall id relay, relays' !! id = Some relay -> relays !! id = Some relay \/ replied self id relay)
    /\ (forall id ch, (id, ch) ∈ futures' -> RelayCache.relay_channels self' !! id = Some ch).
Proof.
  induction ids as [|id ids IH]; intros b self ctx relays futures Hinv.
  { exists relays, [], self, ctx. rewrite app_nil_r.
    split_and!; [done|destruct Hinv; split; try done; lia|reflexivity|auto|by intros id ch H%elem_of_nil]. }
  simpl. destruct (get_or_fetch_info_ok b self ctx rs now id Hinv) as (lookup & self1 & ctx1 & -> & Hinv1 & Hg1 & Hl).
  cbn [mbind outcome_bind]. pose proof Hg1 as (Hr1 & Hst1 & _).
  destruct lookup as [relay|ch].
  - destruct (IH _ _ _ (<[id := relay]> relays) futures Hinv1) as (relays' & futures' & self' & ctx' & -> & Hi & Hg & Hr & Hf).
    exists relays', futures', self', ctx'. split_and!; [done|by rewrite <- Z.max_assoc, Z.max_id in Hi|by etrans| |done].
    intros id' relay' H. destruct (Hr id' relay' H) as [H'|H'].
    + apply lookup_insert_Some in H' as [ [ <- <-] | [_ H'] ]; auto.
    + right. unfold replied in *. simpl in *. by rewrite Hr1, Hst1 in H'.
  - destruct (IH _ _ _ relays (futures ++ [(id, ch)]) Hinv1) as (relays' & futures' & self' & ctx' & -> & Hi & Hg & Hr & Hf).
    exists relays', ((id, ch) :: futures'), self', ctx'. rewrite <- app_assoc.
    split_and!; [done|by rewrite <- Z.max_assoc, Z.max_id in Hi|by etrans| |].
    + intros id' relay' H. destruct (Hr id' relay' H) as [H'|H']; [by left|right].
      unfold replied in *. simpl in *. by rewrite Hr1, Hst1 in H'.
    + intros id' ch' [ [= -> ->] | H]%elem_of_cons; [|by apply Hf].
      destruct Hg as (_ & _ & _ & _ & _ & Hsub & _). by apply (lookup_weaken _ _ _ _ Hl).
Qed.

(** The loop over a successful answer: every channel gets what the answer says of its relay, and
    the cache remembers it. *)
Lemma receive_all now l : forall r self ctx, NoDup l.*1 -> NoDup l.*2 ->
  exists r' self' ctx',
    foldl (RelayCache.receive_one now) (r, self, ctx) l = (r', self', ctx')
    /\ self' = RelayCache.set_relays self (RelayCache.relays self')
    /\ tasks ctx' = tasks ctx /\ next_channel ctx' = next_channel ctx
    /\ (forall id ch, (id, ch) ∈ l -> sent ctx' !! ch = Some (default None (r !! id)))
    /\ (forall ch, ch ∉ l.*2 -> sent ctx' !! ch = sent ctx !! ch)
    /\ (forall id, id ∈ l.*1 -> RelayCache.relays self' !! id = Some (RelayState.from_option now (default None (r !! id))))
    /\ (forall id, id ∉ l.*1 -> RelayCache.relays self' !! id = RelayCache.relays self !! id).
Proof.
  induction l as [|[id ch] l IH]; intros r self ctx H1 H2.
  { exists r, self, ctx. split_and!; try done; [by destruct self|by intros id ch H%elem_of_nil|by intros id H%elem_of_nil]. }
  apply NoDup_cons in H1 as [Hid H1], H2 as [Hch H2]. simpl.
  match goal with |- context [foldl _ (?r1, ?self1, ?ctx1) l] =>
    destruct (IH r1 self1 ctx1 H1 H2) as (r' & self' & ctx' & Hf & Hs & Ht & Hn & Hsent & Hother & Hrel & Hrelo) end.
  exists r', self', ctx'. split; [done|]. split; [by rewrite Hs at 1|]. split_and!; [done|done| | | |].
  - intros id' ch' [ [= -> ->] | H]%elem_of_cons.
    + rewrite Hother by done. simpl. by rewrite lookup_insert_eq.
    + rewrite (Hsent id' ch' H). rewrite lookup_delete_ne; [done|]. intros <-. apply Hid.
      apply list_elem_of_fmap. by exists (id, ch').
  - intros ch' [Hne Hl]%not_elem_of_cons. rewrite Hother by done. simpl. by rewrite lookup_insert_ne.
  - intros id' [ -> | H]%elem_of_cons.
    + rewrite Hrelo by done. simpl. by rewrite lookup_insert_eq.
    + rewrite (Hrel id' H). rewrite lookup_delete_ne; [done|]. by intros <-.
  - intros id' [Hne Hl]%not_elem_of_cons. rewrite Hrelo by done. simpl. by rewrite lookup_insert_ne.
Qed.

(** The end of the continuation: a fetch is scheduled when somebody is waiting. *)
Lemma resume_ok b self ctx rs :
  tasks ctx = [] -> 0 <= RetryBackoff.attempt (RelayCache.backoff self) <= b -> b < u64_max ->
  chans (RelayCache.relay_channels self) ∅ (next_channel ctx) (sent ctx) ->
  (RelayCache.relay_channels self = ∅ -> RetryBackoff.attempt (RelayCache.backoff self) = 0) ->
  exists bo ts, let w := MkWorld (RelayCache.set_backoff self bo) (MkContext ts (next_channel ctx) (sent ctx)) rs in
    (if is_empty (RelayCache.relay_channels self) then Ret (self, ctx) else RelayCache.schedule_fetch self ctx)
    = Ret (cache w, context w) /\ inv (b + 1) w /\ queried w = ∅.
Proof.
  intros Ht Ha Hb Hc He. destruct (is_empty (RelayCache.relay_channels self)) eqn:E.
  - apply is_empty_true in E. exists (RelayCache.backoff self), []. split_and!.
    + simpl. rewrite <- Ht. by destruct self, ctx.
    + split; [|simpl; lia|done]. split; [by apply He|done].
    + done.
  - assert (Hne : RelayCache.relay_channels self <> ∅) by (intros H%is_empty_true; congruence).
    destruct (schedule_fetch_Ret self ctx) as (d & bo & -> & Hbo); [lia|].
    exists bo, [RunLater d]. unfold spawn. rewrite Ht. simpl. split_and!; [done| |done].
    split; [|simpl; lia|done]. unfold shape. simpl. split; [lia|done].
Qed.

(** The state once the continuation of the query with the channels [q] has run. *)
Lemma on_response_ok b self ctx rs now ids q response :
  inv b (MkWorld self ctx rs) -> 0 <= b < u64_max -> tasks ctx = [AwaitQuery ids q] ->
  exists self' ctx',
    RelayCache.on_response self (remove_task 0 ctx) now q response = Ret (self', ctx')
    /\ inv (b + 1) (MkWorld self' ctx' rs)
    /\ queried (MkWorld self' ctx' rs) = ∅
    /\ RelayCache.static_relays self' = RelayCache.static_relays self
    /\ next_channel ctx' = next_channel ctx
    /\ match response with
       | None => RelayCache.relay_channels self' = q ∪ RelayCache.relay_channels self
                 /\ sent ctx' = sent ctx /\ RelayCache.relays self' = RelayCache.relays self
       | Some r => RelayCache.relay_channels self' = RelayCache.relay_channels self
                 /\ (forall id ch, q !! id = Some ch -> sent ctx' !! ch = Some (default None (result_from r !! id)))
                 /\ (forall ch, (forall id, q !! id <> Some ch) -> sent ctx' !! ch = sent ctx !! ch)
                 /\ (forall id st, RelayCache.relays self' !! id = Some st -> RelayCache.relays self !! id = Some st
                      \/ st = RelayState.from_option now (default None (result_from r !! id)))
       end.
Proof.
  intros [Hs Ha Hc] Hb Et. unfold shape in Hs. unfold queried in Hc. simpl in *. rewrite Et in Hs, Hc.
  destruct Hs as (Hpos & Hq & _). unfold RelayCache.on_response. destruct response as [r|].
  - destruct (receive_all now (map_to_list q) (result_from r)
      (RelayCache.set_backoff self (RetryBackoff.reset (RelayCache.backoff self))) (remove_task 0 ctx))
      as (r' & self' & ctx' & -> & Hself & Htasks & Hnext & Hsent & Hother & Hrel & Hrelo).
    { apply NoDup_fst_map_to_list. }
    { by eapply chans_NoDup. }
    assert (Hrc : RelayCache.relay_channels self' = RelayCache.relay_channels self) by (by rewrite Hself).
    assert (Hout : forall ch, (forall id, q !! id <> Some ch) -> ch ∉ (map_to_list q).*2).
    { intros ch Hch ([id ch'] & -> & H%elem_of_map_to_list)%list_elem_of_fmap. by destruct (Hch id). }
    destruct (resume_ok b self' ctx' rs) as (bo & ts & Hr & Hi & Hqd).
    { rewrite Htasks. simpl. by rewrite Et. }
    { rewrite Hself. simpl. lia. }
    { lia. }
    { rewrite Hrc, Hnext. eapply chans_served; [done|]. intros ch Hch.
      destruct (decide (ch ∈ (map_to_list q).*2)) as [ ([id ch'] & -> & H%elem_of_map_to_list)%list_elem_of_fmap | Hn];
        [right; by exists id|left]. by rewrite Hother in Hch. }
    { intros _. by rewrite Hself. }
    eexists _, _. split; [exact Hr|]. split_and!; [done|done|by simpl; rewrite Hself|done|done| | |].
    + intros id ch H%elem_of_map_to_list. by apply Hsent.
    + intros ch Hch. simpl. by rewrite Hother by by apply Hout.
    + intros id st H. simpl in H. destruct (decide (id ∈ (map_to_list q).*1)) as [Hin|Hin].
      * rewrite (Hrel id Hin) in H. injection H as <-. by right.
      * rewrite Hrelo in H by done. by left.
  - destruct (resume_ok b (RelayCache.set_channels self (q ∪ RelayCache.relay_channels self)) (remove_task 0 ctx) rs)
      as (bo & ts & Hr & Hi & Hqd).
    { simpl. by rewrite Et. }
    { simpl. lia. }
    { lia. }
    { by apply chans_extend. }
    { simpl. intros H%map_positive_l. done. }
    eexists _, _. split; [exact Hr|]. by split_and!.
Qed.

Lemma shape_task w n t : shape w -> tasks (context w) !! n = Some t -> n = 0%nat /\ tasks (context w) = [t].
Proof.
  unfold shape. destruct (tasks (context w)) as [|t' [|t'' ts]].
  - by rewrite lookup_nil.
  - destruct n as [|n]; [by intros _ [= ->]|]. done.
  - by destruct t'.
Qed.

(** Everything the cache knows and everything it has told satisfies [P]; the channels that are
    waited for belong to the relay they are waited for. *)
Record auth (P : RelayId -> RelayInfo -> Prop) (w : World) : Prop := MkAuth {
  a_static : forall id info, RelayCache.static_relays (cache w) !! id = Some info -> P id info;
  a_cache : forall id st info, RelayCache.relays (cache w) !! id = Some st -> RelayState.as_option st = Some info -> P id info;
  a_immediate : forall req id info, req ∈ requests w -> immediate req !! id = Some (Some info) -> P id info;
  a_wait : forall req id ch, req ∈ requests w -> (id, ch) ∈ futures req ->
    (ch < next_channel (context w))%nat /\ (forall id', owns w id' ch -> id' = id)
    /\ forall info, sent (context w) !! ch = Some (Some info) -> P id info;
}.

Lemma replied_auth P w id info : auth P w -> replied (cache w) id (Some info) -> P id info.
Proof.
  intros Ha [H|[|(st & H1 & H2)]]; [by apply (a_static P w Ha)|done|by apply (a_cache P w Ha id st)].
Qed.

(** A request joins. *)
Lemma auth_request P b w w' req :
  auth P w -> inv b w' -> grows w w' -> requests w' = requests w ++ [req] ->
  (forall id info, immediate req !! id = Some (Some info) -> replied (cache w) id (Some info)) ->
  (forall id ch, (id, ch) ∈ futures req -> RelayCache.relay_channels (cache w') !! id = Some ch) ->
  auth P w'.
Proof.
  intros Ha Hinv (H1 & H2 & H3 & H4 & H5 & H6 & H7) Hreq Himm Hfut. split.
  - intros id info. rewrite H2. apply (a_static P w Ha).
  - intros id st info. rewrite H1. apply (a_cache P w Ha).
  - intros r id info. rewrite Hreq. intros [Hr|Hr%list_elem_of_singleton]%elem_of_app Hi.
    + by apply (a_immediate P w Ha r).
    + subst r. by apply (replied_auth P w), Himm.
  - intros r id ch. rewrite Hreq. intros [Hr|Hr%list_elem_of_singleton]%elem_of_app Hf.
    + destruct (a_wait P w Ha r id ch Hr Hf) as (Hlt & Hown & Hsent). split_and!; [lia| |by rewrite H3].
      intros id' [Ho|Ho]; [destruct (H7 id' ch Ho) as [Ho'|Ho']; [|lia]|].
      * by apply Hown; left.
      * apply Hown. right. by rewrite <- H4.
    + subst r. pose proof (Hfut id ch Hf) as Ho. pose proof (i_chans _ _ Hinv) as Hc.
      destruct (c_fresh _ _ _ _ Hc id ch (or_introl Ho)) as [Hlt Hn]. split_and!; [done| |by rewrite Hn].
      intros id' Ho'. apply (c_inj _ _ _ _ Hc id' id ch); [apply Ho'|by left].
Qed.

(** An answer arrives. *)
Lemma auth_answer P b w ids q now response self' ctx' :
  auth P w -> inv b w -> 0 <= b < u64_max -> tasks (context w) = [AwaitQuery ids q] ->
  (forall r id info, response = Some r -> result_from r !! id = Some (Some info) -> P id info) ->
  RelayCache.on_response (cache w) (remove_task 0 (context w)) now q response = Ret (self', ctx') ->
  auth P (MkWorld self' ctx' (requests w)).
Proof.
  destruct w as [self ctx rs]. simpl. intros Ha Hinv Hb Et HP Hret.
  destruct (on_response_ok b self ctx rs now ids q response Hinv Hb Et) as (self1 & ctx1 & Hret1 & _ & Hqd & Hst & Hn & Hr).
  rewrite Hret in Hret1. injection Hret1 as <- <-.
  assert (Hq : queried (MkWorld self ctx rs) = q) by (unfold queried; simpl; by rewrite Et).
  assert (Hrc : forall id ch, RelayCache.relay_channels self' !! id = Some ch -> owns (MkWorld self ctx rs) id ch).
  { intros id ch H. unfold owns. rewrite Hq. simpl. destruct response as [r|]; destruct Hr as (Hrc & _); rewrite Hrc in H; [by left|].
    apply lookup_union_Some_raw in H. naive_solver. }
  split; simpl.
  - intros id info. rewrite Hst. apply (a_static _ _ Ha).
  - intros id st info H Hst'. destruct response as [r|].
    + destruct Hr as (_ & _ & _ & Hr). destruct (Hr id st H) as [H'| ->]; [by apply (a_cache _ _ Ha id st)|].
      destruct (result_from r !! id) as [ [info'|] |] eqn:E; simpl in Hst'; [|done..]. injection Hst' as <-. by apply (HP r).
    + destruct Hr as (_ & _ & Hr). rewrite Hr in H. by apply (a_cache _ _ Ha id st).
  - apply (a_immediate _ _ Ha).
  - intros req id ch Hin Hf. destruct (a_wait _ _ Ha req id ch Hin Hf) as (Hlt & Hown & Hsent). simpl in *.
    split_and!; [by rewrite Hn| |].
    + intros id' [Ho|Ho]; [by apply Hown, Hrc|]. by rewrite Hqd, lookup_empty in Ho.
    + intros info Hi. destruct response as [r|]; [|destruct Hr as (_ & Hr & _); rewrite Hr in Hi; by apply Hsent].
      destruct Hr as (_ & Hr1 & Hr2 & _).
      destruct (decide (Exists (fun p => p.2 = ch) (map_to_list q))) as [ ([id' ch'] & H%elem_of_map_to_list & Heq)%Exists_exists | Hno].
      * simpl in Heq. subst ch'. assert (id' = id) as -> by (apply Hown; right; by rewrite Hq).
        rewrite (Hr1 id ch H) in Hi. destruct (result_from r !! id) as [ [info'|] |] eqn:E; simpl in Hi; simplify_eq. by apply (HP r).
      * rewrite Hr2 in Hi; [by apply Hsent|]. intros id' H. apply Hno, Exists_exists. exists (id', ch).
        split; [by apply elem_of_map_to_list|done].
Qed.

(** A delay that has passed turns the map into a query. *)
Lemma elapsed_ok b w d :
  inv b w -> tasks (context w) = [RunLater d] ->
  exists w', exec w (Elapsed 0) = Ret w' /\ inv b w'
    /\ w' = MkWorld (RelayCache.set_channels (cache w) ∅)
              (MkContext [AwaitQuery (map_to_list (RelayCache.relay_channels (cache w))).*1
                            (RelayCache.relay_channels (cache w))] (next_channel (context w)) (sent (context w)))
              (requests w).
Proof.
  intros [Hs Hat Hc] Hts. simpl. unfold remove_task. rewrite Hts. simpl.
  eexists. split; [reflexivity|]. split; [|done]. unfold shape in Hs. unfold queried in Hc. rewrite Hts in Hs, Hc.
  split; [|done|by apply chans_fetch]. unfold shape. simpl. naive_solver.
Qed.

Definition delivered (e : Event) : Prop := match e with Undelivered _ => False | _ => True end.

(** What the upstream said of a relay in one of the answers of a run. *)
Definition told (es : list Event) (id : RelayId) (info : RelayInfo) : Prop :=
  exists n now r, Answered n now (Some r) ∈ es /\ result_from r !! id = Some (Some info).

Lemma exec_ok P b w e :
  inv b w -> auth P w -> 0 <= b < u64_max -> delivered e ->
  (forall n now r id info, e = Answered n now (Some r) -> result_from r !! id = Some (Some info) -> P id info) ->
  exists w', exec w e = Ret w' /\ inv (b + 1) w' /\ auth P w'.
Proof.
  intros Hinv Ha Hb Hd HP. destruct w as [self ctx rs].
  assert (Hsame : inv (b + 1) (MkWorld self ctx rs)) by (destruct Hinv; split; try done; lia).
  destruct e as [now id|now ids|n|n now response|n]; [..|done].
  - simpl. destruct (get_or_fetch_info_ok b self ctx rs now id Hinv) as (lookup & self' & ctx' & -> & Hi & Hg & Hl).
    cbn [mbind outcome_bind]. eexists. split; [reflexivity|].
    assert (Hi' : forall rs', inv (b + 1) (MkWorld self' ctx' rs')).
    { intros rs'. apply (inv_requests _ _ _ rs). destruct Hi. split; try done. simpl in *. lia. }
    split; [apply Hi'|]. eapply auth_request; [exact Ha|apply Hi'|exact Hg|reflexivity| |].
    + intros id' info. destruct lookup; simpl; [|by rewrite lookup_empty].
      intros [ <- ->]%lookup_singleton_Some. done.
    + intros id' ch. destruct lookup; simpl; [by intros H%elem_of_nil|].
      intros [= -> ->]%list_elem_of_singleton. done.
  - simpl. destruct (get_relays_ok rs now ids b self ctx ∅ [] Hinv) as (relays & futures & self' & ctx' & -> & Hi & Hg & Hr & Hf).
    cbn [mbind outcome_bind]. eexists. split; [reflexivity|].
    assert (Hi' : forall rs', inv (b + 1) (MkWorld self' ctx' rs')).
    { intros rs'. apply (inv_requests _ _ _ rs). destruct Hi. split; try done. simpl in *. lia. }
    split; [apply Hi'|]. eapply auth_request; [exact Ha|apply Hi'|exact Hg|reflexivity| |done].
    intros id info H. destruct (Hr id (Some info) H) as [H'|H']; [by rewrite lookup_empty in H'|done].
  - destruct (tasks ctx !! n) as [ [d|ids q] |] eqn:Et; [|by simpl; rewrite Et; eauto..].
    destruct (shape_task _ _ _ (i_shape _ _ Hinv) Et) as [-> Hts].
    destruct (elapsed_ok b (MkWorld self ctx rs) d Hinv Hts) as (w' & -> & [I1 I2 I3] & ->).
    eexists. split; [reflexivity|]. split; [split; [done|simpl in *; lia|done]|].
    destruct Ha as [A1 A2 A3 A4]. split; try done. intros req id ch H1 H2. destruct (A4 req id ch H1 H2) as (H3 & H4 & H5).
    split_and!; [done| |done]. intros id' Ho. unfold owns, queried in Ho. simpl in Ho.
    destruct Ho as [Ho|Ho]; [by rewrite lookup_empty in Ho|]. apply H4. by left.
  - simpl. destruct (tasks ctx !! n) as [ [d|ids q] |] eqn:Et; [by eauto| |by eauto].
    destruct (shape_task _ _ _ (i_shape _ _ Hinv) Et) as [-> Hts]. simpl in Hts.
    destruct (on_response_ok b self ctx rs now ids q response Hinv Hb Hts) as (self' & ctx' & Hret & Hi & _).
    rewrite Hret. cbn [mbind outcome_bind]. eexists. split; [reflexivity|]. split; [done|].
    eapply (auth_answer P b (MkWorld self ctx rs)); try done. intros r id info -> H. by eapply HP.
Qed.

Lemma run_ok P es : forall b w,
  inv b w -> auth P w -> 0 <= b -> b + Z.of_nat (length es) < u64_max -> Forall delivered es ->
  (forall id info, told es id info -> P id info) ->
  exists w', run w es = Ret w' /\ inv (b + Z.of_nat (length es)) w' /\ auth P w'.
Proof.
  induction es as [|e es IH]; intros b w Hinv Ha Hb Hlen Hd HP; simpl in *.
  { exists w. by rewrite Z.add_0_r. }
  apply Forall_cons in Hd as [Hd Hds].
  destruct (exec_ok P b w e Hinv Ha) as (w1 & -> & Hinv1 & Ha1); [lia|done| |].
  { intros n now r id info -> H. apply HP. exists n, now, r. split; [apply list_elem_of_here|done]. }
  cbn [mbind outcome_bind]. destruct (IH (b + 1) w1 Hinv1 Ha1) as (w' & Hr & Hi & Ha'); [lia|lia|done| |].
  { intros id info (n & now & r & H1 & H2). apply HP. exists n, now, r. split; [by apply list_elem_of_further|done]. }
  exists w'. split; [done|]. split; [|done].
  replace (b + Z.of_nat (S (length es))) with (b + 1 + Z.of_nat (length es)) by lia. done.
Qed.

Lemma auth_start config : auth (fun id info => cfg_static_relays config !! id = Some info) (start config).
Proof. split; simpl; [done|by intros id st info; rewrite lookup_empty|by intros r id i H%elem_of_nil|by intros r id i H%elem_of_nil]. Qed.

Lemma auth_mono (P Q : RelayId -> RelayInfo -> Prop) w : (forall id info, P id info -> Q id info) -> auth P w -> auth Q w.
Proof. intros HPQ [A1 A2 A3 A4]. split; eauto. intros req id ch H1 H2. destruct (A4 req id ch H1 H2) as (? & ? & ?). eauto. Qed.

(** A run in which every query reaches the upstream actor, from the start of the service. *)
Definition reachable (config : RelayCacheConfig) (es : list Event) (w : World) : Prop :=
  Forall delivered es /\ Z.of_nat (length es) < u64_max /\ run (start config) es = Ret w.

Definition trusted (config : RelayCacheConfig) (es : list Event) (id : RelayId) (info : RelayInfo) : Prop :=
  cfg_static_relays config !! id = Some info \/ told es id info.

Lemma reachable_ok config es w :
  reachable config es w -> inv (Z.of_nat (length es)) w /\ auth (trusted config es) w.
Proof.
  intros (Hd & Hlen & Hr).
  destruct (run_ok (trusted config es) es 0 (start config)) as (w' & Hr' & Hi & Ha); try done.
  - apply inv_start.
  - eapply auth_mono; [|apply auth_start]. intros id info H. by left.
  - intros id info H. by right.
  - rewrite Hr in Hr'. injection Hr' as <-. done.
Qed.

Lemma resolve_auth (P : RelayId -> RelayInfo -> Prop) w acc futs relays :
  (forall id info, acc !! id = Some (Some info) -> P id info) ->
  (forall id ch info, (id, ch) ∈ futs -> sent (context w) !! ch = Some (Some info) -> P id info) ->
  resolve w acc futs = Some (Ok relays) -> forall id info, relays !! id = Some (Some info) -> P id info.
Proof.
  revert acc. induction futs as [|[id ch] futs IH]; intros acc Hacc Hf; simpl; [by intros [= <-]|].
  destruct (sent (context w) !! ch) as [v|] eqn:E; [|by destruct (is_owned w ch)].
  apply IH; [|intros id' ch' info H; apply Hf; by apply list_elem_of_further].
  intros id' info [ [ -> ->] | [_ H] ]%lookup_insert_Some; [|by apply Hacc].
  eapply Hf; [apply list_elem_of_here|done].
Qed.

(** the cache never makes up a key.  Whatever requests, delays, answers and failures of the
    upstream happen in whatever order: the public key a request is answered with for a relay is
    the one of the static configuration, or one the upstream gave for that relay. *)
Theorem relay_info_authentic config es w req relays id info :
  reachable config es w -> req ∈ requests w -> answer w req = Some (Ok relays) ->
  relays !! id = Some (Some info) -> trusted config es id info.
Proof.
  intros [_ Ha]%reachable_ok Hin Hans Hid. revert Hid.
  apply (resolve_auth (trusted config es) w (immediate req) (futures req)); [| |done].
  - intros id' info'. by apply (a_immediate _ _ Ha req).
  - intros id' ch info' H. by apply (a_wait _ _ Ha req id' ch Hin H).
Qed.

(** ** Everybody who waits is served *)

Lemma idle_shape b w : inv b w -> queried w = ∅ -> RelayCache.relay_channels (cache w) = ∅ -> tasks (context w) = [].
Proof.
  intros [Hs _ _]. revert Hs. unfold shape, queried. destruct (tasks (context w)) as [|[d|ids q] [|t ts]]; naive_solver.
Qed.

Lemma idle_run w now r : tasks (context w) = [] -> run w [Elapsed 0; Answered 0 now r] = Ret w.
Proof. intros Ht. simpl. rewrite Ht. simpl. by rewrite Ht. Qed.

(** The query is answered. *)
Lemma serve_query b w ids q now r :
  inv b w -> 0 <= b < u64_max -> tasks (context w) = [AwaitQuery ids q] ->
  exists w', exec w (Answered 0 now (Some r)) = Ret w' /\ inv (b + 1) w' /\ queried w' = ∅ /\ requests w' = requests w
    /\ RelayCache.relay_channels (cache w') = RelayCache.relay_channels (cache w)
    /\ (forall id ch, q !! id = Some ch -> sent (context w') !! ch = Some (default None (result_from r !! id)))
    /\ (forall ch v, sent (context w) !! ch = Some v -> sent (context w') !! ch = Some v).
Proof.
  destruct w as [self ctx rs]. simpl. intros Hinv Hb Et.
  destruct (on_response_ok b self ctx rs now ids q (Some r) Hinv Hb Et) as (self' & ctx' & Hret & Hi & Hq & _ & _ & Hrc & Hs & Ho & _).
  rewrite Et. simpl. rewrite Hret. cbn [mbind outcome_bind]. eexists. split; [reflexivity|]. split_and!; try done.
  intros ch v Hv. simpl. rewrite Ho; [done|]. intros id Hid. destruct Hinv as [_ _ Hc].
  destruct (c_fresh _ _ _ _ Hc id ch) as [_ Hn]; [right; unfold queried; simpl; by rewrite Et|]. simpl in Hn. congruence.
Qed.

(** The delay passes and the query is answered. *)
Lemma serve_scheduled b w now r :
  inv b w -> 0 <= b < u64_max -> queried w = ∅ ->
  exists w', run w [Elapsed 0; Answered 0 now (Some r)] = Ret w' /\ requests w' = requests w
    /\ tasks (context w') = [] /\ RelayCache.relay_channels (cache w') = ∅
    /\ (forall id ch, RelayCache.relay_channels (cache w) !! id = Some ch ->
         sent (context w') !! ch = Some (default None (result_from r !! id)))
    /\ (forall ch v, sent (context w) !! ch = Some v -> sent (context w') !! ch = Some v).
Proof.
  intros Hinv Hb Hq. pose proof Hinv as [Hs Ha Hc]. unfold shape in Hs.
  destruct (tasks (context w)) as [|[d|ids q] [|t ts]] eqn:Et; try done.
  - exists w. rewrite idle_run by done. destruct Hs as [_ Hrc]. rewrite Hrc.
    by split_and!.
  - destruct (elapsed_ok b w d Hinv Et) as (w1 & Hw1 & Hinv1 & Heq).
    destruct (serve_query b w1 (map_to_list (RelayCache.relay_channels (cache w))).*1 (RelayCache.relay_channels (cache w)) now r)
      as (w2 & Hw2 & Hinv2 & Hq2 & Hrq2 & Hrc2 & Hs2 & Ho2); [done|lia|by rewrite Heq|].
    exists w2. change (run w _) with (w1 ← exec w (Elapsed 0); run w1 [Answered 0 now (Some r)]). rewrite Hw1.
    cbn [mbind outcome_bind run]. rewrite Hw2. cbn [mbind outcome_bind]. rewrite Heq in Hrc2, Hrq2, Ho2.
    split_and!; [done|done|by eapply idle_shape|done|done|done].
  - unfold queried in Hq. rewrite Et in Hq. naive_solver.
Qed.

(** The upstream answers what is asked of it: the running query, then the scheduled one. *)
Definition serve (w : World) (now : Instant) (r : PublicKeysResultCompatibility) : list Event :=
  match tasks (context w) with
  | AwaitQuery _ _ :: _ => [Answered 0 now (Some r); Elapsed 0; Answered 0 now (Some r)]
  | _ => [Elapsed 0; Answered 0 now (Some r)]
  end.

Lemma resolve_idle w futs : tasks (context w) = [] -> RelayCache.relay_channels (cache w) = ∅ ->
  forall acc, is_Some (resolve w acc futs).
Proof.
  intros Ht Hrc. induction futs as [|[id ch] futs IH]; intros acc; simpl; [done|].
  destruct (sent (context w) !! ch); [apply IH|].
  unfold is_owned. rewrite Ht, Hrc, map_to_list_empty. simpl. done.
Qed.

(** *** Queries that cannot be delivered *)

(** Whether a running query was lost: its message did not reach the upstream actor. *)
Definition loses (w : World) (e : Event) : bool :=
  match e with
  | Undelivered n => match tasks (context w) !! n with Some (AwaitQuery _ _) => true | _ => false end
  | _ => false
  end.
Fixpoint lost (w : World) (es : list Event) : bool :=
  match es with
  | [] => false
  | e :: es => loses w e || match exec w e with Ret w => lost w es | Panic => false end
  end.

(** Nothing is scheduled or running, and the backoff says that it is. *)
Definition stalled (w : World) : Prop :=
  tasks (context w) = [] /\ RetryBackoff.started (RelayCache.backoff (cache w)) = true.

Lemma stalled_fetch self now id ctx :
  RetryBackoff.started (RelayCache.backoff self) = true ->
  exists lookup self' ctx', RelayCache.get_or_fetch_info self now id ctx = Ret (lookup, self', ctx')
    /\ RelayCache.backoff self' = RelayCache.backoff self /\ tasks ctx' = tasks ctx /\ sent ctx' = sent ctx.
Proof.
  intros Hs. unfold RelayCache.get_or_fetch_info, RelayCache.fetch_info, RelayCache.receiver. rewrite Hs. cbn [negb mbind outcome_bind].
  destruct (RelayCache.static_relays self !! id); [by eexists _, _, _|].
  destruct (key ← RelayCache.relays self !! id; _) as [r|]; [by eexists _, _, _|].
  destruct (negb _); [by eexists _, _, _|]. destruct (RelayCache.relay_channels self !! id); by eexists _, _, _.
Qed.

Lemma stalled_fetches now ids : forall self relays futs ctx,
  RetryBackoff.started (RelayCache.backoff self) = true ->
  exists relays' futs' self' ctx', RelayCache.get_relays self now ids relays futs ctx = Ret (relays', futs', self', ctx')
    /\ RelayCache.backoff self' = RelayCache.backoff self /\ tasks ctx' = tasks ctx /\ sent ctx' = sent ctx.
Proof.
  induction ids as [|id ids IH]; intros self relays futs ctx Hs; simpl; [by eexists _, _, _, _|].
  destruct (stalled_fetch self now id ctx Hs) as (lookup & self1 & ctx1 & -> & Hb & Ht & Hse). cbn [mbind outcome_bind].
  destruct lookup as [r|ch];
    [destruct (IH self1 (<[id := r]> relays) futs ctx1) as (? & ? & ? & ? & -> & ? & ? & ?)
    |destruct (IH self1 relays (futs ++ [(id, ch)]) ctx1) as (? & ? & ? & ? & -> & ? & ? & ?)]; try congruence;
    eexists _, _, _, _; (split; [done|]); split_and!; congruence.
Qed.

Lemma stalled_exec w e : stalled w ->
  exists w', exec w e = Ret w' /\ stalled w' /\ sent (context w') = sent (context w).
Proof.
  intros [Ht Hs]. destruct e as [now id|now ids|n|n now r|n]; simpl; [| |rewrite Ht; by exists w..].
  - destruct (stalled_fetch (cache w) now id (context w) Hs) as (lookup & self & ctx & -> & Hb & Ht' & Hse). cbn [mbind outcome_bind].
    eexists. split; [done|]. unfold stalled. simpl. split_and!; congruence.
  - destruct (stalled_fetches now ids (cache w) ∅ [] (context w) Hs) as (relays & futs & self & ctx & -> & Hb & Ht' & Hse). cbn [mbind outcome_bind].
    eexists. split; [done|]. unfold stalled. simpl. split_and!; congruence.
Qed.

Lemma stalled_run es : forall w, stalled w ->
  exists w', run w es = Ret w' /\ stalled w' /\ sent (context w') = sent (context w).
Proof.
  induction es as [|e es IH]; intros w Hs; simpl; [by exists w|].
  destruct (stalled_exec w e Hs) as (w1 & -> & Hs1 & He). cbn [mbind outcome_bind].
  destruct (IH w1 Hs1) as (w' & -> & Hs' & He'). exists w'. split_and!; [done|done|congruence].
Qed.

(** The loss of a query stalls the cache. *)
Lemma loses_stalls b w e : inv b w -> loses w e = true -> exists w', exec w e = Ret w' /\ stalled w'.
Proof.
  intros Hinv. destruct e as [ | | | |n]; try done. simpl. destruct (tasks (context w) !! n) as [ [d|ids q] |] eqn:Et; try done. intros _.
  destruct (shape_task _ _ _ (i_shape _ _ Hinv) Et) as [-> Hts]. eexists. split; [done|].
  pose proof (i_shape _ _ Hinv) as Hs. unfold shape in Hs. rewrite Hts in Hs. unfold stalled. simpl. unfold remove_task. rewrite Hts.
  split; [done|]. apply bool_decide_eq_true_2. tauto.
Qed.

Lemma run_fate P es : forall b w,
  inv b w -> auth P w -> 0 <= b -> b + Z.of_nat (length es) < u64_max -> (forall id info, P id info) ->
  exists w', run w es = Ret w' /\ if lost w es then stalled w' else inv (b + Z.of_nat (length es)) w'.
Proof.
  induction es as [|e es IH]; intros b w Hinv Ha Hb Hlen HP; simpl in *.
  { exists w. by rewrite Z.add_0_r. }
  destruct (loses w e) eqn:El; simpl.
  { destruct (loses_stalls b w e Hinv El) as (w1 & -> & Hs). cbn [mbind outcome_bind].
    destruct (stalled_run es w1 Hs) as (w' & -> & Hs' & _). by exists w'. }
  assert (exists w1, exec w e = Ret w1 /\ inv (b + 1) w1 /\ auth P w1) as (w1 & -> & Hinv1 & Ha1).
  { destruct e as [ | | | |n]; try (apply exec_ok; [done..|lia|done|intros; apply HP]).
    simpl in *. destruct (tasks (context w) !! n) as [ [d|ids q] |]; try done; exists w; (split; [done|]); (split; [|done]);
      destruct Hinv; split; try done; lia. }
  cbn [mbind outcome_bind]. destruct (IH (b + 1) w1 Hinv1 Ha1) as (w' & -> & Hw'); [lia|lia|done|]. exists w'. split; [done|].
  replace (b + Z.of_nat (S (length es))) with (b + 1 + Z.of_nat (length es)) by lia. done.
Qed.

(** A state in which a fetch is due: the upstream answers, everybody is served. *)
Lemma serve_ok b w now r : inv b w -> 0 <= b -> b + 1 < u64_max ->
  exists w', run w (serve w now r) = Ret w'
    /\ (forall id ch, owns w id ch -> sent (context w') !! ch = Some (default None (result_from r !! id)))
    /\ tasks (context w') = [] /\ RelayCache.relay_channels (cache w') = ∅
    /\ forall req, req ∈ requests w -> is_Some (answer w' req).
Proof.
  intros Hinv Hb Hlen. pose proof Hinv as [Hs Ha Hc]. unfold shape in Hs. unfold serve, owns.
  destruct (tasks (context w)) as [|[d|ids q] [|t ts]] eqn:Et; try done.
  1-2: assert (Hq : queried w = ∅) by (unfold queried; by rewrite Et);
    destruct (serve_scheduled _ w now r Hinv ltac:(lia) Hq) as (w' & Hr & Hrq & Ht & Hrc & Hsv & _);
    exists w'; rewrite Hq; split_and!; [done|intros id ch [H|H]; [by apply Hsv|by rewrite lookup_empty in H]|done|done|];
    intros req _; by apply resolve_idle.
  assert (Hq : queried w = q) by (unfold queried; by rewrite Et).
  destruct (serve_query _ w ids q now r Hinv ltac:(lia) Et) as (w1 & Hw1 & Hinv1 & Hq1 & Hrq1 & Hrc1 & Hs1 & _).
  destruct (serve_scheduled _ w1 now r Hinv1 ltac:(lia) Hq1) as (w' & Hr & Hrq & Ht & Hrc & Hsv & Hk).
  exists w'. change (run w _) with (w1 ← exec w (Answered 0 now (Some r)); run w1 [Elapsed 0; Answered 0 now (Some r)]).
  rewrite Hw1, Hq. split_and!; [done| |done|done|intros req _; by apply resolve_idle].
  intros id ch [H|H]; [apply Hsv; by rewrite Hrc1|]. by apply Hk, Hs1.
Qed.

(** C14: who waits for a relay is served, unless a query does not reach the upstream actor.
    The service never panics.  As long as every query was delivered, however often the upstream
    failed, a fetch is scheduled or running whenever a request waits for a channel whose sender
    is alive: once the upstream answers (the running query and the one scheduled after it), every
    such channel has received what the upstream says of its relay, nothing is left to do, and
    every request that was made has its answer.  After the loss of one query nothing is scheduled
    any more, whatever happens, and no channel receives anything again. *)
Theorem relay_waiters_served config es :
  Z.of_nat (length es) + 1 < u64_max ->
  exists w, run (start config) es = Ret w /\
    if lost (start config) es then
      forall es', exists w', run w es' = Ret w' /\ tasks (context w') = [] /\ sent (context w') = sent (context w)
    else
      forall now r, exists w', run w (serve w now r) = Ret w'
        /\ (forall id ch, owns w id ch -> sent (context w') !! ch = Some (default None (result_from r !! id)))
        /\ tasks (context w') = [] /\ RelayCache.relay_channels (cache w') = ∅
        /\ forall req, req ∈ requests w -> is_Some (answer w' req).
Proof.
  intros Hlen. destruct (run_fate (fun _ _ => True) es 0 (start config)) as (w & Hr & Hw);
    [apply inv_start|by eapply auth_mono; [|apply auth_start]|lia|lia|done|].
  exists w. split; [done|]. destruct (lost (start config) es).
  - intros es'. destruct (stalled_run es' w Hw) as (w' & Hr' & [Ht _] & He). by exists w'.
  - intros now r. by eapply serve_ok; [exact Hw|lia..].
Qed.

End Invariant.

(** ** Requests with a signature (extractors/signed_json.rs) *)

Module SignatureError.
Inductive SignatureError := BadSignature | MissingHeader (name : string) | MalformedHeader (name : string) | UnknownRelay.
End SignatureError.
Notation SignatureError := SignatureError.SignatureError.

Section SignedJson.
Context {ED : Ed25519} {B64 : Base64} {HJ : SerdeJson SignatureHeader}.
(** The headers by name, [HeaderValue::to_str], and [Uuid]'s [FromStr]. *)
Context (headers : string -> option string) (to_str : string -> option string) (parse_uuid : string -> option RelayId).

Definition extract_header (name : string) : result SignatureError string :=
  match headers name with
  | None => Err (SignatureError.MissingHeader name)
  | Some value => ok_or (to_str value) (SignatureError.MalformedHeader name)
  end.

(** The identifier to ask [RelayCache] for, and the signature. *)
Definition signature_headers : result SignatureError (RelayId * string) :=
  value ← extract_header "X-Sentry-Relay-Id";
  relay_id ← ok_or (parse_uuid value) (SignatureError.MalformedHeader "X-Sentry-Relay-Id");
  relay_sig ← extract_header "X-Sentry-Relay-Signature";
  Ok (relay_id, relay_sig).

(** What is made of the cache's answer and the body. *)
Definition signed_json {T} `{SerdeJson T} (now : DateTime) (relay : option RelayInfo) (relay_sig body : string) :
    outcome (result SignatureError (T * RelayInfo)) :=
  match relay with
  | None => Ret (Err SignatureError.UnknownRelay)
  | Some relay =>
      inner ← PublicKey.unpack (D := T) (RelayInfo.public_key relay) now body relay_sig None;
      Ret match inner with
          | Ok inner => Ok (inner, relay)
          | Err _ => Err SignatureError.BadSignature
          end
  end.

End SignedJson.

(** ** Runs *)

Module RelayRuns.

#[local] Existing Instance Toy.ed.
#[local] Instance second_backoff : Backoff := {|
  ExponentialBackoff := unit; exponential _ _ := tt; backoff_reset := id; backoff_next b := (Some 1000000000, b) |}.

Lemma second_backoff_laws : BackoffLaws.
Proof. split. intros b. by eexists _, _. Qed.

Definition config : RelayCacheConfig := MkRelayCacheConfig _ 3600 60 100 60 true ∅.
Definition key : RelayInfo := RelayInfo.new (PublicKey.MkPublicKey "k"%char).
Definition says : PublicKeysResultCompatibility := MkPublicKeysResult ∅ {[ 1 := Some key ]}.

Definition after (es : list Event) : World := match run (start config) es with Ret w => w | Panic => start config end.
Definition answers (es : list Event) : list (option (result KeyError (gmap RelayId (option RelayInfo)))) :=
  answer (after es) <$> requests (after es).

(** A key is requested, fetched and answered, and the next request finds it in the cache. *)
Definition simple_run : list Event := [GetRelay 0 1; Elapsed 0; Answered 0 5 (Some says); GetRelays 6 [1; 1]].

Example simple_run_answers :
  answers simple_run = [Some (Ok {[ 1 := Some key ]}); Some (Ok {[ 1 := Some key ]})].
Proof. vm_compute. reflexivity. Qed.

(** A key that is requested again while the query for it runs: the query fails, its channel
    replaces the new one, and the second request fails although the first is retried. *)
Definition failed_query : list Event := [GetRelay 0 1; Elapsed 0; GetRelay 1 1; Answered 0 2 None].

Lemma second_request_fails : answers failed_query = [None; Some (Err KeyError.FetchFailed)].
Proof. vm_compute. reflexivity. Qed.

(** A query that cannot be delivered: the requests of it fail, no fetch is scheduled any more,
    and a later request waits for ever. *)
Definition undelivered_query : list Event := [GetRelay 0 1; Elapsed 0; Undelivered 0; GetRelay 1 1].

Lemma cache_stuck_after_mailbox_error :
  answers undelivered_query = [Some (Err KeyError.FetchFailed); None] /\ tasks (context (after undelivered_query)) = [].
Proof. vm_compute. split; reflexivity. Qed.

Lemma simple_reachable es : Forall delivered es -> Z.of_nat (length es) < 100 ->
  run (start config) es = Ret (after es) -> reachable config es (after es).
Proof. intros H1 H2 H3. split_and!; try done. unfold u64_max. lia. Qed.

Lemma relay_info_authentic_witness : trusted config simple_run 1 key.
Proof.
  refine (@relay_info_authentic _ _ second_backoff_laws config simple_run (after simple_run)
            (MkWaiting _ {[ 1 := Some key ]} []) {[ 1 := Some key ]} 1 key _ _ _ _).
  - apply simple_reachable; [repeat constructor|vm_compute; reflexivity|vm_compute; reflexivity].
  - apply (list_elem_of_lookup_2 _ 1). vm_compute. reflexivity.
  - vm_compute. reflexivity.
  - vm_compute. reflexivity.
Defined.

Lemma relay_waiters_served_witness :
  (exists w', run (after failed_query) (serve (after failed_query) 9 says) = Ret w' /\ tasks (context w') = [])
  /\ exists w', run (after undelivered_query) [Elapsed 0; GetRelay 9 1] = Ret w' /\ tasks (context w') = [].
Proof.
  split.
  - destruct (@relay_waiters_served _ _ second_backoff_laws config failed_query) as (w & Hw & H); [vm_compute; reflexivity|].
    assert (w = after failed_query) as -> by (unfold after; rewrite Hw; reflexivity).
    destruct (H 9 says) as (w' & Hr & _ & Ht & _). exists w'. split; [exact Hr|exact Ht].
  - destruct (@relay_waiters_served _ _ second_backoff_laws config undelivered_query) as (w & Hw & H); [vm_compute; reflexivity|].
    assert (w = after undelivered_query) as -> by (unfold after; rewrite Hw; reflexivity).
    destruct (H [Elapsed 0; GetRelay 9 1]) as (w' & Hr & Ht & _). exists w'. split; [exact Hr|exact Ht].
Defined.

End RelayRuns.
