(* ===== verification/ProjectSources.v ===== *)
(** * relay-server: where project states come from (actors/project_upstream.rs,
      project_local.rs, project_redis.rs)

    [UpstreamProjectSource] collects the projects that are asked for and fetches their states in
    batches, several queries at once; [LocalProjectSource] reads them from files;
    [RedisProjectSource] reads them from Redis.

    As in the cache of public keys, the actor's context is explicit: the futures it has spawned,
    the channels, numbered in the order of their creation, and what was sent to them. *)

From Stdlib Require Import Ascii String.
From S2P Require Import Prelude Strings Floats Types Common Protocol Quota RateLimit Filters Sampling Extractors Envelopes EnvelopeLimiter Sessions MetricProtocol Aggregation Aggregator Auth Projects Http Channels.

Open Scope string_scope.
Open Scope Z_scope.
Open Scope list_scope.

(** ** The upstream *)

Record GetProjectStates := MkGetProjectStates {
  gps_public_keys : list ProjectKey;
  full_config : bool;
  gps_no_cache : bool;
}.

(** The answer by its only field, [configs]. *)
Notation GetProjectStatesResponse := (gmap ProjectKey (ErrorBoundary (option ProjectState))) (only parsing).

(** [query_timeout] in seconds, [batch_interval] in milliseconds. *)
Record SourceConfig := MkSourceConfig {
  src_max_retry : Z;
  src_batch_interval : Z;
  batch_size : Z;
  max_concurrent_queries : Z;
  query_timeout_secs : Z;
  src_processing : bool;
}.

Module ProjectStateChannel.

(** The channel by its number, which stands for sender and receiver. *)
Record ProjectStateChannel := MkChannel { channel : nat; deadline : Instant; no_cache : bool }.

Definition set_no_cache (self : ProjectStateChannel) : ProjectStateChannel :=
  MkChannel (channel self) (deadline self) true.

Definition expired (now : Instant) (self : ProjectStateChannel) : bool := bool_decide (deadline self < now).

End ProjectStateChannel.
Notation ProjectStateChannel := ProjectStateChannel.ProjectStateChannel.

Module UpstreamProjectSource.

(** A batch of channels, in the order of the keys. *)
Notation Batch := (list (ProjectKey * ProjectStateChannel)) (only parsing).

Inductive Task :=
(** [run_later(timeout, Self::fetch_states)] *)
| RunLater (timeout : Duration)
(** [join_all] of the queries, each with the channels its continuation owns *)
| AwaitQueries (queries : list (GetProjectStates * Batch)).

Record Context := MkContext {
  tasks : list Task;
  next_channel : nat;
  sent : gmap nat ProjectState;
}.

Definition spawn (task : Task) (context : Context) : Context :=
  MkContext (tasks context ++ [task]) (next_channel context) (sent context).

(** [ProjectStateChannel::new(timeout)]. *)
Definition channel_new (now : Instant) (timeout : Duration) (context : Context) :
    outcome (ProjectStateChannel * Context) :=
  deadline ← instant_add now timeout;
  Ret (ProjectStateChannel.MkChannel (next_channel context) deadline false,
       MkContext (tasks context) (S (next_channel context)) (sent context)).

Definition channel_send (context : Context) (channel : ProjectStateChannel) (state : ProjectState) : Context :=
  MkContext (tasks context) (next_channel context) (<[ProjectStateChannel.channel channel := state]> (sent context)).

Section UpstreamProjectSource.
Context {BO : Backoff}.
(** The order in which a [HashMap] yields its keys. *)
Context (hash_keys : gmap ProjectKey ProjectStateChannel -> list ProjectKey).

Record UpstreamProjectSource := MkSource {
  backoff : RetryBackoff;
  config : SourceConfig;
  state_channels : gmap ProjectKey ProjectStateChannel;
}.

Definition set_backoff (self : UpstreamProjectSource) (b : RetryBackoff) : UpstreamProjectSource :=
  MkSource b (config self) (state_channels self).
Definition set_channels (self : UpstreamProjectSource) (c : gmap ProjectKey ProjectStateChannel) : UpstreamProjectSource :=
  MkSource (backoff self) (config self) c.

Definition new (config : SourceConfig) : UpstreamProjectSource :=
  MkSource (RetryBackoff.new (duration_from_secs (src_max_retry config))) config ∅.

Definition next_backoff (self : UpstreamProjectSource) : outcome (Duration * UpstreamProjectSource) :=
  '(d, b) ← RetryBackoff.next_backoff (backoff self);
  Ret (src_batch_interval (config self) * 1000000 + d, set_backoff self b).

Definition schedule_fetch (self : UpstreamProjectSource) (context : Context) :
    outcome (UpstreamProjectSource * Context) :=
  '(timeout, self) ← next_backoff self;
  Ret (self, spawn (RunLater timeout) context).

(** [self.state_channels.remove(id)], one key after the other; a key that is not there is
    skipped. *)
Fixpoint pop_channels (channels : gmap ProjectKey ProjectStateChannel) (projects : list ProjectKey) :
    Batch * gmap ProjectKey ProjectStateChannel :=
  match projects with
  | [] => ([], channels)
  | id :: projects =>
      let '(popped, rest) := pop_channels (delete id channels) projects in
      match channels !! id with
      | Some channel => ((id, channel) :: popped, rest)
      | None => (popped, rest)
      end
  end.

(** The order of a [BTreeMap] by project key. *)
Definition key_le (a b : ProjectKey * ProjectStateChannel) : Prop :=
  String.leb (ProjectKey.bytes (fst a)) (ProjectKey.bytes (fst b)) = true.

#[local] Instance key_le_dec : RelDecision key_le.
Proof. intros a b. unfold key_le. apply _. Defined.

(** [itertools::chunks] of a size that is not zero. *)
Fixpoint chunks (size : nat) (fuel : nat) (l : Batch) : list Batch :=
  match fuel, l with
  | S fuel, _ :: _ => take size l :: chunks size fuel (drop size l)
  | _, _ => []
  end.

Definition query_of (self : UpstreamProjectSource) (batch : Batch) : GetProjectStates :=
  MkGetProjectStates batch.*1 (src_processing (config self)) (existsb (fun e => ProjectStateChannel.no_cache (snd e)) batch).

Definition actual_batch_size (total_count num_batches : Z) : outcome Z :=
  rem ← checked_rem total_count num_batches;
  checked_div (u64_add total_count rem) num_batches.

(** [chunks(0)] is refused by an assertion. *)
Definition fetch_states (self : UpstreamProjectSource) (now : Instant) (context : Context) :
    outcome (UpstreamProjectSource * Context) :=
  if is_empty (state_channels self) then Ret (self, context)
  else
    let batch_size := batch_size (config self) in
    let num_batches := max_concurrent_queries (config self) in
    let total_count := u64_mul batch_size num_batches in
    let projects := take (Z.to_nat total_count) (hash_keys (state_channels self)) in
    let '(popped, rest) := pop_channels (state_channels self) projects in
    let channels := merge_sort key_le (List.filter (fun e => negb (ProjectStateChannel.expired now (snd e))) popped) in
    let self := set_channels self rest in
    actual_batch_size ← actual_batch_size total_count num_batches;
    if bool_decide (actual_batch_size = 0) then Panic
    else
      let requests := (fun batch => (query_of self batch, batch))
                        <$> chunks (Z.to_nat actual_batch_size) (length channels) channels in
      Ret (self, spawn (AwaitQueries requests) context).

(** The state of a project in an answer: missing when it is not there, an error when it could
    not be read. *)
Definition state_of (now : Instant) (response : GetProjectStatesResponse) (key : ProjectKey) : ProjectState :=
  ProjectState.sanitize
    match default (BoundaryOk None) (response !! key) with
    | BoundaryErr _ => ProjectState.err now
    | BoundaryOk None => ProjectState.missing now
    | BoundaryOk (Some state) => state
    end.

(** One turn of the inner loop. *)
Definition receive_one (now : Instant) (acc : GetProjectStatesResponse * Context) (entry : ProjectKey * ProjectStateChannel) :
    GetProjectStatesResponse * Context :=
  let '(response, context) := acc in
  let '(key, channel) := entry in
  (delete key response, channel_send context channel (state_of now response key)).

(** One turn of the outer loop: the answer to one query. *)
Definition receive_batch (now : Instant) (acc : UpstreamProjectSource * Context)
    (answer : Batch * option GetProjectStatesResponse) : UpstreamProjectSource * Context :=
  let '(self, context) := acc in
  match snd answer with
  | Some response =>
      (set_backoff self (RetryBackoff.reset (backoff self)),
       snd (foldl (receive_one now) (response, context) (fst answer)))
  | None => (set_channels self (list_to_map (fst answer) ∪ state_channels self), context)
  end.

(** The continuation of the queries; a failed query has no answer. *)
Definition on_responses (self : UpstreamProjectSource) (context : Context) (now : Instant)
    (responses : list (Batch * option GetProjectStatesResponse)) : outcome (UpstreamProjectSource * Context) :=
  let '(self, context) := foldl (receive_batch now) (self, context) responses in
  if negb (is_empty (state_channels self)) then schedule_fetch self context
  else Ret (set_backoff self (RetryBackoff.reset (backoff self)), context).

(** [Handler<FetchProjectState>]: the channel the request waits for. *)
Definition handle_fetch (self : UpstreamProjectSource) (now : Instant) (project_key : ProjectKey) (no_cache : bool)
    (context : Context) : outcome (nat * UpstreamProjectSource * Context) :=
  '(self, context) ←
    (if negb (RetryBackoff.started (backoff self)) then
       schedule_fetch (set_backoff self (RetryBackoff.reset (backoff self))) context
     else Ret (self, context));
  let query_timeout := duration_from_secs (query_timeout_secs (config self)) in
  '(channel, context) ←
    (match state_channels self !! project_key with
     | Some channel => Ret (channel, context)
     | None => channel_new now query_timeout context
     end);
  let channel := if no_cache : bool then ProjectStateChannel.set_no_cache channel else channel in
  Ret (ProjectStateChannel.channel channel, set_channels self (<[project_key := channel]> (state_channels self)), context).

End UpstreamProjectSource.
#[global] Arguments UpstreamProjectSource {_}.
#[global] Arguments MkSource {_}.
End UpstreamProjectSource.
Notation UpstreamProjectSource := UpstreamProjectSource.UpstreamProjectSource.

(** ** The local files *)

Module LocalProjectSource.

Inductive IoError := NotFound | OtherIo (message : string).

(** What a directory entry says of itself, and its contents when they are read. *)
Record DirEntry := MkDirEntry {
  is_file : result IoError bool;
  file_stem : option string;
  extension : option string;
  contents : result IoError string;
}.

Record LocalProjectSource := MkLocalProjectSource { local_states : gmap ProjectKey ProjectState }.

Definition new : LocalProjectSource := MkLocalProjectSource ∅.

(** [Handler<FetchOptionalProjectState>] and [Handler<UpdateLocalStates>]. *)
Definition handle_fetch (self : LocalProjectSource) (key : ProjectKey) : option ProjectState := local_states self !! key.
Definition handle_update (self : LocalProjectSource) (states : gmap ProjectKey ProjectState) : LocalProjectSource :=
  MkLocalProjectSource states.

Definition set_project_id (s : ProjectState) (id : ProjectId) : ProjectState :=
  ProjectState.MkProjectState (Some id) (ProjectState.last_change s) (ProjectState.is_disabled s)
    (ProjectState.public_keys s) (ProjectState.slug s) (ProjectState.config s) (ProjectState.organization_id s)
    (ProjectState.last_fetch s) (ProjectState.is_invalid s).

Section Load.
Context {PJ : SerdeJson ProjectState} (parse_id : string -> option ProjectId).

Definition get_project_id (entry : DirEntry) : option ProjectId := file_stem entry ≫= parse_id.

Definition insert_keys (states : gmap ProjectKey ProjectState) (state : ProjectState) : gmap ProjectKey ProjectState :=
  foldl (fun states key => <[public_key key := state]> states) states (ProjectState.public_keys state).

(** One turn of the loop; the error of the JSON becomes an [io::Error]. *)
Definition load_entry (states : gmap ProjectKey ProjectState) (entry : DirEntry) :
    result IoError (gmap ProjectKey ProjectState) :=
  is_file ← is_file entry;
  if negb is_file then Ok states
  else if negb (bool_decide (extension entry = Some "json")) then Ok states
  else
    contents ← contents entry;
    state ← (match from_slice contents with
             | Ok state => Ok state
             | Err _ => Err (OtherIo "json")
             end);
    let sanitized := ProjectState.sanitize state in
    match ProjectState.project_id sanitized with
    | Some _ => Ok (insert_keys states sanitized)
    | None =>
        match get_project_id entry with
        | Some project_id => Ok (insert_keys states (set_project_id sanitized project_id))
        | None => Ok states
        end
    end.

Fixpoint load_entries (states : gmap ProjectKey ProjectState) (entries : list (result IoError DirEntry)) :
    result IoError (gmap ProjectKey ProjectState) :=
  match entries with
  | [] => Ok states
  | entry :: entries =>
      entry ← entry;
      states ← load_entry states entry;
      load_entries states entries
  end.

Definition load_local_states (directory : result IoError (list (result IoError DirEntry))) :
    result IoError (gmap ProjectKey ProjectState) :=
  match directory with
  | Ok directory => load_entries ∅ directory
  | Err NotFound => Ok ∅
  | Err error => Err error
  end.

(** One turn of [poll_local_states]: the states are replaced, or kept when they cannot be read. *)
Definition poll (self : LocalProjectSource) (directory : result IoError (list (result IoError DirEntry))) :
    LocalProjectSource :=
  match load_local_states directory with
  | Ok states => handle_update self states
  | Err _ => self
  end.

(** Every state that is served belongs to one of its keys, has a project id, and only quotas
    that are valid. *)
Definition served_ok (states : gmap ProjectKey ProjectState) : Prop :=
  forall key state, states !! key = Some state ->
    is_Some (ProjectState.project_id state)
    /\ key ∈ public_key <$> ProjectState.public_keys state
    /\ Forall (fun q => Quota.is_valid q = true) (quotas (ProjectState.config state)).

Lemma sanitized_quotas s : Forall (fun q => Quota.is_valid q = true) (quotas (ProjectState.config (ProjectState.sanitize s))).
Proof. simpl. apply Forall_forall. intros q Hq. apply list_elem_of_In, List.filter_In in Hq. apply Hq. Qed.

Lemma insert_keys_ok states state :
  served_ok states -> is_Some (ProjectState.project_id state) ->
  Forall (fun q => Quota.is_valid q = true) (quotas (ProjectState.config state)) ->
  served_ok (insert_keys states state).
Proof.
  intros Hs Hid Hq. unfold insert_keys.
  assert (H : forall l, l ⊆ ProjectState.public_keys state ->
    forall states, served_ok states -> served_ok (foldl (fun states key => <[public_key key := state]> states) states l));
    [|by apply H].
  induction l as [|k l IH]; intros Hl states' Hs'; simpl; [done|]. apply IH; [set_solver|].
  intros key st [ [ <- <-] | [_ H] ]%lookup_insert_Some; [|by apply Hs'].
  split_and!; [done| |done]. apply list_elem_of_fmap. exists k. set_solver.
Qed.

Lemma load_entry_ok states entry states' :
  served_ok states -> load_entry states entry = Ok states' -> served_ok states'.
Proof.
  intros Hs. unfold load_entry. destruct (is_file entry) as [ [] |]; simpl; [|by intros [= <-]|done].
  case_bool_decide; simpl; [|by intros [= <-] ]. destruct (contents entry) as [text|]; simpl; [|done].
  destruct (from_slice text) as [state|]; simpl; [|done].
  destruct (ProjectState.project_id state) as [id|] eqn:Ei.
  - intros [= <-]. apply insert_keys_ok; [done|simpl; by rewrite Ei|apply sanitized_quotas].
  - destruct (get_project_id entry) as [id|]; intros [= <-]; [|done].
    apply insert_keys_ok; [done|done|apply sanitized_quotas].
Qed.

(** what the local source serves.  Whatever files are in the directory, and whichever of them
    cannot be read: a state that the source hands out after any number of reloads has a project
    id, from its file or its file name, was asked for by one of its own keys, and keeps no quota
    that is invalid. *)
Theorem local_states_served directories key state :
  handle_fetch (foldl poll new directories) key = Some state ->
  is_Some (ProjectState.project_id state)
  /\ key ∈ public_key <$> ProjectState.public_keys state
  /\ Forall (fun q => Quota.is_valid q = true) (quotas (ProjectState.config state)).
Proof.
  assert (H : forall ds self, served_ok (local_states self) -> served_ok (local_states (foldl poll self ds))).
  { induction ds as [|d ds IH]; intros self Hs; simpl; [done|]. apply IH. unfold poll.
    destruct (load_local_states d) as [states|] eqn:E; [|done]. simpl. revert E. unfold load_local_states.
    destruct d as [entries|[] ]; [|by intros [= <-]|done].
    assert (He : forall entries states0, served_ok states0 -> load_entries states0 entries = Ok states -> served_ok states).
    { clear. induction entries as [|e entries IH]; intros states0 H0; simpl; [by intros [= <-]|].
      destruct e as [e|]; simpl; [|done]. destruct (load_entry states0 e) as [states1|] eqn:E; simpl; [|done].
      apply IH. by eapply load_entry_ok. }
    by apply He. }
  apply H. by intros k s.
Qed.

End Load.
End LocalProjectSource.

(** ** Redis *)

Module RedisProjectSource.

Inductive RedisProjectError := Parsing (e : JsonError) | Redis (message : string).

Section Redis.
(** The answer of Redis to a [GET], and the JSON of an optional state. *)
Context (redis_get : string -> result string (option string)) {PJ : SerdeJson (option ProjectState)}.

Definition get_config (projectconfig_cache_prefix : string) (key : ProjectKey) :
    result RedisProjectError (option ProjectState) :=
  match redis_get (projectconfig_cache_prefix +:+ ":" +:+ ProjectKey.as_str key) with
  | Err message => Err (Redis message)
  | Ok None => Ok None
  | Ok (Some raw_response) =>
      match from_slice raw_response with
      | Ok state => Ok state
      | Err e => Err (Parsing e)
      end
  end.

(** [Handler<FetchOptionalProjectState>]: errors are logged. *)
Definition handle_fetch (projectconfig_cache_prefix : string) (key : ProjectKey) : option ProjectState :=
  match get_config projectconfig_cache_prefix key with
  | Ok x => ProjectState.sanitize <$> x
  | Err _ => None
  end.

End Redis.
End RedisProjectSource.

(** ** The upstream source among its requests *)

Module SourceWorld.
Import UpstreamProjectSource.

Notation Channels := (gmap ProjectKey ProjectStateChannel) (only parsing).

Section World.
Context {BO : Backoff} (hash_keys : Channels -> list ProjectKey).

(** A request waits for the channel of its key. *)
Record World := MkWorld { source : UpstreamProjectSource; context : Context; requests : list (ProjectKey * nat) }.

Definition start (config : SourceConfig) : World := MkWorld (new config) (MkContext [] 0 ∅) [].

Inductive Event :=
| Fetch (now : Instant) (project_key : ProjectKey) (no_cache : bool)
(** the [n]-th task is a delay that has passed *)
| Elapsed (n : nat) (now : Instant)
(** the [n]-th task are queries that are all answered, or have failed *)
| Answered (n : nat) (now : Instant) (answers : nat -> option (gmap ProjectKey (ErrorBoundary (option ProjectState))))
(** the [n]-th task are queries one of which could not be delivered *)
| Undelivered (n : nat).

Definition remove_task (n : nat) (context : Context) : Context :=
  MkContext (delete n (tasks context)) (next_channel context) (sent context).

Definition exec (w : World) (e : Event) : outcome World :=
  match e with
  | Fetch now project_key no_cache =>
      '(channel, self, ctx) ← handle_fetch (source w) now project_key no_cache (context w);
      Ret (MkWorld self ctx (requests w ++ [(project_key, channel)]))
  | Elapsed n now =>
      match tasks (context w) !! n with
      | Some (RunLater _) =>
          '(self, ctx) ← fetch_states hash_keys (source w) now (remove_task n (context w));
          Ret (MkWorld self ctx (requests w))
      | _ => Ret w
      end
  | Answered n now answers =>
      match tasks (context w) !! n with
      | Some (AwaitQueries queries) =>
          '(self, ctx) ← on_responses (source w) (remove_task n (context w)) now
                           (imap (fun i query => (snd query, answers i)) queries);
          Ret (MkWorld self ctx (requests w))
      | _ => Ret w
      end
  | Undelivered n =>
      match tasks (context w) !! n with
      | Some (AwaitQueries _) => Ret (MkWorld (source w) (remove_task n (context w)) (requests w))
      | _ => Ret w
      end
  end.

Fixpoint run (w : World) (es : list Event) : outcome World :=
  match es with
  | [] => Ret w
  | e :: es => w ← exec w e; run w es
  end.

(** The channels of the running queries. *)
Definition queried (w : World) : list (ProjectKey * ProjectStateChannel) :=
  match tasks (context w) with
  | AwaitQueries queries :: _ => concat queries.*2
  | _ => []
  end.

End World.

(** *** Batches *)

Lemma chunks_concat size fuel l : (0 < size)%nat -> (length l <= fuel)%nat -> concat (chunks size fuel l) = l.
Proof.
  intros Hs. revert l. induction fuel as [|fuel IH]; intros l Hl; destruct l as [|x l]; simpl in *; try done; [lia|].
  rewrite IH; [apply take_drop|]. rewrite length_drop. simpl. lia.
Qed.

Lemma chunks_sizes size fuel l : (0 < size)%nat -> Forall (fun b => (0 < length b <= size)%nat) (chunks size fuel l).
Proof.
  intros Hs. revert l. induction fuel as [|fuel IH]; intros l; destruct l as [|x l]; simpl; try done.
  constructor; [|apply IH]. rewrite length_take. simpl. lia.
Qed.

Lemma chunks_count size fuel l k : (0 < size)%nat -> (length l <= size * k)%nat -> (length (chunks size fuel l) <= k)%nat.
Proof.
  intros Hs. revert l k. induction fuel as [|fuel IH]; intros l k Hl; destruct l as [|x l]; simpl; try lia.
  destruct k as [|k]; simpl in *; [lia|]. apply le_n_S, IH. rewrite length_drop. simpl. lia.
Qed.

(** Popping keys: what is popped is in the map, and what is left is the rest. *)
Lemma pop_channels_ok ks : forall m, NoDup ks ->
  let '(popped, rest) := pop_channels m ks in
  (forall k c, (k, c) ∈ popped <-> k ∈ ks /\ m !! k = Some c)
  /\ (forall k c, rest !! k = Some c <-> k ∉ ks /\ m !! k = Some c)
  /\ NoDup popped.*1 /\ (length popped <= length ks)%nat.
Proof.
  induction ks as [|k0 ks IH]; intros m Hnd; simpl; [split_and!; [set_solver..|constructor|done]|].
  apply NoDup_cons in Hnd as [Hk0 Hnd]. specialize (IH (delete k0 m) Hnd).
  destruct (pop_channels (delete k0 m) ks) as [popped rest]. destruct IH as (Hp & Hr & Hn & Hlen).
  assert (Hr' : forall k c, rest !! k = Some c <-> k ∉ k0 :: ks /\ m !! k = Some c).
  { intros k c. rewrite Hr, lookup_delete_Some. set_solver. }
  assert (Hk : forall c, (k0, c) ∉ popped) by (intros c [H _]%Hp; done).
  destruct (m !! k0) as [c0|] eqn:E; (split_and!; [|done| |simpl; lia]).
  - intros k c. rewrite elem_of_cons, Hp, lookup_delete_Some, elem_of_cons. split.
    + intros [ [= -> ->] | (H1 & H2 & H3)]; [split; [by left|done]|split; [by right|done] ].
    + intros [ [ -> |H1] H2]; [left; congruence|right]. split_and!; [done|by intros ->|done].
  - simpl. constructor; [|done]. intros ([k c] & Heq & H)%list_elem_of_fmap. simpl in Heq. subst. by apply (Hk c).
  - intros k c. rewrite Hp, lookup_delete_Some, elem_of_cons. split; [naive_solver|].
    intros [ [ -> |H1] H2]; [congruence|]. split_and!; [done|by intros ->|done].
  - done.
Qed.

(** The settings with which the source works at all. *)
Definition config_ok (config : SourceConfig) : Prop :=
  0 < batch_size config /\ 0 < max_concurrent_queries config /\ batch_size config * max_concurrent_queries config <= u64_max.

(** The size of the batches is always the configured one: the remainder is that of a multiple. *)
Lemma batch_size_is_configured config :
  config_ok config ->
  actual_batch_size (u64_mul (batch_size config) (max_concurrent_queries config)) (max_concurrent_queries config)
  = Ret (batch_size config).
Proof.
  intros (H1 & H2 & H3). rewrite u64_mul_small by (unfold in_width, u64_max in *; nia).
  unfold actual_batch_size, checked_rem, checked_div. rewrite !bool_decide_false by lia.
  cbn [mbind outcome_bind]. rewrite Z.mod_mul by lia. rewrite u64_add_small by (unfold in_width, u64_max in *; nia).
  rewrite Z.add_0_r, Z.div_mul by lia. done.
Qed.

Section Proofs.
Context {BO : Backoff} {BL : BackoffLaws} (hash_keys : Channels -> list ProjectKey).
Hypothesis hash_keys_perm : forall m, hash_keys m ≡ₚ (map_to_list m).*1.

(** What a fetch does with the channels: it takes some of them, leaves the rest, and drops the
    expired ones among those it takes. *)
Record fetched (now : Instant) (config : SourceConfig) (m rest : Channels)
    (queries : list (GetProjectStates * list (ProjectKey * ProjectStateChannel))) : Prop := MkFetched {
  f_sizes : Forall (fun q => 0 < Z.of_nat (length (snd q)) <= batch_size config) queries;
  f_count : Z.of_nat (length queries) <= max_concurrent_queries config;
  f_queries : Forall (fun q => fst q = MkGetProjectStates (snd q).*1 (src_processing config)
                                 (existsb (fun e => ProjectStateChannel.no_cache (snd e)) (snd q))) queries;
  f_nodup : NoDup (concat queries.*2).*1;
  f_taken : forall k c, (k, c) ∈ concat queries.*2 ->
    m !! k = Some c /\ rest !! k = None /\ ProjectStateChannel.expired now c = false;
  f_rest : forall k c, rest !! k = Some c -> m !! k = Some c;
  f_all : forall k c, m !! k = Some c ->
    rest !! k = Some c \/ (k, c) ∈ concat queries.*2 \/ ProjectStateChannel.expired now c = true;
  f_less : (size rest < size m)%nat;
}.

Lemma hash_keys_NoDup m : NoDup (hash_keys m).
Proof. rewrite hash_keys_perm. apply NoDup_fst_map_to_list. Qed.

(** A key is popped when there is one. *)
Lemma rest_smaller (m rest : Channels) (ks : list ProjectKey) k :
  (forall k c, rest !! k = Some c <-> k ∉ ks /\ m !! k = Some c) -> k ∈ ks -> is_Some (m !! k) -> (size rest < size m)%nat.
Proof.
  intros Hr Hk [c Hc]. apply map_subset_size. apply map_subset_alt. split.
  - apply map_subseteq_spec. intros i x H%Hr. apply H.
  - exists k. split; [|by exists c]. destruct (rest !! k) as [c'|] eqn:E; [|done]. apply Hr in E. naive_solver.
Qed.

(** The first key of the map is among those that are taken. *)
Lemma first_key {self} :
  config_ok (config self) -> state_channels self <> ∅ ->
  exists k, k ∈ take (Z.to_nat (u64_mul (batch_size (config self)) (max_concurrent_queries (config self))))
                  (hash_keys (state_channels self)) /\ is_Some (state_channels self !! k).
Proof.
  intros (H1 & H2 & H3) Hne. rewrite u64_mul_small by (unfold in_width, u64_max in *; nia).
  destruct (hash_keys (state_channels self)) as [|k ks] eqn:E.
  - exfalso. apply Hne, map_to_list_empty_iff. pose proof (hash_keys_perm (state_channels self)) as Hp.
    rewrite E in Hp. apply Permutation_nil_l in Hp. destruct (map_to_list (state_channels self)) eqn:Em; [done|by simpl in Hp].
  - exists k. split.
    + destruct (Z.to_nat (batch_size (config self) * max_concurrent_queries (config self))) eqn:En; [nia|].
      simpl. apply list_elem_of_here.
    + assert (Hk : k ∈ (map_to_list (state_channels self)).*1) by (rewrite <- hash_keys_perm, E; apply list_elem_of_here).
      apply list_elem_of_fmap in Hk as ([k' c] & -> & H%elem_of_map_to_list). by exists c.
Qed.

Lemma filter_sublist_of {A} (p : A -> bool) l : List.filter p l `sublist_of` l.
Proof. induction l as [|x l IH]; simpl; [done|]. destruct (p x); by constructor. Qed.

Lemma fetch_states_ok self now ctx :
  config_ok (config self) -> state_channels self <> ∅ ->
  exists queries rest,
    fetch_states hash_keys self now ctx = Ret (set_channels self rest, spawn (AwaitQueries queries) ctx)
    /\ fetched now (config self) (state_channels self) rest queries.
Proof.
  intros Hcfg Hne. pose proof Hcfg as (Hbs & Hnb & Hmul). unfold fetch_states.
  destruct (is_empty (state_channels self)) eqn:E; [by apply is_empty_true in E|]. clear E.
  set (ks := take _ (hash_keys (state_channels self))).
  assert (Hnd : NoDup ks) by (eapply sublist_NoDup; [apply hash_keys_NoDup|apply sublist_take]).
  pose proof (pop_channels_ok ks (state_channels self) Hnd) as Hpop.
  destruct (pop_channels (state_channels self) ks) as [popped rest]. destruct Hpop as (Hp & Hr & Hn & Hlen).
  rewrite batch_size_is_configured by done. cbn [mbind outcome_bind]. rewrite bool_decide_false by lia.
  set (l := merge_sort _ _).
  assert (Hl : l ≡ₚ List.filter (fun e => negb (ProjectStateChannel.expired now e.2)) popped) by apply merge_sort_Permutation.
  eexists _, rest. split; [reflexivity|].
  assert (Hin : forall k c, (k, c) ∈ l <-> (k, c) ∈ popped /\ ProjectStateChannel.expired now c = false).
  { intros k c. rewrite Hl, !list_elem_of_In, List.filter_In. simpl. by rewrite negb_true_iff. }
  assert (Hpopped : (length l <= Z.to_nat (batch_size (config self)) * Z.to_nat (max_concurrent_queries (config self)))%nat).
  { rewrite Hl. etrans; [apply filter_length_le|]. etrans; [exact Hlen|]. subst ks. rewrite length_take.
    rewrite u64_mul_small by (unfold in_width, u64_max in *; nia). rewrite Z2Nat.inj_mul by lia. lia. }
  pose proof (chunks_sizes (Z.to_nat (batch_size (config self))) (length l) l ltac:(lia)) as Hsz.
  pose proof (chunks_count (Z.to_nat (batch_size (config self))) (length l) l _ ltac:(lia) Hpopped) as Hcnt.
  pose proof (chunks_concat (Z.to_nat (batch_size (config self))) (length l) l ltac:(lia) ltac:(lia)) as Hcat.
  set (cs := chunks (Z.to_nat (batch_size (config self))) (length l) l) in *.
  assert (Hcat' : concat ((fun batch => (query_of (set_channels self rest) batch, batch)) <$> cs).*2 = l).
  { rewrite <- list_fmap_compose. etrans; [|exact Hcat]. f_equal. apply list_fmap_id. }
  split; rewrite ?Hcat'.
  - apply Forall_fmap. eapply Forall_impl; [exact Hsz|]. simpl. intros b Hb. lia.
  - rewrite length_fmap. lia.
  - apply Forall_fmap, Forall_true. done.
  - rewrite Hl. eapply sublist_NoDup; [exact Hn|]. apply fmap_sublist, filter_sublist_of.
  - intros k c [Hpo He]%Hin. apply Hp in Hpo as [Hk Hm]. split_and!; [done| |done].
    destruct (rest !! k) eqn:E; [|done]. apply Hr in E. naive_solver.
  - intros k c [_ H]%Hr. done.
  - intros k c Hm. destruct (decide (k ∈ ks)) as [Hk|Hk]; [right|left; by apply Hr].
    destruct (ProjectStateChannel.expired now c) eqn:E; [by right|left]. apply Hin. split; [|done]. by apply Hp.
  - destruct (first_key Hcfg Hne) as (k & Hk & Hm).
    eapply rest_smaller; [exact Hr|exact Hk|exact Hm].
Qed.

(** *** Answers *)

Notation chan := ProjectStateChannel.channel.
Notation Answers := (list (list (ProjectKey * ProjectStateChannel) * option (gmap ProjectKey (ErrorBoundary (option ProjectState))))) (only parsing).

Definition failed (rs : Answers) : list (ProjectKey * ProjectStateChannel) :=
  concat (omap (fun a => match snd a with None => Some (fst a) | Some _ => None end) rs).
Definition served (rs : Answers) : list (ProjectKey * ProjectStateChannel) :=
  concat (omap (fun a => match snd a with None => None | Some _ => Some (fst a) end) rs).

(** The keys and the channels of a list of entries are distinct. *)
Definition distinct (l : list (ProjectKey * ProjectStateChannel)) : Prop :=
  NoDup l.*1 /\ NoDup ((fun e => chan (snd e)) <$> l).

Lemma distinct_app l l' : distinct (l ++ l') ->
  distinct l /\ distinct l' /\ forall k c k' c', (k, c) ∈ l -> (k', c') ∈ l' -> k <> k' /\ chan c <> chan c'.
Proof.
  unfold distinct. rewrite !fmap_app, !NoDup_app. intros [ (H1 & H2 & H3) (H4 & H5 & H6)]. split_and!; try done.
  intros k c k' c' Hl Hl'. split; intros Heq.
  - apply (H2 k); [apply list_elem_of_fmap; by exists (k, c)|]. rewrite Heq. apply list_elem_of_fmap. by exists (k', c').
  - apply (H5 (chan c)); [apply list_elem_of_fmap; by exists (k, c)|]. rewrite Heq. apply list_elem_of_fmap. by exists (k', c').
Qed.

(** The answer to one query is handed out. *)
Lemma source_receive_all now l : forall r ctx, distinct l ->
  let ctx' := snd (foldl (receive_one now) (r, ctx) l) in
  tasks ctx' = tasks ctx /\ next_channel ctx' = next_channel ctx
  /\ (forall k c, (k, c) ∈ l -> sent ctx' !! chan c = Some (state_of now r k))
  /\ (forall ch, (forall k c, (k, c) ∈ l -> chan c <> ch) -> sent ctx' !! ch = sent ctx !! ch).
Proof.
  induction l as [|[k c] l IH]; intros r ctx Hd; simpl; [split_and!; [done..|by intros k c H%elem_of_nil|done]|].
  destruct (distinct_app [(k, c)] l Hd) as (_ & Hd' & Hne).
  destruct (IH (delete k r) (channel_send ctx c (state_of now r k)) Hd') as (H1 & H2 & H3 & H4).
  split_and!; [done|done| |].
  - intros k' c' [ [= -> ->] | H]%elem_of_cons.
    + rewrite H4; [simpl; by rewrite lookup_insert_eq|]. intros k' c' H. apply not_eq_sym, (Hne k c k' c'); [by apply list_elem_of_singleton|done].
    + rewrite (H3 k' c' H). unfold state_of. rewrite lookup_delete_ne; [done|].
      apply (Hne k c k' c'); [by apply list_elem_of_singleton|done].
  - intros ch Hch. rewrite H4; [|intros k' c' H; apply (Hch k' c'); by apply list_elem_of_further].
    simpl. rewrite lookup_insert_ne; [done|]. apply (Hch k c), list_elem_of_here.
Qed.

Lemma elem_of_list_to_map_union (l : list (ProjectKey * ProjectStateChannel)) (m : Channels) k c :
  NoDup l.*1 ->
  (list_to_map l ∪ m) !! k = Some c <-> (k, c) ∈ l \/ ((forall c', (k, c') ∉ l) /\ m !! k = Some c).
Proof.
  intros Hn. rewrite lookup_union_Some_raw. rewrite <- elem_of_list_to_map by done.
  split; intros [H|[H1 H2] ]; [by left|right|by left|right]; (split; [|done]).
  - intros c' Hc'%elem_of_list_to_map_1; [congruence|done].
  - apply not_elem_of_list_to_map. intros ([k' c'] & -> & H)%list_elem_of_fmap. by apply (H1 c').
Qed.

Record received (now : Instant) (rs : Answers) (self : UpstreamProjectSource) (ctx : Context)
    (self' : UpstreamProjectSource) (ctx' : Context) : Prop := MkReceived {
  r_config : config self' = config self;
  r_tasks : tasks ctx' = tasks ctx;
  r_next : next_channel ctx' = next_channel ctx;
  r_attempt : 0 <= RetryBackoff.attempt (backoff self) ->
    0 <= RetryBackoff.attempt (backoff self') <= RetryBackoff.attempt (backoff self);
  r_channels : forall k c, state_channels self' !! k = Some c -> state_channels self !! k = Some c \/ (k, c) ∈ failed rs;
  r_failed : forall k c, (k, c) ∈ failed rs -> state_channels self' !! k = Some c;
  r_kept : forall k c, state_channels self !! k = Some c -> (forall c', (k, c') ∉ failed rs) -> state_channels self' !! k = Some c;
  r_served : forall b r k c, (b, Some r) ∈ rs -> (k, c) ∈ b -> sent ctx' !! chan c = Some (state_of now r k);
  r_others : forall ch, (forall k c, (k, c) ∈ served rs -> chan c <> ch) -> sent ctx' !! ch = sent ctx !! ch;
}.

Lemma failed_cons b a rs : failed ((b, a) :: rs) = (match a with None => b | Some _ => [] end) ++ failed rs.
Proof. unfold failed. simpl. by destruct a. Qed.
Lemma served_cons b a rs : served ((b, a) :: rs) = (match a with None => [] | Some _ => b end) ++ served rs.
Proof. unfold served. simpl. by destruct a. Qed.

Lemma failed_in rs e : e ∈ failed rs -> e ∈ concat rs.*1.
Proof.
  induction rs as [|[b a] rs IH]; [done|]. rewrite failed_cons. simpl. rewrite !elem_of_app. destruct a; [|naive_solver].
  intros [H%elem_of_nil|H]; [done|]. right. by apply IH.
Qed.

Lemma served_in rs e : e ∈ served rs -> e ∈ concat rs.*1.
Proof.
  induction rs as [|[b a] rs IH]; [done|]. rewrite served_cons. simpl. rewrite !elem_of_app. destruct a; [naive_solver|].
  intros [H%elem_of_nil|H]; [done|]. right. by apply IH.
Qed.

Lemma failed_nodup rs : NoDup (concat rs.*1).*1 -> NoDup (failed rs).*1.
Proof.
  induction rs as [|[b a] rs IH]; [done|]. rewrite failed_cons. simpl. rewrite !fmap_app, !NoDup_app.
  intros (H1 & H2 & H3). destruct a; split_and!; simpl; try done; [constructor|by intros x H%elem_of_nil|by apply IH| |by apply IH].
  intros x Hx (e & -> & He%failed_in)%list_elem_of_fmap. apply (H2 (fst e) Hx). apply list_elem_of_fmap. by exists e.
Qed.

(** The answers are handed out batch by batch: the order does not matter. *)
Lemma receive_batches now rs : forall self ctx, distinct (concat rs.*1) ->
  exists self' ctx', foldl (receive_batch now) (self, ctx) rs = (self', ctx') /\ received now rs self ctx self' ctx'.
Proof.
  induction rs as [|[b a] rs IH]; intros self ctx Hd.
  { exists self, ctx. split; [done|]. split; try done; [by left|by intros k c H%elem_of_nil|by intros b r k c H%elem_of_nil]. }
  destruct (distinct_app _ _ Hd) as (Hb & Hrs & Hne). simpl.
  destruct a as [r|]; simpl.
  - destruct (source_receive_all now b r ctx Hb) as (Ht & Hn & Hs & Ho).
    match goal with |- context [foldl _ (?s1, ?c1) rs] => destruct (IH s1 c1 Hrs) as (self' & ctx' & Hf & R) end.
    exists self', ctx'. split; [done|]. destruct R as [R1 R2 R3 R4 R5 R6 R7 R8 R9].
    split; rewrite ?failed_cons, ?served_cons; simpl in *; try done; [congruence|congruence|lia| |].
    + intros b' r' k c [ [= -> ->] | H]%elem_of_cons Hkc; [|by eapply R8].
      rewrite R9; [by apply Hs|]. intros k' c' H%served_in. apply not_eq_sym. by eapply Hne.
    + intros ch Hch. rewrite R9; [apply Ho; intros k c H; apply (Hch k c); set_solver|]. intros k c H. apply (Hch k c). set_solver.
  - match goal with |- context [foldl _ (?s1, ?c1) rs] => destruct (IH s1 c1 Hrs) as (self' & ctx' & Hf & R) end.
    exists self', ctx'. split; [done|]. destruct R as [R1 R2 R3 R4 R5 R6 R7 R8 R9]. destruct Hb as [Hb _].
    split; rewrite ?failed_cons, ?served_cons; simpl in *; try done.
    + intros k c [H|H]%R5; [|right; set_solver]. apply elem_of_list_to_map_union in H; [|done].
      destruct H as [H|[_ H] ]; [right; set_solver|by left].
    + intros k c [H|H]%elem_of_app; [|by apply R6]. apply R7; [by apply elem_of_list_to_map_union; [|left]|].
      intros c' H'%failed_in. destruct (Hne k c k c' H H') as [Hk _]. done.
    + intros k c Hk Hc. apply R7; [|set_solver]. apply elem_of_list_to_map_union; [done|right]. split; [set_solver|done].
    + intros b' r' k c [ [=] | H]%elem_of_cons Hkc. by eapply R8.
Qed.

(** *** The invariant *)

Notation ids m := (chan <$> (m : Channels)) (only parsing).

(** At most one fetch is scheduled or running, and the backoff counts exactly then. *)
Definition shape (w : World) : Prop :=
  let attempt := RetryBackoff.attempt (backoff (source w)) in
  match tasks (context w) with
  | [] => attempt = 0 /\ state_channels (source w) = ∅
  | [RunLater _] => 0 < attempt /\ state_channels (source w) <> ∅
  | [AwaitQueries _] => 0 < attempt
  | _ => False
  end.

Record inv (config : SourceConfig) (bound : Z) (w : World) : Prop := MkInv {
  i_config : UpstreamProjectSource.config (source w) = config;
  i_shape : shape w;
  i_attempt : RetryBackoff.attempt (backoff (source w)) <= bound;
  i_distinct : distinct (queried w);
  i_chans : chans (ids (state_channels (source w))) (ids (list_to_map (queried w)))
              (next_channel (context w)) (sent (context w));
}.

Lemma source_inv_start config : inv config 0 (start config).
Proof.
  split; [done|done|done|split; constructor|]. unfold queried. simpl. rewrite fmap_empty. apply chans_empty.
Qed.

Lemma source_schedule_fetch_Ret self ctx :
  0 <= RetryBackoff.attempt (backoff self) < u64_max ->
  exists d b, schedule_fetch self ctx = Ret (set_backoff self b, spawn (RunLater d) ctx)
    /\ RetryBackoff.attempt b = RetryBackoff.attempt (backoff self) + 1.
Proof.
  intros Ha. unfold schedule_fetch, next_backoff.
  destruct (next_backoff_Ret (backoff self) Ha) as (d & b & -> & Hb). simpl. by eexists _, _.
Qed.

(** The deadline of a channel that is created now exists. *)
Definition clock_fits (config : SourceConfig) (now : Instant) : Prop :=
  (now + duration_from_secs (query_timeout_secs config)) / nanos_per_sec <= i64_max.

Lemma ids_insert_same (m : Channels) k c c' : m !! k = Some c -> chan c' = chan c -> ids (<[k := c']> m) = ids m.
Proof. intros Hm Hc. rewrite fmap_insert, Hc. apply insert_id. by rewrite lookup_fmap, Hm. Qed.

(** The channel a request waits for, once a fetch is scheduled or running. *)
Lemma enter_ok config b self ctx rs now key nc :
  let w := MkWorld self ctx rs in
  UpstreamProjectSource.config self = config -> clock_fits config now ->
  0 < RetryBackoff.attempt (backoff self) <= b ->
  match tasks ctx with [_] => True | _ => False end ->
  distinct (queried w) ->
  chans (ids (state_channels self)) (ids (list_to_map (queried w))) (next_channel ctx) (sent ctx) ->
  exists channel ctx',
    (match state_channels self !! key with
     | Some channel => Ret (channel, ctx)
     | None => channel_new now (duration_from_secs (query_timeout_secs config)) ctx
     end) = Ret (channel, ctx')
    /\ inv config b (MkWorld (set_channels self (<[key := if nc : bool then ProjectStateChannel.set_no_cache channel else channel]>
                                              (state_channels self))) ctx' rs)
    /\ tasks ctx' = tasks ctx /\ sent ctx' = sent ctx.
Proof.
  intros w Hcfg Hclock Ha Ht Hd Hc.
  assert (Hshape : forall m ctx', m <> ∅ -> tasks ctx' = tasks ctx -> shape (MkWorld (set_channels self m) ctx' rs)).
  { intros m ctx' Hm Ht'. unfold shape. simpl. rewrite Ht'. destruct (tasks ctx) as [|[d|qs] [|t ts] ]; try done.
    - split; [lia|done].
    - lia. }
  destruct (state_channels self !! key) as [channel|] eqn:E.
  - exists channel, ctx. split_and!; try done. split; simpl; [done|by apply Hshape; [apply insert_non_empty|]|lia|done|].
    erewrite ids_insert_same; [exact Hc|exact E|by destruct nc].
  - unfold channel_new, instant_add, instant_checked_add. unfold clock_fits in Hclock. rewrite bool_decide_true by done.
    simpl. eexists _, _. split_and!; [reflexivity| |done|done].
    split; simpl; [done|by apply Hshape; [apply insert_non_empty|]|lia|done|].
    rewrite fmap_insert. assert (chan (if nc then ProjectStateChannel.set_no_cache _ else _) = next_channel ctx) as -> by by destruct nc.
    apply chans_insert; [done|]. by rewrite lookup_fmap, E.
Qed.

Lemma fetch_ok config b w now key nc :
  inv config b w -> 0 <= b -> clock_fits config now ->
  exists w', exec hash_keys w (Fetch now key nc) = Ret w' /\ inv config (Z.max b 1) w' /\ queried w' = queried w.
Proof.
  destruct w as [self ctx rs]. intros [Hcfg Hs Ha Hd Hc] Hb Hclock. simpl in *. unfold handle_fetch, RetryBackoff.started.
  unfold shape in Hs. simpl in Hs. bcase (0 < RetryBackoff.attempt (backoff self)) as Hp; cbn [negb].
  - cbn [mbind outcome_bind].
    destruct (enter_ok config (Z.max b 1) self ctx rs now key nc) as (channel & ctx' & Hch & Hi & Ht & _); try done.
    { lia. }
    { destruct (tasks ctx) as [|[d|qs] [|t ts] ]; naive_solver lia. }
    rewrite Hcfg, Hch. cbn [mbind outcome_bind]. eexists. split; [reflexivity|].
    split; [|unfold queried; simpl; by rewrite Ht]. destruct Hi. by split.
  - destruct (tasks ctx) as [|[d|qs] [|t ts] ] eqn:Et; try naive_solver lia.
    destruct (source_schedule_fetch_Ret (set_backoff self (RetryBackoff.reset (backoff self))) ctx) as (d & bo & -> & Hbo);
      [simpl; unfold u64_max; lia|]. cbn [mbind outcome_bind]. simpl in Hbo.
    destruct (enter_ok config (Z.max b 1) (set_backoff (set_backoff self (RetryBackoff.reset (backoff self))) bo)
      (spawn (RunLater d) ctx) rs now key nc) as (channel & ctx' & Hch & Hi & Ht & _); try done.
    { simpl. lia. }
    { simpl. by rewrite Et. }
    { revert Hd. unfold queried. simpl. by rewrite Et. }
    { revert Hc. unfold queried. simpl. by rewrite Et. }
    simpl in *. rewrite Hcfg, Hch. cbn [mbind outcome_bind]. eexists. split; [reflexivity|].
    split; [|unfold queried; simpl; rewrite Ht, Et; done]. destruct Hi. by split.
Qed.

Lemma source_shape_task w n t : shape w -> tasks (context w) !! n = Some t -> n = 0%nat /\ tasks (context w) = [t].
Proof.
  unfold shape. destruct (tasks (context w)) as [|t' [|t'' ts] ].
  - by rewrite lookup_nil.
  - destruct n as [|n]; [by intros _ [= ->]|]. done.
  - by destruct t'.
Qed.

Lemma ids_lookup (m : Channels) k ch : ids m !! k = Some ch <-> exists c, m !! k = Some c /\ chan c = ch.
Proof. rewrite lookup_fmap, fmap_Some. naive_solver. Qed.

Lemma ids_list_lookup l k ch : NoDup l.*1 -> ids (list_to_map l) !! k = Some ch <-> exists c, (k, c) ∈ l /\ chan c = ch.
Proof. intros Hn. rewrite ids_lookup. by setoid_rewrite <- (elem_of_list_to_map (M := gmap ProjectKey) l k _ Hn). Qed.

(** Entries of the map whose channels are distinct by the invariant. *)
Lemma chans_distinct (m : Channels) q next (sent : gmap nat ProjectState) l :
  chans (ids m) q next sent -> NoDup l.*1 -> (forall k c, (k, c) ∈ l -> m !! k = Some c) -> distinct l.
Proof.
  intros Hc Hn Hin. split; [done|]. apply NoDup_fmap_2_strong; [|by eapply NoDup_fmap_1].
  intros [k c] [k' c'] H1%Hin H2%Hin Heq. simpl in Heq.
  assert (k = k') as <- by (apply (c_inj _ _ _ _ Hc k k' (chan c)); left; apply ids_lookup; eauto). congruence.
Qed.

Lemma source_elapsed_ok config b w d now :
  inv config b w -> config_ok config -> tasks (context w) = [RunLater d] ->
  exists w' queries, exec hash_keys w (Elapsed 0 now) = Ret w' /\ inv config b w'
    /\ tasks (context w') = [AwaitQueries queries] /\ sent (context w') = sent (context w) /\ requests w' = requests w
    /\ fetched now config (state_channels (source w)) (state_channels (source w')) queries.
Proof.
  destruct w as [self ctx rs]. intros [Hcfg Hs Ha Hd Hc] Hok Et. unfold shape in Hs. unfold queried in Hc. simpl in *.
  rewrite Et in Hs, Hc. destruct Hs as [Hpos Hne]. simpl in Hc. rewrite fmap_empty in Hc. rewrite Et. simpl.
  destruct (fetch_states_ok self now (remove_task 0 ctx)) as (queries & rest & -> & F); [by rewrite Hcfg|done|].
  cbn [mbind outcome_bind]. rewrite Hcfg in F. eexists _, queries. split; [reflexivity|].
  assert (Hdis : distinct (concat queries.*2)).
  { eapply chans_distinct; [exact Hc|apply F|]. intros k c H%(f_taken _ _ _ _ _ F). apply H. }
  split_and!; [|unfold spawn, remove_task; simpl; by rewrite Et|done|done|done].
  split; simpl; [done| |done| |]; unfold shape, queried; simpl; rewrite Et; simpl; [done|done|].
  eapply chans_sub; [exact Hc| |].
  - intros k ch [(c & H & <-)%ids_lookup|(c & H & <-)%ids_list_lookup]; [| |apply Hdis]; left; apply ids_lookup; exists c.
    + split; [by apply (f_rest _ _ _ _ _ F)|done].
    + split; [by apply (f_taken _ _ _ _ _ F)|done].
  - intros k ch (c & H & <-)%ids_lookup (c' & H' & Heq)%ids_list_lookup; [|apply Hdis].
    destruct (f_taken _ _ _ _ _ F k c' H') as (_ & Hr & _). congruence.
Qed.

Lemma imap_fst {A B C} (f : nat -> C) (l : list (A * B)) : (imap (fun i q => (snd q, f i)) l).*1 = l.*2.
Proof.
  revert f. induction l as [|x l IH]; intros f; simpl; [done|]. f_equal. exact (IH (f ∘ S)).
Qed.

(** Failed and served channels of distinct answers do not mix. *)
Lemma failed_served rs k c c' : NoDup (concat rs.*1).*1 -> (k, c) ∈ failed rs -> (k, c') ∈ served rs -> False.
Proof.
  induction rs as [|[b a] rs IH]; [by intros _ H%elem_of_nil|]. simpl. rewrite fmap_app, NoDup_app, failed_cons, served_cons.
  intros (H1 & H2 & H3). destruct a; simpl.
  - intros Hf [Hs|Hs]%elem_of_app; [|by apply IH]. apply (H2 k); apply list_elem_of_fmap; [by exists (k, c')|exists (k, c)].
    split; [done|by apply failed_in].
  - intros [Hf|Hf]%elem_of_app Hs; [|by apply IH]. apply (H2 k); apply list_elem_of_fmap; [by exists (k, c)|exists (k, c')].
    split; [done|by apply served_in].
Qed.

(** The channels once the answers are handed out. *)
Lemma chans_received now rs self ctx self' ctx' :
  received now rs self ctx self' ctx' -> distinct (concat rs.*1) ->
  chans (ids (state_channels self)) (ids (list_to_map (concat rs.*1))) (next_channel ctx) (sent ctx) ->
  chans (ids (state_channels self')) ∅ (next_channel ctx') (sent ctx').
Proof.
  intros R Hd Hc. rewrite (r_next _ _ _ _ _ _ R).
  assert (Hserved : NoDup (served rs).*1).
  { clear R Hc. destruct Hd as [Hd _]. induction rs as [|[b a] rs IH]; [constructor|]. rewrite served_cons. simpl in Hd.
    rewrite fmap_app, NoDup_app in Hd. destruct Hd as (H1 & H2 & H3). destruct a; [|by apply IH].
    rewrite fmap_app, NoDup_app. split_and!; [done| |by apply IH]. intros k Hk (e & -> & He%served_in)%list_elem_of_fmap.
    apply (H2 (fst e) Hk). apply list_elem_of_fmap. by exists e. }
  eapply (chans_served _ (ids (list_to_map (served rs)))); [eapply chans_sub; [exact Hc| |]|].
  - intros k ch [(c & H & <-)%ids_lookup|(c & H & <-)%ids_list_lookup]; [| |done].
    + apply (r_channels _ _ _ _ _ _ R) in H as [H|H]; [left; apply ids_lookup; eauto|right].
      apply ids_list_lookup; [apply Hd|]. exists c. split; [by apply failed_in|done].
    + right. apply ids_list_lookup; [apply Hd|]. exists c. split; [by apply served_in|done].
  - intros k ch (c & H & <-)%ids_lookup (c' & H' & Heq)%ids_list_lookup; [|done].
    apply (r_channels _ _ _ _ _ _ R) in H as [H|H]; [|by apply (failed_served rs k c c' (proj1 Hd))].
    apply (c_disj _ _ _ _ Hc k (chan c)); [apply ids_lookup; eauto|]. apply ids_list_lookup; [apply Hd|].
    exists c'. split; [by apply served_in|done].
  - intros ch Hch. destruct (decide (Exists (fun e => chan (snd e) = ch) (served rs))) as [He|Hno].
    + apply Exists_exists in He as ([k c] & H & Heq). right. exists k. apply ids_list_lookup; [done|eauto].
    + left. rewrite (r_others _ _ _ _ _ _ R) in Hch; [done|]. intros k c H Heq. apply Hno, Exists_exists. by exists (k, c).
Qed.

(** No query runs. *)
Definition idle (w : World) : Prop :=
  match tasks (context w) with [] | [RunLater _] => True | _ => False end.

Lemma answered_ok config b w queries now answers :
  inv config b w -> 0 <= b < u64_max -> tasks (context w) = [AwaitQueries queries] ->
  let rs := imap (fun i query => (snd query, answers i)) queries in
  exists w' self1 ctx1, exec hash_keys w (Answered 0 now answers) = Ret w' /\ inv config (b + 1) w' /\ idle w'
    /\ requests w' = requests w
    /\ received now rs (source w) (remove_task 0 (context w)) self1 ctx1
    /\ state_channels (source w') = state_channels self1 /\ sent (context w') = sent ctx1.
Proof.
  destruct w as [self ctx rs0]. intros [Hcfg Hs Ha Hd Hc] Hb Et rs. simpl in *.
  unfold shape in Hs. unfold queried in Hd, Hc. simpl in *. rewrite Et in *.
  assert (Hfst : concat queries.*2 = concat rs.*1) by (subst rs; by rewrite imap_fst). rewrite Hfst in Hd, Hc.
  destruct (receive_batches now rs self (remove_task 0 ctx) Hd) as (self1 & ctx1 & Hf & R).
  pose proof (chans_received _ _ _ _ _ _ R Hd Hc) as Hc1.
  assert (Ht1 : tasks ctx1 = []) by (rewrite (r_tasks _ _ _ _ _ _ R); simpl; by rewrite Et).
  pose proof (r_attempt _ _ _ _ _ _ R ltac:(lia)) as Hat.
  unfold on_responses. simpl. fold rs. rewrite Hf. destruct (is_empty (state_channels self1)) eqn:Ee; simpl.
  - apply is_empty_true in Ee. eexists _, self1, ctx1. split; [reflexivity|].
    split_and!; try done; [|unfold idle; simpl; by rewrite Ht1].
    split; simpl; [by rewrite (r_config _ _ _ _ _ _ R)|unfold shape; simpl; by rewrite Ht1|lia| |];
      unfold queried; simpl; rewrite Ht1; [split; constructor|]. simpl. by rewrite fmap_empty.
  - assert (Hne : state_channels self1 <> ∅) by (intros H%is_empty_true; congruence).
    destruct (source_schedule_fetch_Ret self1 ctx1) as (d & bo & -> & Hbo); [lia|]. cbn [mbind outcome_bind].
    eexists _, self1, ctx1. split; [reflexivity|].
    split_and!; try done; [|unfold idle; simpl; by rewrite Ht1].
    split; simpl; [by rewrite (r_config _ _ _ _ _ _ R)|unfold shape; simpl; rewrite Ht1; simpl; split; [lia|done]|lia| |];
      unfold queried; simpl; rewrite Ht1; [split; constructor|]. simpl. by rewrite fmap_empty.
Qed.

Definition regular (config : SourceConfig) (e : Event) : Prop :=
  match e with Fetch now _ _ => clock_fits config now | _ => True end.

(** Whether running queries were lost: a message did not reach the upstream actor. *)
Definition loses (w : World) (e : Event) : bool :=
  match e with
  | Undelivered n => match tasks (context w) !! n with Some (AwaitQueries _) => true | _ => false end
  | _ => false
  end.
Fixpoint lost (w : World) (es : list Event) : bool :=
  match es with
  | [] => false
  | e :: es => loses w e || match exec hash_keys w e with Ret w => lost w es | Panic => false end
  end.

Lemma source_exec_ok config b w e :
  inv config b w -> config_ok config -> 0 <= b < u64_max -> regular config e -> loses w e = false ->
  exists w', exec hash_keys w e = Ret w' /\ inv config (b + 1) w'.
Proof.
  intros Hinv Hok Hb He Hl.
  assert (Hmono : forall b' w', b' <= b + 1 -> inv config b' w' -> inv config (b + 1) w').
  { intros b' w' Hle [H1 H2 H3 H4 H5]. split; try done. lia. }
  destruct e as [now key nc|n now|n now answers|n].
  - destruct (fetch_ok config b w now key nc Hinv) as (w' & -> & Hi & _); [lia|done|].
    exists w'. split; [done|]. eapply Hmono; [|exact Hi]. lia.
  - destruct (tasks (context w) !! n) as [ [d|qs] |] eqn:Et.
    + destruct (source_shape_task _ _ _ (i_shape _ _ _ Hinv) Et) as [-> Hts].
      destruct (source_elapsed_ok config b w d now Hinv Hok Hts) as (w' & queries & -> & Hi & _).
      exists w'. split; [done|]. eapply Hmono; [|exact Hi]. lia.
    + simpl. rewrite Et. exists w. split; [done|]. eapply Hmono; [|exact Hinv]. lia.
    + simpl. rewrite Et. exists w. split; [done|]. eapply Hmono; [|exact Hinv]. lia.
  - destruct (tasks (context w) !! n) as [ [d|qs] |] eqn:Et.
    + simpl. rewrite Et. exists w. split; [done|]. eapply Hmono; [|exact Hinv]. lia.
    + destruct (source_shape_task _ _ _ (i_shape _ _ _ Hinv) Et) as [-> Hts].
      destruct (answered_ok config b w qs now answers Hinv Hb Hts) as (w' & self1 & ctx1 & -> & Hi & _). eauto.
    + simpl. rewrite Et. exists w. split; [done|]. eapply Hmono; [|exact Hinv]. lia.
  - simpl in *. destruct (tasks (context w) !! n) as [ [d|qs] |]; [|done|]; exists w; (split; [done|]); (eapply Hmono; [|exact Hinv]; lia).
Qed.

(** Nothing is scheduled or running, and the backoff says that it is. *)
Definition stalled (config : SourceConfig) (w : World) : Prop :=
  UpstreamProjectSource.config (source w) = config /\ tasks (context w) = [] /\ RetryBackoff.started (backoff (source w)) = true.

Lemma source_stalled_exec config w e : stalled config w -> regular config e ->
  exists w', exec hash_keys w e = Ret w' /\ stalled config w' /\ sent (context w') = sent (context w).
Proof.
  intros (Hc & Ht & Hs) He. destruct e as [now key nc|n now|n now answers|n]; simpl; [|rewrite Ht; by exists w..].
  unfold handle_fetch. rewrite Hs. cbn [negb mbind outcome_bind].
  destruct (state_channels (source w) !! key) as [c|]; cbn [mbind outcome_bind].
  - eexists. split; [done|]. by split_and!.
  - rewrite Hc. unfold channel_new, instant_add, instant_checked_add. simpl in He. unfold clock_fits in He. rewrite bool_decide_true by done.
    cbn [mbind outcome_bind unwrap].
    eexists. split; [done|]. by split_and!.
Qed.

Lemma source_stalled_run config es : forall w, stalled config w -> Forall (regular config) es ->
  exists w', run hash_keys w es = Ret w' /\ stalled config w' /\ sent (context w') = sent (context w).
Proof.
  induction es as [|e es IH]; intros w Hs Hes; simpl; [by exists w|]. apply Forall_cons in Hes as [He Hes].
  destruct (source_stalled_exec config w e Hs He) as (w1 & -> & Hs1 & H1). cbn [mbind outcome_bind].
  destruct (IH w1 Hs1 Hes) as (w' & -> & Hs' & H'). exists w'. split_and!; [done|done|congruence].
Qed.

(** The loss of a query stalls the source. *)
Lemma source_loses_stalls config b w e : inv config b w -> loses w e = true ->
  exists w', exec hash_keys w e = Ret w' /\ stalled config w'.
Proof.
  intros Hinv. destruct e as [ | | |n]; try done. simpl. destruct (tasks (context w) !! n) as [ [d|qs] |] eqn:Et; try done. intros _.
  destruct (source_shape_task _ _ _ (i_shape _ _ _ Hinv) Et) as [-> Hts]. eexists. split; [done|].
  pose proof (i_shape _ _ _ Hinv) as Hs. unfold shape in Hs. rewrite Hts in Hs. unfold stalled, remove_task. simpl. rewrite Hts.
  split_and!; [apply (i_config _ _ _ Hinv)|done|]. by apply bool_decide_eq_true_2.
Qed.

Lemma source_run_fate config es : forall b w,
  inv config b w -> config_ok config -> 0 <= b -> b + Z.of_nat (length es) < u64_max -> Forall (regular config) es ->
  exists w', run hash_keys w es = Ret w' /\ if lost w es then stalled config w' else inv config (b + Z.of_nat (length es)) w'.
Proof.
  induction es as [|e es IH]; intros b w Hinv Hok Hb Hlen Hes; simpl in *; [exists w; by rewrite Z.add_0_r|].
  apply Forall_cons in Hes as [He Hes]. destruct (loses w e) eqn:El; simpl.
  { destruct (source_loses_stalls config b w e Hinv El) as (w1 & -> & Hs). cbn [mbind outcome_bind].
    destruct (source_stalled_run config es w1 Hs Hes) as (w' & -> & Hs' & _). by exists w'. }
  destruct (source_exec_ok config b w e Hinv Hok ltac:(lia) He El) as (w1 & -> & Hi). cbn [mbind outcome_bind].
  destruct (IH (b + 1) w1 Hi Hok ltac:(lia) ltac:(lia) Hes) as (w' & -> & Hi'). exists w'. split; [done|].
  by replace (b + Z.of_nat (S (length es))) with (b + 1 + Z.of_nat (length es)) by lia.
Qed.

(** *** Everybody who waits is served *)

Lemma all_answered_failed {A} (queries : list (A * list (ProjectKey * ProjectStateChannel))) r :
  failed (imap (fun (_ : nat) query => (snd query, Some r)) queries) = [].
Proof.
  induction queries as [|q queries IH]; [done|]. rewrite imap_cons, failed_cons. simpl.
  etrans; [|exact IH]. done.
Qed.

Lemma all_answered_in {A} (queries : list (A * list (ProjectKey * ProjectStateChannel)))
    (r : gmap ProjectKey (ErrorBoundary (option ProjectState))) k c :
  (k, c) ∈ concat queries.*2 ->
  exists b, (b, Some r) ∈ imap (fun (_ : nat) query => (snd query, Some r)) queries /\ (k, c) ∈ b.
Proof.
  induction queries as [|q queries IH]; simpl; [by intros H%elem_of_nil|]. intros [H|H]%elem_of_app.
  - exists q.2. split; [apply list_elem_of_here|done].
  - destruct (IH H) as (b & Hb & Hk). exists b. split; [by apply list_elem_of_further|done].
Qed.

(** The running queries are all answered. *)
Lemma serve_queries config b w queries now r :
  inv config b w -> 0 <= b < u64_max -> tasks (context w) = [AwaitQueries queries] ->
  exists w', exec hash_keys w (Answered 0 now (fun _ => Some r)) = Ret w' /\ inv config (b + 1) w' /\ idle w'
    /\ state_channels (source w') = state_channels (source w)
    /\ (forall k c, (k, c) ∈ concat queries.*2 -> sent (context w') !! chan c = Some (state_of now r k))
    /\ (forall ch v, sent (context w) !! ch = Some v -> sent (context w') !! ch = Some v).
Proof.
  intros Hinv Hb Et.
  destruct (answered_ok config b w queries now (fun _ => Some r) Hinv Hb Et)
    as (w' & self1 & ctx1 & Hex & Hi & Hidle & _ & R & Hsc & Hst).
  exists w'. split_and!; try done; rewrite ?Hsc, ?Hst.
  - apply map_eq. intros k. apply option_eq. intros c. split.
    + intros [H|H]%(r_channels _ _ _ _ _ _ R); [done|]. rewrite all_answered_failed in H. by apply elem_of_nil in H.
    + intros H. apply (r_kept _ _ _ _ _ _ R); [done|]. intros c'. rewrite all_answered_failed. apply not_elem_of_nil.
  - intros k c H. destruct (all_answered_in queries r k c H) as (b0 & Hb0 & Hk).
    exact (r_served _ _ _ _ _ _ R b0 r k c Hb0 Hk).
  - intros ch v Hv. rewrite (r_others _ _ _ _ _ _ R); [done|]. intros k c H%served_in <-.
    rewrite imap_fst in H. destruct Hinv as [_ _ _ Hd Hc]. unfold queried in Hd, Hc. rewrite Et in Hd, Hc.
    destruct (c_fresh _ _ _ _ Hc k (chan c)) as [_ Hn]; [right; apply ids_list_lookup; [apply Hd|eauto]|congruence].
Qed.

(** One more query and its answer, [n] times. *)
Fixpoint rounds (n : nat) (now : Instant) (r : gmap ProjectKey (ErrorBoundary (option ProjectState))) : list Event :=
  match n with
  | O => []
  | S n => Elapsed 0 now :: Answered 0 now (fun _ => Some r) :: rounds n now r
  end.

Lemma rounds_idle w n now r : tasks (context w) = [] -> run hash_keys w (rounds n now r) = Ret w.
Proof. intros Ht. induction n as [|n IH]; simpl; [done|]. rewrite Ht. simpl. by rewrite Ht. Qed.

Lemma serve_rounds config now r n : forall b w,
  inv config b w -> config_ok config -> idle w -> (size (state_channels (source w)) <= n)%nat ->
  0 <= b -> b + Z.of_nat n < u64_max ->
  exists w', run hash_keys w (rounds n now r) = Ret w' /\ tasks (context w') = [] /\ state_channels (source w') = ∅
    /\ (forall k c, state_channels (source w) !! k = Some c -> ProjectStateChannel.expired now c = false ->
         sent (context w') !! chan c = Some (state_of now r k))
    /\ (forall ch v, sent (context w) !! ch = Some v -> sent (context w') !! ch = Some v).
Proof.
  induction n as [|n IH]; intros b w Hinv Hok Hidle Hsize Hb Hlen.
  - assert (Hsc : state_channels (source w) = ∅) by (apply map_size_empty_inv; lia).
    exists w. split_and!; try done; [|intros k c; by rewrite Hsc, lookup_empty].
    pose proof (i_shape _ _ _ Hinv) as Hs. unfold shape in Hs. unfold idle in Hidle.
    destruct (tasks (context w)) as [|[d|qs] [|t ts] ]; naive_solver.
  - pose proof (i_shape _ _ _ Hinv) as Hs. unfold shape in Hs. unfold idle in Hidle.
    destruct (tasks (context w)) as [|[d|qs] [|t ts] ] eqn:Et; try done.
    + exists w. rewrite rounds_idle by done. destruct Hs as [_ Hsc]. split_and!; try done.
      intros k c. by rewrite Hsc, lookup_empty.
    + destruct (source_elapsed_ok config b w d now Hinv Hok Et) as (w1 & queries & H1 & Hi1 & Ht1 & Hst1 & _ & F).
      destruct (serve_queries config b w1 queries now r Hi1 ltac:(lia) Ht1) as (w2 & H2 & Hi2 & Hidle2 & Hsc2 & Hs2 & Hk2).
      destruct (IH (b + 1) w2 Hi2 Hok Hidle2) as (w' & Hr & Ht' & Hsc' & Hs' & Hk'); [|lia|lia|].
      { rewrite Hsc2. pose proof (f_less _ _ _ _ _ F). lia. }
      exists w'. change (rounds (S n) now r) with (Elapsed 0 now :: Answered 0 now (fun _ => Some r) :: rounds n now r).
      cbn [run]. rewrite H1. cbn [mbind outcome_bind run]. rewrite H2. cbn [mbind outcome_bind].
      split_and!; [done|done|done| |intros ch v Hv; apply Hk', Hk2; by rewrite Hst1].
      intros k c Hm He. destruct (f_all _ _ _ _ _ F k c Hm) as [H|[H|H] ]; [|by apply Hk', Hs2|congruence].
      apply Hs'; [by rewrite Hsc2|done].
Qed.

Definition serve (w : World) (now : Instant) (r : gmap ProjectKey (ErrorBoundary (option ProjectState))) : list Event :=
  match tasks (context w) with
  | AwaitQueries _ :: _ => Answered 0 now (fun _ => Some r) :: rounds (size (state_channels (source w))) now r
  | _ => rounds (size (state_channels (source w))) now r
  end.

(** A state in which a fetch is due: the upstream answers, everybody is served. *)
Lemma source_serve_ok config b w now r :
  inv config b w -> config_ok config -> 0 <= b -> b + Z.of_nat (size (state_channels (source w))) + 1 < u64_max ->
  exists w', run hash_keys w (serve w now r) = Ret w' /\ tasks (context w') = [] /\ state_channels (source w') = ∅
    /\ (forall k c, (k, c) ∈ queried w -> sent (context w') !! chan c = Some (state_of now r k))
    /\ (forall k c, state_channels (source w) !! k = Some c -> now <= ProjectStateChannel.deadline c ->
         sent (context w') !! chan c = Some (state_of now r k)).
Proof.
  intros Hinv Hok Hb Hlen.
  assert (Hexp : forall c, now <= ProjectStateChannel.deadline c -> ProjectStateChannel.expired now c = false).
  { intros c Hc. apply bool_decide_eq_false. lia. }
  pose proof (i_shape _ _ _ Hinv) as Hs. unfold shape in Hs. unfold serve, queried.
  destruct (tasks (context w)) as [|[d|queries] [|t ts] ] eqn:Et; try done.
  1-2: destruct (serve_rounds config now r (size (state_channels (source w))) _ w Hinv Hok) as (w' & Hr & Ht & Hsc & Hsv & _);
    [unfold idle; by rewrite Et|lia|lia|lia|]; exists w'; split_and!; [done|done|done|by intros k c H%elem_of_nil|];
    intros k c Hk Hc; by apply Hsv; [|apply Hexp].
  destruct (serve_queries config _ w queries now r Hinv ltac:(lia) Et) as (w1 & H1 & Hi1 & Hidle1 & Hsc1 & Hs1 & _).
  destruct (serve_rounds config now r (size (state_channels (source w))) _ w1 Hi1 Hok Hidle1)
    as (w' & Hr & Ht & Hsc & Hsv & Hk); [by rewrite Hsc1|lia|lia|].
  exists w'. cbn [run]. rewrite H1. cbn [mbind outcome_bind]. split_and!; [done|done|done| |].
  - intros k c H. by apply Hk, Hs1.
  - intros k c H Hc. apply Hsv; [by rewrite Hsc1|by apply Hexp].
Qed.

(** C13: who waits for a project is served, unless a query does not reach the upstream actor.
    The source never panics.  As long as every query was delivered, however often the upstream
    failed, a fetch is scheduled or running while a channel waits: when the
    upstream answers, in as many rounds of queries as it takes, every channel of a running query
    and every waiting channel whose deadline has not passed has received the state the upstream
    gave for its project (sanitized, or missing, or an error when it could not be read), the
    expired ones are dropped, and nothing is left waiting.  After the loss of one query nothing is
    scheduled any more, whatever happens, and no channel receives anything again. *)
Theorem project_states_served config es :
  config_ok config -> Forall (regular config) es -> Z.of_nat (length es) < u64_max ->
  exists w, run hash_keys (start config) es = Ret w /\
    if lost (start config) es then
      forall es', Forall (regular config) es' ->
        exists w', run hash_keys w es' = Ret w' /\ tasks (context w') = [] /\ sent (context w') = sent (context w)
    else
      forall now r, Z.of_nat (length es) + Z.of_nat (size (state_channels (source w))) + 1 < u64_max ->
        exists w', run hash_keys w (serve w now r) = Ret w' /\ tasks (context w') = [] /\ state_channels (source w') = ∅
          /\ (forall k c, (k, c) ∈ queried w -> sent (context w') !! chan c = Some (state_of now r k))
          /\ (forall k c, state_channels (source w) !! k = Some c -> now <= ProjectStateChannel.deadline c ->
               sent (context w') !! chan c = Some (state_of now r k)).
Proof.
  intros Hok Hes Hlen. destruct (source_run_fate config es 0 (start config) (source_inv_start config) Hok) as (w & Hr & Hw); [lia|lia|done|].
  exists w. split; [done|]. destruct (lost (start config) es).
  - intros es' Hes'. destruct (source_stalled_run config es' w Hw Hes') as (w' & Hr' & (_ & Ht & _) & He). by exists w'.
  - intros now r Hsize. by eapply source_serve_ok; [exact Hw|done|lia|lia].
Qed.

(** the size of the queries.  When a fetch runs and somebody is waiting, there are at most the
    configured number of queries, each asks for at least one and at most the configured number of
    projects, no project is asked for twice, the projects are those of waiting channels that have
    not expired, and a channel that is neither asked for nor expired keeps waiting. *)
Theorem fetch_states_bounded self now ctx :
  config_ok (config self) -> state_channels self <> ∅ ->
  exists queries rest,
    fetch_states hash_keys self now ctx = Ret (set_channels self rest, spawn (AwaitQueries queries) ctx)
    /\ fetched now (config self) (state_channels self) rest queries.
Proof. apply fetch_states_ok. Qed.

End Proofs.
End SourceWorld.

(** ** Runs *)

Module SourceRuns.
Import UpstreamProjectSource SourceWorld.

#[local] Instance second_backoff : Backoff := {|
  ExponentialBackoff := unit; exponential _ _ := tt; backoff_reset := id; backoff_next b := (Some 1000000000, b) |}.

Lemma source_second_backoff_laws : BackoffLaws.
Proof. split. intros b. by eexists _, _. Qed.

Definition keys (m : gmap ProjectKey ProjectStateChannel) : list ProjectKey := (map_to_list m).*1.

Definition config : SourceConfig := MkSourceConfig 60 100 2 2 30 false.
Definition key (s : string) : ProjectKey := ProjectKey.MkProjectKey s.
Definition answer : gmap ProjectKey (ErrorBoundary (option ProjectState)) := {[ key "a" := BoundaryOk (Some (ProjectState.allowed 7)) ]}.

Definition after (es : list Event) : World := match run keys (start config) es with Ret w => w | Panic => start config end.

(** The sizes of the queries that run. *)
Definition query_sizes (w : World) : list nat :=
  match tasks (context w) with
  | AwaitQueries queries :: _ => (fun q => length (snd q)) <$> queries
  | _ => []
  end.

(** Six projects are asked for: four of them in two queries of two, the others later. *)
Definition six_projects : list Event :=
  (fun s => Fetch 0 (key s) false) <$> ["a"; "b"; "c"; "d"; "e"; "f"].

Example six_projects_fetched :
  query_sizes (after (six_projects ++ [Elapsed 0 1])) = [2; 2]%nat
  /\ size (state_channels (source (after (six_projects ++ [Elapsed 0 1])))) = 2%nat.
Proof. vm_compute. split; reflexivity. Qed.

(** Two projects and two queries at hand: both projects go into the same query. *)
Lemma projects_not_distributed :
  query_sizes (after [Fetch 0 (key "a") false; Fetch 0 (key "b") false; Elapsed 0 1]) = [2]%nat.
Proof. vm_compute. reflexivity. Qed.

(** A project that is asked for again while the query for it runs: the query fails, its channel
    replaces the new one, and nobody will ever send to the new one. *)
Definition failed_query : list Event :=
  [Fetch 0 (key "a") false; Elapsed 0 1; Fetch 2 (key "a") true; Answered 0 3 (fun _ => None)].

Lemma second_fetch_dropped :
  requests (after failed_query) = [(key "a", 0%nat); (key "a", 1%nat)]
  /\ queried (after failed_query) = [] /\ sent (context (after failed_query)) = ∅
  /\ ProjectStateChannel.channel <$> state_channels (source (after failed_query)) = {[ key "a" := 0%nat ]}.
Proof. vm_compute. split_and!; reflexivity. Qed.

(** A query that cannot be delivered: no fetch is scheduled any more. *)
Definition undelivered_query : list Event :=
  [Fetch 0 (key "a") false; Elapsed 0 1; Undelivered 0; Fetch 2 (key "b") false].

Lemma source_stuck_after_mailbox_error :
  tasks (context (after undelivered_query)) = []
  /\ ProjectStateChannel.channel <$> state_channels (source (after undelivered_query)) = {[ key "b" := 1%nat ]}.
Proof. vm_compute. split; reflexivity. Qed.

Lemma config_is_ok : config_ok config.
Proof. unfold config_ok, u64_max. simpl. lia. Qed.

Lemma keys_perm m : keys m ≡ₚ (map_to_list m).*1.
Proof. done. Qed.

Lemma project_states_served_witness :
  exists w', run keys (after failed_query) (serve (after failed_query) 9 answer) = Ret w'
    /\ sent (context w') !! 0%nat = Some (state_of 9 answer (key "a")).
Proof.
  destruct (@project_states_served _ source_second_backoff_laws keys keys_perm config failed_query) as (w & Hw & H).
  - exact config_is_ok.
  - repeat (constructor; [unfold regular, clock_fits; vm_compute; try discriminate; exact I|]); constructor.
  - vm_compute. reflexivity.
  - assert (w = after failed_query) as -> by (unfold after; rewrite Hw; reflexivity).
    destruct (H 9 answer) as (w' & Hr & _ & _ & _ & Hsv); [vm_compute; reflexivity|].
    exists w'. split; [exact Hr|].
    refine (Hsv (key "a") (ProjectStateChannel.MkChannel 0 (30 * nanos_per_sec) false) _ _); vm_compute; [reflexivity|discriminate].
Defined.

Lemma fetch_states_bounded_witness :
  exists queries rest,
    fetch_states keys (source (after six_projects)) 1 (context (after six_projects))
    = Ret (set_channels (source (after six_projects)) rest, spawn (AwaitQueries queries) (context (after six_projects)))
    /\ Z.of_nat (length queries) <= 2.
Proof.
  destruct (fetch_states_bounded keys keys_perm (source (after six_projects)) 1 (context (after six_projects)))
    as (queries & rest & Hf & F).
  - vm_compute. split_and!; [reflexivity|reflexivity|discriminate].
  - intros H. apply (f_equal size) in H. vm_compute in H. discriminate H.
  - exists queries, rest. split; [exact Hf|]. exact (f_count _ _ _ _ _ F).
Defined.

(** A directory with one file, named after the project. *)
#[local] Instance state_json : SerdeJson ProjectState := {|
  from_slice s := if bool_decide (s = "state")
                  then Ok (ProjectState.MkProjectState None None false [MkPublicKeyConfig (key "a") None] None
                             default_project_config None 0 false)
                  else Err (MkJsonError s);
  to_json_string _ := Ok "state";
|}.
Definition read_id (s : string) : option ProjectId := if bool_decide (s = "42") then Some 42 else None.
Definition directory : result LocalProjectSource.IoError (list (result LocalProjectSource.IoError LocalProjectSource.DirEntry)) :=
  Ok [Ok (LocalProjectSource.MkDirEntry (Ok true) (Some "42") (Some "json") (Ok "state"))].

Lemma local_states_served_witness :
  exists state,
    LocalProjectSource.handle_fetch (foldl (LocalProjectSource.poll read_id) LocalProjectSource.new [directory]) (key "a") = Some state
    /\ is_Some (ProjectState.project_id state).
Proof.
  eexists. split; [vm_compute; reflexivity|].
  refine (proj1 (@LocalProjectSource.local_states_served state_json read_id [directory] (key "a") _ _)).
  vm_compute. reflexivity.
Defined.

End SourceRuns.
