(* ===== verification/Upstream.v ===== *)
(** * relay-server: the connection to the upstream (actors/upstream.rs)

    The actor that authenticates this Relay, queues requests by priority, sends a
    bounded number of them at once, retries after network errors and stops
    sending during an outage.  Its methods return the new state and the effects
    they have: requests handed to the HTTP client, answers sent to the waiting
    side of a request, and messages the actor sends to itself.  [System] puts the
    actor together with its mailbox and the futures that wait for answers. *)

From Stdlib Require Import Ascii String.
From S2P Require Import Prelude Strings Floats Types Common Protocol Quota RateLimit Filters Sampling Extractors Envelopes EnvelopeLimiter Sessions MetricProtocol Aggregation Aggregator Projects Http.

Open Scope string_scope.
Open Scope Z_scope.
Open Scope list_scope.

(** ** Errors and rate limits *)

Module UpstreamRateLimits.

Record UpstreamRateLimits := MkUpstreamRateLimits { retry_after : RetryAfter; rate_limits : string }.

Definition new (now : Instant) : UpstreamRateLimits := MkUpstreamRateLimits (RetryAfter.from_secs now 0) "".

Definition with_retry_after (now : Instant) (self : UpstreamRateLimits) (header : option string) :
    UpstreamRateLimits :=
  match s ← header; res_ok (RetryAfter.from_str now s) with
  | Some retry_after => MkUpstreamRateLimits retry_after (rate_limits self)
  | None => self
  end.

Definition with_rate_limits (self : UpstreamRateLimits) (header : string) : UpstreamRateLimits :=
  MkUpstreamRateLimits (retry_after self) header.

Definition scope (now : Instant) (self : UpstreamRateLimits) (scoping : Scoping) : RateLimits :=
  let rate_limits := parse_rate_limits now scoping (rate_limits self) in
  if RateLimits.is_limited now rate_limits then rate_limits
  else RateLimits.add rate_limits
         {| RateLimit.categories := []; RateLimit.scope := RateLimitScope.for_quota scoping QuotaScope.Key;
            RateLimit.reason_code := None; RateLimit.retry_after := retry_after self |}.

End UpstreamRateLimits.
Notation UpstreamRateLimits := UpstreamRateLimits.UpstreamRateLimits.

Module UpstreamRequestError.

Inductive UpstreamRequestError :=
| NoCredentials
| SendFailed (e : ReqwestError)
| Http (e : HttpError)
| RateLimited (limits : UpstreamRateLimits)
| ResponseError (code : StatusCode) (response : ApiErrorResponse)
| ChannelClosed.

Definition is_network_error (self : UpstreamRequestError) : bool :=
  match self with
  | SendFailed _ => true
  | ResponseError code _ => bool_decide (code = 502 \/ code = 503 \/ code = 504)
  | Http http => HttpError.is_network_error http
  | _ => false
  end.

Definition is_permanent_rejection (self : UpstreamRequestError) : bool :=
  match self with
  | ResponseError status_code response =>
      bool_decide (status_code = 403)
      && bool_decide (ApiErrorResponse.relay_action response = RelayErrorAction.Stop)
  | _ => false
  end.

Definition is_received (self : UpstreamRequestError) : bool :=
  match self with
  | RateLimited _ => true
  | ResponseError _ _ | Http _ => negb (is_network_error self)
  | NoCredentials | SendFailed _ | ChannelClosed => false
  end.

End UpstreamRequestError.
Notation UpstreamRequestError := UpstreamRequestError.UpstreamRequestError.

(** ** Requests *)

Module AuthState.

Inductive AuthState := Unknown | Registering | Registered | Renewing | Denied.

#[global] Instance AuthState_eq_dec : EqDecision AuthState.
Proof. solve_decision. Defined.

Definition is_authenticated (self : AuthState) : bool :=
  match self with Registered | Renewing => true | _ => false end.

End AuthState.
Notation AuthState := AuthState.AuthState.

Inductive EnqueuePosition := Front | Back.

Module RequestPriority.

Inductive RequestPriority := Immediate | High | Low.

#[global] Instance RequestPriority_eq_dec : EqDecision RequestPriority.
Proof. solve_decision. Defined.

Definition name (self : RequestPriority) : string :=
  match self with Immediate => "immediate" | High => "high" | Low => "low" end.

End RequestPriority.
Notation RequestPriority := RequestPriority.RequestPriority.

Record UpstreamRequestConfig := MkRequestConfig {
  priority : RequestPriority;
  retry : bool;
  intercept_status_errors : bool;
  set_relay_id : bool;
}.

(** A channel is a number, [build] the boxed function that completes the
    request from the builder the actor prepared. *)
Module UpstreamRequest.
Section WithClient.
Context `{HttpClient}.

Record UpstreamRequest := MkUpstreamRequest {
  config : UpstreamRequestConfig;
  response_sender : nat;
  method : string;
  path : string;
  build : RequestBuilder Url -> result UpstreamRequestError Request;
  previous_retries : Z;
  send_start : option Instant;
}.

Definition route_name (self : UpstreamRequest) : string :=
  if str_contains "/outcomes/" (path self) then "outcomes"
  else if str_contains "/envelope/" (path self) then "envelope"
  else if str_contains "/projectids/" (path self) then "project_ids"
  else if str_contains "/projectconfigs/" (path self) then "project_configs"
  else if str_contains "/publickeys/" (path self) then "public_keys"
  else if str_contains "/challenge/" (path self) then "challenge"
  else if str_contains "/response/" (path self) then "response"
  else if str_contains "/live/" (path self) then "check_live"
  else "unknown".

Definition retries_bucket (self : UpstreamRequest) : string :=
  let n := previous_retries self in
  if bool_decide (n = 0) then "0"
  else if bool_decide (n = 1) then "1"
  else if bool_decide (n = 2) then "2"
  else if bool_decide (3 <= n <= 10) then "few"
  else "many".

Definition set_send_start (self : UpstreamRequest) (now : Instant) : UpstreamRequest :=
  MkUpstreamRequest (config self) (response_sender self) (method self) (path self) (build self)
    (previous_retries self) (Some now).

(** [previous_retries += 1]. *)
Definition add_retry (self : UpstreamRequest) : UpstreamRequest :=
  MkUpstreamRequest (config self) (response_sender self) (method self) (path self) (build self)
    (u32_add (previous_retries self) 1) (send_start self).

Definition queued (self : UpstreamRequest) : bool :=
  negb (bool_decide (priority (config self) = RequestPriority.Immediate)).

End WithClient.
End UpstreamRequest.
Arguments UpstreamRequest.UpstreamRequest {_ _}.
Notation UpstreamRequest := UpstreamRequest.UpstreamRequest.

(** The answer to a request. *)
Notation SendResult := (result UpstreamRequestError Response) (only parsing).

Definition RATE_LIMITS_HEADER : string := "X-Sentry-Rate-Limits".

(** Responses outside of 2XX become errors if [intercept_status_errors] is set;
    [now] is the reading that rate limits refer to. *)
Definition handle_response `{SerdeJson ApiErrorResponse} (now : Instant) (response : Response)
    (intercept_status_errors : bool) (max_response_size : Z) : SendResult :=
  let status := Response.status response in
  if negb intercept_status_errors || is_success status then Ok response
  else
    let upstream_limits :=
      if bool_decide (status = 429) then
        let retry_after := v ← Response.get_header response "retry-after"; if valid_utf8 v then Some v else None in
        let rate_limits :=
          join_with ", " (List.filter valid_utf8 (Response.get_all_headers response RATE_LIMITS_HEADER)) in
        Some (UpstreamRateLimits.with_rate_limits
                (UpstreamRateLimits.with_retry_after now (UpstreamRateLimits.new now) retry_after) rate_limits)
      else None in
    let json_result := Response.json response max_response_size in
    match upstream_limits with
    | Some upstream_limits => Err (UpstreamRequestError.RateLimited upstream_limits)
    | None => Err (UpstreamRequestError.ResponseError status (default ApiErrorResponse.default_ (res_ok json_result)))
    end.

(** [trait UpstreamQuery]; the serialized query and its signature are computed
    from [data] by [SecretKeyRef::pack]. *)
Record UpstreamQuery := MkQuery {
  query_method : string;
  query_path : string;
  query_retry : bool;
  query_priority : RequestPriority;
  query_data : string;
}.

(** ** The actor *)

(** The settings that the connection reads. *)
Record HttpConfig := MkHttpConfig {
  relay_mode : RelayMode;
  processing_enabled : bool;
  upstream_descriptor : UpstreamDescriptor;
  credentials_id : option string;
  host_header : option string;
  auth_interval : option Z;
  outage_grace_period : Z;
  max_retry_interval : Z;
  max_concurrent_requests : Z;
  max_api_payload_size : Z;
}.

Definition http_auth_interval (self : HttpConfig) : option Duration :=
  if processing_enabled self then None
  else match auth_interval self with
       | None => None
       | Some secs => if bool_decide (secs = 0) then None else Some (duration_from_secs secs)
       end.
Definition http_outage_grace_period (self : HttpConfig) : Duration := duration_from_secs (outage_grace_period self).
Definition http_max_retry_interval (self : HttpConfig) : Duration := duration_from_secs (max_retry_interval self).

Inductive Message := Authenticate | PumpHttpMessageQueue | CheckUpstreamConnection | TrackedFutureFinished.

#[global] Instance Message_eq_dec : EqDecision Message.
Proof. solve_decision. Defined.

(** relay-auth: [pack] serializes and signs the data of a query with the
    credentials; a registration is requested, challenged and responded to. *)
Class AuthEnv := {
  pack : string -> string * string;
  register_data : string;
  RegisterChallenge : Type;
  Registration : Type;
  response_data : RegisterChallenge -> string;
}.

Definition register_request `{AuthEnv} : UpstreamQuery :=
  MkQuery "POST" "/api/0/relays/register/challenge/" false RequestPriority.Immediate register_data.

Definition into_response `{AuthEnv} (challenge : RegisterChallenge) : UpstreamQuery :=
  MkQuery "POST" "/api/0/relays/register/response/" false RequestPriority.Immediate (response_data challenge).

Module UpstreamRelay.

Record UpstreamRelay `{HttpClient, Backoff} := MkUpstreamRelay {
  auth_backoff : RetryBackoff;
  auth_state : AuthState;
  outage_backoff : RetryBackoff;
  first_error : option Instant;
  max_inflight_requests : Z;
  num_inflight_requests : Z;
  high_prio_requests : list UpstreamRequest;
  low_prio_requests : list UpstreamRequest;
  config : HttpConfig;
}.

(** [Execute] spawns the HTTP request, [Respond] is [response_sender.send],
    [Notify] and [NotifyLater] are messages to the actor itself. *)
Inductive Effect `{HttpClient} :=
| Execute (request : UpstreamRequest) (client_request : Request)
| Respond (channel : nat) (send_result : SendResult)
| Notify (m : Message)
| NotifyLater (m : Message) (after : Duration).

Section Actor.
Context `{HttpClient, Backoff, AuthEnv}.
Implicit Types (self : UpstreamRelay) (request : UpstreamRequest).

(** Assignments. *)
Definition set_auth self (backoff : RetryBackoff) (state : AuthState) : UpstreamRelay :=
  MkUpstreamRelay _ _ _ backoff state (outage_backoff self) (first_error self) (max_inflight_requests self)
    (num_inflight_requests self) (high_prio_requests self) (low_prio_requests self) (config self).
Definition set_outage self (backoff : RetryBackoff) (error : option Instant) : UpstreamRelay :=
  MkUpstreamRelay _ _ _ (auth_backoff self) (auth_state self) backoff error (max_inflight_requests self)
    (num_inflight_requests self) (high_prio_requests self) (low_prio_requests self) (config self).
Definition set_inflight self (n : Z) : UpstreamRelay :=
  MkUpstreamRelay _ _ _ (auth_backoff self) (auth_state self) (outage_backoff self) (first_error self)
    (max_inflight_requests self) n (high_prio_requests self) (low_prio_requests self) (config self).
Definition set_queues self (high low : list UpstreamRequest) : UpstreamRelay :=
  MkUpstreamRelay _ _ _ (auth_backoff self) (auth_state self) (outage_backoff self) (first_error self)
    (max_inflight_requests self) (num_inflight_requests self) high low (config self).

Definition new (config : HttpConfig) : UpstreamRelay :=
  MkUpstreamRelay _ _ _ (RetryBackoff.new (http_max_retry_interval config)) AuthState.Unknown
    (RetryBackoff.new (http_max_retry_interval config)) None (max_concurrent_requests config) 0 [] [] config.

Definition should_authenticate self : bool :=
  match relay_mode (config self) with RelayMode.Managed => true | _ => false end.

Definition renew_auth_interval self : option Duration :=
  if should_authenticate self && negb (processing_enabled (config self))
     && negb (bool_decide (auth_state self = AuthState.Denied))
  then http_auth_interval (config self) else None.

Definition should_renew_auth self : bool := bool_decide (is_Some (renew_auth_interval self)).

Definition is_network_outage self : bool := RetryBackoff.started (outage_backoff self).

Definition get_auth_state_error self : option string :=
  if negb (should_authenticate self) then
    Some "Upstream actor trying to authenticate although it is not supposed to."
  else if bool_decide (auth_state self = AuthState.Registered) && negb (should_renew_auth self) then
    Some "Upstream actor trying to re-authenticate although it is not supposed to."
  else if bool_decide (auth_state self = AuthState.Denied) then
    Some "Upstream actor trying to authenticate after authentication was denied."
  else None.

Definition is_ready self : bool :=
  if is_network_outage self then false
  else match auth_state self with
       | AuthState.Registering | AuthState.Denied => false
       | AuthState.Unknown => negb (should_authenticate self)
       | AuthState.Registered | AuthState.Renewing => true
       end.

Definition reset_network_error self : UpstreamRelay :=
  set_outage self (RetryBackoff.reset (outage_backoff self)) None.

Definition upstream_connection_check self : outcome (UpstreamRelay * list Effect) :=
  '(next_backoff, backoff) ← RetryBackoff.next_backoff (outage_backoff self);
  Ret (set_outage self backoff (first_error self), [NotifyLater CheckUpstreamConnection next_backoff]).

Definition handle_network_error self (now : Instant) : outcome (UpstreamRelay * list Effect) :=
  let first := default now (first_error self) in
  let self := set_outage self (outage_backoff self) (Some first) in
  deadline ← instant_add first (http_outage_grace_period (config self));
  if bool_decide (now < deadline) then Ret (self, [])
  else if RetryBackoff.started (outage_backoff self) then Ret (self, [])
  else upstream_connection_check self.

(** The builder with the headers that every request has. *)
Definition prepare self request : outcome (RequestBuilder Url) :=
  uri ← Upstream.get_url (upstream_descriptor (config self)) (UpstreamRequest.path request);
  let host_header := default (up_host (upstream_descriptor (config self))) (host_header (config self)) in
  let builder := RequestBuilder.header (RequestBuilder.reqwest (UpstreamRequest.method request) uri)
                   "Host" host_header in
  Ret (match credentials_id (config self) with
       | Some id => if set_relay_id (UpstreamRequest.config request)
                    then RequestBuilder.header builder "X-Sentry-Relay-Id" id else builder
       | None => builder
       end).

Definition send_request self request (now : Instant) : outcome (UpstreamRelay * list Effect) :=
  builder ← prepare self request;
  match UpstreamRequest.build request builder with
  | Err e => Ret (self, [Respond (UpstreamRequest.response_sender request) (Err e)])
  | Ok client_request =>
      Ret (set_inflight self (u64_add (num_inflight_requests self) 1),
           [Execute (UpstreamRequest.set_send_start request now) client_request])
  end.

(** Enqueues a request, or sends it at once if it is immediate. *)
Definition enqueue self request (position : EnqueuePosition) (now : Instant) : outcome (UpstreamRelay * list Effect) :=
  let push queue := match position with Front => request :: queue | Back => queue ++ [request] end in
  match priority (UpstreamRequest.config request) with
  | RequestPriority.Immediate => send_request self request now
  | RequestPriority.Low =>
      Ret (set_queues self (high_prio_requests self) (push (low_prio_requests self)), [Notify PumpHttpMessageQueue])
  | RequestPriority.High =>
      Ret (set_queues self (push (high_prio_requests self)) (low_prio_requests self), [Notify PumpHttpMessageQueue])
  end.

Definition handle_http_response self request (send_result : SendResult) (now : Instant) :
    outcome (UpstreamRelay * list Effect) :=
  let respond := [Respond (UpstreamRequest.response_sender request) send_result] in
  match send_result with
  | Err err =>
      if UpstreamRequestError.is_network_error err then
        '(self, effects) ← handle_network_error self now;
        if retry (UpstreamRequest.config request) then
          '(self, more) ← enqueue self (UpstreamRequest.add_retry request) Back now;
          Ret (self, effects ++ more)
        else Ret (self, effects ++ respond)
      else Ret (reset_network_error self, respond)
  | Ok _ => Ret (reset_network_error self, respond)
  end.

(** [channel] is the new channel whose receiver the method returns. *)
Definition enqueue_request self (config : UpstreamRequestConfig) (method path : string)
    (build : RequestBuilder Url -> result UpstreamRequestError Request) (channel : nat) (now : Instant) :
    outcome (UpstreamRelay * list Effect) :=
  enqueue self (UpstreamRequest.MkUpstreamRequest config channel method path build 0 None) Front now.

(** [map_err(UpstreamRequestError::Http)]. *)
Definition map_http {A} (r : result HttpError A) : result UpstreamRequestError A :=
  match r with Ok a => Ok a | Err e => Err (UpstreamRequestError.Http e) end.

Definition build_query (json signature : string) (builder : RequestBuilder Url) :
    result UpstreamRequestError Request :=
  map_http (body (RequestBuilder.header (RequestBuilder.header builder "X-Sentry-Relay-Signature" signature)
                    "content-type" "application/json") json).

(** Without credentials the returned future fails at once. *)
Definition enqueue_query self (query : UpstreamQuery) (channel : nat) (now : Instant) :
    outcome (UpstreamRelay * list Effect) :=
  let request_config := MkRequestConfig (query_priority query) (query_retry query) true true in
  match credentials_id (config self) with
  | None => Ret (self, [Respond channel (Err UpstreamRequestError.NoCredentials)])
  | Some _ =>
      let '(json, signature) := pack (query_data query) in
      enqueue_request self request_config (query_method query) (query_path query) (build_query json signature)
        channel now
  end.

(** What the future of [enqueue_query] makes of the answer. *)
Definition query_response `{SerdeJson T} self (send_result : SendResult) : result UpstreamRequestError T :=
  r ← send_result; map_http (Response.json r (max_api_payload_size (config self))).

(** ** Handlers *)

Definition started self : UpstreamRelay * list Effect :=
  let self := set_auth self (RetryBackoff.reset (auth_backoff self)) (auth_state self) in
  let self := set_outage self (RetryBackoff.reset (outage_backoff self)) (first_error self) in
  (self, if should_authenticate self then [Notify Authenticate] else []).

(** [Authenticate] until the first request is enqueued; the interval is kept by
    the future that waits for the answer.  [None] is the early failure. *)
Definition handle_authenticate self (channel : nat) (now : Instant) :
    outcome (option (Duration * (UpstreamRelay * list Effect))) :=
  match get_auth_state_error self, credentials_id (config self) with
  | Some _, _ | None, None => Ret None
  | None, Some _ =>
      let state := if AuthState.is_authenticated (auth_state self) then AuthState.Renewing
                   else AuthState.Registering in
      '(interval, backoff) ← RetryBackoff.next_backoff (auth_backoff self);
      result ← enqueue_query (set_auth self backoff state) register_request channel now;
      Ret (Some (interval, result))
  end.

(** The last step of the authentication, [map_err]. *)
Definition authentication_failed self (interval : Duration) (err : UpstreamRequestError) :
    UpstreamRelay * list Effect :=
  if UpstreamRequestError.is_permanent_rejection err then (set_auth self (auth_backoff self) AuthState.Denied, [])
  else
    (if UpstreamRequestError.is_network_error err then self
     else set_auth self (auth_backoff self) AuthState.Registering,
     [NotifyLater Authenticate interval]).

(** [and_then] on the challenge: [channel] is the channel of the second query,
    if there is one. *)
Definition on_challenge `{SerdeJson RegisterChallenge} self (interval : Duration) (answer : SendResult)
    (channel : nat) (now : Instant) : outcome (bool * (UpstreamRelay * list Effect)) :=
  match query_response self answer with
  | Ok challenge => result ← enqueue_query self (into_response challenge) channel now; Ret (true, result)
  | Err err => Ret (false, authentication_failed self interval err)
  end.

Definition on_registration `{SerdeJson Registration} self (interval : Duration) (answer : SendResult) :
    UpstreamRelay * list Effect :=
  match query_response (T := Registration) self answer with
  | Ok _ =>
      let self := set_auth self (RetryBackoff.reset (auth_backoff self)) AuthState.Registered in
      (self, match renew_auth_interval self with
             | Some renew_interval => [NotifyLater Authenticate renew_interval]
             | None => []
             end ++ [Notify PumpHttpMessageQueue])
  | Err err => authentication_failed self interval err
  end.

Definition handle_is_authenticated self : bool := AuthState.is_authenticated (auth_state self).
Definition handle_is_network_outage self : bool := is_network_outage self.

(** [VecDeque::pop_back]. *)
Definition pop_back {A} (queue : list A) : option (A * list A) :=
  match rev queue with
  | [] => None
  | x :: rest => Some (x, rev rest)
  end.

(** The loop sends one request at a time; every round takes one from a queue. *)
Fixpoint pump_loop (fuel : nat) self (now : Instant) : outcome (UpstreamRelay * list Effect) :=
  match fuel with
  | O => Panic
  | S fuel =>
      if bool_decide (num_inflight_requests self < max_inflight_requests self) then
        let next := match pop_back (high_prio_requests self), pop_back (low_prio_requests self) with
                    | Some (msg, high), _ => Some (msg, set_queues self high (low_prio_requests self))
                    | None, Some (msg, low) => Some (msg, set_queues self (high_prio_requests self) low)
                    | None, None => None
                    end in
        match next with
        | Some (msg, self) =>
            '(self, effects) ← send_request self msg now;
            '(self, more) ← pump_loop fuel self now;
            Ret (self, effects ++ more)
        | None => Ret (self, [])
        end
      else Ret (self, [])
  end.

Definition handle_pump self (now : Instant) : outcome (UpstreamRelay * list Effect) :=
  if is_ready self
  then pump_loop (S (List.length (high_prio_requests self) + List.length (low_prio_requests self))) self now
  else Ret (self, []).

Definition check_config : UpstreamRequestConfig := MkRequestConfig RequestPriority.Immediate false true true.
Definition build_check (builder : RequestBuilder Url) : result UpstreamRequestError Request :=
  map_http (finish builder).

Definition handle_check self (channel : nat) (now : Instant) : outcome (UpstreamRelay * list Effect) :=
  enqueue_request self check_config "GET" "/api/0/relays/live/" build_check channel now.

(** The future of the connection check, once it has its answer. *)
Definition on_check self (answer : SendResult) : outcome (UpstreamRelay * list Effect) :=
  match r ← answer; map_http (Response.consume r) with
  | Err err => if UpstreamRequestError.is_network_error err then upstream_connection_check self
               else Ret (self, [Notify PumpHttpMessageQueue])
  | Ok _ => Ret (self, [Notify PumpHttpMessageQueue])
  end.

Definition handle_tracked_future_finished self : UpstreamRelay * list Effect :=
  (set_inflight self (u64_sub (num_inflight_requests self) 1), [Notify PumpHttpMessageQueue]).

End Actor.
End UpstreamRelay.
Notation UpstreamRelay := UpstreamRelay.UpstreamRelay.

(** [SendRequest::new] and its setters. *)
Definition send_request_config (retry intercept_status_errors set_relay_id : bool) : UpstreamRequestConfig :=
  MkRequestConfig RequestPriority.Low retry intercept_status_errors set_relay_id.

(** ** The system *)

(** What a receiver does with the answer: it belongs to a caller outside of the
    actor, to one of the two stages of the authentication, or to the check. *)
Inductive Waiting := Caller | WaitChallenge (interval : Duration) | WaitRegistration (interval : Duration) | WaitCheck.

#[global] Instance Waiting_eq_dec : EqDecision Waiting.
Proof. solve_decision. Defined.

Section System.
Context `{HttpClient, Backoff, AuthEnv, SerdeJson ApiErrorResponse, SerdeJson RegisterChallenge}.
Context `{SerdeJson Registration}.
Import UpstreamRelay.

(** [mailbox] also holds the delayed messages, and messages are delivered in any
    order.  [flying] are the requests the HTTP client works on, [handling] those
    whose result was not given to the actor yet, and [answers] what has been sent
    to the receivers so far. *)
Record System := MkSystem {
  relay : UpstreamRelay;
  mailbox : list Message;
  flying : list UpstreamRequest;
  handling : list (UpstreamRequest * SendResult);
  answers : list (nat * SendResult);
  waiting : list (nat * Waiting);
  channels : nat;
}.

Definition messages (es : list Effect) : list Message :=
  omap (fun e => match e with Notify m | NotifyLater m _ => Some m | _ => None end) es.
Definition executed (es : list Effect) : list UpstreamRequest :=
  omap (fun e => match e with Execute q _ => Some q | _ => None end) es.
Definition responses (es : list Effect) : list (nat * SendResult) :=
  omap (fun e => match e with Respond c r => Some (c, r) | _ => None end) es.

Definition after (s : System) (r : UpstreamRelay * list Effect) : System :=
  MkSystem r.1 (mailbox s ++ messages r.2) (flying s ++ executed r.2) (handling s) (answers s ++ responses r.2)
    (waiting s) (channels s).

Definition set_mailbox (s : System) (l : list Message) : System :=
  MkSystem (relay s) l (flying s) (handling s) (answers s) (waiting s) (channels s).
Definition set_waiting (s : System) (l : list (nat * Waiting)) : System :=
  MkSystem (relay s) (mailbox s) (flying s) (handling s) (answers s) l (channels s).
Definition set_handling (s : System) (l : list (UpstreamRequest * SendResult)) : System :=
  MkSystem (relay s) (mailbox s) (flying s) l (answers s) (waiting s) (channels s).
Definition open_channel (s : System) (w : Waiting) : System :=
  MkSystem (relay s) (mailbox s) (flying s) (handling s) (answers s) (waiting s ++ [(channels s, w)])
    (S (channels s)).

Definition initial (config : HttpConfig) : System :=
  after (MkSystem (new config) [] [] [] [] [] 0) (started (new config)).

(** The HTTP client fails with [SendFailed], or the task that runs it is gone. *)
Definition http_failure (e : UpstreamRequestError) : bool :=
  match e with UpstreamRequestError.SendFailed _ | UpstreamRequestError.ChannelClosed => true | _ => false end.

Definition http_result (s : System) (q : UpstreamRequest) (now : Instant) (reply : SendResult) : SendResult :=
  response ← reply;
  handle_response now response (intercept_status_errors (UpstreamRequest.config q))
    (max_api_payload_size (config (relay s))).

Inductive step : System -> System -> Prop :=
| step_authenticate s l1 l2 now interval r :
    mailbox s = l1 ++ Authenticate :: l2 ->
    handle_authenticate (relay s) (channels s) now = Ret (Some (interval, r)) ->
    step s (after (open_channel (set_mailbox s (l1 ++ l2)) (WaitChallenge interval)) r)
| step_refused s l1 l2 now :
    mailbox s = l1 ++ Authenticate :: l2 ->
    handle_authenticate (relay s) (channels s) now = Ret None ->
    step s (set_mailbox s (l1 ++ l2))
| step_challenge s l1 c interval l2 answer now r :
    waiting s = l1 ++ (c, WaitChallenge interval) :: l2 -> (c, answer) ∈ answers s ->
    on_challenge (relay s) interval answer (channels s) now = Ret (true, r) ->
    step s (after (open_channel (set_waiting s (l1 ++ l2)) (WaitRegistration interval)) r)
| step_challenge_failed s l1 c interval l2 answer now r :
    waiting s = l1 ++ (c, WaitChallenge interval) :: l2 -> (c, answer) ∈ answers s ->
    on_challenge (relay s) interval answer (channels s) now = Ret (false, r) ->
    step s (after (set_waiting s (l1 ++ l2)) r)
| step_registration s l1 c interval l2 answer :
    waiting s = l1 ++ (c, WaitRegistration interval) :: l2 -> (c, answer) ∈ answers s ->
    step s (after (set_waiting s (l1 ++ l2)) (on_registration (relay s) interval answer))
| step_pump s l1 l2 now r :
    mailbox s = l1 ++ PumpHttpMessageQueue :: l2 -> handle_pump (relay s) now = Ret r ->
    step s (after (set_mailbox s (l1 ++ l2)) r)
| step_check s l1 l2 now r :
    mailbox s = l1 ++ CheckUpstreamConnection :: l2 -> handle_check (relay s) (channels s) now = Ret r ->
    step s (after (open_channel (set_mailbox s (l1 ++ l2)) WaitCheck) r)
| step_checked s l1 c l2 answer r :
    waiting s = l1 ++ (c, WaitCheck) :: l2 -> (c, answer) ∈ answers s ->
    on_check (relay s) answer = Ret r ->
    step s (after (set_waiting s (l1 ++ l2)) r)
| step_finished s l1 l2 :
    mailbox s = l1 ++ TrackedFutureFinished :: l2 ->
    step s (after (set_mailbox s (l1 ++ l2)) (handle_tracked_future_finished (relay s)))
| step_send s retry intercept relay_id method path build now r :
    enqueue_request (relay s) (send_request_config retry intercept relay_id) method path build (channels s) now
      = Ret r ->
    step s (after (open_channel s Caller) r)
| step_query s query now r :
    enqueue_query (relay s) query (channels s) now = Ret r ->
    step s (after (open_channel s Caller) r)
| step_http s l1 q l2 reply now :
    flying s = l1 ++ q :: l2 -> (forall e, reply = Err e -> http_failure e = true) ->
    step s (MkSystem (relay s) (mailbox s ++ [TrackedFutureFinished]) (l1 ++ l2)
              (handling s ++ [(q, http_result s q now reply)]) (answers s) (waiting s) (channels s))
| step_handled s l1 q result l2 now r :
    handling s = l1 ++ (q, result) :: l2 -> handle_http_response (relay s) q result now = Ret r ->
    step s (after (set_handling s (l1 ++ l2)) r).

(** How often a message is on its way. *)
Definition count (m : Message) (l : list Message) : nat := List.length (filter (.= m) l).

(** The tasks of all requests that are sent fit into memory. *)
Definition in_memory (s : System) : Prop :=
  in_u64 (Z.of_nat (List.length (flying s) + count TrackedFutureFinished (mailbox s))).

Inductive reachable (config : HttpConfig) : System -> Prop :=
| reachable_initial : reachable config (initial config)
| reachable_next s s' : reachable config s -> step s s' -> in_memory s' -> reachable config s'.

(** ** What the methods do to requests, messages and the counters *)

Implicit Types (self : UpstreamRelay) (q : UpstreamRequest) (es : list Effect).

(** The channel that a request answers and how it is handled. *)
Definition tag q : nat * UpstreamRequestConfig := (UpstreamRequest.response_sender q, UpstreamRequest.config q).
Definition queues self : list UpstreamRequest := high_prio_requests self ++ low_prio_requests self.
Definition cfg_queued (c : UpstreamRequestConfig) : bool := negb (bool_decide (priority c = RequestPriority.Immediate)).

(** A relay that could send a queued request now. *)
Definition hungry self : Prop :=
  is_ready self = true /\ queues self <> [] /\ num_inflight_requests self < max_inflight_requests self.

(** Answers that end an outage or report that it goes on. *)
Definition network (r : SendResult) : bool :=
  match r with Err e => UpstreamRequestError.is_network_error e | Ok _ => false end.

(** The effect of a method that is handed the requests [moved]; they are
    [fresh] if their channel was just opened. *)
Record op (fresh : bool) (moved : list (nat * UpstreamRequestConfig)) self (r : UpstreamRelay * list Effect) : Prop := {
  op_config : config r.1 = config self /\ max_inflight_requests r.1 = max_inflight_requests self;
  op_auth : auth_state r.1 = auth_state self;
  op_silent : Authenticate ∉ messages r.2 /\ TrackedFutureFinished ∉ messages r.2;
  op_num : num_inflight_requests r.1 = wrap 64 (num_inflight_requests self + Z.of_nat (List.length (executed r.2)));
  op_bound : Forall (fun q => UpstreamRequest.queued q = false) (executed r.2) \/
             num_inflight_requests r.1 <= max_inflight_requests self;
  op_tags : exists gone, (responses r.2).*1 = gone.*1 /\
    (tag <$> queues r.1) ++ (tag <$> executed r.2) ++ gone ≡ₚ moved ++ (tag <$> queues self);
  op_queued : Forall (fun q => UpstreamRequest.queued q = true) (queues self) ->
              Forall (fun q => UpstreamRequest.queued q = true) (queues r.1);
  op_outage : is_network_outage r.1 = true ->
              is_network_outage self = true \/ CheckUpstreamConnection ∈ messages r.2;
  op_hungry : num_inflight_requests r.1 = num_inflight_requests self + Z.of_nat (List.length (executed r.2)) ->
              hungry r.1 -> PumpHttpMessageQueue ∈ messages r.2 \/ hungry self \/ is_network_outage self = true;
  op_dead c res : (c, res) ∈ responses r.2 ->
    network res = true \/ is_network_outage r.1 = false \/
    exists cfg, (c, cfg) ∈ (tag <$> queues self) \/ (c, cfg) ∈ moved /\ (fresh = true \/ retry cfg = true);
}.

Lemma messages_app es es' : messages (es ++ es') = messages es ++ messages es'.
Proof. apply omap_app. Qed.
Lemma executed_app es es' : executed (es ++ es') = executed es ++ executed es'.
Proof. apply omap_app. Qed.
Lemma responses_app es es' : responses (es ++ es') = responses es ++ responses es'.
Proof. apply omap_app. Qed.

(** Requests that two methods move one after the other. *)
Lemma tags_step {A} (q0 q1 q2 x1 x2 g1 g2 m : list A) :
  q1 ++ x1 ++ g1 ≡ₚ q0 -> q2 ++ x2 ++ g2 ≡ₚ m ++ q1 -> q2 ++ (x1 ++ x2) ++ g1 ++ g2 ≡ₚ m ++ q0.
Proof. intros <- Hm. rewrite (app_assoc m), <- Hm. solve_Permutation. Qed.

Lemma wrap_add a b : wrap 64 (wrap 64 a + b) = wrap 64 (a + b).
Proof. unfold wrap. by rewrite Zplus_mod_idemp_l. Qed.

Lemma send_request_spec self q now r :
  send_request self q now = Ret r ->
  (exists e, r = (self, [Respond (UpstreamRequest.response_sender q) (Err e)])) \/
  exists cr, r = (set_inflight self (u64_add (num_inflight_requests self) 1),
                 [Execute (UpstreamRequest.set_send_start q now) cr]).
Proof.
  unfold send_request. intros (builder & _ & Hb)%outcome_bind_Ret.
  destruct (UpstreamRequest.build q builder); injection Hb as <-; eauto.
Qed.

(** Sending, apart from the limit on queued requests. *)
Lemma send_request_op fresh self q now r :
  in_u64 (num_inflight_requests self) ->
  UpstreamRequest.queued q = false \/ num_inflight_requests r.1 <= max_inflight_requests self ->
  fresh = true \/ retry (UpstreamRequest.config q) = true ->
  send_request self q now = Ret r -> op fresh [tag q] self r.
Proof.
  intros Hn Hb Hf [[e ->]|[cr ->]]%send_request_spec; split; simpl in *; try done.
  all: try (by left). all: try (by split; apply not_elem_of_nil).
  - rewrite Z.add_0_r. symmetry. by apply wrap_small.
  - exists [tag q]. split; [done|]. apply Permutation_app_comm.
  - auto.
  - intros c res [= -> ->]%list_elem_of_singleton. right. right. exists (UpstreamRequest.config q). right.
    split; [by apply list_elem_of_singleton|done].
  - destruct Hb as [Hb|Hb]; [left|right; done]. by constructor.
  - exists []. split; [done|]. unfold queues. simpl. apply Permutation_app_comm.
  - intros Heq (Hr & Hq & Hlt). right. left. split; [done|split; [done|]]. simpl in *. lia.
  - intros c res []%not_elem_of_nil.
Qed.

Lemma op_step fresh moved self self1 es1 self2 es2 :
  in_u64 (num_inflight_requests self) ->
  op fresh [] self (self1, es1) -> op fresh moved self1 (self2, es2) ->
  is_network_outage self2 = is_network_outage self1 ->
  Forall (fun q => UpstreamRequest.queued q = false) (executed (es1 ++ es2)) \/
    num_inflight_requests self2 <= max_inflight_requests self ->
  op fresh moved self (self2, es1 ++ es2).
Proof.
  intros Hn Ha Hb2 Ho Hb.
  destruct Ha as [[C1 M1] A1 [S1 T1] N1 _ (g1 & G1 & P1) Q1 O1 W1 D1], Hb2 as [[C2 M2] A2 [S2 T2] N2 _ (g2 & G2 & P2) Q2 O2 W2 D2].
  simpl in *.
  assert (forall t, t ∈ (tag <$> queues self1) -> t ∈ (tag <$> queues self)) as Hsub.
  { intros t Ht. rewrite <- P1. by apply elem_of_app; left. }
  split; simpl; rewrite ?messages_app, ?executed_app, ?responses_app, ?elem_of_app in *.
  - split; congruence.
  - congruence.
  - tauto.
  - rewrite N2, N1, wrap_add, length_app. f_equal. lia.
  - done.
  - exists (g1 ++ g2). rewrite !fmap_app, G1, G2. split; [done|].
    by eapply tags_step.
  - auto.
  - intros Hout. rewrite Ho in Hout. destruct (O1 Hout); auto.
  - rewrite length_app. intros Hnum Hh. assert (num_inflight_requests self1 = num_inflight_requests self + Z.of_nat (List.length (executed es1))).
    { rewrite N1. apply wrap_small. assert (in_u64 (num_inflight_requests self2)) as Hw by (rewrite N2; by apply wrap_in_width).
      unfold in_width in *. lia. }
    destruct W2 as [?|[Hh1|Hout]]; [lia|done|tauto| |].
    + destruct W1; [done|done|tauto|tauto].
    + exfalso. destruct Hh as [Hr _]. unfold is_ready in Hr. rewrite Ho, Hout in Hr. done.
  - intros c res [Hc|Hc]%elem_of_app.
    + destruct (D1 _ _ Hc) as [?|[?|(cfg & [Ht|[[]%not_elem_of_nil _]])]]; [tauto|right; left; congruence|eauto].
    + destruct (D2 _ _ Hc) as [?|[?|(cfg & [Ht|Ht])]]; [tauto|tauto| |]; right; right; exists cfg; [left; auto|auto].
Qed.

Lemma op_refl fresh self : in_u64 (num_inflight_requests self) -> op fresh [] self (self, []).
Proof.
  intros Hn. split; simpl; try done; try (by left); try (by split; apply not_elem_of_nil); [| |by intros; right; left|].
  - rewrite Z.add_0_r. symmetry. by apply wrap_small.
  - exists []. split; [done|]. by rewrite app_nil_r.
  - intros c res []%not_elem_of_nil.
Qed.

Lemma pop_back_Some {A} (l : list A) x rest : pop_back l = Some (x, rest) -> l = rest ++ [x].
Proof.
  unfold pop_back. destruct (rev l) as [|y k] eqn:E; [done|]. intros [= -> <-].
  by rewrite <- (rev_involutive l), E.
Qed.
Lemma pop_back_None {A} (l : list A) : pop_back l = None -> l = [].
Proof. unfold pop_back. destruct (rev l) eqn:E; [|done]. by rewrite <- (rev_involutive l), E. Qed.

(** Sending a request that was taken from a queue. *)
Lemma op_unqueue self high low msg r :
  msg :: high ++ low ≡ₚ queues self -> is_ready self = true ->
  num_inflight_requests self < max_inflight_requests self ->
  op true [tag msg] (set_queues self high low) r -> op false [] self r.
Proof.
  intros Hp Hr Hlt [? ? ? ? ? (g & Hg & Ht) Hq ? ? Hd]. split; try done.
  - exists g. split; [done|]. rewrite Ht. simpl. by rewrite <- Hp.
  - intros Hall. apply Hq. rewrite <- Hp in Hall. by apply Forall_cons in Hall as [_ ?].
  - intros _ _. right. left. split; [done|split; [|done]]. intros Hn. rewrite Hn in Hp. by apply Permutation_nil_r in Hp.
  - intros c res Hc. destruct (Hd c res Hc) as [?|[?|(cfg & Hin)]]; [auto|auto|]. right. right. exists cfg. left.
    rewrite <- Hp. simpl. destruct Hin as [Hin|[->%list_elem_of_singleton _]]; [by right|left].
Qed.

(** The next request in the order of the queues. *)
Definition next_request self : option (UpstreamRequest * UpstreamRelay) :=
  match pop_back (high_prio_requests self), pop_back (low_prio_requests self) with
  | Some (msg, high), _ => Some (msg, set_queues self high (low_prio_requests self))
  | None, Some (msg, low) => Some (msg, set_queues self (high_prio_requests self) low)
  | None, None => None
  end.

(** Requests in the order in which they are sent. *)
Definition order self : list UpstreamRequest := rev (high_prio_requests self) ++ rev (low_prio_requests self).

Lemma next_request_Some self msg self' :
  next_request self = Some (msg, self') ->
  exists high low, self' = set_queues self high low /\ msg :: high ++ low ≡ₚ queues self /\
    order self = msg :: order self'.
Proof.
  unfold next_request, queues, order. destruct (pop_back (high_prio_requests self)) as [[m h]|] eqn:Eh.
  - intros [= -> <-]. apply pop_back_Some in Eh. exists h, (low_prio_requests self). split; [done|]. simpl.
    rewrite Eh, rev_app_distr. split; [|done]. solve_Permutation.
  - destruct (pop_back (low_prio_requests self)) as [[m l]|] eqn:El; [|done]. intros [= -> <-].
    apply pop_back_None in Eh. apply pop_back_Some in El. exists (high_prio_requests self), l. split; [done|]. simpl.
    rewrite Eh, El, rev_app_distr. split; [|done]. simpl. solve_Permutation.
Qed.

Lemma next_request_None self : next_request self = None -> queues self = [].
Proof.
  unfold next_request, queues. destruct (pop_back _) as [[]|] eqn:Eh; [done|].
  destruct (pop_back (low_prio_requests self)) as [[]|] eqn:El; [done|].
  intros _. by rewrite (pop_back_None _ Eh), (pop_back_None _ El).
Qed.

Lemma queues_order self : queues self ≡ₚ order self.
Proof. unfold queues, order. by rewrite <- !Permutation_rev. Qed.

(** What the attempt to send [q] leads to. *)
Definition attempted q now es : Prop :=
  (exists e, es = [Respond (UpstreamRequest.response_sender q) (Err e)]) \/
  exists cr, es = [Execute (UpstreamRequest.set_send_start q now) cr].

(** The state apart from the queues and the counter. *)
Definition same_connection self self' : Prop :=
  self' = set_inflight (set_queues self (high_prio_requests self') (low_prio_requests self'))
            (num_inflight_requests self').

Lemma same_connection_ready self self' :
  same_connection self self' -> is_ready self' = is_ready self /\ is_network_outage self' = is_network_outage self.
Proof. intros ->. done. Qed.

Lemma pump_loop_spec now fuel : forall self r,
  in_u64 (num_inflight_requests self) -> in_u64 (max_inflight_requests self) -> is_ready self = true ->
  pump_loop fuel self now = Ret r ->
  op false [] self r /\ same_connection self r.1 /\
  (executed r.2 = [] \/ num_inflight_requests r.1 <= max_inflight_requests self) /\
  (queues r.1 = [] \/ max_inflight_requests self <= num_inflight_requests r.1) /\
  exists done ess, order self = done ++ order r.1 /\ r.2 = concat ess /\
    Forall2 (fun q es => attempted q now es) done ess.
Proof.
  induction fuel as [|fuel IH]; [done|]. intros self r Hn Hm Hr. cbn [pump_loop].
  assert (forall x, same_connection x x) as Hrefl by (by intros []).
  pose proof (op_refl false self Hn) as Hid.
  bcase (num_inflight_requests self < max_inflight_requests self) as Hlt; [|intros [= <-]; simpl].
  2: { split; [done|]. split; [done|]. split; [by left|]. split; [right; lia|]. exists [], []. by rewrite app_nil_l. }
  fold (next_request self). destruct (next_request self) as [[msg self1]|] eqn:Hnext; [|intros [= <-]; simpl].
  2: { apply next_request_None in Hnext. split; [done|]. split; [done|]. split; [by left|]. split; [by left|].
       exists [], []. by rewrite app_nil_l. }
  apply next_request_Some in Hnext as (high & low & -> & Hp & Ho).
  intros ([self2 es] & Hs & ([self3 more] & Hl & [= <-])%outcome_bind_Ret)%outcome_bind_Ret.
  assert (num_inflight_requests self2 <= max_inflight_requests self /\ in_u64 (num_inflight_requests self2) /\
          same_connection (set_queues self high low) self2 /\ order self2 = order (set_queues self high low) /\
          attempted msg now es) as (Hle & Hn2 & Hsc & Ho2 & Hat).
  { pose proof Hs as [[e [= -> ->]]|[cr [= -> ->]]]%send_request_spec; simpl; split_and!; try done; unfold attempted; eauto; try lia.
    - rewrite u64_add_small; unfold in_width in *; lia.
    - by apply wrap_in_width. }
  assert (is_ready self2 = true /\ max_inflight_requests self2 = max_inflight_requests self) as [Hr2 Hm2]
    by (by rewrite Hsc).
  destruct (IH self2 (self3, more)) as (Hop & Hsc3 & Hb & He & dn & ess & Hord & Hess & Hall); [done|by rewrite Hm2|done|done|].
  simpl in *. rewrite Hm2 in *.
  assert (num_inflight_requests self3 <= max_inflight_requests self) as Hfin.
  { destruct Hb as [Hb|Hb]; [|done]. destruct Hop as [_ _ _ N _ _ _ _ _ _]. simpl in N. rewrite N, Hb, Z.add_0_r.
    rewrite wrap_small by done. done. }
  split; [|split; [|split; [by right|split; [done|]]]].
  - eapply op_step; [done| |exact Hop| |by right].
    + eapply op_unqueue; [exact Hp|done|done|]. apply (send_request_op true _ _ now); [done|by right|by left|done].
    + by apply same_connection_ready in Hsc3 as [_ ?].
  - unfold same_connection in *. rewrite Hsc3. by rewrite Hsc.
  - exists (msg :: dn), (es :: ess). rewrite Ho, <- Ho2, Hord, Hess. split; [done|split; [done|by constructor]].
Qed.

(** Enqueueing a request notifies the queue, or sends the request at once. *)
Lemma enqueue_op fresh self q position now r :
  in_u64 (num_inflight_requests self) -> fresh = true \/ retry (UpstreamRequest.config q) = true ->
  enqueue self q position now = Ret r -> op fresh [tag q] self r /\ is_network_outage r.1 = is_network_outage self /\
    Forall (fun q => UpstreamRequest.queued q = false) (executed r.2).
Proof.
  intros Hn Hf. unfold enqueue. destruct (priority (UpstreamRequest.config q)) eqn:Ep.
  { intros Hs. assert (UpstreamRequest.queued q = false) as Hq by (unfold UpstreamRequest.queued; by rewrite Ep).
    split; [by eapply send_request_op; eauto|].
    apply send_request_spec in Hs as [[e ->]|[cr ->]]; split; (done || by constructor). }
  all: intros [= <-]; split; [|split; [done|by constructor]]; split; simpl; try done; try (by left).
  all: try (by split; intros ?%list_elem_of_singleton).
  all: try (rewrite Z.add_0_r; symmetry; by apply wrap_small).
  all: try (by left; left). all: try (by intros c res []%not_elem_of_nil).
  all: try (intros _ _; left; by apply list_elem_of_singleton).
  - exists []. split; [done|]. transitivity (tag <$> (q :: queues self)); [|done].
    rewrite app_nil_r. apply fmap_Permutation. unfold queues. simpl. destruct position; [done|]. solve_Permutation.
  - unfold queues. simpl. rewrite !Forall_app. intros [Hh Hl].
    assert (UpstreamRequest.queued q = true) by (unfold UpstreamRequest.queued; by rewrite Ep).
    destruct position; simpl; rewrite ?Forall_app, ?Forall_cons, ?Forall_nil; tauto.
  - exists []. split; [done|]. transitivity (tag <$> (q :: queues self)); [|done].
    rewrite app_nil_r. apply fmap_Permutation. unfold queues. simpl. destruct position; solve_Permutation.
  - unfold queues. simpl. rewrite !Forall_app. intros [Hh Hl].
    assert (UpstreamRequest.queued q = true) by (unfold UpstreamRequest.queued; by rewrite Ep).
    destruct position; simpl; rewrite ?Forall_app, ?Forall_cons, ?Forall_nil; tauto.
Qed.

Lemma set_outage_op self b fe es :
  in_u64 (num_inflight_requests self) -> executed es = [] -> responses es = [] ->
  Authenticate ∉ messages es -> TrackedFutureFinished ∉ messages es ->
  (RetryBackoff.started b = true -> is_network_outage self = true \/ CheckUpstreamConnection ∈ messages es) ->
  op false [] self (set_outage self b fe, es).
Proof.
  intros Hn He Hr Ha Ht Ho. split; simpl; rewrite ?He, ?Hr; try done.
  - rewrite Z.add_0_r. symmetry. by apply wrap_small.
  - by left.
  - exists []. split; [done|]. by rewrite app_nil_r.
  - intros _ (Hrd & Hq & Hlt). destruct (is_network_outage self) eqn:E; [auto|]. right. left.
    split; [|done]. unfold is_ready in *. rewrite E. simpl in Hrd.
    by destruct (is_network_outage (set_outage self b fe)).
  - intros c res []%not_elem_of_nil.
Qed.

Lemma upstream_connection_check_op self r :
  in_u64 (num_inflight_requests self) -> upstream_connection_check self = Ret r ->
  op false [] self r /\ CheckUpstreamConnection ∈ messages r.2 /\ executed r.2 = [].
Proof.
  intros Hn ([d b] & _ & [= <-])%outcome_bind_Ret. split; [|split; [by apply list_elem_of_singleton|done]].
  apply set_outage_op; try done; simpl; rewrite ?list_elem_of_singleton; auto.
Qed.

Lemma handle_network_error_op self now r :
  in_u64 (num_inflight_requests self) -> handle_network_error self now = Ret r ->
  op false [] self r /\ executed r.2 = [].
Proof.
  intros Hn (deadline & _ & Hd)%outcome_bind_Ret. simpl in Hd. case_bool_decide.
  - injection Hd as <-. split; [|done]. apply set_outage_op; try done; try apply not_elem_of_nil. auto.
  - destruct (RetryBackoff.started _) eqn:Es.
    + injection Hd as <-. split; [|done]. apply set_outage_op; try done; try apply not_elem_of_nil. auto.
    + apply outcome_bind_Ret in Hd as ([d b] & _ & [= <-]). split; [|done].
      apply (set_outage_op self b); try done; simpl; rewrite ?list_elem_of_singleton; auto.
Qed.

(** The methods that finish a request. *)
Lemma handle_http_response_op self q result now r :
  in_u64 (num_inflight_requests self) -> handle_http_response self q result now = Ret r -> op false [tag q] self r.
Proof.
  intros Hn. unfold handle_http_response.
  assert (forall self' es, op false [] self (self', es) -> network result = true \/ is_network_outage self' = false ->
    op false [tag q] self (self', es ++ [Respond (UpstreamRequest.response_sender q) result])) as Hres.
  { intros self' es [? ? ? N B (g & Hg & Hp) ? ? Hw Hd] Hnet. split; simpl in *; try done;
      rewrite ?messages_app, ?executed_app, ?responses_app, ?app_nil_r; try done.
    - exists (g ++ [tag q]). rewrite !fmap_app, Hg. split; [done|]. rewrite <- Hp. solve_Permutation.
    - intros c res [Hc|[= -> ->]%list_elem_of_singleton]%elem_of_app; [|tauto].
      destruct (Hd c res Hc) as [?|[?|(cfg & [?|[[]%not_elem_of_nil _]])]]; eauto. }
  assert (op false [] self (reset_network_error self, [])) as Hreset.
  { apply set_outage_op; try done; try apply not_elem_of_nil. }
  destruct result as [resp|err]; [intros [= <-]; apply (Hres _ []); [done|by right]|].
  destruct (UpstreamRequestError.is_network_error err) eqn:Enet; [|intros [= <-]; apply (Hres _ []); [done|by right]].
  intros ([self1 es1] & He & Hrest)%outcome_bind_Ret. pose proof He as [Hop Hx]%handle_network_error_op; [|done].
  destruct (retry (UpstreamRequest.config q)) eqn:Eretry; [|injection Hrest as <-; apply Hres; auto].
  apply outcome_bind_Ret in Hrest as ([self2 es2] & Hq & [= <-]).
  assert (in_u64 (num_inflight_requests self1)) as Hn1.
  { destruct Hop as [_ _ _ N _ _ _ _ _ _]. simpl in N. rewrite N. by apply wrap_in_width. }
  apply (enqueue_op false) in Hq as (Hop2 & Ho & Hi); [|done|by right].
  eapply op_step; [done|exact Hop|exact Hop2|done|]. left. rewrite executed_app. simpl in *. by rewrite Hx.
Qed.

Lemma enqueue_request_op self cfg method path build c now r :
  in_u64 (num_inflight_requests self) -> enqueue_request self cfg method path build c now = Ret r ->
  op true [(c, cfg)] self r.
Proof. intros Hn Hq. apply (enqueue_op true) in Hq as [Hop _]; auto. Qed.

Lemma enqueue_query_op self query c now r :
  in_u64 (num_inflight_requests self) -> enqueue_query self query c now = Ret r ->
  op true [(c, MkRequestConfig (query_priority query) (query_retry query) true true)] self r.
Proof.
  intros Hn. unfold enqueue_query. destruct (credentials_id _) as [id|].
  - destruct (pack _) as [json signature]. by apply enqueue_request_op.
  - intros [= <-]. destruct (op_refl true self Hn) as [? ? ? ? ? (g & Hg & Hp) ? ? ? ?]. split; simpl in *; try done.
    + exists [(c, MkRequestConfig (query_priority query) (query_retry query) true true)]. split; [done|].
      apply Permutation_app_comm.
    + intros c' res [= -> ->]%list_elem_of_singleton. right. right. eexists. right. split; [by apply list_elem_of_singleton|auto].
Qed.

Lemma on_check_op self answer r :
  in_u64 (num_inflight_requests self) -> on_check self answer = Ret r ->
  op false [] self r /\ (CheckUpstreamConnection ∈ messages r.2 \/ PumpHttpMessageQueue ∈ messages r.2) /\
  (network answer = true -> CheckUpstreamConnection ∈ messages r.2).
Proof.
  intros Hn. unfold on_check.
  assert (op false [] self (self, [Notify PumpHttpMessageQueue])) as Hp.
  { pose proof (set_outage_op self (outage_backoff self) (first_error self) [Notify PumpHttpMessageQueue] Hn) as Hs.
    destruct self. apply Hs; try done; simpl; rewrite ?list_elem_of_singleton; auto. }
  assert (PumpHttpMessageQueue ∈ messages [Notify PumpHttpMessageQueue]) as Hin by (by apply list_elem_of_singleton).
  destruct (answer ≫= _) as [x|err] eqn:Ea; [intros [= <-]|destruct (UpstreamRequestError.is_network_error err) eqn:En].
  - split; [done|]. split; [auto|]. by destruct answer.
  - intros (? & ? & _)%upstream_connection_check_op; auto.
  - intros [= <-]. split; [done|]. split; [auto|]. destruct answer; [done|]. simpl in Ea. injection Ea as ->.
    unfold network. by rewrite En.
Qed.

Lemma handle_pump_op self now r :
  in_u64 (num_inflight_requests self) -> in_u64 (max_inflight_requests self) -> handle_pump self now = Ret r ->
  op false [] self r /\ ~ hungry r.1.
Proof.
  intros Hn Hm. unfold handle_pump, hungry. destruct (is_ready self) eqn:Er.
  - intros (Hop & Hsc & _ & He & _)%pump_loop_spec; try done. split; [done|]. intros (_ & Hq & Hlt).
    destruct (op_config _ _ _ _ Hop) as [_ Hmax]. destruct He; [done|lia].
  - intros [= <-]. split; [by apply op_refl|]. intros [Hr _]. simpl in Hr. congruence.
Qed.

(** ** Invariants of the system *)

(** The clauses about requests, with the requests [moved] in the hands of the
    method that runs. *)
Record core (cfg : HttpConfig) (moved : list (nat * UpstreamRequestConfig)) (s : System) : Prop := {
  core_config : config (relay s) = cfg /\ max_inflight_requests (relay s) = max_concurrent_requests cfg;
  core_num : num_inflight_requests (relay s) =
             Z.of_nat (List.length (flying s) + count TrackedFutureFinished (mailbox s));
  core_memory : in_memory s;
  core_bound : Z.of_nat (List.length (List.filter UpstreamRequest.queued (flying s))) <= max_concurrent_requests cfg;
  core_tags : moved.*1 ++ (tag <$> queues (relay s)).*1 ++ (tag <$> flying s).*1 ++ (tag <$> (handling s).*1).*1
              ++ (answers s).*1 ≡ₚ seq 0 (channels s);
  core_queued : Forall (fun q => UpstreamRequest.queued q = true) (queues (relay s));
  core_waiting : Forall (fun w => (w.1 < channels s)%nat) (waiting s);
  core_checks t : t ∈ moved ++ (tag <$> queues (relay s)) ++ (tag <$> flying s) ++ (tag <$> (handling s).*1) ->
                  (t.1, WaitCheck) ∈ waiting s -> t.2 = check_config;
}.

Lemma count_app m l l' : count m (l ++ l') = (count m l + count m l')%nat.
Proof. unfold count. by rewrite filter_app, length_app. Qed.

Lemma count_0 m l : m ∉ l -> count m l = 0%nat.
Proof.
  unfold count. induction l as [|x l IH]; [done|]. intros [Hx Hl]%not_elem_of_cons.
  rewrite filter_cons_False by congruence. auto.
Qed.

Lemma count_middle m l1 x l2 : count m (l1 ++ x :: l2) = (count m (l1 ++ l2) + if bool_decide (x = m) then 1 else 0)%nat.
Proof.
  rewrite !count_app. unfold count at 2. rewrite filter_cons. fold (count m l2).
  case_decide; [rewrite bool_decide_true by done|rewrite bool_decide_false by done]; simpl; unfold count; lia.
Qed.

Lemma core_in_u64 cfg moved s : core cfg moved s -> in_u64 (num_inflight_requests (relay s)).
Proof. intros [_ N M _ _ _ _ _]. by rewrite N. Qed.

Lemma op_num_exact fresh moved s r :
  op fresh moved (relay s) r -> in_memory (after s r) ->
  num_inflight_requests (relay s) = Z.of_nat (List.length (flying s) + count TrackedFutureFinished (mailbox s)) ->
  num_inflight_requests r.1 = num_inflight_requests (relay s) + Z.of_nat (List.length (executed r.2)).
Proof.
  intros [_ _ [_ Ht] N _ _ _ _ _ _] Hm Hn. rewrite N. apply wrap_small. unfold in_memory in Hm. simpl in Hm.
  rewrite count_app, (count_0 _ _ Ht), length_app in Hm. unfold in_width in *. lia.
Qed.

(** A method keeps the clauses about requests. *)
Lemma core_after fresh cfg moved s r :
  core cfg moved s -> op fresh moved (relay s) r -> in_memory (after s r) -> core cfg [] (after s r).
Proof.
  intros Hc Hop Hm. pose proof (op_num_exact _ _ _ _ Hop Hm (core_num _ _ _ Hc)) as Hx.
  destruct Hc as [[Hcfg Hmax] N M B T Q W C], Hop as [[C1 M1] _ [_ Ht] _ Bn (gone & Hg & Hp) Qn _ _ _].
  split; simpl; try done.
  - split; congruence.
  - rewrite Hx, N, length_app, count_app, (count_0 _ _ Ht). lia.
  - rewrite List.filter_app, length_app. destruct Bn as [Bn|Bn].
    + rewrite (filter_none_nil _ _ Bn). simpl. lia.
    + pose proof (List.filter_length_le UpstreamRequest.queued (flying s)).
      pose proof (List.filter_length_le UpstreamRequest.queued (executed r.2)). lia.
  - rewrite !fmap_app, Hg, <- T. apply (fmap_Permutation fst) in Hp. rewrite !fmap_app in Hp.
    rewrite (app_assoc moved.*1), <- Hp. solve_Permutation.
  - auto.
  - intros t Hin Hw. apply C; [|done]. rewrite !elem_of_app, fmap_app, elem_of_app in Hin.
    assert (t ∈ (tag <$> queues r.1) ++ (tag <$> executed r.2) ++ gone -> t ∈ moved ++ (tag <$> queues (relay s))) as Hsub
      by (by rewrite Hp).
    rewrite !elem_of_app in *. tauto.
Qed.

(** The clauses about messages: during an outage a check is on its way, and
    when requests could be sent something will make the actor send them. *)
Definition live_check (s : System) : Prop :=
  CheckUpstreamConnection ∈ mailbox s \/
  exists c, (c, WaitCheck) ∈ waiting s /\ forall res, (c, res) ∈ answers s -> network res = true.
Definition wakeup (s : System) : Prop :=
  PumpHttpMessageQueue ∈ mailbox s \/ CheckUpstreamConnection ∈ mailbox s \/ exists c, (c, WaitCheck) ∈ waiting s.
Definition wake (s : System) : Prop :=
  (is_network_outage (relay s) = true -> live_check s) /\ (hungry (relay s) -> wakeup s).

Lemma wake_after fresh cfg moved s r :
  core cfg moved s -> op fresh moved (relay s) r -> in_memory (after s r) ->
  (is_network_outage (relay s) = true -> live_check s \/ CheckUpstreamConnection ∈ messages r.2) ->
  (hungry (relay s) -> hungry r.1 -> wakeup (after s r)) ->
  (forall c res, (c, res) ∈ responses r.2 -> (c, WaitCheck) ∈ waiting s -> is_network_outage r.1 = true ->
    network res = true) ->
  wake (after s r).
Proof.
  intros Hc Hop Hm Hlive Hhungry Hdead. pose proof (op_num_exact _ _ _ _ Hop Hm (core_num _ _ _ Hc)) as Hx.
  unfold wake, live_check, wakeup in *. simpl. setoid_rewrite elem_of_app. split.
  - intros Ho. destruct (op_outage _ _ _ _ Hop Ho) as [Hs|Hs]; [|auto].
    destruct (Hlive Hs) as [[?|(c & Hw & Ha)]|?]; [auto| |auto]. right. exists c. split; [done|].
    intros res [?|?]; eauto.
  - intros Hh. destruct (op_hungry _ _ _ _ Hop Hx Hh) as [?|[Hs|Ho]]; [auto| |].
    + specialize (Hhungry Hs Hh). simpl in Hhungry. rewrite !elem_of_app in Hhungry. done.
    + destruct (Hlive Ho) as [[?|(c & Hw & _)]|?]; eauto 6.
Qed.

(** Answers that a method gives do not hide an outage from a check. *)
Lemma op_answers fresh cfg moved s r c res :
  core cfg moved s -> op fresh moved (relay s) r ->
  (forall c cfg, fresh = true -> (c, cfg) ∈ moved -> (c, WaitCheck) ∉ waiting s) ->
  (c, res) ∈ responses r.2 -> (c, WaitCheck) ∈ waiting s -> is_network_outage r.1 = true -> network res = true.
Proof.
  intros Hc Hop Hfresh Hin Hw Ho.
  destruct (op_dead _ _ _ _ Hop c res Hin) as [?|[?|(cf & [Ht|[Ht [->|Hr]]])]]; [done|congruence| | |].
  - exfalso. assert (cf = check_config) as ->.
    { apply (core_checks _ _ _ Hc (c, cf)); [|done]. rewrite !elem_of_app. auto. }
    apply list_elem_of_fmap in Ht as (q & Htag & Hq). injection Htag as _ Hcfg.
    pose proof (core_queued _ _ _ Hc) as HQ. rewrite Forall_forall in HQ. apply HQ in Hq.
    unfold UpstreamRequest.queued in Hq. by rewrite <- Hcfg in Hq.
  - by destruct (Hfresh c cf).
  - exfalso. assert (cf = check_config) as ->; [|done].
    apply (core_checks _ _ _ Hc (c, cf)); [|done]. rewrite !elem_of_app. auto.
Qed.

(** ** Taking a message, a request or an answer *)

Definition set_relay (s : System) self : System :=
  MkSystem self (mailbox s) (flying s) (handling s) (answers s) (waiting s) (channels s).

Lemma core_set_auth cfg moved s b st :
  core cfg moved s -> core cfg moved (set_relay s (set_auth (relay s) b st)).
Proof. intros [? ? ? ? ? ? ? ?]. by split. Qed.

Lemma core_set_mailbox cfg moved s l1 m l2 :
  mailbox s = l1 ++ m :: l2 -> m <> TrackedFutureFinished -> core cfg moved s ->
  core cfg moved (set_mailbox s (l1 ++ l2)).
Proof.
  intros Hl Hm [? N M ? ? ? ? ?].
  assert (count TrackedFutureFinished (mailbox s) = count TrackedFutureFinished (l1 ++ l2)) as Hc
    by (rewrite Hl, count_middle, bool_decide_false by done; lia).
  unfold in_memory in M. rewrite Hc in N, M. by split.
Qed.

Lemma core_set_waiting cfg moved s l1 w l2 :
  waiting s = l1 ++ w :: l2 -> core cfg moved s -> core cfg moved (set_waiting s (l1 ++ l2)).
Proof.
  intros Hl [? ? ? ? ? ? W C]. split; try done; simpl; rewrite Hl in *.
  - rewrite Forall_app, Forall_cons in W. rewrite Forall_app. tauto.
  - intros t Ht Hw. apply C; [done|]. rewrite elem_of_app, elem_of_cons in *. tauto.
Qed.

Lemma core_set_handling cfg s l1 q res l2 :
  handling s = l1 ++ (q, res) :: l2 -> core cfg [] s -> core cfg [tag q] (set_handling s (l1 ++ l2)).
Proof.
  intros Hl [? ? ? ? T ? ? C]. split; try done; simpl; rewrite Hl in *.
  - rewrite <- T. rewrite !fmap_app. simpl. solve_Permutation.
  - intros t Ht Hw. apply C; [|done]. rewrite !fmap_app in *. simpl. rewrite ?elem_of_app, ?elem_of_cons, ?elem_of_app in *. tauto.
Qed.

Lemma channel_lt cfg moved s t :
  core cfg moved s -> t ∈ moved ++ (tag <$> queues (relay s)) ++ (tag <$> flying s) ++ (tag <$> (handling s).*1) ->
  (t.1 < channels s)%nat.
Proof.
  intros [_ _ _ _ T _ _ _] Ht. assert (t.1 ∈ seq 0 (channels s)) as Hs; [|apply elem_of_seq in Hs; lia].
  rewrite <- T. apply (list_elem_of_fmap_2 fst) in Ht. rewrite !fmap_app in Ht. rewrite !elem_of_app in *. tauto.
Qed.

Lemma answer_lt cfg moved s c res : core cfg moved s -> (c, res) ∈ answers s -> (c < channels s)%nat.
Proof.
  intros [_ _ _ _ T _ _ _] Ht. assert (c ∈ seq 0 (channels s)) as Hs; [|apply elem_of_seq in Hs; lia].
  rewrite <- T. apply (list_elem_of_fmap_2 fst) in Ht. rewrite !elem_of_app. auto.
Qed.

Lemma fresh_waiting cfg moved s w : core cfg moved s -> (channels s, w) ∉ waiting s.
Proof. intros [_ _ _ _ _ _ W _] Hin. rewrite Forall_forall in W. apply W in Hin. simpl in Hin. lia. Qed.

Lemma core_open_channel cfg s w cf :
  w <> WaitCheck \/ cf = check_config -> core cfg [] s -> core cfg [(channels s, cf)] (open_channel s w).
Proof.
  intros Hw Hc. pose proof Hc as [? ? ? ? T ? W C]. split; try done; cbn -[seq].
  - rewrite seq_S, <- T. apply Permutation_cons_append.
  - rewrite Forall_app, Forall_singleton. split; [|simpl; lia]. eapply Forall_impl; [exact W|]. simpl. lia.
  - intros t Ht [Hold|[= Heq <-]%list_elem_of_singleton]%elem_of_app.
    + apply elem_of_cons in Ht as [->|Ht]; [by destruct (fresh_waiting _ _ _ WaitCheck Hc)|]. by apply C.
    + apply elem_of_cons in Ht as [->|Ht]; [by destruct Hw|]. pose proof (channel_lt _ _ _ _ Hc Ht). lia.
Qed.

Lemma core_http cfg s l1 q l2 result :
  flying s = l1 ++ q :: l2 -> core cfg [] s ->
  core cfg [] (MkSystem (relay s) (mailbox s ++ [TrackedFutureFinished]) (l1 ++ l2) (handling s ++ [(q, result)])
                 (answers s) (waiting s) (channels s)).
Proof.
  intros Hf [? N M B T ? ? C].
  assert ((List.length (l1 ++ l2) + count TrackedFutureFinished (mailbox s ++ [TrackedFutureFinished]))%nat =
          (List.length (flying s) + count TrackedFutureFinished (mailbox s))%nat) as Hlen.
  { rewrite Hf, count_app, !length_app. cbn [List.length]. change (count _ [_]) with 1%nat. lia. }
  split; try done; unfold in_memory in *; simpl; rewrite ?Hlen; try done.
  - rewrite Hf, !List.filter_app, !length_app in *. simpl in B. destruct (UpstreamRequest.queued q); simpl in B; lia.
  - rewrite <- T, Hf, !fmap_app. simpl. solve_Permutation.
  - intros t Ht Hw. apply C; [|done]. rewrite Hf. rewrite !fmap_app in *. simpl.
    simpl in Ht. rewrite ?elem_of_app, ?elem_of_cons, ?elem_of_app in *. rewrite elem_of_nil in Ht. tauto.
Qed.

(** Finishing a tracked future takes its message and decrements the counter. *)
Lemma core_finished cfg s l1 l2 :
  mailbox s = l1 ++ TrackedFutureFinished :: l2 -> core cfg [] s ->
  core cfg [] (after (set_mailbox s (l1 ++ l2)) (handle_tracked_future_finished (relay s))).
Proof.
  intros Hl [? N M ? ? ? ? ?].
  rewrite Hl, count_middle, bool_decide_true in N by done. unfold in_memory in M. rewrite Hl, count_middle, bool_decide_true in M by done.
  assert (count TrackedFutureFinished ((l1 ++ l2) ++ [PumpHttpMessageQueue]) = count TrackedFutureFinished (l1 ++ l2)) as Hc
    by (rewrite count_app; change (count TrackedFutureFinished [_]) with 0%nat; lia).
  split; unfold in_memory; simpl; rewrite ?Hc, ?app_nil_r; try done; unfold in_width in *; [|lia].
  rewrite u64_sub_small; unfold in_width; lia.
Qed.

(** Messages and waiting checks that a step leaves alone. *)
Record keeps (s s' : System) : Prop := {
  keeps_check : CheckUpstreamConnection ∈ mailbox s -> CheckUpstreamConnection ∈ mailbox s';
  keeps_pump : PumpHttpMessageQueue ∈ mailbox s -> PumpHttpMessageQueue ∈ mailbox s';
  keeps_waiting c : (c, WaitCheck) ∈ waiting s -> (c, WaitCheck) ∈ waiting s';
  keeps_answers : answers s' = answers s;
}.

Lemma keeps_live s s' : keeps s s' -> live_check s -> live_check s'.
Proof. intros [? ? ? Ha] [?|(c & ? & ?)]; [left; auto|right]. exists c. rewrite Ha. auto. Qed.
Lemma keeps_wakeup s s' : keeps s s' -> wakeup s -> wakeup s'.
Proof. intros [? ? ? ?] [?|[?|[c ?]]]; unfold wakeup; eauto. Qed.
Lemma wakeup_after s r : wakeup s -> wakeup (after s r).
Proof. unfold wakeup. simpl. setoid_rewrite elem_of_app. tauto. Qed.

Lemma elem_of_middle {A} (m x : A) l1 l2 : m ∈ l1 ++ x :: l2 -> m <> x -> m ∈ l1 ++ l2.
Proof. rewrite !elem_of_app, elem_of_cons. tauto. Qed.

(** A method that is started by something other than the messages and answers
    that [wake] counts on. *)
Lemma wake_op fresh cfg moved s s0 r :
  core cfg moved s0 -> op fresh moved (relay s0) r -> in_memory (after s0 r) -> keeps s s0 -> wake s ->
  (is_network_outage (relay s0) = true -> is_network_outage (relay s) = true) ->
  (hungry (relay s0) -> hungry (relay s)) ->
  (forall c cfg, fresh = true -> (c, cfg) ∈ moved -> (c, WaitCheck) ∉ waiting s0) ->
  wake (after s0 r).
Proof.
  intros Hc Hop Hm Hk [Hl Hh] Ho Hhu Hf. eapply wake_after; try done.
  - intros Hout. left. eapply keeps_live; eauto.
  - intros Hs _. apply wakeup_after. eapply keeps_wakeup; eauto.
  - intros c res. by eapply op_answers.
Qed.

(** ** Authentication *)

Definition is_auth (w : nat * Waiting) : bool :=
  match w.2 with WaitChallenge _ | WaitRegistration _ => true | _ => false end.

(** The authentications under way: requested, or waiting for an answer. *)
Definition auth_chain (s : System) : nat :=
  (count Authenticate (mailbox s) + List.length (List.filter is_auth (waiting s)))%nat.

(** How many there are, by the state of the authentication. *)
Definition expected_chain self : nat :=
  match auth_state self with
  | AuthState.Denied => 0
  | AuthState.Registered => if should_renew_auth self then 1 else 0
  | AuthState.Unknown | AuthState.Registering | AuthState.Renewing => 1
  end.

Definition auth_inv (s : System) : Prop :=
  if should_authenticate (relay s) then
    match credentials_id (config (relay s)) with
    | Some _ => auth_chain s = expected_chain (relay s)
    | None => auth_state (relay s) = AuthState.Unknown /\ (auth_chain s <= 1)%nat /\
              List.filter is_auth (waiting s) = []
    end
  else auth_state (relay s) = AuthState.Unknown /\ auth_chain s = 0%nat.

(** Methods that leave the authentication alone. *)
Lemma auth_after fresh moved s s0 r :
  op fresh moved (relay s0) r -> config (relay s0) = config (relay s) -> auth_state (relay s0) = auth_state (relay s) ->
  auth_chain s0 = auth_chain s -> List.filter is_auth (waiting s0) = List.filter is_auth (waiting s) ->
  auth_inv s -> auth_inv (after s0 r).
Proof.
  intros [[Hcfg _] Ha [Hs _] _ _ _ _ _ _ _] Hc0 Ha0 Hch Hw Hinv.
  assert (auth_chain (after s0 r) = auth_chain s0) as Hchain.
  { unfold auth_chain. simpl. rewrite count_app, (count_0 _ _ Hs). lia. }
  unfold auth_inv, expected_chain, should_renew_auth, renew_auth_interval, should_authenticate in *. simpl.
  by rewrite Hcfg, Ha, Hchain, Hc0, Ha0, Hch, Hw.
Qed.

Lemma chain_message s l1 m l2 :
  mailbox s = l1 ++ m :: l2 ->
  auth_chain s = (auth_chain (set_mailbox s (l1 ++ l2)) + if bool_decide (m = Authenticate) then 1 else 0)%nat.
Proof. intros Hl. unfold auth_chain. simpl. rewrite Hl, count_middle. lia. Qed.

Lemma chain_waiting s l1 w l2 :
  waiting s = l1 ++ w :: l2 ->
  auth_chain s = (auth_chain (set_waiting s (l1 ++ l2)) + if is_auth w then 1 else 0)%nat.
Proof.
  intros Hl. unfold auth_chain. simpl. rewrite Hl, !List.filter_app, !length_app. simpl.
  destruct (is_auth w); simpl; lia.
Qed.

Lemma chain_open s w :
  auth_chain (open_channel s w) = (auth_chain s + if is_auth (0%nat, w) then 1 else 0)%nat.
Proof.
  unfold auth_chain. simpl. rewrite List.filter_app, length_app. simpl. unfold is_auth. simpl. destruct w; simpl; lia.
Qed.

(** While an authentication is under way, the state allows it. *)
Lemma auth_under_way s :
  auth_inv s -> (0 < auth_chain s)%nat ->
  should_authenticate (relay s) = true /\ auth_chain s = 1%nat /\ auth_state (relay s) <> AuthState.Denied /\
  (credentials_id (config (relay s)) = None -> auth_state (relay s) = AuthState.Unknown) /\
  (is_Some (credentials_id (config (relay s))) -> get_auth_state_error (relay s) = None).
Proof.
  unfold auth_inv, get_auth_state_error, expected_chain. destruct (should_authenticate _); [|lia]. simpl.
  destruct (credentials_id _) as [id|].
  - destruct (auth_state (relay s)) eqn:Es; simpl; intros Hc Hlt; try lia; try (by rewrite Hc).
    destruct (should_renew_auth (relay s)); [|lia]. by rewrite Hc.
  - intros (-> & Hc & _) Hlt. split; [done|]. split; [lia|]. split; [done|]. split; [done|]. by intros [].
Qed.

(** Only with credentials an answer is waited for. *)
Lemma auth_credentials s l1 w l2 :
  auth_inv s -> waiting s = l1 ++ w :: l2 -> is_auth w = true ->
  is_Some (credentials_id (config (relay s))) /\ auth_chain s = 1%nat /\ auth_chain (set_waiting s (l1 ++ l2)) = 0%nat.
Proof.
  intros Hinv Hl Hw. pose proof (chain_waiting s l1 w l2 Hl) as Hc. rewrite Hw in Hc.
  destruct (auth_under_way s Hinv) as (Hsa & Hone & _); [lia|]. split; [|lia].
  unfold auth_inv in Hinv. rewrite Hsa in Hinv. destruct (credentials_id _); [done|].
  destruct Hinv as (_ & _ & Hf). rewrite Hl, List.filter_app in Hf. simpl in Hf. rewrite Hw in Hf.
  by apply app_eq_nil in Hf as [_ ?].
Qed.

(** The states after an authentication has succeeded or failed. *)
Lemma authentication_failed_spec s s0 interval err :
  relay s0 = relay s -> auth_inv s -> auth_chain s = 1%nat -> auth_chain s0 = 0%nat ->
  is_Some (credentials_id (config (relay s))) -> auth_inv (after s0 (authentication_failed (relay s) interval err)).
Proof.
  intros Hr Hinv Hc1 Hc0 [id Hid]. destruct (auth_under_way s) as (Hsa & _ & Hnd & _); [done|lia|].
  unfold auth_inv in *. rewrite Hsa, Hid, Hc1 in Hinv. unfold authentication_failed.
  destruct (UpstreamRequestError.is_permanent_rejection err); [|destruct (UpstreamRequestError.is_network_error err)].
  all: unfold auth_inv, should_authenticate in *; simpl; rewrite ?Hsa, ?Hid; unfold auth_chain in *; simpl;
    rewrite count_app; change (count Authenticate []) with 0%nat; change (count Authenticate [Authenticate]) with 1%nat.
  - unfold expected_chain. simpl. lia.
  - rewrite <- Hinv. lia.
  - unfold expected_chain. simpl. lia.
Qed.

Lemma on_registration_spec s s0 interval answer :
  relay s0 = relay s -> auth_inv s -> auth_chain s = 1%nat -> auth_chain s0 = 0%nat ->
  is_Some (credentials_id (config (relay s))) -> auth_inv (after s0 (on_registration (relay s) interval answer)).
Proof.
  intros Hr Hinv Hc1 Hc0 Hid. unfold on_registration.
  destruct (query_response _ _) as [x|err]; [|by eapply authentication_failed_spec].
  destruct (auth_under_way s) as (Hsa & _); [done|lia|]. destruct Hid as [id Hid].
  unfold auth_inv, should_authenticate in *. simpl. rewrite Hsa, Hid. unfold auth_chain in *. simpl.
  unfold expected_chain, should_renew_auth. simpl. rewrite messages_app, !count_app. simpl.
  change (count Authenticate [PumpHttpMessageQueue]) with 0%nat.
  destruct (renew_auth_interval _); simpl; [change (count Authenticate [Authenticate]) with 1%nat|
    change (count Authenticate []) with 0%nat]; lia.
Qed.

(** ** Preservation *)

(** The check is a request without a body; that reqwest can build it for the
    configured host is what the recovery from an outage relies on. *)
Definition check_request (c : nat) : UpstreamRequest :=
  UpstreamRequest.MkUpstreamRequest check_config c "GET" "/api/0/relays/live/" build_check 0 None.
Definition check_can_be_built (cfg : HttpConfig) : Prop :=
  exists builder req, prepare (new cfg) (check_request 0) = Ret builder /\ finish builder = Ok req.

Lemma handle_check_spec cfg self c now r :
  check_can_be_built cfg -> config self = cfg -> handle_check self c now = Ret r ->
  responses r.2 = [] /\ messages r.2 = [].
Proof.
  intros (b & req & Hp & Hf) Hc (builder & Hb & Hr)%outcome_bind_Ret.
  assert (builder = b) as ->.
  { unfold prepare in Hp, Hb. simpl in Hp, Hb. rewrite Hc in Hb. congruence. }
  simpl in Hr. unfold build_check in Hr. rewrite Hf in Hr. by injection Hr as <-.
Qed.

Definition inv (cfg : HttpConfig) (s : System) : Prop :=
  core cfg [] s /\ (check_can_be_built cfg -> wake s) /\ auth_inv s.

Section Preservation.
Context (cfg : HttpConfig).
Hypothesis Hmax : in_u64 (max_concurrent_requests cfg).

Lemma keeps_open s w : keeps s (open_channel s w).
Proof. split; simpl; try done. intros c Hc. apply elem_of_app. by left. Qed.
Lemma keeps_set_relay s self : keeps s (set_relay s self).
Proof. by split. Qed.
Lemma keeps_message s l1 m l2 :
  mailbox s = l1 ++ m :: l2 -> m <> CheckUpstreamConnection -> m <> PumpHttpMessageQueue ->
  keeps s (set_mailbox s (l1 ++ l2)).
Proof. intros Hl Hc Hp. split; simpl; try done; rewrite Hl; intros Hin; by eapply elem_of_middle in Hin. Qed.
Lemma keeps_answer s l1 w l2 :
  waiting s = l1 ++ w :: l2 -> w.2 <> WaitCheck -> keeps s (set_waiting s (l1 ++ l2)).
Proof.
  intros Hl Hw. split; simpl; try done. intros c Hin. rewrite Hl in Hin. eapply elem_of_middle; [exact Hin|].
  intros <-. done.
Qed.
Lemma keeps_trans s1 s2 s3 : keeps s1 s2 -> keeps s2 s3 -> keeps s1 s3.
Proof. intros [? ? ? Ha] [? ? ? Hb]. split; auto. congruence. Qed.

(** A request on a new channel that is not a check. *)
Lemma inv_request s w cf r :
  inv cfg s -> is_auth (0%nat, w) = false -> w <> WaitCheck -> op true [(channels s, cf)] (relay s) r ->
  in_memory (after (open_channel s w) r) -> inv cfg (after (open_channel s w) r).
Proof.
  intros (Hc & Hw & Ha) Hauth Hne Hop Hm. pose proof (core_open_channel cfg s w cf (or_introl Hne) Hc) as Hc0.
  split; [|split].
  - by eapply core_after.
  - intros Hcheck. eapply (wake_op true cfg [(channels s, cf)] s); try done; [apply keeps_open|by auto|].
    intros c cf' _ [= -> ->]%list_elem_of_singleton [Hin|[= <-]%list_elem_of_singleton]%elem_of_app; [|done].
    by destruct (fresh_waiting _ _ _ WaitCheck Hc).
  - eapply (auth_after true [(channels s, cf)] s); try done.
    + rewrite chain_open, Hauth. lia.
    + simpl. rewrite List.filter_app. simpl. unfold is_auth in *. simpl in *. rewrite Hauth. by rewrite app_nil_r.
Qed.

Lemma inv_pump s l1 l2 now r :
  inv cfg s -> mailbox s = l1 ++ PumpHttpMessageQueue :: l2 -> handle_pump (relay s) now = Ret r ->
  in_memory (after (set_mailbox s (l1 ++ l2)) r) -> inv cfg (after (set_mailbox s (l1 ++ l2)) r).
Proof.
  intros (Hc & Hw & Ha) Hl Hr Hm.
  pose proof (core_set_mailbox cfg [] s l1 _ l2 Hl ltac:(done) Hc) as Hc0.
  apply handle_pump_op in Hr as [Hop Hnh]; [|by eapply core_in_u64|by rewrite (proj2 (core_config _ _ _ Hc))].
  split; [by eapply core_after|split].
  - intros Hcheck. destruct (Hw Hcheck) as [Hlive Hhu]. eapply (wake_after false cfg [] (set_mailbox s (l1 ++ l2))); try done.
    + intros Ho. left. destruct (Hlive Ho) as [Hin|?]; [left|by right]. rewrite Hl in Hin. by eapply elem_of_middle in Hin.
    + intros c res. eapply op_answers; try done.
  - eapply (auth_after false [] s); try done. rewrite (chain_message s _ _ _ Hl). simpl. lia.
Qed.

Lemma inv_check s l1 l2 now r :
  inv cfg s -> mailbox s = l1 ++ CheckUpstreamConnection :: l2 -> handle_check (relay s) (channels s) now = Ret r ->
  in_memory (after (open_channel (set_mailbox s (l1 ++ l2)) WaitCheck) r) ->
  inv cfg (after (open_channel (set_mailbox s (l1 ++ l2)) WaitCheck) r).
Proof.
  intros (Hc & Hw & Ha) Hl Hr Hm.
  pose proof (core_set_mailbox cfg [] s l1 _ l2 Hl ltac:(done) Hc) as Hc1.
  pose proof (core_open_channel cfg _ WaitCheck check_config (or_intror eq_refl) Hc1) as Hc0.
  apply enqueue_request_op in Hr as Hop; [|by eapply core_in_u64].
  assert ((channels s, WaitCheck) ∈ waiting s ++ [(channels s, WaitCheck)]) as Hin
    by (apply elem_of_app; right; by apply list_elem_of_singleton).
  split; [by eapply core_after|split].
  - intros Hcheck. destruct (Hw Hcheck) as [Hlive Hhu].
    pose proof (handle_check_spec cfg _ _ _ _ Hcheck (proj1 (core_config _ _ _ Hc)) Hr) as [Hresp _].
    eapply (wake_after true cfg); try done.
    + intros Ho. left. right. exists (channels s). split; [done|]. intros res Hres. simpl in Hres.
      pose proof (answer_lt _ _ _ _ _ Hc Hres). lia.
    + intros _ _. right. right. by exists (channels s).
    + rewrite Hresp. intros c res []%not_elem_of_nil.
  - eapply (auth_after true _ s); try done.
    + rewrite chain_open, (chain_message s _ _ _ Hl). simpl. lia.
    + simpl. rewrite List.filter_app. simpl. by rewrite app_nil_r.
Qed.

Lemma inv_checked s l1 c l2 answer r :
  inv cfg s -> waiting s = l1 ++ (c, WaitCheck) :: l2 -> (c, answer) ∈ answers s -> on_check (relay s) answer = Ret r ->
  in_memory (after (set_waiting s (l1 ++ l2)) r) -> inv cfg (after (set_waiting s (l1 ++ l2)) r).
Proof.
  intros (Hc & Hw & Ha) Hl Han Hr Hm. pose proof (core_set_waiting cfg [] s l1 _ l2 Hl Hc) as Hc0.
  apply on_check_op in Hr as (Hop & Hmsg & Hnet); [|by eapply core_in_u64].
  split; [by eapply core_after|split].
  - intros Hcheck. destruct (Hw Hcheck) as [Hlive Hhu]. eapply (wake_after false cfg []); try done.
    + intros Ho. destruct (Hlive Ho) as [Hin|(c' & Hwait & Hans)]; [by left; left|]. rewrite Hl in Hwait. simpl.
      destruct (decide (c' = c)) as [->|Hne]; [right; auto|]. left. right. exists c'. split; [|done].
      eapply elem_of_middle; [exact Hwait|congruence].
    + intros _ _. unfold wakeup. simpl. rewrite !elem_of_app. tauto.
    + intros c' res. eapply op_answers; try done.
  - eapply (auth_after false [] s); try done.
    + rewrite (chain_waiting s _ _ _ Hl). simpl. lia.
    + simpl. rewrite Hl, !List.filter_app. done.
Qed.

(** Results of the authentication: they change its state and send messages. *)
Lemma inv_auth_result s s0 b st es :
  inv cfg s -> core cfg [] s0 -> relay s0 = relay s -> keeps s s0 ->
  executed es = [] -> responses es = [] -> TrackedFutureFinished ∉ messages es ->
  (is_ready (set_auth (relay s) b st) = true -> is_ready (relay s) = true \/ PumpHttpMessageQueue ∈ messages es) ->
  core cfg [] (after s0 (set_auth (relay s) b st, es)) /\
  (check_can_be_built cfg -> wake (after s0 (set_auth (relay s) b st, es))).
Proof.
  intros (Hc & Hw & Ha) Hc0 Hr Hk He Hres Ht Hready.
  assert (keeps s0 (after s0 (set_auth (relay s) b st, es))) as Hk'.
  { split; simpl; rewrite ?Hres, ?app_nil_r; try done; intros ?; apply elem_of_app; by left. }
  split.
  - rewrite <- Hr in *. destruct Hc0 as [? N M ? ? ? ? ?].
    assert (count TrackedFutureFinished (mailbox s0 ++ messages es) = count TrackedFutureFinished (mailbox s0)) as Hcnt
      by (rewrite count_app, (count_0 _ _ Ht); lia).
    split; unfold in_memory in *; simpl; rewrite ?He, ?Hres, ?app_nil_r, ?Hcnt; done.
  - intros Hcheck. destruct (Hw Hcheck) as [Hlive Hhu]. split; simpl.
    + intros Ho. eapply keeps_live; [exact Hk'|]. eapply keeps_live; eauto.
    + intros (Hrd & Hq & Hlt). destruct (Hready Hrd) as [Hrs|Hp].
      * eapply keeps_wakeup; [exact Hk'|]. eapply keeps_wakeup; [exact Hk|]. apply Hhu. done.
      * left. simpl. apply elem_of_app. by right.
Qed.

Lemma inv_intro s : core cfg [] s /\ (check_can_be_built cfg -> wake s) -> auth_inv s -> inv cfg s.
Proof. unfold inv. tauto. Qed.

Lemma set_auth_same self : set_auth self (auth_backoff self) (auth_state self) = self.
Proof. by destruct self. Qed.

Lemma inv_authentication_failed s s0 interval err :
  inv cfg s -> core cfg [] s0 -> relay s0 = relay s -> keeps s s0 ->
  auth_chain s = 1%nat -> auth_chain s0 = 0%nat -> is_Some (credentials_id (config (relay s))) ->
  inv cfg (after s0 (authentication_failed (relay s) interval err)).
Proof.
  intros Hinv Hc0 Hr Hk Hc1' Hc0' Hid. pose proof Hinv as (Hc & Hw & Ha).
  apply inv_intro; [|by eapply authentication_failed_spec]. unfold authentication_failed.
  destruct (UpstreamRequestError.is_permanent_rejection err); [|destruct (UpstreamRequestError.is_network_error err)].
  - apply inv_auth_result; try done; [apply not_elem_of_nil|]. unfold is_ready. simpl. by destruct (is_network_outage _).
  - rewrite <- (set_auth_same (relay s)). apply inv_auth_result; try done.
    + by intros ?%list_elem_of_singleton.
    + rewrite set_auth_same. by left.
  - apply inv_auth_result; try done; [by intros ?%list_elem_of_singleton|]. unfold is_ready. simpl.
    by destruct (is_network_outage _).
Qed.

Lemma inv_registration s l1 c interval l2 answer :
  inv cfg s -> waiting s = l1 ++ (c, WaitRegistration interval) :: l2 ->
  inv cfg (after (set_waiting s (l1 ++ l2)) (on_registration (relay s) interval answer)).
Proof.
  intros Hinv Hl. pose proof Hinv as (Hc & Hw & Ha).
  destruct (auth_credentials s _ _ _ Ha Hl eq_refl) as (Hid & Hc1' & Hc0').
  pose proof (core_set_waiting cfg [] s l1 _ l2 Hl Hc) as Hc0.
  assert (keeps s (set_waiting s (l1 ++ l2))) as Hk by (by eapply keeps_answer).
  pose proof (on_registration_spec s (set_waiting s (l1 ++ l2)) interval answer eq_refl Ha Hc1' Hc0' Hid) as Hauth.
  unfold on_registration in *. destruct (query_response _ _) as [x|err]; [|by apply inv_authentication_failed].
  apply inv_intro; [|done]. simpl. apply inv_auth_result; try done.
  - destruct (renew_auth_interval _); done.
  - destruct (renew_auth_interval _); done.
  - destruct (renew_auth_interval _); simpl; rewrite ?elem_of_cons, elem_of_nil; naive_solver.
  - intros _. right. rewrite messages_app. apply elem_of_app. right. by apply list_elem_of_singleton.
Qed.

(** The two requests of an authentication, on a new channel. *)
Lemma inv_auth_request s s1 w st b cf r :
  inv cfg s -> core cfg [] s1 -> relay s1 = relay s -> keeps s s1 -> channels s1 = channels s -> is_auth (0%nat, w) = true ->
  op true [(channels s, cf)] (set_auth (relay s) b st) r ->
  (is_ready (set_auth (relay s) b st) = true -> is_ready (relay s) = true) ->
  in_memory (after (open_channel s1 w) r) ->
  core cfg [] (after (open_channel s1 w) r) /\ (check_can_be_built cfg -> wake (after (open_channel s1 w) r)).
Proof.
  intros (Hc & Hwake & Ha) Hc1 Hr Hk Hch Hw Hop Hready Hm.
  assert (w <> WaitCheck) as Hne by (by intros ->).
  pose proof (core_open_channel cfg s1 w cf (or_introl Hne) Hc1) as Hc0.
  apply (core_set_auth _ _ _ b st) in Hc0. simpl in Hc0. rewrite Hr, Hch in Hc0.
  change (after (open_channel s1 w) r) with (after (set_relay (open_channel s1 w) (set_auth (relay s) b st)) r) in *.
  split; [by eapply core_after|]. intros Hcheck. eapply (wake_op true cfg _ s); try done.
  - eapply keeps_trans; [exact Hk|]. eapply keeps_trans; [apply keeps_open|apply keeps_set_relay].
  - by auto.
  - intros (Hrd & Hq & Hlt). split; [by apply Hready|done].
  - intros c cf' _ [= -> ->]%list_elem_of_singleton [Hin|[= _ <-]%list_elem_of_singleton]%elem_of_app; [|done].
    rewrite <- Hch in Hin. by destruct (fresh_waiting _ _ _ WaitCheck Hc1).
Qed.

Lemma inv_authenticate s l1 l2 now interval r :
  inv cfg s -> mailbox s = l1 ++ Authenticate :: l2 ->
  handle_authenticate (relay s) (channels s) now = Ret (Some (interval, r)) ->
  in_memory (after (open_channel (set_mailbox s (l1 ++ l2)) (WaitChallenge interval)) r) ->
  inv cfg (after (open_channel (set_mailbox s (l1 ++ l2)) (WaitChallenge interval)) r).
Proof.
  intros Hinv Hl Hh Hm. pose proof Hinv as (Hc & _ & Ha). pose proof (chain_message s _ _ _ Hl) as Hch. simpl in Hch.
  destruct (auth_under_way s Ha) as (Hsa & Hone & _); [lia|]. unfold handle_authenticate in Hh.
  destruct (get_auth_state_error (relay s)); [done|]. destruct (credentials_id _) as [id|] eqn:Hid; [|done].
  apply outcome_bind_Ret in Hh as ([d b] & _ & (r' & Hq & [= <- <-])%outcome_bind_Ret).
  set (st := if AuthState.is_authenticated (auth_state (relay s)) then _ else _) in Hq.
  apply enqueue_query_op in Hq as Hop; [|by eapply (core_in_u64 cfg []) in Hc].
  apply inv_intro.
  - eapply (inv_auth_request s (set_mailbox s (l1 ++ l2)) _ st b); try done.
    + by eapply core_set_mailbox.
    + by eapply keeps_message.
    + subst st. unfold is_ready. simpl. destruct (is_network_outage _); [done|]. by destruct (auth_state (relay s)).
  - destruct Hop as [[Hcfg _] Hst [Hs _] _ _ _ _ _ _ _]. unfold auth_inv, should_authenticate in *. simpl.
    rewrite Hcfg. simpl. rewrite Hsa, Hid. unfold auth_chain in *. simpl in *.
    rewrite count_app, (count_0 _ _ Hs), List.filter_app, length_app. simpl. unfold expected_chain. rewrite Hst. simpl.
    subst st. destruct (AuthState.is_authenticated _); simpl; lia.
Qed.

Lemma inv_challenge s l1 c interval l2 answer now r :
  inv cfg s -> waiting s = l1 ++ (c, WaitChallenge interval) :: l2 ->
  on_challenge (relay s) interval answer (channels s) now = Ret (true, r) ->
  in_memory (after (open_channel (set_waiting s (l1 ++ l2)) (WaitRegistration interval)) r) ->
  inv cfg (after (open_channel (set_waiting s (l1 ++ l2)) (WaitRegistration interval)) r).
Proof.
  intros Hinv Hl Hh Hm. pose proof Hinv as (Hc & _ & Ha).
  destruct (auth_credentials s _ _ _ Ha Hl eq_refl) as ([id Hid] & Hc1 & Hc0).
  destruct (auth_under_way s Ha) as (Hsa & _); [lia|]. unfold on_challenge in Hh.
  destruct (query_response _ _) as [challenge|err]; [|done]. apply outcome_bind_Ret in Hh as (r' & Hq & [= <-]).
  apply enqueue_query_op in Hq as Hop; [|by eapply (core_in_u64 cfg []) in Hc]. apply inv_intro.
  - rewrite <- (set_auth_same (relay s)) in Hop.
    eapply (inv_auth_request s (set_waiting s (l1 ++ l2))); try done; [by eapply core_set_waiting|by eapply keeps_answer].
  - destruct Hop as [[Hcfg _] Hst [Hs _] _ _ _ _ _ _ _]. unfold auth_inv, expected_chain, should_renew_auth, renew_auth_interval, should_authenticate in *.
    simpl. rewrite Hcfg, Hst. rewrite Hsa, Hid in *. rewrite <- Ha. unfold auth_chain in *. simpl in *.
    rewrite count_app, (count_0 _ _ Hs), List.filter_app, length_app. simpl. lia.
Qed.

Lemma inv_handled s l1 q result l2 now r :
  inv cfg s -> handling s = l1 ++ (q, result) :: l2 -> handle_http_response (relay s) q result now = Ret r ->
  in_memory (after (set_handling s (l1 ++ l2)) r) -> inv cfg (after (set_handling s (l1 ++ l2)) r).
Proof.
  intros (Hc & Hw & Ha) Hl Hr Hm. pose proof (core_set_handling cfg s l1 _ _ l2 Hl Hc) as Hc0.
  apply handle_http_response_op in Hr as Hop; [|by eapply core_in_u64].
  split; [by eapply core_after|split; [|by eapply (auth_after false _ s)]].
  intros Hcheck. eapply (wake_op false cfg _ s); try done. by auto.
Qed.

(** Every step keeps the invariant. *)
Lemma inv_step s s' : inv cfg s -> step s s' -> in_memory s' -> inv cfg s'.
Proof.
  intros Hinv Hstep Hm. pose proof Hinv as (Hc & Hw & Ha). pose proof (core_in_u64 _ _ _ Hc) as Hn.
  destruct Hstep as [s l1 l2 now interval r Hl Hr|s l1 l2 now Hl Hr|s l1 c i l2 answer now r Hl Hin Hr
    |s l1 c i l2 answer now r Hl Hin Hr|s l1 c i l2 answer Hl Hin|s l1 l2 now r Hl Hr|s l1 l2 now r Hl Hr
    |s l1 c l2 answer r Hl Hin Hr|s l1 l2 Hl|s rt ic ri method path build now r Hr|s query now r Hr
    |s l1 q l2 reply now Hl Hrep|s l1 q result l2 now r Hl Hr].
  - by eapply inv_authenticate.
  - pose proof (chain_message s _ _ _ Hl) as Hch. simpl in Hch.
    destruct (auth_under_way s Ha) as (Hsa & Hone & _ & Hunk & Hok); [lia|]. unfold handle_authenticate in Hr.
    split; [by eapply core_set_mailbox|split].
    + intros Hcheck. destruct (Hw Hcheck) as [Hlive Hhu]. assert (keeps s (set_mailbox s (l1 ++ l2))) as Hk by (by eapply keeps_message).
      split; intros ?; [eapply keeps_live|eapply keeps_wakeup]; eauto.
    + unfold auth_inv in *. simpl. rewrite Hsa in *. destruct (credentials_id _) as [id|]; [|by split_and!; [apply Hunk|lia|apply Ha]].
      rewrite Hok in Hr by done. by apply outcome_bind_Ret in Hr as ([? ?] & _ & (? & _ & ?)%outcome_bind_Ret).
  - by eapply inv_challenge.
  - destruct (auth_credentials s _ _ _ Ha Hl eq_refl) as (Hid & Hc1 & Hc0). unfold on_challenge in Hr.
    destruct (query_response _ _) as [?|err]; [by apply outcome_bind_Ret in Hr as (? & _ & ?)|]. injection Hr as <-.
    apply inv_authentication_failed; try done; [by eapply core_set_waiting|by eapply keeps_answer].
  - by eapply inv_registration.
  - by eapply inv_pump.
  - by eapply inv_check.
  - by eapply inv_checked.
  - split; [by eapply core_finished|split].
    + intros Hcheck. destruct (Hw Hcheck) as [Hlive _]. split; [|intros _; left; simpl; apply elem_of_app; right; by apply list_elem_of_singleton].
      intros Ho. assert (keeps s (set_mailbox s (l1 ++ l2))) as Hk by (by eapply keeps_message).
      pose proof (keeps_live _ _ Hk (Hlive Ho)) as [?|?]; [left; simpl; apply elem_of_app; by left|right; simpl; by rewrite app_nil_r].
    + pose proof (chain_message s _ _ _ Hl) as Hch. unfold auth_chain in Hch. simpl in Hch.
      unfold auth_inv, expected_chain, should_renew_auth, renew_auth_interval, should_authenticate, auth_chain in *. simpl.
      rewrite count_app. change (count Authenticate [PumpHttpMessageQueue]) with 0%nat.
      replace (count Authenticate (l1 ++ l2) + 0)%nat with (count Authenticate (mailbox s)) by lia. done.
  - apply enqueue_request_op in Hr as Hop; [|done]. by eapply inv_request.
  - apply enqueue_query_op in Hr as Hop; [|done]. by eapply inv_request.
  - split; [by eapply core_http|]. split.
    + intros Hcheck. destruct (Hw Hcheck) as [Hlive Hhu]. split; simpl; unfold live_check, wakeup; simpl; setoid_rewrite elem_of_app; [intros Ho; destruct (Hlive Ho)|intros Hh; destruct (Hhu Hh)]; tauto.
    + unfold auth_inv, auth_chain in *. simpl. rewrite count_app. change (count Authenticate [TrackedFutureFinished]) with 0%nat.
      by rewrite Nat.add_0_r.
  - by eapply inv_handled.
Qed.

Lemma inv_initial : inv cfg (initial cfg).
Proof.
  assert (exists es, initial cfg = after (MkSystem (UpstreamRelay.started (new cfg)).1 [] [] [] [] [] 0)
    ((UpstreamRelay.started (new cfg)).1, es) /\
    es = if should_authenticate (new cfg) then [Notify Authenticate] else []) as (es & -> & Hes) by (by eexists).
  unfold in_width in Hmax. split; [|split].
  - subst es. destruct (should_authenticate _); split; simpl; try done; try lia; by intros t []%not_elem_of_nil.
  - intros _. split; simpl; [done|]. by intros (_ & Hq & _).
  - subst es. unfold auth_inv. simpl. unfold should_authenticate. simpl. unfold auth_chain. simpl.
    destruct (relay_mode cfg); simpl; try done. by destruct (credentials_id cfg).
Qed.

Lemma upstream_reachable_inv s : reachable cfg s -> inv cfg s.
Proof. induction 1 as [|s s' _ IH Hs Hm]; [apply inv_initial|by eapply inv_step]. Qed.

End Preservation.
(** ** The properties of the connection *)

(** C12: The counter is exactly the number of requests whose HTTP future has not been
    accounted for, so it never wraps around, and of the requests that went
    through a queue at most [max_concurrent_requests] are sent at the same time,
    whatever the order of messages, answers and failures. *)
Theorem upstream_inflight_bounded cfg s :
  in_u64 (max_concurrent_requests cfg) -> reachable cfg s ->
  num_inflight_requests (relay s) = Z.of_nat (List.length (flying s) + count TrackedFutureFinished (mailbox s)) /\
  Z.of_nat (List.length (List.filter UpstreamRequest.queued (flying s))) <= max_concurrent_requests cfg.
Proof. intros Hmax Hr. destruct (upstream_reachable_inv cfg Hmax s Hr) as ([_ N _ B _ _ _ _] & _). done. Qed.

Lemma tag_senders l : (tag <$> l).*1 = UpstreamRequest.response_sender <$> l.
Proof. by rewrite <- list_fmap_compose. Qed.

(** C4: No request is lost, duplicated or answered twice: the channels opened so far
    are those of the queued requests, of the requests at the HTTP client, of the
    results that are being handled and of the answers, each exactly once. *)
Theorem upstream_requests_conserved cfg s :
  in_u64 (max_concurrent_requests cfg) -> reachable cfg s ->
  (UpstreamRequest.response_sender <$> queues (relay s)) ++ (UpstreamRequest.response_sender <$> flying s)
  ++ (UpstreamRequest.response_sender <$> (handling s).*1) ++ (answers s).*1 ≡ₚ seq 0 (channels s).
Proof.
  intros Hmax Hr. destruct (upstream_reachable_inv cfg Hmax s Hr) as ([_ _ _ _ T _ _ _] & _).
  by rewrite !tag_senders in T.
Qed.

(** C3: A queued request is never forgotten.  During an outage a check of the
    connection is on its way whose answer will end or extend the outage; when
    requests can be sent, a message, a check or a request in flight will start
    the queue again; otherwise an authentication is under way, unless the upstream
    has denied it or there are no credentials. *)
Theorem upstream_never_stuck cfg s :
  in_u64 (max_concurrent_requests cfg) -> 0 < max_concurrent_requests cfg -> check_can_be_built cfg ->
  reachable cfg s -> queues (relay s) <> [] ->
  if is_network_outage (relay s) then live_check s
  else if is_ready (relay s) then wakeup s \/ flying s <> [] \/ TrackedFutureFinished ∈ mailbox s
  else auth_chain s = 1%nat \/ auth_state (relay s) = AuthState.Denied \/ credentials_id cfg = None.
Proof.
  intros Hmax Hpos Hcheck Hr Hq. destruct (upstream_reachable_inv cfg Hmax s Hr) as (Hc & Hw & Ha).
  destruct (Hw Hcheck) as [Hlive Hhu]. destruct Hc as [[Hcfg Hm] N _ _ _ _ _ _].
  destruct (is_network_outage (relay s)) eqn:Eo; [by apply Hlive|]. destruct (is_ready (relay s)) eqn:Er.
  - destruct (decide (num_inflight_requests (relay s) < max_concurrent_requests cfg)) as [Hlt|Hge].
    + left. apply Hhu. split; [done|]. by rewrite Hm.
    + right. destruct (flying s); [right|by left]. destruct (decide (TrackedFutureFinished ∈ mailbox s)) as [?|Hn]; [done|].
      rewrite N, (count_0 _ _ Hn) in Hge. simpl in Hge. lia.
  - unfold is_ready in Er. rewrite Eo in Er. unfold auth_inv, expected_chain in Ha. rewrite Hcfg in Ha.
    destruct (should_authenticate (relay s)); [|by destruct Ha as [Hu _]; rewrite Hu in Er].
    destruct (credentials_id cfg); [|auto]. destruct (auth_state (relay s)); auto; done.
Qed.

(** Requests that a step hands to the HTTP client. *)
Lemma handle_http_response_executed self q result now r :
  in_u64 (num_inflight_requests self) -> handle_http_response self q result now = Ret r ->
  Forall (fun q => UpstreamRequest.queued q = false) (executed r.2).
Proof.
  intros Hn. unfold handle_http_response.
  destruct result as [resp|err]; [by intros [= <-]; constructor|].
  destruct (UpstreamRequestError.is_network_error err); [|by intros [= <-]; constructor].
  intros ([self1 es1] & He & Hrest)%outcome_bind_Ret. pose proof He as [Hop Hx]%handle_network_error_op; [|done].
  simpl in Hx. destruct (retry (UpstreamRequest.config q)) eqn:Er.
  - apply outcome_bind_Ret in Hrest as ([self2 es2] & Hq & [= <-]). simpl. rewrite executed_app, Hx.
    assert (in_u64 (num_inflight_requests self1)) as Hn1
      by (pose proof (op_num _ _ _ _ Hop) as Hnum; simpl in Hnum; rewrite Hnum; by apply wrap_in_width).
    by apply (enqueue_op false) in Hq as (_ & _ & ?); [|done|by right].
  - injection Hrest as <-. simpl. by rewrite executed_app, Hx.
Qed.

Lemma enqueue_query_executed self query c now r :
  in_u64 (num_inflight_requests self) -> enqueue_query self query c now = Ret r ->
  Forall (fun q => UpstreamRequest.queued q = false) (executed r.2).
Proof.
  intros Hn. unfold enqueue_query. destruct (credentials_id _); [|by intros [= <-]; constructor].
  destruct (pack _). intros Hq. apply (enqueue_op true) in Hq as (_ & _ & ?); auto.
Qed.

Lemma on_check_executed self answer r :
  in_u64 (num_inflight_requests self) -> on_check self answer = Ret r -> executed r.2 = [].
Proof.
  intros Hn. unfold on_check. destruct (_ ≫= _) as [|err]; [by intros [= <-]|].
  destruct (UpstreamRequestError.is_network_error err); [|by intros [= <-]]. by intros (_ & _ & ?)%upstream_connection_check_op.
Qed.

Lemma step_executed cfg s s' q :
  inv cfg s -> step s s' -> q ∈ flying s' -> q ∈ flying s \/ UpstreamRequest.queued q = false \/ is_ready (relay s) = true.
Proof.
  intros (Hc & _ & _) Hs. pose proof (core_in_u64 _ _ _ Hc) as Hn.
  assert (forall s0 r, flying s0 = flying s -> Forall (fun q => UpstreamRequest.queued q = false) (executed r.2) ->
    q ∈ flying (after s0 r) -> q ∈ flying s \/ UpstreamRequest.queued q = false \/ is_ready (relay s) = true) as Hex.
  { intros s0 r Hf Hall Hin. simpl in Hin. rewrite Hf, elem_of_app in Hin. rewrite Forall_forall in Hall.
    destruct Hin as [?|?%Hall]; auto. }
  destruct Hs as [s l1 l2 now interval r Hl Hr|s l1 l2 now Hl Hr|s l1 c i l2 answer now r Hl Hin Hr
    |s l1 c i l2 answer now r Hl Hin Hr|s l1 c i l2 answer Hl Hin|s l1 l2 now r Hl Hr|s l1 l2 now r Hl Hr
    |s l1 c l2 answer r Hl Hin Hr|s l1 l2 Hl|s rt ic ri method path build now r Hr|s query now r Hr
    |s l1 q' l2 reply now Hl Hrep|s l1 q' result l2 now r Hl Hr].
  - apply Hex; [done|]. unfold handle_authenticate in Hr. destruct (get_auth_state_error _); [done|].
    destruct (credentials_id _); [|done]. apply outcome_bind_Ret in Hr as ([d b] & _ & (r' & Hq & [= <- <-])%outcome_bind_Ret).
    by eapply enqueue_query_executed in Hq.
  - by left.
  - apply Hex; [done|]. unfold on_challenge in Hr. destruct (query_response _ _); [|done].
    apply outcome_bind_Ret in Hr as (r' & Hq & [= <-]). by eapply enqueue_query_executed in Hq.
  - apply Hex; [done|]. unfold on_challenge in Hr. destruct (query_response _ _); [by apply outcome_bind_Ret in Hr as (? & _ & ?)|].
    injection Hr as <-. unfold authentication_failed. by destruct (UpstreamRequestError.is_permanent_rejection _).
  - apply Hex; [done|]. unfold on_registration, authentication_failed. destruct (query_response _ _); simpl.
    + by destruct (renew_auth_interval _).
    + by destruct (UpstreamRequestError.is_permanent_rejection _).
  - destruct (is_ready (relay s)) eqn:Er; [auto|]. unfold handle_pump in Hr. rewrite Er in Hr. injection Hr as <-.
    simpl. rewrite app_nil_r. auto.
  - apply Hex; [done|]. by apply (enqueue_op true) in Hr as (_ & _ & ?); [|done|left].
  - apply Hex; [done|]. by rewrite (on_check_executed _ _ _ Hn Hr).
  - apply Hex; [done|]. by constructor.
  - apply Hex; [done|]. by apply (enqueue_op true) in Hr as (_ & _ & ?); [|done|left].
  - apply Hex; [done|]. by eapply enqueue_query_executed in Hr.
  - simpl. intros Hin. left. rewrite Hl. rewrite elem_of_app, elem_of_cons in *. tauto.
  - apply Hex; [done|]. by eapply handle_http_response_executed in Hr.
Qed.

(** Requests from the queues are only handed to the HTTP client when the relay is
    ready.  Once the upstream has denied the authentication for good, nothing
    changes that: no step leaves the state, starts another authentication or
    sends a request from a queue. *)
Theorem upstream_denied_is_final cfg s s' :
  in_u64 (max_concurrent_requests cfg) -> reachable cfg s -> step s s' -> in_memory s' ->
  (forall q, q ∈ flying s' -> UpstreamRequest.queued q = true -> is_ready (relay s) = false -> q ∈ flying s) /\
  (auth_state (relay s) = AuthState.Denied ->
   is_ready (relay s) = false /\ auth_state (relay s') = AuthState.Denied /\ auth_chain s' = 0%nat).
Proof.
  intros Hmax Hr Hs Hm. pose proof (upstream_reachable_inv cfg Hmax s Hr) as Hinv.
  pose proof (upstream_reachable_inv cfg Hmax s' (reachable_next _ _ _ Hr Hs Hm)) as (Hc' & _ & Ha').
  split; [intros q Hin Hq Hrd; destruct (step_executed _ _ _ _ Hinv Hs Hin) as [?|[?|?]]; congruence|].
  intros Hd. split; [unfold is_ready; rewrite Hd; by destruct (is_network_outage _)|].
  destruct Hinv as (Hc & _ & Ha). assert (auth_chain s = 0%nat) as H0'.
  { unfold auth_inv, expected_chain in Ha. rewrite Hd in Ha. destruct (should_authenticate _); [|by destruct Ha].
    destruct (credentials_id _); [done|by destruct Ha]. }
  assert (auth_state (relay s') = AuthState.Denied) as Hd'; [|split; [done|]].
  - pose proof (core_in_u64 _ _ _ Hc) as Hn.
    destruct Hs as [s l1 l2 now interval r Hl Hr'|s l1 l2 now Hl Hr'|s l1 c i l2 answer now r Hl Hin Hr'
    |s l1 c i l2 answer now r Hl Hin Hr'|s l1 c i l2 answer Hl Hin|s l1 l2 now r Hl Hr'|s l1 l2 now r Hl Hr'
    |s l1 c l2 answer r Hl Hin Hr'|s l1 l2 Hl|s rt ic ri method path build now r Hr'|s query now r Hr'
    |s l1 q' l2 reply now Hl Hrep|s l1 q' result l2 now r Hl Hr']; simpl; try done.
    1: exfalso; pose proof (chain_message s _ _ _ Hl) as Hch; simpl in Hch; lia.
    1,2,3: exfalso; pose proof (chain_waiting s _ _ _ Hl) as Hch; simpl in Hch; lia.
    + apply handle_pump_op in Hr' as [Hop _]; [|done|by rewrite (proj2 (core_config _ _ _ Hc))]. by rewrite (op_auth _ _ _ _ Hop).
    + apply enqueue_request_op in Hr' as Hop; [|done]. by rewrite (op_auth _ _ _ _ Hop).
    + apply on_check_op in Hr' as [Hop _]; [|done]. by rewrite (op_auth _ _ _ _ Hop).
    + apply enqueue_request_op in Hr' as Hop; [|done]. by rewrite (op_auth _ _ _ _ Hop).
    + apply enqueue_query_op in Hr' as Hop; [|done]. by rewrite (op_auth _ _ _ _ Hop).
    + apply handle_http_response_op in Hr' as Hop; [|done]. by rewrite (op_auth _ _ _ _ Hop).
  - unfold auth_inv, expected_chain in Ha'. rewrite Hd' in Ha'. destruct (should_authenticate _); [|by destruct Ha'].
    destruct (credentials_id _); [done|by destruct Ha'].
Qed.

(** ** The order of requests *)

(** Every request whose URL can be parsed is attempted. *)
Definition preparable self q : Prop := exists b, prepare self q = Ret b.

Lemma pump_loop_total now fuel : forall self,
  (List.length (order self) < fuel)%nat -> Forall (preparable self) (order self) -> exists r, pump_loop fuel self now = Ret r.
Proof.
  induction fuel as [|fuel IH]; intros self Hlen Hall; [lia|]. cbn [pump_loop].
  bcase (num_inflight_requests self < max_inflight_requests self) as Hlt; [|by eexists].
  fold (next_request self). destruct (next_request self) as [[msg self1]|] eqn:Hnext; [|by eexists].
  apply next_request_Some in Hnext as (high & low & -> & _ & Ho). rewrite Ho in Hlen, Hall.
  apply Nat.succ_lt_mono in Hlen.
  apply Forall_cons in Hall as [[b Hb] Hall]. unfold send_request.
  change (prepare (set_queues self high low) msg) with (prepare self msg). rewrite Hb. simpl.
  destruct (UpstreamRequest.build msg b); simpl.
  - destruct (IH (set_inflight (set_queues self high low) (u64_add (num_inflight_requests self) 1))) as [[self' es'] Hr];
      [exact Hlen|done|]. rewrite Hr. by eexists.
  - destruct (IH (set_queues self high low)) as [[self' es'] Hr]; [exact Hlen|done|]. rewrite Hr. by eexists.
Qed.

(** A pump that is ready always finishes.  It attempts a prefix of the queue, in
    the order high before low priority and first in, first out within each, and
    stops only when nothing is queued or the limit is reached; what is left stays
    queued in that order.  A new request comes last among those of its priority,
    a retried one first. *)
Theorem pump_order self now :
  in_u64 (num_inflight_requests self) -> in_u64 (max_inflight_requests self) -> is_ready self = true ->
  Forall (preparable self) (order self) ->
  (exists r done ess, handle_pump self now = Ret r /\ order self = done ++ order r.1 /\ r.2 = concat ess /\
    Forall2 (fun q es => attempted q now es) done ess /\
    (order r.1 = [] \/ max_inflight_requests self <= num_inflight_requests r.1)) /\
  (forall q position r, UpstreamRequest.queued q = true -> enqueue self q position now = Ret r ->
    let '(first, last) := match position with Front => ([], [q]) | Back => ([q], []) end in
    order r.1 = match priority (UpstreamRequest.config q) with
                | RequestPriority.High =>
                    first ++ rev (high_prio_requests self) ++ last ++ rev (low_prio_requests self)
                | _ => rev (high_prio_requests self) ++ first ++ rev (low_prio_requests self) ++ last
                end).
Proof.
  intros Hn Hm Hr Hall. split.
  - unfold handle_pump. rewrite Hr. destruct (pump_loop_total now (S (List.length (queues self))) self) as [r Hp]; [|done|].
    { rewrite (Permutation_length (queues_order self)). lia. }
    unfold queues in Hp. rewrite length_app in Hp. pose proof Hp as (_ & _ & _ & He & dn & ess & Ho & Hes & Hat)%pump_loop_spec; try done.
    exists r, dn, ess. split_and!; try done. destruct He as [He|]; [left|auto].
    pose proof (queues_order r.1) as Hq. rewrite He in Hq. by apply Permutation_nil_l in Hq.
  - intros q position r Hq. unfold enqueue, UpstreamRequest.queued in *.
    destruct (priority (UpstreamRequest.config q)) eqn:Ep; [done|..]; intros [= <-]; unfold order; destruct position; simpl;
      rewrite ?rev_app_distr; simpl; by rewrite ?app_nil_r, <- ?app_assoc.
Qed.

End System.

(** ** Witnesses *)

(** URLs are texts, every request can be built, the backoff is one second, and
    the body [stop] asks this Relay to stop. *)
#[local] Instance text_urls : UrlParser := {|
  Url := string; url_parse := Some; url_scheme_str _ := "https"; url_host_str _ := None; url_port _ := None;
  url_path _ := "/"; url_query _ := None |}.
#[local] Instance text_client : HttpClient := {|
  Request := RequestBuilder string; reqwest_build := Ok; encode _ := Ok |}.
#[local] Instance constant_backoff : Backoff := {|
  ExponentialBackoff := unit; exponential _ _ := tt; backoff_reset := id; backoff_next b := (Some 1000000000, b) |}.
#[local] Instance plain_auth : AuthEnv := {|
  pack data := (data, "signature"); register_data := "register"; RegisterChallenge := string; Registration := string;
  response_data := id |}.
#[local] Instance text_json : SerdeJson string := {| from_slice := Ok; to_json_string := Ok |}.
#[local] Instance stop_json : SerdeJson ApiErrorResponse := {|
  from_slice s := if bool_decide (s = "stop") then Ok (ApiErrorResponse.MkApiErrorResponse None [] RelayErrorAction.Stop)
                  else Ok ApiErrorResponse.default_;
  to_json_string _ := Ok "" |}.

Definition sample_http_config (mode : RelayMode) : HttpConfig :=
  MkHttpConfig mode false Upstream.default_ (Some "relay") None (Some 600) 10 60 1 1000.

(** A request that was just queued. *)
Definition sample_build (builder : RequestBuilder Url) : result UpstreamRequestError Request :=
  UpstreamRelay.map_http (finish builder).
Definition one_queued : System :=
  match UpstreamRelay.enqueue_request (relay (initial (sample_http_config RelayMode.Proxy)))
          (send_request_config true true true) "POST" "/api/0/envelope/" sample_build 0 0 with
  | Ret r => after (open_channel (initial (sample_http_config RelayMode.Proxy)) Caller) r
  | Panic => initial (sample_http_config RelayMode.Proxy)
  end.

Lemma one_queued_reachable : reachable (sample_http_config RelayMode.Proxy) one_queued.
Proof.
  eapply reachable_next; [apply reachable_initial| |by vm_compute].
  eapply (step_send _ true true true "POST" "/api/0/envelope/" sample_build 0). reflexivity.
Qed.

Lemma upstream_inflight_bounded_witness :
  UpstreamRelay.num_inflight_requests (relay one_queued) = 0 /\
  Z.of_nat (List.length (List.filter UpstreamRequest.queued (flying one_queued))) <= 1.
Proof.
  apply (upstream_inflight_bounded (sample_http_config RelayMode.Proxy) one_queued); [by vm_compute|].
  apply one_queued_reachable.
Defined.

Lemma upstream_requests_conserved_witness :
  (UpstreamRequest.response_sender <$> queues (relay one_queued)) ++ [] ++ [] ++ [] ≡ₚ [0%nat].
Proof.
  apply (upstream_requests_conserved (sample_http_config RelayMode.Proxy) one_queued); [by vm_compute|].
  apply one_queued_reachable.
Defined.

Lemma upstream_never_stuck_witness :
  queues (relay one_queued) <> [] /\ (wakeup one_queued \/ flying one_queued <> [] \/ TrackedFutureFinished ∈ mailbox one_queued).
Proof.
  split; [done|].
  apply (upstream_never_stuck (sample_http_config RelayMode.Proxy) one_queued); [by vm_compute|done| |apply one_queued_reachable|done].
  eexists _, _. split; reflexivity.
Defined.

(** A Relay in managed mode whose first authentication is rejected for good. *)
Definition rejection : Response := Response.MkResponse 403 [] [Ok "stop"].

Lemma denied_reachable :
  exists s, reachable (sample_http_config RelayMode.Managed) s /\ UpstreamRelay.auth_state (relay s) = AuthState.Denied /\
    flying s = [] /\ mailbox s = [TrackedFutureFinished].
Proof.
  eexists. split.
  { eapply reachable_next; [eapply reachable_next; [eapply reachable_next; [eapply reachable_next; [apply reachable_initial|..]|..]|..]|..].
    - eapply (step_authenticate _ [] [] 0); reflexivity.
    - by vm_compute.
    - eapply (step_http _ [] _ [] (Ok rejection) 0); [reflexivity|done].
    - by vm_compute.
    - eapply (step_handled _ [] _ _ [] 0); reflexivity.
    - by vm_compute.
    - eapply (step_challenge_failed _ [] _ _ [] _ 0); [reflexivity|by left|reflexivity].
    - by vm_compute. }
  split_and!; reflexivity.
Qed.

Lemma upstream_denied_is_final_witness :
  exists s s', step s s' /\ UpstreamRelay.auth_state (relay s) = AuthState.Denied /\
    UpstreamRelay.auth_state (relay s') = AuthState.Denied /\ auth_chain s' = 0%nat.
Proof.
  destruct denied_reachable as (s & Hr & Hd & Hf & Hb).
  eassert (step s _) as Hs.
  { eapply (step_send s true true true "POST" "/api/0/envelope/" sample_build 0). reflexivity. }
  eexists s, _. split; [exact Hs|]. split; [done|].
  apply (upstream_denied_is_final (sample_http_config RelayMode.Managed) s _); [by vm_compute|done|exact Hs| |done].
  unfold in_memory. simpl. rewrite Hf, Hb. by vm_compute.
Defined.

(** A relay with room for one request and three in its queues: the high priority
    request is sent although it came last. *)
Definition queued_request (p : RequestPriority) (channel : nat) : UpstreamRequest :=
  UpstreamRequest.MkUpstreamRequest (MkRequestConfig p true true true) channel "POST" "/api/0/envelope/" sample_build 0 None.
Definition three_queued : UpstreamRelay :=
  UpstreamRelay.set_queues (UpstreamRelay.new (sample_http_config RelayMode.Proxy)) [queued_request RequestPriority.High 2]
    [queued_request RequestPriority.Low 1; queued_request RequestPriority.Low 0].

Lemma pump_order_witness :
  UpstreamRequest.response_sender <$> order three_queued = [2; 0; 1]%nat /\
  exists r done ess, UpstreamRelay.handle_pump three_queued 0 = Ret r /\ order three_queued = done ++ order r.1 /\
    r.2 = concat ess /\ Forall2 (fun q es => attempted q 0 es) done ess /\
    (order r.1 = [] \/ 1 <= UpstreamRelay.num_inflight_requests r.1).
Proof.
  split; [reflexivity|]. apply (pump_order three_queued 0); [by vm_compute|by vm_compute|reflexivity|].
  repeat constructor; by eexists.
Defined.
