(* ===== verification/Processing.v ===== *)
(** * relay-server: the envelope processor (actors/envelopes.rs)

    [EnvelopeProcessor] turns an envelope into what is sent on: sessions and user
    reports are validated, the event payload is extracted, corrected, sampled,
    normalized, filtered, rate limited, scrubbed and put back.  The steps run in
    the monad [proc], which may fail with a [ProcessingError], may panic, and
    works on the Redis store of the rate limiter and the outcomes that are sent.
    Parsers, the scrubbers of the PII crate and the crash report libraries are
    operations of [ProcessEnv]. *)

From Stdlib Require Import Ascii String.
From S2P Require Import SecurityReports Http Upstream Prelude Strings Floats Types Common Protocol Quota RateLimit RedisLimiter Filters Sampling Extractors Envelopes DynamicSampling EnvelopeLimiter Transactions Sessions Native ClockDrift FormData MetricProtocol MetricsExtraction Aggregation Aggregator Projects.

Open Scope string_scope.
Open Scope Z_scope.
Open Scope list_scope.

Definition MINIMUM_CLOCK_DRIFT : Duration := duration_from_secs (55 * 60).

(** ** Errors and outcomes *)

Module Outcome.

(** [Outcome] of actors/outcome.rs. *)
Inductive Outcome :=
| Accepted | Filtered (key : FilterStatKey) | FilteredSampling (rule : RuleId)
| RateLimited (reason : option ReasonCode) | Invalid (reason : DiscardReason) | Abuse.

Definition to_outcome_id (self : Outcome) : Z :=
  match self with
  | Accepted => 0
  | Filtered _ | FilteredSampling _ => 1
  | RateLimited _ => 2
  | Invalid _ => 3
  | Abuse => 4
  end.

End Outcome.
Notation Outcome := Outcome.Outcome.

(** Causes that come from other crates carry their message. *)

Module ProcessingError.

Inductive ProcessingError :=
| InvalidJson (e : JsonError)
| InvalidMsgpack (e : JsonError)
| InvalidUnrealReport (message : string)
| PayloadTooLarge
| InvalidTransaction
| ProcessingFailed (action : ProcessingAction)
| DuplicateItem (ty : ItemType)
| NoEventPayload
| ScheduleFailed
| ProjectFailed (e : ProjectError)
| MissingProjectId
| InvalidSecurityType
| InvalidSecurityReport (e : JsonError)
| Rejected (reason : DiscardReason)
| EventFiltered (key : FilterStatKey)
| SerializeFailed (e : JsonError)
| SendFailed (e : UpstreamRequestError)
| StoreFailed (message : string)
| RateLimited (limits : RateLimits)
| QuotasFailed (e : RateLimitingError)
| Timeout
| TraceSampled (rule : RuleId)
| EventSampled (rule : RuleId).

Definition to_outcome (self : ProcessingError) : option Outcome :=
  match self with
  | PayloadTooLarge => Some (Outcome.Invalid DiscardReason.TooLarge)
  | InvalidJson _ => Some (Outcome.Invalid DiscardReason.InvalidJson)
  | InvalidMsgpack _ => Some (Outcome.Invalid DiscardReason.InvalidMsgpack)
  | Rejected reason => Some (Outcome.Invalid reason)
  | InvalidSecurityType => Some (Outcome.Invalid DiscardReason.SecurityReportType)
  | InvalidSecurityReport _ => Some (Outcome.Invalid DiscardReason.SecurityReport)
  | InvalidTransaction => Some (Outcome.Invalid DiscardReason.InvalidTransaction)
  | DuplicateItem _ => Some (Outcome.Invalid DiscardReason.DuplicateItem)
  | NoEventPayload => Some (Outcome.Invalid DiscardReason.NoEventPayload)
  | InvalidUnrealReport _ => Some (Outcome.Invalid DiscardReason.ProcessUnreal)
  | EventFiltered key => Some (Outcome.Filtered key)
  | TraceSampled rule_id | EventSampled rule_id => Some (Outcome.FilteredSampling rule_id)
  | SerializeFailed _ | ScheduleFailed | ProjectFailed _ | Timeout | ProcessingFailed _ | MissingProjectId =>
      Some (Outcome.Invalid DiscardReason.Internal)
  | StoreFailed _ | QuotasFailed _ => Some (Outcome.Invalid DiscardReason.Internal)
  | RateLimited _ => None
  | SendFailed _ => None
  end.

End ProcessingError.
Notation ProcessingError := ProcessingError.ProcessingError.

(** ** Code that is not modelled *)

Class ProcessEnv := {
  (** [Annotated::<Event>::from_json_bytes], [to_json], [deserialize_with_meta] on
      message pack and on a JSON value *)
  event_from_json : string -> result JsonError (Annotated Event);
  event_to_json : Annotated Event -> result JsonError string;
  event_from_msgpack : string -> result JsonError (Annotated Event);
  event_from_value : SerdeValue -> option (Annotated Event);
  (** the first breadcrumb of a message pack stream, and the rest of the stream *)
  next_breadcrumb : string -> result JsonError (Annotated Breadcrumb * string);
  (** [Array::<SampleRate>::from_value(..).into_value()] *)
  sample_rates_from_value : Value -> option (list (Annotated SampleRate));
  (** [sentry_release_parser] *)
  validate_release : string -> bool;
  validate_environment : string -> bool;
  (** the compiled PII configurations of a project state: [config.pii_config] and
      [config.datascrubbing_settings.pii_config()], and what they do *)
  PiiConfig : Type;
  pii_config : ProjectState -> option PiiConfig;
  datascrubbing_config : ProjectState -> option PiiConfig;
  pii_process_value : PiiConfig -> Annotated Event -> result ProcessingAction (Annotated Event);
  scrub_minidump : PiiConfig -> string -> string -> string * bool;
  scrub_attachment : PiiConfig -> string -> string -> string;
  (** formatting of dates and identifiers, and the hash of set members *)
  to_rfc3339 : DateTime -> string;
  uuid_to_string : Uuid -> string;
  fnv_hash : string -> Z;
}.

(** ** The state of processing *)

Module ProcessEnvelopeState.

Record ProcessEnvelopeState := MkState {
  envelope : Envelope;
  event : Annotated Event;
  metrics : Metrics;
  sample_rates : option Value;
  rate_limits : RateLimits;
  extracted_metrics : list Metric;
  project_state : ProjectState;
  project_id : ProjectId;
  received_at : DateTime;
}.

Definition set_envelope (s : ProcessEnvelopeState) (e : Envelope) : ProcessEnvelopeState :=
  MkState e (event s) (metrics s) (sample_rates s) (rate_limits s) (extracted_metrics s) (project_state s)
    (project_id s) (received_at s).
Definition set_event (s : ProcessEnvelopeState) (e : Annotated Event) : ProcessEnvelopeState :=
  MkState (envelope s) e (metrics s) (sample_rates s) (rate_limits s) (extracted_metrics s) (project_state s)
    (project_id s) (received_at s).
Definition set_metrics (s : ProcessEnvelopeState) (m : Metrics) : ProcessEnvelopeState :=
  MkState (envelope s) (event s) m (sample_rates s) (rate_limits s) (extracted_metrics s) (project_state s)
    (project_id s) (received_at s).
Definition set_sample_rates (s : ProcessEnvelopeState) (r : option Value) : ProcessEnvelopeState :=
  MkState (envelope s) (event s) (metrics s) r (rate_limits s) (extracted_metrics s) (project_state s)
    (project_id s) (received_at s).
Definition set_rate_limits (s : ProcessEnvelopeState) (r : RateLimits) : ProcessEnvelopeState :=
  MkState (envelope s) (event s) (metrics s) (sample_rates s) r (extracted_metrics s) (project_state s)
    (project_id s) (received_at s).
Definition set_extracted_metrics (s : ProcessEnvelopeState) (m : list Metric) : ProcessEnvelopeState :=
  MkState (envelope s) (event s) (metrics s) (sample_rates s) (rate_limits s) m (project_state s)
    (project_id s) (received_at s).

Definition creates_event (self : ProcessEnvelopeState) : bool :=
  existsb Item.creates_event (Envelope.items (envelope self)).

Definition has_event (self : ProcessEnvelopeState) : bool :=
  match Annotated.value (event self) with Some _ => true | None => false end.

Definition event_type (self : ProcessEnvelopeState) : option EventType :=
  (fun event => default EventType.Default (Annotated.value (event_ty event))) <$> Annotated.value (event self).

Definition event_category (self : ProcessEnvelopeState) : option DataCategory :=
  DataCategory.from_event_type <$> event_type self.

Definition remove_event (self : ProcessEnvelopeState) : ProcessEnvelopeState := set_event self Annotated.empty.

End ProcessEnvelopeState.
Notation ProcessEnvelopeState := ProcessEnvelopeState.ProcessEnvelopeState.

(** The world of the processor: the store of the rate limiter ([None] when it
    cannot be reached), how many clock readings were taken, the outcomes sent. *)
Record ProcWorld (St : Type) := MkProcWorld {
  redis : option St;
  readings : nat;
  outcomes : list Enforcement.TrackOutcome;
}.
Arguments MkProcWorld {St} _ _ _.
Arguments redis {St} _.
Arguments readings {St} _.
Arguments outcomes {St} _.

Definition proc (St : Type) (A : Type) : Type :=
  ProcWorld St -> outcome (ProcWorld St * result ProcessingError A).

#[global] Instance proc_ret {St} : MRet (proc St) := fun A a w => Ret (w, Ok a).
#[global] Instance proc_bind {St} : MBind (proc St) := fun A B f m w =>
  match m w with
  | Ret (w, Ok a) => f a w
  | Ret (w, Err e) => Ret (w, Err e)
  | Panic => Panic
  end.

Definition fail {St A} (e : ProcessingError) : proc St A := fun w => Ret (w, Err e).
Definition lift {St A} (o : outcome A) : proc St A := fun w => a ← o; Ret (w, Ok a).
Definition map_err {St E A} (r : result E A) (f : E -> ProcessingError) : proc St A :=
  match r with Ok a => mret a | Err e => fail (f e) end.

(** ** The processor *)

Module EnvelopeProcessor.

(** The rate limiter is its [max_limit]; its store is part of the world. *)
Record EnvelopeProcessor := MkEnvelopeProcessor {
  config : Config;
  rate_limiter : option (option Z);
}.

Definition new (config : Config) : EnvelopeProcessor := MkEnvelopeProcessor config None.
Definition with_rate_limiter (self : EnvelopeProcessor) (rate_limiter : option (option Z)) : EnvelopeProcessor :=
  MkEnvelopeProcessor (config self) rate_limiter.

Definition has_type (ty : ItemType) (item : Item) : bool := bool_decide (Item.ty (Item.headers item) = ty).
Definition is_attachment (ty : AttachmentType) (item : Item) : bool :=
  bool_decide (Item.attachment_type (Item.headers item) = Some ty).

Section Operations.
Context `{FilterEnv, SamplingEnv, RequestEnv, ProcessEnv, NativeEnv, StoreProcessors, ReportEnv}.
Context `{SerdeJson SessionUpdate, SerdeJson UserReport, SerdeJson SerdeValue}.
Context {St : Type} `{RedisStore St}.

Import ProcessEnvelopeState.

(** *** Sessions and user reports *)

Definition max_age (cfg : Config) : SignedDuration := duration_from_secs (Config.max_session_secs_in_past cfg).

(** The closure of [process_sessions] on the payload of a session item: the
    metrics, the new payload if it changed, and whether the item stays. *)
Definition process_session (cfg : Config) (extract_metrics : bool) (drift : ClockDriftProcessor)
  (received : DateTime) (client_addr : option IpAddr) (extracted : list Metric) (payload : string)
  : outcome (list Metric * option string * bool) :=
  match SessionUpdate.parse payload with
  | Err _ => Ret (extracted, None, false)
  | Ok session =>
      if bool_decide (SessionUpdate.sequence session = u64_max) then Ret (extracted, None, false)
      else
        let changed := ClockDriftProcessor.is_drifted drift in
        session ← ClockDriftProcessor.process_session drift session;
        let early := bool_decide (SessionUpdate.timestamp session < SessionUpdate.started session) in
        let session := if early then SessionUpdate.set_timestamp session (SessionUpdate.started session) else session in
        let changed := changed || early in
        let started := SessionUpdate.started session in
        let timestamp := SessionUpdate.timestamp session in
        if bool_decide (max_age cfg < received - started) || bool_decide (max_age cfg < received - timestamp)
        then Ret (extracted, None, false)
        else if bool_decide (max_age cfg < started - received) || bool_decide (max_age cfg < timestamp - received)
        then Ret (extracted, None, false)
        else
          let attributes := SessionUpdate.attributes session in
          if negb (validate_release (SessionAttributes.release attributes)) then Ret (extracted, None, false)
          else
            let invalid_env := match SessionAttributes.environment attributes with
                               | Some env => negb (validate_environment env) | None => false end in
            let attributes := if invalid_env then SessionAttributes.set_environment attributes None else attributes in
            let auto := match SessionAttributes.ip_address attributes with
                        | Some ip => is_auto ip | None => false end in
            let attributes := if auto then SessionAttributes.set_ip_address attributes client_addr else attributes in
            let session := SessionUpdate.set_attributes session attributes in
            let extracted := if extract_metrics : bool
                             then extract_session_metrics fnv_hash uuid_to_string session extracted
                             else extracted in
            if changed || invalid_env || auto then
              match SessionUpdate.serialize session with
              | Ok json => Ret (extracted, Some json, true)
              | Err _ => Ret (extracted, None, false)
              end
            else Ret (extracted, None, true)
  end.

Definition process_session_item (cfg : Config) (extract_metrics : bool) (drift : ClockDriftProcessor)
  (received : DateTime) (client_addr : option IpAddr) (extracted : list Metric) (item : Item)
  : outcome (list Metric * Item * bool) :=
  if negb (has_type ItemType.Session item) then Ret (extracted, item, true)
  else
    '(extracted, payload, keep) ← process_session cfg extract_metrics drift received client_addr extracted
                                    (Item.payload item);
    Ret (extracted, match payload with Some json => Item.set_payload item ContentType.Json json | None => item end, keep).

(** [retain_items] with a closure that may panic. *)
Fixpoint retain_items {S} (f : S -> Item -> outcome (S * Item * bool)) (s : S) (items : list Item)
  : outcome (S * list Item) :=
  match items with
  | [] => Ret (s, [])
  | item :: items =>
      '(s, item, keep) ← f s item;
      '(s, items) ← retain_items f s items;
      Ret (s, if keep : bool then item :: items else items)
  end.

Definition process_sessions (self : EnvelopeProcessor) (state : ProcessEnvelopeState) : proc St ProcessEnvelopeState :=
  let received := received_at state in
  let extract_metrics := Config.processing_enabled (config self)
                         && ProjectState.has_feature (project_state state) MetricsExtraction in
  let envelope := envelope state in
  let client_addr := client_addr (Envelope.meta envelope) in
  let drift := ClockDriftProcessor.at_least (ClockDriftProcessor.new (Envelope.sent_at envelope) received)
                 MINIMUM_CLOCK_DRIFT in
  '(extracted, items) ← lift (retain_items
      (process_session_item (config self) extract_metrics drift received client_addr)
      (extracted_metrics state) (Envelope.items envelope));
  let envelope := Envelope.MkEnvelope (Envelope.headers envelope) items in
  mret (set_extracted_metrics (set_envelope state envelope) extracted).

Definition process_user_report (item : Item) : Item * bool :=
  if negb (has_type ItemType.UserReport item) then (item, true)
  else
    match from_slice (T := UserReport) (Item.payload item) with
    | Err _ => (item, false)
    | Ok report =>
        match to_json_string report with
        | Err _ => (item, false)
        | Ok json => (Item.set_payload item ContentType.Json json, true)
        end
    end.

Definition process_user_reports (self : EnvelopeProcessor) (state : ProcessEnvelopeState) : ProcessEnvelopeState :=
  let '(_, envelope) :=
    Envelope.retain_items (envelope state)
      (fun u item => let '(item, keep) := process_user_report item in (u, item, keep)) () in
  set_envelope state envelope.

(** *** Preparation *)

Definition prepare_state (received_at : DateTime) (envelope : Envelope) (project_state : ProjectState)
  : result ProcessingError ProcessEnvelopeState :=
  let envelope := match event_retention (ProjectState.config project_state) with
                  | Some retention => Envelope.set_retention envelope retention
                  | None => envelope
                  end in
  let project_id := match ProjectState.project_id project_state with
                    | Some id => Some id
                    | None => meta_project_id (Envelope.meta envelope)
                    end in
  match project_id with
  | None => Err ProcessingError.MissingProjectId
  | Some project_id =>
      let envelope := Envelope.set_meta envelope (set_project_id (Envelope.meta envelope) project_id) in
      Ok {| envelope := envelope; event := Annotated.empty; metrics := Metrics.default_; sample_rates := None;
            rate_limits := RateLimits.new; extracted_metrics := []; project_state := project_state;
            project_id := project_id; received_at := received_at |}
  end.

(** *** Extracting the event *)

Definition take_item (state : ProcessEnvelopeState) (cond : Item -> bool)
  : proc St (option Item * ProcessEnvelopeState) :=
  '(item, envelope) ← lift (Envelope.take_item_by (envelope state) cond);
  mret (item, set_envelope state envelope).

Definition expand_unreal (self : EnvelopeProcessor) (state : ProcessEnvelopeState) : proc St ProcessEnvelopeState :=
  '(item, state) ← take_item state (has_type ItemType.UnrealReport);
  match item with
  | Some item =>
      envelope ← map_err (expand_unreal_envelope item (envelope state)) ProcessingError.InvalidUnrealReport;
      mret (set_envelope state envelope)
  | None => mret state
  end.

Definition event_from_json_payload (item : Item) (event_type : option EventType)
  : result ProcessingError (Annotated Event * Z) :=
  match event_from_json (Item.payload item) with
  | Err e => Err (ProcessingError.InvalidJson e)
  | Ok event =>
      Ok (Annotated.map_value event (fun e => set_event_ty e (Annotated.set_value (event_ty e) event_type)),
          Item.len item)
  end.

Definition as_str (v : Value) : option string := match v with String_ s => Some s | _ => None end.

Definition event_from_security_report (item : Item) : result ProcessingError (Annotated Event * Z) :=
  let data := Item.payload item in
  match report_type_from_json data with
  | Err e => Err (ProcessingError.InvalidJson e)
  | Ok None => Err ProcessingError.InvalidSecurityType
  | Ok (Some report_type) =>
      match apply_report report_type data empty_event with
      | Err e => Err (ProcessingError.InvalidSecurityReport e)
      | Ok event =>
          let event := match v ← Item.get_header item "sentry_release"; as_str v with
                       | Some release => set_release event (Annotated.new release) | None => event end in
          let event := match v ← Item.get_header item "sentry_environment"; as_str v with
                       | Some env => set_environment event (Annotated.new env) | None => event end in
          Ok (Annotated.new (set_event_ty event (Annotated.new (event_type_of report_type))), Item.len item)
      end
  end.

Definition extract_attached_event (cfg : Config) (item : option Item) : result ProcessingError (Annotated Event) :=
  match item with
  | Some item =>
      if Item.is_empty item then Ok (Annotated.new empty_event)
      else if bool_decide (Config.max_event_size cfg < Item.len item) then Err ProcessingError.PayloadTooLarge
      else match event_from_msgpack (Item.payload item) with
           | Ok event => Ok event
           | Err e => Err (ProcessingError.InvalidMsgpack e)
           end
  | None => Ok (Annotated.new empty_event)
  end.

(** The loop takes a byte of the payload per round; running out of fuel counts
    as a panic. *)
Fixpoint breadcrumbs_loop (fuel : nat) (payload : string) : outcome (result JsonError (list (Annotated Breadcrumb))) :=
  if bool_decide (payload = "") then Ret (Ok [])
  else
    match fuel with
    | O => Panic
    | S fuel =>
        match next_breadcrumb payload with
        | Err e => Ret (Err e)
        | Ok (breadcrumb, rest) => 
            l ← breadcrumbs_loop fuel rest;
            Ret (match l with Ok l => Ok (breadcrumb :: l) | Err e => Err e end)
        end
    end.

Definition parse_msgpack_breadcrumbs (cfg : Config) (item : option Item) : proc St (list (Annotated Breadcrumb)) :=
  match item with
  | Some item =>
      if Item.is_empty item then mret []
      else if bool_decide (Config.max_event_size cfg < Item.len item) then fail ProcessingError.PayloadTooLarge
      else
        l ← lift (breadcrumbs_loop (String.length (Item.payload item)) (Item.payload item));
        map_err l ProcessingError.InvalidMsgpack
  | None => mret []
  end.

(** The date of the last breadcrumb that has one. *)
Definition last_timestamp (breadcrumbs : list (Annotated Breadcrumb)) : option Timestamp :=
  head (omap (fun b => v ← Annotated.value b; Annotated.value (Breadcrumb.timestamp v)) (rev breadcrumbs)).

(** [Option]'s order: [None] is least. *)
Definition option_gtb (a b : option Z) : bool :=
  match a, b with
  | Some a, Some b => bool_decide (b < a)
  | Some _, None => true
  | None, _ => false
  end.

Definition merge_breadcrumbs (breadcrumbs1 breadcrumbs2 : list (Annotated Breadcrumb)) : list (Annotated Breadcrumb) :=
  let '(breadcrumbs1, breadcrumbs2) :=
    if option_gtb (last_timestamp breadcrumbs1) (last_timestamp breadcrumbs2)
    then (breadcrumbs2, breadcrumbs1) else (breadcrumbs1, breadcrumbs2) in
  let max_length := Nat.max (List.length breadcrumbs1) (List.length breadcrumbs2) in
  let breadcrumbs := breadcrumbs1 ++ breadcrumbs2 in
  if bool_decide (max_length < List.length breadcrumbs)%nat
  then drop (List.length breadcrumbs - max_length) breadcrumbs else breadcrumbs.

Definition opt_len (item : option Item) : Z := match item with Some item => Item.len item | None => 0 end.

Definition event_from_attachments (cfg : Config) (event_item breadcrumbs_item1 breadcrumbs_item2 : option Item)
  : proc St (Annotated Event * Z) :=
  let len := opt_len event_item + opt_len breadcrumbs_item1 + opt_len breadcrumbs_item2 in
  event ← map_err (extract_attached_event cfg event_item) id;
  breadcrumbs1 ← parse_msgpack_breadcrumbs cfg breadcrumbs_item1;
  breadcrumbs2 ← parse_msgpack_breadcrumbs cfg breadcrumbs_item2;
  let breadcrumbs := merge_breadcrumbs breadcrumbs1 breadcrumbs2 in
  let event :=
    if bool_decide (breadcrumbs = []) then event
    else
      let '(e, event) := Annotated.get_or_insert_with event empty_event in
      Annotated.set_value event
        (Some (set_breadcrumbs e (Annotated.new (MkValues (Annotated.new breadcrumbs) ∅)))) in
  mret (event, len).

Definition is_duplicate (self : EnvelopeProcessor) (item : Item) : bool :=
  match Item.ty (Item.headers item) with
  | ItemType.Event | ItemType.Transaction | ItemType.Security | ItemType.FormData | ItemType.RawSecurity => true
  | ItemType.UnrealReport => Config.processing_enabled (config self)
  | ItemType.Attachment | ItemType.UserReport => false
  | ItemType.Session | ItemType.Sessions | ItemType.Metrics | ItemType.MetricBuckets => false
  end.

(** The items that [extract_event] takes out of the envelope first. *)
Record EventItems := MkEventItems {
  event_item : option Item;
  transaction_item : option Item;
  security_item : option Item;
  raw_security_item : option Item;
  form_item : option Item;
  attachment_item : option Item;
  breadcrumbs1 : option Item;
  breadcrumbs2 : option Item;
}.

Definition take_event_items (state : ProcessEnvelopeState) : proc St (EventItems * ProcessEnvelopeState) :=
  '(event_item, state) ← take_item state (has_type ItemType.Event);
  '(transaction_item, state) ← take_item state (has_type ItemType.Transaction);
  '(security_item, state) ← take_item state (has_type ItemType.Security);
  '(raw_security_item, state) ← take_item state (has_type ItemType.RawSecurity);
  '(form_item, state) ← take_item state (has_type ItemType.FormData);
  '(attachment_item, state) ← take_item state (is_attachment AttachmentType.EventPayload);
  '(breadcrumbs1, state) ← take_item state (is_attachment AttachmentType.Breadcrumbs);
  '(breadcrumbs2, state) ← take_item state (is_attachment AttachmentType.Breadcrumbs);
  mret (MkEventItems event_item transaction_item security_item raw_security_item form_item attachment_item
          breadcrumbs1 breadcrumbs2, state).

(** The event from the first source that there is, its size, and the sample
    rates of the item it came from. *)
Definition choose_event (self : EnvelopeProcessor) (items : EventItems) (sample_rates : option Value)
  : proc St (Annotated Event * Z * option Value) :=
  let with_rates item (parse : Item -> result ProcessingError (Annotated Event * Z)) :=
    let '(rates, item) := Item.take_sample_rates item in
    '(event, len) ← map_err (parse item) id;
    mret (event, len, rates) in
  match (match event_item items with Some item => Some item | None => security_item items end) with
  | Some item => with_rates item (fun item => event_from_json_payload item None)
  | None =>
      match transaction_item items with
      | Some item => with_rates item (fun item => event_from_json_payload item (Some EventType.Transaction))
      | None =>
          match raw_security_item items with
          | Some item => with_rates item event_from_security_report
          | None =>
              match attachment_item items, breadcrumbs1 items, breadcrumbs2 items, form_item items with
              | None, None, None, Some item =>
                  value ← lift (merge_formdata (SerdeValue.Object []) item);
                  mret (default Annotated.empty (event_from_value value), Item.len item, sample_rates)
              | None, None, None, None => mret (Annotated.empty, 0, sample_rates)
              | attachment_item, breadcrumbs1, breadcrumbs2, _ =>
                  '(event, len) ← event_from_attachments (config self) attachment_item breadcrumbs1 breadcrumbs2;
                  mret (event, len, sample_rates)
              end
          end
      end
  end.

Definition set_bytes_ingested_event (m : Metrics) (n : Z) : Metrics :=
  Metrics.MkMetrics (Annotated.new n) (Metrics.bytes_ingested_event_minidump m)
    (Metrics.bytes_ingested_event_applecrashreport m) (Metrics.bytes_ingested_event_attachment m)
    (Metrics.sample_rates m).

Definition extract_event (self : EnvelopeProcessor) (state : ProcessEnvelopeState) : proc St ProcessEnvelopeState :=
  '(items, state) ← take_event_items state;
  match Envelope.get_item_by (envelope state) (is_duplicate self) with
  | Some duplicate => fail (ProcessingError.DuplicateItem (Item.ty (Item.headers duplicate)))
  | None =>
      '(event, event_len, rates) ← choose_event self items (sample_rates state);
      let state := set_event (set_sample_rates state rates) event in
      mret (set_metrics state (set_bytes_ingested_event (metrics state) event_len))
  end.

Definition process_unreal (self : EnvelopeProcessor) (state : ProcessEnvelopeState) : proc St ProcessEnvelopeState :=
  '(event, envelope) ← map_err (process_unreal_envelope (event state) (envelope state))
                         ProcessingError.InvalidUnrealReport;
  mret (set_envelope (set_event state event) envelope).

(** [f] on the event, which is created when there is none. *)
Definition with_event (event : Annotated Event) (f : Event -> Event) : Annotated Event :=
  let '(e, event) := Annotated.get_or_insert_with event empty_event in Annotated.set_value event (Some (f e)).

Definition create_placeholders (self : EnvelopeProcessor) (state : ProcessEnvelopeState) : ProcessEnvelopeState :=
  let m := metrics state in
  match Envelope.get_item_by (envelope state) (is_attachment AttachmentType.Minidump) with
  | Some item =>
      let state := set_event state (with_event (event state) (fun e => process_minidump e (Item.payload item))) in
      set_metrics state
        (Metrics.MkMetrics (Metrics.bytes_ingested_event m) (Annotated.new (Item.len item))
           (Metrics.bytes_ingested_event_applecrashreport m) (Metrics.bytes_ingested_event_attachment m)
           (Metrics.sample_rates m))
  | None =>
      match Envelope.get_item_by (envelope state) (is_attachment AttachmentType.AppleCrashReport) with
      | Some item =>
          let state := set_event state
                         (with_event (event state) (fun e => process_apple_crash_report e (Item.payload item))) in
          set_metrics state
            (Metrics.MkMetrics (Metrics.bytes_ingested_event m) (Metrics.bytes_ingested_event_minidump m)
               (Annotated.new (Item.len item)) (Metrics.bytes_ingested_event_attachment m) (Metrics.sample_rates m))
      | None => state
      end
  end.

(** *** Finalizing and dropping events *)

Definition attachment_size (envelope : Envelope) : Z :=
  wrap 64 (foldr (fun item n => Item.len item + n) 0
             (List.filter (is_attachment AttachmentType.Attachment) (Envelope.items envelope))).

(** The metrics as they are written into the event. *)
Definition final_metrics (metrics : Metrics) (envelope : Envelope) (sample_rates : option Value) : Metrics :=
  let size := attachment_size envelope in
  let attachments := if bool_decide (0 < size) then Annotated.new size
                     else Metrics.bytes_ingested_event_attachment metrics in
  let rates := match v ← sample_rates; sample_rates_from_value v with
               | Some rates =>
                   let '(old, a) := Annotated.get_or_insert_with (Metrics.sample_rates metrics) [] in
                   Annotated.set_value a (Some (old ++ rates))
               | None => Metrics.sample_rates metrics
               end in
  Metrics.MkMetrics (Metrics.bytes_ingested_event metrics) (Metrics.bytes_ingested_event_minidump metrics)
    (Metrics.bytes_ingested_event_applecrashreport metrics) attachments rates.

(** The clock that timestamps of the event refer to. *)
Definition event_sent_at (envelope : Envelope) (is_transaction : bool) (event : Event) : option DateTime :=
  match Envelope.sent_at envelope with
  | Some sent_at => Some sent_at
  | None => if is_transaction then Annotated.value (Protocol.timestamp event) else None
  end.

Definition finalize_event (self : EnvelopeProcessor) (state : ProcessEnvelopeState) : proc St ProcessEnvelopeState :=
  let is_transaction := bool_decide (event_type state = Some EventType.Transaction) in
  let envelope := envelope state in
  match Annotated.value (event state) with
  | None => if Config.processing_enabled (config self) then fail ProcessingError.NoEventPayload else mret state
  | Some e =>
      let e := set_event_id e (Annotated.new (default 0 (Envelope.event_id envelope))) in
      let '(e, state) :=
        if Config.processing_enabled (config self) then
          (Protocol.set_metrics e (Annotated.new (final_metrics (metrics state) envelope (sample_rates state))),
           set_sample_rates (set_metrics state Metrics.default_) None)
        else (e, state) in
      let drift := ClockDriftProcessor.at_least
                     (ClockDriftProcessor.new (event_sent_at envelope is_transaction e) (received_at state))
                     MINIMUM_CLOCK_DRIFT in
      event ← lift (ClockDriftProcessor.process_value to_rfc3339 drift (Annotated.set_value (event state) (Some e)));
      mret (set_event state event)
  end.

Definition store_config (self : EnvelopeProcessor) (state : ProcessEnvelopeState) : StoreConfig :=
  let meta := Envelope.meta (envelope state) in
  {| StoreConfig.project_id := Some (project_id state);
     StoreConfig.client_ip := client_addr meta;
     StoreConfig.client := RequestMeta.client meta;
     StoreConfig.key_id := k ← ProjectState.get_public_key_config (project_state state);
                           id ← numeric_id k; Some (u64_to_string id);
     StoreConfig.protocol_version := Some (u64_to_string (RequestMeta.version meta));
     StoreConfig.user_agent := RequestMeta.user_agent meta;
     StoreConfig.received_at := Some (received_at state);
     StoreConfig.sent_at := Envelope.sent_at (envelope state);
     StoreConfig.max_secs_in_future := Some (Config.max_secs_in_future (config self));
     StoreConfig.max_secs_in_past := Some (Config.max_secs_in_past (config self));
     StoreConfig.enable_trimming := Some true;
     StoreConfig.is_renormalize := Some false;
     StoreConfig.remove_other := Some true;
     StoreConfig.normalize_user_agent := Some true |}.

Definition store_process_event (self : EnvelopeProcessor) (state : ProcessEnvelopeState)
  : proc St ProcessEnvelopeState :=
  event ← map_err (StoreProcessor.process_value (store_config self state) (event state))
            (fun _ => ProcessingError.InvalidTransaction);
  mret (set_event state event).

Definition filter_event (self : EnvelopeProcessor) (state : ProcessEnvelopeState) : proc St ProcessEnvelopeState :=
  match Annotated.value (event state) with
  | None => fail ProcessingError.NoEventPayload
  | Some e =>
      r ← lift (Filters.should_filter e (client_addr (Envelope.meta (envelope state)))
                  (filter_settings (ProjectState.config (project_state state))));
      _ ← map_err r ProcessingError.EventFiltered;
      mret state
  end.

(** [self.extract_transaction_metrics] *)
Definition extract_metrics (self : EnvelopeProcessor) (state : ProcessEnvelopeState) : proc St ProcessEnvelopeState :=
  if negb (ProjectState.has_feature (project_state state) MetricsExtraction) then mret state
  else match Annotated.value (event state) with
       | Some e => mret (set_extracted_metrics state (extract_transaction_metrics e (extracted_metrics state)))
       | None => fail ProcessingError.NoEventPayload
       end.

Definition sample_event (self : EnvelopeProcessor) (state : ProcessEnvelopeState) : proc St ProcessEnvelopeState :=
  match Annotated.value (event state) with
  | None => mret state
  | Some e =>
      match should_keep_event e (client_addr (Envelope.meta (envelope state)))
              (DynamicSampling.MkProjectState (Projects.dynamic_sampling (ProjectState.config (project_state state))))
              (Config.processing_enabled (config self)) with
      | Drop rule_id => fail (ProcessingError.EventSampled rule_id)
      | Keep | NoDecision => mret state
      end
  end.

(** *** Rate limiting *)

(** What the closure of the limiter works on. *)
Record LimiterState := MkLimiterState {
  ls_redis : option St;
  ls_readings : nat;
  ls_remove_event : bool;
  ls_panicked : bool;
}.

Section Quotas.

(** The monotonic and the system clock, by reading. *)
Context (instants : nat -> Instant) (times : nat -> SystemTime).

Definition limiter_check (max_limit : option Z) (quotas : list Quota) (event_category : option DataCategory)
  (s : LimiterState) (item_scope : ItemScoping) (quantity : Z)
  : LimiterState * result RateLimitingError RateLimits :=
  let now := instants (ls_readings s) in
  match RedisLimiter.is_rate_limited max_limit now (UnixTimestamp.from_system (times (ls_readings s))) (ls_redis s)
          quotas item_scope quantity with
  | Panic => (MkLimiterState (ls_redis s) (S (ls_readings s)) (ls_remove_event s) true, Err Redis)
  | Ret (Err e, redis) => (MkLimiterState redis (S (ls_readings s)) (ls_remove_event s) (ls_panicked s), Err e)
  | Ret (Ok limits, redis) =>
      let remove_event := bool_decide (Some (category item_scope) = event_category)
                          && RateLimits.is_limited (instants (S (ls_readings s))) limits in
      (MkLimiterState redis (S (S (ls_readings s))) (ls_remove_event s || remove_event) (ls_panicked s), Ok limits)
  end.

Definition enforce_quotas (self : EnvelopeProcessor) (state : ProcessEnvelopeState)
  : proc St ProcessEnvelopeState := fun w =>
  match rate_limiter self with
  | None => Ret (w, Ok state)
  | Some max_limit =>
      let quotas := quotas (ProjectState.config (project_state state)) in
      if bool_decide (quotas = []) then Ret (w, Ok state)
      else
        let event_category := event_category state in
        let limiter := EnvelopeLimiter.new (MkLimiterState (redis w) (readings w) false false) in
        let limiter := match event_category with
                       | Some category => EnvelopeLimiter.assume_event limiter category | None => limiter end in
        let scoping := ProjectState.scope_request (project_state state) (Envelope.meta (envelope state)) in
        let '(s, env, r) := EnvelopeLimiter.enforce (limiter_check max_limit quotas event_category) limiter
                              (envelope state) scoping in
        if ls_panicked s then Panic
        else
          match r with
          | Err e => Ret (MkProcWorld (ls_redis s) (ls_readings s) (outcomes w), Err (ProcessingError.QuotasFailed e))
          | Ok (enforcement, limits) =>
              let state := set_rate_limits (set_envelope state env) limits in
              let sent := Enforcement.track_outcomes (times (ls_readings s)) (instants (ls_readings s)) enforcement
                            env scoping in
              let state := if ls_remove_event s then remove_event state else state in
              Ret (MkProcWorld (ls_redis s) (S (ls_readings s)) (outcomes w ++ sent), Ok state)
          end
  end.

(** *** Scrubbing and serialization *)

Definition pii_step (cfg : option PiiConfig) (event : Annotated Event) : proc St (Annotated Event) :=
  match cfg with
  | Some cfg => map_err (pii_process_value cfg event) ProcessingError.ProcessingFailed
  | None => mret event
  end.

Definition scrub_event (self : EnvelopeProcessor) (state : ProcessEnvelopeState) : proc St ProcessEnvelopeState :=
  event ← pii_step (pii_config (project_state state)) (event state);
  event ← pii_step (datascrubbing_config (project_state state)) event;
  mret (set_event state event).

(** [get_item_by_mut]: [f] on the first item that matches. *)
Fixpoint update_first (p : Item -> bool) (f : Item -> Item) (items : list Item) : list Item :=
  match items with
  | [] => []
  | item :: items => if p item then f item :: items else item :: update_first p f items
  end.

Definition scrub_minidump_item (cfg : PiiConfig) (item : Item) : Item :=
  let filename := default "" (Item.filename (Item.headers item)) in
  let '(payload, ok) := scrub_minidump cfg filename (Item.payload item) in
  let payload := if ok : bool then payload else scrub_attachment cfg filename payload in
  let content_type := default ContentType.Minidump (Item.content_type (Item.headers item)) in
  Item.set_payload item content_type payload.

Definition scrub_attachments (self : EnvelopeProcessor) (state : ProcessEnvelopeState) : ProcessEnvelopeState :=
  match pii_config (project_state state) with
  | None => state
  | Some cfg =>
      let env := envelope state in
      set_envelope state
        (Envelope.MkEnvelope (Envelope.headers env)
           (update_first (is_attachment AttachmentType.Minidump) (scrub_minidump_item cfg) (Envelope.items env)))
  end.

Definition serialize_event (self : EnvelopeProcessor) (state : ProcessEnvelopeState) : proc St ProcessEnvelopeState :=
  data ← map_err (event_to_json (event state)) ProcessingError.SerializeFailed;
  let event_type := default EventType.Default (event_type state) in
  let event_item := Item.set_payload (Item.new (ItemType.from_event_type event_type)) ContentType.Json data in
  let event_item := match sample_rates state with
                    | Some rates => Item.set_sample_rates event_item rates | None => event_item end in
  mret (set_envelope (set_sample_rates state None) (Envelope.add_item (envelope state) event_item)).

(** *** The pipeline *)

(** [ProcessEnvelopeResponse] *)
Record ProcessEnvelopeResponse := MkResponse {
  resp_envelope : option Envelope;
  resp_rate_limits : RateLimits;
  resp_metrics : list Metric;
}.

Definition response_from (state : ProcessEnvelopeState) : ProcessEnvelopeResponse :=
  MkResponse (if Envelope.is_empty (envelope state) then None else Some (envelope state)) (rate_limits state)
    (extracted_metrics state).

(** [if_processing!] *)
Definition if_processing (self : EnvelopeProcessor) (f : ProcessEnvelopeState -> proc St ProcessEnvelopeState)
  (state : ProcessEnvelopeState) : proc St ProcessEnvelopeState :=
  if Config.processing_enabled (config self) then f state else mret state.

(** The steps for envelopes that create an event. *)
Definition process_event_items (self : EnvelopeProcessor) (state : ProcessEnvelopeState)
  : proc St ProcessEnvelopeState :=
  state ← if_processing self (expand_unreal self) state;
  state ← extract_event self state;
  state ← if_processing self (fun state =>
            state ← process_unreal self state; mret (create_placeholders self state)) state;
  state ← finalize_event self state;
  state ← sample_event self state;
  if_processing self (fun state =>
    state ← store_process_event self state;
    state ← extract_metrics self state;
    filter_event self state) state.

Definition process_state (self : EnvelopeProcessor) (state : ProcessEnvelopeState) : proc St ProcessEnvelopeResponse :=
  state ← process_sessions self state;
  let state := process_user_reports self state in
  state ← (if creates_event state then process_event_items self state else mret state);
  state ← if_processing self (enforce_quotas self) state;
  state ← (if has_event state then
             state ← scrub_event self state; serialize_event self state
           else mret state);
  mret (response_from (scrub_attachments self state)).

(** [instant_to_date_time] reads both clocks. *)
Definition process (self : EnvelopeProcessor) (env : Envelope) (project_state : ProjectState) (start_time : Instant)
  : proc St ProcessEnvelopeResponse := fun w =>
  let received := UnixTimestamp.instant_to_system_time (times (readings w)) (instants (readings w)) start_time in
  match prepare_state received env project_state with
  | Err e => Ret (w, Err e)
  | Ok state => process_state self state (MkProcWorld (redis w) (S (readings w)) (outcomes w))
  end.

End Quotas.

End Operations.
End EnvelopeProcessor.

(** ** Sessions are validated *)

Section SessionsSpec.
Context `{ProcessEnv, RequestEnv, SerdeJson SessionUpdate}.

(** What downstream may rely on for a session that was kept. *)
Definition session_ok (cfg : Config) (received : DateTime) (client_addr : option IpAddr) (s : SessionUpdate) : Prop :=
  SessionUpdate.started s <= SessionUpdate.timestamp s /\
  Z.abs (received - SessionUpdate.started s) <= EnvelopeProcessor.max_age cfg /\
  Z.abs (received - SessionUpdate.timestamp s) <= EnvelopeProcessor.max_age cfg /\
  SessionUpdate.sequence s <> u64_max /\
  validate_release (SessionAttributes.release (SessionUpdate.attributes s)) = true /\
  (forall env, SessionAttributes.environment (SessionUpdate.attributes s) = Some env ->
     validate_environment env = true) /\
  (SessionAttributes.ip_address (SessionUpdate.attributes s) = Some "{{auto}}" -> client_addr = Some "{{auto}}").

Lemma process_session_sequence drift s s' :
  ClockDriftProcessor.process_session drift s = Ret s' ->
  SessionUpdate.sequence s' = SessionUpdate.sequence s.
Proof.
  unfold ClockDriftProcessor.process_session. destruct (ClockDriftProcessor.correction drift); [|by intros [= <-]].
  intros (t & _ & (st & _ & [= <-])%outcome_bind_Ret)%outcome_bind_Ret. done.
Qed.

Lemma process_session_same drift s :
  ClockDriftProcessor.is_drifted drift = false -> ClockDriftProcessor.process_session drift s = Ret s.
Proof.
  unfold ClockDriftProcessor.is_drifted, ClockDriftProcessor.process_session.
  by destruct (ClockDriftProcessor.correction drift).
Qed.

(** The session as it is kept, with the payload that holds it. *)
Lemma process_session_kept cfg ext drift received addr ms payload ms' p :
  EnvelopeProcessor.process_session cfg ext drift received addr ms payload = Ret (ms', p, true) ->
  exists s, session_ok cfg received addr s /\
    match p with
    | Some json => SessionUpdate.serialize s = Ok json
    | None => SessionUpdate.parse payload = Ok s
    end.
Proof.
  unfold EnvelopeProcessor.process_session. destruct (SessionUpdate.parse payload) as [s0|]; [|done].
  case_bool_decide as Hseq; [done|]. intros (s1 & Hs1 & Hrest)%outcome_bind_Ret.
  pose proof (process_session_sequence _ _ _ Hs1) as Hseq1.
  set (s2 := if bool_decide _ then SessionUpdate.set_timestamp _ _ else s1) in Hrest.
  assert (SessionUpdate.started s2 <= SessionUpdate.timestamp s2 /\ SessionUpdate.sequence s2 <> u64_max)
    as [Hord Hseq2] by (subst s2; clear Hrest; case_bool_decide; simpl; split; (lia || congruence)).
  destruct (bool_decide (_ < received - _) || _) eqn:Hpast; [done|].
  destruct (bool_decide (_ < _ - received) || _) eqn:Hfuture; [done|].
  apply orb_false_iff in Hpast as [?%bool_decide_eq_false ?%bool_decide_eq_false].
  apply orb_false_iff in Hfuture as [?%bool_decide_eq_false ?%bool_decide_eq_false].
  destruct (negb (validate_release _)) eqn:Hrel; [done|]. apply negb_false_iff in Hrel.
  set (bad_env := match SessionAttributes.environment _ with Some env => _ | None => false end) in Hrest.
  set (a1 := if bad_env then _ else _) in Hrest.
  set (auto := match SessionAttributes.ip_address a1 with Some ip => _ | None => false end) in Hrest.
  set (a2 := if auto then _ else a1) in Hrest.
  exists (SessionUpdate.set_attributes s2 a2). split.
  - unfold session_ok. simpl. split; [done|]. split; [lia|]. split; [lia|]. split; [done|].
    split; [subst a2 a1; by destruct auto, bad_env|].
    split.
    + intros env. assert (SessionAttributes.environment a2 = SessionAttributes.environment a1) as ->
        by (subst a2; by destruct auto).
      subst a1. unfold bad_env.
      destruct (SessionAttributes.environment (SessionUpdate.attributes s2)) as [e|] eqn:He; [|congruence].
      destruct (validate_environment e) eqn:Hv; simpl; congruence.
    + unfold a2. destruct auto eqn:Ha; simpl; [done|]. intros Hip. unfold auto in Ha. rewrite Hip in Ha. done.
  - destruct (_ || auto) eqn:Hch; [by destruct (SessionUpdate.serialize _); simplify_eq|]. simplify_eq.
    apply orb_false_iff in Hch as [[[Hd He]%orb_false_iff Hb]%orb_false_iff Hauto].
    rewrite process_session_same in Hs1 by done. injection Hs1 as <-.
    subst a2 a1. rewrite Hauto, Hb. subst s2. rewrite He. by destruct s0.
Qed.

End SessionsSpec.

(** *** On envelopes *)

Lemma retain_items_elem {S} (f : S -> Item -> outcome (S * Item * bool)) items s s' items' it' :
  EnvelopeProcessor.retain_items f s items = Ret (s', items') -> it' ∈ items' ->
  exists it s1 s2, it ∈ items /\ f s1 it = Ret (s2, it', true).
Proof.
  revert s items' s'. induction items as [|it items IH]; intros s items' s'; simpl.
  - intros [= <- <-] []%not_elem_of_nil.
  - intros ([[s1 it1] keep] & Hf & ([s2 rest] & Hr & [= <- <-])%outcome_bind_Ret)%outcome_bind_Ret Hin.
    assert (it' = it1 /\ keep = true \/ it' ∈ rest) as [[-> ->]|Hin'].
    { destruct keep; [|by right]. apply elem_of_cons in Hin as [->|?]; auto. }
    + exists it, s, s1. split; [constructor|done].
    + destruct (IH _ _ _ Hr Hin') as (it0 & s3 & s4 & ? & ?). exists it0, s3, s4. split; [by constructor|done].
Qed.

(** Items that the closure neither changes nor drops, and that others do not turn
    into, stay in place. *)
Lemma retain_items_others {S} (f : S -> Item -> outcome (S * Item * bool)) (p : Item -> bool) items s s' items' :
  (forall s it s' it' keep, f s it = Ret (s', it', keep) -> p it = true -> it' = it /\ keep = true) ->
  (forall s it s' it' keep, f s it = Ret (s', it', keep) -> p it = false -> p it' = false) ->
  EnvelopeProcessor.retain_items f s items = Ret (s', items') -> List.filter p items' = List.filter p items.
Proof.
  intros Hp Hnp. revert s s' items'. induction items as [|it items IH]; intros s s' items'; simpl; [by intros [= <- <-]|].
  intros ([[s1 it1] keep] & Hf & ([s2 rest] & Hr & [= <- <-])%outcome_bind_Ret)%outcome_bind_Ret.
  specialize (Hp _ _ _ _ _ Hf). specialize (Hnp _ _ _ _ _ Hf). destruct (p it) eqn:E.
  - destruct Hp as [-> ->]; [done|]. simpl. rewrite E. f_equal. by eapply IH.
  - destruct keep; simpl; rewrite ?Hnp by done; by eapply IH.
Qed.

(** Serialized sessions fit the length header of an item. *)
Class SessionJsonLaws `{SerdeJson SessionUpdate} : Prop := {
  session_json_reads s json : to_json_string s = Ok json -> from_slice json = Ok s;
  session_json_length s json : to_json_string s = Ok json -> Z.of_nat (String.length json) <= u32_max;
}.

Lemma set_payload_payload it ct s :
  Z.of_nat (String.length s) <= u32_max -> Item.payload (Item.set_payload it ct s) = s.
Proof.
  intros Hs. unfold Item.set_payload. simpl. rewrite Z.min_r by done. rewrite Nat2Z.id. apply substring_all.
Qed.

(** A session item is dropped, or it keeps its type. *)
Lemma process_session_item_type `{ProcessEnv, RequestEnv, SerdeJson SessionUpdate}
    cfg ext drift received addr ms it ms' it' keep :
  EnvelopeProcessor.process_session_item cfg ext drift received addr ms it = Ret (ms', it', keep) ->
  Item.ty (Item.headers it') = Item.ty (Item.headers it).
Proof.
  unfold EnvelopeProcessor.process_session_item. destruct (negb _); [by intros [= <- <- <-]|].
  intros (((m & p) & k) & _ & [= <- <- <-])%outcome_bind_Ret. by destruct p.
Qed.

Section SessionsEnvelope.
Context `{ProcessEnv, RequestEnv, SerdeJson SessionUpdate, !SessionJsonLaws} {St : Type}.

(** After validation every session left in the envelope ends no earlier than it
    starts, lies within the configured age around the time of receipt, has a
    usable sequence number and a valid release and environment, and no
    placeholder for its address; all other items of the envelope are as before. *)
Theorem sessions_validated (self : EnvelopeProcessor.EnvelopeProcessor) state (w w' : ProcWorld St) state' :
  EnvelopeProcessor.process_sessions self state w = Ret (w', Ok state') ->
  w' = w /\
  (forall it, it ∈ Envelope.items (ProcessEnvelopeState.envelope state') ->
     Item.ty (Item.headers it) = ItemType.Session ->
     exists s, SessionUpdate.parse (Item.payload it) = Ok s /\
       session_ok (EnvelopeProcessor.config self) (ProcessEnvelopeState.received_at state)
         (client_addr (Envelope.meta (ProcessEnvelopeState.envelope state))) s) /\
  List.filter (fun it => negb (EnvelopeProcessor.has_type ItemType.Session it))
    (Envelope.items (ProcessEnvelopeState.envelope state')) =
  List.filter (fun it => negb (EnvelopeProcessor.has_type ItemType.Session it))
    (Envelope.items (ProcessEnvelopeState.envelope state)).
Proof.
  unfold EnvelopeProcessor.process_sessions, mbind, proc_bind, lift.
  destruct (EnvelopeProcessor.retain_items _ _ _) as [[ms' items']|] eqn:Hr; simpl; [|done].
  intros [= <- <-]. simpl. split; [done|]. split.
  - intros it' Hin Hty. destruct (retain_items_elem _ _ _ _ _ _ Hr Hin) as (it & s1 & s2 & Hit & Hf).
    pose proof (process_session_item_type _ _ _ _ _ _ _ _ _ _ Hf) as Ht.
    unfold EnvelopeProcessor.process_session_item in Hf.
    assert (EnvelopeProcessor.has_type ItemType.Session it = true) as Hst
      by (apply bool_decide_eq_true; congruence).
    rewrite Hst in Hf. simpl in Hf. apply outcome_bind_Ret in Hf as (((m & p) & k) & Hp & [= <- <- ->]).
    apply process_session_kept in Hp as (s & Hok & Hs). exists s. split; [|done].
    destruct p as [json|]; [|done]. unfold SessionUpdate.serialize in Hs. unfold SessionUpdate.parse.
    rewrite set_payload_payload by (by eapply session_json_length). by apply session_json_reads.
  - eapply retain_items_others; [..|exact Hr]; intros s it s' it' keep Hf Hit.
    + unfold EnvelopeProcessor.process_session_item in Hf. rewrite Hit in Hf. by simplify_eq.
    + apply process_session_item_type in Hf. unfold EnvelopeProcessor.has_type in *. by rewrite Hf.
Qed.
End SessionsEnvelope.

(** ** Extracting the event *)

Definition opt_list {A} (o : option A) : list A := match o with Some x => [x] | None => [] end.

Section Extraction.
Context `{FilterEnv, SamplingEnv, RequestEnv, ProcessEnv, NativeEnv, StoreProcessors, ReportEnv}.
Context `{SerdeJson SessionUpdate, SerdeJson UserReport, SerdeJson SerdeValue}.
Context {St : Type} `{RedisStore St}.

Import EnvelopeProcessor ProcessEnvelopeState.

Lemma take_item_spec state p (w : ProcWorld St) :
  exists r env, take_item state p w = Ret (w, Ok (r, set_envelope state env)) /\
    Envelope.headers env = Envelope.headers (envelope state) /\
    Envelope.items (envelope state) ≡ₚ opt_list r ++ Envelope.items env /\
    Forall (fun it => p it = true) (opt_list r).
Proof.
  unfold take_item, mbind, proc_bind, lift.
  destruct (take_item_by_spec (envelope state) p) as (r & env & -> & Hh & _ & Hr). simpl.
  exists r, env. split; [done|]. split; [done|].
  destruct r as [it|]; simpl; [destruct Hr as [? ?]; split; [done|by repeat constructor]|].
  destruct Hr as [-> _]. by split.
Qed.

(** The items taken, by the predicate of their step. *)
Definition taken (items : EventItems) : list Item :=
  opt_list (event_item items) ++ opt_list (transaction_item items) ++ opt_list (security_item items)
  ++ opt_list (raw_security_item items) ++ opt_list (form_item items) ++ opt_list (attachment_item items)
  ++ opt_list (breadcrumbs1 items) ++ opt_list (breadcrumbs2 items).

Definition well_taken (items : EventItems) : Prop :=
  let all p o := Forall (fun it => p it = true) (opt_list o) in
  all (has_type ItemType.Event) (event_item items) /\
  all (has_type ItemType.Transaction) (transaction_item items) /\
  all (has_type ItemType.Security) (security_item items) /\
  all (has_type ItemType.RawSecurity) (raw_security_item items) /\
  all (has_type ItemType.FormData) (form_item items) /\
  all (is_attachment AttachmentType.EventPayload) (attachment_item items) /\
  all (is_attachment AttachmentType.Breadcrumbs) (breadcrumbs1 items) /\
  all (is_attachment AttachmentType.Breadcrumbs) (breadcrumbs2 items).

(** Takes the next item in a proof. *)
Ltac take_next E Hh Hp Hf :=
  match goal with
  | |- context [take_item ?st ?p ?w] =>
      let r := fresh "r" in let env := fresh "env" in
      destruct (take_item_spec st p w) as (r & env & E & Hh & Hp & Hf); rewrite E; cbn [envelope set_envelope] in *
  end.

Lemma take_event_items_spec state (w : ProcWorld St) :
  exists items env, take_event_items state w = Ret (w, Ok (items, set_envelope state env)) /\
    Envelope.headers env = Envelope.headers (envelope state) /\
    Envelope.items (envelope state) ≡ₚ taken items ++ Envelope.items env /\ well_taken items.
Proof.
  unfold take_event_items, mbind, proc_bind.
  take_next E1 Hh1 Hp1 Hf1. take_next E2 Hh2 Hp2 Hf2. take_next E3 Hh3 Hp3 Hf3. take_next E4 Hh4 Hp4 Hf4.
  take_next E5 Hh5 Hp5 Hf5. take_next E6 Hh6 Hp6 Hf6. take_next E7 Hh7 Hp7 Hf7. take_next E8 Hh8 Hp8 Hf8.
  eexists _, _. split; [reflexivity|]. split; [congruence|]. split.
  - unfold taken. simpl. rewrite Hp1, Hp2, Hp3, Hp4, Hp5, Hp6, Hp7, Hp8. by rewrite <- !app_assoc.
  - by unfold well_taken; simpl.
Qed.

(** Items that [extract_event] treats as attachments of an event. *)
Definition is_event_attachment (it : Item) : bool :=
  is_attachment AttachmentType.EventPayload it || is_attachment AttachmentType.Breadcrumbs it.

(** The item types of which an event envelope may hold one item. *)
Definition unique_types : list ItemType :=
  [ItemType.Event; ItemType.Transaction; ItemType.Security; ItemType.RawSecurity; ItemType.FormData].

Lemma filter_opt_list (p q : Item -> bool) (o : option Item) :
  Forall (fun it => q it = true) (opt_list o) -> (forall it, q it = true -> p it = false) ->
  List.filter p (opt_list o) = [].
Proof.
  intros Hq Hpq. destruct o as [it|]; simpl in *; [|done].
  apply Forall_cons_1 in Hq as [Hq _]. by rewrite (Hpq it Hq).
Qed.

Lemma filter_opt_list_le (p : Item -> bool) (o : option Item) : (List.length (List.filter p (opt_list o)) <= 1)%nat.
Proof. destruct o as [it|]; simpl; [|lia]. destruct (p it); simpl; lia. Qed.

Lemma taken_unique items ty :
  well_taken items -> ty ∈ unique_types ->
  (List.length (List.filter (fun it => has_type ty it && negb (is_event_attachment it)) (taken items)) <= 1)%nat.
Proof.
  intros (H1' & H2' & H3' & H4' & H5' & H6' & H7' & H8') Hty. unfold taken. rewrite !List.filter_app, !length_app.
  assert (forall a, a = AttachmentType.EventPayload \/ a = AttachmentType.Breadcrumbs -> forall it,
            is_attachment a it = true -> has_type ty it && negb (is_event_attachment it) = false) as Hatt.
  { intros a Ha it Hit. unfold is_event_attachment. destruct Ha as [-> | ->]; rewrite Hit, ?orb_true_r; apply andb_false_r. }
  assert (forall ty', ty' <> ty -> forall it, has_type ty' it = true ->
            has_type ty it && negb (is_event_attachment it) = false) as Hne.
  { intros ty' Hn it Hit%bool_decide_eq_true. unfold has_type. rewrite bool_decide_false; [done|congruence]. }
  rewrite (filter_opt_list _ _ _ H6'), (filter_opt_list _ _ _ H7'), (filter_opt_list _ _ _ H8')
    by (apply Hatt; auto).
  assert (forall ty' o, Forall (fun it => has_type ty' it = true) (opt_list o) -> ty' <> ty ->
    List.filter (fun it => has_type ty it && negb (is_event_attachment it)) (opt_list o) = []) as Hz.
  { intros ty' o Ho Hn. eapply filter_opt_list; [exact Ho|by apply Hne]. }
  pose proof (filter_opt_list_le (fun it => has_type ty it && negb (is_event_attachment it))) as Hle.
  pose proof (Hle (event_item items)). pose proof (Hle (transaction_item items)).
  pose proof (Hle (security_item items)). pose proof (Hle (raw_security_item items)).
  pose proof (Hle (form_item items)). clear Hle Hatt Hne.
  unfold unique_types in Hty. rewrite !elem_of_cons, elem_of_nil in Hty.
  destruct Hty as [->|[->|[->|[->|[->|[]]]]]];
    rewrite ?(Hz ItemType.Event (event_item items)), ?(Hz ItemType.Transaction (transaction_item items)),
      ?(Hz ItemType.Security (security_item items)), ?(Hz ItemType.RawSecurity (raw_security_item items)),
      ?(Hz ItemType.FormData (form_item items)) by done; simpl; lia.
Qed.

Lemma bind_ok {A B} (m : proc St A) (f : A -> proc St B) w w' b :
  (m ≫= f) w = Ret (w', Ok b) -> exists w1 a, m w = Ret (w1, Ok a) /\ f a w1 = Ret (w', Ok b).
Proof.
  unfold mbind, proc_bind. destruct (m w) as [[w1 [a|e]]|]; [|done|done]. eauto.
Qed.

Lemma map_err_ok {E A} (r : result E A) f (w w' : ProcWorld St) a :
  map_err r f w = Ret (w', Ok a) -> w' = w /\ r = Ok a.
Proof. unfold map_err, fail. by destruct r; intros [= <- <-]. Qed.

Lemma lift_ok {A} (o : outcome A) (w w' : ProcWorld St) a : lift o w = Ret (w', Ok a) -> w' = w /\ o = Ret a.
Proof. unfold lift. destruct o; by intros [= <- <-]. Qed.

Lemma get_item_by_None env p : Envelope.get_item_by env p = None -> Forall (fun it => p it = false) (Envelope.items env).
Proof. apply find_None_spec. Qed.

Lemma extract_event_no_duplicates self state (w w' : ProcWorld St) state' :
  extract_event self state w = Ret (w', Ok state') ->
  Forall (fun it => is_duplicate self it = false) (Envelope.items (envelope state')) /\
  Envelope.headers (envelope state') = Envelope.headers (envelope state) /\
  exists items, Envelope.items (envelope state) ≡ₚ taken items ++ Envelope.items (envelope state') /\ well_taken items.
Proof.
  unfold extract_event. intros (w1 & [items st1] & Ht & He)%bind_ok.
  destruct (take_event_items_spec state w) as (items' & env & Ht' & Hh & Hp & Hw).
  rewrite Ht' in Ht. injection Ht as <- <- <-.
  destruct (Envelope.get_item_by _ _) eqn:Hdup; [done|]. apply get_item_by_None in Hdup.
  apply bind_ok in He as (w2 & [[ev len] rates] & _ & [= _ <-]). simpl in *.
  split; [done|split; [done|by exists items']].
Qed.

(** Extraction succeeds only when the envelope holds at most one item of each
    type that makes up an event, so a second event is never dropped silently.
    It removes these items and the attachments that describe the event and
    leaves all other items alone. *)
Theorem extract_event_unique self state (w w' : ProcWorld St) state' :
  extract_event self state w = Ret (w', Ok state') ->
  (forall ty, ty ∈ unique_types ->
     (List.length (List.filter (fun it => has_type ty it && negb (is_event_attachment it))
                     (Envelope.items (envelope state))) <= 1)%nat) /\
  Forall (fun it => is_duplicate self it = false) (Envelope.items (envelope state')) /\
  Envelope.headers (envelope state') = Envelope.headers (envelope state) /\
  exists items, Envelope.items (envelope state) ≡ₚ taken items ++ Envelope.items (envelope state') /\ well_taken items.
Proof.
  intros (Hdup & Hh & items & Hp & Hw)%extract_event_no_duplicates.
  split; [|by eauto]. intros ty Hty. rewrite Hp, List.filter_app, length_app.
  rewrite (filter_none_nil _ (Envelope.items (envelope state')));
    [pose proof (taken_unique items ty Hw Hty); simpl; lia|].
  eapply Forall_impl; [exact Hdup|]. intros it Hit. apply andb_false_iff. left.
  unfold is_duplicate in Hit. unfold has_type. apply bool_decide_eq_false. intros Heq.
  unfold unique_types in Hty. rewrite !elem_of_cons, elem_of_nil in Hty. rewrite Heq in Hit.
  by destruct Hty as [->|[->|[->|[->|[->|[]]]]]].
Qed.

(** Two lists of breadcrumbs of a native crash: the merge has the length of the
    longer list, keeps the list that ends later in full, and before it the last
    breadcrumbs of the other one. *)
Theorem merge_breadcrumbs_keeps_newer (a b : list (Annotated Breadcrumb)) :
  List.length (merge_breadcrumbs a b) = Nat.max (List.length a) (List.length b) /\
  exists older newer kept, ((older, newer) = (a, b) \/ (older, newer) = (b, a)) /\
    option_gtb (last_timestamp older) (last_timestamp newer) = false /\
    merge_breadcrumbs a b = kept ++ newer /\ kept `suffix_of` older.
Proof.
  assert (forall older newer : list (Annotated Breadcrumb),
    let m := Nat.max (List.length older) (List.length newer) in
    let l := older ++ newer in
    let r := if bool_decide (m < List.length l)%nat then drop (List.length l - m) l else l in
    List.length r = m /\ exists kept, r = kept ++ newer /\ kept `suffix_of` older) as Hm.
  { intros older newer m l r. assert (r = drop (List.length l - m) older ++ newer) as ->.
    { unfold r, l, m. rewrite length_app. case_bool_decide; [rewrite drop_app_le by lia; done|].
      by replace (_ - _)%nat with 0%nat by lia. }
    split; [rewrite length_app, length_drop; unfold l, m; rewrite length_app; lia|].
    eexists. split; [done|]. exists (take (List.length l - m) older). by rewrite take_drop. }
  unfold merge_breadcrumbs. destruct (option_gtb (last_timestamp a) (last_timestamp b)) eqn:Hgt.
  - destruct (Hm b a) as (Hl & kept & Hk & Hs).
    split; [etransitivity; [exact Hl|apply Nat.max_comm]|].
    exists b, a, kept. split; [by right|]. split; [|done].
    unfold option_gtb in *. destruct (last_timestamp a), (last_timestamp b); try done.
    apply bool_decide_eq_true in Hgt. apply bool_decide_eq_false. lia.
  - destruct (Hm a b) as (Hl & kept & Hk & Hs). split; [done|]. exists a, b, kept. auto.
Qed.

(** ** At most one event leaves the processor *)

Definition event_types : list ItemType :=
  [ItemType.Event; ItemType.Transaction; ItemType.Security; ItemType.RawSecurity].
Definition is_event_item (it : Item) : bool := bool_decide (Item.ty (Item.headers it) ∈ event_types).
Definition event_free (items : list Item) : Prop := Forall (fun it => is_event_item it = false) items.

(** Every item of [b] has the type of an item of [a]. *)
Definition types_from (a b : list Item) : Prop :=
  forall it, it ∈ b -> exists it0, it0 ∈ a /\ Item.ty (Item.headers it) = Item.ty (Item.headers it0).

Lemma event_free_from a b : types_from a b -> event_free a -> event_free b.
Proof.
  unfold event_free. rewrite !Forall_forall. intros Ht Ha it Hit. destruct (Ht it Hit) as (it0 & H0' & Heq).
  specialize (Ha it0 H0'). unfold is_event_item in *. by rewrite Heq.
Qed.

Lemma retain_types (g : Item -> Item * bool) items :
  (forall it, Item.ty (Item.headers (g it).1) = Item.ty (Item.headers it)) ->
  types_from items (Envelope.retain (fun u it => let '(it, keep) := g it in (u, it, keep)) () items).2.
Proof.
  intros Hg. induction items as [|it items IH]; simpl; [by intros it []%not_elem_of_nil|].
  specialize (Hg it). destruct (g it) as [it1 keep]. simpl.
  destruct (Envelope.retain _ _ items) as [u rest]. simpl in *. intros x Hx.
  assert (x = it1 \/ x ∈ rest) as [->|Hr] by (destruct keep; [by apply elem_of_cons in Hx|by right]).
  - exists it. split; [constructor|done].
  - destruct (IH x Hr) as (it0 & ? & ?). exists it0. split; [by constructor|done].
Qed.

Lemma enforce_types {S E} (check : S -> ItemScoping -> Z -> S * result E RateLimits) l env scoping :
  types_from (Envelope.items env) (Envelope.items (EnvelopeLimiter.enforce check l env scoping).1.2).
Proof.
  unfold EnvelopeLimiter.enforce. destruct (EnvelopeLimiter.execute _ _ _ _) as [s [[enf limits]|e]]; simpl.
  2: { intros it Hit. by exists it. }
  unfold Envelope.retain_items.
  pose proof (retain_types (fun it => EnvelopeLimiter.retain_item it enf) (Envelope.items env)) as Ht.
  destruct (Envelope.retain _ _ _) as [u rest]. simpl. apply Ht. intros it. unfold EnvelopeLimiter.retain_item.
  destruct (_ && Item.requires_event it); [done|]. destruct (_ && bool_decide _); [by destruct (Item.creates_event it)|].
  by destruct (_ && bool_decide _).
Qed.

Lemma quotas_types instants times self state (w w' : ProcWorld St) state' :
  enforce_quotas instants times self state w = Ret (w', Ok state') ->
  types_from (Envelope.items (envelope state)) (Envelope.items (envelope state')) /\
  (has_event state' = true -> event state' = event state).
Proof.
  assert (types_from (Envelope.items (envelope state)) (Envelope.items (envelope state))) as Hid
    by (intros it Hit; by exists it).
  unfold enforce_quotas. destruct (rate_limiter self) as [max|]; [|by intros [= _ <-]].
  case_bool_decide; [by intros [= _ <-]|].
  match goal with |- context [EnvelopeLimiter.enforce ?c ?l ?e ?s] => pose proof (enforce_types c l e s) as Ht;
    destruct (EnvelopeLimiter.enforce c l e s) as [[s' env] r] end.
  simpl in Ht. destruct (ls_panicked s'); [done|]. destruct r as [[enf limits]|]; [|done].
  intros [= _ <-]. destruct (ls_remove_event s'); by split.
Qed.

(** A step that changes neither the envelope's items nor, unless it says so, more. *)
Definition same_items (f : ProcessEnvelopeState -> proc St ProcessEnvelopeState) : Prop :=
  forall state w w' state', f state w = Ret (w', Ok state') ->
    Envelope.items (envelope state') = Envelope.items (envelope state).

Lemma finalize_same_items self : same_items (finalize_event self).
Proof.
  intros state w w' state'. unfold finalize_event. destruct (Annotated.value (event state)).
  - destruct (Config.processing_enabled (config self)); intros (w1 & ev & _ & [= _ <-])%bind_ok; done.
  - destruct (Config.processing_enabled (config self)); [done|by intros [= _ <-]].
Qed.

Lemma sample_same_items self : same_items (sample_event self).
Proof.
  intros state w w' state'. unfold sample_event. destruct (Annotated.value (event state)); [|by intros [= _ <-]].
  destruct (should_keep_event _ _ _ _); by intros [= _ <-].
Qed.

Lemma store_same_items self : same_items (store_process_event self).
Proof. intros state w w' state'. unfold store_process_event. by intros (w1 & ev & _ & [= _ <-])%bind_ok. Qed.

Lemma extract_metrics_same_items self : same_items (extract_metrics self).
Proof.
  intros state w w' state'. unfold extract_metrics. destruct (negb _); [by intros [= _ <-]|].
  destruct (Annotated.value (event state)); by intros [= _ <-].
Qed.

Lemma filter_same_items self : same_items (filter_event self).
Proof.
  intros state w w' state'. unfold filter_event. destruct (Annotated.value (event state)); [|done].
  by intros (w1 & r & _ & (w2 & u & _ & [= _ <-])%bind_ok)%bind_ok.
Qed.

Definition keeps_event_free (s s' : ProcessEnvelopeState) : Prop :=
  event_free (Envelope.items (envelope s)) -> event_free (Envelope.items (envelope s')).

Lemma if_processing_inv (P : ProcessEnvelopeState -> ProcessEnvelopeState -> Prop) self f state (w w' : ProcWorld St) state' :
  (forall s, P s s) ->
  (forall state w w' state', f state w = Ret (w', Ok state') -> P state state') ->
  if_processing self f state w = Ret (w', Ok state') -> P state state'.
Proof.
  intros Hr Hf. unfold if_processing. destruct (Config.processing_enabled (config self)); [apply Hf|].
  by intros [= _ <-].
Qed.

Lemma unreal_event_free self state (w w' : ProcWorld St) state' :
  (s ← process_unreal self state; mret (create_placeholders self s)) w = Ret (w', Ok state') ->
  event_free (Envelope.items (envelope state)) -> event_free (Envelope.items (envelope state')).
Proof.
  intros (w1 & s & (w2 & [ev env] & [-> Hu]%map_err_ok & [= _ <-])%bind_ok & [= _ <-])%bind_ok Hfree.
  apply process_unreal_adds_reports in Hu as (_ & reports & Hi & Hr & _).
  assert (event_free (Envelope.items env)) as Henv.
  { unfold event_free. rewrite Hi. apply Forall_app. split; [exact Hfree|].
    eapply Forall_impl; [exact Hr|]. intros it Hty. unfold is_event_item. by rewrite Hty. }
  unfold create_placeholders. simpl. destruct (Envelope.get_item_by env _); [exact Henv|].
  by destruct (Envelope.get_item_by env _).
Qed.

Lemma event_items_free self state (w w' : ProcWorld St) state' :
  process_event_items self state w = Ret (w', Ok state') -> event_free (Envelope.items (envelope state')).
Proof.
  unfold process_event_items. intros (w1 & s1 & _ & H1')%bind_ok.
  apply bind_ok in H1' as (w2 & s2 & Hext & H2').
  apply bind_ok in H2' as (w3 & s3 & Hun & H3').
  apply bind_ok in H3' as (w4 & s4 & Hfin%finalize_same_items & H4').
  apply bind_ok in H4' as (w5 & s5 & Hsam%sample_same_items & H5').
  assert (Envelope.items (envelope state') = Envelope.items (envelope s5)) as ->.
  { revert H5'. apply (if_processing_inv (fun s s' => Envelope.items (envelope s') = Envelope.items (envelope s)));
      [done|]. intros st0 v v' st0' (v1 & t1 & Hst%store_same_items & Hrest)%bind_ok.
    apply bind_ok in Hrest as (v2 & t2 & Hem%extract_metrics_same_items & Hfi%filter_same_items). congruence. }
  rewrite Hsam, Hfin.
  eapply (if_processing_inv keeps_event_free) in Hun; [apply Hun|by intros s Hs|exact (unreal_event_free self)].
  apply extract_event_no_duplicates in Hext as [Hdup _]. eapply Forall_impl; [exact Hdup|].
  intros it Hit. unfold is_duplicate in Hit. unfold is_event_item, event_types.
  by destruct (Item.ty (Item.headers it)).
Qed.

Lemma creates_event_free state : creates_event state = false -> event_free (Envelope.items (envelope state)).
Proof.
  unfold creates_event, event_free. intros Hc. apply Forall_forall. intros it Hit.
  assert (Item.creates_event it = false) as Hn.
  { apply not_true_iff_false. intros Ht. rewrite <- not_true_iff_false in Hc. apply Hc, existsb_exists.
    exists it. by rewrite <- list_elem_of_In. }
  unfold Item.creates_event in Hn. unfold is_event_item, event_types. by destruct (Item.ty (Item.headers it)).
Qed.

Lemma update_first_count p f items :
  (forall it, Item.ty (Item.headers (f it)) = Item.ty (Item.headers it)) ->
  List.length (List.filter is_event_item (update_first p f items)) = List.length (List.filter is_event_item items).
Proof.
  intros Hf. induction items as [|it items IH]; simpl; [done|]. destruct (p it); simpl.
  - assert (is_event_item (f it) = is_event_item it) as -> by (unfold is_event_item; by rewrite Hf).
    by destruct (is_event_item it).
  - destruct (is_event_item it); simpl; by rewrite IH.
Qed.

Lemma scrub_minidump_type cfg it : Item.ty (Item.headers (scrub_minidump_item cfg it)) = Item.ty (Item.headers it).
Proof. unfold scrub_minidump_item. by destruct (scrub_minidump _ _ _) as [payload []]. Qed.

Lemma scrub_attachments_count self state :
  List.length (List.filter is_event_item (Envelope.items (envelope (scrub_attachments self state)))) =
  List.length (List.filter is_event_item (Envelope.items (envelope state))).
Proof.
  unfold scrub_attachments. destruct (pii_config (project_state state)) as [cfg|]; [|done]. simpl.
  apply update_first_count. apply scrub_minidump_type.
Qed.

(** C20: Whatever an envelope contains, what leaves the processor holds at most one
    event, transaction or security report.  If there is one, it is the item that
    the processor wrote itself. *)
Theorem single_event_item instants times self env project_state start_time (w w' : ProcWorld St) resp env' :
  process instants times self env project_state start_time w = Ret (w', Ok resp) ->
  resp_envelope resp = Some env' ->
  (List.length (List.filter is_event_item (Envelope.items env')) <= 1)%nat.
Proof.
  unfold process. destruct (prepare_state _ env project_state) as [state|]; [|done]. unfold process_state.
  intros (w1 & s1 & _ & H1')%bind_ok.
  apply bind_ok in H1' as (w2 & s2 & Hev & H2').
  apply bind_ok in H2' as (w3 & s3 & Hq & H3').
  apply bind_ok in H3' as (w4 & s4 & Hser & [= _ <-]).
  assert (event_free (Envelope.items (envelope s2))) as Hfree.
  { destruct (creates_event (process_user_reports self s1)) eqn:Hc; [by eapply event_items_free|].
    injection Hev as _ <-. by apply creates_event_free. }
  assert (event_free (Envelope.items (envelope s3))) as Hfree3.
  { eapply (if_processing_inv keeps_event_free) in Hq; [by apply Hq|by intros s Hs|].
    intros st v v' st' [Ht _]%quotas_types Hst. by eapply event_free_from. }
  unfold response_from. simpl. destruct (Envelope.is_empty _); [done|]. intros [= <-].
  rewrite scrub_attachments_count.
  destruct (has_event s3); [|injection Hser as _ <-; by rewrite (filter_none_nil _ _ Hfree3); simpl; lia].
  apply bind_ok in Hser as (w5 & s5 & Hscrub & Hser).
  assert (envelope s5 = envelope s3) as Henv.
  { unfold scrub_event in Hscrub. by apply bind_ok in Hscrub as (? & ? & _ & (? & ? & _ & [= _ <-])%bind_ok). }
  unfold serialize_event in Hser. apply bind_ok in Hser as (w6 & data & _ & [= _ <-]). simpl.
  rewrite Henv, List.filter_app, (filter_none_nil _ _ Hfree3). simpl. destruct (is_event_item _); simpl; lia.
Qed.

(** ** Departures from the comments *)

(** A session that lies in the future is kept as long as it is not further away
    than the limit for the past: the limit [max_secs_in_future] is only used in
    the log message. *)
Theorem future_limit_ignored cfg drift received ahead ms payload s :
  SessionUpdate.parse payload = Ok s -> ClockDriftProcessor.is_drifted drift = false ->
  SessionUpdate.sequence s <> u64_max ->
  SessionUpdate.started s = received + ahead -> SessionUpdate.timestamp s = received + ahead ->
  0 <= ahead <= max_age cfg ->
  validate_release (SessionAttributes.release (SessionUpdate.attributes s)) = true ->
  SessionAttributes.environment (SessionUpdate.attributes s) = None ->
  SessionAttributes.ip_address (SessionUpdate.attributes s) = None ->
  process_session cfg false drift received None ms payload = Ret (ms, None, true).
Proof.
  intros Hp Hd Hseq Hst Hts Ha Hr He Hip. unfold process_session. rewrite Hp, bool_decide_false by done.
  rewrite process_session_same by done. simpl.
  rewrite (bool_decide_false (SessionUpdate.timestamp s < _)) by lia.
  rewrite Hst, Hts, !bool_decide_false by lia. simpl. rewrite Hr, He. simpl. rewrite Hip. by rewrite Hd.
Qed.

(** The comment on event items says that their type is retained; it is reset.  A
    security report that another Relay forwarded thus loses its type and would be
    written back as an item of type event. *)
Theorem security_item_type_lost self items rates (w w' : ProcWorld St) event len rates' it :
  event_item items = None -> security_item items = Some it ->
  choose_event self items rates w = Ret (w', Ok (event, len, rates')) ->
  forall e, Annotated.value event = Some e ->
    Annotated.value (event_ty e) = None /\
    ItemType.from_event_type (default EventType.Default (Annotated.value (event_ty e))) = ItemType.Event.
Proof.
  intros He Hs. unfold choose_event. rewrite He, Hs. destruct (Item.take_sample_rates it) as [r it'].
  intros (w1 & [ev n] & [-> Hj]%map_err_ok & [= _ <- <- <-])%bind_ok e Hv.
  unfold event_from_json_payload in Hj. destruct (event_from_json (Item.payload it')) as [[[e0|] m]|]; [| |done];
    injection Hj as <- <-; simpl in Hv; [|done]. injection Hv as <-. done.
Qed.

End Extraction.

(** ** Concrete instances *)

Definition unsupported {A} : result JsonError A := Err (MkJsonError "unsupported").

(** A pipeline that knows one event and one breadcrumb document and scrubs nothing. *)
Definition sample_process_env : ProcessEnv := {|
  event_from_json s := if bool_decide (s = "{}") then Ok (Annotated.new empty_event) else unsupported;
  event_to_json _ := Ok "{}";
  event_from_msgpack _ := unsupported;
  event_from_value _ := None;
  next_breadcrumb s :=
    match s with
    | String _ rest => Ok (Annotated.new (Breadcrumb.MkBreadcrumb (Annotated.new 0) Annotated.empty Annotated.empty Annotated.empty
        Annotated.empty Annotated.empty Annotated.empty ∅), rest)
    | _ => unsupported
    end;
  sample_rates_from_value _ := None;
  validate_release r := negb (bool_decide (r = ""));
  validate_environment _ := true;
  PiiConfig := unit;
  pii_config _ := None;
  datascrubbing_config _ := None;
  pii_process_value _ e := Ok e;
  scrub_minidump _ _ s := (s, true);
  scrub_attachment _ _ s := s;
  to_rfc3339 _ := "";
  uuid_to_string _ := "";
  fnv_hash _ := 0;
|}.

Definition identity_processors : StoreProcessors := {|
  legacy_process e m := Ok (e, m);
  schema_process e m := Ok (e, m);
  normalize_process _ e m := Ok (e, m);
  remove_other_process e m := Ok (e, m);
  emit_errors_process e m := Ok (e, m);
  trimming_process e m := Ok (e, m);
  original_event _ := None;
|}.

Definition plain_session : SessionUpdate :=
  SessionUpdate.MkSessionUpdate 2 None 1 false (1581084960 * nanos_per_sec) (1581084960 * nanos_per_sec) None
    SessionStatus.Ok 0 (SessionAttributes.MkSessionAttributes "1.0" None None None).

(** Reads two sessions and writes none. *)
Definition two_sessions : SerdeJson SessionUpdate := {|
  from_slice s := if bool_decide (s = "{sid}") then Ok sample_session
                  else if bool_decide (s = "{}") then Ok plain_session else unsupported;
  to_json_string _ := unsupported;
|}.
#[global] Instance two_sessions_laws : @SessionJsonLaws two_sessions.
Proof. by split. Qed.
Definition no_reports : SerdeJson UserReport := {| from_slice _ := unsupported; to_json_string _ := unsupported |}.

Definition sample_world : ProcWorld memory_store := MkProcWorld None 0 [].
Definition sample_processor : EnvelopeProcessor.EnvelopeProcessor := EnvelopeProcessor.new Projects.sample_config.
Definition item_with (ty : ItemType) (payload : string) : Item :=
  Item.set_payload (Item.new ty) ContentType.Json payload.
Definition envelope_with (items : list Item) : Envelope := Envelope.MkEnvelope (sample_headers sample_dsn) items.
Definition state_with (items : list Item) : ProcessEnvelopeState :=
  ProcessEnvelopeState.MkState (envelope_with items) Annotated.empty Metrics.default_ None RateLimits.new []
    Projects.sample_state 42 (1581084960 * nanos_per_sec).

Definition sample_process (items : list Item) :=
  @EnvelopeProcessor.process exact_env half_env sample_request_env sample_process_env example_native_env identity_processors sample_reports
    two_sessions no_reports sample_json memory_store memory_redis (fun _ => 0) (fun _ => 0)
    sample_processor (envelope_with items) Projects.sample_state 0.

Lemma sessions_validated_witness :
  exists s, @SessionUpdate.parse two_sessions (Item.payload (item_with ItemType.Session "{sid}")) = Ok s /\
    @session_ok sample_process_env Projects.sample_config (1581084960 * nanos_per_sec)
      (@client_addr sample_request_env _ (sample_meta sample_dsn)) s.
Proof.
  destruct (@sessions_validated sample_process_env sample_request_env two_sessions two_sessions_laws memory_store
    sample_processor (state_with [item_with ItemType.Session "{sid}"; item_with ItemType.Session "{"])
    sample_world sample_world (state_with [item_with ItemType.Session "{sid}"])) as (_ & Hs & _);
    [vm_compute; reflexivity|apply Hs; [by constructor|reflexivity]].
Defined.

Lemma extract_event_unique_witness :
  (List.length (List.filter (fun it => EnvelopeProcessor.has_type ItemType.Event it && negb (is_event_attachment it))
     [item_with ItemType.Event "{}"; item_with ItemType.UserReport "{}"]) <= 1)%nat.
Proof.
  eapply (@extract_event_unique sample_process_env sample_reports sample_json memory_store sample_processor
    (state_with [item_with ItemType.Event "{}"; item_with ItemType.UserReport "{}"]) sample_world sample_world);
    [vm_compute; reflexivity|by constructor].
Defined.

Lemma single_event_item_witness :
  exists w resp env', sample_process [item_with ItemType.Event "{}"] sample_world = Ret (w, Ok resp) /\
    EnvelopeProcessor.resp_envelope resp = Some env' /\
    (List.length (List.filter is_event_item (Envelope.items env')) <= 1)%nat.
Proof.
  eexists _, _, _. split; [vm_compute; reflexivity|]. split; [reflexivity|].
  eapply (@single_event_item exact_env half_env sample_request_env sample_process_env example_native_env identity_processors sample_reports
    two_sessions no_reports sample_json memory_store memory_redis (fun _ => 0) (fun _ => 0)
    sample_processor (envelope_with [item_with ItemType.Event "{}"]) Projects.sample_state 0 sample_world);
    [vm_compute; reflexivity|reflexivity].
Defined.

(** A session that starts a day ahead is kept although the limit is a minute. *)
Lemma future_limit_ignored_witness :
  let now := 1581084960 * nanos_per_sec - duration_from_secs 86400 in
  Config.max_secs_in_future Projects.sample_config = 60 /\
  @EnvelopeProcessor.process_session sample_process_env two_sessions Projects.sample_config false
    (ClockDriftProcessor.new None now) now None [] "{}" = Ret ([], None, true).
Proof.
  intros now. split; [reflexivity|].
  apply (@future_limit_ignored sample_process_env two_sessions Projects.sample_config
    (ClockDriftProcessor.new None now) now (duration_from_secs 86400) [] "{}" plain_session);
    try reflexivity; try discriminate. split; discriminate.
Defined.

Lemma security_item_type_lost_witness :
  exists w event len rates,
    @EnvelopeProcessor.choose_event sample_process_env sample_reports sample_json memory_store sample_processor
      (EnvelopeProcessor.MkEventItems None None (Some (item_with ItemType.Security "{}")) None None None None None)
      None sample_world = Ret (w, Ok (event, len, rates)) /\
    forall e, Annotated.value event = Some e -> Annotated.value (event_ty e) = None /\
      ItemType.from_event_type (default EventType.Default (Annotated.value (event_ty e))) = ItemType.Event.
Proof.
  eexists _, _, _, _. split; [vm_compute; reflexivity|].
  apply (@security_item_type_lost sample_process_env sample_reports sample_json memory_store sample_processor
    (EnvelopeProcessor.MkEventItems None None (Some (item_with ItemType.Security "{}")) None None None None None)
    None sample_world sample_world _ 2 None (item_with ItemType.Security "{}")); vm_compute; reflexivity.
Defined.
