(* ===== verification/EnvelopeManager.v ===== *)
(** * relay-server: the envelope manager (actors/envelopes.rs)

    [EnvelopeManager] accepts envelopes, splits them, and drives each part through
    the project cache, trace sampling, the processor of Processing.v and the
    upstream or the store.  A [Task] is the future that handles one envelope: it
    advances with the answers of the other actors and ends with a result, a
    failure or the timeout.  [ProcessMetrics] of the processor is here, too. *)

From Stdlib Require Import Ascii String.
From S2P Require Import Http Upstream Prelude Strings Floats Types Common Protocol Quota RateLimit RedisLimiter Filters Sampling Extractors Envelopes DynamicSampling EnvelopeLimiter Transactions Sessions ClockDrift FormData MetricProtocol MetricsExtraction Aggregation Aggregator Projects Processing.

Open Scope string_scope.
Open Scope Z_scope.
Open Scope list_scope.

(** ** Messages *)

Inductive QueueEnvelopeError := TooManyEnvelopes.

(** [QueueEnvelope] and [HandleEnvelope] have the same fields. *)
Record HandleEnvelope := MkHandleEnvelope {
  he_envelope : Envelope;
  he_project_key : ProjectKey;
  he_sampling_project_key : option ProjectKey;
  he_start_time : Instant;
}.

Record ProcessMetrics := MkProcessMetrics {
  pm_items : list Item;
  pm_project_key : ProjectKey;
  pm_start_time : Instant;
  pm_sent_at : option DateTime;
}.

Record TrackOutcome := MkTrackOutcome {
  to_timestamp : SystemTime;
  to_scoping : Scoping;
  to_outcome : Outcome;
  to_event_id : option EventId;
  to_remote_addr : option IpAddr;
  to_category : DataCategory;
  to_quantity : Z;
}.

(** Messages to other actors; [Store] and [Upstream] are answered. *)
Inductive Effect :=
| Process (m : ProcessMetrics)
| Handle (m : HandleEnvelope)
| InsertMetrics (key : ProjectKey) (metrics : list Metric)
| MergeBuckets (key : ProjectKey) (buckets : list Bucket)
| UpdateRateLimits (key : ProjectKey) (limits : RateLimits)
| Track (outcome : TrackOutcome)
| Store (envelope : Envelope) (start_time : Instant) (scoping : Scoping)
| SendUpstream (envelope : Envelope) (scoping : Scoping).

(** ** Metrics (the handler of [EnvelopeProcessor]) *)

(** [Bucket::parse_all] is serde's. *)
Section ProcessMetrics.
Context (fnv_hash : string -> Z) `{SerdeJson (list Bucket)}.

(** [filter_map] over the parsed lines. *)
Definition corrected_metrics (drift : ClockDriftProcessor.ClockDriftProcessor)
    (results : list (result ParseMetricError Metric)) : list Metric :=
  omap (fun result =>
    metric ← res_ok result;
    Some {| MetricProtocol.name := MetricProtocol.name metric; MetricProtocol.unit_ := MetricProtocol.unit_ metric;
            MetricProtocol.value := MetricProtocol.value metric;
            MetricProtocol.timestamp := ClockDriftProcessor.process_timestamp drift (MetricProtocol.timestamp metric);
            MetricProtocol.tags := MetricProtocol.tags metric |}) results.

Definition corrected_bucket (drift : ClockDriftProcessor.ClockDriftProcessor) (b : Bucket) : Bucket :=
  Bucket.MkBucket (ClockDriftProcessor.process_timestamp drift (Bucket.timestamp b)) (Bucket.name b) (Bucket.unit_ b)
    (Bucket.value b) (Bucket.tags b).

Definition process_metric_item (drift : ClockDriftProcessor.ClockDriftProcessor) (default_timestamp : UnixTimestamp)
    (public_key : ProjectKey) (item : Item) : outcome (list Effect) :=
  let payload := Item.payload item in
  match Item.ty (Item.headers item) with
  | ItemType.Metrics =>
      let timestamp := default default_timestamp (Item.timestamp (Item.headers item)) in
      results ← collect fnv_hash (S (String.length payload)) (parse_all payload timestamp);
      Ret [InsertMetrics public_key (corrected_metrics drift results)]
  | ItemType.MetricBuckets =>
      Ret match from_slice payload with
          | Ok buckets => [MergeBuckets public_key (corrected_bucket drift <$> buckets)]
          | Err _ => []
          end
  | _ => Ret []
  end.

(** [received.timestamp() as u64] wraps around before the epoch. *)
Definition handle_process_metrics (sys_now : SystemTime) (inst_now : Instant) (message : ProcessMetrics) :
    outcome (list Effect) :=
  let received := UnixTimestamp.instant_to_system_time sys_now inst_now (pm_start_time message) in
  let default_timestamp := UnixTimestamp.from_secs (wrap 64 (datetime_timestamp received)) in
  let drift := ClockDriftProcessor.at_least (ClockDriftProcessor.new (pm_sent_at message) received)
                 MINIMUM_CLOCK_DRIFT in
  effects ← mapM (process_metric_item drift default_timestamp (pm_project_key message)) (pm_items message);
  Ret (concat effects).

End ProcessMetrics.

(** ** The actor *)

Inductive SendEnvelopeError :=
| ScheduleFailed
| StoreFailed (message : string)
| SendFailed (e : UpstreamRequestError)
| RateLimited (limits : RateLimits).

Notation CapturedEnvelope := (result string Envelope) (only parsing).

Module EnvelopeManager.

(** [store_forwarder] tells whether the actor was started. *)
Record EnvelopeManager := MkEnvelopeManager {
  config : Config;
  active_envelopes : Z;
  captures : gmap EventId CapturedEnvelope;
  store_forwarder : bool;
}.

Definition create (config : Config) : EnvelopeManager :=
  MkEnvelopeManager config 0 ∅ (Config.processing_enabled config).

Definition set_active (self : EnvelopeManager) (n : Z) : EnvelopeManager :=
  MkEnvelopeManager (config self) n (captures self) (store_forwarder self).
Definition capture (self : EnvelopeManager) (id : EventId) (c : CapturedEnvelope) : EnvelopeManager :=
  MkEnvelopeManager (config self) (active_envelopes self) (<[id := c]> (captures self)) (store_forwarder self).

Definition is_capture (self : EnvelopeManager) : bool :=
  match Config.relay_mode (config self) with RelayMode.Capture => true | _ => false end.

(** *** Queueing *)

Definition is_metric (i : Item) : bool :=
  match Item.ty (Item.headers i) with ItemType.Metrics | ItemType.MetricBuckets => true | _ => false end.

(** Every round takes an item out of the envelope. *)
Fixpoint take_metrics (fuel : nat) (metric_items : list Item) (envelope : Envelope) : outcome (list Item * Envelope) :=
  match fuel with
  | O => Panic
  | S fuel =>
      '(item, envelope) ← Envelope.take_item_by envelope is_metric;
      match item with
      | Some item => take_metrics fuel (metric_items ++ [item]) envelope
      | None => Ret (metric_items, envelope)
      end
  end.

Definition queue_envelope (self : EnvelopeManager) (message : HandleEnvelope) :
    outcome (EnvelopeManager * list Effect * result QueueEnvelopeError (option EventId)) :=
  if bool_decide (Config.envelope_buffer_size (config self) <= active_envelopes self)
  then Ret (self, [], Err TooManyEnvelopes)
  else
    let event_id := Envelope.event_id (he_envelope message) in
    '(metric_items, envelope) ←
       take_metrics (S (List.length (Envelope.items (he_envelope message)))) [] (he_envelope message);
    let metrics :=
      match metric_items with
      | [] => []
      | _ => [Process (MkProcessMetrics metric_items (he_project_key message) (he_start_time message)
                         (Envelope.sent_at envelope))]
      end in
    let handle (envelope : Envelope) :=
      Handle (MkHandleEnvelope envelope (he_project_key message) (he_sampling_project_key message)
                (he_start_time message)) in
    let '(event_envelope, envelope) := Envelope.split_by envelope Item.requires_event in
    let '(self, split) :=
      match event_envelope with
      | Some event_envelope => (set_active self (u32_add (active_envelopes self) 1), [handle event_envelope])
      | None => (self, [])
      end in
    let '(self, rest) :=
      if Envelope.is_empty envelope then (self, [])
      else (set_active self (u32_add (active_envelopes self) 1), [handle envelope]) in
    Ret (self, metrics ++ split ++ rest, Ok event_id).

(** *** Sending *)

(** The request that [send_envelope] builds; it is built again for every retry. *)
Definition build_envelope_request `{HttpClient, JsonCodec ItemHeaders, JsonCodec (EnvelopeHeaders RequestMeta)}
    (http_encoding : HttpEncoding) (utc_now : DateTime) (envelope : Envelope) (builder : RequestBuilder Url) :
    result UpstreamRequestError Http.Request :=
  let envelope := Envelope.set_sent_at envelope utc_now in
  let meta := Envelope.meta envelope in
  let builder := match RequestMeta.origin meta with
                 | Some origin => RequestBuilder.header builder "Origin" origin
                 | None => builder
                 end in
  let builder := match RequestMeta.user_agent meta with
                 | Some user_agent => RequestBuilder.header builder "User-Agent" user_agent
                 | None => builder
                 end in
  let builder := RequestBuilder.content_encoding builder http_encoding in
  let builder := RequestBuilder.header builder "X-Sentry-Auth" (auth_header meta) in
  let builder := RequestBuilder.header builder "X-Forwarded-For" (RequestMeta.forwarded_for meta) in
  let builder := RequestBuilder.header builder "Content-Type" "application/x-sentry-envelope" in
  match Envelope.to_vec envelope with
  | Ok data => UpstreamRelay.map_http (body builder data)
  | Err _ => Err (UpstreamRequestError.Http (HttpError.Custom "failed to serialize envelope"))
  end.

Definition envelope_path (scoping : Scoping) : string :=
  "/api/" +:+ u64_to_string (project_id scoping) +:+ "/envelope/".

(** Captures the envelope, or hands it to the store or the upstream.  In the
    first case the future is resolved already. *)
Definition send_envelope (self : EnvelopeManager) (envelope : Envelope) (scoping : Scoping) (start_time : Instant) :
    EnvelopeManager * list Effect * option (result SendEnvelopeError ()) :=
  if store_forwarder self then (self, [Store envelope start_time scoping], None)
  else if is_capture self then
    (match Envelope.event_id envelope with Some id => capture self id (Ok envelope) | None => self end, [], Some (Ok ()))
  else (self, [SendUpstream envelope scoping], None).

(** The answers of the store and of the upstream; [None] is a mailbox error. *)
Inductive SendAnswer :=
| Stored (r : option (result string ()))
| Sent (r : option (result UpstreamRequestError ())).

Definition on_send_answer (now : Instant) (project_key : ProjectKey) (scoping : Scoping) (answer : SendAnswer) :
    list Effect * result SendEnvelopeError () :=
  match answer with
  | Stored None | Sent None => ([], Err ScheduleFailed)
  | Stored (Some (Err e)) => ([], Err (StoreFailed e))
  | Sent (Some (Err (UpstreamRequestError.RateLimited upstream_limits))) =>
      let limits := UpstreamRateLimits.scope now upstream_limits scoping in
      ([UpdateRateLimits project_key limits], Err (RateLimited limits))
  | Sent (Some (Err e)) => ([], Err (SendFailed e))
  | Stored (Some (Ok _)) | Sent (Some (Ok _)) => ([], Ok ())
  end.

End EnvelopeManager.
Notation EnvelopeManager := EnvelopeManager.EnvelopeManager.

(** ** Handling one envelope *)

Module Task.

(** What the future waits for, with the envelope in its current form. *)
Inductive Stage :=
| Checking
| SamplingTrace (envelope : Envelope)
| FetchingState (envelope : Envelope)
| Processing (envelope : Envelope) (state : ProjectState)
| Sending.

(** The message and the cells that the closures share. *)
Record Task := MkTask {
  project_key : ProjectKey;
  sampling_project_key : option ProjectKey;
  start_time : Instant;
  event_id : option EventId;
  remote_addr : option IpAddr;
  scoping : Scoping;
  envelope_summary : EnvelopeSummary;
  is_received : bool;
  stage : Stage;
}.

Definition set_stage (t : Task) (stage : Stage) : Task :=
  MkTask (project_key t) (sampling_project_key t) (start_time t) (event_id t) (remote_addr t) (scoping t)
    (envelope_summary t) (is_received t) stage.
Definition set_scoping (t : Task) (s : Scoping) : Task :=
  MkTask (project_key t) (sampling_project_key t) (start_time t) (event_id t) (remote_addr t) s (envelope_summary t)
    (is_received t) (stage t).
Definition set_summary (t : Task) (s : EnvelopeSummary) : Task :=
  MkTask (project_key t) (sampling_project_key t) (start_time t) (event_id t) (remote_addr t) (scoping t) s
    (is_received t) (stage t).
Definition set_received (t : Task) (r : bool) : Task :=
  MkTask (project_key t) (sampling_project_key t) (start_time t) (event_id t) (remote_addr t) (scoping t)
    (envelope_summary t) r (stage t).

(** The first part of the handler of [HandleEnvelope]. *)
Definition handle_envelope `{RequestEnv} (message : HandleEnvelope) : Task :=
  let envelope := he_envelope message in
  MkTask (he_project_key message) (he_sampling_project_key message) (he_start_time message)
    (Envelope.event_id envelope) (client_addr (Envelope.meta envelope)) (get_partial_scoping (Envelope.meta envelope))
    (EnvelopeSummary.compute envelope) false Checking.

(** The answers of the other actors; [None] is a mailbox error. *)
Inductive Answer :=
| Checked (r : option (result ProjectError CheckEnvelopeResponse))
| Sampled (r : result RuleId Envelope)
| Fetched (r : option (result ProjectError ProjectState))
| Processed (r : option (result ProcessingError EnvelopeProcessor.ProcessEnvelopeResponse))
| SendAnswered (a : EnvelopeManager.SendAnswer).

(** [map_err(ScheduleFailed).and_then(map_err(ProjectFailed))]. *)
Definition project_answer {A} (r : option (result ProjectError A)) : result ProcessingError A :=
  match r with
  | None => Err ProcessingError.ScheduleFailed
  | Some (Err e) => Err (ProcessingError.ProjectFailed e)
  | Some (Ok a) => Ok a
  end.

Definition on_checked (t : Task) (r : option (result ProjectError CheckEnvelopeResponse)) :
    Task * result ProcessingError Envelope :=
  match project_answer r with
  | Err e => (t, Err e)
  | Ok response =>
      let t := set_scoping t (cer_scoping response) in
      match cer_result response with
      | Err reason => (t, Err (ProcessingError.Rejected reason))
      | Ok checked =>
          match Projects.envelope checked with
          | Some envelope => (set_summary t (EnvelopeSummary.compute envelope), Ok envelope)
          | None => (t, Err (ProcessingError.RateLimited (ce_rate_limits checked)))
          end
      end
  end.

Definition on_processed (now : Instant) (t : Task)
    (r : option (result ProcessingError EnvelopeProcessor.ProcessEnvelopeResponse)) :
    Task * list Effect * result ProcessingError Envelope :=
  match r with
  | None => (t, [], Err ProcessingError.ScheduleFailed)
  | Some (Err e) => (t, [], Err e)
  | Some (Ok processed) =>
      let rate_limits := EnvelopeProcessor.resp_rate_limits processed in
      let limits := if RateLimits.is_limited now rate_limits
                    then [UpdateRateLimits (project_key t) rate_limits] else [] in
      let metrics := match EnvelopeProcessor.resp_metrics processed with
                     | [] => []
                     | metrics => [InsertMetrics (project_key t) metrics]
                     end in
      match EnvelopeProcessor.resp_envelope processed with
      | Some envelope => (set_summary t (EnvelopeSummary.compute envelope), limits ++ metrics, Ok envelope)
      | None => (t, limits ++ metrics, Err (ProcessingError.RateLimited rate_limits))
      end
  end.

Definition processing_error (e : SendEnvelopeError) : ProcessingError :=
  match e with
  | ScheduleFailed => ProcessingError.ScheduleFailed
  | StoreFailed e => ProcessingError.StoreFailed e
  | SendFailed e => ProcessingError.SendFailed e
  | RateLimited limits => ProcessingError.RateLimited limits
  end.

(** The closure on the result of [send_envelope]. *)
Definition on_sent (t : Task) (result : result SendEnvelopeError ()) : Task * Prelude.result ProcessingError () :=
  let received := match result with
                  | Ok _ => true
                  | Err (RateLimited _) => true
                  | Err (SendFailed e) => UpstreamRequestError.is_received e
                  | Err _ => false
                  end in
  (set_received t received, match result with Ok _ => Ok () | Err e => Err (processing_error e) end).

(** One step of the future: the new state of the manager, the messages sent, the
    task, and the result if it is done.  [None]: not an answer it waits for. *)
Definition advance (now : Instant) (self : EnvelopeManager) (t : Task) (answer : Answer) :
    option (EnvelopeManager * list Effect * Task * option (result ProcessingError ())) :=
  match stage t, answer with
  | Checking, Checked r =>
      Some (match on_checked t r with
            | (t, Ok envelope) => (self, [], set_stage t (SamplingTrace envelope), None)
            | (t, Err e) => (self, [], t, Some (Err e))
            end)
  | SamplingTrace _, Sampled r =>
      Some (match r with
            | Ok envelope => (self, [], set_stage t (FetchingState envelope), None)
            | Err rule_id => (self, [], t, Some (Err (ProcessingError.TraceSampled rule_id)))
            end)
  | FetchingState envelope, Fetched r =>
      Some (match project_answer r with
            | Ok state => (self, [], set_stage t (Processing envelope state), None)
            | Err e => (self, [], t, Some (Err e))
            end)
  | Processing _ _, Processed r =>
      Some (match on_processed now t r with
            | (t, effects, Err e) => (self, effects, t, Some (Err e))
            | (t, effects, Ok envelope) =>
                match EnvelopeManager.send_envelope self envelope (scoping t) (start_time t) with
                | (self, more, Some result) =>
                    let '(t, r) := on_sent t result in (self, effects ++ more, t, Some r)
                | (self, more, None) => (self, effects ++ more, set_stage t Sending, None)
                end
            end)
  | Sending, SendAnswered a =>
      let '(effects, result) := EnvelopeManager.on_send_answer now (project_key t) (scoping t) a in
      let '(t, r) := on_sent t result in Some (self, effects, t, Some r)
  | _, _ => None
  end.

(** The outcomes of an envelope that was dropped. *)
Definition outcomes (timestamp : SystemTime) (t : Task) (outcome : Outcome) : list TrackOutcome :=
  match EnvelopeSummary.event_category (envelope_summary t) with
  | Some category => [MkTrackOutcome timestamp (scoping t) outcome (event_id t) (remote_addr t) category 1]
  | None => []
  end
  ++ if bool_decide (0 < EnvelopeSummary.attachment_quantity (envelope_summary t))
     then [MkTrackOutcome timestamp (scoping t) outcome (event_id t) (remote_addr t) DataCategory.Attachment
             (EnvelopeSummary.attachment_quantity (envelope_summary t))]
     else [].

(** [map_err] and the final [then]; [message] is the text of the error. *)
Definition finish (message : ProcessingError -> string) (sys_now : SystemTime) (inst_now : Instant)
    (self : EnvelopeManager) (t : Task) (r : result ProcessingError ()) : EnvelopeManager * list TrackOutcome :=
  let '(self, sent) :=
    match r with
    | Ok _ => (self, [])
    | Err error =>
        let self := match event_id t with
                    | Some id => if EnvelopeManager.is_capture self
                                 then EnvelopeManager.capture self id (Err (message error)) else self
                    | None => self
                    end in
        (self, if is_received t then []
               else match ProcessingError.to_outcome error with
                    | Some outcome =>
                        outcomes (UnixTimestamp.instant_to_system_time sys_now inst_now (start_time t)) t outcome
                    | None => []
                    end)
    end in
  (EnvelopeManager.set_active self (u32_sub (EnvelopeManager.active_envelopes self) 1), sent).

End Task.
Notation Task := Task.Task.

(** ** Metrics of the aggregators *)

(** [SendMetrics]: the buckets in an envelope of their own.  The caller gets the
    buckets back if sending fails. *)
Definition send_metrics `{RequestEnv, BuildConstants, SerdeJson (list Bucket)} (now : Instant) (self : EnvelopeManager)
    (upstream : UpstreamDescriptor) (buckets : list Bucket) (scoping : Scoping) :
    outcome (EnvelopeManager * list Effect * option (result SendEnvelopeError ())) :=
  let dsn := PartialDsn.MkPartialDsn (up_scheme upstream) (Quota.project_key scoping) (up_host upstream) (up_port upstream) ""
               (Some (project_id scoping)) in
  payload ← unwrap (res_ok (to_json_string buckets));
  let item := Item.set_payload (Item.new ItemType.MetricBuckets) ContentType.Json payload in
  let envelope := Envelope.add_item (Envelope.from_request None (outbound now dsn)) item in
  Ret (EnvelopeManager.send_envelope self envelope scoping now).

(** [map_err(|_| buckets)]. *)
Definition on_metrics_sent (buckets : list Bucket) (r : result SendEnvelopeError ()) : result (list Bucket) () :=
  match r with Ok _ => Ok () | Err _ => Err buckets end.

Definition get_captured_envelope (self : EnvelopeManager) (id : EventId) : option CapturedEnvelope :=
  EnvelopeManager.captures self !! id.

(** ** Queueing keeps every item *)

Definition handles (es : list Effect) : list HandleEnvelope :=
  omap (fun e => match e with Handle m => Some m | _ => None end) es.
Definition metric_items (es : list Effect) : list Item :=
  es ≫= fun e => match e with Process m => pm_items m | _ => [] end.

Lemma handles_app es es' : handles (es ++ es') = handles es ++ handles es'.
Proof. apply omap_app. Qed.
Lemma metric_items_app es es' : metric_items (es ++ es') = metric_items es ++ metric_items es'.
Proof. apply bind_app. Qed.

Lemma take_metrics_spec fuel : forall taken env,
  (List.length (Envelope.items env) < fuel)%nat ->
  exists items env', EnvelopeManager.take_metrics fuel taken env = Ret (taken ++ items, env') /\
    Envelope.headers env' = Envelope.headers env /\ Envelope.items env ≡ₚ items ++ Envelope.items env' /\
    Forall (fun it => EnvelopeManager.is_metric it = true) items /\
    Forall (fun it => EnvelopeManager.is_metric it = false) (Envelope.items env').
Proof.
  induction fuel as [|fuel IH]; intros taken env Hf; [lia|]. cbn [EnvelopeManager.take_metrics].
  destruct (take_item_by_spec env EnvelopeManager.is_metric) as (r & env1 & Ht & Hh & _ & Hr). rewrite Ht. cbn [mbind outcome_bind].
  destruct r as [it|].
  - destruct Hr as [Hit Hp]. destruct (IH (taken ++ [it]) env1) as (items & env' & -> & Hh' & Hp' & Hm & Hn).
    { apply Permutation_length in Hp. simpl in Hp. lia. }
    exists (it :: items), env'. rewrite <- app_assoc. split; [done|]. split; [congruence|].
    split; [by rewrite Hp, Hp'|]. split; [by constructor|done].
  - destruct Hr as [-> Hn]. exists [], env. rewrite app_nil_r. done.
Qed.

(** What is queued together: envelopes of one kind, without metrics. *)
Definition well_queued (m : HandleEnvelope) : Prop :=
  Envelope.items (he_envelope m) <> [] /\
  Forall (fun it => EnvelopeManager.is_metric it = false) (Envelope.items (he_envelope m)) /\
  (Forall (fun it => Item.requires_event it = true) (Envelope.items (he_envelope m)) \/
   Forall (fun it => Item.requires_event it = false) (Envelope.items (he_envelope m))).

Definition like (m h : HandleEnvelope) : Prop :=
  Envelope.headers (he_envelope h) = Envelope.headers (he_envelope m) /\ he_project_key h = he_project_key m /\
  he_sampling_project_key h = he_sampling_project_key m /\ he_start_time h = he_start_time m.

Lemma Forall_list_filter {A} (P : A -> Prop) (f : A -> bool) l : Forall P l -> Forall P (List.filter f l).
Proof. induction 1; simpl; [done|]. destruct (f x); auto. Qed.

Lemma filter_true_Forall {A} (f : A -> bool) l : Forall (fun x => f x = true) (List.filter f l).
Proof. apply Forall_forall. intros x Hx%list_elem_of_In%filter_In. tauto. Qed.

Lemma queued_part m e :
  Envelope.headers e = Envelope.headers (he_envelope m) -> Envelope.items e <> [] ->
  Forall (fun it => EnvelopeManager.is_metric it = false) (Envelope.items e) ->
  Forall (fun it => Item.requires_event it = true) (Envelope.items e) \/
    Forall (fun it => Item.requires_event it = false) (Envelope.items e) ->
  let h := MkHandleEnvelope e (he_project_key m) (he_sampling_project_key m) (he_start_time m) in
  well_queued h /\ like m h.
Proof. by intros. Qed.

Lemma queue_envelope_spec self m :
  exists self' es r, EnvelopeManager.queue_envelope self m = Ret (self', es, r) /\
    if bool_decide (Config.envelope_buffer_size (EnvelopeManager.config self) <= EnvelopeManager.active_envelopes self)
    then self' = self /\ es = [] /\ r = Err TooManyEnvelopes
    else r = Ok (Envelope.event_id (he_envelope m)) /\
      Envelope.items (he_envelope m)
        ≡ₚ metric_items es ++ (handles es ≫= fun h => Envelope.items (he_envelope h)) /\
      Forall (fun it => EnvelopeManager.is_metric it = true) (metric_items es) /\
      Forall (fun h => well_queued h /\ like m h) (handles es) /\ (List.length (handles es) <= 2)%nat /\
      exists n, self' = EnvelopeManager.set_active self n /\
        n = Nat.iter (List.length (handles es)) (fun n => u32_add n 1) (EnvelopeManager.active_envelopes self).
Proof.
  unfold EnvelopeManager.queue_envelope.
  bcase (Config.envelope_buffer_size (EnvelopeManager.config self) <= EnvelopeManager.active_envelopes self) as Hb;
    [by eexists _, _, _|].
  destruct (take_metrics_spec (S (List.length (Envelope.items (he_envelope m)))) [] (he_envelope m))
    as (items & env & Ht & Hh & Hp & Hm & Hn); [lia|]. rewrite Ht. cbn [mbind outcome_bind app].
  set (metrics := match items with [] => [] | _ => _ end).
  assert (handles metrics = [] /\ metric_items metrics = items) as [Hm1 Hm2].
  { subst metrics. destruct items; [done|]. unfold metric_items. simpl. by rewrite app_nil_r. }
  pose proof (split_by_spec env Item.requires_event) as Hs.
  destruct (Envelope.split_by env Item.requires_event) as [[ev|] own].
  - destruct Hs as (He & Ho & Hpo & Hne & Hno & Hhe & Hho).
    assert (Envelope.is_empty own = false) as -> by (unfold Envelope.is_empty; by destruct (Envelope.items own)).
    eexists _, _, _. split; [reflexivity|]. rewrite !handles_app, !metric_items_app, Hm1, Hm2. cbn -[u32_add].
    unfold metric_items. simpl. rewrite !app_nil_r. split; [done|]. split; [by rewrite Hp, Hpo|]. split; [done|].
    split; [|split; [lia|by eexists]].
    apply Forall_cons. split; [|apply Forall_singleton]; (apply queued_part; [congruence|done|..]); rewrite ?He, ?Ho.
    + by apply Forall_list_filter.
    + left. apply filter_true_Forall.
    + by apply Forall_list_filter.
    + right. eapply Forall_impl; [apply filter_true_Forall|]. intros it. apply negb_true_iff.
  - destruct Hs as [-> Hkind]. destruct (Envelope.is_empty env) eqn:Hemp.
    + eexists _, _, _. split; [reflexivity|]. rewrite !app_nil_r, Hm1, Hm2. simpl.
      assert (Envelope.items env = []) as Hnil by (unfold Envelope.is_empty in Hemp; by destruct (Envelope.items env)).
      rewrite Hnil in Hp. split_and!; try done; [lia|]. eexists. split; [|reflexivity]. by destruct self.
    + eexists _, _, _. split; [reflexivity|]. rewrite !handles_app, !metric_items_app, Hm1, Hm2. cbn -[u32_add].
      unfold metric_items. simpl. rewrite !app_nil_r. split; [done|]. split; [done|]. split; [done|].
      split; [|split; [lia|by eexists]]. apply Forall_singleton, queued_part; try done.
      intros Hnil. unfold Envelope.is_empty in Hemp. by rewrite Hnil in Hemp.
Qed.

(** Queueing always returns.  A full buffer refuses the envelope and changes
    nothing.  Otherwise every item goes exactly one way: metrics to the processor,
    and the rest into at most two envelopes with the headers of the original, one
    with the items that require an event and one with the others. *)
Theorem queue_conserves_items self m :
  exists self' es r, EnvelopeManager.queue_envelope self m = Ret (self', es, r) /\
    (if bool_decide (Config.envelope_buffer_size (EnvelopeManager.config self) <= EnvelopeManager.active_envelopes self)
     then self' = self /\ es = [] /\ r = Err TooManyEnvelopes
     else r = Ok (Envelope.event_id (he_envelope m)) /\
       Envelope.items (he_envelope m)
         ≡ₚ metric_items es ++ (handles es ≫= fun h => Envelope.items (he_envelope h)) /\
       Forall (fun it => EnvelopeManager.is_metric it = true) (metric_items es) /\
       Forall (fun h => well_queued h /\ like m h) (handles es) /\ (List.length (handles es) <= 2)%nat).
Proof.
  destruct (queue_envelope_spec self m) as (self' & es & r & Hq & Hspec). exists self', es, r. split; [done|].
  destruct (bool_decide _); [done|]. tauto.
Qed.

(** ** The manager and its tasks *)

(** [mailbox] are the envelopes queued by the manager itself. *)
Record Manager := MkManager { manager : EnvelopeManager; mailbox : list HandleEnvelope; tasks : list Task }.

Section Steps.
Context `{RequestEnv} (message : ProcessingError -> string).

Inductive step : Manager -> Manager -> Prop :=
| step_queue s m self es r :
    EnvelopeManager.queue_envelope (manager s) m = Ret (self, es, r) ->
    step s (MkManager self (mailbox s ++ handles es) (tasks s))
| step_start s l1 m l2 :
    mailbox s = l1 ++ m :: l2 ->
    step s (MkManager (manager s) (l1 ++ l2) (tasks s ++ [Task.handle_envelope m]))
| step_advance s l1 t l2 now answer self es t' :
    tasks s = l1 ++ t :: l2 -> Task.advance now (manager s) t answer = Some (self, es, t', None) ->
    step s (MkManager self (mailbox s) (l1 ++ t' :: l2))
| step_finish s l1 t l2 now answer self es t' r sys_now inst_now :
    tasks s = l1 ++ t :: l2 -> Task.advance now (manager s) t answer = Some (self, es, t', Some r) ->
    step s (MkManager (Task.finish message sys_now inst_now self t' r).1 (mailbox s) (l1 ++ l2))
| step_timeout s l1 t l2 sys_now inst_now :
    tasks s = l1 ++ t :: l2 ->
    step s (MkManager (Task.finish message sys_now inst_now (manager s) t (Err ProcessingError.Timeout)).1
              (mailbox s) (l1 ++ l2))
| step_metrics s envelope scoping start_time :
    Envelope.event_id envelope = None ->
    step s (MkManager (EnvelopeManager.send_envelope (manager s) envelope scoping start_time).1.1 (mailbox s) (tasks s)).

Inductive reachable (cfg : Config) : Manager -> Prop :=
| reachable_initial : reachable cfg (MkManager (EnvelopeManager.create cfg) [] [])
| reachable_next s s' : reachable cfg s -> step s s' -> reachable cfg s'.

Definition manager_inv (cfg : Config) (s : Manager) : Prop :=
  EnvelopeManager.config (manager s) = cfg /\
  EnvelopeManager.active_envelopes (manager s) = Z.of_nat (List.length (mailbox s) + List.length (tasks s)) /\
  Z.of_nat (List.length (mailbox s) + List.length (tasks s)) <= Config.envelope_buffer_size cfg + 1 /\
  Forall well_queued (mailbox s).

(** The parts of the manager that tasks do not touch. *)
Definition same_counter (self self' : EnvelopeManager) : Prop :=
  EnvelopeManager.config self' = EnvelopeManager.config self /\
  EnvelopeManager.active_envelopes self' = EnvelopeManager.active_envelopes self.

Lemma send_envelope_counter self env sc st : same_counter self (EnvelopeManager.send_envelope self env sc st).1.1.
Proof.
  unfold EnvelopeManager.send_envelope. destruct (EnvelopeManager.store_forwarder self); [done|].
  destruct (EnvelopeManager.is_capture self); [|done]. by destruct (Envelope.event_id env).
Qed.

Lemma advance_counter now self t a self' es t' r :
  Task.advance now self t a = Some (self', es, t', r) -> same_counter self self'.
Proof.
  unfold Task.advance. destruct (Task.stage t), a; try done.
  - destruct (Task.on_checked _ _) as [? [?|?]]; by intros [= <- <- <- <-].
  - destruct r0; by intros [= <- <- <- <-].
  - destruct (Task.project_answer _); by intros [= <- <- <- <-].
  - destruct (Task.on_processed _ _ _) as [[t1 es1] [env|e]]; [|by intros [= <- <- <- <-]].
    pose proof (send_envelope_counter self env (Task.scoping t1) (Task.start_time t1)) as Hs.
    destruct (EnvelopeManager.send_envelope _ _ _ _) as [[self1 more] [res|]]; simpl in *; by intros [= <- <- <- <-].
  - destruct (EnvelopeManager.on_send_answer _ _ _ _) as [es1 res]. simpl. by intros [= <- <- <- <-].
Qed.

Lemma finish_counter sys_now inst_now self t r :
  let self' := (Task.finish message sys_now inst_now self t r).1 in
  EnvelopeManager.config self' = EnvelopeManager.config self /\
  EnvelopeManager.active_envelopes self' = u32_sub (EnvelopeManager.active_envelopes self) 1.
Proof.
  unfold Task.finish. destruct r as [?|e]; simpl; [done|]. destruct (Task.event_id t); [|done].
  by destruct (EnvelopeManager.is_capture self).
Qed.

Lemma finish_inv cfg s l1 t l2 self t' r sys_now inst_now :
  in_u32 (Config.envelope_buffer_size cfg + 1) -> manager_inv cfg s -> tasks s = l1 ++ t :: l2 ->
  same_counter (manager s) self ->
  manager_inv cfg (MkManager (Task.finish message sys_now inst_now self t' r).1 (mailbox s) (l1 ++ l2)).
Proof.
  intros Hw (Hc & Ha & Hb & Hq) Ht [Hc' Ha']. pose proof (finish_counter sys_now inst_now self t' r) as [Hf1 Hf2].
  rewrite Ht, length_app in Ha, Hb. simpl in Ha, Hb. unfold manager_inv. simpl. rewrite length_app.
  split; [congruence|]. split; [|split; [lia|done]].
  rewrite Hf2, Ha', Ha. rewrite u32_sub_small; unfold in_width in *; lia.
Qed.

Lemma manager_step_inv cfg s s' :
  in_u32 (Config.envelope_buffer_size cfg + 1) -> manager_inv cfg s -> step s s' -> manager_inv cfg s'.
Proof.
  intros Hw Hinv Hs. pose proof Hinv as (Hc & Ha & Hb & Hq).
  destruct Hs as [s m self es r Hr|s l1 m l2 Hl|s l1 t l2 now answer self es t' Ht Hr
    |s l1 t l2 now answer self es t' r sys_now inst_now Ht Hr|s l1 t l2 sys_now inst_now Ht|s env sc st He].
  - destruct (queue_envelope_spec (manager s) m) as (self' & es' & r' & Hr' & Hspec). rewrite Hr in Hr'. injection Hr' as <- <- <-.
    rewrite Hc in Hspec. bcase (Config.envelope_buffer_size cfg <= EnvelopeManager.active_envelopes (manager s)) as Hfull.
    + rewrite bool_decide_true in Hspec by done. destruct Hspec as (-> & -> & _). by rewrite app_nil_r.
    + rewrite bool_decide_false in Hspec by done. destruct Hspec as (_ & _ & _ & Hh & Hlen & n & -> & ->).
      unfold manager_inv. simpl. rewrite length_app.
      assert (Nat.iter (List.length (handles es)) (fun n => u32_add n 1) (EnvelopeManager.active_envelopes (manager s)) =
              EnvelopeManager.active_envelopes (manager s) + Z.of_nat (List.length (handles es))) as ->.
      { unfold in_width in Hw. destruct (handles es) as [|? [|? [|? ?]]]; cbn -[u32_add] in *; [lia| | |lia];
          rewrite !u32_add_small; rewrite ?u32_add_small; unfold in_width; lia. }
      split; [done|]. split; [lia|]. split; [lia|]. apply Forall_app. split; [done|].
      eapply Forall_impl; [exact Hh|]. by intros ? [? _].
  - unfold manager_inv. simpl. rewrite Hl in Ha, Hb, Hq. rewrite !length_app in *. simpl in *.
    split; [done|]. split; [lia|]. split; [lia|]. rewrite Forall_app, Forall_cons in Hq. rewrite Forall_app. tauto.
  - destruct (advance_counter _ _ _ _ _ _ _ _ Hr) as [Hc' Ha']. unfold manager_inv. simpl.
    rewrite Ht, length_app in Ha, Hb. rewrite length_app. simpl in *. split; [congruence|]. split; [congruence|]. done.
  - eapply finish_inv; [done..|]. by eapply advance_counter.
  - by eapply finish_inv.
  - destruct (send_envelope_counter (manager s) env sc st) as [Hc' Ha']. unfold manager_inv. simpl.
    split; [congruence|]. split; [congruence|]. done.
Qed.

(** C19: In every state the counter of active envelopes is the number of envelopes
    that are queued or being handled, and at most one more than the buffer allows:
    the check comes before an envelope that may be split.  So the counter neither
    wraps around nor leaks, however tasks fail or time out.  Queued envelopes are
    not empty, hold no metrics, and either all or none of their items require an
    event. *)
Theorem manager_counts_envelopes cfg s :
  in_u32 (Config.envelope_buffer_size cfg + 1) -> 0 <= Config.envelope_buffer_size cfg -> reachable cfg s ->
  EnvelopeManager.active_envelopes (manager s) = Z.of_nat (List.length (mailbox s) + List.length (tasks s)) /\
  EnvelopeManager.active_envelopes (manager s) <= Config.envelope_buffer_size cfg + 1 /\
  Forall well_queued (mailbox s).
Proof.
  intros Hw Hpos Hr. assert (manager_inv cfg s) as (_ & Ha & Hb & Hq); [|split_and!; [done|lia|done]].
  induction Hr as [|s s' _ IH Hs]; [|by eapply manager_step_inv]. unfold manager_inv. simpl. split_and!; (done || lia).
Qed.

End Steps.

(** ** What becomes of an envelope *)

(** A task from some state to its end, with the messages it sends on the way; the
    manager may change in between. *)
Inductive run : Task -> list Effect -> Task -> result ProcessingError () -> Prop :=
| run_done now self t a self' es t' r :
    Task.advance now self t a = Some (self', es, t', Some r) -> run t es t' r
| run_more now self t a self' es t1 es' t' r :
    Task.advance now self t a = Some (self', es, t1, None) -> run t1 es' t' r -> run t (es ++ es') t' r
| run_timeout t : run t [] t (Err ProcessingError.Timeout).

(** The envelopes given to the store or the upstream. *)
Definition handed (es : list Effect) : list Envelope :=
  omap (fun e => match e with Store env _ _ | SendUpstream env _ => Some env | _ => None end) es.

Definition is_sending (t : Task) : bool := match Task.stage t with Task.Sending => true | _ => false end.

(** Results that mean that the receiver took the envelope. *)
Definition acknowledged (r : result ProcessingError ()) : bool :=
  match r with
  | Ok _ => true
  | Err (ProcessingError.RateLimited _) => true
  | Err (ProcessingError.SendFailed e) => UpstreamRequestError.is_received e
  | Err _ => false
  end.

(** Failures after which nobody has taken the envelope that was handed over, as far as the
    manager knows: there was no answer in time, or the store refused it. *)
Definition not_taken (e : ProcessingError) : bool :=
  match e with
  | ProcessingError.Timeout | ProcessingError.ScheduleFailed | ProcessingError.StoreFailed _ => true
  | _ => false
  end.

Lemma handed_app es es' : handed (es ++ es') = handed es ++ handed es'.
Proof. apply omap_app. Qed.

Lemma on_sent_received t res t' r :
  Task.on_sent t res = (t', r) -> Task.is_received t' = acknowledged r /\
  (Task.is_received t' = false -> exists e, r = Err e /\ (not_taken e = true \/ exists e', e = ProcessingError.SendFailed e')).
Proof.
  unfold Task.on_sent. destruct res as [?|[|e|e|limits]]; intros [= <- <-]; simpl; (split; [done|]); intros Hr; try done; eauto.
Qed.

Lemma on_checked_received t r t' res : Task.on_checked t r = (t', res) -> Task.is_received t' = Task.is_received t.
Proof.
  unfold Task.on_checked. destruct (Task.project_answer r) as [resp|e]; [|by intros [= <- <-]].
  destruct (cer_result resp) as [checked|reason]; [|by intros [= <- <-]].
  destruct (Projects.envelope checked); by intros [= <- <-].
Qed.

Lemma on_processed_received now t r t' es res :
  Task.on_processed now t r = (t', es, res) -> Task.is_received t' = Task.is_received t /\ handed es = [].
Proof.
  unfold Task.on_processed. destruct r as [[p|e]|]; [|by intros [= <- <- <-]|by intros [= <- <- <-]].
  destruct (RateLimits.is_limited _ _), (EnvelopeProcessor.resp_metrics p), (EnvelopeProcessor.resp_envelope p);
    by intros [= <- <- <-].
Qed.

(** One step: how it hands the envelope over and records the receipt. *)
Lemma advance_received now self t a self' es t' r :
  Task.advance now self t a = Some (self', es, t', r) -> Task.is_received t = false ->
  match r with
  | None => Task.is_received t' = false /\
            (if is_sending t' then is_sending t = false /\ List.length (handed es) = 1%nat
             else is_sending t = false /\ handed es = [])
  | Some r =>
      handed es = [] /\
      (Task.is_received t' = true -> acknowledged r = true /\ (is_sending t = true \/ r = Ok ())) /\
      (Task.is_received t' = false -> exists e, r = Err e /\
        (is_sending t = true -> not_taken e = true \/ exists e', e = ProcessingError.SendFailed e'))
  end.
Proof.
  unfold Task.advance, is_sending. intros Hadv Hrec. destruct (Task.stage t) as [|env|env|env st|] eqn:Est, a as [ans|ans|ans|ans|ans]; try done.
  - destruct (Task.on_checked t ans) as [t1 [e|e]] eqn:Ec; apply on_checked_received in Ec; injection Hadv as <- <- <- <-; simpl.
    + split; [congruence|done].
    + split; [done|]. split; [congruence|]. intros _. by exists e.
  - destruct ans as [e|e]; injection Hadv as <- <- <- <-; simpl; [done|]. split; [done|]. split; [congruence|]. by eexists.
  - destruct (Task.project_answer ans) as [e|e]; injection Hadv as <- <- <- <-; simpl; [done|]. split; [done|]. split; [congruence|]. by eexists.
  - destruct (Task.on_processed now t ans) as [[t1 es1] [env'|e]] eqn:Ep; apply on_processed_received in Ep as [Hr1 Hh1].
    2: { injection Hadv as <- <- <- <-. split; [done|]. split; [congruence|]. by exists e. }
    unfold EnvelopeManager.send_envelope in Hadv. destruct (EnvelopeManager.store_forwarder self);
      [|destruct (EnvelopeManager.is_capture self)]; injection Hadv as <- <- <- <-; simpl; rewrite ?handed_app, ?Hh1.
    + split; [congruence|done].
    + split; [done|]. split; [by auto|done].
    + split; [congruence|done].
  - destruct (EnvelopeManager.on_send_answer _ _ _ ans) as [es1 res] eqn:Ea.
    destruct (Task.on_sent t res) as [t1 r1] eqn:Es. injection Hadv as <- <- <- <-. apply on_sent_received in Es as [Hr Hn].
    split.
    + unfold EnvelopeManager.on_send_answer in Ea. destruct ans as [[[]|]|[[?|[]]|]]; by injection Ea as <- <-.
    + split; [intros Ht; rewrite Ht in Hr; by auto|]. intros Ht. destruct (Hn Ht) as (e & -> & He). eauto.
Qed.

Lemma run_received t es t' r :
  run t es t' r -> Task.is_received t = false ->
  let over := if is_sending t then 1%nat else 0%nat in
  (over + List.length (handed es) <= 1)%nat /\
  (Task.is_received t' = true -> acknowledged r = true /\ ((over + List.length (handed es) = 1)%nat \/ r = Ok ())) /\
  (Task.is_received t' = false -> exists e, r = Err e /\
    ((over + List.length (handed es) = 1)%nat -> not_taken e = true \/ exists e', e = ProcessingError.SendFailed e')).
Proof.
  induction 1 as [now self t a self' es t' r Hadv|now self t a self' es t1 es' t' r Hadv Hrun IH|t]; intros Hrec; simpl.
  - apply advance_received in Hadv as (Hh & Hyes & Hno); [|done]. rewrite Hh. simpl.
    split; [destruct (is_sending t); lia|]. split.
    + intros Ht. destruct (Hyes Ht) as [? [->|?]]; auto.
    + intros Ht. destruct (Hno Ht) as (e & -> & He). exists e. split; [done|]. destruct (is_sending t); [auto|lia].
  - apply advance_received in Hadv as [Hrec1 Hs]; [|done]. specialize (IH Hrec1). rewrite handed_app, length_app. simpl in IH.
    destruct (is_sending t1); destruct Hs as [Hns Hh]; rewrite Hns, Hh in *; exact IH.
  - split; [destruct (is_sending t); lia|]. split; [congruence|]. intros _. eexists. split; [done|]. by left.
Qed.


(** The timeout does not take back what was sent: an envelope that waits in the
    queue of the upstream is reported as dropped, although it may still be sent
    and the comment says that requests the upstream accepts have no outcome. *)
Theorem timeout_reports_sent_envelope message self t sys_now inst_now category :
  is_sending t = true -> Task.is_received t = false ->
  EnvelopeSummary.event_category (Task.envelope_summary t) = Some category ->
  run t [] t (Err ProcessingError.Timeout) /\
  exists outcome, outcome ∈ (Task.finish message sys_now inst_now self t (Err ProcessingError.Timeout)).2 /\
    to_outcome outcome = Outcome.Invalid DiscardReason.Internal /\ to_category outcome = category.
Proof.
  intros Hs Hr Hc. split; [constructor|]. unfold Task.finish. simpl. rewrite Hr. unfold Task.outcomes. rewrite Hc.
  eexists. split; [by left|]. done.
Qed.

(** ** Witnesses *)

#[local] Existing Instance sample_request_env.

Definition event_and_session : HandleEnvelope :=
  MkHandleEnvelope (envelope_with [Item.new ItemType.Event; Item.new ItemType.Session; Item.new ItemType.Metrics])
    sample_key None 0.

Definition no_message (e : ProcessingError) : string := "".

Definition after_queueing : Manager :=
  match EnvelopeManager.queue_envelope (EnvelopeManager.create sample_config) event_and_session with
  | Ret (self, es, _) => MkManager self (handles es) []
  | Panic => MkManager (EnvelopeManager.create sample_config) [] []
  end.

Lemma manager_counts_envelopes_witness :
  EnvelopeManager.active_envelopes (manager after_queueing) = 2 /\ 2 <= Config.envelope_buffer_size sample_config + 1 /\
  Forall well_queued (mailbox after_queueing).
Proof.
  apply (manager_counts_envelopes no_message sample_config after_queueing); [by vm_compute|by vm_compute|].
  unfold after_queueing. destruct (EnvelopeManager.queue_envelope _ event_and_session) as [[[self es] r]|] eqn:E;
    [|apply reachable_initial].
  eapply reachable_next; [apply reachable_initial|]. exact (step_queue no_message (MkManager (EnvelopeManager.create sample_config) [] []) _ _ _ _ E).
Defined.


Definition sending_task : Task := Task.set_stage (Task.handle_envelope event_and_session) Task.Sending.

Lemma timeout_reports_sent_envelope_witness :
  exists outcome, outcome ∈ (Task.finish no_message 0 0 (EnvelopeManager.create sample_config) sending_task
    (Err ProcessingError.Timeout)).2 /\
    to_outcome outcome = Outcome.Invalid DiscardReason.Internal /\ to_category outcome = DataCategory.Error.
Proof.
  apply (timeout_reports_sent_envelope no_message (EnvelopeManager.create sample_config) sending_task 0 0 DataCategory.Error);
    reflexivity.
Defined.
