(* ===== verification/OutcomeProducers.v ===== *)
(** * relay-server: the outcome producers (actors/outcome.rs, endpoints/outcomes.rs)

    Outcomes go to Kafka in processing mode and to the upstream otherwise.  The HTTP
    producer collects them: a batch is sent when it is full or when a timer fires that
    was started with its first outcome.  The producer is a state machine over the
    messages it gets and the timers it has running. *)

From Stdlib Require Import Ascii String.
From S2P Require Import Prelude Strings Types Common Protocol Quota Filters Sampling Extractors Projects Processing EnvelopeManager.

Open Scope string_scope.
Open Scope Z_scope.
Open Scope list_scope.

(** ** Reasons *)

(** [DiscardReason::name] *)
Definition discard_reason_name (self : DiscardReason) : string :=
  match self with
  | DiscardReason.Duplicate => "duplicate"
  | DiscardReason.ProjectId => "project_id"
  | DiscardReason.AuthVersion => "auth_version"
  | DiscardReason.AuthClient => "auth_client"
  | DiscardReason.NoData => "no_data"
  | DiscardReason.TooLarge => "too_large"
  | DiscardReason.DisallowedMethod => "disallowed_method"
  | DiscardReason.ContentType => "content_type"
  | DiscardReason.MultiProjectId => "multi_project_id"
  | DiscardReason.MissingMinidumpUpload => "missing_minidump_upload"
  | DiscardReason.InvalidMinidump => "invalid_minidump"
  | DiscardReason.SecurityReportType => "security_report_type"
  | DiscardReason.SecurityReport => "security_report"
  | DiscardReason.Cors => "cors"
  | DiscardReason.ProcessUnreal => "process_unreal"
  | DiscardReason.Payload => "payload"
  | DiscardReason.InvalidJson => "invalid_json"
  | DiscardReason.InvalidMultipart => "invalid_multipart"
  | DiscardReason.InvalidMsgpack => "invalid_msgpack"
  | DiscardReason.InvalidTransaction => "invalid_transaction"
  | DiscardReason.InvalidEnvelope => "invalid_envelope"
  | DiscardReason.ProjectState => "project_state"
  | DiscardReason.DuplicateItem => "duplicate_item"
  | DiscardReason.NoEventPayload => "no_event_payload"
  | DiscardReason.Internal => "internal"
  | DiscardReason.TransactionSampled => "transaction_sampled"
  | DiscardReason.EmptyEnvelope => "empty_envelope"
  end.

(** [Outcome::to_reason]; [RuleId] is shown as its number. *)
Definition to_reason (self : Outcome) : option string :=
  match self with
  | Outcome.Accepted => None
  | Outcome.Invalid discard_reason => Some (discard_reason_name discard_reason)
  | Outcome.Filtered filter_key => Some (FilterStatKey.name filter_key)
  | Outcome.FilteredSampling rule_id => Some ("Sampled:" +:+ u64_to_string rule_id)
  | Outcome.RateLimited code_opt => reason_str <$> code_opt
  | Outcome.Abuse => None
  end.

(** ** Raw outcomes *)

Module TrackRawOutcome.

Record TrackRawOutcome := MkTrackRawOutcome {
  timestamp : string;
  org_id : option Z;
  project_id : ProjectId;
  key_id : option Z;
  outcome : Z;
  reason : option string;
  event_id : option EventId;
  remote_addr : option string;
  source : option string;
  category : option Z;
  quantity : option Z;
}.

Definition tag_name (self : TrackRawOutcome) : string :=
  match outcome self with
  | 0 => "accepted"
  | 1 => "filtered"
  | 2 => "rate_limited"
  | 3 => "invalid"
  | 4 => "abuse"
  | _ => "<unknown>"
  end.

End TrackRawOutcome.
Notation TrackRawOutcome := TrackRawOutcome.TrackRawOutcome.

(** What of the configuration decides about outcomes. *)
Record OutcomeConfig := MkOutcomeConfig {
  outcomes_emit : bool;
  outcomes_processing_enabled : bool;
  outcome_batch_size : nat;
  outcome_source : option string;
}.

Definition emit_outcomes (config : OutcomeConfig) : bool := outcomes_emit config || outcomes_processing_enabled config.

(** chrono's texts, serde_json, rdkafka and fresh event ids. *)
Class OutcomeEnv := {
  rfc3339_micros : SystemTime -> string;
  raw_outcome_to_json : TrackRawOutcome -> result JsonError string;
  kafka_send_outcome : nat -> EventId -> string -> option string;
  fresh_event_id : nat -> EventId;
}.

Definition from_outcome `{OutcomeEnv} (msg : TrackOutcome) (config : OutcomeConfig) : TrackRawOutcome :=
  TrackRawOutcome.MkTrackRawOutcome (rfc3339_micros (to_timestamp msg))
    (if bool_decide (organization_id (to_scoping msg) = 0) then None else Some (organization_id (to_scoping msg)))
    (project_id (to_scoping msg)) (key_id (to_scoping msg)) (Outcome.to_outcome_id (to_outcome msg))
    (to_reason (to_outcome msg)) (to_event_id msg) (to_remote_addr msg) (outcome_source config)
    (DataCategory.value (to_category msg)) (Some (to_quantity msg)).

(** ** The HTTP producer *)

(** With the context of the actor: the timers that run and the handle of the next one. *)
Record HttpOutcomeProducer := MkHttpOutcomeProducer {
  unsent_outcomes : list TrackRawOutcome;
  pending_flush_handle : option nat;
  timers : list nat;
  next_handle : nat;
}.

(** Batches that go upstream, and the warning of [send_batch]. *)
Inductive OutcomeEffect := SendOutcomes (outcomes : list TrackRawOutcome) | WarnEmptyBatch.

Definition http_create : HttpOutcomeProducer := MkHttpOutcomeProducer [] None [] 0.

Definition send_batch (self : HttpOutcomeProducer) : HttpOutcomeProducer * list OutcomeEffect :=
  let self := MkHttpOutcomeProducer (unsent_outcomes self) None (timers self) (next_handle self) in
  match unsent_outcomes self with
  | [] => (self, [WarnEmptyBatch])
  | outcomes => (MkHttpOutcomeProducer [] None (timers self) (next_handle self), [SendOutcomes outcomes])
  end.

(** [Context::cancel_future] and [Context::run_later] *)
Definition cancel_future (self : HttpOutcomeProducer) (handle : nat) : HttpOutcomeProducer :=
  MkHttpOutcomeProducer (unsent_outcomes self) (pending_flush_handle self)
    (List.filter (fun h => bool_decide (h <> handle)) (timers self)) (next_handle self).
Definition run_later (self : HttpOutcomeProducer) : HttpOutcomeProducer :=
  MkHttpOutcomeProducer (unsent_outcomes self) (Some (next_handle self)) (next_handle self :: timers self) (S (next_handle self)).

Definition send_http_message (config : OutcomeConfig) (self : HttpOutcomeProducer) (message : TrackRawOutcome)
  : HttpOutcomeProducer * list OutcomeEffect :=
  let self := MkHttpOutcomeProducer (unsent_outcomes self ++ [message]) (pending_flush_handle self) (timers self)
                (next_handle self) in
  if bool_decide (outcome_batch_size config <= length (unsent_outcomes self))%nat then
    let self := match pending_flush_handle self with Some handle => cancel_future self handle | None => self end in
    send_batch self
  else match pending_flush_handle self with
       | None => (run_later self, [])
       | Some _ => (self, [])
       end.

(** [Handler<TrackRawOutcome>] *)
Definition http_handle (config : OutcomeConfig) (self : HttpOutcomeProducer) (message : TrackRawOutcome)
  : HttpOutcomeProducer * list OutcomeEffect :=
  if emit_outcomes config then send_http_message config self message else (self, []).

(** A timer that runs out is gone and calls [send_batch]. *)
Definition timer_fires (self : HttpOutcomeProducer) (handle : nat) : HttpOutcomeProducer * list OutcomeEffect :=
  send_batch (cancel_future self handle).

(** The steps of the actor. *)
Inductive producer_event := Receive (message : TrackRawOutcome) | Fire (handle : nat).

Inductive producer_step (config : OutcomeConfig) : HttpOutcomeProducer -> producer_event -> HttpOutcomeProducer -> list OutcomeEffect -> Prop :=
| step_receive self message self' effects :
    http_handle config self message = (self', effects) -> producer_step config self (Receive message) self' effects
| step_fire self handle self' effects :
    handle ∈ timers self -> timer_fires self handle = (self', effects) -> producer_step config self (Fire handle) self' effects.

Inductive producer_run (config : OutcomeConfig) : HttpOutcomeProducer -> list producer_event -> HttpOutcomeProducer -> list OutcomeEffect -> Prop :=
| run_nil self : producer_run config self [] self []
| run_snoc self events self1 effects event self' more :
    producer_run config self events self1 effects -> producer_step config self1 event self' more ->
    producer_run config self (events ++ [event]) self' (effects ++ more).

(** ** The producer of processing Relays *)

Module OutcomeError.

Inductive OutcomeError := SendFailed (error : string) | SerializationError (error : JsonError).

End OutcomeError.
Notation OutcomeError := OutcomeError.OutcomeError.

(** [producer] and [http_producer] of [ProcessingOutcomeProducer] exist or do not. *)
Record ProcessingOutcomeProducer := MkProcessingOutcomeProducer { has_producer : bool; has_http_producer : bool }.

(** Kafka records with their key, messages to the HTTP producer, and the logged error. *)
Inductive ProducerEffect :=
| KafkaOutcome (key : EventId) (message : TrackRawOutcome)
| ForwardOutcome (message : TrackRawOutcome)
| ErrorNoHttpProducer.

(** [HttpOutcomeProducer::create] does not fail. *)
Definition processing_create (config : OutcomeConfig) : ProcessingOutcomeProducer :=
  if outcomes_processing_enabled config then MkProcessingOutcomeProducer true false else MkProcessingOutcomeProducer false true.

Section Producer.
Context `{OutcomeEnv}.

(** [attempt] counts the sends, [fresh] the event ids that were made up. *)
Definition send_kafka_message (self : ProcessingOutcomeProducer) (attempt fresh : nat) (message : TrackRawOutcome)
  : result OutcomeError (list ProducerEffect) :=
  if negb (has_producer self) then Ok []
  else match raw_outcome_to_json message with
       | Err e => Err (OutcomeError.SerializationError e)
       | Ok payload =>
           let key := default (fresh_event_id fresh) (TrackRawOutcome.event_id message) in
           match kafka_send_outcome attempt key payload with
           | None => Ok [KafkaOutcome key message]
           | Some e => Err (OutcomeError.SendFailed e)
           end
       end.

Definition forward_http_message (self : ProcessingOutcomeProducer) (message : TrackRawOutcome) : list ProducerEffect :=
  if has_http_producer self then [ForwardOutcome message] else [ErrorNoHttpProducer].

(** [Handler<TrackRawOutcome> for ProcessingOutcomeProducer] *)
Definition processing_handle (config : OutcomeConfig) (self : ProcessingOutcomeProducer) (attempt fresh : nat)
  (message : TrackRawOutcome) : result OutcomeError (list ProducerEffect) :=
  if outcomes_processing_enabled config then send_kafka_message self attempt fresh message
  else if emit_outcomes config then Ok (forward_http_message self message)
  else Ok [].

End Producer.

(** ** The endpoint *)

(** [send_outcomes]: outcomes of other Relays are passed on when they are internal. *)
Definition send_outcomes (config : OutcomeConfig) (internal : bool) (outcomes : list TrackRawOutcome)
  : Z * list TrackRawOutcome :=
  if negb internal || negb (emit_outcomes config) then (403, []) else (202, outcomes).

(** ** Lemmas *)

(** A timer runs exactly when a handle is kept, exactly when outcomes wait, and a batch is never full. *)
Record producer_inv (config : OutcomeConfig) (self : HttpOutcomeProducer) : Prop := {
  inv_timers : timers self = match pending_flush_handle self with Some h => [h] | None => [] end;
  inv_waiting : is_Some (pending_flush_handle self) <-> unsent_outcomes self <> [];
  inv_full : unsent_outcomes self <> [] -> (length (unsent_outcomes self) < outcome_batch_size config)%nat;
}.

Definition batch_of (e : OutcomeEffect) : list TrackRawOutcome :=
  match e with SendOutcomes outcomes => outcomes | WarnEmptyBatch => [] end.
Definition batched (effects : list OutcomeEffect) : list TrackRawOutcome := effects ≫= batch_of.

(** Batches have between one and the configured number of outcomes. *)
Definition good_batch (config : OutcomeConfig) (e : OutcomeEffect) : Prop :=
  match e with
  | SendOutcomes l => (1 <= length l <= Nat.max 1 (outcome_batch_size config))%nat
  | WarnEmptyBatch => False
  end.

Definition received (config : OutcomeConfig) (e : producer_event) : list TrackRawOutcome :=
  match e with Receive m => if emit_outcomes config then [m] else [] | Fire _ => [] end.

Lemma batched_app l k : batched (l ++ k) = batched l ++ batched k.
Proof. apply bind_app. Qed.

Lemma create_inv config : producer_inv config http_create.
Proof. split; cbn; [done| |done]. split; [by intros [? ?]|done]. Qed.

Lemma cancel_only (self : HttpOutcomeProducer) h : timers self = [h] -> timers (cancel_future self h) = [].
Proof. intros Ht. cbn. rewrite Ht. cbn. rewrite bool_decide_eq_false_2; [done|]. intros Hne. by apply Hne. Qed.

(** Sending a batch without running timers. *)
Lemma send_batch_spec config self :
  timers self = [] -> unsent_outcomes self <> [] ->
  (length (unsent_outcomes self) <= Nat.max 1 (outcome_batch_size config))%nat ->
  exists self', send_batch self = (self', [SendOutcomes (unsent_outcomes self)]) /\ producer_inv config self'
    /\ unsent_outcomes self' = [] /\ good_batch config (SendOutcomes (unsent_outcomes self)).
Proof.
  intros Ht Hne Hl. unfold send_batch. cbn. destruct (unsent_outcomes self) as [|o l]; [done|].
  eexists. split; [done|]. split_and!; [|done|cbn [good_batch length] in *; lia..].
  split; cbn; [done| |done]. split; [by intros [? ?]|done].
Qed.

Lemma step_spec config self event self' effects :
  producer_inv config self -> producer_step config self event self' effects ->
  producer_inv config self' /\ Forall (good_batch config) effects
  /\ unsent_outcomes self ++ received config event = batched effects ++ unsent_outcomes self'.
Proof.
  intros [Ht Hw Hf] Hstep. inversion Hstep as [s0 message s1 fx Hh|s0 handle s1 fx Hin Hh]; subst.
  - unfold http_handle, received in *. destruct (emit_outcomes config); [|injection Hh as <- <-; split_and!; [by split|done|by rewrite app_nil_r]].
    unfold send_http_message in Hh. cbn [unsent_outcomes pending_flush_handle] in Hh. case_bool_decide as Hfull.
    + edestruct (send_batch_spec config) as (s' & Hs & Hinv & He & Hg); [..|rewrite Hs in Hh].
      4: { injection Hh as <- <-. rewrite He, app_nil_r. split_and!; [done|by constructor|].
           unfold batched. cbn. rewrite app_nil_r. by destruct (pending_flush_handle self). }
      * destruct (pending_flush_handle self); [by apply cancel_only|exact Ht].
      * destruct (pending_flush_handle self); cbn; by destruct (unsent_outcomes self).
      * destruct (decide (unsent_outcomes self = [])) as [E|E].
        -- destruct (pending_flush_handle self); cbn; rewrite E; cbn; lia.
        -- specialize (Hf E). destruct (pending_flush_handle self); cbn; rewrite length_app; cbn; lia.
    + rewrite length_app in Hfull. cbn in Hfull.
      destruct (pending_flush_handle self) as [h|] eqn:Hp; injection Hh as <- <-; (split_and!; [|done|done]); split; cbn.
      * by rewrite Ht.
      * split; [by destruct (unsent_outcomes self)|by eexists].
      * rewrite length_app. cbn. lia.
      * by rewrite Ht.
      * split; [by destruct (unsent_outcomes self)|by eexists].
      * rewrite length_app. cbn. lia.
  - destruct (pending_flush_handle self) as [h|]; rewrite Ht in Hin; [|by apply elem_of_nil in Hin].
    apply list_elem_of_singleton in Hin as ->. assert (unsent_outcomes self <> []) as Hne by (apply Hw; by eexists).
    destruct (send_batch_spec config (cancel_future self h)) as (s' & Hs & Hinv & He & Hg);
      [by apply cancel_only|done|cbn; specialize (Hf Hne); lia|].
    unfold timer_fires in Hh. rewrite Hs in Hh. injection Hh as <- <-. rewrite He. split_and!; [done|by constructor|].
    unfold batched. cbn. by rewrite !app_nil_r.
Qed.

Lemma run_spec config events self effects :
  producer_run config http_create events self effects ->
  producer_inv config self /\ Forall (good_batch config) effects
  /\ events ≫= received config = batched effects ++ unsent_outcomes self.
Proof.
  intros Hr. remember http_create as s0 eqn:E. induction Hr as [self|self events self1 effects event self' more Hr IH Hs];
    [subst; split_and!; [apply create_inv|done|done]|]. destruct (IH E) as (Hi & Hg & Hc).
  destruct (step_spec _ _ _ _ _ Hi Hs) as (Hi' & Hg' & Hc'). split_and!; [done|by apply Forall_app|].
  rewrite bind_app, Hc, batched_app, <- !app_assoc. f_equal. cbn. by rewrite app_nil_r.
Qed.

(** ** Theorems *)

(** C18: The HTTP producer loses, repeats and reorders no outcome: after any sequence of messages
    and timers the outcomes received are the batches sent, one after the other, followed by
    those that wait.  Batches are never empty and never larger than configured.  When outcomes
    wait, exactly one timer runs, and when it fires all of them are sent. *)
Theorem outcomes_batched config events self effects :
  producer_run config http_create events self effects ->
  events ≫= received config = batched effects ++ unsent_outcomes self
  /\ Forall (good_batch config) effects
  /\ (unsent_outcomes self <> [] -> exists h, timers self = [h]
       /\ (timer_fires self h).2 = [SendOutcomes (unsent_outcomes self)] /\ unsent_outcomes (timer_fires self h).1 = [])
  /\ (unsent_outcomes self = [] -> timers self = []).
Proof.
  intros ([Ht Hw Hf] & Hg & Hc)%run_spec. split_and!; [done|done|..].
  - intros Hne. destruct (proj2 Hw Hne) as [h Hh]. rewrite Hh in Ht. exists h. split; [done|].
    destruct (send_batch_spec config (cancel_future self h)) as (s' & Hs & _ & He & _);
      [by apply cancel_only|done|cbn; specialize (Hf Hne); lia|]. unfold timer_fires. by rewrite Hs.
  - intros He. rewrite Ht. destruct (pending_flush_handle self) as [h|]; [|done].
    exfalso. apply (proj1 Hw); [by eexists|done].
Qed.

(** A producer as it is created never reports a missing HTTP producer, and an outcome is
    written to Kafka, passed to the HTTP producer or, only when outcomes are not to be
    emitted, dropped; Kafka gets it with the key of its event. *)
Theorem outcome_routed `{OutcomeEnv} config attempt fresh message effects :
  processing_handle config (processing_create config) attempt fresh message = Ok effects ->
  match effects with
  | [KafkaOutcome key m] => m = message /\ outcomes_processing_enabled config = true
      /\ forall id, TrackRawOutcome.event_id message = Some id -> key = id
  | [ForwardOutcome m] => m = message /\ outcomes_processing_enabled config = false /\ emit_outcomes config = true
  | [] => emit_outcomes config = false
  | _ => False
  end.
Proof.
  unfold processing_handle, processing_create, emit_outcomes. destruct (outcomes_processing_enabled config) eqn:Hp.
  - unfold send_kafka_message. cbn. destruct (raw_outcome_to_json message); [|done].
    destruct (kafka_send_outcome _ _ _); [done|]. intros [= <-]. split_and!; [done|done|]. by intros id ->.
  - rewrite orb_false_r. destruct (outcomes_emit config); cbn; by intros [= <-].
Qed.

(** The names of outcomes are known, and reasons of invalid ones tell them apart. *)
Theorem discard_reasons_distinct a b : discard_reason_name a = discard_reason_name b -> a = b.
Proof. destruct a, b; done || (intros E; vm_compute in E; discriminate). Qed.

Theorem raw_outcome_faithful `{OutcomeEnv} msg config :
  TrackRawOutcome.tag_name (from_outcome msg config) <> "<unknown>"
  /\ TrackRawOutcome.quantity (from_outcome msg config) = Some (to_quantity msg)
  /\ (TrackRawOutcome.reason (from_outcome msg config) = None <->
      match to_outcome msg with Outcome.Accepted | Outcome.Abuse | Outcome.RateLimited None => True | _ => False end).
Proof.
  split_and!; [|done|]; unfold from_outcome; cbn; destruct (to_outcome msg) as [ | | |[c|] | |]; try done; split; done.
Qed.

(** ** Witnesses *)

Definition raw_example (n : Z) : TrackRawOutcome :=
  TrackRawOutcome.MkTrackRawOutcome "2021-01-01T00:00:00.000000Z" None 42 None 1 None None None None None (Some n).
Definition example_outcome_config : OutcomeConfig := MkOutcomeConfig true false 3 None.

(** The producer after messages and no timer. *)
Definition receive_all (config : OutcomeConfig) (messages : list TrackRawOutcome) : HttpOutcomeProducer * list OutcomeEffect :=
  fold_left (fun s m => let r := http_handle config s.1 m in (r.1, s.2 ++ r.2)) messages (http_create, []).

Lemma receive_all_run config messages :
  producer_run config http_create (Receive <$> messages) (receive_all config messages).1 (receive_all config messages).2.
Proof.
  induction messages as [|m messages IH] using rev_ind; [constructor|]. unfold receive_all.
  rewrite fmap_app, fold_left_app. cbn [fold_left fst snd]. eapply run_snoc; [exact IH|].
  apply step_receive. by destruct (http_handle _ _ _).
Qed.

Lemma outcomes_batched_witness :
  exists self effects, producer_run example_outcome_config http_create (Receive <$> (raw_example <$> [1; 2; 3; 4])) self effects
    /\ batched effects = raw_example <$> [1; 2; 3] /\ exists h, timers self = [h].
Proof.
  pose proof (receive_all_run example_outcome_config (raw_example <$> [1; 2; 3; 4])) as Hr.
  destruct (outcomes_batched _ _ _ _ Hr) as (_ & _ & Ht & _). eexists _, _. split; [exact Hr|]. split; [done|].
  destruct Ht as (h & Hh & _); [done|]. by exists h.
Defined.
