(* ===== verification/Endpoints.v ===== *)
(** * relay-server: store-like requests (endpoints/common.rs)

    All endpoints that take events hand over an envelope in the same way: it is checked
    against the cached project, the size limits and the trace sampling rules and then
    queued.  A failure on the way becomes a response and the outcomes of what the
    envelope held.  The other actors are reached through the class [StoreServices];
    an answer of [None] is a mailbox error. *)

From Stdlib Require Import Ascii String.
From S2P Require Import Prelude Strings Types Common Protocol Quota RateLimit Filters Sampling Extractors Envelopes FormData EnvelopeLimiter DynamicSampling Projects Bodies Http Processing EnvelopeManager.

Open Scope string_scope.
Open Scope Z_scope.
Open Scope list_scope.

(** ** Errors *)

Module BadStoreRequest.

Inductive BadStoreRequest :=
| UnsupportedProtocolVersion (version : Z)
| ScheduleFailed
| ProjectFailed (error : ProjectError)
| EmptyBody
| EmptyEnvelope
| InvalidJson (error : JsonError)
| InvalidMsgpack (error : JsonError)
| InvalidEnvelope (error : EnvelopeError)
| InvalidMultipart (error : MultipartError)
| InvalidMinidump
| MissingMinidump
| InvalidUnrealReport
| InvalidEventId
| QueueFailed (error : QueueEnvelopeError)
| PayloadError (error : StorePayloadError)
| RateLimited (limits : RateLimits)
| EventRejected (reason : DiscardReason)
| TraceSampled (rule : RuleId).

Definition to_outcome (self : BadStoreRequest) : option Outcome :=
  match self with
  | UnsupportedProtocolVersion _ => Some (Outcome.Invalid DiscardReason.AuthVersion)
  | InvalidUnrealReport => Some (Outcome.Invalid DiscardReason.MissingMinidumpUpload)
  | EmptyBody => Some (Outcome.Invalid DiscardReason.NoData)
  | EmptyEnvelope => Some (Outcome.Invalid DiscardReason.EmptyEnvelope)
  | InvalidJson _ => Some (Outcome.Invalid DiscardReason.InvalidJson)
  | InvalidMsgpack _ => Some (Outcome.Invalid DiscardReason.InvalidMsgpack)
  | InvalidMultipart _ => Some (Outcome.Invalid DiscardReason.InvalidMultipart)
  | InvalidMinidump => Some (Outcome.Invalid DiscardReason.InvalidMinidump)
  | MissingMinidump => Some (Outcome.Invalid DiscardReason.MissingMinidumpUpload)
  | InvalidEnvelope _ => Some (Outcome.Invalid DiscardReason.InvalidEnvelope)
  | QueueFailed TooManyEnvelopes => Some (Outcome.Invalid DiscardReason.Internal)
  | ProjectFailed Projects.FetchFailed => Some (Outcome.Invalid DiscardReason.ProjectState)
  | ProjectFailed _ => Some (Outcome.Invalid DiscardReason.Internal)
  | ScheduleFailed => Some (Outcome.Invalid DiscardReason.Internal)
  | EventRejected reason => Some (Outcome.Invalid reason)
  | PayloadError payload_error => Some (Outcome.Invalid (StorePayloadError.discard_reason payload_error))
  | TraceSampled rule_id => Some (Outcome.FilteredSampling rule_id)
  | InvalidEventId => Some (Outcome.Invalid DiscardReason.Internal)
  | RateLimited _ => None
  end.

End BadStoreRequest.
Notation BadStoreRequest := BadStoreRequest.BadStoreRequest.

(** ** Responses *)

Inductive ResponseBody :=
| StoreResponse (id : option EventId) | Pixel | EventIdText (id : EventId) | NoBody | ErrorBody (error : BadStoreRequest).

Record HttpResponse := MkHttpResponse {
  status : Z;
  retry_after_header : option string;
  rate_limits_header : option string;
  response_body : ResponseBody;
}.

Definition plain_response (status : Z) (body : ResponseBody) : HttpResponse := MkHttpResponse status None None body.

(** [error_response]; the body renders the error with its causes. *)
Definition error_response (now : Instant) (self : BadStoreRequest) : HttpResponse :=
  let body := ErrorBody self in
  match self with
  | BadStoreRequest.RateLimited rate_limits =>
      let retry_after :=
        default "" ((fun limit => u64_to_string (RetryAfter.remaining_seconds now (RateLimit.retry_after limit)))
                      <$> RateLimits.longest rate_limits) in
      MkHttpResponse 429 (Some retry_after) (Some (format_rate_limits now rate_limits)) body
  | BadStoreRequest.ProjectFailed Projects.FetchFailed => plain_response 500 body
  | BadStoreRequest.ProjectFailed Projects.ScheduleFailed => plain_response 503 body
  | BadStoreRequest.ScheduleFailed | BadStoreRequest.QueueFailed _ => plain_response 503 body
  | BadStoreRequest.EventRejected _ => plain_response 403 body
  | BadStoreRequest.PayloadError StorePayloadError.Overflow => plain_response 413 body
  | _ => plain_response 400 body
  end.

Definition create_text_event_id_response (id : option EventId) : HttpResponse :=
  plain_response 200 (EventIdText (default 0 id)).

(** ** Event ids *)

Module MinimalEvent.
Record MinimalEvent := MkMinimalEvent { id : option EventId; ty : EventType }.
End MinimalEvent.
Notation MinimalEvent := MinimalEvent.MinimalEvent.

(** serde_json and rmp_serde on [MinimalEvent], and [EventId::from_str]. *)
Class EventIdEnv := {
  read_minimal_json : string -> result JsonError MinimalEvent;
  read_minimal_msgpack : string -> result JsonError MinimalEvent;
  parse_event_id : string -> option EventId;
}.

Section EventIds.
Context `{EventIdEnv}.

Definition minimal_event_from_json (data : string) : result BadStoreRequest MinimalEvent :=
  match read_minimal_json data with Ok e => Ok e | Err e => Err (BadStoreRequest.InvalidJson e) end.

Definition event_id_from_json (data : string) : result BadStoreRequest (option EventId) :=
  event ← minimal_event_from_json data; Ok (MinimalEvent.id event).

Definition event_id_from_msgpack (data : string) : result BadStoreRequest (option EventId) :=
  match read_minimal_msgpack data with Ok e => Ok (MinimalEvent.id e) | Err e => Err (BadStoreRequest.InvalidMsgpack e) end.

(** The loop over the entries of form data. *)
Fixpoint event_id_from_entries (entries : list FormDataEntry) : result BadStoreRequest (option EventId) :=
  match entries with
  | [] => Ok None
  | entry :: entries =>
      if bool_decide (FormDataEntry.key entry = "sentry") then event_id_from_json (FormDataEntry.value entry)
      else if bool_decide (FormDataEntry.key entry = "sentry[event_id]") then
        match parse_event_id (FormDataEntry.value entry) with
        | Some id => Ok (Some id)
        | None => Err BadStoreRequest.InvalidEventId
        end
      else event_id_from_entries entries
  end.
Definition event_id_from_formdata (data : string) : result BadStoreRequest (option EventId) :=
  event_id_from_entries (FormDataIter.collect data).

(** The id of the first item that satisfies a condition. *)
Definition id_of_item (p : Item -> bool) (read : string -> result BadStoreRequest (option EventId)) (items : list Item)
  : result BadStoreRequest (option EventId) :=
  match List.find p items with Some item => read (Item.payload item) | None => Ok None end.

Definition has_type (ty : ItemType) (item : Item) : bool := bool_decide (Item.ty (Item.headers item) = ty).
Definition is_event_payload (item : Item) : bool :=
  bool_decide (Item.attachment_type (Item.headers item) = Some AttachmentType.EventPayload).

Definition event_id_from_items (items : list Item) : result BadStoreRequest (option EventId) :=
  event ← id_of_item (has_type ItemType.Event) event_id_from_json items;
  match event with
  | Some event_id => Ok (Some event_id)
  | None =>
      event ← id_of_item is_event_payload event_id_from_msgpack items;
      match event with
      | Some event_id => Ok (Some event_id)
      | None =>
          match id_of_item (has_type ItemType.FormData) event_id_from_formdata items with
          | Ok (Some event_id) => Ok (Some event_id)
          | _ => Ok None
          end
      end
  end.

End EventIds.

(** ** Size limits *)

Record EndpointConfig := MkEndpointConfig {
  max_event_size : Z;
  max_attachment_size : Z;
  max_attachments_size : Z;
  max_session_count : Z;
  max_envelope_size : Z;
  endpoint_processing_enabled : bool;
}.

(** The loop with its three counters; [None] is the early return of [false]. *)
Fixpoint measure_items (config : EndpointConfig) (items : list Item) (event_size attachments_size session_count : Z)
  : option (Z * Z * Z) :=
  match items with
  | [] => Some (event_size, attachments_size, session_count)
  | item :: items =>
      match Item.ty (Item.headers item) with
      | ItemType.Event | ItemType.Transaction | ItemType.Security | ItemType.RawSecurity | ItemType.FormData =>
          measure_items config items (event_size + Item.len item) attachments_size session_count
      | ItemType.Attachment | ItemType.UnrealReport =>
          if bool_decide (max_attachment_size config < Item.len item) then None
          else measure_items config items event_size (attachments_size + Item.len item) session_count
      | ItemType.Session | ItemType.Sessions => measure_items config items event_size attachments_size (session_count + 1)
      | ItemType.UserReport | ItemType.Metrics | ItemType.MetricBuckets =>
          measure_items config items event_size attachments_size session_count
      end
  end.

Definition check_envelope_size_limits (config : EndpointConfig) (envelope : Envelope) : bool :=
  match measure_items config (Envelope.items envelope) 0 0 0 with
  | None => false
  | Some (event_size, attachments_size, session_count) =>
      bool_decide (event_size <= max_event_size config) && bool_decide (attachments_size <= max_attachments_size config)
      && bool_decide (session_count <= max_session_count config)
  end.

(** ** Handling requests *)

(** What the closures share and the last one reports. *)
Record Tracked := MkTracked { tracked_scoping : Scoping; tracked_id : option EventId; tracked_summary : EnvelopeSummary }.

(** [ProjectCache] for [CheckEnvelope::cached] and [EnvelopeManager] for [QueueEnvelope]. *)
Class StoreServices := {
  check_cached : ProjectKey -> Envelope -> option (result ProjectError CheckEnvelopeResponse);
  queue_message : HandleEnvelope -> option (result QueueEnvelopeError (option EventId));
}.

(** The readings of the clocks: when limits are tested, when the response is written and when the outcomes are. *)
Record RequestClock := MkRequestClock {
  limits_tested : Instant; response_written : Instant; outcome_instant : Instant; outcome_system : SystemTime
}.

Section Handle.
Context `{FilterEnv, SamplingEnv, RequestEnv, DynamicSampling.ProjectCache, StoreServices} (config : EndpointConfig) (clock : RequestClock).

Definition outcomes_of (tracked : Tracked) (remote_addr : option IpAddr) (start_time : Instant) (error : BadStoreRequest)
  : list TrackOutcome :=
  match BadStoreRequest.to_outcome error with
  | None => []
  | Some outcome =>
      let timestamp := UnixTimestamp.instant_to_system_time (outcome_system clock) (outcome_instant clock) start_time in
      let track := MkTrackOutcome timestamp (tracked_scoping tracked) outcome (tracked_id tracked) remote_addr in
      match EnvelopeSummary.event_category (tracked_summary tracked) with
      | Some category => [track category 1]
      | None => []
      end
      ++ if bool_decide (0 < EnvelopeSummary.attachment_quantity (tracked_summary tracked))
         then [track DataCategory.Attachment (EnvelopeSummary.attachment_quantity (tracked_summary tracked))] else []
  end.

(** The final [or_else]. *)
Definition answer_error (create_response : option EventId -> HttpResponse) (emit_rate_limit : bool) (tracked : Tracked)
  (error : BadStoreRequest) : HttpResponse :=
  match error with
  | BadStoreRequest.RateLimited _ =>
      if emit_rate_limit then error_response (response_written clock) error else create_response (tracked_id tracked)
  | BadStoreRequest.TraceSampled _ => create_response (tracked_id tracked)
  | _ => error_response (response_written clock) error
  end.

(** The first step: the summary and the id of the envelope. *)
Definition admit_envelope (tracked : Tracked) (envelope : Envelope) : Tracked * result BadStoreRequest Envelope :=
  (MkTracked (tracked_scoping tracked) (Envelope.event_id envelope) (EnvelopeSummary.compute envelope),
   if Envelope.is_empty envelope then Err BadStoreRequest.EmptyEnvelope else Ok envelope).

(** The answer of the project cache. *)
Definition on_check (tracked : Tracked) (answer : option (result ProjectError CheckEnvelopeResponse))
  : Tracked * result BadStoreRequest (Envelope * RateLimits) :=
  match answer with
  | None => (tracked, Err BadStoreRequest.ScheduleFailed)
  | Some (Err e) => (tracked, Err (BadStoreRequest.ProjectFailed e))
  | Some (Ok response) =>
      let tracked := MkTracked (cer_scoping response) (tracked_id tracked) (tracked_summary tracked) in
      match cer_result response with
      | Err reason => (tracked, Err (BadStoreRequest.EventRejected reason))
      | Ok checked =>
          match Projects.envelope checked with
          | None => (tracked, Err (BadStoreRequest.RateLimited (ce_rate_limits checked)))
          | Some envelope =>
              (MkTracked (tracked_scoping tracked) (tracked_id tracked) (EnvelopeSummary.compute envelope),
               if check_envelope_size_limits config envelope then Ok (envelope, ce_rate_limits checked)
               else Err (BadStoreRequest.PayloadError StorePayloadError.Overflow))
          end
      end
  end.

(** Queueing and the test of the limits. *)
Definition on_queue (create_response : option EventId -> HttpResponse) (limits : RateLimits)
  (answer : option (result QueueEnvelopeError (option EventId))) : result BadStoreRequest HttpResponse :=
  match answer with
  | None => Err BadStoreRequest.ScheduleFailed
  | Some (Err e) => Err (BadStoreRequest.QueueFailed e)
  | Some (Ok event_id) =>
      if RateLimits.is_limited (limits_tested clock) limits then Err (BadStoreRequest.RateLimited limits)
      else Ok (create_response event_id)
  end.

(** The chain of futures, with the message that was sent to the envelope manager. *)
Definition run_request (meta : RequestMeta) (extracted : result BadStoreRequest Envelope)
  (create_response : option EventId -> HttpResponse)
  : outcome (Tracked * option HandleEnvelope * result BadStoreRequest HttpResponse) :=
  let tracked := MkTracked (get_partial_scoping meta) None EnvelopeSummary.empty in
  match extracted with
  | Err e => Ret (tracked, None, Err e)
  | Ok envelope =>
      let '(tracked, admitted) := admit_envelope tracked envelope in
      match admitted with
      | Err e => Ret (tracked, None, Err e)
      | Ok envelope =>
          let '(tracked, checked) := on_check tracked (check_cached (meta_public_key meta) envelope) in
          match checked with
          | Err e => Ret (tracked, None, Err e)
          | Ok (envelope, limits) =>
              let sampling_project_key := Sampling.public_key <$> Envelope.trace_context envelope in
              sampled ← sample_trace envelope sampling_project_key true (endpoint_processing_enabled config);
              match sampled with
              | Err rule_id => Ret (tracked, None, Err (BadStoreRequest.TraceSampled rule_id))
              | Ok envelope =>
                  let message := MkHandleEnvelope envelope (meta_public_key meta) sampling_project_key (RequestMeta.start_time meta) in
                  Ret (tracked, Some message, on_queue create_response limits (queue_message message))
              end
          end
      end
  end.

(** [handle_store_like_request]: the response, the outcomes, and the message that was queued. *)
Definition handle_store_like_request (meta : RequestMeta) (extract_envelope : RequestMeta -> outcome (result BadStoreRequest Envelope))
  (create_response : option EventId -> HttpResponse) (emit_rate_limit : bool)
  : outcome (HttpResponse * list TrackOutcome * option HandleEnvelope) :=
  if bool_decide (PROTOCOL_VERSION < RequestMeta.version meta) then
    Ret (error_response (response_written clock) (BadStoreRequest.UnsupportedProtocolVersion (RequestMeta.version meta)), [], None)
  else
    extracted ← extract_envelope meta;
    '(tracked, queued, answer) ← run_request meta extracted create_response;
    match answer with
    | Ok response => Ret (response, [], queued)
    | Err error =>
        Ret (answer_error create_response emit_rate_limit tracked error,
             outcomes_of tracked (client_addr meta) (RequestMeta.start_time meta) error, queued)
    end.

End Handle.

(** ** Routes *)

(** The enumerated loop over the segments. *)
Fixpoint normpath_segments (i : Z) (segments : list string) : string :=
  match segments with
  | [] => ""
  | segment :: segments => "/{multislash" +:+ u64_to_string i +:+ ":/*}" +:+ segment +:+ normpath_segments (i + 1) segments
  end.

(** [trim_matches] on a byte. *)
Fixpoint trim_char_front (c : ascii) (s : string) : string :=
  match s with
  | String a r => if bool_decide (a = c) then trim_char_front c r else s
  | EmptyString => EmptyString
  end.
Fixpoint trim_char_back (c : ascii) (s : string) : string :=
  match s with
  | String a r =>
      match trim_char_back c r with
      | EmptyString => if bool_decide (a = c) then EmptyString else String a EmptyString
      | r => String a r
      end
  | EmptyString => EmptyString
  end.
Definition trim_matches (c : ascii) (s : string) : string := trim_char_back c (trim_char_front c s).

Definition normpath (route : string) : string :=
  normpath_segments 0 (split_on "/" (trim_matches "/" route))
  +:+ (if ends_with "/" route then "{trailing_slash:/+}" else "{trailing_slash:/*}").

(** ** Lemmas: size limits *)

Definition event_like (item : Item) : bool :=
  match Item.ty (Item.headers item) with
  | ItemType.Event | ItemType.Transaction | ItemType.Security | ItemType.RawSecurity | ItemType.FormData => true
  | _ => false
  end.
Definition attachment_like (item : Item) : bool :=
  match Item.ty (Item.headers item) with ItemType.Attachment | ItemType.UnrealReport => true | _ => false end.
Definition session_like (item : Item) : bool :=
  match Item.ty (Item.headers item) with ItemType.Session | ItemType.Sessions => true | _ => false end.

(** The bytes in the items of a kind. *)
Definition bytes_in (p : Item -> bool) (items : list Item) : Z :=
  foldr (fun item n => (if p item then Item.len item else 0) + n) 0 items.
Definition count_in (p : Item -> bool) (items : list Item) : Z :=
  foldr (fun item n => (if p item then 1 else 0) + n) 0 items.

Definition attachments_small (config : EndpointConfig) (items : list Item) : Prop :=
  Forall (fun item => attachment_like item = true -> Item.len item <= max_attachment_size config) items.

(** The limits as they are documented. *)
Definition within_limits (config : EndpointConfig) (items : list Item) : Prop :=
  bytes_in event_like items <= max_event_size config /\ attachments_small config items
  /\ bytes_in attachment_like items <= max_attachments_size config /\ count_in session_like items <= max_session_count config.

(** One round of the loop that goes on. *)
Ltac measured IH :=
  match goal with
  | |- context [measure_items ?c ?items ?x ?y ?z] =>
      specialize (IH x y z); destruct (measure_items c items x y z) as [ [ [? ?] ?]|];
      [destruct IH as [ [= -> -> ->] IH]; split; [repeat apply (f_equal2 pair); lia|constructor; [|exact IH] ]
      |intros HF; inversion HF; subst; by apply IH]
  end.

Lemma measure_items_spec config items : forall e a s,
  match measure_items config items e a s with
  | Some r => r = (e + bytes_in event_like items, a + bytes_in attachment_like items, s + count_in session_like items)
              /\ attachments_small config items
  | None => ~ attachments_small config items
  end.
Proof.
  unfold attachments_small. induction items as [|item items IH]; intros e a s; cbn [measure_items bytes_in count_in foldr].
  - rewrite !Z.add_0_r. by split.
  - fold (bytes_in event_like items) (bytes_in attachment_like items) (count_in session_like items).
    destruct (Item.ty (Item.headers item)) eqn:Hty;
      (eassert (event_like item = _) as He by (unfold event_like; rewrite Hty; reflexivity));
      (eassert (attachment_like item = _) as Ha by (unfold attachment_like; rewrite Hty; reflexivity));
      (eassert (session_like item = _) as Hs by (unfold session_like; rewrite Hty; reflexivity));
      rewrite He, Ha, Hs;
      try (measured IH; cbn beta; intros Hx; congruence);
      (case_bool_decide as Hc; [intros HF; inversion HF as [|? ? Hx]; subst; specialize (Hx Ha); lia|measured IH; cbn beta; lia]).
Qed.

Lemma size_limits_spec config envelope :
  check_envelope_size_limits config envelope = true <-> within_limits config (Envelope.items envelope).
Proof.
  unfold check_envelope_size_limits, within_limits. pose proof (measure_items_spec config (Envelope.items envelope) 0 0 0) as Hm.
  destruct (measure_items _ _ _ _ _) as [ [ [e a] s]|]; [|naive_solver]. destruct Hm as [ [= -> -> ->] Hs].
  rewrite !andb_true_iff, !bool_decide_eq_true. naive_solver.
Qed.

Lemma len_nonneg item : 0 <= Item.len item.
Proof. unfold Item.len. lia. Qed.

Lemma bytes_in_perm p l l' : l ≡ₚ l' -> bytes_in p l = bytes_in p l'.
Proof. unfold bytes_in. induction 1; cbn; lia. Qed.
Lemma count_in_perm p l l' : l ≡ₚ l' -> count_in p l = count_in p l'.
Proof. unfold count_in. induction 1; cbn; lia. Qed.

Lemma bytes_in_filter p f l : bytes_in p (List.filter f l) <= bytes_in p l.
Proof.
  unfold bytes_in. induction l as [|x l IH]; cbn; [lia|]. pose proof (len_nonneg x). destruct (f x); cbn; destruct (p x); lia.
Qed.
Lemma count_in_filter p f l : count_in p (List.filter f l) <= count_in p l.
Proof. unfold count_in. induction l as [|x l IH]; cbn; [lia|]. destruct (f x); cbn; destruct (p x); lia. Qed.

(** An envelope within the limits stays so when items are taken out. *)
Lemma within_limits_filter config f l l' : l' ≡ₚ List.filter f l -> within_limits config l -> within_limits config l'.
Proof.
  intros Hp (He & Hs & Ha & Hc). unfold within_limits.
  rewrite (bytes_in_perm _ _ _ Hp), (bytes_in_perm _ _ _ Hp), (count_in_perm _ _ _ Hp).
  pose proof (bytes_in_filter event_like f l). pose proof (bytes_in_filter attachment_like f l).
  pose proof (count_in_filter session_like f l). split_and!; [lia| |lia|lia].
  unfold attachments_small in *. rewrite Hp. apply List.Forall_forall. intros x [Hx _]%List.filter_In.
  rewrite List.Forall_forall in Hs. by apply Hs.
Qed.

(** ** Lemmas: requests *)

(** The outcomes for what an envelope with these items holds: one for its first event, and
    one for its attachments with their size. *)
Definition outcomes_for `{RequestEnv} (clock : RequestClock) (meta : RequestMeta) (scoping : Scoping) (id : option EventId) (items : list Item)
  (outcome : Outcome) : list TrackOutcome :=
  let summary := expected_summary items in
  let timestamp := UnixTimestamp.instant_to_system_time (outcome_system clock) (outcome_instant clock) (RequestMeta.start_time meta) in
  match EnvelopeSummary.event_category summary with
  | Some category => [MkTrackOutcome timestamp scoping outcome id (client_addr meta) category 1]
  | None => []
  end
  ++ if bool_decide (0 < EnvelopeSummary.attachment_quantity summary)
     then [MkTrackOutcome timestamp scoping outcome id (client_addr meta) DataCategory.Attachment (EnvelopeSummary.attachment_quantity summary)]
     else [].

Lemma no_outcome error : BadStoreRequest.to_outcome error = None <-> exists limits, error = BadStoreRequest.RateLimited limits.
Proof.
  split; [|by intros [? ->] ]. destruct error as [ | |[]| | | | | | | | | | |[]| | | |]; cbn; try done. by eexists.
Qed.

Section Requests.
Context `{FilterEnv, SamplingEnv, RequestEnv, DynamicSampling.ProjectCache, StoreServices} (config : EndpointConfig) (clock : RequestClock).

(** The envelope manager has not taken a message. *)
Definition never_accepted (queued : option HandleEnvelope) : Prop :=
  forall m id, queued = Some m -> queue_message m <> Some (Ok id).

(** What the project left of an envelope, with its scoping and the active limits. *)
Definition left_by_project (meta : RequestMeta) (envelope : Envelope) (scoping : Scoping) (limits : RateLimits) (checked : Envelope) : Prop :=
  check_cached (meta_public_key meta) envelope
  = Some (Ok (MkCheckEnvelopeResponse (Ok (MkCheckedEnvelope (Some checked) limits)) scoping)).

(** What trace sampling says of it. *)
Definition sampled (checked : Envelope) : outcome (result RuleId Envelope) :=
  sample_trace checked (Sampling.public_key <$> Envelope.trace_context checked) true (endpoint_processing_enabled config).

(** Why an envelope was dropped: the error, the scoping known by then and the envelope as it
    was, before the project took limited items out or, in the last three cases, after. *)
Inductive dropped (meta : RequestMeta) (envelope : Envelope) : BadStoreRequest -> Scoping -> Envelope -> Prop :=
| drop_empty :
    Envelope.items envelope = [] -> dropped meta envelope BadStoreRequest.EmptyEnvelope (get_partial_scoping meta) envelope
| drop_unchecked :
    check_cached (meta_public_key meta) envelope = None ->
    dropped meta envelope BadStoreRequest.ScheduleFailed (get_partial_scoping meta) envelope
| drop_no_project e :
    check_cached (meta_public_key meta) envelope = Some (Err e) ->
    dropped meta envelope (BadStoreRequest.ProjectFailed e) (get_partial_scoping meta) envelope
| drop_rejected scoping reason :
    check_cached (meta_public_key meta) envelope = Some (Ok (MkCheckEnvelopeResponse (Err reason) scoping)) ->
    dropped meta envelope (BadStoreRequest.EventRejected reason) scoping envelope
| drop_limited scoping limits :
    check_cached (meta_public_key meta) envelope = Some (Ok (MkCheckEnvelopeResponse (Ok (MkCheckedEnvelope None limits)) scoping)) ->
    dropped meta envelope (BadStoreRequest.RateLimited limits) scoping envelope
| drop_large scoping limits checked :
    left_by_project meta envelope scoping limits checked ->
    ~ within_limits config (Envelope.items checked) ->
    dropped meta envelope (BadStoreRequest.PayloadError StorePayloadError.Overflow) scoping checked
| drop_sampled scoping limits checked rule :
    left_by_project meta envelope scoping limits checked ->
    sampled checked = Ret (Err rule) ->
    dropped meta envelope (BadStoreRequest.TraceSampled rule) scoping checked
| drop_unqueued scoping limits checked message :
    left_by_project meta envelope scoping limits checked ->
    sampled checked = Ret (Ok (he_envelope message)) -> queue_message message = None ->
    dropped meta envelope BadStoreRequest.ScheduleFailed scoping checked
| drop_full scoping limits checked message e :
    left_by_project meta envelope scoping limits checked ->
    sampled checked = Ret (Ok (he_envelope message)) -> queue_message message = Some (Err e) ->
    dropped meta envelope (BadStoreRequest.QueueFailed e) scoping checked.

(** The envelope manager has taken over what the project left of the envelope. *)
Definition taken (meta : RequestMeta) (envelope : Envelope) (limits : RateLimits) (queued : option HandleEnvelope) (id : option EventId) : Prop :=
  exists scoping checked message, left_by_project meta envelope scoping limits checked
    /\ within_limits config (Envelope.items (he_envelope message)) /\ sampled checked = Ret (Ok (he_envelope message))
    /\ queued = Some message /\ queue_message message = Some (Ok id).

(** How the chain of futures ends for an envelope: it was taken, and possibly its limits are
    reported, or dropped with its error and summary. *)
Definition ended (meta : RequestMeta) (envelope : Envelope) (create_response : option EventId -> HttpResponse)
  (tracked : Tracked) (queued : option HandleEnvelope) (answer : result BadStoreRequest HttpResponse) : Prop :=
  tracked_id tracked = Envelope.event_id envelope
  /\ ((exists limits id, taken meta envelope limits queued id
        /\ answer = if RateLimits.is_limited (limits_tested clock) limits then Err (BadStoreRequest.RateLimited limits)
                    else Ok (create_response id))
      \/ exists error held, dropped meta envelope error (tracked_scoping tracked) held /\ never_accepted queued
           /\ answer = Err error /\ tracked_summary tracked = expected_summary (Envelope.items held)).

Lemma never_none : never_accepted None.
Proof. by intros m id ?. Qed.

Lemma run_request_ended meta envelope create_response :
  exists tracked queued answer, run_request config clock meta (Ok envelope) create_response = Ret (tracked, queued, answer)
    /\ ended meta envelope create_response tracked queued answer.
Proof.
  unfold run_request, admit_envelope, ended. destruct (Envelope.is_empty envelope) eqn:Hempty.
  { eexists _, _, _. split; [done|]. split; [done|]. right. eexists _, envelope. cbn. rewrite compute_spec.
    split_and!; [apply drop_empty|apply never_none|done|done]. unfold Envelope.is_empty in Hempty. by destruct (Envelope.items envelope). }
  destruct (check_cached (meta_public_key meta) envelope) as [ [ [ [ [ [checked|] limits]|reason] scoping]|e]|] eqn:Hcheck;
    unfold on_check; cbn [cer_result cer_scoping Projects.envelope ce_rate_limits tracked_scoping tracked_id tracked_summary]; rewrite !compute_spec.
  2-5: eexists _, _, _; split; [done|]; split; [done|]; right; eexists _, envelope; cbn; rewrite ?compute_spec;
    split_and!; [by econstructor|apply never_none|done|done].
  destruct (check_envelope_size_limits config checked) eqn:Hsize.
  2: { eexists _, _, _. split; [done|]. split; [done|]. right. eexists _, checked. cbn.
       split_and!; [eapply drop_large; [done|]|apply never_none|done|done]. rewrite <- size_limits_spec. congruence. }
  apply size_limits_spec in Hsize. fold (sampled checked).
  destruct (sample_trace_keeps_independent_items checked (Sampling.public_key <$> Envelope.trace_context checked) true
              (endpoint_processing_enabled config)) as (r & Hr & Hkeep). fold (sampled checked) in Hr. rewrite Hr. cbn [mbind outcome_bind].
  destruct r as [env|rule].
  2: { eexists _, _, _. split; [done|]. split; [done|]. right. eexists _, checked. cbn.
       split_and!; [by eapply drop_sampled|apply never_none|done|done]. }
  set (m := MkHandleEnvelope env _ _ _). eexists _, _, _. split; [done|]. split; [done|]. unfold on_queue.
  destruct (queue_message m) as [ [id|e]|] eqn:Hq.
  - left. exists limits, id. split; [|done]. exists scoping, checked, m. split_and!; [done| |done..]. cbn.
    destruct Hkeep as [->|(_ & Hp & _)]; [done|]. by eapply within_limits_filter.
  - right. eexists _, checked. cbn. split_and!; [by eapply (drop_full _ _ _ _ _ m)| |done|done]. intros m' id [= <-]. congruence.
  - right. eexists _, checked. cbn. split_and!; [by eapply (drop_unqueued _ _ _ _ _ m)| |done|done]. intros m' id [= <-]. congruence.
Qed.

End Requests.

(** ** Theorems *)

(** C6: Every envelope that is extracted from a request is answered and accounted for.  Either
    the envelope manager has taken over what the project and trace sampling left of it, which
    is within the size limits, no outcome is reported, and the client gets the normal response
    or one about the limits that are active.  Or the manager has not taken it, and for the
    reason of the drop there are outcomes for the first event and the bytes of the attachments that the
    envelope held then, under the scoping known then; only rate limits have none here, since the
    project reports them. *)
Theorem request_accounted `{FilterEnv, SamplingEnv, RequestEnv, DynamicSampling.ProjectCache, StoreServices}
  config clock meta extract_envelope envelope create_response emit_rate_limit :
  RequestMeta.version meta <= PROTOCOL_VERSION -> extract_envelope meta = Ret (Ok envelope) ->
  exists response outcomes queued,
    handle_store_like_request config clock meta extract_envelope create_response emit_rate_limit = Ret (response, outcomes, queued)
  /\ ((exists limits id, taken config meta envelope limits queued id /\ outcomes = []
        /\ response = if RateLimits.is_limited (limits_tested clock) limits && emit_rate_limit
                      then error_response (response_written clock) (BadStoreRequest.RateLimited limits)
                      else create_response (if RateLimits.is_limited (limits_tested clock) limits then Envelope.event_id envelope else id))
      \/ exists error scoping held, dropped config meta envelope error scoping held /\ never_accepted queued
           /\ outcomes = match BadStoreRequest.to_outcome error with
                         | Some outcome => outcomes_for clock meta scoping (Envelope.event_id envelope) (Envelope.items held) outcome
                         | None => []
                         end
           /\ (BadStoreRequest.to_outcome error = None <-> exists limits, error = BadStoreRequest.RateLimited limits)
           /\ response = match error with
                         | BadStoreRequest.TraceSampled _ => create_response (Envelope.event_id envelope)
                         | BadStoreRequest.RateLimited _ =>
                             if emit_rate_limit then error_response (response_written clock) error
                             else create_response (Envelope.event_id envelope)
                         | _ => error_response (response_written clock) error
                         end).
Proof.
  intros Hv He. unfold handle_store_like_request. rewrite bool_decide_eq_false_2 by lia. rewrite He. cbn [mbind outcome_bind].
  destruct (run_request_ended config clock meta envelope create_response) as (tracked & queued & answer & -> & Hid & Hend).
  cbn [mbind outcome_bind]. destruct Hend as [(limits & id & Htaken & ->)|(error & held & Hd & Hn & -> & Hs)].
  - destruct (RateLimits.is_limited _ limits) eqn:Hl; eexists _, _, _; (split; [done|]); left; exists limits, id; rewrite Hl.
    + split_and!; [done|done|]. unfold answer_error. rewrite Hid. by destruct emit_rate_limit.
    + by split_and!.
  - eexists _, _, _. split; [done|]. right. exists error, (tracked_scoping tracked), held.
    split_and!; [done|done| |apply no_outcome|unfold answer_error; by rewrite Hid].
    unfold outcomes_of, outcomes_for. by rewrite Hid, Hs.
Qed.

(** The loop over the items accepts exactly the envelopes within the documented limits: the
    event items together, every attachment, the attachments together and the number of
    sessions. *)
Theorem size_limits_enforced config envelope :
  check_envelope_size_limits config envelope = true <->
  bytes_in event_like (Envelope.items envelope) <= max_event_size config
  /\ (forall item, item ∈ Envelope.items envelope -> attachment_like item = true -> Item.len item <= max_attachment_size config)
  /\ bytes_in attachment_like (Envelope.items envelope) <= max_attachments_size config
  /\ count_in session_like (Envelope.items envelope) <= max_session_count config.
Proof. rewrite size_limits_spec. unfold within_limits, attachments_small. by rewrite Forall_forall. Qed.

(** Failures to extract an envelope have outcomes, but these are never reported: the summary
    of the envelope is still empty. *)
Theorem extraction_failures_silent `{FilterEnv, SamplingEnv, RequestEnv, DynamicSampling.ProjectCache, StoreServices}
  config clock meta extract_envelope error create_response emit_rate_limit :
  extract_envelope meta = Ret (Err error) ->
  exists response, handle_store_like_request config clock meta extract_envelope create_response emit_rate_limit
    = Ret (response, [], None).
Proof.
  intros He. unfold handle_store_like_request. case_bool_decide; [by eexists|]. rewrite He. cbn [mbind outcome_bind].
  unfold run_request. cbn [mbind outcome_bind]. eexists. do 3 f_equal. unfold outcomes_of. cbn.
  by destruct (BadStoreRequest.to_outcome error).
Qed.

(** The status of a response to an error tells whose fault it was. *)
Theorem error_status now error :
  let code := status (error_response now error) in
  400 <= code < 600
  /\ (code = 429 <-> exists limits, error = BadStoreRequest.RateLimited limits)
  /\ (code = 413 <-> error = BadStoreRequest.PayloadError StorePayloadError.Overflow)
  /\ (500 <= code <-> error = BadStoreRequest.ScheduleFailed \/ (exists e, error = BadStoreRequest.ProjectFailed e)
        \/ exists e, error = BadStoreRequest.QueueFailed e).
Proof.
  destruct error as [ | |[]| | | | | | | | | | | |[]| | |]; cbn; split_and!; try lia; split; intros Hx; try done; try (by eauto);
    try (by destruct Hx); try (destruct Hx as [?|[ [? ?]|[? ?] ] ]; done); try lia.
Qed.

(** The id of an event is the one of its event item; without one, that of the event
    attachment, and without one, that of the form data.  A broken event item or event
    attachment rejects the request; broken form data are ignored. *)
Theorem event_id_precedence `{EventIdEnv} items :
  let event := id_of_item (has_type ItemType.Event) event_id_from_json items in
  let attachment := id_of_item is_event_payload event_id_from_msgpack items in
  let form := id_of_item (has_type ItemType.FormData) event_id_from_formdata items in
  match event_id_from_items items with
  | Err e => event = Err e \/ event = Ok None /\ attachment = Err e
  | Ok (Some id) => event = Ok (Some id) \/ event = Ok None /\ (attachment = Ok (Some id) \/ attachment = Ok None /\ form = Ok (Some id))
  | Ok None => event = Ok None /\ attachment = Ok None /\ forall id, form <> Ok (Some id)
  end.
Proof.
  cbn. unfold event_id_from_items. destruct (id_of_item (has_type ItemType.Event) _ items) as [ [id|]|e]; cbn; [by left| |by left].
  destruct (id_of_item is_event_payload _ items) as [ [id|]|e]; cbn; [by right; split; [|left] | |by right].
  destruct (id_of_item (has_type ItemType.FormData) _ items) as [ [id|]|e]; cbn; [by right; split; [|right] |done|done].
Qed.

(** The documentation puts the JSON payload before the separate key; the entries are taken in
    the order they come in, and a payload without an id hides the key behind it. *)
Theorem form_order_decides `{EventIdEnv} json id_text id other rest :
  parse_event_id id_text = Some id -> event_id_from_json json = Ok other ->
  event_id_from_entries (FormDataEntry.MkFormDataEntry "sentry[event_id]" id_text
                         :: FormDataEntry.MkFormDataEntry "sentry" json :: rest) = Ok (Some id)
  /\ event_id_from_entries (FormDataEntry.MkFormDataEntry "sentry" json
                            :: FormDataEntry.MkFormDataEntry "sentry[event_id]" id_text :: rest) = Ok other.
Proof.
  intros Hp Hj. cbn [event_id_from_entries FormDataEntry.key FormDataEntry.value].
  by rewrite (bool_decide_eq_true_2 ("sentry" = "sentry")), (bool_decide_eq_true_2 ("sentry[event_id]" = "sentry[event_id]")),
    (bool_decide_eq_false_2 ("sentry[event_id]" = "sentry")), Hp, Hj by done.
Qed.

(** The patterns of the tests. *)
Example normpath_with_slash : normpath "/api/store/" = "/{multislash0:/*}api/{multislash1:/*}store{trailing_slash:/+}".
Proof. by vm_compute. Qed.
Example normpath_without_slash : normpath "/api/store" = "/{multislash0:/*}api/{multislash1:/*}store{trailing_slash:/*}".
Proof. by vm_compute. Qed.

(** ** Witnesses *)

Section Witnesses.
#[local] Existing Instance exact_env.
#[local] Existing Instance half_env.
#[local] Existing Instance sample_request_env.

Definition no_projects : DynamicSampling.ProjectCache :=
  {| get_cached_project_state _ := None; get_project_state _ := None |}.
#[local] Existing Instance no_projects.

(** A project that accepts envelopes without limits, and a manager that takes or refuses them. *)
Definition example_services (full : bool) : StoreServices := {|
  check_cached key envelope :=
    Some (Ok (MkCheckEnvelopeResponse (Ok (MkCheckedEnvelope (Some envelope) []))
                {| Quota.organization_id := 1; Quota.project_id := 42; Quota.project_key := key; Quota.key_id := None |}));
  queue_message m := Some (if full then Err TooManyEnvelopes else Ok (Envelope.event_id (he_envelope m)));
|}.

Definition example_limits : EndpointConfig := MkEndpointConfig 100 100 100 10 1000 false.
Definition example_clock : RequestClock := MkRequestClock 0 0 0 0.
Definition example_extract (meta : RequestMeta) : outcome (result BadStoreRequest Envelope) :=
  Ret (Ok (Envelope.MkEnvelope (EnvelopeHeaders.MkEnvelopeHeaders (Some 77) meta None None None ∅) [sample_event])).
Definition example_response (id : option EventId) : HttpResponse := plain_response 200 (StoreResponse id).

Lemma request_accounted_witness :
  exists response outcomes queued,
    @handle_store_like_request exact_env half_env sample_request_env no_projects (example_services true) example_limits example_clock
      (sample_meta sample_dsn) example_extract example_response true = Ret (response, outcomes, queued)
    /\ status response = 503 /\ length outcomes = 1%nat.
Proof.
  destruct (@request_accounted exact_env half_env sample_request_env no_projects (example_services true) example_limits example_clock
    (sample_meta sample_dsn) example_extract _ example_response true ltac:(vm_compute; congruence) eq_refl)
    as (response & outcomes & queued & Hrun & Hres).
  exists response, outcomes, queued. split; [exact Hrun|]. destruct Hres as [(limits & id & (scoping & checked & m & _ & _ & _ & _ & Hq) & _)|_]; [discriminate Hq|].
  vm_compute in Hrun. injection Hrun as <- <- _. done.
Defined.

Lemma extraction_failures_silent_witness :
  exists response, @handle_store_like_request exact_env half_env sample_request_env no_projects (example_services false)
    example_limits example_clock (sample_meta sample_dsn) (fun _ => Ret (Err BadStoreRequest.EmptyBody)) example_response true
    = Ret (response, [], None).
Proof. by apply (extraction_failures_silent _ _ _ _ BadStoreRequest.EmptyBody). Defined.

Definition example_ids : EventIdEnv := {|
  read_minimal_json s := Ok (MinimalEvent.MkMinimalEvent (if bool_decide (s = "{}") then None else Some 1) EventType.Default);
  read_minimal_msgpack _ := Err (MkJsonError "none");
  parse_event_id s := Some 2;
|}.

Lemma form_order_decides_witness :
  @event_id_from_entries example_ids
    [FormDataEntry.MkFormDataEntry "sentry" "{}"; FormDataEntry.MkFormDataEntry "sentry[event_id]" "2"] = Ok None.
Proof. exact (proj2 (@form_order_decides example_ids "{}" "2" 2 None [] eq_refl eq_refl)). Defined.

End Witnesses.
