(* ===== verification/StoreEndpoints.v ===== *)
(** * relay-server: the endpoints that take events (endpoints/)

    Every endpoint makes an envelope out of its request: the store endpoint from JSON or an
    envelope, the envelope endpoint, attachments for an event, minidumps and unreal crash
    reports, and security reports.  They share the handling of Endpoints.v. *)

From Stdlib Require Import Ascii String.
From S2P Require Import Prelude Strings Types Common Protocol Quota RateLimit Filters Sampling Extractors Envelopes Native FormData EnvelopeLimiter DynamicSampling Projects Bodies Http Processing EnvelopeManager Endpoints.

Open Scope string_scope.
Open Scope Z_scope.
Open Scope list_scope.

Definition MINIDUMP_FIELD_NAME : string := "upload_file_minidump".
Definition MINIDUMP_FILE_NAME : string := "Minidump".
Definition MINIDUMP_MAGIC_HEADER_LE : string := "MDMP".
Definition MINIDUMP_MAGIC_HEADER_BE : string := "PMDM".
Definition MINIDUMP_RAW_CONTENT_TYPES : list string := ["application/octet-stream"; "application/x-dmp"].

(** [json_forensics], actix' multipart parser on a boundary and a payload, and [from_utf8_lossy]. *)
Class EndpointEnv := {
  translate_slice : string -> string;
  multipart_stream : string -> string -> list (result MultipartError MultipartItem);
  from_utf8_lossy : string -> string;
}.

(** What the endpoints read of a request; [new_event_id] is the id that [EventId::new] gives. *)
Record StoreRequest := MkStoreRequest {
  body_request : BodyRequest;
  event_id_param : option string;
  user_id_param : option string;
  multipart : result MultipartError (list (result MultipartError MultipartItem));
  new_event_id : EventId;
}.

Definition is_get_request (request : StoreRequest) : bool := bool_decide (method (body_request request) = "GET").

(** [for item in items { envelope.add_item(item) }] *)
Definition add_items (envelope : Envelope) (items : list Item) : Envelope := fold_left Envelope.add_item items envelope.

Section Extract.
Context `{BodyEnv, EventIdEnv, EndpointEnv, RequestEnv, JsonCodec ItemHeaders, JsonCodec (EnvelopeHeaders PartialMeta)} (config : EndpointConfig).

Definition parse_request_body (fresh : EventId) (meta : RequestMeta) (data : string) : outcome (result BadStoreRequest Envelope) :=
  r ← Envelope.parse_request fresh data meta;
  Ret match r with Ok envelope => Ok envelope | Err e => Err (BadStoreRequest.InvalidEnvelope e) end.

(** *** store.rs *)

Definition is_legacy_python (meta : RequestMeta) : bool :=
  match RequestMeta.client meta with
  | Some agent => starts_with "raven-python/" agent || starts_with "sentry-python/" agent
  | None => false
  end.

Definition parse_event (fresh : EventId) (meta : RequestMeta) (content_type : ContentType) (data : string)
  : result BadStoreRequest Envelope :=
  let data := if is_legacy_python meta then translate_slice data else data in
  minimal ← minimal_event_from_json data;
  let item_type := ItemType.from_event_type (MinimalEvent.ty minimal) in
  let event_item := Item.set_payload (Item.new item_type) content_type data in
  let event_id := default fresh (MinimalEvent.id minimal) in
  Ok (Envelope.add_item (Envelope.from_request (Some event_id) meta) event_item).

Definition request_content_type (request : StoreRequest) : ContentType :=
  let content_type := content_type (body_request request) in
  if bool_decide (content_type = "") then ContentType.Json else ContentType.from content_type.

Definition store_extract (request : StoreRequest) (meta : RequestMeta) : outcome (result BadStoreRequest Envelope) :=
  match store_body (body_request request) (max_event_size config) with
  | Err e => Ret (Err (BadStoreRequest.PayloadError e))
  | Ok data =>
      if bool_decide (data = "") then Ret (Err BadStoreRequest.EmptyBody)
      else match request_content_type request with
           | ContentType.Envelope => parse_request_body (new_event_id request) meta data
           | content_type => Ret (parse_event (new_event_id request) meta content_type data)
           end
  end.

Definition store_response (request : StoreRequest) (id : option EventId) : HttpResponse :=
  plain_response 200 (if is_get_request request then Pixel else StoreResponse id).

(** *** envelope.rs *)

Definition envelope_extract (request : StoreRequest) (meta : RequestMeta) : outcome (result BadStoreRequest Envelope) :=
  match store_body (body_request request) (max_envelope_size config) with
  | Err e => Ret (Err (BadStoreRequest.PayloadError e))
  | Ok data =>
      if bool_decide (data = "") then Ret (Err BadStoreRequest.EmptyBody)
      else parse_request_body (new_event_id request) meta data
  end.

Definition envelope_response (id : option EventId) : HttpResponse := plain_response 200 (StoreResponse id).

(** *** attachments.rs *)

Definition multipart_items (infer : option string -> AttachmentType) (request : StoreRequest) : result BadStoreRequest (list Item) :=
  match MultipartItems.handle_request from_utf8_lossy
          (MultipartItems.infer_attachment_type (MultipartItems.new (max_attachments_size config)) infer) (multipart request) with
  | Ok items => Ok items
  | Err e => Err (BadStoreRequest.InvalidMultipart e)
  end.

Definition attachments_extract (request : StoreRequest) (meta : RequestMeta) : outcome (result BadStoreRequest Envelope) :=
  Ret (event_id ← ok_or (parse_event_id (default "" (event_id_param request))) BadStoreRequest.InvalidEventId;
       items ← multipart_items (fun _ => AttachmentType.default_) request;
       Ok (add_items (Envelope.from_request (Some event_id) meta) items)).

Definition attachments_response (id : option EventId) : HttpResponse := plain_response 201 NoBody.

(** *** minidump.rs *)

Definition validate_minidump (data : string) : result BadStoreRequest () :=
  if negb (starts_with MINIDUMP_MAGIC_HEADER_LE data) && negb (starts_with MINIDUMP_MAGIC_HEADER_BE data)
  then Err BadStoreRequest.InvalidMinidump else Ok ().

Definition infer_attachment_type (field_name : option string) : AttachmentType :=
  let name := default "" field_name in
  if bool_decide (name = MINIDUMP_FIELD_NAME) then AttachmentType.Minidump
  else if bool_decide (name = ITEM_NAME_BREADCRUMBS1) then AttachmentType.Breadcrumbs
  else if bool_decide (name = ITEM_NAME_BREADCRUMBS2) then AttachmentType.Breadcrumbs
  else if bool_decide (name = ITEM_NAME_EVENT) then AttachmentType.EventPayload
  else AttachmentType.Attachment.

(** The first field of the stream with the name of a minidump. *)
Fixpoint first_minidump (stream : list (result MultipartError MultipartItem)) (max_size : Z) : result MultipartError (option string) :=
  match stream with
  | [] => Ok None
  | Err e :: _ => Err e
  | Ok (Field _ name _ body) :: stream =>
      if bool_decide (name = Some MINIDUMP_FIELD_NAME) then data ← MultipartItems.consume_field body max_size; Ok (Some data)
      else first_minidump stream max_size
  | Ok (Nested _) :: stream => first_minidump stream max_size
  end.

Definition get_embedded_minidump (payload : string) (max_size : Z) : result BadStoreRequest (option string) :=
  match get_multipart_boundary payload with
  | None => Ok None
  | Some boundary =>
      match first_minidump (multipart_stream boundary payload) max_size with
      | Ok data => Ok data
      | Err e => Err (BadStoreRequest.InvalidMultipart e)
      end
  end.

Definition is_minidump (item : Item) : bool :=
  bool_decide (Item.attachment_type (Item.headers item) = Some AttachmentType.Minidump).

Definition raw_minidump (request : StoreRequest) (meta : RequestMeta) : result BadStoreRequest Envelope :=
  match forward_body (body_request request) (max_attachment_size config) with
  | Err _ => Err BadStoreRequest.InvalidMinidump
  | Ok data =>
      _ ← validate_minidump data;
      let item := Item.set_payload (Item.new ItemType.Attachment) ContentType.Minidump data in
      let item := Item.set_attachment_type (Item.set_filename item MINIDUMP_FILE_NAME) AttachmentType.Minidump in
      Ok (Envelope.add_item (Envelope.from_request (Some (new_event_id request)) meta) item)
  end.

(** The minidump among the items, unpacked and moved to the end. *)
Definition unpack_minidump (items : list Item) : outcome (result BadStoreRequest (list Item)) :=
  match Envelope.position is_minidump items with
  | None => Ret (Err BadStoreRequest.MissingMinidump)
  | Some index =>
      '(minidump_item, items) ← Envelope.swap_remove items index;
      Ret (embedded_opt ← get_embedded_minidump (Item.payload minidump_item) (max_attachment_size config);
           let minidump_item := match embedded_opt with
                                | Some embedded => Item.set_payload minidump_item ContentType.Minidump embedded
                                | None => minidump_item
                                end in
           _ ← validate_minidump (Item.payload minidump_item);
           Ok (items ++ [minidump_item]))
  end.

Definition minidump_extract (request : StoreRequest) (meta : RequestMeta) : outcome (result BadStoreRequest Envelope) :=
  if bool_decide (content_type (body_request request) ∈ MINIDUMP_RAW_CONTENT_TYPES) then Ret (raw_minidump request meta)
  else match multipart_items infer_attachment_type request with
       | Err e => Ret (Err e)
       | Ok items =>
           unpacked ← unpack_minidump items;
           Ret (items ← unpacked;
                event_id ← event_id_from_items items;
                Ok (add_items (Envelope.from_request (Some (default (new_event_id request) event_id)) meta) items))
       end.

(** *** unreal.rs *)

Definition unreal_extract (request : StoreRequest) (meta : RequestMeta) : outcome (result BadStoreRequest Envelope) :=
  Ret match forward_body (body_request request) (max_attachments_size config) with
      | Err _ => Err BadStoreRequest.InvalidUnrealReport
      | Ok data =>
          let item := Item.set_payload (Item.new ItemType.UnrealReport) ContentType.OctetStream data in
          let envelope := Envelope.add_item (Envelope.from_request (Some (new_event_id request)) meta) item in
          Ok match user_id_param request with
             | Some user_id => snd (Envelope.set_header envelope UNREAL_USER_HEADER (String_ user_id))
             | None => envelope
             end
      end.

(** *** security_report.rs *)

Record SecurityReportParams := MkSecurityReportParams { sentry_release : option string; sentry_environment : option string }.

Definition set_header_opt (item : Item) (name : string) (value : option string) : Item :=
  match value with Some value => snd (Item.set_header item name (String_ value)) | None => item end.

Definition security_extract (params : SecurityReportParams) (request : StoreRequest) (meta : RequestMeta)
  : outcome (result BadStoreRequest Envelope) :=
  Ret match store_body (body_request request) (max_event_size config) with
      | Err e => Err (BadStoreRequest.PayloadError e)
      | Ok data =>
          if bool_decide (data = "") then Err BadStoreRequest.EmptyBody
          else
            let report_item := Item.set_payload (Item.new ItemType.RawSecurity) ContentType.Json data in
            let report_item := set_header_opt report_item "sentry_release" (sentry_release params) in
            let report_item := set_header_opt report_item "sentry_environment" (sentry_environment params) in
            Ok (Envelope.add_item (Envelope.from_request (Some (new_event_id request)) meta) report_item)
      end.

Definition security_response (id : option EventId) : HttpResponse := plain_response 200 NoBody.

(** [SecurityReportFilter] on type, subtype and suffix of the mime type. *)
Definition security_report_filter (mime_type : option (string * string * option string)) : bool :=
  match mime_type with
  | None => false
  | Some mime =>
      bool_decide (mime ∈ [("application", "json", None); ("application", "csp-report", None);
                           ("application", "expect-ct-report", None); ("application", "expect-ct-report", Some "json");
                           ("application", "expect-staple-report", None)])
  end.

End Extract.

(** ** Lemmas *)

Lemma add_items_items items : forall envelope, Envelope.items (add_items envelope items) = Envelope.items envelope ++ items.
Proof.
  unfold add_items. induction items as [|i items IH]; intros envelope; cbn; [by rewrite app_nil_r|]. rewrite IH. cbn.
  by rewrite <- app_assoc.
Qed.

Lemma add_items_headers items : forall envelope, Envelope.headers (add_items envelope items) = Envelope.headers envelope.
Proof. unfold add_items. induction items as [|i items IH]; intros envelope; cbn; [done|]. by rewrite IH. Qed.

(** The payload starts like a minidump. *)
Definition has_magic (data : string) : Prop :=
  starts_with MINIDUMP_MAGIC_HEADER_LE data = true \/ starts_with MINIDUMP_MAGIC_HEADER_BE data = true.

Lemma validate_minidump_ok data u : validate_minidump data = Ok u -> has_magic data.
Proof.
  unfold validate_minidump, has_magic. destruct (starts_with MINIDUMP_MAGIC_HEADER_LE data); [by left|].
  destruct (starts_with MINIDUMP_MAGIC_HEADER_BE data); [by right|done].
Qed.

(** Cutting a payload off at the largest length keeps how it starts. *)
Lemma prefix_substring p s n : (String.length p <= n)%nat -> String.prefix p s = true -> String.prefix p (substring 0 n s) = true.
Proof.
  revert s n. induction p as [|a p IH]; intros s n Hn Hp; [by destruct (substring 0 n s)|].
  destruct s as [|b s]; [done|]. cbn in Hn, Hp. destruct n as [|n]; [lia|]. cbn.
  destruct (ascii_dec a b); [|done]. apply IH; [lia|done].
Qed.

Lemma set_payload_magic item ct data : has_magic data -> has_magic (Item.payload (Item.set_payload item ct data)).
Proof.
  assert (forall p : string, String.length p = 4%nat -> starts_with p data = true ->
    starts_with p (Item.payload (Item.set_payload item ct data)) = true) as Hp.
  { intros p Hl Hs. pose proof (prefix_length _ _ Hs) as Hlen. cbn. apply prefix_substring; [|done]. unfold u32_max. lia. }
  intros [Hm|Hm]; [left|right]; by apply Hp.
Qed.

Section Extracted.
Context `{BodyEnv, EventIdEnv, EndpointEnv, RequestEnv, JsonCodec ItemHeaders, JsonCodec (EnvelopeHeaders PartialMeta)} (config : EndpointConfig).

(** An envelope whose items need an event has its id. *)
Definition has_id (envelope : Envelope) : Prop :=
  existsb Item.requires_event (Envelope.items envelope) = true -> is_Some (Envelope.event_id envelope).

Lemma parse_request_has_id fresh data meta envelope :
  Envelope.parse_request fresh data meta = Ret (Ok envelope) -> has_id envelope.
Proof.
  unfold Envelope.parse_request. destruct (Envelope.parse_headers data) as [ [ph offset]|]; [|done].
  destruct (EnvelopeHeaders.complete ph meta) as [h|]; [|done]. intros ([items|e] & _ & Hr)%outcome_bind_Ret; [|done].
  injection Hr as <-. unfold has_id, Envelope.event_id. cbn. intros ->. by eexists.
Qed.

Lemma parse_body_has_id fresh data meta envelope :
  parse_request_body fresh meta data = Ret (Ok envelope) -> has_id envelope.
Proof.
  unfold parse_request_body. intros ([env|e] & Hp & Hr)%outcome_bind_Ret; [|done]. injection Hr as <-. by eapply parse_request_has_id.
Qed.

Lemma unpack_minidump_spec items :
  exists r, unpack_minidump config items = Ret r
  /\ match r with
     | Ok unpacked => exists item rest item', items ≡ₚ item :: rest /\ is_minidump item = true /\ unpacked = rest ++ [item']
         /\ Item.attachment_type (Item.headers item') = Some AttachmentType.Minidump
         /\ Item.ty (Item.headers item') = Item.ty (Item.headers item) /\ has_magic (Item.payload item')
     | Err e => (forall item, item ∈ items -> is_minidump item = false) -> e = BadStoreRequest.MissingMinidump
     end.
Proof.
  unfold unpack_minidump. pose proof (position_find is_minidump items) as Hp.
  destruct (Envelope.position is_minidump items) as [i|]; [|by eexists]. destruct Hp as (x & Hi & Hf).
  destruct (swap_remove_spec items i x Hi) as (rest & -> & Hperm). cbn [mbind outcome_bind].
  assert (is_minidump x = true) as Hx by by apply find_Some_spec in Hf.
  eexists. split; [done|]. destruct (get_embedded_minidump _ _) as [embedded|e]; cbn.
  - set (item' := match embedded with Some e => _ | None => x end).
    destruct (validate_minidump (Item.payload item')) as [u|e] eqn:Hv; cbn.
    + exists x, rest, item'. apply bool_decide_eq_true in Hx as Hat.
      split_and!; [done|done|done|by destruct embedded|by destruct embedded|by eapply validate_minidump_ok].
    + intros Hnone. exfalso. rewrite (Hnone x) in Hx; [done|]. by eapply list_elem_of_lookup_2.
  - intros Hnone. exfalso. rewrite (Hnone x) in Hx; [done|]. by eapply list_elem_of_lookup_2.
Qed.

Lemma minidump_extract_total request meta : exists r, minidump_extract config request meta = Ret r.
Proof.
  unfold minidump_extract. case_bool_decide; [by eexists|]. destruct (multipart_items _ _ _) as [items|]; [|by eexists].
  destruct (unpack_minidump_spec items) as (r & -> & _). by eexists.
Qed.

End Extracted.

(** ** Theorems *)

(** The minidump endpoint always answers, and an envelope it makes has an event id and an
    attachment of the type minidump whose payload starts with the magic bytes.  For a form it
    holds all items of the form, with the minidump, unpacked when it was wrapped in a form of
    its own, at the end; a form without a minidump is rejected as such. *)
Theorem minidump_envelopes `{BodyEnv, EventIdEnv, EndpointEnv, RequestEnv, JsonCodec ItemHeaders, JsonCodec (EnvelopeHeaders PartialMeta)}
  (config : EndpointConfig) (request : StoreRequest) (meta : RequestMeta) :
  exists r, minidump_extract config request meta = Ret r
  /\ (forall envelope, r = Ok envelope ->
        is_Some (Envelope.event_id envelope)
        /\ exists rest item, Envelope.items envelope = rest ++ [item] /\ is_minidump item = true /\ has_magic (Item.payload item)
             /\ (content_type (body_request request) ∉ MINIDUMP_RAW_CONTENT_TYPES ->
                 exists items original, multipart_items config infer_attachment_type request = Ok items /\ items ≡ₚ original :: rest
                   /\ is_minidump original = true)
             /\ (content_type (body_request request) ∈ MINIDUMP_RAW_CONTENT_TYPES -> rest = []))
  /\ (forall items, content_type (body_request request) ∉ MINIDUMP_RAW_CONTENT_TYPES ->
        multipart_items config infer_attachment_type request = Ok items ->
        (forall item, item ∈ items -> is_minidump item = false) -> r = Err BadStoreRequest.MissingMinidump).
Proof.
  unfold minidump_extract. case_bool_decide as Hraw.
  - eexists. split; [done|]. split; [|by intros]. intros envelope. unfold raw_minidump.
    destruct (forward_body _ _) as [data|]; [|done]. intros (u & Hv & [= <-])%result_bind_Ok. split; [by eexists|].
    eexists [], _. split_and!; [reflexivity|done|by apply set_payload_magic, (validate_minidump_ok _ u)|done|done].
  - destruct (multipart_items config infer_attachment_type request) as [items|e]; [|by eexists; split_and!].
    destruct (unpack_minidump_spec config items) as (r & -> & Hr). eexists. split; [done|]. split.
    + intros envelope (unpacked & -> & (id & _ & [= <-])%result_bind_Ok)%result_bind_Ok.
      destruct Hr as (x & rest & item' & Hperm & Hx & -> & Hat & _ & Hmagic).
      split; [unfold Envelope.event_id; rewrite add_items_headers; by eexists|].
      exists rest, item'. rewrite add_items_items. split_and!; [done|by apply bool_decide_eq_true|done| |done].
      intros _. by exists items, x.
    + intros items' _ [= <-] Hnone. destruct r as [unpacked|e]; [|by rewrite (Hr Hnone)].
      destruct Hr as (x & rest & ? & Hperm & Hx & _). rewrite (Hnone x) in Hx; [done|]. rewrite Hperm. by left.
Qed.

(** C32: Whichever endpoint an envelope comes from, it has an event id when one of its items
    needs an event, so that its attachments and reports can be stored. *)
Theorem endpoint_envelopes_have_ids
  `{BodyEnv, EventIdEnv, EndpointEnv, RequestEnv, JsonCodec ItemHeaders, JsonCodec (EnvelopeHeaders PartialMeta)}
  (config : EndpointConfig) params (request : StoreRequest) (meta : RequestMeta) (envelope : Envelope) :
  Ret (Ok envelope) ∈ [store_extract config request meta; envelope_extract config request meta; attachments_extract config request meta;
                       minidump_extract config request meta; unreal_extract config request meta; security_extract config params request meta] ->
  existsb Item.requires_event (Envelope.items envelope) = true -> is_Some (Envelope.event_id envelope).
Proof.
  rewrite !elem_of_cons, elem_of_nil. intros [Hs|[Hs|[Hs|[Hs|[Hs|[Hs|[] ] ] ] ] ] ]; symmetry in Hs.
  - unfold store_extract in Hs. destruct (store_body _ _) as [data|]; [|done]. case_bool_decide; [done|].
    assert (forall ct, Ret (parse_event (new_event_id request) meta ct data) = Ret (Ok envelope) -> is_Some (Envelope.event_id envelope)) as Hev.
    { intros ct [= (m & _ & [= <-])%result_bind_Ok]. by eexists. }
    destruct (request_content_type request); try (intros _; by eapply Hev). by eapply parse_body_has_id.
  - unfold envelope_extract in Hs. destruct (store_body _ _) as [data|]; [|done]. case_bool_decide; [done|]. by eapply parse_body_has_id.
  - injection Hs as Hs. apply result_bind_Ok in Hs as (id & _ & (items & _ & [= <-])%result_bind_Ok). intros _.
    unfold Envelope.event_id. rewrite add_items_headers. by eexists.
  - unfold minidump_extract in Hs. case_bool_decide.
    + injection Hs as Hs. unfold raw_minidump in Hs. destruct (forward_body _ _); [|done].
      apply result_bind_Ok in Hs as (u & _ & [= <-]). by eexists.
    + destruct (multipart_items _ _ _) as [items|]; [|done]. apply outcome_bind_Ret in Hs as (r & _ & [= Hs]).
      apply result_bind_Ok in Hs as (l & _ & (id & _ & [= <-])%result_bind_Ok). intros _.
      unfold Envelope.event_id. rewrite add_items_headers. by eexists.
  - unfold unreal_extract in Hs. destruct (forward_body _ _); [|done]. injection Hs as <-. by destruct (user_id_param request); eexists.
  - unfold security_extract in Hs. destruct (store_body _ _); [|done]. case_bool_decide; [done|]. injection Hs as <-. by eexists.
Qed.

(** ** Witnesses *)

Section Witnesses.
#[local] Existing Instance plain_bodies.
#[local] Existing Instance example_ids.
#[local] Existing Instance sample_request_env.
#[local] Existing Instance event_codec.
#[local] Existing Instance partial_codec.
Definition plain_endpoints : EndpointEnv := {| translate_slice s := s; multipart_stream _ _ := []; from_utf8_lossy s := s |}.
#[local] Existing Instance plain_endpoints.

(** A form with a log file and a minidump. *)
Definition minidump_form : StoreRequest :=
  MkStoreRequest (MkBodyRequest "POST" "" "multipart/form-data" None (MkSharedPayload [] false)) None None
    (Ok [Ok (Field "text/plain" (Some "log") (Some "log.txt") [Ok "text"]);
         Ok (Field "application/octet-stream" (Some MINIDUMP_FIELD_NAME) (Some "crash.dmp") [Ok "MDMP"; Ok "..."])]) 9.

Lemma minidump_envelopes_witness :
  exists envelope, minidump_extract example_limits minidump_form (sample_meta sample_dsn) = Ret (Ok envelope)
    /\ is_Some (Envelope.event_id envelope) /\ exists rest item, Envelope.items envelope = rest ++ [item] /\ has_magic (Item.payload item).
Proof.
  destruct (minidump_envelopes example_limits minidump_form (sample_meta sample_dsn)) as (r & Hr & Hok & _).
  destruct r as [envelope|e]; [|by vm_compute in Hr]. destruct (Hok envelope eq_refl) as (Hid & rest & item & Hi & _ & Hm & _).
  exists envelope. split_and!; [exact Hr|exact Hid|]. by exists rest, item.
Defined.

Definition json_request : StoreRequest :=
  MkStoreRequest (MkBodyRequest "POST" "" "application/json" None (MkSharedPayload [Chunk "{}"] false)) None None (Ok []) 9.

Lemma endpoint_envelopes_have_ids_witness :
  exists envelope, store_extract example_limits json_request (sample_meta sample_dsn) = Ret (Ok envelope)
    /\ is_Some (Envelope.event_id envelope).
Proof.
  destruct (store_extract example_limits json_request (sample_meta sample_dsn)) as [ [envelope|e]|] eqn:E; [|by vm_compute in E..].
  exists envelope. split; [done|].
  apply (endpoint_envelopes_have_ids example_limits (MkSecurityReportParams None None) json_request (sample_meta sample_dsn) envelope).
  - rewrite E. by left.
  - vm_compute in E. by injection E as <-.
Defined.

End Witnesses.
