(* ===== verification/RelayConfig.v ===== *)
(** * relay-config: the configuration (config.rs, byte_size.rs; relay-redis: config.rs,
      relay-log: setup.rs)

    The values of the configuration file with their defaults, what the actors read of
    them, overrides from the environment and the command line, and the credentials in
    their file.  The file system is a state; YAML, JSON, sizes in words, addresses and
    identifiers are operations of the classes [ConfigCodec] (for credentials only of the
    texts of their parts, [CredentialsText]), [HumanSize] and
    [OverrideEnv].  The last part shows how the settings of the other components are
    views of this configuration. *)

From Stdlib Require Import Ascii String.
From S2P Require Import Prelude Strings Floats Types Common Protocol Quota Filters Sampling Extractors Envelopes Sessions Auth MetricProtocol Aggregation Aggregator KafkaStore Http Projects Relays.

Open Scope string_scope.
Open Scope Z_scope.
Open Scope list_scope.

(** ** Sizes (byte_size.rs) *)

Module ByteSize.

(** [human_size::Any], with the other units of that package as [Other]. *)
Inductive Any := Byte | Kilobyte | Kibibyte | Megabyte | Mebibyte | Other (name : string).

#[global] Instance Any_eq_dec : EqDecision Any.
Proof. solve_decision. Defined.

(** [human_size::Size]: a number in a unit. *)
Record ByteSize := MkByteSize { value : f64; multiple : Any }.

Definition factor (multiple : Any) : Z :=
  match multiple with
  | Mebibyte => 1024 * 1024
  | Megabyte => 1000 * 1000
  | Kibibyte => 1024
  | Kilobyte => 1000
  | _ => 1
  end.

(** The package: a number in another unit as bytes, and the parser. *)
Class HumanSize := {
  into_bytes : f64 -> Any -> f64;
  size_parse : string -> option ByteSize;
}.

(** A whole number of bytes below [2 ^ 53] is exact. *)
Class HumanSizeLaws {HS : HumanSize} : Prop :=
  into_bytes_exact n u : (forall name, u <> Other name) -> 0 <= n -> n * factor u < 2 ^ 53 ->
    into_bytes (f64_of_Z n) u = f64_of_Z (n * factor u).

(** [Self::multiple(value, multiple)] *)
Definition of_multiple (value : Z) (multiple : Any) : ByteSize := MkByteSize (f64_of_Z value) multiple.

Definition try_multiple (value : Z) (multiple : Any) : option ByteSize :=
  if bool_decide (value mod factor multiple = 0) then Some (of_multiple (value / factor multiple) multiple) else None.

Definition bytes (value : Z) : ByteSize := of_multiple value Byte.
Definition kibibytes (value : Z) : ByteSize := of_multiple value Kibibyte.
Definition mebibytes (value : Z) : ByteSize := of_multiple value Mebibyte.

Definition or_else {A} (a b : option A) : option A := match a with Some _ => a | None => b end.

Definition infer (value : Z) : ByteSize :=
  default (bytes value)
    (or_else (or_else (or_else (try_multiple value Mebibyte) (try_multiple value Megabyte)) (try_multiple value Kibibyte))
       (try_multiple value Kilobyte)).

Definition as_bytes {HS : HumanSize} (self : ByteSize) : Z := trunc_as_u64 (into_bytes (value self) (multiple self)).

Definition from_str {HS : HumanSize} (s : string) : option ByteSize :=
  match parse_u32 s with Some n => Some (bytes n) | None => size_parse s end.

(** The two visitors of [Deserialize]. *)
Definition visit_u64 (value : Z) : option ByteSize := if bool_decide (value <= u32_max) then Some (infer value) else None.
Definition visit_str {HS : HumanSize} (value : string) : option ByteSize := from_str value.

End ByteSize.
Notation ByteSize := ByteSize.ByteSize.

(** ** Errors *)

Module ConfigErrorKind.

Inductive ConfigErrorKind :=
| CouldNotOpenFile | CouldNotWriteFile | BadYaml | BadJson | InvalidValue | ProcessingNotAvailable.

#[global] Instance ConfigErrorKind_eq_dec : EqDecision ConfigErrorKind.
Proof. solve_decision. Defined.

Definition to_string (self : ConfigErrorKind) : string :=
  match self with
  | CouldNotOpenFile => "could not open config file"
  | CouldNotWriteFile => "could not write config file"
  | BadYaml => "could not parse yaml config file"
  | BadJson => "could not parse json config file"
  | InvalidValue => "invalid config value"
  | ProcessingNotAvailable => "was not compiled with processing, cannot enable processing"
  end.

End ConfigErrorKind.
Notation ConfigErrorKind := ConfigErrorKind.ConfigErrorKind.

Module ConfigError.

Inductive ConfigErrorSource := NoSource | File (path : string) | FieldOverride (name : string).

(** Without the cause that [failure] keeps for backtraces. *)
Record ConfigError := MkConfigError { source : ConfigErrorSource; kind : ConfigErrorKind }.

Definition new (kind : ConfigErrorKind) : ConfigError := MkConfigError NoSource kind.
(** [wrap] with the cause left out. *)
Definition file (self : ConfigError) (p : string) : ConfigError := MkConfigError (File p) (kind self).
Definition field (self : ConfigError) (name : string) : ConfigError := MkConfigError (FieldOverride name) (kind self).
Definition for_field (name : string) : ConfigError := field (new ConfigErrorKind.InvalidValue) name.

(** [Display] *)
Definition to_string (self : ConfigError) : string :=
  ConfigErrorKind.to_string (kind self)
  +:+ match source self with
      | NoSource => ""
      | File file_name => " (file " +:+ file_name +:+ ")"
      | FieldOverride name => " (field " +:+ name +:+ ")"
      end.

End ConfigError.
Notation ConfigError := ConfigError.ConfigError.

(** ** Files *)

(** Contents by path, the directories, and the paths that cannot be opened. *)
Record Files := MkFiles {
  contents : gmap string string;
  directories : gset string;
  unreadable : gset string;
  unwritable : gset string;
}.

Definition set_contents (fs : Files) (m : gmap string string) : Files :=
  MkFiles m (directories fs) (unreadable fs) (unwritable fs).
Definition fs_exists (fs : Files) (path : string) : bool :=
  bool_decide (is_Some (contents fs !! path)) || bool_decide (path ∈ directories fs).
Definition fs_read (fs : Files) (path : string) : option string :=
  if bool_decide (path ∈ unreadable fs) then None else contents fs !! path.
(** Files that cannot be opened for writing or removed. *)
Definition blocked (fs : Files) (path : string) : bool :=
  bool_decide (path ∈ unwritable fs) || bool_decide (path ∈ directories fs).
(** [OpenOptions] with write, truncate and create. *)
Definition fs_truncate (fs : Files) (path : string) : option Files :=
  if blocked fs path then None else Some (set_contents fs (<[path := ""]> (contents fs))).
Definition fs_write (fs : Files) (path text : string) : Files := set_contents fs (<[path := text]> (contents fs)).
Definition fs_remove (fs : Files) (path : string) : option Files :=
  if blocked fs path then None else Some (set_contents fs (delete path (contents fs))).
Definition fs_create_dir_all (fs : Files) (path : string) : option Files :=
  if bool_decide (path ∈ unwritable fs) then None
  else Some (MkFiles (contents fs) ({[path]} ∪ directories fs) (unreadable fs) (unwritable fs)).

(** [Path::join] on Unix. *)
Definition path_join (base path : string) : string :=
  if starts_with "/" path then path
  else if bool_decide (base = "") then path
  else if ends_with "/" base then base +:+ path
  else base +:+ "/" +:+ path.

Module ConfigFormat.
Inductive ConfigFormat := Yaml | Json.
Definition extension (self : ConfigFormat) : string := match self with Yaml => "yml" | Json => "json" end.
End ConfigFormat.
Notation ConfigFormat := ConfigFormat.ConfigFormat.

(** serde with serde_yaml and serde_json: an object out of a text, and the text that was
    written for an object with whether all of it was. *)
Class ConfigCodec (T : Type) := {
  read_object : string -> option T;
  write_object : T -> string * bool;
}.

(** What was written completely is read back, whatever whitespace ends it. *)
Class ConfigCodecLaws (T : Type) {CC : ConfigCodec T} : Prop :=
  read_written t s : write_object t = (s, true) -> read_object (s +:+ String (byte 10) "") = Some t.

Class ConfigObject (T : Type) := {
  object_format : ConfigFormat;
  object_name : string;
}.

Section ConfigObject.
Context (T : Type) {CO : ConfigObject T} {CC : ConfigCodec T}.

Definition object_path (base : string) : string :=
  path_join base (object_name (T := T) +:+ "." +:+ ConfigFormat.extension (object_format (T := T))).

Definition load (fs : Files) (base : string) : result ConfigError T :=
  let path := object_path base in
  match fs_read fs path with
  | None => Err (ConfigError.file (ConfigError.new ConfigErrorKind.CouldNotOpenFile) path)
  | Some text =>
      ok_or (read_object text)
        (ConfigError.file (ConfigError.new match object_format (T := T) with
                                           | ConfigFormat.Yaml => ConfigErrorKind.BadYaml
                                           | ConfigFormat.Json => ConfigErrorKind.BadJson
                                           end) path)
  end.

(** The files change also when writing fails: the file was truncated before. *)
Definition save (fs : Files) (self : T) (base : string) : Files * result ConfigError () :=
  let path := object_path base in
  let error := ConfigError.file (ConfigError.new ConfigErrorKind.CouldNotWriteFile) path in
  match fs_truncate fs path with
  | None => (fs, Err error)
  | Some fs =>
      let '(text, complete) := write_object self in
      if complete then (fs_write fs path (text +:+ String (byte 10) ""), Ok ()) else (fs_write fs path text, Err error)
  end.

End ConfigObject.

(** ** Values *)

Record OverridableConfig := MkOverridableConfig {
  o_upstream : option string;
  o_host : option string;
  o_port : option string;
  o_processing : option string;
  o_kafka_url : option string;
  o_redis_url : option string;
  o_id : option string;
  o_secret_key : option string;
  o_public_key : option string;
  o_outcome_source : option string;
}.

Module Credentials.

Record Credentials `{Ed25519} := MkCredentials { secret_key : SecretKey; public_key : PublicKey; id : RelayId }.

(** [PartialEq]: keys are compared by their bytes. *)
Definition eqb `{Ed25519} (a b : Credentials) : bool :=
  SecretKey.eqb (secret_key a) (secret_key b) && PublicKey.eqb (public_key a) (public_key b) && bool_decide (id a = id b).

(** [generate]: the random key and identifier are arguments. *)
Definition generate `{Ed25519} (secret : EdSecret) (relay_id : RelayId) : outcome Credentials :=
  '(sk, pk) ← generate_key_pair secret; Ret (MkCredentials _ sk pk relay_id).

End Credentials.
Notation Credentials := Credentials.Credentials.

#[export] Instance credentials_object `{Ed25519} : ConfigObject Credentials :=
  {| object_format := ConfigFormat.Json; object_name := "credentials" |}.

(** The derived serialization: keys as their text ([impl_str_serde] with [Display] and
    [FromStr]), the identifier as uuid has it. *)
Record CredentialsText := MkCredentialsText { text_secret_key : string; text_public_key : string; text_id : RelayId }.

#[export] Instance credentials_codec `{Ed25519, Base64} {CT : ConfigCodec CredentialsText} : ConfigCodec Credentials := {|
  read_object s :=
    t ← read_object s;
    secret_key ← res_ok (SecretKey.from_str (text_secret_key t));
    public_key ← res_ok (PublicKey.from_str (text_public_key t));
    Some (Credentials.MkCredentials _ secret_key public_key (text_id t));
  write_object c :=
    write_object (MkCredentialsText (SecretKey.fmt (Credentials.secret_key c) false)
                    (PublicKey.to_string (Credentials.public_key c)) (Credentials.id c));
|}.

Definition relay_mode_to_string (self : RelayMode) : string :=
  match self with
  | RelayMode.Proxy => "proxy"
  | RelayMode.Static => "static"
  | RelayMode.Managed => "managed"
  | RelayMode.Capture => "capture"
  end.

(** [is_docker] looks at two files. *)
Definition is_docker (fs : Files) : bool :=
  fs_exists fs "/.dockerenv"
  || match fs_read fs "/proc/self/cgroup" with Some s => str_contains "/docker" s | None => false end.
Definition default_host (fs : Files) : IpAddr := if is_docker fs then "0.0.0.0" else "127.0.0.1".

Module ReadinessCondition.
Inductive ReadinessCondition := Authenticated | Always.
#[global] Instance ReadinessCondition_eq_dec : EqDecision ReadinessCondition.
Proof. solve_decision. Defined.
Definition default_ : ReadinessCondition := Authenticated.
Definition is_default (self : ReadinessCondition) : bool := bool_decide (self = default_).
End ReadinessCondition.
Notation ReadinessCondition := ReadinessCondition.ReadinessCondition.

(** The structures of the file; ports are [u16], sizes and seconds unsigned integers. *)
Module Relay.
Record Relay := MkRelay {
  mode : RelayMode;
  upstream : UpstreamDescriptor;
  host : IpAddr;
  port : Z;
  tls_port : option Z;
  tls_identity_path : option string;
  tls_identity_password : option string;
}.
Definition default_ (fs : Files) : Relay :=
  MkRelay RelayMode.Managed Upstream.default_ (default_host fs) 3000 None None None.
End Relay.
Notation Relay := Relay.Relay.

Module Metrics.
Record Metrics := MkMetrics {
  statsd : option string;
  prefix : string;
  default_tags : gmap string string;
  hostname_tag : option string;
  buffering : bool;
  sample_rate : f64;
}.
Definition default_ : Metrics := MkMetrics None "sentry.relay" ∅ None true (f64_of_Z 1).
End Metrics.
Notation Metrics := Metrics.Metrics.

Module Limits.
Record Limits := MkLimits {
  max_concurrent_requests : Z;
  max_concurrent_queries : Z;
  max_event_size : ByteSize;
  max_attachment_size : ByteSize;
  max_attachments_size : ByteSize;
  max_envelope_size : ByteSize;
  max_session_count : Z;
  max_api_payload_size : ByteSize;
  max_api_file_upload_size : ByteSize;
  max_api_chunk_upload_size : ByteSize;
  max_thread_count : Z;
  query_timeout : Z;
  max_connection_rate : Z;
  max_pending_connections : Z;
  max_connections : Z;
  shutdown_timeout : Z;
}.
(** [num_cpus::get()] is an argument. *)
Definition default_ (num_cpus : Z) : Limits :=
  MkLimits 100 5 (ByteSize.mebibytes 1) (ByteSize.mebibytes 100) (ByteSize.mebibytes 100) (ByteSize.mebibytes 100) 100
    (ByteSize.mebibytes 20) (ByteSize.mebibytes 40) (ByteSize.mebibytes 100) num_cpus 30 256 2048 25000 10.
End Limits.
Notation Limits := Limits.Limits.

Definition DEFAULT_NETWORK_OUTAGE_GRACE_PERIOD : Z := 10.

Module HttpValues.
(** [struct Http] *)
Record Http := MkHttp {
  timeout : Z;
  connection_timeout : Z;
  max_retry_interval : Z;
  host_header : option string;
  auth_interval : option Z;
  outage_grace_period : Z;
  encoding : HttpEncoding;
}.
Definition default_ : Http := MkHttp 5 3 60 None (Some 600) DEFAULT_NETWORK_OUTAGE_GRACE_PERIOD HttpEncoding.Gzip.
End HttpValues.

Module Cache.
Record Cache := MkCache {
  project_expiry : Z;
  project_grace_period : Z;
  relay_expiry : Z;
  envelope_expiry : Z;
  envelope_buffer_size : Z;
  miss_expiry : Z;
  batch_interval : Z;
  batch_size : Z;
  file_interval : Z;
  eviction_interval : Z;
}.
Definition default_ : Cache := MkCache 300 0 3600 600 1000 60 100 500 10 60.
End Cache.
Notation Cache := Cache.Cache.

Definition default_topics : TopicNames :=
  MkTopicNames "ingest-events" "ingest-attachments" "ingest-transactions" "outcomes" "ingest-sessions" "ingest-metrics".

Module RedisConfig.
Inductive RedisConfig := Cluster (cluster_nodes : list string) | Single (url : string).
End RedisConfig.
Notation RedisConfig := RedisConfig.RedisConfig.

Record KafkaConfigParam := MkKafkaConfigParam { param_name : string; param_value : string }.

Module Processing.
Record Processing := MkProcessing {
  enabled : bool;
  geoip_path : option string;
  max_secs_in_future : Z;
  max_secs_in_past : Z;
  max_session_secs_in_past : Z;
  kafka_config : list KafkaConfigParam;
  topics : TopicNames;
  redis : option RedisConfig;
  attachment_chunk_size : ByteSize;
  projectconfig_cache_prefix : string;
  max_rate_limit : option Z;
  internal_projects : list ProjectId;
}.
Definition default_max_secs_in_future : Z := 60.
Definition default_max_secs_in_past : Z := 30 * 24 * 3600.
Definition default_max_session_secs_in_past : Z := 5 * 24 * 3600.
Definition default_chunk_size : ByteSize := ByteSize.mebibytes 1.
Definition default_projectconfig_cache_prefix : string := "relayconfig".
Definition default_max_rate_limit : option Z := Some 300.
Definition default_ : Processing :=
  MkProcessing false None default_max_secs_in_future default_max_secs_in_past default_max_session_secs_in_past [] default_topics
    None default_chunk_size default_projectconfig_cache_prefix default_max_rate_limit [].
Definition set_enabled (self : Processing) (v : bool) : Processing :=
  MkProcessing v (geoip_path self) (max_secs_in_future self) (max_secs_in_past self) (max_session_secs_in_past self)
    (kafka_config self) (topics self) (redis self) (attachment_chunk_size self) (projectconfig_cache_prefix self)
    (max_rate_limit self) (internal_projects self).
Definition set_redis (self : Processing) (v : option RedisConfig) : Processing :=
  MkProcessing (enabled self) (geoip_path self) (max_secs_in_future self) (max_secs_in_past self)
    (max_session_secs_in_past self) (kafka_config self) (topics self) v (attachment_chunk_size self)
    (projectconfig_cache_prefix self) (max_rate_limit self) (internal_projects self).
Definition set_kafka_config (self : Processing) (v : list KafkaConfigParam) : Processing :=
  MkProcessing (enabled self) (geoip_path self) (max_secs_in_future self) (max_secs_in_past self)
    (max_session_secs_in_past self) v (topics self) (redis self) (attachment_chunk_size self)
    (projectconfig_cache_prefix self) (max_rate_limit self) (internal_projects self).
End Processing.
Notation Processing := Processing.Processing.

Module Outcomes.
Record Outcomes := MkOutcomes { emit_outcomes : bool; batch_size : Z; batch_interval : Z; source : option string }.
Definition default_ : Outcomes := MkOutcomes false 1000 500 None.
End Outcomes.
Notation Outcomes := Outcomes.Outcomes.

(** relay-log *)
Module LogConfig.
Inductive LevelFilter := Off | Error | Warn | Info | Debug | Trace.
Inductive LogFormat := Auto | Pretty | Simplified | Json.
Record LogConfig := MkLogConfig { level : LevelFilter; format : LogFormat; enable_backtraces : bool }.
Definition default_ : LogConfig := MkLogConfig Info Auto false.
(** The DSN by its text. *)
Record SentryConfig := MkSentryConfig { dsn : option string; sentry_enabled : bool }.
Definition default_sentry : SentryConfig :=
  MkSentryConfig (Some "https://0cc4a37e5aab4da58366266a87a95740@sentry.io/1269704") false.
End LogConfig.

Module AuthConfig.
Record AuthConfig `{Ed25519} := MkAuthConfig { ready : ReadinessCondition; static_relays : gmap RelayId RelayInfo }.
Definition default_ `{Ed25519} : AuthConfig := MkAuthConfig _ ReadinessCondition.default_ ∅.
End AuthConfig.
Notation AuthConfig := AuthConfig.AuthConfig.

Module ConfigValues.
Record ConfigValues `{Ed25519} := MkConfigValues {
  relay : Relay;
  http : HttpValues.Http;
  cache : Cache;
  limits : Limits;
  logging : LogConfig.LogConfig;
  metrics : Metrics;
  sentry : LogConfig.SentryConfig;
  processing : Processing;
  outcomes : Outcomes;
  aggregator : AggregatorConfig;
  auth : AuthConfig;
}.
Definition default_ `{Ed25519} (fs : Files) (num_cpus : Z) : ConfigValues :=
  MkConfigValues _ (Relay.default_ fs) HttpValues.default_ Cache.default_ (Limits.default_ num_cpus) LogConfig.default_
    Metrics.default_ LogConfig.default_sentry Processing.default_ Outcomes.default_ AggregatorConfig.default_
    AuthConfig.default_.
Definition set_relay `{Ed25519} (self : ConfigValues) (v : Relay) : ConfigValues :=
  MkConfigValues _ v (http self) (cache self) (limits self) (logging self) (metrics self) (sentry self) (processing self)
    (outcomes self) (aggregator self) (auth self).
Definition set_processing `{Ed25519} (self : ConfigValues) (v : Processing) : ConfigValues :=
  MkConfigValues _ (relay self) (http self) (cache self) (limits self) (logging self) (metrics self) (sentry self) v
    (outcomes self) (aggregator self) (auth self).
Definition set_outcomes `{Ed25519} (self : ConfigValues) (v : Outcomes) : ConfigValues :=
  MkConfigValues _ (relay self) (http self) (cache self) (limits self) (logging self) (metrics self) (sentry self)
    (processing self) v (aggregator self) (auth self).
End ConfigValues.
Notation ConfigValues := ConfigValues.ConfigValues.

#[export] Instance values_object `{Ed25519} : ConfigObject ConfigValues :=
  {| object_format := ConfigFormat.Yaml; object_name := "config" |}.

(** [MinimalConfig], by its only field. *)
Record MinimalConfig := MkMinimalConfig { minimal_relay : Relay }.
#[export] Instance minimal_object : ConfigObject MinimalConfig :=
  {| object_format := ConfigFormat.Yaml; object_name := "config" |}.

Definition save_in_folder {CC : ConfigCodec MinimalConfig} (fs : Files) (self : MinimalConfig) (p : string)
  : Files * result ConfigError () :=
  if fs_exists fs p then save MinimalConfig fs self p
  else match fs_create_dir_all fs p with
       | None => (fs, Err (ConfigError.file (ConfigError.new ConfigErrorKind.CouldNotOpenFile) p))
       | Some fs => save MinimalConfig fs self p
       end.

(** ** The configuration *)

Module Config.
Record Config `{Ed25519} := MkConfig { values : ConfigValues; credentials : option Credentials; path : string }.
Definition default_ `{Ed25519} (fs : Files) (num_cpus : Z) : Config :=
  MkConfig _ (ConfigValues.default_ fs num_cpus) None "".
Definition set_values `{Ed25519} (self : Config) (v : ConfigValues) : Config := MkConfig _ v (credentials self) (path self).
Definition set_credentials `{Ed25519} (self : Config) (v : option Credentials) : Config :=
  MkConfig _ (values self) v (path self).
End Config.
Notation Config := Config.Config.

(** [IpAddr::from_str] and [Uuid::parse_str] *)
Class OverrideEnv := {
  parse_host : string -> option IpAddr;
  uuid_parse_str : string -> option RelayId;
}.

(** [Duration::from_millis] *)
Definition duration_from_millis (ms : Z) : Duration := ms * 1000000.

Section Config.
Context `{ED : Ed25519} {B64 : Base64} {UP : UrlParser} {CV : ConfigCodec ConfigValues} {CT : ConfigCodec CredentialsText}.
Context {HS : ByteSize.HumanSize} {OE : OverrideEnv}.

Definition relay (self : Config) : Relay := ConfigValues.relay (Config.values self).
Definition http (self : Config) : HttpValues.Http := ConfigValues.http (Config.values self).
Definition cache (self : Config) : Cache := ConfigValues.cache (Config.values self).
Definition limits (self : Config) : Limits := ConfigValues.limits (Config.values self).
Definition processing (self : Config) : Processing := ConfigValues.processing (Config.values self).
Definition outcomes (self : Config) : Outcomes := ConfigValues.outcomes (Config.values self).
Definition set_relay (self : Config) (v : Relay) : Config :=
  Config.set_values self (ConfigValues.set_relay (Config.values self) v).
Definition set_processing (self : Config) (v : Processing) : Config :=
  Config.set_values self (ConfigValues.set_processing (Config.values self) v).

Definition processing_enabled (self : Config) : bool := Processing.enabled (processing self).

(** [from_path]: the current directory, when there is one, and whether the binary has the
    processing feature are arguments. *)
Definition from_path (current_dir : option string) (feature : bool) (fs : Files) (p : string) : result ConfigError Config :=
  let path := match current_dir with Some dir => path_join dir p | None => p end in
  values ← load ConfigValues fs path;
  credentials ← (if fs_exists fs (object_path Credentials path) then Some <$> load Credentials fs path else Ok None);
  let config := Config.MkConfig _ values credentials path in
  if negb feature && processing_enabled config
  then Err (ConfigError.file (ConfigError.new ConfigErrorKind.ProcessingNotAvailable) path)
  else Ok config.

(** *** Overrides *)

(** The method changes the configuration until the first error. *)
Definition override (A : Type) : Type := Config -> Config * result ConfigError A.
#[local] Instance override_ret : MRet override := fun A a self => (self, Ok a).
#[local] Instance override_bind : MBind override := fun A B f m self =>
  match m self with (self, Ok a) => f a self | (self, Err e) => (self, Err e) end.

(** [if let Some(..)] with a parser; without a value, [None]. *)
Definition parse_field {A} (parse : string -> option A) (field : string) (o : option string) : override (option A) := fun self =>
  match o with
  | None => (self, Ok None)
  | Some s => (self, match parse s with Some a => Ok (Some a) | None => Err (ConfigError.for_field field) end)
  end.
(** A change by the value, if there is one. *)
Definition change {A} (f : A -> Config -> Config) (o : option A) : override () := fun self =>
  (match o with Some a => f a self | None => self end, Ok ()).

Definition set_upstream (v : UpstreamDescriptor) (self : Config) : Config :=
  set_relay self (Relay.MkRelay (Relay.mode (relay self)) v (Relay.host (relay self)) (Relay.port (relay self))
    (Relay.tls_port (relay self)) (Relay.tls_identity_path (relay self)) (Relay.tls_identity_password (relay self))).
Definition set_host (v : IpAddr) (self : Config) : Config :=
  set_relay self (Relay.MkRelay (Relay.mode (relay self)) (Relay.upstream (relay self)) v (Relay.port (relay self))
    (Relay.tls_port (relay self)) (Relay.tls_identity_path (relay self)) (Relay.tls_identity_password (relay self))).
Definition set_port (v : Z) (self : Config) : Config :=
  set_relay self (Relay.MkRelay (Relay.mode (relay self)) (Relay.upstream (relay self)) (Relay.host (relay self)) v
    (Relay.tls_port (relay self)) (Relay.tls_identity_path (relay self)) (Relay.tls_identity_password (relay self))).

(** Lower-casing beyond ASCII gives none of these words. *)
Definition parse_enabled (s : string) : option bool :=
  let s := to_ascii_lowercase s in
  if bool_decide (s = "true") || bool_decide (s = "1") then Some true
  else if bool_decide (s = "false") || bool_decide (s = "0") || bool_decide (s = "") then Some false
  else None.
Definition set_enabled (v : bool) (self : Config) : Config := set_processing self (Processing.set_enabled (processing self) v).
Definition set_redis (v : string) (self : Config) : Config :=
  set_processing self (Processing.set_redis (processing self) (Some (RedisConfig.Single v))).

(** The first parameter of the name is changed, or one is added. *)
Fixpoint set_param (name v : string) (params : list KafkaConfigParam) : list KafkaConfigParam :=
  match params with
  | [] => [MkKafkaConfigParam name v]
  | param :: params =>
      if bool_decide (param_name param = name) then MkKafkaConfigParam (param_name param) v :: params
      else param :: set_param name v params
  end.
Definition set_kafka_url (v : string) (self : Config) : Config :=
  set_processing self
    (Processing.set_kafka_config (processing self) (set_param "bootstrap.servers" v (Processing.kafka_config (processing self)))).

Definition set_outcome_source (v : string) (self : Config) : Config :=
  Config.set_values self
    (ConfigValues.set_outcomes (Config.values self)
       (Outcomes.MkOutcomes (Outcomes.emit_outcomes (outcomes self)) (Outcomes.batch_size (outcomes self))
          (Outcomes.batch_interval (outcomes self)) (Some v))).

Definition override_credentials (id : option RelayId) (public_key : option PublicKey) (secret_key : option SecretKey)
  : override () := fun self =>
  match Config.credentials self with
  | Some c =>
      (Config.set_credentials self
         (Some (Credentials.MkCredentials _ (default (Credentials.secret_key c) secret_key)
                  (default (Credentials.public_key c) public_key) (default (Credentials.id c) id))), Ok ())
  | None =>
      match id, public_key, secret_key with
      | Some id, Some public_key, Some secret_key =>
          (Config.set_credentials self (Some (Credentials.MkCredentials _ secret_key public_key id)), Ok ())
      | None, None, None => (self, Ok ())
      | _, _, _ => (self, Err (ConfigError.for_field "incomplete credentials"))
      end
  end.

Definition parse_port : string -> option Z := parse_uint 65535.
Definition parse_upstream (s : string) : option UpstreamDescriptor := res_ok (Upstream.from_str s).
Definition parse_public (s : string) : option PublicKey := res_ok (PublicKey.from_str s).
Definition parse_secret (s : string) : option SecretKey := res_ok (SecretKey.from_str s).

Definition apply_override (overrides : OverridableConfig) : override () :=
  upstream ← parse_field parse_upstream "upstream" (o_upstream overrides);
  _ ← change set_upstream upstream;
  host ← parse_field parse_host "host" (o_host overrides);
  _ ← change set_host host;
  port ← parse_field parse_port "port" (o_port overrides);
  _ ← change set_port port;
  enabled ← parse_field parse_enabled "processing" (o_processing overrides);
  _ ← change set_enabled enabled;
  _ ← change set_redis (o_redis_url overrides);
  _ ← change set_kafka_url (o_kafka_url overrides);
  id ← parse_field uuid_parse_str "id" (o_id overrides);
  public_key ← parse_field parse_public "public_key" (o_public_key overrides);
  secret_key ← parse_field parse_secret "secret_key" (o_secret_key overrides);
  _ ← change set_outcome_source (o_outcome_source overrides);
  override_credentials id public_key secret_key.

(** *** Credentials *)

Definition config_exists (fs : Files) (p : string) : bool := fs_exists fs (object_path ConfigValues p).
Definition has_credentials (self : Config) : bool := bool_decide (is_Some (Config.credentials self)).

(** [regenerate_credentials], with what [generate] draws. *)
Definition regenerate_credentials (secret : EdSecret) (id : RelayId) (fs : Files) (self : Config)
  : outcome (Files * Config * result ConfigError ()) :=
  creds ← Credentials.generate secret id;
  Ret (let '(fs, r) := save Credentials fs creds (Config.path self) in
       (fs, match r with Ok _ => Config.set_credentials self (Some creds) | Err _ => self end, r)).

Definition same_credentials (a b : option Credentials) : bool :=
  match a, b with Some a, Some b => Credentials.eqb a b | None, None => true | _, _ => false end.

(** Removes the file of the credentials if there is one. *)
Definition remove_credentials (fs : Files) (path : string) : Files * result ConfigError () :=
  if fs_exists fs path then
    match fs_remove fs path with
    | Some fs => (fs, Ok ())
    | None => (fs, Err (ConfigError.file (ConfigError.new ConfigErrorKind.CouldNotWriteFile) path))
    end
  else (fs, Ok ()).

Definition replace_credentials (fs : Files) (self : Config) (credentials : option Credentials)
  : Files * Config * result ConfigError bool :=
  if same_credentials (Config.credentials self) credentials then (fs, self, Ok false)
  else
    let '(fs, r) := match credentials with
                    | Some creds => save Credentials fs creds (Config.path self)
                    | None => remove_credentials fs (object_path Credentials (Config.path self))
                    end in
    match r with
    | Ok _ => (fs, Config.set_credentials self credentials, Ok true)
    | Err e => (fs, self, Err e)
    end.

Definition secret_key (self : Config) : option SecretKey := Credentials.secret_key <$> Config.credentials self.
Definition public_key (self : Config) : option PublicKey := Credentials.public_key <$> Config.credentials self.
Definition relay_id (self : Config) : option RelayId := Credentials.id <$> Config.credentials self.

(** *** What the components read *)

Definition relay_mode (self : Config) : RelayMode := Relay.mode (relay self).
Definition upstream_descriptor (self : Config) : UpstreamDescriptor := Relay.upstream (relay self).
Definition http_host_header (self : Config) : option string := HttpValues.host_header (http self).
Definition listen_addr (self : Config) : IpAddr * Z := (Relay.host (relay self), Relay.port (relay self)).
Definition tls_listen_addr (self : Config) : option (IpAddr * Z) :=
  match Relay.tls_identity_path (relay self) with
  | Some _ => Some (Relay.host (relay self), default 3443 (Relay.tls_port (relay self)))
  | None => None
  end.
Definition requires_auth (self : Config) : bool :=
  match AuthConfig.ready (ConfigValues.auth (Config.values self)) with
  | ReadinessCondition.Authenticated => match relay_mode self with RelayMode.Managed => true | _ => false end
  | ReadinessCondition.Always => false
  end.
Definition http_auth_interval (self : Config) : option Duration :=
  if processing_enabled self then None
  else match HttpValues.auth_interval (http self) with
       | None => None
       | Some secs => if bool_decide (secs = 0) then None else Some (duration_from_secs secs)
       end.
Definition http_outage_grace_period (self : Config) : Duration := duration_from_secs (HttpValues.outage_grace_period (http self)).
Definition http_encoding (self : Config) : HttpEncoding := HttpValues.encoding (http self).
Definition emit_outcomes (self : Config) : bool := Outcomes.emit_outcomes (outcomes self) || processing_enabled self.
Definition outcome_batch_size (self : Config) : Z := Outcomes.batch_size (outcomes self).
Definition outcome_batch_interval (self : Config) : Duration := duration_from_millis (Outcomes.batch_interval (outcomes self)).
Definition outcome_source (self : Config) : option string := Outcomes.source (outcomes self).
(** [to_socket_addrs] is an argument. *)
Definition statsd_addrs (to_socket_addrs : string -> option (list (IpAddr * Z))) (self : Config)
  : result ConfigError (list (IpAddr * Z)) :=
  match Metrics.statsd (ConfigValues.metrics (Config.values self)) with
  | Some addr => ok_or (to_socket_addrs addr)
                   (ConfigError.file (ConfigError.new ConfigErrorKind.InvalidValue) (Config.path self))
  | None => Ok []
  end.
Definition http_timeout (self : Config) : Duration := duration_from_secs (HttpValues.timeout (http self)).
Definition http_connection_timeout (self : Config) : Duration := duration_from_secs (HttpValues.connection_timeout (http self)).
Definition http_max_retry_interval (self : Config) : Duration := duration_from_secs (HttpValues.max_retry_interval (http self)).
Definition project_cache_expiry (self : Config) : Duration := duration_from_secs (Cache.project_expiry (cache self)).
Definition relay_cache_expiry (self : Config) : Duration := duration_from_secs (Cache.relay_expiry (cache self)).
Definition envelope_buffer_expiry (self : Config) : Duration := duration_from_secs (Cache.envelope_expiry (cache self)).
Definition envelope_buffer_size (self : Config) : Z := Cache.envelope_buffer_size (cache self).
Definition cache_miss_expiry (self : Config) : Duration := duration_from_secs (Cache.miss_expiry (cache self)).
Definition project_grace_period (self : Config) : Duration := duration_from_secs (Cache.project_grace_period (cache self)).
Definition query_batch_interval (self : Config) : Duration := duration_from_millis (Cache.batch_interval (cache self)).
Definition query_batch_size (self : Config) : Z := Cache.batch_size (cache self).
Definition local_cache_interval (self : Config) : Duration := duration_from_secs (Cache.file_interval (cache self)).
Definition cache_eviction_interval (self : Config) : Duration := duration_from_secs (Cache.eviction_interval (cache self)).
Definition max_event_size (self : Config) : Z := ByteSize.as_bytes (Limits.max_event_size (limits self)).
Definition max_attachment_size (self : Config) : Z := ByteSize.as_bytes (Limits.max_attachment_size (limits self)).
Definition max_attachments_size (self : Config) : Z := ByteSize.as_bytes (Limits.max_attachments_size (limits self)).
Definition max_envelope_size (self : Config) : Z := ByteSize.as_bytes (Limits.max_envelope_size (limits self)).
Definition max_session_count (self : Config) : Z := Limits.max_session_count (limits self).
Definition max_api_payload_size (self : Config) : Z := ByteSize.as_bytes (Limits.max_api_payload_size (limits self)).
Definition max_api_file_upload_size (self : Config) : Z := ByteSize.as_bytes (Limits.max_api_file_upload_size (limits self)).
Definition max_api_chunk_upload_size (self : Config) : Z := ByteSize.as_bytes (Limits.max_api_chunk_upload_size (limits self)).
Definition max_concurrent_requests (self : Config) : Z := Limits.max_concurrent_requests (limits self).
Definition max_concurrent_queries (self : Config) : Z := Limits.max_concurrent_queries (limits self).
Definition query_timeout (self : Config) : Duration := duration_from_secs (Limits.query_timeout (limits self)).
Definition shutdown_timeout (self : Config) : Duration := duration_from_secs (Limits.shutdown_timeout (limits self)).
Definition project_configs_path (self : Config) : string := path_join (Config.path self) "projects".
Definition max_secs_in_future (self : Config) : Z := Processing.max_secs_in_future (processing self).
Definition max_secs_in_past (self : Config) : Z := Processing.max_secs_in_past (processing self).
Definition max_session_secs_in_past (self : Config) : Z := Processing.max_session_secs_in_past (processing self).
Definition kafka_topic_name (self : Config) (topic : KafkaTopic) : string :=
  let topics := Processing.topics (processing self) in
  match topic with
  | KafkaTopic.Attachments => topic_attachments topics
  | KafkaTopic.Events => topic_events topics
  | KafkaTopic.Transactions => topic_transactions topics
  | KafkaTopic.Outcomes => topic_outcomes topics
  | KafkaTopic.Sessions => topic_sessions topics
  | KafkaTopic.Metrics => topic_metrics topics
  end.
Definition attachment_chunk_size (self : Config) : Z := ByteSize.as_bytes (Processing.attachment_chunk_size (processing self)).
Definition projectconfig_cache_prefix (self : Config) : string := Processing.projectconfig_cache_prefix (processing self).
Definition max_rate_limit (self : Config) : option Z := Processing.max_rate_limit (processing self).
Definition aggregator_config (self : Config) : AggregatorConfig := ConfigValues.aggregator (Config.values self).
Definition static_relays (self : Config) : gmap RelayId RelayInfo :=
  AuthConfig.static_relays (ConfigValues.auth (Config.values self)).

End Config.

(** ** Sizes *)

Section Sizes.
Context {HS : ByteSize.HumanSize} {HL : ByteSize.HumanSizeLaws}.

Lemma multiple_bytes n u :
  (forall name, u <> ByteSize.Other name) -> 0 <= n -> n * ByteSize.factor u < 2 ^ 53 ->
  ByteSize.as_bytes (ByteSize.of_multiple n u) = n * ByteSize.factor u.
Proof.
  intros Hu Hn Hb. unfold ByteSize.as_bytes. cbn. rewrite ByteSize.into_bytes_exact by done.
  apply trunc_as_u64_of_small_Z. split; [|done]. destruct u; simpl; lia.
Qed.

Lemma try_multiple_bytes n u s :
  (forall name, u <> ByteSize.Other name) -> 0 <= n <= u32_max ->
  ByteSize.try_multiple n u = Some s -> ByteSize.as_bytes s = n.
Proof.
  intros Hu Hn. unfold ByteSize.try_multiple. case_bool_decide as Hm; [|done]. intros [= <-].
  assert (0 < ByteSize.factor u) by (destruct u; simpl; lia).
  pose proof (Z.div_mod n (ByteSize.factor u)) as Hd.
  assert (n / ByteSize.factor u * ByteSize.factor u = n) as He by lia.
  rewrite multiple_bytes; [done|done|apply Z.div_pos; lia|]. unfold u32_max in *. lia.
Qed.

(** Sizes are exact: whichever unit is inferred for a number of bytes, reading it back
    gives that number, also through its text and from a configuration file, where
    larger numbers are refused. *)
Theorem byte_sizes_exact n :
  in_u64 n ->
  match ByteSize.visit_u64 n with
  | Some size => n <= u32_max /\ ByteSize.as_bytes size = n
                 /\ ByteSize.as_bytes <$> ByteSize.from_str (u64_to_string n) = Some n
  | None => u32_max < n
  end.
Proof.
  intros Hn. unfold ByteSize.visit_u64. case_bool_decide as Hb; [|lia]. pose proof Hn as [Hn0 _]. split_and!; [done|..].
  - assert (forall u s, (forall name, u <> ByteSize.Other name) -> ByteSize.try_multiple n u = Some s -> ByteSize.as_bytes s = n)
      as Ht by (intros; eapply try_multiple_bytes; [done| |done]; lia).
    unfold ByteSize.infer, ByteSize.or_else.
    destruct (ByteSize.try_multiple n ByteSize.Mebibyte) eqn:E1; [by apply (Ht ByteSize.Mebibyte)|].
    destruct (ByteSize.try_multiple n ByteSize.Megabyte) eqn:E2; [by apply (Ht ByteSize.Megabyte)|].
    destruct (ByteSize.try_multiple n ByteSize.Kibibyte) eqn:E3; [by apply (Ht ByteSize.Kibibyte)|].
    destruct (ByteSize.try_multiple n ByteSize.Kilobyte) eqn:E4; [by apply (Ht ByteSize.Kilobyte)|].
    cbn [default]. unfold ByteSize.bytes. rewrite multiple_bytes; [simpl; lia|done|lia|]. unfold u32_max in *. simpl. lia.
  - unfold ByteSize.from_str, parse_u32. rewrite parse_uint_to_string by first [exact Hn | exact Hb].
    cbn [fmap option_fmap option_map]. f_equal. unfold ByteSize.bytes. rewrite multiple_bytes; [simpl; lia|done|lia|].
    unfold u32_max in *. simpl. lia.
Qed.

End Sizes.

(** ** Overrides *)

(** [new] is the value of the override, or [old] without one. *)
Definition taken {A} (parse : string -> option A) (o : option string) (old new : A) : Prop :=
  match o with Some s => parse s = Some new | None => new = old end.

Lemma set_param_spec name v l :
  (exists l1 p l2, l = l1 ++ p :: l2 /\ param_name p = name /\ Forall (fun q => param_name q <> name) l1
     /\ set_param name v l = l1 ++ MkKafkaConfigParam name v :: l2)
  \/ Forall (fun q => param_name q <> name) l /\ set_param name v l = l ++ [MkKafkaConfigParam name v].
Proof.
  induction l as [|p l IH]; simpl; [by right|]. case_bool_decide as Hp.
  - left. subst name. by exists [], p, l.
  - destruct IH as [(l1 & q & l2 & -> & Hq & Hl & ->) | [Hl ->]].
    + left. exists (p :: l1), q, l2. by split_and!; [..|constructor|].
    + right. split; [by constructor|done].
Qed.

Lemma set_param_idem name v l : set_param name v (set_param name v l) = set_param name v l.
Proof. induction l as [|p l IH]; simpl; repeat case_bool_decide; simpl; repeat case_bool_decide; by f_equal. Qed.

Lemma taken_default {A} (p : string -> option A) o old :
  (is_Some o -> is_Some (o ≫= p)) -> taken p o old (default old (o ≫= p)).
Proof. destruct o as [s|]; simpl; [|done]. intros [a ->]; [by eexists|done]. Qed.

Lemma default_idem {A} (x : A) o : default (default x o) o = default x o.
Proof. by destruct o. Qed.

Section Overrides.
Context `{ED : Ed25519} {B64 : Base64} {UP : UrlParser} {OE : OverrideEnv}.
#[local] Existing Instance override_ret.
#[local] Existing Instance override_bind.

Lemma override_bind_ok {A B} (m : override A) (f : A -> override B) c c' b :
  mbind f m c = (c', Ok b) <-> exists c1 a, m c = (c1, Ok a) /\ f a c1 = (c', Ok b).
Proof.
  unfold mbind, override_bind. destruct (m c) as [c1 [a|e]]; split.
  - by exists c1, a.
  - by intros (? & ? & [= <- <-] & ?).
  - done.
  - by intros (? & ? & ? & ?).
Qed.

Lemma parse_field_ok {A} (p : string -> option A) f o c c1 r :
  parse_field p f o c = (c1, Ok r) <-> c1 = c /\ r = o ≫= p /\ (is_Some o -> is_Some r).
Proof.
  unfold parse_field. destruct o as [s|]; simpl; [|naive_solver].
  destruct (p s) eqn:E; simpl; split; [by intros [= <- <-]|naive_solver|done|].
  intros (_ & -> & H). destruct (H (ltac:(by eexists))) as [? ?]. done.
Qed.

(** The changes without the errors. *)
Definition changed {A} (f : A -> Config -> Config) (o : option A) (c : Config) : Config :=
  match o with Some a => f a c | None => c end.
Definition overridden (o : OverridableConfig) (c : Config) : Config :=
  changed set_outcome_source (o_outcome_source o)
    (changed set_kafka_url (o_kafka_url o)
       (changed set_redis (o_redis_url o)
          (changed set_enabled (o_processing o ≫= parse_enabled)
             (changed set_port (o_port o ≫= parse_port)
                (changed set_host (o_host o ≫= parse_host)
                   (changed set_upstream (o_upstream o ≫= parse_upstream) c)))))).

(** All values that are given parse. *)
Definition parses (o : OverridableConfig) : Prop :=
  (is_Some (o_upstream o) -> is_Some (o_upstream o ≫= parse_upstream))
  /\ (is_Some (o_host o) -> is_Some (o_host o ≫= parse_host))
  /\ (is_Some (o_port o) -> is_Some (o_port o ≫= parse_port))
  /\ (is_Some (o_processing o) -> is_Some (o_processing o ≫= parse_enabled))
  /\ (is_Some (o_id o) -> is_Some (o_id o ≫= uuid_parse_str))
  /\ (is_Some (o_public_key o) -> is_Some (o_public_key o ≫= parse_public))
  /\ (is_Some (o_secret_key o) -> is_Some (o_secret_key o ≫= parse_secret)).

Lemma apply_override_ok o c c' :
  apply_override o c = (c', Ok ()) <->
  parses o
  /\ override_credentials (o_id o ≫= uuid_parse_str) (o_public_key o ≫= parse_public) (o_secret_key o ≫= parse_secret)
       (overridden o c) = (c', Ok ()).
Proof.
  unfold apply_override, parses, overridden. repeat setoid_rewrite override_bind_ok. setoid_rewrite parse_field_ok. unfold change.
  split.
  - intros H. repeat (destruct H as (? & ? & H1 & H); try destruct H1 as (-> & -> & ?); simplify_eq). naive_solver.
  - intros [Hp Hc]. destruct_and! Hp. repeat (eexists _, _; split; [first [by split_and! | reflexivity]|]). exact Hc.
Qed.

(** The same as one record. *)
Definition settled (ou : option UpstreamDescriptor) (oh : option IpAddr) (op : option Z) (oe : option bool)
  (ored okaf osrc : option string) (c : Config) : Config :=
  let r := relay c in
  let p := processing c in
  let s := outcomes c in
  Config.set_values c
    (ConfigValues.set_outcomes
       (ConfigValues.set_processing
          (ConfigValues.set_relay (Config.values c)
             (Relay.MkRelay (Relay.mode r) (default (Relay.upstream r) ou) (default (Relay.host r) oh) (default (Relay.port r) op)
                (Relay.tls_port r) (Relay.tls_identity_path r) (Relay.tls_identity_password r)))
          (Processing.MkProcessing (default (Processing.enabled p) oe) (Processing.geoip_path p)
             (Processing.max_secs_in_future p) (Processing.max_secs_in_past p) (Processing.max_session_secs_in_past p)
             match okaf with
             | Some url => set_param "bootstrap.servers" url (Processing.kafka_config p)
             | None => Processing.kafka_config p
             end
             (Processing.topics p) match ored with Some url => Some (RedisConfig.Single url) | None => Processing.redis p end
             (Processing.attachment_chunk_size p) (Processing.projectconfig_cache_prefix p) (Processing.max_rate_limit p)
             (Processing.internal_projects p)))
       (Outcomes.MkOutcomes (Outcomes.emit_outcomes s) (Outcomes.batch_size s) (Outcomes.batch_interval s)
          match osrc with Some v => Some v | None => Outcomes.source s end)).

Lemma overridden_settled o c :
  overridden o c = settled (o_upstream o ≫= parse_upstream) (o_host o ≫= parse_host) (o_port o ≫= parse_port)
    (o_processing o ≫= parse_enabled) (o_redis_url o) (o_kafka_url o) (o_outcome_source o) c.
Proof.
  unfold overridden. generalize (o_upstream o ≫= parse_upstream) (o_host o ≫= parse_host) (o_port o ≫= parse_port)
    (o_processing o ≫= parse_enabled) (o_redis_url o) (o_kafka_url o) (o_outcome_source o).
  destruct c as [[[] h ca l lo m se [] [] ag au] cr pa].
  intros [] [] [] [] [] [] []; reflexivity.
Qed.

Lemma overridden_idem o c : overridden o (overridden o c) = overridden o c.
Proof.
  rewrite !overridden_settled. generalize (o_upstream o ≫= parse_upstream) (o_host o ≫= parse_host) (o_port o ≫= parse_port)
    (o_processing o ≫= parse_enabled) (o_redis_url o) (o_kafka_url o) (o_outcome_source o).
  intros ou oh op oe ored okaf osrc. unfold settled. cbn. rewrite !default_idem.
  destruct ored, okaf, osrc; rewrite ?set_param_idem; reflexivity.
Qed.

(** Changing the credentials commutes with the other changes. *)
Lemma overridden_set_credentials o c cr :
  overridden o (Config.set_credentials c cr) = Config.set_credentials (overridden o c) cr.
Proof. by rewrite !overridden_settled. Qed.

Lemma override_credentials_values i p s c c' :
  override_credentials i p s c = (c', Ok ()) -> c' = Config.set_credentials c (Config.credentials c').
Proof.
  unfold override_credentials. destruct c as [v [cr|] pa]; simpl; [by intros [= <-]|].
  destruct i, p, s; try done; by intros [= <-].
Qed.

Lemma override_credentials_idem i p s c c' :
  override_credentials i p s c = (c', Ok ()) -> override_credentials i p s c' = (c', Ok ()).
Proof.
  unfold override_credentials. destruct c as [v [cr|] pa]; simpl.
  - intros [= <-]. simpl. by destruct i, p, s.
  - destruct i, p, s; try done; by intros [= <-].
Qed.

(** What the overrides leave as it was. *)
Definition same_rest (c c' : Config) : Prop :=
  Config.path c' = Config.path c /\ http c' = http c /\ cache c' = cache c /\ limits c' = limits c
  /\ aggregator_config c' = aggregator_config c /\ static_relays c' = static_relays c
  /\ requires_auth c' = requires_auth c /\ relay_mode c' = relay_mode c
  /\ Processing.topics (processing c') = Processing.topics (processing c)
  /\ Processing.attachment_chunk_size (processing c') = Processing.attachment_chunk_size (processing c)
  /\ outcome_batch_size c' = outcome_batch_size c /\ Outcomes.emit_outcomes (outcomes c') = Outcomes.emit_outcomes (outcomes c).

(** The settings that overrides take effect on. *)
Lemma overrides_in_effect o c c' :
  apply_override o c = (c', Ok ()) ->
  taken parse_upstream (o_upstream o) (upstream_descriptor c) (upstream_descriptor c')
  /\ taken parse_host (o_host o) (listen_addr c).1 (listen_addr c').1
  /\ taken parse_port (o_port o) (listen_addr c).2 (listen_addr c').2
  /\ taken parse_enabled (o_processing o) (processing_enabled c) (processing_enabled c')
  /\ taken (fun url => Some (Some (RedisConfig.Single url))) (o_redis_url o) (Processing.redis (processing c))
       (Processing.redis (processing c'))
  /\ Processing.kafka_config (processing c')
     = match o_kafka_url o with
       | Some url => set_param "bootstrap.servers" url (Processing.kafka_config (processing c))
       | None => Processing.kafka_config (processing c)
       end
  /\ taken (fun source => Some (Some source)) (o_outcome_source o) (outcome_source c) (outcome_source c')
  /\ same_rest c c'.
Proof.
  intros [Hp Hc]%apply_override_ok. pose proof (override_credentials_values _ _ _ _ _ Hc) as Hv.
  assert (forall A (f : Config -> A), (forall d cr, f (Config.set_credentials d cr) = f d) -> f c' = f (overridden o c)) as Hf.
  { intros A f Hf. rewrite Hv. apply Hf. }
  destruct Hp as (Hu & Hh & Hpo & He & _).
  split_and!; try (rewrite ?Hf by done; rewrite overridden_settled; cbn); try (by apply taken_default).
  - by destruct (o_redis_url o).
  - done.
  - by destruct (o_outcome_source o).
  - by split_and!.
Qed.

(** The configuration [c'] with the settings that overrides may change as they are in [c]. *)
Definition reverted (c c' : Config) : Config :=
  let v := Config.values c' in
  Config.MkConfig _
    (ConfigValues.MkConfigValues _
       (Relay.MkRelay (Relay.mode (relay c')) (Relay.upstream (relay c)) (Relay.host (relay c)) (Relay.port (relay c))
          (Relay.tls_port (relay c')) (Relay.tls_identity_path (relay c')) (Relay.tls_identity_password (relay c')))
       (ConfigValues.http v) (ConfigValues.cache v) (ConfigValues.limits v) (ConfigValues.logging v) (ConfigValues.metrics v)
       (ConfigValues.sentry v)
       (Processing.MkProcessing (Processing.enabled (processing c)) (Processing.geoip_path (processing c'))
          (Processing.max_secs_in_future (processing c')) (Processing.max_secs_in_past (processing c'))
          (Processing.max_session_secs_in_past (processing c')) (Processing.kafka_config (processing c))
          (Processing.topics (processing c')) (Processing.redis (processing c)) (Processing.attachment_chunk_size (processing c'))
          (Processing.projectconfig_cache_prefix (processing c')) (Processing.max_rate_limit (processing c'))
          (Processing.internal_projects (processing c')))
       (Outcomes.MkOutcomes (Outcomes.emit_outcomes (outcomes c')) (Outcomes.batch_size (outcomes c'))
          (Outcomes.batch_interval (outcomes c')) (Outcomes.source (outcomes c)))
       (ConfigValues.aggregator v) (ConfigValues.auth v))
    (Config.credentials c) (Config.path c').

Lemma overrides_revert o c c' : apply_override o c = (c', Ok ()) -> reverted c c' = c.
Proof.
  intros [_ Hc]%apply_override_ok. rewrite (override_credentials_values _ _ _ _ _ Hc), overridden_settled.
  generalize (o_upstream o ≫= parse_upstream) (o_host o ≫= parse_host) (o_port o ≫= parse_port)
    (o_processing o ≫= parse_enabled) (o_redis_url o) (o_kafka_url o) (o_outcome_source o).
  destruct c as [ [ [] ? ? ? ? ? ? [] [] ? ?] ? ?]. intros [] [] [] [] [] [] []; reflexivity.
Qed.

(** The Kafka servers: the value of the first such parameter, or a new one at the end. *)
Definition servers_set (url : string) (old new : list KafkaConfigParam) : Prop :=
  (exists l1 p l2, old = l1 ++ p :: l2 /\ Forall (fun q => param_name q <> "bootstrap.servers") l1
     /\ param_name p = "bootstrap.servers" /\ new = l1 ++ MkKafkaConfigParam "bootstrap.servers" url :: l2)
  \/ Forall (fun q => param_name q <> "bootstrap.servers") old /\ new = old ++ [MkKafkaConfigParam "bootstrap.servers" url].

Lemma set_param_servers url l : servers_set url l (set_param "bootstrap.servers" url l).
Proof. destruct (set_param_spec "bootstrap.servers" url l) as [(l1 & p & l2 & ? & ? & ? & ?)|[? ?] ]; [left; by exists l1, p, l2|by right]. Qed.

(** Credentials: their given parts replace those of existing ones; without any, all parts are
    given, or none. *)
Definition credentials_set (i : option RelayId) (p : option PublicKey) (s : option SecretKey) (old new : option Credentials) : Prop :=
  match old with
  | Some c => new = Some (Credentials.MkCredentials _ (default (Credentials.secret_key c) s) (default (Credentials.public_key c) p)
                            (default (Credentials.id c) i))
  | None =>
      (exists i' p' s', i = Some i' /\ p = Some p' /\ s = Some s' /\ new = Some (Credentials.MkCredentials _ s' p' i'))
      \/ (i = None /\ p = None /\ s = None /\ new = None)
  end.

Lemma override_credentials_set i p s c c' :
  override_credentials i p s c = (c', Ok ()) -> credentials_set i p s (Config.credentials c) (Config.credentials c').
Proof.
  unfold override_credentials, credentials_set. destruct (Config.credentials c) as [cr|] eqn:E; [by intros [= <-]|].
  destruct i, p, s; try done; intros [= <-]; [left; by eexists _, _, _|by right].
Qed.

(** C37: Overrides that are accepted are all in effect and change nothing else: every value
    that was given parses and is the new setting, the others keep theirs, the Kafka
    servers are set in the first such parameter or a new one, the parts of the credentials that are
    given replace those that are there, or make new ones if they are complete, and all other
    settings are the same.  Applying the same overrides again changes nothing. *)
Theorem overrides_applied o c c' :
  apply_override o c = (c', Ok ()) ->
  taken parse_upstream (o_upstream o) (upstream_descriptor c) (upstream_descriptor c')
  /\ taken parse_host (o_host o) (listen_addr c).1 (listen_addr c').1
  /\ taken parse_port (o_port o) (listen_addr c).2 (listen_addr c').2
  /\ taken parse_enabled (o_processing o) (processing_enabled c) (processing_enabled c')
  /\ taken (fun url => Some (Some (RedisConfig.Single url))) (o_redis_url o) (Processing.redis (processing c))
       (Processing.redis (processing c'))
  /\ match o_kafka_url o with
     | Some url => servers_set url (Processing.kafka_config (processing c)) (Processing.kafka_config (processing c'))
     | None => Processing.kafka_config (processing c') = Processing.kafka_config (processing c)
     end
  /\ taken (fun source => Some (Some source)) (o_outcome_source o) (outcome_source c) (outcome_source c')
  /\ (is_Some (o_id o) -> is_Some (o_id o ≫= uuid_parse_str))
  /\ (is_Some (o_public_key o) -> is_Some (o_public_key o ≫= parse_public))
  /\ (is_Some (o_secret_key o) -> is_Some (o_secret_key o ≫= parse_secret))
  /\ credentials_set (o_id o ≫= uuid_parse_str) (o_public_key o ≫= parse_public) (o_secret_key o ≫= parse_secret)
       (Config.credentials c) (Config.credentials c')
  /\ reverted c c' = c
  /\ apply_override o c' = (c', Ok ()).
Proof.
  intros Ho. pose proof (overrides_in_effect _ _ _ Ho) as (? & ? & ? & ? & ? & Hk & ? & _).
  pose proof Ho as [Hp Hc]%apply_override_ok. pose proof (override_credentials_values _ _ _ _ _ Hc) as Hv.
  assert (apply_override o c' = (c', Ok ())) as Hidem.
  { apply apply_override_ok. split; [done|].
    rewrite Hv, overridden_set_credentials, overridden_idem, <- Hv. by eapply override_credentials_idem. }
  destruct Hp as (_ & _ & _ & _ & Hi & Hpk & Hsk). split_and!; try done.
  - rewrite Hk. destruct (o_kafka_url o); [apply set_param_servers|done].
  - apply override_credentials_set in Hc. by rewrite overridden_settled in Hc.
  - by eapply overrides_revert.
Qed.

End Overrides.

(** ** Credentials on disk *)

Lemma path_join_inj base a b :
  starts_with "/" a = false -> starts_with "/" b = false -> path_join base a = path_join base b -> a = b.
Proof.
  unfold path_join. intros -> ->. case_bool_decide; [done|].
  assert (forall p x y : string, p +:+ x = p +:+ y -> x = y) as Hinj.
  { intros p. induction p as [|ch p IH]; intros x y; [done|]. intros [= Heq]. by apply IH. }
  destruct (ends_with "/" base); intros Heq%Hinj; [done|]. by injection Heq.
Qed.

Section Persistence.
Context `{ED : Ed25519} {B64 : Base64} {CV : ConfigCodec ConfigValues} {CT : ConfigCodec CredentialsText}.
Context {CTL : ConfigCodecLaws CredentialsText} {EL : Ed25519Laws} {BL : Base64Laws}.

Lemma object_paths_differ base : object_path ConfigValues base <> object_path Credentials base.
Proof. intros Heq%path_join_inj; done. Qed.

(** Credentials as they are read back: the text of a secret key has no public half, which is
    computed again. *)
Definition reloaded (c : Credentials) : Credentials :=
  let secret := fst (SecretKey.inner (Credentials.secret_key c)) in
  Credentials.MkCredentials _ (SecretKey.MkSecretKey (secret, from_secret secret)) (Credentials.public_key c) (Credentials.id c).

Lemma reloaded_same c :
  reloaded c = c <-> snd (SecretKey.inner (Credentials.secret_key c)) = from_secret (fst (SecretKey.inner (Credentials.secret_key c))).
Proof. destruct c as [ [ [sk pk] ] p id]. unfold reloaded. cbn. split; [by intros [= <-]|by intros ->]. Qed.

Lemma credentials_text_read (c : Credentials) (s : string) : write_object c = (s, true) -> read_object (s +:+ String (byte 10) "") = Some (reloaded c).
Proof.
  cbn [write_object read_object credentials_codec]. intros Hw. rewrite (read_written _ _ Hw). cbn [mbind option_bind text_secret_key text_public_key text_id].
  unfold SecretKey.fmt, SecretKey.from_str, PublicKey.to_string, PublicKey.from_str.
  rewrite !b64_decode_encode, secret_bytes_length, bool_decide_eq_false_2, secret_bytes, public_bytes by done. cbn.
  destruct c as [ ? [?] ?]. reflexivity.
Qed.

Lemma save_credentials_read fs creds base fs' :
  object_path Credentials base ∉ unreadable fs ->
  save Credentials fs creds base = (fs', Ok ()) ->
  load Credentials fs' base = Ok (reloaded creds) /\ fs_exists fs' (object_path Credentials base) = true
  /\ forall path, path <> object_path Credentials base -> fs_read fs' path = fs_read fs path.
Proof.
  intros Hr. unfold save, fs_truncate. destruct (blocked fs _); [done|]. destruct (write_object creds) as [text []] eqn:E; [|done].
  intros [= <-]. unfold load, fs_read, fs_exists, fs_write, set_contents. cbn [contents unreadable directories].
  rewrite bool_decide_eq_false_2 by done. rewrite lookup_insert_eq. rewrite (credentials_text_read _ _ E). split_and!; [done..|].
  intros path Hp. by rewrite !lookup_insert_ne by done.
Qed.

Lemma remove_credentials_read fs base fs' :
  object_path Credentials base ∉ directories fs ->
  remove_credentials fs (object_path Credentials base) = (fs', Ok ()) ->
  fs_exists fs' (object_path Credentials base) = false
  /\ forall path, path <> object_path Credentials base -> fs_read fs' path = fs_read fs path.
Proof.
  intros Hd. unfold remove_credentials. destruct (fs_exists fs _) eqn:E.
  - unfold fs_remove. destruct (blocked fs _); [done|]. intros [= <-]. split.
    + unfold fs_exists. cbn. rewrite lookup_delete_eq, !bool_decide_eq_false_2; [done|done|]. by intros [? ?].
    + intros path Hp. unfold fs_read. cbn. by rewrite lookup_delete_ne by done.
  - by intros [= <-].
Qed.

(** Saving credentials next to a configuration that was loaded. *)
Lemma from_path_saved dir feature fs p c creds fs' :
  object_path Credentials (Config.path c) ∉ unreadable fs ->
  from_path dir feature fs p = Ok c -> save Credentials fs creds (Config.path c) = (fs', Ok ()) ->
  from_path dir feature fs' p = Ok (Config.set_credentials c (Some (reloaded creds)))
  /\ (config_exists fs (Config.path c) = true -> config_exists fs' (Config.path c) = true).
Proof.
  unfold from_path. set (path := match dir with Some d => path_join d p | None => p end).
  destruct (load ConfigValues fs path) as [v|] eqn:Hv; [|done]. cbn [mbind result_bind].
  destruct (if fs_exists fs _ then _ else _) as [old|]; [|done]. cbn [mbind result_bind].
  destruct (negb feature && _) eqn:Ef; [done|]. intros Hr [= <-] Hs. cbn [Config.path] in *.
  apply save_credentials_read in Hs as Hl; [|done]. destruct Hl as (Hl & He & Hfs). split.
  - assert (load ConfigValues fs' path = Ok v) as ->.
    { unfold load in *. rewrite Hfs by apply object_paths_differ. exact Hv. }
    cbn [mbind result_bind]. rewrite He, Hl. cbn [mbind result_bind fmap result_fmap]. 
    change (processing_enabled (Config.MkConfig _ v (Some (reloaded creds)) path)) with (processing_enabled (Config.MkConfig _ v old path)).
    by rewrite Ef.
  - revert Hs. unfold save, fs_truncate. destruct (blocked fs _); [done|]. destruct (write_object creds) as [text []]; [|done].
    intros [= <-]. unfold config_exists, fs_exists. cbn [fs_write set_contents contents directories].
    pose proof (object_paths_differ path). by rewrite !lookup_insert_ne by done.
Qed.

(** C39: Credentials that were replaced survive a restart: when replacing them reports a
    change, loading the configuration from the same folder gives the same values with
    the new credentials, or none when they were removed; when it reports no
    change, neither the files nor the configuration have changed.  The public half of the secret
    key is not stored: it comes back as the one that belongs to the secret half, so the
    credentials are the same exactly when the two halves belong together. *)
Theorem credentials_persisted fs c credentials fs' c' b v :
  object_path Credentials (Config.path c) ∉ unreadable fs -> object_path Credentials (Config.path c) ∉ directories fs ->
  load ConfigValues fs (Config.path c) = Ok v ->
  replace_credentials fs c credentials = (fs', c', Ok b) ->
  if b : bool then
    c' = Config.set_credentials c credentials
    /\ from_path None true fs' (Config.path c) = Ok (Config.MkConfig _ v (reloaded <$> credentials) (Config.path c))
    /\ forall creds, credentials = Some creds ->
         Credentials.public_key (reloaded creds) = Credentials.public_key creds /\ Credentials.id (reloaded creds) = Credentials.id creds
         /\ (reloaded creds = creds
             <-> snd (SecretKey.inner (Credentials.secret_key creds)) = from_secret (fst (SecretKey.inner (Credentials.secret_key creds))))
  else fs' = fs /\ c' = c /\ same_credentials (Config.credentials c) credentials = true.
Proof.
  intros Hr Hd Hv. unfold replace_credentials. destruct (same_credentials _ _) eqn:Es; [by intros [= <- <- <-]|].
  assert (forall fs1, (forall path, path <> object_path Credentials (Config.path c) -> fs_read fs1 path = fs_read fs path) ->
    load ConfigValues fs1 (Config.path c) = Ok v) as Hload.
  { intros fs1 Hfs. unfold load in *. rewrite Hfs by apply object_paths_differ. exact Hv. }
  destruct credentials as [creds|].
  - destruct (save _ _ _ _) as [fs1 [[]|e]] eqn:E; [|done]. intros [= <- <- <-].
    apply save_credentials_read in E as (Hl & He & Hfs); [|done]. split_and!; [done| |intros ? [= <-]; split_and!; [done|done|apply reloaded_same] ].
    unfold from_path. rewrite (Hload _ Hfs). cbn [mbind result_bind]. by rewrite He, Hl.
  - destruct (remove_credentials _ _) as [fs1 [[]|e]] eqn:E; [|done]. intros [= <- <- <-].
    apply remove_credentials_read in E as (He & Hfs); [|done]. split_and!; [done| |done].
    unfold from_path. rewrite (Hload _ Hfs). cbn [mbind result_bind]. by rewrite He.
Qed.

End Persistence.

(** ** Where the code departs from what it means to do *)

Definition no_overrides : OverridableConfig := MkOverridableConfig None None None None None None None None None None.
Definition enable_processing : OverridableConfig :=
  MkOverridableConfig None None None (Some "true") None None None None None None.

(** Without the processing feature a configuration file that enables processing is
    refused, but an override enables it for every configuration that was loaded. *)
Theorem feature_check_bypassed `{ED : Ed25519, B64 : Base64, UP : UrlParser, OE : OverrideEnv,
    CV : ConfigCodec ConfigValues, CT : ConfigCodec CredentialsText} dir fs p c :
  from_path dir false fs p = Ok c ->
  processing_enabled c = false
  /\ exists c', apply_override enable_processing c = (c', Ok ()) /\ processing_enabled c' = true.
Proof.
  unfold from_path. destruct (load ConfigValues fs _) as [v|]; [|done]. cbn [mbind result_bind].
  destruct (if fs_exists fs _ then _ else _) as [creds|]; [|done]. cbn [mbind result_bind negb andb].
  destruct (processing_enabled _) eqn:E; [done|]. intros [= <-]. split; [done|].
  eexists (apply_override enable_processing (Config.MkConfig _ v creds _)).1. destruct creds as [ [] |]; split; reflexivity.
Qed.

(** ** Instances for the witnesses *)

Section Witness.
#[local] Existing Instances Toy.ed Toy.b64 Toy.ed_laws Toy.b64_laws.

Definition newline : ascii := byte 10.

(** A line for the three texts. *)
#[local] Instance credentials_text : ConfigCodec CredentialsText := {|
  write_object t := (Toy.print_pos (countable.encode (text_secret_key t, text_public_key t, text_id t)), true);
  read_object s := '(secret, public, id) ← countable.decode (Toy.read_pos (fst (splitn2 newline s))); Some (MkCredentialsText secret public id);
|}.

#[local] Instance credentials_text_laws : ConfigCodecLaws CredentialsText.
Proof.
  intros [secret public id] s. cbn [write_object read_object credentials_text text_secret_key text_public_key text_id]. intros [= <-].
  rewrite splitn2_app; [|].
  - cbn [fst]. rewrite Toy.read_print, countable.decode_encode. done.
  - generalize (countable.encode (secret, public, id)) as q. intros q. induction q as [q IH|q IH|]; [exact IH..|reflexivity].
Qed.

Definition empty_files : Files := MkFiles {["/.relay/config.yml" := "relay:"]} ∅ ∅ ∅.
#[local] Instance values_codec : ConfigCodec ConfigValues :=
  {| read_object _ := Some (ConfigValues.default_ empty_files 4); write_object _ := ("relay:", true) |}.

Definition fresh_config : Config := Config.MkConfig _ (ConfigValues.default_ empty_files 4) None "/.relay".
Definition new_credentials : Credentials :=
  Credentials.MkCredentials _ (SecretKey.MkSecretKey ("a", "a")%char) (PublicKey.MkPublicKey "a"%char) 7.

Lemma credentials_persisted_witness :
  exists fs', replace_credentials empty_files fresh_config (Some new_credentials)
    = (fs', Config.set_credentials fresh_config (Some new_credentials), Ok true)
  /\ from_path None true fs' "/.relay"
     = Ok (Config.MkConfig _ (ConfigValues.default_ empty_files 4) (Some new_credentials) "/.relay").
Proof.
  destruct (replace_credentials empty_files fresh_config (Some new_credentials)) as [ [fs' c'] r] eqn:E.
  assert (r = Ok true) as -> by (vm_compute in E; congruence).
  destruct (credentials_persisted empty_files fresh_config (Some new_credentials) fs' c' true
    (ConfigValues.default_ empty_files 4)) as [Hc Hload]; [set_solver..|reflexivity|exact E|].
  exists fs'. rewrite <- Hc. split; [done|exact (proj1 Hload)].
Defined.

#[local] Instance text_env : OverrideEnv :=
  {| parse_host := fun s => if bool_decide (s = "localhost") then None else Some s; uuid_parse_str := parse_u64 |}.
#[local] Instance no_urls : UrlParser := {|
  Url := string; url_parse _ := None; url_scheme_str s := s; url_host_str s := Some s; url_port _ := None; url_path _ := "/";
  url_query _ := None;
|}.

Definition port_override : OverridableConfig :=
  MkOverridableConfig None None (Some "8080") (Some "TRUE") (Some "kafka:9092") None None None None (Some "eu").

Lemma overrides_applied_witness :
  exists c', apply_override port_override fresh_config = (c', Ok ()) /\ (listen_addr c').2 = 8080
    /\ processing_enabled c' = true /\ outcome_source c' = Some "eu"
    /\ Processing.kafka_config (processing c') = [MkKafkaConfigParam "bootstrap.servers" "kafka:9092"].
Proof.
  destruct (apply_override port_override fresh_config) as [c' r] eqn:E.
  assert (r = Ok ()) as -> by (vm_compute in E; congruence).
  destruct (overrides_applied port_override fresh_config c' E) as (_ & _ & Hp & He & _ & Hk & Hs & _).
  change (Some 8080 = Some (listen_addr c').2) in Hp. change (Some true = Some (processing_enabled c')) in He.
  change (Some (Some "eu") = Some (outcome_source c')) in Hs. exists c'. split_and!; [done|congruence..|].
  destruct Hk as [(l1 & p & l2 & Hl & _)|[_ Hk] ]; [by destruct l1|exact Hk].
Defined.

Definition whole_sizes : ByteSize.HumanSize := {|
  ByteSize.into_bytes x u := f64_of_Z (trunc_as_u64 x * ByteSize.factor u); ByteSize.size_parse _ := None;
|}.

Lemma whole_sizes_laws : @ByteSize.HumanSizeLaws whole_sizes.
Proof.
  intros n u Hu Hn Hb. cbn. rewrite trunc_as_u64_of_small_Z; [done|]. split; [done|].
  destruct u; simpl in Hb; lia.
Qed.

Lemma byte_sizes_exact_witness : @ByteSize.as_bytes whole_sizes (ByteSize.infer 42000000) = 42000000.
Proof.
  destruct (byte_sizes_exact (HS := whole_sizes) (HL := whole_sizes_laws) 42000000) as (_ & Hb & _); [|exact Hb].
  unfold in_width. lia.
Defined.

End Witness.
