(* ===== verification/Services.v ===== *)
(** * relay-server: run time services and internal endpoints (actors/controller.rs,
      healthcheck.rs, endpoints/forward.rs, project_configs.rs, healthcheck.rs, events.rs,
      middlewares.rs)

    The controller that shuts Relay down, the health check, the endpoints for other Relays
    and the one that forwards everything else.  Actors are records with their handlers;
    the controller with its subscribers is a step relation in which answers arrive in
    any order. *)

From Stdlib Require Import Ascii String.
From S2P Require Import PiiConfig Prelude Strings Floats Globs Types Common Protocol Quota Filters Sampling Extractors Envelopes Sessions Auth MetricProtocol Aggregation Aggregator Http Projects Relays ProjectSources Upstream Bodies.

Open Scope string_scope.
Open Scope Z_scope.
Open Scope list_scope.

(** ** The controller *)

Module Controller.

(** Subscribers by their address. *)
Record Controller := MkController { timeout : Duration; subscribers : list nat }.
Definition default_ : Controller := MkController 0 [].

(** [signal::SignalType] *)
Inductive SignalType := Hup | Int | Term | Quit | Child.

(** The messages it handles; a shutdown that it starts is an effect. *)
Inductive Message := Signal (s : SignalType) | Configure (shutdown_timeout : Duration) | Subscribe (recipient : nat).

(** [Shutdown] to every subscriber, with the timeout. *)
Record Shutdown := MkShutdown { asked : list nat; shutdown_timeout : option Duration }.

Definition shutdown (self : Controller) (timeout : option Duration) : Shutdown := MkShutdown (subscribers self) timeout.

Definition handle (self : Controller) (message : Message) : Controller * option Shutdown :=
  match message with
  | Signal Int | Signal Quit => (self, Some (shutdown self None))
  | Signal Term => (self, Some (shutdown self (Some (timeout self))))
  | Signal _ => (self, None)
  | Configure t => (MkController t (subscribers self), None)
  | Subscribe recipient => (MkController (timeout self) (subscribers self ++ [recipient]), None)
  end.

(** The delay of [run_later] once all have answered. *)
Definition stop_delay (s : Shutdown) : Duration := default 0 (shutdown_timeout s) + 100 * 1000000.

(** *** The system: shutdowns that wait for answers, timers that stop it *)

Record System := MkSystem {
  controller : Controller;
  (** the shutdowns, with the subscribers that have answered; a timer runs for [stop_delay] *)
  waiting : list (Shutdown * list nat);
  timers : list (Shutdown * list nat);
  running : bool;
}.
Definition started : System := MkSystem default_ [] [] true.

(** [join_all] completes when every subscriber has answered; errors count as answers. *)
Definition complete (s : Shutdown * list nat) : bool := forallb (fun r => bool_decide (r ∈ s.2)) (asked s.1).

(** Futures that are complete schedule the stop. *)
Definition settle (self : System) : System :=
  MkSystem (controller self) (List.filter (fun s => negb (complete s)) (waiting self))
    (timers self ++ List.filter complete (waiting self)) (running self).

Inductive Event := Deliver (m : Message) | Answer (n recipient : nat) | Fire (n : nat).

Definition step (self : System) (e : Event) : System :=
  if running self then
    match e with
    | Deliver m =>
        let '(c, s) := handle (controller self) m in
        settle (MkSystem c (waiting self ++ match s with Some s => [(s, [])] | None => [] end) (timers self) true)
    | Answer n recipient =>
        settle (MkSystem (controller self) (alter (fun s => (s.1, recipient :: s.2)) n (waiting self)) (timers self) true)
    | Fire n => match timers self !! n with
                | Some _ => MkSystem (controller self) (waiting self) (timers self) false
                | None => self
                end
    end
  else self.

Definition run (es : list Event) : System := foldl step started es.

End Controller.

(** ** The health check *)

Module Healthcheck.

(** With what it reads of the configuration. *)
Record Healthcheck := MkHealthcheck { is_shutting_down : bool; requires_auth : bool }.

Inductive IsHealthy := Liveness | Readiness.

Definition new (requires_auth : bool) : Healthcheck := MkHealthcheck false requires_auth.
Definition handle_shutdown (self : Healthcheck) : Healthcheck := MkHealthcheck true (requires_auth self).

(** [is_authenticated] is the answer of the upstream actor, [None] when it does not answer. *)
Definition handle (self : Healthcheck) (message : IsHealthy) (is_authenticated : option bool) : option bool :=
  match message with
  | Liveness => Some true
  | Readiness =>
      if is_shutting_down self then Some false
      else if requires_auth self then is_authenticated
      else Some true
  end.

(** The endpoint: 200 or 503. *)
Definition healthcheck_impl (answer : option bool) : StatusCode := match answer with Some true => 200 | _ => 503 end.

End Healthcheck.

(** ** Project configurations for other Relays *)

Section ProjectConfigs.
Context `{ED : Ed25519}.

(** What [LimitedProjectState] and [LimitedProjectConfig] serialize. *)
Record LimitedProjectState := MkLimitedProjectState {
  limited_project_id : option ProjectId;
  limited_last_change : option DateTime;
  limited_disabled : bool;
  limited_public_keys : list PublicKeyConfig;
  limited_slug : option string;
  limited_allowed_domains : list string;
  limited_trusted_relays : list string;
  limited_pii_config : option PiiConfig.PiiConfig;
  limited_datascrubbing_settings : PiiConfig.DataScrubbingConfig;
  limited_features : list Feature;
  limited_organization_id : option Z;
}.
Definition limited (s : ProjectState) : LimitedProjectState :=
  MkLimitedProjectState (ProjectState.project_id s) (ProjectState.last_change s) (ProjectState.is_disabled s)
    (ProjectState.public_keys s) (ProjectState.slug s) (allowed_domains (ProjectState.config s))
    (trusted_relays (ProjectState.config s)) (project_pii_config (ProjectState.config s))
    (datascrubbing_settings (ProjectState.config s)) (features (ProjectState.config s)) (ProjectState.organization_id s).

Inductive ProjectStateWrapper := Full (s : ProjectState) | Limited (s : LimitedProjectState).
Definition wrap_state (s : ProjectState) (full : bool) : ProjectStateWrapper := if full then Full s else Limited (limited s).

Definition has_access (relay : RelayInfo) (s : ProjectState) : bool :=
  RelayInfo.internal relay
  || bool_decide (public_to_bytes (PublicKey.inner (RelayInfo.public_key relay)) ∈ trusted_relays (ProjectState.config s)).

(** The state of one key: [fetched] is the answer of the project cache. *)
Definition visible_state (relay : RelayInfo) (fetched : option ProjectState) : option ProjectState :=
  s ← fetched; if has_access relay s then Some s else None.

(** [get_project_configs]; later answers for a key replace earlier ones. *)
Definition get_project_configs (relay : RelayInfo) (query : GetProjectStates) (cache : ProjectKey -> option ProjectState)
  : gmap ProjectKey (option ProjectStateWrapper) :=
  let full := RelayInfo.internal relay && full_config query in
  let project_states := (fun key => (key, visible_state relay (cache key))) <$> gps_public_keys query in
  let valid := List.filter (fun e : ProjectKey * option ProjectState =>
                              negb (match e.2 with Some s => ProjectState.invalid s | None => false end)) project_states in
  foldl (fun m e => <[e.1 := (fun s => wrap_state s full) <$> e.2]> m) ∅ valid.

End ProjectConfigs.

(** ** Forwarding *)

Definition HOP_BY_HOP_HEADERS : list string :=
  ["connection"; "proxy-authenticate"; "proxy-authorization"; "te"; "trailer"; "transfer-encoding"; "upgrade"].
Definition IGNORED_REQUEST_HEADERS : list string := ["host"; "content-encoding"; "content-length"].

Inductive SpecialRoute := FileUpload | ChunkUpload.

Definition SPECIAL_ROUTES : GlobMatcher SpecialRoute :=
  let m := GlobMatcher.add GlobMatcher.new "/api/0/projects/*/*/releases/*/files/" FileUpload in
  let m := GlobMatcher.add m "/api/0/projects/*/*/releases/*/dsyms/" FileUpload in
  GlobMatcher.add m "/api/0/organizations/*/chunk-upload/" ChunkUpload.

(** What the endpoint reads of the configuration. *)
Record ForwardConfig := MkForwardConfig {
  fwd_max_api_payload_size : Z;
  fwd_max_api_file_upload_size : Z;
  fwd_max_api_chunk_upload_size : Z;
}.

Definition get_limit_for_path (path : string) (config : ForwardConfig) : Z :=
  match GlobMatcher.test SPECIAL_ROUTES path with
  | Some FileUpload => fwd_max_api_file_upload_size config
  | Some ChunkUpload => fwd_max_api_chunk_upload_size config
  | None => fwd_max_api_payload_size config
  end.

(** A request: [forwarded_for] is what [ForwardedFor::from] computes.  Names of headers
    are in lower case, as [HeaderName] keeps them. *)
Record ForwardRequest := MkForwardRequest {
  fwd_method : string;
  fwd_path : string;
  fwd_path_and_query : option string;
  fwd_headers : list (string * string);
  fwd_forwarded_for : string;
  fwd_body : BodyRequest;
}.

Definition is_hop_by_hop (key : string) : bool := bool_decide (key ∈ HOP_BY_HOP_HEADERS).
Definition is_ignored (key : string) : bool := bool_decide (key ∈ IGNORED_REQUEST_HEADERS).

(** The loop over the headers of the request. *)
Definition copy_header {U} (builder : RequestBuilder U) (h : string * string) : RequestBuilder U :=
  if is_hop_by_hop h.1 || is_ignored h.1 then builder else RequestBuilder.header builder h.1 h.2.
Definition forward_builder {U} (request : ForwardRequest) (builder : RequestBuilder U) : RequestBuilder U :=
  RequestBuilder.header (foldl copy_header builder (fwd_headers request)) "X-Forwarded-For" (fwd_forwarded_for request).

(** The response to the client: status, headers and body. *)
Record ForwardResponse := MkForwardResponse {
  fwd_status : StatusCode;
  fwd_response_headers : list (string * string);
  fwd_response_body : string;
}.
Definition empty_response (status : StatusCode) : ForwardResponse := MkForwardResponse status [] "".

(** [ForwardedUpstreamRequestError::error_response] by its status; the one of a JSON error
    is that of actix-web. *)
Definition forward_error_status (json_error_status : StatusCode) (e : UpstreamRequestError) : StatusCode :=
  match e with
  | UpstreamRequestError.Http HttpError.Overflow => 413
  | UpstreamRequestError.Http (HttpError.Reqwest error) => default 500 (error_status error)
  | UpstreamRequestError.Http (HttpError.Io _) => 502
  | UpstreamRequestError.Http (HttpError.Json _) => json_error_status
  | UpstreamRequestError.Http (HttpError.Custom _) => 500
  | UpstreamRequestError.SendFailed e => if is_timeout e then 504 else 502
  | _ => 500
  end.

Definition has_content_type (headers : list (string * string)) : bool := existsb (fun h => bool_decide (h.1 = "content-type")) headers.

Definition forward_response (status : StatusCode) (headers : list (string * string)) (body : string) : ForwardResponse :=
  MkForwardResponse status (List.filter (fun h => negb (is_hop_by_hop h.1)) headers) (if has_content_type headers then body else "").

(** [transform] *)
Definition read_response (max_response_size : Z) (response : Http.Response.Response)
  : result UpstreamRequestError (StatusCode * list (string * string) * string) :=
  match Http.Response.bytes response max_response_size with
  | Ok body => Ok (Http.Response.status response, Http.Response.headers response, body)
  | Err e => Err (UpstreamRequestError.Http e)
  end.

(** [upstream] is the actor: the answer for a method, a path, headers and a body. *)
Definition forward_upstream `{BodyEnv} (json_error_status : StatusCode) (config : ForwardConfig)
  (upstream : RequestBuilder string -> result UpstreamRequestError Http.Response.Response) (request : ForwardRequest) : ForwardResponse :=
  match forward_body (fwd_body request) (get_limit_for_path (fwd_path request) config) with
  | Err ForwardPayloadError.Overflow => empty_response 413
  | Err _ => empty_response 400
  | Ok data =>
      let path := default "" (fwd_path_and_query request) in
      let builder := RequestBuilder.set_payload (forward_builder request (RequestBuilder.reqwest (fwd_method request) path)) data in
      match response ← upstream builder; read_response (fwd_max_api_payload_size config) response with
      | Ok (status, headers, body) => forward_response status headers body
      | Err e => empty_response (forward_error_status json_error_status e)
      end
  end.

(** ** Captured events and responses to errors *)

(** [get_captured_event]: the envelope as bytes, or the error as text. *)
Definition get_captured_event (to_vec : Envelope -> result string string) (captured : option (result string Envelope))
  : outcome (StatusCode * string) :=
  match captured with
  | Some (Ok envelope) => match to_vec envelope with Ok bytes => Ret (200, bytes) | Err _ => Panic end
  | Some (Err error) => Ret (400, error)
  | None => Ret (404, "")
  end.

(** [ErrorHandlers]: error responses get a body. *)
Definition is_error_status (status : StatusCode) : bool := bool_decide (400 <= status < 600).
Definition error_handlers (canonical_reason : StatusCode -> option string) (status : StatusCode) (body : option string)
  : StatusCode * (option string + ApiErrorResponse) :=
  match body with
  | None => if is_error_status status
            then (status, inr (ApiErrorResponse.with_detail (default "unknown error" (canonical_reason status))))
            else (status, inl None)
  | Some b => (status, inl (Some b))
  end.

(** ** Shutdown *)

Section ShutdownProofs.
Import Controller.

Definition stops (s : SignalType) : Prop := s = Int \/ s = Quit \/ s = Term.

(** Where a shutdown comes from: a signal, with the subscribers of that time; and its
    answers came behind it. *)
Definition traced (es : list Event) (e : Shutdown * list nat) : Prop :=
  exists es1 sg es2, es = es1 ++ Deliver (Signal sg) :: es2 /\ stops sg
    /\ asked e.1 = subscribers (controller (run es1))
    /\ Forall (fun r => exists n, Answer n r ∈ es2) e.2.

Lemma run_snoc es e : run (es ++ [e]) = step (run es) e.
Proof. unfold run. by rewrite foldl_app. Qed.

Lemma traced_snoc es e x : traced es x -> traced (es ++ [e]) x.
Proof.
  intros (es1 & sg & es2 & -> & Hs & Ha & Hr). exists es1, sg, (es2 ++ [e]). split_and!; [by rewrite <- app_assoc|done|done|].
  eapply Forall_impl; [done|]. intros r [n Hn]. exists n. set_solver.
Qed.

Lemma traced_all es e l : Forall (traced es) l -> Forall (traced (es ++ [e])) l.
Proof. intros Hl. eapply Forall_impl; [exact Hl|]. intros x. apply traced_snoc. Qed.

Lemma settle_all (P : Shutdown * list nat -> Prop) s :
  Forall P (waiting s) -> Forall P (timers s) -> Forall (fun x => complete x = true) (timers s) ->
  Forall P (waiting (settle s)) /\ Forall P (timers (settle s)) /\ Forall (fun x => complete x = true) (timers (settle s)).
Proof.
  intros Hw Ht Hc. simpl. rewrite !Forall_app. rewrite !List.Forall_forall in *.
  split_and!; try (intros x [Hx ?]%filter_In; auto); auto.
Qed.

Lemma handle_signal c m sd : (handle c m).2 = Some sd -> exists sg, m = Signal sg /\ stops sg /\ asked sd = subscribers c.
Proof. unfold stops. destruct m as [ [] | |]; simpl; intros [= <-]; eauto 6. Qed.

Lemma run_traced es :
  Forall (traced es) (waiting (run es)) /\ Forall (traced es) (timers (run es))
  /\ Forall (fun x => complete x = true) (timers (run es))
  /\ (running (run es) = false -> exists x, x ∈ timers (run es)).
Proof.
  induction es as [|e es IH] using rev_ind; [by repeat split; try constructor|].
  destruct IH as (Hw & Ht & Hc & Hrun). rewrite run_snoc. unfold step. destruct (running (run es)) eqn:Er.
  2:{ split_and!; [by apply traced_all..|done|by auto]. }
  assert (Forall (traced (es ++ [e])) (waiting (run es)) /\ Forall (traced (es ++ [e])) (timers (run es))) as [Hw' Ht'].
  { split; by apply traced_all. }
  destruct e as [m|n r|n].
  - destruct (handle (controller (run es)) m) as [c sd] eqn:E.
    edestruct (settle_all (traced (es ++ [Deliver m])) (MkSystem c (waiting (run es) ++ match sd with Some s => [(s, [])] | None => [] end)
      (timers (run es)) true)) as (H1 & H2 & H3); [|done|done|split_and!; [done..|done]].
    simpl. apply Forall_app. split; [done|]. destruct sd as [sd|]; [|done]. apply Forall_singleton.
    destruct (handle_signal (controller (run es)) m sd) as (sg & -> & Hs & Ha); [by rewrite E|].
    exists es, sg, []. by split_and!.
  - edestruct (settle_all (traced (es ++ [Answer n r])) (MkSystem (controller (run es))
      (alter (fun s => (s.1, r :: s.2)) n (waiting (run es))) (timers (run es)) true)) as (H1 & H2 & H3); [|done|done|split_and!; [done..|done]].
    simpl. apply Forall_lookup. intros k x. destruct (decide (k = n)) as [->|Hne].
    + rewrite list_lookup_alter_eq. destruct (waiting (run es) !! n) as [y|] eqn:Ey; [|done]. intros [= <-].
      rewrite Forall_lookup in Hw. destruct (Hw _ _ Ey) as (es1 & sg & es2 & -> & Hs & Ha & Hr).
      exists es1, sg, (es2 ++ [Answer n r]). split_and!; [by rewrite <- app_assoc|done|done|]. simpl. constructor.
      * exists n. set_solver.
      * eapply Forall_impl; [done|]. intros r' [k Hk]. exists k. set_solver.
    + rewrite list_lookup_alter_ne by done. rewrite Forall_lookup in Hw'. apply Hw'.
  - destruct (timers (run es) !! n) as [x|] eqn:Ex; simpl; split_and!; try done; [|by intros ?; congruence].
    intros _. exists x. by eapply list_elem_of_lookup_2.
Qed.

Lemma stop_traced es :
  running (run es) = false ->
  exists es1 sg es2, es = es1 ++ Deliver (Signal sg) :: es2 /\ stops sg
    /\ forall r, r ∈ subscribers (controller (run es1)) -> exists n, Answer n r ∈ es2.
Proof.
  destruct (run_traced es) as (_ & Ht & Hc & Hrun). intros [x Hx]%Hrun.
  rewrite Forall_forall in Ht, Hc. destruct (Ht x Hx) as (es1 & sg & es2 & -> & Hs & Ha & Hr).
  exists es1, sg, es2. split_and!; [done|done|]. intros r Hin. rewrite <- Ha in Hin.
  specialize (Hc x Hx). unfold complete in Hc. rewrite forallb_forall in Hc.
  apply list_elem_of_In, Hc, bool_decide_eq_true_1 in Hin. rewrite Forall_forall in Hr. by apply Hr.
Qed.

(** Subscribers stay, as long as Relay runs. *)
Lemma step_subscribers s e r : r ∈ subscribers (controller s) -> r ∈ subscribers (controller (step s e)).
Proof.
  intros Hr. unfold step. destruct (running s); [|done]. destruct e as [ [ [] |t|r'] |n r'|n]; simpl; try done; [set_solver|].
  by destruct (timers s !! n).
Qed.

Lemma run_subscribers es1 es2 r : r ∈ subscribers (controller (run es1)) -> r ∈ subscribers (controller (run (es1 ++ es2))).
Proof.
  intros Hr. induction es2 as [|e es2 IH] using rev_ind; [by rewrite app_nil_r|].
  rewrite app_assoc, run_snoc. by apply step_subscribers.
Qed.

(** Answers for the only shutdown, until it is complete; more of them do not matter. *)
Lemma answers_complete c sd rs : forall ans,
  asked sd ⊆ rs ++ ans ->
  exists ans', foldl step (settle (MkSystem c [(sd, ans)] [] true)) (Answer 0 <$> rs) = MkSystem c [] [(sd, ans')] true.
Proof.
  assert (forall rs ans, foldl step (MkSystem c [] [(sd, ans)] true) (Answer 0 <$> rs) = MkSystem c [] [(sd, ans)] true) as Hidle.
  { intros l ans. by induction l as [|r l IH]. }
  induction rs as [|r rs IH]; intros ans Hsub; unfold settle; cbn [waiting timers controller running List.filter app];
    destruct (complete (sd, ans)) eqn:E; simpl.
  - by exists ans.
  - exfalso. apply not_true_iff_false in E. apply E. unfold complete. apply forallb_forall. intros r Hr.
    apply bool_decide_eq_true_2. simpl in *. apply Hsub. by apply list_elem_of_In.
  - exists ans. apply (Hidle (r :: rs)).
  - apply IH. simpl. set_solver.
Qed.

(** Relay stops only after a signal to stop and after every actor that had subscribed by
    then has answered. *)
Theorem shutdown_orderly es :
  running (run es) = false ->
  exists es1 sg es2, es = es1 ++ Deliver (Signal sg) :: es2 /\ stops sg
    /\ forall r, r ∈ subscribers (controller (run es1)) -> exists n, Answer n r ∈ es2.
Proof. apply stop_traced. Qed.

(** When a running Relay with no shutdown under way gets a signal to stop and all its
    subscribers answer, in any order and however often, one stop is scheduled: 100 ms
    later, and on SIGTERM the configured timeout on top; the system ends when it fires. *)
Theorem shutdown_completes es sg rs (s := run (es ++ Deliver (Signal sg) :: (Answer 0 <$> rs))) :
  running (run es) = true -> waiting (run es) = [] -> timers (run es) = [] ->
  stops sg -> subscribers (controller (run es)) ⊆ rs ->
  waiting s = [] /\ running s = true
  /\ exists x, timers s = [x]
     /\ stop_delay x.1 = (match sg with Term => timeout (controller (run es)) | _ => 0 end) + 100 * 1000000
     /\ running (step s (Fire 0)) = false.
Proof.
  intros Hr Hw Ht Hs Hsub.
  assert (exists sd, handle (controller (run es)) (Signal sg) = (controller (run es), Some sd)
    /\ asked sd = subscribers (controller (run es))
    /\ stop_delay sd = (match sg with Term => timeout (controller (run es)) | _ => 0 end) + 100 * 1000000) as (sd & Eh & Ha & Hd).
  { destruct Hs as [-> | [-> | ->] ]; eexists; split_and!; reflexivity. }
  destruct (answers_complete (controller (run es)) sd rs []) as [ans E]; [rewrite Ha, app_nil_r; done|].
  assert (s = MkSystem (controller (run es)) [] [(sd, ans)] true) as ->.
  { unfold s. rewrite <- E. unfold run at 1. rewrite foldl_app. cbn [foldl]. fold (run es). f_equal.
    unfold step. by rewrite Hr, Eh, Hw, Ht. }
  split_and!; [done|done|]. exists (sd, ans). by split_and!.
Qed.

(** A subscriber that never answers keeps Relay running, whatever the timeout: nothing
    stops the system regardless of the receivers. *)
Theorem silent_subscriber_blocks es r :
  (forall n, ~ Answer n r ∈ es) -> running (run (Deliver (Subscribe r) :: es)) = true.
Proof.
  intros Hno. apply not_false_iff_true. intros (es1 & sg & es2 & E & Hs & Ha)%stop_traced.
  destruct es1 as [|e es1]; [done|]. injection E as <- ->.
  destruct (Ha r) as [n Hn]; [|apply (Hno n); set_solver].
  apply (run_subscribers [Deliver (Subscribe r)] es1). simpl. set_solver.
Qed.

End ShutdownProofs.

(** Once it is told to shut down, the health check is not ready any more, and stays alive. *)
Lemma unready_after_shutdown h a :
  Healthcheck.healthcheck_impl (Healthcheck.handle (Healthcheck.handle_shutdown h) Healthcheck.Readiness a) = 503
  /\ Healthcheck.healthcheck_impl (Healthcheck.handle (Healthcheck.handle_shutdown h) Healthcheck.Liveness a) = 200.
Proof. done. Qed.

(** ** Project configurations *)

Section ProjectConfigProofs.
Context `{ED : Ed25519}.

Lemma foldl_insert_functional {A B} (g : ProjectKey * B -> A) (a : A) (l : list (ProjectKey * B)) key : forall m : gmap ProjectKey A,
  Forall (fun e => e.1 = key -> g e = a) l ->
  foldl (fun m e => <[e.1 := g e]> m) m l !! key = if decide (key ∈ l.*1) then Some a else m !! key.
Proof.
  induction l as [|e l IH]; intros m Hl; [by rewrite decide_False by set_solver|].
  apply Forall_cons in Hl as [Ha Hl]. simpl in *. rewrite IH by done.
  destruct (decide (key ∈ l.*1)); [by rewrite decide_True by set_solver|].
  destruct (decide (e.1 = key)) as [<- |Hne]; [by rewrite lookup_insert_eq, decide_True, Ha by set_solver|].
  rewrite lookup_insert_ne by done. by rewrite decide_False by set_solver.
Qed.

(** C31: A Relay that asks for project configurations gets an entry for the keys it asked for
    only; it sees a state only when it is internal or the project trusts its key, invalid
    states are left out, and all but the limited fields only when it is internal and
    asks for them. *)
Theorem project_configs_access relay query cache key :
  get_project_configs relay query cache !! key =
    if decide (key ∈ gps_public_keys query) then
      match cache key with
      | Some s =>
          if RelayInfo.internal relay
             || bool_decide (public_to_bytes (PublicKey.inner (RelayInfo.public_key relay)) ∈ trusted_relays (ProjectState.config s))
          then if ProjectState.invalid s then None
               else Some (Some (if RelayInfo.internal relay && full_config query then Full s else Limited (limited s)))
          else Some None
      | None => Some None
      end
    else None.
Proof.
  unfold get_project_configs. set (v := fun key => visible_state relay (cache key)).
  set (ok := fun e : ProjectKey * option ProjectState => negb (match e.2 with Some s => ProjectState.invalid s | None => false end)).
  set (full := RelayInfo.internal relay && full_config query).
  rewrite (foldl_insert_functional (fun e => (fun s => wrap_state s full) <$> e.2) ((fun s => wrap_state s full) <$> v key)).
  2:{ apply List.Forall_forall. intros e [He _]%filter_In <-. apply in_map_iff in He as (k & <- & _). done. }
  rewrite lookup_empty.
  assert (key ∈ (List.filter ok ((fun k => (k, v k)) <$> gps_public_keys query)).*1
    <-> key ∈ gps_public_keys query /\ ok (key, v key) = true) as Hin.
  { rewrite list_elem_of_fmap. setoid_rewrite list_elem_of_In. split.
    - intros (e & -> & [He Hok]%filter_In). apply in_map_iff in He as (k & <- & Hk). done.
    - intros [Hk Hok]. exists (key, v key). split; [done|]. apply filter_In. split; [|done]. apply in_map_iff. eauto. }
  destruct (decide (key ∈ gps_public_keys query)) as [Hk|Hk]; [|by rewrite decide_False by tauto].
  unfold ok, v, visible_state, has_access, wrap_state in *. destruct (cache key) as [s|]; simpl in *; [|by rewrite decide_True by tauto].
  destruct (RelayInfo.internal relay || bool_decide (_ ∈ trusted_relays _)); simpl in *; [|by rewrite decide_True by tauto].
  destruct (ProjectState.invalid s); simpl in *; [by rewrite decide_False by naive_solver|by rewrite decide_True by tauto].
Qed.

End ProjectConfigProofs.

(** ** Forwarding *)

Definition may_cross (h : string * string) : bool := negb (is_hop_by_hop h.1).
Definition passes (h : string * string) : bool := negb (is_hop_by_hop h.1 || is_ignored h.1).

Lemma copy_headers {U} hs : forall builder : RequestBuilder U,
  foldl copy_header builder hs =
    RequestBuilder.MkRequestBuilder U (RequestBuilder.method builder) (RequestBuilder.url builder)
      (RequestBuilder.headers builder ++ List.filter passes hs) (RequestBuilder.payload builder) (RequestBuilder.http_encoding builder).
Proof.
  induction hs as [|h hs IH]; intros builder; simpl; [rewrite app_nil_r; by destruct builder|].
  rewrite IH. unfold copy_header, passes at 2. destruct (is_hop_by_hop h.1 || is_ignored h.1); simpl; [done|].
  rewrite <- app_assoc. by destruct h.
Qed.

(** The request to the upstream has the method, path and query of the client and its
    payload, all its headers but the hop-by-hop ones, the host and those of the encoding,
    and one more for the address; and the client gets the status of the answer and its
    headers, hop-by-hop ones left out, with the body if there is a content type. *)
Theorem forward_transparent `{BodyEnv} json_error_status config upstream request data response body :
  forward_body (fwd_body request) (get_limit_for_path (fwd_path request) config) = Ok data ->
  upstream (RequestBuilder.MkRequestBuilder string (fwd_method request) (default "" (fwd_path_and_query request))
    (List.filter passes (fwd_headers request) ++ [("X-Forwarded-For", fwd_forwarded_for request)]) (Some data) HttpEncoding.Identity)
    = Ok response ->
  Http.Response.bytes response (fwd_max_api_payload_size config) = Ok body ->
  forward_upstream json_error_status config upstream request
  = MkForwardResponse (Http.Response.status response) (List.filter may_cross (Http.Response.headers response))
      (if has_content_type (Http.Response.headers response) then body else "").
Proof.
  intros Hb Hu Hr. unfold forward_upstream. rewrite Hb. unfold forward_builder. rewrite copy_headers.
  unfold RequestBuilder.set_payload, RequestBuilder.header, RequestBuilder.reqwest.
  cbn [RequestBuilder.method RequestBuilder.url RequestBuilder.headers RequestBuilder.payload RequestBuilder.http_encoding app].
  rewrite Hu. cbn [mbind result_bind]. unfold read_response. by rewrite Hr.
Qed.

(** ** Witnesses *)

Definition sigterm_run : list Controller.Event :=
  [Controller.Deliver (Controller.Subscribe 1); Controller.Deliver (Controller.Configure 5); Controller.Deliver (Controller.Subscribe 2)].

Lemma shutdown_orderly_witness :
  let es := sigterm_run ++ [Controller.Deliver (Controller.Signal Controller.Term); Controller.Answer 0 2; Controller.Answer 0 1; Controller.Fire 0] in
  exists es1 sg es2, es = es1 ++ Controller.Deliver (Controller.Signal sg) :: es2 /\ stops sg.
Proof.
  destruct (shutdown_orderly (sigterm_run ++ [Controller.Deliver (Controller.Signal Controller.Term); Controller.Answer 0 2;
    Controller.Answer 0 1; Controller.Fire 0])) as (es1 & sg & es2 & E & Hs & _); [vm_compute; reflexivity|]. exists es1, sg, es2. split; [exact E|exact Hs].
Defined.

Lemma shutdown_completes_witness :
  let s := Controller.run (sigterm_run ++ Controller.Deliver (Controller.Signal Controller.Term) :: (Controller.Answer 0 <$> [2%nat; 1%nat])) in
  Controller.waiting s = [] /\ exists x, Controller.timers s = [x] /\ Controller.stop_delay x.1 = 100000005.
Proof.
  destruct (shutdown_completes sigterm_run Controller.Term [2%nat; 1%nat]) as (Hw & _ & x & Ht & Hd & _);
    [reflexivity|reflexivity|reflexivity|by do 2 right|vm_compute; set_solver|]. split; [exact Hw|]. exists x. split; [exact Ht|exact Hd].
Defined.

Lemma silent_subscriber_blocks_witness :
  Controller.running (Controller.run [Controller.Deliver (Controller.Subscribe 1); Controller.Deliver (Controller.Signal Controller.Term); Controller.Fire 0]) = true.
Proof.
  apply (silent_subscriber_blocks [Controller.Deliver (Controller.Signal Controller.Term); Controller.Fire 0] 1). intros n. set_solver.
Defined.

Lemma forward_transparent_witness :
  let request := MkForwardRequest "GET" "/api/0/" (Some "/api/0/?x") [("host", "relay"); ("te", "gzip"); ("accept", "a")] "1.1.1.1"
    (MkBodyRequest "GET" "" "" None (MkSharedPayload [] false)) in
  @forward_upstream plain_bodies 500 (MkForwardConfig 10 20 30)
    (fun b => Ok (Http.Response.MkResponse (200 + Z.of_nat (length (RequestBuilder.headers b)))
                    [("content-type", "text"); ("upgrade", "x")] [Ok "ok"])) request
  = MkForwardResponse 202 [("content-type", "text")] "ok".
Proof.
  apply (@forward_transparent plain_bodies) with (data := "") (body := "ok")
    (response := Http.Response.MkResponse 202 [("content-type", "text"); ("upgrade", "x")] [Ok "ok"]); by vm_compute.
Defined.

(** The limits of the three special routes, and a path that only looks like one. *)
Lemma special_route_limits :
  (fun p => get_limit_for_path p (MkForwardConfig 1 2 3)) <$>
    ["/api/0/projects/o/p/releases/1.0/files/"; "/api/0/projects/o/p/releases/1.0/dsyms/"; "/api/0/organizations/o/chunk-upload/";
     "/api/0/organizations/o/x/chunk-upload/"]
  = [2; 2; 3; 1].
Proof. by vm_compute. Qed.
