(* ===== verification/Cli.v ===== *)
(** * relay: the command line (cli.rs, setup.rs, utils.rs)

    The commands that load, override and write the configuration of RelayConfig.v:
    [run] up to the start of the server, [credentials] and [config init].  Arguments are
    what clap has parsed, the environment a map, and the terminal the sequence of
    answers that the user gives; texts that are printed are left out. *)

From Stdlib Require Import Ascii String.
From S2P Require Import Prelude Strings Floats Types Common Protocol Quota Filters Sampling Extractors Envelopes Sessions Auth Http Projects Relays RelayConfig.

Open Scope string_scope.
Open Scope Z_scope.
Open Scope list_scope.

(** [clap::ArgMatches] *)
Record ArgMatches := MkArgMatches { present : gset string; arg_values : gmap string string }.
Definition is_present (self : ArgMatches) (name : string) : bool :=
  bool_decide (name ∈ present self) || bool_decide (is_Some (arg_values self !! name)).
Definition value_of (self : ArgMatches) (name : string) : option string := arg_values self !! name.

(** ** Overrides *)

Definition extract_config_args (matches : ArgMatches) : OverridableConfig :=
  let processing := if is_present matches "processing" then Some "true"
                    else if is_present matches "no_processing" then Some "false" else None in
  {| o_upstream := value_of matches "upstream"; o_host := value_of matches "host";
     o_port := value_of matches "redis_url"; o_processing := processing;
     o_kafka_url := value_of matches "kafka_broker_url"; o_redis_url := value_of matches "redis_url";
     o_id := value_of matches "id"; o_public_key := value_of matches "public_key";
     o_secret_key := value_of matches "secret_key"; o_outcome_source := value_of matches "source_id" |}.

(** [std::env::var], a variable being missing when it is not Unicode. *)
Definition extract_config_env_vars (env : gmap string string) : OverridableConfig :=
  {| o_upstream := env !! "RELAY_UPSTREAM_URL"; o_host := env !! "RELAY_HOST"; o_port := env !! "RELAY_PORT";
     o_processing := env !! "RELAY_PROCESSING_ENABLED"; o_kafka_url := env !! "RELAY_KAFKA_BROKER_URL";
     o_redis_url := env !! "RELAY_REDIS_URL"; o_id := env !! "RELAY_ID"; o_public_key := env !! "RELAY_PUBLIC_KEY";
     o_secret_key := env !! "RELAY_SECRET_KEY"; o_outcome_source := None |}.

(** [failure::Error]: an error of the configuration, or a message. *)
Inductive CliError := ConfigFailed (e : ConfigError) | Message (text : string).

Definition of_config {A} (r : result ConfigError A) : result CliError A :=
  match r with Ok a => Ok a | Err e => Err (ConfigFailed e) end.

(** ** The terminal *)

Module Terminal.

(** What the user enters: a line, an item of a list, yes or no. *)
Inductive Answer := Text (s : string) | Choice (n : nat) | Confirm (b : bool).

Definition interrupted : CliError := Message "interrupted".

Definition select (inputs : list Answer) : result CliError (nat * list Answer) :=
  match inputs with Choice n :: inputs => Ok (n, inputs) | _ => Err interrupted end.
Definition confirm (inputs : list Answer) : result CliError (bool * list Answer) :=
  match inputs with Confirm b :: inputs => Ok (b, inputs) | _ => Err interrupted end.

(** [prompt_value_no_default]: asks until the answer parses. *)
Fixpoint prompt {V} (parse : string -> option V) (inputs : list Answer) : result CliError (V * list Answer) :=
  match inputs with
  | Text s :: inputs => match parse s with Some value => Ok (value, inputs) | None => prompt parse inputs end
  | _ => Err interrupted
  end.

(** [prompt_value]: an empty line stands for the default. *)
Definition prompt_default {V} (parse : string -> option V) (v : V) (inputs : list Answer) : result CliError (V * list Answer) :=
  prompt (fun s => if bool_decide (s = "") then Some v else parse s) inputs.

End Terminal.
Import Terminal (Answer).

Section Commands.
Context `{ED : Ed25519} {B64 : Base64} {UP : UrlParser} {OE : OverrideEnv}.
Context {CV : ConfigCodec ConfigValues} {CT : ConfigCodec CredentialsText} {CM : ConfigCodec MinimalConfig}.

(** ** [run] *)

Definition is_managed (self : Config) : bool := match relay_mode self with RelayMode.Managed => true | _ => false end.

Definition check_config (config : Config) : result CliError () :=
  if is_managed config && negb (has_credentials config)
  then Err (Message "relay has no credentials, which are required in managed mode") else Ok ().

Definition override_with (o : OverridableConfig) (config : Config) : result CliError Config :=
  match apply_override o config with (config, Ok _) => Ok config | (_, Err e) => Err (ConfigFailed e) end.

(** [execute] for the command [run], up to the start of the server. *)
Definition load_config (current_dir : option string) (feature : bool) (fs : Files) (env : gmap string string)
  (config_path : option string) (matches : ArgMatches) : result CliError Config :=
  config ← of_config (from_path current_dir feature fs (default ".relay" config_path));
  config ← override_with (extract_config_env_vars env) config;
  config ← override_with (extract_config_args matches) config;
  _ ← check_config config;
  Ok config.

(** ** [credentials] *)

Definition stored (r : Files * Config * result ConfigError bool) : Files * Config * result CliError bool :=
  let '(fs, config, r) := r in (fs, config, of_config r).

(** [generate]; the credentials it draws are an argument, and [None] is printing them. *)
Definition credentials_generate (fresh : Credentials) (fs : Files) (config : Config) (matches : ArgMatches)
  : Files * Config * result CliError (option bool) :=
  if has_credentials config && negb (is_present matches "overwrite") then
    (fs, config, Err (Message "aborting because credentials already exist. Pass --overwrite to force."))
  else if is_present matches "stdout" then (fs, config, Ok None)
  else let '(fs, config, r) := stored (replace_credentials fs config (Some fresh)) in (fs, config, Some <$> r).

(** A value that was given and parsed, or else one of the stored credentials. *)
Definition given_or_stored {A} (parse : string -> option A) (message : string) (value : option string) (old : option A)
  : result CliError (option A) :=
  match value with
  | Some s => match parse s with Some a => Ok (Some a) | None => Err (Message message) end
  | None => Ok old
  end.

(** The prompt for a value that is neither given nor stored. *)
Definition known_or_prompt {A} (parse : string -> option A) (known : option A) (inputs : list Answer)
  : result CliError (A * list Answer) :=
  match known with Some a => Ok (a, inputs) | None => Terminal.prompt parse inputs end.

(** The identifiers of [random] and of the confirmation are drawn. *)
Definition parse_id (drawn : RelayId) (s : string) : option RelayId :=
  if bool_decide (s = "random") then Some drawn else uuid_parse_str s.
Definition prompt_id (drawn : RelayId) (known : option RelayId) (inputs : list Answer) : result CliError (RelayId * list Answer) :=
  match known with
  | Some id => Ok (id, inputs)
  | None =>
      '(random, inputs) ← Terminal.confirm inputs;
      if random : bool then Ok (drawn, inputs) else Terminal.prompt uuid_parse_str inputs
  end.

Definition credentials_to_set (drawn : RelayId) (inputs : list Answer) (config : Config) (matches : ArgMatches)
  : result CliError Credentials :=
  sk ← given_or_stored parse_secret "invalid secret key supplied" (value_of matches "secret_key") (secret_key config);
  pk ← given_or_stored parse_public "invalid public key supplied" (value_of matches "secret_key") (public_key config);
  id ← given_or_stored (parse_id drawn) "invalid relay id supplied" (value_of matches "id") (relay_id config);
  '(sk, inputs) ← known_or_prompt parse_secret sk inputs;
  '(pk, inputs) ← known_or_prompt parse_public pk inputs;
  '(id, inputs) ← prompt_id drawn id inputs;
  Ok (Credentials.MkCredentials _ sk pk id).

Definition credentials_set (drawn : RelayId) (inputs : list Answer) (fs : Files) (config : Config) (matches : ArgMatches)
  : Files * Config * result CliError bool :=
  match credentials_to_set drawn inputs config matches with
  | Ok credentials => stored (replace_credentials fs config (Some credentials))
  | Err e => (fs, config, Err e)
  end.

Definition credentials_remove (inputs : list Answer) (fs : Files) (config : Config) (matches : ArgMatches)
  : Files * Config * result CliError bool :=
  if has_credentials config then
    match (if is_present matches "yes" then Ok (true, inputs) else Terminal.confirm inputs) with
    | Ok (true, _) => stored (replace_credentials fs config None)
    | Ok (false, _) => (fs, config, Ok false)
    | Err e => (fs, config, Err e)
    end
  else (fs, config, Ok false).

(** ** [config init] *)

Definition choose_mode (n : nat) : option RelayMode :=
  match n with 0 => Some RelayMode.Managed | 1 => Some RelayMode.Static | 2 => Some RelayMode.Proxy | _ => None end%nat.

(** [saturating_add] on ports. *)
Definition default_tls_port (port : Z) : Z := Z.min 65535 (port + 443).

Definition prompt_tls (relay : Relay) (inputs : list Answer) : result CliError (Relay * list Answer) :=
  '(tls, inputs) ← Terminal.confirm inputs;
  if tls : bool then
    '(port, inputs) ← Terminal.prompt_default parse_port (default_tls_port (Relay.port relay)) inputs;
    '(path, inputs) ← Terminal.prompt Some inputs;
    '(password, inputs) ← Terminal.prompt Some inputs;
    Ok (Relay.MkRelay (Relay.mode relay) (Relay.upstream relay) (Relay.host relay) (Relay.port relay) (Some port) (Some path)
          (Some password), inputs)
  else Ok (relay, inputs).

Definition prompt_relay (relay : Relay) (inputs : list Answer) : result CliError (Relay * list Answer) :=
  '(n, inputs) ← Terminal.select inputs;
  mode ← ok_or (choose_mode n) Terminal.interrupted;
  '(upstream, inputs) ← Terminal.prompt_default parse_upstream (Relay.upstream relay) inputs;
  '(host, inputs) ← Terminal.prompt_default parse_host (Relay.host relay) inputs;
  '(port, inputs) ← Terminal.prompt_default parse_port (Relay.port relay) inputs;
  prompt_tls (Relay.MkRelay mode upstream host port (Relay.tls_port relay) (Relay.tls_identity_path relay)
                (Relay.tls_identity_password relay)) inputs.

(** The configuration to create: [None] is the choice to abort. *)
Definition new_config (fs : Files) (inputs : list Answer) : result CliError (option MinimalConfig) :=
  let default_config := Relay.default_ fs in
  '(item, inputs) ← Terminal.select inputs;
  match item with
  | 0%nat => Ok (Some (MkMinimalConfig default_config))
  | 1%nat => '(relay, _) ← prompt_relay default_config inputs; Ok (Some (MkMinimalConfig relay))
  | 2%nat => Ok None
  | _ => Err Terminal.interrupted
  end.

(** The part behind the creation: whether credentials were generated. *)
Definition complete_config (dir : string) (feature : bool) (fresh : Credentials) (fs : Files) (path : string)
  : Files * result CliError bool :=
  match from_path (Some dir) feature fs path with
  | Err e => (fs, Err (ConfigFailed e))
  | Ok config =>
      if is_managed config && negb (has_credentials config) then
        let '(fs, _, r) := replace_credentials fs config (Some fresh) in (fs, (fun _ => true) <$> of_config r)
      else (fs, Ok false)
  end.

(** Whether something was done; [None] when the user aborts. *)
Definition init_config (dir : string) (feature : bool) (fresh : Credentials) (inputs : list Answer) (fs : Files)
  (config_path : string) : Files * result CliError (option bool) :=
  let path := path_join dir config_path in
  if config_exists fs path then
    let '(fs, r) := complete_config dir feature fresh fs path in (fs, Some <$> r)
  else
    match new_config fs inputs with
    | Err e => (fs, Err e)
    | Ok None => (fs, Ok None)
    | Ok (Some mincfg) =>
        match save_in_folder fs mincfg path with
        | (fs, Err e) => (fs, Err (ConfigFailed e))
        | (fs, Ok _) => let '(fs, r) := complete_config dir feature fresh fs path in (fs, (fun _ => Some true) <$> r)
        end
    end.

End Commands.

(** ** Where a setting comes from *)

Definition first_of {A} (a b : option A) : option A := match a with Some _ => a | None => b end.

Lemma taken_twice {A} (p : string -> option A) o1 o2 a b c :
  taken p o1 a b -> taken p o2 b c -> taken p (first_of o2 o1) a c.
Proof. unfold taken. destruct o1, o2; simpl; congruence. Qed.

Section Precedence.
Context `{ED : Ed25519} {B64 : Base64} {UP : UrlParser} {OE : OverrideEnv}.
Context {CV : ConfigCodec ConfigValues} {CT : ConfigCodec CredentialsText} {CM : ConfigCodec MinimalConfig}.

Lemma override_with_ok o c c' : override_with o c = Ok c' <-> apply_override o c = (c', Ok ()).
Proof. unfold override_with. destruct (apply_override o c) as [? [[]|]]; naive_solver. Qed.

Lemma check_config_ok c : check_config c = Ok () <-> (is_managed c = true -> has_credentials c = true).
Proof. unfold check_config. destruct (is_managed c), (has_credentials c); simpl; naive_solver. Qed.

(** A server that starts runs with the settings of the command line before those of the
    environment before those of the configuration file, for the upstream, the host,
    processing and the source of outcomes; everything else is as in the file, and a
    managed Relay has credentials. *)
Theorem settings_precedence dir feature fs env p matches c :
  load_config dir feature fs env p matches = Ok c ->
  exists file, from_path dir feature fs (default ".relay" p) = Ok file
  /\ taken parse_upstream (first_of (value_of matches "upstream") (env !! "RELAY_UPSTREAM_URL"))
       (upstream_descriptor file) (upstream_descriptor c)
  /\ taken parse_host (first_of (value_of matches "host") (env !! "RELAY_HOST")) (listen_addr file).1 (listen_addr c).1
  /\ taken parse_enabled (first_of (o_processing (extract_config_args matches)) (env !! "RELAY_PROCESSING_ENABLED"))
       (processing_enabled file) (processing_enabled c)
  /\ taken (fun s => Some (Some s)) (value_of matches "source_id") (outcome_source file) (outcome_source c)
  /\ same_rest file c
  /\ (relay_mode c = RelayMode.Managed -> is_Some (Config.credentials c)).
Proof.
  unfold load_config. destruct (from_path _ _ _ _) as [file|e]; [|done]. cbn [mbind result_bind of_config].
  destruct (override_with _ file) as [c1|] eqn:E1; [|done]. cbn [mbind result_bind].
  destruct (override_with _ c1) as [c2|] eqn:E2; [|done]. cbn [mbind result_bind].
  destruct (check_config c2) as [[]|] eqn:E3; [|done]. intros [= <-]. exists file. split; [done|].
  apply override_with_ok in E1 as (U1 & Ho1 & _ & P1 & _ & _ & S1 & R1)%overrides_in_effect.
  apply override_with_ok in E2 as (U2 & Ho2 & _ & P2 & _ & _ & S2 & R2)%overrides_in_effect.
  split_and!; [exact (taken_twice _ _ _ _ _ _ U1 U2)|exact (taken_twice _ _ _ _ _ _ Ho1 Ho2)|exact (taken_twice _ _ _ _ _ _ P1 P2)
    | | |].
  - pose proof (taken_twice _ _ _ _ _ _ S1 S2) as Hs. simpl in Hs. by destruct (value_of matches "source_id").
  - unfold same_rest in *. destruct_and!. split_and!; congruence.
  - intros Hm. rewrite check_config_ok in E3. unfold is_managed, has_credentials in E3. rewrite Hm in E3.
    by eapply bool_decide_eq_true_1, E3.
Qed.

End Precedence.

(** ** Initialization *)

Section Init.
Context `{ED : Ed25519} {B64 : Base64} {UP : UrlParser} {OE : OverrideEnv}.
Context {CV : ConfigCodec ConfigValues} {CT : ConfigCodec CredentialsText} {CM : ConfigCodec MinimalConfig}.
Context {CTL : ConfigCodecLaws CredentialsText} {EL : Ed25519Laws} {BL : Base64Laws}.

Lemma starts_with_slash s : starts_with "/" s = true <-> exists r, s = String "/" r.
Proof.
  unfold starts_with. destruct s as [|a s]; cbn [String.prefix]; [naive_solver|].
  destruct (ascii_dec "/" a) as [<- |Hn]; [|naive_solver]. split; [eauto|]. by destruct s.
Qed.

Lemma join_absolute dir p : starts_with "/" dir = true -> starts_with "/" (path_join dir p) = true.
Proof.
  unfold path_join. intros [r ->]%starts_with_slash. destruct (starts_with "/" p) eqn:E; [done|].
  rewrite bool_decide_eq_false_2 by done. apply starts_with_slash. destruct (ends_with _ _); eexists; reflexivity.
Qed.

Lemma from_path_join dir feature fs p :
  starts_with "/" dir = true -> from_path (Some dir) feature fs (path_join dir p) = from_path (Some dir) feature fs p.
Proof. intros Hd. unfold from_path. assert (path_join dir (path_join dir p) = path_join dir p) as ->; [|done].
  unfold path_join at 1. by rewrite join_absolute. Qed.

Lemma from_path_path dir feature fs p c : from_path (Some dir) feature fs p = Ok c -> Config.path c = path_join dir p.
Proof.
  unfold from_path. destruct (load ConfigValues fs _); [|done]. cbn [mbind result_bind].
  destruct (if fs_exists fs _ then _ else _); [|done]. cbn [mbind result_bind]. destruct (negb feature && _); [done|].
  by intros [= <-].
Qed.

(** What is left after the second part: a configuration that can run, and nothing to do. *)
Lemma complete_config_ready dir feature fresh fs path fs' b :
  starts_with "/" path = true -> object_path Credentials path ∉ unreadable fs ->
  complete_config dir feature fresh fs path = (fs', Ok b) ->
  (exists c, from_path (Some dir) feature fs' path = Ok c /\ check_config c = Ok ())
  /\ (config_exists fs path = true -> config_exists fs' path = true)
  /\ forall fresh', complete_config dir feature fresh' fs' path = (fs', Ok false).
Proof.
  intros Ha Hr. unfold complete_config. destruct (from_path _ _ fs path) as [c|e] eqn:Hf; [|done].
  destruct (is_managed c && negb (has_credentials c)) eqn:Em.
  - apply andb_true_iff in Em as [Hm Hc]. unfold replace_credentials.
    assert (Config.credentials c = None) as Hn.
    { unfold has_credentials in Hc. destruct (Config.credentials c); [|done]. by rewrite bool_decide_eq_true_2 in Hc. }
    rewrite Hn. cbn [same_credentials]. destruct (save _ _ _ _) as [fs1 [[]|e]] eqn:Es; [|done]. intros [= <- <-].
    assert (Config.path c = path) as Hp.
    { apply from_path_path in Hf as ->. unfold path_join. by rewrite Ha. }
    destruct (from_path_saved (Some dir) feature fs path c fresh fs1) as [Hf' He]; [by rewrite Hp|done|done|].
    rewrite Hp in He. rewrite Hf'.
    change (has_credentials (Config.set_credentials c (Some (reloaded fresh)))) with true. rewrite andb_false_r.
    split_and!; [eexists; split; [done|]|done|done]. by apply check_config_ok.
  - intros [= <- <-]. rewrite Hf, Em. split_and!; [|done|done]. exists c. split; [done|]. unfold check_config. by rewrite Em.
Qed.

Lemma save_in_folder_exists fs mincfg path fs' :
  save_in_folder fs mincfg path = (fs', Ok ()) -> config_exists fs' path = true /\ unreadable fs' = unreadable fs.
Proof.
  assert (forall fs1, save MinimalConfig fs1 mincfg path = (fs', Ok ()) ->
    config_exists fs' path = true /\ unreadable fs' = unreadable fs1) as Hs.
  { intros fs1. unfold save, fs_truncate. destruct (blocked fs1 _); [done|]. destruct (write_object mincfg) as [text []]; [|done].
    intros [= <-]. split; [|done]. unfold config_exists, fs_exists. cbn [fs_write set_contents contents].
    change (object_path ConfigValues path) with (object_path MinimalConfig path). by rewrite lookup_insert_eq. }
  unfold save_in_folder, fs_create_dir_all. destruct (fs_exists fs path); [apply Hs|].
  case_bool_decide; [done|]. by intros H1%Hs.
Qed.

(** [relay config init] that is not aborted leaves a configuration that the server accepts,
    with credentials in managed mode, and running it again asks nothing and changes
    nothing. *)
Theorem init_config_ready dir feature fresh inputs fs p fs' b :
  starts_with "/" dir = true -> object_path Credentials (path_join dir p) ∉ unreadable fs ->
  init_config dir feature fresh inputs fs p = (fs', Ok (Some b)) ->
  (exists c, from_path (Some dir) feature fs' p = Ok c /\ check_config c = Ok ())
  /\ forall fresh' inputs', init_config dir feature fresh' inputs' fs' p = (fs', Ok (Some false)).
Proof.
  intros Hd Hr. pose proof (join_absolute dir p Hd) as Ha. setoid_rewrite <- (from_path_join dir feature fs' p Hd).
  unfold init_config. set (path := path_join dir p) in *.
  assert (forall fs1 b1, object_path Credentials path ∉ unreadable fs1 -> config_exists fs1 path = true ->
    complete_config dir feature fresh fs1 path = (fs', Ok b1) ->
    (exists c, from_path (Some dir) feature fs' path = Ok c /\ check_config c = Ok ())
    /\ forall fresh' inputs', init_config dir feature fresh' inputs' fs' p = (fs', Ok (Some false))) as Hdone.
  { intros fs1 b1 Hr1 He1 Hc1. apply complete_config_ready in Hc1 as (Hf & He & Hagain); [|done..]. split; [done|].
    intros fresh' inputs'. unfold init_config. fold path. rewrite (He He1), Hagain. done. }
  destruct (config_exists fs path) eqn:E.
  - destruct (complete_config _ _ _ _ _) as [fs1 [b1|e]] eqn:Ec; [|done]. intros [= <- <-]. by eapply Hdone.
  - destruct (new_config fs inputs) as [[mincfg|]|e]; [|done|done]. destruct (save_in_folder fs mincfg path) as [fs1 [[]|e]] eqn:Es; [|done].
    apply save_in_folder_exists in Es as [He1 Hu1].
    destruct (complete_config _ _ _ fs1 _) as [fs2 [b1|e]] eqn:Ec; [|done]. intros [= <- <-]. eapply Hdone; [|done..]. by rewrite Hu1.
Qed.

End Init.

(** ** Where the code departs from what it means to do *)

Section Findings.
Context `{ED : Ed25519} {B64 : Base64} {UP : UrlParser} {OE : OverrideEnv}.
Context {CV : ConfigCodec ConfigValues} {CT : ConfigCodec CredentialsText}.

(** [--port] has no effect, and [--redis-url], whose value is taken for the port, makes
    [run] fail unless its value is a number. *)
Theorem port_argument_broken dir feature fs env p present values url :
  (forall port, extract_config_args (MkArgMatches present (<["port" := port]> values))
                = extract_config_args (MkArgMatches present values))
  /\ (parse_port url = None -> forall c,
      load_config dir feature fs env p (MkArgMatches present (<["redis_url" := url]> values)) <> Ok c).
Proof.
  split.
  - intros port. unfold extract_config_args, is_present, value_of. cbn [arg_values Cli.present].
    by rewrite !lookup_insert_ne by done.
  - intros Hp c. unfold load_config. destruct (from_path _ _ _ _) as [file|e]; [|done]. cbn [mbind result_bind of_config].
    destruct (override_with _ file) as [c1|] eqn:E1; [|done]. cbn [mbind result_bind].
    destruct (override_with _ c1) as [c2|] eqn:E2; [|done].
    apply override_with_ok, apply_override_ok in E2 as [(_ & _ & Hport & _) _]. exfalso.
    cbn [extract_config_args o_port] in Hport. unfold value_of in Hport. cbn [arg_values] in Hport.
    rewrite lookup_insert_eq in Hport. destruct Hport as [n Hport]; [by eexists|].
    change (parse_port url = Some n) in Hport. congruence.
Qed.

(** [credentials set] reads the public key out of the secret key: the value of
    [--public-key] is not looked at. *)
Theorem public_key_argument_ignored drawn inputs config present values key :
  credentials_to_set drawn inputs config (MkArgMatches present (<["public_key" := key]> values))
  = credentials_to_set drawn inputs config (MkArgMatches present values).
Proof. unfold credentials_to_set, value_of. cbn [arg_values]. by rewrite !lookup_insert_ne by done. Qed.

(** With a secret key of 32 bytes that are also those of a public key, what is stored as
    the public key are the bytes of the secret key. *)
Theorem secret_key_stored_as_public drawn inputs config matches text bytes credentials :
  value_of matches "secret_key" = Some text -> b64_decode text = Some bytes ->
  credentials_to_set drawn inputs config matches = Ok credentials ->
  public_from_bytes bytes = Some (PublicKey.inner (Credentials.public_key credentials)).
Proof.
  intros Hv Hb. unfold credentials_to_set. rewrite Hv. cbn [given_or_stored].
  destruct (parse_secret text); cbn [mbind result_bind]; [|done]. unfold parse_public, PublicKey.from_str. rewrite Hb.
  destruct (public_from_bytes bytes) as [pk|]; cbn [res_ok mbind result_bind]; [|done].
  destruct (given_or_stored _ _ _ _) as [id|]; [|done]. cbn [mbind result_bind known_or_prompt].
  destruct (prompt_id _ _ _) as [[i rest]|]; [|done]. cbn [mbind result_bind]. by intros [= <-].
Qed.

End Findings.

(** ** Witnesses *)

Section Witness.
#[local] Existing Instances Toy.ed Toy.b64 Toy.ed_laws Toy.b64_laws credentials_text credentials_text_laws values_codec text_env no_urls.
#[local] Instance minimal_codec : ConfigCodec MinimalConfig := {| read_object _ := None; write_object _ := ("relay:", true) |}.

Definition run_arguments : ArgMatches := MkArgMatches {["processing"]} {["host" := "10.0.0.1"; "source_id" := "eu"]}.
Definition run_environment : gmap string string :=
  {["RELAY_HOST" := "10.0.0.2"; "RELAY_ID" := "7"; "RELAY_PUBLIC_KEY" := b64_encode (Toy.repeat_char "a" 32);
    "RELAY_SECRET_KEY" := b64_encode (Toy.repeat_char "a" 32)]}.

Lemma settings_precedence_witness :
  exists c, load_config None true empty_files run_environment (Some "/.relay") run_arguments = Ok c
    /\ (listen_addr c).1 = "10.0.0.1" /\ processing_enabled c = true /\ is_Some (Config.credentials c).
Proof.
  destruct (load_config None true empty_files run_environment (Some "/.relay") run_arguments) as [c|e] eqn:E.
  - destruct (settings_precedence _ _ _ _ _ _ _ E) as (file & Hf & _ & Hh & Hp & _ & Hs & Hc).
    change (Some "10.0.0.1" = Some (listen_addr c).1) in Hh. change (Some true = Some (processing_enabled c)) in Hp.
    exists c. split_and!; [done|congruence|congruence|]. apply Hc. destruct Hs as (_ & _ & _ & _ & _ & _ & _ & Hm & _).
    rewrite Hm. vm_compute in Hf. injection Hf as <-. reflexivity.
  - vm_compute in E. discriminate E.
Defined.

Definition no_files : Files := MkFiles ∅ ∅ ∅ ∅.

Lemma init_config_ready_witness :
  exists fs', init_config "/" true new_credentials [Terminal.Choice 0] no_files ".relay" = (fs', Ok (Some true))
    /\ (exists c, from_path (Some "/") true fs' ".relay" = Ok c /\ check_config c = Ok ())
    /\ init_config "/" true new_credentials [] fs' ".relay" = (fs', Ok (Some false)).
Proof.
  destruct (init_config "/" true new_credentials [Terminal.Choice 0] no_files ".relay") as [fs' r] eqn:E.
  assert (r = Ok (Some true)) as -> by (vm_compute in E; congruence).
  destruct (init_config_ready "/" true new_credentials [Terminal.Choice 0] no_files ".relay" fs' true) as [Hc Hagain];
    [reflexivity|set_solver|exact E|].
  exists fs'. split_and!; [done|exact Hc|apply Hagain].
Defined.

End Witness.
