(* ===== verification/ConfigViews.v ===== *)
(** * relay-config: what the components read of the configuration (config.rs)

    The other files give each component a record with the settings that it reads.  Here
    these records are views of the configuration of RelayConfig.v: the settings of a
    component agree with the accessors of the configuration, and those of the default
    configuration satisfy what the theorems about the components require. *)

From Stdlib Require Import Ascii String.
From S2P Require Import Prelude Strings Floats Types Common Protocol Quota Filters Sampling Extractors Envelopes Sessions Auth MetricProtocol Aggregation Aggregator KafkaStore Http Projects Relays ProjectSources Upstream EnvelopeManager OutcomeProducers Endpoints RelayConfig.

Open Scope string_scope.
Open Scope Z_scope.
Open Scope list_scope.

Section Views.
Context `{ED : Ed25519} {HS : ByteSize.HumanSize}.

(** An identifier as [X-Sentry-Relay-Id] shows it. *)
Context (uuid_to_string : RelayId -> string).

Definition http_config (c : Config) : HttpConfig :=
  MkHttpConfig (RelayConfig.relay_mode c) (RelayConfig.processing_enabled c) (RelayConfig.upstream_descriptor c)
    (uuid_to_string <$> relay_id c) (http_host_header c) (HttpValues.auth_interval (http c))
    (HttpValues.outage_grace_period (http c)) (HttpValues.max_retry_interval (http c))
    (RelayConfig.max_concurrent_requests c) (RelayConfig.max_api_payload_size c).

Definition project_config (c : Config) : Projects.Config.Config :=
  Projects.Config.MkConfig (Cache.project_expiry (cache c)) (Cache.project_grace_period (cache c)) (Cache.miss_expiry (cache c))
    (RelayConfig.relay_mode c) (RelayConfig.aggregator_config c) (RelayConfig.processing_enabled c) (RelayConfig.max_secs_in_future c)
    (RelayConfig.max_secs_in_past c) (RelayConfig.max_session_secs_in_past c) (RelayConfig.max_event_size c)
    (RelayConfig.envelope_buffer_size c) (Cache.envelope_expiry (cache c)).

Definition source_config (c : Config) : SourceConfig :=
  MkSourceConfig (HttpValues.max_retry_interval (http c)) (Cache.batch_interval (cache c)) (query_batch_size c)
    (RelayConfig.max_concurrent_queries c) (Limits.query_timeout (limits c)) (RelayConfig.processing_enabled c).

Definition relay_cache_config (c : Config) : RelayCacheConfig :=
  MkRelayCacheConfig _ (Cache.relay_expiry (cache c)) (Cache.miss_expiry (cache c)) (Cache.batch_interval (cache c))
    (HttpValues.max_retry_interval (http c)) (RelayConfig.has_credentials c) (static_relays c).

Definition store_settings_of (c : Config) : StoreSettings :=
  MkStoreSettings (Processing.topics (processing c)) (RelayConfig.attachment_chunk_size c).

Definition outcome_config (c : Config) : OutcomeConfig :=
  MkOutcomeConfig (Outcomes.emit_outcomes (outcomes c)) (RelayConfig.processing_enabled c)
    (Z.to_nat (RelayConfig.outcome_batch_size c)) (RelayConfig.outcome_source c).

Definition endpoint_config (c : Config) : EndpointConfig :=
  MkEndpointConfig (RelayConfig.max_event_size c) (RelayConfig.max_attachment_size c) (RelayConfig.max_attachments_size c)
    (RelayConfig.max_session_count c) (RelayConfig.max_envelope_size c) (RelayConfig.processing_enabled c).

End Views.

(** ** The views agree with the accessors *)

Lemma views_agree `{ED : Ed25519, HS : ByteSize.HumanSize} uuid_to_string (c : Config) :
  Upstream.http_auth_interval (http_config uuid_to_string c) = RelayConfig.http_auth_interval c
  /\ Upstream.http_outage_grace_period (http_config uuid_to_string c) = RelayConfig.http_outage_grace_period c
  /\ Upstream.http_max_retry_interval (http_config uuid_to_string c) = RelayConfig.http_max_retry_interval c
  /\ Projects.Config.project_cache_expiry (project_config c) = RelayConfig.project_cache_expiry c
  /\ Projects.Config.cache_miss_expiry (project_config c) = RelayConfig.cache_miss_expiry c
  /\ Projects.Config.project_grace_period (project_config c) = RelayConfig.project_grace_period c
  /\ Projects.Config.envelope_buffer_expiry (project_config c) = RelayConfig.envelope_buffer_expiry c
  /\ OutcomeProducers.emit_outcomes (outcome_config c) = RelayConfig.emit_outcomes c
  /\ forall topic, KafkaStore.kafka_topic_name (store_settings_of c) topic = RelayConfig.kafka_topic_name c topic.
Proof. by split_and!. Qed.

(** ** The default configuration *)

Section Defaults.
Context `{ED : Ed25519} {B64 : Base64} {UP : UrlParser} {OE : OverrideEnv}.
Context {HS : ByteSize.HumanSize} {HL : ByteSize.HumanSizeLaws}.

Lemma mebibytes_bytes n : 0 <= n <= 1024 -> ByteSize.as_bytes (ByteSize.mebibytes n) = n * 1048576.
Proof. intros Hn. unfold ByteSize.mebibytes. rewrite multiple_bytes; [done|done|lia|]. simpl. lia. Qed.

(** Whatever is overridden, the default configuration gives the components settings
    with which they work: batches of project states are neither empty nor overflow,
    attachments are cut into chunks of a mebibyte, buckets of metrics have a length,
    outcomes are batched, requests can be sent, and an envelope may hold the largest
    event and attachment. *)
Theorem default_config_works o fs num_cpus c :
  apply_override o (Config.default_ fs num_cpus) = (c, Ok ()) ->
  SourceWorld.config_ok (source_config c)
  /\ KafkaStore.attachment_chunk_size (store_settings_of c) = 1048576
  /\ 0 < AggregatorConfig.bucket_interval (Projects.Config.aggregator_config (project_config c))
  /\ (0 < OutcomeProducers.outcome_batch_size (outcome_config c))%nat
  /\ 0 < Upstream.max_concurrent_requests (http_config (fun _ => "") c)
  /\ 0 < Endpoints.max_event_size (endpoint_config c) <= Endpoints.max_envelope_size (endpoint_config c)
  /\ Endpoints.max_attachment_size (endpoint_config c) <= Endpoints.max_envelope_size (endpoint_config c).
Proof.
  intros (_ & _ & _ & _ & _ & _ & _ & Hs)%overrides_in_effect.
  destruct Hs as (_ & _ & Hcache & Hlimits & Hagg & _ & _ & _ & _ & Hchunk & Hbatch & _).
  unfold source_config, SourceWorld.config_ok, query_batch_size, RelayConfig.max_concurrent_queries. cbn [batch_size max_concurrent_queries].
  unfold store_settings_of, project_config, outcome_config, http_config, endpoint_config. cbn.
  unfold RelayConfig.attachment_chunk_size, RelayConfig.max_concurrent_requests, RelayConfig.max_event_size, RelayConfig.max_envelope_size,
    RelayConfig.max_attachment_size.
  rewrite Hcache, Hlimits, Hagg, Hchunk, Hbatch. cbn. unfold Processing.default_chunk_size.
  rewrite !mebibytes_bytes by lia. unfold u64_max. by split_and!; lia.
Qed.

End Defaults.

(** ** Witness *)

Section Witness.
#[local] Existing Instances Toy.ed Toy.b64 text_env no_urls.

Lemma default_config_works_witness :
  exists c, apply_override enable_processing (Config.default_ empty_files 4) = (c, Ok ())
    /\ KafkaStore.attachment_chunk_size (store_settings_of (HS := whole_sizes) c) = 1048576.
Proof.
  destruct (apply_override enable_processing (Config.default_ empty_files 4)) as [c r] eqn:E.
  assert (r = Ok ()) as -> by (vm_compute in E; congruence).
  destruct (default_config_works (HS := whole_sizes) (HL := whole_sizes_laws) enable_processing empty_files 4 c E) as (_ & Hc & _).
  exists c. split; [done|exact Hc].
Defined.

End Witness.
